(* ===== verification/_CoqProject ===== *)
-Q . S2P
Prelude.v
IntTypes.v
SafeConversions.v
CheckedMath.v
CheckedExpr.v
ClampedMath.v
RtcNumerics.v
Units.v
SwapQueue.v
IntrusiveHeap.v
CircularDeque.v
Buffer.v
FlatTree.v
IdMap.v
Containers.v
SeqNum.v
ByteIO.v
HResult.v
FloatTypes.v
FloatRounding.v
MovingStatistics.v
H264Sink.v
AttributeQueue.v
H264Fragments.v
H264Geometry.v
H264Encoder.v
H264Decoder.v
H264DecoderRuns.v
TcpServer.v
Session.v
Capture.v
Frames.v
MainPage.v
WinRT.v
WinrtCapture.v
WinrtCaptureRuns.v
WinrtDeviceInfo.v
WinrtDeviceInfoRuns.v
AudioDevice.v
AudioCore.v
AudioDeviceRuns.v
AudioTransport.v
AudioData.v
AudioThreads.v
