(* ===== verification/Prelude.v ===== *)
(** * WeiRtc Windows native: a verification library

    ** The program

    The repository is a C++/WinRT wrapper of libwebrtc for Windows with a sample
    application.  Two copies of the sample share a desktop over WebRTC:

    - [src/WeiRtcSampleApp] is the application.  [MainPage] finds the machine's WiFi
      address and uses it as the name of a room, [WeiRtcApp] creates a [WebRtcSample]
      with its tracks, [SimpleTcpSignaling] translates session descriptions and ICE
      candidates to and from JSON, and [DirectTcpServer] carries the JSON text over a
      blocking TCP connection.
    - [src/WeiStreaming.WeiRtc.Native] is the wrapper.  [PeerConnection] and its two
      observers forward calls and callbacks, [DesktopCapturer] and [CameraCapturer]
      produce frames, [VideoSource] adapts them for the encoder, [VideoRender] paints
      received ones.
    - [src/libwebrtc] holds the headers of libwebrtc the wrapper is compiled with.
      Their inline code runs in the program: the checked, saturated and safe integer
      arithmetic, the units of time, size and rate, the wrapping sequence numbers, the
      byte order of RTP fields, the queue between two threads, and the containers and
      moving statistics that the code of libwebrtc is built with.  The rest of libwebrtc is a
      binary.
    - [src/patches_for_WebRTC_org] holds sources that are compiled into that binary.  The
      H264 encoder of Media Foundation gives samples to a sink writer; the media sink
      [H264MediaSink] at its end has one stream, [H264StreamSink], whose work queue
      thread hands the encoded samples back to the encoder.  The decoder calls a transform
      of Media Foundation directly.  [VideoCaptureWinRT] and [DeviceInfoWinRT] choose and
      run a camera of the Windows Runtime.  [AudioDeviceWindowsCore] owns a device that
      records and a device that plays, each with a thread between Core Audio and the audio
      buffer of libwebrtc.

    ** The files

    - [Prelude] (this file): undefined behaviour as [option] and [exec], [RTC_CHECK],
      [RTC_DCHECK] and [assert] for a given [Build], tactics, the hint databases
      [weirtc] and [weirtc_rw], and lemmas on bits and powers of two.
    - [IntTypes]: the eight fixed-width integer types of C++, their limits,
      conversions, promotions and operators, with undefined results as [None].
    - [SafeConversions], [CheckedMath], [ClampedMath]: the three layers of
      [base/numerics], a file for each header pair.  Template parameters are
      [int_type] arguments and a specialization is a branch on them; the functions
      [Do] keep the name of their functor as a module ([CheckedAddOp.Do]).  The class
      [CheckedOp] is what the variadic layer relies on of a functor; every functor of
      [checked_math_impl.h] has an instance.  [CheckedExpr]: expressions of checked numbers
      and their types.
    - [RtcNumerics]: [rtc_base/numerics], a module per header.
    - [Units]: [unit_base.h] and its five final classes.  A value is its [int64_t].
    - [SeqNum]: [mod_ops.h], [sequence_number_util.h] and the unwrappers.
    - [SwapQueue]: [swap_queue.h], the steps of a producer and a consumer thread.
    - [IntrusiveHeap]: [intrusive_heap.h], a vector of elements that hold their position.
      [CircularDeque]: [circular_deque.h], slots that hold an object or none.  [Buffer]:
      [rtc_base/buffer.h], cells that were written or not, and the memory given back.
      [FlatTree]: [flat_tree.h] and [flat_map.h], a sorted list, with the algorithms of
      the standard library by their documented preconditions and results.  [IdMap]:
      [id_map.h] and its iterators; it calls [FlatTree], as the code does.  [Containers]:
      modules [Links] ([linked_list.h], a store of nodes), [Ring] ([ring_buffer.h]) and
      [Mru] ([mru_cache.h]).  In each, [call] is the type of the calls, [run_calls] runs
      them by the definitions of the code, and a specification on lists or finite maps
      says what they are to do.
    - [MovingStatistics]: [running_statistics.h], [rolling_accumulator.h],
      [moving_max_counter.h], [percentile_filter.h] and [moving_median_filter.h], a
      module each, for any arithmetic of the means.
    - [ByteIO]: [byte_io.h], on the list of the bytes from a pointer to the end of its
      buffer.
    - [HResult]: result codes and the macro [ON_SUCCEEDED] of the patches.  [FloatTypes]:
      float and double, on the Standard Library's specification of IEEE 754.
      [FloatRounding]: bounds of the rounded sum, quotient and conversion of doubles, in
      integers.
    - [H264Sink]: modules [StreamSink] and [MediaSink], every operation of the two sinks;
      the stream as a system of its clients and its work queue thread.
    - [AttributeQueue], [H264Fragments], [H264Geometry]: parts of the encoder: the queue of
      the attributes of the frames in flight, the scan of a sample for NAL units, the
      layout of a frame in its buffer.
    - [H264Encoder]: [H264EncoderMFImpl], every operation, with the results of its calls
      into Media Foundation given and the calls recorded.
    - [H264Decoder]: [H264DecoderMFImpl], every operation; Media Foundation answers each
      call by the calls made before it.  [H264DecoderRuns]: the theorems on its runs.
    - [TcpServer]: [DirectTcpServer] as a trace of WinSock calls, for given results of
      these calls (the record [network]), and a monitor of what is held at each point.
    - [Session]: [SessionDescription], [IceCandidate], [PeerConnection], the observers,
      [SimpleTcpSignaling], [WebRtcSample] and [WeiRtcApp].  A record [Sample] holds
      what the objects keep between calls, and the calls made into libwebrtc and the
      messages sent are appended to it in order; [step] and [reachable] put messages,
      callbacks and calls of the application in any order.  It uses [TcpServer] through
      the class [TcpChannelEventsHandler], as the code does through the interface of
      that name.
    - [Capture]: module [Thread] is the capture thread of [DesktopCapturer] interleaved
      with the thread that starts and stops it; module [Camera] is the choice of the
      capability of the camera.
    - [Frames]: the frame path.  Buffers are shared, so they live in a store and a
      frame holds the index of its buffer: [DesktopCapturer::OnCaptureResult],
      [VideoSource] and [VideoRender].
    - [MainPage]: the choice of the address.
    - [WinRT]: the monad of the functions that call the Windows Runtime, [com]: a state of
      the object, the calls made so far and the time; its outcomes are a result, a failed
      [HRESULT], undefined behaviour, or a call that does not return.  And
      [help_functions_winrt], above all the waits for asynchronous operations.
    - [WinrtCapture], [WinrtDeviceInfo]: [video_capture_winrt.cc] and
      [device_info_winrt.cc], every operation; [WinrtCaptureRuns], [WinrtDeviceInfoRuns]:
      the theorems on them.
    - [AudioDevice]: [audio_device_core_win.cc] up to the threads: module [Devices] is the
      class [DeviceHelper], module [Helper] the class [AudioDeviceHelper], modules
      [CaptureDevice] and [RenderDevice] the classes derived from it.  [AudioCore]:
      [AudioDeviceWindowsCore], on pointers that may be null or dangling.
      [AudioDeviceRuns]: theorems on both.
    - [AudioTransport]: the functions of the two threads, cut where they wait or take the
      critical section; the class [VirtualDevice] is what the derived classes override,
      and its laws [VirtualDeviceLaws] are proved for both.  [AudioData]: what the threads
      do to the data.  [AudioThreads]: the caller, the threads that were started and
      whoever else holds the critical section, interleaved; proved for every
      [VirtualDevice] with its laws.

    A definition has the name of its function and, next to it or at the head of its
    section, the source it translates.  Code that is not in the repository is a
    parameter: libwebrtc's descriptions, candidates and connection (class [WebRtc]),
    the Windows JSON classes ([Json], with the laws [JsonLaws]), WinSock ([network]),
    libyuv, the video adapter and the broadcaster ([VideoLibrary], with the laws
    [AdapterLaws]), the network adapters of the machine, Media Foundation (classes in
    [H264Sink], the record [env] in [H264Encoder], [media_foundation] in [H264Decoder]), the Windows Runtime ([WinRT]: the
    result of each call by the calls made before it, and the course of each asynchronous
    operation), what its objects hold ([Cameras], [FrameReader], [AudioSystem]), and the
    conversion between UTF-8 and UTF-16 ([Unicode]).  The parameters with laws have
    concrete instances, used in the examples at the end of the files.

    ** What is shown

    - Signaling and lifetime: whatever arrives in whatever order, and whatever libwebrtc
      calls back in the middle of a call, the calls into libwebrtc are complete
      offer-answer exchanges ([reachable_inv]); which runs use
      the deleted connection factory ([run_undefined_iff]); what each message does
      ([OnTcpMessage_dispatch]); what survives of descriptions and candidates on the
      way to the other sample ([created_description_ignored], [candidate_wire]); the
      life of the application object ([Init_lifecycle]).
    - Transport: every path of the server releases what it acquired, unless a send
      fails ([Start_releases], [Send_failure_double_release]); how the byte stream is
      cut into messages ([Start_messages]).
    - Capture: all interleavings are safe for an owner that starts once at a time and
      leaves disposal to the destructor, and no others are; the worker always returns;
      a start can be lost ([capture_safe], [undisciplined_owner],
      [StopCapture_terminates], [StartCapture_race]).
    - Frames: buffers, sizes and timestamps along a stream of frames; where the reuse of
      a buffer by its area is safe and where it leaves the buffer ([VideoRender_paints]).
    - Integers: each layer is shown to compute the mathematical result when it says so
      and to say so whenever it can, for all combinations of types at once
      ([CheckMathOp_exact], [saturated_cast_nearest]); the combinations where the code is undefined or wrong are characterized.  Expressions of
      checked numbers are sound for the types the templates compute ([expressions_typed]).
    - Units, sequence numbers and byte order: exactness, rounding, order, and the two
      round trips [SeqNumUnwrapper_recovers] and [ByteIO_roundtrip].
    - The queue of two threads: every interleaving is a run of an abstract bounded queue,
      without races and without waiting ([SwapQueue_linearizable], [SwapQueue_race_free],
      [SwapQueue_wait_free]).
    - Containers: a client that keeps to the contract sees the abstract type, whatever the
      sequence of calls: a heap with handles that agree ([heap_calls]), a list for the
      deque ([deque_calls]), the buffer ([buffer_calls]) and the linked list
      ([linked_list_calls]), a finite map for the flat tree ([flat_tree_calls],
      [flat_map_operations]) and the map of ids ([idmap_calls]), the last values for the
      ring ([ring_buffer_last]), the last used entries for the cache ([mru_recency]).  Memory
      given back is zero where it has to be ([zero_on_free]), loops that change the map they
      go over end ([for_each_visits]), and what happens outside of the contract is settled
      where the code has checks ([heap_call_result]) or reads its own elements
      ([push_back_element], [append_own], [put_key_of_element]).
    - Statistics: the running formulas (over exact rationals; the variance is that of the
      population) and the sliding windows give the values of their definitions over the
      samples that are in the window ([running_statistics_exact],
      [rolling_extremes], [moving_max], [percentile_answers], [moving_median]).
    - H264 sinks: samples leave the stream in their order, and all of them do when nothing
      fails ([StreamSink_fifo], [StreamSink_delivers]); which steps and queries are
      undefined ([StreamSink_undefined_iff]).
    - H264 encoder: the invariant of its states, which calls are undefined, what a frame
      becomes and how a lost sample stops it ([Encoder_invariant],
      [Encode_undefined_iff], [Encode_functional], [Encode_stall]); the attributes and
      fragments of what comes out ([OnH264Encoded_image], [AttributeQueue_refines]); the
      copy into the sample, in which a plane that leaves the frame or the sample is
      undefined ([FromVideoFrame_within]).
    - H264 decoder: [Decode] returns ([Decode_returns]), key frames come first
      ([keyframe_comes_first]), sample times computed in doubles are rounded to the
      nearest millisecond ([next_sample_time_spec]), frames carry the stamp of the image
      they came out with ([Decode_frames]) and are read within their buffer
      ([copy_data_within]); the examples of [H264DecoderRuns] show what a wrapped
      timestamp, a second initialization or a lost key frame do.
    - Camera: a wait comes back in time and with which result ([WaitForAsync_outcome]); the
      source and format that are chosen ([StartCapture_outcome]); an object that captures
      holds a camera and a reader ([capture_invariant]); every reference to a frame is
      closed once, and which frames are delivered ([FrameArrived_closes],
      [FrameArrived_delivers]); the capabilities that are listed and which camera a listed
      one opens ([CreateCapabilityMap_contents], [mapped_capability_chooses]).
    - Audio devices: which calls are undefined along the life of the object
      ([core_lifecycle], [microphone_has_no_volume]); the format that is chosen
      ([InitRecording_format]); what is stored as a name, and as a volume
      ([DeviceName_stores], [volume_read_back]).
    - Audio threads: recording is a queue of bytes cut into blocks of ten milliseconds
      ([capture_fifo]), playing fills the free part of the buffer ([render_fills]).  The
      flags and handles agree in every interleaving ([control_invariant]), at most one
      thread runs as long as no stop times out ([joined_invariant]), starts and stops come
      back ([caller_returns]); and what the critical section, held while one waits for the
      thread, makes of a failed start and of a stop ([failed_start_spoils_next],
      [stop_before_turn_times_out]).

    ** Bounds and fuel

    Integers have the widths of the source: every operator goes through [IntTypes],
    which wraps unsigned results and makes signed overflow undefined.  Most loops
    are recursions on the data they walk, on a byte count, or on the list of the results
    that WinSock returns; the server waits for more when that list is used up.  Some
    components take fuel.  The scan of [H264Fragments] takes the length of the sample
    plus one, which is enough ([scan_fragments_bounds]).  The loops of [H264Decoder] end
    when Media Foundation says so; out of fuel they still run, a result of its own, and
    [Decode_returns] shows that there is enough fuel and that more changes nothing.  The
    search of [WinrtCapture] for a source takes the number of sources plus one, and
    [CaptureThread.deliver] the number of frames in the buffer, each turn of which removes
    a block; that both are enough is part of [StartCapture_outcome] and [capture_fifo],
    in which [Running] does not occur.  The walks over a [LinkedList], a [RingBuffer] and an
    [IDMap], and the descent of a hole in a heap, take the number of elements, or that
    number plus one: that this is enough is part of [linked_list_calls], [ring_buffer_last],
    [for_each_visits] and [heap_calls], whose results are those of walks that ended.  The capture thread is a step relation, and
    [StopCapture_terminates] bounds its steps after a stop; so are the audio threads, of
    which a wait may have any result that its events allow.  Time passes only in the waits
    for asynchronous operations.

    ** What is not modelled

    The conversions of units from and to [double] and the floating-point branches of
    [base/numerics] (floating point is modelled where the H264 encoder, the decoder and the
    audio threads use it); pixels; painting on the thread of the user
    interface and the XAML controls; the factory of peer connections, which only calls
    into libwebrtc; the data race on [_isRunning] beyond interleaving; memory that is
    leaked; messages to the log, among them [_TraceCOMError]; the names of threads; a failure
    to create an event of an audio device, or to allocate memory.  Of the
    containers: [small_map.h], [stack_container.h], [span.h] and [vector_buffer.h] beyond
    what the deque uses; the hash tables and node containers of the standard library are
    lists whose order is a parameter.

    Most other headers under [src/libwebrtc] are interfaces of code that is only there as a
    binary, tables, or macros: they have no behaviour to model without it.  Those with a
    behaviour of their own that are left ([copy_on_write_buffer.h], [small_map.h],
    [VideoTrackSource], the conversions of units to [double]) are small or rest on parts of
    the binary. *)

From Stdlib Require Export ZArith Lia Bool List.
From stdpp Require Export base option list numbers.

#[global] Open Scope Z_scope.
#[global] Set Default Goal Selector "!".

(** ** Undefined behaviour and failed instantiation as an option

    C++ code that may execute undefined behaviour (a signed overflow, a shift
    out of range, a division by zero) or that may not compile for its template
    arguments is translated into [option]: [None] is "undefined or ill-formed".
    The bind is stdpp's [x ← e; k]. *)

Declare Scope weirtc_scope.
Delimit Scope weirtc_scope with weirtc.
#[global] Open Scope weirtc_scope.

Notation "a '&&&' b" := (andb a b) (at level 40, left associativity, only parsing) : weirtc_scope.

(** [guard_b b e]: continue with [e] when [b] holds, undefined otherwise. *)
Definition guard_b {A} (b : bool) (e : option A) : option A :=
  if b then e else None.

Lemma guard_b_Some {A} b (e : option A) r :
  guard_b b e = Some r <-> b = true /\ e = Some r.
Proof. destruct b; cbn; intuition congruence. Qed.

(** ** Checked execution

    Code with run-time checks ends in a value, in a failed check (the process is
    aborted with a message) or in undefined behaviour. *)

Inductive exec (A : Type) := Done (a : A) | Fatal | Undef.
Arguments Done {A} a.
Arguments Fatal {A}.
Arguments Undef {A}.

#[export] Instance exec_ret : MRet exec := fun _ a => Done a.
#[export] Instance exec_bind : MBind exec := fun _ _ f m =>
  match m with Done a => f a | Fatal => Fatal | Undef => Undef end.

(** An operation that may be undefined, inside checked code. *)
Definition defined {A} (o : option A) : exec A :=
  match o with Some a => Done a | None => Undef end.

(** The build configuration: whether [RTC_DCHECK] and [assert] are compiled in and
    the size of a pointer (4 on x86 and ARM, 8 on x64). *)
Class Build := { rtc_dcheck_is_on : bool; assert_is_on : bool; sizeof_int_ptr : Z }.

Definition RTC_CHECK {A} (c : bool) (k : exec A) : exec A := if c then k else Fatal.
Definition RTC_DCHECK `{Build} {A} (c : bool) (k : exec A) : exec A :=
  if rtc_dcheck_is_on && negb c then Fatal else k.
Definition c_assert `{Build} {A} (c : bool) (k : exec A) : exec A :=
  if assert_is_on && negb c then Fatal else k.

(** A debug check whose condition is itself evaluated. *)
Definition RTC_DCHECK_eval `{Build} {A} (c : exec bool) (k : exec A) : exec A :=
  if rtc_dcheck_is_on then b ← c; if (b : bool) then k else Fatal else k.

Lemma exec_bind_Done {A B} (m : exec A) (f : A -> exec B) y :
  (m ≫= f) = Done y -> exists x, m = Done x /\ f x = Done y.
Proof. destruct m as [a| |]; try discriminate. by exists a. Qed.

Lemma RTC_DCHECK_true `{Build} {A} c (k : exec A) : c = true -> RTC_DCHECK c k = k.
Proof. intros ->. unfold RTC_DCHECK. by rewrite andb_false_r. Qed.

(** Builds used in examples. *)
Definition debug_x64 : Build := {| rtc_dcheck_is_on := true; assert_is_on := true; sizeof_int_ptr := 8 |}.
Definition release_x64 : Build := {| rtc_dcheck_is_on := false; assert_is_on := false; sizeof_int_ptr := 8 |}.
Definition release_x86 : Build := {| rtc_dcheck_is_on := false; assert_is_on := false; sizeof_int_ptr := 4 |}.

Create HintDb weirtc discriminated.
Create Rewrite HintDb weirtc_rw.

(** ** Automation shared by all files *)

(** Turn boolean comparisons of the context and the goal into propositions. *)
Ltac boolprop :=
  repeat match goal with
  | H : (_ && _)%bool = true |- _ => apply andb_true_iff in H; destruct H
  | H : (_ || _)%bool = false |- _ => apply orb_false_iff in H; destruct H
  | H : negb _ = true |- _ => apply negb_true_iff in H
  | H : negb _ = false |- _ => apply negb_false_iff in H
  | H : (_ <=? _) = true |- _ => apply Z.leb_le in H
  | H : (_ <=? _) = false |- _ => apply Z.leb_gt in H
  | H : (_ <? _) = true |- _ => apply Z.ltb_lt in H
  | H : (_ <? _) = false |- _ => apply Z.ltb_ge in H
  | H : (_ =? _) = true |- _ => apply Z.eqb_eq in H
  | H : (_ =? _) = false |- _ => apply Z.eqb_neq in H
  end.

(** Equality of booleans from the equivalence of what they state. *)
Lemma bool_eq_iff (a b : bool) : (a = true <-> b = true) -> a = b.
Proof. destruct a, b; intuition congruence. Qed.

(** Case analysis on every boolean comparison in sight, closed by [lia]. *)
Ltac bdestruct_all :=
  repeat match goal with
  | |- context [?a <=? ?b] => destruct (Z.leb_spec a b)
  | |- context [?a <? ?b] => destruct (Z.ltb_spec a b)
  | |- context [?a =? ?b] => destruct (Z.eqb_spec a b)
  end.

Ltac bool_lia := bdestruct_all; cbn [andb orb negb xorb]; try lia; try reflexivity.

(** ** Generic lemmas on powers of two and bits *)

Lemma pow2_pos n : 0 < 2 ^ n \/ n < 0.
Proof.
  destruct (Z.lt_ge_cases n 0) as [H|H]; [by right|].
  left. by apply Z.pow_pos_nonneg.
Qed.

Lemma pow2_split w : 0 < w -> 2 ^ w = 2 * 2 ^ (w - 1).
Proof. intros H. rewrite <- Z.pow_succ_r by lia. f_equal; lia. Qed.

(** The top bit of a [w]-bit unsigned value. *)
Lemma testbit_top w u :
  0 < w -> 0 <= u < 2 ^ w -> Z.testbit u (w - 1) = (2 ^ (w - 1) <=? u).
Proof.
  intros Hw Hu. apply bool_eq_iff.
  rewrite Z.testbit_true, Z.leb_le by lia.
  pose proof (pow2_split w Hw) as Hp.
  assert (0 < 2 ^ (w - 1)) by (apply Z.pow_pos_nonneg; lia).
  pose proof (Z.div_mod u (2 ^ (w - 1)) ltac:(lia)) as Hd.
  pose proof (Z.mod_pos_bound u (2 ^ (w - 1)) ltac:(lia)) as Hm.
  assert (0 <= u / 2 ^ (w - 1) < 2) as Hq.
  { split; [apply Z.div_pos; lia|]. apply Z.div_lt_upper_bound; lia. }
  generalize dependent (u / 2 ^ (w - 1)). intros q Hd Hq.
  assert (q = 0 \/ q = 1) as [-> | ->] by lia.
  - change (0 mod 2) with 0. split; [done|nia].
  - change (1 mod 2) with 1. split; [nia|done].
Qed.

Lemma lxor_ones w u : 0 <= w -> 0 <= u < 2 ^ w -> Z.lxor u (2 ^ w - 1) = 2 ^ w - 1 - u.
Proof.
  intros Hw Hu. rewrite <- Z.ones_equiv || replace (2 ^ w - 1) with (Z.ones w) by (rewrite Z.ones_equiv; lia).
  assert (Z.land u (Z.lxor u (Z.ones w)) = 0) as Hd.
  { apply Z.bits_inj'. intros i Hi.
    rewrite Z.land_spec, Z.lxor_spec, Z.bits_0.
    destruct (Z.lt_ge_cases i w).
    - rewrite Z.ones_spec_low by lia. by destruct (Z.testbit u i).
    - rewrite Z.ones_spec_high by lia.
      replace u with (u mod 2 ^ w) by (apply Z.mod_small; lia).
      by rewrite Z.mod_pow2_bits_high. }
  apply Z.add_nocarry_lxor in Hd.
  rewrite <- Z.lxor_assoc, Z.lxor_nilpotent, Z.lxor_0_l in Hd. lia.
Qed.

Lemma lxor_m1 u : Z.lxor u (-1) = - u - 1.
Proof. rewrite Z.lxor_m1_r. unfold Z.lnot. lia. Qed.

(** A nonnegative integer without bits from position [w] up is below [2^w]. *)
Lemma bits_bounded w z :
  0 <= w -> 0 <= z -> (forall i, w <= i -> Z.testbit z i = false) -> z < 2 ^ w.
Proof.
  intros Hw Hz Hb.
  assert (z mod 2 ^ w = z) as <-; [|apply Z.mod_pos_bound, Z.pow_pos_nonneg; lia].
  apply Z.bits_inj'. intros i Hi. destruct (Z.lt_ge_cases i w).
  - by apply Z.mod_pow2_bits_low.
  - rewrite Z.mod_pow2_bits_high by lia. by rewrite Hb.
Qed.

Lemma testbit_high w z i : 0 <= z < 2 ^ w -> w <= i -> Z.testbit z i = false.
Proof.
  intros Hz Hi. destruct (Z.lt_ge_cases w 0).
  - rewrite Z.pow_neg_r in Hz by lia. lia.
  - replace z with (z mod 2 ^ w) by (apply Z.mod_small; lia). by apply Z.mod_pow2_bits_high.
Qed.

Lemma land_bounded w a b : 0 <= w -> 0 <= a < 2 ^ w -> 0 <= b < 2 ^ w -> 0 <= Z.land a b < 2 ^ w.
Proof.
  intros Hw Ha Hb. split; [apply Z.land_nonneg; lia|].
  apply bits_bounded; [done|apply Z.land_nonneg; lia|].
  intros i Hi. by rewrite Z.land_spec, (testbit_high w a) by done.
Qed.

Lemma lor_bounded w a b : 0 <= w -> 0 <= a < 2 ^ w -> 0 <= b < 2 ^ w -> 0 <= Z.lor a b < 2 ^ w.
Proof.
  intros Hw Ha Hb. split; [apply Z.lor_nonneg; lia|].
  apply bits_bounded; [done|apply Z.lor_nonneg; lia|].
  intros i Hi. by rewrite Z.lor_spec, (testbit_high w a), (testbit_high w b) by done.
Qed.

Lemma lxor_bounded w a b : 0 <= w -> 0 <= a < 2 ^ w -> 0 <= b < 2 ^ w -> 0 <= Z.lxor a b < 2 ^ w.
Proof.
  intros Hw Ha Hb. assert (0 <= Z.lxor a b) by (apply Z.lxor_nonneg; lia).
  split; [done|]. apply bits_bounded; [done..|].
  intros i Hi. by rewrite Z.lxor_spec, (testbit_high w a), (testbit_high w b) by done.
Qed.

(** Exclusive or of signed values stays within the same bits. *)
Lemma lxor_signed_bounded n x y :
  0 <= n -> - 2 ^ n <= x < 2 ^ n -> - 2 ^ n <= y < 2 ^ n -> - 2 ^ n <= Z.lxor x y < 2 ^ n.
Proof.
  intros Hn Hx Hy.
  destruct (Z.lt_ge_cases x 0), (Z.lt_ge_cases y 0).
  - rewrite <- Z.lxor_lnot_lnot.
    pose proof (lxor_bounded n (Z.lnot x) (Z.lnot y)). unfold Z.lnot in *. lia.
  - replace x with (Z.lnot (Z.lnot x)) by apply Z.lnot_involutive. rewrite <- Z.lnot_lxor_l.
    pose proof (lxor_bounded n (Z.lnot x) y). unfold Z.lnot in *. lia.
  - replace y with (Z.lnot (Z.lnot y)) by apply Z.lnot_involutive. rewrite <- Z.lnot_lxor_r.
    pose proof (lxor_bounded n x (Z.lnot y)). unfold Z.lnot in *. lia.
  - pose proof (lxor_bounded n x y). lia.
Qed.

Lemma lxor_sign x y : (Z.lxor x y <? 0) = xorb (x <? 0) (y <? 0).
Proof.
  pose proof (Z.lxor_nonneg x y) as H.
  destruct (Z.ltb_spec (Z.lxor x y) 0), (Z.ltb_spec x 0), (Z.ltb_spec y 0); cbn; lia.
Qed.

Lemma le_div_iff a b c : 0 < c -> (a <=? b / c) = (c * a <=? b).
Proof.
  intros Hc. apply bool_eq_iff. rewrite !Z.leb_le. split; intros H.
  - pose proof (Z.mul_div_le b c Hc). nia.
  - by apply Z.div_le_lower_bound.
Qed.

Lemma quot_abs_le x y : y <> 0 -> Z.abs (Z.quot x y) <= Z.abs x /\ (2 <= Z.abs y -> 2 * Z.abs (Z.quot x y) <= Z.abs x).
Proof.
  intros Hy. rewrite <- Z.quot_abs, Z.quot_div_nonneg by lia.
  pose proof (Z.mul_div_le (Z.abs x) (Z.abs y) ltac:(lia)).
  pose proof (Z.div_pos (Z.abs x) (Z.abs y) ltac:(lia) ltac:(lia)). nia.
Qed.

Lemma quot_nonneg x y : 0 <= x -> 0 < y -> 0 <= Z.quot x y.
Proof. intros. by apply Z.quot_pos. Qed.

(** A truncated quotient has the sign of the product of its operands, or is 0. *)
Lemma quot_sign x y :
  y <> 0 -> if xorb (x <? 0) (y <? 0) then Z.quot x y <= 0 else 0 <= Z.quot x y.
Proof.
  intros H. destruct (Z.ltb_spec x 0), (Z.ltb_spec y 0); cbn.
  - rewrite <- Z.quot_opp_opp by done. apply Z.quot_pos; lia.
  - assert (0 <= Z.quot (- x) y) as Hq by (apply Z.quot_pos; lia).
    rewrite Z.quot_opp_l in Hq by done. lia.
  - assert (0 <= Z.quot x (- y)) as Hq by (apply Z.quot_pos; lia).
    rewrite Z.quot_opp_r in Hq by done. lia.
  - apply Z.quot_pos; lia.
Qed.
