(* ===== verification/IntTypes.v ===== *)
(** * IntTypes: the fixed-width integer types of C++

    The eight integer types [int8_t] ... [uint64_t] as an inductive type,
    [std::numeric_limits], [static_cast] between them (modulo 2^w, as the
    compilers of this program define it), the integral promotions and usual
    arithmetic conversions, and the arithmetic operators with their undefined
    cases as [None].  This file models the language, not the repository: its
    definitions are what the translated headers are written with. *)

From S2P Require Import Prelude.

Inductive int_type :=
  Int8 | Uint8 | Int16 | Uint16 | Int32 | Uint32 | Int64 | Uint64.

#[export] Instance int_type_eq_dec : EqDecision int_type.
Proof. solve_decision. Defined.

Definition width (t : int_type) : Z :=
  match t with
  | Int8 | Uint8 => 8 | Int16 | Uint16 => 16
  | Int32 | Uint32 => 32 | Int64 | Uint64 => 64
  end.

Definition is_signed (t : int_type) : bool :=
  match t with Int8 | Int16 | Int32 | Int64 => true | _ => false end.

(** [std::numeric_limits<T>]. *)
Definition lowest (t : int_type) : Z := if is_signed t then - 2 ^ (width t - 1) else 0.
Definition max (t : int_type) : Z :=
  if is_signed t then 2 ^ (width t - 1) - 1 else 2 ^ width t - 1.
Definition digits (t : int_type) : Z := if is_signed t then width t - 1 else width t.

Definition make_unsigned (t : int_type) : int_type :=
  match t with
  | Int8 | Uint8 => Uint8 | Int16 | Uint16 => Uint16
  | Int32 | Uint32 => Uint32 | Int64 | Uint64 => Uint64
  end.
Definition make_signed (t : int_type) : int_type :=
  match t with
  | Int8 | Uint8 => Int8 | Int16 | Uint16 => Int16
  | Int32 | Uint32 => Int32 | Int64 | Uint64 => Int64
  end.

(** A mathematical integer is representable in [t]. *)
Definition in_range (t : int_type) (z : Z) : bool := (lowest t <=? z) && (z <=? max t).

Definition InRange (t : int_type) (z : Z) : Prop := lowest t <= z <= max t.

(** [static_cast<T>(z)]: the representative of [z] modulo [2^width]. *)
Definition static_cast (t : int_type) (z : Z) : Z :=
  if is_signed t
  then (z + 2 ^ (width t - 1)) mod 2 ^ width t - 2 ^ (width t - 1)
  else z mod 2 ^ width t.

(** [bool] converted to an integer. *)
Definition b2z (b : bool) : Z := if b then 1 else 0.

(** Integral promotion and the usual arithmetic conversions. *)
Definition promote (t : int_type) : int_type :=
  match t with Int8 | Uint8 | Int16 | Uint16 => Int32 | _ => t end.

Definition arith (t u : int_type) : int_type :=
  match promote t, promote u with
  | Uint64, _ | _, Uint64 => Uint64
  | Int64, _ | _, Int64 => Int64
  | Uint32, _ | _, Uint32 => Uint32
  | _, _ => Int32
  end.

(** The value of an arithmetic expression of type [r]: unsigned arithmetic
    wraps, signed overflow is undefined. *)
Definition arith_result (r : int_type) (z : Z) : option Z :=
  if is_signed r then (if in_range r z then Some z else None)
  else Some (static_cast r z).

Definition c_binop (op : Z -> Z -> Z) (t u : int_type) (x y : Z) : option Z :=
  let r := arith t u in arith_result r (op (static_cast r x) (static_cast r y)).

Definition c_add := c_binop Z.add.
Definition c_sub := c_binop Z.sub.
Definition c_mul := c_binop Z.mul.

Definition c_div (t u : int_type) (x y : Z) : option Z :=
  let r := arith t u in
  if static_cast r y =? 0 then None
  else arith_result r (Z.quot (static_cast r x) (static_cast r y)).

(** [x % y] is undefined when [y] is zero and when [x / y] is not representable. *)
Definition c_mod (t u : int_type) (x y : Z) : option Z :=
  let r := arith t u in
  if static_cast r y =? 0 then None
  else _ ← arith_result r (Z.quot (static_cast r x) (static_cast r y));
       Some (Z.rem (static_cast r x) (static_cast r y)).

(** Bitwise operators: total, in the common type. *)
Definition c_and (t u : int_type) (x y : Z) : Z :=
  let r := arith t u in Z.land (static_cast r x) (static_cast r y).
Definition c_or (t u : int_type) (x y : Z) : Z :=
  let r := arith t u in Z.lor (static_cast r x) (static_cast r y).
Definition c_xor (t u : int_type) (x y : Z) : Z :=
  let r := arith t u in Z.lxor (static_cast r x) (static_cast r y).
Definition c_not (t : int_type) (x : Z) : Z := static_cast (promote t) (Z.lnot x).
Definition c_neg (t : int_type) (x : Z) : option Z := arith_result (promote t) (- x).

(** Shifts: the left operand is promoted; the shift count must be in
    [[0, width)]; a left shift of a negative value, or one that does not fit in
    the unsigned type of the same width, is undefined; a right shift of a
    negative value is arithmetic. *)
Definition c_shl (t : int_type) (x s : Z) : option Z :=
  let r := promote t in
  if (s <? 0) || (width r <=? s) then None
  else if is_signed r
       then (if (x <? 0) || (max (make_unsigned r) <? Z.shiftl x s) then None
             else Some (static_cast r (Z.shiftl x s)))
       else Some (static_cast r (Z.shiftl x s)).

Definition c_shr (t : int_type) (x s : Z) : option Z :=
  let r := promote t in
  if (s <? 0) || (width r <=? s) then None else Some (Z.shiftr x s).

(** Comparison operators compare in the common type. *)
Definition c_cmp (op : Z -> Z -> bool) (t u : int_type) (x y : Z) : bool :=
  op (static_cast (arith t u) x) (static_cast (arith t u) y).
Definition c_lt := c_cmp Z.ltb.
Definition c_le := c_cmp Z.leb.
Definition c_gt := c_cmp Z.gtb.
Definition c_ge := c_cmp Z.geb.
Definition c_eq := c_cmp Z.eqb.

(** ** Automation *)

(** Evaluate the limits of concrete types to numerals. *)
Ltac limits :=
  repeat match goal with
  | H : InRange _ _ |- _ => unfold InRange in H
  end;
  unfold InRange in *;
  cbv [lowest max is_signed width digits make_unsigned make_signed promote arith] in *;
  repeat match goal with
  | |- context [2 ^ ?n] => let v := eval vm_compute in (2 ^ n) in change (2 ^ n) with v
  | H : context [2 ^ ?n] |- _ =>
      let v := eval vm_compute in (2 ^ n) in change (2 ^ n) with v in H
  end.

(** Close an arithmetic goal by cases on the types it mentions. *)
Ltac types_lia ts :=
  ts; cbv beta in *; try discriminate; cbn [b2z] in *; limits; cbn in *; lia.
Tactic Notation "tlia" constr(T) := types_lia ltac:(destruct T).
Tactic Notation "tlia" constr(T) constr(U) := types_lia ltac:(destruct T, U).

(** ** Lemmas *)

Lemma in_range_spec t z : in_range t z = true <-> InRange t z.
Proof. unfold in_range, InRange. rewrite andb_true_iff, !Z.leb_le. done. Qed.

Lemma in_range_false t z : in_range t z = false <-> ~ InRange t z.
Proof. rewrite <- in_range_spec. destruct (in_range t z); intuition congruence. Qed.

Lemma InRange_dec t z : {InRange t z} + {~ InRange t z}.
Proof.
  destruct (in_range t z) eqn:E; [left; by apply in_range_spec|right; by apply in_range_false].
Defined.

#[export] Instance InRange_decision t z : Decision (InRange t z) := InRange_dec t z.

Lemma width_pos t : 0 < width t.
Proof. by destruct t. Qed.

Lemma lowest_le_0 t : lowest t <= 0.
Proof. destruct t; limits; lia. Qed.

Lemma max_pos t : 0 < max t.
Proof. destruct t; limits; lia. Qed.

Lemma InRange_0 t : InRange t 0.
Proof. destruct t; limits; lia. Qed.

Lemma static_cast_id t z : InRange t z -> static_cast t z = z.
Proof.
  intros H. unfold static_cast. destruct t; limits; rewrite Z.mod_small; lia.
Qed.

Lemma static_cast_range t z : InRange t (static_cast t z).
Proof.
  unfold static_cast. destruct t; limits;
    match goal with |- context [?a mod ?b] => pose proof (Z.mod_pos_bound a b ltac:(lia)) end; lia.
Qed.

(** A cast moves a value by a multiple of the modulus. *)
Lemma static_cast_cong t z : exists k, static_cast t z = z + k * 2 ^ width t.
Proof.
  unfold static_cast. assert (0 < 2 ^ width t) by (apply Z.pow_pos_nonneg; [|destruct t]; done).
  destruct (is_signed t).
  - exists (- ((z + 2 ^ (width t - 1)) / 2 ^ width t)). rewrite Z.mod_eq by lia. lia.
  - exists (- (z / 2 ^ width t)). rewrite Z.mod_eq by lia. lia.
Qed.

(** The cast is characterised by range and congruence. *)
Lemma static_cast_unique t z r k :
  InRange t r -> r = z + k * 2 ^ width t -> static_cast t z = r.
Proof.
  intros Hr Hk. pose proof (static_cast_range t z) as Hc.
  destruct (static_cast_cong t z) as [j Hj].
  destruct t; limits; lia.
Qed.

Lemma static_cast_shift t z k : static_cast t (z + k * 2 ^ width t) = static_cast t z.
Proof.
  destruct (static_cast_cong t z) as [j Hj].
  eapply (static_cast_unique _ _ _ (j - k)); [apply static_cast_range|]. lia.
Qed.

(** Casting through a type that is at least as wide changes nothing. *)
Lemma static_cast_trans t u z :
  width t <= width u -> static_cast t (static_cast u z) = static_cast t z.
Proof.
  intros H. destruct (static_cast_cong u z) as [k Hk]. rewrite Hk.
  replace (2 ^ width u) with (2 ^ (width u - width t) * 2 ^ width t).
  - rewrite Z.mul_assoc. apply static_cast_shift.
  - rewrite <- Z.pow_add_r; [f_equal; lia|lia|destruct t; done].
Qed.

Lemma width_make_unsigned t : width (make_unsigned t) = width t.
Proof. by destruct t. Qed.

Lemma width_make_signed t : width (make_signed t) = width t.
Proof. by destruct t. Qed.

Lemma arith_result_in_range r z : InRange r z -> arith_result r z = Some z.
Proof.
  intros H. unfold arith_result. destruct (is_signed r).
  - by rewrite (proj2 (in_range_spec r z) H).
  - by rewrite static_cast_id.
Qed.

Lemma arith_result_unsigned r z :
  is_signed r = false -> arith_result r z = Some (static_cast r z).
Proof. unfold arith_result. by intros ->. Qed.

(** An operand keeps its value in the common type unless a negative value
    meets an unsigned common type. *)
Lemma arith_cast_l t u x :
  InRange t x -> (0 <= x \/ is_signed (arith t u) = true) -> static_cast (arith t u) x = x.
Proof.
  intros H1 H2. apply static_cast_id.
  destruct t, u; limits; try lia; destruct H2; try discriminate; lia.
Qed.

Lemma arith_comm t u : arith t u = arith u t.
Proof. by destruct t, u. Qed.

Lemma arith_cast_r t u y :
  InRange u y -> (0 <= y \/ is_signed (arith t u) = true) -> static_cast (arith t u) y = y.
Proof. rewrite arith_comm. apply arith_cast_l. Qed.

Lemma arith_cast_same t x : InRange t x -> static_cast (arith t t) x = x.
Proof. intros H. apply static_cast_id. destruct t; limits; lia. Qed.

Lemma InRange_arith_same t z : InRange t z -> InRange (arith t t) z.
Proof. destruct t; limits; lia. Qed.

Lemma InRange_promote t z : InRange t z -> InRange (promote t) z.
Proof. destruct t; limits; lia. Qed.

(** A binary operation between values of one type whose result fits it. *)
Lemma c_binop_same op t x y :
  InRange t x -> InRange t y -> InRange t (op x y) -> c_binop op t t x y = Some (op x y).
Proof.
  intros Hx Hy Hr. unfold c_binop. rewrite !arith_cast_same by done.
  by apply arith_result_in_range, InRange_arith_same.
Qed.

Lemma c_cmp_same op t x y :
  InRange t x -> InRange t y -> c_cmp op t t x y = op x y.
Proof. intros Hx Hy. unfold c_cmp. by rewrite !arith_cast_same. Qed.

(** The sign bit of the unsigned image of a value. *)
Lemma testbit_sign t x :
  InRange t x -> is_signed t = true ->
  Z.testbit (static_cast (make_unsigned t) x) (width t - 1) = (x <? 0).
Proof.
  intros Hx Hs. pose proof (static_cast_range (make_unsigned t) x) as Hr.
  assert (0 <= static_cast (make_unsigned t) x < 2 ^ width t) as Hu.
  { destruct t; try discriminate; limits; lia. }
  rewrite testbit_top by (done || apply width_pos).
  destruct (static_cast_cong (make_unsigned t) x) as [k Hk].
  rewrite width_make_unsigned in Hk. clear Hr.
  destruct t; try discriminate; limits; apply bool_eq_iff; rewrite Z.leb_le, Z.ltb_lt; lia.
Qed.

(** Read as a signed value, a [w]-bit pattern is nonnegative when its top bit is clear. *)
Lemma static_cast_signed_sign t u :
  0 <= u < 2 ^ width t ->
  (0 <=? static_cast (make_signed t) u) = negb (Z.testbit u (width t - 1)).
Proof.
  intros Hu. rewrite testbit_top by (done || apply width_pos).
  pose proof (static_cast_range (make_signed t) u) as Hr.
  destruct (static_cast_cong (make_signed t) u) as [k Hk].
  rewrite width_make_signed in Hk.
  destruct t; limits; apply bool_eq_iff; rewrite negb_true_iff, Z.leb_le, Z.leb_gt; lia.
Qed.

Lemma c_binop_value op t u x y r :
  op (static_cast (arith t u) x) (static_cast (arith t u) y) = r -> InRange (arith t u) r ->
  c_binop op t u x y = Some r.
Proof. intros <- Hr. by apply arith_result_in_range. Qed.

Lemma lowest_in_range T : InRange T (lowest T).
Proof. tlia T. Qed.
Lemma max_in_range T : InRange T (max T).
Proof. tlia T. Qed.

(** Clamping to the limits of a type. *)
Definition clamp (T : int_type) (v : Z) : Z := Z.max (lowest T) (Z.min (max T) v).

Lemma clamp_in_range T v : InRange T (clamp T v).
Proof. unfold clamp. tlia T. Qed.

Lemma clamp_id T v : InRange T v -> clamp T v = v.
Proof. unfold clamp, InRange. lia. Qed.

#[export] Hint Resolve lowest_in_range max_in_range clamp_in_range static_cast_range InRange_0 InRange_promote InRange_arith_same : weirtc.
#[export] Hint Rewrite static_cast_id using (solve [auto with weirtc]) : weirtc_rw.
