(* ===== verification/SafeConversions.v ===== *)
(** * SafeConversions: base/numerics/safe_conversions.h and its _impl.h

    Range checks, checked, saturated and strict casts, and mixed-type
    comparisons between the integer types.  Template arguments are explicit
    [int_type] arguments; the floating-point instantiations are not modelled.
    The portable configuration is modelled: no compile-time-constant detection
    and no assembly fast path, which is what a compiler that is neither clang
    nor GCC builds. *)

From S2P Require Import Prelude IntTypes.

(** ** Type-level helpers *)

Definition MaxExponent (NumericType : int_type) : Z := digits NumericType + 1.

Definition IntegerBitsPlusSign (NumericType : int_type) : Z :=
  digits NumericType + b2z (is_signed NumericType).

Definition PositionOfSignBit (Integer : int_type) : Z := IntegerBitsPlusSign Integer - 1.

Definition IsValueNegative (T : int_type) (value : Z) : bool :=
  if is_signed T then value <? 0 else false.

(** [static_cast<SignedT>((static_cast<UnsignedT>(x) ^ -SignedT(is_negative))
    + is_negative)], each operator in its promoted type. *)
Definition ConditionalNegate (T : int_type) (x : Z) (is_negative : bool) : option Z :=
  let SignedT := make_signed T in
  let UnsignedT := make_unsigned T in
  mask ← c_neg SignedT (b2z is_negative);
  let flipped := c_xor UnsignedT (promote SignedT) (static_cast UnsignedT x) mask in
  sum ← c_add (arith UnsignedT (promote SignedT)) Int32 flipped (b2z is_negative);
  Some (static_cast SignedT sum).

Definition SafeUnsignedAbs (T : int_type) (value : Z) : option Z :=
  let UnsignedT := make_unsigned T in
  if IsValueNegative T value
  then (r ← c_sub Uint32 UnsignedT 0 (static_cast UnsignedT value);
        Some (static_cast UnsignedT r))
  else Some (static_cast UnsignedT value).

(** Without compiler support for constant detection both predicates are constant. *)
Definition CanDetectCompileTimeConstant : bool := false.
Definition IsCompileTimeConstant (v : Z) : bool := false.
Definition MustTreatAsConstexpr (v : Z) : bool :=
  negb CanDetectCompileTimeConstant || IsCompileTimeConstant v.

Inductive IntegerRepresentation :=
  INTEGER_REPRESENTATION_UNSIGNED | INTEGER_REPRESENTATION_SIGNED.

Inductive NumericRangeRepresentation :=
  NUMERIC_RANGE_NOT_CONTAINED | NUMERIC_RANGE_CONTAINED.

#[export] Instance NumericRangeRepresentation_eq_dec : EqDecision NumericRangeRepresentation.
Proof. solve_decision. Defined.

Definition sign_of (T : int_type) : IntegerRepresentation :=
  if is_signed T then INTEGER_REPRESENTATION_SIGNED else INTEGER_REPRESENTATION_UNSIGNED.

Definition StaticDstRangeRelationToSrcRange (Dst Src : int_type)
  : NumericRangeRepresentation :=
  match sign_of Dst, sign_of Src with
  | INTEGER_REPRESENTATION_SIGNED, INTEGER_REPRESENTATION_SIGNED
  | INTEGER_REPRESENTATION_UNSIGNED, INTEGER_REPRESENTATION_UNSIGNED =>
      if MaxExponent Src <=? MaxExponent Dst
      then NUMERIC_RANGE_CONTAINED else NUMERIC_RANGE_NOT_CONTAINED
  | INTEGER_REPRESENTATION_SIGNED, INTEGER_REPRESENTATION_UNSIGNED =>
      if MaxExponent Src <? MaxExponent Dst
      then NUMERIC_RANGE_CONTAINED else NUMERIC_RANGE_NOT_CONTAINED
  | INTEGER_REPRESENTATION_UNSIGNED, INTEGER_REPRESENTATION_SIGNED =>
      NUMERIC_RANGE_NOT_CONTAINED
  end.

(** ** RangeCheck *)

Record RangeCheck := mkRangeCheck { is_underflow_ : bool; is_overflow_ : bool }.

Definition RangeCheck_make (is_in_lower_bound is_in_upper_bound : bool) : RangeCheck :=
  mkRangeCheck (negb is_in_lower_bound) (negb is_in_upper_bound).
Definition IsValid (c : RangeCheck) : bool := negb (is_overflow_ c) && negb (is_underflow_ c).
Definition IsInvalid (c : RangeCheck) : bool := is_overflow_ c && is_underflow_ c.
Definition IsOverflow (c : RangeCheck) : bool := is_overflow_ c && negb (is_underflow_ c).
Definition IsUnderflow (c : RangeCheck) : bool := negb (is_overflow_ c) && is_underflow_ c.
Definition IsOverflowFlagSet (c : RangeCheck) : bool := is_overflow_ c.
Definition IsUnderflowFlagSet (c : RangeCheck) : bool := is_underflow_ c.
Definition RangeCheck_eqb (lhs rhs : RangeCheck) : bool :=
  Bool.eqb (is_underflow_ lhs) (is_underflow_ rhs) &&
  Bool.eqb (is_overflow_ lhs) (is_overflow_ rhs).

(** ** Run-time range relation, for the limits a [Bounds] template supplies *)

Record Bounds := mkBounds { bounds_lowest : int_type -> Z; bounds_max : int_type -> Z }.

Definition numeric_limits : Bounds := mkBounds lowest max.

Module NarrowingRange.
Definition kShift (Dst Src : int_type) : Z :=
  if (MaxExponent Dst <? MaxExponent Src) && (digits Src <? digits Dst)
  then digits Dst - digits Src else 0.

(** [ConditionalNegate(SafeUnsignedAbs(value) & ~((T(1) << kShift) - T(1)),
    IsValueNegative(value))]; the masked value has the common type of its operands. *)
Definition Adjust (Dst Src : int_type) (value : Z) : option Z :=
  abs ← SafeUnsignedAbs Dst value;
  one ← c_shl Dst 1 (kShift Dst Src);
  low ← c_sub (promote Dst) Dst one 1;
  let mask_t := promote (arith (promote Dst) Dst) in
  let mask := c_not (arith (promote Dst) Dst) low in
  let masked := c_and (make_unsigned Dst) mask_t abs mask in
  r ← ConditionalNegate (arith (make_unsigned Dst) mask_t) masked
        (IsValueNegative Dst value);
  Some (static_cast Dst r).

Definition nr_max (B : Bounds) (Dst Src : int_type) : option Z :=
  Adjust Dst Src (bounds_max B Dst).
Definition nr_lowest (B : Bounds) (Dst Src : int_type) : option Z :=
  Adjust Dst Src (bounds_lowest B Dst).
End NarrowingRange.

(** The five partial specialisations of [DstRangeRelationToSrcRangeImpl]. *)
Definition DstRangeRelationToSrcRangeImpl (B : Bounds) (Dst Src : int_type) (value : Z)
  : option RangeCheck :=
  lo ← NarrowingRange.nr_lowest B Dst Src;
  hi ← NarrowingRange.nr_max B Dst Src;
  let Promotion := arith Src Dst in
  match StaticDstRangeRelationToSrcRange Dst Src, sign_of Dst, sign_of Src with
  | NUMERIC_RANGE_CONTAINED, _, _ =>
      Some (RangeCheck_make
        ((lo <=? static_cast Dst (lowest Src)) || (lo <=? static_cast Dst value))
        ((static_cast Dst (max Src) <=? hi) || (static_cast Dst value <=? hi)))
  | _, INTEGER_REPRESENTATION_SIGNED, INTEGER_REPRESENTATION_SIGNED =>
      Some (RangeCheck_make (c_ge Src Dst value lo) (c_le Src Dst value hi))
  | _, INTEGER_REPRESENTATION_UNSIGNED, INTEGER_REPRESENTATION_UNSIGNED =>
      Some (RangeCheck_make ((lo =? 0) || c_ge Src Dst value lo) (c_le Src Dst value hi))
  | _, INTEGER_REPRESENTATION_SIGNED, INTEGER_REPRESENTATION_UNSIGNED =>
      Some (RangeCheck_make
        ((lo <=? 0) || (static_cast Promotion lo <=? static_cast Promotion value))
        (static_cast Promotion value <=? static_cast Promotion hi))
  | _, INTEGER_REPRESENTATION_UNSIGNED, INTEGER_REPRESENTATION_SIGNED =>
      Some (RangeCheck_make
        ((0 <=? value) && ((lo =? 0) || (lo <=? static_cast Dst value)))
        ((static_cast Promotion (max Src) <=? static_cast Promotion hi) ||
         (static_cast Promotion value <=? static_cast Promotion hi)))
  end.

Definition IsTypeInRangeForNumericType (Dst Src : int_type) : bool :=
  bool_decide (StaticDstRangeRelationToSrcRange Dst Src = NUMERIC_RANGE_CONTAINED).

(** [static_assert(Bounds<Dst>::lowest() < Bounds<Dst>::max())] guards the check. *)
Definition DstRangeRelationToSrcRange (B : Bounds) (Dst Src : int_type) (value : Z)
  : option RangeCheck :=
  guard_b (bounds_lowest B Dst <? bounds_max B Dst)
    (DstRangeRelationToSrcRangeImpl B Dst Src value).

(** ** Promotions *)

(** The specialisations the [INTEGER_FOR_DIGITS_AND_SIGN] macro declares. *)
Definition IntegerForDigitsAndSign (Size : Z) (IsSigned : bool) : option int_type :=
  find (fun I => (IntegerBitsPlusSign I =? Size) && Bool.eqb (is_signed I) IsSigned)
       [Int8; Uint8; Int16; Uint16; Int32; Uint32; Int64; Uint64].

Definition TwiceWiderInteger (Integer : int_type) (IsSigned : bool) : option int_type :=
  IntegerForDigitsAndSign (IntegerBitsPlusSign Integer * 2) IsSigned.

Inductive ArithmeticPromotionCategory := LEFT_PROMOTION | RIGHT_PROMOTION.

Definition promotion_side (c : ArithmeticPromotionCategory) (Lhs Rhs : int_type) : int_type :=
  match c with LEFT_PROMOTION => Lhs | RIGHT_PROMOTION => Rhs end.

Definition MaxExponentPromotion (Lhs Rhs : int_type) : int_type :=
  promotion_side
    (if MaxExponent Rhs <? MaxExponent Lhs then LEFT_PROMOTION else RIGHT_PROMOTION) Lhs Rhs.

Definition LowestValuePromotion (Lhs Rhs : int_type) : int_type :=
  promotion_side
    (if is_signed Lhs
     then (if is_signed Rhs
           then (if MaxExponent Rhs <? MaxExponent Lhs then LEFT_PROMOTION else RIGHT_PROMOTION)
           else LEFT_PROMOTION)
     else (if is_signed Rhs
           then RIGHT_PROMOTION
           else (if MaxExponent Lhs <? MaxExponent Rhs then LEFT_PROMOTION else RIGHT_PROMOTION)))
    Lhs Rhs.

Module BigEnoughPromotion.
Definition is_intmax_type (Lhs Rhs : int_type) : bool :=
  IntegerBitsPlusSign (MaxExponentPromotion Lhs Rhs) =? IntegerBitsPlusSign Int64.
Definition is_max_exponent (Lhs Rhs : int_type) : bool :=
  IsTypeInRangeForNumericType (MaxExponentPromotion Lhs Rhs) Lhs &&
  IsTypeInRangeForNumericType (MaxExponentPromotion Lhs Rhs) Rhs.

Definition type (Lhs Rhs : int_type) : option int_type :=
  match is_intmax_type Lhs Rhs, is_max_exponent Lhs Rhs with
  | _, true => Some (MaxExponentPromotion Lhs Rhs)
  | false, false =>
      TwiceWiderInteger (MaxExponentPromotion Lhs Rhs) (is_signed Lhs || is_signed Rhs)
  | true, false => Some (MaxExponentPromotion Lhs Rhs)
  end.

Definition is_contained (Lhs Rhs : int_type) : bool :=
  match is_intmax_type Lhs Rhs, is_max_exponent Lhs Rhs with
  | _, true => true | false, false => true | true, false => false
  end.
End BigEnoughPromotion.

(** [>=] between [bool]s. *)
Definition bool_ge (a b : bool) : bool := a || negb b.

Definition IsIntegerArithmeticSafe (T Lhs Rhs : int_type) : bool :=
  bool_ge (is_signed T) (is_signed Lhs) &&
  (2 * IntegerBitsPlusSign Lhs <=? IntegerBitsPlusSign T) &&
  bool_ge (is_signed T) (is_signed Rhs) &&
  (2 * IntegerBitsPlusSign Rhs <=? IntegerBitsPlusSign T).

Module FastIntegerArithmeticPromotion.
Definition is_promotion_possible (Lhs Rhs : int_type) : bool :=
  IsIntegerArithmeticSafe (if is_signed Lhs || is_signed Rhs then Int64 else Uint64)
    (MaxExponentPromotion Lhs Rhs) (MaxExponentPromotion Lhs Rhs).

(** The first specialisation carries a [static_assert]. *)
Definition type (Lhs Rhs : int_type) : option int_type :=
  if is_promotion_possible Lhs Rhs
  then (t ← TwiceWiderInteger (MaxExponentPromotion Lhs Rhs)
              (is_signed Lhs || is_signed Rhs);
        guard_b (IsIntegerArithmeticSafe t Lhs Rhs) (Some t))
  else BigEnoughPromotion.type Lhs Rhs.

Definition is_contained (Lhs Rhs : int_type) : bool := is_promotion_possible Lhs Rhs.
End FastIntegerArithmeticPromotion.

(** ** Wrapped operands *)

(** A template argument is a plain integer type or one of the three wrappers. *)
Inductive numeric_type :=
  | Plain (T : int_type) | Checked (T : int_type)
  | Clamped (T : int_type) | Strict (T : int_type).

Module UnderlyingType.
Definition type (n : numeric_type) : int_type :=
  match n with Plain T | Checked T | Clamped T | Strict T => T end.
Definition is_numeric (n : numeric_type) : bool := true.
Definition is_checked (n : numeric_type) : bool :=
  match n with Checked _ => true | _ => false end.
Definition is_clamped (n : numeric_type) : bool :=
  match n with Clamped _ => true | _ => false end.
Definition is_strict (n : numeric_type) : bool :=
  match n with Strict _ => true | _ => false end.
End UnderlyingType.

Section OverloadSelection.
Import UnderlyingType.
Definition IsCheckedOp (L R : numeric_type) : bool :=
  is_numeric L && is_numeric R && (is_checked L || is_checked R).
Definition IsClampedOp (L R : numeric_type) : bool :=
  is_numeric L && is_numeric R && (is_clamped L || is_clamped R) &&
  negb (is_checked L || is_checked R).
Definition IsStrictOp (L R : numeric_type) : bool :=
  is_numeric L && is_numeric R && (is_strict L || is_strict R) &&
  negb (is_checked L || is_checked R) && negb (is_clamped L || is_clamped R).
End OverloadSelection.

Definition as_signed (Src : int_type) (value : Z) : Z := static_cast (make_signed Src) value.
Definition as_unsigned (Src : int_type) (value : Z) : Z := static_cast (make_unsigned Src) value.

(** ** Comparisons between operands of different types *)

Definition IsLessImpl (L R : int_type) (lhs rhs : Z) (l_range r_range : RangeCheck) : bool :=
  IsUnderflow l_range || IsOverflow r_range ||
  (RangeCheck_eqb l_range r_range &&
   (static_cast (arith L R) lhs <? static_cast (arith L R) rhs)).

Definition IsLessOrEqualImpl (L R : int_type) (lhs rhs : Z) (l_range r_range : RangeCheck) : bool :=
  IsUnderflow l_range || IsOverflow r_range ||
  (RangeCheck_eqb l_range r_range &&
   (static_cast (arith L R) lhs <=? static_cast (arith L R) rhs)).

Definition IsGreaterImpl (L R : int_type) (lhs rhs : Z) (l_range r_range : RangeCheck) : bool :=
  IsOverflow l_range || IsUnderflow r_range ||
  (RangeCheck_eqb l_range r_range &&
   (static_cast (arith L R) lhs >? static_cast (arith L R) rhs)).

Definition IsGreaterOrEqualImpl (L R : int_type) (lhs rhs : Z) (l_range r_range : RangeCheck) : bool :=
  IsOverflow l_range || IsUnderflow r_range ||
  (RangeCheck_eqb l_range r_range &&
   (static_cast (arith L R) lhs >=? static_cast (arith L R) rhs)).

(** [Test] of the comparison templates: both operands are first related to the
    range of the other's type. *)
Definition with_ranges (L R : int_type) (lhs rhs : Z)
    (k : RangeCheck -> RangeCheck -> bool) : option bool :=
  l_range ← DstRangeRelationToSrcRange numeric_limits R L lhs;
  r_range ← DstRangeRelationToSrcRange numeric_limits L R rhs;
  Some (k l_range r_range).

Definition IsLess (L R : int_type) (lhs rhs : Z) : option bool :=
  with_ranges L R lhs rhs (IsLessImpl L R lhs rhs).
Definition IsLessOrEqual (L R : int_type) (lhs rhs : Z) : option bool :=
  with_ranges L R lhs rhs (IsLessOrEqualImpl L R lhs rhs).
Definition IsGreater (L R : int_type) (lhs rhs : Z) : option bool :=
  with_ranges L R lhs rhs (IsGreaterImpl L R lhs rhs).
Definition IsGreaterOrEqual (L R : int_type) (lhs rhs : Z) : option bool :=
  with_ranges L R lhs rhs (IsGreaterOrEqualImpl L R lhs rhs).
Definition IsEqual (L R : int_type) (lhs rhs : Z) : option bool :=
  with_ranges L R lhs rhs (fun l_range r_range =>
    RangeCheck_eqb l_range r_range &&
    (static_cast (arith L R) lhs =? static_cast (arith L R) rhs)).
Definition IsNotEqual (L R : int_type) (lhs rhs : Z) : option bool :=
  with_ranges L R lhs rhs (fun l_range r_range =>
    negb (RangeCheck_eqb l_range r_range) ||
    negb (static_cast (arith L R) lhs =? static_cast (arith L R) rhs)).

(** [C] is one of the comparison templates above. *)
Definition SafeCompare (C : int_type -> int_type -> Z -> Z -> option bool)
    (L R : int_type) (lhs rhs : Z) : option bool :=
  BigType ← BigEnoughPromotion.type L R;
  if BigEnoughPromotion.is_contained L R
  then C BigType BigType (static_cast BigType (static_cast L lhs))
         (static_cast BigType (static_cast R rhs))
  else C L R lhs rhs.

Definition IsMaxInRangeForNumericType (Dst Src : int_type) : option bool :=
  IsGreaterOrEqual Dst Src (max Dst) (max Src).

Definition IsMinInRangeForNumericType (Dst Src : int_type) : option bool :=
  IsLessOrEqual Dst Src (lowest Dst) (lowest Src).

Definition CommonMax (Dst Src : int_type) : option Z :=
  b ← IsMaxInRangeForNumericType Dst Src;
  Some (if negb b then static_cast Dst (max Dst) else static_cast Dst (max Src)).

Definition CommonMin (Dst Src : int_type) : option Z :=
  b ← IsMinInRangeForNumericType Dst Src;
  Some (if negb b then static_cast Dst (lowest Dst) else static_cast Dst (lowest Src)).

Definition CommonMaxOrMin (Dst Src : int_type) (is_min : bool) : option Z :=
  if is_min then CommonMin Dst Src else CommonMax Dst Src.

(** ** Range checks and casts (safe_conversions.h) *)

Module IsValueInRangeFastOp.
Definition is_supported (Dst Src : int_type) : bool :=
  is_signed Src && negb (IsTypeInRangeForNumericType Dst Src).

(** Signed to signed: downcast, sign-extend back and compare; signed to
    unsigned: compare as unsigned with the smaller maximum. *)
Definition Do (Dst Src : int_type) (value : Z) : option bool :=
  if is_signed Dst
  then Some (c_eq Src Dst value (static_cast Dst value))
  else (m ← CommonMax Src Dst;
        Some (as_unsigned Src value <=? as_unsigned Src m)).
End IsValueInRangeFastOp.

Definition IsValueInRangeForNumericType (Dst Src : int_type) (value : Z) : option bool :=
  if IsValueInRangeFastOp.is_supported Dst Src
  then IsValueInRangeFastOp.Do Dst Src (static_cast Src value)
  else (c ← DstRangeRelationToSrcRange numeric_limits Dst Src (static_cast Src value);
        Some (IsValid c)).

(** A [CHECK] that fails traps; otherwise a value is returned. *)
Inductive outcome (A : Type) := Returns (a : A) | HandleFailure.
Arguments Returns {A} a.
Arguments HandleFailure {A}.

Definition checked_cast (Dst Src : int_type) (value : Z) : option (outcome Z) :=
  ok ← IsValueInRangeForNumericType Dst Src value;
  Some (if (ok : bool) then Returns (static_cast Dst (static_cast Src value)) else HandleFailure).

(** A saturation handler supplies the limits and the saturated results. *)
Record SaturationHandler := mkSaturationHandler {
  sh_bounds : Bounds;
  sh_NaN : int_type -> Z;
  sh_Overflow : int_type -> Z;
  sh_Underflow : int_type -> Z
}.

(** No integer type has a quiet NaN or an infinity. *)
Definition SaturationDefaultLimits : SaturationHandler :=
  mkSaturationHandler numeric_limits (fun _ => 0) max lowest.

Definition saturated_cast_impl (S : SaturationHandler) (Dst Src : int_type)
    (value : Z) (constraint : RangeCheck) : Z :=
  if negb (IsOverflowFlagSet constraint)
  then (if negb (IsUnderflowFlagSet constraint) then static_cast Dst value
        else sh_Underflow S Dst)
  else (* an integral source cannot be NaN *) sh_Overflow S Dst.

Module SaturateFastOp.
Definition is_supported : bool := true.
Definition Do (Dst Src : int_type) (value : Z) : option Z :=
  hi ← IsMaxInRangeForNumericType Dst Src;
  lo ← IsMinInRangeForNumericType Dst Src;
  saturated ← CommonMaxOrMin Dst Src (hi || (negb lo && IsValueNegative Src value));
  ok ← IsValueInRangeForNumericType Dst Src value;
  Some (if (ok : bool) then static_cast Dst value else saturated).
End SaturateFastOp.

(** With a handler of the caller's the generic implementation runs; with the
    default one ([None]) the fast operation does. *)
Definition saturated_cast_with (S : option SaturationHandler) (Dst Src : int_type) (value : Z)
  : option Z :=
  match S with
  | None =>
      if negb (IsCompileTimeConstant value) && SaturateFastOp.is_supported
      then SaturateFastOp.Do Dst Src (static_cast Src value)
      else (c ← DstRangeRelationToSrcRange (sh_bounds SaturationDefaultLimits) Dst Src
                  (static_cast Src value);
            Some (saturated_cast_impl SaturationDefaultLimits Dst Src (static_cast Src value) c))
  | Some S' =>
      c ← DstRangeRelationToSrcRange (sh_bounds S') Dst Src (static_cast Src value);
      Some (saturated_cast_impl S' Dst Src (static_cast Src value) c)
  end.

Definition saturated_cast := saturated_cast_with None.

(** [static_assert]: the source range must be contained in the destination's. *)
Definition strict_cast (Dst Src : int_type) (value : Z) : option Z :=
  guard_b (IsTypeInRangeForNumericType Dst Src)
    (Some (static_cast Dst (static_cast Src value))).

Definition IsNumericRangeContained (Dst Src : int_type) : bool :=
  bool_decide (StaticDstRangeRelationToSrcRange Dst Src = NUMERIC_RANGE_CONTAINED).

(** [StrictNumeric<T>]: a value that only converts to types that contain [T]. *)
Record StrictNumeric := mkStrict { strict_value_ : Z }.

Definition StrictNumeric_make (T Src : int_type) (value : Z) : option StrictNumeric :=
  mkStrict <$> strict_cast T Src value.
Definition StrictNumeric_to (Dst T : int_type) (s : StrictNumeric) : option Z :=
  guard_b (IsNumericRangeContained Dst T) (Some (static_cast Dst (strict_value_ s))).

(** ** Correctness of the helpers *)

Lemma SafeUnsignedAbs_spec T v : InRange T v -> SafeUnsignedAbs T v = Some (Z.abs v).
Proof.
  intros Hv. unfold SafeUnsignedAbs, IsValueNegative.
  destruct (is_signed T) eqn:Hs; [destruct (Z.ltb_spec v 0)|].
  - assert (exists r, c_sub Uint32 (make_unsigned T) 0 (static_cast (make_unsigned T) v) = Some r
              /\ static_cast (make_unsigned T) r = - v) as (r & -> & Hr); [|cbn; by rewrite Hr; f_equal; lia].
    destruct (static_cast_cong (make_unsigned T) v) as [k Hk].
    pose proof (static_cast_range (make_unsigned T) v) as Hc.
    unfold c_sub, c_binop. rewrite arith_result_unsigned by (by destruct T).
    eexists. split; [done|].
    rewrite static_cast_trans by (by destruct T).
    rewrite (static_cast_id (arith _ _) 0) by apply InRange_0.
    eapply (static_cast_unique _ _ _ k).
    + destruct T; limits; try discriminate; lia.
    + rewrite static_cast_id by (destruct T; limits; try discriminate; lia). lia.
  - rewrite static_cast_id; [f_equal; lia|]. destruct T; limits; try discriminate; lia.
  - rewrite static_cast_id; [|destruct T; limits; try discriminate; lia].
    f_equal. destruct T; limits; try discriminate; lia.
Qed.

Lemma ConditionalNegate_spec T x (neg : bool) :
  ConditionalNegate T x neg = Some (static_cast (make_signed T) (if neg then - x else x)).
Proof.
  unfold ConditionalNegate.
  pose proof (static_cast_range (make_unsigned T) x) as Hr.
  destruct (static_cast_cong (make_unsigned T) x) as [k Hk].
  rewrite width_make_unsigned in Hk.
  remember (static_cast (make_unsigned T) x) as u eqn:Hu; clear Hu.
  assert (InRange (promote (make_unsigned T)) u) as Hu by (tlia T).
  destruct neg.
  - assert (c_neg (make_signed T) (b2z true) = Some (-1)) as -> by (by destruct T).
    cbn [mbind option_bind].
    assert (exists s j, c_add (arith (make_unsigned T) (promote (make_signed T))) Int32
              (c_xor (make_unsigned T) (promote (make_signed T)) u (-1)) (b2z true) = Some s
            /\ s = - u + j * 2 ^ width T) as (s & j & -> & ->).
    { unfold c_add, c_binop, c_xor. destruct T; cbn [arith promote make_unsigned make_signed] in *.
      all: rewrite (static_cast_id _ u) by done.
      all: try (exists (- u), 0; rewrite (static_cast_id _ (-1)) by (limits; lia);
        rewrite lxor_m1, !static_cast_id by (limits; cbn; lia);
        rewrite arith_result_in_range by (limits; cbn; lia); split; [f_equal|]; cbn; lia).
      all: rewrite arith_result_unsigned by done.
      all: change (static_cast Uint32 (-1)) with (2 ^ 32 - 1);
        change (static_cast Uint64 (-1)) with (2 ^ 64 - 1).
      all: rewrite lxor_ones by (limits; lia).
      all: match goal with |- context [static_cast ?r (_ + _)] =>
        destruct (static_cast_cong r (static_cast r (2 ^ width r - 1 - u) + static_cast r (b2z true)))
          as [j Hj]; cbn [width] in Hj; rewrite Hj;
        rewrite !static_cast_id by (limits; cbn; lia) end.
      all: eexists _, (j + 1); split; [done|]; cbn; lia. }
    cbn. f_equal. rewrite Hk.
    replace (- (x + k * 2 ^ width T) + j * 2 ^ width T)
      with (- x + (j - k) * 2 ^ width (make_signed T)) by (rewrite width_make_signed; lia).
    apply static_cast_shift.
  - assert (c_neg (make_signed T) (b2z false) = Some 0) as -> by (by destruct T).
    cbn [mbind option_bind].
    assert (c_xor (make_unsigned T) (promote (make_signed T)) u 0 = u) as ->.
    { unfold c_xor. rewrite (static_cast_id _ u), (static_cast_id _ 0) by (tlia T).
      apply Z.lxor_0_r. }
    unfold c_add. rewrite (c_binop_value _ _ _ _ _ u); [cbn; f_equal|..].
    + rewrite Hk, <- (width_make_signed T). apply static_cast_shift.
    + rewrite (static_cast_id _ u), (static_cast_id _ (b2z false)) by (tlia T). cbn; lia.
    + tlia T.
Qed.

(** Between integers no bit of the limit is masked out. *)
Lemma kShift_0 Dst Src : NarrowingRange.kShift Dst Src = 0.
Proof. by destruct Dst, Src. Qed.

Lemma Adjust_spec Dst Src v : InRange Dst v -> NarrowingRange.Adjust Dst Src v = Some v.
Proof.
  intros Hv. unfold NarrowingRange.Adjust.
  rewrite SafeUnsignedAbs_spec, kShift_0 by done. cbn [mbind option_bind].
  assert (c_shl Dst 1 0 = Some 1) as -> by (by destruct Dst). cbn [mbind option_bind].
  assert (c_sub (promote Dst) Dst 1 1 = Some 0) as -> by (by destruct Dst).
  cbn [mbind option_bind].
  assert (c_and (make_unsigned Dst) (promote (arith (promote Dst) Dst)) (Z.abs v)
            (c_not (arith (promote Dst) Dst) 0) = Z.abs v) as ->.
  { unfold c_and, c_not. rewrite (static_cast_id _ (Z.abs v)) by (tlia Dst).
    change (Z.lnot 0) with (-1).
    destruct (decide (width Dst < 32)).
    - rewrite !(static_cast_id _ (-1)) by (tlia Dst). apply Z.land_m1_r.
    - replace (static_cast _ (static_cast _ (-1))) with (Z.ones (width Dst))
        by (destruct Dst; cbn in *; lia || done).
      rewrite Z.land_ones by (destruct Dst; done). apply Z.mod_small. tlia Dst. }
  rewrite ConditionalNegate_spec. cbn [mbind option_bind]. f_equal.
  rewrite static_cast_trans by (by destruct Dst).
  unfold IsValueNegative. rewrite static_cast_id.
  - destruct (is_signed Dst) eqn:Hs; [destruct (Z.ltb_spec v 0); lia|tlia Dst].
  - destruct (is_signed Dst) eqn:Hs; [destruct (Z.ltb_spec v 0); tlia Dst|tlia Dst].
Qed.

(** The abstract meaning of a run-time range check against the type's limits. *)
Definition range_of (Dst : int_type) (value : Z) : RangeCheck :=
  mkRangeCheck (value <? lowest Dst) (max Dst <? value).

Lemma RangeCheck_make_spec a b (c : RangeCheck) :
  a = negb (is_underflow_ c) -> b = negb (is_overflow_ c) -> RangeCheck_make a b = c.
Proof. intros -> ->. unfold RangeCheck_make. rewrite !negb_involutive. by destruct c. Qed.

Lemma DstRangeRelationToSrcRange_spec Dst Src v :
  InRange Src v ->
  DstRangeRelationToSrcRange numeric_limits Dst Src v = Some (range_of Dst v).
Proof.
  intros Hv. unfold DstRangeRelationToSrcRange, DstRangeRelationToSrcRangeImpl.
  unfold NarrowingRange.nr_lowest, NarrowingRange.nr_max.
  cbn [numeric_limits bounds_lowest bounds_max].
  rewrite !Adjust_spec by (apply lowest_in_range || apply max_in_range).
  replace (lowest Dst <? max Dst) with true by (by destruct Dst).
  cbn [mbind option_bind guard_b].
  unfold range_of.
  destruct Dst, Src; cbn -[static_cast lowest max]; f_equal; apply RangeCheck_make_spec;
    cbn [is_underflow_ is_overflow_];
    unfold c_ge, c_le, c_cmp; cbn [arith promote];
    rewrite ?(static_cast_id _ v) by (limits; lia);
    repeat match goal with
    | |- context [static_cast ?t (lowest ?u)] =>
        let r := eval vm_compute in (static_cast t (lowest u)) in
        change (static_cast t (lowest u)) with r
    | |- context [static_cast ?t (max ?u)] =>
        let r := eval vm_compute in (static_cast t (max u)) in
        change (static_cast t (max u)) with r
    end;
    limits; cbn [Z.opp Z.sub Z.add Z.pos_sub Pos.pred_double];
    rewrite ?Z.geb_leb; bool_lia.
Qed.

(** The static range relation is containment of the ranges. *)
Lemma IsTypeInRange_spec Dst Src :
  IsTypeInRangeForNumericType Dst Src = (lowest Dst <=? lowest Src) && (max Src <=? max Dst).
Proof. by destruct Dst, Src. Qed.

Lemma IsTypeInRange_sound Dst Src v :
  IsTypeInRangeForNumericType Dst Src = true -> InRange Src v -> InRange Dst v.
Proof. rewrite IsTypeInRange_spec. intros H Hv. boolprop. unfold InRange in *. lia. Qed.

Lemma range_of_valid Dst v : IsValid (range_of Dst v) = in_range Dst v.
Proof. unfold IsValid, range_of, in_range. cbn. bool_lia. Qed.

(** ** The comparison templates compare mathematical values *)

Lemma with_ranges_spec L R lhs rhs k :
  InRange L lhs -> InRange R rhs ->
  with_ranges L R lhs rhs k = Some (k (range_of R lhs) (range_of L rhs)).
Proof.
  intros Hl Hr. unfold with_ranges. by rewrite !DstRangeRelationToSrcRange_spec.
Qed.

(** When both operands are in the other's range, the common type keeps both. *)
Lemma common_values L R lhs rhs :
  InRange L lhs -> InRange R rhs -> InRange R lhs -> InRange L rhs ->
  static_cast (arith L R) lhs = lhs /\ static_cast (arith L R) rhs = rhs.
Proof. intros. split; apply static_cast_id; tlia L R. Qed.

(** A generic comparison: the flags decide unless they agree, and then both
    operands are in range. *)
Lemma IsLess_spec L R lhs rhs :
  InRange L lhs -> InRange R rhs -> IsLess L R lhs rhs = Some (lhs <? rhs).
Proof.
  intros Hl Hr. unfold IsLess. rewrite with_ranges_spec by done. f_equal.
  unfold IsLessImpl, IsUnderflow, IsOverflow, RangeCheck_eqb, range_of. cbn.
  pose proof (common_values L R lhs rhs Hl Hr) as Hc. unfold InRange in *.
  pose proof (lowest_le_0 L). pose proof (lowest_le_0 R).
  pose proof (max_pos L). pose proof (max_pos R).
  destruct (Z.ltb_spec (max R) lhs), (Z.ltb_spec lhs (lowest R)),
    (Z.ltb_spec (max L) rhs), (Z.ltb_spec rhs (lowest L)); cbn; try lia; try bool_lia.
Qed.

Lemma IsLessOrEqual_spec L R lhs rhs :
  InRange L lhs -> InRange R rhs -> IsLessOrEqual L R lhs rhs = Some (lhs <=? rhs).
Proof.
  intros Hl Hr. unfold IsLessOrEqual. rewrite with_ranges_spec by done. f_equal.
  unfold IsLessOrEqualImpl, IsUnderflow, IsOverflow, RangeCheck_eqb, range_of. cbn.
  pose proof (common_values L R lhs rhs Hl Hr) as Hc. unfold InRange in *.
  pose proof (lowest_le_0 L). pose proof (lowest_le_0 R).
  pose proof (max_pos L). pose proof (max_pos R).
  destruct (Z.ltb_spec (max R) lhs), (Z.ltb_spec lhs (lowest R)),
    (Z.ltb_spec (max L) rhs), (Z.ltb_spec rhs (lowest L)); cbn; try lia; try bool_lia.
Qed.

(** The other four are the mirror images. *)
Lemma IsGreater_IsLess L R lhs rhs :
  IsGreater L R lhs rhs = IsLess R L rhs lhs.
Proof.
  unfold IsGreater, IsLess, with_ranges.
  destruct (DstRangeRelationToSrcRange _ R L lhs) as [[a b]|],
    (DstRangeRelationToSrcRange _ L R rhs) as [[c d]|]; cbn; try done.
  unfold IsGreaterImpl, IsLessImpl, RangeCheck_eqb, IsOverflow, IsUnderflow. cbn.
  rewrite (arith_comm R L), Z.gtb_ltb. do 2 f_equal.
  - apply orb_comm.
  - by destruct a, b, c, d.
Qed.

Lemma IsGreaterOrEqual_IsLessOrEqual L R lhs rhs :
  IsGreaterOrEqual L R lhs rhs = IsLessOrEqual R L rhs lhs.
Proof.
  unfold IsGreaterOrEqual, IsLessOrEqual, with_ranges.
  destruct (DstRangeRelationToSrcRange _ R L lhs) as [[a b]|],
    (DstRangeRelationToSrcRange _ L R rhs) as [[c d]|]; cbn; try done.
  unfold IsGreaterOrEqualImpl, IsLessOrEqualImpl, RangeCheck_eqb, IsOverflow, IsUnderflow. cbn.
  rewrite (arith_comm R L), Z.geb_leb. do 2 f_equal.
  - apply orb_comm.
  - by destruct a, b, c, d.
Qed.

Lemma IsGreater_spec L R lhs rhs :
  InRange L lhs -> InRange R rhs -> IsGreater L R lhs rhs = Some (rhs <? lhs).
Proof. intros. rewrite IsGreater_IsLess. by apply IsLess_spec. Qed.

Lemma IsGreaterOrEqual_spec L R lhs rhs :
  InRange L lhs -> InRange R rhs -> IsGreaterOrEqual L R lhs rhs = Some (rhs <=? lhs).
Proof. intros. rewrite IsGreaterOrEqual_IsLessOrEqual. by apply IsLessOrEqual_spec. Qed.

Lemma IsEqual_spec L R lhs rhs :
  InRange L lhs -> InRange R rhs -> IsEqual L R lhs rhs = Some (lhs =? rhs).
Proof.
  intros Hl Hr. unfold IsEqual. rewrite with_ranges_spec by done. f_equal.
  unfold RangeCheck_eqb, range_of. cbn.
  pose proof (common_values L R lhs rhs Hl Hr) as Hc. unfold InRange in *.
  pose proof (lowest_le_0 L). pose proof (lowest_le_0 R).
  pose proof (max_pos L). pose proof (max_pos R).
  destruct (Z.ltb_spec (max R) lhs), (Z.ltb_spec lhs (lowest R)),
    (Z.ltb_spec (max L) rhs), (Z.ltb_spec rhs (lowest L)); cbn; try lia; try bool_lia.
Qed.

Lemma IsNotEqual_IsEqual L R lhs rhs :
  IsNotEqual L R lhs rhs = negb <$> IsEqual L R lhs rhs.
Proof.
  unfold IsNotEqual, IsEqual, with_ranges.
  destruct (DstRangeRelationToSrcRange _ R L lhs),
    (DstRangeRelationToSrcRange _ L R rhs); cbn; try done.
  by rewrite negb_andb.
Qed.

Lemma IsNotEqual_spec L R lhs rhs :
  InRange L lhs -> InRange R rhs -> IsNotEqual L R lhs rhs = Some (negb (lhs =? rhs)).
Proof. intros. rewrite IsNotEqual_IsEqual, IsEqual_spec by done. done. Qed.

(** ** Promotions *)

(** The big-enough promotion exists for every pair, and contains both operand
    types when it says so. *)
Lemma BigEnoughPromotion_spec L R :
  exists P, BigEnoughPromotion.type L R = Some P /\
    (BigEnoughPromotion.is_contained L R = true ->
     IsTypeInRangeForNumericType P L = true /\ IsTypeInRangeForNumericType P R = true).
Proof. destruct L, R; eexists; split; done. Qed.

Lemma BigEnoughPromotion_same T :
  BigEnoughPromotion.type T T = Some T /\ BigEnoughPromotion.is_contained T T = true.
Proof. by destruct T. Qed.

Lemma FastIntegerArithmeticPromotion_spec L R :
  exists P, FastIntegerArithmeticPromotion.type L R = Some P /\
    (FastIntegerArithmeticPromotion.is_contained L R = true ->
     IsIntegerArithmeticSafe P L R = true).
Proof. destruct L, R; eexists; split; done. Qed.

(** ** Range predicates and casts *)

Lemma CommonMax_spec Dst Src :
  CommonMax Dst Src = Some (Z.min (max Dst) (max Src)).
Proof. by destruct Dst, Src. Qed.

Lemma CommonMin_spec Dst Src :
  CommonMin Dst Src = Some (Z.max (lowest Dst) (lowest Src)).
Proof. by destruct Dst, Src. Qed.

Lemma IsMaxInRange_spec Dst Src :
  IsMaxInRangeForNumericType Dst Src = Some (max Src <=? max Dst).
Proof. apply IsGreaterOrEqual_spec; apply max_in_range. Qed.

Lemma IsMinInRange_spec Dst Src :
  IsMinInRangeForNumericType Dst Src = Some (lowest Dst <=? lowest Src).
Proof. apply IsLessOrEqual_spec; apply lowest_in_range. Qed.

(** A downcast that keeps the value is a range check. *)
Lemma static_cast_eq_in_range t v : (static_cast t v =? v) = in_range t v.
Proof.
  apply bool_eq_iff. rewrite Z.eqb_eq, in_range_spec. split.
  - intros <-. apply static_cast_range.
  - apply static_cast_id.
Qed.

Lemma IsValueInRange_spec Dst Src v :
  InRange Src v -> IsValueInRangeForNumericType Dst Src v = Some (in_range Dst v).
Proof.
  intros Hv. unfold IsValueInRangeForNumericType. rewrite (static_cast_id Src) by done.
  destruct (IsValueInRangeFastOp.is_supported Dst Src) eqn:Hs.
  2: { rewrite DstRangeRelationToSrcRange_spec by done. cbn. by rewrite range_of_valid. }
  unfold IsValueInRangeFastOp.Do. destruct (is_signed Dst) eqn:Hd.
  - f_equal. rewrite <- static_cast_eq_in_range. unfold c_eq, c_cmp.
    rewrite (static_cast_id _ v) by (tlia Dst Src).
    rewrite Z.eqb_sym. f_equal. apply static_cast_id.
    pose proof (static_cast_range Dst v). tlia Dst Src.
  - rewrite CommonMax_spec. cbn. f_equal. unfold as_unsigned.
    unfold IsValueInRangeFastOp.is_supported in Hs. boolprop.
    destruct (static_cast_cong (make_unsigned Src) v) as [k Hk].
    pose proof (static_cast_range (make_unsigned Src) v) as Hr.
    rewrite (static_cast_id _ (Z.min _ _)) by (tlia Dst Src).
    unfold in_range. apply bool_eq_iff. rewrite andb_true_iff, !Z.leb_le.
    tlia Dst Src.
Qed.

Lemma saturated_cast_clamp Dst Src v :
  InRange Src v -> saturated_cast Dst Src v = Some (clamp Dst v).
Proof.
  intros Hv. unfold saturated_cast, saturated_cast_with, SaturateFastOp.Do. cbn.
  rewrite (static_cast_id Src) by done.
  rewrite IsMaxInRange_spec, IsMinInRange_spec. cbn.
  unfold CommonMaxOrMin. rewrite CommonMax_spec, CommonMin_spec.
  destruct (in_range Dst v) eqn:Hr.
  - destruct (_ || _); cbn; rewrite IsValueInRange_spec, Hr by done; cbn;
      apply in_range_spec in Hr; by rewrite static_cast_id, clamp_id.
  - assert (Z.max (lowest Dst) (lowest Src) = lowest Dst \/ max Dst < v) by (unfold in_range, InRange in *; lia).
    unfold in_range in Hr. apply andb_false_iff in Hr. rewrite !Z.leb_gt in Hr.
    unfold clamp, IsValueNegative.
    destruct (Z.leb_spec (max Src) (max Dst)); cbn;
      [|destruct (Z.leb_spec (lowest Dst) (lowest Src)); cbn;
        [|destruct (is_signed Src) eqn:Hs; [destruct (Z.ltb_spec v 0); cbn|]]];
      rewrite IsValueInRange_spec by done; unfold in_range;
      repeat match goal with |- context [?a <=? ?b] => destruct (Z.leb_spec a b) end; cbn;
      try (exfalso; clear -Hr; lia); f_equal;
      pose proof (lowest_le_0 Dst); pose proof (max_pos Dst);
      unfold InRange in *; try lia; tlia Src.
Qed.

#[export] Hint Resolve lowest_in_range max_in_range clamp_in_range : weirtc.

(** ** Main results *)

(** C7: [saturated_cast] with the default handler is total and returns the value
    of the destination type that is nearest to the operand. *)
Theorem saturated_cast_nearest Dst Src v :
  InRange Src v ->
  exists r, saturated_cast Dst Src v = Some r /\ InRange Dst r /\
    (forall r', InRange Dst r' -> Z.abs (r - v) <= Z.abs (r' - v)).
Proof.
  intros Hv. exists (clamp Dst v). rewrite saturated_cast_clamp by done.
  split; [done|]. split; [apply clamp_in_range|]. unfold clamp, InRange. lia.
Qed.

Lemma saturated_cast_nearest_witness :
  InRange Int32 (-5) /\
  exists r, saturated_cast Uint8 Int32 (-5) = Some r /\ InRange Uint8 r /\
    (forall r', InRange Uint8 r' -> Z.abs (r - -5) <= Z.abs (r' - -5)).
Proof.
  assert (InRange Int32 (-5)) as H by (limits; lia).
  split; [exact H|exact (saturated_cast_nearest Uint8 Int32 (-5) H)].
Defined.

(** [checked_cast] returns the operand unchanged exactly when the
    destination type represents it, and otherwise traps. *)
Theorem checked_cast_exact Dst Src v :
  InRange Src v ->
  checked_cast Dst Src v =
    Some (if in_range Dst v then Returns v else HandleFailure).
Proof.
  intros Hv. unfold checked_cast. rewrite IsValueInRange_spec by done. cbn.
  destruct (in_range Dst v) eqn:Hr; [|done].
  apply in_range_spec in Hr. by rewrite (static_cast_id Src), (static_cast_id Dst).
Qed.

Lemma checked_cast_exact_witness :
  InRange Int64 300 /\ checked_cast Uint8 Int64 300 = Some HandleFailure.
Proof.
  assert (InRange Int64 300) as H by (limits; lia).
  split; [exact H|exact (checked_cast_exact Uint8 Int64 300 H)].
Defined.

Lemma SafeCompare_lift C f L R lhs rhs :
  (forall T U x y, InRange T x -> InRange U y -> C T U x y = Some (f x y)) ->
  InRange L lhs -> InRange R rhs ->
  SafeCompare C L R lhs rhs = Some (f lhs rhs).
Proof.
  intros HC Hl Hr. unfold SafeCompare.
  destruct (BigEnoughPromotion_spec L R) as (P & -> & Hin). cbn.
  destruct (BigEnoughPromotion.is_contained L R); [|by apply HC].
  destruct Hin as [HL HR]; [done|].
  pose proof (IsTypeInRange_sound _ _ _ HL Hl). pose proof (IsTypeInRange_sound _ _ _ HR Hr).
  by rewrite (static_cast_id L), (static_cast_id R), !(static_cast_id P), HC.
Qed.

(** Every comparison operator of the wrapped numerics decides the order of
    the mathematical values, for all 64 pairs of operand types, signed against
    unsigned included. *)
Theorem SafeCompare_mathematical L R lhs rhs :
  InRange L lhs -> InRange R rhs ->
  SafeCompare IsLess L R lhs rhs = Some (lhs <? rhs) /\
  SafeCompare IsLessOrEqual L R lhs rhs = Some (lhs <=? rhs) /\
  SafeCompare IsGreater L R lhs rhs = Some (rhs <? lhs) /\
  SafeCompare IsGreaterOrEqual L R lhs rhs = Some (rhs <=? lhs) /\
  SafeCompare IsEqual L R lhs rhs = Some (lhs =? rhs) /\
  SafeCompare IsNotEqual L R lhs rhs = Some (negb (lhs =? rhs)).
Proof.
  intros Hl Hr.
  split_and!.
  - apply (SafeCompare_lift _ Z.ltb); auto using IsLess_spec.
  - apply (SafeCompare_lift _ Z.leb); auto using IsLessOrEqual_spec.
  - apply (SafeCompare_lift _ (fun x y => y <? x)); auto using IsGreater_spec.
  - apply (SafeCompare_lift _ (fun x y => y <=? x)); auto using IsGreaterOrEqual_spec.
  - apply (SafeCompare_lift _ Z.eqb); auto using IsEqual_spec.
  - apply (SafeCompare_lift _ (fun x y => negb (x =? y))); auto using IsNotEqual_spec.
Qed.

Lemma SafeCompare_mathematical_witness :
  InRange Int32 (-1) /\ InRange Uint64 1 /\
  SafeCompare IsLess Int32 Uint64 (-1) 1 = Some true.
Proof.
  assert (InRange Int32 (-1)) as H1 by (limits; lia).
  assert (InRange Uint64 1) as H2 by (limits; lia).
  split; [exact H1|split; [exact H2|]].
  exact (proj1 (SafeCompare_mathematical Int32 Uint64 (-1) 1 H1 H2)).
Defined.

(** A strict conversion compiles exactly when the destination contains the
    whole source range, and then it keeps the value, both for [strict_cast] and
    for a value that travels through [StrictNumeric]. *)
Theorem strict_cast_lossless Dst T Src v :
  InRange Src v ->
  (is_Some (strict_cast Dst Src v) <->
     forall z, InRange Src z -> InRange Dst z) /\
  (forall s r, StrictNumeric_make T Src v = Some s ->
               StrictNumeric_to Dst T s = Some r -> r = v).
Proof.
  intros Hv. split.
  - unfold strict_cast, guard_b. destruct (IsTypeInRangeForNumericType Dst Src) eqn:E.
    + split; [|by eexists]. intros _ z. by apply IsTypeInRange_sound.
    + split; [by intros [? ?]|]. intros H. exfalso.
      pose proof (H _ (lowest_in_range Src)). pose proof (H _ (max_in_range Src)).
      rewrite IsTypeInRange_spec in E. unfold InRange in *. lia.
  - intros s r. unfold StrictNumeric_make, StrictNumeric_to, strict_cast.
    destruct (IsTypeInRangeForNumericType T Src) eqn:E; [|done]. cbn. intros [= <-].
    intros (Hc & [= <-])%guard_b_Some.
    pose proof (IsTypeInRange_sound T Src v E Hv) as HT.
    cbn. rewrite (static_cast_id Src), (static_cast_id T) by done.
    apply static_cast_id. exact (IsTypeInRange_sound Dst T v Hc HT).
Qed.

Lemma strict_cast_lossless_witness :
  InRange Uint8 200 /\
  (is_Some (strict_cast Int32 Uint8 200) <-> forall z, InRange Uint8 z -> InRange Int32 z) /\
  StrictNumeric_make Uint16 Uint8 200 = Some (mkStrict 200).
Proof.
  assert (InRange Uint8 200) as H by (limits; lia).
  split; [exact H|]. split; [|reflexivity].
  exact (proj1 (strict_cast_lossless Int32 Uint16 Uint8 200 H)).
Defined.

(** A custom saturation handler is honoured on the wrong side: with a bound
    below the source maximum, a negative operand cast to an unsigned type of the
    same width sets both range flags and saturates to the handler's overflow
    value. *)
Theorem saturated_cast_custom_negative S T v :
  is_signed T = true -> 32 <= width T -> InRange T v -> v < 0 ->
  bounds_lowest (sh_bounds S) (make_unsigned T) = 0 ->
  0 < bounds_max (sh_bounds S) (make_unsigned T) < max T ->
  saturated_cast_with (Some S) (make_unsigned T) T v = Some (sh_Overflow S (make_unsigned T)).
Proof.
  intros Hs Hw Hv Hneg Hlo Hhi. unfold saturated_cast_with.
  rewrite (static_cast_id T) by done.
  unfold DstRangeRelationToSrcRange, DstRangeRelationToSrcRangeImpl,
    NarrowingRange.nr_lowest, NarrowingRange.nr_max.
  rewrite Hlo. set (hi := bounds_max _ _) in *.
  rewrite !Adjust_spec by (tlia T).
  replace (0 <? hi) with true by lia. cbn [guard_b mbind option_bind].
  replace (StaticDstRangeRelationToSrcRange (make_unsigned T) T) with NUMERIC_RANGE_NOT_CONTAINED
    by (by destruct T).
  replace (sign_of (make_unsigned T)) with INTEGER_REPRESENTATION_UNSIGNED by (by destruct T).
  replace (sign_of T) with INTEGER_REPRESENTATION_SIGNED by (by destruct T).
  cbn [mbind option_bind]. unfold saturated_cast_impl, IsOverflowFlagSet, RangeCheck_make.
  cbn [is_overflow_].
  destruct (static_cast_cong (arith T (make_unsigned T)) v) as [k Hk].
  pose proof (static_cast_range (arith T (make_unsigned T)) v) as Hr.
  rewrite (static_cast_id _ (max T)), (static_cast_id _ hi) by (tlia T).
  replace (max T <=? hi) with false by lia.
  replace (static_cast (arith T (make_unsigned T)) v <=? hi) with false; [done|].
  symmetry. apply Z.leb_gt. tlia T.
Qed.

Lemma saturated_cast_custom_negative_witness :
  saturated_cast_with
    (Some (mkSaturationHandler (mkBounds (fun _ => 0) (fun _ => 5)) (fun _ => 0)
             (fun _ => 5) (fun _ => 0))) Uint32 Int32 (-1) = Some 5.
Proof.
  refine (saturated_cast_custom_negative
    (mkSaturationHandler (mkBounds (fun _ => 0) (fun _ => 5)) (fun _ => 0)
       (fun _ => 5) (fun _ => 0)) Int32 (-1) eq_refl _ _ _ eq_refl _); limits; cbn; lia.
Defined.
