(* ===== verification/CheckedMath.v ===== *)
(** * CheckedMath: base/numerics/checked_math.h, checked_math_impl.h and
    safe_math_shared_impl.h

    Overflow-checked arithmetic.  A [Do] function writes through an out-pointer:
    it takes the pointee and returns it with the validity flag.  [option] is
    undefined behaviour or a template that does not compile.  [intptr_t] is the
    64-bit one of the x64 build, and the overflow intrinsics of clang and GCC
    are not available (portable configuration). *)

From S2P Require Import Prelude IntTypes SafeConversions.

Definition intptr_t : int_type := Int64.

(** ** safe_math_shared_impl.h *)

(** The boilerplate fast operations are unsupported; instantiating one is a
    compile failure. *)
Module CheckedAddFastOp.
Definition is_supported (T U : int_type) : bool := false.
Definition Do (T U V : int_type) (x y result : Z) : option (bool * Z) := None.
End CheckedAddFastOp.
Module CheckedSubFastOp.
Definition is_supported (T U : int_type) : bool := false.
Definition Do (T U V : int_type) (x y result : Z) : option (bool * Z) := None.
End CheckedSubFastOp.
Module CheckedMulFastOp.
Definition is_supported (T U : int_type) : bool := false.
Definition Do (T U V : int_type) (x y result : Z) : option (bool * Z) := None.
End CheckedMulFastOp.

Definition UnsignedOrFloatForSize (Numeric : int_type) : int_type := make_unsigned Numeric.

Definition NegateWrapper (T : int_type) (value : Z) : option Z :=
  let UnsignedT := make_unsigned T in
  r ← c_sub UnsignedT UnsignedT 0 (static_cast UnsignedT value);
  Some (static_cast T r).

Definition InvertWrapper (T : int_type) (value : Z) : Z :=
  static_cast (make_unsigned T) (c_not T value).

Definition AbsWrapper (T : int_type) (value : Z) : option Z :=
  r ← SafeUnsignedAbs T value; Some (static_cast T r).

(** ** checked_math_impl.h: the operations *)

Definition CheckedAddImpl (T : int_type) (x y : Z) : option (bool * Z) :=
  let UnsignedDst := make_unsigned T in
  let SignedDst := make_signed T in
  let ux := static_cast UnsignedDst x in
  let uy := static_cast UnsignedDst y in
  sum ← c_add UnsignedDst UnsignedDst ux uy;
  let uresult := static_cast UnsignedDst sum in
  let result := static_cast T uresult in
  let common := arith UnsignedDst UnsignedDst in
  Some (if is_signed T
        then 0 <=? static_cast SignedDst
                     (c_and common common (c_xor UnsignedDst UnsignedDst uresult ux)
                                          (c_xor UnsignedDst UnsignedDst uresult uy))
        else uy <=? uresult, result).

Definition CheckedSubImpl (T : int_type) (x y : Z) : option (bool * Z) :=
  let UnsignedDst := make_unsigned T in
  let SignedDst := make_signed T in
  let ux := static_cast UnsignedDst x in
  let uy := static_cast UnsignedDst y in
  diff ← c_sub UnsignedDst UnsignedDst ux uy;
  let uresult := static_cast UnsignedDst diff in
  let result := static_cast T uresult in
  let common := arith UnsignedDst UnsignedDst in
  Some (if is_signed T
        then 0 <=? static_cast SignedDst
                     (c_and common common (c_xor UnsignedDst UnsignedDst uresult ux)
                                          (c_xor UnsignedDst UnsignedDst ux uy))
        else y <=? x, result).

Definition CheckedMulImpl (T : int_type) (x y : Z) : option (bool * Z) :=
  let UnsignedDst := make_unsigned T in
  let SignedDst := make_signed T in
  ux ← SafeUnsignedAbs T x;
  uy ← SafeUnsignedAbs T y;
  product ← c_mul UnsignedDst UnsignedDst ux uy;
  let uresult := static_cast UnsignedDst product in
  let is_negative := is_signed T && (static_cast SignedDst (c_xor T T x y) <? 0) in
  negated ← c_sub Int32 UnsignedDst 0 uresult;
  let result := static_cast T (if is_negative then negated else uresult) in
  if uy <=? b2z (negb (is_signed T) || is_negative)
  then Some (true, result)
  else bound ← c_add T UnsignedDst (max T) (b2z is_negative);
       quotient ← c_div (arith T UnsignedDst) UnsignedDst bound uy;
       Some (ux <=? quotient, result).

(** The promotion [CheckedAddOp] and [CheckedSubOp] compute in. *)
Definition AddSubPromotion (T U : int_type) : option int_type :=
  FastPromotion ← FastIntegerArithmeticPromotion.type T U;
  if IntegerBitsPlusSign intptr_t <? IntegerBitsPlusSign FastPromotion
  then BigEnoughPromotion.type T U else Some FastPromotion.

(** [*result = static_cast<V>(presult);
    return is_valid && IsValueInRangeForNumericType<V>(presult);] *)
Definition store_result (Promotion V : int_type) (is_valid : bool) (presult : Z)
  : option (bool * Z) :=
  ok ← IsValueInRangeForNumericType V Promotion presult;
  Some (is_valid && (ok : bool), static_cast V presult).

Module CheckedAddOp.
Definition result_type (T U : int_type) : int_type := MaxExponentPromotion T U.

Definition Do (T U V : int_type) (x y result : Z) : option (bool * Z) :=
  if CheckedAddFastOp.is_supported T U then CheckedAddFastOp.Do T U V x y result
  else
    Promotion ← AddSubPromotion T U;
    in_x ← IsValueInRangeForNumericType Promotion T x;
    in_y ← IsValueInRangeForNumericType Promotion U y;
    if negb in_x || negb in_y then Some (false, result)
    else
      '(is_valid, presult) ←
        (if IsIntegerArithmeticSafe Promotion T U
         then (sum ← c_add Promotion Promotion (static_cast Promotion x) (static_cast Promotion y);
               Some (true, static_cast Promotion sum))
         else CheckedAddImpl Promotion (static_cast Promotion x) (static_cast Promotion y));
      store_result Promotion V is_valid presult.
End CheckedAddOp.

Module CheckedSubOp.
Definition result_type (T U : int_type) : int_type := MaxExponentPromotion T U.

Definition Do (T U V : int_type) (x y result : Z) : option (bool * Z) :=
  if CheckedSubFastOp.is_supported T U then CheckedSubFastOp.Do T U V x y result
  else
    Promotion ← AddSubPromotion T U;
    in_x ← IsValueInRangeForNumericType Promotion T x;
    in_y ← IsValueInRangeForNumericType Promotion U y;
    if negb in_x || negb in_y then Some (false, result)
    else
      '(is_valid, presult) ←
        (if IsIntegerArithmeticSafe Promotion T U
         then (diff ← c_sub Promotion Promotion (static_cast Promotion x) (static_cast Promotion y);
               Some (true, static_cast Promotion diff))
         else CheckedSubImpl Promotion (static_cast Promotion x) (static_cast Promotion y));
      store_result Promotion V is_valid presult.
End CheckedSubOp.

Module CheckedMulOp.
Definition result_type (T U : int_type) : int_type := MaxExponentPromotion T U.

Definition Do (T U V : int_type) (x y result : Z) : option (bool * Z) :=
  if CheckedMulFastOp.is_supported T U then CheckedMulFastOp.Do T U V x y result
  else
    Promotion ← FastIntegerArithmeticPromotion.type T U;
    in_x ← IsValueInRangeForNumericType Promotion T x;
    in_y ← IsValueInRangeForNumericType Promotion U y;
    if (negb in_x || negb in_y) && negb (x =? 0) && negb (y =? 0) then Some (false, result)
    else
      '(is_valid, presult) ←
        (if CheckedMulFastOp.is_supported Promotion Promotion
         then CheckedMulFastOp.Do Promotion Promotion Promotion
                (static_cast Promotion x) (static_cast Promotion y) 0
         else if IsIntegerArithmeticSafe Promotion T U
         then (product ← c_mul Promotion Promotion (static_cast Promotion x) (static_cast Promotion y);
               Some (true, static_cast Promotion product))
         else CheckedMulImpl Promotion (static_cast Promotion x) (static_cast Promotion y));
      store_result Promotion V is_valid presult.
End CheckedMulOp.

Module CheckedDivOp.
Definition result_type (T U : int_type) : int_type := MaxExponentPromotion T U.

Definition Do (T U V : int_type) (x y result : Z) : option (bool * Z) :=
  if y =? 0 then Some (false, result)
  else
    Promotion ← BigEnoughPromotion.type T U;
    if is_signed T && is_signed U && IsTypeInRangeForNumericType T Promotion &&
       (static_cast Promotion x =? lowest Promotion) &&
       c_eq U U y (static_cast U (-1))
    then Some (false, result)
    else
      in_x ← IsValueInRangeForNumericType Promotion T x;
      in_y ← IsValueInRangeForNumericType Promotion U y;
      if (negb in_x || negb in_y) && negb (x =? 0) then Some (false, result)
      else
        quotient ← c_div Promotion Promotion (static_cast Promotion x) (static_cast Promotion y);
        store_result Promotion V true (static_cast Promotion quotient).
End CheckedDivOp.

Module CheckedModOp.
Definition result_type (T U : int_type) : int_type := MaxExponentPromotion T U.

Definition Do (T U V : int_type) (x y result : Z) : option (bool * Z) :=
  Promotion ← BigEnoughPromotion.type T U;
  if negb (y =? 0)
  then remainder ← c_mod Promotion Promotion (static_cast Promotion x) (static_cast Promotion y);
       store_result Promotion V true (static_cast Promotion remainder)
  else Some (false, result).
End CheckedModOp.

Module CheckedLshOp.
Definition result_type (T U : int_type) : int_type := T.

Definition Do (T U V : int_type) (x shift result : Z) : option (bool * Z) :=
  if negb (IsValueNegative T x) &&
     c_lt (make_unsigned U) Uint32 (as_unsigned U shift) (as_unsigned Int32 (digits T))
  then shifted ← c_shl (make_unsigned T) (as_unsigned T x) shift;
       let result := static_cast V shifted in
       back ← c_shr V result shift;
       Some (c_eq (promote V) T back x, result)
  else Some (is_signed T && (x =? 0) &&
             c_eq (make_unsigned U) Uint32 (as_unsigned U shift) (as_unsigned Int32 (digits T)),
             result).
End CheckedLshOp.

Module CheckedRshOp.
Definition result_type (T U : int_type) : int_type := T.

Definition Do (T U V : int_type) (x shift result : Z) : option (bool * Z) :=
  if c_lt (make_unsigned U) Int32 (as_unsigned U shift) (IntegerBitsPlusSign T)
  then shifted ← c_shr T x shift;
       store_result T V true (static_cast T shifted)
  else Some (false, result).
End CheckedRshOp.

(** The bitwise operations compute in the unsigned result type. *)
Definition CheckedBitOp_result_type (T U : int_type) : int_type :=
  make_unsigned (MaxExponentPromotion T U).

Module CheckedAndOp.
Definition result_type := CheckedBitOp_result_type.
Definition Do (T U V : int_type) (x y result : Z) : option (bool * Z) :=
  let R := result_type T U in
  store_result R V true (static_cast R (c_and R R (static_cast R x) (static_cast R y))).
End CheckedAndOp.

Module CheckedOrOp.
Definition result_type := CheckedBitOp_result_type.
Definition Do (T U V : int_type) (x y result : Z) : option (bool * Z) :=
  let R := result_type T U in
  store_result R V true (static_cast R (c_or R R (static_cast R x) (static_cast R y))).
End CheckedOrOp.

Module CheckedXorOp.
Definition result_type := CheckedBitOp_result_type.
Definition Do (T U V : int_type) (x y result : Z) : option (bool * Z) :=
  let R := result_type T U in
  store_result R V true (static_cast R (c_xor R R (static_cast R x) (static_cast R y))).
End CheckedXorOp.

Module CheckedMaxOp.
Definition result_type (T U : int_type) : int_type := MaxExponentPromotion T U.
Definition Do (T U V : int_type) (x y result : Z) : option (bool * Z) :=
  let R := result_type T U in
  greater ← IsGreater T U x y;
  store_result R V true (if (greater : bool) then static_cast R x else static_cast R y).
End CheckedMaxOp.

Module CheckedMinOp.
Definition result_type (T U : int_type) : int_type := LowestValuePromotion T U.
Definition Do (T U V : int_type) (x y result : Z) : option (bool * Z) :=
  let R := result_type T U in
  less ← IsLess T U x y;
  store_result R V true (if (less : bool) then static_cast R x else static_cast R y).
End CheckedMinOp.

(** ** The numeric state (checked_math_impl.h) and CheckedNumeric (checked_math.h)

    The floating-point state is not modelled.  [T] is the template argument. *)

Record CheckedNumeric := mkChecked { is_valid_ : bool; value_ : Z }.

(** An integral source needs no well-definedness test: the value is cast. *)
Definition WellDefinedConversionOrZero (T : int_type) (value : Z) (is_valid : bool) : Z :=
  static_cast T value.

Definition CheckedNumericState_default : CheckedNumeric := mkChecked true 0.

(** [CheckedNumericState(Src value, bool is_valid)]. *)
Definition CheckedNumericState_valid (T Src : int_type) (value : Z) (is_valid : bool)
  : option CheckedNumeric :=
  ok ← IsValueInRangeForNumericType T Src value;
  let valid := is_valid && (ok : bool) in
  Some (mkChecked valid (WellDefinedConversionOrZero T value valid)).

(** [explicit CheckedNumericState(Src value)]. *)
Definition CheckedNumericState_from (T Src : int_type) (value : Z) : option CheckedNumeric :=
  ok ← IsValueInRangeForNumericType T Src value;
  Some (mkChecked (ok : bool) (WellDefinedConversionOrZero T value (ok : bool))).

(** [IsValid<Dst>()] of a [CheckedNumeric<T>]. *)
Definition CN_IsValid (T Dst : int_type) (c : CheckedNumeric) : option bool :=
  if is_valid_ c then IsValueInRangeForNumericType Dst T (value_ c) else Some false.

Definition CN_default : CheckedNumeric := CheckedNumericState_default.

Definition CN_of_value (T Src : int_type) (value : Z) : option CheckedNumeric :=
  CheckedNumericState_from T Src value.

Definition CN_of_strict (T Src : int_type) (value : StrictNumeric) : option CheckedNumeric :=
  v ← StrictNumeric_to Src Src value; CheckedNumericState_from T Src v.

(** The converting copy constructor. *)
Definition CN_convert (T Src : int_type) (rhs : CheckedNumeric) : option CheckedNumeric :=
  valid ← CN_IsValid Src Src rhs;
  CheckedNumericState_valid T Src (value_ rhs) valid.

Definition CN_AssignIfValid (T Dst : int_type) (c : CheckedNumeric) (result : Z)
  : option (bool * Z) :=
  ok ← CN_IsValid T Dst c;
  Some (if (ok : bool) then (true, static_cast Dst (value_ c)) else (false, result)).

Definition CN_ValueOrDie (T Dst : int_type) (c : CheckedNumeric) : option (outcome Z) :=
  ok ← CN_IsValid T Dst c;
  Some (if (ok : bool) then Returns (static_cast Dst (value_ c)) else HandleFailure).

Definition CN_ValueOrDefault (T Dst Src : int_type) (c : CheckedNumeric) (default_value : Z)
  : option (outcome Z) :=
  ok ← CN_IsValid T Dst c;
  if (ok : bool) then Some (Returns (static_cast Dst (value_ c)))
  else checked_cast Dst Src default_value.

Definition CN_Cast (T Dst : int_type) (c : CheckedNumeric) : option CheckedNumeric :=
  CN_convert Dst T c.

(** [operator-], on the path taken when constants cannot be detected. *)
Definition FastRuntimeNegate (T : int_type) (c : CheckedNumeric) : option CheckedNumeric :=
  '(success, result) ← CheckedSubOp.Do T T T 0 (value_ c) 0;
  valid ← CN_IsValid T T c;
  CheckedNumericState_valid T T result (valid && success).

Definition CN_negate (T : int_type) (c : CheckedNumeric) : option CheckedNumeric :=
  if MustTreatAsConstexpr (value_ c) || negb (is_signed T)
  then n ← NegateWrapper T (value_ c);
       valid ← CN_IsValid T T c;
       CheckedNumericState_valid T T n (valid && (negb (is_signed T) || negb (n =? lowest T)))
  else FastRuntimeNegate T c.

(** [operator~]: a [CheckedNumeric] of the unsigned type, converted back. *)
Definition CN_invert (T : int_type) (c : CheckedNumeric) : option CheckedNumeric :=
  valid ← CN_IsValid T T c;
  inverted ← CheckedNumericState_valid (make_unsigned T) (make_unsigned T)
               (InvertWrapper T (value_ c)) valid;
  CN_convert T (make_unsigned T) inverted.

Definition CN_Abs (T : int_type) (c : CheckedNumeric) : option CheckedNumeric :=
  if negb (IsValueNegative T (value_ c)) then Some c else CN_negate T c.

Definition CN_UnsignedAbs (T : int_type) (c : CheckedNumeric) : option CheckedNumeric :=
  a ← SafeUnsignedAbs T (value_ c);
  CheckedNumericState_valid (UnsignedOrFloatForSize T) (make_unsigned T) a (is_valid_ c).

(** An operand of a checked operation, and the accessors of [Wrapper]. *)
Inductive operand :=
  | PlainOperand (Src : int_type) (value : Z)
  | CheckedOperand (Src : int_type) (value : CheckedNumeric)
  | StrictOperand (Src : int_type) (value : StrictNumeric).

Module Wrapper.
Definition type (o : operand) : int_type :=
  match o with PlainOperand Src _ | CheckedOperand Src _ | StrictOperand Src _ => Src end.
Definition is_valid (o : operand) : option bool :=
  match o with
  | CheckedOperand Src v => CN_IsValid Src Src v
  | PlainOperand _ _ | StrictOperand _ _ => Some true
  end.
Definition value (o : operand) : Z :=
  match o with
  | PlainOperand _ v => v
  | CheckedOperand _ v => value_ v
  | StrictOperand Src v => static_cast Src (strict_value_ v)
  end.
End Wrapper.

(** [MathWrapper]: the operation template and its result type. *)
Record MathWrapper := mkMath {
  mw_result_type : int_type -> int_type -> int_type;
  mw_Do : forall (T U V : int_type) (x y result : Z), option (bool * Z)
}.

Definition MathAdd := mkMath CheckedAddOp.result_type CheckedAddOp.Do.
Definition MathSub := mkMath CheckedSubOp.result_type CheckedSubOp.Do.
Definition MathMul := mkMath CheckedMulOp.result_type CheckedMulOp.Do.
Definition MathDiv := mkMath CheckedDivOp.result_type CheckedDivOp.Do.
Definition MathMod := mkMath CheckedModOp.result_type CheckedModOp.Do.
Definition MathLsh := mkMath CheckedLshOp.result_type CheckedLshOp.Do.
Definition MathRsh := mkMath CheckedRshOp.result_type CheckedRshOp.Do.
Definition MathAnd := mkMath CheckedAndOp.result_type CheckedAndOp.Do.
Definition MathOr := mkMath CheckedOrOp.result_type CheckedOrOp.Do.
Definition MathXor := mkMath CheckedXorOp.result_type CheckedXorOp.Do.
Definition MathMax := mkMath CheckedMaxOp.result_type CheckedMaxOp.Do.
Definition MathMin := mkMath CheckedMinOp.result_type CheckedMinOp.Do.

(** The static [MathOp] of [CheckedNumeric<T>]; validity short-circuits. *)
Definition CN_MathOp (M : MathWrapper) (T : int_type) (lhs rhs : operand)
  : option CheckedNumeric :=
  lv ← Wrapper.is_valid lhs;
  rv ← (if (lv : bool) then Wrapper.is_valid rhs else Some false);
  '(is_valid, result) ←
    (if (rv : bool)
     then mw_Do M (Wrapper.type lhs) (Wrapper.type rhs) T (Wrapper.value lhs) (Wrapper.value rhs) 0
     else Some (false, 0));
  CheckedNumericState_valid T T result is_valid.

(** The member [MathOp] behind [+=] and its siblings: the destination is [T]. *)
Definition CN_MathOp_assign (M : MathWrapper) (T : int_type) (c : CheckedNumeric) (rhs : operand)
  : option CheckedNumeric :=
  rv ← (if is_valid_ c then Wrapper.is_valid rhs else Some false);
  '(is_valid, result) ←
    (if (rv : bool) then mw_Do M T (Wrapper.type rhs) T (value_ c) (Wrapper.value rhs) 0
     else Some (false, 0));
  CheckedNumericState_valid T T result is_valid.

Definition CN_increment (T : int_type) (c : CheckedNumeric) : option CheckedNumeric :=
  CN_MathOp_assign MathAdd T c (PlainOperand Int32 1).
Definition CN_decrement (T : int_type) (c : CheckedNumeric) : option CheckedNumeric :=
  CN_MathOp_assign MathSub T c (PlainOperand Int32 1).
(** The postfix forms return the value before the update. *)
Definition CN_post_increment (T : int_type) (c : CheckedNumeric)
  : option (CheckedNumeric * CheckedNumeric) :=
  c' ← CN_increment T c; Some (c, c').
Definition CN_post_decrement (T : int_type) (c : CheckedNumeric)
  : option (CheckedNumeric * CheckedNumeric) :=
  c' ← CN_decrement T c; Some (c, c').

Definition CN_Max (T : int_type) (c : CheckedNumeric) (rhs : operand) : option CheckedNumeric :=
  let R := Wrapper.type rhs in
  let result_type := CheckedMaxOp.result_type T R in
  greater ← IsGreater T R (value_ c) (Wrapper.value rhs);
  rv ← Wrapper.is_valid rhs;
  CheckedNumericState_valid result_type result_type
    (static_cast result_type
       (static_cast (arith T R) (if (greater : bool) then value_ c else Wrapper.value rhs)))
    (is_valid_ c && (rv : bool)).

Definition CN_Min (T : int_type) (c : CheckedNumeric) (rhs : operand) : option CheckedNumeric :=
  let R := Wrapper.type rhs in
  let result_type := CheckedMinOp.result_type T R in
  less ← IsLess T R (value_ c) (Wrapper.value rhs);
  rv ← Wrapper.is_valid rhs;
  CheckedNumericState_valid result_type result_type
    (static_cast result_type
       (static_cast (arith T R) (if (less : bool) then value_ c else Wrapper.value rhs)))
    (is_valid_ c && (rv : bool)).

(** [CheckMathOp<M>(lhs, rhs)] and its variadic form, a left fold. *)
Definition CheckMathOp2 (M : MathWrapper) (lhs rhs : operand) : option (int_type * CheckedNumeric) :=
  let T := mw_result_type M (Wrapper.type lhs) (Wrapper.type rhs) in
  c ← CN_MathOp M T lhs rhs; Some (T, c).

Fixpoint CheckMathOp (M : MathWrapper) (lhs rhs : operand) (args : list operand)
  : option (int_type * CheckedNumeric) :=
  '(T, c) ← CheckMathOp2 M lhs rhs;
  match args with
  | [] => Some (T, c)
  | arg :: args' => CheckMathOp M (CheckedOperand T c) arg args'
  end.

(** [ResultType<M, L, R, Args...>]. *)
Fixpoint ResultType (M : MathWrapper) (L R : int_type) (Args : list int_type) : int_type :=
  match Args with
  | [] => mw_result_type M L R
  | A :: Args' => ResultType M (mw_result_type M L R) A Args'
  end.

(** Free functions. *)
Definition IsValidForType (Dst Src : int_type) (value : CheckedNumeric) := CN_IsValid Src Dst value.
Definition ValueOrDieForType (Dst Src : int_type) (value : CheckedNumeric) := CN_ValueOrDie Src Dst value.
Definition ValueOrDefaultForType (Dst Src Default : int_type) (value : CheckedNumeric)
    (default_value : Z) := CN_ValueOrDefault Src Dst Default value default_value.
Definition MakeCheckedNum (T : int_type) (value : Z) := CN_of_value T T value.

(** [L* operator+(L* lhs, StrictNumeric<R> rhs)]: the address is computed with
    checked arithmetic and an overflow traps. *)
Definition uintptr_t : int_type := Uint64.
Definition size_t : int_type := Uint64.

Definition pointer_arith (M : MathWrapper) (sizeof_L : Z) (lhs : Z) (R : int_type)
    (rhs : StrictNumeric) : option (outcome Z) :=
  r ← StrictNumeric_to R R rhs;
  '(TM, scaled) ← CheckMathOp2 MathMul (PlainOperand size_t sizeof_L) (PlainOperand R r);
  '(TA, sum) ← CheckMathOp2 M (PlainOperand uintptr_t lhs) (CheckedOperand TM scaled);
  CN_ValueOrDie TA uintptr_t sum.
Definition pointer_add := pointer_arith MathAdd.
Definition pointer_sub := pointer_arith MathSub.

(** ** The portable overflow tests *)

(** The unsigned image of a value, and what the bit tricks compute on images. *)
Lemma unsigned_image T z : 0 <= static_cast (make_unsigned T) z < 2 ^ width T.
Proof. pose proof (static_cast_range (make_unsigned T) z). tlia T. Qed.

Lemma c_xor_unsigned T a b :
  0 <= a < 2 ^ width T -> 0 <= b < 2 ^ width T ->
  c_xor (make_unsigned T) (make_unsigned T) a b = Z.lxor a b.
Proof. intros Ha Hb. unfold c_xor. rewrite !static_cast_id by (tlia T). done. Qed.

Lemma c_and_unsigned T a b :
  0 <= a < 2 ^ width T -> 0 <= b < 2 ^ width T ->
  c_and (arith (make_unsigned T) (make_unsigned T)) (arith (make_unsigned T) (make_unsigned T)) a b
    = Z.land a b.
Proof. intros Ha Hb. unfold c_and. rewrite !static_cast_id by (tlia T). done. Qed.

(** The sign test "[(a ^ b) & (c ^ d)] is nonnegative as a signed value". *)
Lemma sign_test T a b c d :
  0 <= a < 2 ^ width T -> 0 <= b < 2 ^ width T ->
  0 <= c < 2 ^ width T -> 0 <= d < 2 ^ width T ->
  (0 <=? static_cast (make_signed T)
     (c_and (arith (make_unsigned T) (make_unsigned T)) (arith (make_unsigned T) (make_unsigned T))
        (c_xor (make_unsigned T) (make_unsigned T) a b)
        (c_xor (make_unsigned T) (make_unsigned T) c d))) =
  negb (xorb (Z.testbit a (width T - 1)) (Z.testbit b (width T - 1)) &&
        xorb (Z.testbit c (width T - 1)) (Z.testbit d (width T - 1))).
Proof.
  intros Ha Hb Hc Hd. pose proof (width_pos T).
  rewrite !c_xor_unsigned by done.
  rewrite c_and_unsigned by (apply lxor_bounded; done || lia).
  rewrite static_cast_signed_sign by (apply land_bounded; (lia || apply lxor_bounded; done || lia)).
  by rewrite Z.land_spec, !Z.lxor_spec.
Qed.

(** The sign bit of the unsigned image of [z] is the sign of [z] cast to [T]. *)
Lemma testbit_image T z :
  is_signed T = true ->
  Z.testbit (static_cast (make_unsigned T) z) (width T - 1) = (static_cast T z <? 0).
Proof.
  intros Hs. rewrite <- (testbit_sign T) by (done || apply static_cast_range).
  by rewrite static_cast_trans by (by destruct T).
Qed.

(** Casting the exact result of an unsigned operation on images. *)
Lemma image_op T (op : Z -> Z -> Z) x y :
  (forall a b k j m, exists n, op (a + k * m) (b + j * m) = op a b + n * m) ->
  (width T < 32 -> InRange Int32
     (op (static_cast (make_unsigned T) x) (static_cast (make_unsigned T) y))) ->
  exists s, c_binop op (make_unsigned T) (make_unsigned T)
              (static_cast (make_unsigned T) x) (static_cast (make_unsigned T) y) = Some s /\
            static_cast (make_unsigned T) s = static_cast (make_unsigned T) (op x y).
Proof.
  intros Hop Hsmall.
  destruct (static_cast_cong (make_unsigned T) x) as [k Hk].
  destruct (static_cast_cong (make_unsigned T) y) as [j Hj].
  pose proof (unsigned_image T x). pose proof (unsigned_image T y).
  unfold c_binop.
  rewrite (static_cast_id _ (static_cast _ x)), (static_cast_id _ (static_cast _ y)) by (tlia T).
  destruct (Hop x y k j (2 ^ width (make_unsigned T))) as [n Hn].
  rewrite <- Hk, <- Hj in Hn.
  destruct (decide (width T < 32)) as [Hw|Hw].
  - replace (arith (make_unsigned T) (make_unsigned T)) with Int32
      by (destruct T; try reflexivity; cbn in Hw; lia).
    rewrite arith_result_in_range by (by apply Hsmall).
    eexists. split; [done|]. rewrite Hn. apply static_cast_shift.
  - rewrite arith_result_unsigned by (destruct T; try reflexivity; cbn in Hw; lia).
    eexists. split; [done|]. rewrite static_cast_trans by (by destruct T).
    rewrite Hn. apply static_cast_shift.
Qed.

Lemma CheckedAddImpl_spec T x y :
  InRange T x -> InRange T y ->
  CheckedAddImpl T x y = Some (in_range T (x + y), static_cast T (x + y)).
Proof.
  intros Hx Hy. unfold CheckedAddImpl, c_add.
  destruct (image_op T Z.add x y) as (s & -> & Hs).
  { intros a b k j m. exists (k + j). ring. }
  { intros Hw. pose proof (unsigned_image T x). pose proof (unsigned_image T y). tlia T. }
  cbn [mbind option_bind]. rewrite Hs. f_equal. f_equal.
  - destruct (is_signed T) eqn:Hsg.
    + rewrite sign_test by apply unsigned_image. rewrite !testbit_image by done.
      rewrite !(static_cast_id T x), !(static_cast_id T y) by done.
      destruct (static_cast_cong T (x + y)) as [k Hk].
      pose proof (static_cast_range T (x + y)) as Hr. unfold in_range.
      destruct T; try discriminate; limits; cbn in *; apply bool_eq_iff;
        rewrite negb_true_iff, andb_false_iff, andb_true_iff, !Z.leb_le;
        repeat match goal with |- context [?a <? 0] => destruct (Z.ltb_spec a 0) end; cbn; lia.
    + replace (make_unsigned T) with T by (by destruct T).
      rewrite (static_cast_id T y) by done.
      destruct (static_cast_cong T (x + y)) as [k Hk].
      pose proof (static_cast_range T (x + y)) as Hr. unfold in_range.
      apply bool_eq_iff. rewrite andb_true_iff, !Z.leb_le. tlia T.
  - rewrite static_cast_trans by (by destruct T). done.
Qed.

Lemma CheckedSubImpl_spec T x y :
  InRange T x -> InRange T y ->
  CheckedSubImpl T x y = Some (in_range T (x - y), static_cast T (x - y)).
Proof.
  intros Hx Hy. unfold CheckedSubImpl, c_sub.
  destruct (image_op T Z.sub x y) as (s & -> & Hs).
  { intros a b k j m. exists (k - j). ring. }
  { intros Hw. pose proof (unsigned_image T x). pose proof (unsigned_image T y). tlia T. }
  cbn [mbind option_bind]. rewrite Hs. f_equal. f_equal.
  - destruct (is_signed T) eqn:Hsg.
    + rewrite sign_test by apply unsigned_image. rewrite !testbit_image by done.
      rewrite !(static_cast_id T x), !(static_cast_id T y) by done.
      destruct (static_cast_cong T (x - y)) as [k Hk].
      pose proof (static_cast_range T (x - y)) as Hr. unfold in_range.
      destruct T; try discriminate; limits; cbn in *; apply bool_eq_iff;
        rewrite negb_true_iff, andb_false_iff, andb_true_iff, !Z.leb_le;
        repeat match goal with |- context [?a <? 0] => destruct (Z.ltb_spec a 0) end; cbn; lia.
    + unfold in_range. apply bool_eq_iff. rewrite andb_true_iff, !Z.leb_le. tlia T.
  - rewrite static_cast_trans by (by destruct T). done.
Qed.

Lemma signed_xor_negative T x y :
  InRange T x -> InRange T y -> width T = 64 ->
  (is_signed T && (static_cast (make_signed T) (c_xor T T x y) <? 0)) =
  is_signed T && xorb (x <? 0) (y <? 0).
Proof.
  intros Hx Hy Hw. destruct (is_signed T) eqn:Hs; [|done]. cbn.
  unfold c_xor. rewrite (static_cast_id _ x), (static_cast_id _ y) by (tlia T).
  assert (InRange (make_signed T) (Z.lxor x y)).
  { pose proof (lxor_signed_bounded 63 x y ltac:(lia)). destruct T; try discriminate; limits; lia. }
  by rewrite static_cast_id, lxor_sign by done.
Qed.

Lemma CheckedMulImpl_spec T x y :
  InRange T x -> InRange T y -> width T = 64 ->
  CheckedMulImpl T x y = Some (in_range T (x * y), static_cast T (x * y)).
Proof.
  intros Hx Hy Hw. unfold CheckedMulImpl.
  rewrite !SafeUnsignedAbs_spec by done. cbn [mbind option_bind].
  assert (InRange (make_unsigned T) (Z.abs x)) as Hax by (tlia T).
  assert (InRange (make_unsigned T) (Z.abs y)) as Hay by (tlia T).
  assert (arith (make_unsigned T) (make_unsigned T) = make_unsigned T) as Ha by (by destruct T).
  assert (arith T (make_unsigned T) = make_unsigned T) as Ha' by (by destruct T).
  assert (arith Int32 (make_unsigned T) = make_unsigned T) as Ha'' by (by destruct T).
  assert (is_signed (make_unsigned T) = false) as Hus by (by destruct T).
  unfold c_mul, c_sub, c_add, c_div. unfold c_binop. rewrite !Ha', !Ha'', !Ha.
  rewrite (static_cast_id _ (Z.abs x)) by done. rewrite (static_cast_id _ (Z.abs y)) by done.
  rewrite !arith_result_unsigned by done. cbn [mbind option_bind].
  rewrite (static_cast_trans _ _ (Z.abs x * Z.abs y)) by lia.
  set (ur := static_cast (make_unsigned T) (Z.abs x * Z.abs y)).
  rewrite !arith_result_unsigned by done. cbn [mbind option_bind].
  rewrite signed_xor_negative by done.
  set (neg := is_signed T && xorb (x <? 0) (y <? 0)).
  assert (x * y = if neg then - (Z.abs x * Z.abs y) else Z.abs x * Z.abs y) as Hxy.
  { subst neg. destruct (is_signed T) eqn:Hs; cbn.
    - destruct (Z.ltb_spec x 0), (Z.ltb_spec y 0); cbn; nia.
    - assert (0 <= x /\ 0 <= y) by (tlia T). nia. }
  assert (static_cast T (if neg then
      static_cast (make_unsigned T) (static_cast (make_unsigned T) 0 -
        static_cast (make_unsigned T) ur) else ur) = static_cast T (x * y)) as ->.
  { rewrite Hxy. subst ur. destruct (static_cast_cong (make_unsigned T) (Z.abs x * Z.abs y)) as [k Hk].
    rewrite width_make_unsigned in Hk. destruct neg.
    - rewrite static_cast_trans by (rewrite width_make_unsigned; lia).
      rewrite (static_cast_id _ 0) by apply InRange_0.
      rewrite (static_cast_id _ (static_cast _ _)) by apply static_cast_range. rewrite Hk.
      replace (0 - (Z.abs x * Z.abs y + k * 2 ^ width T))
        with (- (Z.abs x * Z.abs y) + (- k) * 2 ^ width T) by ring. apply static_cast_shift.
    - rewrite Hk. apply static_cast_shift. }
  destruct (Z.leb_spec (Z.abs y) (b2z (negb (is_signed T) || neg))) as [Hle|Hgt].
  - f_equal. f_equal. symmetry. apply in_range_spec.
    assert (Z.abs y = 0 \/ Z.abs y = 1) as [Hy1|Hy1]
      by (unfold b2z in Hle; destruct (negb _ || neg); lia); rewrite Hxy, Hy1.
    + rewrite Z.mul_0_r. destruct neg; apply InRange_0.
    + rewrite Z.mul_1_r. rewrite Hy1 in Hle. clear Hxy ur. subst neg.
      destruct (is_signed T) eqn:Hs; cbn [andb orb negb b2z] in *; [|tlia T].
      destruct (Z.ltb_spec x 0), (Z.ltb_spec y 0); cbn [xorb b2z] in *; try lia; tlia T.
  - assert (0 < Z.abs y) by (unfold b2z in Hgt; destruct (negb _ || neg); lia).
    rewrite (static_cast_id _ (max T)) by (tlia T).
    assert (InRange (make_unsigned T) (b2z neg)) as Hb by (destruct neg; tlia T).
    assert (InRange (make_unsigned T) (max T + b2z neg)) as Hb'.
    { subst neg. destruct (is_signed T) eqn:Hs; cbn; [destruct (xorb _ _); tlia T|tlia T]. }
    rewrite (static_cast_id _ (b2z neg)) by done. cbn [mbind option_bind].
    rewrite !(static_cast_id _ (max T + b2z neg)) by done.
    replace (Z.abs y =? 0) with false by lia.
    assert (0 <= max T + b2z neg) by (destruct neg; pose proof (max_pos T); cbn; lia).
    rewrite Z.quot_div_nonneg by lia.
    cbn [mbind option_bind]. rewrite (static_cast_id _ (_ / _)).
    2: { split; [apply Z.le_trans with 0; [apply lowest_le_0|apply Z.div_pos; lia]|].
         apply Z.le_trans with (max T + b2z neg); [|apply Hb'].
         apply Z.div_le_upper_bound; nia. }
    f_equal. f_equal. rewrite le_div_iff by done.
    unfold in_range. rewrite Hxy. subst neg. clear -Hx Hy Hw.
    assert (0 <= Z.abs y * Z.abs x) by nia. rewrite (Z.mul_comm (Z.abs x)).
    set (p := Z.abs y * Z.abs x) in *. clearbody p.
    apply bool_eq_iff. rewrite andb_true_iff, !Z.leb_le.
    destruct (is_signed T) eqn:Hs; cbn; [destruct (xorb _ _); tlia T|tlia T].
Qed.

(** Provide the promotion of concrete types by evaluation. *)
Ltac give_promotion :=
  match goal with
  | |- exists P, ?e = Some P /\ _ =>
      let r := eval vm_compute in e in
      match r with Some ?p => exists p; split; [reflexivity|] end
  end.

(** ** The operations are total and exact when they report success *)

Lemma store_result_spec P V ok p :
  InRange P p -> store_result P V ok p = Some (ok && in_range V p, static_cast V p).
Proof. intros Hp. unfold store_result. by rewrite IsValueInRange_spec. Qed.

(** A stored result that is reported valid is the promoted result. *)
Lemma store_result_valid V (ok : bool) p :
  ok && in_range V p = true -> static_cast V p = p.
Proof. intros (_ & Hv)%andb_true_iff. by apply static_cast_id, in_range_spec. Qed.

Lemma AddPromotion_spec T U :
  exists P, AddSubPromotion T U = Some P /\
    (IsIntegerArithmeticSafe P T U = true -> forall x y, InRange T x -> InRange U y ->
       InRange P (x + y)).
Proof.
  destruct T, U; give_promotion; intros Hs x y Hx Hy;
    try (vm_compute in Hs; discriminate); limits; lia.
Qed.

(** A wider unsigned promotion holds a negative difference modulo its width. *)
Lemma SubPromotion_spec T U :
  exists P, AddSubPromotion T U = Some P /\
    (IsIntegerArithmeticSafe P T U = true -> forall x y, InRange T x -> InRange U y ->
       InRange P x /\ InRange P y /\ (is_signed (arith P P) = true -> InRange (arith P P) (x - y))).
Proof.
  destruct T, U; give_promotion; intros Hs x y Hx Hy;
    try (vm_compute in Hs; discriminate); limits; lia.
Qed.

(** An operation computed in the promotion [P], and stored into [V]. *)
Definition promoted (P V : int_type) (z r0 : Z) (in_P fits : bool) : option (bool * Z) :=
  if in_P then Some (fits && in_range V (static_cast P z), static_cast V (static_cast P z))
  else Some (false, r0).

Lemma CheckedAddOp_promoted T U V x y r0 :
  InRange T x -> InRange U y ->
  exists P, AddSubPromotion T U = Some P /\
    CheckedAddOp.Do T U V x y r0 =
      promoted P V (x + y) r0 (in_range P x && in_range P y) (in_range P (x + y)).
Proof.
  intros Hx Hy. destruct (AddPromotion_spec T U) as (P & HP & Hsafe).
  exists P. split; [done|]. unfold CheckedAddOp.Do. cbn. rewrite HP. cbn.
  rewrite !IsValueInRange_spec by done. cbn. rewrite <- negb_andb.
  unfold promoted. destruct (in_range P x && in_range P y) eqn:Hin; [|done]. cbn.
  boolprop. rewrite in_range_spec in *.
  rewrite (static_cast_id P x), (static_cast_id P y) by done.
  destruct (IsIntegerArithmeticSafe P T U) eqn:Hs.
  - pose proof (Hsafe eq_refl x y Hx Hy) as Ha. unfold c_add.
    rewrite c_binop_same by done. cbn.
    rewrite store_result_spec by apply static_cast_range.
    by rewrite (proj2 (in_range_spec P (x + y)) Ha).
  - rewrite CheckedAddImpl_spec by done. cbn. by rewrite store_result_spec by apply static_cast_range.
Qed.

Lemma CheckedSubOp_promoted T U V x y r0 :
  InRange T x -> InRange U y ->
  exists P, AddSubPromotion T U = Some P /\
    CheckedSubOp.Do T U V x y r0 =
      promoted P V (x - y) r0 (in_range P x && in_range P y)
        (IsIntegerArithmeticSafe P T U || in_range P (x - y)).
Proof.
  intros Hx Hy. destruct (SubPromotion_spec T U) as (P & HP & Hsafe).
  exists P. split; [done|]. unfold CheckedSubOp.Do. cbn. rewrite HP. cbn.
  rewrite !IsValueInRange_spec by done. cbn. rewrite <- negb_andb.
  unfold promoted. destruct (in_range P x && in_range P y) eqn:Hin; [|done]. cbn.
  boolprop. rewrite in_range_spec in *.
  rewrite (static_cast_id P x), (static_cast_id P y) by done.
  destruct (IsIntegerArithmeticSafe P T U) eqn:Hs.
  - destruct (Hsafe eq_refl x y Hx Hy) as (? & ? & Ha).
    assert (exists d, c_sub P P x y = Some d /\ static_cast P d = static_cast P (x - y))
      as (d & -> & Hd).
    { unfold c_sub, c_binop. rewrite !arith_cast_same by done. unfold arith_result.
      destruct (is_signed (arith P P)).
      - rewrite (proj2 (in_range_spec _ _) (Ha eq_refl)). by eexists.
      - eexists. split; [done|]. apply static_cast_trans. by destruct P. }
    cbn. rewrite Hd. by rewrite store_result_spec by apply static_cast_range.
  - rewrite CheckedSubImpl_spec by done. cbn. by rewrite store_result_spec by apply static_cast_range.
Qed.

Lemma MulPromotion_spec T U :
  exists P, FastIntegerArithmeticPromotion.type T U = Some P /\
    (if IsIntegerArithmeticSafe P T U
     then forall x y, InRange T x -> InRange U y -> InRange P x /\ InRange P y /\ InRange P (x * y)
     else width P = 64).
Proof.
  destruct T, U; give_promotion;
    cbv -[InRange Z.mul]; try reflexivity; intros x y Hx Hy; limits; nia.
Qed.

Lemma CheckedMulOp_promoted T U V x y r0 :
  InRange T x -> InRange U y ->
  exists P, FastIntegerArithmeticPromotion.type T U = Some P /\
    CheckedMulOp.Do T U V x y r0 =
      promoted P V (x * y) r0 ((in_range P x && in_range P y) || (x =? 0) || (y =? 0))
        (in_range P (x * y)).
Proof.
  intros Hx Hy. destruct (MulPromotion_spec T U) as (P & HP & Hsafe).
  exists P. split; [done|]. unfold CheckedMulOp.Do. cbn. rewrite HP. cbn.
  rewrite !IsValueInRange_spec by done. cbn. rewrite <- negb_andb, <- !negb_orb.
  unfold promoted.
  destruct ((in_range P x && in_range P y) || (x =? 0) || (y =? 0)) eqn:Hin; [|done]. cbn.
  assert (static_cast P x * static_cast P y = x * y) as Hmul.
  { apply orb_true_iff in Hin as [Hin|Hy0]; [apply orb_true_iff in Hin as [Hin|Hx0]|].
    - boolprop. rewrite in_range_spec in *. by rewrite !static_cast_id.
    - boolprop. subst x. rewrite (static_cast_id P 0) by apply InRange_0. lia.
    - boolprop. subst y. rewrite (static_cast_id P 0) by apply InRange_0. lia. }
  destruct (IsIntegerArithmeticSafe P T U) eqn:Hs.
  - destruct (Hsafe x y Hx Hy) as (? & ? & Ha).
    unfold c_mul. rewrite c_binop_same by (rewrite ?Hmul; done || apply static_cast_range).
    rewrite Hmul. cbn. rewrite store_result_spec by apply static_cast_range.
    by rewrite (proj2 (in_range_spec P (x * y)) Ha).
  - rewrite CheckedMulImpl_spec by (done || apply static_cast_range).
    rewrite Hmul. cbn. by rewrite store_result_spec by apply static_cast_range.
Qed.

(** The quotient stays in a type unless it is [lowest / -1]. *)
Lemma quot_in_range T x y :
  InRange T x -> y <> 0 -> (is_signed T = false -> 0 < y) ->
  ~ (x = lowest T /\ y = -1) -> InRange T (Z.quot x y).
Proof.
  intros Hx Hy Hpos Hne. destruct (quot_abs_le x y Hy) as [H1 H2].
  destruct (is_signed T) eqn:Hs.
  - assert (y = 1 \/ y = -1 \/ 2 <= Z.abs y) as [-> | [-> | H]] by lia.
    + by rewrite Z.quot_1_r.
    + change (-1) with (- (1)). rewrite Z.quot_opp_r, Z.quot_1_r by lia. tlia T.
    + specialize (H2 H). tlia T.
  - pose proof (quot_nonneg x y) as H. specialize (Hpos eq_refl). tlia T.
Qed.

(** The guard of the division: only a signed promotion has a quotient that
    does not fit, and it recognises it. *)
Definition div_overflows (P : int_type) (x y : Z) : bool :=
  is_signed P && (x =? lowest P) && (y =? -1).

Lemma DivPromotion_spec T U :
  exists P, BigEnoughPromotion.type T U = Some P /\ width T <= width P /\ width U <= width P /\
    (forall x y, InRange T x -> InRange U y ->
       (is_signed T && is_signed U && IsTypeInRangeForNumericType T P &&
        (static_cast P x =? lowest P) && c_eq U U y (static_cast U (-1))) = div_overflows P x y).
Proof.
  destruct T, U; give_promotion; (split; [done|]); (split; [done|]);
    intros x y Hx Hy; unfold div_overflows, c_eq; cbn -[static_cast lowest Z.eqb c_cmp];
    rewrite ?c_cmp_same by (done || apply static_cast_range);
    match goal with
    | |- context [static_cast ?t (-1)] => rewrite (static_cast_id t (-1)) by (limits; lia)
    | _ => idtac end;
    rewrite ?static_cast_id by (limits; lia); try reflexivity; limits; bool_lia.
Qed.

Lemma static_cast_nonzero T U y :
  InRange U y -> width U <= width T -> y <> 0 -> static_cast T y <> 0.
Proof.
  intros Hy Hw Hne. destruct (static_cast_cong T y) as [k Hk].
  destruct T, U; limits; cbn in Hw; lia.
Qed.

Lemma CheckedDivOp_promoted T U V x y r0 :
  InRange T x -> InRange U y ->
  exists P, BigEnoughPromotion.type T U = Some P /\
    CheckedDivOp.Do T U V x y r0 =
      if (y =? 0) || div_overflows P x y || negb ((in_range P x && in_range P y) || (x =? 0))
      then Some (false, r0)
      else Some (in_range V (Z.quot x y), static_cast V (Z.quot x y)).
Proof.
  intros Hx Hy. destruct (DivPromotion_spec T U) as (P & HP & HwT & HwU & Hguard).
  exists P. split; [done|]. unfold CheckedDivOp.Do. rewrite HP. cbn.
  destruct (Z.eqb_spec y 0) as [->|Hy0]; [done|]. cbn. rewrite Hguard by done.
  destruct (div_overflows P x y) eqn:Hov; [done|]. cbn.
  rewrite !IsValueInRange_spec by done. cbn.
  rewrite <- negb_andb, <- negb_orb.
  destruct ((in_range P x && in_range P y) || (x =? 0)) eqn:Hin; [|done]. cbn.
  assert (static_cast P y <> 0) as Hy1 by (by eapply static_cast_nonzero).
  assert (Z.quot (static_cast P x) (static_cast P y) = Z.quot x y /\ InRange P (Z.quot x y))
    as [Hq HqP].
  { apply orb_true_iff in Hin as [Hin|Hx0]; boolprop.
    - rewrite in_range_spec in *. rewrite !static_cast_id by done. split; [done|].
      apply quot_in_range; [done..| |].
      + intros Hs. tlia P.
      + intros [-> ->]. unfold div_overflows in Hov. rewrite !Z.eqb_refl in Hov.
        destruct (is_signed P) eqn:Hs; [done|]. tlia P.
    - subst x. rewrite (static_cast_id P 0) by apply InRange_0.
      rewrite !Z.quot_0_l by done. split; [done|apply InRange_0]. }
  unfold c_div.
  rewrite !(static_cast_id (arith P P)) by (apply InRange_arith_same, static_cast_range).
  replace (static_cast P y =? 0) with false by lia.
  rewrite Hq, arith_result_in_range by (by apply InRange_arith_same). cbn.
  rewrite (static_cast_id P) by done. by rewrite store_result_spec.
Qed.

(** ** The contract between an operation and CheckedNumeric

    [CheckedOp M f]: on operands in range, with the destination the class uses
    (the left type or the declared result type) and a zeroed result, the
    operation is defined, leaves a value of the destination type, and when it
    reports success that value is [f] of the operands. *)

Class CheckedOp (M : MathWrapper) (f : int_type -> int_type -> Z -> Z -> Z) : Prop :=
  checked_op_exact T U V x y :
    InRange T x -> InRange U y -> V = T \/ V = mw_result_type M T U ->
    exists b r, mw_Do M T U V x y 0 = Some (b, r) /\ InRange V r /\ (b = true -> r = f T U x y).

Lemma promoted_exact P V z in_P fits :
  (fits = true -> in_range V (static_cast P z) = true -> static_cast P z = z) ->
  exists b r, promoted P V z 0 in_P fits = Some (b, r) /\ InRange V r /\ (b = true -> r = z).
Proof.
  intros Hz. unfold promoted. destruct in_P.
  - eexists _, _. split; [done|]. split; [apply static_cast_range|].
    intros Hb. rewrite (store_result_valid _ _ _ Hb).
    apply andb_true_iff in Hb as [Hf Hv]. by apply Hz.
  - eexists _, _. split; [done|]. split; [apply InRange_0|done].
Qed.

#[export] Instance CheckedAdd_ok : CheckedOp MathAdd (fun _ _ => Z.add).
Proof.
  intros T U V x y Hx Hy _. cbn [mw_Do MathAdd].
  destruct (CheckedAddOp_promoted T U V x y 0 Hx Hy) as (P & _ & ->).
  apply promoted_exact. intros Hf _. by apply static_cast_id, in_range_spec.
Qed.

#[export] Instance CheckedSub_ok : CheckedOp MathSub (fun _ _ => Z.sub).
Proof.
  intros T U V x y Hx Hy HV. cbn [mw_Do mw_result_type MathSub] in *.
  destruct (CheckedSubOp_promoted T U V x y 0 Hx Hy) as (P & HP & ->).
  apply promoted_exact. intros [Hs|Hf]%orb_true_iff Hv; [|by apply static_cast_id, in_range_spec].
  apply in_range_spec in Hv. destruct (static_cast_cong P (x - y)) as [k Hk].
  pose proof (static_cast_range P (x - y)) as Hr.
  destruct T, U; vm_compute in HP; injection HP as <-; vm_compute in Hs; try discriminate;
    destruct HV as [-> | ->];
    try match goal with H : context [CheckedSubOp.result_type ?a ?b] |- _ =>
      let v := eval vm_compute in (CheckedSubOp.result_type a b) in
      change (CheckedSubOp.result_type a b) with v in H end;
    limits; lia.
Qed.

#[export] Instance CheckedMul_ok : CheckedOp MathMul (fun _ _ => Z.mul).
Proof.
  intros T U V x y Hx Hy _. cbn [mw_Do MathMul].
  destruct (CheckedMulOp_promoted T U V x y 0 Hx Hy) as (P & _ & ->).
  apply promoted_exact. intros Hf _. by apply static_cast_id, in_range_spec.
Qed.

#[export] Instance CheckedDiv_ok : CheckedOp MathDiv (fun _ _ => Z.quot).
Proof.
  intros T U V x y Hx Hy _. cbn [mw_Do MathDiv].
  destruct (CheckedDivOp_promoted T U V x y 0 Hx Hy) as (P & _ & ->).
  destruct (_ || _); eexists _, _; (split; [done|]).
  - split; [apply InRange_0|done].
  - split; [apply static_cast_range|]. intros Hb. by apply static_cast_id, in_range_spec.
Qed.

(** The bound test of the shifts: a negative count is a large unsigned one. *)
Lemma shift_in_bounds U shift n :
  InRange U shift -> 0 <= n <= 64 ->
  c_lt (make_unsigned U) Uint32 (as_unsigned U shift) (as_unsigned Int32 n) =
  (0 <=? shift) && (shift <? n).
Proof.
  intros Hs Hn. unfold c_lt, c_cmp, as_unsigned.
  rewrite (static_cast_id (make_unsigned Int32) n) by (limits; lia).
  destruct (static_cast_cong (make_unsigned U) shift) as [k Hk].
  pose proof (static_cast_range (make_unsigned U) shift) as Hr.
  rewrite (static_cast_id _ n), (static_cast_id _ (static_cast _ shift)) by (tlia U).
  apply bool_eq_iff. rewrite andb_true_iff, Z.leb_le, !Z.ltb_lt. tlia U.
Qed.

Lemma shift_in_bounds_signed U shift n :
  InRange U shift -> 0 <= n <= 64 ->
  c_lt (make_unsigned U) Int32 (as_unsigned U shift) n = (0 <=? shift) && (shift <? n).
Proof.
  intros Hs Hn. unfold c_lt, c_cmp, as_unsigned.
  destruct (static_cast_cong (make_unsigned U) shift) as [k Hk].
  pose proof (static_cast_range (make_unsigned U) shift) as Hr.
  rewrite (static_cast_id _ n), (static_cast_id _ (static_cast _ shift)) by (tlia U).
  apply bool_eq_iff. rewrite andb_true_iff, Z.leb_le, !Z.ltb_lt. tlia U.
Qed.

Lemma shiftl_fits T x s :
  InRange T x -> 0 <= x -> 0 <= s < digits T ->
  c_shl (make_unsigned T) (as_unsigned T x) s =
    Some (static_cast (promote (make_unsigned T)) (x * 2 ^ s)).
Proof.
  intros Hx H0 Hs. unfold c_shl, as_unsigned.
  rewrite (static_cast_id _ x) by (tlia T). rewrite Z.shiftl_mul_pow2 by lia.
  replace ((s <? 0) || (width (promote (make_unsigned T)) <=? s)) with false
    by (symmetry; apply orb_false_iff; split; [lia|]; tlia T).
  destruct (is_signed (promote (make_unsigned T))) eqn:E; [|done].
  assert (2 ^ s <= 2 ^ digits T) by (apply Z.pow_le_mono_r; lia).
  assert (0 < 2 ^ s) by (apply Z.pow_pos_nonneg; lia).
  replace ((x <? 0) || (max (make_unsigned (promote (make_unsigned T))) <? x * 2 ^ s)) with false; [done|].
  symmetry. apply orb_false_iff. split; [lia|]. apply Z.ltb_ge.
  destruct T; try discriminate; limits; cbn in *; nia.
Qed.

(** If shifting back recovers the operand, no bit was lost. *)
Lemma shift_back_exact T x s :
  InRange T x -> 0 <= x -> 0 <= s < digits T ->
  Z.shiftr (static_cast T (x * 2 ^ s)) s = x -> static_cast T (x * 2 ^ s) = x * 2 ^ s.
Proof.
  intros Hx H0 Hs Hb. rewrite Z.shiftr_div_pow2 in Hb by lia.
  destruct (static_cast_cong T (x * 2 ^ s)) as [k Hk].
  assert (0 < 2 ^ s) as Hp by (apply Z.pow_pos_nonneg; lia).
  assert (digits T <= width T) by (by destruct T).
  assert (2 ^ width T = 2 ^ s * 2 ^ (width T - s)) as Hw
    by (rewrite <- Z.pow_add_r by lia; f_equal; lia).
  assert (0 < 2 ^ (width T - s)) by (apply Z.pow_pos_nonneg; lia).
  pose proof (Z.div_mod (static_cast T (x * 2 ^ s)) (2 ^ s) ltac:(lia)) as Hd.
  pose proof (Z.mod_pos_bound (static_cast T (x * 2 ^ s)) (2 ^ s) Hp) as Hm.
  rewrite Hb in Hd. rewrite Hk, Hw in *.
  assert (k = 0) by nia. subst. lia.
Qed.

Lemma shiftr_in_range T x s : InRange T x -> 0 <= s -> InRange T (Z.shiftr x s).
Proof.
  intros Hx Hs. rewrite Z.shiftr_div_pow2 by lia.
  assert (0 < 2 ^ s) by (apply Z.pow_pos_nonneg; lia). unfold InRange in *.
  pose proof (lowest_le_0 T). pose proof (max_pos T). split.
  - apply Z.div_le_lower_bound; nia.
  - apply Z.div_le_upper_bound; nia.
Qed.

#[export] Instance CheckedLsh_ok : CheckedOp MathLsh (fun _ _ x s => x * 2 ^ s).
Proof.
  intros T U V x s Hx Hs HV. cbn in HV. assert (V = T) as -> by (by destruct HV).
  cbn [mw_Do MathLsh]. unfold CheckedLshOp.Do.
  rewrite shift_in_bounds by (done || by destruct T).
  destruct (negb (IsValueNegative T x) && ((0 <=? s) && (s <? digits T))) eqn:Hg.
  - boolprop.
    assert (0 <= x) as Hx0.
    { unfold IsValueNegative in *. destruct (is_signed T) eqn:E; [boolprop; lia|]. tlia T. }
    rewrite shiftl_fits by (done || lia). cbn.
    set (r := static_cast T (static_cast (promote (make_unsigned T)) (x * 2 ^ s))).
    assert (r = static_cast T (x * 2 ^ s)) as Hr
      by (apply static_cast_trans; by destruct T).
    assert (InRange T r) by (subst r; apply static_cast_range).
    unfold c_shr.
    replace ((s <? 0) || (width (promote T) <=? s)) with false
      by (symmetry; apply orb_false_iff; split; [lia|]; destruct T; cbn in *; lia).
    cbn. eexists _, _. split; [done|]. split; [done|].
    intros Hb. assert (InRange T (Z.shiftr r s)) as Hsr by (apply shiftr_in_range; done || lia).
    unfold c_eq, c_cmp in Hb.
    rewrite (static_cast_id _ (Z.shiftr r s)), (static_cast_id _ x) in Hb by (tlia T).
    boolprop. rewrite Hr in Hb |- *. apply shift_back_exact; done || lia.
  - eexists _, _. split; [done|]. split; [apply InRange_0|].
    intros Hb. boolprop. subst x. lia.
Qed.

#[export] Instance CheckedRsh_ok : CheckedOp MathRsh (fun _ _ => Z.shiftr).
Proof.
  intros T U V x s Hx Hs _. cbn [mw_Do MathRsh]. unfold CheckedRshOp.Do.
  rewrite shift_in_bounds_signed by (done || by destruct T).
  destruct (_ && _) eqn:Hg.
  - boolprop. unfold c_shr.
    replace ((s <? 0) || (width (promote T) <=? s)) with false
      by (symmetry; apply orb_false_iff; split; [lia|]; unfold IntegerBitsPlusSign in *; destruct T; cbn in *; lia).
    cbn. pose proof (shiftr_in_range T x s Hx ltac:(lia)) as Hsr.
    rewrite (static_cast_id T) by done. rewrite store_result_spec by done.
    eexists _, _. split; [done|]. split; [apply static_cast_range|].
    intros Hb. by rewrite (store_result_valid _ _ _ Hb).
  - eexists _, _. split; [done|]. split; [apply InRange_0|done].
Qed.

(** The bitwise operations act on the unsigned images of the operands. *)
Definition bitwise (op : Z -> Z -> Z) (T U : int_type) (x y : Z) : Z :=
  let R := CheckedBitOp_result_type T U in op (static_cast R x) (static_cast R y).

Lemma bit_result T U (op : Z -> Z -> Z) x y :
  (forall w a b, 0 <= w -> 0 <= a < 2 ^ w -> 0 <= b < 2 ^ w -> 0 <= op a b < 2 ^ w) ->
  let R := CheckedBitOp_result_type T U in
  static_cast R (op (static_cast (arith R R) (static_cast R x)) (static_cast (arith R R) (static_cast R y)))
    = bitwise op T U x y /\ InRange R (bitwise op T U x y).
Proof.
  intros Hop R. unfold bitwise. fold R.
  pose proof (static_cast_range R x) as Hx. pose proof (static_cast_range R y) as Hy.
  rewrite !(static_cast_id (arith R R)) by (by apply InRange_arith_same).
  assert (InRange R (op (static_cast R x) (static_cast R y))) as HR.
  { pose proof (Hop (width R) (static_cast R x) (static_cast R y)) as H.
    assert (is_signed R = false) as HsR by (by destruct T, U). clearbody R. tlia R. }
  split; [by apply static_cast_id|done].
Qed.

Lemma bit_op_exact T U V (op : Z -> Z -> Z) x y :
  (forall w a b, 0 <= w -> 0 <= a < 2 ^ w -> 0 <= b < 2 ^ w -> 0 <= op a b < 2 ^ w) ->
  let R := CheckedBitOp_result_type T U in
  exists b r,
    store_result R V true (static_cast R (op (static_cast (arith R R) (static_cast R x))
                                             (static_cast (arith R R) (static_cast R y)))) = Some (b, r) /\
    InRange V r /\ (b = true -> r = bitwise op T U x y).
Proof.
  intros Hop R. destruct (bit_result T U op x y Hop) as [Hv Hr]. fold R in Hv, Hr. rewrite Hv.
  rewrite store_result_spec by done.
  eexists _, _. split; [done|]. split; [apply static_cast_range|].
  intros Hb. by rewrite (store_result_valid _ _ _ Hb).
Qed.

#[export] Instance CheckedAnd_ok : CheckedOp MathAnd (bitwise Z.land).
Proof. intros T U V x y _ _ _. apply bit_op_exact. apply land_bounded. Qed.
#[export] Instance CheckedOr_ok : CheckedOp MathOr (bitwise Z.lor).
Proof. intros T U V x y _ _ _. apply bit_op_exact. apply lor_bounded. Qed.
#[export] Instance CheckedXor_ok : CheckedOp MathXor (bitwise Z.lxor).
Proof. intros T U V x y _ _ _. apply bit_op_exact. apply lxor_bounded. Qed.

Lemma max_promotion_exact T U x y :
  InRange T x -> InRange U y -> InRange (MaxExponentPromotion T U) (Z.max x y).
Proof.
  intros Hx Hy. destruct T, U;
    match goal with |- InRange ?e _ => let v := eval vm_compute in e in change e with v end;
    limits; lia.
Qed.

Lemma min_promotion_exact T U x y :
  InRange T x -> InRange U y -> InRange (LowestValuePromotion T U) (Z.min x y).
Proof.
  intros Hx Hy. destruct T, U;
    match goal with |- InRange ?e _ => let v := eval vm_compute in e in change e with v end;
    limits; lia.
Qed.

#[export] Instance CheckedMax_ok : CheckedOp MathMax (fun _ _ => Z.max).
Proof.
  intros T U V x y Hx Hy _. cbn [mw_Do MathMax]. unfold CheckedMaxOp.Do.
  rewrite IsGreater_spec by done. cbn.
  pose proof (max_promotion_exact T U x y Hx Hy) as Hm.
  replace (if y <? x then _ else _) with (Z.max x y).
  2: { destruct (Z.ltb_spec y x); symmetry; [rewrite Z.max_l in * by lia|rewrite Z.max_r in * by lia];
       by apply static_cast_id. }
  rewrite store_result_spec by done.
  eexists _, _. split; [done|]. split; [apply static_cast_range|].
  intros Hb. by rewrite (store_result_valid _ _ _ Hb).
Qed.

#[export] Instance CheckedMin_ok : CheckedOp MathMin (fun _ _ => Z.min).
Proof.
  intros T U V x y Hx Hy _. cbn [mw_Do MathMin]. unfold CheckedMinOp.Do.
  rewrite IsLess_spec by done. cbn.
  pose proof (min_promotion_exact T U x y Hx Hy) as Hm.
  replace (if x <? y then _ else _) with (Z.min x y).
  2: { destruct (Z.ltb_spec x y); symmetry; [rewrite Z.min_l in * by lia|rewrite Z.min_r in * by lia];
       by apply static_cast_id. }
  rewrite store_result_spec by done.
  eexists _, _. split; [done|]. split; [apply static_cast_range|].
  intros Hb. by rewrite (store_result_valid _ _ _ Hb).
Qed.

(** ** CheckedNumeric: invariant and accessors *)

(** The stored value is always a value of [T], valid or not. *)
Definition CN_wf (T : int_type) (c : CheckedNumeric) : Prop := InRange T (value_ c).

Definition operand_wf (o : operand) : Prop :=
  match o with
  | PlainOperand Src v => InRange Src v
  | CheckedOperand Src c => CN_wf Src c
  | StrictOperand Src s => InRange Src (strict_value_ s)
  end.

(** What [Wrapper::is_valid] computes on well-formed operands. *)
Definition operand_valid (o : operand) : bool :=
  match o with CheckedOperand _ c => is_valid_ c | _ => true end.

Lemma CN_IsValid_spec T Dst c :
  CN_wf T c -> CN_IsValid T Dst c = Some (is_valid_ c && in_range Dst (value_ c)).
Proof.
  intros Hc. unfold CN_IsValid. destruct (is_valid_ c); [|done]. by rewrite IsValueInRange_spec.
Qed.

Lemma CN_IsValid_self T c : CN_wf T c -> CN_IsValid T T c = Some (is_valid_ c).
Proof.
  intros Hc. rewrite CN_IsValid_spec by done.
  rewrite (proj2 (in_range_spec T _) Hc). by rewrite andb_true_r.
Qed.

Lemma Wrapper_is_valid_spec o : operand_wf o -> Wrapper.is_valid o = Some (operand_valid o).
Proof. destruct o; cbn; intros H; try done. by apply CN_IsValid_self. Qed.

Lemma Wrapper_value_range o : operand_wf o -> InRange (Wrapper.type o) (Wrapper.value o).
Proof. destruct o; cbn; intros H; try done. apply static_cast_range. Qed.

Lemma CheckedNumericState_valid_spec T Src v b :
  InRange Src v ->
  CheckedNumericState_valid T Src v b = Some (mkChecked (b && in_range T v) (static_cast T v)).
Proof. intros Hv. unfold CheckedNumericState_valid. by rewrite IsValueInRange_spec. Qed.

Lemma CheckedNumericState_valid_self T v b :
  InRange T v -> CheckedNumericState_valid T T v b = Some (mkChecked b v).
Proof.
  intros Hv. rewrite CheckedNumericState_valid_spec by done.
  by rewrite (proj2 (in_range_spec T v) Hv), andb_true_r, static_cast_id.
Qed.

#[export] Hint Resolve CN_IsValid_self Wrapper_value_range : weirtc.

(** ** Every operation under the contract is sound *)

Section MathOpSound.
Context (M : MathWrapper) (f : int_type -> int_type -> Z -> Z -> Z) {HM : CheckedOp M f}.

Lemma CN_MathOp_sound T lhs rhs :
  operand_wf lhs -> operand_wf rhs ->
  T = Wrapper.type lhs \/ T = mw_result_type M (Wrapper.type lhs) (Wrapper.type rhs) ->
  exists c, CN_MathOp M T lhs rhs = Some c /\ CN_wf T c /\
    (is_valid_ c = true ->
       operand_valid lhs = true /\ operand_valid rhs = true /\
       value_ c = f (Wrapper.type lhs) (Wrapper.type rhs) (Wrapper.value lhs) (Wrapper.value rhs)).
Proof.
  intros Hl Hr HT. unfold CN_MathOp. rewrite !Wrapper_is_valid_spec by done. cbn.
  assert (forall b, exists c, CheckedNumericState_valid T T 0 b = Some c /\ CN_wf T c
            /\ is_valid_ c = b) as Hz.
  { intros b. rewrite CheckedNumericState_valid_self by apply InRange_0.
    eexists. split; [done|]. split; [apply InRange_0|done]. }
  destruct (operand_valid lhs) eqn:El.
  2: { destruct (Hz false) as (c & Hc & Hwf & Hv). exists c.
       split; [exact Hc|]. split; [done|]. by rewrite Hv. }
  cbn. destruct (operand_valid rhs) eqn:Er.
  2: { destruct (Hz false) as (c & Hc & Hwf & Hv). exists c.
       split; [exact Hc|]. split; [done|]. by rewrite Hv. }
  destruct (checked_op_exact _ _ T _ _ (Wrapper_value_range _ Hl) (Wrapper_value_range _ Hr) HT)
    as (b & r & -> & Hrange & Hexact). cbn.
  rewrite CheckedNumericState_valid_self by done.
  eexists. split; [done|]. split; [done|]. intros Hb. cbn in *. auto.
Qed.

(** The exact fold a chain of operations is meant to compute. *)
Fixpoint exact_chain (L R : int_type) (x y : Z) (args : list operand) : Z :=
  match args with
  | [] => f L R x y
  | a :: args' =>
      exact_chain (mw_result_type M L R) (Wrapper.type a) (f L R x y) (Wrapper.value a) args'
  end.

Lemma CheckMathOp_sound lhs rhs args :
  operand_wf lhs -> operand_wf rhs -> Forall operand_wf args ->
  exists c,
    CheckMathOp M lhs rhs args =
      Some (ResultType M (Wrapper.type lhs) (Wrapper.type rhs) (Wrapper.type <$> args), c) /\
    CN_wf (ResultType M (Wrapper.type lhs) (Wrapper.type rhs) (Wrapper.type <$> args)) c /\
    (is_valid_ c = true ->
       operand_valid lhs = true /\ operand_valid rhs = true /\
       Forall (fun a => operand_valid a = true) args /\
       value_ c = exact_chain (Wrapper.type lhs) (Wrapper.type rhs)
                    (Wrapper.value lhs) (Wrapper.value rhs) args).
Proof.
  revert lhs rhs. induction args as [|a args IH]; intros lhs rhs Hl Hr Hargs;
    cbn [CheckMathOp]; unfold CheckMathOp2;
    destruct (CN_MathOp_sound _ lhs rhs Hl Hr (or_intror eq_refl)) as (c & -> & Hwf & Hc); cbn.
  - exists c. split; [done|]. split; [done|]. intros Hv. destruct (Hc Hv) as (? & ? & ?). auto.
  - apply Forall_cons_1 in Hargs as [Ha Hargs].
    destruct (IH (CheckedOperand _ c) a Hwf Ha Hargs) as (c' & -> & Hwf' & Hc').
    exists c'. split; [done|]. split; [done|]. intros Hv.
    destruct (Hc' Hv) as (Hcv & Hav & Hargsv & Hval). cbn in Hcv.
    destruct (Hc Hcv) as (? & ? & Hx). cbn in Hval. rewrite Hx in Hval. auto.
Qed.
End MathOpSound.

(** ** Completeness: when the promotion holds both operands *)

(** The one family of pairs no integer type contains: a signed operand with [uint64_t]. *)
Definition mixes_uint64 (T U : int_type) : bool :=
  (is_signed T && bool_decide (U = Uint64)) || (is_signed U && bool_decide (T = Uint64)).

Lemma AddSubPromotion_contains T U P :
  mixes_uint64 T U = false -> AddSubPromotion T U = Some P ->
  IsTypeInRangeForNumericType P T = true /\ IsTypeInRangeForNumericType P U = true /\
  (IsIntegerArithmeticSafe P T U = false -> P = MaxExponentPromotion T U).
Proof.
  intros Hm HP. destruct T, U; try discriminate Hm; vm_compute in HP; injection HP as <-;
    (split; [reflexivity|split; [reflexivity|]]); intros Hs; reflexivity || discriminate Hs.
Qed.

Lemma MulPromotion_contains T U P :
  mixes_uint64 T U = false -> FastIntegerArithmeticPromotion.type T U = Some P ->
  IsTypeInRangeForNumericType P T = true /\ IsTypeInRangeForNumericType P U = true /\
  IsTypeInRangeForNumericType P (MaxExponentPromotion T U) = true.
Proof.
  intros Hm HP. destruct T, U; try discriminate Hm; vm_compute in HP; injection HP as <-;
    split_and!; reflexivity.
Qed.

Lemma AddPromotion_contains_result T U P :
  mixes_uint64 T U = false -> AddSubPromotion T U = Some P ->
  IsTypeInRangeForNumericType P (MaxExponentPromotion T U) = true.
Proof.
  intros Hm HP. destruct T, U; try discriminate Hm; vm_compute in HP; injection HP as <-;
    reflexivity.
Qed.

(** A promotion that contains the destination decides the destination's range. *)
Lemma promoted_complete P V z :
  IsTypeInRangeForNumericType P V = true ->
  exists r, promoted P V z 0 true (in_range P z) = Some (in_range V z, r).
Proof.
  intros HPV. unfold promoted. eexists. do 2 f_equal. apply bool_eq_iff.
  rewrite andb_true_iff, !in_range_spec. split.
  - intros [HP HV]. by rewrite static_cast_id in HV.
  - intros HV. pose proof (IsTypeInRange_sound _ _ _ HPV HV). by rewrite static_cast_id.
Qed.

Lemma in_range_both P T U x y :
  IsTypeInRangeForNumericType P T = true -> IsTypeInRangeForNumericType P U = true ->
  InRange T x -> InRange U y -> in_range P x && in_range P y = true.
Proof.
  intros HT HU Hx Hy. apply andb_true_iff; split; apply in_range_spec;
    [exact (IsTypeInRange_sound _ _ _ HT Hx)|exact (IsTypeInRange_sound _ _ _ HU Hy)].
Qed.

Lemma Sub_destination T U P x y :
  mixes_uint64 T U = false -> AddSubPromotion T U = Some P -> InRange T x -> InRange U y ->
  IsIntegerArithmeticSafe P T U = true ->
  in_range (MaxExponentPromotion T U) (static_cast P (x - y)) =
  in_range (MaxExponentPromotion T U) (x - y).
Proof.
  intros Hm HP Hx Hy Hs. destruct (static_cast_cong P (x - y)) as [k Hk].
  pose proof (static_cast_range P (x - y)) as Hr.
  destruct T, U; try discriminate Hm; vm_compute in HP; injection HP as <-;
    vm_compute in Hs; try discriminate Hs;
    match goal with |- context [MaxExponentPromotion ?a ?b] =>
      let v := eval vm_compute in (MaxExponentPromotion a b) in
      change (MaxExponentPromotion a b) with v end;
    unfold in_range; limits; apply bool_eq_iff; rewrite !andb_true_iff, !Z.leb_le; lia.
Qed.

Section Complete.
Context (T U : int_type) (x y : Z).
Context (Hx : InRange T x) (Hy : InRange U y) (Hm : mixes_uint64 T U = false).
Let V := MaxExponentPromotion T U.

Lemma Add_complete : exists r, CheckedAddOp.Do T U V x y 0 = Some (in_range V (x + y), r).
Proof using Hx Hy Hm.
  destruct (CheckedAddOp_promoted T U V x y 0 Hx Hy) as (P & HP & ->).
  destruct (AddSubPromotion_contains T U P Hm HP) as (HT & HU & _).
  rewrite (in_range_both P T U) by done. apply promoted_complete.
  by apply AddPromotion_contains_result.
Qed.

Lemma Sub_complete : exists r, CheckedSubOp.Do T U V x y 0 = Some (in_range V (x - y), r).
Proof using Hx Hy Hm.
  destruct (CheckedSubOp_promoted T U V x y 0 Hx Hy) as (P & HP & ->).
  destruct (AddSubPromotion_contains T U P Hm HP) as (HT & HU & Heq).
  rewrite (in_range_both P T U) by done. subst V.
  destruct (IsIntegerArithmeticSafe P T U) eqn:Hs.
  - unfold promoted. rewrite (Sub_destination T U P) by done. by eexists.
  - cbn. rewrite <- (Heq eq_refl). apply promoted_complete. rewrite IsTypeInRange_spec. lia.
Qed.

Lemma Mul_complete : exists r, CheckedMulOp.Do T U V x y 0 = Some (in_range V (x * y), r).
Proof using Hx Hy Hm.
  destruct (CheckedMulOp_promoted T U V x y 0 Hx Hy) as (P & HP & ->).
  destruct (MulPromotion_contains T U P Hm HP) as (HT & HU & HV).
  rewrite (in_range_both P T U) by done. by apply promoted_complete.
Qed.
End Complete.

Lemma Div_complete T U x y :
  InRange T x -> InRange U y -> mixes_uint64 T U = false ->
  let V := MaxExponentPromotion T U in
  exists r, CheckedDivOp.Do T U V x y 0 =
    Some (negb (y =? 0) && in_range V (Z.quot x y), r) /\
    (y <> 0 -> InRange V (Z.quot x y) -> r = Z.quot x y).
Proof.
  intros Hx Hy Hm V. destruct (CheckedDivOp_promoted T U V x y 0 Hx Hy) as (P & HP & ->).
  destruct (Z.eqb_spec y 0) as [->|Hy0]; [by exists 0|]. cbn [negb orb andb].
  assert (div_overflows P x y = true -> in_range V (Z.quot x y) = false) as Hov.
  { unfold div_overflows. intros H. boolprop. subst x y.
    change (-1) with (- (1)). rewrite Z.quot_opp_r, Z.quot_1_r by lia. subst V.
    destruct T, U; try discriminate Hm; vm_compute in HP; injection HP as <-; try discriminate;
      try reflexivity; limits; lia. }
  assert (in_range P x && in_range P y = true) as ->.
  { destruct T, U; try discriminate Hm; vm_compute in HP; injection HP as <-;
      unfold in_range; limits; rewrite !andb_true_iff, !Z.leb_le; lia. }
  cbn [orb negb]. rewrite orb_false_r. destruct (div_overflows P x y).
  - rewrite Hov by done. exists 0. split; [done|]. intros _ Hr.
    by rewrite (proj2 (in_range_spec V _) Hr) in Hov; discriminate Hov.
  - eexists. split; [done|]. intros _ Hr. by apply static_cast_id.
Qed.

(** *** The contract of success

    [CheckedOpComplete M f ok]: where no signed type meets [uint64_t], the operation
    with its own result type reports success exactly when the operands are in the
    domain [ok] and [f] of them fits the result type. *)

Class CheckedOpComplete (M : MathWrapper) (f : int_type -> int_type -> Z -> Z -> Z)
    (ok : int_type -> int_type -> Z -> Z -> bool) : Prop :=
  checked_op_complete T U x y :
    InRange T x -> InRange U y -> mixes_uint64 T U = false ->
    let V := mw_result_type M T U in
    exists r, mw_Do M T U V x y 0 = Some (ok T U x y && in_range V (f T U x y), r).

Definition everywhere (T U : int_type) (x y : Z) : bool := true.
Definition nonzero_divisor (T U : int_type) (x y : Z) : bool := negb (y =? 0).
Definition right_shift_ok (T U : int_type) (x s : Z) : bool := (0 <=? s) && (s <? width T).
Definition left_shift_ok (T U : int_type) (x s : Z) : bool :=
  (0 <=? x) && (0 <=? s) && (s <? digits T) || is_signed T && (x =? 0) && (s =? digits T).

#[export] Instance CheckedAdd_complete : CheckedOpComplete MathAdd (fun _ _ => Z.add) everywhere.
Proof. intros T U x y Hx Hy Hm. by apply Add_complete. Qed.
#[export] Instance CheckedSub_complete : CheckedOpComplete MathSub (fun _ _ => Z.sub) everywhere.
Proof. intros T U x y Hx Hy Hm. by apply Sub_complete. Qed.
#[export] Instance CheckedMul_complete : CheckedOpComplete MathMul (fun _ _ => Z.mul) everywhere.
Proof. intros T U x y Hx Hy Hm. by apply Mul_complete. Qed.
#[export] Instance CheckedDiv_complete : CheckedOpComplete MathDiv (fun _ _ => Z.quot) nonzero_divisor.
Proof. intros T U x y Hx Hy Hm. destruct (Div_complete T U x y Hx Hy Hm) as (r & E & _). by exists r. Qed.

Lemma store_result_self R z : InRange R z -> store_result R R true z = Some (in_range R z, z).
Proof. intros Hz. rewrite store_result_spec by done. by rewrite static_cast_id. Qed.

#[export] Instance CheckedMax_complete : CheckedOpComplete MathMax (fun _ _ => Z.max) everywhere.
Proof.
  intros T U x y Hx Hy _. cbn [mw_Do mw_result_type MathMax everywhere andb].
  unfold CheckedMaxOp.Do. rewrite IsGreater_spec by done. cbn [mbind option_bind].
  pose proof (max_promotion_exact T U x y Hx Hy) as Hm.
  replace (if y <? x then _ else _) with (Z.max x y); [eexists; by apply store_result_self|].
  destruct (Z.ltb_spec y x); [rewrite Z.max_l in * by lia|rewrite Z.max_r in * by lia];
    by rewrite static_cast_id.
Qed.
#[export] Instance CheckedMin_complete : CheckedOpComplete MathMin (fun _ _ => Z.min) everywhere.
Proof.
  intros T U x y Hx Hy _. cbn [mw_Do mw_result_type MathMin everywhere andb].
  unfold CheckedMinOp.Do. rewrite IsLess_spec by done. cbn [mbind option_bind].
  pose proof (min_promotion_exact T U x y Hx Hy) as Hm.
  replace (if x <? y then _ else _) with (Z.min x y); [eexists; by apply store_result_self|].
  destruct (Z.ltb_spec x y); [rewrite Z.min_l in * by lia|rewrite Z.min_r in * by lia];
    by rewrite static_cast_id.
Qed.

#[export] Instance CheckedRsh_complete : CheckedOpComplete MathRsh (fun _ _ => Z.shiftr) right_shift_ok.
Proof.
  intros T U x s Hx Hs _. cbn [mw_Do mw_result_type MathRsh]. unfold CheckedRshOp.Do, right_shift_ok.
  rewrite shift_in_bounds_signed by (done || by destruct T).
  replace (IntegerBitsPlusSign T) with (width T) by (by destruct T).
  change (CheckedRshOp.result_type T U) with T.
  destruct (_ && _) eqn:Hg; [|by eexists]. boolprop. unfold c_shr.
  replace ((s <? 0) || (width (promote T) <=? s)) with false
    by (symmetry; apply orb_false_iff; split; [lia|]; destruct T; cbn in *; lia).
  cbn [mbind option_bind]. pose proof (shiftr_in_range T x s Hx ltac:(lia)) as Hr.
  rewrite (static_cast_id T) by done. eexists. by apply store_result_self.
Qed.

Lemma shift_at_digits U shift n :
  InRange U shift -> 0 <= n <= 64 ->
  c_eq (make_unsigned U) Uint32 (as_unsigned U shift) (as_unsigned Int32 n) = (shift =? n).
Proof.
  intros Hs Hn. unfold c_eq, c_cmp, as_unsigned.
  rewrite (static_cast_id (make_unsigned Int32) n) by (limits; lia).
  destruct (static_cast_cong (make_unsigned U) shift) as [k Hk].
  pose proof (static_cast_range (make_unsigned U) shift) as Hr.
  rewrite (static_cast_id _ n), (static_cast_id _ (static_cast _ shift)) by (tlia U).
  rewrite Hk in *. destruct (Z.eqb_spec shift n); [apply Z.eqb_eq|apply Z.eqb_neq]; tlia U.
Qed.

#[export] Instance CheckedLsh_complete : CheckedOpComplete MathLsh (fun _ _ x s => x * 2 ^ s) left_shift_ok.
Proof.
  intros T U x s Hx Hs _. change (mw_result_type MathLsh T U) with T. unfold left_shift_ok.
  destruct (checked_op_exact (CheckedOp := CheckedLsh_ok) T U T x s Hx Hs (or_introl eq_refl))
    as (b & r & E & Hr & Hb).
  exists r. rewrite E. do 2 f_equal. cbn [mw_Do MathLsh] in E. unfold CheckedLshOp.Do in E.
  rewrite shift_in_bounds, shift_at_digits in E by (done || by destruct T).
  assert (IsValueNegative T x = (x <? 0)) as Hneg.
  { unfold IsValueNegative. destruct (is_signed T) eqn:Hsg; [done|]. symmetry. apply Z.ltb_ge. tlia T. }
  rewrite Hneg in E. rewrite (Z.leb_antisym x 0).
  destruct (x <? 0) eqn:Hx0; cbn [negb andb orb] in E |- *.
  { injection E as <- <-. apply Z.ltb_lt in Hx0. replace (x =? 0) with false by (symmetry; lia).
    by rewrite andb_false_r. }
  apply Z.ltb_ge in Hx0. destruct ((0 <=? s) && (s <? digits T)) eqn:Hg.
  - boolprop. rewrite shiftl_fits in E by (done || lia). cbn [mbind option_bind orb andb] in E |- *.
    destruct (c_shr T _ s) as [back|] eqn:Eb; cbn [mbind option_bind] in E; [|done].
    injection E as Eb' Er.
    assert (static_cast T (static_cast (promote (make_unsigned T)) (x * 2 ^ s)) = static_cast T (x * 2 ^ s))
      as Hc by (apply static_cast_trans; by destruct T).
    rewrite Hc in *. apply bool_eq_iff. rewrite in_range_spec. split; [intros ->; by rewrite <- Hb|].
    intros Hin. rewrite <- Eb'. rewrite (static_cast_id T) in Eb by done. unfold c_shr in Eb.
    destruct (_ || _); [done|]. injection Eb as <-.
    assert (Z.shiftr (x * 2 ^ s) s = x) as Hback.
    { rewrite Z.shiftr_div_pow2 by lia. apply Z.div_mul. apply Z.pow_nonzero; lia. }
    rewrite Hback. unfold c_eq, c_cmp. apply Z.eqb_refl.
  - cbn [orb]. injection E as <- <-.
    destruct (is_signed T && (x =? 0) && (s =? digits T)) eqn:Hz; [|done]. boolprop. subst x.
    symmetry. apply in_range_spec. rewrite Z.mul_0_l. apply InRange_0.
Qed.

Lemma bit_op_complete T U op x y :
  (forall w a b, 0 <= w -> 0 <= a < 2 ^ w -> 0 <= b < 2 ^ w -> 0 <= op a b < 2 ^ w) ->
  let R := CheckedBitOp_result_type T U in
  exists r, store_result R R true (static_cast R (op (static_cast (arith R R) (static_cast R x))
                                                    (static_cast (arith R R) (static_cast R y)))) =
    Some (in_range R (bitwise op T U x y), r).
Proof.
  intros Hop R. destruct (bit_result T U op x y Hop) as [Hv Hr]. fold R in Hv, Hr. rewrite Hv. eexists. by apply store_result_self.
Qed.

#[export] Instance CheckedAnd_complete : CheckedOpComplete MathAnd (bitwise Z.land) everywhere.
Proof. intros T U x y _ _ _. apply bit_op_complete, land_bounded. Qed.
#[export] Instance CheckedOr_complete : CheckedOpComplete MathOr (bitwise Z.lor) everywhere.
Proof. intros T U x y _ _ _. apply bit_op_complete, lor_bounded. Qed.
#[export] Instance CheckedXor_complete : CheckedOpComplete MathXor (bitwise Z.lxor) everywhere.
Proof. intros T U x y _ _ _. apply bit_op_complete, lxor_bounded. Qed.

(** Where the operation is complete, a step is valid when its operands are, are in
    the domain, and the result fits; a chain, when every step is. *)
Section MathOpComplete.
Context (M : MathWrapper) (f : int_type -> int_type -> Z -> Z -> Z)
  (ok : int_type -> int_type -> Z -> Z -> bool) {HM : CheckedOp M f} {HC : CheckedOpComplete M f ok}.

(** No step of the chain has a signed operand and a [uint64_t]. *)
Fixpoint unmixed (L R : int_type) (args : list operand) : bool :=
  negb (mixes_uint64 L R) &&
  match args with
  | [] => true
  | a :: args => unmixed (mw_result_type M L R) (Wrapper.type a) args
  end.

(** Every step is in the domain, and its exact result fits the type of the step. *)
Fixpoint chain_fits (L R : int_type) (x y : Z) (args : list operand) : bool :=
  ok L R x y && in_range (mw_result_type M L R) (f L R x y) &&
  match args with
  | [] => true
  | a :: args =>
      chain_fits (mw_result_type M L R) (Wrapper.type a) (f L R x y) (Wrapper.value a) args
  end.

Lemma CN_MathOp_complete lhs rhs :
  operand_wf lhs -> operand_wf rhs ->
  let L := Wrapper.type lhs in let R := Wrapper.type rhs in
  mixes_uint64 L R = false ->
  exists c, CN_MathOp M (mw_result_type M L R) lhs rhs = Some c /\
    is_valid_ c = operand_valid lhs && operand_valid rhs &&
      (ok L R (Wrapper.value lhs) (Wrapper.value rhs) &&
       in_range (mw_result_type M L R) (f L R (Wrapper.value lhs) (Wrapper.value rhs))).
Proof.
  intros Hl Hr L R Hm. unfold CN_MathOp. rewrite !Wrapper_is_valid_spec by done. cbn [mbind option_bind].
  pose proof (Wrapper_value_range _ Hl) as Vl. pose proof (Wrapper_value_range _ Hr) as Vr.
  destruct (operand_valid lhs), (operand_valid rhs); cbn [andb mbind option_bind];
    try (rewrite CheckedNumericState_valid_self by apply InRange_0; by eexists).
  destruct (checked_op_complete (CheckedOpComplete := HC) L R _ _ Vl Vr Hm) as (r & E).
  destruct (checked_op_exact (CheckedOp := HM) L R _ _ _ Vl Vr (or_intror eq_refl)) as (b & r' & E' & Hin & _).
  rewrite E in E'. injection E' as <- <-. fold L R. rewrite E. cbn [mbind option_bind fst snd].
  rewrite CheckedNumericState_valid_self by done. by eexists.
Qed.

Lemma CheckMathOp_valid_iff lhs rhs args c :
  operand_wf lhs -> operand_wf rhs -> Forall operand_wf args ->
  unmixed (Wrapper.type lhs) (Wrapper.type rhs) args = true ->
  CheckMathOp M lhs rhs args =
    Some (ResultType M (Wrapper.type lhs) (Wrapper.type rhs) (Wrapper.type <$> args), c) ->
  is_valid_ c = forallb operand_valid (lhs :: rhs :: args) &&
    chain_fits (Wrapper.type lhs) (Wrapper.type rhs) (Wrapper.value lhs) (Wrapper.value rhs) args.
Proof.
  revert lhs rhs. induction args as [|a args IH]; intros lhs rhs Hl Hr Hargs [Hm Hu]%andb_prop;
    apply negb_true_iff in Hm; cbn [CheckMathOp chain_fits forallb]; unfold CheckMathOp2;
    destruct (CN_MathOp_complete lhs rhs Hl Hr Hm) as (c1 & E & Hv);
    destruct (CN_MathOp_sound M f _ lhs rhs Hl Hr (or_intror eq_refl)) as (c2 & E2 & Hwf & Hs);
    rewrite E in E2; injection E2 as <-; rewrite E; cbn [mbind option_bind].
  - intros [= <-]. by rewrite Hv, !andb_true_r.
  - apply Forall_cons_1 in Hargs as [Ha Hargs].
    intros Hc. apply (IH (CheckedOperand _ c1) a Hwf Ha Hargs Hu) in Hc. rewrite Hc.
    cbn [forallb operand_valid]. destruct (is_valid_ c1) eqn:Hc1; cbn [andb].
    + symmetry in Hv. apply andb_true_iff in Hv as [[Hvl Hvr]%andb_true_iff Hfit].
      destruct (Hs eq_refl) as (_ & _ & Hval). rewrite Hvl, Hvr. cbn [andb].
      rewrite Hfit. cbn [andb Wrapper.type Wrapper.value]. by rewrite Hval.
    + symmetry in Hv. destruct (operand_valid lhs), (operand_valid rhs); cbn [andb] in Hv |- *; try done.
      rewrite Hv. cbn. by rewrite andb_false_r.
Qed.
End MathOpComplete.

(** ** Main results *)

(** Checked addition, subtraction and multiplication are total and report
    success exactly when the mathematical result is representable in the result
    type, for every pair of operand types except a signed type with [uint64_t]. *)
Theorem checked_arith_complete T U x y :
  InRange T x -> InRange U y -> mixes_uint64 T U = false ->
  let V := MaxExponentPromotion T U in
  (exists r, CheckedAddOp.Do T U V x y 0 = Some (in_range V (x + y), r)) /\
  (exists r, CheckedSubOp.Do T U V x y 0 = Some (in_range V (x - y), r)) /\
  (exists r, CheckedMulOp.Do T U V x y 0 = Some (in_range V (x * y), r)).
Proof. intros Hx Hy Hm V. split_and!; [apply Add_complete|apply Sub_complete|apply Mul_complete]; done. Qed.

Lemma checked_arith_complete_witness :
  InRange Int32 2147483647 /\ InRange Uint8 1 /\
  exists r, CheckedAddOp.Do Int32 Uint8 Int32 2147483647 1 0 = Some (false, r).
Proof.
  assert (InRange Int32 2147483647) as H1 by (limits; lia).
  assert (InRange Uint8 1) as H2 by (limits; lia).
  split; [exact H1|split; [exact H2|]].
  exact (proj1 (checked_arith_complete Int32 Uint8 2147483647 1 H1 H2 eq_refl)).
Defined.



(** The same product in one step more of [int16_t] is not valid. *)
Example CheckMathOp_overflow :
  exists c, CheckMathOp MathMul (PlainOperand Int16 300) (PlainOperand Int16 100)
      [PlainOperand Int16 2; PlainOperand Int64 1000000] = Some (Int64, c) /\ is_valid_ c = false.
Proof. eexists. split; [vm_compute; reflexivity|reflexivity]. Qed.

(** Checked division is total and succeeds exactly when the divisor is not
    zero and the truncated quotient is representable ([INT_MIN / -1] is not). *)
Theorem checked_div_complete T U x y :
  InRange T x -> InRange U y -> mixes_uint64 T U = false ->
  let V := MaxExponentPromotion T U in
  exists r, CheckedDivOp.Do T U V x y 0 =
    Some (negb (y =? 0) && in_range V (Z.quot x y), r) /\
    (y <> 0 -> InRange V (Z.quot x y) -> r = Z.quot x y).
Proof. intros Hx Hy Hm V. by apply Div_complete. Qed.

Lemma checked_div_complete_witness :
  InRange Int32 (-2147483648) /\ InRange Int8 (-1) /\
  exists r, CheckedDivOp.Do Int32 Int8 Int32 (-2147483648) (-1) 0 = Some (false, r).
Proof.
  assert (InRange Int32 (-2147483648)) as H1 by (limits; lia).
  assert (InRange Int8 (-1)) as H2 by (limits; lia).
  split; [exact H1|split; [exact H2|]].
  destruct (checked_div_complete Int32 Int8 (-2147483648) (-1) H1 H2 eq_refl) as (r & Hr & _).
  exists r. exact Hr.
Defined.

Lemma rem_in_range T x y : InRange T x -> y <> 0 -> InRange T (Z.rem x y).
Proof.
  intros Hx Hy.
  pose proof (Z.rem_sign_mul x y Hy) as Hs. pose proof (Z.rem_abs x y Hy) as Ha.
  rewrite Z.rem_mod_nonneg in Ha by lia.
  pose proof (Z.mod_le (Z.abs x) (Z.abs y) ltac:(lia) ltac:(lia)) as Hle.
  unfold InRange in *. pose proof (lowest_le_0 T). pose proof (max_pos T). nia.
Qed.

(** A remainder in one type. *)
Lemma c_mod_same P x y : InRange P x -> InRange P y -> y <> 0 ->
  c_mod P P x y = if is_signed P && (32 <=? width P) && (x =? lowest P) && (y =? -1) then None else Some (Z.rem x y).
Proof.
  intros HPx HPy Hy0. unfold c_mod. rewrite !arith_cast_same by done. replace (y =? 0) with false by lia.
  destruct (is_signed P && (32 <=? width P) && (x =? lowest P) && (y =? -1)) eqn:Hov.
  - boolprop. subst x y. destruct P; try discriminate; done || (cbn in *; lia).
  - assert (InRange (arith P P) (Z.quot x y)) as Hq.
    { apply quot_in_range; [by apply InRange_arith_same|done|..].
      - intros Hu. assert (is_signed P = false) by (by destruct P). tlia P.
      - intros [Hlo ->]. destruct P; limits; cbn in Hov; lia. }
    by rewrite arith_result_in_range by done.
Qed.

(** Checked modulus lacks the [lowest / -1] guard of checked division: in
    [int32_t] and [int64_t] that remainder is undefined behaviour, and on every
    other pair of operands with the same signedness it is defined, fails only for
    a zero divisor, and is the exact truncated remainder. *)
Theorem checked_mod_undefined_iff T U x y :
  InRange T x -> InRange U y -> is_signed T = is_signed U ->
  let V := MaxExponentPromotion T U in
  CheckedModOp.Do T U V x y 0 =
    if y =? 0 then Some (false, 0)
    else if is_signed T && (32 <=? width V) && (x =? lowest V) && (y =? -1) then None
    else Some (true, Z.rem x y).
Proof.
  intros Hx Hy Hs V. unfold CheckedModOp.Do. subst V.
  assert (BigEnoughPromotion.type T U = Some (MaxExponentPromotion T U)) as ->
    by (destruct T, U; try discriminate; reflexivity).
  cbn. destruct (Z.eqb_spec y 0) as [->|Hy0]; [done|]. cbn.
  set (P := MaxExponentPromotion T U).
  assert (InRange P x /\ InRange P y /\ is_signed P = is_signed T) as (HPx & HPy & HPs).
  { subst P. destruct T, U; try discriminate;
      match goal with |- context [MaxExponentPromotion ?a ?b] =>
        let v := eval vm_compute in (MaxExponentPromotion a b) in
        change (MaxExponentPromotion a b) with v end;
      (split; [|split; [|reflexivity]]); limits; lia. }
  rewrite <- HPs. clearbody P. clear Hs HPs Hx Hy.
  rewrite (static_cast_id P x), (static_cast_id P y) by done.
  rewrite c_mod_same by done. destruct (is_signed P && (32 <=? width P) && (x =? lowest P) && (y =? -1)); [done|].
  pose proof (rem_in_range P x y HPx Hy0) as Hr. cbn. rewrite (static_cast_id P) by done.
  rewrite store_result_spec by done. cbn. by rewrite (proj2 (in_range_spec P _) Hr), static_cast_id.
Qed.

Lemma checked_mod_undefined_iff_witness :
  InRange Int32 (-2147483648) /\ InRange Int32 (-1) /\
  CheckedModOp.Do Int32 Int32 Int32 (-2147483648) (-1) 0 = None.
Proof.
  assert (InRange Int32 (-2147483648)) as H1 by (limits; lia).
  assert (InRange Int32 (-1)) as H2 by (limits; lia).
  split; [exact H1|split; [exact H2|]].
  exact (checked_mod_undefined_iff Int32 Int32 (-2147483648) (-1) H1 H2 eq_refl).
Defined.

(** With a negative [int64_t] dividend and a [uint64_t] divisor, checked
    modulus reports success with the remainder of the dividend plus 2^64. *)
Theorem checked_mod_mixed_wraps x y :
  InRange Int64 x -> x < 0 -> InRange Uint64 y -> y <> 0 ->
  CheckedModOp.Do Int64 Uint64 Uint64 x y 0 = Some (true, (x + 2 ^ 64) mod y).
Proof.
  intros Hx Hn Hy Hy0. unfold CheckedModOp.Do.
  change (BigEnoughPromotion.type Int64 Uint64) with (Some Uint64).
  replace (y =? 0) with false by lia. cbn [mbind option_bind negb].
  assert (static_cast Uint64 x = x + 2 ^ 64) as Hc
    by (apply (static_cast_unique _ _ _ 1); limits; lia).
  rewrite Hc, (static_cast_id Uint64 y) by done.
  unfold c_mod. cbn [arith promote].
  rewrite (static_cast_id _ y), (static_cast_id _ (x + 2 ^ 64)) by (limits; lia).
  replace (y =? 0) with false by lia. rewrite arith_result_unsigned by done. cbn [mbind option_bind].
  rewrite Z.rem_mod_nonneg by (limits; lia).
  assert (InRange Uint64 ((x + 2 ^ 64) mod y)) as Hr.
  { pose proof (Z.mod_pos_bound (x + 2 ^ 64) y ltac:(limits; lia)).
    pose proof (Z.mod_le (x + 2 ^ 64) y ltac:(limits; lia) ltac:(limits; lia)). limits; lia. }
  rewrite (static_cast_id Uint64) by done. rewrite store_result_spec by done.
  by rewrite (proj2 (in_range_spec _ _) Hr), static_cast_id.
Qed.

Lemma checked_mod_mixed_wraps_witness :
  InRange Int64 (-1) /\ InRange Uint64 7 /\
  CheckedModOp.Do Int64 Uint64 Uint64 (-1) 7 0 = Some (true, 1) /\ Z.rem (-1) 7 = -1.
Proof.
  assert (InRange Int64 (-1)) as H1 by (limits; lia).
  assert (InRange Uint64 7) as H2 by (limits; lia).
  split; [exact H1|split; [exact H2|split; [|reflexivity]]].
  exact (checked_mod_mixed_wraps (-1) 7 H1 ltac:(lia) H2 ltac:(lia)).
Defined.

(** No accessor of a [CheckedNumeric] delivers an invalid or out-of-range
    value: [ValueOrDie] and [AssignIfValid] hand out the stored value exactly when
    the state is valid and the destination represents it, [ValueOrDefault] falls
    back to the (checked) default, and [Cast] keeps value and validity. *)
Theorem CheckedNumeric_accessors T Dst Src c d old :
  CN_wf T c -> InRange Src d ->
  let ok := is_valid_ c && in_range Dst (value_ c) in
  CN_ValueOrDie T Dst c = Some (if ok then Returns (value_ c) else HandleFailure) /\
  CN_AssignIfValid T Dst c old = Some (if ok then (true, value_ c) else (false, old)) /\
  CN_ValueOrDefault T Dst Src c d =
    Some (if ok then Returns (value_ c)
          else if in_range Dst d then Returns d else HandleFailure) /\
  (exists c', CN_Cast T Dst c = Some c' /\ CN_wf Dst c' /\ is_valid_ c' = ok /\
     (ok = true -> value_ c' = value_ c)).
Proof.
  intros Hc Hd ok.
  assert (ok = true -> static_cast Dst (value_ c) = value_ c) as Hcast.
  { intros (_ & H)%andb_true_iff. by apply static_cast_id, in_range_spec. }
  unfold CN_ValueOrDie, CN_AssignIfValid, CN_ValueOrDefault.
  rewrite CN_IsValid_spec by done. cbn. fold ok. split_and!.
  - destruct ok; [by rewrite Hcast|done].
  - destruct ok; [by rewrite Hcast|done].
  - destruct ok; [by rewrite Hcast|].
    unfold checked_cast. rewrite IsValueInRange_spec by done. cbn.
    destruct (in_range Dst d) eqn:E; [|done]. apply in_range_spec in E.
    by rewrite (static_cast_id Src), (static_cast_id Dst).
  - unfold CN_Cast, CN_convert. rewrite CN_IsValid_self by done. cbn.
    rewrite CheckedNumericState_valid_spec by done. eexists. split; [done|].
    split; [apply static_cast_range|]. split; [done|]. intros H. by apply Hcast.
Qed.

Lemma CheckedNumeric_accessors_witness :
  CN_wf Int32 (mkChecked true 300) /\ InRange Int32 7 /\
  CN_ValueOrDefault Int32 Uint8 Int32 (mkChecked true 300) 7 = Some (Returns 7).
Proof.
  assert (CN_wf Int32 (mkChecked true 300)) as H1 by (unfold CN_wf; cbn; limits; lia).
  assert (InRange Int32 7) as H2 by (limits; lia).
  split; [exact H1|split; [exact H2|]].
  exact (proj1 (proj2 (proj2
    (CheckedNumeric_accessors Int32 Uint8 Int32 (mkChecked true 300) 7 0 H1 H2)))).
Defined.

Lemma NegateWrapper_spec T v : InRange T v -> NegateWrapper T v = Some (static_cast T (- v)).
Proof.
  intros Hv. unfold NegateWrapper, c_sub.
  replace 0 with (static_cast (make_unsigned T) 0) at 1 by (apply static_cast_id, InRange_0).
  destruct (image_op T Z.sub 0 v) as (s & -> & Hs).
  { intros a b k j m. exists (k - j). ring. }
  { intros Hw. pose proof (unsigned_image T v).
    rewrite (static_cast_id (make_unsigned T) 0) by apply InRange_0. tlia T. }
  cbn. f_equal. rewrite <- (static_cast_trans T (make_unsigned T) s) by (by destruct T).
  rewrite Hs. by rewrite static_cast_trans by (by destruct T).
Qed.

(** Unary minus is exact for signed types (invalid only for the most
    negative value), but for an unsigned type it reports the two's complement of
    any valid value as valid. *)
Theorem CN_negate_spec T c :
  CN_wf T c -> is_valid_ c = true ->
  CN_negate T c =
    Some (if is_signed T
          then mkChecked (in_range T (- value_ c)) (static_cast T (- value_ c))
          else mkChecked true ((- value_ c) mod 2 ^ width T)).
Proof.
  intros Hc Hv. unfold CN_negate. cbn. rewrite NegateWrapper_spec by done. cbn.
  rewrite CN_IsValid_self by done. cbn. rewrite Hv. cbn.
  rewrite CheckedNumericState_valid_self by apply static_cast_range.
  destruct (is_signed T) eqn:Hs; cbn.
  - do 2 f_equal. destruct (static_cast_cong T (- value_ c)) as [k Hk].
    pose proof (static_cast_range T (- value_ c)) as Hr. unfold CN_wf in Hc.
    apply bool_eq_iff. rewrite negb_true_iff, Z.eqb_neq, in_range_spec. tlia T.
  - do 2 f_equal. unfold static_cast. by rewrite Hs.
Qed.

Lemma CN_negate_spec_witness :
  CN_wf Uint32 (mkChecked true 5) /\
  CN_negate Uint32 (mkChecked true 5) = Some (mkChecked true 4294967291).
Proof.
  assert (CN_wf Uint32 (mkChecked true 5)) as H by (unfold CN_wf; cbn; limits; lia).
  split; [exact H|]. exact (CN_negate_spec Uint32 (mkChecked true 5) H eq_refl).
Defined.
