(* ===== verification/CheckedExpr.v ===== *)
(** * CheckedExpr: expressions of checked numbers

    Expressions over [CheckedNumeric] of base/numerics/checked_math.h with their types as
    the templates compute them, and type soundness: an expression has a value, and a value
    of its type, unless it takes the one remainder that is undefined. *)

From S2P Require Import Prelude IntTypes SafeConversions CheckedMath.

(** ** Expressions *)

Inductive binary_operator :=
  | OpAdd | OpSub | OpMul | OpDiv | OpMod | OpLsh | OpRsh | OpAnd | OpOr | OpXor | OpMax | OpMin.

Definition wrapper (op : binary_operator) : MathWrapper :=
  match op with
  | OpAdd => MathAdd | OpSub => MathSub | OpMul => MathMul | OpDiv => MathDiv | OpMod => MathMod
  | OpLsh => MathLsh | OpRsh => MathRsh | OpAnd => MathAnd | OpOr => MathOr | OpXor => MathXor
  | OpMax => MathMax | OpMin => MathMin
  end.

(** [Literal T Src v] is [CheckedNumeric<T>(v)] for a [v] of type [Src]; [Assigned] stands
    for [+=] and its siblings, [Larger] and [Smaller] for the members [Max] and [Min]. *)
Inductive expression :=
  | Literal (T Src : int_type) (v : Z)
  | Cast_to (Dst : int_type) (a : expression)
  | Negated (a : expression)
  | Inverted (a : expression)
  | Absolute (a : expression)
  | Unsigned_absolute (a : expression)
  | Incremented (a : expression)
  | Decremented (a : expression)
  | Binary (op : binary_operator) (a b : expression)
  | Assigned (op : binary_operator) (a b : expression)
  | Larger (a b : expression)
  | Smaller (a b : expression).

Fixpoint type_of (e : expression) : int_type :=
  match e with
  | Literal T _ _ => T
  | Cast_to Dst _ => Dst
  | Negated a | Inverted a | Absolute a | Incremented a | Decremented a | Assigned _ a _ => type_of a
  | Unsigned_absolute a => UnsignedOrFloatForSize (type_of a)
  | Binary op a b => mw_result_type (wrapper op) (type_of a) (type_of b)
  | Larger a b => CheckedMaxOp.result_type (type_of a) (type_of b)
  | Smaller a b => CheckedMinOp.result_type (type_of a) (type_of b)
  end.

(** The value; none if it is undefined. *)
Fixpoint eval (e : expression) : option CheckedNumeric :=
  match e with
  | Literal T Src v => CN_of_value T Src v
  | Cast_to Dst a => x ← eval a; CN_Cast (type_of a) Dst x
  | Negated a => x ← eval a; CN_negate (type_of a) x
  | Inverted a => x ← eval a; CN_invert (type_of a) x
  | Absolute a => x ← eval a; CN_Abs (type_of a) x
  | Unsigned_absolute a => x ← eval a; CN_UnsignedAbs (type_of a) x
  | Incremented a => x ← eval a; CN_increment (type_of a) x
  | Decremented a => x ← eval a; CN_decrement (type_of a) x
  | Binary op a b => x ← eval a; y ← eval b;
      r ← CheckMathOp2 (wrapper op) (CheckedOperand (type_of a) x) (CheckedOperand (type_of b) y); Some r.2
  | Assigned op a b => x ← eval a; y ← eval b; CN_MathOp_assign (wrapper op) (type_of a) x (CheckedOperand (type_of b) y)
  | Larger a b => x ← eval a; y ← eval b; CN_Max (type_of a) x (CheckedOperand (type_of b) y)
  | Smaller a b => x ← eval a; y ← eval b; CN_Min (type_of a) x (CheckedOperand (type_of b) y)
  end.

(** Every literal is a value of its type. *)
Fixpoint literals_fit (e : expression) : Prop :=
  match e with
  | Literal _ Src v => InRange Src v
  | Cast_to _ a | Negated a | Inverted a | Absolute a | Unsigned_absolute a | Incremented a | Decremented a => literals_fit a
  | Binary _ a b | Assigned _ a b | Larger a b | Smaller a b => literals_fit a /\ literals_fit b
  end.

(** The remainder of the lowest value by -1, in a signed type that is not promoted. *)
Definition remainder_overflows (T U : int_type) (x y : Z) : bool :=
  match BigEnoughPromotion.type T U with
  | Some P => is_signed P && (32 <=? width P) && (x =? lowest P) && (y =? -1)
  | None => false
  end.

Definition takes_remainder (op : binary_operator) (T U : int_type) (x y : option CheckedNumeric) : bool :=
  match op, x, y with
  | OpMod, Some x, Some y => is_valid_ x && is_valid_ y && remainder_overflows T U (value_ x) (value_ y)
  | _, _, _ => false
  end.

(** Whether the expression takes it, of valid operands. *)
Fixpoint overflows (e : expression) : bool :=
  match e with
  | Literal _ _ _ => false
  | Cast_to _ a | Negated a | Inverted a | Absolute a | Unsigned_absolute a | Incremented a | Decremented a => overflows a
  | Binary op a b | Assigned op a b => overflows a || overflows b || takes_remainder op (type_of a) (type_of b) (eval a) (eval b)
  | Larger a b | Smaller a b => overflows a || overflows b
  end.

(** ** Remainders *)

Lemma BigEnough_type T U : exists P, BigEnoughPromotion.type T U = Some P /\ width U <= width P /\
  (is_signed P = true -> IsTypeInRangeForNumericType P T = true /\ IsTypeInRangeForNumericType P U = true).
Proof. destruct T, U; eexists; (split; [vm_compute; reflexivity|]); (split; [vm_compute; done|]); intros Hs; vm_compute in Hs |- *; done. Qed.

Lemma abs_below U y : InRange U y -> Z.abs y < 2 ^ width U.
Proof. intros Hy. destruct U; limits; lia. Qed.

Lemma nonzero_cast P U y : width U <= width P -> InRange U y -> y <> 0 -> static_cast P y <> 0.
Proof.
  intros Hw Hy Hn Hc. destruct (static_cast_cong P y) as [k Hk]. rewrite Hc in Hk. pose proof (Z.pow_le_mono_r 2 (width U) (width P)).
  pose proof (abs_below U y Hy). assert (k = 0) as -> by nia. lia.
Qed.

Lemma CheckedMod_run T U V x y : InRange T x -> InRange U y ->
  if remainder_overflows T U x y then CheckedModOp.Do T U V x y 0 = None
  else exists b r, CheckedModOp.Do T U V x y 0 = Some (b, r) /\ InRange V r.
Proof.
  intros Hx Hy. unfold remainder_overflows, CheckedModOp.Do. destruct (BigEnough_type T U) as (P & -> & Hw & Hs). cbn.
  destruct (Z.eqb_spec y 0) as [->|Hy0]; cbn.
  { rewrite andb_false_r. eexists _, _. split; [done|]. apply InRange_0. }
  rewrite c_mod_same by (apply static_cast_range || by eapply nonzero_cast).
  assert ((is_signed P && (32 <=? width P) && (static_cast P x =? lowest P) && (static_cast P y =? -1))%bool =
    (is_signed P && (32 <=? width P) && (x =? lowest P) && (y =? -1))%bool) as ->.
  { destruct (is_signed P); [|done]. destruct Hs as [HT HU]; [done|].
    by rewrite (static_cast_id P x (IsTypeInRange_sound _ _ _ HT Hx)), (static_cast_id P y (IsTypeInRange_sound _ _ _ HU Hy)). }
  destruct (_ && _ && _ && _)%bool; [done|]. cbn. rewrite store_result_spec by apply static_cast_range.
  eexists _, _. split; [done|]. apply static_cast_range.
Qed.

(** ** Operations on values of their types *)

(** What every operation but the remainder promises. *)
Lemma wrapper_runs op T U V x y : op <> OpMod -> InRange T x -> InRange U y -> V = T \/ V = mw_result_type (wrapper op) T U ->
  exists b r, mw_Do (wrapper op) T U V x y 0 = Some (b, r) /\ InRange V r.
Proof.
  intros Hop Hx Hy HV. assert (exists f, CheckedOp (wrapper op) f) as [f HM] by (destruct op; try done; eexists; apply _).
  destruct (checked_op_exact (CheckedOp := HM) T U V x y Hx Hy HV) as (b & r & Hr & Hin & _). by exists b, r.
Qed.

Lemma wrapper_run op T U V (x y : CheckedNumeric) : CN_wf T x -> CN_wf U y -> V = T \/ V = mw_result_type (wrapper op) T U ->
  is_valid_ x = true -> is_valid_ y = true ->
  if takes_remainder op T U (Some x) (Some y) then mw_Do (wrapper op) T U V (value_ x) (value_ y) 0 = None
  else exists b r, mw_Do (wrapper op) T U V (value_ x) (value_ y) 0 = Some (b, r) /\ InRange V r.
Proof.
  intros Hx Hy HV Hvx Hvy. unfold takes_remainder. rewrite Hvx, Hvy.
  destruct op; try (by apply wrapper_runs). cbn. by apply CheckedMod_run.
Qed.

Lemma state_typed T v b : exists c, CheckedNumericState_valid T T (static_cast T v) b = Some c /\ CN_wf T c.
Proof. rewrite CheckedNumericState_valid_self by apply static_cast_range. eexists. split; [done|]. apply static_cast_range. Qed.

Lemma state_typed_in T v b : InRange T v -> exists c, CheckedNumericState_valid T T v b = Some c /\ CN_wf T c.
Proof. intros Hv. rewrite CheckedNumericState_valid_self by done. by eexists. Qed.

Lemma convert_typed T Src x : CN_wf Src x -> exists c, CN_convert T Src x = Some c /\ CN_wf T c.
Proof.
  intros Hx. unfold CN_convert. rewrite CN_IsValid_self by done. cbn. rewrite CheckedNumericState_valid_spec by done.
  eexists. split; [done|]. apply static_cast_range.
Qed.

(** A result of type [T], unless the remainder overflows. *)
Definition typed_unless (b : bool) (T : int_type) (r : option CheckedNumeric) : Prop :=
  if b then r = None else exists c, r = Some c /\ CN_wf T c.

Lemma assign_typed op T U x y : CN_wf T x -> CN_wf U y ->
  typed_unless (takes_remainder op T U (Some x) (Some y)) T (CN_MathOp_assign (wrapper op) T x (CheckedOperand U y)).
Proof.
  intros Hx Hy. unfold CN_MathOp_assign, typed_unless. cbn [Wrapper.is_valid Wrapper.value Wrapper.type].
  rewrite CN_IsValid_self by done. pose proof (wrapper_run op T U T x y Hx Hy (or_introl eq_refl)) as Hrun.
  unfold takes_remainder in *. destruct (is_valid_ x), (is_valid_ y); cbn [mbind option_bind andb].
  2-4: replace (match op with OpMod => false | _ => false end) with false by (by destruct op); apply state_typed_in, InRange_0.
  specialize (Hrun eq_refl eq_refl). destruct (match op with OpMod => _ | _ => false end); [by rewrite Hrun|].
  destruct Hrun as (b & r & -> & Hr). by apply state_typed_in.
Qed.

Lemma binary_typed op T U x y : CN_wf T x -> CN_wf U y ->
  typed_unless (takes_remainder op T U (Some x) (Some y)) (mw_result_type (wrapper op) T U)
    (r ← CheckMathOp2 (wrapper op) (CheckedOperand T x) (CheckedOperand U y); Some r.2).
Proof.
  intros Hx Hy. unfold CheckMathOp2, CN_MathOp, typed_unless. cbn [Wrapper.is_valid Wrapper.value Wrapper.type].
  rewrite !CN_IsValid_self by done. pose proof (wrapper_run op T U _ x y Hx Hy (or_intror eq_refl)) as Hrun.
  unfold takes_remainder in *. destruct (is_valid_ x), (is_valid_ y); cbn [mbind option_bind andb].
  2-4: replace (match op with OpMod => false | _ => false end) with false by (by destruct op);
    (edestruct state_typed_in as (c & -> & Hc); [apply InRange_0|]); by exists c.
  specialize (Hrun eq_refl eq_refl). destruct (match op with OpMod => _ | _ => false end); [by rewrite Hrun|].
  destruct Hrun as (b & r & -> & Hr). cbn [mbind option_bind]. destruct (state_typed_in _ r b Hr) as (c & -> & Hc). by exists c.
Qed.

Lemma step_typed M (f : int_type -> int_type -> Z -> Z -> Z) `{HM : CheckedOp M f} T x : CN_wf T x ->
  exists c, CN_MathOp_assign M T x (PlainOperand Int32 1) = Some c /\ CN_wf T c.
Proof.
  intros Hx. unfold CN_MathOp_assign. cbn. destruct (is_valid_ x); cbn; [|apply state_typed_in, InRange_0].
  destruct (checked_op_exact T Int32 T (value_ x) 1 Hx) as (b & r & -> & Hr & _); [limits; lia|by left|]. by apply state_typed_in.
Qed.

Lemma negate_typed T x : CN_wf T x -> exists c, CN_negate T x = Some c /\ CN_wf T c.
Proof.
  intros Hx. unfold CN_negate, FastRuntimeNegate. destruct (_ || _).
  - rewrite NegateWrapper_spec, CN_IsValid_self by done. cbn. apply state_typed.
  - destruct (checked_op_exact (M := MathSub) T T T 0 (value_ x) (InRange_0 T) Hx (or_introl eq_refl)) as (b & r & Hr & Hin & _).
    change (mw_Do MathSub) with CheckedSubOp.Do in Hr. rewrite Hr, CN_IsValid_self by done. cbn. by apply state_typed_in.
Qed.

Lemma invert_typed T x : CN_wf T x -> exists c, CN_invert T x = Some c /\ CN_wf T c.
Proof.
  intros Hx. unfold CN_invert. rewrite CN_IsValid_self by done. cbn.
  destruct (state_typed (make_unsigned T) (c_not T (value_ x)) (is_valid_ x)) as (c & Hc & Hwf). unfold InvertWrapper. rewrite Hc. by apply convert_typed.
Qed.

Lemma unsigned_abs_typed T x : CN_wf T x -> exists c, CN_UnsignedAbs T x = Some c /\ CN_wf (UnsignedOrFloatForSize T) c.
Proof.
  intros Hx. unfold CN_UnsignedAbs. rewrite SafeUnsignedAbs_spec by done. cbn. apply state_typed_in.
  unfold UnsignedOrFloatForSize. unfold CN_wf in Hx. destruct T; limits; lia.
Qed.

Lemma extremum_typed T U x y : CN_wf T x -> CN_wf U y ->
  (exists c, CN_Max T x (CheckedOperand U y) = Some c /\ CN_wf (CheckedMaxOp.result_type T U) c) /\
  (exists c, CN_Min T x (CheckedOperand U y) = Some c /\ CN_wf (CheckedMinOp.result_type T U) c).
Proof.
  intros Hx Hy. unfold CN_Max, CN_Min. cbn [Wrapper.is_valid Wrapper.value Wrapper.type].
  rewrite IsGreater_spec, IsLess_spec, CN_IsValid_self by done. split; apply state_typed.
Qed.

(** C40: Type soundness: the value of an expression exists and is a value of its type, unless
    the expression takes the remainder of the lowest value of a type by -1, of valid
    operands; then it is undefined. *)
Theorem expressions_typed e : literals_fit e ->
  if overflows e then eval e = None else exists c, eval e = Some c /\ CN_wf (type_of e) c.
Proof.
  change (literals_fit e -> typed_unless (overflows e) (type_of e) (eval e)).
  induction e as [T Src v|Dst a IH|a IH|a IH|a IH|a IH|a IH|a IH|op a IHa b IHb|op a IHa b IHb|a IHa b IHb|a IHa b IHb]; cbn.
  { intros Hv. unfold CN_of_value, CheckedNumericState_from. rewrite IsValueInRange_spec by done. eexists. split; [done|]. apply static_cast_range. }
  1-7: intros Ha; specialize (IH Ha); unfold typed_unless in *; destruct (overflows a); [by rewrite IH|];
    destruct IH as (x & -> & Hx); cbn.
  - by apply convert_typed.
  - by apply negate_typed.
  - by apply invert_typed.
  - unfold CN_Abs. destruct (negb _); [by exists x|by apply negate_typed].
  - by apply unsigned_abs_typed.
  - unfold CN_increment. by eapply step_typed, Hx; apply _.
  - unfold CN_decrement. by eapply step_typed, Hx; apply _.
  - intros [Ha Hb]. specialize (IHa Ha). specialize (IHb Hb). unfold typed_unless in IHa, IHb.
    destruct (overflows a); [by rewrite IHa|]. destruct IHa as (x & -> & Hx).
    destruct (overflows b); [by rewrite IHb|]. destruct IHb as (y & -> & Hy). by apply binary_typed.
  - intros [Ha Hb]. specialize (IHa Ha). specialize (IHb Hb). unfold typed_unless in IHa, IHb.
    destruct (overflows a); [by rewrite IHa|]. destruct IHa as (x & -> & Hx).
    destruct (overflows b); [by rewrite IHb|]. destruct IHb as (y & -> & Hy). by apply assign_typed.
  - intros [Ha Hb]. specialize (IHa Ha). specialize (IHb Hb). unfold typed_unless in *.
    destruct (overflows a); [by rewrite IHa|]. destruct IHa as (x & -> & Hx).
    destruct (overflows b); [by rewrite IHb|]. destruct IHb as (y & -> & Hy). by apply extremum_typed.
  - intros [Ha Hb]. specialize (IHa Ha). specialize (IHb Hb). unfold typed_unless in *.
    destruct (overflows a); [by rewrite IHa|]. destruct IHa as (x & -> & Hx).
    destruct (overflows b); [by rewrite IHb|]. destruct IHb as (y & -> & Hy). by apply extremum_typed.
Qed.

(** [-(CheckedNumeric<int8_t>(-128)) + CheckedNumeric<uint32_t>(7)] has a value, an invalid
    one, of type [uint32_t]; the remainder of the lowest [int32_t] has none. *)
Definition sample_expression : expression := Binary OpAdd (Negated (Literal Int8 Int32 (-128))) (Literal Uint32 Int32 7).

Lemma expressions_typed_witness :
  literals_fit sample_expression /\ (exists c, eval sample_expression = Some c /\ CN_wf Uint32 c) /\
  eval (Binary OpMod (Literal Int32 Int64 (-2147483648)) (Literal Int32 Int32 (-1))) = None.
Proof.
  assert (literals_fit sample_expression) as Hf by (cbn; limits; lia).
  split; [exact Hf|]. split; [exact (expressions_typed sample_expression Hf)|].
  apply (expressions_typed (Binary OpMod (Literal Int32 Int64 (-2147483648)) (Literal Int32 Int32 (-1)))).
  cbn. limits. lia.
Defined.
