(* ===== verification/ClampedMath.v ===== *)
(** * ClampedMath: base/numerics/clamped_math.h and clamped_math_impl.h

    Saturating arithmetic on top of the checked operations.  The same portable
    configuration as in [CheckedMath] is modelled. *)

From S2P Require Import Prelude IntTypes SafeConversions CheckedMath.

(** ** clamped_math_impl.h *)

Module ClampedNegFastOp.
Definition is_supported (T : int_type) : bool := false.
Definition Do (T : int_type) (value : Z) : option Z := None.
End ClampedNegFastOp.

Definition SaturatedNegWrapper (T : int_type) (value : Z) : option Z :=
  if is_signed T
  then if MustTreatAsConstexpr value || negb (ClampedNegFastOp.is_supported T)
       then n ← NegateWrapper T value;
            Some (if negb (n =? lowest T) then n else max T)
       else ClampedNegFastOp.Do T value
  else Some (static_cast T 0).

Definition SaturatedAbsWrapper (T : int_type) (value : Z) : option Z :=
  a ← SafeUnsignedAbs T value;
  r ← c_sub (make_unsigned T) Int32 a (b2z (IsValueNegative T (static_cast T a)));
  Some (static_cast T r).

(** The boilerplate fast operations are unsupported. *)
Module ClampedAddFastOp.
Definition is_supported (T U : int_type) : bool := false.
Definition Do (T U V : int_type) (x y : Z) : option Z := None.
End ClampedAddFastOp.
Module ClampedSubFastOp.
Definition is_supported (T U : int_type) : bool := false.
Definition Do (T U V : int_type) (x y : Z) : option Z := None.
End ClampedSubFastOp.
Module ClampedMulFastOp.
Definition is_supported (T U : int_type) : bool := false.
Definition Do (T U V : int_type) (x y : Z) : option Z := None.
End ClampedMulFastOp.

(** [static_assert]: the saturation result must be determined by the types. *)
Definition saturation_determined (U V result_type : int_type) : bool :=
  bool_decide (V = result_type) || IsTypeInRangeForNumericType U V.

Module ClampedAddOp.
Definition result_type (T U : int_type) : int_type := MaxExponentPromotion T U.
Definition Do (T U V : int_type) (x y : Z) : option Z :=
  if ClampedAddFastOp.is_supported T U then ClampedAddFastOp.Do T U V x y
  else guard_b (saturation_determined U V (result_type T U))
    (saturated ← CommonMaxOrMin V V (IsValueNegative U y);
     '(ok, result) ← CheckedAddOp.Do T U V x y 0;
     Some (if (ok : bool) then result else saturated)).
End ClampedAddOp.

Module ClampedSubOp.
Definition result_type (T U : int_type) : int_type := MaxExponentPromotion T U.
Definition Do (T U V : int_type) (x y : Z) : option Z :=
  if ClampedSubFastOp.is_supported T U then ClampedSubFastOp.Do T U V x y
  else guard_b (saturation_determined U V (result_type T U))
    (saturated ← CommonMaxOrMin V V (negb (IsValueNegative U y));
     '(ok, result) ← CheckedSubOp.Do T U V x y 0;
     Some (if (ok : bool) then result else saturated)).
End ClampedSubOp.

Module ClampedMulOp.
Definition result_type (T U : int_type) : int_type := MaxExponentPromotion T U.
Definition Do (T U V : int_type) (x y : Z) : option Z :=
  if ClampedMulFastOp.is_supported T U then ClampedMulFastOp.Do T U V x y
  else saturated ← CommonMaxOrMin V V (xorb (IsValueNegative T x) (IsValueNegative U y));
       '(ok, result) ← CheckedMulOp.Do T U V x y 0;
       Some (if (ok : bool) then result else saturated).
End ClampedMulOp.

Module ClampedDivOp.
Definition result_type (T U : int_type) : int_type := MaxExponentPromotion T U.
Definition Do (T U V : int_type) (x y : Z) : option Z :=
  '(ok, result) ← CheckedDivOp.Do T U V x y 0;
  if (ok : bool) then Some result
  else if negb (x =? 0)
       then CommonMaxOrMin V V (xorb (IsValueNegative T x) (IsValueNegative U y))
       else Some (sh_NaN SaturationDefaultLimits V).
End ClampedDivOp.

Module ClampedModOp.
Definition result_type (T U : int_type) : int_type := MaxExponentPromotion T U.
Definition Do (T U V : int_type) (x y : Z) : option Z :=
  '(ok, result) ← CheckedModOp.Do T U V x y 0;
  Some (if (ok : bool) then result else static_cast V x).
End ClampedModOp.

Module ClampedLshOp.
Definition result_type (T U : int_type) : int_type := T.
Definition Do (T U V : int_type) (x shift : Z) : option Z :=
  let saturate := if negb (x =? 0) then CommonMaxOrMin V V (IsValueNegative T x) else Some 0 in
  guard_b (negb (is_signed U))
    (if c_lt U Int32 shift (digits T)
     then shifted ← c_shl (make_unsigned T) (as_unsigned T x) shift;
          let result := static_cast V shifted in
          back ← c_shr V result shift;
          if c_eq (promote V) T back x then Some result else saturate
     else saturate).
End ClampedLshOp.

Module ClampedRshOp.
Definition result_type (T U : int_type) : int_type := T.
Definition Do (T U V : int_type) (x shift : Z) : option Z :=
  guard_b (negb (is_signed U))
    (d ← c_sub (make_unsigned V) Int32 (as_unsigned V 0) (b2z (IsValueNegative T x));
     let saturated := static_cast V d in
     if c_lt U Int32 shift (IntegerBitsPlusSign T)
     then shifted ← c_shr T x shift; saturated_cast V (promote T) shifted
     else Some saturated).
End ClampedRshOp.

Module ClampedAndOp.
Definition result_type := CheckedBitOp_result_type.
Definition Do (T U V : int_type) (x y : Z) : option Z :=
  let R := result_type T U in
  Some (static_cast V (c_and R R (static_cast R x) (static_cast R y))).
End ClampedAndOp.
Module ClampedOrOp.
Definition result_type := CheckedBitOp_result_type.
Definition Do (T U V : int_type) (x y : Z) : option Z :=
  let R := result_type T U in
  Some (static_cast V (c_or R R (static_cast R x) (static_cast R y))).
End ClampedOrOp.
Module ClampedXorOp.
Definition result_type := CheckedBitOp_result_type.
Definition Do (T U V : int_type) (x y : Z) : option Z :=
  let R := result_type T U in
  Some (static_cast V (c_xor R R (static_cast R x) (static_cast R y))).
End ClampedXorOp.

Module ClampedMaxOp.
Definition result_type (T U : int_type) : int_type := MaxExponentPromotion T U.
Definition Do (T U V : int_type) (x y : Z) : option Z :=
  greater ← IsGreater T U x y;
  if (greater : bool) then saturated_cast V T x else saturated_cast V U y.
End ClampedMaxOp.
Module ClampedMinOp.
Definition result_type (T U : int_type) : int_type := LowestValuePromotion T U.
Definition Do (T U V : int_type) (x y : Z) : option Z :=
  less ← IsLess T U x y;
  if (less : bool) then saturated_cast V T x else saturated_cast V U y.
End ClampedMinOp.

(** ** ClampedNumeric (clamped_math.h): a value that saturates on conversion *)

Record ClampedNumeric := mkClamped { clamped_value_ : Z }.

Definition Clamped_default : ClampedNumeric := mkClamped 0.
(** Construction from an arithmetic value and from another [ClampedNumeric]. *)
Definition Clamped_of (T Src : int_type) (value : Z) : option ClampedNumeric :=
  mkClamped <$> saturated_cast T Src value.
Definition Clamped_convert (T Src : int_type) (rhs : ClampedNumeric) : option ClampedNumeric :=
  mkClamped <$> saturated_cast T Src (clamped_value_ rhs).
Definition Clamped_of_strict (T Src : int_type) (value : StrictNumeric) : option ClampedNumeric :=
  v ← StrictNumeric_to Src Src value; mkClamped <$> saturated_cast T Src v.
Definition Clamped_Cast (T Dst : int_type) (c : ClampedNumeric) := Clamped_convert Dst T c.
Definition MakeClampedNum (T : int_type) (value : Z) := Clamped_of T T value.

Definition Clamped_negate (T : int_type) (c : ClampedNumeric) : option ClampedNumeric :=
  n ← SaturatedNegWrapper T (clamped_value_ c); Clamped_of T T n.
Definition Clamped_invert (T : int_type) (c : ClampedNumeric) : option ClampedNumeric :=
  i ← Clamped_of (make_unsigned T) (make_unsigned T) (InvertWrapper T (clamped_value_ c));
  Clamped_convert T (make_unsigned T) i.
Definition Clamped_Abs (T : int_type) (c : ClampedNumeric) : option ClampedNumeric :=
  a ← SaturatedAbsWrapper T (clamped_value_ c); Clamped_of T T a.
Definition Clamped_UnsignedAbs (T : int_type) (c : ClampedNumeric) : option ClampedNumeric :=
  a ← SafeUnsignedAbs T (clamped_value_ c);
  Clamped_of (UnsignedOrFloatForSize T) (make_unsigned T) a.
(** The conversion operator and the raw accessor. *)
Definition Clamped_to (Dst T : int_type) (c : ClampedNumeric) : option Z :=
  saturated_cast Dst T (clamped_value_ c).
Definition RawValue (c : ClampedNumeric) : Z := clamped_value_ c.

Record ClampMath := mkClampMath {
  cm_result_type : int_type -> int_type -> int_type;
  cm_Do : forall (T U V : int_type) (x y : Z), option Z
}.
Definition ClampMathAdd := mkClampMath ClampedAddOp.result_type ClampedAddOp.Do.
Definition ClampMathSub := mkClampMath ClampedSubOp.result_type ClampedSubOp.Do.
Definition ClampMathMul := mkClampMath ClampedMulOp.result_type ClampedMulOp.Do.
Definition ClampMathDiv := mkClampMath ClampedDivOp.result_type ClampedDivOp.Do.
Definition ClampMathMod := mkClampMath ClampedModOp.result_type ClampedModOp.Do.
Definition ClampMathLsh := mkClampMath ClampedLshOp.result_type ClampedLshOp.Do.
Definition ClampMathRsh := mkClampMath ClampedRshOp.result_type ClampedRshOp.Do.
Definition ClampMathAnd := mkClampMath ClampedAndOp.result_type ClampedAndOp.Do.
Definition ClampMathOr := mkClampMath ClampedOrOp.result_type ClampedOrOp.Do.
Definition ClampMathXor := mkClampMath ClampedXorOp.result_type ClampedXorOp.Do.
Definition ClampMathMax := mkClampMath ClampedMaxOp.result_type ClampedMaxOp.Do.
Definition ClampMathMin := mkClampMath ClampedMinOp.result_type ClampedMinOp.Do.

(** An operand: its type and value. *)
Definition clamp_operand : Type := int_type * Z.

Definition Clamped_MathOp (M : ClampMath) (T : int_type) (lhs rhs : clamp_operand)
  : option ClampedNumeric :=
  r ← cm_Do M lhs.1 rhs.1 T lhs.2 rhs.2; Clamped_of T T r.
Definition Clamped_MathOp_assign (M : ClampMath) (T : int_type) (c : ClampedNumeric)
    (rhs : clamp_operand) : option ClampedNumeric :=
  r ← cm_Do M T rhs.1 T (clamped_value_ c) rhs.2; Clamped_of T T r.

Definition Clamped_Max (T : int_type) (c : ClampedNumeric) (rhs : clamp_operand)
  : option ClampedNumeric :=
  let R := ClampedMaxOp.result_type T rhs.1 in
  r ← ClampedMaxOp.Do T rhs.1 R (clamped_value_ c) rhs.2; Clamped_of R R r.
Definition Clamped_Min (T : int_type) (c : ClampedNumeric) (rhs : clamp_operand)
  : option ClampedNumeric :=
  let R := ClampedMinOp.result_type T rhs.1 in
  r ← ClampedMinOp.Do T rhs.1 R (clamped_value_ c) rhs.2; Clamped_of R R r.

Definition Clamped_increment (T : int_type) (c : ClampedNumeric) :=
  Clamped_MathOp_assign ClampMathAdd T c (Int32, 1).
Definition Clamped_decrement (T : int_type) (c : ClampedNumeric) :=
  Clamped_MathOp_assign ClampMathSub T c (Int32, 1).
Definition Clamped_post_increment (T : int_type) (c : ClampedNumeric) :=
  c' ← Clamped_increment T c; Some (c, c').
Definition Clamped_post_decrement (T : int_type) (c : ClampedNumeric) :=
  c' ← Clamped_decrement T c; Some (c, c').

(** [ClampMathOp<M>(lhs, rhs, args...)]: a left fold. *)
Fixpoint ClampMathOp (M : ClampMath) (lhs rhs : clamp_operand) (args : list clamp_operand)
  : option (int_type * ClampedNumeric) :=
  let T := cm_result_type M lhs.1 rhs.1 in
  c ← Clamped_MathOp M T lhs rhs;
  match args with
  | [] => Some (T, c)
  | arg :: args' => ClampMathOp M (T, clamped_value_ c) arg args'
  end.

(** ** Saturation limits *)

Lemma CommonMaxOrMin_self V b :
  CommonMaxOrMin V V b = Some (if (b : bool) then lowest V else max V).
Proof. destruct b; cbn; [rewrite CommonMin_spec|rewrite CommonMax_spec]; f_equal; lia. Qed.

Lemma IsValueNegative_spec T v : InRange T v -> IsValueNegative T v = (v <? 0).
Proof.
  intros Hv. unfold IsValueNegative. destruct (is_signed T) eqn:Hs; [done|].
  symmetry. apply Z.ltb_ge. tlia T.
Qed.

Lemma saturation_determined_result U V : saturation_determined U V V = true.
Proof. unfold saturation_determined. by rewrite bool_decide_true. Qed.

(** The result type of two operands of one signedness contains both. *)
Lemma MaxExponentPromotion_same_sign T U :
  is_signed T = is_signed U ->
  mixes_uint64 T U = false /\
  IsTypeInRangeForNumericType (MaxExponentPromotion T U) T = true /\
  IsTypeInRangeForNumericType (MaxExponentPromotion T U) U = true.
Proof. destruct T, U; intros; try discriminate; split_and!; reflexivity. Qed.

(** A checked result: in range it is the value, otherwise the fallback. *)
Lemma checked_value (o : option (bool * Z)) V z :
  (exists r, o = Some (in_range V z, r)) ->
  (exists b r, o = Some (b, r) /\ InRange V r /\ (b = true -> r = z)) ->
  exists r, o = Some (in_range V z, r) /\ (InRange V z -> r = z).
Proof.
  intros [r Hr] (b & r' & Hr' & _ & Hb). exists r. split; [done|].
  rewrite Hr in Hr'. injection Hr' as <- <-. intros H. by apply Hb, in_range_spec.
Qed.

Lemma Add_value T U x y :
  InRange T x -> InRange U y -> mixes_uint64 T U = false ->
  let V := MaxExponentPromotion T U in
  exists r, CheckedAddOp.Do T U V x y 0 = Some (in_range V (x + y), r) /\ (InRange V (x + y) -> r = x + y).
Proof.
  intros Hx Hy Hm V. apply checked_value.
  - by apply (Add_complete T U x y).
  - exact (CheckedAdd_ok T U V x y Hx Hy (or_intror eq_refl)).
Qed.

Lemma Sub_value T U x y :
  InRange T x -> InRange U y -> mixes_uint64 T U = false ->
  let V := MaxExponentPromotion T U in
  exists r, CheckedSubOp.Do T U V x y 0 = Some (in_range V (x - y), r) /\ (InRange V (x - y) -> r = x - y).
Proof.
  intros Hx Hy Hm V. apply checked_value.
  - by apply (Sub_complete T U x y).
  - exact (CheckedSub_ok T U V x y Hx Hy (or_intror eq_refl)).
Qed.

Lemma Mul_value T U x y :
  InRange T x -> InRange U y -> mixes_uint64 T U = false ->
  let V := MaxExponentPromotion T U in
  exists r, CheckedMulOp.Do T U V x y 0 = Some (in_range V (x * y), r) /\ (InRange V (x * y) -> r = x * y).
Proof.
  intros Hx Hy Hm V. apply checked_value.
  - by apply (Mul_complete T U x y).
  - exact (CheckedMul_ok T U V x y Hx Hy (or_intror eq_refl)).
Qed.

(** Clamping from the side the value leaves the range on. *)
Lemma clamp_side V z (low : bool) :
  (z < lowest V -> low = true) -> (max V < z -> low = false) ->
  (if in_range V z then z else if low then lowest V else max V) = clamp V z.
Proof.
  intros Hl Hh. unfold clamp, in_range. pose proof (lowest_le_0 V). pose proof (max_pos V).
  destruct (Z.leb_spec (lowest V) z), (Z.leb_spec z (max V)); cbn; try lia;
    [rewrite Hh by lia|rewrite Hl by lia]; lia.
Qed.

Lemma select_value V z r (s : Z) :
  (InRange V z -> r = z) -> (if in_range V z then r else s) = (if in_range V z then z else s).
Proof. intros H. destruct (in_range V z) eqn:E; [|done]. by apply H, in_range_spec. Qed.

Lemma clamp_fits V z : InRange V z \/ z < lowest V \/ max V < z.
Proof. unfold InRange. lia. Qed.

Lemma clamped_sub_value T U x y :
  InRange T x -> InRange U y -> mixes_uint64 T U = false ->
  ClampedSubOp.Do T U (MaxExponentPromotion T U) x y =
    Some (clamp (MaxExponentPromotion T U) (x - y)).
Proof.
  intros Hx Hy Hm. unfold ClampedSubOp.Do, ClampedSubFastOp.is_supported, ClampedSubOp.result_type.
  rewrite saturation_determined_result, CommonMaxOrMin_self.
  cbn [mbind option_bind guard_b].
  destruct (Sub_value T U x y Hx Hy Hm) as (r & -> & Hr).
  cbn [mbind option_bind]. f_equal.
  rewrite (select_value _ _ _ _ Hr). apply clamp_side; rewrite IsValueNegative_spec by done;
    destruct (Z.ltb_spec y 0); cbn; try done; intros; exfalso;
    destruct T, U; try discriminate Hm;
    match goal with H : context [MaxExponentPromotion ?a ?b] |- _ =>
      let v := eval vm_compute in (MaxExponentPromotion a b) in
      change (MaxExponentPromotion a b) with v in * end; limits; lia.
Qed.

Lemma clamped_mul_value T U x y :
  InRange T x -> InRange U y -> mixes_uint64 T U = false ->
  ClampedMulOp.Do T U (MaxExponentPromotion T U) x y =
    Some (clamp (MaxExponentPromotion T U) (x * y)).
Proof.
  intros Hx Hy Hm. unfold ClampedMulOp.Do, ClampedMulFastOp.is_supported.
  rewrite CommonMaxOrMin_self.
  cbn [mbind option_bind guard_b].
  destruct (Mul_value T U x y Hx Hy Hm) as (r & -> & Hr).
  cbn [mbind option_bind]. f_equal.
  rewrite (select_value _ _ _ _ Hr).
  pose proof (lowest_le_0 (MaxExponentPromotion T U)). pose proof (max_pos (MaxExponentPromotion T U)).
  apply clamp_side; rewrite !IsValueNegative_spec by done;
    destruct (Z.ltb_spec x 0), (Z.ltb_spec y 0); cbn; try done; intros; exfalso; nia.
Qed.

(** Addition saturates by the sign of the right operand. *)
Lemma clamped_add_value T U x y :
  InRange T x -> InRange U y -> mixes_uint64 T U = false ->
  ClampedAddOp.Do T U (MaxExponentPromotion T U) x y =
    Some (if (x + y <? lowest (MaxExponentPromotion T U)) && (0 <=? y)
          then max (MaxExponentPromotion T U)
          else clamp (MaxExponentPromotion T U) (x + y)).
Proof.
  intros Hx Hy Hm. unfold ClampedAddOp.Do, ClampedAddFastOp.is_supported, ClampedAddOp.result_type.
  rewrite saturation_determined_result, CommonMaxOrMin_self.
  cbn [mbind option_bind guard_b].
  destruct (Add_value T U x y Hx Hy Hm) as (r & -> & Hr).
  cbn [mbind option_bind]. f_equal.
  rewrite (select_value _ _ _ _ Hr). rewrite IsValueNegative_spec by done.
  destruct (Z.ltb_spec (x + y) (lowest (MaxExponentPromotion T U))), (Z.leb_spec 0 y); cbn.
  - unfold in_range. replace (lowest _ <=? x + y) with false by lia. cbn.
    by replace (y <? 0) with false by lia.
  - apply clamp_side; [lia|]. pose proof (lowest_le_0 (MaxExponentPromotion T U)).
    pose proof (max_pos (MaxExponentPromotion T U)). lia.
  - apply clamp_side; lia.
  - apply clamp_side; [lia|]. intros Hov. exfalso.
    destruct T, U; try discriminate Hm;
    match goal with H : context [MaxExponentPromotion ?a ?b] |- _ =>
      let v := eval vm_compute in (MaxExponentPromotion a b) in
      change (MaxExponentPromotion a b) with v in * end; limits; lia.
Qed.

Lemma clamped_div_value T U x y :
  InRange T x -> InRange U y -> mixes_uint64 T U = false -> y <> 0 ->
  let V := MaxExponentPromotion T U in
  ClampedDivOp.Do T U V x y = Some (clamp V (Z.quot x y)).
Proof.
  intros Hx Hy Hm Hy0 V. unfold ClampedDivOp.Do.
  destruct (Div_complete T U x y Hx Hy Hm) as (r & Hd & Hr).
  fold V in Hd, Hr. rewrite Hd.
  cbn [mbind option_bind]. replace (y =? 0) with false by lia. cbn [negb andb].
  destruct (clamp_fits V (Z.quot x y)) as [Hin|Hout].
  - rewrite (proj2 (in_range_spec V _) Hin), Hr, clamp_id by done. done.
  - assert (in_range V (Z.quot x y) = false) as ->
      by (apply in_range_false; unfold InRange; lia).
    pose proof (lowest_le_0 V). pose proof (max_pos V).
    assert (x <> 0) by (intros ->; rewrite Z.quot_0_l in Hout by done; lia).
    replace (x =? 0) with false by lia. cbn [negb].
    rewrite CommonMaxOrMin_self, !IsValueNegative_spec by done. f_equal.
    pose proof (quot_sign x y Hy0) as Hsg.
    unfold clamp.
    destruct (x <? 0), (y <? 0); cbn in Hsg |- *; lia.
Qed.

Lemma NegSaturates T v : InRange T v -> SaturatedNegWrapper T v = Some (clamp T (- v)).
Proof.
  intros Hv. unfold SaturatedNegWrapper. destruct (is_signed T) eqn:Hs; cbn.
  - rewrite NegateWrapper_spec by done. cbn. f_equal. unfold clamp.
    destruct (static_cast_cong T (- v)) as [k Hk]. pose proof (static_cast_range T (- v)).
    destruct (Z.eqb_spec (static_cast T (- v)) (lowest T)); cbn; tlia T.
  - rewrite (static_cast_id T 0) by apply InRange_0. f_equal. unfold clamp. tlia T.
Qed.

Lemma AbsSaturates T v : InRange T v -> SaturatedAbsWrapper T v = Some (clamp T (Z.abs v)).
Proof.
  intros Hv. unfold SaturatedAbsWrapper. rewrite SafeUnsignedAbs_spec by done. cbn.
  destruct (static_cast_cong T (Z.abs v)) as [k Hk].
  pose proof (static_cast_range T (Z.abs v)) as Hr.
  rewrite IsValueNegative_spec by done. unfold c_sub.
  set (n := b2z (static_cast T (Z.abs v) <? 0)).
  assert (0 <= n <= 1) by (subst n; destruct (_ <? _); cbn; lia).
  assert (0 <= Z.abs v - n) by (subst n; destruct (Z.ltb_spec (static_cast T (Z.abs v)) 0);
      cbn; tlia T).
  rewrite (c_binop_value _ _ _ _ _ (Z.abs v - n)); [cbn; f_equal|..].
  - rewrite static_cast_id; unfold clamp; subst n;
      destruct (Z.ltb_spec (static_cast T (Z.abs v)) 0); cbn; tlia T.
  - rewrite !static_cast_id by (tlia T). done.
  - tlia T.
Qed.

Lemma Clamped_of_self T v : InRange T v -> Clamped_of T T v = Some (mkClamped v).
Proof.
  intros Hv. unfold Clamped_of. rewrite saturated_cast_clamp by done. by rewrite clamp_id.
Qed.

(** The value of a saturating operation on operands of the left type. *)
Lemma ClampMathOp_pair M T U x y z :
  cm_Do M T U (cm_result_type M T U) x y = Some (clamp (cm_result_type M T U) z) ->
  ClampMathOp M (T, x) (U, y) [] =
    Some (cm_result_type M T U, mkClamped (clamp (cm_result_type M T U) z)).
Proof.
  intros H. cbn [ClampMathOp fst snd]. unfold Clamped_MathOp. cbn [fst snd].
  rewrite H. cbn [mbind option_bind].
  by rewrite Clamped_of_self by apply clamp_in_range.
Qed.

(** ** Main results *)

(** On operands of the same signedness, saturating addition, subtraction,
    multiplication and division return the mathematical result clamped to the
    result type. *)
Theorem clamped_arith_saturates T U x y :
  InRange T x -> InRange U y -> is_signed T = is_signed U ->
  let V := MaxExponentPromotion T U in
  ClampMathOp ClampMathAdd (T, x) (U, y) [] = Some (V, mkClamped (clamp V (x + y))) /\
  ClampMathOp ClampMathSub (T, x) (U, y) [] = Some (V, mkClamped (clamp V (x - y))) /\
  ClampMathOp ClampMathMul (T, x) (U, y) [] = Some (V, mkClamped (clamp V (x * y))) /\
  (y <> 0 ->
   ClampMathOp ClampMathDiv (T, x) (U, y) [] = Some (V, mkClamped (clamp V (Z.quot x y)))).
Proof.
  intros Hx Hy Hs V. destruct (MaxExponentPromotion_same_sign T U Hs) as (Hm & HT & HU).
  split_and!; [..|intros Hy0]; apply ClampMathOp_pair; cbn [cm_Do cm_result_type
    ClampMathAdd ClampMathSub ClampMathMul ClampMathDiv];
    unfold ClampedAddOp.result_type, ClampedSubOp.result_type, ClampedMulOp.result_type,
      ClampedDivOp.result_type.
  - rewrite clamped_add_value by done.
    replace (_ && _) with false; [done|]. symmetry. apply andb_false_iff. fold V in HT |- *.
    pose proof (IsTypeInRange_sound _ _ _ HT Hx) as HxV. unfold InRange in HxV. lia.
  - by apply clamped_sub_value.
  - by apply clamped_mul_value.
  - by apply clamped_div_value.
Qed.

Lemma clamped_arith_saturates_witness :
  InRange Int8 100 /\ InRange Int8 100 /\
  ClampMathOp ClampMathAdd (Int8, 100) (Int8, 100) [] = Some (Int8, mkClamped 127).
Proof.
  assert (InRange Int8 100) as H by (limits; lia).
  split; [exact H|split; [exact H|]].
  exact (proj1 (clamped_arith_saturates Int8 Int8 100 100 H H eq_refl)).
Defined.

(** A signed left operand added to an unsigned right operand of at least its
    width saturates to the wrong end: a negative sum becomes the maximum of the
    (unsigned) result type, where subtraction and the swapped addition give 0. *)
Theorem clamped_add_mixed_saturates_up T U x y :
  is_signed T = true -> is_signed U = false -> width T <= width U -> U <> Uint64 ->
  InRange T x -> InRange U y -> x + y < 0 ->
  ClampMathOp ClampMathAdd (T, x) (U, y) [] = Some (U, mkClamped (max U)) /\
  ClampMathOp ClampMathAdd (U, y) (T, x) [] = Some (U, mkClamped 0).
Proof.
  intros HsT HsU Hw HU64 Hx Hy Hneg.
  assert (MaxExponentPromotion T U = U /\ MaxExponentPromotion U T = U) as [HV HV']
    by (destruct T, U; try discriminate; try (split; reflexivity); cbn in Hw; lia).
  assert (mixes_uint64 T U = false /\ mixes_uint64 U T = false) as [Hm Hm']
    by (destruct T, U; try discriminate; try (split; reflexivity); congruence).
  assert (lowest U = 0) as Hlo by (by destruct U).
  assert (0 <= y) by (unfold InRange in Hy; lia).
  unfold ClampMathOp, Clamped_MathOp. cbn [fst snd cm_Do cm_result_type ClampMathAdd].
  unfold ClampedAddOp.result_type.
  pose proof (clamped_add_value T U x y Hx Hy Hm) as H1.
  pose proof (clamped_add_value U T y x Hy Hx Hm') as H2.
  rewrite HV in *. rewrite HV' in *. rewrite H1, H2, Hlo.
  replace (x + y <? 0) with true by lia. replace (0 <=? y) with true by lia.
  replace (0 <=? x) with false by lia. rewrite andb_false_r.
  cbn [andb mbind option_bind]. rewrite !Clamped_of_self by auto with weirtc.
  cbn [mbind option_bind].
  split; [done|]. do 3 f_equal. unfold clamp. pose proof (max_pos U). lia.
Qed.

Lemma clamped_add_mixed_saturates_up_witness :
  InRange Int32 (-5) /\ InRange Uint32 3 /\
  ClampMathOp ClampMathAdd (Int32, -5) (Uint32, 3) [] = Some (Uint32, mkClamped 4294967295).
Proof.
  assert (InRange Int32 (-5)) as H1 by (limits; lia).
  assert (InRange Uint32 3) as H2 by (limits; lia).
  split; [exact H1|split; [exact H2|]].
  assert (Uint32 <> Uint64) as H3 by discriminate.
  exact (proj1 (clamped_add_mixed_saturates_up Int32 Uint32 (-5) 3 eq_refl eq_refl
    ltac:(cbn; lia) H3 H1 H2 ltac:(lia))).
Defined.

(** Saturating negation and absolute value clamp the mathematical result,
    and a saturating complement of a nonnegative signed value is the maximum
    instead of the bitwise complement [-v - 1]. *)
Theorem clamped_unary T v :
  InRange T v ->
  Clamped_negate T (mkClamped v) = Some (mkClamped (clamp T (- v))) /\
  Clamped_Abs T (mkClamped v) = Some (mkClamped (clamp T (Z.abs v))) /\
  (is_signed T = true -> 0 <= v -> Clamped_invert T (mkClamped v) = Some (mkClamped (max T))).
Proof.
  intros Hv. split_and!.
  - unfold Clamped_negate. cbn. rewrite NegSaturates by done. cbn.
    apply Clamped_of_self, clamp_in_range.
  - unfold Clamped_Abs. cbn. rewrite AbsSaturates by done. cbn.
    apply Clamped_of_self, clamp_in_range.
  - intros Hs H0. unfold Clamped_invert, InvertWrapper, c_not. cbn [clamped_value_].
    rewrite static_cast_trans by (by destruct T).
    rewrite Clamped_of_self by apply static_cast_range. cbn [mbind option_bind].
    unfold Clamped_convert. cbn [clamped_value_].
    rewrite saturated_cast_clamp by apply static_cast_range. cbn. do 2 f_equal.
    replace (static_cast (make_unsigned T) (Z.lnot v)) with (2 ^ width T - 1 - v).
    2: { symmetry. apply (static_cast_unique _ _ _ 1); unfold Z.lnot; tlia T. }
    unfold clamp. tlia T.
Qed.

Lemma clamped_unary_witness :
  InRange Int32 5 /\ Clamped_invert Int32 (mkClamped 5) = Some (mkClamped 2147483647).
Proof.
  assert (InRange Int32 5) as H by (limits; lia).
  split; [exact H|].
  exact (proj2 (proj2 (clamped_unary Int32 5 H)) eq_refl ltac:(lia)).
Defined.
