(* ===== verification/RtcNumerics.v ===== *)
(** * RtcNumerics: rtc_base/numerics of libwebrtc

    - Module [RtcSafeConversions]: rtc_base/numerics/safe_conversions_impl.h and
      safe_conversions.h (range checks, [checked_cast], [dchecked_cast],
      [saturated_cast]);
    - Module [SafeCompare]: rtc_base/numerics/safe_compare.h ([SafeEq] ... [SafeGe]);
    - Module [SafeMinMax]: rtc_base/numerics/safe_minmax.h ([SafeMin], [SafeMax],
      [SafeClamp] and the computation of their result types).

    The templates are modelled for the integer types; floating-point
    instantiations are not modelled. *)

From S2P Require Import Prelude IntTypes.

(** [sizeof(T)]. *)
Definition sizeof (t : int_type) : Z := width t / 8.

Module RtcSafeConversions.

Inductive DstRange := OVERLAPS_RANGE | CONTAINS_RANGE.
Inductive RangeCheckResult := TYPE_VALID | TYPE_UNDERFLOW | TYPE_OVERFLOW | TYPE_INVALID.

Definition StaticRangeCheck (Dst Src : int_type) : DstRange :=
  match is_signed Dst, is_signed Src with
  | true, true =>
      if sizeof Src * 8 - 1 <=? sizeof Dst * 8 - 1 then CONTAINS_RANGE else OVERLAPS_RANGE
  | false, false => if sizeof Src <=? sizeof Dst then CONTAINS_RANGE else OVERLAPS_RANGE
  | true, false => if sizeof Src * 8 <=? sizeof Dst * 8 - 1 then CONTAINS_RANGE else OVERLAPS_RANGE
  | false, true => OVERLAPS_RANGE
  end.

(** [RangeCheckResult((upper ? 0 : TYPE_OVERFLOW) | (lower ? 0 : TYPE_UNDERFLOW))]. *)
Definition BASE_NUMERIC_RANGE_CHECK_RESULT (is_in_upper_bound is_in_lower_bound : bool)
  : RangeCheckResult :=
  match Z.lor (if is_in_upper_bound then 0 else 2) (if is_in_lower_bound then 0 else 1) with
  | 0 => TYPE_VALID | 1 => TYPE_UNDERFLOW | 2 => TYPE_OVERFLOW | _ => TYPE_INVALID
  end.

Definition RangeCheckImpl (Dst Src : int_type) (value : Z) : RangeCheckResult :=
  match is_signed Dst, is_signed Src, StaticRangeCheck Dst Src with
  | _, _, CONTAINS_RANGE => TYPE_VALID
  | true, true, OVERLAPS_RANGE =>
      BASE_NUMERIC_RANGE_CHECK_RESULT
        (c_le Src Src value (static_cast Src (max Dst)))
        (c_ge Src Src value (static_cast Src (lowest Dst)))
  | false, false, OVERLAPS_RANGE =>
      BASE_NUMERIC_RANGE_CHECK_RESULT (c_le Src Src value (static_cast Src (max Dst))) true
  | true, false, OVERLAPS_RANGE =>
      if sizeof Src <? sizeof Dst then TYPE_VALID
      else BASE_NUMERIC_RANGE_CHECK_RESULT (c_le Src Src value (static_cast Src (max Dst))) true
  | false, true, OVERLAPS_RANGE =>
      if sizeof Src * 8 - 1 <=? sizeof Dst * 8
      then BASE_NUMERIC_RANGE_CHECK_RESULT true (c_ge Src Src value (static_cast Src 0))
      else BASE_NUMERIC_RANGE_CHECK_RESULT
             (c_le Src Src value (static_cast Src (max Dst)))
             (c_ge Src Src value (static_cast Src 0))
  end.

Definition RangeCheck (Dst Src : int_type) (value : Z) : RangeCheckResult :=
  RangeCheckImpl Dst Src value.

Definition IsValueInRangeForNumericType (Dst Src : int_type) (value : Z) : bool :=
  match RangeCheck Dst Src value with TYPE_VALID => true | _ => false end.

Definition checked_cast (Dst Src : int_type) (value : Z) : exec Z :=
  RTC_CHECK (IsValueInRangeForNumericType Dst Src value) (Done (static_cast Dst value)).

Definition dchecked_cast {build : Build} (Dst Src : int_type) (value : Z) : exec Z :=
  RTC_DCHECK (IsValueInRangeForNumericType Dst Src value) (Done (static_cast Dst value)).

Definition saturated_cast (Dst Src : int_type) (value : Z) : exec Z :=
  match RangeCheck Dst Src value with
  | TYPE_VALID => Done (static_cast Dst value)
  | TYPE_UNDERFLOW => Done (lowest Dst)
  | TYPE_OVERFLOW => Done (max Dst)
  | TYPE_INVALID => Fatal
  end.

End RtcSafeConversions.

Module SafeCompare.

Inductive CmpOp := EqOp | NeOp | LtOp | LeOp | GtOp | GeOp.

(** [Op::Op(a, b)]: the built-in operator, in the common type. *)
Definition Op (op : CmpOp) (T1 T2 : int_type) (a b : Z) : bool :=
  match op with
  | EqOp => c_eq T1 T2 a b | NeOp => negb (c_eq T1 T2 a b)
  | LtOp => c_lt T1 T2 a b | LeOp => c_le T1 T2 a b
  | GtOp => c_gt T1 T2 a b | GeOp => c_ge T1 T2 a b
  end.

Definition LargerIntImpl (N : Z) : option int_type :=
  match N with 1 => Some Int16 | 2 => Some Int32 | 4 => Some Int64 | _ => None end.

Section Cmp.
Context {build : Build}.

Definition LargerInt (T1 T2 : int_type) : option int_type :=
  LargerIntImpl
    (if (sizeof T1 <? sizeof T2) || (sizeof T1 <? sizeof_int_ptr) then sizeof T1 else 0).

Definition MakeUnsigned (T : int_type) (a : Z) : Z := static_cast (make_unsigned T) a.

Definition Cmp (op : CmpOp) (T1 T2 : int_type) (a b : Z) : bool :=
  if Bool.eqb (is_signed T1) (is_signed T2) then Op op T1 T2 a b
  else if is_signed T1 then
    match LargerInt T2 T1 with
    | Some L => Op op T1 L a (static_cast L b)
    | None => if c_lt T1 Int32 a 0 then Op op Int32 Int32 (-1) 0
              else Op op (make_unsigned T1) T2 (MakeUnsigned T1 a) b
    end
  else
    match LargerInt T1 T2 with
    | Some L => Op op L T2 (static_cast L a) b
    | None => if c_lt T2 Int32 b 0 then Op op Int32 Int32 0 (-1)
              else Op op T1 (make_unsigned T2) a (MakeUnsigned T2 b)
    end.

(** [Safe##name(a, b)]: unary plus promotes both operands first. *)
Definition Safe (op : CmpOp) (T1 T2 : int_type) (a b : Z) : bool :=
  Cmp op (promote T1) (promote T2) a b.

Definition SafeEq := Safe EqOp.
Definition SafeNe := Safe NeOp.
Definition SafeLt := Safe LtOp.
Definition SafeLe := Safe LeOp.
Definition SafeGt := Safe GtOp.
Definition SafeGe := Safe GeOp.

End Cmp.

(** The comparison of the mathematical values. *)
Definition holds (op : CmpOp) (a b : Z) : bool :=
  match op with
  | EqOp => a =? b | NeOp => negb (a =? b)
  | LtOp => a <? b | LeOp => a <=? b
  | GtOp => b <? a | GeOp => b <=? a
  end.

End SafeCompare.

Module SafeMinMax.
Import SafeCompare.

Section MinMax.
Context {build : Build}.

(** [MType<T1, T2>::min_t] and [max_t]; the static assertion on [max_t] makes the
    type ill-formed when it fails. *)
Definition min_t (T1 T2 : int_type) : int_type :=
  if SafeLt T1 T2 (lowest T1) (lowest T2) then T1
  else if SafeGt T1 T2 (lowest T1) (lowest T2) then T2
  else if SafeLe T1 T2 (max T1) (max T2) then T1 else T2.

Definition max_t (T1 T2 : int_type) : option int_type :=
  guard_b (SafeNe T1 T2 (max T1) (max T2) || SafeEq T1 T2 (lowest T1) (lowest T2))
    (Some (if SafeGe T1 T2 (max T1) (max T2) then T1 else T2)).

(** [TypeOr<A, B>]: [None] stands for [DefaultType]. *)
Definition TypeOr (A : option int_type) (B : int_type) : option int_type :=
  let type := match A with None => B | Some A => A end in
  guard_b (SafeLe type B (lowest type) (lowest B) && SafeGe type B (max type) (max B))
    (Some type).

(** [SafeMin<R>(a, b)] and [SafeMax<R>(a, b)]: the type and value of the call. *)
Definition SafeMin (R : option int_type) (T1 T2 : int_type) (a b : Z)
  : option (int_type * Z) :=
  R2 ← TypeOr R (min_t T1 T2);
  Some (R2, if SafeLt T1 T2 a b then static_cast R2 a else static_cast R2 b).

Definition SafeMax (R : option int_type) (T1 T2 : int_type) (a b : Z)
  : option (int_type * Z) :=
  m ← max_t T1 T2; R2 ← TypeOr R m;
  Some (R2, if SafeGt T1 T2 a b then static_cast R2 a else static_cast R2 b).

Definition r_min (T L H : int_type) : option (int_type * Z) :=
  m ← SafeMin None H T (lowest H) (lowest T); SafeMax None L m.1 (lowest L) m.2.
Definition r_max (T L H : int_type) : option (int_type * Z) :=
  m ← SafeMax None L T (max L) (max T); SafeMin None H m.1 (max H) m.2.

Definition AcceptableType (T L H A : int_type) : option bool :=
  lo ← r_min T L H; hi ← r_max T L H;
  let not_too_large := (sizeof A <=? sizeof L) || (sizeof A <=? sizeof H) || (sizeof A <=? sizeof T) in
  let range_contained := SafeLe A lo.1 (lowest A) lo.2 && SafeLe hi.1 A hi.2 (max A) in
  Some (not_too_large && range_contained).

Definition best_signed_type (T L H : int_type) : option int_type :=
  a8 ← AcceptableType T L H Int8; a16 ← AcceptableType T L H Int16;
  a32 ← AcceptableType T L H Int32;
  Some (if (a8 : bool) then Int8 else if (a16 : bool) then Int16
        else if (a32 : bool) then Int32 else Int64).

Definition best_unsigned_type (T L H : int_type) : option int_type :=
  a8 ← AcceptableType T L H Uint8; a16 ← AcceptableType T L H Uint16;
  a32 ← AcceptableType T L H Uint32;
  Some (if (a8 : bool) then Uint8 else if (a16 : bool) then Uint16
        else if (a32 : bool) then Uint32 else Uint64).

Definition ClampType (T L H : int_type) : option int_type :=
  s ← best_signed_type T L H; u ← best_unsigned_type T L H;
  sa ← AcceptableType T L H s; ua ← AcceptableType T L H u;
  let type := if is_signed T then (if (sa : bool) then s else u)
              else (if (ua : bool) then u else s) in
  ok ← AcceptableType T L H type; guard_b ok (Some type).

(** [SafeClamp<R>(x, min, max)]. *)
Definition SafeClamp (R : option int_type) (T L H : int_type) (x lo hi : Z)
  : option (int_type * exec Z) :=
  C ← ClampType T L H; R2 ← TypeOr R C;
  Some (R2, RTC_DCHECK (SafeLe L H lo hi)
              (Done (if SafeLe T L x lo then static_cast R2 lo
                     else if SafeGe T H x hi then static_cast R2 hi else static_cast R2 x))).

End MinMax.
End SafeMinMax.

(** ** Range checks *)

Import RtcSafeConversions.

Lemma BASE_NUMERIC_RANGE_CHECK_RESULT_spec u l :
  BASE_NUMERIC_RANGE_CHECK_RESULT u l =
    if u then (if l then TYPE_VALID else TYPE_UNDERFLOW)
    else if l then TYPE_OVERFLOW else TYPE_INVALID.
Proof. by destruct u, l. Qed.

(** The classification of a value against a destination type. *)
Definition range_class (Dst : int_type) (v : Z) : RangeCheckResult :=
  if v <? lowest Dst then TYPE_UNDERFLOW else if max Dst <? v then TYPE_OVERFLOW else TYPE_VALID.

Lemma RangeCheck_spec Dst Src v : InRange Src v -> RangeCheck Dst Src v = range_class Dst v.
Proof.
  intros Hv. unfold RangeCheck, RangeCheckImpl, range_class, c_le, c_ge.
  rewrite !c_cmp_same by auto with weirtc.
  rewrite !BASE_NUMERIC_RANGE_CHECK_RESULT_spec.
  destruct Dst, Src;
    repeat match goal with
    | |- context [static_cast ?T ?c] =>
        let x := eval vm_compute in (static_cast T c) in change (static_cast T c) with x
    | |- context [StaticRangeCheck ?T ?U] =>
        let x := eval vm_compute in (StaticRangeCheck T U) in change (StaticRangeCheck T U) with x
    | |- context [sizeof ?T] =>
        let x := eval vm_compute in (sizeof T) in change (sizeof T) with x
    end; cbv [is_signed]; rewrite ?Z.geb_leb; limits; bool_lia.
Qed.

Lemma IsValueInRangeForNumericType_spec Dst Src v :
  InRange Src v -> IsValueInRangeForNumericType Dst Src v = in_range Dst v.
Proof.
  intros Hv. unfold IsValueInRangeForNumericType. rewrite RangeCheck_spec by done.
  unfold range_class, in_range. pose proof (lowest_le_0 Dst). pose proof (max_pos Dst). bool_lia.
Qed.

Lemma dchecked_cast_fits {build : Build} Dst Src v :
  InRange Src v -> InRange Dst v -> dchecked_cast Dst Src v = Done v.
Proof.
  intros Hs Hd. unfold dchecked_cast. rewrite RTC_DCHECK_true.
  - by rewrite static_cast_id.
  - rewrite IsValueInRangeForNumericType_spec by done. by apply in_range_spec.
Qed.

(** ** Comparisons *)

Import SafeCompare.

Lemma Op_holds op T1 T2 a b :
  InRange (arith T1 T2) a -> InRange (arith T1 T2) b -> Op op T1 T2 a b = holds op a b.
Proof.
  intros Ha Hb. destruct op; cbn; unfold c_eq, c_lt, c_le, c_gt, c_ge, c_cmp;
    rewrite !static_cast_id by done; try done; [apply Z.gtb_ltb|apply Z.geb_leb].
Qed.

(** The larger type is signed and strictly wider than the type it replaces. *)
Lemma LargerInt_sound {build : Build} U S L :
  LargerInt U S = Some L -> is_signed L = true /\ width U < width L.
Proof.
  unfold LargerInt. destruct (_ || _); [|done].
  destruct U; cbn; intros [= <-] || intros; done.
Qed.

(** A signed and an unsigned operand, each at least as wide as [int], agree with
    their mathematical order both when a wider signed type exists and when the
    comparison goes through the unsigned type. *)
Lemma Op_holds_larger op S U L a b :
  is_signed S = true -> is_signed L = true -> width U < width L -> InRange S a -> InRange U b ->
  Op op S L a (static_cast L b) = holds op a b /\
  Op op L S (static_cast L b) a = holds op b a.
Proof.
  intros HS HL HW Ha Hb. rewrite static_cast_id.
  2: { destruct L, U; try discriminate; cbn in HW; limits; lia. }
  split; apply Op_holds; destruct S, L, U; try discriminate; cbn in HW; limits; lia.
Qed.

Lemma Op_holds_unsigned op S U a b :
  is_signed S = true -> is_signed U = false -> InRange S a -> InRange U b -> 0 <= a ->
  width S <= width U ->
  Op op (make_unsigned S) U (static_cast (make_unsigned S) a) b = holds op a b /\
  Op op U (make_unsigned S) b (static_cast (make_unsigned S) a) = holds op b a.
Proof.
  intros HS HU Ha Hb H0 HW. rewrite static_cast_id.
  2: { destruct S; try discriminate; limits; lia. }
  split; apply Op_holds; destruct S, U; try discriminate; cbn in HW; limits; lia.
Qed.

Lemma Op_holds_literal op a b : InRange Int32 a -> InRange Int32 b -> Op op Int32 Int32 a b = holds op a b.
Proof. intros. by apply Op_holds. Qed.

Lemma c_lt_zero S a : is_signed S = true -> InRange S a -> c_lt S Int32 a 0 = (a <? 0).
Proof.
  intros HS Ha. apply (Op_holds LtOp); destruct S; try discriminate; limits; lia.
Qed.

(** When there is no wider type the unsigned operand is the wider one. *)
Lemma LargerInt_none {build : Build} U S :
  LargerInt U S = None -> width S <= width U.
Proof.
  unfold LargerInt. destruct (sizeof U <? sizeof S) eqn:E; cbn [orb].
  - destruct U; try discriminate; destruct S; discriminate.
  - intros _. destruct U, S; cbn in *; try discriminate; lia.
Qed.

Lemma Cmp_holds {build : Build} op T1 T2 a b :
  InRange T1 a -> InRange T2 b -> Cmp op T1 T2 a b = holds op a b.
Proof.
  intros Ha Hb. unfold Cmp, MakeUnsigned.
  destruct (is_signed T1) eqn:H1, (is_signed T2) eqn:H2; cbn [Bool.eqb].
  1, 4: apply Op_holds; destruct T1, T2; try discriminate; limits; lia.
  - destruct (LargerInt T2 T1) as [L|] eqn:E.
    + destruct (LargerInt_sound _ _ _ E). by apply (Op_holds_larger op T1 T2).
    + rewrite c_lt_zero by done. apply LargerInt_none in E.
      assert (0 <= b) by (destruct T2; try discriminate; limits; lia).
      destruct (Z.ltb_spec a 0).
      * rewrite Op_holds_literal by (limits; lia). destruct op; cbn; bool_lia.
      * by apply (Op_holds_unsigned op T1 T2).
  - destruct (LargerInt T1 T2) as [L|] eqn:E.
    + destruct (LargerInt_sound _ _ _ E). by apply (Op_holds_larger op T2 T1).
    + rewrite c_lt_zero by done. apply LargerInt_none in E.
      assert (0 <= a) by (destruct T1; try discriminate; limits; lia).
      destruct (Z.ltb_spec b 0).
      * rewrite Op_holds_literal by (limits; lia). destruct op; cbn; bool_lia.
      * by apply (Op_holds_unsigned op T2 T1).
Qed.

Lemma Safe_holds {build : Build} op T1 T2 a b :
  InRange T1 a -> InRange T2 b -> Safe op T1 T2 a b = holds op a b.
Proof. intros. apply Cmp_holds; auto with weirtc. Qed.

(** ** Minimum, maximum and clamping *)

Import SafeMinMax.

(** Result types as functions of the limits alone. *)
Definition widest_min (T1 T2 : int_type) : int_type :=
  if lowest T1 <? lowest T2 then T1 else if lowest T2 <? lowest T1 then T2
  else if max T1 <=? max T2 then T1 else T2.
Definition widest_max (T1 T2 : int_type) : int_type := if max T2 <=? max T1 then T1 else T2.

Lemma min_t_spec {build : Build} T1 T2 : min_t T1 T2 = widest_min T1 T2.
Proof.
  unfold min_t, SafeLt, SafeGt, SafeLe. by rewrite !Safe_holds by auto with weirtc.
Qed.

Lemma max_t_spec {build : Build} T1 T2 : max_t T1 T2 = Some (widest_max T1 T2).
Proof.
  unfold max_t, SafeNe, SafeEq, SafeGe. rewrite !Safe_holds by auto with weirtc.
  by destruct T1, T2.
Qed.

(** The requested result type covers the default one. *)
Definition covers (A B : int_type) : bool := (lowest A <=? lowest B) && (max B <=? max A).

Lemma TypeOr_spec {build : Build} R B :
  TypeOr R B = let A := default B R in guard_b (covers A B) (Some A).
Proof.
  unfold TypeOr, SafeLe, SafeGe. rewrite !Safe_holds by auto with weirtc.
  by destruct R.
Qed.

Lemma covers_refl B : covers B B = true.
Proof. unfold covers. lia. Qed.

Lemma covers_sound A B v : covers A B = true -> InRange B v -> InRange A v.
Proof. unfold covers, InRange. lia. Qed.

Lemma widest_min_fits T1 T2 a b :
  InRange T1 a -> InRange T2 b -> InRange (widest_min T1 T2) (Z.min a b).
Proof.
  unfold widest_min, InRange.
  destruct (Z.ltb_spec (lowest T1) (lowest T2)), (Z.ltb_spec (lowest T2) (lowest T1)),
    (Z.leb_spec (max T1) (max T2)); destruct T1, T2; limits; lia.
Qed.

Lemma widest_max_fits T1 T2 a b :
  InRange T1 a -> InRange T2 b -> InRange (widest_max T1 T2) (Z.max a b).
Proof.
  unfold widest_max, InRange. destruct (Z.leb_spec (max T2) (max T1)); destruct T1, T2; limits; lia.
Qed.

Lemma SafeMin_spec {build : Build} R T1 T2 a b :
  InRange T1 a -> InRange T2 b ->
  SafeMin R T1 T2 a b =
    guard_b (covers (default (widest_min T1 T2) R) (widest_min T1 T2))
      (Some (default (widest_min T1 T2) R, Z.min a b)).
Proof.
  intros Ha Hb. unfold SafeMin, SafeLt. rewrite Safe_holds, min_t_spec, TypeOr_spec by done.
  cbn [holds]. pose proof (widest_min_fits T1 T2 a b Ha Hb) as Hm.
  destruct (covers _ _) eqn:HC; cbn [guard_b mbind option_bind]; [|done].
  do 2 f_equal. pose proof (covers_sound _ _ _ HC Hm).
  destruct (Z.ltb_spec a b); [rewrite Z.min_l in * by lia|rewrite Z.min_r in * by lia];
    by rewrite static_cast_id.
Qed.

Lemma SafeMax_spec {build : Build} R T1 T2 a b :
  InRange T1 a -> InRange T2 b ->
  SafeMax R T1 T2 a b =
    guard_b (covers (default (widest_max T1 T2) R) (widest_max T1 T2))
      (Some (default (widest_max T1 T2) R, Z.max a b)).
Proof.
  intros Ha Hb. unfold SafeMax, SafeGt. rewrite Safe_holds, max_t_spec by done.
  cbn [holds mbind option_bind]. rewrite TypeOr_spec.
  pose proof (widest_max_fits T1 T2 a b Ha Hb) as Hm.
  cbv zeta. destruct (covers _ _) eqn:HC; cbn [guard_b mbind option_bind]; [|done].
  do 2 f_equal. pose proof (covers_sound _ _ _ HC Hm).
  destruct (Z.ltb_spec b a); [rewrite Z.max_l in * by lia|rewrite Z.max_r in * by lia];
    by rewrite static_cast_id.
Qed.

(** The limits of the result of clamping a [T] between an [L] and an [H]. *)
Definition clamp_lo (T L H : int_type) : Z := Z.max (lowest L) (Z.min (lowest H) (lowest T)).
Definition clamp_hi (T L H : int_type) : Z := Z.min (max H) (Z.max (max L) (max T)).

Lemma r_min_spec {build : Build} T L H : exists A,
  r_min T L H = Some (A, clamp_lo T L H) /\ InRange A (clamp_lo T L H).
Proof.
  unfold r_min. rewrite SafeMin_spec by auto with weirtc. cbn [default]. rewrite covers_refl.
  cbn [guard_b mbind option_bind fst snd].
  pose proof (widest_min_fits H T (lowest H) (lowest T) ltac:(auto with weirtc) ltac:(auto with weirtc)).
  rewrite SafeMax_spec by auto with weirtc. cbn [default]. rewrite covers_refl.
  eexists. split; [done|]. by apply widest_max_fits; auto with weirtc.
Qed.

Lemma r_max_spec {build : Build} T L H : exists A,
  r_max T L H = Some (A, clamp_hi T L H) /\ InRange A (clamp_hi T L H).
Proof.
  unfold r_max. rewrite SafeMax_spec by auto with weirtc. cbn [default]. rewrite covers_refl.
  cbn [guard_b mbind option_bind fst snd].
  pose proof (widest_max_fits L T (max L) (max T) ltac:(auto with weirtc) ltac:(auto with weirtc)).
  rewrite SafeMin_spec by auto with weirtc. cbn [default]. rewrite covers_refl.
  eexists. split; [done|]. by apply widest_min_fits; auto with weirtc.
Qed.

(** The type [A] can represent every result and is no larger than an input type. *)
Definition acceptable (T L H A : int_type) : bool :=
  ((sizeof A <=? sizeof L) || (sizeof A <=? sizeof H) || (sizeof A <=? sizeof T)) &&
  ((lowest A <=? clamp_lo T L H) && (clamp_hi T L H <=? max A)).

Lemma AcceptableType_spec {build : Build} T L H A :
  AcceptableType T L H A = Some (acceptable T L H A).
Proof.
  unfold AcceptableType.
  destruct (r_min_spec T L H) as (lo & -> & Hlo), (r_max_spec T L H) as (hi & -> & Hhi).
  cbn [mbind option_bind fst snd]. unfold SafeLe. by rewrite !Safe_holds by auto with weirtc.
Qed.

(** The type the search selects, as a function of [acceptable]. *)
Definition clamp_type (T L H : int_type) : int_type :=
  let ok := acceptable T L H in
  let s := if ok Int8 then Int8 else if ok Int16 then Int16 else if ok Int32 then Int32 else Int64 in
  let u := if ok Uint8 then Uint8 else if ok Uint16 then Uint16 else if ok Uint32 then Uint32
           else Uint64 in
  if is_signed T then (if ok s then s else u) else (if ok u then u else s).

Lemma clamp_type_ok T L H :
  acceptable T L H (clamp_type T L H) = true /\
  (width (clamp_type T L H) <=? Z.max (width T) (Z.max (width L) (width H))) = true.
Proof. destruct T, L, H; vm_compute; split; reflexivity. Qed.

(** The search finds a type for every triple of argument types. *)
Lemma ClampType_spec {build : Build} T L H : ClampType T L H = Some (clamp_type T L H).
Proof.
  unfold ClampType, best_signed_type, best_unsigned_type.
  repeat (rewrite !AcceptableType_spec; cbn [mbind option_bind]).
  fold (clamp_type T L H). by rewrite (proj1 (clamp_type_ok T L H)).
Qed.

Lemma acceptable_fits T L H C x lo hi :
  acceptable T L H C = true -> InRange T x -> InRange L lo -> InRange H hi -> lo <= hi ->
  InRange C (Z.max lo (Z.min x hi)).
Proof.
  unfold acceptable, clamp_lo, clamp_hi, InRange. intros. lia.
Qed.

(** ** Main results *)

(** The range check of rtc_base classifies every value of every integer
    source type exactly: underflow below the destination's minimum, overflow
    above its maximum, valid otherwise; so [checked_cast] returns the value or
    aborts, and [saturated_cast] returns the nearest representable value and
    never aborts. *)
Theorem rtc_casts_exact Dst Src v :
  InRange Src v ->
  RangeCheck Dst Src v =
    (if v <? lowest Dst then TYPE_UNDERFLOW else if max Dst <? v then TYPE_OVERFLOW else TYPE_VALID) /\
  checked_cast Dst Src v = (if in_range Dst v then Done v else Fatal) /\
  saturated_cast Dst Src v = Done (clamp Dst v).
Proof.
  intros Hv. split; [by apply RangeCheck_spec|split].
  - unfold checked_cast, RTC_CHECK. rewrite IsValueInRangeForNumericType_spec by done.
    destruct (in_range Dst v) eqn:E; [|done]. by rewrite static_cast_id by by apply in_range_spec.
  - unfold saturated_cast. rewrite RangeCheck_spec by done. unfold range_class, clamp.
    pose proof (lowest_le_0 Dst). pose proof (max_pos Dst).
    destruct (Z.ltb_spec v (lowest Dst)), (Z.ltb_spec (max Dst) v); f_equal; try lia.
    rewrite static_cast_id by (unfold InRange; lia). lia.
Qed.

Lemma rtc_casts_exact_witness :
  InRange Int32 300 /\ saturated_cast Uint8 Int32 300 = Done 255.
Proof.
  assert (InRange Int32 300) as H by (limits; lia). split; [exact H|].
  exact (proj2 (proj2 (rtc_casts_exact Uint8 Int32 300 H))).
Defined.

(** The six safe comparisons agree with the order of the mathematical
    values for every pair of integer types, on 32-bit and 64-bit builds. *)
Theorem Safe_mathematical {build : Build} op T1 T2 a b :
  InRange T1 a -> InRange T2 b -> Safe op T1 T2 a b = holds op a b.
Proof. apply Safe_holds. Qed.

Lemma Safe_mathematical_witness :
  InRange Int64 (-1) /\ InRange Uint64 1 /\ @SafeLt release_x64 Int64 Uint64 (-1) 1 = true.
Proof.
  assert (InRange Int64 (-1)) as H1 by (limits; lia).
  assert (InRange Uint64 1) as H2 by (limits; lia).
  split; [exact H1|split; [exact H2|]].
  exact (@Safe_mathematical release_x64 LtOp Int64 Uint64 (-1) 1 H1 H2).
Defined.

(** [SafeMin] and [SafeMax] compile for every pair of integer types and
    return the mathematical minimum and maximum; with an explicit result type
    they compile exactly when it covers the default one. *)
Theorem SafeMinMax_exact {build : Build} R T1 T2 a b :
  InRange T1 a -> InRange T2 b ->
  (exists A, SafeMin None T1 T2 a b = Some (A, Z.min a b) /\ InRange A (Z.min a b)) /\
  (exists A, SafeMax None T1 T2 a b = Some (A, Z.max a b) /\ InRange A (Z.max a b)) /\
  SafeMin (Some R) T1 T2 a b =
    (if (lowest R <=? Z.min (lowest T1) (lowest T2)) && (max (min_t T1 T2) <=? max R)
     then Some (R, Z.min a b) else None) /\
  SafeMax (Some R) T1 T2 a b =
    (if (lowest R <=? lowest (widest_max T1 T2)) && (Z.max (max T1) (max T2) <=? max R)
     then Some (R, Z.max a b) else None).
Proof.
  intros Ha Hb. rewrite !SafeMin_spec, !SafeMax_spec, min_t_spec by done.
  cbn [default from_option id]. rewrite !covers_refl. split_and!.
  - eexists. split; [done|by apply widest_min_fits].
  - eexists. split; [done|by apply widest_max_fits].
  - unfold covers. by replace (lowest (widest_min T1 T2)) with (Z.min (lowest T1) (lowest T2))
      by (destruct T1, T2; reflexivity).
  - unfold covers. by replace (max (widest_max T1 T2)) with (Z.max (max T1) (max T2))
      by (destruct T1, T2; reflexivity).
Qed.

Lemma SafeMinMax_exact_witness :
  InRange Int8 (-3) /\ InRange Uint64 7 /\
  @SafeMax release_x86 (Some Int8) Int8 Uint64 (-3) 7 = None.
Proof.
  assert (InRange Int8 (-3)) as H1 by (limits; lia).
  assert (InRange Uint64 7) as H2 by (limits; lia).
  split; [exact H1|split; [exact H2|]].
  exact (proj2 (proj2 (proj2 (@SafeMinMax_exact release_x86 Int8 Int8 Uint64 (-3) 7 H1 H2)))).
Defined.

(** [SafeClamp] compiles for every triple of integer types, its result type
    is no larger than the largest argument type, and for [min <= max] it returns
    the argument clamped to the interval, on debug and release builds. *)
Theorem SafeClamp_exact {build : Build} T L H x lo hi :
  InRange T x -> InRange L lo -> InRange H hi -> lo <= hi ->
  exists C, SafeClamp None T L H x lo hi = Some (C, Done (Z.max lo (Z.min x hi))) /\
    InRange C (Z.max lo (Z.min x hi)) /\
    width C <= Z.max (width T) (Z.max (width L) (width H)).
Proof.
  intros Hx Hlo Hhi Hle. unfold SafeClamp.
  rewrite ClampType_spec. destruct (clamp_type_ok T L H) as [HC HW].
  cbn [mbind option_bind]. rewrite TypeOr_spec. cbn [default from_option id]. rewrite covers_refl.
  cbn [guard_b mbind option_bind]. eexists.
  pose proof (acceptable_fits _ _ _ _ _ _ _ HC Hx Hlo Hhi Hle) as HCv.
  unfold SafeLe, SafeGe. rewrite !Safe_holds by done. cbn [holds].
  rewrite RTC_DCHECK_true by lia. split_and!; [|done|lia].
  do 3 f_equal.
  unfold InRange in HCv.
  destruct (Z.leb_spec x lo), (Z.leb_spec hi x); rewrite static_cast_id; unfold InRange; lia.
Qed.

Lemma SafeClamp_exact_witness :
  InRange Int64 (-7) /\ InRange Uint8 0 /\ InRange Uint8 200 /\
  exists C, @SafeClamp debug_x64 None Int64 Uint8 Uint8 (-7) 0 200 = Some (C, Done 0).
Proof.
  assert (InRange Int64 (-7)) as H1 by (limits; lia).
  assert (InRange Uint8 0) as H2 by (limits; lia).
  assert (InRange Uint8 200) as H3 by (limits; lia).
  split; [exact H1|split; [exact H2|split; [exact H3|]]].
  destruct (@SafeClamp_exact debug_x64 Int64 Uint8 Uint8 (-7) 0 200 H1 H2 H3 ltac:(lia))
    as (C & HC & _). exists C. exact HC.
Defined.
