(* ===== verification/Units.v ===== *)
(** * Units: rtc_base/units/unit_base.h and api/units/*.h of libwebrtc

    [UnitBase U] is a value of the phantom unit [U] (one constructor per final
    class: [Timestamp], [TimeDelta], [DataSize], [DataRate], [Frequency]); the
    storage is an [int64_t] whose extreme values are the two infinities.
    Debug checks depend on the build ([RTC_DCHECK]), signed overflow and division
    by zero are [Undef], a failed check is [Fatal].  The floating-point
    constructors, accessors and operators are not modelled. *)

From S2P Require Import Prelude IntTypes RtcNumerics.
Import RtcSafeConversions SafeCompare.

Inductive Unit_T := Timestamp | TimeDelta | DataSize | DataRate | Frequency.

#[export] Instance Unit_T_eq_dec : EqDecision Unit_T.
Proof. solve_decision. Defined.

Definition one_sided (U : Unit_T) : bool :=
  match U with TimeDelta => false | _ => true end.

Record UnitBase (U : Unit_T) := mkUnit { value_ : Z }.
Arguments mkUnit {U} value_.
Arguments value_ {U} u.

Definition PlusInfinityVal : Z := max Int64.
Definition MinusInfinityVal : Z := lowest Int64.

Section UnitBase.
Context {build : Build} {U : Unit_T}.
Implicit Types u other resolution : UnitBase U.

Definition Zero : UnitBase U := mkUnit 0.
Definition PlusInfinity : UnitBase U := mkUnit PlusInfinityVal.
Definition MinusInfinity : UnitBase U := mkUnit MinusInfinityVal.

Definition IsZero u : bool := value_ u =? 0.
Definition IsInfinite u : bool :=
  (value_ u =? PlusInfinityVal) || (value_ u =? MinusInfinityVal).
Definition IsFinite u : bool := negb (IsInfinite u).
Definition IsPlusInfinity u : bool := value_ u =? PlusInfinityVal.
Definition IsMinusInfinity u : bool := value_ u =? MinusInfinityVal.

Definition unit_eq u other : bool := value_ u =? value_ other.
Definition unit_ne u other : bool := negb (value_ u =? value_ other).
Definition unit_le u other : bool := value_ u <=? value_ other.
Definition unit_ge u other : bool := value_ other <=? value_ u.
Definition unit_gt u other : bool := value_ other <? value_ u.
Definition unit_lt u other : bool := value_ u <? value_ other.

(** [FromValue(T value)] for an integer type [T]. *)
Definition FromValue (T : int_type) (value : Z) : exec (UnitBase U) :=
  RTC_DCHECK (negb (one_sided U) || SafeGe T Int32 value 0)
  (RTC_DCHECK (SafeGt T Int64 value MinusInfinityVal)
  (RTC_DCHECK (SafeLt T Int64 value PlusInfinityVal)
  (v ← dchecked_cast Int64 T value; Done (mkUnit v)))).

Definition FromFraction (denominator : Z) (T : int_type) (value : Z) : exec (UnitBase U) :=
  RTC_DCHECK (negb (one_sided U) || SafeGe T Int32 value 0)
  (RTC_DCHECK_eval (q ← defined (c_div Int64 Int64 MinusInfinityVal denominator);
                    Done (SafeGt T Int64 value q))
  (RTC_DCHECK_eval (q ← defined (c_div Int64 Int64 PlusInfinityVal denominator);
                    Done (SafeLt T Int64 value q))
  (p ← defined (c_mul T Int64 value denominator);
   v ← dchecked_cast Int64 (arith T Int64) p; Done (mkUnit v)))).

Definition ToValue (T : int_type) u : exec Z :=
  RTC_DCHECK (IsFinite u) (dchecked_cast T Int64 (value_ u)).
Definition ToValueOr (T : int_type) (fallback_value : Z) u : Z :=
  if IsFinite u then static_cast T (value_ u) else fallback_value.

(** Assumes that n >= 0 and d > 0. *)
Definition DivRoundPositiveToNearest (n d : Z) : option Z :=
  h ← c_div Int64 Int32 d 2; s ← c_add Int64 Int64 n h; c_div Int64 Int64 s d.
(** Assumes that d > 0. *)
Definition DivRoundToNearest (n d : Z) : option Z :=
  h ← (if c_ge Int64 Int32 n 0 then c_div Int64 Int32 d 2
       else m ← c_neg Int64 d; c_div Int64 Int32 m 2);
  s ← c_add Int64 Int64 n h; c_div Int64 Int64 s d.

Definition ToFraction (Denominator : Z) (T : int_type) u : exec Z :=
  RTC_DCHECK (IsFinite u)
    (q ← defined (if one_sided U then DivRoundPositiveToNearest (value_ u) Denominator
                  else DivRoundToNearest (value_ u) Denominator);
     dchecked_cast T Int64 q).

Definition ToFractionOr (Denominator : Z) (fallback_value : Z) u : exec Z :=
  if IsFinite u
  then defined (if one_sided U then DivRoundPositiveToNearest (value_ u) Denominator
                else DivRoundToNearest (value_ u) Denominator)
  else Done fallback_value.

Definition ToMultiple (Factor : Z) (T : int_type) u : exec Z :=
  RTC_DCHECK_eval (v ← ToValue Int64 u; q ← defined (c_div T Int64 (lowest T) Factor);
                   Done (SafeGe Int64 (arith T Int64) v q))
  (RTC_DCHECK_eval (v ← ToValue Int64 u; q ← defined (c_div T Int64 (max T) Factor);
                    Done (SafeLe Int64 (arith T Int64) v q))
  (v ← ToValue Int64 u; p ← defined (c_mul Int64 Int64 v Factor); dchecked_cast T Int64 p)).

(** ** RelativeUnit *)

Definition Clamped (min_value max_value : UnitBase U) u : UnitBase U :=
  let m := if unit_lt max_value u then max_value else u in
  if unit_lt min_value m then m else min_value.
Definition Clamp (min_value max_value : UnitBase U) u : UnitBase U := Clamped min_value max_value u.

Definition unit_add u other : exec (UnitBase U) :=
  if IsPlusInfinity u || IsPlusInfinity other then
    RTC_DCHECK (negb (IsMinusInfinity u)) (RTC_DCHECK (negb (IsMinusInfinity other))
      (Done PlusInfinity))
  else if IsMinusInfinity u || IsMinusInfinity other then
    RTC_DCHECK (negb (IsPlusInfinity u)) (RTC_DCHECK (negb (IsPlusInfinity other))
      (Done MinusInfinity))
  else a ← ToValue Int64 u; b ← ToValue Int64 other;
       s ← defined (c_add Int64 Int64 a b); FromValue Int64 s.

Definition unit_sub u other : exec (UnitBase U) :=
  if IsPlusInfinity u || IsMinusInfinity other then
    RTC_DCHECK (negb (IsMinusInfinity u)) (RTC_DCHECK (negb (IsPlusInfinity other))
      (Done PlusInfinity))
  else if IsMinusInfinity u || IsPlusInfinity other then
    RTC_DCHECK (negb (IsPlusInfinity u)) (RTC_DCHECK (negb (IsMinusInfinity other))
      (Done MinusInfinity))
  else a ← ToValue Int64 u; b ← ToValue Int64 other;
       s ← defined (c_sub Int64 Int64 a b); FromValue Int64 s.

(** [*this += other] and [*this -= other]: the new value of [*this]. *)
Definition unit_add_assign := unit_add.
Definition unit_sub_assign := unit_sub.

(** [operator*(int64_t)] and [operator*(int32_t)], selected by the scalar's type. *)
Definition unit_mul (S : int_type) (scalar : Z) u : exec (UnitBase U) :=
  a ← ToValue Int64 u; p ← defined (c_mul Int64 S a scalar); FromValue Int64 p.

(** The three rounding operations of [UnitBase], for the units with [operator*]. *)
Definition Round (q : option Z) resolution u : exec (UnitBase U) :=
  RTC_DCHECK (IsFinite u) (RTC_DCHECK (IsFinite resolution)
  (RTC_DCHECK (SafeGt Int64 Int32 (value_ resolution) 0)
  (v ← defined q; unit_mul Int64 (value_ resolution) (mkUnit v)))).

Definition RoundTo resolution u : exec (UnitBase U) :=
  Round (h ← c_div Int64 Int32 (value_ resolution) 2;
         s ← c_add Int64 Int64 (value_ u) h;
         c_div Int64 Int64 s (value_ resolution)) resolution u.
Definition RoundUpTo resolution u : exec (UnitBase U) :=
  Round (s ← c_add Int64 Int64 (value_ u) (value_ resolution);
         s' ← c_sub Int64 Int32 s 1;
         c_div Int64 Int64 s' (value_ resolution)) resolution u.
Definition RoundDownTo resolution u : exec (UnitBase U) :=
  Round (c_div Int64 Int64 (value_ u) (value_ resolution)) resolution u.

End UnitBase.
Arguments UnitBase : clear implicits.

Section ApiUnits.
Context {build : Build}.

(** ** api/units/time_delta.h *)

Definition TimeDelta_Seconds (T : int_type) (value : Z) : exec (UnitBase TimeDelta) :=
  FromFraction 1000000 T value.
Definition TimeDelta_Millis (T : int_type) (value : Z) : exec (UnitBase TimeDelta) :=
  FromFraction 1000 T value.
Definition TimeDelta_Micros (T : int_type) (value : Z) : exec (UnitBase TimeDelta) :=
  FromValue T value.
Definition TimeDelta_seconds (T : int_type) (d : UnitBase TimeDelta) := ToFraction 1000000 T d.
Definition TimeDelta_ms (T : int_type) (d : UnitBase TimeDelta) := ToFraction 1000 T d.
Definition TimeDelta_us (T : int_type) (d : UnitBase TimeDelta) := ToValue T d.
Definition TimeDelta_ns (T : int_type) (d : UnitBase TimeDelta) := ToMultiple 1000 T d.
Definition TimeDelta_seconds_or (fallback : Z) (d : UnitBase TimeDelta) :=
  ToFractionOr 1000000 fallback d.
Definition TimeDelta_ms_or (fallback : Z) (d : UnitBase TimeDelta) := ToFractionOr 1000 fallback d.
Definition TimeDelta_us_or (fallback : Z) (d : UnitBase TimeDelta) := ToValueOr Int64 fallback d.
Definition TimeDelta_Abs (d : UnitBase TimeDelta) : exec (UnitBase TimeDelta) :=
  v ← TimeDelta_us Int64 d;
  if c_lt Int64 Int32 v 0
  then v' ← TimeDelta_us Int64 d; n ← defined (c_neg Int64 v'); TimeDelta_Micros Int64 n
  else Done d.

(** ** api/units/timestamp.h *)

Definition Timestamp_Seconds (T : int_type) (value : Z) : exec (UnitBase Timestamp) :=
  FromFraction 1000000 T value.
Definition Timestamp_Millis (T : int_type) (value : Z) : exec (UnitBase Timestamp) :=
  FromFraction 1000 T value.
Definition Timestamp_Micros (T : int_type) (value : Z) : exec (UnitBase Timestamp) :=
  FromValue T value.
Definition Timestamp_seconds (T : int_type) (t : UnitBase Timestamp) := ToFraction 1000000 T t.
Definition Timestamp_ms (T : int_type) (t : UnitBase Timestamp) := ToFraction 1000 T t.
Definition Timestamp_us (T : int_type) (t : UnitBase Timestamp) := ToValue T t.
Definition Timestamp_seconds_or (fallback : Z) (t : UnitBase Timestamp) :=
  ToFractionOr 1000000 fallback t.
Definition Timestamp_ms_or (fallback : Z) (t : UnitBase Timestamp) := ToFractionOr 1000 fallback t.
Definition Timestamp_us_or (fallback : Z) (t : UnitBase Timestamp) := ToValueOr Int64 fallback t.

Definition Timestamp_add (t : UnitBase Timestamp) (delta : UnitBase TimeDelta)
  : exec (UnitBase Timestamp) :=
  if IsPlusInfinity t || IsPlusInfinity delta then
    RTC_DCHECK (negb (IsMinusInfinity t)) (RTC_DCHECK (negb (IsMinusInfinity delta))
      (Done PlusInfinity))
  else if IsMinusInfinity t || IsMinusInfinity delta then
    RTC_DCHECK (negb (IsPlusInfinity t)) (RTC_DCHECK (negb (IsPlusInfinity delta))
      (Done MinusInfinity))
  else a ← Timestamp_us Int64 t; b ← TimeDelta_us Int64 delta;
       s ← defined (c_add Int64 Int64 a b); Timestamp_Micros Int64 s.

Definition Timestamp_sub (t : UnitBase Timestamp) (delta : UnitBase TimeDelta)
  : exec (UnitBase Timestamp) :=
  if IsPlusInfinity t || IsMinusInfinity delta then
    RTC_DCHECK (negb (IsMinusInfinity t)) (RTC_DCHECK (negb (IsPlusInfinity delta))
      (Done PlusInfinity))
  else if IsMinusInfinity t || IsPlusInfinity delta then
    RTC_DCHECK (negb (IsPlusInfinity t)) (RTC_DCHECK (negb (IsMinusInfinity delta))
      (Done MinusInfinity))
  else a ← Timestamp_us Int64 t; b ← TimeDelta_us Int64 delta;
       s ← defined (c_sub Int64 Int64 a b); Timestamp_Micros Int64 s.

Definition Timestamp_diff (t other : UnitBase Timestamp) : exec (UnitBase TimeDelta) :=
  if IsPlusInfinity t || IsMinusInfinity other then
    RTC_DCHECK (negb (IsMinusInfinity t)) (RTC_DCHECK (negb (IsPlusInfinity other))
      (Done PlusInfinity))
  else if IsMinusInfinity t || IsPlusInfinity other then
    RTC_DCHECK (negb (IsPlusInfinity t)) (RTC_DCHECK (negb (IsMinusInfinity other))
      (Done MinusInfinity))
  else a ← Timestamp_us Int64 t; b ← Timestamp_us Int64 other;
       s ← defined (c_sub Int64 Int64 a b); TimeDelta_Micros Int64 s.

Definition Timestamp_sub_assign := Timestamp_sub.
Definition Timestamp_add_assign := Timestamp_add.

(** ** api/units/data_size.h *)

Definition DataSize_Bytes (T : int_type) (value : Z) : exec (UnitBase DataSize) :=
  FromValue T value.
Definition DataSize_Infinity : UnitBase DataSize := PlusInfinity.
Definition DataSize_bytes (T : int_type) (s : UnitBase DataSize) := ToValue T s.
Definition DataSize_bytes_or (fallback : Z) (s : UnitBase DataSize) := ToValueOr Int64 fallback s.

(** ** api/units/frequency.h *)

Definition Frequency_MilliHertz (T : int_type) (value : Z) : exec (UnitBase Frequency) :=
  FromValue T value.
Definition Frequency_Hertz (T : int_type) (value : Z) : exec (UnitBase Frequency) :=
  FromFraction 1000 T value.
Definition Frequency_KiloHertz (T : int_type) (value : Z) : exec (UnitBase Frequency) :=
  FromFraction 1000000 T value.
Definition Frequency_hertz (T : int_type) (f : UnitBase Frequency) := ToFraction 1000 T f.
Definition Frequency_millihertz (T : int_type) (f : UnitBase Frequency) := ToValue T f.

Definition kKiloPerMicro : Z := 1000 * 1000000.
Definition kMegaPerMilli : Z := 1000000 * 1000.

(** [nominator / interval] and [nominator / frequency]. *)
Definition div_TimeDelta (nominator : Z) (interval : UnitBase TimeDelta)
  : exec (UnitBase Frequency) :=
  RTC_DCHECK_eval (q ← defined (c_div Int64 Int64 (max Int64) kKiloPerMicro);
                   Done (SafeLe Int64 Int64 nominator q))
  (RTC_CHECK (IsFinite interval) (RTC_CHECK (negb (IsZero interval))
    (p ← defined (c_mul Int64 Int64 nominator kKiloPerMicro);
     v ← TimeDelta_us Int64 interval;
     q ← defined (c_div Int64 Int64 p v);
     Frequency_MilliHertz Int64 q))).

Definition div_Frequency (nominator : Z) (frequency : UnitBase Frequency)
  : exec (UnitBase TimeDelta) :=
  RTC_DCHECK_eval (q ← defined (c_div Int64 Int64 (max Int64) kMegaPerMilli);
                   Done (SafeLe Int64 Int64 nominator q))
  (RTC_CHECK (IsFinite frequency) (RTC_CHECK (negb (IsZero frequency))
    (p ← defined (c_mul Int64 Int64 nominator kMegaPerMilli);
     v ← Frequency_millihertz Int64 frequency;
     q ← defined (c_div Int64 Int64 p v);
     TimeDelta_Micros Int64 q))).

(** ** api/units/data_rate.h *)

Definition DataRate_BitsPerSec (T : int_type) (value : Z) : exec (UnitBase DataRate) :=
  FromValue T value.
Definition DataRate_BytesPerSec (T : int_type) (value : Z) : exec (UnitBase DataRate) :=
  FromFraction 8 T value.
Definition DataRate_KilobitsPerSec (T : int_type) (value : Z) : exec (UnitBase DataRate) :=
  FromFraction 1000 T value.
Definition DataRate_Infinity : UnitBase DataRate := PlusInfinity.
Definition DataRate_bps (T : int_type) (r : UnitBase DataRate) := ToValue T r.
Definition DataRate_bytes_per_sec (T : int_type) (r : UnitBase DataRate) := ToFraction 8 T r.
Definition DataRate_kbps (T : int_type) (r : UnitBase DataRate) := ToFraction 1000 T r.
Definition DataRate_bps_or (fallback : Z) (r : UnitBase DataRate) := ToValueOr Int64 fallback r.
Definition DataRate_kbps_or (fallback : Z) (r : UnitBase DataRate) := ToFractionOr 1000 fallback r.

Definition Microbits (size : UnitBase DataSize) : exec Z :=
  RTC_DCHECK_eval (v ← DataSize_bytes Int64 size;
                   k ← defined (c_div Int64 Int32 (max Int64) 8000000);
                   Done (SafeLe Int64 Int64 v k))
  (v ← DataSize_bytes Int64 size; defined (c_mul Int64 Int32 v 8000000)).

Definition MillibytePerSec (size : UnitBase DataRate) : exec Z :=
  RTC_DCHECK_eval (v ← DataRate_bps Int64 size;
                   k ← defined (c_div Int64 Int32 (max Int64) (Z.quot 1000 8));
                   Done (SafeLe Int64 Int64 v k))
  (v ← DataRate_bps Int64 size; defined (c_mul Int64 Int32 v (Z.quot 1000 8))).

Definition size_div_duration (size : UnitBase DataSize) (duration : UnitBase TimeDelta)
  : exec (UnitBase DataRate) :=
  m ← Microbits size; d ← TimeDelta_us Int64 duration;
  q ← defined (c_div Int64 Int64 m d); DataRate_BitsPerSec Int64 q.

Definition size_div_rate (size : UnitBase DataSize) (rate : UnitBase DataRate)
  : exec (UnitBase TimeDelta) :=
  m ← Microbits size; r ← DataRate_bps Int64 rate;
  q ← defined (c_div Int64 Int64 m r); TimeDelta_Micros Int64 q.

Definition rate_mul_duration (rate : UnitBase DataRate) (duration : UnitBase TimeDelta)
  : exec (UnitBase DataSize) :=
  r ← DataRate_bps Int64 rate; d ← TimeDelta_us Int64 duration;
  microbits ← defined (c_mul Int64 Int64 r d);
  s ← defined (c_add Int64 Int32 microbits 4000000);
  q ← defined (c_div Int64 Int32 s 8000000); DataSize_Bytes Int64 q.

Definition duration_mul_rate (duration : UnitBase TimeDelta) (rate : UnitBase DataRate) :=
  rate_mul_duration rate duration.

Definition rate_div_frequency (rate : UnitBase DataRate) (frequency : UnitBase Frequency)
  : exec (UnitBase DataSize) :=
  millihertz ← Frequency_millihertz Int64 frequency; m ← MillibytePerSec rate;
  q ← defined (c_div Int64 Int64 m millihertz); DataSize_Bytes Int64 q.

Definition rate_div_size (rate : UnitBase DataRate) (size : UnitBase DataSize)
  : exec (UnitBase Frequency) :=
  m ← MillibytePerSec rate; b ← DataSize_bytes Int64 size;
  q ← defined (c_div Int64 Int64 m b); Frequency_MilliHertz Int64 q.

Definition size_mul_frequency (size : UnitBase DataSize) (frequency : UnitBase Frequency)
  : exec (UnitBase DataRate) :=
  RTC_DCHECK_eval
    (if IsZero frequency then Done true
     else b ← DataSize_bytes Int64 size;
          e ← defined (c_div Int64 Int32 (max Int64) 8);
          f ← Frequency_millihertz Int64 frequency;
          q ← defined (c_div Int64 Int64 e f); Done (c_le Int64 Int64 b q))
  (b ← DataSize_bytes Int64 size; e ← defined (c_mul Int64 Int32 b 8);
   f ← Frequency_millihertz Int64 frequency;
   millibits_per_second ← defined (c_mul Int64 Int64 e f);
   s ← defined (c_add Int64 Int32 millibits_per_second 500);
   q ← defined (c_div Int64 Int32 s 1000); DataRate_BitsPerSec Int64 q).

Definition frequency_mul_size (frequency : UnitBase Frequency) (size : UnitBase DataSize) :=
  size_mul_frequency size frequency.

End ApiUnits.

(** ** Finite values *)

(** A value that is neither of the infinities. *)
Definition Finite {U} (u : UnitBase U) : Prop := lowest Int64 < value_ u < max Int64.

(** Values a unit class may hold: one-sided units are nonnegative. *)
Definition valid_value (U : Unit_T) (v : Z) : Prop :=
  lowest Int64 < v < max Int64 /\ (one_sided U = true -> 0 <= v).

Section Lemmas.
Context {build : Build} {U : Unit_T}.

Lemma IsInfinite_false (u : UnitBase U) : Finite u -> IsInfinite u = false.
Proof. unfold Finite, IsInfinite, PlusInfinityVal, MinusInfinityVal. intros. bool_lia. Qed.

Lemma IsFinite_true (u : UnitBase U) : Finite u -> IsFinite u = true.
Proof. intros. unfold IsFinite. by rewrite IsInfinite_false. Qed.

Lemma IsInf_false (u : UnitBase U) :
  Finite u -> IsPlusInfinity u = false /\ IsMinusInfinity u = false.
Proof.
  unfold Finite, IsPlusInfinity, IsMinusInfinity, PlusInfinityVal, MinusInfinityVal.
  intros. lia.
Qed.

Lemma Finite_InRange (u : UnitBase U) : Finite u -> InRange Int64 (value_ u).
Proof. unfold Finite, InRange. lia. Qed.

Lemma ToValue_finite (u : UnitBase U) : Finite u -> ToValue Int64 u = Done (value_ u).
Proof.
  intros Hu. unfold ToValue. rewrite RTC_DCHECK_true by by apply IsFinite_true.
  by apply dchecked_cast_fits; apply Finite_InRange.
Qed.

Lemma SafeGe_0 T v : InRange T v -> SafeGe T Int32 v 0 = (0 <=? v).
Proof. intros. unfold SafeGe. by rewrite Safe_holds by auto with weirtc. Qed.

Lemma FromValue_valid T v :
  InRange T v -> valid_value U v -> FromValue (U:=U) T v = Done (mkUnit v).
Proof.
  intros HT [Hv H0]. unfold FromValue. rewrite SafeGe_0 by done.
  unfold SafeGt, SafeLt. rewrite !Safe_holds by (done || apply lowest_in_range || apply max_in_range).
  unfold PlusInfinityVal, MinusInfinityVal. cbn [holds].
  assert (InRange Int64 v) by (unfold InRange; lia).
  assert (negb (one_sided U) || (0 <=? v) = true) as Hs
    by (destruct (one_sided U); cbn; [specialize (H0 eq_refl); lia|done]).
  rewrite !RTC_DCHECK_true by (exact Hs || lia). by rewrite dchecked_cast_fits.
Qed.

(** 64-bit arithmetic with a 64-bit or 32-bit right operand. *)
Lemma c_binop64 op S x y :
  S = Int64 \/ S = Int32 -> InRange Int64 x -> InRange S y ->
  c_binop op Int64 S x y = if in_range Int64 (op x y) then Some (op x y) else None.
Proof.
  intros HS Hx Hy. unfold c_binop. assert (arith Int64 S = Int64) as -> by by destruct HS as [-> | ->].
  rewrite !static_cast_id; try done. destruct HS as [-> | ->]; limits; lia.
Qed.

Lemma c_div64 S x y :
  S = Int64 \/ S = Int32 -> InRange Int64 x -> InRange S y ->
  c_div Int64 S x y =
    if y =? 0 then None
    else if in_range Int64 (Z.quot x y) then Some (Z.quot x y) else None.
Proof.
  intros HS Hx Hy. unfold c_div. assert (arith Int64 S = Int64) as -> by by destruct HS as [-> | ->].
  rewrite !static_cast_id; try done. destruct HS as [-> | ->]; limits; lia.
Qed.

(** Division by a positive divisor never overflows. *)
Lemma c_div64_pos S x y :
  S = Int64 \/ S = Int32 -> InRange Int64 x -> InRange S y -> 0 < y ->
  c_div Int64 S x y = Some (Z.quot x y).
Proof.
  intros HS Hx Hy H0. rewrite c_div64 by done. replace (y =? 0) with false by lia.
  assert (in_range Int64 (Z.quot x y) = true) as ->; [|done].
  apply in_range_spec. pose proof (quot_abs_le x y ltac:(lia)).
  pose proof (quot_sign x y ltac:(lia)) as Hs.
  replace (y <? 0) with false in Hs by lia. rewrite xorb_false_r in Hs.
  destruct (Z.ltb_spec x 0); limits; lia.
Qed.

Lemma c_add64 S x y :
  S = Int64 \/ S = Int32 -> InRange Int64 x -> InRange S y ->
  c_add Int64 S x y = if in_range Int64 (x + y) then Some (x + y) else None.
Proof. apply c_binop64. Qed.

Lemma c_sub64 S x y :
  S = Int64 \/ S = Int32 -> InRange Int64 x -> InRange S y ->
  c_sub Int64 S x y = if in_range Int64 (x - y) then Some (x - y) else None.
Proof. apply c_binop64. Qed.

Lemma c_mul64 S x y :
  S = Int64 \/ S = Int32 -> InRange Int64 x -> InRange S y ->
  c_mul Int64 S x y = if in_range Int64 (x * y) then Some (x * y) else None.
Proof. apply c_binop64. Qed.

Lemma c_lt64_0 x : InRange Int64 x -> c_lt Int64 Int32 x 0 = (x <? 0).
Proof. intros. unfold c_lt, c_cmp. rewrite !static_cast_id; done || (limits; lia). Qed.

Lemma c_ge64_0 x : InRange Int64 x -> c_ge Int64 Int32 x 0 = (0 <=? x).
Proof.
  intros. unfold c_ge, c_cmp. rewrite !static_cast_id; apply Z.geb_leb || (limits; lia).
Qed.

Lemma in_range_true t z : InRange t z -> in_range t z = true.
Proof. apply in_range_spec. Qed.

(** *** Rounded division *)

(** The quotient rounded to nearest, halves away from zero (half up for an odd
    divisor's truncated half). *)
Definition round_div (n d : Z) : Z :=
  if 0 <=? n then (n + d / 2) / d else - ((- n + d / 2) / d).

Lemma round_div_nearest n d : 0 < d -> 2 * Z.abs (round_div n d * d - n) <= d.
Proof.
  intros Hd. unfold round_div.
  pose proof (Z.div_mod d 2 ltac:(lia)). pose proof (Z.mod_pos_bound d 2 ltac:(lia)).
  destruct (Z.leb_spec 0 n) as [Hn|Hn].
  - pose proof (Z.div_mod (n + d / 2) d ltac:(lia)).
    pose proof (Z.mod_pos_bound (n + d / 2) d ltac:(lia)). nia.
  - pose proof (Z.div_mod (- n + d / 2) d ltac:(lia)).
    pose proof (Z.mod_pos_bound (- n + d / 2) d ltac:(lia)). nia.
Qed.

Lemma round_div_mul v d : 0 < d -> round_div (v * d) d = v.
Proof.
  intros Hd. assert (0 <= d / 2 < d) by (split; [apply Z.div_pos|apply Z.div_lt_upper_bound]; lia).
  unfold round_div. destruct (Z.leb_spec 0 (v * d)).
  - symmetry. apply (Z.div_unique _ _ _ (d / 2)); lia.
  - enough ((- (v * d) + d / 2) / d = - v) by lia.
    symmetry. apply (Z.div_unique _ _ _ (d / 2)); lia.
Qed.

Lemma half_bounds d : 0 < d -> InRange Int64 d -> InRange Int64 (d / 2) /\ 0 <= d / 2.
Proof.
  intros H0 Hd. assert (0 <= d / 2) by (apply Z.div_pos; lia).
  assert (d / 2 <= d) by (apply Z.div_le_upper_bound; lia). split; [|done]. limits; lia.
Qed.

(** Both rounded divisions compute [round_div] unless the addition overflows. *)
Lemma DivRoundToNearest_spec n d :
  InRange Int64 n -> 0 < d -> InRange Int64 d ->
  DivRoundToNearest n d =
    if in_range Int64 (if 0 <=? n then n + d / 2 else n - d / 2) then Some (round_div n d) else None.
Proof.
  intros Hn H0 Hd. unfold DivRoundToNearest. rewrite c_ge64_0 by done.
  pose proof (half_bounds d H0 Hd) as [Hh Hh0].
  assert (InRange Int32 2) by (limits; lia). unfold round_div.
  destruct (Z.leb_spec 0 n) as [Hs|Hs].
  - rewrite c_div64_pos by (done || lia || by right). cbn [mbind option_bind].
    rewrite Z.quot_div_nonneg, c_add64 by (done || lia || by left).
    destruct (in_range Int64 (n + d / 2)) eqn:E; [|done]. apply in_range_spec in E.
    cbn [mbind option_bind]. rewrite c_div64_pos by (done || lia || by left).
    by rewrite Z.quot_div_nonneg by lia.
  - unfold c_neg. cbn [promote]. rewrite arith_result_in_range by (limits; lia).
    cbn [mbind option_bind].
    rewrite c_div64_pos by (done || lia || (by right) || (limits; lia)). cbn [mbind option_bind].
    rewrite Z.quot_opp_l, Z.quot_div_nonneg by lia.
    rewrite c_add64 by (done || (by left) || (limits; lia)).
    replace (n + - (d / 2)) with (n - d / 2) by lia.
    destruct (in_range Int64 (n - d / 2)) eqn:E; [|done]. apply in_range_spec in E.
    cbn [mbind option_bind]. rewrite c_div64_pos by (done || lia || by left).
    replace (n - d / 2) with (- (- n + d / 2)) by lia.
    by rewrite Z.quot_opp_l, Z.quot_div_nonneg by lia.
Qed.

Lemma DivRoundPositiveToNearest_spec n d :
  InRange Int64 n -> 0 <= n -> 0 < d -> InRange Int64 d ->
  DivRoundPositiveToNearest n d =
    if in_range Int64 (n + d / 2) then Some (round_div n d) else None.
Proof.
  intros Hn Hn0 H0 Hd. pose proof (DivRoundToNearest_spec n d Hn H0 Hd) as Hr.
  unfold DivRoundToNearest in Hr. rewrite c_ge64_0 in Hr by done.
  replace (0 <=? n) with true in Hr by lia. exact Hr.
Qed.

End Lemmas.

Section OperationLemmas.
Context {build : Build} {U : Unit_T}.
Implicit Types u other : UnitBase U.

(** A class invariant: finite, and nonnegative for the one-sided units. *)
Definition valid u : Prop := valid_value U (value_ u).

Lemma valid_Finite u : valid u -> Finite u.
Proof. intros [H _]. exact H. Qed.

Lemma Finite_in_range64 z : lowest Int64 < z < max Int64 -> in_range Int64 z = true.
Proof. intros. apply in_range_spec. unfold InRange. lia. Qed.

(** Sum and difference of finite values, up to the final [FromValue]. *)
Lemma unit_add_finite u other :
  Finite u -> Finite other ->
  unit_add u other =
    if in_range Int64 (value_ u + value_ other)
    then FromValue Int64 (value_ u + value_ other) else Undef.
Proof.
  intros Hu Ho. unfold unit_add.
  destruct (IsInf_false u Hu) as [-> ->], (IsInf_false other Ho) as [-> ->]. cbn [orb].
  rewrite !ToValue_finite by done. cbn [mbind exec_bind].
  rewrite c_add64 by (by left || by apply Finite_InRange). by destruct (in_range _ _).
Qed.

Lemma unit_sub_finite u other :
  Finite u -> Finite other ->
  unit_sub u other =
    if in_range Int64 (value_ u - value_ other)
    then FromValue Int64 (value_ u - value_ other) else Undef.
Proof.
  intros Hu Ho. unfold unit_sub.
  destruct (IsInf_false u Hu) as [-> ->], (IsInf_false other Ho) as [-> ->]. cbn [orb].
  rewrite !ToValue_finite by done. cbn [mbind exec_bind].
  rewrite c_sub64 by (by left || by apply Finite_InRange). by destruct (in_range _ _).
Qed.

Lemma unit_mul_finite S scalar u :
  S = Int64 \/ S = Int32 -> InRange S scalar -> Finite u ->
  unit_mul S scalar u =
    if in_range Int64 (value_ u * scalar) then FromValue Int64 (value_ u * scalar) else Undef.
Proof.
  intros HS Hs Hu. unfold unit_mul. rewrite ToValue_finite by done. cbn [mbind exec_bind].
  rewrite c_mul64 by (done || by apply Finite_InRange). by destruct (in_range _ _).
Qed.

Lemma FromValue64_valid z : valid_value U z -> FromValue (U:=U) Int64 z = Done (mkUnit z).
Proof. intros H. apply FromValue_valid; [|done]. destruct H. unfold InRange. lia. Qed.

Lemma in_range_valid z : valid_value U z -> in_range Int64 z = true.
Proof. intros [H _]. by apply Finite_in_range64. Qed.

(** The three roundings on a nonnegative value, in terms of the quotient. *)
Lemma Round_valid q resolution u :
  Finite u -> Finite resolution -> 0 < value_ resolution ->
  InRange Int64 q -> lowest Int64 < q < max Int64 -> valid_value U (q * value_ resolution) ->
  Round (Some q) resolution u = Done (mkUnit (q * value_ resolution)).
Proof.
  intros Hu Hr H0 Hq Hqf Hv. unfold Round, SafeGt.
  rewrite Safe_holds by (apply Finite_InRange, Hr || (limits; lia)). cbn [holds].
  rewrite !RTC_DCHECK_true by (by apply IsFinite_true || lia). cbn [defined mbind exec_bind].
  rewrite unit_mul_finite by (by left || by apply Finite_InRange || done). cbn [value_].
  by rewrite in_range_valid, FromValue64_valid.
Qed.

Lemma ToFraction_spec d T u :
  Finite u -> (one_sided U = true -> 0 <= value_ u) -> 0 < d -> InRange Int64 d ->
  ToFraction d T u =
    if in_range Int64 (if 0 <=? value_ u then value_ u + d / 2 else value_ u - d / 2)
    then dchecked_cast T Int64 (round_div (value_ u) d) else Undef.
Proof.
  intros Hu H1 H0 Hd. unfold ToFraction. rewrite RTC_DCHECK_true by by apply IsFinite_true.
  pose proof (Finite_InRange u Hu) as Hr.
  destruct (one_sided U).
  - specialize (H1 eq_refl). rewrite DivRoundPositiveToNearest_spec by done.
    replace (0 <=? value_ u) with true by lia. by destruct (in_range _ _).
  - rewrite DivRoundToNearest_spec by done. by destruct (in_range _ _).
Qed.

Lemma FromFraction_valid d T v :
  InRange T v -> 0 < d -> InRange Int64 d ->
  Z.quot (lowest Int64) d < v < Z.quot (max Int64) d -> (one_sided U = true -> 0 <= v) ->
  FromFraction (U:=U) d T v = Done (mkUnit (v * d)).
Proof.
  intros HT H0 Hd Hv H1. unfold FromFraction, RTC_DCHECK_eval, PlusInfinityVal, MinusInfinityVal.
  rewrite SafeGe_0 by done.
  rewrite RTC_DCHECK_true by (destruct (one_sided U); cbn; [specialize (H1 eq_refl); lia|done]).
  rewrite !c_div64_pos by (done || (by left) || auto with weirtc). cbn [defined mbind exec_bind].
  assert (InRange Int64 (Z.quot (lowest Int64) d) /\ InRange Int64 (Z.quot (max Int64) d)) as [Hq1 Hq2].
  { pose proof (quot_abs_le (lowest Int64) d ltac:(lia)).
    pose proof (quot_abs_le (max Int64) d ltac:(lia)).
    pose proof (quot_sign (lowest Int64) d ltac:(lia)) as Hs1.
    pose proof (quot_sign (max Int64) d ltac:(lia)) as Hs2.
    replace (d <? 0) with false in * by lia. cbn in Hs1, Hs2. limits. lia. }
  unfold SafeGt, SafeLt. rewrite !Safe_holds by done. cbn [holds].
  replace (Z.quot (lowest Int64) d <? v) with true by lia.
  replace (v <? Z.quot (max Int64) d) with true by lia.
  assert (InRange Int64 (v * d)) as Hp.
  { pose proof (Z.quot_rem (lowest Int64) d ltac:(lia)). pose proof (Z.quot_rem (max Int64) d ltac:(lia)).
    pose proof (Z.rem_bound_pos_neg (lowest Int64) d H0 (lowest_le_0 Int64)).
    pose proof (Z.rem_bound_pos_pos (max Int64) d H0 (Z.lt_le_incl _ _ (max_pos Int64))).
    unfold InRange. nia. }
  assert (c_mul T Int64 v d = Some (v * d)) as ->.
  { unfold c_mul. apply c_binop_value.
    - f_equal; apply static_cast_id; clear Hq1 Hq2; destruct T; limits; nia.
    - destruct T; limits; nia. }
  destruct rtc_dcheck_is_on; cbn [defined mbind exec_bind];
    (rewrite dchecked_cast_fits; [done| |done]); destruct T; limits; nia.
Qed.

End OperationLemmas.

Section TimestampLemmas.
Context {build : Build}.

Lemma Timestamp_diff_valid (a b : UnitBase Timestamp) :
  valid a -> valid b -> Timestamp_diff a b = Done (mkUnit (value_ a - value_ b)).
Proof.
  intros Ha Hb. unfold Timestamp_diff, Timestamp_us, TimeDelta_Micros.
  pose proof (valid_Finite _ Ha) as Fa. pose proof (valid_Finite _ Hb) as Fb.
  destruct (IsInf_false a Fa) as [-> ->], (IsInf_false b Fb) as [-> ->]. cbn [orb].
  rewrite !ToValue_finite by done. cbn [mbind exec_bind].
  destruct Ha as [Ha1 Ha2], Hb as [Hb1 Hb2].
  specialize (Ha2 eq_refl). specialize (Hb2 eq_refl).
  assert (valid_value TimeDelta (value_ a - value_ b)) as Hv
    by (split; [clear Fa Fb; limits; lia|done]).
  rewrite c_sub64 by ((by left) || (apply Finite_InRange; assumption)).
  rewrite (in_range_valid (U:=TimeDelta)) by done. cbn [defined mbind exec_bind].
  by rewrite FromValue64_valid.
Qed.

Lemma Timestamp_add_valid (a : UnitBase Timestamp) (b : UnitBase TimeDelta) :
  valid a -> valid b -> valid_value Timestamp (value_ a + value_ b) ->
  Timestamp_add a b = Done (mkUnit (value_ a + value_ b)).
Proof.
  intros Ha Hb Hv. unfold Timestamp_add, Timestamp_us, TimeDelta_us, Timestamp_Micros.
  pose proof (valid_Finite _ Ha) as Fa. pose proof (valid_Finite _ Hb) as Fb.
  destruct (IsInf_false a Fa) as [-> ->], (IsInf_false b Fb) as [-> ->]. cbn [orb].
  rewrite !ToValue_finite by done. cbn [mbind exec_bind].
  rewrite c_add64 by ((by left) || (apply Finite_InRange; assumption)).
  rewrite (in_range_valid (U:=Timestamp)) by done. cbn [defined mbind exec_bind].
  by rewrite FromValue64_valid.
Qed.

Lemma Timestamp_sub_valid (a : UnitBase Timestamp) (b : UnitBase TimeDelta) :
  valid a -> valid b -> valid_value Timestamp (value_ a - value_ b) ->
  Timestamp_sub a b = Done (mkUnit (value_ a - value_ b)).
Proof.
  intros Ha Hb Hv. unfold Timestamp_sub, Timestamp_us, TimeDelta_us, Timestamp_Micros.
  pose proof (valid_Finite _ Ha) as Fa. pose proof (valid_Finite _ Hb) as Fb.
  destruct (IsInf_false a Fa) as [-> ->], (IsInf_false b Fb) as [-> ->]. cbn [orb].
  rewrite !ToValue_finite by done. cbn [mbind exec_bind].
  rewrite c_sub64 by ((by left) || (apply Finite_InRange; assumption)).
  rewrite (in_range_valid (U:=Timestamp)) by done. cbn [defined mbind exec_bind].
  by rewrite FromValue64_valid.
Qed.

End TimestampLemmas.

(** ** Main results *)

(** A unit built from an integer count of a coarser unit converts back to
    that count, for every source type, every scale and every count whose scaled
    value is finite; this covers seconds and milliseconds of [Timestamp] and
    [TimeDelta], kilobits and bytes per second and hertz. *)
Theorem FromFraction_ToFraction {build : Build} {U : Unit_T} d T v :
  InRange T v -> 0 < d -> InRange Int64 d ->
  Z.quot (lowest Int64) d < v < Z.quot (max Int64) d -> (one_sided U = true -> 0 <= v) ->
  (u ← FromFraction (U:=U) d T v; ToFraction d T u) = Done v.
Proof.
  intros HT H0 Hd Hv H1. rewrite FromFraction_valid by done. cbn [mbind exec_bind].
  pose proof (Z.quot_rem (lowest Int64) d ltac:(lia)). pose proof (Z.quot_rem (max Int64) d ltac:(lia)).
  pose proof (Z.rem_bound_pos_neg (lowest Int64) d H0 (lowest_le_0 Int64)).
  pose proof (Z.rem_bound_pos_pos (max Int64) d H0 (Z.lt_le_incl _ _ (max_pos Int64))).
  assert (0 <= d / 2 /\ d / 2 < d) as [Hh1 Hh2]
    by (split; [apply Z.div_pos|apply Z.div_lt_upper_bound]; lia).
  assert (InRange Int64 v) as Hv64.
  { pose proof (quot_abs_le (lowest Int64) d ltac:(lia)).
    pose proof (quot_abs_le (max Int64) d ltac:(lia)).
    pose proof (lowest_le_0 Int64). pose proof (max_pos Int64). unfold InRange. lia. }
  rewrite ToFraction_spec; [|unfold Finite; cbn [value_]; nia|intros Hos; specialize (H1 Hos); cbn [value_]; nia|done..].
  cbn [value_]. rewrite round_div_mul by done. rewrite in_range_true.
  - by apply dchecked_cast_fits.
  - unfold InRange. destruct (Z.leb_spec 0 (v * d)); nia.
Qed.

Lemma FromFraction_ToFraction_witness :
  InRange Int32 1500 /\
  @mbind exec _ _ _ (@ToFraction debug_x64 TimeDelta 1000 Int32)
    (@FromFraction debug_x64 TimeDelta 1000 Int32 1500) = Done 1500.
Proof.
  assert (InRange Int32 1500) as H by (limits; lia).
  assert (InRange Int64 1000) as H' by (limits; lia).
  split; [exact H|].
  exact (@FromFraction_ToFraction debug_x64 TimeDelta 1000 Int32 1500 H ltac:(lia) H'
    ltac:(vm_compute; split; reflexivity) ltac:(discriminate)).
Defined.

(** Reading a finite value in a coarser unit rounds to the nearest count
    (the error is at most half a unit), except that the value whose rounding
    addition leaves [int64_t] is undefined behaviour, in every build. *)
Theorem ToFraction_nearest {build : Build} {U : Unit_T} d (u : UnitBase U) :
  valid u -> 0 < d -> InRange Int64 d ->
  (Z.abs (value_ u) + d / 2 <= max Int64 ->
   exists q, ToFraction d Int64 u = Done q /\ 2 * Z.abs (q * d - value_ u) <= d) /\
  (max Int64 < value_ u + d / 2 -> ToFraction d Int64 u = Undef).
Proof.
  intros [Hu H1] H0 Hd.
  assert (0 <= d / 2) by (apply Z.div_pos; lia).
  rewrite ToFraction_spec by done. split; intros Hb.
  - exists (round_div (value_ u) d). pose proof (round_div_nearest (value_ u) d H0).
    rewrite in_range_true by (unfold InRange; destruct (Z.leb_spec 0 (value_ u)); limits; lia).
    split; [|done]. apply dchecked_cast_fits; unfold InRange; clear Hd; limits; nia.
  - assert (d / 2 <= max Int64) by (apply Z.div_le_upper_bound; unfold InRange in Hd; lia).
    replace (0 <=? value_ u) with true by lia.
    rewrite (proj2 (in_range_false _ _)); [done|]. unfold InRange. lia.
Qed.

Lemma ToFraction_nearest_witness :
  valid (U:=Timestamp) (mkUnit 9223372036854775500) /\
  @ToFraction release_x64 Timestamp 1000 Int64 (mkUnit 9223372036854775500) = Undef.
Proof.
  assert (valid (U:=Timestamp) (mkUnit 9223372036854775500)) as H
    by (split; [limits; cbn; lia|cbn; lia]).
  assert (InRange Int64 1000) as H' by (limits; lia).
  split; [exact H|].
  exact (proj2 (@ToFraction_nearest release_x64 Timestamp 1000 _ H ltac:(lia) H') ltac:(reflexivity)).
Defined.

(** Addition and subtraction of relative units are exact on finite values,
    absorb a single infinity, and treat opposite infinities as a programming
    error: an abort in debug builds, plus infinity in release builds; a finite
    sum outside [int64_t] is undefined behaviour. *)
Theorem unit_arith_spec {build : Build} {U : Unit_T} (u other : UnitBase U) :
  valid u -> valid other ->
  (valid_value U (value_ u + value_ other) ->
   unit_add u other = Done (mkUnit (value_ u + value_ other)) /\
   unit_sub (mkUnit (value_ u + value_ other)) other = Done u) /\
  (max Int64 < value_ u + value_ other -> unit_add u other = Undef) /\
  unit_add u PlusInfinity = Done PlusInfinity /\ unit_add u MinusInfinity = Done MinusInfinity /\
  unit_sub u PlusInfinity = Done MinusInfinity /\ unit_sub u MinusInfinity = Done PlusInfinity /\
  unit_add (U:=U) PlusInfinity MinusInfinity =
    (if rtc_dcheck_is_on then Fatal else Done PlusInfinity).
Proof.
  intros Hu Ho. pose proof (valid_Finite _ Hu) as Fu. pose proof (valid_Finite _ Ho) as Fo.
  assert (forall w : UnitBase U, mkUnit (value_ w) = w) as Heta by by intros [].
  destruct (IsInf_false u Fu) as [Hp Hm]. split_and!.
  - intros Hs. assert (Finite (mkUnit (U:=U) (value_ u + value_ other))) as Fs by by destruct Hs.
    rewrite unit_add_finite, unit_sub_finite by done. cbn [value_].
    replace (value_ u + value_ other - value_ other) with (value_ u) by lia.
    rewrite !in_range_valid, !FromValue64_valid by done. by rewrite Heta.
  - intros Hs. rewrite unit_add_finite by done.
    rewrite (proj2 (in_range_false _ _)); [done|]. unfold InRange. lia.
  - unfold unit_add. rewrite Hp, Hm. by destruct rtc_dcheck_is_on eqn:E; unfold RTC_DCHECK; rewrite ?E.
  - unfold unit_add. rewrite Hp, Hm. by destruct rtc_dcheck_is_on eqn:E; unfold RTC_DCHECK; rewrite ?E.
  - unfold unit_sub. rewrite Hp, Hm. by destruct rtc_dcheck_is_on eqn:E; unfold RTC_DCHECK; rewrite ?E.
  - unfold unit_sub. rewrite Hp, Hm. by destruct rtc_dcheck_is_on eqn:E; unfold RTC_DCHECK; rewrite ?E.
  - unfold unit_add, RTC_DCHECK. cbn. by destruct rtc_dcheck_is_on.
Qed.

Lemma unit_arith_spec_witness :
  valid (U:=DataSize) (mkUnit 5) /\
  @unit_add debug_x64 DataSize (mkUnit 5) (mkUnit 7) = Done (mkUnit 12).
Proof.
  assert (forall z, 0 <= z < 100 -> valid (U:=DataSize) (mkUnit z)) as H
    by (intros z Hz; split; [limits; cbn; lia|cbn; lia]).
  split; [apply H; lia|].
  exact (proj1 (proj1 (@unit_arith_spec debug_x64 DataSize (mkUnit 5) (mkUnit 7)
    (H 5 ltac:(lia)) (H 7 ltac:(lia))) (H 12 ltac:(lia)))).
Defined.

(** The difference of two finite timestamps added to the earlier one gives the
    later one, and a duration added to a timestamp is recovered as their
    difference and undone by subtraction. *)
Theorem Timestamp_difference {build : Build} (t other : UnitBase Timestamp) (d : UnitBase TimeDelta) :
  valid t -> valid other -> valid d -> valid_value Timestamp (value_ t + value_ d) ->
  (delta ← Timestamp_diff t other; Timestamp_add other delta) = Done t /\
  (t' ← Timestamp_add t d; Timestamp_diff t' t) = Done d /\
  (t' ← Timestamp_add t d; Timestamp_sub t' d) = Done t.
Proof.
  intros Ht Ho Hd Hs. destruct t as [t], other as [o], d as [d]; cbn [value_] in *.
  assert (valid (U:=TimeDelta) (mkUnit (t - o))) as Hto.
  { destruct Ht as [Ht1 Ht2], Ho as [Ho1 Ho2]. specialize (Ht2 eq_refl). specialize (Ho2 eq_refl).
    clear Hd Hs. split; [limits; cbn [value_] in *; lia|done]. }
  assert (valid (U:=Timestamp) (mkUnit (t + d))) as Htd by exact Hs.
  rewrite Timestamp_diff_valid, Timestamp_add_valid by done. cbn [mbind exec_bind value_].
  rewrite Timestamp_add_valid; [|done..|cbn [value_]; by replace (o + (t - o)) with t by lia].
  rewrite Timestamp_diff_valid by done. cbn [value_].
  rewrite Timestamp_sub_valid; [|done..|cbn [value_]; by replace (t + d - d) with t by lia].
  cbn [value_]. split_and!; do 2 f_equal; lia.
Qed.

Lemma Timestamp_difference_witness :
  valid (U:=Timestamp) (mkUnit 7) /\
  @mbind exec _ _ _ (@Timestamp_add debug_x64 (mkUnit 2)) (@Timestamp_diff debug_x64 (mkUnit 7) (mkUnit 2))
    = Done (mkUnit 7).
Proof.
  assert (forall U z, 0 <= z < 100 -> valid (U:=U) (mkUnit z)) as H
    by (intros U z Hz; split; [limits; cbn; lia|cbn; lia]).
  split; [apply H; lia|].
  exact (proj1 (@Timestamp_difference debug_x64 (mkUnit 7) (mkUnit 2) (mkUnit 3)
    (H _ 7 ltac:(lia)) (H _ 2 ltac:(lia)) (H _ 3 ltac:(lia)) (H Timestamp 10 ltac:(lia)))).
Defined.

Section RoundingLemmas.
Context {build : Build} {U : Unit_T}.
Implicit Types u resolution : UnitBase U.

(** The quotient each rounding computes, when nothing overflows. *)
Lemma RoundTo_quotient resolution u :
  Finite u -> Finite resolution -> 0 < value_ resolution ->
  InRange Int64 (value_ u + value_ resolution / 2) ->
  RoundTo resolution u =
    Round (Some (Z.quot (value_ u + value_ resolution / 2) (value_ resolution))) resolution u.
Proof.
  intros Hu Hr H0 Hs. unfold RoundTo. f_equal.
  pose proof (half_bounds _ H0 (Finite_InRange _ Hr)) as [Hh Hh0].
  rewrite c_div64_pos by ((by right) || (by apply Finite_InRange) || (limits; lia)).
  cbn [mbind option_bind]. rewrite Z.quot_div_nonneg by lia.
  rewrite c_add64 by ((by left) || (by apply Finite_InRange) || done).
  rewrite in_range_true by done. cbn [mbind option_bind].
  by rewrite c_div64_pos by ((by left) || (by apply Finite_InRange) || done).
Qed.

Lemma RoundUpTo_quotient resolution u :
  Finite u -> Finite resolution -> 0 < value_ resolution ->
  value_ u + value_ resolution <= max Int64 ->
  RoundUpTo resolution u =
    Round (Some (Z.quot (value_ u + value_ resolution - 1) (value_ resolution))) resolution u.
Proof.
  intros Hu Hr H0 Hs. unfold RoundUpTo. f_equal.
  assert (InRange Int64 (value_ u + value_ resolution)) by (unfold Finite, InRange in *; lia).
  assert (InRange Int64 (value_ u + value_ resolution - 1)) by (unfold Finite, InRange in *; lia).
  rewrite c_add64 by ((by left) || (by apply Finite_InRange)).
  rewrite in_range_true by done. cbn [mbind option_bind].
  rewrite c_sub64 by ((by right) || done || (limits; lia)).
  rewrite in_range_true by done. cbn [mbind option_bind].
  by rewrite c_div64_pos by ((by left) || (by apply Finite_InRange) || done).
Qed.

Lemma RoundDownTo_quotient resolution u :
  Finite u -> Finite resolution -> 0 < value_ resolution ->
  RoundDownTo resolution u = Round (Some (Z.quot (value_ u) (value_ resolution))) resolution u.
Proof.
  intros Hu Hr H0. unfold RoundDownTo. f_equal.
  by rewrite c_div64_pos by ((by left) || (by apply Finite_InRange) || done).
Qed.

(** The quotient of a rounding is finite because its product with the resolution is. *)
Lemma Round_product q resolution u :
  Finite u -> Finite resolution -> 0 < value_ resolution ->
  valid_value U (q * value_ resolution) ->
  Round (Some q) resolution u = Done (mkUnit (q * value_ resolution)).
Proof.
  intros Hu Hr H0 Hv. apply Round_valid; [done..| | |done];
    destruct Hv as [Hv _]; pose proof (lowest_le_0 Int64); pose proof (max_pos Int64);
    unfold InRange; nia.
Qed.

End RoundingLemmas.

(** On nonnegative values the three roundings are what their names say: the
    nearest multiple, the least multiple above and the greatest multiple below. *)
Theorem Round_nonnegative {build : Build} {U : Unit_T} (resolution u : UnitBase U) :
  0 <= value_ u -> 0 < value_ resolution -> value_ u + value_ resolution < max Int64 ->
  (exists k, RoundTo resolution u = Done (mkUnit (k * value_ resolution)) /\
     2 * Z.abs (k * value_ resolution - value_ u) <= value_ resolution) /\
  (exists k, RoundUpTo resolution u = Done (mkUnit (k * value_ resolution)) /\
     value_ u <= k * value_ resolution < value_ u + value_ resolution) /\
  (exists k, RoundDownTo resolution u = Done (mkUnit (k * value_ resolution)) /\
     k * value_ resolution <= value_ u < k * value_ resolution + value_ resolution).
Proof.
  intros H0 Hr0 Hs. set (v := value_ u) in *. set (r := value_ resolution) in *.
  assert (lowest Int64 < 0) by reflexivity.
  assert (forall a, 0 <= a -> 0 <= a / r * r) as Hpos
    by (intros a Ha; pose proof (Z.div_pos a r Ha Hr0); nia).
  assert (Finite u) as Hu by (unfold Finite; fold v; limits; lia).
  assert (Finite resolution) as Hr by (unfold Finite; fold r; limits; lia).
  pose proof (Z.div_mod r 2 ltac:(lia)). pose proof (Z.mod_pos_bound r 2 ltac:(lia)).
  split_and!.
  - exists ((v + r / 2) / r). pose proof (Z.div_mod (v + r / 2) r ltac:(lia)).
    pose proof (Z.mod_pos_bound (v + r / 2) r ltac:(lia)). pose proof (Hpos (v + r / 2) ltac:(lia)).
    rewrite RoundTo_quotient by (done || (fold v r; unfold InRange; lia)). fold v r.
    rewrite Z.quot_div_nonneg by lia. split; [|lia].
    apply Round_product; [done..|]. fold r. split; [lia|]. intros _. lia.
  - exists ((v + r - 1) / r). pose proof (Z.div_mod (v + r - 1) r ltac:(lia)).
    pose proof (Z.mod_pos_bound (v + r - 1) r ltac:(lia)). pose proof (Hpos (v + r - 1) ltac:(lia)).
    rewrite RoundUpTo_quotient by (done || (fold v r; lia)). fold v r.
    rewrite Z.quot_div_nonneg by lia. split; [|lia].
    apply Round_product; [done..|]. fold r. split; [lia|]. intros _. lia.
  - exists (v / r). pose proof (Z.div_mod v r ltac:(lia)). pose proof (Z.mod_pos_bound v r ltac:(lia)).
    pose proof (Hpos v H0).
    rewrite RoundDownTo_quotient by done. fold v r.
    rewrite Z.quot_div_nonneg by lia. split; [|lia].
    apply Round_product; [done..|]. fold r. split; [lia|]. intros _. lia.
Qed.

Lemma Round_nonnegative_witness :
  @RoundTo debug_x64 TimeDelta (mkUnit 10) (mkUnit 25) = Done (mkUnit 30) /\
  exists k, @RoundDownTo debug_x64 TimeDelta (mkUnit 10) (mkUnit 25) = Done (mkUnit (k * 10)).
Proof.
  split; [vm_compute; reflexivity|].
  destruct (@Round_nonnegative debug_x64 TimeDelta (mkUnit 10) (mkUnit 25)
    ltac:(cbn; lia) ltac:(cbn; lia) ltac:(reflexivity)) as (_ & _ & k & Hk & _).
  exists k. exact Hk.
Defined.

(** On negative values they are not: a value that already is a multiple of
    the resolution is moved up by one whole resolution by [RoundTo] and
    [RoundUpTo], and [RoundDownTo] rounds up, towards zero. *)
Theorem Round_negative {build : Build} k r :
  1 <= k -> 2 <= r -> k * r < max Int64 ->
  RoundTo (U:=TimeDelta) (mkUnit r) (mkUnit (- k * r)) = Done (mkUnit (- (k - 1) * r)) /\
  RoundUpTo (U:=TimeDelta) (mkUnit r) (mkUnit (- k * r)) = Done (mkUnit (- (k - 1) * r)) /\
  RoundDownTo (U:=TimeDelta) (mkUnit r) (mkUnit (- k * r + 1)) = Done (mkUnit (- (k - 1) * r)).
Proof.
  intros Hk Hr Hm. assert (1 * r <= k * r) by (apply Z.mul_le_mono_nonneg_r; lia).
  assert (Finite (U:=TimeDelta) (mkUnit (- k * r)) /\ Finite (U:=TimeDelta) (mkUnit (- k * r + 1)) /\
    Finite (U:=TimeDelta) (mkUnit r)) as (Hu & Hu' & Fr)
    by (unfold Finite; cbn [value_]; limits; lia).
  assert (valid_value TimeDelta (- (k - 1) * r)) as Hv by (split; [limits; lia|done]).
  assert (0 < r) by lia.
  pose proof (Z.div_mod r 2 ltac:(lia)). pose proof (Z.mod_pos_bound r 2 ltac:(lia)).
  rewrite RoundTo_quotient, RoundUpTo_quotient, RoundDownTo_quotient
    by (done || (cbn [value_]; limits; lia)). cbn [value_].
  assert (forall a, 0 <= a < r -> Z.quot (- k * r + (r - a)) r = - (k - 1)) as Hq.
  { intros a Ha. replace (- k * r + (r - a)) with (- ((k - 1) * r + a)) by lia.
    rewrite Z.quot_opp_l, Z.quot_div_nonneg by nia. f_equal.
    symmetry. apply (Z.div_unique _ _ _ a); lia. }
  replace (- k * r + r / 2) with (- k * r + (r - (r - r / 2))) by lia.
  replace (- k * r + r - 1) with (- k * r + (r - 1)) by lia.
  replace (- k * r + 1) with (- k * r + (r - (r - 1))) in * by lia.
  rewrite !Hq by lia. split_and!; by apply Round_product.
Qed.

Lemma Round_negative_witness :
  1 <= 3 /\ 2 <= 10 /\
  @RoundTo debug_x64 TimeDelta (mkUnit 10) (mkUnit (-30)) = Done (mkUnit (-20)).
Proof.
  split; [lia|split; [lia|]].
  exact (proj1 (@Round_negative debug_x64 3 10 ltac:(lia) ltac:(lia) ltac:(reflexivity))).
Defined.

(** Rate times duration, on every branch. *)
Lemma rate_mul_duration_value {build : Build} (r : UnitBase DataRate) (d : UnitBase TimeDelta) :
  valid r -> valid d -> 0 <= value_ d ->
  (value_ r * value_ d + 4000000 <= max Int64 ->
   rate_mul_duration r d = Done (mkUnit ((value_ r * value_ d + 4000000) / 8000000))) /\
  (max Int64 < value_ r * value_ d + 4000000 -> rate_mul_duration r d = Undef).
Proof.
  intros Hr Hd H0. destruct (Hr) as [Hrf Hr0]. specialize (Hr0 eq_refl).
  destruct (Hd) as [Hdf _]. assert (0 <= value_ r * value_ d) by nia.
  pose proof (lowest_le_0 Int64).
  assert (InRange Int32 4000000 /\ InRange Int32 8000000) as [H4 H8] by (split; limits; lia).
  unfold rate_mul_duration, DataRate_bps, TimeDelta_us, DataSize_Bytes.
  rewrite !ToValue_finite by by apply valid_Finite. cbn [mbind exec_bind].
  rewrite c_mul64 by ((by left) || (unfold InRange; lia)).
  destruct (in_range Int64 (value_ r * value_ d)) eqn:E; cbn [defined mbind exec_bind].
  - apply in_range_spec in E. rewrite c_add64 by ((by right) || done). split; intros Hs.
    + assert (InRange Int64 (value_ r * value_ d + 4000000)) by (unfold InRange in *; lia).
      rewrite in_range_true by done. cbn [defined mbind exec_bind].
      rewrite c_div64_pos by ((by right) || done || lia). cbn [defined mbind exec_bind].
      rewrite Z.quot_div_nonneg by lia. apply FromValue64_valid.
      pose proof (Z.div_pos (value_ r * value_ d + 4000000) 8000000 ltac:(lia) ltac:(lia)).
      pose proof (Z.mul_div_le (value_ r * value_ d + 4000000) 8000000 ltac:(lia)).
      split; [|done]. assert (lowest Int64 < 0) by reflexivity. lia.
    + rewrite (proj2 (in_range_false _ _)); [done|]. unfold InRange. lia.
  - apply in_range_false in E. split; [|done]. intros Hs. exfalso. apply E. unfold InRange. lia.
Qed.

Lemma Microbits_value {build : Build} (s : UnitBase DataSize) :
  valid s -> value_ s <= Z.quot (max Int64) 8000000 -> Microbits s = Done (value_ s * 8000000).
Proof.
  intros Hs Hq. pose proof (valid_Finite _ Hs) as Fs. destruct Hs as [Hs H0]. specialize (H0 eq_refl).
  unfold Microbits, RTC_DCHECK_eval, DataSize_bytes. rewrite ToValue_finite by done.
  cbn [mbind exec_bind].
  assert (InRange Int32 8000000) by (limits; lia).
  rewrite c_div64_pos by ((by right) || done || auto with weirtc || lia).
  change (Z.quot (max Int64) 8000000) with 1152921504606 in *. cbn [defined mbind exec_bind].
  unfold SafeLe. rewrite Safe_holds by (by apply Finite_InRange || (limits; lia)). cbn [holds].
  replace (value_ s <=? 1152921504606) with true by lia.
  rewrite c_mul64 by ((by right) || done || by apply Finite_InRange).
  rewrite in_range_true by (limits; lia). by destruct rtc_dcheck_is_on.
Qed.

(** Rate times duration is the number of bytes rounded to nearest when the
    product of bits and microseconds fits; there is no check in any build that
    it does, so a larger product is undefined behaviour. *)
Theorem rate_mul_duration_exact {build : Build} (r : UnitBase DataRate) (d : UnitBase TimeDelta) :
  valid r -> valid d -> 0 <= value_ d ->
  (value_ r * value_ d + 4000000 <= max Int64 ->
   rate_mul_duration r d = Done (mkUnit ((value_ r * value_ d + 4000000) / 8000000))) /\
  (max Int64 < value_ r * value_ d + 4000000 -> rate_mul_duration r d = Undef).
Proof. apply rate_mul_duration_value. Qed.

Lemma rate_mul_duration_exact_witness :
  valid (U:=DataRate) (mkUnit 10000000000) /\ valid (U:=TimeDelta) (mkUnit 1000000000) /\
  @rate_mul_duration release_x64 (mkUnit 10000000000) (mkUnit 1000000000) = Undef.
Proof.
  assert (valid (U:=DataRate) (mkUnit 10000000000)) as H1 by (split; [limits; cbn; lia|cbn; lia]).
  assert (valid (U:=TimeDelta) (mkUnit 1000000000)) as H2 by (split; [limits; cbn; lia|cbn; lia]).
  split; [exact H1|split; [exact H2|]].
  exact (proj2 (@rate_mul_duration_exact release_x64 _ _ H1 H2 ltac:(cbn; lia)) ltac:(reflexivity)).
Defined.

(** The rate of a size over a duration of at most four seconds, multiplied by
    that duration, gives the size back exactly; dividing a size by the zero
    duration is undefined behaviour, with no check in any build. *)
Theorem size_rate_roundtrip {build : Build} (s : UnitBase DataSize) (d : UnitBase TimeDelta) :
  valid s -> value_ s <= Z.quot (max Int64) 8000000 ->
  (0 < value_ d <= 4000000 ->
   (r ← size_div_duration s d; rate_mul_duration r d) = Done s) /\
  (value_ d = 0 -> size_div_duration s d = Undef).
Proof.
  intros Hs Hq. pose proof (Microbits_value s Hs Hq) as Hm.
  destruct s as [s], d as [d]; cbn [value_] in *. destruct Hs as [Hs H0]. specialize (H0 eq_refl).
  change (Z.quot (max Int64) 8000000) with 1152921504606 in *. cbn [value_] in *.
  split; intros Hd.
  - assert (valid (U:=TimeDelta) (mkUnit d)) as Vd by (split; [limits; cbn [value_]; lia|done]).
    pose proof (Z.div_mod (s * 8000000) d ltac:(lia)) as Hdm.
    pose proof (Z.mod_pos_bound (s * 8000000) d ltac:(lia)) as Hmb.
    pose proof (Z.div_pos (s * 8000000) d ltac:(lia) ltac:(lia)).
    assert (valid_value DataRate (s * 8000000 / d)) as Vr by (split; [limits; nia|done]).
    unfold size_div_duration, TimeDelta_us, DataRate_BitsPerSec. rewrite Hm.
    rewrite ToValue_finite by by apply valid_Finite. cbn [mbind exec_bind value_].
    rewrite c_div64_pos by ((by left) || lia || (limits; lia)).
    rewrite Z.quot_div_nonneg by lia. cbn [defined mbind exec_bind].
    rewrite FromValue64_valid by done. cbn [mbind exec_bind].
    rewrite (proj1 (rate_mul_duration_value (mkUnit (s * 8000000 / d)) _ Vr Vd ltac:(cbn; lia))) by (cbn; limits; lia).
    cbn [value_]. do 2 f_equal. symmetry.
    apply (Z.div_unique _ _ _ (4000000 - (s * 8000000) mod d)); lia.
  - subst d. unfold size_div_duration, TimeDelta_us. rewrite Hm.
    rewrite ToValue_finite by (unfold Finite; cbn [value_]; limits; lia).
    cbn [mbind exec_bind value_].
    by rewrite c_div64 by ((by left) || (limits; lia)).
Qed.

Lemma size_rate_roundtrip_witness :
  valid (U:=DataSize) (mkUnit 1200) /\
  @size_div_duration debug_x64 (mkUnit 1200) (mkUnit 0) = Undef.
Proof.
  assert (valid (U:=DataSize) (mkUnit 1200)) as H by (split; [limits; cbn; lia|cbn; lia]).
  split; [exact H|].
  exact (proj2 (@size_rate_roundtrip debug_x64 _ (mkUnit 0) H ltac:(vm_compute; discriminate)) eq_refl).
Defined.
