(* ===== verification/SwapQueue.v ===== *)
(** * SwapQueue: rtc_base/swap_queue.h

    A fixed-size queue for one producer and one consumer thread.  [Insert], [Remove]
    and [Clear] are built from the accesses they make to the shared members, in order;
    the concurrent model interleaves the two threads one access at a time.  The
    atomics are sequentially consistent here: what the acquire and release orderings
    are there for is that no slot is accessed by both threads, which is a theorem.

    [size_t] is the unsigned type of the platform, [queue_item_verifier_] the
    functor of the template parameter. *)

From AAC_tactics Require Import AAC.
From AAC_tactics Require Instances.
Import Instances.Lists.
From S2P Require Import Prelude IntTypes.
From Stdlib Require Import List Permutation.
Open Scope Z_scope.
Open Scope list_scope.

Section Model.
Context {T : Type} {build : Build} (size_t : int_type) (queue_item_verifier_ : T -> bool).

Record SwapQueue := mkSwapQueue {
  next_write_index_ : Z;
  next_read_index_ : Z;
  num_elements_ : Z;
  queue_ : list T
}.

(** [queue_.size()]. *)
Definition queue_size (q : SwapQueue) : Z := Z.of_nat (length (queue_ q)).

(** ** Construction *)

Fixpoint VerifyQueueSlots (slots : list T) : exec bool :=
  match slots with
  | [] => Done true
  | v :: slots => RTC_DCHECK (queue_item_verifier_ v) (VerifyQueueSlots slots)
  end.

(** The constructors fill the queue with copies of a value: a given prototype or [T()]. *)
Definition SwapQueue_new (size : nat) (prototype : T) : exec SwapQueue :=
  let q := mkSwapQueue 0 0 0 (repeat prototype size) in
  RTC_DCHECK_eval (VerifyQueueSlots (queue_ q)) (Done q).

(** ** Accesses of the producer *)

(** The load of [num_elements_] and the comparison. *)
Definition is_full (q : SwapQueue) : bool := num_elements_ q =? queue_size q.

(** The swap of the argument with [queue_[next_write_index_]]. *)
Definition swap_write (input : T) (q : SwapQueue) : exec (T * SwapQueue) :=
  e ← defined (queue_ q !! Z.to_nat (next_write_index_ q));
  Done (e, mkSwapQueue (next_write_index_ q) (next_read_index_ q) (num_elements_ q)
             (<[Z.to_nat (next_write_index_ q) := input]> (queue_ q))).

(** [std::atomic_fetch_add_explicit]. *)
Definition fetch_add (q : SwapQueue) : Z * SwapQueue :=
  (num_elements_ q,
   mkSwapQueue (next_write_index_ q) (next_read_index_ q)
     (static_cast size_t (num_elements_ q + 1)) (queue_ q)).

(** [next_write_index_] is only the producer's. *)
Definition advance_write (old_num_elements : Z) (q : SwapQueue) : exec SwapQueue :=
  let i := static_cast size_t (next_write_index_ q + 1) in
  let i := if i =? queue_size q then 0 else i in
  RTC_DCHECK (i <? queue_size q)
    (RTC_DCHECK (old_num_elements <? queue_size q)
       (Done (mkSwapQueue i (next_read_index_ q) (num_elements_ q) (queue_ q)))).

(** [Insert]: the result and what is left in [*input]. *)
Definition Insert (input : T) (q : SwapQueue) : exec (bool * T * SwapQueue) :=
  RTC_DCHECK (queue_item_verifier_ input)
    (if is_full q then Done (false, input, q)
     else
       r ← swap_write input q;
       let '(input, q) := r in
       let '(old_num_elements, q) := fetch_add q in
       q ← advance_write old_num_elements q;
       Done (true, input, q)).

(** ** Accesses of the consumer *)

Definition is_empty (q : SwapQueue) : bool := num_elements_ q =? 0.

(** The swap of the argument with [queue_[next_read_index_]]. *)
Definition swap_read (output : T) (q : SwapQueue) : exec (T * SwapQueue) :=
  e ← defined (queue_ q !! Z.to_nat (next_read_index_ q));
  Done (e, mkSwapQueue (next_write_index_ q) (next_read_index_ q) (num_elements_ q)
             (<[Z.to_nat (next_read_index_ q) := output]> (queue_ q))).

(** [std::atomic_fetch_sub_explicit]. *)
Definition fetch_sub (q : SwapQueue) : SwapQueue :=
  mkSwapQueue (next_write_index_ q) (next_read_index_ q)
    (static_cast size_t (num_elements_ q - 1)) (queue_ q).

Definition advance_read (q : SwapQueue) : exec SwapQueue :=
  let i := static_cast size_t (next_read_index_ q + 1) in
  let i := if i =? queue_size q then 0 else i in
  RTC_DCHECK (i <? queue_size q)
    (Done (mkSwapQueue (next_write_index_ q) i (num_elements_ q) (queue_ q))).

(** [Remove]: the result and what is left in [*output]. *)
Definition Remove (output : T) (q : SwapQueue) : exec (bool * T * SwapQueue) :=
  RTC_DCHECK (queue_item_verifier_ output)
    (if is_empty q then Done (false, output, q)
     else
       r ← swap_read output q;
       let '(output, q) := r in
       q ← advance_read (fetch_sub q);
       Done (true, output, q)).

(** [std::atomic_exchange_explicit(&num_elements_, 0)]. *)
Definition exchange_zero (q : SwapQueue) : Z * SwapQueue :=
  (num_elements_ q, mkSwapQueue (next_write_index_ q) (next_read_index_ q) 0 (queue_ q)).

Definition skip_read (dropped : Z) (q : SwapQueue) : exec SwapQueue :=
  let i := static_cast size_t (next_read_index_ q + dropped) in
  let i := if queue_size q <=? i then static_cast size_t (i - queue_size q) else i in
  RTC_DCHECK (i <? queue_size q)
    (Done (mkSwapQueue (next_write_index_ q) i (num_elements_ q) (queue_ q))).

Definition Clear (q : SwapQueue) : exec SwapQueue :=
  let '(dropped, q) := exchange_zero q in skip_read dropped q.

Definition SizeAtLeast (q : SwapQueue) : Z := num_elements_ q.

(** ** The two threads *)

(** Where the producer is in [Insert]: [pushed] is the argument of the call and
    [input] what [*input] holds. *)
Inductive producer_phase :=
  | P_Idle
  | P_Loaded (pushed : T)
  | P_Swapped (pushed input : T)
  | P_Counted (input : T) (old_num_elements : Z).

(** Where the consumer is in [Remove] or [Clear]. *)
Inductive consumer_phase :=
  | C_Idle
  | C_Loaded (output : T)
  | C_Swapped (output : T)
  | C_Counted (output : T)
  | C_Cleared (dropped : Z).

Inductive consumer_call := Call_Remove (output : T) | Call_Clear.

(** What an operation does to the queue, logged when its access to
    [num_elements_] decides it. *)
Inductive event :=
  | Inserted (v : T)
  | InsertFull (v : T)
  | Removed (v : T)
  | RemoveEmpty
  | Cleared.

Record state := mkState {
  shared : SwapQueue;
  producer : producer_phase;
  consumer : consumer_phase;
  to_insert : list T;                  (* the arguments of the calls of Insert to come *)
  to_consume : list consumer_call;
  insert_results : list (bool * T);    (* what Insert returned and left in its argument *)
  remove_results : list (bool * T);
  log : list event
}.

Definition producer_step (s : state) : exec state :=
  let q := shared s in
  match producer s with
  | P_Idle =>
      match to_insert s with
      | [] => Done s
      | v :: vs =>
          RTC_DCHECK (queue_item_verifier_ v)
            (Done (if is_full q
                   then mkState q P_Idle (consumer s) vs (to_consume s)
                          (insert_results s ++ [(false, v)]) (remove_results s) (log s ++ [InsertFull v])
                   else mkState q (P_Loaded v) (consumer s) vs (to_consume s)
                          (insert_results s) (remove_results s) (log s)))
      end
  | P_Loaded v =>
      r ← swap_write v q;
      Done (mkState r.2 (P_Swapped v r.1) (consumer s) (to_insert s) (to_consume s)
              (insert_results s) (remove_results s) (log s))
  | P_Swapped v input =>
      let '(old, q) := fetch_add q in
      Done (mkState q (P_Counted input old) (consumer s) (to_insert s) (to_consume s)
              (insert_results s) (remove_results s) (log s ++ [Inserted v]))
  | P_Counted input old =>
      q ← advance_write old q;
      Done (mkState q P_Idle (consumer s) (to_insert s) (to_consume s)
              (insert_results s ++ [(true, input)]) (remove_results s) (log s))
  end.

Definition consumer_step (s : state) : exec state :=
  let q := shared s in
  match consumer s with
  | C_Idle =>
      match to_consume s with
      | [] => Done s
      | Call_Remove o :: cs =>
          RTC_DCHECK (queue_item_verifier_ o)
            (Done (if is_empty q
                   then mkState q (producer s) C_Idle (to_insert s) cs
                          (insert_results s) (remove_results s ++ [(false, o)]) (log s ++ [RemoveEmpty])
                   else mkState q (producer s) (C_Loaded o) (to_insert s) cs
                          (insert_results s) (remove_results s) (log s)))
      | Call_Clear :: cs =>
          let '(dropped, q) := exchange_zero q in
          Done (mkState q (producer s) (C_Cleared dropped) (to_insert s) cs
                  (insert_results s) (remove_results s) (log s ++ [Cleared]))
      end
  | C_Loaded o =>
      r ← swap_read o q;
      Done (mkState r.2 (producer s) (C_Swapped r.1) (to_insert s) (to_consume s)
              (insert_results s) (remove_results s) (log s))
  | C_Swapped o =>
      Done (mkState (fetch_sub q) (producer s) (C_Counted o) (to_insert s) (to_consume s)
              (insert_results s) (remove_results s) (log s ++ [Removed o]))
  | C_Counted o =>
      q ← advance_read q;
      Done (mkState q (producer s) C_Idle (to_insert s) (to_consume s)
              (insert_results s) (remove_results s ++ [(true, o)]) (log s))
  | C_Cleared dropped =>
      q ← skip_read dropped q;
      Done (mkState q (producer s) C_Idle (to_insert s) (to_consume s)
              (insert_results s) (remove_results s) (log s))
  end.

(** A schedule says who moves: [true] for the producer. *)
Fixpoint run (schedule : list bool) (s : state) : exec state :=
  match schedule with
  | [] => Done s
  | b :: schedule => s' ← (if (b : bool) then producer_step s else consumer_step s); run schedule s'
  end.

(** A new queue with the calls its two threads are going to make. *)
Definition start (q : SwapQueue) (inserts : list T) (consumes : list consumer_call) : state :=
  mkState q P_Idle C_Idle inserts consumes [] [] [].

End Model.

(** ** The specification: a bounded queue *)

Section Spec.
Context {T : Type}.

(** The contents a sequence of operations leads to from the empty queue, if it is a
    possible one: an insertion succeeds exactly when there is room, a removal returns
    the front of the queue. *)
Inductive spec_run (capacity : Z) : list (@event T) -> list T -> Prop :=
  | spec_start : spec_run capacity [] []
  | spec_insert es q v : spec_run capacity es q -> Z.of_nat (length q) < capacity ->
      spec_run capacity (es ++ [Inserted v]) (q ++ [v])
  | spec_insert_full es q v : spec_run capacity es q -> Z.of_nat (length q) = capacity ->
      spec_run capacity (es ++ [InsertFull v]) q
  | spec_remove es q v : spec_run capacity es (v :: q) -> spec_run capacity (es ++ [Removed v]) q
  | spec_remove_empty es : spec_run capacity es [] -> spec_run capacity (es ++ [RemoveEmpty]) []
  | spec_clear es q : spec_run capacity es q -> spec_run capacity (es ++ [Cleared]) [].

(** What a log says of the calls: the insertions with their results, and what the
    consumer called and got. *)
Definition insertions (es : list (@event T)) : list (T * bool) :=
  omap (fun e => match e with Inserted v => Some (v, true) | InsertFull v => Some (v, false) | _ => None end) es.
Definition removals (es : list (@event T)) : list (option T) :=
  omap (fun e => match e with Removed v => Some (Some v) | RemoveEmpty => Some None | _ => None end) es.
Definition consumptions (es : list (@event T)) : list bool :=
  omap (fun e => match e with Removed _ | RemoveEmpty => Some true | Cleared => Some false | _ => None end) es.

Definition is_remove (c : @consumer_call T) : bool :=
  match c with Call_Remove _ => true | Call_Clear => false end.
Definition consumer_object (c : @consumer_call T) : list T :=
  match c with Call_Remove o => [o] | Call_Clear => [] end.

(** The calls in progress: decided ones whose result is outstanding, and the others. *)
Definition insert_pending (p : @producer_phase T) : list T :=
  match p with P_Loaded v | P_Swapped v _ => [v] | _ => [] end.
Definition insert_decided (p : @producer_phase T) : list bool :=
  match p with P_Counted _ _ => [true] | _ => [] end.
Definition remove_pending (c : @consumer_phase T) : list bool :=
  match c with C_Loaded _ | C_Swapped _ => [true] | _ => [] end.
Definition remove_decided (c : @consumer_phase T) : list (option T) :=
  match c with C_Counted o => [Some o] | _ => [] end.

(** The result of [Remove] as an option. *)
Definition remove_result (r : bool * T) : option T := if r.1 then Some r.2 else None.

(** The log belongs to the calls: their arguments in order, and their results. *)
Record log_of_calls (inserts : list T) (consumes : list consumer_call) (s : @state T) : Prop := {
  log_inserts : (insertions (log s)).*1 ++ insert_pending (producer s) ++ to_insert s = inserts;
  log_insert_results :
    (insertions (log s)).*2 = (insert_results s).*1 ++ insert_decided (producer s);
  log_consumes : consumptions (log s) ++ remove_pending (consumer s) ++ map is_remove (to_consume s) =
    map is_remove consumes;
  log_remove_results :
    removals (log s) = map remove_result (remove_results s) ++ remove_decided (consumer s)
}.

(** All the objects there are: in slots, in the hands of the threads, to be passed
    and returned. *)
Definition objects (s : @state T) : list T :=
  queue_ (shared s) ++
  (match producer s with P_Idle => [] | P_Loaded v => [v] | P_Swapped _ i | P_Counted i _ => [i] end) ++
  (match consumer s with C_Idle | C_Cleared _ => [] | C_Loaded o | C_Swapped o | C_Counted o => [o] end) ++
  to_insert s ++ concat (map consumer_object (to_consume s)) ++
  (insert_results s).*2 ++ (remove_results s).*2.

End Spec.

(** ** The invariant *)

Section Invariant.
Context {T : Type} {build : Build} (size_t : int_type) (verifier : T -> bool).
Context (n : Z) (Hn : 0 < n) (Hunsigned : is_signed size_t = false) (Hfits : 2 * n <= max size_t).

(** An index below [2 n] brought below [n]. *)
Definition wrap (i : Z) : Z := if i <? n then i else i - n.

(** The indices once the calls that are already decided have returned. *)
Definition write_index (p : @producer_phase T) (q : @SwapQueue T) : Z :=
  match p with
  | P_Counted _ _ => wrap (next_write_index_ q + 1)
  | _ => next_write_index_ q
  end.
Definition read_index (c : @consumer_phase T) (q : @SwapQueue T) : Z :=
  match c with
  | C_Counted _ => wrap (next_read_index_ q + 1)
  | C_Cleared dropped => wrap (next_read_index_ q + dropped)
  | _ => next_read_index_ q
  end.

(** Where the [i]-th element of the queue is: the front may be in the consumer's hands. *)
Definition element (c : @consumer_phase T) (q : @SwapQueue T) (i : Z) : option T :=
  let slot := queue_ q !! Z.to_nat (wrap (read_index c q + i)) in
  match c with
  | C_Swapped o => if i =? 0 then Some o else slot
  | _ => slot
  end.

Record Inv (s : @state T) (items : list T) : Prop := {
  inv_size : queue_size (shared s) = n;
  inv_write : 0 <= next_write_index_ (shared s) < n;
  inv_read : 0 <= next_read_index_ (shared s) < n;
  inv_num : num_elements_ (shared s) = Z.of_nat (length items);
  inv_room : Z.of_nat (length items) <= n;
  inv_indices : write_index (producer s) (shared s) = wrap (read_index (consumer s) (shared s) + Z.of_nat (length items));
  inv_items i v : items !! i = Some v -> element (consumer s) (shared s) (Z.of_nat i) = Some v;
  inv_producer :
    match producer s with
    | P_Idle => True
    | P_Loaded _ => num_elements_ (shared s) < n
    | P_Swapped v _ => num_elements_ (shared s) < n /\
        queue_ (shared s) !! Z.to_nat (next_write_index_ (shared s)) = Some v
    | P_Counted _ old => old < n
    end;
  inv_consumer :
    match consumer s with
    | C_Loaded _ | C_Swapped _ => 1 <= num_elements_ (shared s)
    | C_Cleared dropped => 0 <= dropped <= n
    | _ => True
    end;
  inv_verified : Forall (fun v => verifier v = true) (to_insert s ++ concat (map consumer_object (to_consume s)));
  inv_spec : spec_run n (log s) items
}.

Ltac wrap_lia := unfold wrap in *;
  repeat match goal with
  | |- context [?a <? ?b] => destruct (Z.ltb_spec a b)
  | H : context [?a <? ?b] |- _ => destruct (Z.ltb_spec a b)
  end; lia.

Lemma size_t_id z : 0 <= z <= 2 * n -> static_cast size_t z = z.
Proof. intros Hz. apply static_cast_id. revert Hz Hfits. destruct size_t; try discriminate; limits; lia. Qed.

Lemma wrap_range i : 0 <= i < 2 * n -> 0 <= wrap i < n.
Proof. wrap_lia. Qed.

Lemma wrap_next i : 0 <= i < n -> (if i + 1 =? n then 0 else i + 1) = wrap (i + 1).
Proof. intros Hi. destruct (Z.eqb_spec (i + 1) n); wrap_lia. Qed.

(** Different positions of a queue that fits are in different slots. *)
Lemma wrap_inj r i j : 0 <= r < n -> 0 <= i < j -> j < n -> wrap (r + i) <> wrap (r + j).
Proof. wrap_lia. Qed.

Lemma wrap_succ r i : 0 <= r < n -> 0 <= i < n -> wrap (wrap (r + 1) + i) = wrap (r + (i + 1)).
Proof. wrap_lia. Qed.

Lemma slot_lookup (q : @SwapQueue T) i : queue_size q = n -> 0 <= i < n -> is_Some (queue_ q !! Z.to_nat i).
Proof. unfold queue_size. intros Hs Hi. apply lookup_lt_is_Some. lia. Qed.

(** The accesses, on indices in range. *)
Lemma advance_write_Done (q : @SwapQueue T) old :
  queue_size q = n -> 0 <= next_write_index_ q < n -> old < n ->
  advance_write size_t old q =
    Done (mkSwapQueue (wrap (next_write_index_ q + 1)) (next_read_index_ q) (num_elements_ q) (queue_ q)).
Proof.
  intros Hs Hw Ho. unfold advance_write. rewrite size_t_id, Hs, wrap_next by lia.
  rewrite !RTC_DCHECK_true; [done|by apply Z.ltb_lt|]. apply Z.ltb_lt, wrap_range. lia.
Qed.

Lemma advance_read_Done (q : @SwapQueue T) :
  queue_size q = n -> 0 <= next_read_index_ q < n ->
  advance_read size_t q =
    Done (mkSwapQueue (next_write_index_ q) (wrap (next_read_index_ q + 1)) (num_elements_ q) (queue_ q)).
Proof.
  intros Hs Hr. unfold advance_read. rewrite size_t_id, Hs, wrap_next by lia.
  rewrite RTC_DCHECK_true; [done|]. apply Z.ltb_lt, wrap_range. lia.
Qed.

Lemma skip_read_Done (q : @SwapQueue T) dropped :
  queue_size q = n -> 0 <= next_read_index_ q < n -> 0 <= dropped <= n ->
  skip_read size_t dropped q =
    Done (mkSwapQueue (next_write_index_ q) (wrap (next_read_index_ q + dropped)) (num_elements_ q) (queue_ q)).
Proof.
  intros Hs Hr Hd. unfold skip_read. rewrite (size_t_id (_ + dropped)), Hs by lia.
  replace (if n <=? next_read_index_ q + dropped then _ else _) with (wrap (next_read_index_ q + dropped)).
  - rewrite RTC_DCHECK_true; [done|]. apply Z.ltb_lt, wrap_range. lia.
  - destruct (Z.leb_spec n (next_read_index_ q + dropped)); [rewrite size_t_id by lia|]; wrap_lia.
Qed.

Lemma read_index_range s items : Inv s items -> 0 <= read_index (consumer s) (shared s) < n.
Proof.
  intros [Hsz Hw Hr _ _ _ _ _ Hc _ _]. unfold read_index.
  destruct (consumer s); try done; apply wrap_range; lia.
Qed.

(** Writing a slot that holds no element of the queue keeps the elements. *)
Lemma element_insert (q : list T) r i j v :
  0 <= r < n -> 0 <= i < j -> j < n ->
  <[Z.to_nat (wrap (r + j)) := v]> q !! Z.to_nat (wrap (r + i)) = q !! Z.to_nat (wrap (r + i)).
Proof.
  intros Hr Hi Hj. apply list_lookup_insert_ne.
  pose proof (wrap_inj r i j Hr Hi Hj). pose proof (wrap_range (r + i)). pose proof (wrap_range (r + j)). lia.
Qed.

(** ** Preservation *)

Ltac fields := cbn [shared producer consumer to_insert to_consume insert_results remove_results log
  next_write_index_ next_read_index_ num_elements_ queue_] in *.

(** The read index only depends on [next_read_index_]. *)
Ltac same_read c q :=
  repeat match goal with
  | |- context [read_index c ?q'] => progress change (read_index c q') with (read_index c q)
  end.

Lemma full_spec s items : Inv s items -> is_full (shared s) = (Z.of_nat (length items) =? n).
Proof. intros [Hsz _ _ Hnum _ _ _ _ _ _ _]. unfold is_full. by rewrite Hnum, Hsz. Qed.

Lemma producer_step_inv s items : Inv s items ->
  exists s' items', producer_step size_t verifier s = Done s' /\ Inv s' items'.
Proof.
  intros HI. pose proof (read_index_range s items HI) as Hri. pose proof (full_spec s items HI) as Hfull.
  destruct HI as [Hsz Hw Hr Hnum Hroom Hix Hit Hp Hc Hv Hs].
  destruct s as [q p c vs cs ir rr es]. unfold producer_step. fields.
  destruct p as [|v|v e|e old]; cbn [write_index] in *; fields.
  - destruct vs as [|v vs]; [exists (mkState q P_Idle c [] cs ir rr es), items; by split|].
    cbn [app] in Hv. apply Forall_cons_1 in Hv as [Hv Hvs]. rewrite RTC_DCHECK_true by done.
    rewrite Hfull. destruct (Z.eqb_spec (Z.of_nat (length items)) n) as [Hf|Hf];
      eexists _, items; (split; [reflexivity|]); constructor; fields; try done.
    + by constructor.
    + lia.
  - destruct (slot_lookup q (next_write_index_ q) Hsz Hw) as [e He]. unfold swap_write. rewrite He.
    cbn [defined mbind exec_bind fst snd]. eexists _, items. split; [reflexivity|].
    constructor; fields; try done.
    + unfold queue_size in *. fields. by rewrite length_insert.
    + intros i x Hi. rewrite <- (Hit i x Hi). apply lookup_lt_Some in Hi. rewrite Hix.
      unfold element. same_read c q. fields.
      rewrite element_insert by lia. done.
    + split; [done|]. apply list_lookup_insert_eq. unfold queue_size in Hsz. lia.
  - destruct Hp as [Hlt Hq]. unfold fetch_add.
    eexists _, (items ++ [v]). split; [reflexivity|].
    assert (Z.of_nat (length (items ++ [v])) = Z.of_nat (length items) + 1) as Hlen
      by (rewrite length_app; cbn; lia).
    constructor; fields; try done.
    + rewrite size_t_id by lia. lia.
    + lia.
    + cbn [write_index]. fields. rewrite Hlen.
      same_read c q. rewrite Hix. wrap_lia.
    + intros i x [Hi|[Hi Hx]]%lookup_app_Some; [by apply Hit|].
      apply list_lookup_singleton_Some in Hx as [Hi' <-].
      assert (i = length items) as -> by lia. unfold element.
      same_read c q. rewrite <- Hix. fields. destruct c; try done. destruct (Z.eqb_spec (Z.of_nat (length items)) 0); [lia|done].
    + rewrite size_t_id by lia. destruct c; try done; lia.
    + constructor; [done|lia].
  - rewrite advance_write_Done by done. cbn [mbind exec_bind].
    eexists _, items. split; [reflexivity|].
    constructor; fields; try done. apply wrap_range. lia.
Qed.

Lemma empty_spec s items : Inv s items -> is_empty (shared s) = bool_decide (items = []).
Proof.
  intros [_ _ _ Hnum _ _ _ _ _ _ _]. unfold is_empty. rewrite Hnum. by destruct items.
Qed.

Lemma consumer_step_inv s items : Inv s items ->
  exists s' items', consumer_step size_t verifier s = Done s' /\ Inv s' items'.
Proof.
  intros HI. pose proof (read_index_range s items HI) as Hri. pose proof (empty_spec s items HI) as Hempty.
  destruct HI as [Hsz Hw Hr Hnum Hroom Hix Hit Hp Hc Hv Hs].
  destruct s as [q p c vs cs ir rr es]. unfold consumer_step. fields.
  destruct c as [|o|o|o|dropped]; cbn [read_index element] in *; fields.
  - destruct cs as [|[o|] cs]; [exists (mkState q p C_Idle vs [] ir rr es), items; by split|..].
    + apply Forall_app in Hv as [Hvs [Ho Hcs]%Forall_cons_1]. rewrite RTC_DCHECK_true by done.
      assert (Forall (fun v => verifier v = true) (vs ++ concat (map consumer_object cs))) as Hv
        by (apply Forall_app_2; done).
      rewrite Hempty. destruct items as [|x items]; eexists _, _; (split; [reflexivity|]).
      * constructor; fields; try done. by constructor.
      * constructor; fields; try done. cbn in *. lia.
    + unfold exchange_zero. eexists _, []. split; [reflexivity|].
      constructor; fields; try done; cbn [length]; try lia.
      * replace (write_index p _) with (write_index p q) by (by destruct p).
        rewrite Hix. cbn [read_index]. fields. rewrite Hnum. wrap_lia.
      * destruct p; [done|lia| |done]. split; [lia|apply Hp].
      * by eapply spec_clear.
  - destruct items as [|x items]; [cbn in *; lia|].
    unfold swap_read. pose proof (Hit 0%nat x eq_refl) as H0. rewrite Z.add_0_r in H0.
    replace (wrap (next_read_index_ q)) with (next_read_index_ q) in H0 by wrap_lia.
    rewrite H0. cbn [defined mbind exec_bind fst snd]. eexists _, (x :: items). split; [reflexivity|].
    constructor; fields; try done.
    + unfold queue_size in *. fields. by rewrite length_insert.
    + intros i y Hi. rewrite <- (Hit i y Hi). apply lookup_lt_Some in Hi. cbn [element]. fields.
      destruct (Z.eqb_spec (Z.of_nat i) 0) as [->|Hne].
      { rewrite Z.add_0_r. by replace (wrap (next_read_index_ q)) with (next_read_index_ q) by wrap_lia. }
      apply list_lookup_insert_ne. cbn [read_index]. fields. wrap_lia.
    + destruct p; try done. split; [apply Hp|]. rewrite list_lookup_insert_ne; [apply Hp|].
      destruct Hp as [Hlt _]. cbn [write_index] in Hix. rewrite Hix. wrap_lia.
  - destruct items as [|x items]; [cbn in *; lia|]. cbn [length] in *.
    pose proof (Hit 0%nat x eq_refl) as H0. injection H0 as ->.
    unfold fetch_sub. eexists _, items. split; [reflexivity|].
    constructor; fields; try done; cbn [read_index]; fields; try lia.
    + rewrite size_t_id; lia.
    + replace (write_index p _) with (write_index p q) by (by destruct p). rewrite Hix. wrap_lia.
    + intros i y Hi. rewrite <- (Hit (S i) y Hi). apply lookup_lt_Some in Hi.
      cbn [element read_index]. fields. rewrite (proj2 (Z.eqb_neq _ _)) by lia.
      f_equal. f_equal. wrap_lia.
    + rewrite size_t_id by lia. destruct p; [done|lia| |done]. split; [lia|apply Hp].
    + by constructor.
  - rewrite advance_read_Done by done. cbn [mbind exec_bind]. eexists _, items. split; [reflexivity|].
    constructor; fields; try done.
  - rewrite skip_read_Done by done. cbn [mbind exec_bind]. eexists _, items. split; [reflexivity|].
    constructor; fields; try done.
Qed.

Lemma threads_inv schedule s items : Inv s items ->
  exists s' items', run size_t verifier schedule s = Done s' /\ Inv s' items'.
Proof.
  revert s items. induction schedule as [|b schedule IH]; intros s items HI; [by exists s, items|]. cbn [run].
  assert (exists s' items', (if b then producer_step size_t verifier s else consumer_step size_t verifier s) =
    Done s' /\ Inv s' items') as (s' & items' & -> & HI')
    by (destruct b; [by eapply producer_step_inv|by eapply consumer_step_inv]).
  by eapply IH.
Qed.

(** ** The calls and their log *)

Definition step (b : bool) (s : @state T) : exec state :=
  if b then producer_step size_t verifier s else consumer_step size_t verifier s.

Lemma RTC_DCHECK_Done {A} c (k : exec A) x : RTC_DCHECK c k = Done x -> k = Done x.
Proof. unfold RTC_DCHECK. by destruct (_ && _). Qed.

Lemma bind_Done {A B} (m : exec A) (f : A -> exec B) y :
  (m ≫= f) = Done y -> exists x, m = Done x /\ f x = Done y.
Proof. destruct m as [a| |]; try discriminate. by exists a. Qed.

Lemma defined_Done {A} (o : option A) x : defined o = Done x -> o = Some x.
Proof. destruct o; [|discriminate]. by intros [= ->]. Qed.

(** The accesses of a returning call do not touch the slots. *)
Lemma advance_write_queue old (q q' : @SwapQueue T) : advance_write size_t old q = Done q' -> queue_ q' = queue_ q.
Proof. unfold advance_write. intros [= <-]%RTC_DCHECK_Done%RTC_DCHECK_Done. done. Qed.
Lemma advance_read_queue (q q' : @SwapQueue T) : advance_read size_t q = Done q' -> queue_ q' = queue_ q.
Proof. unfold advance_read. intros [= <-]%RTC_DCHECK_Done. done. Qed.
Lemma skip_read_queue d (q q' : @SwapQueue T) : skip_read size_t d q = Done q' -> queue_ q' = queue_ q.
Proof. unfold skip_read. intros [= <-]%RTC_DCHECK_Done. done. Qed.

Ltac unlog := unfold insertions, removals, consumptions in *; rewrite ?omap_app, ?fmap_app, ?map_app in *;
  cbn [omap list_omap fmap list_fmap map fst snd app insert_pending insert_decided remove_pending
    remove_decided is_remove remove_result] in *.

Ltac step_cases s :=
  destruct s as [q p c vs cs ir rr es]; unfold producer_step, consumer_step; fields.

Lemma step_log inserts consumes b s s' :
  log_of_calls inserts consumes s -> step b s = Done s' -> log_of_calls inserts consumes s'.
Proof.
  intros [H1 H2 H3 H4]. unfold step. destruct b; step_cases s.
  - destruct p as [|v|v e|e old]; [destruct vs as [|v vs0]|..].
    + intros [= <-]. by constructor.
    + intros [= <-]%RTC_DCHECK_Done. destruct (is_full q); constructor; fields; unlog; try done.
      all: rewrite ?app_nil_r in *; try done.
      * by rewrite <- app_assoc.
      * by rewrite H2.
    + intros (r & _ & [= <-])%bind_Done. by constructor.
    + intros [= <-]. constructor; fields; unlog; try done; rewrite ?app_nil_r in *; try done.
      * rewrite <- app_assoc. done.
      * by rewrite H2.
    + intros (r & _ & [= <-])%bind_Done. constructor; fields; unlog; try done.
      by rewrite app_nil_r.
  - destruct c as [|o|o|o|d]; [destruct cs as [|[o|] cs0]|..].
    + intros [= <-]. by constructor.
    + intros [= <-]%RTC_DCHECK_Done. destruct (is_empty q); constructor; fields; unlog; try done.
      all: rewrite ?app_nil_r in *; try done.
      * by rewrite <- app_assoc.
      * by rewrite H4.
    + intros [= <-]. constructor; fields; unlog; rewrite ?app_nil_r in *; try done.
      by rewrite <- app_assoc.
    + intros (r & _ & [= <-])%bind_Done. by constructor.
    + intros [= <-]. constructor; fields; unlog; rewrite ?app_nil_r in *; try done.
      * by rewrite <- app_assoc.
      * by rewrite H4.
    + intros (r & _ & [= <-])%bind_Done. constructor; fields; unlog; try done.
      by rewrite app_nil_r.
    + intros (r & _ & [= <-])%bind_Done. constructor; fields; unlog; done.
Qed.

(** ** The objects *)

#[local] Instance permutation_lift {A} : AAC_lift (@Permutation A) (@Permutation A) :=
  Build_AAC_lift (Permutation_Equivalence A) _.

(** Swapping an object with a slot keeps the objects. *)
Lemma swap_objects (l A B : list T) i e v : l !! i = Some e ->
  <[i := v]> l ++ A ++ [e] ++ B ≡ₚ l ++ A ++ [v] ++ B.
Proof.
  intros He. rewrite <- (take_drop_middle l i e He) at 2.
  rewrite insert_take_drop by (by apply lookup_lt_Some in He).
  change (v :: drop (S i) l) with ([v] ++ drop (S i) l). change (e :: drop (S i) l) with ([e] ++ drop (S i) l).
  aac_reflexivity.
Qed.

Lemma step_objects b s s' : step b s = Done s' -> objects s' ≡ₚ objects s.
Proof.
  unfold step, objects. destruct b; step_cases s.
  - destruct p as [|v|v e|e old]; [destruct vs as [|v vs]|..].
    + by intros [= <-].
    + intros [= <-]%RTC_DCHECK_Done. change (v :: vs) with ([v] ++ vs).
      destruct (is_full q); fields; rewrite ?fmap_app; cbn [fmap list_fmap snd]; aac_reflexivity.
    + intros (r & (e & He%defined_Done & [= <-])%bind_Done & [= <-])%bind_Done. fields. cbn [fst snd].
      fields. by apply (swap_objects _ []).
    + by intros [= <-].
    + intros (r & Hq%advance_write_queue & [= <-])%bind_Done. fields. rewrite Hq, ?fmap_app.
      cbn [fmap list_fmap snd]. aac_reflexivity.
  - destruct c as [|o|o|o|d]; [destruct cs as [|[o|] cs]|..].
    + by intros [= <-].
    + intros [= <-]%RTC_DCHECK_Done. destruct (is_empty q); fields; rewrite ?fmap_app;
        cbn [fmap list_fmap snd map concat consumer_object]; aac_reflexivity.
    + by intros [= <-].
    + intros (r & (e & He%defined_Done & [= <-])%bind_Done & [= <-])%bind_Done. fields. cbn [fst snd].
      fields. by apply swap_objects.
    + by intros [= <-].
    + intros (r & Hq%advance_read_queue & [= <-])%bind_Done. fields. rewrite Hq, ?fmap_app.
      cbn [fmap list_fmap snd]. aac_reflexivity.
    + intros (r & Hq%skip_read_queue & [= <-])%bind_Done. fields. by rewrite Hq.
Qed.

Lemma run_log inserts consumes schedule s s' :
  log_of_calls inserts consumes s -> run size_t verifier schedule s = Done s' ->
  log_of_calls inserts consumes s'.
Proof.
  revert s. induction schedule as [|b schedule IH]; intros s Hl; cbn [run]; [by intros [= <-]|].
  intros (s1 & Hs1 & Hr)%bind_Done. exact (IH s1 (step_log _ _ b _ _ Hl Hs1) Hr).
Qed.

Lemma run_objects schedule s s' : run size_t verifier schedule s = Done s' -> objects s' ≡ₚ objects s.
Proof.
  revert s. induction schedule as [|b schedule IH]; intros s; cbn [run]; [by intros [= <-]|].
  intros (s1 & Hs1 & Hr)%bind_Done. rewrite (IH s1 Hr). exact (step_objects b _ _ Hs1).
Qed.

(** ** Termination *)

(** The steps a thread has left. *)
Definition producer_left (s : @state T) : nat :=
  4 * length (to_insert s) +
  match producer s with P_Idle => 0 | P_Loaded _ => 3 | P_Swapped _ _ => 2 | P_Counted _ _ => 1 end.
Definition consumer_left (s : @state T) : nat :=
  4 * length (to_consume s) +
  match consumer s with C_Idle => 0 | C_Loaded _ => 3 | C_Swapped _ => 2 | C_Counted _ | C_Cleared _ => 1 end.

Lemma step_left b s s' : step b s = Done s' ->
  (producer_left s' <= producer_left s - (if b then 1 else 0))%nat /\
  (consumer_left s' <= consumer_left s - (if b then 0 else 1))%nat.
Proof.
  unfold step, producer_left, consumer_left. destruct b; step_cases s.
  - destruct p as [|v|v e|e old]; [destruct vs as [|v vs]|..].
    + intros [= <-]. fields. cbn [length]. lia.
    + intros [= <-]%RTC_DCHECK_Done. destruct (is_full q); fields; cbn [length]; lia.
    + intros (r & _ & [= <-])%bind_Done. fields. lia.
    + intros [= <-]. fields. cbn [length]. lia.
    + intros (r & _ & [= <-])%bind_Done. fields. lia.
  - destruct c as [|o|o|o|d]; [destruct cs as [|[o|] cs]|..].
    + intros [= <-]. fields. cbn [length]. lia.
    + intros [= <-]%RTC_DCHECK_Done. destruct (is_empty q); fields; cbn [length]; lia.
    + intros [= <-]. fields. cbn [length]. lia.
    + intros (r & _ & [= <-])%bind_Done. fields. lia.
    + intros [= <-]. fields. cbn [length]. lia.
    + intros (r & _ & [= <-])%bind_Done. fields. lia.
    + intros (r & _ & [= <-])%bind_Done. fields. lia.
Qed.

(** The number of steps a schedule gives to a thread. *)
Definition steps_of (b : bool) (schedule : list bool) : nat :=
  length (List.filter (Bool.eqb b) schedule).

Lemma run_left schedule s s' : run size_t verifier schedule s = Done s' ->
  (producer_left s' <= producer_left s - steps_of true schedule)%nat /\
  (consumer_left s' <= consumer_left s - steps_of false schedule)%nat.
Proof.
  revert s. induction schedule as [|b schedule IH]; intros s; cbn [run]; [intros [= <-]; unfold steps_of; cbn; lia|].
  intros (s1 & Hs1 & Hr)%bind_Done. specialize (IH s1 Hr). pose proof (step_left b s s1 Hs1) as Hl.
  unfold steps_of in *. destruct b; cbn [List.filter Bool.eqb length] in *; lia.
Qed.

(** ** The start *)

Lemma VerifyQueueSlots_Done slots :
  Forall (fun v => verifier v = true) slots -> VerifyQueueSlots verifier slots = Done true.
Proof. induction 1 as [|v slots Hv _ IH]; [done|]. cbn. by rewrite RTC_DCHECK_true. Qed.

Lemma SwapQueue_new_Done size prototype : verifier prototype = true ->
  SwapQueue_new verifier size prototype = Done (mkSwapQueue 0 0 0 (repeat prototype size)).
Proof.
  intros Hv. unfold SwapQueue_new, RTC_DCHECK_eval. cbn [queue_].
  rewrite VerifyQueueSlots_Done; [by destruct rtc_dcheck_is_on|].
  induction size; by constructor.
Qed.

Lemma start_inv prototype inserts consumes :
  Forall (fun v => verifier v = true) (inserts ++ concat (map consumer_object consumes)) ->
  Inv (start (mkSwapQueue 0 0 0 (repeat prototype (Z.to_nat n))) inserts consumes) [].
Proof.
  intros Hv. constructor; unfold start; fields; cbn [write_index read_index length]; fields; try done; try lia.
  - unfold queue_size. fields. rewrite repeat_length. lia.
  - wrap_lia.
  - constructor.
Qed.

Lemma start_log (q : @SwapQueue T) inserts consumes : log_of_calls inserts consumes (start q inserts consumes).
Proof. by constructor. Qed.

(** What any run of the two threads of a new queue leads to. *)
Lemma run_from_start prototype inserts consumes schedule :
  Forall (fun v => verifier v = true) (inserts ++ concat (map consumer_object consumes)) ->
  exists s items,
    run size_t verifier schedule
      (start (mkSwapQueue 0 0 0 (repeat prototype (Z.to_nat n))) inserts consumes) = Done s /\
    Inv s items.
Proof. intros Hv. eapply threads_inv. by apply start_inv. Qed.

End Invariant.

(** ** Main results *)

Section Main.
Context {T : Type} {build : Build} (size_t : int_type) (verifier : T -> bool).

(** A queue of a size whose double fits [size_t], as every vector's does, and two
    threads that pass it verified objects. *)
Record well_used (size : nat) (prototype : T) (inserts : list T) (consumes : list consumer_call) : Prop := {
  use_unsigned : is_signed size_t = false;
  use_size : 0 < Z.of_nat size /\ 2 * Z.of_nat size <= max size_t;
  use_prototype : verifier prototype = true;
  use_objects : Forall (fun v => verifier v = true) (inserts ++ concat (map consumer_object consumes))
}.

(** The run of the two threads of a new queue. *)
Definition concurrent_run (size : nat) (prototype : T) (inserts : list T) (consumes : list consumer_call)
    (schedule : list bool) : exec state :=
  q ← SwapQueue_new verifier size prototype;
  run size_t verifier schedule (start q inserts consumes).

Lemma concurrent_run_inv size prototype inserts consumes schedule :
  well_used size prototype inserts consumes ->
  exists s items,
    concurrent_run size prototype inserts consumes schedule = Done s /\
    run size_t verifier schedule (start (mkSwapQueue 0 0 0 (repeat prototype size)) inserts consumes) = Done s /\
    Inv verifier (Z.of_nat size) s items.
Proof.
  intros [Hu [H0 Hs] Hp Hv]. unfold concurrent_run. rewrite SwapQueue_new_Done by done. cbn [mbind exec_bind].
  destruct (run_from_start size_t verifier (Z.of_nat size) H0 Hu Hs prototype inserts consumes schedule Hv)
    as (s & items & Hr & HI). rewrite Nat2Z.id in Hr. by exists s, items.
Qed.

(** C8: The concurrent queue is a linearizable bounded queue: under
    every interleaving no check fails and nothing is undefined, the operations are
    those of a bounded queue executed one after the other (in the order of [log]), in
    which the calls of each thread appear in their order with their arguments and
    their results, and [SizeAtLeast] is the length of the queue. *)
Theorem SwapQueue_linearizable size prototype inserts consumes schedule :
  well_used size prototype inserts consumes ->
  exists s items,
    concurrent_run size prototype inserts consumes schedule = Done s /\
    spec_run (Z.of_nat size) (log s) items /\
    log_of_calls inserts consumes s /\
    SizeAtLeast (shared s) = Z.of_nat (length items).
Proof.
  intros Hw. destruct (concurrent_run_inv _ _ _ _ schedule Hw) as (s & items & Hr & Hr' & HI).
  exists s, items. split; [done|]. split; [apply HI|]. split; [|apply HI].
  exact (run_log size_t verifier _ _ _ _ _ (start_log _ _ _) Hr').
Qed.

(** What the acquire and release orderings are there for: when
    the producer and the consumer are both about to swap, it is at different slots. *)
Theorem SwapQueue_race_free size prototype inserts consumes schedule s v o :
  well_used size prototype inserts consumes ->
  concurrent_run size prototype inserts consumes schedule = Done s ->
  producer s = P_Loaded v -> consumer s = C_Loaded o ->
  next_write_index_ (shared s) <> next_read_index_ (shared s).
Proof.
  intros Hw Hr Hp Hc. destruct (concurrent_run_inv _ _ _ _ schedule Hw) as (s' & items & Hr1 & _ & HI).
  rewrite Hr in Hr1. injection Hr1 as <-.
  destruct HI as [_ H1 H2 Hn _ Hix _ Hpr Hco _ _]. rewrite Hp in Hpr, Hix. rewrite Hc in Hco, Hix.
  cbn [write_index read_index] in Hix. rewrite Hix. unfold wrap. bdestruct_all; lia.
Qed.

(** No object is lost, copied or created: what is in the slots, in
    the hands of the threads, still to be passed and already returned is what there was
    at the start; so everything the queue gives back passes the verifier. *)
Theorem SwapQueue_objects size prototype inserts consumes schedule s :
  well_used size prototype inserts consumes ->
  concurrent_run size prototype inserts consumes schedule = Done s ->
  objects s ≡ₚ repeat prototype size ++ inserts ++ concat (map consumer_object consumes) /\
  Forall (fun v => verifier v = true) ((insert_results s).*2 ++ (remove_results s).*2).
Proof.
  intros Hw Hr. destruct (concurrent_run_inv _ _ _ _ schedule Hw) as (s' & items & Hr1 & Hr2 & _).
  rewrite Hr in Hr1. injection Hr1 as <-. apply run_objects in Hr2.
  unfold objects at 2 in Hr2. cbn in Hr2. rewrite !app_nil_r in Hr2. split; [done|].
  assert (Forall (fun v => verifier v = true) (objects s)) as Ha.
  { rewrite Hr2. destruct Hw as [_ _ Hp Hv]. apply Forall_app_2; [|done]. clear -Hp.
    induction size; by constructor. }
  unfold objects in Ha. rewrite !Forall_app in Ha. rewrite Forall_app. naive_solver.
Qed.

(** The operations are wait-free: after four of its own steps per
    call a thread has all its results, whatever the other one does. *)
Theorem SwapQueue_wait_free size prototype inserts consumes schedule :
  well_used size prototype inserts consumes ->
  exists s, concurrent_run size prototype inserts consumes schedule = Done s /\
    ((4 * length inserts <= steps_of true schedule)%nat ->
       producer s = P_Idle /\ (insert_results s).*1 = (insertions (log s)).*2 /\
       (insertions (log s)).*1 = inserts) /\
    ((4 * length consumes <= steps_of false schedule)%nat ->
       consumer s = C_Idle /\ map remove_result (remove_results s) = removals (log s) /\
       consumptions (log s) = map is_remove consumes).
Proof.
  intros Hw. destruct (concurrent_run_inv _ _ _ _ schedule Hw) as (s & items & Hr & Hr' & _).
  exists s. split; [done|].
  pose proof (run_left size_t verifier schedule _ _ Hr') as [Hp Hc].
  destruct (run_log size_t verifier _ _ _ _ _ (start_log _ inserts consumes) Hr') as [L1 L2 L3 L4].
  unfold producer_left, consumer_left, start in Hp, Hc. cbn in Hp, Hc. split; intros Hs.
  - destruct (producer s), (to_insert s); cbn in *; try lia. rewrite app_nil_r in *. done.
  - destruct (consumer s), (to_consume s); cbn in *; try lia. rewrite app_nil_r in *. done.
Qed.

(** One thread at a time, the steps of a call are the call. *)
Theorem SwapQueue_sequential s v vs o cs :
  (producer s = P_Idle -> to_insert s = v :: vs ->
   run size_t verifier (repeat true (if is_full (shared s) then 1 else 4)%nat) s =
     (r ← Insert size_t verifier v (shared s);
      Done (mkState r.2 P_Idle (consumer s) vs (to_consume s) (insert_results s ++ [r.1])
              (remove_results s) (log s ++ [if is_full (shared s) then InsertFull v else Inserted v])))) /\
  (consumer s = C_Idle -> to_consume s = Call_Remove o :: cs ->
   run size_t verifier (repeat false (if is_empty (shared s) then 1 else 4)%nat) s =
     (r ← Remove size_t verifier o (shared s);
      Done (mkState r.2 (producer s) C_Idle (to_insert s) cs (insert_results s)
              (remove_results s ++ [r.1])
              (log s ++ [if is_empty (shared s) then RemoveEmpty else Removed r.1.2])))) /\
  (consumer s = C_Idle -> to_consume s = Call_Clear :: cs ->
   run size_t verifier [false; false] s =
     (q ← Clear size_t (shared s);
      Done (mkState q (producer s) C_Idle (to_insert s) cs (insert_results s)
              (remove_results s) (log s ++ [Cleared])))).
Proof.
  destruct s as [q p c ws ds ir rr es]. cbn. repeat split; intros -> ->.
  - unfold Insert, RTC_DCHECK. destruct (is_full q) eqn:Hf; cbn [run repeat producer_step].
    + unfold producer_step, RTC_DCHECK. cbn. rewrite Hf. by destruct (_ && _).
    + unfold producer_step, RTC_DCHECK. cbn. rewrite Hf. destruct (_ && _); [done|]. cbn.
      destruct (swap_write v q) as [[e q']| |]; [|done..]. cbn.
      by destruct (advance_write _ _ _).
  - unfold Remove, RTC_DCHECK. destruct (is_empty q) eqn:Hf; cbn [run repeat consumer_step].
    + unfold consumer_step, RTC_DCHECK. cbn. rewrite Hf. by destruct (_ && _).
    + unfold consumer_step, RTC_DCHECK. cbn. rewrite Hf. destruct (_ && _); [done|]. cbn.
      destruct (swap_read o q) as [[e q']| |]; [|done..]. cbn.
      by destruct (advance_read _ _).
  - unfold Clear. cbn. by destruct (skip_read _ _ _).
Qed.

(** A queue of size zero cannot be cleared in a debug build. *)
Theorem SwapQueue_clear_empty prototype :
  rtc_dcheck_is_on = true -> is_signed size_t = false ->
  (q ← SwapQueue_new verifier 0 prototype; Clear size_t q) = Fatal.
Proof.
  intros Hon Hu. unfold SwapQueue_new, RTC_DCHECK_eval, Clear, skip_read, RTC_DCHECK. rewrite Hon. cbn.
  destruct size_t; done.
Qed.

End Main.

(** ** Examples: a queue of two slots of nonnegative numbers *)

Section Example.
#[local] Existing Instance debug_x64.
Local Notation nonneg := (Z.leb 0).

Lemma example_well_used : well_used Uint64 nonneg 2 0 [7; 8; 9] [Call_Remove 5; Call_Clear; Call_Remove 6].
Proof. constructor; [done|vm_compute; split; congruence|done|by repeat constructor]. Defined.

(** Both threads alternate. *)
Local Notation alternate := (concat (repeat [true; false] 12)).

Lemma SwapQueue_linearizable_witness :
  exists s items,
    concurrent_run Uint64 nonneg 2 0 [7; 8; 9] [Call_Remove 5; Call_Clear; Call_Remove 6] alternate = Done s /\
    spec_run 2 (log s) items /\ SizeAtLeast (shared s) = Z.of_nat (length items).
Proof.
  destruct (SwapQueue_linearizable Uint64 nonneg 2 0 [7; 8; 9]
    [Call_Remove 5; Call_Clear; Call_Remove 6] alternate example_well_used) as (s & items & H1 & H2 & _ & H4).
  exists s, items. split; [exact H1|]. split; [exact H2|exact H4].
Defined.

Lemma SwapQueue_race_free_witness :
  exists s, concurrent_run Uint64 nonneg 2 0 [7; 8; 9] [Call_Remove 5; Call_Clear; Call_Remove 6]
      [true; true; true; true; true; false] = Done s /\
    producer s = P_Loaded 8 /\ consumer s = C_Loaded 5 /\
    next_write_index_ (shared s) <> next_read_index_ (shared s).
Proof.
  eassert (concurrent_run Uint64 nonneg 2 0 [7; 8; 9] [Call_Remove 5; Call_Clear; Call_Remove 6]
    [true; true; true; true; true; false] = Done _) as E by (vm_compute; reflexivity).
  eexists. split; [exact E|]. split; [reflexivity|]. split; [reflexivity|].
  exact (SwapQueue_race_free Uint64 nonneg 2 0 [7; 8; 9] [Call_Remove 5; Call_Clear; Call_Remove 6]
    [true; true; true; true; true; false] _ 8 5 example_well_used E eq_refl eq_refl).
Defined.

Lemma SwapQueue_objects_witness :
  exists s, concurrent_run Uint64 nonneg 2 0 [7; 8; 9] [Call_Remove 5; Call_Clear; Call_Remove 6] alternate = Done s /\
    objects s ≡ₚ [0; 0; 7; 8; 9; 5; 6].
Proof.
  eassert (concurrent_run Uint64 nonneg 2 0 [7; 8; 9] [Call_Remove 5; Call_Clear; Call_Remove 6]
    alternate = Done _) as E by (vm_compute; reflexivity).
  eexists. split; [exact E|].
  exact (proj1 (SwapQueue_objects Uint64 nonneg 2 0 [7; 8; 9] [Call_Remove 5; Call_Clear; Call_Remove 6]
    alternate _ example_well_used E)).
Defined.

Lemma SwapQueue_wait_free_witness :
  exists s, concurrent_run Uint64 nonneg 2 0 [7; 8; 9] [Call_Remove 5; Call_Clear; Call_Remove 6] alternate = Done s /\
    producer s = P_Idle /\ consumer s = C_Idle.
Proof.
  destruct (SwapQueue_wait_free Uint64 nonneg 2 0 [7; 8; 9] [Call_Remove 5; Call_Clear; Call_Remove 6]
    alternate example_well_used) as (s & Hr & Hp & Hc).
  exists s. split; [exact Hr|]. split; [apply Hp|apply Hc]; vm_compute; lia.
Defined.

Lemma SwapQueue_clear_empty_witness :
  (q ← SwapQueue_new nonneg 0 5; Clear Uint64 q) = Fatal.
Proof. exact (SwapQueue_clear_empty Uint64 nonneg 5 eq_refl eq_refl). Defined.

End Example.
