(* ===== verification/IntrusiveHeap.v ===== *)
(** * IntrusiveHeap: base/containers/intrusive_heap.h

    A binary heap in a vector whose elements hold a handle, kept up to date as they move.
    Elements are of a movable type with its own storage for the handle
    ([InternalHeapHandleStorage], [WithHeapHandle]), so that an element takes its handle
    along; a slot that was moved from has neither a value nor a handle.

    [DCHECK] is on in the builds in which [RTC_DCHECK] is.  Indices are natural numbers,
    and where the source computes with [size_t] the result is wrapped. *)

From S2P Require Import Prelude IntTypes.
From Stdlib Require Import Permutation Sorted.
Open Scope Z_scope.
Open Scope list_scope.

(** ** Handles *)

(** The index of a [HeapHandle]; none is [kInvalidIndex]. *)
Definition HeapHandle := option nat.
Definition HeapHandle_Invalid : HeapHandle := None.
Definition IsValid (h : HeapHandle) : bool := match h with Some _ => true | None => false end.
Definition HeapHandle_lt (lhs rhs : HeapHandle) : bool :=
  match lhs, rhs with Some i, Some j => (i <? j)%nat | Some _, None => true | None, _ => false end.

(** The move constructor and assignment: the new handle and what is left. *)
Definition HeapHandle_move (other : HeapHandle) : HeapHandle * HeapHandle := (other, HeapHandle_Invalid).

Definition ParentIndex (i : nat) : nat := ((i - 1) / 2)%nat.

Section Heap.
Context {T : Type} {build : Build} (size_t : int_type) (value_compare : T -> T -> bool).

Definition LeftIndex (i : nat) : nat := Z.to_nat (static_cast size_t (2 * Z.of_nat i + 1)).

(** ** State *)

Record element := mkElement { value : T; handle_ : HeapHandle }.

(** A slot of the vector; none after its element was moved away. *)
Abbreviation slot := (option element).
Abbreviation vector := (list slot).

(** [InternalHeapHandleStorage] and [WithHeapHandle]. *)
Definition element_SetHeapHandle (h : HeapHandle) (e : element) : element := mkElement (value e) h.
Definition element_ClearHeapHandle (e : element) : element := mkElement (value e) HeapHandle_Invalid.
Definition new_element (x : T) : element := mkElement x HeapHandle_Invalid.

(** A vector is never longer than the greatest difference of two pointers. *)
Definition max_size : Z := IntTypes.max (make_signed size_t).

Definition push_back (s : slot) (v : vector) : exec vector :=
  if Z.of_nat (length v) <? max_size then Done (v ++ [s]) else Fatal.

Definition read (v : vector) (i : nat) : exec slot := defined (v !! i).

(** ** Handles of the elements *)

Definition update_slot (f : element -> element) (i : nat) (v : vector) : exec vector :=
  s ← read v i; Done (<[i := option_map f s]> v).

Definition GetHeapHandle (i : nat) (v : vector) : exec HeapHandle :=
  s ← read v i; Done (match s with Some e => handle_ e | None => HeapHandle_Invalid end).

Definition CheckInvalidOrEqualTo (h : HeapHandle) (index : nat) : bool :=
  match h with Some i => (i =? index)%nat | None => true end.

Definition SetHeapHandle (i : nat) (v : vector) : exec vector :=
  v ← update_slot (element_SetHeapHandle (Some i)) i v;
  h ← GetHeapHandle i v;
  RTC_DCHECK (CheckInvalidOrEqualTo h i) (Done v).

Definition ClearHeapHandle (i : nat) (v : vector) : exec vector :=
  v ← update_slot element_ClearHeapHandle i v;
  h ← GetHeapHandle i v;
  RTC_DCHECK (negb (IsValid h)) (Done v).

(** ** Comparisons

    The value of a slot that was moved from is not specified. *)

Definition value_at (i : nat) (v : vector) : exec T := s ← read v i; e ← defined s; Done (value e).

Definition Less (i j : nat) (v : vector) : exec bool :=
  RTC_DCHECK (i <? length v)%nat (RTC_DCHECK (j <? length v)%nat (
    x ← value_at i v; y ← value_at j v; Done (value_compare x y))).

Definition Less_element (e : element) (i : nat) (v : vector) : exec bool :=
  RTC_DCHECK (i <? length v)%nat (y ← value_at i v; Done (value_compare (value e) y)).

Definition Less_than_element (i : nat) (e : element) (v : vector) : exec bool :=
  RTC_DCHECK (i <? length v)%nat (x ← value_at i v; Done (value_compare x (value e))).

(** ** Holes *)

Definition MakeHole (pos : nat) (v : vector) : exec vector :=
  RTC_DCHECK (pos <? length v)%nat (ClearHeapHandle pos v).

(** A slot is written, or made at the end. *)
Definition write_slot (pos : nat) (s : slot) (v : vector) : exec vector :=
  if (pos =? length v)%nat then push_back s v
  else match v !! pos with Some _ => Done (<[pos := s]> v) | None => Undef end.

(** The element of a slot that is moved away. *)
Definition move_slot (pos : nat) (v : vector) : exec (slot * vector) :=
  s ← read v pos; Done (s, <[pos := None]> v).

Definition FillHole (hole_pos : nat) (e : element) (v : vector) : exec vector :=
  RTC_DCHECK (hole_pos <=? length v)%nat (
    v ← write_slot hole_pos (Some e) v;
    SetHeapHandle hole_pos v).

Definition MoveHole (new_hole_pos old_hole_pos : nat) (v : vector) : exec vector :=
  RTC_DCHECK (negb (new_hole_pos =? old_hole_pos)%nat) (
  RTC_DCHECK (new_hole_pos <? length v)%nat (
  RTC_DCHECK (old_hole_pos <=? length v)%nat (
    r ← move_slot new_hole_pos v;
    v ← write_slot old_hole_pos r.1 r.2;
    SetHeapHandle old_hole_pos v))).

(** The loop of [MoveHoleUpAndFill]: a turn at least halves the position, which is enough
    fuel. *)
Fixpoint MoveHoleUp (fuel hole_pos : nat) (e : element) (v : vector) : exec (nat * vector) :=
  match hole_pos, fuel with
  | O, _ | _, O => Done (hole_pos, v)
  | _, Datatypes.S fuel =>
      let parent := ParentIndex hole_pos in
      less ← Less_than_element parent e v;
      if (less : bool) then v ← MoveHole parent hole_pos v; MoveHoleUp fuel parent e v
      else Done (hole_pos, v)
  end.

Definition MoveHoleUpAndFill (hole_pos : nat) (e : element) (v : vector) : exec (nat * vector) :=
  RTC_DCHECK (hole_pos <=? length v)%nat (
    r ← MoveHoleUp hole_pos hole_pos e v;
    v ← FillHole r.1 e r.2;
    Done (r.1, v)).

(** The loop of [MoveHoleDownAndFill], below [n].  A turn makes the position greater. *)
Fixpoint MoveHoleDown (fuel : nat) (kIsLeafElement : bool) (n hole_pos : nat) (e : element) (v : vector) : exec (nat * vector) :=
  match fuel with
  | O => Done (hole_pos, v)
  | Datatypes.S fuel =>
      let left := LeftIndex hole_pos in
      if (n <=? left)%nat then Done (hole_pos, v) else
      let right := (left + 1)%nat in
      less ← (if (right <? n)%nat then Less left right v else Done false);
      let largest := if (less : bool) then right else left in
      go ← (if kIsLeafElement then Done true else Less_element e largest v);
      if (go : bool) then v ← MoveHole largest hole_pos v; MoveHoleDown fuel kIsLeafElement n largest e v
      else Done (hole_pos, v)
  end.

Definition MoveHoleDownAndFill (kIsLeafElement : bool) (hole_pos : nat) (e : element) (v : vector) : exec (nat * vector) :=
  RTC_DCHECK (hole_pos <? length v)%nat (
    let n := (length v - (if kIsLeafElement then 1 else 0))%nat in
    RTC_DCHECK (hole_pos <? n)%nat (
    RTC_DCHECK_eval (h ← GetHeapHandle hole_pos v; Done (negb (IsValid h))) (
      r ← MoveHoleDown n kIsLeafElement n hole_pos e v;
      if kIsLeafElement then MoveHoleUpAndFill r.1 e r.2
      else v ← FillHole r.1 e r.2; Done (r.1, v)))).

(** ** Operations

    The position that is returned is the one of the iterator. *)

Definition InsertImpl (e : element) (v : vector) : exec (nat * vector) := MoveHoleUpAndFill (length v) e v.

(** [insert] of a value and [emplace]. *)
Definition insert (x : T) (v : vector) : exec (nat * vector) := InsertImpl (new_element x) v.

Fixpoint insert_range (l : list T) (v : vector) : exec vector :=
  match l with
  | [] => Done v
  | x :: l => r ← insert x v; insert_range l r.2
  end.

Definition GetLastIndex (v : vector) : nat := (length v - 1)%nat.

(** [impl_.heap_.pop_back()]. *)
Definition pop_back (v : vector) : exec vector :=
  match v with [] => Undef | _ => Done (List.removelast v) end.

(** What [take] and [erase] do once the hole is there. *)
Definition close_hole (pos : nat) (v : vector) : exec vector :=
  v ← (if (pos =? GetLastIndex v)%nat then Done v
       else
         v ← MakeHole (GetLastIndex v) v;
         r ← move_slot (GetLastIndex v) v;
         e ← defined r.1;
         r ← MoveHoleDownAndFill true pos e r.2;
         Done r.2);
  pop_back v.

Definition take (pos : nat) (v : vector) : exec (element * vector) :=
  v ← MakeHole pos v;
  r ← move_slot pos v;
  val ← defined r.1;
  v ← close_hole pos r.2;
  Done (val, v).

Definition erase (pos : nat) (v : vector) : exec vector :=
  RTC_DCHECK (pos <? length v)%nat (
    v ← MakeHole pos v;
    close_hole pos v).

Definition take_top (v : vector) : exec (element * vector) := take 0 v.
Definition pop (v : vector) : exec vector := erase 0 v.

Definition Update (pos : nat) (v : vector) : exec (nat * vector) :=
  RTC_DCHECK (pos <? length v)%nat (
    v ← MakeHole pos v;
    less ← (if (0 <? pos)%nat then Less pos (ParentIndex pos) v else Done true);
    r ← move_slot pos v;
    e ← defined r.1;
    if (less : bool) then MoveHoleDownAndFill false pos e r.2 else MoveHoleUpAndFill pos e r.2).

Definition ReplaceImpl (pos : nat) (e : element) (v : vector) : exec (nat * vector) :=
  v ← MakeHole pos v;
  less ← Less_element e pos v;
  if (less : bool) then MoveHoleDownAndFill false pos e v else MoveHoleUpAndFill pos e v.

Definition ReplaceTopImpl (e : element) (v : vector) : exec (nat * vector) :=
  v ← MakeHole 0 v;
  MoveHoleDownAndFill false 0 e v.

(** *** Access *)

Definition at_ (pos : nat) (v : vector) : exec T := value_at pos v.
Definition at_handle (pos : HeapHandle) (v : vector) : exec T := i ← defined pos; value_at i v.
Definition top (v : vector) : exec T := value_at 0 v.
Definition size (v : vector) : Z := Z.of_nat (length v).
Definition empty (v : vector) : bool := (length v =? 0)%nat.

(** [ToIndex] of an iterator to a position, and of a reverse iterator whose base is. *)
Definition ToIndex_iterator (pos : nat) (v : vector) : exec HeapHandle :=
  RTC_DCHECK (pos <=? length v)%nat (Done (if (pos =? length v)%nat then HeapHandle_Invalid else Some pos)).
Definition ToIndex_reverse (base : nat) (v : vector) : exec HeapHandle :=
  RTC_DCHECK (base <=? length v)%nat (Done (if (base =? 0)%nat then HeapHandle_Invalid else Some (base - 1)%nat)).

(** *** Lifetime *)

Fixpoint clear_handles (n : nat) (i : nat) (v : vector) : exec vector :=
  match n with O => Done v | Datatypes.S n => v ← ClearHeapHandle i v; clear_handles n (i + 1)%nat v end.
Fixpoint set_handles (n : nat) (i : nat) (v : vector) : exec vector :=
  match n with O => Done v | Datatypes.S n => v ← SetHeapHandle i v; set_handles n (i + 1)%nat v end.

Definition clear (v : vector) : exec vector := v ← clear_handles (length v) 0 v; Done [].

(** The copy constructor, and the copy assignment, whose argument may be the object
    itself.  These are for elements that can be copied, with their handles. *)
Definition copy (other : vector) : exec vector := set_handles (length other) 0 other.
Definition copy_assign (other : option vector) (v : vector) : exec vector :=
  v ← clear v; copy (default v other).

(** The move assignment: the new vector and what is left of the other. *)
Definition move_assign (other v : vector) : exec (vector * vector) := v ← clear v; Done (other, []).

(** The assignment of an initializer list has no [return]. *)
Definition assign_list (ilist : list T) (v : vector) : exec vector :=
  v ← clear v; v ← insert_range ilist v; Undef.

Definition swap (v other : vector) : vector * vector := (other, v).

End Heap.

Arguments mkElement {T} _ _.
Arguments value {T} _.
Arguments handle_ {T} _.

(** ** The vector of a heap *)

(** [value_compare] is a strict weak order. *)
Class StrictWeakOrder {T} (less : T -> T -> bool) : Prop := {
  less_asym a b : less a b = true -> less b a = false;
  less_negtrans a b c : less a b = false -> less b c = false -> less a c = false
}.

(** The vector with these values, each with the handle of its position. *)
Definition repr {T} (l : list T) : list (option (element (T := T))) := imap (fun i x => Some (mkElement x (Some i))) l.

(** The same with a hole at [h], which may be the place behind the end, and more slots at
    the end. *)
Definition holed {T} (l : list T) (h : nat) (tail v : list (option (element (T := T)))) : Prop :=
  (h < length l)%nat /\
  ((exists s, v = <[h := s]> (repr l) ++ tail) \/ (tail = [] /\ exists l0 y, l = l0 ++ [y] /\ h = length l0 /\ v = repr l0)).

Section Vector.
Context {T : Type}.
Implicit Types l : list T.

Lemma length_repr l : length (repr l) = length l.
Proof. apply length_imap. Qed.

Lemma lookup_repr l i : repr l !! i = (fun x => Some (mkElement x (Some i))) <$> l !! i.
Proof. unfold repr. by rewrite list_lookup_imap. Qed.

Lemma repr_insert l i x : <[i := Some (mkElement x (Some i))]> (repr l) = repr (<[i := x]> l).
Proof.
  apply list_eq. intros j. rewrite lookup_repr, !list_lookup_insert, length_repr, lookup_repr.
  case_decide as Hd; [|done]. by destruct Hd as [<- _].
Qed.

Lemma repr_app l x : repr (l ++ [x]) = repr l ++ [Some (mkElement x (Some (length l)))].
Proof. unfold repr. by rewrite imap_app; cbn; rewrite Nat.add_0_r. Qed.

Lemma holed_lookup l h tail v i x : holed l h tail v -> l !! i = Some x -> i <> h -> v !! i = Some (Some (mkElement x (Some i))).
Proof.
  intros [Hh [[s ->]|(-> & l0 & y & -> & -> & ->)]] Hx Hi; pose proof (lookup_lt_Some _ _ _ Hx).
  - rewrite lookup_app_l by (rewrite length_insert, length_repr; lia). by rewrite list_lookup_insert_ne, lookup_repr, Hx.
  - rewrite length_app in *. cbn in *. rewrite lookup_app_l in Hx by lia. by rewrite lookup_repr, Hx.
Qed.

Lemma holed_length l h tail v : holed l h tail v -> (h <= length v /\ length v <= length l + length tail)%nat.
Proof.
  intros [Hh [[s ->]|(-> & l0 & y & -> & -> & ->)]].
  - rewrite length_app, length_insert, length_repr. lia.
  - rewrite length_repr, length_app. cbn. lia.
Qed.

End Vector.

(** ** Moving and filling the hole *)

Section Steps.
Context {T : Type} {build : Build} (size_t : int_type) (value_compare : T -> T -> bool).
Implicit Types l : list T.

Lemma defined_bind {A B} (a : A) (f : A -> exec B) : (defined (Some a) ≫= f) = f a.
Proof. done. Qed.

Lemma SetHeapHandle_run i (v : list (option (element (T := T)))) s :
  v !! i = Some s -> SetHeapHandle i v = Done (<[i := option_map (element_SetHeapHandle (Some i)) s]> v).
Proof.
  intros Hs. unfold SetHeapHandle, GetHeapHandle, update_slot, read. rewrite Hs. cbn.
  rewrite list_lookup_insert_eq by (by eapply lookup_lt_Some). cbn. apply RTC_DCHECK_true. destruct s; [|done]. apply Nat.eqb_refl.
Qed.

Lemma ClearHeapHandle_run i (v : list (option (element (T := T)))) s :
  v !! i = Some s -> ClearHeapHandle i v = Done (<[i := option_map element_ClearHeapHandle s]> v).
Proof.
  intros Hs. unfold ClearHeapHandle, GetHeapHandle, update_slot, read. rewrite Hs. cbn.
  rewrite list_lookup_insert_eq by (by eapply lookup_lt_Some). cbn. apply RTC_DCHECK_true. by destruct s.
Qed.

Lemma MakeHole_run i (v : list (option (element (T := T)))) s :
  v !! i = Some s -> MakeHole i v = Done (<[i := option_map element_ClearHeapHandle s]> v).
Proof.
  intros Hs. unfold MakeHole. rewrite RTC_DCHECK_true; [by apply ClearHeapHandle_run|].
  apply Nat.ltb_lt. by eapply lookup_lt_Some.
Qed.

Lemma push_back_run (s : option (element (T := T))) v : Z.of_nat (length v) < max_size size_t -> push_back size_t s v = Done (v ++ [s]).
Proof. intros Hv. unfold push_back. by destruct (Z.ltb_spec (Z.of_nat (length v)) (max_size size_t)); [|lia]. Qed.

Lemma MoveHole_run l h tail v i x : holed l h tail v -> Z.of_nat (length l) <= max_size size_t -> l !! i = Some x -> i <> h ->
  exists v', MoveHole size_t i h v = Done v' /\ holed (<[h := x]> l) i tail v'.
Proof.
  intros Hh Hmax Hx Hi. pose proof (holed_lookup _ _ _ _ _ _ Hh Hx Hi) as Hv. pose proof (lookup_lt_Some _ _ _ Hx).
  pose proof (lookup_lt_Some _ _ _ Hv). destruct (holed_length _ _ _ _ Hh) as [Hle _]. unfold MoveHole, move_slot, read.
  rewrite !RTC_DCHECK_true by (rewrite ?negb_true_iff, ?Nat.eqb_neq, ?Nat.ltb_lt, ?Nat.leb_le; lia). rewrite Hv. cbn [defined mbind exec_bind fst snd].
  unfold write_slot. rewrite length_insert. destruct Hh as [Hh [[s ->]|(-> & l0 & y & -> & -> & ->)]].
  - rewrite length_app, length_insert, length_repr in *. destruct (Nat.eqb_spec h (length l + length tail)); [lia|].
    rewrite list_lookup_insert_ne by done. rewrite lookup_app_l by (rewrite length_insert, length_repr; lia).
    rewrite list_lookup_insert_eq by (rewrite length_repr; lia). cbn [mbind exec_bind].
    erewrite SetHeapHandle_run by (rewrite list_lookup_insert_eq; [reflexivity|rewrite length_insert, length_app, length_insert, length_repr; lia]).
    eexists. split; [reflexivity|]. split; [rewrite length_insert; lia|]. left. exists None.
    rewrite list_insert_insert_eq, (list_insert_insert_ne _ h i) by done. rewrite !insert_app_l by (rewrite ?length_insert, length_repr; lia).
    by rewrite list_insert_insert_eq, <- repr_insert.
  - rewrite length_app, length_repr in *. cbn in *. rewrite Nat.eqb_refl, push_back_run by (rewrite length_insert, length_repr; lia). cbn [mbind exec_bind].
    erewrite SetHeapHandle_run by (rewrite lookup_app_r by (rewrite length_insert, length_repr; lia); rewrite length_insert, length_repr, Nat.sub_diag; reflexivity).
    eexists. split; [reflexivity|]. split; [rewrite length_insert, length_app; cbn; lia|]. left. exists None.
    rewrite app_nil_r, !insert_app_r_alt by (rewrite ?length_insert, ?length_repr; lia). rewrite length_insert, length_repr, Nat.sub_diag. cbn.
    rewrite repr_app, insert_app_l by (rewrite length_repr; lia). done.
Qed.

Lemma FillHole_run l h tail v e : holed l h tail v -> Z.of_nat (length l) <= max_size size_t ->
  FillHole size_t h e v = Done (repr (<[h := value e]> l) ++ tail).
Proof.
  intros Hh Hmax. destruct (holed_length _ _ _ _ Hh) as [Hle _]. unfold FillHole.
  rewrite RTC_DCHECK_true by (rewrite Nat.leb_le; lia). unfold write_slot. destruct Hh as [Hh [[s ->]|(-> & l0 & y & -> & -> & ->)]].
  - rewrite length_app, length_insert, length_repr in *. destruct (Nat.eqb_spec h (length l + length tail)); [lia|].
    rewrite lookup_app_l by (rewrite length_insert, length_repr; lia). rewrite list_lookup_insert_eq by (rewrite length_repr; lia). cbn [mbind exec_bind].
    erewrite SetHeapHandle_run by (rewrite list_lookup_insert_eq; [reflexivity|rewrite length_app, length_insert, length_repr; lia]).
    rewrite list_insert_insert_eq, insert_app_l by (rewrite length_insert, length_repr; lia). by rewrite list_insert_insert_eq, <- repr_insert.
  - rewrite length_app, length_repr in *. cbn in *. rewrite Nat.eqb_refl, push_back_run by (rewrite length_repr; lia). cbn [mbind exec_bind].
    erewrite SetHeapHandle_run by (rewrite lookup_app_r by (rewrite length_repr; lia); rewrite length_repr, Nat.sub_diag; reflexivity).
    rewrite app_nil_r, !insert_app_r_alt by (rewrite ?length_repr; lia). rewrite length_repr, Nat.sub_diag. cbn. by rewrite repr_app.
Qed.

End Steps.

(** ** The order of a heap *)

Section Order.
Context {T : Type} (less : T -> T -> bool) `{!StrictWeakOrder less}.
Implicit Types l : list T.

(** No element is greater than its parent. *)
Definition heap l : Prop :=
  forall j a b, (0 < j)%nat -> l !! ParentIndex j = Some a -> l !! j = Some b -> less a b = false.

(** The same around a hole at [h], whose own value does not count. *)
Definition heap_hole l (h : nat) : Prop :=
  (forall j a b, (0 < j)%nat -> j <> h -> ParentIndex j <> h -> l !! ParentIndex j = Some a -> l !! j = Some b -> less a b = false) /\
  (forall j a b, (0 < h)%nat -> (0 < j)%nat -> ParentIndex j = h -> l !! ParentIndex h = Some a -> l !! j = Some b -> less a b = false).

(** [x] is not less than what is below the hole, and not greater than what is above it. *)
Definition above_children l (h : nat) (x : T) : Prop :=
  forall j b, (0 < j)%nat -> ParentIndex j = h -> l !! j = Some b -> less x b = false.
Definition below_parent l (h : nat) (x : T) : Prop :=
  forall a, (0 < h)%nat -> l !! ParentIndex h = Some a -> less a x = false.

Lemma parent_lt j : (0 < j)%nat -> (ParentIndex j < j)%nat.
Proof. intros Hj. unfold ParentIndex. apply Nat.Div0.div_lt_upper_bound; lia. Qed.

Lemma parent_children j h : (0 < j)%nat -> ParentIndex j = h <-> j = (2 * h + 1)%nat \/ j = (2 * h + 2)%nat.
Proof.
  intros Hj. unfold ParentIndex. pose proof (Nat.div_mod_eq (j - 1) 2). pose proof (Nat.mod_upper_bound (j - 1) 2 ltac:(lia)). lia.
Qed.

Lemma less_irrefl a : less a a = false.
Proof. destruct (less a a) eqn:E; [|done]. by rewrite (less_asym _ _ E) in E. Qed.

Lemma heap_nil : heap [].
Proof. intros j a b _ Ha. by rewrite lookup_nil in Ha. Qed.

Lemma heap_to_hole l h : heap l -> heap_hole l h.
Proof.
  intros Hl. split; [intros j a b Hj _ _; by apply Hl|]. intros j a b Hh Hj <- Ha Hb.
  assert (exists c, l !! ParentIndex j = Some c) as [c Hc].
  { apply lookup_lt_is_Some. pose proof (lookup_lt_Some _ _ _ Hb). pose proof (parent_lt j Hj). lia. }
  eapply (less_negtrans _ c); eauto.
Qed.

Lemma heap_above l h x : heap l -> l !! h = Some x -> above_children l h x.
Proof. intros Hl Hx j b Hj <- Hb. by eapply (Hl j). Qed.

Lemma heap_below l h x : heap l -> l !! h = Some x -> below_parent l h x.
Proof. intros Hl Hx a Hh Ha. by eapply (Hl h). Qed.

Lemma heap_app l k : heap (l ++ k) -> heap l.
Proof. intros Hl j a b Hj Ha Hb. eapply (Hl j); [done| |]; by apply lookup_app_l_Some. Qed.

Lemma heap_hole_fill l h x : heap_hole l h -> above_children l h x -> below_parent l h x -> heap (<[h := x]> l).
Proof.
  intros [HA HB] HC HD j a b Hj Ha Hb. pose proof (parent_lt j Hj).
  destruct (Nat.eq_dec j h) as [->|Hjh].
  - rewrite list_lookup_insert_ne in Ha by lia. apply list_lookup_insert_Some in Hb. destruct Hb as [(_ & <- & _)|[? _]]; [|done]. by apply HD.
  - rewrite list_lookup_insert_ne in Hb by done. apply list_lookup_insert_Some in Ha. destruct Ha as [(? & <- & _)|[? Ha]].
    + by eapply (HC j).
    + by eapply (HA j).
Qed.

(** The element of the parent comes down into the hole. *)
Lemma heap_hole_up l h a x : heap_hole l h -> (0 < h)%nat -> l !! ParentIndex h = Some a -> less a x = true -> above_children l h x ->
  heap_hole (<[h := a]> l) (ParentIndex h) /\ above_children (<[h := a]> l) (ParentIndex h) x.
Proof.
  intros [HA HB] Hh Ha Hlt HC. pose proof (parent_lt h Hh). split; [split|].
  - intros j c b Hj Hjp Hpp Hc Hb. destruct (Nat.eq_dec j h) as [->|Hjh]; [done|]. rewrite list_lookup_insert_ne in Hb by done.
    apply list_lookup_insert_Some in Hc. destruct Hc as [(Heq & <- & _)|[? Hc]]; [by eapply HB|by eapply HA].
  - intros j g b Hp0 Hj Hjp Hg Hb. pose proof (parent_lt _ Hp0). rewrite list_lookup_insert_ne in Hg by lia.
    assert (less g a = false) as Hga by (eapply (HA (ParentIndex h)); (done || lia)).
    apply list_lookup_insert_Some in Hb. destruct Hb as [(_ & <- & _)|[? Hb]]; [done|].
    eapply less_negtrans; [exact Hga|]. eapply (HA j); [done|lia|lia| |done]. by rewrite Hjp.
  - intros j b Hj Hjp Hb. apply less_asym in Hlt. apply list_lookup_insert_Some in Hb. destruct Hb as [(_ & <- & _)|[? Hb]]; [done|].
    eapply less_negtrans; [exact Hlt|]. eapply (HA j); [done|lia|lia| |done]. by rewrite Hjp.
Qed.

(** The greatest child goes up into the hole. *)
Lemma heap_hole_down l h c a : heap_hole l h -> (0 < c)%nat -> ParentIndex c = h -> l !! c = Some a -> above_children l h a ->
  heap_hole (<[h := a]> l) c.
Proof.
  intros [HA HB] Hc Hp Ha HC. pose proof (parent_lt c Hc). split.
  - intros j g b Hj Hjc Hpc Hg Hb. apply list_lookup_insert_Some in Hb. destruct Hb as [(<- & <- & _)|[? Hb]].
    + pose proof (parent_lt _ Hj). rewrite list_lookup_insert_ne in Hg by lia. by eapply (HB c).
    + apply list_lookup_insert_Some in Hg. destruct Hg as [(? & <- & _)|[? Hg]]; [by eapply (HC j)|by eapply HA].
  - intros j g b _ Hj Hjc Hg Hb. pose proof (parent_lt _ Hj). rewrite list_lookup_insert_ne in Hb by lia.
    rewrite Hp in Hg. apply list_lookup_insert_Some in Hg. destruct Hg as [(_ & <- & _)|[? _]]; [|done].
    eapply (HA j); [done|lia|lia| |done]. by rewrite Hjc.
Qed.

(** Permutations of the values as the hole moves. *)
Lemma insert_delete_perm l h x : (h < length l)%nat -> Permutation (<[h := x]> l) (x :: delete h l).
Proof.
  intros Hh. rewrite (delete_Permutation (<[h := x]> l) h x) by by apply list_lookup_insert_eq. by rewrite !delete_take_drop, take_insert_ge, drop_insert_lt by lia.
Qed.

Lemma move_perm l h c a x : (h < length l)%nat -> l !! c = Some a -> h <> c -> Permutation (<[c := x]> (<[h := a]> l)) (<[h := x]> l).
Proof.
  intros Hh Ha Hhc. pose proof (lookup_lt_Some _ _ _ Ha). apply (Permutation_cons_inv (a := a)).
  rewrite (insert_delete_perm (<[h := a]> l)) by (rewrite length_insert; lia). rewrite perm_swap.
  rewrite <- (delete_Permutation (<[h := a]> l) c a) by by rewrite list_lookup_insert_ne. rewrite !insert_delete_perm by done. apply perm_swap.
Qed.

End Order.

(** ** The loops *)

Section Loops.
Context {T : Type} {build : Build} (size_t : int_type) (less : T -> T -> bool) `{!StrictWeakOrder less}.
Implicit Types l : list T.

Lemma LeftIndex_run i : is_signed size_t = false -> Z.of_nat i <= max_size size_t -> LeftIndex size_t i = (2 * i + 1)%nat.
Proof.
  intros Hu Hi. unfold LeftIndex. rewrite static_cast_id; [lia|]. unfold max_size in Hi.
  destruct size_t; try discriminate; limits; lia.
Qed.

Lemma Less_than_element_run (v : list (option (element (T := T)))) i e x k :
  v !! i = Some (Some (mkElement x k)) -> Less_than_element less i e v = Done (less x (value e)).
Proof.
  intros Hv. unfold Less_than_element, value_at, read. pose proof (lookup_lt_Some _ _ _ Hv).
  rewrite RTC_DCHECK_true by (apply Nat.ltb_lt; lia). by rewrite Hv.
Qed.

Lemma Less_element_run (v : list (option (element (T := T)))) i e x k :
  v !! i = Some (Some (mkElement x k)) -> Less_element less e i v = Done (less (value e) x).
Proof.
  intros Hv. unfold Less_element, value_at, read. pose proof (lookup_lt_Some _ _ _ Hv).
  rewrite RTC_DCHECK_true by (apply Nat.ltb_lt; lia). by rewrite Hv.
Qed.

Lemma Less_run (v : list (option (element (T := T)))) i j x y k k' :
  v !! i = Some (Some (mkElement x k)) -> v !! j = Some (Some (mkElement y k')) -> Less less i j v = Done (less x y).
Proof.
  intros Hv Hw. unfold Less, value_at, read. pose proof (lookup_lt_Some _ _ _ Hv). pose proof (lookup_lt_Some _ _ _ Hw).
  rewrite !RTC_DCHECK_true by (apply Nat.ltb_lt; lia). by rewrite Hv, Hw.
Qed.

(** What the two loops end with: the hole moved, and an element at its place completes
    the heap. *)
Definition hole_at l h tail e (r : exec (nat * list (option (element (T := T))))) h' l' : Prop :=
  exists v', r = Done (h', v') /\ holed l' h' tail v' /\ Permutation (<[h' := value e]> l') (<[h := value e]> l) /\ length l' = length l /\
  heap_hole less l' h' /\ above_children less l' h' (value e).

Lemma MoveHoleUp_run fuel l h tail v e : (h <= fuel)%nat -> holed l h tail v -> Z.of_nat (length l) <= max_size size_t ->
  heap_hole less l h -> above_children less l h (value e) ->
  exists h' l', hole_at l h tail e (MoveHoleUp size_t less fuel h e v) h' l' /\ (h' <= h)%nat /\ below_parent less l' h' (value e).
Proof.
  revert l h v. induction fuel as [|fuel IH]; intros l h v Hf Hh Hmax Hl HC.
  - assert (h = 0%nat) as -> by lia. exists 0%nat, l. repeat split; try done; [|intros ? ?; lia].
    exists v. by repeat split; try apply Hh; try apply Hl.
  - destruct h as [|h']; [exists 0%nat, l; repeat split; try done; [|intros ? ?; lia]; exists v; by repeat split; try apply Hh; try apply Hl|].
    cbn [MoveHoleUp]. set (h := Datatypes.S h') in *. assert (0 < h)%nat as Hpos by lia. pose proof (parent_lt h Hpos) as Hlt.
    assert (is_Some (l !! ParentIndex h)) as [a Ha] by (apply lookup_lt_is_Some; destruct Hh as [? _]; lia).
    pose proof (holed_lookup _ _ _ _ _ _ Hh Ha ltac:(lia)) as Hv. erewrite Less_than_element_run by exact Hv. cbn [mbind exec_bind].
    destruct (less a (value e)) eqn:Ea.
    + destruct (MoveHole_run size_t l h tail v (ParentIndex h) a Hh Hmax Ha ltac:(lia)) as (v1 & -> & Hh1). cbn [mbind exec_bind].
      destruct (heap_hole_up less l h a (value e)) as [Hl1 HC1]; try done.
      destruct (IH (<[h := a]> l) (ParentIndex h) v1 ltac:(lia) Hh1 ltac:(by rewrite length_insert) Hl1 HC1) as (h2 & l2 & (v2 & -> & Hh2 & Hp & Hlen & Hl2 & HC2) & Hle & HD).
      exists h2, l2. repeat split; try done; [|lia]. exists v2. repeat split; try done; [apply Hh2|apply Hh2| |by rewrite Hlen, length_insert|apply Hl2|apply Hl2].
      rewrite Hp. apply move_perm; [|done|lia]. by destruct Hh.
    + exists h, l. repeat split; try done; [|intros c _ Hc; by simplify_eq]. exists v. by repeat split; try apply Hh; try apply Hl.
Qed.

(** A hole below the end is filled. *)
Lemma MoveHoleUpAndFill_run l h tail v e : holed l h tail v -> Z.of_nat (length l) <= max_size size_t ->
  heap_hole less l h -> above_children less l h (value e) ->
  exists h' l', MoveHoleUpAndFill size_t less h e v = Done (h', repr l' ++ tail) /\ Permutation l' (<[h := value e]> l) /\ heap less l' /\ l' !! h' = Some (value e).
Proof.
  intros Hh Hmax Hl HC. unfold MoveHoleUpAndFill. destruct (holed_length _ _ _ _ Hh). rewrite RTC_DCHECK_true by (apply Nat.leb_le; lia).
  destruct (MoveHoleUp_run h l h tail v e ltac:(lia) Hh Hmax Hl HC) as (h1 & l1 & (v1 & -> & Hh1 & Hp & Hlen & Hl1 & HC1) & _ & HD).
  cbn [mbind exec_bind fst snd]. rewrite (FillHole_run size_t l1 h1 tail) by (done || lia). exists h1, (<[h1 := value e]> l1).
  repeat split; [done|by apply heap_hole_fill|apply list_lookup_insert_eq]. by destruct Hh1.
Qed.

(** The greater child of a hole. *)
Lemma greatest_child l h tail v : is_signed size_t = false -> holed l h tail v -> Z.of_nat (length l) <= max_size size_t -> (2 * h + 1 < length l)%nat ->
  exists (r : bool) c a, (if (2 * h + 1 + 1 <? length l)%nat then Less less (2 * h + 1) (2 * h + 1 + 1) v else Done false) = Done r /\
    (if r then (2 * h + 1 + 1)%nat else (2 * h + 1)%nat) = c /\
    (h < c)%nat /\ ParentIndex c = h /\ l !! c = Some a /\ above_children less l h a.
Proof.
  intros Hu Hh Hmax Hlt. assert (is_Some (l !! (2 * h + 1)%nat)) as [a Ha] by (by apply lookup_lt_is_Some).
  destruct (Nat.ltb_spec (2 * h + 1 + 1) (length l)) as [Hr|Hr].
  - assert (is_Some (l !! (2 * h + 1 + 1)%nat)) as [b Hb] by (by apply lookup_lt_is_Some).
    erewrite Less_run by (eapply holed_lookup; [done|done|lia]). destruct (less a b) eqn:Eab.
    + exists true, (2 * h + 1 + 1)%nat, b. repeat split; [lia|apply parent_children; lia|done|]. intros j c Hj Hp Hc.
      apply parent_children in Hp as [-> | ->]; [| |done]; [simplify_eq; by apply less_asym|].
      replace (2 * h + 2)%nat with (2 * h + 1 + 1)%nat in Hc by lia. simplify_eq. by apply less_irrefl.
    + exists false, (2 * h + 1)%nat, a. repeat split; [lia|apply parent_children; lia|done|]. intros j c Hj Hp Hc.
      apply parent_children in Hp as [-> | ->]; [| |done]; [simplify_eq; by apply less_irrefl|].
      replace (2 * h + 2)%nat with (2 * h + 1 + 1)%nat in Hc by lia. by simplify_eq.
  - exists false, (2 * h + 1)%nat, a. repeat split; [lia|apply parent_children; lia|done|]. intros j c Hj Hp Hc.
    apply parent_children in Hp as [-> | ->]; [| |done]; [simplify_eq; by apply less_irrefl|]. apply lookup_lt_Some in Hc. lia.
Qed.

Lemma MoveHoleDown_run (leaf : bool) fuel l h tail v e : is_signed size_t = false -> (length l <= h + fuel)%nat -> holed l h tail v -> Z.of_nat (length l) <= max_size size_t ->
  heap_hole less l h -> (leaf = false -> below_parent less l h (value e)) ->
  exists h' l', hole_at l h tail e (MoveHoleDown size_t less fuel leaf (length l) h e v) h' l' /\ (leaf = false -> below_parent less l' h' (value e)).
Proof.
  intros Hu. revert l h v. induction fuel as [|fuel IH]; intros l h v Hf Hh Hmax Hl HD; [destruct Hh as [? _]; lia|].
  cbn [MoveHoleDown]. assert (Z.of_nat h <= max_size size_t) by (destruct Hh as [? _]; lia). rewrite LeftIndex_run by done.
  assert (forall r, r = Done (h, v) -> above_children less l h (value e) -> exists h' l', hole_at l h tail e r h' l' /\ (leaf = false -> below_parent less l' h' (value e))) as Hstop.
  { intros r -> HC. exists h, l. split; [|done]. exists v. by repeat split; try apply Hh; try apply Hl. }
  destruct (Nat.leb_spec (length l) (2 * h + 1)).
  { apply Hstop; [done|]. intros j b Hj Hp Hb. apply parent_children in Hp; [|done]. apply lookup_lt_Some in Hb. lia. }
  destruct (greatest_child l h tail v Hu Hh Hmax ltac:(lia)) as (r & c & a & -> & Hc & Hhc & Hpc & Ha & HCa).
  cbn [mbind exec_bind]. rewrite Hc.
  pose proof (holed_lookup _ _ _ _ _ _ Hh Ha ltac:(lia)) as Hv.
  assert (exists go, (if leaf then Done true else Less_element less e c v) = Done go /\ (go = false -> above_children less l h (value e)) /\
    (go = true -> leaf = false -> less (value e) a = true)) as (go & -> & Hno & Hyes).
  { destruct leaf; [by exists true|]. erewrite Less_element_run by exact Hv. exists (less (value e) a). repeat split; try done.
    intros Hea j b' Hj Hp Hb'. eapply less_negtrans; [exact Hea|]. by eapply HCa. }
  cbn [mbind exec_bind]. destruct go; [|by apply Hstop; [|apply Hno]].
  destruct (MoveHole_run size_t l h tail v c a Hh Hmax Ha ltac:(lia)) as (v1 & -> & Hh1). cbn [mbind exec_bind].
  assert (h < length l)%nat by (by destruct Hh).
  destruct (IH (<[h := a]> l) c v1) as (h2 & l2 & (v2 & Hr & Hh2 & Hp & Hlen & Hl2 & HC2) & HD2); rewrite ?length_insert in *; try done; [lia|by eapply heap_hole_down; try done; lia| |].
  { intros Hleaf g _ Hg. rewrite Hpc, list_lookup_insert_eq in Hg by done. simplify_eq. by apply less_asym, Hyes. }
  exists h2, l2. split; [|done]. exists v2. repeat split; try done; [apply Hh2|apply Hh2| |apply Hl2|apply Hl2]. rewrite Hp. apply move_perm; (done || lia).
Qed.

(** The hole is filled, below [tail] when the element is the last one. *)
Lemma MoveHoleDownAndFill_run (leaf : bool) l h tail v e : is_signed size_t = false -> holed l h tail v -> length v = (length l + length tail)%nat -> length tail = (if leaf then 1 else 0)%nat ->
  GetHeapHandle h v = Done None -> Z.of_nat (length l) <= max_size size_t -> heap_hole less l h -> (leaf = false -> below_parent less l h (value e)) ->
  exists h' l', MoveHoleDownAndFill size_t less leaf h e v = Done (h', repr l' ++ tail) /\ Permutation l' (<[h := value e]> l) /\ heap less l' /\ l' !! h' = Some (value e).
Proof.
  intros Hu Hh Hlv Htail Hg Hmax Hl HD. pose proof Hh as [Hlt _]. unfold MoveHoleDownAndFill. rewrite Hlv, Htail.
  replace (length l + (if leaf then 1 else 0) - (if leaf then 1 else 0))%nat with (length l) by (destruct leaf; lia).
  rewrite !RTC_DCHECK_true by (apply Nat.ltb_lt; destruct leaf; lia). rewrite Hg. cbn [mbind exec_bind IsValid negb].
  destruct (MoveHoleDown_run leaf (length l) l h tail v e Hu ltac:(lia) Hh Hmax Hl HD) as (h1 & l1 & (v1 & -> & Hh1 & Hp & Hlen & Hl1 & HC1) & HD1).
  cbn [mbind exec_bind fst snd]. assert (Z.of_nat (length l1) <= max_size size_t) by (rewrite Hlen; lia).
  assert (exists h' l', (if leaf then MoveHoleUpAndFill size_t less h1 e v1 else v0 ← FillHole size_t h1 e v1; Done (h1, v0)) = Done (h', repr l' ++ tail) /\
    Permutation l' (<[h := value e]> l) /\ heap less l' /\ l' !! h' = Some (value e)) as (h2 & l2 & -> & ?).
  { destruct leaf.
    - destruct (MoveHoleUpAndFill_run l1 h1 tail v1 e) as (h2 & l2 & -> & Hp2 & Hheap & Hat); try done. exists h2, l2. repeat split; try done. by rewrite Hp2.
    - rewrite (FillHole_run size_t l1 h1 tail) by done. exists h1, (<[h1 := value e]> l1). repeat split; [done|apply heap_hole_fill; auto|].
      apply list_lookup_insert_eq. by destruct Hh1. }
  exists h2, l2. unfold RTC_DCHECK_eval. by destruct rtc_dcheck_is_on.
Qed.

End Loops.

(** ** The operations *)

Section Operations.
Context {T : Type} {build : Build} (size_t : int_type) (less : T -> T -> bool) `{!StrictWeakOrder less}.
Context (size_t_unsigned : is_signed size_t = false).
Implicit Types l : list T.
Abbreviation full l := (max_size size_t <= Z.of_nat (length l)).
Abbreviation fits l := (Z.of_nat (length l) <= max_size size_t).

Lemma insert_run l x : heap less l -> ~ full l ->
  exists p l', insert size_t less x (repr l) = Done (p, repr l') /\ Permutation l' (x :: l) /\ heap less l' /\ l' !! p = Some x.
Proof using StrictWeakOrder0.
  intros Hl Hfull. unfold insert, InsertImpl. rewrite length_repr.
  destruct (MoveHoleUpAndFill_run size_t less (l ++ [x]) (length l) [] (repr l) (new_element x)) as (p & l' & -> & Hp & Hheap & Hat).
  - split; [rewrite length_app; cbn; lia|]. right. split; [done|]. by exists l, x.
  - rewrite length_app. cbn. lia.
  - split; intros j a b; intros; match goal with H : (l ++ [x]) !! j = Some b |- _ => pose proof (lookup_lt_Some _ _ _ H) as Hj end; rewrite length_app in Hj; cbn in Hj.
    + pose proof (parent_lt j ltac:(lia)). rewrite !lookup_app_l in * by lia. by eapply (Hl j).
    + pose proof (parent_lt j ltac:(lia)). lia.
  - intros j b Hj Hp Hb. apply lookup_lt_Some in Hb. rewrite length_app in Hb. cbn in Hb. pose proof (parent_lt j Hj). lia.
  - exists p, l'. rewrite app_nil_r. repeat split; try done. rewrite Hp. cbn.
    rewrite insert_app_r_alt, Nat.sub_diag by lia. cbn. by rewrite <- Permutation_cons_append.
Qed.

(** A vector that is full is not grown. *)
Lemma insert_full l x : full l -> insert size_t less x (repr l) = Fatal.
Proof using.
  intros Hfull. unfold insert, InsertImpl, MoveHoleUpAndFill. rewrite length_repr, RTC_DCHECK_true by (apply Nat.leb_le; lia).
  assert (forall s, push_back size_t s (repr l) = Fatal /\ forall i, push_back size_t s (<[i := None]> (repr l)) = Fatal) as Hpush.
  { intros s. unfold push_back. split; [|intros i]; rewrite ?length_insert, length_repr; by destruct (Z.ltb_spec (Z.of_nat (length l)) (max_size size_t)); [lia|]. }
  assert (MoveHoleUp size_t less (length l) (length l) (new_element x) (repr l) = Fatal \/
    MoveHoleUp size_t less (length l) (length l) (new_element x) (repr l) = Done (length l, repr l)) as [-> | ->]; [|done|].
  - destruct (length l) as [|n] eqn:En; [by right|]. cbn [MoveHoleUp]. assert (0 < Datatypes.S n)%nat as Hpos by lia.
    pose proof (parent_lt _ Hpos) as Hlt. assert (is_Some (l !! ParentIndex (Datatypes.S n))) as [a Ha] by (apply lookup_lt_is_Some; lia).
    assert (repr l !! ParentIndex (Datatypes.S n) = Some (Some (mkElement a (Some (ParentIndex (Datatypes.S n)))))) as Hv by (by rewrite lookup_repr, Ha).
    erewrite Less_than_element_run by exact Hv. cbn [mbind exec_bind]. destruct (less a _); [left|by right].
    unfold MoveHole, move_slot, read, write_slot. rewrite length_repr, En, !RTC_DCHECK_true by (rewrite ?negb_true_iff, ?Nat.eqb_neq, ?Nat.ltb_lt, ?Nat.leb_le; lia).
    rewrite Hv. cbn [mbind exec_bind defined fst snd]. rewrite length_insert, length_repr, En, Nat.eqb_refl. by rewrite (proj2 (Hpush _)).
  - cbn [mbind exec_bind fst snd]. unfold FillHole, write_slot. rewrite length_repr, RTC_DCHECK_true, Nat.eqb_refl by (apply Nat.leb_le; lia). by rewrite (proj1 (Hpush _)).
Qed.

Lemma insert_range_run k l : heap less l -> Z.of_nat (length l) + Z.of_nat (length k) <= max_size size_t ->
  exists l', insert_range size_t less k (repr l) = Done (repr l') /\ Permutation l' (l ++ k) /\ heap less l'.
Proof using StrictWeakOrder0.
  revert l. induction k as [|x k IH]; intros l Hl Hfit; cbn [insert_range].
  - exists l. by rewrite app_nil_r.
  - cbn [length] in Hfit. destruct (insert_run l x Hl ltac:(lia)) as (p & l1 & -> & Hp & Hl1 & _). cbn [mbind exec_bind fst snd].
    destruct (IH l1 Hl1) as (l2 & -> & Hp2 & Hl2). { rewrite (Permutation_length Hp). cbn. lia. }
    exists l2. repeat split; try done. rewrite Hp2, Hp. cbn. apply Permutation_middle.
Qed.

Lemma removelast_repr l (s : option (element (T := T))) : removelast (repr l ++ [s]) = repr l.
Proof using. apply removelast_last. Qed.

Lemma pop_back_repr l (s : option (element (T := T))) : pop_back (repr l ++ [s]) = Done (repr l).
Proof using. unfold pop_back. rewrite removelast_repr. by destruct (repr l). Qed.

(** The vector around the hole, once the last element has been taken out too. *)
Lemma holed_last l y h s s' : (h < length l)%nat -> holed l h [s'] (<[length l := s']> (<[h := s]> (repr (l ++ [y])))).
Proof using.
  intros Hh. split; [done|]. left. exists s. rewrite repr_app, insert_app_l by (by rewrite length_repr).
  by rewrite insert_app_r_alt; rewrite length_insert, length_repr; [rewrite Nat.sub_diag|].
Qed.

Lemma close_hole_run l h x s : heap less l -> fits l -> l !! h = Some x -> (s = None \/ s = Some (mkElement x None)) ->
  exists l', close_hole size_t less h (<[h := s]> (repr l)) = Done (repr l') /\ Permutation l (x :: l') /\ heap less l'.
Proof using StrictWeakOrder0 size_t_unsigned.
  intros Hl Hfit Hx Hs. pose proof (lookup_lt_Some _ _ _ Hx) as Hh. destruct (exists_last (l := l)) as (l0 & y & ->); [by destruct l|].
  unfold close_hole, GetLastIndex. rewrite length_insert, length_repr. rewrite length_app in *. cbn in Hh, Hfit |- *. rewrite Nat.add_sub.
  destruct (Nat.eqb_spec h (length l0)) as [->|Hne].
  - rewrite lookup_app_r, Nat.sub_diag in Hx by lia. cbn in Hx. simplify_eq. exists l0. cbn [mbind exec_bind].
    rewrite repr_app, insert_app_r_alt, length_repr, Nat.sub_diag by (by rewrite length_repr). cbn. rewrite pop_back_repr.
    repeat split; [by rewrite <- Permutation_cons_append|by eapply heap_app].
  - rewrite lookup_app_l in Hx by lia. set (v := <[h := s]> (repr (l0 ++ [y]))).
    assert (v !! length l0 = Some (Some (mkElement y (Some (length l0))))) as Hlast.
    { unfold v. rewrite list_lookup_insert_ne, lookup_repr, lookup_app_r, Nat.sub_diag by lia. done. }
    rewrite (MakeHole_run _ _ _ Hlast). cbn [mbind exec_bind option_map]. assert (length l0 < length v)%nat by (by eapply lookup_lt_Some).
    rewrite length_insert. replace (length v - 1)%nat with (length l0) by (unfold v; rewrite length_insert, length_repr, length_app; cbn; lia).
    unfold move_slot, read. rewrite list_lookup_insert_eq by done. cbn [mbind exec_bind defined fst snd]. rewrite list_insert_insert_eq.
    destruct (MoveHoleDownAndFill_run size_t less true l0 h [None] (<[length l0 := None]> v) (mkElement y None)) as (p & l' & Hrun & Hp & Hheap & _).
    + done.
    + apply holed_last. lia.
    + rewrite length_insert. unfold v. rewrite length_insert, length_repr, length_app. done.
    + done.
    + unfold GetHeapHandle, read, v. rewrite list_lookup_insert_ne, list_lookup_insert_eq by (rewrite ?length_repr, ?length_app; cbn; lia). cbn. by destruct Hs as [-> | ->].
    + lia.
    + by eapply heap_to_hole, heap_app.
    + done.
    + change (element_ClearHeapHandle _) with (mkElement y None). rewrite Hrun. cbn [mbind exec_bind snd]. rewrite pop_back_repr. exists l'. repeat split; try done.
      rewrite Hp. cbn [value]. rewrite insert_delete_perm by lia. rewrite perm_swap, <- (delete_Permutation l0 h x) by done. by rewrite <- Permutation_cons_append.
Qed.

Lemma MakeHole_repr l i x : l !! i = Some x -> MakeHole i (repr l) = Done (<[i := Some (mkElement x None)]> (repr l)).
Proof using. intros Hx. by rewrite (MakeHole_run i (repr l) (Some (mkElement x (Some i)))) by (by rewrite lookup_repr, Hx). Qed.

Lemma move_slot_insert l i (s : option (element (T := T))) : (i < length l)%nat -> move_slot i (<[i := s]> (repr l)) = Done (s, <[i := None]> (repr l)).
Proof using. intros Hi. unfold move_slot, read. rewrite list_lookup_insert_eq by (by rewrite length_repr). cbn. by rewrite list_insert_insert_eq. Qed.

Lemma take_run l i x : heap less l -> fits l -> l !! i = Some x ->
  exists l', take size_t less i (repr l) = Done (mkElement x None, repr l') /\ Permutation l (x :: l') /\ heap less l'.
Proof using StrictWeakOrder0 size_t_unsigned.
  intros Hl Hfit Hx. unfold take. rewrite (MakeHole_repr _ _ _ Hx). cbn [mbind exec_bind]. rewrite move_slot_insert by (by eapply lookup_lt_Some).
  cbn [mbind exec_bind fst snd defined]. destruct (close_hole_run l i x None) as (l' & -> & ?); eauto.
Qed.

Lemma erase_run l i x : heap less l -> fits l -> l !! i = Some x ->
  exists l', erase size_t less i (repr l) = Done (repr l') /\ Permutation l (x :: l') /\ heap less l'.
Proof using StrictWeakOrder0 size_t_unsigned.
  intros Hl Hfit Hx. unfold erase. rewrite RTC_DCHECK_true by (apply Nat.ltb_lt; rewrite length_repr; by eapply lookup_lt_Some).
  rewrite (MakeHole_repr _ _ _ Hx). cbn [mbind exec_bind]. eapply close_hole_run; eauto.
Qed.

(** A hole somewhere in the vector is filled, up or down. *)
Lemma fill_up l i s e : fits l -> (i < length l)%nat -> heap_hole less l i -> above_children less l i (value e) ->
  exists p l', MoveHoleUpAndFill size_t less i e (<[i := s]> (repr l)) = Done (p, repr l') /\ Permutation l' (<[i := value e]> l) /\ heap less l' /\ l' !! p = Some (value e).
Proof using StrictWeakOrder0.
  intros Hfit Hi Hl HC. destruct (MoveHoleUpAndFill_run size_t less l i [] (<[i := s]> (repr l)) e) as (p & l' & Hrun & ?); try done.
  - split; [done|]. left. exists s. by rewrite app_nil_r.
  - exists p, l'. rewrite app_nil_r in Hrun. by rewrite Hrun.
Qed.

Lemma fill_down l i s e : fits l -> (i < length l)%nat -> (s = None \/ exists x, s = Some (mkElement x None)) -> heap_hole less l i -> below_parent less l i (value e) ->
  exists p l', MoveHoleDownAndFill size_t less false i e (<[i := s]> (repr l)) = Done (p, repr l') /\ Permutation l' (<[i := value e]> l) /\ heap less l' /\ l' !! p = Some (value e).
Proof using StrictWeakOrder0 size_t_unsigned.
  intros Hfit Hi Hs Hl HD. destruct (MoveHoleDownAndFill_run size_t less false l i [] (<[i := s]> (repr l)) e) as (p & l' & Hrun & ?); try done.
  - split; [done|]. left. exists s. by rewrite app_nil_r.
  - rewrite length_insert, length_repr. cbn. lia.
  - unfold GetHeapHandle, read. rewrite list_lookup_insert_eq by (by rewrite length_repr). cbn. by destruct Hs as [-> |[x ->]].
  - exists p, l'. rewrite app_nil_r in Hrun. by rewrite Hrun.
Qed.

(** The value at [i] may have been changed in place: around it the heap is intact. *)
Lemma Update_run l i x : heap_hole less l i -> fits l -> l !! i = Some x ->
  exists p l', Update size_t less i (repr l) = Done (p, repr l') /\ Permutation l' l /\ heap less l' /\ l' !! p = Some x.
Proof using StrictWeakOrder0 size_t_unsigned.
  intros Hl Hfit Hx. pose proof (lookup_lt_Some _ _ _ Hx) as Hi. unfold Update.
  rewrite RTC_DCHECK_true by (apply Nat.ltb_lt; by rewrite length_repr). rewrite (MakeHole_repr _ _ _ Hx). cbn [mbind exec_bind].
  assert (exists b : bool, (if (0 <? i)%nat then Less less i (ParentIndex i) (<[i := Some (mkElement x None)]> (repr l)) else Done true) = Done b /\
    if b then below_parent less l i x else above_children less l i x) as (b & -> & Hb).
  { destruct (Nat.ltb_spec 0 i) as [Hpos|]; [|exists true; split; [done|]; intros a ?; lia]. pose proof (parent_lt i Hpos).
    assert (is_Some (l !! ParentIndex i)) as [a Ha] by (apply lookup_lt_is_Some; lia).
    erewrite Less_run; [|by rewrite list_lookup_insert_eq by (by rewrite length_repr)|by rewrite list_lookup_insert_ne, lookup_repr, Ha by lia].
    exists (less x a). split; [done|]. destruct (less x a) eqn:E; [intros c _ Hc; simplify_eq; by apply less_asym|].
    intros j c Hj Hp Hc. eapply less_negtrans; [exact E|]. by eapply (proj2 Hl). }
  rewrite move_slot_insert by done. cbn [mbind exec_bind fst snd defined].
  assert (<[i := x]> l = l) as Hid by (by apply list_insert_id). destruct b.
  - destruct (fill_down l i None (mkElement x None)) as (p & l' & ? & Hp & ?); try done; [by left|]. exists p, l'. split; [done|]. cbn in Hp. by rewrite Hid in Hp.
  - destruct (fill_up l i None (mkElement x None)) as (p & l' & ? & Hp & ?); try done. exists p, l'. split; [done|]. cbn in Hp. by rewrite Hid in Hp.
Qed.

Lemma ReplaceImpl_run l i x e : heap less l -> fits l -> l !! i = Some x ->
  exists p l', ReplaceImpl size_t less i e (repr l) = Done (p, repr l') /\ Permutation l' (<[i := value e]> l) /\ heap less l' /\ l' !! p = Some (value e).
Proof using StrictWeakOrder0 size_t_unsigned.
  intros Hl Hfit Hx. pose proof (lookup_lt_Some _ _ _ Hx) as Hi. pose proof (heap_to_hole less l i Hl). unfold ReplaceImpl.
  rewrite (MakeHole_repr _ _ _ Hx). cbn [mbind exec_bind]. erewrite Less_element_run by (by rewrite list_lookup_insert_eq by (by rewrite length_repr)).
  cbn [mbind exec_bind]. destruct (less (value e) x) eqn:E.
  - apply fill_down; eauto. intros a Ha0 Ha. eapply less_negtrans; [by eapply (heap_below less l i x)|by apply less_asym].
  - apply fill_up; eauto. intros j c Hj Hp Hc. eapply less_negtrans; [exact E|]. by eapply (heap_above less l i x).
Qed.

Lemma ReplaceTopImpl_run l x e : heap less l -> fits l -> l !! 0%nat = Some x ->
  exists p l', ReplaceTopImpl size_t less e (repr l) = Done (p, repr l') /\ Permutation l' (<[0%nat := value e]> l) /\ heap less l' /\ l' !! p = Some (value e).
Proof using StrictWeakOrder0 size_t_unsigned.
  intros Hl Hfit Hx. pose proof (lookup_lt_Some _ _ _ Hx) as Hi. unfold ReplaceTopImpl. rewrite (MakeHole_repr _ _ _ Hx). cbn [mbind exec_bind].
  apply fill_down; eauto using heap_to_hole. intros a ?. lia.
Qed.

Lemma heap_top_max l x : heap less l -> l !! 0%nat = Some x -> forall i y, l !! i = Some y -> less x y = false.
Proof using StrictWeakOrder0.
  intros Hl Hx i. induction i as [i IH] using (well_founded_induction Nat.lt_wf_0). intros y Hy. destruct (Nat.eq_dec i 0%nat) as [->|Hne].
  - simplify_eq. by apply less_irrefl.
  - pose proof (parent_lt i ltac:(lia)) as Hlt. assert (is_Some (l !! ParentIndex i)) as [a Ha] by (apply lookup_lt_is_Some; pose proof (lookup_lt_Some _ _ _ Hy); lia).
    eapply less_negtrans; [by eapply (IH _ Hlt)|]. eapply (Hl i); (done || lia).
Qed.

Lemma clear_handles_run n i (v : list (option (element (T := T)))) : (i + n <= length v)%nat -> exists v', clear_handles n i v = Done v'.
Proof using.
  revert i v. induction n as [|n IH]; intros i v Hv; cbn [clear_handles]; [by exists v|].
  assert (is_Some (v !! i)) as [s Hs] by (apply lookup_lt_is_Some; lia). rewrite (ClearHeapHandle_run _ _ _ Hs). cbn [mbind exec_bind]. apply IH. rewrite length_insert. lia.
Qed.

Lemma clear_run (v : list (option (element (T := T)))) : clear v = Done [].
Proof using. unfold clear. destruct (clear_handles_run (length v) 0 v) as [v' ->]; done. Qed.

End Operations.

(** ** Calls on a heap *)

Section Calls.
Context {T : Type} {build : Build} (size_t : int_type) (less : T -> T -> bool).

(** The calls of a client.  [Change] is a change of the value of an element in place,
    followed by [Update]. *)
Inductive call :=
  | Insert (x : T) | InsertRange (l : list T) | Take (pos : nat) | Erase (pos : nat) | TakeTop | Pop
  | Change (pos : nat) (x : T) | Replace (pos : nat) (x : T) | ReplaceTop (x : T) | Clear.

Definition set_value (x : T) (e : element (T := T)) : element (T := T) := mkElement x (handle_ e).

Definition run_call (c : call) (v : list (option (element (T := T)))) : exec (list (option (element (T := T)))) :=
  match c with
  | Insert x => r ← insert size_t less x v; Done r.2
  | InsertRange l => insert_range size_t less l v
  | Take pos => r ← take size_t less pos v; Done r.2
  | Erase pos => erase size_t less pos v
  | TakeTop => r ← take_top size_t less v; Done r.2
  | Pop => pop size_t less v
  | Change pos x => v ← update_slot (set_value x) pos v; r ← Update size_t less pos v; Done r.2
  | Replace pos x => r ← ReplaceImpl size_t less pos (new_element x) v; Done r.2
  | ReplaceTop x => r ← ReplaceTopImpl size_t less (new_element x) v; Done r.2
  | Clear => clear v
  end.

Fixpoint run_calls (cs : list call) (v : list (option (element (T := T)))) : exec (list (option (element (T := T)))) :=
  match cs with [] => Done v | c :: cs => v ← run_call c v; run_calls cs v end.

(** What a call does to the multiset of the values, kept as a list in which the position of
    a value is the index of its handle. *)
Inductive effect (l : list T) : call -> list T -> Prop :=
  | effect_insert x l' : Permutation l' (x :: l) -> effect l (Insert x) l'
  | effect_range k l' : Permutation l' (l ++ k) -> effect l (InsertRange k) l'
  | effect_take pos x l' : l !! pos = Some x -> Permutation l (x :: l') -> effect l (Take pos) l'
  | effect_erase pos x l' : l !! pos = Some x -> Permutation l (x :: l') -> effect l (Erase pos) l'
  | effect_take_top x l' : (forall y, In y l -> less x y = false) -> Permutation l (x :: l') -> effect l TakeTop l'
  | effect_pop x l' : (forall y, In y l -> less x y = false) -> Permutation l (x :: l') -> effect l Pop l'
  | effect_change pos x l' : Permutation l' (<[pos := x]> l) -> effect l (Change pos x) l'
  | effect_replace pos x l' : Permutation l' (<[pos := x]> l) -> effect l (Replace pos x) l'
  | effect_replace_top x l' : Permutation l' (<[0%nat := x]> l) -> effect l (ReplaceTop x) l'
  | effect_clear : effect l Clear [].

(** What a client must know: a position of an element, or that the heap is not empty. *)
Definition call_requires (c : call) (l : list T) : bool :=
  match c with
  | Insert _ | InsertRange _ | Clear => true
  | Take pos | Erase pos | Change pos _ | Replace pos _ => (pos <? length l)%nat
  | TakeTop | Pop | ReplaceTop _ => (0 <? length l)%nat
  end.

(** The number of elements that a call adds at most. *)
Definition added (c : call) : Z :=
  match c with Insert _ => 1 | InsertRange k => Z.of_nat (length k) | _ => 0 end.

Context `{!StrictWeakOrder less} (size_t_unsigned : is_signed size_t = false).

Lemma heap_change (l : list T) i x : heap less l -> heap_hole less (<[i := x]> l) i.
Proof using StrictWeakOrder0.
  intros Hl. destruct (heap_to_hole less l i Hl) as [HA HB]. split.
  - intros j a b Hj Hji Hpi Ha Hb. rewrite list_lookup_insert_ne in Ha, Hb by done. by eapply HA.
  - intros j a b Hi Hj Hp Ha Hb. pose proof (parent_lt j Hj). pose proof (parent_lt i Hi). rewrite list_lookup_insert_ne in Ha, Hb by lia. by eapply HB.
Qed.

Lemma update_slot_repr (l : list T) i x : (i < length l)%nat -> update_slot (set_value x) i (repr l) = Done (repr (<[i := x]> l)).
Proof using.
  intros Hi. destruct (lookup_lt_is_Some_2 _ _ Hi) as [y Hy]. unfold update_slot, read. rewrite lookup_repr, Hy. cbn. by rewrite <- repr_insert.
Qed.

Lemma run_call_ok c l : heap less l -> call_requires c l = true -> Z.of_nat (length l) + added c <= max_size size_t ->
  exists l', run_call c (repr l) = Done (repr l') /\ heap less l' /\ effect l c l' /\ Z.of_nat (length l') <= Z.of_nat (length l) + added c.
Proof using StrictWeakOrder0 size_t_unsigned.
  intros Hl Hreq Hfit. assert (forall i, (i < length l)%nat -> exists x, l !! i = Some x) as Hin by (intros i Hi; by apply lookup_lt_is_Some).
  assert (forall i x, l !! i = Some x -> forall e : element (T := T), Permutation (<[i := value e]> l) (<[i := value e]> l)) as _ by done.
  destruct c; cbn [call_requires added] in *; rewrite ?Nat.ltb_lt in Hreq; cbn [run_call].
  - destruct (insert_run size_t less l x Hl ltac:(lia)) as (p & l' & -> & Hp & Hh & _). exists l'. repeat split; [done|by constructor|]. rewrite (Permutation_length Hp). cbn. lia.
  - destruct (insert_range_run size_t less l0 l Hl Hfit) as (l' & -> & Hp & Hh). exists l'. repeat split; [done|by constructor|]. rewrite (Permutation_length Hp), length_app. lia.
  - destruct (Hin pos Hreq) as [x Hx]. destruct (take_run size_t less size_t_unsigned l pos x Hl ltac:(lia) Hx) as (l' & -> & Hp & Hh). exists l'. repeat split; [done|by econstructor|]. rewrite (Permutation_length Hp). cbn. lia.
  - destruct (Hin pos Hreq) as [x Hx]. destruct (erase_run size_t less size_t_unsigned l pos x Hl ltac:(lia) Hx) as (l' & -> & Hp & Hh). exists l'. repeat split; [done|by econstructor|]. rewrite (Permutation_length Hp). cbn. lia.
  - destruct (Hin 0%nat Hreq) as [x Hx]. destruct (take_run size_t less size_t_unsigned l 0%nat x Hl ltac:(lia) Hx) as (l' & Hr & Hp & Hh). unfold take_top. rewrite Hr.
    exists l'. repeat split; [done| |rewrite (Permutation_length Hp); cbn; lia]. econstructor; [|done]. intros y [i Hy]%list_elem_of_In%list_elem_of_lookup. by apply (heap_top_max less l x Hl Hx i).
  - destruct (Hin 0%nat Hreq) as [x Hx]. destruct (erase_run size_t less size_t_unsigned l 0%nat x Hl ltac:(lia) Hx) as (l' & Hr & Hp & Hh). unfold pop. rewrite Hr.
    exists l'. repeat split; [done| |rewrite (Permutation_length Hp); cbn; lia]. econstructor; [|done]. intros y [i Hy]%list_elem_of_In%list_elem_of_lookup. by apply (heap_top_max less l x Hl Hx i).
  - rewrite update_slot_repr by done. cbn [mbind exec_bind]. destruct (Update_run size_t less size_t_unsigned (<[pos := x]> l) pos x) as (p & l' & -> & Hp & Hh & _);
      [by apply heap_change|rewrite length_insert; lia|by apply list_lookup_insert_eq|]. exists l'. repeat split; [done|by constructor|]. rewrite (Permutation_length Hp), length_insert. lia.
  - destruct (Hin pos Hreq) as [y Hy]. destruct (ReplaceImpl_run size_t less size_t_unsigned l pos y (new_element x) Hl ltac:(lia) Hy) as (p & l' & -> & Hp & Hh & _).
    exists l'. repeat split; [done|by constructor|]. rewrite (Permutation_length Hp), length_insert. lia.
  - destruct (Hin 0%nat Hreq) as [y Hy]. destruct (ReplaceTopImpl_run size_t less size_t_unsigned l y (new_element x) Hl ltac:(lia) Hy) as (p & l' & -> & Hp & Hh & _).
    exists l'. repeat split; [done|by constructor|]. rewrite (Permutation_length Hp), length_insert. lia.
  - rewrite clear_run. exists []. repeat split; [apply heap_nil|constructor|cbn; lia].
Qed.

(** The states that calls lead to. *)
Inductive effects : list T -> list call -> list T -> Prop :=
  | effects_nil l : effects l [] l
  | effects_cons l c l1 cs l2 : effect l c l1 -> call_requires c l = true -> effects l1 cs l2 -> effects l (c :: cs) l2.

(** Take the top until the heap is empty: the elements in the order they come. *)
Fixpoint drain (n : nat) (v : list (option (element (T := T)))) : exec (list T) :=
  match n with
  | O => Done []
  | Datatypes.S n => if empty v then Done [] else r ← take_top size_t less v; l ← drain n r.2; Done (value r.1 :: l)
  end.

Lemma drain_run n l : heap less l -> Z.of_nat (length l) <= max_size size_t -> (length l <= n)%nat ->
  exists l', drain n (repr l) = Done l' /\ Permutation l' l /\ StronglySorted (fun a b => less a b = false) l'.
Proof using StrictWeakOrder0 size_t_unsigned.
  revert l. induction n as [|n IH]; intros l Hl Hfit Hn; cbn [drain].
  - exists []. destruct l; [|cbn in Hn; lia]. repeat split; constructor.
  - unfold empty. rewrite length_repr. destruct (Nat.eqb_spec (length l) 0%nat) as [Hz|Hz].
    + exists []. destruct l; [|done]. repeat split; constructor.
    + assert (exists x, l !! 0%nat = Some x) as [x Hx] by (apply lookup_lt_is_Some; lia).
      destruct (take_run size_t less size_t_unsigned l 0%nat x Hl Hfit Hx) as (l1 & Hr & Hp & Hl1). unfold take_top. rewrite Hr. cbn [mbind exec_bind fst snd value].
      pose proof (Permutation_length Hp) as Hlen. cbn in Hlen. destruct (IH l1 Hl1 ltac:(lia) ltac:(lia)) as (l2 & -> & Hp2 & Hs). cbn [mbind exec_bind].
      exists (x :: l2). repeat split; [by rewrite Hp2|]. constructor; [done|]. apply List.Forall_forall. intros y Hy.
      assert (In y l) as [i Hi]%list_elem_of_In%list_elem_of_lookup. { rewrite Hp. right. by rewrite <- Hp2. }
      by apply (heap_top_max less l x Hl Hx i).
Qed.

(** A sorted list is the only one with its elements, when incomparable elements are equal. *)
Lemma sorted_elements (a b : list T) : (forall x y, less x y = false -> less y x = false -> x = y) -> Permutation a b ->
  StronglySorted (fun a b => less a b = false) a -> StronglySorted (fun a b => less a b = false) b -> a = b.
Proof using.
  intros Heq Hp Ha. revert b Hp. induction Ha as [|x a Ha IH Hx]; intros b Hp Hb.
  - by apply Permutation_nil in Hp.
  - destruct Hb as [|y b Hb Hy]; [by apply Permutation_sym, Permutation_nil in Hp|].
    assert (x = y) as ->.
    { rewrite List.Forall_forall in Hx, Hy. assert (In y (x :: a)) as [->|Hin] by (rewrite Hp; by left); [done|].
      assert (In x (y :: b)) as [->|Hin'] by (rewrite <- Hp; by left); [done|]. apply Heq; auto. }
    f_equal. apply IH; [by eapply Permutation_cons_inv|done].
Qed.

End Calls.

Arguments Insert {T} _.
Arguments InsertRange {T} _.
Arguments Take {T} _.
Arguments Erase {T} _.
Arguments TakeTop {T}.
Arguments Pop {T}.
Arguments Change {T} _ _.
Arguments Replace {T} _ _.
Arguments ReplaceTop {T} _.
Arguments Clear {T}.

#[export] Instance Zltb_order : StrictWeakOrder Z.ltb.
Proof. split; intros; rewrite ?Z.ltb_lt, ?Z.ltb_ge in *; lia. Qed.

(** ** Sequences of calls that keep the contract *)

Section Sequences.
Context {T : Type} {build : Build} (size_t : int_type) (less : T -> T -> bool).

(** The size after a call. *)
Definition size_after (c : call (T := T)) (n : nat) : nat :=
  match c with
  | Insert _ => Datatypes.S n | InsertRange k => (n + length k)%nat
  | Take _ | Erase _ | TakeTop | Pop => (n - 1)%nat
  | Clear => 0%nat | _ => n
  end.

(** The contract, which is one of sizes only. *)
Definition call_within (c : call (T := T)) (n : nat) : bool :=
  match c with
  | Insert _ | InsertRange _ | Clear => Z.of_nat (size_after c n) <=? max_size size_t
  | Take pos | Erase pos | Change pos _ | Replace pos _ => (pos <? n)%nat
  | TakeTop | Pop | ReplaceTop _ => (0 <? n)%nat
  end.

Fixpoint calls_within (cs : list (call (T := T))) (n : nat) : bool :=
  match cs with [] => true | c :: cs => call_within c n && calls_within cs (size_after c n) end.

Context `{!StrictWeakOrder less} (size_t_unsigned : is_signed size_t = false).

Lemma effect_size l c l' : effect less l c l' -> length l' = size_after c (length l).
Proof using.
  intros He; inversion He; subst; cbn [size_after];
    repeat match goal with H : Permutation _ _ |- _ => apply Permutation_length in H end; rewrite ?length_app, ?length_insert in *; cbn [length] in *; lia.
Qed.

Lemma within_requires c (l : list T) : call_within c (length l) = true -> Z.of_nat (length l) <= max_size size_t ->
  call_requires c l = true /\ Z.of_nat (length l) + added c <= max_size size_t.
Proof using. unfold call_within, call_requires, added, size_after. destruct c; rewrite ?Nat.ltb_lt, ?Z.leb_le; intros; (split; [done|lia]). Qed.

(** A call on a heap, whatever it is. *)
Definition call_result (c : call (T := T)) (l : list T) (r : exec (list (option (element (T := T))))) : Prop :=
  if call_requires c l then
    if Z.of_nat (length l) + added c <=? max_size size_t then exists l', r = Done (repr l') /\ heap less l' /\ effect less l c l'
    else r = Fatal
  else r = match c with Change _ _ => Undef | _ => if rtc_dcheck_is_on then Fatal else Undef end.

Lemma MakeHole_out i (v : list (option (element (T := T)))) : (length v <= i)%nat -> MakeHole i v = if rtc_dcheck_is_on then Fatal else Undef.
Proof using.
  intros Hi. unfold MakeHole, RTC_DCHECK. rewrite (proj2 (Nat.ltb_ge _ _) Hi). destruct rtc_dcheck_is_on; [done|]. cbn.
  unfold ClearHeapHandle, update_slot, read. by rewrite lookup_ge_None_2.
Qed.

Lemma insert_range_full k l : heap less l -> Z.of_nat (length l) <= max_size size_t -> max_size size_t < Z.of_nat (length l) + Z.of_nat (length k) ->
  insert_range size_t less k (repr l) = Fatal.
Proof using StrictWeakOrder0.
  revert l. induction k as [|x k IH]; intros l Hl Hfit Hover; cbn [length insert_range] in *; [lia|].
  destruct (Z_lt_le_dec (Z.of_nat (length l)) (max_size size_t)) as [Hlt|Hge].
  - destruct (insert_run size_t less l x Hl ltac:(lia)) as (p & l1 & -> & Hp & Hl1 & _). cbn [mbind exec_bind snd].
    apply Permutation_length in Hp. cbn in Hp. apply IH; [done|lia|lia].
  - by rewrite insert_full.
Qed.

End Sequences.

(** ** Properties *)

(** C9: Calls of an [IntrusiveHeap] that keep to the positions there are, and to the size a
    vector can have, all return; they leave a vector in which each element holds the handle
    of its position and none is greater than its parent; and each does to the multiset of
    the values what it says: [insert] adds, [take] and [erase] remove the value at the
    position, [take_top] and [pop] one that no other exceeds, [Update] and [Replace] put the
    new value in the place of the old one. *)
Theorem heap_calls {T} {build : Build} size_t (less : T -> T -> bool) cs l :
  StrictWeakOrder less -> is_signed size_t = false -> heap less l -> Z.of_nat (length l) <= max_size size_t ->
  calls_within size_t cs (length l) = true ->
  exists l', run_calls size_t less cs (repr l) = Done (repr l') /\ heap less l' /\ effects less l cs l'.
Proof.
  intros Hless Hu. revert l. induction cs as [|c cs IH]; intros l Hl Hfit Hok; cbn [run_calls calls_within] in *.
  - exists l. repeat split; [done|constructor].
  - apply andb_true_iff in Hok as [Hc Hcs]. destruct (within_requires size_t c l Hc Hfit) as [Hreq Hroom].
    destruct (run_call_ok size_t less Hu c l Hl Hreq Hroom) as (l1 & -> & Hl1 & He & Hlen). cbn [mbind exec_bind].
    destruct (IH l1 Hl1 ltac:(lia)) as (l2 & -> & Hl2 & He2); [by erewrite effect_size|]. exists l2. repeat split; [done|by econstructor].
Qed.

Lemma heap_calls_witness : exists l', run_calls (build := debug_x64) Uint64 Z.ltb [InsertRange [3; 1; 4; 1; 5]; Change 4%nat 9; TakeTop; ReplaceTop 2; Erase 1%nat] (repr []) = Done (repr l') /\
  heap Z.ltb l' /\ effects Z.ltb [] [InsertRange [3; 1; 4; 1; 5]; Change 4%nat 9; TakeTop; ReplaceTop 2; Erase 1%nat] l'.
Proof.
  apply (heap_calls (build := debug_x64) Uint64 Z.ltb); [exact Zltb_order|reflexivity|intros j a b _ Ha; discriminate Ha|by vm_compute|by vm_compute].
Defined.

Example run_calls_ex : run_calls (build := debug_x64) Uint64 Z.ltb [InsertRange [3; 1; 4; 1; 5]; Change 4%nat 9; TakeTop; ReplaceTop 2; Erase 1%nat] [] = Done (repr [4; 1; 3]).
Proof. vm_compute. reflexivity. Qed.

(** C10: What a call of a heap does when the position is not in it, when it is empty or when
    there is no room is settled too: outside of its contract a call never returns, it stops
    the program or, where there is no check, is undefined. *)
Theorem heap_call_result {T} {build : Build} size_t (less : T -> T -> bool) c l :
  StrictWeakOrder less -> is_signed size_t = false -> heap less l -> Z.of_nat (length l) <= max_size size_t ->
  call_result size_t less c l (run_call size_t less c (repr l)).
Proof.
  intros Hless Hu Hl Hfit. unfold call_result. destruct (call_requires c l) eqn:Hreq.
  - destruct (Z.leb_spec (Z.of_nat (length l) + added c) (max_size size_t)) as [Hroom|Hroom].
    + destruct (run_call_ok size_t less Hu c l Hl Hreq Hroom) as (l' & -> & ? & ? & _). by exists l'.
    + destruct c; cbn [added] in Hroom; try lia; cbn [run_call]; [by rewrite insert_full by lia|by apply insert_range_full].
  - destruct c; try discriminate; cbn [call_requires] in Hreq; rewrite ?Nat.ltb_ge in Hreq; cbn [run_call]; unfold take_top, pop, take, erase, ReplaceImpl, ReplaceTopImpl.
    1,3,6,7: rewrite MakeHole_out by (rewrite length_repr; lia); by destruct rtc_dcheck_is_on.
    1,2: unfold RTC_DCHECK at 1; rewrite length_repr, (proj2 (Nat.ltb_ge _ _) Hreq), MakeHole_out by (rewrite length_repr; lia); by destruct rtc_dcheck_is_on.
    unfold update_slot, read. by rewrite lookup_ge_None_2 by (by rewrite length_repr).
Qed.

Lemma heap_call_result_witness : call_result (build := debug_x64) Uint64 Z.ltb (Take 1%nat) [5] (run_call (build := debug_x64) Uint64 Z.ltb (Take 1%nat) (repr [5])).
Proof.
  apply (heap_call_result (build := debug_x64) Uint64 Z.ltb (Take 1%nat) [5]); [exact Zltb_order|reflexivity| |by vm_compute].
  intros [|[|j]] a b Hj Ha Hb; [lia|discriminate Hb|discriminate Hb].
Defined.

(** Values inserted in a heap come out of it in order: taking the top until the heap is
    empty gives the values that went in, none of them greater than one before it. *)
Theorem heap_sorts {T} {build : Build} size_t (less : T -> T -> bool) k :
  StrictWeakOrder less -> is_signed size_t = false -> Z.of_nat (length k) <= max_size size_t ->
  exists l, (v ← insert_range size_t less k []; drain size_t less (length k) v) = Done l /\
    Permutation l k /\ StronglySorted (fun a b => less a b = false) l.
Proof.
  intros Hless Hu Hk. destruct (insert_range_run size_t less k [] (heap_nil less)) as (l & Hr & Hp & Hl); [done|]. change (repr []) with (@nil (option (element (T := T)))) in Hr.
  rewrite Hr. cbn [mbind exec_bind]. cbn [app] in Hp. pose proof (Permutation_length Hp) as Hlen.
  destruct (drain_run size_t less Hu (length k) l Hl ltac:(lia) ltac:(lia)) as (l2 & -> & Hp2 & Hs). exists l2. repeat split; [|done]. by rewrite Hp2.
Qed.

Lemma heap_sorts_witness : exists l, (v ← insert_range (build := debug_x64) Uint64 Z.ltb [3; 1; 4; 1; 5] []; drain (build := debug_x64) Uint64 Z.ltb 5 v) = Done l /\
  Permutation l [3; 1; 4; 1; 5] /\ StronglySorted (fun a b => (a <? b) = false) l.
Proof. apply (heap_sorts (build := debug_x64) Uint64 Z.ltb [3; 1; 4; 1; 5]); [exact Zltb_order|reflexivity|by vm_compute]. Defined.

Example drain_ex : (v ← insert_range (build := debug_x64) Uint64 Z.ltb [3; 1; 4; 1; 5] []; drain (build := debug_x64) Uint64 Z.ltb 5 v) = Done [5; 4; 3; 1; 1].
Proof. vm_compute. reflexivity. Qed.

(** ** Copies *)

Section Copies.
Context {T : Type} {build : Build}.
Implicit Types l : list T.

Lemma set_handles_run n (u : list (option (element (T := T)))) (l : list T) :
  length l = n -> (forall i x, l !! i = Some x -> exists k, u !! (length u - n + i)%nat = Some (Some (mkElement x k))) -> (n <= length u)%nat ->
  set_handles n (length u - n) u = Done (firstn (length u - n) u ++ imap (fun i x => Some (mkElement x (Some (length u - n + i)%nat))) l).
Proof.
  revert u l. induction n as [|n IH]; intros u l Hlen Hu Hle; cbn [set_handles].
  - destruct l; [|done]. cbn. by rewrite Nat.sub_0_r, app_nil_r, firstn_all.
  - destruct l as [|x l]; [done|]. injection Hlen as Hlen. destruct (Hu 0%nat x eq_refl) as [k Hk]. rewrite Nat.add_0_r in Hk.
    rewrite (SetHeapHandle_run _ _ _ Hk). cbn [mbind exec_bind option_map]. set (p := (length u - Datatypes.S n)%nat) in *.
    pose proof (lookup_lt_Some _ _ _ Hk) as Hp. set (u' := <[p := _]> u). assert (length u' = length u) as Hlu by apply length_insert.
    replace (p + 1)%nat with (length u' - n)%nat by (rewrite Hlu; lia). rewrite (IH u' l Hlen).
    + f_equal. rewrite Hlu. replace (length u - n)%nat with (Datatypes.S p) by lia. unfold u'. rewrite insert_take_drop by done.
      rewrite firstn_app, length_firstn, Nat.min_l by lia. replace (Datatypes.S p - p)%nat with 1%nat by lia. cbn [firstn].
      rewrite firstn_firstn, Nat.min_r by lia. rewrite <- app_assoc. f_equal. cbn. rewrite Nat.add_0_r. f_equal. apply imap_ext. intros i y _. unfold compose. by rewrite Nat.add_succ_r.
    + intros i y Hy. destruct (Hu (Datatypes.S i) y Hy) as [k' Hk']. exists k'. rewrite Hlu. unfold u'.
      rewrite list_lookup_insert_ne by lia. by replace (length u - n + i)%nat with (p + Datatypes.S i)%nat by lia.
    + lia.
Qed.

Lemma copy_run l : copy (repr l) = Done (repr l).
Proof.
  unfold copy. rewrite length_repr. pose proof (set_handles_run (length l) (repr l) l eq_refl) as H. rewrite length_repr, Nat.sub_diag in H. apply H; [|done].
  intros i x Hx. exists (Some i). rewrite lookup_repr, Nat.add_0_l. by rewrite Hx.
Qed.

End Copies.

(** A copy has the elements of the original, with their handles, except that a heap that is
    assigned to itself is empty afterwards: it is cleared before it is copied. *)
Lemma copy_assign_result {T} {build : Build} other (l : list T) :
  copy_assign (repr <$> other) (repr l) = Done (match other with Some k => repr k | None => [] end).
Proof. unfold copy_assign. rewrite clear_run. cbn [mbind exec_bind]. destruct other as [k|]; cbn; [apply copy_run|done]. Qed.

Lemma move_assign_result {T} {build : Build} (k l : list T) : move_assign (repr k) (repr l) = Done (repr k, []).
Proof. unfold move_assign. by rewrite clear_run. Qed.
