(* ===== verification/CircularDeque.v ===== *)
(** * CircularDeque: base/containers/vector_buffer.h and circular_deque.h

    A double-ended queue in a circular buffer.  A [VectorBuffer] is a list of slots, each
    with an object or raw memory, so that an object that is moved or destroyed is gone from
    its slot; reading, moving or destroying raw memory is undefined.  This is what the code
    does for a type with its own move constructor and destructor; for a trivially copyable
    type the raw slots keep bytes that nothing reads.

    [DCHECK] is on in the builds in which [RTC_DCHECK] is.  Sizes and indices are integers,
    and what the source computes with [size_t] is wrapped with [usz].  [malloc] is a
    parameter: whether an allocation of so many bytes succeeds.  The source does not look at
    its result, so that one that fails counts as undefined. *)

From S2P Require Import Prelude IntTypes.
Open Scope Z_scope.
Open Scope list_scope.

Section Deque.
Context {T : Type} {build : Build} (size_t : int_type) (sizeof_T : Z) (malloc : Z -> bool).

Definition usz (z : Z) : Z := static_cast size_t z.
Definition difference_type : int_type := make_signed size_t.

(** ** VectorBuffer *)

(** The address is the number of the allocation; that of no memory is zero. *)
Record VectorBuffer := mkVectorBuffer { address : nat; slots : list (option T) }.

Definition VectorBuffer_empty : VectorBuffer := mkVectorBuffer 0 [].
Definition VectorBuffer_new (addr : nat) (count : Z) : exec VectorBuffer :=
  RTC_CHECK (in_range size_t (sizeof_T * count)) (
    if malloc (sizeof_T * count) then Done (mkVectorBuffer addr (replicate (Z.to_nat count) None)) else Undef).

Definition VectorBuffer_capacity (b : VectorBuffer) : Z := Z.of_nat (length (slots b)).

(** [operator[]] gives a place, which may be the end. *)
Definition place (i : Z) (b : VectorBuffer) : exec Z := RTC_CHECK (i <=? VectorBuffer_capacity b) (Done i).

Definition get_slot (i : Z) (s : list (option T)) : exec (option T) := if 0 <=? i then defined (s !! Z.to_nat i) else Undef.
Definition set_slot (i : Z) (x : option T) (s : list (option T)) : exec (list (option T)) :=
  _ ← get_slot i s; Done (<[Z.to_nat i := x]> s).

(** The object in a slot. *)
Definition load (i : Z) (s : list (option T)) : exec T := x ← get_slot i s; defined x.

(** Its destructor, and its move from one slot to another. *)
Definition destroy (i : Z) (s : list (option T)) : exec (list (option T)) := _ ← load i s; set_slot i None s.

(** The loop of [DestructRange], over [n] objects. *)
Fixpoint destroy_n (n : nat) (i : Z) (s : list (option T)) : exec (list (option T)) :=
  match n with O => Done s | Datatypes.S n => s ← destroy i s; destroy_n n (i + 1) s end.

Definition VectorBuffer_DestructRange (first last : Z) (s : list (option T)) : exec (list (option T)) :=
  RTC_CHECK (first <=? last) (destroy_n (Z.to_nat (last - first)) first s).

Definition RangesOverlap (from_begin from_end to : Z) : bool :=
  negb ((from_end <=? to) || (to + (from_end - from_begin) <=? from_begin)).

(** The loop of [MoveRange] within a buffer, and from one buffer to another, whose memory
    does not overlap. *)
Fixpoint move_n (n : nat) (from to : Z) (s : list (option T)) : exec (list (option T)) :=
  match n with
  | O => Done s
  | Datatypes.S n => x ← load from s; s ← set_slot to (Some x) s; s ← destroy from s; move_n n (from + 1) (to + 1) s
  end.

Definition MoveRange (from_begin from_end to : Z) (s : list (option T)) : exec (list (option T)) :=
  RTC_CHECK (negb (RangesOverlap from_begin from_end to)) (move_n (Z.to_nat (from_end - from_begin)) from_begin to s).

Fixpoint move_across_n (n : nat) (from to : Z) (s t : list (option T)) : exec (list (option T) * list (option T)) :=
  match n with
  | O => Done (s, t)
  | Datatypes.S n => x ← load from s; t ← set_slot to (Some x) t; s ← destroy from s; move_across_n n (from + 1) (to + 1) s t
  end.

(** ** The deque

    [this] is the identity of the object, [mallocs] the number of allocations made. *)

Record circular_deque := mkDeque {
  this : nat; buffer_ : VectorBuffer; begin_ : Z; end_ : Z; generation_ : Z; mallocs : nat
}.

Definition set_slots (s : list (option T)) (d : circular_deque) : circular_deque :=
  mkDeque (this d) (mkVectorBuffer (address (buffer_ d)) s) (begin_ d) (end_ d) (generation_ d) (mallocs d).
Definition set_begin (i : Z) (d : circular_deque) : circular_deque :=
  mkDeque (this d) (buffer_ d) i (end_ d) (generation_ d) (mallocs d).
Definition set_end (i : Z) (d : circular_deque) : circular_deque :=
  mkDeque (this d) (buffer_ d) (begin_ d) i (generation_ d) (mallocs d).
Definition set_buffer (b : VectorBuffer) (d : circular_deque) : circular_deque :=
  mkDeque (this d) b (begin_ d) (end_ d) (generation_ d) (mallocs d).

Definition kCircularBufferInitialCapacity : Z := 3.

(** [buffer_.capacity()]. *)
Definition internal_capacity (d : circular_deque) : Z := VectorBuffer_capacity (buffer_ d).

Definition capacity (d : circular_deque) : Z :=
  if internal_capacity d =? 0 then 0 else usz (internal_capacity d - 1).

Definition size (d : circular_deque) : Z :=
  if begin_ d <=? end_ d then usz (end_ d - begin_ d) else usz (internal_capacity d - begin_ d + end_ d).

Definition empty (d : circular_deque) : bool := begin_ d =? end_ d.

Definition IncrementGeneration (d : circular_deque) : circular_deque :=
  mkDeque (this d) (buffer_ d) (begin_ d) (end_ d)
    (if rtc_dcheck_is_on then static_cast Uint64 (generation_ d + 1) else generation_ d) (mallocs d).

Definition new_deque (id : nat) : circular_deque := mkDeque id VectorBuffer_empty 0 0 0 0.

(** *** Iterators *)

Record iterator := mkIterator { parent_deque_ : nat; index_ : Z; created_generation_ : Z }.

Definition make_iterator (d : circular_deque) (i : Z) : iterator := mkIterator (this d) i (generation_ d).
Definition begin (d : circular_deque) : iterator := make_iterator d (begin_ d).
Definition end' (d : circular_deque) : iterator := make_iterator d (end_ d).
Definition at_index (it : iterator) (i : Z) : iterator := mkIterator (parent_deque_ it) i (created_generation_ it).

Definition CheckValidIndex (i : Z) (d : circular_deque) : bool :=
  if begin_ d <=? end_ d then (begin_ d <=? i) && (i <? end_ d)
  else (begin_ d <=? i) && (i <? internal_capacity d) || (i <? end_ d).

Definition CheckValidIndexOrEnd (i : Z) (d : circular_deque) : bool :=
  if negb (i =? end_ d) then CheckValidIndex i d else true.

Definition CheckUnstableUsage (it : iterator) (d : circular_deque) : bool := created_generation_ it =? generation_ d.
Definition CheckComparable (lhs rhs : iterator) : bool :=
  (parent_deque_ lhs =? parent_deque_ rhs)%nat && (created_generation_ lhs =? created_generation_ rhs).
Definition ValidateIterator (it : iterator) (d : circular_deque) : bool :=
  (parent_deque_ it =? this d)%nat && CheckUnstableUsage it d.

Definition OffsetFromBegin (it : iterator) (d : circular_deque) : Z :=
  if begin_ d <=? index_ it then usz (index_ it - begin_ d) else usz (internal_capacity d - begin_ d + index_ it).

(** [operator*], whose result is an object's place here. *)
Definition iterator_place (it : iterator) (d : circular_deque) : exec Z :=
  RTC_DCHECK (CheckUnstableUsage it d) (RTC_DCHECK (CheckValidIndex (index_ it) d) (place (index_ it) (buffer_ d))).

Definition Increment (it : iterator) (d : circular_deque) : exec iterator :=
  RTC_DCHECK (CheckUnstableUsage it d) (RTC_DCHECK (CheckValidIndex (index_ it) d) (
    let i := usz (index_ it + 1) in Done (at_index it (if i =? internal_capacity d then 0 else i)))).

Definition Decrement (it : iterator) (d : circular_deque) : exec iterator :=
  RTC_DCHECK (CheckUnstableUsage it d) (RTC_DCHECK (CheckValidIndexOrEnd (index_ it) d) (
    Done (at_index it (if index_ it =? 0 then usz (internal_capacity d - 1) else usz (index_ it - 1))))).

Definition Add (delta : Z) (it : iterator) (d : circular_deque) : exec iterator :=
  RTC_DCHECK (CheckUnstableUsage it d) (
  RTC_DCHECK (if delta <=? 0 then CheckValidIndexOrEnd (index_ it) d else CheckValidIndex (index_ it) d) (
    if delta =? 0 then Done it else
    let new_offset := static_cast difference_type (usz (OffsetFromBegin it d + delta)) in
    RTC_DCHECK ((0 <=? new_offset) && (new_offset <=? static_cast difference_type (size d))) (
      if internal_capacity d =? 0 then Undef
      else Done (at_index it (usz (new_offset + begin_ d) mod internal_capacity d))))).

(** [it - offset]. *)
Definition Subtract (offset : Z) (it : iterator) (d : circular_deque) : exec iterator :=
  delta ← defined (c_neg difference_type offset); Add delta it d.

Definition iterator_difference (lhs rhs : iterator) (d : circular_deque) : exec Z :=
  RTC_DCHECK (CheckComparable lhs rhs) (Done (static_cast difference_type (usz (OffsetFromBegin lhs d - OffsetFromBegin rhs d)))).
Definition iterator_eq (lhs rhs : iterator) : exec bool :=
  RTC_DCHECK (CheckComparable lhs rhs) (Done (index_ lhs =? index_ rhs)).
Definition iterator_lt (lhs rhs : iterator) (d : circular_deque) : exec bool :=
  RTC_DCHECK (CheckComparable lhs rhs) (Done (OffsetFromBegin lhs d <? OffsetFromBegin rhs d)).
Definition iterator_gt (lhs rhs : iterator) (d : circular_deque) : exec bool :=
  RTC_DCHECK (CheckComparable lhs rhs) (Done (OffsetFromBegin rhs d <? OffsetFromBegin lhs d)).

(** *** Access *)

Definition read_place (i : Z) (d : circular_deque) : exec T := load i (slots (buffer_ d)).

Definition at_ (i : Z) (d : circular_deque) : exec T :=
  RTC_DCHECK (i <? size d) (
    let right_size := usz (internal_capacity d - begin_ d) in
    p ← (if (begin_ d <=? end_ d) || (i <? right_size) then place (usz (begin_ d + i)) (buffer_ d) else place (usz (i - right_size)) (buffer_ d));
    read_place p d).

(** The places that [front] and [back] refer to. *)
Definition front (d : circular_deque) : exec Z := RTC_DCHECK (negb (empty d)) (place (begin_ d) (buffer_ d)).
Definition back (d : circular_deque) : exec Z :=
  RTC_DCHECK (negb (empty d)) (it ← Decrement (end' d) d; iterator_place it d).

(** *** Capacity *)

(** [MoveBuffer]: both buffers and the new [begin_] and [end_]. *)
Definition MoveBuffer (from_buf : VectorBuffer) (from_begin from_end : Z) (to_buf : VectorBuffer) : exec (VectorBuffer * VectorBuffer * Z * Z) :=
  let from_capacity := VectorBuffer_capacity from_buf in
  if from_begin <? from_end then
    a ← place from_begin from_buf; z ← place from_end from_buf;
    r ← move_across_n (Z.to_nat (z - a)) a 0 (slots from_buf) (slots to_buf);
    Done (mkVectorBuffer (address from_buf) r.1, mkVectorBuffer (address to_buf) r.2, 0, usz (from_end - from_begin))
  else if from_end <? from_begin then
    a ← place from_begin from_buf; z ← place from_capacity from_buf;
    r ← move_across_n (Z.to_nat (z - a)) a 0 (slots from_buf) (slots to_buf);
    let right_size := usz (from_capacity - from_begin) in
    z ← place from_end from_buf; t ← place right_size to_buf;
    r ← move_across_n (Z.to_nat z) 0 t r.1 r.2;
    Done (mkVectorBuffer (address from_buf) r.1, mkVectorBuffer (address to_buf) r.2, 0, usz (right_size + from_end))
  else Done (from_buf, to_buf, 0, 0).

Definition SetCapacityTo (new_capacity : Z) (d : circular_deque) : exec circular_deque :=
  new_buffer ← VectorBuffer_new (Datatypes.S (mallocs d)) (usz (new_capacity + 1));
  r ← MoveBuffer (buffer_ d) (begin_ d) (end_ d) new_buffer;
  Done (mkDeque (this d) r.1.1.2 r.1.2 r.2 (generation_ d) (Datatypes.S (mallocs d))).

Definition ExpandCapacityIfNecessary (additional_elts : Z) (d : circular_deque) : exec circular_deque :=
  let min_new_capacity := usz (size d + additional_elts) in
  if min_new_capacity <=? capacity d then Done d else
  let min_new_capacity := Z.max min_new_capacity kCircularBufferInitialCapacity in
  SetCapacityTo (Z.max min_new_capacity (usz (capacity d + capacity d / 4))) d.

Definition ShrinkCapacityIfNecessary (d : circular_deque) : exec circular_deque :=
  if capacity d <=? kCircularBufferInitialCapacity then Done d else
  let sz := size d in
  let empty_spaces := usz (capacity d - sz) in
  if empty_spaces <? sz then Done d else
  let new_capacity := Z.max kCircularBufferInitialCapacity (usz (sz + sz / 4)) in
  if new_capacity <? capacity d then SetCapacityTo new_capacity d else Done d.

Definition reserve (new_capacity : Z) (d : circular_deque) : exec circular_deque :=
  if capacity d <? new_capacity then SetCapacityTo new_capacity d else Done d.

Definition shrink_to_fit (d : circular_deque) : exec circular_deque :=
  if empty d then Done (if negb (internal_capacity d =? 0) then set_buffer VectorBuffer_empty d else d)
  else SetCapacityTo (size d) d.

(** *** Clearing *)

Definition DestructRange (first last : Z) (d : circular_deque) : exec circular_deque :=
  if last =? first then Done d
  else if first <? last then
    a ← place first (buffer_ d); z ← place last (buffer_ d);
    s ← VectorBuffer_DestructRange a z (slots (buffer_ d)); Done (set_slots s d)
  else
    a ← place first (buffer_ d); z ← place (internal_capacity d) (buffer_ d);
    s ← VectorBuffer_DestructRange a z (slots (buffer_ d));
    z ← place last (buffer_ d);
    s ← VectorBuffer_DestructRange 0 z s; Done (set_slots s d).

Definition ClearRetainCapacity (d : circular_deque) : exec circular_deque :=
  d ← DestructRange (begin_ d) (end_ d) d;
  Done (IncrementGeneration (set_end 0 (set_begin 0 d))).

Definition clear (d : circular_deque) : exec circular_deque :=
  d ← ClearRetainCapacity d; Done (set_buffer VectorBuffer_empty d).

(** *** The ends *)

(** An argument is a value of the caller or a reference to an object of a buffer. *)
Inductive argument := Value (x : T) | Reference (addr : nat) (i : Z).

(** The object is read when the new one is constructed; the memory of another buffer is not
    there any more. *)
Definition argument_value (a : argument) (d : circular_deque) : exec T :=
  match a with
  | Value x => Done x
  | Reference addr i => if (addr =? address (buffer_ d))%nat then read_place i d else Undef
  end.

(** [new (&buffer_[i]) T(a)]. *)
Definition construct (i : Z) (a : argument) (d : circular_deque) : exec circular_deque :=
  p ← place i (buffer_ d);
  x ← argument_value a d;
  s ← set_slot p (Some x) (slots (buffer_ d));
  Done (set_slots s d).

Definition emplace_front (a : argument) (d : circular_deque) : exec (Z * circular_deque) :=
  d ← ExpandCapacityIfNecessary 1 d;
  let d := set_begin (if begin_ d =? 0 then usz (internal_capacity d - 1) else usz (begin_ d - 1)) d in
  d ← construct (begin_ d) a (IncrementGeneration d);
  r ← front d;
  Done (r, d).

Definition emplace_back (a : argument) (d : circular_deque) : exec (Z * circular_deque) :=
  d ← ExpandCapacityIfNecessary 1 d;
  d ← construct (end_ d) a d;
  let d := IncrementGeneration (set_end (if end_ d =? usz (internal_capacity d - 1) then 0 else usz (end_ d + 1)) d) in
  r ← back d;
  Done (r, d).

Definition push_front (a : argument) (d : circular_deque) : exec circular_deque := r ← emplace_front a d; Done r.2.
Definition push_back (a : argument) (d : circular_deque) : exec circular_deque := r ← emplace_back a d; Done r.2.

(** [buffer_.DestructRange(&buffer_[i], &buffer_[i + 1])]. *)
Definition destruct_one (i : Z) (d : circular_deque) : exec circular_deque :=
  a ← place i (buffer_ d); z ← place (usz (i + 1)) (buffer_ d);
  s ← VectorBuffer_DestructRange a z (slots (buffer_ d)); Done (set_slots s d).

Definition pop_front (d : circular_deque) : exec circular_deque :=
  RTC_DCHECK (negb (size d =? 0)) (
    d ← destruct_one (begin_ d) d;
    let i := usz (begin_ d + 1) in
    let d := set_begin (if i =? internal_capacity d then 0 else i) d in
    d ← ShrinkCapacityIfNecessary d;
    Done (IncrementGeneration d)).

Definition pop_back (d : circular_deque) : exec circular_deque :=
  RTC_DCHECK (negb (size d =? 0)) (
    let d := set_end (if end_ d =? 0 then usz (internal_capacity d - 1) else usz (end_ d - 1)) d in
    d ← destruct_one (end_ d) d;
    d ← ShrinkCapacityIfNecessary d;
    Done (IncrementGeneration d)).

(** *** Assignment and size

    A loop that has no fuel left is undefined: the theorems show that it never comes to it. *)

Fixpoint push_back_n (n : nat) (a : argument) (d : circular_deque) : exec circular_deque :=
  match n with O => Done d | Datatypes.S n => d ← push_back a d; push_back_n n a d end.

Definition assign (count : Z) (a : argument) (d : circular_deque) : exec circular_deque :=
  d ← ClearRetainCapacity d;
  d ← reserve count d;
  d ← push_back_n (Z.to_nat count) a d;
  Done (IncrementGeneration d).

Fixpoint push_back_list (l : list T) (d : circular_deque) : exec circular_deque :=
  match l with [] => Done d | x :: l => d ← push_back (Value x) d; push_back_list l d end.

(** [assign] of a range that is not in the deque. *)
Definition assign_range (l : list T) (d : circular_deque) : exec circular_deque :=
  d ← ClearRetainCapacity d;
  d ← push_back_list l d;
  Done (IncrementGeneration d).

Definition assign_initializer_list (l : list T) (d : circular_deque) : exec circular_deque :=
  d ← reserve (Z.of_nat (length l)) d; assign_range l d.

(** The loop of [resize]. *)
Fixpoint resize_loop (fuel : nat) (count : Z) (a : argument) (d : circular_deque) : exec circular_deque :=
  if size d <? count then
    match fuel with O => Undef | Datatypes.S fuel => d ← push_back a d; resize_loop fuel count a d end
  else Done d.

(** The argument of the version without one is a new object. *)
Definition resize (count : Z) (a : argument) (d : circular_deque) : exec circular_deque :=
  d ← (if size d <? count then
         let n := usz (count - size d) in
         d ← ExpandCapacityIfNecessary n d; resize_loop (Z.to_nat n) count a d
       else if count <? size d then
         if internal_capacity d =? 0 then Undef else
         let new_end := usz (begin_ d + count) mod internal_capacity d in
         d ← DestructRange new_end (end_ d) d;
         ShrinkCapacityIfNecessary (set_end new_end d)
       else Done d);
  Done (IncrementGeneration d).

(** *** Insertion *)

(** [buffer_.MoveRange(&buffer_[from], &buffer_[from + 1], &buffer_[to])]. *)
Definition move_one (from to : Z) (d : circular_deque) : exec circular_deque :=
  a ← place from (buffer_ d); z ← place (usz (from + 1)) (buffer_ d); t ← place to (buffer_ d);
  s ← MoveRange a z t (slots (buffer_ d)); Done (set_slots s d).

(** The loop of [MakeRoomFor]. *)
Fixpoint shift_right (fuel : nat) (insert_begin src dest : iterator) (d : circular_deque) : exec circular_deque :=
  stop ← iterator_eq src insert_begin;
  if (stop : bool) then Done d else
  match fuel with
  | O => Undef
  | Datatypes.S fuel =>
      src ← Decrement src d; dest ← Decrement dest d;
      d ← move_one (index_ src) (index_ dest) d;
      shift_right fuel insert_begin src dest d
  end.

Definition MakeRoomFor (count : Z) (insert_begin : iterator) (d : circular_deque) : exec (iterator * iterator * circular_deque) :=
  if count =? 0 then Done (insert_begin, insert_begin, d) else
  let begin_offset := OffsetFromBegin insert_begin d in
  let fuel := Z.to_nat (size d) in
  d ← ExpandCapacityIfNecessary count d;
  let cap := internal_capacity d in
  if cap =? 0 then Undef else
  let insert_begin := at_index insert_begin (usz (begin_ d + begin_offset) mod cap) in
  let insert_end := make_iterator d (usz (index_ insert_begin + count) mod cap) in
  let src := end' d in
  let d := set_end (usz (end_ d + count) mod cap) d in
  d ← shift_right fuel insert_begin src (end' d) d;
  Done (insert_begin, insert_end, d).

Fixpoint push_front_n (n : nat) (a : argument) (d : circular_deque) : exec circular_deque :=
  match n with O => Done d | Datatypes.S n => d ← push_front a d; push_front_n n a d end.

(** The loops that construct in the room that was made. *)
Fixpoint fill_count (fuel : nat) (insert_cur insert_end : iterator) (a : argument) (d : circular_deque) : exec circular_deque :=
  go ← iterator_lt insert_cur insert_end d;
  if (go : bool) then
    match fuel with
    | O => Undef
    | Datatypes.S fuel =>
        d ← construct (index_ insert_cur) a d; insert_cur ← Increment insert_cur d;
        fill_count fuel insert_cur insert_end a d
    end
  else Done d.

Fixpoint fill_range (l : list T) (insert_cur insert_end : iterator) (d : circular_deque) : exec circular_deque :=
  go ← iterator_lt insert_cur insert_end d;
  if (go : bool) then
    match l with
    | [] => Undef
    | x :: l =>
        d ← construct (index_ insert_cur) (Value x) d; insert_cur ← Increment insert_cur d;
        fill_range l insert_cur insert_end d
    end
  else Done d.

Definition insert_count (pos : iterator) (count : Z) (a : argument) (d : circular_deque) : exec circular_deque :=
  RTC_DCHECK (ValidateIterator pos d) (
    first ← iterator_eq pos (begin d);
    if (first : bool) then d ← ExpandCapacityIfNecessary count d; push_front_n (Z.to_nat count) a d
    else
      r ← MakeRoomFor count (make_iterator d (index_ pos)) d;
      d ← fill_count (Z.to_nat count) r.1.1 r.1.2 a r.2;
      Done (IncrementGeneration d)).

Definition insert_range (pos : iterator) (l : list T) (d : circular_deque) : exec circular_deque :=
  RTC_DCHECK (ValidateIterator pos d) (
    let inserted_items := Z.of_nat (length l) in
    if inserted_items =? 0 then Done d else
    first ← iterator_eq pos (begin d);
    r ← (if (first : bool) then
           d ← ExpandCapacityIfNecessary inserted_items d;
           let insert_end := begin d in
           if internal_capacity d =? 0 then Undef else
           let d := set_begin (usz (begin_ d + internal_capacity d - inserted_items) mod internal_capacity d) d in
           Done (begin d, insert_end, d)
         else MakeRoomFor inserted_items (make_iterator d (index_ pos)) d);
    d ← fill_range l r.1.1 r.1.2 r.2;
    Done (IncrementGeneration d)).

(** [emplace] and [insert] of one value. *)
Definition emplace (pos : iterator) (a : argument) (d : circular_deque) : exec (iterator * circular_deque) :=
  RTC_DCHECK (ValidateIterator pos d) (
    first ← iterator_eq pos (begin d);
    if (first : bool) then r ← emplace_front a d; Done (begin r.2, r.2)
    else
      let d := IncrementGeneration d in
      r ← MakeRoomFor 1 (make_iterator d (index_ pos)) d;
      d ← construct (index_ r.1.1) a r.2;
      Done (r.1.1, d)).

(** *** Erasure *)

(** The loop of [erase]: the place behind the last object that was moved. *)
Fixpoint shift_left (fuel : nat) (move_src move_src_end move_dest : iterator) (d : circular_deque) : exec (Z * circular_deque) :=
  go ← iterator_lt move_src move_src_end d;
  if (go : bool) then
    match fuel with
    | O => Undef
    | Datatypes.S fuel =>
        d ← move_one (index_ move_src) (index_ move_dest) d;
        move_src ← Increment move_src d; move_dest ← Increment move_dest d;
        shift_left fuel move_src move_src_end move_dest d
    end
  else Done (index_ move_dest, d).

Definition erase (first last : iterator) (d : circular_deque) : exec (iterator * circular_deque) :=
  RTC_DCHECK (ValidateIterator first d) (RTC_DCHECK (ValidateIterator last d) (
    let d := IncrementGeneration d in
    if index_ first =? index_ last then Done (make_iterator d (index_ first), d) else
    d ← DestructRange (index_ first) (index_ last) d;
    if index_ first =? begin_ d then
      let d := set_begin (index_ last) d in Done (make_iterator d (index_ last), d)
    else
      r ← shift_left (Z.to_nat (internal_capacity d)) (make_iterator d (index_ last)) (end' d) (make_iterator d (index_ first)) d;
      let d := set_end r.1 r.2 in
      Done (make_iterator d (index_ first), d))).

Definition erase_at (pos : iterator) (d : circular_deque) : exec (iterator * circular_deque) :=
  last ← Add 1 pos d; erase pos last d.

(** *** Copies, moves and [swap] *)

(** The loop of [assign] over another deque. *)
Fixpoint push_back_from (fuel : nat) (first last : iterator) (other d : circular_deque) : exec circular_deque :=
  stop ← iterator_eq first last;
  if (stop : bool) then Done d else
  match fuel with
  | O => Undef
  | Datatypes.S fuel =>
      p ← iterator_place first other; x ← read_place p other;
      d ← push_back (Value x) d; first ← Increment first other;
      push_back_from fuel first last other d
  end.

Definition assign_from (other d : circular_deque) : exec circular_deque :=
  d ← ClearRetainCapacity d;
  d ← push_back_from (Z.to_nat (size other)) (begin other) (end' other) other d;
  Done (IncrementGeneration d).

Definition copy (id : nat) (other : circular_deque) : exec circular_deque :=
  b ← VectorBuffer_new 1 (usz (size other + 1));
  assign_from other (mkDeque id b 0 0 0 1).

Definition copy_assign (other d : circular_deque) : exec circular_deque :=
  if (this other =? this d)%nat then Done d else
  d ← reserve (size other) d; assign_from other d.

(** The new deque and what is left of the other. *)
Definition moved_from (other : circular_deque) : circular_deque :=
  mkDeque (this other) VectorBuffer_empty 0 0 (generation_ other) (mallocs other).
Definition move (id : nat) (other : circular_deque) : circular_deque * circular_deque :=
  (mkDeque id (buffer_ other) (begin_ other) (end_ other) 0 (mallocs other), moved_from other).

Definition move_assign (other d : circular_deque) : exec (circular_deque * circular_deque) :=
  if (this other =? this d)%nat then Done (d, d) else
  d ← ClearRetainCapacity d;
  Done (IncrementGeneration (mkDeque (this d) (buffer_ other) (begin_ other) (end_ other) (generation_ d) (Nat.max (mallocs d) (mallocs other))), moved_from other).

Definition swap (d other : circular_deque) : circular_deque * circular_deque :=
  (IncrementGeneration (mkDeque (this d) (buffer_ other) (begin_ other) (end_ other) (generation_ d) (mallocs other)),
   mkDeque (this other) (buffer_ d) (begin_ d) (end_ d) (generation_ other) (mallocs d)).

(** The destructor. *)
Definition destructor (d : circular_deque) : exec circular_deque := DestructRange (begin_ d) (end_ d) d.

End Deque.

(** ** What a deque holds *)

Section Views.
Context {T : Type} {build : Build} (size_t : int_type) (sizeof_T : Z) (malloc : Z -> bool) (M : Z).
Implicit Types (l : list T) (f g : Z -> option T) (s : list (option T)) (d : circular_deque (T := T)).

(** The capacity that is never exceeded while there are at most [M] elements. *)
Definition max_capacity : Z := Z.max kCircularBufferInitialCapacity (M + M / 4).

(** Memory for that many slots can be had, and no block is greater than the difference of
    two pointers can be. *)
Class Memory : Prop := {
  size_t_unsigned : is_signed size_t = false;
  sizeof_positive : 1 <= sizeof_T;
  M_nonneg : 0 <= M;
  malloc_small c : 0 <= c <= max_capacity + 1 -> malloc (sizeof_T * c) = true;
  malloc_large n : malloc n = true -> n <= IntTypes.max (make_signed size_t)
}.

(** The slot at each distance from [b], around the buffer. *)
Definition slots_at (b : Z) s f : Prop :=
  forall k, 0 <= k < Z.of_nat (length s) -> s !! Z.to_nat ((b + k) mod Z.of_nat (length s)) = Some (f k).

(** [n] places between [begin_] and [end_]. *)
Record view d (n : Z) f : Prop := {
  view_begin : 0 <= begin_ d < internal_capacity d;
  view_n : 0 <= n < internal_capacity d;
  view_end : end_ d = (begin_ d + n) mod internal_capacity d;
  view_slots : slots_at (begin_ d) (slots (buffer_ d)) f;
  view_cap : internal_capacity d <= max_capacity + 1
}.

(** The deque holds [l], and there is no object in its other slots. *)
Definition holds d l : Prop :=
  internal_capacity d = 0 /\ 0 <= begin_ d /\ begin_ d = end_ d /\ l = [] \/ view d (Z.of_nat (length l)) (fun k => l !! Z.to_nat k).

(** Another state of the same object, in which its iterators are still good. *)
Definition frame d d' : Prop := this d' = this d /\ generation_ d' = generation_ d.

Definition upd f (k : Z) (x : option T) : Z -> option T := fun j => if j =? k then x else f j.

Context {memory : Memory}.

Lemma limit_pos : 0 < max_capacity.
Proof using. unfold max_capacity, kCircularBufferInitialCapacity. lia. Qed.

Lemma deque_max_capacity_limit : max_capacity + 1 <= IntTypes.max (make_signed size_t).
Proof using memory.
  pose proof limit_pos. pose proof sizeof_positive. etrans; [|apply (malloc_large (sizeof_T * (max_capacity + 1))), malloc_small; lia]. nia.
Qed.

Lemma usz_id z : 0 <= z <= 2 * (max_capacity + 1) -> usz size_t z = z.
Proof using memory.
  intros Hz. pose proof deque_max_capacity_limit as Hl. pose proof size_t_unsigned as Hu. unfold usz. apply static_cast_id.
  destruct size_t; try discriminate; limits; lia.
Qed.

Lemma wrap_idx b k c : 0 <= b < c -> 0 <= k < c -> (b + k) mod c = if b + k <? c then b + k else b + k - c.
Proof using.
  intros Hb Hk. destruct (Z.ltb_spec (b + k) c); [by apply Z.mod_small; lia|].
  replace (b + k) with (b + k - c + 1 * c) at 1 by lia. rewrite Z.mod_add by lia. apply Z.mod_small. lia.
Qed.

Lemma idx_bound b k c : 0 < c -> 0 <= (b + k) mod c < c.
Proof using. intros. by apply Z.mod_pos_bound. Qed.

Lemma idx_inj b j k c : 0 <= b < c -> 0 <= j < c -> 0 <= k < c -> (b + j) mod c = (b + k) mod c -> j = k.
Proof using. intros Hb Hj Hk. rewrite !wrap_idx by done. destruct (Z.ltb_spec (b + j) c), (Z.ltb_spec (b + k) c); lia. Qed.

(** *** Slots *)

Lemma get_slot_at b s f k : slots_at b s f -> 0 <= k < Z.of_nat (length s) -> get_slot ((b + k) mod Z.of_nat (length s)) s = Done (f k).
Proof using.
  intros Hs Hk. unfold get_slot. pose proof (idx_bound b k (Z.of_nat (length s)) ltac:(lia)). destruct (Z.leb_spec 0 ((b + k) mod Z.of_nat (length s))); [|lia]. by rewrite (Hs k Hk).
Qed.

Lemma set_slot_at b s f k x : slots_at b s f -> 0 <= b < Z.of_nat (length s) -> 0 <= k < Z.of_nat (length s) ->
  exists s', set_slot ((b + k) mod Z.of_nat (length s)) x s = Done s' /\ length s' = length s /\ slots_at b s' (upd f k x).
Proof using.
  intros Hs Hb Hk. unfold set_slot. rewrite (get_slot_at b s f k) by done. cbn [mbind exec_bind]. eexists. split; [reflexivity|].
  rewrite length_insert. split; [done|]. intros j Hj. rewrite length_insert in *. unfold upd. destruct (Z.eqb_spec j k) as [->|Hne].
  - apply list_lookup_insert_eq. pose proof (idx_bound b k (Z.of_nat (length s)) ltac:(lia)). lia.
  - rewrite list_lookup_insert_ne; [by apply Hs|]. intros Heq. apply Hne. apply (idx_inj b j k (Z.of_nat (length s))); try done.
    pose proof (idx_bound b k (Z.of_nat (length s)) ltac:(lia)). pose proof (idx_bound b j (Z.of_nat (length s)) ltac:(lia)). lia.
Qed.

Lemma load_at b s f k x : slots_at b s f -> 0 <= k < Z.of_nat (length s) -> f k = Some x -> load ((b + k) mod Z.of_nat (length s)) s = Done x.
Proof using. intros Hs Hk Hx. unfold load. by rewrite (get_slot_at b s f k), Hx. Qed.

Lemma destroy_at b s f k x : slots_at b s f -> 0 <= b < Z.of_nat (length s) -> 0 <= k < Z.of_nat (length s) -> f k = Some x ->
  exists s', destroy ((b + k) mod Z.of_nat (length s)) s = Done s' /\ length s' = length s /\ slots_at b s' (upd f k None).
Proof using. intros Hs Hb Hk Hx. unfold destroy. rewrite (load_at b s f k x) by done. cbn [mbind exec_bind]. by apply set_slot_at. Qed.

Lemma slots_at_ext b s f g : slots_at b s f -> (forall k, 0 <= k < Z.of_nat (length s) -> f k = g k) -> slots_at b s g.
Proof using. intros Hs Hfg k Hk. by rewrite (Hs k Hk), Hfg. Qed.

(** The same slots from another place on. *)
Lemma slots_at_rebase b s f m : slots_at b s f -> 0 <= m < Z.of_nat (length s) ->
  slots_at ((b + m) mod Z.of_nat (length s)) s (fun k => f ((k + m) mod Z.of_nat (length s))).
Proof using.
  intros Hs Hm k Hk. rewrite <- (Hs ((k + m) mod Z.of_nat (length s))) by (apply Z.mod_pos_bound; lia). do 2 f_equal.
  rewrite Z.add_mod_idemp_l, Z.add_mod_idemp_r by lia. f_equal. lia.
Qed.

(** *** Runs of slots *)

Definition cleared f (k n : Z) : Z -> option T := fun j => if (k <=? j) && (j <? k + n) then None else f j.

(** The place at a distance, without a remainder. *)
Definition placed (b k c i : Z) : Prop := i = b + k \/ i = b + k - c.

Lemma placed_idx b k c i : placed b k c i -> 0 <= i < c -> (b + k) mod c = i.
Proof using.
  intros [-> | ->] Hi; [by apply Z.mod_small|]. replace (b + k) with (b + k - c + 1 * c) at 1 by lia. rewrite Z.mod_add by lia. by apply Z.mod_small.
Qed.

Lemma idx_placed b k c : 0 <= b < c -> 0 <= k < c -> placed b k c ((b + k) mod c).
Proof using. intros Hb Hk. rewrite wrap_idx by done. unfold placed. destruct (Z.ltb_spec (b + k) c); lia. Qed.

Lemma destroy_n_at n b s f i k : slots_at b s f -> 0 <= b < Z.of_nat (length s) -> placed b k (Z.of_nat (length s)) i ->
  0 <= k -> k + Z.of_nat n <= Z.of_nat (length s) -> 0 <= i -> i + Z.of_nat n <= Z.of_nat (length s) -> (forall j, k <= j < k + Z.of_nat n -> is_Some (f j)) ->
  exists s', destroy_n n i s = Done s' /\ length s' = length s /\ slots_at b s' (cleared f k (Z.of_nat n)).
Proof using.
  revert s f i k. induction n as [|n IH]; intros s f i k Hs Hb Hi Hk Hn Hi0 Hin Hf; cbn [destroy_n].
  - exists s. split_and!; [done..|]. eapply slots_at_ext; [done|]. intros j _. unfold cleared. destruct (Z.leb_spec k j), (Z.ltb_spec j (k + Z.of_nat 0)); cbn; (done || lia).
  - destruct (Hf k ltac:(lia)) as [x Hx]. destruct (destroy_at b s f k x Hs Hb ltac:(lia) Hx) as (s1 & Hd & Hl & Hs1).
    rewrite (placed_idx b k _ i Hi) in Hd by lia. rewrite Hd. cbn [mbind exec_bind].
    destruct (IH s1 (upd f k None) (i + 1) (k + 1)) as (s2 & -> & Hl2 & Hs2); rewrite ?Hl; try done; try lia.
    + unfold placed in *. lia.
    + intros j Hj. unfold upd. destruct (Z.eqb_spec j k); [lia|]. apply Hf. lia.
    + exists s2. split_and!; [done|by rewrite Hl2|]. eapply slots_at_ext; [done|]. intros j _. unfold cleared, upd.
      destruct (Z.leb_spec (k + 1) j), (Z.ltb_spec j (k + 1 + Z.of_nat n)), (Z.leb_spec k j), (Z.ltb_spec j (k + Z.of_nat (Datatypes.S n))), (Z.eqb_spec j k); cbn; (done || lia).
Qed.

(** [n] objects from distance [k] of one buffer go to distance [m] of another. *)
Definition pasted g f (k m n : Z) : Z -> option T := fun j => if (m <=? j) && (j <? m + n) then f (j - m + k) else g j.

Lemma move_across_n_at n b s f i k t g m : slots_at b s f -> 0 <= b < Z.of_nat (length s) -> placed b k (Z.of_nat (length s)) i ->
  0 <= k -> k + Z.of_nat n <= Z.of_nat (length s) -> 0 <= i -> i + Z.of_nat n <= Z.of_nat (length s) -> (forall j, k <= j < k + Z.of_nat n -> is_Some (f j)) ->
  slots_at 0 t g -> 0 <= m -> m + Z.of_nat n <= Z.of_nat (length t) ->
  exists s' t', move_across_n n i m s t = Done (s', t') /\ length s' = length s /\ slots_at b s' (cleared f k (Z.of_nat n)) /\ length t' = length t /\ slots_at 0 t' (pasted g f k m (Z.of_nat n)).
Proof using.
  revert s f i k t g m. induction n as [|n IH]; intros s f i k t g m Hs Hb Hi Hk Hn Hi0 Hin Hf Ht Hm Hmn; cbn [move_across_n].
  - exists s, t. split_and!; [done|done| |done|]; (eapply slots_at_ext; [done|]); intros j _; unfold cleared, pasted.
    + destruct (Z.leb_spec k j), (Z.ltb_spec j (k + Z.of_nat 0)); cbn; (done || lia).
    + destruct (Z.leb_spec m j), (Z.ltb_spec j (m + Z.of_nat 0)); cbn; (done || lia).
  - destruct (Hf k ltac:(lia)) as [x Hx]. pose proof (load_at b s f k x Hs ltac:(lia) Hx) as Hload. destruct (destroy_at b s f k x Hs Hb ltac:(lia) Hx) as (s1 & Hd & Hl & Hs1).
    rewrite (placed_idx b k _ i Hi) in Hd, Hload by lia. rewrite Hload. cbn [mbind exec_bind].
    destruct (set_slot_at 0 t g m (Some x) Ht ltac:(lia) ltac:(lia)) as (t1 & Hset & Hlt & Ht1). rewrite (placed_idx 0 m _ m) in Hset by (unfold placed; lia).
    rewrite Hset. cbn [mbind exec_bind]. rewrite Hd. cbn [mbind exec_bind].
    destruct (IH s1 (upd f k None) (i + 1) (k + 1) t1 (upd g m (Some x)) (m + 1)) as (s2 & t2 & -> & Hl2 & Hs2 & Hlt2 & Ht2); rewrite ?Hl, ?Hlt; try done; try lia.
    + unfold placed in *. lia.
    + intros j Hj. unfold upd. destruct (Z.eqb_spec j k); [lia|]. apply Hf. lia.
    + exists s2, t2. split_and!; [done|lia| |lia|]; (eapply slots_at_ext; [done|]); intros j _; unfold cleared, pasted, upd.
      * destruct (Z.leb_spec (k + 1) j), (Z.ltb_spec j (k + 1 + Z.of_nat n)), (Z.leb_spec k j), (Z.ltb_spec j (k + Z.of_nat (Datatypes.S n))), (Z.eqb_spec j k); cbn; (done || lia).
      * destruct (Z.leb_spec (m + 1) j), (Z.ltb_spec j (m + 1 + Z.of_nat n)), (Z.leb_spec m j), (Z.ltb_spec j (m + Z.of_nat (Datatypes.S n))), (Z.eqb_spec j m), (Z.eqb_spec (j - (m + 1) + (k + 1)) k); cbn; try lia; try done.
        all: try (f_equal; lia). subst. rewrite <- Hx. f_equal. lia.
Qed.

(** *** Sizes and places *)

Lemma length_slots d : Z.of_nat (length (slots (buffer_ d))) = internal_capacity d.
Proof using. done. Qed.

Lemma place_run i b : i <= VectorBuffer_capacity b -> place (T := T) i b = Done i.
Proof using. intros Hi. unfold place, RTC_CHECK. by rewrite (proj2 (Z.leb_le _ _) Hi). Qed.

Lemma view_size d n f : view d n f -> size size_t d = n.
Proof using memory.
  intros [Hb Hn He Hs Hc]. unfold size. rewrite He, wrap_idx by done. destruct (Z.ltb_spec (begin_ d + n) (internal_capacity d)).
  - destruct (Z.leb_spec (begin_ d) (begin_ d + n)); [|lia]. rewrite usz_id; lia.
  - destruct (Z.leb_spec (begin_ d) (begin_ d + n - internal_capacity d)); [lia|]. rewrite usz_id; lia.
Qed.

Lemma holds_size d l : holds d l -> size size_t d = Z.of_nat (length l).
Proof using memory.
  intros [(Hc & Hb & He & ->)|Hv]; [|by eapply view_size]. unfold size. rewrite He, Z.leb_refl, Z.sub_diag. apply usz_id. cbn. pose proof limit_pos. lia.
Qed.

Lemma view_capacity d n f : view d n f -> capacity size_t d = internal_capacity d - 1.
Proof using memory. intros [Hb Hn He Hs Hc]. unfold capacity. destruct (Z.eqb_spec (internal_capacity d) 0); [lia|]. apply usz_id. lia. Qed.

Lemma holds_capacity d l : holds d l -> Z.of_nat (length l) <= capacity size_t d <= max_capacity.
Proof using memory.
  intros [(Hc & Hb & He & ->)|Hv]; [unfold capacity; rewrite Hc; cbn; pose proof limit_pos; lia|]. rewrite (view_capacity _ _ _ Hv). destruct Hv. lia.
Qed.

Lemma view_empty d n f : view d n f -> empty d = (n =? 0).
Proof using.
  intros [Hb Hn He Hs Hc]. unfold empty. rewrite He, wrap_idx by done. apply bool_eq_iff. rewrite !Z.eqb_eq. destruct (Z.ltb_spec (begin_ d + n) (internal_capacity d)); lia.
Qed.

Lemma view_ext d n f g : view d n f -> (forall k, 0 <= k < internal_capacity d -> f k = g k) -> view d n g.
Proof using. intros [Hb Hn He Hs Hc] Hfg. split; try done. by eapply slots_at_ext. Qed.

Lemma CheckValidIndex_at d n f k : view d n f -> 0 <= k < internal_capacity d -> CheckValidIndex ((begin_ d + k) mod internal_capacity d) d = (k <? n).
Proof using.
  intros [Hb Hn He Hs Hc] Hk. unfold CheckValidIndex. rewrite He, !wrap_idx by done. apply bool_eq_iff.
  destruct (Z.ltb_spec (begin_ d + n) (internal_capacity d)), (Z.ltb_spec (begin_ d + k) (internal_capacity d)), (Z.ltb_spec k n);
    repeat match goal with |- context [?a <=? ?b] => destruct (Z.leb_spec a b) | |- context [?a <? ?b] => destruct (Z.ltb_spec a b) end; cbn; lia.
Qed.

Lemma CheckValidIndexOrEnd_at d n f k : view d n f -> 0 <= k <= n -> CheckValidIndexOrEnd ((begin_ d + k) mod internal_capacity d) d = true.
Proof using.
  intros Hv Hk. pose proof Hv as [Hb Hn He Hs Hc]. unfold CheckValidIndexOrEnd. destruct (Z.eqb_spec ((begin_ d + k) mod internal_capacity d) (end_ d)) as [|Hne]; [done|]. cbn.
  rewrite (CheckValidIndex_at d n f k) by (done || lia). apply Z.ltb_lt. destruct (Z.eq_dec k n) as [->|]; [done|lia].
Qed.

(** An iterator of the current state, at a distance from the beginning. *)
Definition at_distance (it : iterator) d (k : Z) : Prop :=
  parent_deque_ it = this d /\ created_generation_ it = generation_ d /\ index_ it = (begin_ d + k) mod internal_capacity d.

Lemma Offset_at it d n f k : view d n f -> at_distance it d k -> 0 <= k < internal_capacity d -> OffsetFromBegin size_t it d = k.
Proof using memory.
  intros [Hb Hn He Hs Hc] (_ & _ & Hi) Hk. unfold OffsetFromBegin. rewrite Hi, wrap_idx by done. destruct (Z.ltb_spec (begin_ d + k) (internal_capacity d)).
  - destruct (Z.leb_spec (begin_ d) (begin_ d + k)); [|lia]. rewrite usz_id; lia.
  - destruct (Z.leb_spec (begin_ d) (begin_ d + k - internal_capacity d)); [lia|]. rewrite usz_id; lia.
Qed.

Lemma Unstable_at it d k : at_distance it d k -> CheckUnstableUsage it d = true.
Proof using. intros (_ & Hg & _). unfold CheckUnstableUsage. by apply Z.eqb_eq. Qed.

Lemma Comparable_at it jt d j k : at_distance it d j -> at_distance jt d k -> CheckComparable it jt = true.
Proof using. intros (Hp & Hg & _) (Hp' & Hg' & _). unfold CheckComparable. by rewrite Hp, Hg, Hp', Hg', Nat.eqb_refl, Z.eqb_refl. Qed.

Lemma Validate_at it d k : at_distance it d k -> ValidateIterator it d = true.
Proof using. intros Hi. unfold ValidateIterator. rewrite (Unstable_at _ _ _ Hi). destruct Hi as (-> & _). by rewrite Nat.eqb_refl. Qed.

Lemma Increment_at it d n f k : view d n f -> at_distance it d k -> 0 <= k < n -> exists it', Increment size_t it d = Done it' /\ at_distance it' d (k + 1).
Proof using memory.
  intros Hv Hi Hk. pose proof Hv as [Hb Hn He Hs Hc]. unfold Increment. rewrite (Unstable_at _ _ _ Hi).
  pose proof Hi as (Hp & Hg & Hidx). rewrite Hidx, (CheckValidIndex_at _ _ _ _ Hv) by lia. rewrite (proj2 (Z.ltb_lt k n)) by lia. rewrite !RTC_DCHECK_true by done.
  eexists. split; [reflexivity|]. split_and!; cbn; [done|done|]. rewrite wrap_idx, (wrap_idx _ (k + 1)) by lia.
  destruct (Z.ltb_spec (begin_ d + k) (internal_capacity d)); rewrite usz_id by lia; destruct (Z.eqb_spec (begin_ d + k + 1) (internal_capacity d));
    destruct (Z.ltb_spec (begin_ d + (k + 1)) (internal_capacity d)); try lia.
  all: match goal with |- context [?a =? ?b] => destruct (Z.eqb_spec a b); lia end.
Qed.

Lemma Decrement_at it d n f k : view d n f -> at_distance it d k -> 0 < k <= n -> exists it', Decrement size_t it d = Done it' /\ at_distance it' d (k - 1).
Proof using memory.
  intros Hv Hi Hk. pose proof Hv as [Hb Hn He Hs Hc]. unfold Decrement. rewrite (Unstable_at _ _ _ Hi).
  pose proof Hi as (Hp & Hg & Hidx). rewrite Hidx, (CheckValidIndexOrEnd_at _ _ _ _ Hv) by lia. rewrite !RTC_DCHECK_true by done.
  eexists. split; [reflexivity|]. split_and!; cbn; [done|done|]. rewrite wrap_idx, (wrap_idx _ (k - 1)) by lia.
  destruct (Z.ltb_spec (begin_ d + k) (internal_capacity d)); match goal with |- context [?a =? 0] => destruct (Z.eqb_spec a 0) end; rewrite usz_id by lia;
    destruct (Z.ltb_spec (begin_ d + (k - 1)) (internal_capacity d)); lia.
Qed.

Lemma Add_at it d n f k j : view d n f -> at_distance it d k -> 0 <= k <= n -> 0 <= k + j <= n -> exists it', Add size_t j it d = Done it' /\ at_distance it' d (k + j).
Proof using memory.
  intros Hv Hi Hk Hj. pose proof Hv as [Hb Hn He Hs Hc]. unfold Add. rewrite (Unstable_at _ _ _ Hi), (Offset_at _ _ _ _ _ Hv Hi) by lia.
  pose proof Hi as (Hp & Hg & Hidx). rewrite Hidx, (CheckValidIndexOrEnd_at _ _ _ _ Hv), (CheckValidIndex_at _ _ _ _ Hv) by lia.
  rewrite (RTC_DCHECK_true true), RTC_DCHECK_true by first [done|destruct (Z.leb_spec j 0); [done|apply Z.ltb_lt; lia]].
  destruct (Z.eqb_spec j 0) as [->|]; [exists it; by rewrite Z.add_0_r|]. rewrite (view_size _ _ _ Hv), usz_id by lia. pose proof deque_max_capacity_limit.
  unfold difference_type. rewrite !static_cast_id by (pose proof (lowest_le_0 (make_signed size_t)); unfold InRange; lia).
  rewrite RTC_DCHECK_true by (apply andb_true_iff; rewrite !Z.leb_le; lia). destruct (Z.eqb_spec (internal_capacity d) 0); [lia|].
  eexists. split; [reflexivity|]. split_and!; cbn; [done|done|]. rewrite usz_id by lia. f_equal. lia.
Qed.

Lemma eq_at it jt d j k : at_distance it d j -> at_distance jt d k -> 0 <= begin_ d < internal_capacity d -> 0 <= j < internal_capacity d -> 0 <= k < internal_capacity d ->
  iterator_eq it jt = Done (j =? k).
Proof using.
  intros Hi Hj Hb Hj0 Hk0. unfold iterator_eq. rewrite (Comparable_at _ _ _ _ _ Hi Hj), RTC_DCHECK_true by done. destruct Hi as (_ & _ & ->), Hj as (_ & _ & ->).
  f_equal. apply bool_eq_iff. rewrite !Z.eqb_eq. split; [|by intros ->]. by apply idx_inj.
Qed.

Lemma lt_at it jt d n f j k : view d n f -> at_distance it d j -> at_distance jt d k -> 0 <= j < internal_capacity d -> 0 <= k < internal_capacity d ->
  iterator_lt size_t it jt d = Done (j <? k).
Proof using memory.
  intros Hv Hi Hj Hj0 Hk0. unfold iterator_lt. rewrite (Comparable_at _ _ _ _ _ Hi Hj), RTC_DCHECK_true by done. by rewrite !(Offset_at _ _ _ _ _ Hv) by done.
Qed.

Lemma begin_at d n f : view d n f -> at_distance (begin d) d 0.
Proof using. intros [Hb Hn He Hs Hc]. split_and!; [done..|]. cbn. rewrite Z.add_0_r. symmetry. by apply Z.mod_small. Qed.

Lemma end_at d n f : view d n f -> at_distance (end' d) d n.
Proof using. intros [Hb Hn He Hs Hc]. by split_and!. Qed.

Lemma at_distance_frame it d d' k : at_distance it d k -> frame d d' -> begin_ d' = begin_ d -> internal_capacity d' = internal_capacity d -> at_distance it d' k.
Proof using. intros (Hp & Hg & Hi) (Ht & Hgen) Hb Hc. unfold at_distance. by rewrite Ht, Hgen, Hb, Hc. Qed.

End Views.

Arguments size_t_unsigned {_ _ _ _} _.
Arguments sizeof_positive {_ _ _ _} _.
Arguments M_nonneg {_ _ _ _} _.
Arguments malloc_small {_ _ _ _} _ _ _.
Arguments malloc_large {_ _ _ _} _ _ _.

(** ** Capacity *)

Section Capacity.
Context {T : Type} {build : Build} (size_t : int_type) (sizeof_T : Z) (malloc : Z -> bool) (M : Z).
Context {memory : Memory size_t sizeof_T malloc M}.
Implicit Types (l : list T) (f g : Z -> option T) (s : list (option T)) (d : circular_deque (T := T)).
Abbreviation lk l := (fun k => l !! Z.to_nat k).
Abbreviation max_cap := (max_capacity M).

Lemma VectorBuffer_new_run addr c : 0 <= c <= max_cap + 1 ->
  VectorBuffer_new (T := T) size_t sizeof_T malloc addr c = Done (mkVectorBuffer addr (replicate (Z.to_nat c) None)).
Proof using memory.
  intros Hc. unfold VectorBuffer_new. pose proof (malloc_small memory c Hc) as Hm. rewrite Hm. pose proof (malloc_large memory _ Hm) as Hl. pose proof (sizeof_positive memory).
  assert (in_range size_t (sizeof_T * c) = true) as ->; [|done]. apply in_range_spec. pose proof (size_t_unsigned memory) as Hu. destruct size_t; try discriminate; limits; nia.
Qed.

Lemma slots_at_replicate b n : 0 <= b -> slots_at b (replicate n None) (fun _ => @None T).
Proof using. intros Hb k Hk. rewrite length_replicate in Hk. apply lookup_replicate_2. rewrite length_replicate. pose proof (Z.mod_pos_bound (b + k) (Z.of_nat n) ltac:(lia)). lia. Qed.

Lemma lookup_some l k : 0 <= k < Z.of_nat (length l) -> is_Some (l !! Z.to_nat k).
Proof using. intros Hk. apply lookup_lt_is_Some. lia. Qed.

Lemma lookup_none l k : Z.of_nat (length l) <= k -> l !! Z.to_nat k = None.
Proof using. intros Hk. apply lookup_ge_None. lia. Qed.

Lemma place_buffer i d : i <= internal_capacity d -> place i (buffer_ d) = Done i.
Proof using. apply place_run. Qed.

(** All objects move to the beginning of the new buffer. *)
Lemma MoveBuffer_run d l addr c : holds M d l -> Z.of_nat (length l) < Z.of_nat c -> Z.of_nat c <= max_cap + 1 ->
  exists from to, MoveBuffer size_t (buffer_ d) (begin_ d) (end_ d) (mkVectorBuffer addr (replicate c None)) = Done (from, mkVectorBuffer addr to, 0, Z.of_nat (length l)) /\
    length to = c /\ slots_at 0 to (lk l).
Proof using memory.
  intros Hd Hlc Hc. pose proof (slots_at_replicate 0 c ltac:(lia)) as Hr. pose proof (length_replicate c (@None T)) as Hlr. unfold MoveBuffer.
  destruct Hd as [(Hc0 & Hb & He & ->)|[Hb Hn He Hs Hcap]].
  - rewrite He, Z.ltb_irrefl. eexists _, _. split_and!; [reflexivity|done|]. eapply slots_at_ext; [done|]. intros k _. by rewrite lookup_nil.
  - assert (forall j, 0 <= j < Z.of_nat (length l) -> is_Some (l !! Z.to_nat j)) as Hin by (intros j Hj; by apply lookup_some).
    change (VectorBuffer_capacity (buffer_ d)) with (internal_capacity d). rewrite wrap_idx in He by done.
    destruct (Z.ltb_spec (begin_ d + Z.of_nat (length l)) (internal_capacity d)) as [Hcont|Hwrap].
    + rewrite He. destruct (Z.ltb_spec (begin_ d) (begin_ d + Z.of_nat (length l))) as [Hpos|Hz].
      * rewrite !place_buffer by lia. cbn [mbind exec_bind fst snd slots address]. replace (Z.to_nat (begin_ d + Z.of_nat (length l) - begin_ d)) with (length l) by lia.
        destruct (move_across_n_at (length l) (begin_ d) (slots (buffer_ d)) (lk l) (begin_ d) 0 (replicate c None) (fun _ => None) 0) as (s' & t' & Hmove & Hls & _ & Hlt & Ht);
          try done; rewrite ?length_slots; try lia; try (unfold placed; lia); try (intros j Hj; apply Hin; lia).
        rewrite Hmove. cbn [mbind exec_bind fst snd]. rewrite (usz_id size_t sizeof_T malloc M) by lia. rewrite Z.add_simpl_l. eexists _, _. split_and!; [reflexivity|lia|]. eapply slots_at_ext; [done|]. intros k Hk. unfold pasted.
        destruct (Z.leb_spec 0 k), (Z.ltb_spec k (0 + Z.of_nat (length l))); cbn; try lia; [by replace (k - 0 + 0) with k by lia|by rewrite lookup_none by lia].
      * destruct (Z.ltb_spec (begin_ d + Z.of_nat (length l)) (begin_ d)); [lia|]. assert (length l = 0%nat) as Hl0 by lia. rewrite Hl0. eexists _, _. split_and!; [reflexivity|done|].
        eapply slots_at_ext; [done|]. intros k Hk. by rewrite lookup_none by lia.
    + rewrite He. destruct (Z.ltb_spec (begin_ d) (begin_ d + Z.of_nat (length l) - internal_capacity d)); [lia|].
      destruct (Z.ltb_spec (begin_ d + Z.of_nat (length l) - internal_capacity d) (begin_ d)); [|lia].
      rewrite !place_buffer by lia. cbn [mbind exec_bind fst snd slots address]. set (r := internal_capacity d - begin_ d) in *.
      destruct (move_across_n_at (Z.to_nat r) (begin_ d) (slots (buffer_ d)) (lk l) (begin_ d) 0 (replicate c None) (fun _ => None) 0) as (s1 & t1 & Hmove1 & Hls1 & Hs1 & Hlt1 & Ht1);
        try done; rewrite ?length_slots; try lia; try (unfold placed; lia); try (intros j Hj; apply Hin; lia).
      rewrite Hmove1. cbn [mbind exec_bind fst snd]. rewrite (usz_id size_t sizeof_T malloc M r) by lia.
      rewrite (place_run r) by (unfold VectorBuffer_capacity; cbn; lia). cbn [mbind exec_bind fst snd].
      destruct (move_across_n_at (Z.to_nat (begin_ d + Z.of_nat (length l) - internal_capacity d)) (begin_ d) s1 (cleared (lk l) 0 (Z.of_nat (Z.to_nat r))) 0 r t1 (pasted (fun _ => None) (lk l) 0 0 (Z.of_nat (Z.to_nat r))) r) as (s2 & t2 & Hmove2 & Hls2 & _ & Hlt2 & Ht2);
        rewrite ?Hls1, ?Hlt1, ?length_slots; try done; try lia.
      { unfold placed. lia. }
      { intros j Hj. unfold cleared. destruct (Z.ltb_spec j (0 + Z.of_nat (Z.to_nat r))); [lia|]. rewrite andb_false_r. apply Hin. lia. }
      rewrite Hmove2. cbn [mbind exec_bind fst snd]. rewrite (usz_id size_t sizeof_T malloc M) by lia. eexists _, _. split_and!; [repeat f_equal; lia|lia|]. eapply slots_at_ext; [done|]. intros k Hk. unfold pasted, cleared.
      rewrite !Z2Nat.id by lia. destruct (Z.leb_spec r k), (Z.ltb_spec k (r + (begin_ d + Z.of_nat (length l) - internal_capacity d))), (Z.leb_spec 0 k), (Z.ltb_spec k (0 + r)); cbn; try lia.
      * replace (k - r + r) with k by lia. destruct (Z.leb_spec 0 k), (Z.ltb_spec k (0 + r)); cbn; (done || lia).
      * by rewrite lookup_none by lia.
      * by replace (k - 0 + 0) with k by lia.
Qed.

Lemma SetCapacityTo_run d l c : holds M d l -> Z.of_nat (length l) <= c <= max_cap ->
  exists d', SetCapacityTo size_t sizeof_T malloc c d = Done d' /\ view M d' (Z.of_nat (length l)) (lk l) /\ internal_capacity d' = c + 1 /\ frame d d'.
Proof using memory.
  intros Hd Hc. unfold SetCapacityTo. rewrite (usz_id size_t sizeof_T malloc M) by lia. rewrite VectorBuffer_new_run by lia. cbn [mbind exec_bind].
  destruct (MoveBuffer_run d l (Datatypes.S (mallocs d)) (Z.to_nat (c + 1)) Hd ltac:(lia) ltac:(lia)) as (from & to & -> & Hlt & Ht). cbn [mbind exec_bind fst snd].
  eexists. split_and!; [reflexivity| |unfold internal_capacity, VectorBuffer_capacity; cbn; lia|done].
  split; cbn; unfold internal_capacity, VectorBuffer_capacity; cbn; try lia; [|done]. by rewrite Z.mod_small by lia.
Qed.

Lemma ExpandCapacityIfNecessary_run d l n : holds M d l -> 0 < n -> Z.of_nat (length l) + n <= M ->
  exists d', ExpandCapacityIfNecessary size_t sizeof_T malloc n d = Done d' /\ view M d' (Z.of_nat (length l)) (lk l) /\ Z.of_nat (length l) + n < internal_capacity d' /\ frame d d'.
Proof using memory.
  intros Hd Hn HM. pose proof (holds_capacity size_t sizeof_T malloc M d l Hd) as Hcap. assert (M <= max_cap) by (unfold max_capacity; pose proof (Z.div_pos M 4 (M_nonneg memory) ltac:(lia)); lia).
  unfold ExpandCapacityIfNecessary. rewrite (holds_size size_t sizeof_T malloc M d l Hd), (usz_id size_t sizeof_T malloc M) by lia.
  destruct (Z.leb_spec (Z.of_nat (length l) + n) (capacity size_t d)) as [Hle|Hlt].
  - exists d. destruct Hd as [(Hc & _ & _ & ->)|Hv]; [unfold capacity in Hle; rewrite Hc in Hle; cbn in Hle; lia|]. rewrite (view_capacity size_t sizeof_T malloc M _ _ _ Hv) in Hle. split_and!; [done..|lia|done].
  - assert (capacity size_t d + capacity size_t d / 4 <= max_cap). { unfold max_capacity in *. pose proof (Z.div_le_mono (capacity size_t d) M 4 ltac:(lia) ltac:(lia)). lia. }
    pose proof (Z.div_pos (capacity size_t d) 4 ltac:(lia) ltac:(lia)). rewrite (usz_id size_t sizeof_T malloc M) by lia.
    destruct (SetCapacityTo_run d l (Z.max (Z.max (Z.of_nat (length l) + n) kCircularBufferInitialCapacity) (capacity size_t d + capacity size_t d / 4)) Hd) as (d' & -> & Hv & Hi & Hf).
    { unfold max_capacity in *. lia. }
    exists d'. split_and!; [done..|lia|done].
Qed.

Lemma ShrinkCapacityIfNecessary_run d l : holds M d l -> exists d', ShrinkCapacityIfNecessary size_t sizeof_T malloc d = Done d' /\ holds M d' l /\ frame d d'.
Proof using memory.
  intros Hd. pose proof (holds_capacity size_t sizeof_T malloc M d l Hd) as Hcap. unfold ShrinkCapacityIfNecessary. rewrite (holds_size size_t sizeof_T malloc M d l Hd), (usz_id size_t sizeof_T malloc M) by lia.
  destruct (Z.leb_spec (capacity size_t d) kCircularBufferInitialCapacity); [by exists d|]. destruct (Z.ltb_spec (capacity size_t d - Z.of_nat (length l)) (Z.of_nat (length l))); [by exists d|].
  pose proof (Z.div_pos (Z.of_nat (length l)) 4 ltac:(lia) ltac:(lia)). pose proof (Z.div_le_upper_bound (Z.of_nat (length l)) 4 (Z.of_nat (length l)) ltac:(lia) ltac:(lia)). rewrite (usz_id size_t sizeof_T malloc M) by lia.
  destruct (Z.ltb_spec (Z.max kCircularBufferInitialCapacity (Z.of_nat (length l) + Z.of_nat (length l) / 4)) (capacity size_t d)); [|by exists d].
  destruct (SetCapacityTo_run d l (Z.max kCircularBufferInitialCapacity (Z.of_nat (length l) + Z.of_nat (length l) / 4)) Hd ltac:(lia)) as (d' & -> & Hv & _ & Hf). exists d'. split_and!; [done|by right|done].
Qed.

Lemma reserve_run d l n : holds M d l -> n <= M -> exists d', reserve size_t sizeof_T malloc n d = Done d' /\ holds M d' l /\ frame d d' /\ n <= capacity size_t d'.
Proof using memory.
  intros Hd Hn. pose proof (holds_capacity size_t sizeof_T malloc M d l Hd) as Hcap. assert (M <= max_cap) by (unfold max_capacity; pose proof (Z.div_pos M 4 (M_nonneg memory) ltac:(lia)); lia).
  unfold reserve. destruct (Z.ltb_spec (capacity size_t d) n); [|by exists d]. destruct (SetCapacityTo_run d l n Hd ltac:(lia)) as (d' & -> & Hv & Hi & Hf). exists d'.
  split_and!; [done|by right|apply Hf..|]. rewrite (view_capacity size_t sizeof_T malloc M _ _ _ Hv). lia.
Qed.

Lemma holds_empty d l : holds M d l -> empty d = (length l =? 0)%nat.
Proof using.
  intros [(Hc & Hb & He & ->)|Hv]; [unfold empty; rewrite He; apply Z.eqb_refl|]. rewrite (view_empty _ _ _ _ Hv). apply bool_eq_iff. rewrite Z.eqb_eq, Nat.eqb_eq. lia.
Qed.

Lemma shrink_to_fit_run d l : holds M d l -> exists d', shrink_to_fit size_t sizeof_T malloc d = Done d' /\ holds M d' l /\ frame d d' /\ capacity size_t d' = Z.of_nat (length l).
Proof using memory.
  intros Hd. pose proof (holds_capacity size_t sizeof_T malloc M d l Hd) as Hcap. unfold shrink_to_fit. rewrite (holds_empty _ _ Hd). destruct (Nat.eqb_spec (length l) 0) as [Hl|Hl].
  - eexists. split; [reflexivity|]. destruct (Z.eqb_spec (internal_capacity d) 0) as [Hz|Hz]; cbn.
    + split_and!; [done..|]. unfold capacity. by rewrite Hz, Hl.
    + assert (l = []) as -> by by destruct l. split_and!; [|done..]. left. destruct Hd as [(? & _)|[Hb Hn He Hs Hc]]; [done|]. cbn. split_and!; [done|lia|rewrite He; cbn; by rewrite Z.add_0_r, Z.mod_small|done].
  - rewrite (holds_size size_t sizeof_T malloc M d l Hd). destruct (SetCapacityTo_run d l (Z.of_nat (length l)) Hd ltac:(lia)) as (d' & -> & Hv & Hi & Hf). exists d'.
    split_and!; [done|by right|apply Hf..|]. rewrite (view_capacity size_t sizeof_T malloc M _ _ _ Hv). lia.
Qed.

(** *** Changing the slots *)

Lemma view_set_slots d n f s g : view M d n f -> length s = length (slots (buffer_ d)) -> slots_at (begin_ d) s g -> view M (set_slots s d) n g.
Proof using. intros [Hb Hn He Hs Hc] Hl Hg. split; cbn; unfold internal_capacity, VectorBuffer_capacity in *; cbn; rewrite ?Hl; done. Qed.

Lemma frame_refl d : frame d d.
Proof using. done. Qed.
Lemma frame_trans d1 d2 d3 : frame d1 d2 -> frame d2 d3 -> frame d1 d3.
Proof using. intros [Ht Hg] [Ht' Hg']. split; congruence. Qed.

Lemma construct_at d n f k x : view M d n f -> 0 <= k < internal_capacity d ->
  exists d', construct ((begin_ d + k) mod internal_capacity d) (Value x) d = Done d' /\ view M d' n (upd f k (Some x)) /\ frame d d' /\ begin_ d' = begin_ d /\ end_ d' = end_ d /\ internal_capacity d' = internal_capacity d.
Proof using.
  intros Hv Hk. pose proof Hv as [Hb Hn He Hs Hc]. unfold construct. rewrite place_buffer by (pose proof (idx_bound (begin_ d) k (internal_capacity d) ltac:(lia)); lia). cbn [mbind exec_bind argument_value].
  destruct (set_slot_at (begin_ d) (slots (buffer_ d)) f k (Some x) Hs Hb Hk) as (s' & Hset & Hl & Hs'). unfold internal_capacity, VectorBuffer_capacity. rewrite Hset. cbn [mbind exec_bind].
  eexists. split_and!; [reflexivity|by eapply view_set_slots|done..|]. cbn. by rewrite Hl.
Qed.

Lemma move_one_at d n f k m x : view M d n f -> 0 <= k < internal_capacity d -> 0 <= m < internal_capacity d -> k <> m -> f k = Some x ->
  exists d', move_one size_t ((begin_ d + k) mod internal_capacity d) ((begin_ d + m) mod internal_capacity d) d = Done d' /\
    view M d' n (upd (upd f m (Some x)) k None) /\ frame d d' /\ begin_ d' = begin_ d /\ end_ d' = end_ d /\ internal_capacity d' = internal_capacity d.
Proof using memory.
  intros Hv Hk Hm Hkm Hx. pose proof Hv as [Hb Hn He Hs Hc]. unfold move_one. pose proof (idx_bound (begin_ d) k (internal_capacity d) ltac:(lia)). pose proof (idx_bound (begin_ d) m (internal_capacity d) ltac:(lia)).
  assert ((begin_ d + k) mod internal_capacity d <> (begin_ d + m) mod internal_capacity d) as Hne by (intros Heq; by apply Hkm, (idx_inj (begin_ d) k m (internal_capacity d))).
  rewrite (usz_id size_t sizeof_T malloc M) by lia. rewrite !place_buffer by lia. cbn [mbind exec_bind]. unfold MoveRange, RTC_CHECK, RangesOverlap.
  set (i := (begin_ d + k) mod internal_capacity d) in *. set (j := (begin_ d + m) mod internal_capacity d) in *.
  assert (((i + 1 <=? j) || (j + (i + 1 - i) <=? i)) = true) as -> by (apply orb_true_iff; rewrite !Z.leb_le; lia). cbn [negb]. replace (Z.to_nat (i + 1 - i)) with 1%nat by lia. cbn [move_n].
  pose proof (load_at (begin_ d) _ f k x Hs Hk Hx) as Hload. destruct (set_slot_at (begin_ d) _ f m (Some x) Hs Hb Hm) as (s1 & Hset & Hl1 & Hs1).
  unfold internal_capacity, VectorBuffer_capacity in *. fold i j in Hload, Hset. rewrite Hload. cbn [mbind exec_bind]. rewrite Hset. cbn [mbind exec_bind].
  destruct (destroy_at (begin_ d) s1 (upd f m (Some x)) k x Hs1) as (s2 & Hd & Hl2 & Hs2); [lia|lia|unfold upd; by destruct (Z.eqb_spec k m)|]. rewrite Hl1 in Hd. fold i in Hd. rewrite Hd. cbn [mbind exec_bind].
  eexists. split_and!; [reflexivity|eapply view_set_slots; [done|lia|done]|done..|]. cbn. by rewrite Hl2, Hl1.
Qed.

Lemma DestructRange_at d n f j k : view M d n f -> 0 <= j <= k -> k < internal_capacity d -> (forall i, j <= i < k -> is_Some (f i)) ->
  exists d', DestructRange ((begin_ d + j) mod internal_capacity d) ((begin_ d + k) mod internal_capacity d) d = Done d' /\
    view M d' n (cleared f j (k - j)) /\ frame d d' /\ begin_ d' = begin_ d /\ end_ d' = end_ d /\ internal_capacity d' = internal_capacity d.
Proof using memory.
  intros Hv Hjk Hk Hf. pose proof Hv as [Hb Hn He Hs Hc]. unfold DestructRange. set (c := internal_capacity d) in *.
  assert (placed (begin_ d) j c ((begin_ d + j) mod c)) as Hpj by (apply idx_placed; lia).
  assert (placed (begin_ d) k c ((begin_ d + k) mod c)) as Hpk by (apply idx_placed; lia).
  pose proof (idx_bound (begin_ d) j c ltac:(lia)) as Hbj. pose proof (idx_bound (begin_ d) k c ltac:(lia)) as Hbk.
  set (pj := (begin_ d + j) mod c) in *. set (pk := (begin_ d + k) mod c) in *.
  destruct (Z.eqb_spec pk pj) as [Heq|Hne].
  { assert (j = k) as -> by (unfold placed in *; lia). exists d. split_and!; [done| |done..]. eapply view_ext; [done|]. intros i _. unfold cleared. destruct (Z.leb_spec k i), (Z.ltb_spec i (k + (k - k))); cbn; (done || lia). }
  assert (j < k) by (destruct (Z.eq_dec j k) as [->|]; [done|lia]).
  destruct (Z.ltb_spec pj pk).
  - rewrite !place_buffer by lia. cbn [mbind exec_bind]. unfold VectorBuffer_DestructRange, RTC_CHECK. rewrite (proj2 (Z.leb_le _ _)) by lia.
    assert (pk - pj = k - j) as Hdiff by (unfold placed in *; lia).
    destruct (destroy_n_at (Z.to_nat (pk - pj)) (begin_ d) (slots (buffer_ d)) f pj j) as (s' & -> & Hl & Hs'); try done; change (Z.of_nat (length (slots (buffer_ d)))) with c; try lia; [intros i Hi; apply Hf; lia|]. cbn [mbind exec_bind].
    eexists. split_and!; [reflexivity|eapply view_set_slots; [done|done|]|done..|unfold internal_capacity, VectorBuffer_capacity; cbn; by rewrite Hl]. rewrite Z2Nat.id, Hdiff in Hs' by lia. done.
  - rewrite !place_buffer by lia. cbn [mbind exec_bind]. unfold VectorBuffer_DestructRange, RTC_CHECK. rewrite !(proj2 (Z.leb_le _ _)) by lia. fold c.
    destruct (destroy_n_at (Z.to_nat (c - pj)) (begin_ d) (slots (buffer_ d)) f pj j) as (s1 & -> & Hl1 & Hs1); try done; change (Z.of_nat (length (slots (buffer_ d)))) with c; try lia.
    { unfold placed in *. lia. } { intros i Hi. apply Hf. unfold placed in *. lia. }
    cbn [mbind exec_bind]. rewrite Z2Nat.id in Hs1 by lia.
    destruct (destroy_n_at (Z.to_nat (pk - 0)) (begin_ d) s1 (cleared f j (c - pj)) 0 (j + (c - pj))) as (s2 & -> & Hl2 & Hs2); rewrite ?Hl1; try done; change (Z.of_nat (length (slots (buffer_ d)))) with c; try lia.
    { unfold placed in *. lia. } { unfold placed in *. lia. }
    { intros i Hi. unfold cleared. destruct (Z.ltb_spec i (j + (c - pj))); [lia|]. rewrite andb_false_r. apply Hf. unfold placed in *. lia. }
    cbn [mbind exec_bind]. rewrite Z2Nat.id in Hs2 by lia. eexists. split_and!; [reflexivity|eapply view_set_slots; [done|lia|]|done..|unfold internal_capacity, VectorBuffer_capacity; cbn; by rewrite Hl2, Hl1].
    eapply slots_at_ext; [done|]. intros i _. unfold cleared. assert (k - j = c - pj + pk) as -> by (unfold placed in *; lia).
    destruct (Z.leb_spec (j + (c - pj)) i), (Z.ltb_spec i (j + (c - pj) + (pk - 0))), (Z.leb_spec j i), (Z.ltb_spec i (j + (c - pj))), (Z.ltb_spec i (j + (c - pj + pk))); cbn; (done || lia).
Qed.

End Capacity.

(** ** The operations at the ends *)

Section Ends.
Context {T : Type} {build : Build} (size_t : int_type) (sizeof_T : Z) (malloc : Z -> bool) (M : Z).
Context {memory : Memory size_t sizeof_T malloc M}.
Implicit Types (l : list T) (f g : Z -> option T) (s : list (option T)) (d : circular_deque (T := T)).
Abbreviation lk l := (fun k => l !! Z.to_nat k).
Abbreviation max_cap := (max_capacity M).

(** The elements from [i] to [j] replaced by [k]. *)
Definition splice (i j : Z) (k l : list T) : list T := firstn (Z.to_nat i) l ++ k ++ skipn (Z.to_nat j) l.

Lemma lookup_splice i j k l n : 0 <= i <= Z.of_nat (length l) -> 0 <= j -> 0 <= n ->
  splice i j k l !! Z.to_nat n = if n <? i then l !! Z.to_nat n else if n <? i + Z.of_nat (length k) then k !! Z.to_nat (n - i) else l !! Z.to_nat (n - i - Z.of_nat (length k) + j).
Proof using.
  intros Hi Hj Hn. unfold splice. destruct (Z.ltb_spec n i).
  - rewrite lookup_app_l by (rewrite length_take; lia). apply lookup_take_lt. lia.
  - rewrite lookup_app_r by (rewrite length_take; lia). rewrite length_take. replace (Z.to_nat n - Z.to_nat i `min` length l)%nat with (Z.to_nat (n - i)) by lia.
    destruct (Z.ltb_spec n (i + Z.of_nat (length k))); [by rewrite lookup_app_l by lia|]. rewrite lookup_app_r, lookup_drop by lia. f_equal. lia.
Qed.

Lemma length_splice i j k l : 0 <= i <= Z.of_nat (length l) -> i <= j <= Z.of_nat (length l) -> Z.of_nat (length (splice i j k l)) = Z.of_nat (length l) - (j - i) + Z.of_nat (length k).
Proof using. intros Hi Hj. unfold splice. rewrite !length_app, length_take, length_drop. lia. Qed.

Lemma view_holds d n f l : view M d n f -> n = Z.of_nat (length l) -> (forall k, 0 <= k < internal_capacity d -> f k = l !! Z.to_nat k) -> holds M d l.
Proof using. intros Hv -> Hf. right. by eapply view_ext. Qed.

Lemma view_generation d n f : view M d n f -> view M (IncrementGeneration d) n f.
Proof using. by intros [Hb Hn He Hs Hc]. Qed.

Lemma holds_generation d l : holds M d l -> holds M (IncrementGeneration d) l.
Proof using. intros [H|H]; [by left|right; by apply view_generation]. Qed.

Lemma view_set_end d n f m : view M d n f -> 0 <= m < internal_capacity d -> view M (set_end ((begin_ d + m) mod internal_capacity d) d) m f.
Proof using. by intros [Hb Hn He Hs Hc] Hm. Qed.

Lemma view_set_begin d n f m n' : view M d n f -> 0 <= m < internal_capacity d -> 0 <= n' < internal_capacity d -> (m + n') mod internal_capacity d = n ->
  view M (set_begin ((begin_ d + m) mod internal_capacity d) d) n' (fun k => f ((k + m) mod internal_capacity d)).
Proof using.
  intros [Hb Hn He Hs Hc] Hm Hn' Heq. split; change (internal_capacity (set_begin _ d)) with (internal_capacity d); try done; cbn.
  - apply Z.mod_pos_bound. lia.
  - rewrite He, <- Heq. rewrite Z.add_mod_idemp_l, Z.add_mod_idemp_r by lia. f_equal. lia.
  - by apply slots_at_rebase.
Qed.

Lemma view_internal d l : holds M d l -> 0 < Z.of_nat (length l) -> view M d (Z.of_nat (length l)) (lk l).
Proof using. intros [(_ & _ & _ & ->)|Hv] Hl; [cbn in Hl; lia|done]. Qed.

Lemma destruct_one_at d n f k x : view M d n f -> 0 <= k < internal_capacity d -> f k = Some x ->
  exists d', destruct_one size_t ((begin_ d + k) mod internal_capacity d) d = Done d' /\ view M d' n (upd f k None) /\ frame d d' /\ begin_ d' = begin_ d /\ end_ d' = end_ d /\ internal_capacity d' = internal_capacity d.
Proof using memory.
  intros Hv Hk Hx. pose proof Hv as [Hb Hn He Hs Hc]. unfold destruct_one. pose proof (idx_bound (begin_ d) k (internal_capacity d) ltac:(lia)).
  rewrite (usz_id size_t sizeof_T malloc M) by lia. rewrite !place_buffer by lia. cbn [mbind exec_bind]. unfold VectorBuffer_DestructRange, RTC_CHECK. rewrite (proj2 (Z.leb_le _ _)) by lia.
  set (i := (begin_ d + k) mod internal_capacity d) in *. replace (Z.to_nat (i + 1 - i)) with 1%nat by lia. cbn [destroy_n].
  destruct (destroy_at (begin_ d) _ f k x Hs Hb Hk Hx) as (s' & Hd & Hl & Hs'). rewrite length_slots in Hd. fold i in Hd. rewrite Hd. cbn [mbind exec_bind].
  eexists. split_and!; [reflexivity|by eapply view_set_slots|done..|]. unfold internal_capacity, VectorBuffer_capacity; cbn; by rewrite Hl.
Qed.

Lemma index_of_begin d n f : view M d n f -> begin_ d = (begin_ d + 0) mod internal_capacity d.
Proof using. intros [Hb _ _ _ _]. rewrite Z.add_0_r. symmetry. by apply Z.mod_small. Qed.

Lemma previous_index d n f k : view M d n f -> 0 <= k < internal_capacity d ->
  (if (begin_ d + k) mod internal_capacity d =? 0 then usz size_t (internal_capacity d - 1) else usz size_t ((begin_ d + k) mod internal_capacity d - 1)) = (begin_ d + (if k =? 0 then internal_capacity d - 1 else k - 1)) mod internal_capacity d.
Proof using memory.
  intros [Hb Hn He Hs Hc] Hk. rewrite !wrap_idx by (try done; destruct (Z.eqb_spec k 0); lia). destruct (Z.ltb_spec (begin_ d + k) (internal_capacity d)), (Z.eqb_spec k 0).
  all: match goal with |- (if ?a =? 0 then _ else _) = (if ?b <? ?c then _ else _) => destruct (Z.eqb_spec a 0), (Z.ltb_spec b c) end; rewrite (usz_id size_t sizeof_T malloc M) by lia; lia.
Qed.

Lemma next_index d n f k : view M d n f -> 0 <= k < internal_capacity d -> (begin_ d + k) mod internal_capacity d + 1 <= internal_capacity d ->
  (if usz size_t ((begin_ d + k) mod internal_capacity d + 1) =? internal_capacity d then 0 else usz size_t ((begin_ d + k) mod internal_capacity d + 1)) = (begin_ d + (k + 1)) mod internal_capacity d.
Proof using memory.
  intros [Hb Hn He Hs Hc] Hk Hle. pose proof (idx_bound (begin_ d) k (internal_capacity d) ltac:(lia)). rewrite (usz_id size_t sizeof_T malloc M) by lia.
  destruct (Z.eqb_spec ((begin_ d + k) mod internal_capacity d + 1) (internal_capacity d)) as [Heq|Hne].
  - replace (begin_ d + (k + 1)) with (begin_ d + k + 1) by lia. rewrite <- (Z.add_mod_idemp_l (begin_ d + k) 1) by lia. rewrite Heq. symmetry. apply Z.mod_same. lia.
  - replace (begin_ d + (k + 1)) with (begin_ d + k + 1) by lia. rewrite <- (Z.add_mod_idemp_l (begin_ d + k) 1) by lia. symmetry. apply Z.mod_small. lia.
Qed.

Lemma emplace_front_run d l x : holds M d l -> Z.of_nat (length l) + 1 <= M ->
  exists d', emplace_front size_t sizeof_T malloc (Value x) d = Done (begin_ d', d') /\ holds M d' (x :: l) /\ this d' = this d.
Proof using memory.
  intros Hd HM. unfold emplace_front. destruct (ExpandCapacityIfNecessary_run size_t sizeof_T malloc M d l 1 Hd ltac:(lia) HM) as (d1 & -> & Hv & Hcap & Ht & _). cbn [mbind exec_bind].
  pose proof (previous_index d1 _ _ 0 Hv ltac:(lia)) as Hprev. rewrite <- (index_of_begin _ _ _ Hv) in Hprev. rewrite Hprev. cbn [Z.eqb].
  pose proof (view_set_begin d1 _ _ (internal_capacity d1 - 1) (Z.of_nat (length l) + 1) Hv ltac:(lia) ltac:(lia)) as Hv2.
  replace (internal_capacity d1 - 1 + (Z.of_nat (length l) + 1)) with (Z.of_nat (length l) + 1 * internal_capacity d1) in Hv2 by lia. rewrite Z.mod_add, Z.mod_small in Hv2 by lia. specialize (Hv2 eq_refl). apply view_generation in Hv2.
  set (d2 := IncrementGeneration _) in *. destruct (construct_at M d2 _ _ 0 x Hv2) as (d3 & Hcon & Hv3 & [Ht3 _] & Hb3 & He3 & Hc3). { change (internal_capacity d2) with (internal_capacity d1). lia. }
  rewrite <- (index_of_begin _ _ _ Hv2) in Hcon. match goal with |- context [construct ?i (Value x) d2] => change i with (begin_ d2) end. rewrite Hcon. cbn [mbind exec_bind]. unfold front. rewrite (view_empty _ _ _ _ Hv3).
  rewrite RTC_DCHECK_true by (destruct (Z.eqb_spec (Z.of_nat (length l) + 1) 0); [lia|done]). rewrite place_buffer by (destruct Hv3; lia). cbn [mbind exec_bind].
  exists d3. split_and!; [done| |by rewrite Ht3]. eapply view_holds; [done|cbn; lia|]. intros k Hk. rewrite Hc3 in Hk. change (internal_capacity d2) with (internal_capacity d1) in Hk. unfold upd. destruct (Z.eqb_spec k 0) as [->|]; [done|].
  replace (k + (internal_capacity d1 - 1)) with (k - 1 + 1 * internal_capacity d1) by lia. rewrite Z.mod_add, Z.mod_small by lia. replace (Z.to_nat k) with (Datatypes.S (Z.to_nat (k - 1))) by lia. done.
Qed.

Lemma emplace_back_run d l x : holds M d l -> Z.of_nat (length l) + 1 <= M ->
  exists d', emplace_back size_t sizeof_T malloc (Value x) d = Done ((begin_ d' + Z.of_nat (length l)) mod internal_capacity d', d') /\ holds M d' (l ++ [x]) /\ this d' = this d.
Proof using memory.
  intros Hd HM. unfold emplace_back. destruct (ExpandCapacityIfNecessary_run size_t sizeof_T malloc M d l 1 Hd ltac:(lia) HM) as (d1 & -> & Hv & Hcap & Ht & _). cbn [mbind exec_bind].
  pose proof Hv as [Hb Hn He Hs Hc]. rewrite He. destruct (construct_at M d1 _ _ (Z.of_nat (length l)) x Hv ltac:(lia)) as (d2 & -> & Hv2 & [Ht2 _] & Hb2 & He2 & Hc2). cbn [mbind exec_bind].
  assert ((if end_ d2 =? usz size_t (internal_capacity d2 - 1) then 0 else usz size_t (end_ d2 + 1)) = (begin_ d2 + (Z.of_nat (length l) + 1)) mod internal_capacity d2) as ->.
  { rewrite He2, Hb2, Hc2, He. pose proof (idx_bound (begin_ d1) (Z.of_nat (length l)) (internal_capacity d1) ltac:(lia)). rewrite <- (next_index d1 _ _ _ Hv) by lia. rewrite !(usz_id size_t sizeof_T malloc M) by lia.
    destruct (Z.eqb_spec ((begin_ d1 + Z.of_nat (length l)) mod internal_capacity d1) (internal_capacity d1 - 1)), (Z.eqb_spec ((begin_ d1 + Z.of_nat (length l)) mod internal_capacity d1 + 1) (internal_capacity d1)); lia. }
  pose proof (view_generation _ _ _ (view_set_end d2 _ _ (Z.of_nat (length l) + 1) Hv2 ltac:(lia))) as Hv3. set (d3 := IncrementGeneration _) in *.
  unfold back. rewrite (view_empty _ _ _ _ Hv3), RTC_DCHECK_true by (destruct (Z.eqb_spec (Z.of_nat (length l) + 1) 0); [lia|done]).
  destruct (Decrement_at size_t sizeof_T malloc M (end' d3) d3 _ _ _ Hv3 (end_at _ _ _ _ Hv3) ltac:(lia)) as (it & -> & Hit). cbn [mbind exec_bind].
  unfold iterator_place. rewrite (Unstable_at _ _ _ Hit). destruct Hit as (_ & _ & ->). rewrite (CheckValidIndex_at _ _ _ _ _ Hv3) by (change (internal_capacity d3) with (internal_capacity d2); lia).
  rewrite !RTC_DCHECK_true by (try done; apply Z.ltb_lt; lia). rewrite place_buffer by (pose proof (idx_bound (begin_ d3) (Z.of_nat (length l) + 1 - 1) (internal_capacity d3) ltac:(destruct Hv3; lia)); lia). cbn [mbind exec_bind].
  exists d3. split_and!; [by rewrite Z.add_simpl_r| |cbn; by rewrite Ht2]. eapply view_holds; [done|rewrite length_app; cbn; lia|]. intros k Hk. unfold upd.
  destruct (Z.eqb_spec k (Z.of_nat (length l))) as [->|]; [by rewrite lookup_app_r, Nat2Z.id, Nat.sub_diag by lia|].
  destruct (Z_lt_le_dec k (Z.of_nat (length l))); [by rewrite lookup_app_l by lia|]. rewrite !lookup_none by (rewrite ?length_app; cbn; lia). done.
Qed.

Lemma pop_front_run d l x : holds M d (x :: l) -> exists d', pop_front size_t sizeof_T malloc d = Done d' /\ holds M d' l /\ this d' = this d.
Proof using memory.
  intros Hd. unfold pop_front. rewrite (holds_size size_t sizeof_T malloc M _ _ Hd). pose proof (view_internal _ _ Hd ltac:(cbn; lia)) as Hv. set (n := Z.of_nat (length (x :: l))) in *. assert (n = Z.of_nat (length l) + 1) as Hn1 by (unfold n; cbn [length]; lia).
  rewrite RTC_DCHECK_true by (destruct (Z.eqb_spec n 0); [lia|done]). pose proof Hv as [Hb Hn He Hs Hc].
  destruct (destruct_one_at d _ _ 0 x Hv ltac:(lia) eq_refl) as (d1 & Hrun & Hv1 & [Ht1 _] & Hb1 & He1 & Hc1). rewrite <- (index_of_begin _ _ _ Hv) in Hrun. rewrite Hrun. cbn [mbind exec_bind].
  pose proof (next_index d1 _ _ 0 Hv1 ltac:(lia)) as Hnext. rewrite <- (index_of_begin _ _ _ Hv1) in Hnext. rewrite Hnext by lia. replace (0 + 1) with 1 by lia.
  assert (holds M (set_begin ((begin_ d1 + 1) mod internal_capacity d1) d1) l) as Hl.
  { eapply view_holds; [apply (view_set_begin d1 _ _ 1 (Z.of_nat (length l)) Hv1)|done|]; try lia.
    - rewrite Hn1. replace (1 + Z.of_nat (length l)) with (Z.of_nat (length l) + 1) by lia. apply Z.mod_small. lia.
    - intros k Hk. change (internal_capacity (set_begin _ d1)) with (internal_capacity d1) in Hk. unfold upd. destruct (Z.eq_dec k (internal_capacity d1 - 1)) as [->|].
      + rewrite Z.sub_add, Z.mod_same by lia. cbn. by rewrite lookup_none by lia.
      + rewrite Z.mod_small by lia. destruct (Z.eqb_spec (k + 1) 0); [lia|]. by replace (Z.to_nat (k + 1)) with (Datatypes.S (Z.to_nat k)) by lia. }
  destruct (ShrinkCapacityIfNecessary_run size_t sizeof_T malloc M _ _ Hl) as (d2 & -> & Hl2 & [Ht2 _]). cbn [mbind exec_bind]. eexists. split_and!; [done|by apply holds_generation|]. cbn. rewrite Ht2. done.
Qed.

Lemma pop_back_run d l x : holds M d (l ++ [x]) -> exists d', pop_back size_t sizeof_T malloc d = Done d' /\ holds M d' l /\ this d' = this d.
Proof using memory.
  intros Hd. unfold pop_back. rewrite (holds_size size_t sizeof_T malloc M _ _ Hd). assert (Z.of_nat (length (l ++ [x])) = Z.of_nat (length l) + 1) as Hn1 by (rewrite length_app; cbn [length]; lia).
  pose proof (view_internal _ _ Hd ltac:(lia)) as Hv. rewrite Hn1 in *. rewrite RTC_DCHECK_true by (destruct (Z.eqb_spec (Z.of_nat (length l) + 1) 0); [lia|done]). pose proof Hv as [Hb Hn He Hs Hc].
  pose proof (previous_index d _ _ (Z.of_nat (length l) + 1) Hv ltac:(lia)) as Hprev. rewrite <- He in Hprev. rewrite Hprev. destruct (Z.eqb_spec (Z.of_nat (length l) + 1) 0); [lia|]. rewrite Z.add_simpl_r.
  pose proof (view_set_end d _ _ (Z.of_nat (length l)) Hv ltac:(lia)) as Hv1. set (d1 := set_end _ d) in *.
  destruct (destruct_one_at d1 _ _ (Z.of_nat (length l)) x Hv1) as (d2 & Hrun & Hv2 & [Ht2 _] & Hb2 & He2 & Hc2).
  { change (internal_capacity d1) with (internal_capacity d). lia. } { rewrite lookup_app_r, Nat2Z.id, Nat.sub_diag by lia. done. }
  change (end_ d1) with ((begin_ d1 + Z.of_nat (length l)) mod internal_capacity d1) at 1. rewrite Hrun. cbn [mbind exec_bind].
  assert (holds M d2 l) as Hl.
  { eapply view_holds; [done|done|]. intros k Hk. unfold upd. destruct (Z.eqb_spec k (Z.of_nat (length l))) as [->|]; [by rewrite lookup_none|].
    destruct (Z_lt_le_dec k (Z.of_nat (length l))); [by rewrite lookup_app_l by lia|]. rewrite !lookup_none by (rewrite ?length_app; cbn; lia). done. }
  destruct (ShrinkCapacityIfNecessary_run size_t sizeof_T malloc M _ _ Hl) as (d3 & -> & Hl3 & [Ht3 _]). cbn [mbind exec_bind]. eexists. split_and!; [done|by apply holds_generation|]. cbn. by rewrite Ht3, Ht2.
Qed.

(** ** Access *)

Lemma at_run d l i x : holds M d l -> 0 <= i -> l !! Z.to_nat i = Some x -> at_ size_t i d = Done x.
Proof using memory.
  intros Hd Hi Hx. pose proof (lookup_lt_Some _ _ _ Hx). pose proof (view_internal d l Hd ltac:(lia)) as Hv. pose proof Hv as [Hb Hn He Hs Hc]. unfold at_.
  rewrite (holds_size size_t sizeof_T malloc M _ _ Hd), RTC_DCHECK_true by (apply Z.ltb_lt; lia). pose proof (load_at _ _ _ i x Hs ltac:(rewrite length_slots; lia) Hx) as Hload. rewrite length_slots in Hload.
  rewrite (usz_id size_t sizeof_T malloc M (internal_capacity d - begin_ d)) by lia. rewrite wrap_idx in Hload, He by lia. rewrite He.
  assert ((begin_ d <=? (if begin_ d + Z.of_nat (length l) <? internal_capacity d then begin_ d + Z.of_nat (length l) else begin_ d + Z.of_nat (length l) - internal_capacity d)) || (i <? internal_capacity d - begin_ d) = (begin_ d + i <? internal_capacity d)) as ->.
  { apply bool_eq_iff. rewrite orb_true_iff, Z.leb_le, !Z.ltb_lt. destruct (Z.ltb_spec (begin_ d + Z.of_nat (length l)) (internal_capacity d)); lia. }
  destruct (Z.ltb_spec (begin_ d + i) (internal_capacity d)); rewrite (usz_id size_t sizeof_T malloc M) by lia; rewrite place_buffer by lia; cbn [mbind exec_bind]; unfold read_place; [done|].
  by replace (i - (internal_capacity d - begin_ d)) with (begin_ d + i - internal_capacity d) by lia.
Qed.

Lemma front_run d x l : holds M d (x :: l) -> (p ← front d; read_place p d) = Done x.
Proof using.
  intros Hd. pose proof (view_internal _ _ Hd ltac:(cbn; lia)) as Hv. unfold front. rewrite (view_empty _ _ _ _ Hv), RTC_DCHECK_true by done.
  pose proof (index_of_begin _ _ _ Hv) as Hi. pose proof Hv as [Hb Hn He Hs Hc]. rewrite place_buffer by lia. cbn [mbind exec_bind]. unfold read_place. rewrite Hi at 1. rewrite <- length_slots. eapply load_at; [done|rewrite length_slots; lia|done].
Qed.

Lemma back_run d x l : holds M d (l ++ [x]) -> (p ← back size_t d; read_place p d) = Done x.
Proof using memory.
  intros Hd. assert (Z.of_nat (length (l ++ [x])) = Z.of_nat (length l) + 1) as Hn1 by (rewrite length_app; cbn [length]; lia).
  pose proof (view_internal _ _ Hd ltac:(lia)) as Hv. rewrite Hn1 in Hv. unfold back. rewrite (view_empty _ _ _ _ Hv), RTC_DCHECK_true by (destruct (Z.eqb_spec (Z.of_nat (length l) + 1) 0); [lia|done]).
  pose proof Hv as [Hb Hn He Hs Hc]. destruct (Decrement_at size_t sizeof_T malloc M (end' d) d _ _ _ Hv (end_at _ _ _ _ Hv) ltac:(lia)) as (it & -> & Hit). cbn [mbind exec_bind].
  unfold iterator_place. rewrite (Unstable_at _ _ _ Hit). destruct Hit as (_ & _ & ->). rewrite Z.add_simpl_r. rewrite (CheckValidIndex_at _ _ _ _ _ Hv) by lia.
  rewrite !RTC_DCHECK_true by (try done; apply Z.ltb_lt; lia). rewrite place_buffer by (pose proof (idx_bound (begin_ d) (Z.of_nat (length l)) (internal_capacity d) ltac:(lia)); lia). cbn [mbind exec_bind].
  unfold read_place. rewrite <- length_slots. eapply load_at; [done|rewrite length_slots; lia|]. cbv beta. rewrite lookup_app_r, Nat2Z.id, Nat.sub_diag by lia. done.
Qed.

End Ends.

(** ** Clearing, assignment and size *)

Section Sizes.
Context {T : Type} {build : Build} (size_t : int_type) (sizeof_T : Z) (malloc : Z -> bool) (M : Z).
Context {memory : Memory size_t sizeof_T malloc M}.
Implicit Types (l : list T) (f g : Z -> option T) (s : list (option T)) (d : circular_deque (T := T)).
Abbreviation lk l := (fun n => l !! Z.to_nat n).
Abbreviation max_cap := (max_capacity M).

Lemma view_nothing d n f b : view M d n f -> (forall k, 0 <= k < internal_capacity d -> f k = None) -> 0 <= b < internal_capacity d -> holds M (set_end b (set_begin b d)) [].
Proof using.
  intros [Hb Hn He Hs Hc] Hf Hb'. right. split; cbn; try done; change (internal_capacity (set_end _ (set_begin _ d))) with (internal_capacity d); try lia.
  - by rewrite Z.add_0_r, Z.mod_small.
  - set (m := (b - begin_ d) mod internal_capacity d). pose proof (Z.mod_pos_bound (b - begin_ d) (internal_capacity d) ltac:(lia)) as Hm.
    pose proof (slots_at_rebase _ _ _ m Hs Hm) as Hr. rewrite length_slots in Hr. assert ((begin_ d + m) mod internal_capacity d = b) as Heq.
    { unfold m. rewrite Z.add_mod_idemp_r by lia. replace (begin_ d + (b - begin_ d)) with b by lia. by apply Z.mod_small. }
    rewrite Heq in Hr. eapply slots_at_ext; [exact Hr|]. intros k Hk. rewrite lookup_nil. apply Hf. apply Z.mod_pos_bound. lia.
Qed.

Lemma DestructRange_holds d l : holds M d l -> exists d', DestructRange (begin_ d) (end_ d) d = Done d' /\ holds M (set_end 0 (set_begin 0 d')) [] /\ frame d d'.
Proof using memory.
  intros [(Hc & Hb & He & ->)|Hv].
  - unfold DestructRange. rewrite He, Z.eqb_refl. exists d. split_and!; [done| |done]. left. cbn. done.
  - pose proof Hv as [Hb Hn He Hs Hc]. 
    destruct (DestructRange_at size_t sizeof_T malloc M d _ _ 0 (Z.of_nat (length l)) Hv ltac:(lia) ltac:(lia)) as (d' & Hd' & Hv' & Hf & Hb' & He' & Hc'); [intros i Hi; by apply lookup_some|].
    rewrite <- (index_of_begin M _ _ _ Hv), <- He in Hd'. rewrite Hd'. exists d'. split_and!; [done| |apply Hf..]. eapply view_nothing; [done| |lia]. intros k Hk. unfold cleared.
    destruct (Z.leb_spec 0 k), (Z.ltb_spec k (0 + (Z.of_nat (length l) - 0))); cbn; try lia; [done|]. by rewrite lookup_none by lia.
Qed.

Lemma ClearRetainCapacity_run d l : holds M d l -> exists d', ClearRetainCapacity d = Done d' /\ holds M d' [] /\ this d' = this d.
Proof using memory.
  intros Hd. unfold ClearRetainCapacity. destruct (DestructRange_holds d l Hd) as (d1 & -> & H1 & [Ht _]). cbn [mbind exec_bind]. eexists. split_and!; [done|by apply holds_generation|done].
Qed.

Lemma deque_clear_run d l : holds M d l -> exists d', clear d = Done d' /\ holds M d' [] /\ this d' = this d /\ capacity size_t d' = 0.
Proof using memory.
  intros Hd. unfold clear. unfold ClearRetainCapacity. destruct (DestructRange_holds d l Hd) as (d1 & -> & H1 & [Ht _]). cbn [mbind exec_bind].
  eexists. split_and!; [done| |done|done]. by left.
Qed.

Lemma deque_push_back_run d l x : holds M d l -> Z.of_nat (length l) + 1 <= M -> exists d', push_back size_t sizeof_T malloc (Value x) d = Done d' /\ holds M d' (l ++ [x]) /\ this d' = this d.
Proof using memory. intros Hd HM. unfold push_back. destruct (emplace_back_run size_t sizeof_T malloc M d l x Hd HM) as (d' & -> & ?). by exists d'. Qed.

Lemma push_front_run d l x : holds M d l -> Z.of_nat (length l) + 1 <= M -> exists d', push_front size_t sizeof_T malloc (Value x) d = Done d' /\ holds M d' (x :: l) /\ this d' = this d.
Proof using memory. intros Hd HM. unfold push_front. destruct (emplace_front_run size_t sizeof_T malloc M d l x Hd HM) as (d' & -> & ?). by exists d'. Qed.

Lemma push_back_list_run d l k : holds M d l -> Z.of_nat (length l) + Z.of_nat (length k) <= M -> exists d', push_back_list size_t sizeof_T malloc k d = Done d' /\ holds M d' (l ++ k) /\ this d' = this d.
Proof using memory.
  revert d l. induction k as [|x k IH]; intros d l Hd HM; cbn [push_back_list length] in *; [exists d; by rewrite app_nil_r|].
  destruct (deque_push_back_run d l x Hd ltac:(lia)) as (d1 & -> & H1 & Ht). cbn [mbind exec_bind]. destruct (IH d1 (l ++ [x]) H1) as (d2 & -> & H2 & Ht2); [rewrite length_app; cbn; lia|].
  exists d2. rewrite <- app_assoc in H2. split_and!; [done..|congruence].
Qed.

Lemma push_back_n_run n d l x : holds M d l -> Z.of_nat (length l) + Z.of_nat n <= M -> exists d', push_back_n size_t sizeof_T malloc n (Value x) d = Done d' /\ holds M d' (l ++ replicate n x) /\ this d' = this d.
Proof using memory.
  revert d l. induction n as [|n IH]; intros d l Hd HM; cbn [push_back_n replicate]; [exists d; by rewrite app_nil_r|].
  destruct (deque_push_back_run d l x Hd ltac:(lia)) as (d1 & -> & H1 & Ht). cbn [mbind exec_bind]. destruct (IH d1 (l ++ [x]) H1) as (d2 & -> & H2 & Ht2); [rewrite length_app; cbn; lia|].
  exists d2. rewrite <- app_assoc in H2. split_and!; [done..|congruence].
Qed.

Lemma push_front_n_run n d l x : holds M d l -> Z.of_nat (length l) + Z.of_nat n <= M -> exists d', push_front_n size_t sizeof_T malloc n (Value x) d = Done d' /\ holds M d' (replicate n x ++ l) /\ this d' = this d.
Proof using memory.
  revert d l. induction n as [|n IH]; intros d l Hd HM; cbn [push_front_n replicate]; [by exists d|].
  destruct (push_front_run d l x Hd ltac:(lia)) as (d1 & -> & H1 & Ht). cbn [mbind exec_bind]. destruct (IH d1 (x :: l) H1) as (d2 & -> & H2 & Ht2); [cbn; lia|].
  exists d2. split_and!; [done| |congruence]. by rewrite replicate_cons_app, <- app_assoc.
Qed.

Lemma assign_run d l n x : holds M d l -> 0 <= n <= M -> exists d', assign size_t sizeof_T malloc n (Value x) d = Done d' /\ holds M d' (replicate (Z.to_nat n) x) /\ this d' = this d.
Proof using memory.
  intros Hd Hn. unfold assign. destruct (ClearRetainCapacity_run d l Hd) as (d1 & -> & H1 & Ht1). cbn [mbind exec_bind].
  destruct (reserve_run size_t sizeof_T malloc M d1 [] n H1 ltac:(lia)) as (d2 & -> & H2 & [Ht2 _] & _). cbn [mbind exec_bind]. destruct (push_back_n_run (Z.to_nat n) d2 [] x H2) as (d3 & -> & H3 & Ht3); [cbn; lia|].
  cbn [mbind exec_bind]. eexists. split_and!; [done|by apply holds_generation|cbn; congruence].
Qed.

Lemma assign_range_run d l k : holds M d l -> Z.of_nat (length k) <= M -> exists d', assign_range size_t sizeof_T malloc k d = Done d' /\ holds M d' k /\ this d' = this d.
Proof using memory.
  intros Hd Hn. unfold assign_range. destruct (ClearRetainCapacity_run d l Hd) as (d1 & -> & H1 & Ht1). cbn [mbind exec_bind].
  destruct (push_back_list_run d1 [] k H1 ltac:(cbn; lia)) as (d3 & -> & H3 & Ht3). cbn [mbind exec_bind]. eexists. split_and!; [done|by apply holds_generation|cbn; congruence].
Qed.

Lemma assign_initializer_list_run d l k : holds M d l -> Z.of_nat (length k) <= M -> exists d', assign_initializer_list size_t sizeof_T malloc k d = Done d' /\ holds M d' k /\ this d' = this d.
Proof using memory.
  intros Hd Hk. unfold assign_initializer_list. destruct (reserve_run size_t sizeof_T malloc M d l _ Hd Hk) as (d1 & -> & H1 & [Ht1 _] & _). cbn [mbind exec_bind].
  destruct (assign_range_run d1 l k H1 Hk) as (d2 & -> & H2 & Ht2). exists d2. split_and!; [done..|congruence].
Qed.

(** Enough fuel for the loop of [resize] is the number of elements that are missing. *)
Lemma resize_loop_run fuel d l count x : holds M d l -> count <= M -> count <= Z.of_nat (length l) + Z.of_nat fuel ->
  exists d', resize_loop size_t sizeof_T malloc fuel count (Value x) d = Done d' /\ holds M d' (l ++ replicate (Z.to_nat (count - Z.of_nat (length l))) x) /\ this d' = this d.
Proof using memory.
  revert d l. induction fuel as [|fuel IH]; intros d l Hd HM Hf; cbn [resize_loop]; rewrite (holds_size size_t sizeof_T malloc M _ _ Hd); destruct (Z.ltb_spec (Z.of_nat (length l)) count); try lia.
  - exists d. replace (Z.to_nat (count - Z.of_nat (length l))) with 0%nat by lia. by rewrite app_nil_r.
  - destruct (deque_push_back_run d l x Hd ltac:(lia)) as (d1 & -> & H1 & Ht). cbn [mbind exec_bind]. destruct (IH d1 (l ++ [x]) H1 HM) as (d2 & -> & H2 & Ht2); [rewrite length_app; cbn; lia|].
    exists d2. split_and!; [done| |congruence]. rewrite <- app_assoc, length_app in H2. cbn [length app] in H2. replace (Z.to_nat (count - Z.of_nat (length l))) with (Datatypes.S (Z.to_nat (count - Z.of_nat (length l + 1)))) by lia. done.
  - exists d. replace (Z.to_nat (count - Z.of_nat (length l))) with 0%nat by lia. by rewrite app_nil_r.
Qed.

Lemma resize_run d l count x : holds M d l -> 0 <= count <= M ->
  exists d', resize size_t sizeof_T malloc count (Value x) d = Done d' /\ holds M d' (firstn (Z.to_nat count) l ++ replicate (Z.to_nat (count - Z.of_nat (length l))) x) /\ this d' = this d.
Proof using memory.
  intros Hd Hcount. assert (M <= max_cap) by (unfold max_capacity; pose proof (Z.div_pos M 4 (M_nonneg memory) ltac:(lia)); lia). unfold resize. rewrite (holds_size size_t sizeof_T malloc M _ _ Hd).
  destruct (Z.ltb_spec (Z.of_nat (length l)) count) as [Hlt|Hge].
  - rewrite (usz_id size_t sizeof_T malloc M) by lia. destruct (ExpandCapacityIfNecessary_run size_t sizeof_T malloc M d l (count - Z.of_nat (length l)) Hd ltac:(lia) ltac:(lia)) as (d1 & -> & Hv & _ & [Ht1 _]). cbn [mbind exec_bind].
    destruct (resize_loop_run (Z.to_nat (count - Z.of_nat (length l))) d1 l count x (or_intror Hv) ltac:(lia) ltac:(lia)) as (d2 & -> & H2 & Ht2). cbn [mbind exec_bind].
    eexists. split_and!; [done|apply holds_generation|cbn; congruence]. by rewrite firstn_all2 by lia.
  - replace (Z.to_nat (count - Z.of_nat (length l))) with 0%nat by lia. rewrite app_nil_r. destruct (Z.ltb_spec count (Z.of_nat (length l))) as [Hlt|Heq].
    + pose proof (view_internal M d l Hd ltac:(lia)) as Hv. pose proof Hv as [Hb Hn He Hs Hc]. destruct (Z.eqb_spec (internal_capacity d) 0); [lia|]. rewrite (usz_id size_t sizeof_T malloc M) by lia.
      destruct (DestructRange_at size_t sizeof_T malloc M d _ _ count (Z.of_nat (length l)) Hv ltac:(lia) ltac:(lia)) as (d1 & Hrun & Hv1 & [Ht1 _] & Hb1 & He1 & Hc1); [intros i Hi; apply lookup_some; lia|].
      rewrite <- He in Hrun. rewrite Hrun. cbn [mbind exec_bind].
      rewrite <- Hb1, <- Hc1. pose proof (view_set_end M d1 _ _ count Hv1 ltac:(lia)) as Hv2. assert (holds M (set_end ((begin_ d1 + count) mod internal_capacity d1) d1) (firstn (Z.to_nat count) l)) as H2.
      { eapply view_holds; [done|rewrite length_take; lia|]. intros k Hk. unfold cleared. destruct (Z.leb_spec count k), (Z.ltb_spec k (count + (Z.of_nat (length l) - count))); cbn; try lia.
        - by rewrite lookup_take_ge by lia.
        - by rewrite lookup_take_ge, lookup_none by lia.
        - by rewrite lookup_take_lt by lia. }
      destruct (ShrinkCapacityIfNecessary_run size_t sizeof_T malloc M _ _ H2) as (d3 & -> & H3 & [Ht3 _]). cbn [mbind exec_bind]. eexists. split_and!; [done|by apply holds_generation|]. cbn. rewrite Ht3. done.
    + cbn [mbind exec_bind]. eexists. split_and!; [done|apply holds_generation|done]. by rewrite firstn_all2 by lia.
Qed.

(** ** Insertion *)

(** [c] places are made at [p] among the elements. *)
Definition room l (p c : Z) : Z -> option T := fun k => if k <? p then l !! Z.to_nat k else if k <? p + c then None else l !! Z.to_nat (k - c).

Lemma shift_right_run fuel d l p q c (insert_begin src dest : iterator) :
  view M d (Z.of_nat (length l) + c) (room l q c) -> 0 <= p <= q -> q <= Z.of_nat (length l) -> 0 < c -> q <= p + Z.of_nat fuel ->
  at_distance insert_begin d p -> at_distance src d q -> at_distance dest d (q + c) ->
  exists d', shift_right size_t fuel insert_begin src dest d = Done d' /\ view M d' (Z.of_nat (length l) + c) (room l p c) /\ frame d d' /\ begin_ d' = begin_ d /\ internal_capacity d' = internal_capacity d.
Proof using memory.
  revert d q src dest. induction fuel as [|fuel IH]; intros d q src dest Hv Hp Hq Hc Hf Hib Hsrc Hdest; cbn [shift_right]; pose proof Hv as [Hb Hn He Hs Hcap];
    rewrite (eq_at _ _ _ _ _ Hsrc Hib) by lia; cbn [mbind exec_bind]; destruct (Z.eqb_spec q p) as [->|Hne]; try (by exists d); [lia|].
  destruct (Decrement_at size_t sizeof_T malloc M src d _ _ q Hv Hsrc ltac:(lia)) as (src' & -> & Hsrc'). cbn [mbind exec_bind].
  destruct (Decrement_at size_t sizeof_T malloc M dest d _ _ (q + c) Hv Hdest ltac:(lia)) as (dest' & -> & Hdest'). cbn [mbind exec_bind].
  destruct (lookup_some l (q - 1) ltac:(lia)) as [x Hx]. pose proof Hsrc' as (_ & _ & ->). pose proof Hdest' as (_ & _ & ->).
  destruct (move_one_at size_t sizeof_T malloc M d _ _ (q - 1) (q + c - 1) x Hv) as (d1 & -> & Hv1 & Hfr & Hb1 & He1 & Hc1); try lia; [unfold room; by rewrite (proj2 (Z.ltb_lt _ _)) by lia|]. cbn [mbind exec_bind].
  destruct (IH d1 (q - 1) src' dest') as (d2 & -> & Hv2 & Hfr2 & Hb2 & Hc2); try lia.
  - eapply view_ext; [done|]. intros k Hk. unfold upd, room. destruct (Z.eqb_spec k (q - 1)) as [->|].
    + destruct (Z.ltb_spec (q - 1) (q - 1)); [lia|]. by rewrite (proj2 (Z.ltb_lt _ _)) by lia.
    + destruct (Z.eqb_spec k (q + c - 1)) as [->|].
      * destruct (Z.ltb_spec (q + c - 1) (q - 1)), (Z.ltb_spec (q + c - 1) (q - 1 + c)); try lia. rewrite <- Hx. f_equal. lia.
      * destruct (Z.ltb_spec k q), (Z.ltb_spec k (q + c)), (Z.ltb_spec k (q - 1)), (Z.ltb_spec k (q - 1 + c)); (done || lia).
  - by eapply at_distance_frame.
  - by eapply at_distance_frame.
  - replace (q - 1 + c) with (q + c - 1) by lia. by eapply at_distance_frame.
  - exists d2. split_and!; [done|done|apply (frame_trans _ _ _ Hfr Hfr2)..|congruence|congruence].
Qed.

Lemma MakeRoomFor_run d l p c insert_begin : holds M d l -> 0 < p <= Z.of_nat (length l) -> 0 < c -> Z.of_nat (length l) + c <= M -> at_distance insert_begin d p ->
  exists ib ie d', MakeRoomFor size_t sizeof_T malloc c insert_begin d = Done (ib, ie, d') /\ view M d' (Z.of_nat (length l) + c) (room l p c) /\ frame d d' /\ at_distance ib d' p /\ at_distance ie d' (p + c).
Proof using memory.
  intros Hd Hp Hc HM Hib. assert (M <= max_cap) by (unfold max_capacity; pose proof (Z.div_pos M 4 (M_nonneg memory) ltac:(lia)); lia). pose proof (view_internal M d l Hd ltac:(lia)) as Hv. unfold MakeRoomFor. destruct (Z.eqb_spec c 0); [lia|].
  rewrite (Offset_at size_t sizeof_T malloc M _ _ _ _ _ Hv Hib) by (destruct Hv; lia). rewrite (holds_size size_t sizeof_T malloc M _ _ Hd).
  destruct (ExpandCapacityIfNecessary_run size_t sizeof_T malloc M d l c Hd ltac:(lia) HM) as (d1 & -> & Hv1 & Hcap & Hfr). cbn [mbind exec_bind]. pose proof Hv1 as [Hb Hn He Hs Hcc].
  destruct (Z.eqb_spec (internal_capacity d1) 0); [lia|]. rewrite !(usz_id size_t sizeof_T malloc M) by (cbn; pose proof (idx_bound (begin_ d1) p (internal_capacity d1) ltac:(lia)); pose proof (idx_bound (begin_ d1) (Z.of_nat (length l)) (internal_capacity d1) ltac:(lia)); lia).
  assert ((end_ d1 + c) mod internal_capacity d1 = (begin_ d1 + (Z.of_nat (length l) + c)) mod internal_capacity d1) as ->. { rewrite He, Z.add_mod_idemp_l by lia. f_equal. lia. }
  pose proof (view_set_end M d1 _ _ (Z.of_nat (length l) + c) Hv1 ltac:(lia)) as Hv2. set (d2 := set_end _ d1) in *. destruct Hib as (Hpar & Hgen & _). destruct Hfr as [Hft Hfg].
  assert (at_distance (at_index insert_begin ((begin_ d1 + p) mod internal_capacity d1)) d2 p) as Hib2 by (split_and!; cbn; [congruence|congruence|done]).
  destruct (shift_right_run (Z.to_nat (Z.of_nat (length l))) d2 l p (Z.of_nat (length l)) c (at_index insert_begin ((begin_ d1 + p) mod internal_capacity d1)) (end' d1) (end' d2)) as (d3 & -> & Hv3 & Hfr3 & Hb3 & Hc3); try done; try lia.
  - eapply view_ext; [done|]. intros k Hk. unfold room. destruct (Z.ltb_spec k (Z.of_nat (length l))); [done|]. rewrite lookup_none by lia. destruct (Z.ltb_spec k (Z.of_nat (length l) + c)); [done|]. by rewrite lookup_none by lia.
  - cbn [mbind exec_bind]. eexists _, _, _. split_and!; [reflexivity|done|destruct Hfr3; split; cbn in *; congruence..| |].
    + eapply at_distance_frame; [exact Hib2|done..].
    + eapply (at_distance_frame _ d2); [|done..]. split_and!; [done..|]. cbn. change (internal_capacity d2) with (internal_capacity d1). rewrite Z.add_mod_idemp_l by lia. f_equal. lia.
Qed.

Definition filled f (k m : Z) (g : Z -> option T) : Z -> option T := fun j => if (k <=? j) && (j <? m) then g j else f j.

Lemma fill_count_run fuel d n f k m x (cur last : iterator) : view M d n f -> 0 <= k <= m -> m <= n -> m <= k + Z.of_nat fuel -> at_distance cur d k -> at_distance last d m ->
  exists d', fill_count size_t fuel cur last (Value x) d = Done d' /\ view M d' n (filled f k m (fun _ => Some x)) /\ frame d d'.
Proof using memory.
  revert d f k cur. induction fuel as [|fuel IH]; intros d f k cur Hv Hk Hm Hf Hcur Hlast; cbn [fill_count]; pose proof Hv as [Hb Hn He Hs Hcap];
    rewrite (lt_at size_t sizeof_T malloc M _ _ _ _ _ _ _ Hv Hcur Hlast) by lia; cbn [mbind exec_bind]; destruct (Z.ltb_spec k m); try lia;
    try (exists d; split_and!; [done| |done..]; eapply view_ext; [done|]; intros j _; unfold filled; destruct (Z.leb_spec k j), (Z.ltb_spec j m); cbn; (done || lia)).
  pose proof Hcur as (_ & _ & ->). destruct (construct_at M d _ _ k x Hv ltac:(lia)) as (d1 & -> & Hv1 & Hfr & Hb1 & He1 & Hc1). cbn [mbind exec_bind].
  pose proof (at_distance_frame _ _ _ _ Hcur Hfr Hb1 Hc1) as Hcur1. destruct (Increment_at size_t sizeof_T malloc M cur d1 _ _ k Hv1 Hcur1 ltac:(lia)) as (cur' & -> & Hcur'). cbn [mbind exec_bind].
  destruct (IH d1 (upd f k (Some x)) (k + 1) cur' Hv1 ltac:(lia) ltac:(lia) ltac:(lia) Hcur') as (d2 & -> & Hv2 & Hfr2); [by eapply at_distance_frame|].
  exists d2. split_and!; [done| |apply (frame_trans _ _ _ Hfr Hfr2)..]. eapply view_ext; [done|]. intros j _. unfold filled, upd.
  destruct (Z.leb_spec (k + 1) j), (Z.ltb_spec j m), (Z.leb_spec k j), (Z.eqb_spec j k); cbn; (done || lia).
Qed.

Lemma fill_range_run d n f i m k (cur last : iterator) : view M d n f -> 0 <= i -> m = i + Z.of_nat (length k) -> m <= n -> at_distance cur d i -> at_distance last d m ->
  exists d', fill_range size_t k cur last d = Done d' /\ view M d' n (filled f i m (fun j => k !! Z.to_nat (j - i))) /\ frame d d'.
Proof using memory.
  revert d f i cur. induction k as [|x k IH]; intros d f i cur Hv Hi Hk Hm Hcur Hlast; cbn [fill_range length] in *; pose proof Hv as [Hb Hn He Hs Hcap];
    rewrite (lt_at size_t sizeof_T malloc M _ _ _ _ _ _ _ Hv Hcur Hlast) by lia; cbn [mbind exec_bind]; destruct (Z.ltb_spec i m); try lia.
  { exists d; split_and!; [done| |done..]; eapply view_ext; [done|]; intros j _; unfold filled; destruct (Z.leb_spec i j), (Z.ltb_spec j m); cbn; (done || lia). }
  pose proof Hcur as (_ & _ & ->). destruct (construct_at M d _ _ i x Hv ltac:(lia)) as (d1 & -> & Hv1 & Hfr & Hb1 & He1 & Hc1). cbn [mbind exec_bind].
  pose proof (at_distance_frame _ _ _ _ Hcur Hfr Hb1 Hc1) as Hcur1. destruct (Increment_at size_t sizeof_T malloc M cur d1 _ _ i Hv1 Hcur1 ltac:(lia)) as (cur' & -> & Hcur'). cbn [mbind exec_bind].
  destruct (IH d1 (upd f i (Some x)) (i + 1) cur' Hv1 ltac:(lia) ltac:(lia) ltac:(lia) Hcur') as (d2 & -> & Hv2 & Hfr2); [by eapply at_distance_frame|].
  exists d2. split_and!; [done| |apply (frame_trans _ _ _ Hfr Hfr2)..]. eapply view_ext; [done|]. intros j _. unfold filled, upd.
  destruct (Z.leb_spec (i + 1) j), (Z.ltb_spec j m), (Z.leb_spec i j), (Z.eqb_spec j i); cbn; try lia; try done.
  - replace (Z.to_nat (j - i)) with (Datatypes.S (Z.to_nat (j - (i + 1)))) by lia. done.
  - subst. by rewrite Z.sub_diag.
Qed.

(** The position at a distance from the beginning. *)
Lemma position_run d l p : holds M d l -> 0 <= p <= Z.of_nat (length l) -> exists it, Add size_t p (begin d) d = Done it /\ at_distance it d p.
Proof using memory.
  intros Hd Hp. destruct Hd as [(Hc & Hb & He & ->)|Hv].
  - cbn in Hp. assert (p = 0) as -> by lia. exists (begin d). split; [|split_and!; cbn; [done..|]; by rewrite Hc, Z.mod_0_r, Z.add_0_r].
    unfold Add, CheckUnstableUsage, CheckValidIndexOrEnd. cbn. rewrite Z.eqb_refl, RTC_DCHECK_true by done. rewrite He, Z.eqb_refl. cbn. by rewrite RTC_DCHECK_true.
  - destruct (Add_at size_t sizeof_T malloc M (begin d) d _ _ 0 p Hv (begin_at _ _ _ _ Hv) ltac:(lia) ltac:(lia)) as (it & -> & Hit). by exists it.
Qed.

(** Whether a position is the first one. *)
Lemma at_begin d l it p : holds M d l -> at_distance it d p -> 0 <= p <= Z.of_nat (length l) -> iterator_eq it (begin d) = Done (p =? 0).
Proof using.
  intros Hd Hi Hp. destruct Hd as [(Hc & Hb & He & ->)|Hv].
  - cbn in Hp. assert (p = 0) as -> by lia. unfold iterator_eq. destruct Hi as (Hpar & Hg & Hidx). unfold CheckComparable. cbn. rewrite Hpar, Hg, Nat.eqb_refl, Z.eqb_refl, RTC_DCHECK_true by done.
    by rewrite Hidx, Hc, Z.mod_0_r, Z.add_0_r, Z.eqb_refl.
  - apply (eq_at _ _ _ _ _ Hi (begin_at _ _ _ _ Hv)); destruct Hv; lia.
Qed.

Lemma at_same_index d it p : at_distance it d p -> at_distance (make_iterator d (index_ it)) d p.
Proof using. by intros (_ & _ & ->). Qed.

Lemma filled_room d l p k : view M d (Z.of_nat (length l) + Z.of_nat (length k)) (filled (room l p (Z.of_nat (length k))) p (p + Z.of_nat (length k)) (fun j => k !! Z.to_nat (j - p))) ->
  0 <= p <= Z.of_nat (length l) -> holds M d (splice p p k l).
Proof using.
  intros Hv Hp. eapply view_holds; [done|rewrite length_splice; lia|]. intros j Hj. rewrite lookup_splice by lia. unfold filled, room.
  destruct (Z.leb_spec p j), (Z.ltb_spec j p), (Z.ltb_spec j (p + Z.of_nat (length k))); cbn; try lia; try done. f_equal. lia.
Qed.

Lemma emplace_run d l p x pos : holds M d l -> 0 <= p <= Z.of_nat (length l) -> Z.of_nat (length l) + 1 <= M -> at_distance pos d p ->
  exists it d', emplace size_t sizeof_T malloc pos (Value x) d = Done (it, d') /\ holds M d' (splice p p [x] l) /\ at_distance it d' p /\ this d' = this d.
Proof using memory.
  intros Hd Hp HM Hpos. unfold emplace. rewrite (Validate_at _ _ _ Hpos), RTC_DCHECK_true by done. rewrite (at_begin d l pos p Hd Hpos Hp). cbn [mbind exec_bind]. destruct (Z.eqb_spec p 0) as [->|Hne].
  - destruct (emplace_front_run size_t sizeof_T malloc M d l x Hd HM) as (d1 & -> & H1 & Ht). cbn [mbind exec_bind snd]. exists (begin d1), d1. split_and!; [done|done|..|done].
    apply (begin_at M d1 _ _ (view_internal M _ _ H1 ltac:(cbn; lia))).
  - destruct (MakeRoomFor_run (IncrementGeneration d) l p 1 (make_iterator (IncrementGeneration d) (index_ pos)) (holds_generation M _ _ Hd) ltac:(lia) ltac:(lia) HM) as (ib & ie & d1 & -> & Hv1 & [Ht1 _] & Hib & _).
    { apply (at_same_index (IncrementGeneration d) (mkIterator (this d) (index_ pos) (generation_ (IncrementGeneration d)))). split_and!; [done..|]. cbn. by destruct Hpos as (_ & _ & ->). }
    cbn [mbind exec_bind fst snd]. pose proof Hib as (_ & _ & ->). destruct (construct_at M d1 _ _ p x Hv1) as (d2 & -> & Hv2 & Hfr2 & Hb2 & He2 & Hc2); [destruct Hv1; lia|]. cbn [mbind exec_bind].
    exists ib, d2. split_and!; [done| |by eapply at_distance_frame|destruct Hfr2 as [-> _]; by rewrite Ht1].
    apply (filled_room d2 l p [x]); [|lia]. eapply view_ext; [done|]. intros j _. unfold upd, filled. cbn [length].
    destruct (Z.eqb_spec j p), (Z.leb_spec p j), (Z.ltb_spec j (p + Z.of_nat 1)); cbn; try lia; [subst; by rewrite Z.sub_diag|done..].
Qed.

End Sizes.

Section Editing.
Context {T : Type} {build : Build} (size_t : int_type) (sizeof_T : Z) (malloc : Z -> bool) (M : Z).
Context {memory : Memory size_t sizeof_T malloc M}.
Implicit Types (l : list T) (f g : Z -> option T) (s : list (option T)) (d : circular_deque (T := T)).
Abbreviation lk l := (fun n => l !! Z.to_nat n).
Abbreviation max_cap := (max_capacity M).

Lemma splice_same l p : 0 <= p <= Z.of_nat (length l) -> splice p p [] l = l.
Proof using. intros Hp. unfold splice. cbn. apply firstn_skipn. Qed.

Lemma insert_count_run d l p n x pos : holds M d l -> 0 <= p <= Z.of_nat (length l) -> 0 <= n -> Z.of_nat (length l) + n <= M -> at_distance pos d p ->
  exists d', insert_count size_t sizeof_T malloc pos n (Value x) d = Done d' /\ holds M d' (splice p p (replicate (Z.to_nat n) x) l) /\ this d' = this d.
Proof using memory.
  intros Hd Hp Hn HM Hpos. assert (M <= max_cap) by (unfold max_capacity; pose proof (Z.div_pos M 4 (M_nonneg memory) ltac:(lia)); lia).
  unfold insert_count. rewrite (Validate_at _ _ _ Hpos), RTC_DCHECK_true by done. rewrite (at_begin M d l pos p Hd Hpos Hp). cbn [mbind exec_bind]. destruct (Z.eqb_spec p 0) as [->|Hne].
  - assert (exists d1, ExpandCapacityIfNecessary size_t sizeof_T malloc n d = Done d1 /\ holds M d1 l /\ this d1 = this d) as (d1 & -> & H1 & Ht1).
    { destruct (Z.eq_dec n 0) as [->|].
      - exists d. split_and!; [|done..]. unfold ExpandCapacityIfNecessary. pose proof (holds_capacity size_t sizeof_T malloc M d l Hd). rewrite (holds_size size_t sizeof_T malloc M _ _ Hd), (usz_id size_t sizeof_T malloc M) by lia.
        destruct (Z.leb_spec (Z.of_nat (length l) + 0) (capacity size_t d)); [done|lia].
      - destruct (ExpandCapacityIfNecessary_run size_t sizeof_T malloc M d l n Hd ltac:(lia) HM) as (d1 & -> & Hv & _ & [Ht _]). exists d1. split_and!; [done|by right|done]. }
    cbn [mbind exec_bind]. destruct (push_front_n_run size_t sizeof_T malloc M (Z.to_nat n) d1 l x H1 ltac:(lia)) as (d2 & -> & H2 & Ht2). exists d2. split_and!; [done|done|congruence].
  - pose proof (at_same_index _ _ _ Hpos) as Hpos'. destruct (Z.eq_dec n 0) as [->|].
    + unfold MakeRoomFor. cbn [Z.eqb mbind exec_bind fst snd]. change (Z.to_nat 0) with 0%nat. cbn [replicate]. pose proof (view_internal M d l Hd ltac:(lia)) as Hv. cbn [fill_count].
      rewrite (lt_at size_t sizeof_T malloc M _ _ _ _ _ _ _ Hv Hpos' Hpos') by (destruct Hv; lia). rewrite Z.ltb_irrefl. cbn [mbind exec_bind]. eexists. split_and!; [done|apply holds_generation; rewrite splice_same by lia; done|done].
    + destruct (MakeRoomFor_run size_t sizeof_T malloc M d l p n _ Hd ltac:(lia) ltac:(lia) HM Hpos') as (ib & ie & d1 & -> & Hv1 & [Ht1 _] & Hib & Hie). cbn [mbind exec_bind fst snd].
      destruct (fill_count_run size_t sizeof_T malloc M (Z.to_nat n) d1 _ _ p (p + n) x ib ie Hv1 ltac:(lia) ltac:(lia) ltac:(lia) Hib Hie) as (d2 & -> & Hv2 & [Ht2 _]). cbn [mbind exec_bind].
      eexists. split_and!; [done|apply holds_generation|cbn; congruence]. assert (Z.of_nat (length (replicate (Z.to_nat n) x)) = n) as Hlr by (rewrite length_replicate; lia). apply (filled_room M d2 l p); [|lia]. rewrite Hlr.
      eapply view_ext; [done|]. intros j _. unfold filled. destruct (Z.leb_spec p j), (Z.ltb_spec j (p + n)); cbn; try done. symmetry. apply lookup_replicate_2. lia.
Qed.

Lemma deque_insert_range_run d l p k pos : holds M d l -> 0 <= p <= Z.of_nat (length l) -> Z.of_nat (length l) + Z.of_nat (length k) <= M -> at_distance pos d p ->
  exists d', insert_range size_t sizeof_T malloc pos k d = Done d' /\ holds M d' (splice p p k l) /\ this d' = this d.
Proof using memory.
  intros Hd Hp HM Hpos. unfold insert_range. assert (M <= max_cap) by (unfold max_capacity; pose proof (Z.div_pos M 4 (M_nonneg memory) ltac:(lia)); lia). rewrite (Validate_at _ _ _ Hpos), RTC_DCHECK_true by done.
  destruct (Z.eqb_spec (Z.of_nat (length k)) 0) as [Hk|Hk]. { exists d. split_and!; [done| |done]. destruct k; [rewrite splice_same by lia; done|done]. }
  rewrite (at_begin M d l pos p Hd Hpos Hp). cbn [mbind exec_bind]. set (c := Z.of_nat (length k)) in *.
  assert (exists ib ie d1, (if p =? 0 then d ← ExpandCapacityIfNecessary size_t sizeof_T malloc c d; if internal_capacity d =? 0 then Undef
      else Done (begin (set_begin (usz size_t (begin_ d + internal_capacity d - c) mod internal_capacity d) d), begin d, set_begin (usz size_t (begin_ d + internal_capacity d - c) mod internal_capacity d) d)
    else MakeRoomFor size_t sizeof_T malloc c (make_iterator d (index_ pos)) d) = Done (ib, ie, d1) /\
    view M d1 (Z.of_nat (length l) + c) (room l p c) /\ this d1 = this d /\ at_distance ib d1 p /\ at_distance ie d1 (p + c)) as (ib & ie & d1 & -> & Hv1 & Ht1 & Hib & Hie).
  { destruct (Z.eqb_spec p 0) as [->|Hne].
    - destruct (ExpandCapacityIfNecessary_run size_t sizeof_T malloc M d l c Hd ltac:(lia) HM) as (d1 & -> & Hv & Hcap & [Ht _]). cbn [mbind exec_bind]. pose proof Hv as [Hb Hn He Hs Hc]. destruct (Z.eqb_spec (internal_capacity d1) 0); [lia|].
      rewrite (usz_id size_t sizeof_T malloc M) by lia. replace (begin_ d1 + internal_capacity d1 - c) with (begin_ d1 + (internal_capacity d1 - c)) by lia.
      pose proof (view_set_begin M d1 _ _ (internal_capacity d1 - c) (Z.of_nat (length l) + c) Hv ltac:(lia) ltac:(lia)) as Hv2. replace (internal_capacity d1 - c + (Z.of_nat (length l) + c)) with (Z.of_nat (length l) + 1 * internal_capacity d1) in Hv2 by lia.
      rewrite Z.mod_add, Z.mod_small in Hv2 by lia. specialize (Hv2 eq_refl). set (d2 := set_begin _ d1) in *. eexists _, _, _. split_and!; [reflexivity| |done|by eapply begin_at|].
      + eapply view_ext; [done|]. intros j Hj. change (internal_capacity d2) with (internal_capacity d1) in Hj. cbv beta. unfold room. destruct (Z.ltb_spec j 0); [lia|]. destruct (Z.ltb_spec j (0 + c)).
        * rewrite Z.mod_small by lia. by rewrite lookup_none by lia.
        * replace (j + (internal_capacity d1 - c)) with (j - c + 1 * internal_capacity d1) by lia. by rewrite Z.mod_add, Z.mod_small by lia.
      + split_and!; [done..|]. cbn. change (internal_capacity d2) with (internal_capacity d1). rewrite Z.add_mod_idemp_l by lia. replace (begin_ d1 + (internal_capacity d1 - c) + (0 + c)) with (begin_ d1 + 1 * internal_capacity d1) by lia. by rewrite Z.mod_add, Z.mod_small by lia.
    - destruct (MakeRoomFor_run size_t sizeof_T malloc M d l p c _ Hd ltac:(lia) ltac:(lia) HM (at_same_index _ _ _ Hpos)) as (ib & ie & d1 & -> & Hv1 & [Ht1 _] & Hib & Hie). by exists ib, ie, d1. }
  cbn [mbind exec_bind fst snd]. destruct (fill_range_run size_t sizeof_T malloc M d1 _ _ p (p + c) k ib ie Hv1 ltac:(lia) eq_refl ltac:(lia) Hib Hie) as (d2 & -> & Hv2 & [Ht2 _]). cbn [mbind exec_bind].
  eexists. split_and!; [done|apply holds_generation; by apply filled_room|cbn; congruence].
Qed.

(** ** Erasure *)

(** [n] elements from [i] on were moved from [j] on; nothing is between. *)
Definition closing l (i j t : Z) : Z -> option T :=
  fun k => if k <? i then l !! Z.to_nat k else if k <? i + (t - j) then l !! Z.to_nat (k + (j - i)) else if k <? t then None else l !! Z.to_nat k.

Lemma shift_left_run fuel d l i j t (src last dest : iterator) : view M d (Z.of_nat (length l)) (closing l i j t) -> 0 <= i < j -> j <= t -> t <= Z.of_nat (length l) -> Z.of_nat (length l) <= t + Z.of_nat fuel ->
  at_distance src d t -> at_distance last d (Z.of_nat (length l)) -> at_distance dest d (i + (t - j)) ->
  exists d', shift_left size_t fuel src last dest d = Done ((begin_ d' + (i + (Z.of_nat (length l) - j))) mod internal_capacity d', d') /\
    view M d' (Z.of_nat (length l)) (closing l i j (Z.of_nat (length l))) /\ frame d d' /\ begin_ d' = begin_ d /\ internal_capacity d' = internal_capacity d.
Proof using memory.
  revert d t src dest. induction fuel as [|fuel IH]; intros d t src dest Hv Hij Hjt Ht Hf Hsrc Hlast Hdest; cbn [shift_left]; pose proof Hv as [Hb Hn He Hs Hcap];
    rewrite (lt_at size_t sizeof_T malloc M _ _ _ _ _ _ _ Hv Hsrc Hlast) by lia; cbn [mbind exec_bind]; destruct (Z.ltb_spec t (Z.of_nat (length l))); try lia;
    try (assert (t = Z.of_nat (length l)) as -> by lia; exists d; destruct Hdest as (_ & _ & ->); by split_and!).
  destruct (lookup_some l t ltac:(lia)) as [x Hx]. pose proof Hsrc as (_ & _ & ->). pose proof Hdest as (_ & _ & ->).
  destruct (move_one_at size_t sizeof_T malloc M d _ _ t (i + (t - j)) x Hv) as (d1 & -> & Hv1 & Hfr & Hb1 & He1 & Hc1); try lia.
  { unfold closing. destruct (Z.ltb_spec t i), (Z.ltb_spec t (i + (t - j))), (Z.ltb_spec t t); (done || lia). }
  cbn [mbind exec_bind]. destruct (Increment_at size_t sizeof_T malloc M src d1 _ _ t Hv1 (at_distance_frame _ _ _ _ Hsrc Hfr Hb1 Hc1) ltac:(lia)) as (src' & -> & Hsrc'). cbn [mbind exec_bind].
  destruct (Increment_at size_t sizeof_T malloc M dest d1 _ _ (i + (t - j)) Hv1 (at_distance_frame _ _ _ _ Hdest Hfr Hb1 Hc1) ltac:(lia)) as (dest' & -> & Hdest'). cbn [mbind exec_bind].
  destruct (IH d1 (t + 1) src' dest') as (d2 & -> & Hv2 & Hfr2 & Hb2 & Hc2); try done; try lia.
  - eapply view_ext; [done|]. intros k Hk. unfold upd, closing. destruct (Z.eqb_spec k t), (Z.eqb_spec k (i + (t - j))), (Z.ltb_spec k i), (Z.ltb_spec k (i + (t + 1 - j))), (Z.ltb_spec k (t + 1)), (Z.ltb_spec k (i + (t - j))), (Z.ltb_spec k t); try lia; try done.
    all: rewrite <- Hx; f_equal; lia.
  - by eapply at_distance_frame.
  - by replace (i + (t + 1 - j)) with (i + (t - j) + 1) by lia.
  - exists d2. split_and!; [done|done|apply (frame_trans _ _ _ Hfr Hfr2)..|congruence|congruence].
Qed.

Lemma deque_erase_run d l i j first last : holds M d l -> 0 <= i <= j -> j <= Z.of_nat (length l) -> at_distance first d i -> at_distance last d j ->
  exists it d', erase size_t first last d = Done (it, d') /\ holds M d' (splice i j [] l) /\ at_distance it d' i /\ this d' = this d.
Proof using memory.
  intros Hd Hij Hj Hfirst Hlast. unfold erase. rewrite (Validate_at _ _ _ Hfirst), (Validate_at _ _ _ Hlast), !RTC_DCHECK_true by done. destruct Hfirst as (_ & _ & Hi1), Hlast as (_ & _ & Hi2). rewrite Hi1, Hi2.
  destruct (Z.eq_dec i j) as [->|Hne].
  - rewrite Z.eqb_refl. eexists _, _. split_and!; [reflexivity|apply holds_generation; rewrite splice_same by lia; done|done..].
  - pose proof (view_generation M _ _ _ (view_internal M d l Hd ltac:(lia))) as Hv. set (d0 := IncrementGeneration d) in *. change (begin_ d) with (begin_ d0). change (internal_capacity d) with (internal_capacity d0). change (this d) with (this d0). pose proof Hv as [Hb Hn He Hs Hc].
    destruct (Z.eqb_spec ((begin_ d0 + i) mod internal_capacity d0) ((begin_ d0 + j) mod internal_capacity d0)) as [Heq|_]; [exfalso; apply Hne; apply (idx_inj (begin_ d0) i j (internal_capacity d0)); (done || lia)|].
    destruct (DestructRange_at size_t sizeof_T malloc M d0 _ _ i j Hv ltac:(lia) ltac:(lia)) as (d1 & -> & Hv1 & [Ht1 Hg1] & Hb1 & He1 & Hc1); [intros k Hk; apply lookup_some; lia|]. cbn [mbind exec_bind].
    assert (((begin_ d0 + i) mod internal_capacity d0 =? begin_ d1) = (i =? 0)) as ->.
    { pose proof (index_of_begin M _ _ _ Hv) as Hib. rewrite Hb1. apply bool_eq_iff. rewrite !Z.eqb_eq. split; [|by intros ->]. intros Heq. apply (idx_inj (begin_ d0) i 0 (internal_capacity d0)); lia. }
    destruct (Z.eqb_spec i 0) as [->|Hi].
    + rewrite <- Hb1, <- Hc1. pose proof (view_set_begin M d1 _ _ j (Z.of_nat (length l) - j) Hv1 ltac:(lia) ltac:(lia)) as Hv2. rewrite Z.mod_small in Hv2 by lia. specialize (Hv2 ltac:(lia)). set (d2 := set_begin _ d1) in *.
      eexists _, _. split_and!; [reflexivity| |exact (begin_at M _ _ _ Hv2)|done]. eapply view_holds; [done|rewrite length_splice by lia; cbn; lia|]. intros k Hk. change (internal_capacity d2) with (internal_capacity d1) in Hk.
      rewrite lookup_splice by lia. destruct (Z.ltb_spec k 0); [lia|]. cbn [length]. destruct (Z.ltb_spec k (0 + Z.of_nat 0)); [lia|]. unfold cleared. rewrite wrap_idx by lia. destruct (Z.ltb_spec (k + j) (internal_capacity d1)).
      * destruct (Z.leb_spec 0 (k + j)), (Z.ltb_spec (k + j) (0 + (j - 0))); cbn; try lia. f_equal. lia.
      * destruct (Z.leb_spec 0 (k + j - internal_capacity d1)), (Z.ltb_spec (k + j - internal_capacity d1) (0 + (j - 0))); cbn; try lia. symmetry. apply lookup_ge_None. lia.
    + assert (at_distance (make_iterator d1 ((begin_ d0 + j) mod internal_capacity d0)) d1 j) as Hsrc by (split_and!; cbn; [done..|by rewrite Hb1, Hc1]).
      assert (at_distance (make_iterator d1 ((begin_ d0 + i) mod internal_capacity d0)) d1 (i + (j - j))) as Hdest by (replace (i + (j - j)) with i by lia; split_and!; cbn; [done..|by rewrite Hb1, Hc1]).
      destruct (shift_left_run (Z.to_nat (internal_capacity d1)) d1 l i j j _ (end' d1) _ ltac:(eapply view_ext; [exact Hv1|]; intros k Hk; unfold cleared, closing; destruct (Z.leb_spec i k), (Z.ltb_spec k (i + (j - i))), (Z.ltb_spec k i), (Z.ltb_spec k (i + (j - j))), (Z.ltb_spec k j); cbn; (done || lia)) ltac:(lia) ltac:(lia) ltac:(lia) ltac:(destruct Hv1; lia) Hsrc (end_at M _ _ _ Hv1) Hdest)
        as (d2 & -> & Hv2 & [Ht2 Hg2] & Hb2 & Hc2). cbn [mbind exec_bind fst snd].
      pose proof (view_set_end M d2 _ _ (i + (Z.of_nat (length l) - j)) Hv2 ltac:(lia)) as Hv3. set (d3 := set_end _ d2) in *. eexists _, _. split_and!; [reflexivity| |split_and!; [done..|]|].
      * eapply view_holds; [done|rewrite length_splice by lia; cbn; lia|]. intros k Hk. rewrite lookup_splice by lia. cbn [length]. unfold closing.
        destruct (Z.ltb_spec k i), (Z.ltb_spec k (i + Z.of_nat 0)), (Z.ltb_spec k (i + (Z.of_nat (length l) - j))), (Z.ltb_spec k (Z.of_nat (length l))); try lia; try done; try (f_equal; lia); by rewrite !lookup_ge_None_2 by lia.
      * cbn. change (internal_capacity d3) with (internal_capacity d2). by rewrite Hb2, Hc2, Hb1, Hc1.
      * cbn. by rewrite Ht2, Ht1.
Qed.

(** ** Copies, moves and [swap] *)

Lemma push_back_from_run fuel d l other k i (first last : iterator) : holds M d l -> view M other (Z.of_nat (length k)) (lk k) -> 0 <= i <= Z.of_nat (length k) -> Z.of_nat (length k) <= i + Z.of_nat fuel ->
  at_distance first other i -> at_distance last other (Z.of_nat (length k)) -> Z.of_nat (length l) + (Z.of_nat (length k) - i) <= M ->
  exists d', push_back_from size_t sizeof_T malloc fuel first last other d = Done d' /\ holds M d' (l ++ skipn (Z.to_nat i) k) /\ this d' = this d.
Proof using memory.
  revert d l i first. induction fuel as [|fuel IH]; intros d l i first Hd Hv Hi Hf Hfirst Hlast HM; cbn [push_back_from]; pose proof Hv as [Hb Hn He Hs Hcap];
    rewrite (eq_at _ _ _ _ _ Hfirst Hlast) by lia; cbn [mbind exec_bind]; destruct (Z.eqb_spec i (Z.of_nat (length k))) as [->|Hne]; try lia;
    try (exists d; rewrite skipn_all2 by lia; by rewrite app_nil_r).
  destruct (lookup_some k i ltac:(lia)) as [x Hx]. unfold iterator_place. rewrite (Unstable_at _ _ _ Hfirst). pose proof Hfirst as (_ & _ & Hidx). rewrite Hidx, (CheckValidIndex_at _ _ _ _ _ Hv) by lia.
  rewrite !RTC_DCHECK_true by (try done; apply Z.ltb_lt; lia). rewrite place_buffer by (pose proof (idx_bound (begin_ other) i (internal_capacity other) ltac:(lia)); lia). cbn [mbind exec_bind].
  unfold read_place. pose proof (load_at _ _ _ i x Hs ltac:(rewrite length_slots; lia) Hx) as Hload. rewrite length_slots in Hload. rewrite Hload. cbn [mbind exec_bind].
  destruct (deque_push_back_run size_t sizeof_T malloc M d l x Hd ltac:(lia)) as (d1 & -> & H1 & Ht1). cbn [mbind exec_bind].
  destruct (Increment_at size_t sizeof_T malloc M first other _ _ i Hv Hfirst ltac:(lia)) as (first' & -> & Hfirst'). cbn [mbind exec_bind].
  destruct (IH d1 (l ++ [x]) (i + 1) first' H1 Hv ltac:(lia) ltac:(lia) Hfirst' Hlast) as (d2 & -> & H2 & Ht2); [rewrite length_app; cbn; lia|]. exists d2. split_and!; [done| |congruence].
  rewrite <- app_assoc in H2. replace (Z.to_nat (i + 1)) with (Datatypes.S (Z.to_nat i)) in H2 by lia. by rewrite (drop_S k x (Z.to_nat i) Hx).
Qed.

Lemma assign_from_run d l other k : holds M d l -> holds M other k -> Z.of_nat (length k) <= M ->
  exists d', assign_from size_t sizeof_T malloc other d = Done d' /\ holds M d' k /\ this d' = this d.
Proof using memory.
  intros Hd Ho HM. unfold assign_from. destruct (ClearRetainCapacity_run size_t sizeof_T malloc M d l Hd) as (d1 & -> & H1 & Ht1). cbn [mbind exec_bind]. rewrite (holds_size size_t sizeof_T malloc M _ _ Ho).
  assert (exists d2, push_back_from size_t sizeof_T malloc (Z.to_nat (Z.of_nat (length k))) (begin other) (end' other) other d1 = Done d2 /\ holds M d2 k /\ this d2 = this d1) as (d2 & -> & H2 & Ht2).
  { destruct Ho as [(Hc & Hb & He & ->)|Hv].
    - exists d1. split_and!; [|done..]. change (Z.to_nat (Z.of_nat (length []))) with 0%nat. cbn [push_back_from]. unfold iterator_eq, CheckComparable. cbn. rewrite Nat.eqb_refl, Z.eqb_refl, RTC_DCHECK_true by done. cbn. by rewrite He, Z.eqb_refl.
    - destruct (push_back_from_run (Z.to_nat (Z.of_nat (length k))) d1 [] other k 0 (begin other) (end' other) H1 Hv ltac:(lia) ltac:(lia) (begin_at M _ _ _ Hv) (end_at M _ _ _ Hv)) as (d2 & -> & ?); [cbn; lia|]. by exists d2. }
  cbn [mbind exec_bind]. eexists. split_and!; [done|by apply holds_generation|cbn; congruence].
Qed.

Lemma deque_copy_run id other k : holds M other k -> Z.of_nat (length k) <= M -> exists d', copy size_t sizeof_T malloc id other = Done d' /\ holds M d' k /\ this d' = id.
Proof using memory.
  intros Ho HM. assert (M <= max_cap) by (unfold max_capacity; pose proof (Z.div_pos M 4 (M_nonneg memory) ltac:(lia)); lia). unfold copy. rewrite (holds_size size_t sizeof_T malloc M _ _ Ho), (usz_id size_t sizeof_T malloc M) by lia.
  rewrite (VectorBuffer_new_run size_t sizeof_T malloc M) by lia. cbn [mbind exec_bind]. set (d0 := mkDeque id _ 0 0 0 1).
  assert (internal_capacity d0 = Z.of_nat (length k) + 1) as Hc0 by (unfold internal_capacity, VectorBuffer_capacity; cbn; rewrite length_replicate; lia).
  destruct (assign_from_run d0 [] other k) as (d' & -> & H' & Ht'); try done; [|by exists d'].
  right. split; rewrite ?Hc0; try (cbn; lia); [by rewrite Z.mod_small by (cbn; lia)|]. eapply slots_at_ext; [apply slots_at_replicate; cbn; lia|]. intros j _. by rewrite lookup_nil.
Qed.

Lemma copy_assign_run d l other k : holds M d l -> holds M other k -> Z.of_nat (length k) <= M -> (this other = this d -> other = d) ->
  exists d', copy_assign size_t sizeof_T malloc other d = Done d' /\ (exists k', k' = k /\ holds M d' k') /\ this d' = this d.
Proof using memory.
  intros Hd Ho HM Hid. unfold copy_assign. destruct (Nat.eqb_spec (this other) (this d)) as [Heq|Hne].
  - specialize (Hid Heq). subst other. exists d. split_and!; [done| |done]. by exists k.
  - rewrite (holds_size size_t sizeof_T malloc M _ _ Ho). destruct (reserve_run size_t sizeof_T malloc M d l _ Hd HM) as (d1 & -> & H1 & [Ht1 _] & _). cbn [mbind exec_bind].
    destruct (assign_from_run d1 l other k H1 Ho HM) as (d2 & -> & H2 & Ht2). exists d2. split_and!; [done|by exists k|congruence].
Qed.

Lemma moved_from_holds d : holds M (moved_from d) [].
Proof using. by left. Qed.

Lemma move_holds id d k : holds M d k -> holds M (move id d).1 k /\ holds M (move id d).2 [].
Proof using. intros Ho. split; [|by left]. destruct Ho as [H|[Hb Hn He Hs Hc]]; [by left|by right]. Qed.

Lemma deque_move_assign_run d l other k : holds M d l -> holds M other k -> this other <> this d ->
  exists d' o', move_assign other d = Done (d', o') /\ holds M d' k /\ holds M o' [] /\ this d' = this d.
Proof using memory.
  intros Hd Ho Hne. unfold move_assign. destruct (Nat.eqb_spec (this other) (this d)); [done|]. destruct (ClearRetainCapacity_run size_t sizeof_T malloc M d l Hd) as (d1 & -> & H1 & Ht1). cbn [mbind exec_bind].
  eexists _, _. split_and!; [reflexivity| |by left|cbn; congruence]. apply holds_generation. destruct Ho as [H|[Hb Hn He Hs Hc]]; [by left|by right].
Qed.

Lemma swap_holds d l other k : holds M d l -> holds M other k -> holds M (swap d other).1 k /\ holds M (swap d other).2 l.
Proof using.
  intros Hd Ho. split; cbn; [apply holds_generation|].
  - destruct Ho as [H|[Hb Hn He Hs Hc]]; [by left|by right].
  - destruct Hd as [H|[Hb Hn He Hs Hc]]; [by left|by right].
Qed.

End Editing.

(** ** Calls *)

Section Calls.
Context {T : Type} {build : Build} (size_t : int_type) (sizeof_T : Z) (malloc : Z -> bool) (M : Z).

(** The calls of a client.  A position is [begin() + p]; the values are the client's. *)
Inductive call :=
  | PushBack (x : T) | PushFront (x : T) | PopBack | PopFront
  | Emplace (p : Z) (x : T) | InsertCount (p n : Z) (x : T) | InsertRange (p : Z) (k : list T)
  | EraseAt (p : Z) | Erase (p q : Z) | Resize (n : Z) (x : T) | Assign (n : Z) (x : T) | AssignRange (k : list T)
  | Clear | Reserve (n : Z) | ShrinkToFit.

Definition position (p : Z) (d : circular_deque (T := T)) : exec iterator := Add size_t p (begin d) d.

Definition run_call (c : call) (d : circular_deque (T := T)) : exec (circular_deque (T := T)) :=
  match c with
  | PushBack x => push_back size_t sizeof_T malloc (Value x) d
  | PushFront x => push_front size_t sizeof_T malloc (Value x) d
  | PopBack => pop_back size_t sizeof_T malloc d
  | PopFront => pop_front size_t sizeof_T malloc d
  | Emplace p x => it ← position p d; r ← emplace size_t sizeof_T malloc it (Value x) d; Done r.2
  | InsertCount p n x => it ← position p d; insert_count size_t sizeof_T malloc it n (Value x) d
  | InsertRange p k => it ← position p d; insert_range size_t sizeof_T malloc it k d
  | EraseAt p => it ← position p d; r ← erase_at size_t it d; Done r.2
  | Erase p q => it ← position p d; jt ← position q d; r ← erase size_t it jt d; Done r.2
  | Resize n x => resize size_t sizeof_T malloc n (Value x) d
  | Assign n x => assign size_t sizeof_T malloc n (Value x) d
  | AssignRange k => assign_range size_t sizeof_T malloc k d
  | Clear => clear d
  | Reserve n => reserve size_t sizeof_T malloc n d
  | ShrinkToFit => shrink_to_fit size_t sizeof_T malloc d
  end.

Fixpoint run_calls (cs : list call) (d : circular_deque (T := T)) : exec (circular_deque (T := T)) :=
  match cs with [] => Done d | c :: cs => d ← run_call c d; run_calls cs d end.

(** The same on a list. *)
Definition list_call (c : call) (l : list T) : list T :=
  match c with
  | PushBack x => l ++ [x] | PushFront x => x :: l | PopBack => removelast l | PopFront => tail l
  | Emplace p x => splice p p [x] l | InsertCount p n x => splice p p (replicate (Z.to_nat n) x) l | InsertRange p k => splice p p k l
  | EraseAt p => splice p (p + 1) [] l | Erase p q => splice p q [] l
  | Resize n x => firstn (Z.to_nat n) l ++ replicate (Z.to_nat (n - Z.of_nat (length l))) x
  | Assign n x => replicate (Z.to_nat n) x | AssignRange k => k
  | Clear => [] | Reserve _ | ShrinkToFit => l
  end.

(** What a call asks of a deque with [n] elements, when there are to be at most [M]. *)
Definition call_within (c : call) (l : list T) : bool :=
  let n := Z.of_nat (length l) in
  match c with
  | PushBack _ | PushFront _ => n + 1 <=? M
  | PopBack | PopFront => 0 <? n
  | Emplace p _ => (0 <=? p) && (p <=? n) && (n + 1 <=? M)
  | InsertCount p c _ => (0 <=? p) && (p <=? n) && (0 <=? c) && (n + c <=? M)
  | InsertRange p k => (0 <=? p) && (p <=? n) && (n + Z.of_nat (length k) <=? M)
  | EraseAt p => (0 <=? p) && (p <? n)
  | Erase p q => (0 <=? p) && (p <=? q) && (q <=? n)
  | Resize c _ | Assign c _ => (0 <=? c) && (c <=? M)
  | AssignRange k => Z.of_nat (length k) <=? M
  | Reserve c => c <=? M
  | Clear | ShrinkToFit => true
  end.

Fixpoint calls_within (cs : list call) (l : list T) : bool :=
  match cs with [] => true | c :: cs => call_within c l && calls_within cs (list_call c l) end.

Context {memory : Memory size_t sizeof_T malloc M}.

Lemma deque_run_call_ok c d l : holds M d l -> call_within c l = true -> exists d', run_call c d = Done d' /\ holds M d' (list_call c l).
Proof using memory.
  intros Hd Hc. destruct c; cbn [call_within run_call list_call] in *; rewrite ?andb_true_iff, ?Z.leb_le, ?Z.ltb_lt in Hc; unfold position.
  - destruct (deque_push_back_run size_t sizeof_T malloc M d l x Hd Hc) as (d' & -> & ? & _); eauto.
  - destruct (push_front_run size_t sizeof_T malloc M d l x Hd Hc) as (d' & -> & ? & _); eauto.
  - destruct (exists_last (l := l)) as (k & x & ->); [by destruct l|]. destruct (pop_back_run size_t sizeof_T malloc M d k x Hd) as (d' & -> & ? & _). rewrite removelast_last. eauto.
  - destruct l as [|x l]; [cbn in Hc; lia|]. destruct (pop_front_run size_t sizeof_T malloc M d l x Hd) as (d' & -> & ? & _). eauto.
  - destruct (position_run size_t sizeof_T malloc M d l p Hd ltac:(lia)) as (it & -> & Hit). cbn [mbind exec_bind]. destruct (emplace_run size_t sizeof_T malloc M d l p x it Hd ltac:(lia) ltac:(lia) Hit) as (r & d' & -> & ? & _). eauto.
  - destruct (position_run size_t sizeof_T malloc M d l p Hd ltac:(lia)) as (it & -> & Hit). cbn [mbind exec_bind]. destruct (insert_count_run size_t sizeof_T malloc M d l p n x it Hd ltac:(lia) ltac:(lia) ltac:(lia) Hit) as (d' & -> & ? & _). eauto.
  - destruct (position_run size_t sizeof_T malloc M d l p Hd ltac:(lia)) as (it & -> & Hit). cbn [mbind exec_bind]. destruct (deque_insert_range_run size_t sizeof_T malloc M d l p k it Hd ltac:(lia) ltac:(lia) Hit) as (d' & -> & ? & _). eauto.
  - destruct (position_run size_t sizeof_T malloc M d l p Hd ltac:(lia)) as (it & -> & Hit). cbn [mbind exec_bind]. unfold erase_at. pose proof (view_internal M d l Hd ltac:(lia)) as Hv.
    destruct (Add_at size_t sizeof_T malloc M it d _ _ p 1 Hv Hit ltac:(lia) ltac:(lia)) as (jt & -> & Hjt). cbn [mbind exec_bind]. destruct (deque_erase_run size_t sizeof_T malloc M d l p (p + 1) it jt Hd ltac:(lia) ltac:(lia) Hit Hjt) as (r & d' & -> & ? & _). eauto.
  - destruct (position_run size_t sizeof_T malloc M d l p Hd ltac:(lia)) as (it & -> & Hit). destruct (position_run size_t sizeof_T malloc M d l q Hd ltac:(lia)) as (jt & -> & Hjt). cbn [mbind exec_bind].
    destruct (deque_erase_run size_t sizeof_T malloc M d l p q it jt Hd ltac:(lia) ltac:(lia) Hit Hjt) as (r & d' & -> & ? & _). eauto.
  - destruct (resize_run size_t sizeof_T malloc M d l n x Hd ltac:(lia)) as (d' & -> & ? & _); eauto.
  - destruct (assign_run size_t sizeof_T malloc M d l n x Hd ltac:(lia)) as (d' & -> & ? & _); eauto.
  - destruct (assign_range_run size_t sizeof_T malloc M d l k Hd Hc) as (d' & -> & ? & _); eauto.
  - destruct (deque_clear_run size_t sizeof_T malloc M d l Hd) as (d' & -> & ? & _); eauto.
  - destruct (reserve_run size_t sizeof_T malloc M d l n Hd Hc) as (d' & -> & ? & _); eauto.
  - destruct (shrink_to_fit_run size_t sizeof_T malloc M d l Hd) as (d' & -> & ? & _); eauto.
Qed.

Lemma new_deque_holds id : holds (T := T) M (new_deque id) [].
Proof using. by left. Qed.

(** *** An argument that is an element *)

Lemma MoveBuffer_address from b e to r : MoveBuffer (T := T) size_t from b e to = Done r -> address r.1.1.2 = address to.
Proof using.
  unfold MoveBuffer. repeat case_match; intros Hr; repeat (apply exec_bind_Done in Hr as (? & _ & Hr)); simplify_eq; done.
Qed.

Lemma SetCapacityTo_address c d d' : SetCapacityTo (T := T) size_t sizeof_T malloc c d = Done d' -> address (buffer_ d') = Datatypes.S (mallocs d).
Proof using.
  unfold SetCapacityTo. intros (b & Hb & (r & Hr & Hd)%exec_bind_Done)%exec_bind_Done. simplify_eq. cbn. rewrite (MoveBuffer_address _ _ _ _ _ Hr).
  unfold VectorBuffer_new, RTC_CHECK in Hb. repeat case_match; try done. by simplify_eq.
Qed.

Lemma argument_Value d addr i x : addr = address (buffer_ d) -> read_place (T := T) i d = Done x -> argument_value (Reference addr i) d = argument_value (Value x) d.
Proof using. intros -> Hx. cbn. by rewrite Nat.eqb_refl. Qed.

End Calls.

Arguments PushBack {T} _.
Arguments PushFront {T} _.
Arguments PopBack {T}.
Arguments PopFront {T}.
Arguments Emplace {T} _ _.
Arguments InsertCount {T} _ _ _.
Arguments InsertRange {T} _ _.
Arguments EraseAt {T} _.
Arguments Erase {T} _ _.
Arguments Resize {T} _ _.
Arguments Assign {T} _ _.
Arguments AssignRange {T} _.
Arguments Clear {T}.
Arguments Reserve {T} _.
Arguments ShrinkToFit {T}.

(** ** Properties *)

(** A machine of 64 bits with a megabyte, for the examples. *)
Definition small_malloc (n : Z) : bool := n <=? 1000000.

Lemma small_memory : Memory Uint64 8 small_malloc 1000.
Proof.
  split; try done; unfold small_malloc.
  - intros c Hc. apply Z.leb_le. change (max_capacity 1000) with 1250 in Hc. lia.
  - intros n Hn%Z.leb_le. change (IntTypes.max (make_signed Uint64)) with 9223372036854775807. lia.
Qed.

(** C11: A deque is a list.  Calls that keep to the positions and sizes there are, while there
    is memory for five quarters of the elements there are to be, all return, whatever the
    order in which the buffer grows, shrinks and wraps around; what they leave is what the
    same calls do to a list, by [size] and by [at], and there is no object in the buffer
    that is not an element, so that none is lost and none is destroyed twice. *)
Theorem deque_calls {T} {build : Build} size_t sizeof_T malloc M id (cs : list (call (T := T))) :
  Memory size_t sizeof_T malloc M -> calls_within M cs [] = true ->
  exists d, run_calls size_t sizeof_T malloc cs (new_deque id) = Done d /\ holds M d (fold_left (fun l c => list_call c l) cs []) /\
    size size_t d = Z.of_nat (length (fold_left (fun l c => list_call c l) cs [])) /\
    forall i x, fold_left (fun l c => list_call c l) cs [] !! i = Some x -> at_ size_t (Z.of_nat i) d = Done x.
Proof.
  intros Hmem Hcs. assert (forall l d, holds M d l -> calls_within M cs l = true -> exists d', run_calls size_t sizeof_T malloc cs d = Done d' /\ holds M d' (fold_left (fun l c => list_call c l) cs l)) as H.
  { clear Hcs. induction cs as [|c cs IH]; intros l d Hd Hcs; cbn [run_calls fold_left calls_within] in *; [by exists d|]. apply andb_true_iff in Hcs as [Hc Hcs].
    destruct (deque_run_call_ok size_t sizeof_T malloc M c d l Hd Hc) as (d1 & -> & H1). cbn [mbind exec_bind]. by apply IH. }
  destruct (H [] (new_deque id) (new_deque_holds M id) Hcs) as (d & -> & Hd). exists d. split_and!; [done|done|by eapply holds_size|].
  intros i x Hx. apply (at_run size_t sizeof_T malloc M d _ (Z.of_nat i) x Hd); [lia|by rewrite Nat2Z.id].
Qed.

Definition sample_calls : list (call (T := Z)) :=
  [AssignRange [1; 2; 3; 4]; PopFront; PushBack 5; PushBack 6; PushFront 0; InsertCount 2 2 9; Erase 1 3; EraseAt 4; InsertRange 1 [7; 8]; Resize 8 4; PopBack; ShrinkToFit; Emplace 7 1; Reserve 40; PopFront].

Lemma deque_calls_witness : exists d, run_calls (build := debug_x64) Uint64 8 small_malloc sample_calls (new_deque 1) = Done d /\ holds 1000 d (fold_left (fun l c => list_call c l) sample_calls []) /\
  size Uint64 d = Z.of_nat (length (fold_left (fun l c => list_call c l) sample_calls [])) /\
  forall i x, fold_left (fun l c => list_call c l) sample_calls [] !! i = Some x -> at_ (build := debug_x64) Uint64 (Z.of_nat i) d = Done x.
Proof. apply (deque_calls (build := debug_x64) Uint64 8 small_malloc 1000 1 sample_calls); [exact small_memory|by vm_compute]. Defined.

Example sample_calls_ex : fold_left (fun l c => list_call c l) sample_calls [] = [7; 8; 9; 3; 4; 6; 1].
Proof. reflexivity. Qed.

(** An element of the deque itself as the argument of [push_back] is appended when there
    is room; when the buffer is full its memory is freed before the element is copied, and
    the call is undefined. *)
Theorem push_back_element {T} {build : Build} size_t sizeof_T malloc M (d : circular_deque (T := T)) l k x :
  Memory size_t sizeof_T malloc M -> holds M d l -> Z.of_nat (length l) + 1 <= M -> (address (buffer_ d) <= mallocs d)%nat -> l !! Z.to_nat k = Some x -> 0 <= k ->
  let r := push_back size_t sizeof_T malloc (Reference (address (buffer_ d)) ((begin_ d + k) mod internal_capacity d)) d in
  if size size_t d <? capacity size_t d then exists d', r = Done d' /\ holds M d' (l ++ [x]) else r = Undef.
Proof.
  intros Hmem Hd HM Haddr Hx Hk r. pose proof (lookup_lt_Some _ _ _ Hx). pose proof (view_internal M d l Hd ltac:(lia)) as Hv. pose proof Hv as [Hb Hn He Hs Hc].
  rewrite (holds_size size_t sizeof_T malloc M _ _ Hd), (view_capacity size_t sizeof_T malloc M _ _ _ Hv).
  assert (read_place ((begin_ d + k) mod internal_capacity d) d = Done x) as Hread.
  { unfold read_place. rewrite <- length_slots. eapply load_at; [done|rewrite length_slots; lia|done]. }
  unfold r, push_back, emplace_back. destruct (ExpandCapacityIfNecessary_run size_t sizeof_T malloc M d l 1 Hd ltac:(lia) HM) as (d1 & Hex & Hv1 & Hcap & _). rewrite Hex. cbn [mbind exec_bind].
  assert (d1 = d /\ Z.of_nat (length l) < internal_capacity d - 1 \/ address (buffer_ d1) = Datatypes.S (mallocs d) /\ internal_capacity d - 1 <= Z.of_nat (length l)) as [[-> Hlt]|[Hfresh Hfull]].
  { unfold ExpandCapacityIfNecessary in Hex. assert (M <= max_capacity M) by (unfold max_capacity; pose proof (Z.div_pos M 4 (M_nonneg Hmem) ltac:(lia)); lia).
    rewrite (holds_size size_t sizeof_T malloc M _ _ Hd), (view_capacity size_t sizeof_T malloc M _ _ _ Hv), (usz_id size_t sizeof_T malloc M) in Hex by lia.
    destruct (Z.leb_spec (Z.of_nat (length l) + 1) (internal_capacity d - 1)); [left; simplify_eq; split; [done|lia]|right]. apply SetCapacityTo_address in Hex. split; [done|lia]. }
  - rewrite (proj2 (Z.ltb_lt _ _)) by lia. destruct (deque_push_back_run size_t sizeof_T malloc M d l x Hd HM) as (d' & Hrun & Hd' & _). exists d'. split; [|done].
    unfold push_back, emplace_back in Hrun. rewrite Hex in Hrun. cbn [mbind exec_bind] in Hrun. unfold construct in *. by rewrite (argument_Value d _ _ x eq_refl Hread).
  - rewrite (proj2 (Z.ltb_ge _ _)) by lia. unfold construct. rewrite place_buffer by (destruct Hv1 as [? ? -> ? ?]; pose proof (idx_bound (begin_ d1) (Z.of_nat (length l)) (internal_capacity d1) ltac:(lia)); lia).
    cbn [mbind exec_bind argument_value]. rewrite Hfresh. by rewrite (proj2 (Nat.eqb_neq _ _)) by lia.
Qed.

(** The deque of three elements is full. *)
Definition full_deque : circular_deque (T := Z) := mkDeque 1 (mkVectorBuffer 1 [Some 10; Some 20; Some 30; None]) 0 3 0 1.

Lemma push_back_element_witness :
  let r := push_back (build := debug_x64) Uint64 8 small_malloc (Reference 1 ((0 + 1) mod 4)) full_deque in
  if size Uint64 full_deque <? capacity Uint64 full_deque then exists d', r = Done d' /\ holds 1000 d' ([10; 20; 30] ++ [20]) else r = Undef.
Proof.
  apply (push_back_element (build := debug_x64) Uint64 8 small_malloc 1000 full_deque [10; 20; 30] 1 20); [exact small_memory| |cbn; lia|cbn; lia|done|lia].
  right. split; [vm_compute; intuition congruence|vm_compute; intuition congruence|reflexivity| |vm_compute; congruence].
  intros k Hk. change (Z.of_nat (length (slots (buffer_ full_deque)))) with 4 in Hk. assert (k = 0 \/ k = 1 \/ k = 2 \/ k = 3) as [-> |[-> |[-> | ->]]] by lia; reflexivity.
Defined.

(** An iterator that is older than a call of [reserve] goes unnoticed: the generation is the
    same, and it refers to another element than before. *)
Example reserve_keeps_generation :
  (d ← run_calls (build := debug_x64) Uint64 8 small_malloc [AssignRange [1; 2; 3]; PopFront] (new_deque 1);
   before ← (p ← iterator_place (build := debug_x64) (begin d) d; read_place p d);
   d' ← reserve Uint64 8 small_malloc 40 d;
   after ← (p ← iterator_place (build := debug_x64) (begin d) d'; read_place p d');
   Done (before, after)) = Done (2, 3).
Proof. vm_compute. reflexivity. Qed.

(** The capacity that is asked for is wrapped before the multiplication is checked: the
    greatest number gives a buffer without a slot, and the elements are moved out of it. *)
Example reserve_wraps : reserve Uint64 8 small_malloc (IntTypes.max Uint64) full_deque = Undef.
Proof. vm_compute. reflexivity. Qed.

(** An element that is inserted in front of itself is read when the elements have moved: its
    place is empty, or holds the one before it. *)
Example emplace_element :
  let d := mkDeque 1 (mkVectorBuffer 1 [Some 10; Some 20; Some 30; None; None; None]) 0 3 0 1 in
  (it ← Add (build := debug_x64) Uint64 1 (begin d) d; r ← emplace (build := debug_x64) Uint64 8 small_malloc it (Reference 1 1) d; Done r.2) = Undef /\
  (it ← Add (build := debug_x64) Uint64 1 (begin d) d; r ← emplace (build := debug_x64) Uint64 8 small_malloc it (Reference 1 2) d; at_ (build := debug_x64) Uint64 1 r.2) = Done 20.
Proof. split; vm_compute; reflexivity. Qed.
