(* ===== verification/Buffer.v ===== *)
(** * Buffer: rtc_base/buffer.h

    [BufferT], with and without [ZeroOnFree].  Its memory is a list of cells, a cell without a
    value being one that nothing was written to.  The blocks that were given back are kept
    in a list, with what was in them then: this is what [ZeroOnFree] is about.

    The program is compiled without exceptions, so that a [new] that cannot be satisfied
    ends it; whether there is memory is a parameter.  [memcpy] of no elements does nothing,
    whatever the pointers. *)

From S2P Require Import Prelude IntTypes.
Open Scope Z_scope.
Open Scope list_scope.

Section Buffer.
Context {T : Type} {build : Build} (size_t : int_type) (sizeof_T : Z) (ZeroOnFree : bool) (zero : T) (operator_new : Z -> bool).

Definition size_value (z : Z) : Z := static_cast size_t z.

Abbreviation cell := (option T).

(** [address] is the number of the block [data_] points to; there is none when it is null. *)
Record BufferT := mkBuffer {
  size_ : Z; capacity_ : Z; data_ : option (list cell); address : nat;
  allocations : nat; freed : list (list cell)
}.

Definition set_size (n : Z) (b : BufferT) : BufferT := mkBuffer n (capacity_ b) (data_ b) (address b) (allocations b) (freed b).
Definition set_data (d : option (list cell)) (b : BufferT) : BufferT := mkBuffer (size_ b) (capacity_ b) d (address b) (allocations b) (freed b).

Definition IsConsistent (b : BufferT) : bool :=
  (match data_ b with Some _ => true | None => capacity_ b =? 0 end) && (size_ b <=? capacity_ b).

(** [new T[n]]. *)
Definition new_block (n : Z) : exec (list cell) :=
  RTC_CHECK (in_range size_t (sizeof_T * n) && operator_new (sizeof_T * n)) (Done (replicate (Z.to_nat n) None)).

(** [memcpy] to [data + offset]. *)
Definition write_cells (offset : Z) (l : list cell) (d : option (list cell)) : exec (option (list cell)) :=
  match l, d with
  | [], _ => Done d
  | _, None => Undef
  | _, Some m =>
      if (0 <=? offset) && (offset + Z.of_nat (length l) <=? Z.of_nat (length m))
      then Done (Some (firstn (Z.to_nat offset) m ++ l ++ skipn (Z.to_nat offset + length l) m)) else Undef
  end.

(** [n] cells from [data + offset] on. *)
Definition read_cells (offset n : Z) (d : option (list cell)) : exec (list cell) :=
  if n =? 0 then Done [] else
  match d with
  | None => Undef
  | Some m => if (0 <=? offset) && (offset + n <=? Z.of_nat (length m)) then Done (firstn (Z.to_nat n) (skipn (Z.to_nat offset) m)) else Undef
  end.

(** [ExplicitZeroMemory(data + offset, n * sizeof(T))]. *)
Definition ExplicitZeroMemory (offset n : Z) (b : BufferT) : exec BufferT :=
  d ← write_cells offset (replicate (Z.to_nat n) (Some zero)) (data_ b); Done (set_data d b).

Definition MaybeZeroCompleteBuffer (b : BufferT) : exec BufferT :=
  if ZeroOnFree && (0 <? capacity_ b) then ExplicitZeroMemory 0 (capacity_ b) b else Done b.

Definition ZeroTrailingData (count : Z) (b : BufferT) : exec BufferT :=
  RTC_DCHECK (IsConsistent b) (
  RTC_DCHECK (count <=? size_value (capacity_ b - size_ b)) (
    ExplicitZeroMemory (size_ b) count b)).

(** The block is given back, with the data that is in it, and another takes its place. *)
Definition replace_block (d : option (list cell)) (addr : nat) (capacity : Z) (b : BufferT) : BufferT :=
  mkBuffer (size_ b) capacity d addr (allocations b) (freed b ++ match data_ b with Some m => [m] | None => [] end).

Definition count_allocation (b : BufferT) : BufferT :=
  mkBuffer (size_ b) (capacity_ b) (data_ b) (address b) (Datatypes.S (allocations b)) (freed b).

Definition EnsureCapacityWithHeadroom (capacity : Z) (extra_headroom : bool) (b : BufferT) : exec BufferT :=
  RTC_DCHECK (IsConsistent b) (
    if capacity <=? capacity_ b then Done b else
    let new_capacity := if extra_headroom then Z.max capacity (size_value (capacity_ b + capacity_ b / 2)) else capacity in
    new_data ← new_block new_capacity;
    l ← read_cells 0 (size_ b) (data_ b);
    new_data ← write_cells 0 l (Some new_data);
    b ← MaybeZeroCompleteBuffer b;
    let b := count_allocation b in
    let b := replace_block new_data (allocations b) new_capacity b in
    RTC_DCHECK (IsConsistent b) (Done b)).

(** ** Construction *)

Definition BufferT_empty : exec BufferT :=
  let b := mkBuffer 0 0 None 0 0 [] in RTC_DCHECK (IsConsistent b) (Done b).

Definition BufferT_sized (size capacity : Z) : exec BufferT :=
  let capacity := Z.max size capacity in
  b ← (if 0 <? capacity then d ← new_block capacity; Done (mkBuffer size capacity (Some d) 1 1 []) else Done (mkBuffer size capacity None 0 0 []));
  RTC_DCHECK (IsConsistent b) (Done b).

(** The elements a pointer refers to: an array of the caller, or the memory of the buffer
    itself, as long as it is the same block. *)
Inductive source := External (l : list T) | Own (addr : nat) (offset : Z).

Definition source_cells (s : source) (n : Z) (b : BufferT) : exec (list cell) :=
  match s with
  | External l => if n <=? Z.of_nat (length l) then Done (Some <$> firstn (Z.to_nat n) l) else Undef
  | Own addr offset => if (addr =? address b)%nat then read_cells offset n (data_ b) else Undef
  end.

(** [memcpy(data_.get() + offset, data, n * sizeof(U))]. *)
Definition copy_in (offset : Z) (s : source) (n : Z) (b : BufferT) : exec BufferT :=
  l ← source_cells s n b; d ← write_cells offset l (data_ b); Done (set_data d b).

Definition BufferT_copy (s : source) (size capacity : Z) : exec BufferT :=
  b ← BufferT_sized size capacity; copy_in 0 s size b.

(** [OnMovedFrom]. *)
Definition OnMovedFrom (b : BufferT) : exec BufferT :=
  RTC_DCHECK (match data_ b with None => true | Some _ => false end) (
    Done (mkBuffer (if rtc_dcheck_is_on then 1 else 0) 0 (data_ b) (address b) (allocations b) (freed b))).

(** Move construction: the new buffer and what is left of the other. *)
Definition BufferT_move (buf : BufferT) : exec (BufferT * BufferT) :=
  RTC_DCHECK (IsConsistent buf) (
    let b := mkBuffer (size_ buf) (capacity_ buf) (data_ buf) (address buf) (allocations buf) [] in
    RTC_DCHECK (IsConsistent b) (
      buf ← OnMovedFrom (set_data None buf);
      Done (b, buf))).

(** Move assignment from another buffer and from itself. *)
Definition move_assign (buf b : BufferT) : exec (BufferT * BufferT) :=
  RTC_DCHECK (IsConsistent buf) (
    b ← MaybeZeroCompleteBuffer b;
    let b := replace_block (data_ buf) (address buf) (capacity_ buf) (set_size (size_ buf) b) in
    let b := mkBuffer (size_ b) (capacity_ b) (data_ b) (address b) (Nat.max (allocations b) (allocations buf)) (freed b) in
    buf ← OnMovedFrom (set_data None buf);
    Done (b, buf)).

Definition move_assign_self (b : BufferT) : exec BufferT :=
  RTC_DCHECK (IsConsistent b) (
    b ← MaybeZeroCompleteBuffer b;
    OnMovedFrom (replace_block None 0 (capacity_ b) b)).

Definition destructor (b : BufferT) : exec BufferT :=
  b ← MaybeZeroCompleteBuffer b; Done (replace_block None 0 (capacity_ b) b).

(** ** Access *)

Definition empty (b : BufferT) : exec bool := RTC_DCHECK (IsConsistent b) (Done (size_ b =? 0)).
Definition size (b : BufferT) : exec Z := RTC_DCHECK (IsConsistent b) (Done (size_ b)).
Definition capacity (b : BufferT) : exec Z := RTC_DCHECK (IsConsistent b) (Done (capacity_ b)).

Definition at_ (index : Z) (b : BufferT) : exec cell :=
  RTC_DCHECK (index <? size_ b) (
  RTC_DCHECK (IsConsistent b) (l ← read_cells index 1 (data_ b); defined (head l))).

(** Cells that were not written to have no value to compare. *)
Definition values (l : list cell) : exec (list T) := defined (mapM (fun c => c) l).

Definition equal `{EqDecision T} (b buf : BufferT) : exec bool :=
  RTC_DCHECK (IsConsistent b) (
    if negb (size_ b =? size_ buf) then Done false else
    l ← read_cells 0 (size_ b) (data_ b); k ← read_cells 0 (size_ b) (data_ buf);
    x ← values l; y ← values k;
    Done (bool_decide (x = y))).

(** ** Data *)

Definition AppendData (s : source) (n : Z) (b : BufferT) : exec BufferT :=
  RTC_DCHECK (IsConsistent b) (
    let new_size := size_value (size_ b + n) in
    b ← EnsureCapacityWithHeadroom new_size true b;
    b ← copy_in (size_ b) s n b;
    let b := set_size new_size b in
    RTC_DCHECK (IsConsistent b) (Done b)).

(** What [SetData] does after the data is there. *)
Definition zero_rest (old_size : Z) (b : BufferT) : exec BufferT :=
  if ZeroOnFree && (size_ b <? old_size) then ZeroTrailingData (size_value (old_size - size_ b)) b else Done b.

Definition SetData (s : source) (n : Z) (b : BufferT) : exec BufferT :=
  RTC_DCHECK (IsConsistent b) (
    let old_size := size_ b in
    b ← AppendData s n (set_size 0 b);
    zero_rest old_size b).

Definition SetSize (n : Z) (b : BufferT) : exec BufferT :=
  let old_size := size_ b in
  b ← EnsureCapacityWithHeadroom n true b;
  zero_rest old_size (set_size n b).

Definition EnsureCapacity (n : Z) (b : BufferT) : exec BufferT := EnsureCapacityWithHeadroom n false b.

(** A [setter] is given the cells of its view; it leaves others in them, as many, and tells
    how many it wrote. *)
Definition setter_function : Type := list cell -> list cell * Z.

Definition AppendData_setter (max_elements : Z) (setter : setter_function) (b : BufferT) : exec (Z * BufferT) :=
  RTC_DCHECK (IsConsistent b) (
    let old_size := size_ b in
    b ← SetSize (size_value (old_size + max_elements)) b;
    RTC_DCHECK (IsConsistent b) (
      view ← read_cells old_size max_elements (data_ b);
      let r := setter view in
      d ← write_cells old_size r.1 (data_ b);
      RTC_CHECK (r.2 <=? max_elements) (
        let b := set_size (size_value (old_size + r.2)) (set_data d b) in
        RTC_DCHECK (IsConsistent b) (Done (r.2, b))))).

Definition SetData_setter (max_elements : Z) (setter : setter_function) (b : BufferT) : exec (Z * BufferT) :=
  RTC_DCHECK (IsConsistent b) (
    let old_size := size_ b in
    r ← AppendData_setter max_elements setter (set_size 0 b);
    b ← zero_rest old_size r.2;
    Done (r.1, b)).

Definition Clear (b : BufferT) : exec BufferT :=
  b ← MaybeZeroCompleteBuffer b;
  let b := set_size 0 b in
  RTC_DCHECK (IsConsistent b) (Done b).

Definition swap (a b : BufferT) : BufferT * BufferT :=
  (mkBuffer (size_ b) (capacity_ b) (data_ b) (address b) (allocations b) (freed a),
   mkBuffer (size_ a) (capacity_ a) (data_ a) (address a) (allocations a) (freed b)).

End Buffer.

Arguments External {T} _.
Arguments Own {T} _ _.

(** ** What a buffer holds *)

Section Contents.
Context {T : Type} {build : Build} (size_t : int_type) (sizeof_T : Z) (ZeroOnFree : bool) (zero : T) (operator_new : Z -> bool) (M : Z).
Abbreviation cell := (option T).
Implicit Types (b : BufferT (T := T)) (l k m : list (option T)).

(** The capacity that is never exceeded while there are at most [M] elements. *)
Definition max_capacity : Z := M + M / 2.

Class Memory : Prop := {
  size_t_unsigned : is_signed size_t = false;
  sizeof_positive : 1 <= sizeof_T;
  M_nonneg : 0 <= M;
  new_small c : 0 <= c <= max_capacity -> operator_new (sizeof_T * c) = true;
  new_large n : operator_new n = true -> n <= IntTypes.max (make_signed size_t)
}.

(** Nothing to hide: nothing was written there, or a zero. *)
Definition clean (c : cell) : Prop := c = None \/ c = Some zero.

(** The elements are [l].  With [ZeroOnFree] the cells from [d] on are clean, and the blocks
    that were given back are zero. *)
Record holds_up_to (b : BufferT) (l : list cell) (d : nat) : Prop := {
  h_size : size_ b = Z.of_nat (length l);
  h_capacity : Z.of_nat (length l) <= capacity_ b <= max_capacity;
  h_data : match data_ b with
           | None => capacity_ b = 0
           | Some m => Z.of_nat (length m) = capacity_ b /\ firstn (length l) m = l /\
                       (ZeroOnFree = true -> forall i c, m !! i = Some c -> (d <= i)%nat -> clean c)
           end;
  h_freed : ZeroOnFree = true -> Forall (Forall (eq (Some zero))) (freed b);
  h_address : (address b <= allocations b)%nat
}.

(** Only the elements themselves need to be hidden. *)
Definition holds (b : BufferT) (l : list cell) : Prop := holds_up_to b l (length l).

Context {memory : Memory}.

Lemma new_block_run c : 0 <= c <= max_capacity -> new_block (T := T) size_t sizeof_T operator_new c = Done (replicate (Z.to_nat c) None).
Proof using memory.
  intros Hc. unfold new_block, RTC_CHECK. pose proof (new_small c Hc) as Hn. pose proof (new_large _ Hn). pose proof sizeof_positive. rewrite Hn, andb_true_r.
  rewrite (proj2 (in_range_spec _ _)); [done|]. pose proof size_t_unsigned as Hu. destruct size_t; try discriminate; limits; nia.
Qed.

Lemma max_capacity_limit : max_capacity <= IntTypes.max (make_signed size_t).
Proof using memory.
  pose proof M_nonneg. pose proof sizeof_positive. assert (0 <= max_capacity) by (unfold max_capacity; pose proof (Z.div_pos M 2 ltac:(lia) ltac:(lia)); lia).
  etrans; [|apply (new_large (sizeof_T * max_capacity)), new_small; lia]. nia.
Qed.

Lemma size_value_id z : 0 <= z <= 2 * max_capacity -> size_value size_t z = z.
Proof using memory.
  intros Hz. pose proof max_capacity_limit as Hl. pose proof size_t_unsigned as Hu. unfold size_value. apply static_cast_id. destruct size_t; try discriminate; limits; lia.
Qed.

Lemma M_le_max : 0 <= M <= max_capacity.
Proof using memory. pose proof M_nonneg. unfold max_capacity. pose proof (Z.div_pos M 2 ltac:(lia) ltac:(lia)). lia. Qed.

Lemma holds_consistent b l d : holds_up_to b l d -> IsConsistent b = true.
Proof using.
  intros [Hs Hc Hd _ _]. unfold IsConsistent. rewrite Hs, (proj2 (Z.leb_le _ _)), andb_true_r by lia. destruct (data_ b); [done|by apply Z.eqb_eq].
Qed.

Lemma firstn_length_le (A : Type) (m l : list A) : firstn (length l) m = l -> (length l <= length m)%nat.
Proof using. intros H. rewrite <- H. rewrite length_take. lia. Qed.

(** *** Reading and writing *)

Lemma write_cells_run off k m : 0 <= off -> off + Z.of_nat (length k) <= Z.of_nat (length m) ->
  write_cells (T := T) off k (Some m) = Done (Some (firstn (Z.to_nat off) m ++ k ++ skipn (Z.to_nat off + length k) m)).
Proof using.
  intros H1 H2. destruct k as [|c k].
  - cbn. by rewrite Nat.add_0_r, firstn_skipn.
  - unfold write_cells. by rewrite (proj2 (Z.leb_le 0 off)), (proj2 (Z.leb_le _ _)) by done.
Qed.

Lemma read_cells_run off n m : 0 <= off -> 0 <= n -> off + n <= Z.of_nat (length m) -> read_cells (T := T) off n (Some m) = Done (firstn (Z.to_nat n) (skipn (Z.to_nat off) m)).
Proof using.
  intros H1 Hn H2. unfold read_cells. destruct (Z.eqb_spec n 0) as [->|]; [done|]. by rewrite (proj2 (Z.leb_le 0 off)), (proj2 (Z.leb_le _ _)) by done.
Qed.

(** A write leaves the cells outside. *)
Lemma lookup_written off k m i : (off + length k <= length m)%nat ->
  (firstn off m ++ k ++ skipn (off + length k) m) !! i = if (off <=? i)%nat && (i <? off + length k)%nat then k !! (i - off)%nat else m !! i.
Proof using.
  intros H. assert (length (firstn off m) = off) as Ho by (rewrite length_take; lia). destruct (Nat.leb_spec off i); cbn [andb].
  - rewrite lookup_app_r, Ho by lia. destruct (Nat.ltb_spec i (off + length k)); [by rewrite lookup_app_l by lia|]. rewrite lookup_app_r, lookup_drop by lia. f_equal. lia.
  - rewrite lookup_app_l by lia. apply lookup_take_lt. lia.
Qed.

Lemma length_written off k m : (off + length k <= length m)%nat -> length (firstn off m ++ k ++ skipn (off + length k) m) = length m.
Proof using. intros H. rewrite !length_app, length_take, length_drop. lia. Qed.

Lemma write_all k m : length k = length m -> write_cells (T := T) 0 k (Some m) = Done (Some k).
Proof using. intros H. rewrite write_cells_run by lia. change (Z.to_nat 0) with 0%nat. rewrite H, take_0. cbn [app Nat.add]. rewrite drop_ge by lia. by rewrite app_nil_r. Qed.

Lemma MaybeZero_run b l d : holds_up_to b l d -> exists b', MaybeZeroCompleteBuffer ZeroOnFree zero b = Done b' /\
  (size_ b', capacity_ b', address b', allocations b', freed b') = (size_ b, capacity_ b, address b, allocations b, freed b) /\
  match data_ b, data_ b' with None, None => True | Some m, Some m' => length m' = length m /\ (if ZeroOnFree then Forall (eq (Some zero)) m' else m' = m) | _, _ => False end.
Proof using.
  intros [Hs Hc Hd _ _]. unfold MaybeZeroCompleteBuffer. destruct ZeroOnFree; cbn [andb]; [|exists b; destruct (data_ b); done]. destruct (Z.ltb_spec 0 (capacity_ b)).
  - destruct (data_ b) as [m|] eqn:Ed; [|lia]. destruct Hd as (Hlm & _). unfold ExplicitZeroMemory. rewrite Ed. pose proof (length_replicate (Z.to_nat (capacity_ b)) (Some zero)) as Hlr.
    rewrite write_all by lia. cbn [mbind exec_bind]. eexists. split_and!; [reflexivity|done|]. cbn. split; [lia|]. apply Forall_replicate_eq.
  - exists b. destruct (data_ b) as [m|] eqn:Ed; [|done]. destruct Hd as (Hlm & _). split_and!; try done. assert (m = []) as -> by (destruct m; [done|cbn in Hlm; lia]). constructor.
Qed.

Lemma EnsureCapacityWithHeadroom_run b l d n headroom : holds_up_to b l d -> (length l <= d)%nat -> 0 <= n <= M ->
  exists b', EnsureCapacityWithHeadroom size_t sizeof_T ZeroOnFree zero operator_new n headroom b = Done b' /\ holds_up_to b' l d /\ n <= capacity_ b' /\ capacity_ b <= capacity_ b' /\
    (n <= capacity_ b -> b' = b) /\ (capacity_ b < n -> address b' = Datatypes.S (allocations b)).
Proof using memory.
  intros Hb Hld Hn. pose proof M_le_max. unfold EnsureCapacityWithHeadroom. rewrite (RTC_DCHECK_true (IsConsistent b)) by (by eapply holds_consistent). destruct (Z.leb_spec n (capacity_ b)); [exists b; split_and!; (done || lia)|].
  pose proof Hb as [Hs Hc Hd Hf Ha]. pose proof (Z.div_pos (capacity_ b) 2 ltac:(lia) ltac:(lia)). pose proof (Z.div_le_upper_bound (capacity_ b) 2 (capacity_ b) ltac:(lia) ltac:(lia)). rewrite size_value_id by lia.
  set (c := if headroom then Z.max n (capacity_ b + capacity_ b / 2) else n). assert (n <= c <= max_capacity) as Hcc.
  { unfold c, max_capacity in *. pose proof (Z.div_le_mono (capacity_ b) M 2 ltac:(lia) ltac:(lia)). destruct headroom; lia. }
  rewrite new_block_run by lia. cbn [mbind exec_bind]. pose proof (length_replicate (Z.to_nat c) (@None T)) as Hlr.
  assert (read_cells 0 (size_ b) (data_ b) = Done l) as ->.
  { rewrite Hs. destruct (data_ b) as [m|].
    - destruct Hd as (Hlm & Hm & _). rewrite read_cells_run by lia. change (Z.to_nat 0) with 0%nat. by rewrite drop_0, Nat2Z.id, Hm.
    - assert (l = []) as -> by (destruct l; [done|cbn in Hc; lia]). done. }
  cbn [mbind exec_bind]. rewrite write_cells_run by lia. cbn [mbind exec_bind]. change (Z.to_nat 0) with 0%nat. rewrite take_0. cbn [app Nat.add].
  destruct (MaybeZero_run b l d Hb) as (b1 & -> & [= Hs1 Hc1 Ha1 Hal1 Hf1] & Hd1). cbn [mbind exec_bind].
  set (b' := replace_block _ _ _ _). assert (holds_up_to b' l d) as Hb'.
  { split; cbn; [by rewrite Hs1|lia| | |].
    - split_and!; [rewrite length_app, length_drop; lia|by rewrite take_app_length|]. intros _ i x Hi Hdi. left. rewrite lookup_app_r, lookup_drop in Hi by lia. by apply lookup_replicate in Hi as [? _].
    - intros Hz. rewrite Hf1. specialize (Hf Hz). destruct (data_ b) as [m|], (data_ b1) as [m1|]; try done; rewrite ?app_nil_r; [|done]. apply Forall_app. split; [done|]. constructor; [|constructor]. rewrite Hz in Hd1. apply Hd1.
    - done. }
  rewrite RTC_DCHECK_true by (by eapply holds_consistent). exists b'. split_and!; [done|done|cbn; lia|cbn; lia|lia|]. intros _. cbn. by rewrite Hal1.
Qed.

(** The elements that a pointer refers to are put behind those that are there. *)
Lemma copy_in_run b l d s n k : holds_up_to b l d -> source_cells s n b = Done k -> Z.of_nat (length k) = n -> Z.of_nat (length l) + n <= capacity_ b ->
  exists b', copy_in (size_ b) s n b = Done b' /\ (forall z, z = Z.of_nat (length (l ++ k)) -> holds_up_to (set_size z b') (l ++ k) (Nat.max d (length (l ++ k)))) /\ size_ b' = size_ b /\ capacity_ b' = capacity_ b.
Proof using.
  intros [Hs Hc Hd Hf Ha] Hk Hn Hcap. unfold copy_in. rewrite Hk. cbn [mbind exec_bind]. destruct (data_ b) as [m|] eqn:Ed.
  - destruct Hd as (Hlm & Hm & Hclean). rewrite Hs, write_cells_run by lia. cbn [mbind exec_bind]. rewrite Nat2Z.id. eexists. split_and!; [reflexivity| |done|done]. intros z ->. rewrite length_app. split; cbn -[Nat.max].
    + by rewrite length_app.
    + rewrite length_app. lia.
    + split_and!; [rewrite length_written by lia; lia| |].
      * rewrite Hm, app_assoc. rewrite <- length_app. apply take_app_length.
      * intros Hz i x Hi Hdi. rewrite lookup_written in Hi by lia. destruct (Nat.ltb_spec i (length l + length k)); [lia|]. rewrite andb_false_r in Hi. apply (Hclean Hz i x Hi). lia.
    + done.
    + done.
  - assert (l = []) as -> by (destruct l; [done|cbn in Hc; lia]). assert (k = []) as -> by (destruct k; [done|cbn in *; lia]). cbn [write_cells mbind exec_bind].
    eexists. split_and!; [reflexivity| |done|done]. intros z ->. split; cbn; done.
Qed.

Lemma AppendData_run b l d s k : holds_up_to b l d -> (length l <= d)%nat -> Z.of_nat (length (l ++ k)) <= M ->
  (forall b', holds_up_to b' l d -> (Z.of_nat (length (l ++ k)) <= capacity_ b -> b' = b) -> source_cells s (Z.of_nat (length k)) b' = Done k) ->
  exists b', AppendData size_t sizeof_T ZeroOnFree zero operator_new s (Z.of_nat (length k)) b = Done b' /\ holds_up_to b' (l ++ k) (Nat.max d (length (l ++ k))) /\ capacity_ b <= capacity_ b'.
Proof using memory.
  intros Hb Hld HM Hsrc. pose proof M_le_max. unfold AppendData. rewrite RTC_DCHECK_true by (by eapply holds_consistent). rewrite (h_size _ _ _ Hb). rewrite length_app in HM.
  rewrite size_value_id by lia. destruct (EnsureCapacityWithHeadroom_run b l d (Z.of_nat (length l) + Z.of_nat (length k)) true Hb Hld ltac:(lia)) as (b1 & -> & Hb1 & Hcap & Hle & Hsame & _). cbn [mbind exec_bind].
  destruct (copy_in_run b1 l d s _ k Hb1 (Hsrc b1 Hb1 ltac:(rewrite length_app; intros; apply Hsame; lia)) eq_refl ltac:(lia)) as (b2 & -> & Hb2 & _ & Hc2). cbn [mbind exec_bind].
  specialize (Hb2 (Z.of_nat (length l) + Z.of_nat (length k)) ltac:(rewrite length_app; lia)). rewrite RTC_DCHECK_true by (by eapply holds_consistent). eexists. split_and!; [done|done|cbn; lia].
Qed.

Lemma External_cells (x : list T) b : source_cells (External x) (Z.of_nat (length x)) b = Done (Some <$> x).
Proof using. unfold source_cells. rewrite Z.leb_refl, Nat2Z.id, firstn_all. done. Qed.

(** What the elements no longer cover is zeroed. *)
Lemma zero_rest_run b l (d : nat) old : holds_up_to b l (Nat.max d (length l)) -> old = Z.of_nat d -> (d <= Z.to_nat (capacity_ b))%nat -> exists b', zero_rest size_t ZeroOnFree zero old b = Done b' /\ holds b' l.
Proof using memory.
  intros Hb -> Hd. pose proof M_le_max. unfold zero_rest. pose proof Hb as [Hs Hc Hdata Hf Haddr]. rewrite Hs. destruct ZeroOnFree eqn:Ez; cbn [andb].
  - destruct (Z.ltb_spec (Z.of_nat (length l)) (Z.of_nat d)).
    + unfold ZeroTrailingData. rewrite RTC_DCHECK_true by (by eapply holds_consistent). rewrite !Hs, !size_value_id by lia. rewrite RTC_DCHECK_true by (apply Z.leb_le; lia). unfold ExplicitZeroMemory.
      destruct (data_ b) as [m|] eqn:Ed; [|lia]. destruct Hdata as (Hlm & Hm & Hclean). pose proof (length_replicate (Z.to_nat (Z.of_nat d - Z.of_nat (length l))) (Some zero)) as Hlr.
      rewrite write_cells_run by lia. cbn [mbind exec_bind]. rewrite Nat2Z.id. eexists. split; [reflexivity|]. split; [exact Hs|exact Hc| |intros _; exact (Hf eq_refl)|exact Haddr]. cbn. split_and!; [rewrite length_written by lia; exact Hlm|rewrite Hm; apply take_app_length|].
      intros _ i x Hi Hli. rewrite lookup_written in Hi by lia. destruct (Nat.leb_spec (length l) i); [|lia]. cbn [andb] in Hi. destruct (Nat.ltb_spec i (length l + length (replicate (Z.to_nat (Z.of_nat d - Z.of_nat (length l))) (Some zero)))).
      * right. by apply lookup_replicate in Hi as [-> _].
      * apply (Hclean eq_refl i x Hi). lia.
    + exists b. split; [done|]. unfold holds. replace (Nat.max d (length l)) with (length l) in Hb by lia. exact Hb.
  - exists b. split; [done|]. split; [done|done| |congruence|done]. destruct (data_ b); [|done]. destruct Hdata as (? & ? & _). split_and!; [done|done|congruence].
Qed.

Lemma holds_d_le b l d d' : holds_up_to b l d -> (d <= d')%nat -> holds_up_to b l d'.
Proof using. intros [Hs Hc Hd Hf Ha] Hle. split; try done. destruct (data_ b); [|done]. destruct Hd as (? & ? & Hcl). split_and!; try done. intros Hz i c Hi Hdi. apply (Hcl Hz i c Hi). lia. Qed.

(** With no elements at all, what there was is still to be hidden. *)
Lemma set_size_0 b l : holds b l -> holds_up_to (set_size 0 b) [] (length l).
Proof using. intros [Hs Hc Hd Hf Ha]. split; cbn; [done|lia| |done|done]. destruct (data_ b); [|done]. destruct Hd as (? & ? & ?). by split_and!. Qed.

Lemma SetData_run b l (x : list T) : holds b l -> Z.of_nat (length x) <= M -> exists b', SetData size_t sizeof_T ZeroOnFree zero operator_new (External x) (Z.of_nat (length x)) b = Done b' /\ holds b' (Some <$> x).
Proof using memory.
  intros Hb HM. unfold SetData. rewrite RTC_DCHECK_true by (by eapply holds_consistent). pose proof (External_cells x) as Hext.
  destruct (AppendData_run (set_size 0 b) [] (length l) (External x) (Some <$> x)) as (b1 & Hrun & Hb1 & Hc1); [by apply set_size_0|cbn; lia|cbn [app]; by rewrite length_fmap|intros b' _ _; by rewrite length_fmap, Hext|].
  rewrite length_fmap in Hrun. rewrite Hrun. cbn [mbind exec_bind app] in *. apply (zero_rest_run b1 (Some <$> x) (length l)); [done|by apply h_size in Hb|].
  pose proof (h_capacity _ _ _ Hb). cbn in Hc1. lia.
Qed.

(** *** The other operations *)

(** A larger size: what is there stays, what is new was not written to. *)
Lemma SetSize_grow b l d n : holds_up_to b l d -> (length l <= d)%nat -> Z.of_nat (length l) <= n <= M ->
  exists b' r, SetSize size_t sizeof_T ZeroOnFree zero operator_new n b = Done b' /\ holds_up_to b' (l ++ r) d /\ Z.of_nat (length (l ++ r)) = n /\ capacity_ b <= capacity_ b'.
Proof using memory.
  intros Hb Hld Hn. unfold SetSize. destruct (EnsureCapacityWithHeadroom_run b l d n true Hb Hld ltac:(lia)) as (b1 & -> & Hb1 & Hcap & Hle & _). cbn [mbind exec_bind].
  pose proof (h_size _ _ _ Hb) as Hs0. destruct Hb1 as [Hs Hc Hd Hf Ha]. unfold zero_rest. cbn [size_ set_size]. rewrite (proj2 (Z.ltb_ge n (size_ b))), andb_false_r by lia.
  destruct (data_ b1) as [m|] eqn:Em.
  - destruct Hd as (Hlm & Hm & Hcl). exists (set_size n b1), (firstn (Z.to_nat n - length l) (skipn (length l) m)).
    assert (l ++ firstn (Z.to_nat n - length l) (skipn (length l) m) = firstn (Z.to_nat n) m) as El.
    { rewrite <- Hm at 1. rewrite take_take_drop. f_equal. lia. }
    assert (length (firstn (Z.to_nat n) m) = Z.to_nat n) as Hlen by (rewrite length_take; lia).
    rewrite El, Hlen. split_and!; [done| |lia|done]. split; cbn; rewrite ?Hlen; [lia|lia| |done|done]. rewrite Em. by split_and!.
  - assert (l = []) as -> by (destruct l; [done|cbn in *; lia]). exists (set_size n b1), []. cbn. split_and!; [done| |lia|done]. split; cbn; [lia|lia| |done|done]. by rewrite Em.
Qed.

Lemma holds_clean b l r d : holds_up_to b (l ++ r) d -> (d <= length l)%nat -> ZeroOnFree = true -> Forall clean r.
Proof using.
  intros [_ Hc Hd _ _] Hdl Hz. destruct (data_ b) as [m|].
  - destruct Hd as (_ & Hm & Hcl). apply Forall_lookup. intros i c Hi. apply (Hcl Hz (length l + i)%nat c); [|lia]. rewrite <- (firstn_skipn (length (l ++ r)) m), Hm, lookup_app_l.
    + by rewrite lookup_app_r, Nat.add_sub' by lia.
    + rewrite length_app. apply lookup_lt_Some in Hi. lia.
  - assert (l ++ r = []) as [_ ->]%app_eq_nil by (destruct (l ++ r); [done|cbn in Hc; lia]). constructor.
Qed.

(** The new size in every case: the elements that fit, and cells that were not written to. *)
Lemma SetSize_run b l n : holds b l -> 0 <= n <= M -> exists b' r, SetSize size_t sizeof_T ZeroOnFree zero operator_new n b = Done b' /\
  holds b' (firstn (Z.to_nat n) l ++ r) /\ Z.of_nat (length (firstn (Z.to_nat n) l ++ r)) = n /\ (ZeroOnFree = true -> Forall clean r).
Proof using memory.
  intros Hb Hn. destruct (Z_le_gt_dec (Z.of_nat (length l)) n).
  - destruct (SetSize_grow b l (length l) n Hb ltac:(lia) ltac:(lia)) as (b1 & r & Hrun & Hb1 & Hlen & _). exists b1, r. rewrite take_ge by lia. split_and!; [done| |done|].
    + eapply holds_d_le; [done|]. rewrite length_app. lia.
    + intros Hz. by eapply (holds_clean b1 l r (length l)).
  - assert (Z.of_nat (length (firstn (Z.to_nat n) l)) = n) as Hlen by (rewrite length_take; lia). unfold SetSize.
    destruct (EnsureCapacityWithHeadroom_run b l (length l) n true Hb ltac:(lia) ltac:(lia)) as (b1 & -> & Hb1 & Hcap & Hle & _). cbn [mbind exec_bind].
    destruct (zero_rest_run (set_size n b1) (firstn (Z.to_nat n) l) (length l) (size_ b)) as (b2 & Hrun & Hb2).
    + replace (Nat.max _ _) with (length l) by lia. destruct Hb1 as [Hs Hc Hd Hf Ha]. split; cbn; [lia|lia| |done|done]. destruct (data_ b1) as [m|]; [|done]. destruct Hd as (? & Hm & ?). split_and!; [done| |done].
      rewrite length_take. transitivity (firstn (Z.to_nat n) (firstn (length l) m)); [rewrite take_take; f_equal; lia|by rewrite Hm].
    + apply (h_size _ _ _ Hb).
    + cbn. pose proof (h_capacity _ _ _ Hb1). lia.
    + exists b2, []. rewrite app_nil_r. split_and!; [done|done|done|constructor].
Qed.

Lemma EnsureCapacity_run b l n : holds b l -> 0 <= n <= M -> exists b', EnsureCapacity size_t sizeof_T ZeroOnFree zero operator_new n b = Done b' /\ holds b' l /\ n <= capacity_ b'.
Proof using memory. intros Hb Hn. destruct (EnsureCapacityWithHeadroom_run b l (length l) n false Hb ltac:(lia) Hn) as (b1 & ? & ? & ? & _). eauto. Qed.

(** A setter that writes [r.2] elements from the start of its view on, and says so. *)
Definition honest (f : setter_function (T := T)) : Prop :=
  forall view, length (f view).1 = length view /\ 0 <= (f view).2 <= Z.of_nat (length view) /\ skipn (Z.to_nat (f view).2) (f view).1 = skipn (Z.to_nat (f view).2) view.

Definition written (f : setter_function (T := T)) (view : list cell) : list cell := firstn (Z.to_nat (f view).2) (f view).1.

Lemma AppendData_setter_run b l d n f : holds_up_to b l d -> (length l <= d)%nat -> 0 <= n -> Z.of_nat (length l) + n <= M -> honest f ->
  exists b' view, AppendData_setter size_t sizeof_T ZeroOnFree zero operator_new n f b = Done ((f view).2, b') /\ Z.of_nat (length view) = n /\
    holds_up_to b' (l ++ written f view) (Nat.max d (length (l ++ written f view))) /\ capacity_ b <= capacity_ b'.
Proof using memory.
  intros Hb Hld Hn HM Hf. pose proof M_le_max. unfold AppendData_setter. rewrite RTC_DCHECK_true by (by eapply holds_consistent). rewrite (h_size _ _ _ Hb), size_value_id by lia.
  destruct (SetSize_grow b l d (Z.of_nat (length l) + n) Hb Hld ltac:(lia)) as (b1 & view & -> & Hb1 & Hlen & Hle). cbn [mbind exec_bind]. rewrite RTC_DCHECK_true by (by eapply holds_consistent).
  rewrite length_app in Hlen. destruct (Hf view) as (Hl1 & Hw & Hrest). unfold written. set (w := (f view).2) in *. set (v := (f view).1) in *.
  assert (length (firstn (Z.to_nat w) v) = Z.to_nat w) as Hlw by (rewrite length_take; lia).
  destruct Hb1 as [Hs Hc Hd Hfr Ha]. rewrite length_app in Hs, Hc. destruct (data_ b1) as [m|] eqn:Em.
  - destruct Hd as (Hlm & Hm & Hcl). rewrite read_cells_run by lia. cbn [mbind exec_bind]. rewrite Nat2Z.id.
    assert (firstn (Z.to_nat n) (skipn (length l) m) = view) as ->.
    { rewrite <- (firstn_skipn (length (l ++ view)) m), Hm, <- app_assoc, drop_app_length. replace (Z.to_nat n) with (length view) by lia. apply take_app_length. }
    fold v w. rewrite write_cells_run by lia. cbn [mbind exec_bind]. rewrite Nat2Z.id. unfold RTC_CHECK. rewrite (proj2 (Z.leb_le w n)), size_value_id by lia.
    assert (firstn (length l) m = l) as Hml. { rewrite <- (firstn_skipn (length (l ++ view)) m), Hm, <- app_assoc. apply take_app_length. }
    match goal with |- exists b' v', RTC_DCHECK (IsConsistent ?B) _ = _ /\ _ => assert (holds_up_to B (l ++ firstn (Z.to_nat w) v) (Nat.max d (length (l ++ firstn (Z.to_nat w) v)))) as Hfin end.
    { split; cbn -[Nat.max]; [rewrite length_app, Hlw; lia|rewrite length_app, Hlw; lia| |done|done]. split_and!.
      - rewrite length_written by lia. done.
      - rewrite Hml. match goal with |- firstn _ (l ++ v ++ ?rest) = _ => replace (l ++ v ++ rest) with ((l ++ firstn (Z.to_nat w) v) ++ (skipn (Z.to_nat w) v ++ rest)) end; [apply take_app_length|].
        rewrite <- app_assoc. f_equal. rewrite app_assoc. by rewrite firstn_skipn.
      - rewrite length_app, Hlw. intros Hz i c Hi Hdi. rewrite lookup_written in Hi by lia. destruct (Nat.leb_spec (length l) i); [|lia]. cbn [andb] in Hi. destruct (Nat.ltb_spec i (length l + length v)); [|apply (Hcl Hz i c Hi); lia].
        apply (Hcl Hz i c); [|lia]. replace (i - length l)%nat with (Z.to_nat w + (i - length l - Z.to_nat w))%nat in Hi by lia. rewrite <- lookup_drop, Hrest, lookup_drop in Hi.
        rewrite <- (firstn_skipn (length (l ++ view)) m), Hm, lookup_app_l by (rewrite length_app; lia). rewrite lookup_app_r by lia. rewrite <- Hi. f_equal. lia. }
    rewrite RTC_DCHECK_true by (by eapply holds_consistent). eexists _, view. split_and!; [reflexivity|lia|exact Hfin|cbn; lia].
  - assert (l = []) as -> by (destruct l; [done|cbn in *; lia]). assert (view = []) as -> by (destruct view; [done|cbn in *; lia]). cbn in Hlen. assert (n = 0) as -> by lia.
    unfold read_cells. cbn [Z.eqb mbind exec_bind]. fold v w. assert (v = []) as Hv by (destruct v; done). rewrite Hv in *. assert (w = 0) as Hw0 by (cbn in Hw; lia). rewrite Hw0 in *. cbn [write_cells mbind exec_bind RTC_CHECK Z.leb Z.compare length].
    rewrite size_value_id by (cbn; lia).
    match goal with |- exists b' v', RTC_DCHECK (IsConsistent ?B) _ = _ /\ _ => assert (holds_up_to B [] (Nat.max d 0)) as Hfin end.
    { split; cbn; [lia|lia|lia|done|done]. }
    rewrite RTC_DCHECK_true by (by eapply holds_consistent). eexists _, []. fold v w. rewrite Hv, Hw0. split_and!; [reflexivity|done|exact Hfin|cbn; lia].
Qed.

Lemma SetData_setter_run b l n f : holds b l -> 0 <= n <= M -> honest f ->
  exists b' view, SetData_setter size_t sizeof_T ZeroOnFree zero operator_new n f b = Done ((f view).2, b') /\ Z.of_nat (length view) = n /\ holds b' (written f view).
Proof using memory.
  intros Hb Hn Hf. unfold SetData_setter. rewrite RTC_DCHECK_true by (by eapply holds_consistent).
  destruct (AppendData_setter_run (set_size 0 b) [] (length l) n f) as (b1 & view & -> & Hv & Hb1 & Hc1); [by apply set_size_0|cbn; lia|lia|cbn; lia|done|]. cbn [mbind exec_bind fst snd app] in *.
  destruct (zero_rest_run b1 (written f view) (length l) (size_ b)) as (b2 & -> & Hb2); [done|apply (h_size _ _ _ Hb)|pose proof (h_capacity _ _ _ Hb); cbn in Hc1; lia|]. cbn [mbind exec_bind]. eauto.
Qed.

(** *** Elements of the buffer itself *)

Lemma data_cells b l d off n : holds_up_to b l d -> 0 <= off -> 0 < n -> off + n <= Z.of_nat (length l) -> read_cells off n (data_ b) = Done (firstn (Z.to_nat n) (skipn (Z.to_nat off) l)).
Proof using.
  intros [_ Hc Hd _ _] Hoff Hn Hle. destruct (data_ b) as [m|]; [|lia]. destruct Hd as (Hlm & Hm & _). rewrite read_cells_run by lia. f_equal.
  transitivity (firstn (Z.to_nat n) (skipn (Z.to_nat off) (firstn (length l) m))); [|by rewrite Hm]. rewrite skipn_firstn_comm, take_take. f_equal. lia.
Qed.

(** What the buffer holds itself can be appended as long as the memory need not grow ... *)
Lemma AppendData_own b l off n : holds b l -> 0 <= off -> 0 < n -> off + n <= Z.of_nat (length l) -> Z.of_nat (length l) + n <= Z.min M (capacity_ b) ->
  exists b', AppendData size_t sizeof_T ZeroOnFree zero operator_new (Own (address b) off) n b = Done b' /\ holds b' (l ++ firstn (Z.to_nat n) (skipn (Z.to_nat off) l)).
Proof using memory.
  intros Hb Hoff Hn Hle Hcap. set (k := firstn _ _). assert (length k = Z.to_nat n) as Hk by (unfold k; rewrite length_take, length_drop; lia).
  destruct (AppendData_run b l (length l) (Own (address b) off) k Hb ltac:(lia)) as (b1 & Hrun & Hb1 & _).
  - rewrite length_app. lia.
  - intros b' Hb' Hsame. rewrite length_app in Hsame. rewrite Hsame by lia. cbn. rewrite Nat.eqb_refl, Hk, Z2Nat.id by lia. by eapply data_cells.
  - rewrite Hk, Z2Nat.id in Hrun by lia. exists b1. split; [done|]. eapply holds_d_le; [done|]. rewrite length_app. lia.
Qed.

(** ... and when it must, the elements are in the block that was given back. *)
Lemma AppendData_own_grows b l off n : holds b l -> 0 < n -> capacity_ b < Z.of_nat (length l) + n <= M ->
  AppendData size_t sizeof_T ZeroOnFree zero operator_new (Own (address b) off) n b = Undef.
Proof using memory.
  intros Hb Hn Hcap. pose proof M_le_max. unfold AppendData. rewrite RTC_DCHECK_true by (by eapply holds_consistent). rewrite (h_size _ _ _ Hb), size_value_id by lia.
  destruct (EnsureCapacityWithHeadroom_run b l (length l) (Z.of_nat (length l) + n) true Hb ltac:(lia) ltac:(lia)) as (b1 & -> & _ & _ & _ & _ & Haddr). cbn [mbind exec_bind].
  unfold copy_in, source_cells. pose proof (h_address _ _ _ Hb). rewrite Haddr by lia. by rewrite (proj2 (Nat.eqb_neq _ _)) by lia.
Qed.

(** ** Moving *)

Definition size_moved_from : Z := if rtc_dcheck_is_on then 1 else 0.

Record moved_from (b : BufferT (T := T)) : Prop := {
  m_size : size_ b = size_moved_from;
  m_capacity : capacity_ b = 0;
  m_data : data_ b = None;
  m_freed : ZeroOnFree = true -> Forall (Forall (eq (Some zero))) (freed b);
  m_address : (address b <= allocations b)%nat
}.

(** What a buffer stands for: its elements, or nothing once it was moved from. *)
Definition stands (b : BufferT (T := T)) (o : option (list cell)) : Prop :=
  match o with Some l => holds b l | None => moved_from b end.

Lemma MaybeZero_stands b o : stands b o -> exists b', MaybeZeroCompleteBuffer ZeroOnFree zero b = Done b' /\
  (size_ b', capacity_ b', address b', allocations b', freed b') = (size_ b, capacity_ b, address b, allocations b, freed b) /\
  match data_ b, data_ b' with None, None => True | Some m, Some m' => length m' = length m /\ (if ZeroOnFree then Forall (eq (Some zero)) m' else m' = m) | _, _ => False end.
Proof using.
  destruct o as [l|]; intros H; [by eapply MaybeZero_run|]. destruct H as [_ Hc Hd _ _]. exists b. unfold MaybeZeroCompleteBuffer. by rewrite Hc, andb_false_r, Hd.
Qed.

Lemma stands_freed b o : stands b o -> ZeroOnFree = true -> Forall (Forall (eq (Some zero))) (freed b).
Proof using. destruct o; intros []; done. Qed.

Lemma stands_address b o : stands b o -> (address b <= allocations b)%nat.
Proof using. destruct o; intros []; done. Qed.

(** After the memory was zeroed, what is given back is. *)
Lemma replace_block_freed b o b' d addr c : stands b o -> MaybeZeroCompleteBuffer ZeroOnFree zero b = Done b' -> ZeroOnFree = true -> Forall (Forall (eq (Some zero))) (freed (replace_block d addr c b')).
Proof using.
  intros Hb Hrun Hz. destruct (MaybeZero_stands b o Hb) as (b1 & Hrun1 & [= _ _ _ _ Hf] & Hd). rewrite Hrun in Hrun1. injection Hrun1 as <-. cbn. rewrite Hf.
  pose proof (stands_freed b o Hb Hz). apply Forall_app. split; [done|]. destruct (data_ b), (data_ b'); try done. rewrite Hz in Hd. constructor; [apply Hd|constructor].
Qed.

Lemma OnMovedFrom_run b : data_ b = None -> (ZeroOnFree = true -> Forall (Forall (eq (Some zero))) (freed b)) -> (address b <= allocations b)%nat -> exists b', OnMovedFrom b = Done b' /\ moved_from b'.
Proof using. intros Hd Hf Ha. unfold OnMovedFrom. rewrite Hd. rewrite RTC_DCHECK_true by done. eexists. split; [done|]. split; done. Qed.

Lemma move_assign_run buf l b o : holds buf l -> stands b o -> exists b' buf', move_assign ZeroOnFree zero buf b = Done (b', buf') /\ holds b' l /\ moved_from buf'.
Proof using.
  intros Hbuf Hb. unfold move_assign. rewrite RTC_DCHECK_true by (by eapply holds_consistent). destruct (MaybeZero_stands b o Hb) as (b1 & Hz & Heq & _). rewrite Hz. cbn [mbind exec_bind].
  pose proof Hbuf as [Hs Hc Hd Hf Ha]. destruct (OnMovedFrom_run (set_data None buf)) as (buf' & -> & Hm); [done|done|done|]. cbn [mbind exec_bind]. eexists _, _. split_and!; [reflexivity| |done].
  split; cbn; [done|done|done| |]; [|lia]. intros Hzf. apply (replace_block_freed b o b1 None 0%nat 0 Hb Hz Hzf).
Qed.

(** A buffer that is moved to itself is one that was moved from. *)
Lemma move_assign_self_run b l : holds b l -> exists b', move_assign_self ZeroOnFree zero b = Done b' /\ moved_from b'.
Proof using.
  intros Hb. unfold move_assign_self. rewrite RTC_DCHECK_true by (by eapply holds_consistent). destruct (MaybeZero_run b l _ Hb) as (b1 & Hz & _). rewrite Hz. cbn [mbind exec_bind].
  apply OnMovedFrom_run; [done| |cbn; lia]. intros Hzf. by apply (replace_block_freed b (Some l) b1).
Qed.

Lemma BufferT_move_run b l : holds b l -> exists b' buf', BufferT_move b = Done (b', buf') /\ holds b' l /\ moved_from buf'.
Proof using.
  intros Hb. unfold BufferT_move. rewrite RTC_DCHECK_true by (by eapply holds_consistent). pose proof Hb as [Hs Hc Hd Hf Ha].
  match goal with |- exists b' buf', RTC_DCHECK (IsConsistent ?B) _ = _ /\ _ => assert (holds B l) as HB by (split; done) end.
  rewrite RTC_DCHECK_true by (by eapply holds_consistent). destruct (OnMovedFrom_run (set_data None b)) as (buf' & -> & Hm); [done|done|done|]. cbn [mbind exec_bind]. eauto.
Qed.

(** [Clear] makes a buffer that was moved from one that can be used again. *)
Lemma Clear_run b o : stands b o -> exists b', Clear ZeroOnFree zero b = Done b' /\ holds b' [].
Proof using memory.
  intros Hb. pose proof M_le_max. unfold Clear. destruct (MaybeZero_stands b o Hb) as (b1 & -> & [= Hs Hc Ha Hal Hf] & Hd). cbn [mbind exec_bind].
  assert (holds (set_size 0 b1) []) as Hb1.
  { pose proof (stands_freed b o Hb). pose proof (stands_address b o Hb). split; cbn; [done| |clear Hf|by rewrite Hf|lia].
    - rewrite Hc. destruct o as [l|]; [pose proof (h_capacity _ _ _ Hb); lia|rewrite (m_capacity _ Hb); lia].
    - destruct (data_ b1) as [m1|].
      + destruct (data_ b) as [m|] eqn:Em; [|done]. split_and!; [|done|].
        * destruct o as [l|]; [|pose proof (m_data _ Hb); congruence]. pose proof (h_data _ _ _ Hb) as Hdata. rewrite Em in Hdata. lia.
        * intros Hz i c Hi _. rewrite Hz in Hd. destruct Hd as [_ Hd]. right. symmetry. by eapply (Forall_lookup_1 _ _ i).
      + rewrite Hc. destruct o as [l|]; [|apply (m_capacity _ Hb)]. pose proof (h_data _ _ _ Hb) as Hdata. destruct (data_ b); done. }
  rewrite RTC_DCHECK_true by (by eapply holds_consistent). eauto.
Qed.

Lemma destructor_run b o : stands b o -> exists b', destructor ZeroOnFree zero b = Done b' /\ data_ b' = None /\ (ZeroOnFree = true -> Forall (Forall (eq (Some zero))) (freed b')).
Proof using.
  intros Hb. unfold destructor. destruct (MaybeZero_stands b o Hb) as (b1 & Hz & _). rewrite Hz. cbn [mbind exec_bind]. eexists. split_and!; [reflexivity|done|]. intros. by eapply replace_block_freed.
Qed.

(** Nothing else may be done with it: with the checks on, the program ends. *)
Lemma moved_from_checked b s n : moved_from b -> rtc_dcheck_is_on = true -> size b = Fatal /\ SetSize size_t sizeof_T ZeroOnFree zero operator_new n b = Fatal /\ AppendData size_t sizeof_T ZeroOnFree zero operator_new s n b = Fatal.
Proof using.
  intros [Hs Hc Hd _ _] Hon. assert (IsConsistent b = false) as Hf by (unfold IsConsistent; unfold size_moved_from in Hs; rewrite Hs, Hc, Hd, Hon; done).
  unfold size, SetSize, EnsureCapacityWithHeadroom, AppendData, RTC_DCHECK. rewrite Hon, Hf. done.
Qed.

Lemma swap_run a b o p : stands a o -> stands b p -> stands (swap a b).1 p /\ stands (swap a b).2 o.
Proof using.
  intros Ha Hb. pose proof (stands_freed a o Ha). pose proof (stands_freed b p Hb).
  destruct o; destruct p; destruct Ha, Hb; split; split; done.
Qed.

(** ** Observations *)

(** What the buffer shows. *)
Definition shows (b : BufferT (T := T)) (l : list cell) : Prop :=
  size b = Done (Z.of_nat (length l)) /\ empty b = Done (bool_decide (l = [])) /\ (exists c, capacity b = Done c /\ Z.of_nat (length l) <= c) /\
  (forall i c, l !! i = Some c -> at_ (Z.of_nat i) b = Done c) /\ (forall i, Z.of_nat (length l) <= i -> rtc_dcheck_is_on = true -> at_ i b = Fatal).

Lemma holds_shows b l : holds b l -> shows b l.
Proof using.
  intros Hb. pose proof (holds_consistent _ _ _ Hb) as Hcons. pose proof Hb as [Hs Hc _ _ _]. unfold shows, size, empty, capacity, at_. rewrite !(RTC_DCHECK_true _ _ Hcons), Hs. split_and!.
  - done.
  - f_equal. destruct l; done.
  - exists (capacity_ b). split; [done|lia].
  - intros i c Hi. pose proof (lookup_lt_Some _ _ _ Hi). rewrite RTC_DCHECK_true by (apply Z.ltb_lt; lia). rewrite RTC_DCHECK_true by done. rewrite (data_cells b l (length l)) by (done || lia). cbn [mbind exec_bind].
    rewrite Nat2Z.id. erewrite drop_S by done. done.
  - intros i Hi Hon. unfold RTC_DCHECK at 1. rewrite (proj2 (Z.ltb_ge _ _)) by lia. by rewrite Hon.
Qed.

Lemma values_fmap (x : list T) : values (Some <$> x) = Done x.
Proof using. unfold values. replace (mapM (fun c => c) (Some <$> x)) with (Some x); [done|]. induction x as [|a x IH]; [done|]. cbn. by rewrite <- IH. Qed.

(** Two buffers are equal when their elements are. *)
Lemma equal_run `{EqDecision T} b buf (x y : list T) : holds b (Some <$> x) -> holds buf (Some <$> y) -> equal b buf = Done (bool_decide (x = y)).
Proof using.
  intros Hb Hbuf. unfold equal. rewrite RTC_DCHECK_true by (by eapply holds_consistent). pose proof (h_size _ _ _ Hb) as H1. pose proof (h_size _ _ _ Hbuf) as H2. rewrite length_fmap in H1, H2. rewrite H1, H2.
  destruct (Z.eqb_spec (Z.of_nat (length x)) (Z.of_nat (length y))) as [He|He]; cbn [negb]; [|rewrite bool_decide_false; [done|congruence]].
  assert (forall b z, holds b (Some <$> z) -> length z = length x -> read_cells 0 (Z.of_nat (length x)) (data_ b) = Done (Some <$> z)) as Hread.
  { intros b' z Hb' Hz. destruct (decide (length x = 0%nat)) as [Hx|].
    - rewrite Hx. destruct z; [done|cbn in Hz; lia].
    - rewrite (data_cells b' (Some <$> z) (length (Some <$> z))) by (exact Hb' || (rewrite ?length_fmap; lia)). change (Z.to_nat 0) with 0%nat. rewrite drop_0, take_ge by (rewrite length_fmap; lia). done. }
  rewrite (Hread b x), (Hread buf y) by (done || lia). cbn [mbind exec_bind]. rewrite !values_fmap. done.
Qed.

(** ** Calls *)

(** Several buffers, by number. *)
Inductive call :=
  | CSetData (i : nat) (x : list T) | CAppendData (i : nat) (x : list T)
  | CSetWith (i : nat) (n : Z) (f : setter_function (T := T)) | CAppendWith (i : nat) (n : Z) (f : setter_function (T := T))
  | CSetSize (i : nat) (n : Z) | CEnsureCapacity (i : nat) (n : Z)
  | CClear (i : nat) | CMove (i j : nat) | CSwap (i j : nat).

Definition on (i : nat) (f : BufferT (T := T) -> exec (BufferT (T := T))) (bs : list (BufferT (T := T))) : exec (list (BufferT (T := T))) :=
  b ← defined (bs !! i); b' ← f b; Done (<[i := b']> bs).

Definition run_call (c : call) (bs : list (BufferT (T := T))) : exec (list (BufferT (T := T))) :=
  match c with
  | CSetData i x => on i (SetData size_t sizeof_T ZeroOnFree zero operator_new (External x) (Z.of_nat (length x))) bs
  | CAppendData i x => on i (AppendData size_t sizeof_T ZeroOnFree zero operator_new (External x) (Z.of_nat (length x))) bs
  | CSetWith i n f => on i (fun b => r ← SetData_setter size_t sizeof_T ZeroOnFree zero operator_new n f b; Done r.2) bs
  | CAppendWith i n f => on i (fun b => r ← AppendData_setter size_t sizeof_T ZeroOnFree zero operator_new n f b; Done r.2) bs
  | CSetSize i n => on i (SetSize size_t sizeof_T ZeroOnFree zero operator_new n) bs
  | CEnsureCapacity i n => on i (EnsureCapacity size_t sizeof_T ZeroOnFree zero operator_new n) bs
  | CClear i => on i (Clear ZeroOnFree zero) bs
  | CMove i j =>
      if (i =? j)%nat then on i (move_assign_self ZeroOnFree zero) bs else
      b ← defined (bs !! i); buf ← defined (bs !! j); r ← move_assign ZeroOnFree zero buf b; Done (<[j := r.2]> (<[i := r.1]> bs))
  | CSwap i j =>
      if (i =? j)%nat then on i (fun b => Done b) bs else
      a ← defined (bs !! i); b ← defined (bs !! j); Done (<[j := (swap a b).2]> (<[i := (swap a b).1]> bs))
  end.

Definition run_calls (cs : list call) (bs : list (BufferT (T := T))) : exec (list (BufferT (T := T))) := foldl (fun r c => bs ← r; run_call c bs) (Done bs) cs.

(** *** What the calls mean for the elements *)

Definition contents : Type := list (option (list cell)).

(** The change of the elements of one buffer.  A view of a setter has any cells. *)
Definition changes (c : call) (l l' : list cell) : Prop :=
  match c with
  | CSetData _ x => l' = Some <$> x
  | CAppendData _ x => l' = l ++ (Some <$> x)
  | CSetWith _ n f => exists view, Z.of_nat (length view) = n /\ l' = written f view
  | CAppendWith _ n f => exists view, Z.of_nat (length view) = n /\ l' = l ++ written f view
  | CSetSize _ n => exists r, l' = firstn (Z.to_nat n) l ++ r /\ Z.of_nat (length l') = n /\ (ZeroOnFree = true -> Forall clean r)
  | _ => l' = l
  end.

Definition effect (c : call) (os os' : contents) : Prop :=
  match c with
  | CSetData i _ | CAppendData i _ | CSetWith i _ _ | CAppendWith i _ _ | CSetSize i _ | CEnsureCapacity i _ =>
      exists l l', os !! i = Some (Some l) /\ changes c l l' /\ os' = <[i := Some l']> os
  | CClear i => os' = <[i := Some []]> os
  | CMove i j => if (i =? j)%nat then os' = <[i := None]> os else exists l, os !! j = Some (Some l) /\ os' = <[j := None]> (<[i := Some l]> os)
  | CSwap i j => if (i =? j)%nat then os' = os else exists o p, os !! i = Some o /\ os !! j = Some p /\ os' = <[j := o]> (<[i := p]> os)
  end.

(** The new size is at most [M], setters are honest, and a buffer that was moved from is only
    cleared, assigned to or swapped. *)
Definition permitted (c : call) (os : contents) : Prop :=
  match c with
  | CSetData i x => (exists l, os !! i = Some (Some l)) /\ Z.of_nat (length x) <= M
  | CAppendData i x => exists l, os !! i = Some (Some l) /\ Z.of_nat (length l) + Z.of_nat (length x) <= M
  | CSetWith i n f => (exists l, os !! i = Some (Some l)) /\ 0 <= n <= M /\ honest f
  | CAppendWith i n f => exists l, os !! i = Some (Some l) /\ 0 <= n /\ Z.of_nat (length l) + n <= M /\ honest f
  | CSetSize i n | CEnsureCapacity i n => (exists l, os !! i = Some (Some l)) /\ 0 <= n <= M
  | CClear i => is_Some (os !! i)
  | CMove i j => is_Some (os !! i) /\ exists l, os !! j = Some (Some l)
  | CSwap i j => is_Some (os !! i) /\ is_Some (os !! j)
  end.

Fixpoint effects (cs : list call) (os os' : contents) : Prop :=
  match cs with [] => os' = os | c :: cs => exists o1, effect c os o1 /\ effects cs o1 os' end.

(** Every call is permitted, whatever the earlier ones have left in the cells that they do not write. *)
Fixpoint all_permitted (cs : list call) (os : contents) : Prop :=
  match cs with [] => True | c :: cs => permitted c os /\ forall o1, effect c os o1 -> all_permitted cs o1 end.

Lemma on_run (i : nat) f bs os o (P : option (list cell) -> Prop) : Forall2 stands bs os -> os !! i = Some o ->
  (forall b, stands b o -> exists b' o', f b = Done b' /\ stands b' o' /\ P o') ->
  exists bs' o', on i f bs = Done bs' /\ P o' /\ Forall2 stands bs' (<[i := o']> os).
Proof using.
  intros Hbs Ho Hf. destruct (Forall2_lookup_r _ _ _ _ _ Hbs Ho) as (b & Hb & Hst). destruct (Hf b Hst) as (b' & o' & Hrun & Hst' & HP).
  exists (<[i := b']> bs), o'. unfold on. rewrite Hb. cbn [defined mbind exec_bind]. rewrite Hrun. cbn [mbind exec_bind]. split_and!; [done|done|]. by apply Forall2_insert.
Qed.

Lemma run_call_effect c bs os : Forall2 stands bs os -> permitted c os -> exists bs' os', run_call c bs = Done bs' /\ effect c os os' /\ Forall2 stands bs' os'.
Proof using memory.
  intros Hbs Hp.
  assert (forall i f l, os !! i = Some (Some l) -> (forall b, holds b l -> exists b' l', f b = Done b' /\ holds b' l' /\ changes c l l') ->
    exists bs' os', on i f bs = Done bs' /\ (exists l l', os !! i = Some (Some l) /\ changes c l l' /\ os' = <[i := Some l']> os) /\ Forall2 stands bs' os') as Hone.
  { intros i f l Hl Hf. destruct (on_run i f bs os (Some l) (fun o => exists l', o = Some l' /\ changes c l l') Hbs Hl) as (bs' & o' & Hrun & (l' & -> & Hc) & Hbs').
    - intros b Hb. destruct (Hf b Hb) as (b' & l' & Hb' & Hh & Hc). exists b', (Some l'). eauto.
    - exists bs', (<[i := Some l']> os). eauto 10. }
  destruct c as [i x|i x|i n f|i n f|i n|i n|i|i j|i j]; cbn [permitted run_call effect] in *.
  - destruct Hp as ((l & Hl) & Hx). eapply Hone; [done|]. intros b Hb. destruct (SetData_run b l x Hb Hx) as (b' & ? & ?). cbn. eauto.
  - destruct Hp as (l & Hl & Hx). eapply Hone; [done|]. intros b Hb. destruct (AppendData_run b l (length l) (External x) (Some <$> x) Hb ltac:(lia)) as (b' & Hrun & Hh & _).
    + rewrite length_app, length_fmap. lia.
    + intros b' _ _. rewrite length_fmap. apply External_cells.
    + rewrite length_fmap in Hrun. exists b', (l ++ (Some <$> x)). split_and!; [done| |done]. eapply holds_d_le; [done|]. rewrite length_app. lia.
  - destruct Hp as ((l & Hl) & Hn & Hf). eapply Hone; [done|]. intros b Hb. destruct (SetData_setter_run b l n f Hb Hn Hf) as (b' & view & -> & ? & ?). cbn. eauto 10.
  - destruct Hp as (l & Hl & Hn & HM & Hf). eapply Hone; [done|]. intros b Hb. destruct (AppendData_setter_run b l (length l) n f Hb ltac:(lia) Hn HM Hf) as (b' & view & -> & ? & Hh & _). cbn.
    exists b', (l ++ written f view). split_and!; [done| |eauto]. eapply holds_d_le; [done|]. rewrite length_app. lia.
  - destruct Hp as ((l & Hl) & Hn). eapply Hone; [done|]. intros b Hb. destruct (SetSize_run b l n Hb Hn) as (b' & r & ? & ? & ? & ?). cbn. eauto 10.
  - destruct Hp as ((l & Hl) & Hn). eapply Hone; [done|]. intros b Hb. destruct (EnsureCapacity_run b l n Hb Hn) as (b' & ? & ? & _). cbn. eauto.
  - destruct Hp as [o Ho]. destruct (on_run i (Clear ZeroOnFree zero) bs os o (fun o' => o' = Some []) Hbs Ho) as (bs' & o' & Hrun & -> & Hbs'); [|eauto].
    intros b Hb. destruct (Clear_run b o Hb) as (b' & ? & ?). exists b', (Some []). eauto.
  - destruct Hp as [[o Ho] [l Hl]]. destruct (Nat.eqb_spec i j) as [->|Hij].
    + destruct (on_run j (move_assign_self ZeroOnFree zero) bs os (Some l) (fun o' => o' = None) Hbs Hl) as (bs' & o' & Hrun & -> & Hbs'); [|eauto].
      intros b Hb. destruct (move_assign_self_run b l Hb) as (b' & ? & ?). exists b', None. eauto.
    + destruct (Forall2_lookup_r _ _ _ _ _ Hbs Ho) as (b & -> & Hb). destruct (Forall2_lookup_r _ _ _ _ _ Hbs Hl) as (buf & -> & Hbuf). cbn [defined mbind exec_bind].
      destruct (move_assign_run buf l b o Hbuf Hb) as (b' & buf' & -> & Hb' & Hbuf'). cbn [mbind exec_bind fst snd]. eexists _, _. split_and!; [reflexivity|eauto|]. by repeat apply Forall2_insert.
  - destruct Hp as [[o Ho] [p Hp]]. destruct (Nat.eqb_spec i j) as [->|Hij].
    + destruct (on_run j (fun b => Done b) bs os p (fun o' => o' = p) Hbs Hp) as (bs' & o' & Hrun & -> & Hbs'); [eauto|]. rewrite list_insert_id in Hbs' by done. eauto.
    + destruct (Forall2_lookup_r _ _ _ _ _ Hbs Ho) as (a & -> & Ha). destruct (Forall2_lookup_r _ _ _ _ _ Hbs Hp) as (b & -> & Hb). cbn [defined mbind exec_bind]. destruct (swap_run a b o p Ha Hb).
      eexists _, _. split_and!; [reflexivity|eauto 10|]. by repeat apply Forall2_insert.
Qed.

Lemma run_calls_effects cs bs os : Forall2 stands bs os -> all_permitted cs os -> exists bs' os', run_calls cs bs = Done bs' /\ effects cs os os' /\ Forall2 stands bs' os'.
Proof using memory.
  revert bs os. induction cs as [|c cs IH]; intros bs os Hbs Hp; [by eexists _, _|]. destruct Hp as [Hc Hcs]. destruct (run_call_effect c bs os Hbs Hc) as (b1 & o1 & Hrun & He & Hb1).
  destruct (IH b1 o1 Hb1 (Hcs o1 He)) as (b2 & o2 & Hrun2 & He2 & Hb2). exists b2, o2. split_and!; [|cbn; eauto|done]. unfold run_calls in *. cbn [foldl mbind exec_bind]. by rewrite Hrun.
Qed.

Lemma empty_buffer_holds b : BufferT_empty = Done b -> holds b [].
Proof using memory. intros H. pose proof M_le_max. unfold BufferT_empty in H. rewrite RTC_DCHECK_true in H by done. injection H as <-. split; cbn; (done || lia). Qed.

(** Beyond its elements a buffer has nothing to hide. *)
Definition unused_clean (b : BufferT (T := T)) : Prop :=
  match data_ b with Some m => Forall clean (skipn (Z.to_nat (size_ b)) m) | None => True end.

Lemma stands_unused b o : ZeroOnFree = true -> stands b o -> unused_clean b.
Proof using.
  intros Hz Hb. unfold unused_clean. destruct (data_ b) as [m|] eqn:Em; [|done]. destruct o as [l|]; [|pose proof (m_data _ Hb); congruence].
  rewrite (h_size _ _ _ Hb), Nat2Z.id. pose proof (h_data _ _ _ Hb) as Hd. rewrite Em in Hd. destruct Hd as (_ & _ & Hcl). apply Forall_lookup. intros i c Hi. rewrite lookup_drop in Hi. apply (Hcl Hz _ c Hi). lia.
Qed.

End Contents.

(** ** Properties *)

(** C15: Any sequence of permitted calls on any number of buffers, moves and swaps included,
    runs without failing a check and without an access outside the memory, and has the effect
    of the same calls on lists; what the buffers then show are these lists. *)
Theorem buffer_calls {T} {build : Build} size_t sizeof_T ZeroOnFree (zero : T) operator_new M cs bs os :
  Memory size_t sizeof_T operator_new M -> Forall2 (stands ZeroOnFree zero M) bs os -> all_permitted ZeroOnFree zero M cs os ->
  exists bs' os', run_calls size_t sizeof_T ZeroOnFree zero operator_new cs bs = Done bs' /\ effects ZeroOnFree zero cs os os' /\ Forall2 (stands ZeroOnFree zero M) bs' os' /\
    (forall i b l, bs' !! i = Some b -> os' !! i = Some (Some l) -> shows b l).
Proof.
  intros Hmem Hbs Hp. destruct (run_calls_effects size_t sizeof_T ZeroOnFree zero operator_new M cs bs os Hbs Hp) as (bs' & os' & Hrun & He & Hbs'). exists bs', os'. split_and!; try done.
  intros i b l Hb Ho. pose proof (Forall2_lookup_lr _ _ _ _ _ _ Hbs' Hb Ho) as Hst. by eapply holds_shows.
Qed.

(** Memory up to a limit. *)
Definition small_memory (n : Z) : bool := n <=? 100000.

Lemma small_memory_ok : Memory Uint64 4 small_memory 1000.
Proof.
  split; [done|lia|lia| |].
  - unfold max_capacity, small_memory. intros c Hc. change (1000 + 1000 / 2) with 1500 in Hc. apply Z.leb_le. lia.
  - unfold small_memory. intros n Hn%Z.leb_le. change (IntTypes.max (make_signed Uint64)) with 9223372036854775807. lia.
Qed.

(** A setter that writes two elements if there is place for them. *)
Definition two_elements (view : list (option Z)) : list (option Z) * Z :=
  match view with _ :: _ :: r => (Some 8 :: Some 9 :: r, 2) | _ => (view, 0) end.

Lemma two_elements_honest : honest two_elements.
Proof. intros [|x [|y view]]; cbn; (split_and!; [done|lia|lia|done]). Qed.

Definition sample_calls : list (call (T := Z)) := [CSetData 0 [1; 2; 3]; CAppendData 0 [4]; CSetWith 1 5 two_elements; CMove 1 0; CClear 0; CSwap 0 1; CSetSize 0 2].

Lemma sample_permitted : all_permitted true 0 1000 sample_calls [Some []; Some []].
Proof.
  cbn. split_and!; [eauto|lia|]. intros o1 (l & l' & [= <-] & -> & ->). split_and!; [eexists; split; [done|cbn; lia]|]. intros o2 (l & l' & [= <-] & -> & ->).
  split_and!; [eauto|lia|lia|apply two_elements_honest|]. intros o3 (l & l' & [= <-] & (view & Hv & ->) & ->). split_and!; [eauto|eauto|]. intros o4 (l & [= <-] & ->).
  split_and!; [eauto|]. intros o5 ->. split_and!; [eauto|eauto|]. intros o6 (o & p & [= <-] & [= <-] & ->). split_and!; [eauto|lia|lia|done].
Qed.

Lemma buffer_calls_witness (build := {| rtc_dcheck_is_on := true; assert_is_on := true; sizeof_int_ptr := 8 |}) :
  exists bs' os', run_calls Uint64 4 true 0 small_memory sample_calls [mkBuffer 0 0 None 0 0 []; mkBuffer 0 0 None 0 0 []] = Done bs' /\ effects true 0 sample_calls [Some []; Some []] os' /\
    Forall2 (stands true 0 1000) bs' os' /\ (forall i b l, bs' !! i = Some b -> os' !! i = Some (Some l) -> shows b l).
Proof.
  assert (stands (build := build) true 0 1000 (mkBuffer 0 0 None 0 0 []) (Some [])) as Hb by (apply (empty_buffer_holds Uint64 4 true 0 small_memory 1000 (memory := small_memory_ok)); done).
  apply (buffer_calls Uint64 4 true 0 small_memory 1000 sample_calls); [exact small_memory_ok|constructor; [exact Hb|constructor; [exact Hb|constructor]]|exact sample_permitted].
Defined.

(** C16: A buffer with [ZeroOnFree], after any sequence of permitted calls, has nothing but
    zeros and cells that were not written in its unused capacity; when it is destroyed, every
    block of memory that was ever given back was zero throughout. *)
Theorem zero_on_free {T} {build : Build} size_t sizeof_T (zero : T) operator_new M n cs :
  Memory size_t sizeof_T operator_new M -> all_permitted true zero M cs (replicate n (Some [])) ->
  exists b0 bs, BufferT_empty = Done b0 /\ run_calls size_t sizeof_T true zero operator_new cs (replicate n b0) = Done bs /\
    Forall (fun b => unused_clean zero b /\ exists b', destructor true zero b = Done b' /\ data_ b' = None /\ Forall (Forall (eq (Some zero))) (freed b')) bs.
Proof.
  intros Hmem Hp. assert (exists b0, BufferT_empty (T := T) = Done b0) as [b0 Hb0] by (unfold BufferT_empty; rewrite RTC_DCHECK_true by done; eauto). exists b0.
  pose proof (empty_buffer_holds size_t sizeof_T true zero operator_new M b0 Hb0) as Hh.
  destruct (run_calls_effects size_t sizeof_T true zero operator_new M cs (replicate n b0) (replicate n (Some []))) as (bs & os & Hrun & _ & Hbs); [|done|].
  - clear Hp. induction n; cbn; constructor; done.
  - exists bs. split_and!; [done|done|]. clear Hrun. induction Hbs as [|b o bs os Hb Hbs IH]; constructor; [|done]. split; [by eapply stands_unused|].
    destruct (destructor_run true zero M b o Hb) as (b' & ? & ? & Hf). exists b'. auto.
Qed.

Lemma zero_on_free_witness (build := {| rtc_dcheck_is_on := false; assert_is_on := false; sizeof_int_ptr := 8 |}) :
  exists b0 bs, BufferT_empty = Done b0 /\ run_calls Uint64 4 true 0 small_memory sample_calls (replicate 2 b0) = Done bs /\
    Forall (fun b => unused_clean 0 b /\ exists b', destructor true 0 b = Done b' /\ data_ b' = None /\ Forall (Forall (eq (Some 0))) (freed b')) bs.
Proof. apply (zero_on_free Uint64 4 0 small_memory 1000 2 sample_calls); [exact small_memory_ok|exact sample_permitted]. Defined.

(** Elements of the buffer itself are appended when there is room for them; when the
    memory must grow they are copied from the block that was given back, and the call is
    undefined. *)
Theorem append_own {T} {build : Build} size_t sizeof_T ZeroOnFree (zero : T) operator_new M b l off n :
  Memory size_t sizeof_T operator_new M -> holds ZeroOnFree zero M b l -> 0 <= off -> 0 < n -> off + n <= Z.of_nat (length l) -> Z.of_nat (length l) + n <= M ->
  let r := AppendData size_t sizeof_T ZeroOnFree zero operator_new (Own (address b) off) n b in
  if Z.of_nat (length l) + n <=? capacity_ b then exists b', r = Done b' /\ holds ZeroOnFree zero M b' (l ++ firstn (Z.to_nat n) (skipn (Z.to_nat off) l)) else r = Undef.
Proof.
  intros Hmem Hb Hoff Hn Hle HM r. destruct (Z.leb_spec (Z.of_nat (length l) + n) (capacity_ b)).
  - eapply AppendData_own; (done || lia).
  - eapply AppendData_own_grows; (done || lia).
Qed.

(** A buffer of two elements has no room for itself. *)
Lemma append_own_witness (build := {| rtc_dcheck_is_on := true; assert_is_on := true; sizeof_int_ptr := 8 |}) :
  let b := mkBuffer 2 2 (Some [Some 5; Some 6]) 1 1 [] in
  let r := AppendData Uint64 4 false 0 small_memory (Own (address b) 0) 2 b in
  if Z.of_nat (length [Some 5; Some 6]) + 2 <=? capacity_ b then exists b', r = Done b' /\ holds false 0 1000 b' ([Some 5; Some 6] ++ firstn (Z.to_nat 2) (skipn (Z.to_nat 0) [Some 5; Some 6])) else r = Undef.
Proof.
  apply (append_own Uint64 4 false 0 small_memory 1000 (mkBuffer 2 2 (Some [Some 5; Some 6]) 1 1 []) [Some 5; Some 6] 0 2); [exact small_memory_ok| |lia|lia|cbn; lia|cbn; lia].
  split; cbn; (done || lia).
Defined.

(** A buffer that is moved to itself has lost its elements: with the checks on, it may not even
    be asked for its size. *)
Example move_to_itself (build := {| rtc_dcheck_is_on := true; assert_is_on := true; sizeof_int_ptr := 8 |}) :
  (b ← move_assign_self false 0 (mkBuffer 2 2 (Some [Some 5; Some 6]) 1 1 []); size b) = Fatal.
Proof. reflexivity. Qed.
