(* ===== verification/FlatTree.v ===== *)
(** * FlatTree: base/containers/flat_tree.h, flat_map.h and flat_set.h

    [flat_tree] is a vector that is kept in order; [flat_set] is the one whose keys are its
    values, [flat_map] the one whose values are pairs.  An iterator is the index of its element,
    the size of the vector at the end.

    The algorithms of the standard library are undefined where it asks for more than there is:
    [std::lower_bound] for a range that is not partitioned, [std::inplace_merge] for
    one that is not two ranges in order, an iterator that is dereferenced or erased at the end.
    [DCHECK] is on in the builds in which [RTC_DCHECK] is. *)

From S2P Require Import Prelude.
From Stdlib Require Import Permutation Sorted.
From stdpp Require Import sorting.
Open Scope nat_scope.
Open Scope list_scope.

(** ** Algorithms of the standard library *)

Section Algorithms.
Context {A : Type}.
Implicit Types l : list A.

(** The index of the first element that is not [p]. *)
Fixpoint partition_point (p : A -> bool) l : nat :=
  match l with [] => 0 | x :: l => if p x then Datatypes.S (partition_point p l) else 0 end.

Definition is_partitioned (p : A -> bool) l : bool := forallb (fun x => negb (p x)) (skipn (partition_point p l) l).

Definition std_partition_point (p : A -> bool) l : exec nat := if is_partitioned p l then Done (partition_point p l) else Undef.

(** [std::lower_bound] and [std::upper_bound], for the comparison of an element with the key. *)
Definition std_lower_bound {K} (comp : A -> K -> bool) (key : K) l : exec nat := std_partition_point (fun x => comp x key) l.
Definition std_upper_bound {K} (comp : K -> A -> bool) (key : K) l : exec nat := std_partition_point (fun x => negb (comp key x)) l.

Context (comp : A -> A -> bool).

Fixpoint insert_before (x : A) l : list A :=
  match l with [] => [x] | y :: k => if comp y x then y :: insert_before x k else x :: l end.

Definition stable_sort l : list A := fold_right insert_before [] l.

(** [std::is_sorted]: no element is before the one in front of it. *)
Fixpoint is_sorted l : bool :=
  match l with x :: ((y :: _) as k) => negb (comp y x) && is_sorted k | _ => true end.

(** [std::merge], which takes the first range when it has the choice. *)
Fixpoint merge l : list A -> list A :=
  fix merge_second (k : list A) : list A :=
    match l, k with
    | [], _ => k
    | _, [] => l
    | x :: l', y :: k' => if comp y x then y :: merge_second k' else x :: merge l' k
    end.

(** [std::inplace_merge] of the elements before and from [middle] on. *)
Definition inplace_merge (middle : nat) l : exec (list A) :=
  if is_sorted (firstn middle l) && is_sorted (skipn middle l) then Done (merge (firstn middle l) (skipn middle l)) else Undef.

End Algorithms.

Section Unique.
Context {A : Type} (equal : A -> A -> bool).

(** [std::unique]: an element that is equal to the last one that was kept is left out. *)
Fixpoint unique_after (kept : A) (l : list A) : list A :=
  match l with [] => [] | x :: l => if equal kept x then unique_after kept l else x :: unique_after x l end.

Definition std_unique (l : list A) : list A := match l with [] => [] | x :: l => x :: unique_after x l end.

(** [std::adjacent_find] finds nothing. *)
Fixpoint no_adjacent (l : list A) : bool :=
  match l with x :: ((y :: _) as k) => negb (equal x y) && no_adjacent k | _ => true end.

End Unique.

(** ** flat_tree *)

Section FlatTree.
Context {Key Value : Type} {build : Build} (GetKeyFromValue : Value -> Key) (key_comp : Key -> Key -> bool).

Definition value_comp (left right : Value) : bool := key_comp (GetKeyFromValue left) (GetKeyFromValue right).

(** [impl_.body_]. *)
Abbreviation flat_tree := (list Value).

Implicit Types t : flat_tree.

Definition size t : nat := length t.
Definition dereference (it : nat) t : exec Value := defined (t !! it).

(** *** Search *)

Definition lower_bound (key : Key) t : exec nat := std_lower_bound (fun v k => key_comp (GetKeyFromValue v) k) key t.
Definition upper_bound (key : Key) t : exec nat := std_upper_bound (fun k v => key_comp k (GetKeyFromValue v)) key t.

(** [it == end() || key_comp()(key, extractor( *it))]. *)
Definition end_or_before (it : nat) (key : Key) t : exec bool :=
  if it =? size t then Done true else v ← dereference it t; Done (key_comp key (GetKeyFromValue v)).

Definition equal_range (key : Key) t : exec (nat * nat) :=
  lower ← lower_bound key t;
  absent ← end_or_before lower key t;
  if (absent : bool) then Done (lower, lower) else Done (lower, lower + 1).

Definition count (key : Key) t : exec nat := r ← equal_range key t; Done (r.2 - r.1).

Definition find (key : Key) t : exec nat := r ← equal_range key t; Done (if r.1 =? r.2 then size t else r.1).

Definition contains (key : Key) t : exec bool :=
  lower ← lower_bound key t;
  if lower =? size t then Done false else v ← dereference lower t; Done (negb (key_comp key (GetKeyFromValue v))).

(** *** Insertion *)

Definition unsafe_emplace (position : nat) (v : Value) t : exec (nat * flat_tree) :=
  if position <=? size t then Done (position, firstn position t ++ v :: skipn position t) else Undef.

Definition emplace_key_args (key : Key) (v : Value) t : exec (nat * bool * flat_tree) :=
  lower ← lower_bound key t;
  absent ← end_or_before lower key t;
  if (absent : bool) then r ← unsafe_emplace lower v t; Done (r.1, true, r.2) else Done (lower, false, t).

Definition emplace_hint_key_args (hint : nat) (key : Key) (v : Value) t : exec (nat * bool * flat_tree) :=
  after_previous ← (if hint =? 0 then Done true else x ← dereference (hint - 1) t; Done (key_comp (GetKeyFromValue x) key));
  if (after_previous : bool) then
    before ← end_or_before hint key t;
    if (before : bool) then r ← unsafe_emplace hint v t; Done (r.1, true, r.2) else
    x ← dereference hint t;
    if negb (key_comp (GetKeyFromValue x) key) then Done (hint, false, t) else emplace_key_args key v t
  else emplace_key_args key v t.

Definition insert (v : Value) t : exec (nat * bool * flat_tree) := emplace_key_args (GetKeyFromValue v) v t.

Definition insert_hint (position_hint : nat) (v : Value) t : exec (nat * flat_tree) :=
  r ← emplace_hint_key_args position_hint (GetKeyFromValue v) v t; Done (r.1.1, r.2).

Definition insert_or_assign (v : Value) t : exec (nat * bool * flat_tree) :=
  position ← lower_bound (GetKeyFromValue v) t;
  absent ← end_or_before position (GetKeyFromValue v) t;
  if (absent : bool) then r ← unsafe_emplace position v t; Done (r.1, true, r.2) else Done (position, false, <[position := v]> t).

(** Only the elements before [last] are searched; a new one goes to the end. *)
Definition append_unique (last : nat) (v : Value) t : exec (nat * bool * flat_tree) :=
  position ← std_lower_bound value_comp v (firstn last t);
  absent ← (if position =? last then Done true else x ← dereference position t; Done (value_comp v x));
  if (absent : bool) then Done (position, true, t ++ [v]) else Done (position, false, t).

Definition append_or_assign (last : nat) (v : Value) t : exec (nat * bool * flat_tree) :=
  position ← std_lower_bound value_comp v (firstn last t);
  absent ← (if position =? last then Done true else x ← dereference position t; Done (value_comp v x));
  if (absent : bool) then Done (position, true, t ++ [v]) else Done (position, false, <[position := v]> t).

(** From [first] to the end. *)
Definition sort_and_unique (first : nat) t : flat_tree :=
  firstn first t ++ std_unique (fun lhs rhs => negb (value_comp lhs rhs)) (stable_sort value_comp (skipn first t)).

Fixpoint append_range (middle pos_first_new : nat) (range : list Value) t : exec (nat * flat_tree) :=
  match range with
  | [] => Done (pos_first_new, t)
  | v :: range =>
      r ← append_unique middle v t;
      append_range middle (if (r.1.2 : bool) then Nat.min pos_first_new r.1.1 else pos_first_new) range r.2
  end.

(** A range of values; [is_multipass] tells of its iterators. *)
Definition insert_range (is_multipass : bool) (range : list Value) t : exec flat_tree :=
  match range with
  | [] => Done t
  | v :: rest =>
      if is_multipass && (length range =? 1) then r ← insert_hint (size t) v t; Done r.2 else
      r ← append_range (size t) (size t) range t;
      let t1 := sort_and_unique (size t) r.2 in
      merged ← inplace_merge value_comp (size t - r.1) (skipn r.1 t1);
      Done (firstn r.1 t1 ++ merged)
  end.

(** Construction from, and assignment of, values in any order. *)
Definition flat_tree_of (items : list Value) : flat_tree := sort_and_unique 0 items.

(** *** Erasure and the vector itself *)

Definition erase_at (position : nat) t : exec (nat * flat_tree) :=
  RTC_CHECK (negb (position =? size t)) (if position <? size t then Done (position, delete position t) else Undef).

Definition erase_range (first last : nat) t : exec flat_tree :=
  if (first <=? last) && (last <=? size t) then Done (firstn first t ++ skipn last t) else Undef.

Definition erase (key : Key) t : exec (nat * flat_tree) :=
  r ← equal_range key t; t ← erase_range r.1 r.2 t; Done (r.2 - r.1, t).

(** [std::remove_if] leaves what is kept in front. *)
Definition EraseIf (pred : Value -> bool) t : exec (nat * flat_tree) :=
  let kept := List.filter (fun v => negb (pred v)) t in
  Done (size t - length kept, kept).

Definition extract t : list Value * flat_tree := (t, []).

Definition replace (body : list Value) t : exec flat_tree :=
  RTC_DCHECK (is_sorted value_comp body) (RTC_DCHECK (no_adjacent (fun lhs rhs => negb (value_comp lhs rhs)) body) (Done body)).

Definition clear t : flat_tree := [].

End FlatTree.

(** ** flat_map *)

Section FlatMap.
Context {Key Mapped : Type} (key_comp : Key -> Key -> bool) (mapped_type : Mapped).

Abbreviation value_type := (Key * Mapped)%type.
Implicit Types t : list value_type.

(** The second of the pair. *)
Definition set_second (it : nat) (m : Mapped) t : list value_type := alter (fun v : value_type => (v.1, m)) it t.

Definition map_at (key : Key) t : exec Mapped :=
  found ← find fst key_comp key t;
  RTC_CHECK (negb (found =? size t)) (v ← dereference found t; Done v.2).

(** [operator[]], what it refers to. *)
Definition subscript (key : Key) t : exec (nat * list value_type) :=
  found ← lower_bound fst key_comp key t;
  absent ← end_or_before fst key_comp found key t;
  if (absent : bool) then unsafe_emplace found (key, mapped_type) t else Done (found, t).

Definition map_insert_or_assign (key : Key) (m : Mapped) t : exec (nat * bool * list value_type) :=
  result ← emplace_key_args fst key_comp key (key, m) t;
  Done (result.1.1, result.1.2, if (result.1.2 : bool) then result.2 else set_second result.1.1 m result.2).

Definition map_insert_or_assign_hint (hint : nat) (key : Key) (m : Mapped) t : exec (nat * list value_type) :=
  result ← emplace_hint_key_args fst key_comp hint key (key, m) t;
  Done (result.1.1, if (result.1.2 : bool) then result.2 else set_second result.1.1 m result.2).

Definition try_emplace (key : Key) (m : Mapped) t : exec (nat * bool * list value_type) := emplace_key_args fst key_comp key (key, m) t.
Definition try_emplace_hint (hint : nat) (key : Key) (m : Mapped) t : exec (nat * list value_type) :=
  r ← emplace_hint_key_args fst key_comp hint key (key, m) t; Done (r.1.1, r.2).

End FlatMap.

(** ** Order *)

(** What is asked of a comparison of keys. *)
Class StrictWeakOrder {K : Type} (lt : K -> K -> bool) : Prop := {
  lt_irrefl a : lt a a = false;
  lt_trans a b c : lt a b = true -> lt b c = true -> lt a c = true;
  lt_cotrans a b c : lt a b = true -> lt a c = true \/ lt c b = true
}.

Section Order.
Context {Key Value : Type} {build : Build} (GetKeyFromValue : Value -> Key) (key_comp : Key -> Key -> bool) {order : StrictWeakOrder key_comp}.
Abbreviation value_comp := (value_comp GetKeyFromValue key_comp).
Abbreviation GetKey := GetKeyFromValue.
Implicit Types (t l : list Value) (k : Key) (v w : Value).

Lemma lt_asym a b : key_comp a b = true -> key_comp b a = false.
Proof using order. intros H. destruct (key_comp b a) eqn:E; [|done]. pose proof (lt_trans _ _ _ H E) as Ha. by rewrite lt_irrefl in Ha. Qed.

(** A value whose key is neither before nor behind. *)
Definition equiv k v : bool := negb (key_comp k (GetKey v)) && negb (key_comp (GetKey v) k).

Lemma equiv_true k v : equiv k v = true <-> key_comp k (GetKey v) = false /\ key_comp (GetKey v) k = false.
Proof using. unfold equiv. rewrite andb_true_iff, !negb_true_iff. done. Qed.

Lemma equiv_refl v : equiv (GetKey v) v = true.
Proof using order. apply equiv_true. by rewrite lt_irrefl. Qed.

Lemma equiv_sym v w : equiv (GetKey v) w = equiv (GetKey w) v.
Proof using. unfold equiv. apply andb_comm. Qed.

(** Equivalent keys compare alike with every key. *)
Lemma equiv_lt k v c : equiv k v = true -> key_comp k c = key_comp (GetKey v) c /\ key_comp c k = key_comp c (GetKey v).
Proof using order.
  intros [H1 H2]%equiv_true. split; apply bool_eq_iff; split; intros H.
  - destruct (lt_cotrans _ _ (GetKey v) H); congruence.
  - destruct (lt_cotrans _ _ k H); congruence.
  - destruct (lt_cotrans _ _ (GetKey v) H); congruence.
  - destruct (lt_cotrans _ _ k H); congruence.
Qed.

Lemma equiv_equiv k v w : equiv k v = true -> equiv k w = equiv (GetKey v) w.
Proof using order. intros H. unfold equiv. by destruct (equiv_lt k v (GetKey w) H) as [-> ->]. Qed.

(** The first value with the key. *)
Definition key_find k l : option Value := List.find (equiv k) l.

Lemma key_find_cons k v l : key_find k (v :: l) = if equiv k v then Some v else key_find k l.
Proof using. done. Qed.

Lemma key_find_app k l1 l2 : key_find k (l1 ++ l2) = match key_find k l1 with Some v => Some v | None => key_find k l2 end.
Proof using. induction l1 as [|x l1 IH]; [done|]. cbn. by destruct (equiv k x). Qed.

Lemma key_find_None k l : key_find k l = None <-> Forall (fun v => equiv k v = false) l.
Proof using. induction l as [|x l IH]; cbn; [split; [constructor|done]|]. destruct (equiv k x) eqn:E; [split; [done|intros H; inversion H; congruence]|]. rewrite IH. split; [by constructor|intros H; by inversion H]. Qed.

Lemma key_find_Some k l v : key_find k l = Some v -> equiv k v = true.
Proof using. unfold key_find. intros H. by apply List.find_some in H as [_ H]. Qed.

(** *** Values with different keys *)

Definition distinct l : Prop := StronglySorted (fun v w => equiv (GetKey v) w = false) l.

Lemma distinct_perm l1 l2 : l1 ≡ₚ l2 -> distinct l1 -> distinct l2.
Proof using.
  unfold distinct. induction 1 as [|x l1 l2 Hp IH|x y l|l1 l2 l3 _ IH1 _ IH2]; [done| | |auto].
  - intros [H1 H2]%StronglySorted_inv. constructor; [auto|]. by rewrite <- Hp.
  - intros [[H1 H2]%StronglySorted_inv H3]%StronglySorted_inv. inversion H3 as [|? ? Hxy H4]; subst. constructor; [by constructor|]. constructor; [by rewrite equiv_sym|done].
Qed.

Lemma key_find_perm k l1 l2 : l1 ≡ₚ l2 -> distinct l1 -> key_find k l1 = key_find k l2.
Proof using order.
  unfold distinct. induction 1 as [|x l1 l2 Hp IH|x y l|l1 l2 l3 Ha IH1 Hb IH2]; intros Hd; [done| | |].
  - apply StronglySorted_inv in Hd as [Hd _]. cbn. destruct (equiv k x); [done|]. by apply IH.
  - apply StronglySorted_inv in Hd as [_ Hd]. inversion Hd as [|? ? Hxy _]; subst. cbn. destruct (equiv k x) eqn:Ex, (equiv k y) eqn:Ey; try done. rewrite (equiv_equiv k y x Ey) in Ex. congruence.
  - rewrite IH1 by done. apply IH2. by eapply distinct_perm.
Qed.

(** Values with different keys are determined by what is found. *)
Lemma same_find_perm l1 l2 : distinct l1 -> distinct l2 -> (forall k, key_find k l1 = key_find k l2) -> l1 ≡ₚ l2.
Proof using order.
  revert l2. induction l1 as [|v l1 IH]; intros l2 H1 H2 Hf.
  - destruct l2 as [|w l2]; [done|]. specialize (Hf (GetKey w)). cbn in Hf. by rewrite equiv_refl in Hf.
  - assert (key_find (GetKey v) l2 = Some v) as Hv by (rewrite <- Hf; cbn; by rewrite equiv_refl).
    assert (In v l2) as (a & b & ->)%in_split by (by apply List.find_some in Hv as [Hv _]).
    assert (distinct (v :: a ++ b)) as Hd2 by (eapply distinct_perm; [symmetry; apply Permutation_middle|done]).
    apply StronglySorted_inv in H1 as [H1 Hv1]. rewrite <- Permutation_middle. f_equiv. apply IH; [done|by apply StronglySorted_inv in Hd2 as [? _]|].
    intros k. specialize (Hf k). rewrite (key_find_perm k (a ++ v :: b) (v :: a ++ b)) in Hf by (done || (symmetry; apply Permutation_middle)). cbn in Hf. destruct (equiv k v) eqn:E; [|done].
    assert (key_find k l1 = None) as ->. { apply key_find_None. eapply List.Forall_impl; [|exact Hv1]. intros w Hw. by rewrite (equiv_equiv k v w E). }
    symmetry. apply key_find_None. apply StronglySorted_inv in Hd2 as [_ Hd2]. eapply List.Forall_impl; [|exact Hd2]. intros w Hw. by rewrite (equiv_equiv k v w E).
Qed.

(** *** Values in order *)

Definition ordered t : Prop := StronglySorted (fun v w => value_comp v w = true) t.

Lemma before_different v w : value_comp v w = true -> equiv (GetKey v) w = false.
Proof using. unfold FlatTree.value_comp, equiv. by intros ->. Qed.

Lemma ordered_distinct t : ordered t -> distinct t.
Proof using. unfold ordered, distinct. induction 1 as [|v t _ IH Hall]; constructor; [done|]. eapply List.Forall_impl; [|exact Hall]. intros w. apply before_different. Qed.

Lemma ordered_perm t1 t2 : ordered t1 -> ordered t2 -> t1 ≡ₚ t2 -> t1 = t2.
Proof using order.
  intros. apply (StronglySorted_unique_strong (fun v w => value_comp v w = true)); [|done..]. intros x y _ _ Hxy Hyx. unfold FlatTree.value_comp in *. rewrite (lt_asym _ _ Hxy) in Hyx. done.
Qed.

Lemma ordered_filter p t : ordered t -> ordered (List.filter p t).
Proof using.
  unfold ordered. induction 1 as [|v t _ IH Hall]; cbn; [constructor|]. destruct (p v); [|done]. constructor; [done|]. apply List.Forall_forall. intros w [Hw _]%List.filter_In. by eapply List.Forall_forall in Hall.
Qed.

(** A change that keeps the keys keeps the order. *)
Lemma ordered_map f t : (forall v, In v t -> equiv (GetKey v) (f v) = true) -> ordered t -> ordered (map f t).
Proof using order.
  unfold ordered. intros Hf Ht. induction Ht as [|v t _ IH Hall]; cbn; constructor.
  - apply IH. intros w Hw. apply Hf. by right.
  - apply List.Forall_forall. intros x (w & <- & Hw)%in_map_iff. eapply List.Forall_forall in Hall; [|exact Hw]. unfold FlatTree.value_comp in *.
    destruct (equiv_lt _ _ (GetKey (f w)) (Hf v ltac:(by left))) as [<- _]. by destruct (equiv_lt _ _ (GetKey v) (Hf w ltac:(by right))) as [_ <-].
Qed.

(** *** Bounds *)

Lemma partition_ordered (p : Value -> bool) t : ordered t -> (forall v w, value_comp v w = true -> p w = true -> p v = true) ->
  is_partitioned p t = true /\ partition_point p t <= length t /\ (forall i v, t !! i = Some v -> p v = (i <? partition_point p t)).
Proof using.
  unfold ordered, is_partitioned. intros Ht Hp. induction Ht as [|x t _ (IH1 & IH2 & IH3) Hall]; [cbn; split_and!; [done|lia|done]|]. cbn [partition_point]. destruct (p x) eqn:Ex.
  - cbn [skipn length]. split_and!; [done|lia|]. intros [|i] v Hi; cbn in Hi; [by simplify_eq|]. apply (IH3 i v Hi).
  - cbn [skipn length]. assert (forall v, In v t -> p v = false) as Hno. { intros v Hv. destruct (p v) eqn:E; [|done]. eapply List.Forall_forall in Hall; [|exact Hv]. by rewrite (Hp x v Hall E) in Ex. }
    split_and!; [|lia|].
    + cbn. rewrite Ex. cbn. apply forallb_forall. intros v Hv. by rewrite (Hno v Hv).
    + intros [|i] v Hi; cbn in Hi; [by simplify_eq|]. rewrite Hno; [done|]. by eapply list_elem_of_In, list_elem_of_lookup_2.
Qed.

(** How many values are before the key. *)
Definition rank k t : nat := partition_point (fun v => key_comp (GetKey v) k) t.

Lemma before_closed k v w : value_comp v w = true -> key_comp (GetKey w) k = true -> key_comp (GetKey v) k = true.
Proof using order. unfold FlatTree.value_comp. apply lt_trans. Qed.

Lemma lower_bound_run k t : ordered t -> lower_bound GetKey key_comp k t = Done (rank k t).
Proof using order. intros Ht. unfold lower_bound, std_lower_bound, std_partition_point. by destruct (partition_ordered _ t Ht (before_closed k)) as (-> & _). Qed.

Lemma rank_le k t : ordered t -> rank k t <= length t.
Proof using order. intros Ht. apply (partition_ordered _ t Ht (before_closed k)). Qed.

Lemma rank_spec k t i v : ordered t -> t !! i = Some v -> key_comp (GetKey v) k = (i <? rank k t).
Proof using order. intros Ht. apply (partition_ordered _ t Ht (before_closed k)). Qed.

Lemma upper_bound_run k t : ordered t -> upper_bound GetKey key_comp k t = Done (partition_point (fun v => negb (key_comp k (GetKey v))) t).
Proof using order.
  intros Ht. unfold upper_bound, std_upper_bound, std_partition_point. destruct (partition_ordered (fun v => negb (key_comp k (GetKey v))) t Ht) as (-> & _); [|done].
  intros v w Hvw Hw. apply negb_true_iff in Hw. apply negb_true_iff. destruct (key_comp k (GetKey v)) eqn:E; [|done]. unfold FlatTree.value_comp in Hvw. by rewrite (lt_trans _ _ _ E Hvw) in Hw.
Qed.

(** The key is at its rank or nowhere. *)
Lemma key_find_rank k t : ordered t -> key_find k t = match t !! rank k t with Some v => if key_comp k (GetKey v) then None else Some v | None => None end.
Proof using order.
  unfold ordered, rank. induction 1 as [|x t Ht IH Hall]; [done|]. cbn. unfold equiv at 1. destruct (key_comp (GetKey x) k) eqn:Ex; [by rewrite andb_false_r|]. rewrite andb_true_r. cbn.
  destruct (key_comp k (GetKey x)) eqn:E; cbn; [|done]. apply key_find_None. eapply List.Forall_impl; [|exact Hall]. intros w Hw. unfold equiv, FlatTree.value_comp in *. by rewrite (lt_trans _ _ _ E Hw).
Qed.

Lemma end_or_before_run k t : ordered t -> end_or_before GetKey key_comp (rank k t) k t = Done (match key_find k t with None => true | Some _ => false end).
Proof using order.
  intros Ht. rewrite key_find_rank by done. unfold end_or_before, dereference. pose proof (rank_le k t Ht). unfold size. destruct (Nat.eqb_spec (rank k t) (length t)) as [E|E].
  - rewrite (proj2 (lookup_ge_None t (rank k t))) by lia. done.
  - destruct (lookup_lt_is_Some_2 t (rank k t)) as [v Hv]; [lia|]. rewrite Hv. cbn [defined mbind exec_bind]. by destruct (key_comp k (GetKey v)).
Qed.

Lemma found_at_rank k t v : ordered t -> key_find k t = Some v -> t !! rank k t = Some v.
Proof using order. intros Ht H. rewrite key_find_rank in H by done. destruct (t !! rank k t) as [w|]; [|done]. destruct (key_comp k (GetKey w)); congruence. Qed.

(** ** The operations on values in order *)

(** *** Insertion *)

Lemma insert_before_perm v t : insert_before value_comp v t ≡ₚ v :: t.
Proof using. induction t as [|x t IH]; cbn; [done|]. destruct (value_comp x v); [|done]. rewrite IH. apply perm_swap. Qed.

Lemma insert_before_rank v t : firstn (rank (GetKey v) t) t ++ v :: skipn (rank (GetKey v) t) t = insert_before value_comp v t.
Proof using. unfold rank. induction t as [|x t IH]; [done|]. cbn. unfold FlatTree.value_comp at 1. destruct (key_comp (GetKey x) (GetKey v)); cbn; [by rewrite IH|done]. Qed.

Lemma insert_before_ordered v t : ordered t -> key_find (GetKey v) t = None -> ordered (insert_before value_comp v t).
Proof using order.
  unfold ordered. induction 1 as [|x t Ht IH Hall]; cbn; [repeat constructor|]. unfold equiv. destruct (value_comp x v) eqn:Ex.
  - assert (key_comp (GetKey x) (GetKey v) = true) as -> by done. rewrite andb_false_r. intros Hn. constructor; [by apply IH|]. rewrite insert_before_perm. by constructor.
  - assert (key_comp (GetKey x) (GetKey v) = false) as -> by done. rewrite andb_true_r. destruct (key_comp (GetKey v) (GetKey x)) eqn:Ev; [|done]. intros _. constructor; [by constructor|]. constructor; [done|].
    eapply List.Forall_impl; [|exact Hall]. intros w Hw. unfold FlatTree.value_comp in *. by apply (lt_trans _ (GetKey x)).
Qed.

Lemma emplace_key_args_run v t : ordered t ->
  emplace_key_args GetKey key_comp (GetKey v) v t = Done (rank (GetKey v) t, match key_find (GetKey v) t with None => true | Some _ => false end, match key_find (GetKey v) t with None => insert_before value_comp v t | Some _ => t end).
Proof using order.
  intros Ht. unfold emplace_key_args. rewrite lower_bound_run by done. cbn [mbind exec_bind]. rewrite end_or_before_run by done. cbn [mbind exec_bind]. destruct (key_find (GetKey v) t); [done|].
  unfold unsafe_emplace. rewrite (proj2 (Nat.leb_le _ _)) by (by apply rank_le). cbn [mbind exec_bind fst snd]. by rewrite insert_before_rank.
Qed.

(** A hint never changes what is done. *)
Lemma emplace_hint_same hint v t : ordered t -> hint <= size t -> emplace_hint_key_args GetKey key_comp hint (GetKey v) v t = emplace_key_args GetKey key_comp (GetKey v) v t.
Proof using order.
  intros Ht Hh. unfold emplace_hint_key_args, size in *. set (k := GetKey v). pose proof (rank_le k t Ht) as Hrank.
  assert (exists c, (if hint =? 0 then Done true else x ← dereference (hint - 1) t; Done (key_comp (GetKey x) k)) = Done c /\ (c = true -> hint <= rank k t)) as (c & -> & Hc).
  { destruct (Nat.eqb_spec hint 0) as [->|Hz]; [exists true; split; [done|lia]|]. destruct (lookup_lt_is_Some_2 t (hint - 1)) as [x Hx]; [lia|]. unfold dereference. rewrite Hx. cbn [defined mbind exec_bind].
    eexists. split; [reflexivity|]. rewrite (rank_spec k t _ x Ht Hx). intros Hlt%Nat.ltb_lt. lia. }
  cbn [mbind exec_bind]. destruct c; [|done]. specialize (Hc eq_refl).
  unfold end_or_before, dereference, size. destruct (Nat.eqb_spec hint (length t)) as [->|Hend].
  - cbn [mbind exec_bind]. assert (rank k t = length t) as Hr by lia. subst k. rewrite emplace_key_args_run by done. rewrite (key_find_rank (GetKey v)) by done. set (k := GetKey v) in *. rewrite Hr, (proj2 (lookup_ge_None t (length t))) by lia.
    unfold unsafe_emplace, size. rewrite Nat.leb_refl. cbn [mbind exec_bind fst snd]. rewrite <- insert_before_rank. fold k. by rewrite Hr.
  - destruct (lookup_lt_is_Some_2 t hint) as [x Hx]; [lia|]. rewrite Hx. cbn [defined mbind exec_bind]. pose proof (rank_spec k t hint x Ht Hx) as Hspec.
    assert (forall b, key_comp (GetKey x) k = b -> b = false -> rank k t = hint) as Hr. { intros b Hb ->. rewrite Hspec in Hb. apply Nat.ltb_ge in Hb. lia. }
    destruct (key_comp k (GetKey x)) eqn:Ek.
    + pose proof (Hr _ (lt_asym _ _ Ek) eq_refl) as Hr'. subst k. rewrite emplace_key_args_run by done. rewrite (key_find_rank (GetKey v)) by done. set (k := GetKey v) in *. rewrite Hr', Hx, Ek.
      unfold unsafe_emplace, size. rewrite (proj2 (Nat.leb_le _ _)) by lia. cbn [mbind exec_bind fst snd]. rewrite <- insert_before_rank. fold k. by rewrite Hr'.
    + destruct (key_comp (GetKey x) k) eqn:Ex; [done|]. cbn [negb]. pose proof (Hr _ eq_refl eq_refl) as Hr'. subst k. rewrite emplace_key_args_run by done. rewrite (key_find_rank (GetKey v)) by done. set (k := GetKey v) in *. by rewrite Hr', Hx, Ek.
Qed.

(** *** Sorting and leaving out *)

Definition weakly l : Prop := StronglySorted (fun v w => value_comp w v = false) l.

Lemma insert_before_weakly v l : weakly l -> weakly (insert_before value_comp v l).
Proof using order.
  unfold weakly. induction 1 as [|x l Hl IH Hall]; cbn; [repeat constructor|]. destruct (value_comp x v) eqn:Ex.
  - constructor; [done|]. rewrite insert_before_perm. constructor; [by apply lt_asym|done].
  - constructor; [by constructor|]. constructor; [done|]. eapply List.Forall_impl; [|exact Hall]. intros w Hw. unfold FlatTree.value_comp in *. destruct (key_comp (GetKey w) (GetKey v)) eqn:Ew; [|done]. destruct (lt_cotrans _ _ (GetKey x) Ew); congruence.
Qed.

Lemma key_find_insert_before k v l : weakly l -> key_find k (insert_before value_comp v l) = if equiv k v then Some v else key_find k l.
Proof using order.
  unfold weakly. induction 1 as [|x l Hl IH Hall]; [done|]. cbn [insert_before]. destruct (value_comp x v) eqn:Ex; [|done]. rewrite !key_find_cons, IH. destruct (equiv k v) eqn:Ev; [|done].
  assert (equiv k x = false) as ->; [|done]. rewrite (equiv_equiv k v x Ev). unfold equiv. unfold FlatTree.value_comp in Ex. by rewrite Ex, andb_false_r.
Qed.

Lemma stable_sort_weakly l : weakly (stable_sort value_comp l).
Proof using order. induction l as [|v l IH]; cbn; [constructor|]. by apply insert_before_weakly. Qed.

Lemma stable_sort_perm l : stable_sort value_comp l ≡ₚ l.
Proof using. induction l as [|v l IH]; cbn; [done|]. rewrite insert_before_perm. by f_equiv. Qed.

(** A stable sort: the first value with a key stays the first. *)
Lemma key_find_stable_sort k l : key_find k (stable_sort value_comp l) = key_find k l.
Proof using order. induction l as [|v l IH]; [done|]. cbn [stable_sort fold_right]. rewrite key_find_insert_before by apply stable_sort_weakly. fold (stable_sort value_comp l). rewrite key_find_cons, IH. done. Qed.

Abbreviation not_before := (fun lhs rhs => negb (value_comp lhs rhs)).

Lemma unique_after_incl v l w : In w (unique_after not_before v l) -> In w l.
Proof using. revert v. induction l as [|x l IH]; intros v; cbn; [done|]. destruct (negb (value_comp v x)); [intros H; right; by eapply IH|]. intros [->|H]; [by left|right; by eapply IH]. Qed.

Lemma unique_after_ordered v l : weakly (v :: l) -> ordered (v :: unique_after not_before v l).
Proof using order.
  unfold weakly, ordered. revert v. induction l as [|x l IH]; intros v; cbn [unique_after]; [repeat constructor|]. intros [[Hl Hx]%StronglySorted_inv Hv]%StronglySorted_inv. inversion Hv as [|? ? Hvx Hvl]; subst.
  destruct (value_comp v x) eqn:E; cbn [negb].
  - specialize (IH x ltac:(by constructor)). constructor; [done|]. apply StronglySorted_inv in IH as [_ IH]. constructor; [done|]. eapply List.Forall_impl; [|exact IH]. intros w Hw. unfold FlatTree.value_comp in *. by apply (lt_trans _ (GetKey x)).
  - apply IH. by constructor.
Qed.

Lemma key_find_unique_after k v l : weakly (v :: l) -> key_find k (v :: unique_after not_before v l) = key_find k (v :: l).
Proof using order.
  unfold weakly. revert v. induction l as [|x l IH]; intros v; cbn [unique_after]; [done|]. intros [[Hl Hx]%StronglySorted_inv Hv]%StronglySorted_inv. inversion Hv as [|? ? Hvx Hvl]; subst.
  destruct (value_comp v x) eqn:E; cbn [negb].
  - specialize (IH x ltac:(by constructor)). rewrite (key_find_cons k v (x :: _)), IH. done.
  - rewrite IH by (by constructor). rewrite !key_find_cons. destruct (equiv k v) eqn:Ev; [done|]. assert (equiv k x = false) as ->; [|done]. destruct (equiv k x) eqn:Ek; [|done]. rewrite (equiv_equiv k x v Ek) in Ev. unfold equiv, FlatTree.value_comp in *. by rewrite E, Hvx in Ev.
Qed.

Lemma sort_unique_spec l : let r := std_unique not_before (stable_sort value_comp l) in
  ordered r /\ (forall k, key_find k r = key_find k l) /\ (forall w, In w r -> In w l).
Proof using order.
  intros r. unfold r. pose proof (stable_sort_weakly l) as Hw. pose proof (fun k => key_find_stable_sort k l) as Hf. pose proof (stable_sort_perm l) as Hp.
  destruct (stable_sort value_comp l) as [|x m]; cbn [std_unique]; [split_and!; [constructor|done|done]|]. split_and!; [by apply unique_after_ordered|intros k; by rewrite key_find_unique_after|].
  intros w Hi. eapply Permutation_in; [exact Hp|]. destruct Hi as [->|Hi]; [by left|right; by eapply unique_after_incl].
Qed.

(** *** Merging *)

Lemma ordered_is_sorted t : ordered t -> is_sorted value_comp t = true.
Proof using order.
  unfold ordered. induction 1 as [|x t Ht IH Hall]; [done|]. destruct t as [|y t]; [done|]. cbn [is_sorted] in *. rewrite IH, andb_true_r. inversion Hall as [|? ? Hxy _]; subst. apply negb_true_iff. by apply lt_asym.
Qed.

Lemma ordered_adjacent t : ordered t -> no_adjacent not_before t = true.
Proof using. unfold ordered. induction 1 as [|x t Ht IH Hall]; [done|]. destruct t as [|y t]; [done|]. cbn [no_adjacent] in *. rewrite IH, andb_true_r, negb_involutive. by inversion Hall. Qed.

Lemma merge_perm l1 l2 : merge value_comp l1 l2 ≡ₚ l1 ++ l2.
Proof using.
  revert l2. induction l1 as [|x l1 IH1]; [by destruct l2|]. induction l2 as [|y l2 IH2]; [by rewrite app_nil_r|]. cbn. destruct (value_comp y x).
  - cbn in IH2. rewrite IH2. rewrite (Permutation_middle (x :: l1) l2 y). done.
  - by rewrite IH1.
Qed.

Lemma merge_ordered l1 l2 : ordered l1 -> ordered l2 -> (forall v, In v l2 -> key_find (GetKey v) l1 = None) -> ordered (merge value_comp l1 l2).
Proof using order.
  unfold ordered. intros H1. revert l2. induction H1 as [|x l1 H1 IH1 Hx]; [by destruct l2|]. intros l2 H2. induction H2 as [|y l2 H2 IH2 Hy]; intros Hd; [cbn; by constructor|]. cbn. destruct (value_comp y x) eqn:E.
  - constructor; [apply IH2; intros v Hv; apply Hd; by right|]. rewrite (merge_perm (x :: l1) l2). apply Forall_app. split; [|done]. constructor; [done|]. eapply List.Forall_impl; [|exact Hx]. intros w Hw. unfold FlatTree.value_comp in *. by apply (lt_trans _ (GetKey x)).
  - assert (value_comp x y = true) as Hxy. { pose proof (Hd y ltac:(by left)) as Hn. cbn in Hn. unfold equiv, FlatTree.value_comp in *. rewrite E in Hn. cbn in Hn. by destruct (key_comp (GetKey x) (GetKey y)). }
    constructor.
    + apply IH1; [by constructor|]. intros v Hv. specialize (Hd v Hv). cbn in Hd. by destruct (equiv (GetKey v) x).
    + rewrite merge_perm. apply Forall_app. split; [done|]. constructor; [done|]. eapply List.Forall_impl; [|exact Hy]. intros w Hw. unfold FlatTree.value_comp in *. by apply (lt_trans _ (GetKey y)).
Qed.

(** *** A range of values *)

Definition absent t (v : Value) : bool := match key_find (GetKey v) t with None => true | Some _ => false end.

Lemma append_unique_run v t new : ordered t -> append_unique GetKey key_comp (length t) v (t ++ new) = Done (rank (GetKey v) t, absent t v, if absent t v then (t ++ new) ++ [v] else t ++ new).
Proof using order.
  intros Ht. unfold append_unique. rewrite take_app_length. pose proof (lower_bound_run (GetKey v) t Ht) as Hl. unfold lower_bound in Hl. change (std_lower_bound value_comp v t) with (std_lower_bound (fun v k => key_comp (GetKey v) k) (GetKey v) t). rewrite Hl. cbn [mbind exec_bind].
  pose proof (end_or_before_run (GetKey v) t Ht) as He. unfold end_or_before, size in He. unfold absent. pose proof (rank_le (GetKey v) t Ht). destruct (Nat.eqb_spec (rank (GetKey v) t) (length t)) as [E|E].
  - injection He as He. cbn [mbind exec_bind]. destruct (key_find (GetKey v) t); done.
  - unfold dereference in *. rewrite lookup_app_l by lia. destruct (lookup_lt_is_Some_2 t (rank (GetKey v) t)) as [x Hx]; [lia|]. rewrite Hx in *. cbn [defined mbind exec_bind] in *. injection He as He. change (value_comp v x) with (key_comp (GetKey v) (GetKey x)). rewrite He. by destruct (key_find (GetKey v) t).
Qed.

Lemma append_range_run range pos t new : ordered t -> pos <= length t -> (forall v, In v new -> pos <= rank (GetKey v) t) ->
  exists p, append_range GetKey key_comp (length t) pos range (t ++ new) = Done (p, t ++ new ++ List.filter (absent t) range) /\ p <= length t /\ (forall v, In v (new ++ List.filter (absent t) range) -> p <= rank (GetKey v) t).
Proof using order.
  intros Ht. revert pos new. induction range as [|v range IH]; intros pos new Hpos Hnew; cbn [append_range List.filter].
  - exists pos. rewrite !app_nil_r. done.
  - rewrite append_unique_run by done. cbn [mbind exec_bind fst snd]. destruct (absent t v) eqn:E.
    + rewrite <- app_assoc. destruct (IH (Nat.min pos (rank (GetKey v) t)) (new ++ [v])) as (p & -> & Hp & Hall); [lia|intros w [Hw| [->|[]]]%in_app_or; [specialize (Hnew w Hw); lia|lia]|]. exists p. rewrite <- !app_assoc in *. done.
    + apply IH; done.
Qed.

Lemma ordered_app l1 l2 : ordered (l1 ++ l2) <-> ordered l1 /\ ordered l2 /\ (forall v w, In v l1 -> In w l2 -> value_comp v w = true).
Proof using.
  unfold ordered. induction l1 as [|x l1 IH]; cbn; [split; [intros H; split_and!; [constructor|exact H|done]|by intros (_ & ? & _)]|]. split.
  - intros [H1 H2]%StronglySorted_inv. apply IH in H1 as (H1 & H3 & H4). apply Forall_app in H2 as [H2 H5]. split_and!; [by constructor|done|]. intros v w [->|Hv] Hw; [by apply (proj1 (List.Forall_forall _ _) H5)|auto].
  - intros ([H1 H2]%StronglySorted_inv & H3 & H4). constructor; [apply IH; split_and!; auto|]. apply Forall_app. split; [done|]. apply List.Forall_forall. auto.
Qed.

Lemma insert_range_merge range t : ordered t -> exists t', (r ← append_range GetKey key_comp (size t) (size t) range t;
      let t1 := sort_and_unique GetKey key_comp (size t) r.2 in
      merged ← inplace_merge value_comp (size t - r.1) (skipn r.1 t1);
      Done (firstn r.1 t1 ++ merged)) = Done t' /\
  ordered t' /\ (forall k, key_find k t' = match key_find k t with Some v => Some v | None => key_find k range end).
Proof using order.
  intros Ht. unfold size. destruct (append_range_run range (length t) t []) as (p & Hrun & Hp & Hall); [done|lia|done|]. rewrite app_nil_r in Hrun. rewrite Hrun. cbn [mbind exec_bind fst snd app] in *. clear Hrun.
  unfold sort_and_unique. rewrite take_app_length, drop_app_length. destruct (sort_unique_spec (List.filter (absent t) range)) as (Hu & Huf & Hui). set (u := std_unique _ _) in *.
  assert (forall v, In v u -> absent t v = true /\ p <= rank (GetKey v) t) as Hin. { intros v Hv%Hui. split; [by apply List.filter_In in Hv as [_ ?]|by apply Hall]. }
  rewrite take_app_le, drop_app_le by lia. unfold inplace_merge.
  assert (length (skipn p t) = length t - p) as Hlen by apply length_skipn. rewrite <- Hlen, take_app_length, drop_app_length.
  pose proof Ht as Hsplit. rewrite <- (firstn_skipn p t) in Hsplit. apply ordered_app in Hsplit as (Hf & Hs & Hfs). rewrite !ordered_is_sorted by done. cbn [andb mbind exec_bind].
  eexists. split; [reflexivity|]. assert (forall v, In v u -> key_find (GetKey v) t = None) as Habs. { intros v Hv. destruct (Hin v Hv) as [Ha _]. unfold absent in Ha. by destruct (key_find (GetKey v) t). }
  assert (ordered (firstn p t ++ merge value_comp (skipn p t) u)) as Hord.
  { apply ordered_app. split_and!; [done| |].
    - apply merge_ordered; [done|done|]. intros v Hv. specialize (Habs v Hv). rewrite <- (firstn_skipn p t), key_find_app in Habs. by destruct (key_find (GetKey v) (firstn p t)).
    - intros v w Hv Hw. eapply Permutation_in in Hw; [|apply merge_perm]. apply in_app_or in Hw as [Hw|Hw]; [by apply Hfs|]. destruct (Hin w Hw) as [_ Hr]. apply list_elem_of_In, list_elem_of_lookup in Hv as [i Hi].
      pose proof (lookup_lt_Some _ _ _ Hi) as Hlt. rewrite length_take in Hlt. rewrite lookup_take_lt in Hi by lia. unfold FlatTree.value_comp. rewrite (rank_spec (GetKey w) t i v Ht Hi). apply Nat.ltb_lt. lia. }
  split; [done|]. intros k. assert (firstn p t ++ merge value_comp (skipn p t) u ≡ₚ t ++ u) as Hperm by (rewrite merge_perm, app_assoc, firstn_skipn; done).
  rewrite (key_find_perm k _ _ Hperm) by (by apply ordered_distinct). rewrite key_find_app, Huf. destruct (key_find k t) as [x|] eqn:Ek; [done|].
  clear -Ek order. induction range as [|v range IH]; [done|]. cbn. destruct (equiv k v) eqn:Ev.
  - assert (absent t v = true) as ->; [|cbn; by rewrite Ev]. unfold absent. assert (key_find (GetKey v) t = None) as ->; [|done]. apply key_find_None. apply key_find_None in Ek. eapply List.Forall_impl; [|exact Ek]. intros w Hw. cbn in Hw. by rewrite (equiv_equiv k v w Ev) in Hw.
  - destruct (absent t v); cbn; [rewrite Ev|]; apply IH.
Qed.

Lemma tree_insert_range_run multipass range t : ordered t -> exists t', insert_range GetKey key_comp multipass range t = Done t' /\ ordered t' /\ (forall k, key_find k t' = match key_find k t with Some v => Some v | None => key_find k range end).
Proof using order.
  intros Ht. unfold insert_range. destruct range as [|v range]; [exists t; split_and!; [done|done|]; intros k; by destruct (key_find k t)|]. destruct (multipass && (length (v :: range) =? 1)) eqn:E; [|by apply insert_range_merge].
  apply andb_true_iff in E as [_ E%Nat.eqb_eq]. assert (range = []) as -> by (by destruct range). unfold insert_hint. rewrite emplace_hint_same by (done || lia). rewrite emplace_key_args_run by done. cbn [mbind exec_bind fst snd].
  eexists. split; [reflexivity|]. destruct (key_find (GetKey v) t) as [x|] eqn:Ev.
  - split; [done|]. intros k. rewrite !key_find_cons. change (key_find k []) with (@None Value). destruct (equiv k v) eqn:Ek; [|by destruct (key_find k t)]. destruct (key_find k t) eqn:Et; [done|]. apply key_find_None in Et. assert (key_find (GetKey v) t = None); [|congruence]. apply key_find_None. eapply List.Forall_impl; [|exact Et]. intros w Hw. cbn in Hw. by rewrite (equiv_equiv k v w Ek) in Hw.
  - split; [by apply insert_before_ordered|]. intros k. rewrite (key_find_perm k _ (v :: t)) by (apply insert_before_perm || apply ordered_distinct; by apply insert_before_ordered). rewrite !key_find_cons. change (key_find k []) with (@None Value).
    destruct (equiv k v) eqn:Ek; [|by destruct (key_find k t)]. apply key_find_None in Ev. assert (key_find k t = None) as ->; [|done]. apply key_find_None. eapply List.Forall_impl; [|exact Ev]. intros w Hw. cbn. by rewrite (equiv_equiv k v w Ek).
Qed.

Lemma flat_tree_of_spec items : ordered (flat_tree_of GetKey key_comp items) /\ (forall k, key_find k (flat_tree_of GetKey key_comp items) = key_find k items).
Proof using order. unfold flat_tree_of, sort_and_unique. cbn [firstn skipn app]. rewrite take_0. cbn [app]. destruct (sort_unique_spec items) as (H1 & H2 & _). done. Qed.

(** *** Erasure and assignment *)

Lemma filter_all (p : Value -> bool) l : Forall (fun v => p v = true) l -> List.filter p l = l.
Proof using. induction 1 as [|x l Hx _ IH]; [done|]. cbn. by rewrite Hx, IH. Qed.

Lemma others_kept k v t : ordered (v :: t) -> equiv k v = true -> List.filter (fun w => negb (equiv k w)) t = t.
Proof using order.
  intros [_ Hall]%StronglySorted_inv Hk. apply filter_all. eapply List.Forall_impl; [|exact Hall]. intros w Hw. cbn. by rewrite (equiv_equiv k v w Hk), before_different.
Qed.

Lemma erase_at_rank k t v : ordered t -> key_find k t = Some v -> firstn (rank k t) t ++ skipn (rank k t + 1) t = List.filter (fun w => negb (equiv k w)) t.
Proof using order.
  unfold rank. intros Ht. pose proof Ht as Ht0. induction Ht as [|x t Ht IH Hall]; [done|]. rewrite key_find_cons. cbn [partition_point List.filter]. destruct (key_comp (GetKey x) k) eqn:Ex.
  - assert (equiv k x = false) as -> by (unfold equiv; rewrite Ex; apply andb_false_r). cbn [negb]. intros Hv. rewrite <- IH by done. done.
  - change (firstn 0 (x :: t) ++ skipn (0 + 1) (x :: t)) with t. intros Hv. destruct (equiv k x) eqn:E; cbn [negb]; [by erewrite others_kept|].
    unfold equiv in E. rewrite Ex, andb_true_r in E. apply negb_false_iff in E. exfalso. apply key_find_Some in Hv as Hk. apply List.find_some in Hv as [Hi _]. eapply List.Forall_forall in Hall; [|exact Hi]. unfold equiv, FlatTree.value_comp in *. by rewrite (lt_trans _ _ _ E Hall) in Hk.
Qed.

Lemma equal_range_run k t : ordered t -> equal_range GetKey key_comp k t = Done (match key_find k t with None => (rank k t, rank k t) | Some _ => (rank k t, rank k t + 1) end).
Proof using order. intros Ht. unfold equal_range. rewrite lower_bound_run by done. cbn [mbind exec_bind]. rewrite end_or_before_run by done. cbn [mbind exec_bind]. by destruct (key_find k t). Qed.

Lemma rank_found k t v : ordered t -> key_find k t = Some v -> rank k t < length t.
Proof using order. intros Ht H%found_at_rank; [|done]. by eapply lookup_lt_Some. Qed.

Lemma tree_erase_run k t : ordered t -> erase GetKey key_comp k t = Done (match key_find k t with None => 0 | Some _ => 1 end, List.filter (fun v => negb (equiv k v)) t).
Proof using order.
  intros Ht. unfold erase. rewrite equal_range_run by done. pose proof (rank_le k t Ht). destruct (key_find k t) as [v|] eqn:E; cbn [mbind exec_bind fst snd]; unfold erase_range, size.
  - pose proof (rank_found k t v Ht E). rewrite !(proj2 (Nat.leb_le _ _)) by lia. cbn [andb mbind exec_bind]. rewrite (erase_at_rank k t v) by done. do 2 f_equal. lia.
  - rewrite !(proj2 (Nat.leb_le _ _)) by lia. cbn [andb mbind exec_bind]. rewrite firstn_skipn, Nat.sub_diag. do 2 f_equal. symmetry. apply filter_all. apply key_find_None in E. eapply List.Forall_impl; [|exact E]. intros w Hw. cbn in *. by rewrite Hw.
Qed.

Lemma count_run k t : ordered t -> count GetKey key_comp k t = Done (match key_find k t with None => 0 | Some _ => 1 end).
Proof using order. intros Ht. unfold count. rewrite equal_range_run by done. destruct (key_find k t); cbn; f_equal; lia. Qed.

Lemma find_run k t : ordered t -> find GetKey key_comp k t = Done (match key_find k t with None => length t | Some _ => rank k t end).
Proof using order.
  intros Ht. unfold find. rewrite equal_range_run by done. destruct (key_find k t); cbn [mbind exec_bind fst snd]; [|by rewrite Nat.eqb_refl]. by rewrite (proj2 (Nat.eqb_neq _ _)) by lia.
Qed.

Lemma find_element k t : ordered t -> exists it, find GetKey key_comp k t = Done it /\ t !! it = key_find k t.
Proof using order.
  intros Ht. rewrite find_run by done. destruct (key_find k t) as [v|] eqn:E; eexists; (split; [reflexivity|]); [by apply found_at_rank|by apply lookup_ge_None].
Qed.

Lemma contains_run k t : ordered t -> contains GetKey key_comp k t = Done (match key_find k t with None => false | Some _ => true end).
Proof using order.
  intros Ht. unfold contains. rewrite lower_bound_run by done. cbn [mbind exec_bind]. pose proof (end_or_before_run k t Ht) as He. unfold end_or_before in He. destruct (rank k t =? size t); [injection He; destruct (key_find k t); done|].
  destruct (dereference (rank k t) t) as [v| |]; cbn in *; try done. injection He as ->. by destruct (key_find k t).
Qed.

(** A change of the value with the key. *)
Lemma alter_rank f k t v : ordered t -> key_find k t = Some v -> alter f (rank k t) t = map (fun w => if equiv k w then f w else w) t.
Proof using order.
  unfold rank. intros Ht. pose proof Ht as Ht0. induction Ht as [|x t Ht IH Hall]; [done|]. rewrite key_find_cons. cbn [partition_point map]. destruct (key_comp (GetKey x) k) eqn:Ex.
  - assert (equiv k x = false) as -> by (unfold equiv; rewrite Ex; apply andb_false_r). intros Hv. change (alter f (Datatypes.S (partition_point (fun v0 => key_comp (GetKey v0) k) t)) (x :: t)) with (x :: alter f (partition_point (fun v0 => key_comp (GetKey v0) k) t) t). by rewrite IH.
  - intros Hv. change (alter f 0 (x :: t)) with (f x :: t). destruct (equiv k x) eqn:E.
    + f_equal. symmetry. rewrite <- (map_id t) at 2. apply map_ext_in. intros w Hw. eapply List.Forall_forall in Hall; [|exact Hw]. by rewrite (equiv_equiv k x w E), before_different.
    + unfold equiv in E. rewrite Ex, andb_true_r in E. apply negb_false_iff in E. exfalso. apply key_find_Some in Hv as Hk. apply List.find_some in Hv as [Hi _]. eapply List.Forall_forall in Hall; [|exact Hi]. unfold equiv, FlatTree.value_comp in *. by rewrite (lt_trans _ _ _ E Hall) in Hk.
Qed.

Lemma insert_alter i v t : <[i := v]> t = alter (fun _ => v) i t.
Proof using. revert i. induction t as [|x t IH]; intros [|i]; cbn; f_equal; try done. Qed.

Definition assign_at k (f : Value -> Value) (w : Value) : Value := if equiv k w then f w else w.

Lemma assign_ordered k f t : (forall w, equiv k w = true -> equiv (GetKey w) (f w) = true) -> ordered t -> ordered (map (assign_at k f) t).
Proof using order. intros Hf. apply ordered_map. intros w _. unfold assign_at. destruct (equiv k w) eqn:E; [by apply Hf|apply equiv_refl]. Qed.

Lemma insert_or_assign_run v t : ordered t -> insert_or_assign GetKey key_comp v t = Done (rank (GetKey v) t, absent t v, if absent t v then insert_before value_comp v t else map (assign_at (GetKey v) (fun _ => v)) t).
Proof using order.
  intros Ht. unfold insert_or_assign, absent. rewrite lower_bound_run by done. cbn [mbind exec_bind]. rewrite end_or_before_run by done. cbn [mbind exec_bind]. destruct (key_find (GetKey v) t) as [w|] eqn:E.
  - unfold assign_at. rewrite insert_alter. by rewrite (alter_rank _ _ _ w).
  - unfold unsafe_emplace. rewrite (proj2 (Nat.leb_le _ _)) by (by apply rank_le). cbn [mbind exec_bind fst snd]. by rewrite insert_before_rank.
Qed.

(** *** A list without order *)

(** What the tree stands for: the values as they came. *)
Definition ref_insert (m : list Value) v : list Value := if absent m v then m ++ [v] else m.

Lemma ref_insert_distinct m v : distinct m -> distinct (ref_insert m v).
Proof using.
  intros Hm. unfold ref_insert, absent. destruct (key_find (GetKey v) m) as [|] eqn:E; [done|]. eapply distinct_perm; [symmetry; apply Permutation_app_comm|]. constructor; [done|]. by apply key_find_None.
Qed.

Lemma key_find_ref_insert k m v : key_find k (ref_insert m v) = match key_find k m with Some w => Some w | None => key_find k [v] end.
Proof using order.
  unfold ref_insert, absent. destruct (key_find (GetKey v) m) as [w|] eqn:E; [|apply key_find_app]. rewrite key_find_cons. change (key_find k []) with (@None Value). destruct (equiv k v) eqn:Ek; [|by destruct (key_find k m)].
  destruct (key_find k m) eqn:Em; [done|]. apply key_find_None in Em. assert (key_find (GetKey v) m = None); [|congruence]. apply key_find_None. eapply List.Forall_impl; [|exact Em]. intros u Hu. cbn in Hu. by rewrite (equiv_equiv k v u Ek) in Hu.
Qed.

Lemma fold_ref_insert range m : distinct m -> distinct (fold_left ref_insert range m) /\ (forall k, key_find k (fold_left ref_insert range m) = match key_find k m with Some w => Some w | None => key_find k range end).
Proof using order.
  revert m. induction range as [|v range IH]; intros m Hm; cbn [fold_left]; [split; [done|]; intros k; by destruct (key_find k m)|]. destruct (IH _ (ref_insert_distinct m v Hm)) as [H1 H2]. split; [done|].
  intros k. rewrite H2, key_find_ref_insert, !key_find_cons. change (key_find k []) with (@None Value). destruct (key_find k m); [done|]. by destruct (equiv k v).
Qed.

(** The tree [t] stands for the list [m]. *)
Definition stands_for t (m : list Value) : Prop := ordered t /\ t ≡ₚ m.

Lemma stands_find t m k : stands_for t m -> key_find k t = key_find k m.
Proof using order. intros [Ht Hp]. by apply key_find_perm, ordered_distinct. Qed.

Lemma stands_absent t m v : stands_for t m -> absent t v = absent m v.
Proof using order. intros H. unfold absent. by rewrite (stands_find t m). Qed.

Lemma stands_sorted t m : stands_for t m -> stable_sort value_comp m = t.
Proof using order.
  intros [Ht Hp]. pose proof (stable_sort_perm m) as Hm. apply ordered_perm; [|done|by rewrite Hm].
  assert (distinct (stable_sort value_comp m)) as Hd by (eapply distinct_perm; [|apply ordered_distinct, Ht]; by rewrite Hm). pose proof (stable_sort_weakly m) as Hw. clear -Hd Hw.
  unfold weakly, distinct, ordered in *. induction Hw as [|x l Hl IH Hall]; [constructor|]. apply StronglySorted_inv in Hd as [Hd Hx]. constructor; [by apply IH|]. rewrite List.Forall_forall in *. intros w Hi. specialize (Hall w Hi). specialize (Hx w Hi). cbn in *.
  unfold equiv, FlatTree.value_comp in *. rewrite Hall in Hx. cbn in Hx. by destruct (key_comp (GetKey x) (GetKey w)).
Qed.

Lemma stands_insert t m v : stands_for t m -> stands_for (if absent t v then insert_before value_comp v t else t) (ref_insert m v).
Proof using order.
  intros H. pose proof (stands_absent t m v H) as Ha. destruct H as [Ht Hp]. unfold ref_insert. rewrite <- Ha. unfold absent. destruct (key_find (GetKey v) t) eqn:E; [done|]. split; [by apply insert_before_ordered|]. rewrite insert_before_perm, Hp. apply Permutation_cons_append.
Qed.

Lemma stands_filter p t m : stands_for t m -> stands_for (List.filter p t) (List.filter p m).
Proof using.
  intros [Ht Hp]. split; [by apply ordered_filter|]. clear Ht. induction Hp as [|x l1 l2 _ IH|x y l|l1 l2 l3 _ IH1 _ IH2]; cbn; [done| | |by etrans].
  - destruct (p x); [by f_equiv|done].
  - destruct (p x), (p y); try done. apply perm_swap.
Qed.

Lemma stands_assign k f t m : (forall w, equiv k w = true -> equiv (GetKey w) (f w) = true) -> stands_for t m -> stands_for (map (assign_at k f) t) (map (assign_at k f) m).
Proof using order. intros Hf [Ht Hp]. split; [by apply assign_ordered|]. by apply Permutation_map. Qed.

Lemma stands_unique t m : ordered t -> distinct m -> (forall k, key_find k t = key_find k m) -> stands_for t m.
Proof using order. intros Ht Hm Hf. split; [done|]. apply same_find_perm; [by apply ordered_distinct|done|done]. Qed.

Lemma partition_filter (p : Value -> bool) t : is_partitioned p t = true -> skipn (partition_point p t) t = List.filter (fun v => negb (p v)) t.
Proof using.
  unfold is_partitioned. induction t as [|x t IH]; [done|]. cbn. destruct (p x) eqn:E; cbn; [done|]. rewrite E. cbn. intros H. f_equal. symmetry. apply filter_all. apply List.Forall_forall. by apply forallb_forall.
Qed.

(** ** Calls *)

Inductive call :=
  | CInsert (v : Value) | CInsertHint (hint : nat) (v : Value) | CInsertRange (is_multipass : bool) (range : list Value) | CInsertOrAssign (v : Value)
  | CErase (k : Key) | CEraseIf (pred : Value -> bool) | CAssign (items : list Value) | CClear
  | CEraseAt (position : nat) | CEraseRange (first last : nat) | CExtract | CReplace (body : list Value)
  | CFind (k : Key) | CContains (k : Key) | CCount (k : Key) | CEqualRange (k : Key) | CLowerBound (k : Key) | CUpperBound (k : Key) | CElements | CSize.

(** An iterator is answered as what it refers to, a bound as what is from it on. *)
Inductive answer := Inserted (v : option Value) (is_new : bool) | Element (v : option Value) | Number (n : nat) | Answer (b : bool) | Values (l : list Value) | Nothing.

Definition run_call (c : call) t : exec (answer * list Value) :=
  match c with
  | CInsert v => r ← insert GetKey key_comp v t; Done (Inserted (r.2 !! r.1.1) r.1.2, r.2)
  | CInsertHint hint v => r ← insert_hint GetKey key_comp (Nat.min hint (size t)) v t; Done (Element (r.2 !! r.1), r.2)
  | CInsertRange is_multipass range => t ← insert_range GetKey key_comp is_multipass range t; Done (Nothing, t)
  | CInsertOrAssign v => r ← insert_or_assign GetKey key_comp v t; Done (Inserted (r.2 !! r.1.1) r.1.2, r.2)
  | CErase k => r ← erase GetKey key_comp k t; Done (Number r.1, r.2)
  | CEraseIf pred => r ← EraseIf pred t; Done (Number r.1, r.2)
  | CAssign items => Done (Nothing, flat_tree_of GetKey key_comp items)
  | CClear => Done (Nothing, clear t)
  | CEraseAt position => r ← erase_at position t; Done (Values (skipn r.1 r.2), r.2)
  | CEraseRange first last => t ← erase_range first last t; Done (Values (skipn first t), t)
  | CExtract => let r := extract t in Done (Values r.1, r.2)
  | CReplace body => t ← replace GetKey key_comp body t; Done (Nothing, t)
  | CFind k => it ← find GetKey key_comp k t; Done (Element (t !! it), t)
  | CContains k => b ← contains GetKey key_comp k t; Done (Answer b, t)
  | CCount k => n ← count GetKey key_comp k t; Done (Number n, t)
  | CEqualRange k => r ← equal_range GetKey key_comp k t; Done (Values (firstn (r.2 - r.1) (skipn r.1 t)), t)
  | CLowerBound k => it ← lower_bound GetKey key_comp k t; Done (Values (skipn it t), t)
  | CUpperBound k => it ← upper_bound GetKey key_comp k t; Done (Values (skipn it t), t)
  | CElements => Done (Values t, t)
  | CSize => Done (Number (size t), t)
  end.

(** The same on a list without order. *)
Definition ref_call (c : call) (m : list Value) : answer * list Value :=
  match c with
  | CInsert v => (Inserted (key_find (GetKey v) (ref_insert m v)) (absent m v), ref_insert m v)
  | CInsertHint _ v => (Element (key_find (GetKey v) (ref_insert m v)), ref_insert m v)
  | CInsertRange _ range => (Nothing, fold_left ref_insert range m)
  | CInsertOrAssign v => (Inserted (Some v) (absent m v), if absent m v then m ++ [v] else map (assign_at (GetKey v) (fun _ => v)) m)
  | CErase k => (Number (match key_find k m with None => 0 | Some _ => 1 end), List.filter (fun v => negb (equiv k v)) m)
  | CEraseIf pred => (Number (length m - length (List.filter (fun v => negb (pred v)) m)), List.filter (fun v => negb (pred v)) m)
  | CAssign items => (Nothing, fold_left ref_insert items [])
  | CClear => (Nothing, [])
  | CEraseAt position => let s := stable_sort value_comp m in (Values (skipn (Datatypes.S position) s), firstn position s ++ skipn (Datatypes.S position) s)
  | CEraseRange first last => let s := stable_sort value_comp m in (Values (skipn last s), firstn first s ++ skipn last s)
  | CExtract => (Values (stable_sort value_comp m), [])
  | CReplace body => (Nothing, body)
  | CFind k => (Element (key_find k m), m)
  | CContains k => (Answer (match key_find k m with None => false | Some _ => true end), m)
  | CCount k => (Number (match key_find k m with None => 0 | Some _ => 1 end), m)
  | CEqualRange k => (Values (match key_find k m with None => [] | Some v => [v] end), m)
  | CLowerBound k => (Values (List.filter (fun v => negb (key_comp (GetKey v) k)) (stable_sort value_comp m)), m)
  | CUpperBound k => (Values (List.filter (fun v => key_comp k (GetKey v)) (stable_sort value_comp m)), m)
  | CElements => (Values (stable_sort value_comp m), m)
  | CSize => (Number (length m), m)
  end.

(** What the class asks of its caller: positions of the tree, and a body in order. *)
Definition permitted (c : call) (m : list Value) : bool :=
  match c with
  | CEraseAt position => position <? length m
  | CEraseRange first last => (first <=? last) && (last <=? length m)
  | CReplace body => is_sorted value_comp body && no_adjacent not_before body
  | _ => true
  end.

Fixpoint run_calls (cs : list call) t : exec (list answer * list Value) :=
  match cs with [] => Done ([], t) | c :: cs => r ← run_call c t; s ← run_calls cs r.2; Done (r.1 :: s.1, s.2) end.

Fixpoint ref_calls (cs : list call) (m : list Value) : list answer * list Value :=
  match cs with [] => ([], m) | c :: cs => let r := ref_call c m in let s := ref_calls cs r.2 in (r.1 :: s.1, s.2) end.

Fixpoint permitted_calls (cs : list call) (m : list Value) : bool :=
  match cs with [] => true | c :: cs => permitted c m && permitted_calls cs (ref_call c m).2 end.

(** A body that [replace] takes is in order. *)
Lemma replaceable_ordered l : is_sorted value_comp l = true -> no_adjacent not_before l = true -> ordered l.
Proof using order.
  unfold ordered. intros _ H. apply Sorted_StronglySorted; [intros a b c; unfold FlatTree.value_comp; apply lt_trans|].
  induction l as [|x l IH]; [constructor|]. destruct l as [|y l]; [by repeat constructor|]. cbn in H. apply andb_true_iff in H as [Hxy H]. rewrite negb_involutive in Hxy. constructor; [by apply IH|by constructor].
Qed.

Lemma ordered_cut i j t : i <= j -> ordered t -> ordered (firstn i t ++ skipn j t).
Proof using.
  intros Hij Ht. rewrite <- (firstn_skipn i t) in Ht. apply ordered_app in Ht as (H1 & H2 & H3). replace (skipn j t) with (skipn (j - i) (skipn i t)) by (rewrite skipn_skipn; f_equal; lia).
  rewrite <- (firstn_skipn (j - i) (skipn i t)) in H2, H3. apply ordered_app in H2 as (_ & H2 & _). apply ordered_app. split_and!; [done|done|]. intros v w Hv Hw. apply H3; [done|]. apply in_or_app. by right.
Qed.

Lemma skipn_cut i j t : i <= j -> j <= length t -> skipn i (firstn i t ++ skipn j t) = skipn j t.
Proof using. intros H1 H2. assert (length (firstn i t) = i) as E by (rewrite length_take; lia). rewrite <- E at 1. apply drop_app_length. Qed.

Lemma equal_range_element k t : ordered t -> exists r, equal_range GetKey key_comp k t = Done r /\ firstn (r.2 - r.1) (skipn r.1 t) = match key_find k t with None => [] | Some v => [v] end.
Proof using order.
  intros Ht. rewrite equal_range_run by done. eexists. split; [done|]. destruct (key_find k t) as [v|] eqn:E; cbn [fst snd]; [|by rewrite Nat.sub_diag].
  pose proof (found_at_rank _ _ _ Ht E) as Hv. replace (rank k t + 1 - rank k t) with 1 by lia. by rewrite (drop_S _ _ _ Hv).
Qed.

(** The element that was inserted, or that was there. *)
Lemma inserted_element v t : ordered t -> (if absent t v then insert_before value_comp v t else t) !! rank (GetKey v) t = key_find (GetKey v) (if absent t v then insert_before value_comp v t else t).
Proof using order.
  intros Ht. unfold absent. destruct (key_find (GetKey v) t) as [w|] eqn:E; [rewrite E; by apply found_at_rank|].
  rewrite (key_find_perm _ _ (v :: t)) by (apply insert_before_perm || apply ordered_distinct; by apply insert_before_ordered). rewrite key_find_cons, equiv_refl. rewrite <- insert_before_rank. pose proof (rank_le (GetKey v) t Ht) as Hr.
  rewrite lookup_app_r by (rewrite length_take; lia). rewrite length_take, Nat.min_l, Nat.sub_diag by lia. done.
Qed.

Lemma assigned_element v t w : ordered t -> key_find (GetKey v) t = Some w -> map (assign_at (GetKey v) (fun _ => v)) t !! rank (GetKey v) t = Some v.
Proof using order.
  intros Ht E. pose proof (found_at_rank _ _ _ Ht E) as Hw. change (map ?f t) with (f <$> t). rewrite list_lookup_fmap, Hw. cbn. unfold assign_at. by rewrite (key_find_Some _ _ _ E).
Qed.

Lemma run_call_stands c t m : stands_for t m -> permitted c m = true -> exists t', run_call c t = Done ((ref_call c m).1, t') /\ stands_for t' (ref_call c m).2.
Proof using order.
  intros Hs. pose proof Hs as [Ht Hp]. destruct c as [v|hint v|multipass range|v|k|pred|items| |position|first last| |body|k|k|k|k|k|k| |]; cbn [run_call ref_call permitted fst snd]; intros Hc; try match type of Hc with true = true => clear Hc end.
  - unfold insert. rewrite emplace_key_args_run by done. cbn [mbind exec_bind fst snd]. pose proof (inserted_element v t Ht) as Hi. pose proof (stands_insert t m v Hs) as Hs'. rewrite (stands_find _ _ _ Hs') in Hi. rewrite <- (stands_absent t m v Hs). unfold absent in *. destruct (key_find (GetKey v) t); rewrite Hi; eauto.
  - unfold insert_hint. rewrite emplace_hint_same by (done || lia). rewrite emplace_key_args_run by done. cbn [mbind exec_bind fst snd]. pose proof (inserted_element v t Ht) as Hi. pose proof (stands_insert t m v Hs) as Hs'. rewrite (stands_find _ _ _ Hs') in Hi. unfold absent in *. destruct (key_find (GetKey v) t); rewrite Hi; eauto.
  - destruct (tree_insert_range_run multipass range t Ht) as (t' & -> & Ht' & Hf). exists t'. split; [done|]. destruct (fold_ref_insert range m) as [Hd Hr]; [by eapply distinct_perm, ordered_distinct|]. apply stands_unique; [done|done|]. intros k. by rewrite Hf, Hr, (stands_find t m).
  - rewrite insert_or_assign_run by done. cbn [mbind exec_bind fst snd]. rewrite <- (stands_absent t m v Hs). destruct (absent t v) eqn:Ea.
    + pose proof (inserted_element v t Ht) as Hi. rewrite Ea in Hi. rewrite Hi. pose proof (stands_insert t m v Hs) as Hs'. unfold ref_insert in Hs'. rewrite <- (stands_absent t m v Hs), Ea in Hs'. rewrite (stands_find _ _ _ Hs'), key_find_app.
      assert (key_find (GetKey v) m = None) as -> by (rewrite <- (stands_find t m) by done; unfold absent in Ea; by destruct (key_find (GetKey v) t)). rewrite key_find_cons, equiv_refl. eauto.
    + unfold absent in Ea. destruct (key_find (GetKey v) t) as [w|] eqn:E; [|done]. rewrite (assigned_element v t w) by done. eexists. split; [done|]. apply stands_assign; [|done]. intros u Hu. by rewrite <- (equiv_equiv _ _ v Hu), equiv_refl.
  - rewrite tree_erase_run by done. cbn [mbind exec_bind fst snd]. rewrite (stands_find t m k Hs). eexists. split; [done|]. by apply stands_filter.
  - unfold EraseIf, size. cbn [mbind exec_bind fst snd]. pose proof (stands_filter (fun v => negb (pred v)) t m Hs) as Hf. destruct Hf as [Hf1 Hf2]. rewrite (Permutation_length Hp), (Permutation_length Hf2). eexists. split; done.
  - destruct (flat_tree_of_spec items) as [H1 H2]. destruct (fold_ref_insert items []) as [Hd Hr]; [constructor|]. eexists. split; [done|]. apply stands_unique; [done|done|]. intros k. by rewrite H2, Hr.
  - eexists. split; [done|]. split; [constructor|done].
  - apply Nat.ltb_lt in Hc. rewrite <- (Permutation_length Hp) in Hc. rewrite (stands_sorted t m Hs). unfold erase_at, size. rewrite (proj2 (Nat.eqb_neq _ _)), (proj2 (Nat.ltb_lt _ _)) by lia. cbn [negb RTC_CHECK mbind exec_bind fst snd]. rewrite delete_take_drop, skipn_cut by lia. eexists. split; [done|]. split; [apply ordered_cut; [lia|done]|done].
  - apply andb_true_iff in Hc as [H1 H2]. rewrite <- (Permutation_length Hp) in H2. rewrite (stands_sorted t m Hs). unfold erase_range, size. rewrite H1, H2. apply Nat.leb_le in H1, H2. cbn [andb mbind exec_bind]. rewrite skipn_cut by lia. eexists. split; [done|]. split; [by apply ordered_cut|done].
  - rewrite (stands_sorted t m Hs). eexists. split; [done|]. split; [constructor|done].
  - apply andb_true_iff in Hc as [H1 H2]. unfold replace. rewrite !RTC_DCHECK_true by done. eexists. split; [done|]. split; [by apply replaceable_ordered|done].
  - destruct (find_element k t Ht) as (it & -> & He). cbn [mbind exec_bind]. rewrite He, (stands_find t m) by done. eauto.
  - rewrite contains_run by done. cbn [mbind exec_bind]. rewrite (stands_find t m) by done. eauto.
  - rewrite count_run by done. cbn [mbind exec_bind]. rewrite (stands_find t m) by done. eauto.
  - destruct (equal_range_element k t Ht) as (r & -> & He). cbn [mbind exec_bind]. rewrite He, (stands_find t m) by done. eauto.
  - rewrite lower_bound_run by done. cbn [mbind exec_bind]. rewrite (stands_sorted t m Hs). rewrite <- partition_filter by apply (partition_ordered _ t Ht (before_closed k)). eauto.
  - rewrite upper_bound_run by done. cbn [mbind exec_bind]. rewrite (stands_sorted t m Hs). rewrite partition_filter.
    + eexists. split; [|done]. do 3 f_equal. apply List.filter_ext. intros v. apply negb_involutive.
    + pose proof (upper_bound_run k t Ht) as Hu. unfold upper_bound, std_upper_bound, std_partition_point in Hu. by destruct (is_partitioned _ t).
  - rewrite (stands_sorted t m Hs). eauto.
  - unfold size. rewrite (Permutation_length Hp). eauto.
Qed.

Lemma run_calls_stands cs t m : stands_for t m -> permitted_calls cs m = true -> exists t', run_calls cs t = Done ((ref_calls cs m).1, t') /\ stands_for t' (ref_calls cs m).2.
Proof using order.
  revert t m. induction cs as [|c cs IH]; intros t m Hs Hc; cbn [run_calls ref_calls fst snd]; [eauto|]. cbn [permitted_calls] in Hc. apply andb_true_iff in Hc as [Hc Hcs]. destruct (run_call_stands c t m Hs Hc) as (t1 & -> & Hs1). cbn [mbind exec_bind fst snd]. destruct (IH t1 _ Hs1 Hcs) as (t2 & -> & Hs2). cbn [mbind exec_bind fst snd]. eauto.
Qed.

End Order.

(** ** flat_map *)

Section MapOrder.
Context {Key Mapped : Type} {build : Build} (key_comp : Key -> Key -> bool) {order : StrictWeakOrder key_comp} (mapped_type : Mapped).
Implicit Types (t : list (Key * Mapped)) (k j : Key) (m : Mapped).
Abbreviation ordered := (ordered fst key_comp).
Abbreviation key_find := (key_find fst key_comp).
Abbreviation equiv := (equiv fst key_comp).

(** What is mapped to a key. *)
Definition mapped k t : option Mapped := snd <$> key_find k t.

Lemma mapped_cons j v t : mapped j (v :: t) = if equiv j v then Some v.2 else mapped j t.
Proof using. unfold mapped. rewrite key_find_cons. by destruct (equiv j v). Qed.

Lemma mapped_insert_before j v t : ordered t -> key_find v.1 t = None -> mapped j (insert_before (value_comp fst key_comp) v t) = if equiv j v then Some v.2 else mapped j t.
Proof using order.
  intros Ht Hn. unfold mapped at 1. rewrite (key_find_perm fst key_comp j _ (v :: t)) by (apply insert_before_perm || apply ordered_distinct; by apply insert_before_ordered). rewrite key_find_cons. by destruct (equiv j v).
Qed.

Lemma mapped_assign j k m t : mapped j (map (assign_at fst key_comp k (fun w => (w.1, m))) t) = if equiv j (k, m) then (match mapped k t with Some _ => Some m | None => None end) else mapped j t.
Proof using order.
  induction t as [|v t IH]; [by destruct (equiv j (k, m))|]. cbn [map]. rewrite !mapped_cons, IH. unfold assign_at. destruct (equiv j (k, m)) eqn:Ej.
  - pose proof (equiv_equiv fst key_comp j (k, m) v Ej) as Hjv. cbn [fst] in Hjv. rewrite <- Hjv. destruct (equiv j v) eqn:Ev.
    + assert (equiv j (v.1, m) = true) as -> by (rewrite <- Ev; done). done.
    + by rewrite Ev.
  - destruct (equiv k v) eqn:Ek; [|done]. assert (equiv j v = false) as ->.
    { rewrite <- not_true_iff_false in *. intros Ev. apply Ej. rewrite (equiv_equiv fst key_comp j v (k, m) Ev). rewrite equiv_sym. exact Ek. }
    assert (equiv j (v.1, m) = false) as ->; [|done]. rewrite <- not_true_iff_false in *. intros Ev. apply Ej. rewrite (equiv_equiv fst key_comp j (v.1, m) (k, m) Ev). rewrite equiv_sym. exact Ek.
Qed.

Lemma set_second_assign k m t v : ordered t -> key_find k t = Some v -> set_second (rank fst key_comp k t) m t = map (assign_at fst key_comp k (fun w => (w.1, m))) t.
Proof using order. intros Ht E. unfold set_second. by rewrite (alter_rank fst key_comp _ k t v). Qed.

Lemma assign_second_ordered k m t : ordered t -> ordered (map (assign_at fst key_comp k (fun w => (w.1, m))) t).
Proof using order. apply (assign_ordered fst key_comp k (fun w => (w.1, m)) t). intros w _. apply (equiv_refl fst key_comp w). Qed.

Lemma map_at_run k t : ordered t -> map_at key_comp k t = match mapped k t with Some m => Done m | None => Fatal end.
Proof using order.
  intros Ht. unfold map_at, mapped. rewrite find_run by done. destruct (key_find k t) as [v|] eqn:E; cbn [mbind exec_bind fmap option_fmap option_map].
  - pose proof (rank_found fst key_comp k t v Ht E). unfold size. rewrite (proj2 (Nat.eqb_neq _ _)) by lia. cbn [negb RTC_CHECK]. unfold dereference. by rewrite (found_at_rank fst key_comp k t v).
  - unfold size. by rewrite Nat.eqb_refl.
Qed.

Lemma subscript_run k t : ordered t -> exists it t' v, subscript key_comp mapped_type k t = Done (it, t') /\ ordered t' /\ t' !! it = Some v /\ equiv k v = true /\ v.2 = default mapped_type (mapped k t) /\
  (forall j, mapped j t' = if equiv j (k, mapped_type) then Some (default mapped_type (mapped k t)) else mapped j t).
Proof using order.
  intros Ht. unfold subscript. rewrite lower_bound_run by done. cbn [mbind exec_bind]. rewrite end_or_before_run by done. cbn [mbind exec_bind]. assert (mapped k t = snd <$> key_find k t) as -> by done. destruct (key_find k t) as [v|] eqn:E; cbn [fmap option_fmap option_map default].
  - exists (rank fst key_comp k t), t, v. split_and!; [done|done|by apply found_at_rank|by eapply key_find_Some|done|]. intros j. destruct (equiv j (k, mapped_type)) eqn:Ej; [|done]. unfold mapped.
    assert (key_find j t = Some v) as ->; [|done]. rewrite <- E. unfold FlatTree.key_find. clear -Ej order. induction t as [|w t IH]; [done|]. cbn. rewrite (equiv_equiv fst key_comp j (k, mapped_type) w Ej). by rewrite IH.
  - unfold unsafe_emplace. rewrite (proj2 (Nat.leb_le _ _)) by (by apply rank_le). exists (rank fst key_comp k t), (insert_before (value_comp fst key_comp) (k, mapped_type) t), (k, mapped_type).
    pose proof (insert_before_rank fst key_comp (k, mapped_type) t) as Hi. cbn [fst] in Hi. split_and!; [by rewrite <- Hi|by apply insert_before_ordered| |apply (equiv_refl fst key_comp (k, mapped_type))|done|].
    + pose proof (inserted_element fst key_comp (k, mapped_type) t Ht) as Hel. unfold absent in Hel. cbn [fst] in Hel. rewrite E in Hel. rewrite Hel. rewrite (key_find_perm fst key_comp _ _ ((k, mapped_type) :: t)) by (apply insert_before_perm || apply ordered_distinct; by apply insert_before_ordered).
      rewrite key_find_cons. by rewrite (equiv_refl fst key_comp (k, mapped_type) : equiv k (k, mapped_type) = true).
    + intros j. by rewrite mapped_insert_before.
Qed.

Lemma map_insert_or_assign_run k m t : ordered t -> exists it t', map_insert_or_assign key_comp k m t = Done (it, match mapped k t with None => true | Some _ => false end, t') /\ ordered t' /\
  (forall j, mapped j t' = if equiv j (k, m) then Some m else mapped j t).
Proof using order.
  intros Ht. unfold map_insert_or_assign. pose proof (emplace_key_args_run fst key_comp (k, m) t Ht) as Hr. cbn [fst] in Hr. rewrite Hr. cbn [mbind exec_bind fst snd]. unfold mapped at 1. destruct (key_find k t) as [v|] eqn:E.
  - rewrite (set_second_assign k m t v) by done. eexists _, _. split_and!; [reflexivity|by apply assign_second_ordered|]. intros j. rewrite mapped_assign. unfold mapped at 1. by rewrite E.
  - eexists _, _. split_and!; [reflexivity|by apply insert_before_ordered|]. intros j. by rewrite mapped_insert_before.
Qed.

Lemma map_insert_or_assign_hint_same hint k m t : ordered t -> hint <= size t -> map_insert_or_assign_hint key_comp hint k m t = (r ← map_insert_or_assign key_comp k m t; Done (r.1.1, r.2)).
Proof using order.
  intros Ht Hh. unfold map_insert_or_assign_hint, map_insert_or_assign. pose proof (emplace_hint_same fst key_comp hint (k, m) t Ht Hh) as Hs. cbn [fst] in Hs. rewrite Hs. destruct (emplace_key_args fst key_comp k (k, m) t); done.
Qed.

Lemma try_emplace_run k m t : ordered t -> exists it t', try_emplace key_comp k m t = Done (it, match mapped k t with None => true | Some _ => false end, t') /\ ordered t' /\
  (forall j, mapped j t' = match mapped j t with Some x => Some x | None => if equiv j (k, m) then Some m else None end).
Proof using order.
  intros Ht. unfold try_emplace. pose proof (emplace_key_args_run fst key_comp (k, m) t Ht) as Hr. cbn [fst] in Hr. rewrite Hr. unfold mapped at 1.
  assert (forall j, equiv j (k, m) = true -> mapped j t = mapped k t) as Hj. { intros j Ej. unfold mapped, FlatTree.key_find. f_equal. clear -Ej order. induction t as [|w t IH]; [done|]. cbn. rewrite (equiv_equiv fst key_comp j (k, m) w Ej). by rewrite IH. }
  destruct (key_find k t) as [v|] eqn:E; (eexists _, _; split_and!; [reflexivity| |]).
  - done.
  - intros j. destruct (equiv j (k, m)) eqn:Ej; [|by destruct (mapped j t)]. rewrite Hj by done. unfold mapped. by rewrite E.
  - by apply insert_before_ordered.
  - intros j. rewrite mapped_insert_before by done. destruct (equiv j (k, m)) eqn:Ej; [|by destruct (mapped j t)]. rewrite Hj by done. unfold mapped. by rewrite E.
Qed.

Lemma try_emplace_hint_same hint k m t : ordered t -> hint <= size t -> try_emplace_hint key_comp hint k m t = (r ← try_emplace key_comp k m t; Done (r.1.1, r.2)).
Proof using order. intros Ht Hh. unfold try_emplace_hint, try_emplace. pose proof (emplace_hint_same fst key_comp hint (k, m) t Ht Hh) as Hs. cbn [fst] in Hs. by rewrite Hs. Qed.

End MapOrder.

(** ** Properties *)

(** C12: For a comparison that is a strict weak order, any sequence of calls on a [flat_tree]
    (insertions with any hints and ranges, every erasure, [extract], [replace], assignment and
    the searches), in which the erased positions are in the tree and the bodies that [replace]
    is given are in order, runs without breaking a check or a precondition of the standard library, and
    answers as a list without order that is searched from its front: of a range, the first
    of equal keys is inserted, and none whose key the tree has. *)
Theorem flat_tree_calls {Key Value} {build : Build} (GetKey : Value -> Key) (key_comp : Key -> Key -> bool) cs : StrictWeakOrder key_comp ->
  permitted_calls GetKey key_comp cs [] = true ->
  exists t, run_calls GetKey key_comp cs [] = Done ((ref_calls GetKey key_comp cs []).1, t) /\ ordered GetKey key_comp t /\ t ≡ₚ (ref_calls GetKey key_comp cs []).2.
Proof. intros order. apply (run_calls_stands GetKey key_comp cs [] []). split; [constructor|done]. Qed.

#[export] Instance nat_order : StrictWeakOrder Nat.ltb.
Proof.
  split; [apply Nat.ltb_irrefl|intros a b c H1%Nat.ltb_lt H2%Nat.ltb_lt; apply Nat.ltb_lt; lia|].
  intros a b c H%Nat.ltb_lt. destruct (Nat.ltb_spec a c); [by left|right; apply Nat.ltb_lt; lia].
Qed.

Definition sample_calls : list (call (Key := nat) (Value := nat * nat)) :=
  [CInsertRange true [(5, 0); (1, 0); (5, 1); (3, 0)]; CInsertHint 0 (4, 7); CInsert (3, 9); CInsertOrAssign (1, 8); CErase 5; CFind 3; CLowerBound 2; CElements; CEraseAt 1; CReplace [(2, 2); (6, 6)]; CSize; CEqualRange 6; CExtract].

Lemma flat_tree_calls_witness : exists t, run_calls (build := debug_x64) fst Nat.ltb sample_calls [] = Done ((ref_calls fst Nat.ltb sample_calls []).1, t) /\ ordered fst Nat.ltb t /\ t ≡ₚ (ref_calls fst Nat.ltb sample_calls []).2.
Proof. exact (flat_tree_calls (build := debug_x64) fst Nat.ltb sample_calls nat_order eq_refl). Defined.

Example sample_tree_calls_ex : (ref_calls fst Nat.ltb sample_calls []).1 =
  [Nothing; Element (Some (4, 7)); Inserted (Some (3, 0)) false; Inserted (Some (1, 8)) false; Number 1; Element (Some (3, 0)); Values [(3, 0); (4, 7)]; Values [(1, 8); (3, 0); (4, 7)];
   Values [(4, 7)]; Nothing; Number 2; Values [(6, 6)]; Values [(2, 2); (6, 6)]].
Proof. reflexivity. Qed.

(** The operations of [flat_map] are those of a map: [at] finds what was assigned last and
    ends the program for a key without a value; [operator[]] refers to the value of its key,
    which it makes if there is none; [insert_or_assign] changes the value of its key only, and
    [try_emplace] no value that is there. *)
Theorem flat_map_operations {Key Mapped} (key_comp : Key -> Key -> bool) (mapped_type : Mapped) t k m :
  StrictWeakOrder key_comp -> ordered fst key_comp t ->
  map_at key_comp k t = match mapped key_comp k t with Some x => Done x | None => Fatal end /\
  (exists it t' v, subscript key_comp mapped_type k t = Done (it, t') /\ ordered fst key_comp t' /\ t' !! it = Some v /\ equiv fst key_comp k v = true /\ v.2 = default mapped_type (mapped key_comp k t) /\
    (forall j, mapped key_comp j t' = if equiv fst key_comp j (k, mapped_type) then Some (default mapped_type (mapped key_comp k t)) else mapped key_comp j t)) /\
  (exists it t', map_insert_or_assign key_comp k m t = Done (it, match mapped key_comp k t with None => true | Some _ => false end, t') /\ ordered fst key_comp t' /\
    (forall j, mapped key_comp j t' = if equiv fst key_comp j (k, m) then Some m else mapped key_comp j t)) /\
  (exists it t', try_emplace key_comp k m t = Done (it, match mapped key_comp k t with None => true | Some _ => false end, t') /\ ordered fst key_comp t' /\
    (forall j, mapped key_comp j t' = match mapped key_comp j t with Some x => Some x | None => if equiv fst key_comp j (k, m) then Some m else None end)).
Proof. intros order Ht. split_and!; [by apply map_at_run|by apply subscript_run|by apply map_insert_or_assign_run|by apply try_emplace_run]. Qed.

Definition sample_map : list (nat * nat) := [(1, 8); (3, 0); (4, 7)].

Lemma flat_map_operations_witness :
  map_at Nat.ltb 3 sample_map = match mapped Nat.ltb 3 sample_map with Some x => Done x | None => Fatal end /\
  (exists it t' v, subscript Nat.ltb 0 3 sample_map = Done (it, t') /\ ordered fst Nat.ltb t' /\ t' !! it = Some v /\ equiv fst Nat.ltb 3 v = true /\ v.2 = default 0 (mapped Nat.ltb 3 sample_map) /\
    (forall j, mapped Nat.ltb j t' = if equiv fst Nat.ltb j (3, 0) then Some (default 0 (mapped Nat.ltb 3 sample_map)) else mapped Nat.ltb j sample_map)) /\
  (exists it t', map_insert_or_assign Nat.ltb 3 6 sample_map = Done (it, match mapped Nat.ltb 3 sample_map with None => true | Some _ => false end, t') /\ ordered fst Nat.ltb t' /\
    (forall j, mapped Nat.ltb j t' = if equiv fst Nat.ltb j (3, 6) then Some 6 else mapped Nat.ltb j sample_map)) /\
  (exists it t', try_emplace Nat.ltb 3 6 sample_map = Done (it, match mapped Nat.ltb 3 sample_map with None => true | Some _ => false end, t') /\ ordered fst Nat.ltb t' /\
    (forall j, mapped Nat.ltb j t' = match mapped Nat.ltb j sample_map with Some x => Some x | None => if equiv fst Nat.ltb j (3, 6) then Some 6 else None end)).
Proof. apply (flat_map_operations Nat.ltb 0 sample_map 3 6); [exact nat_order|repeat constructor]. Defined.

(** [replace] takes what is in order. *)
Lemma replace_run {Key Value} {build : Build} (GetKey : Value -> Key) (key_comp : Key -> Key -> bool) body t :
  StrictWeakOrder key_comp -> ordered GetKey key_comp body -> replace GetKey key_comp body t = Done body.
Proof. intros order Hb. unfold replace. by rewrite !RTC_DCHECK_true by (by apply ordered_is_sorted || by apply ordered_adjacent). Qed.

(** A comparison that is no order: with [<=] the same value is inserted twice, and is not
    found. *)
Example not_an_order {build : Build} : run_calls (fun x => x) Nat.leb [CInsert 1; CInsert 1; CFind 1] [] = Done ([Inserted (Some 1) true; Inserted (Some 1) true; Element None], [1; 1]).
Proof. reflexivity. Qed.
