(* ===== verification/IdMap.v ===== *)
(** * IdMap: base/containers/id_map.h

    [IDMap] maps ids to objects and defers the removal of an entry while there are iterators.
    The ids that wait for it are a [base::flat_set], so its operations are those of
    [FlatTree].

    The order of an [std::unordered_map] is not specified: [hash_insert] is where an insertion
    leaves the entries, and [rehashes] tells whether it invalidates the iterators; erasing
    keeps the order of what is left.  A value is a pointer, null or not.  All calls are made on
    one sequence, so the sequence checkers are left out. *)

From Stdlib Require Import Permutation.
From stdpp Require Import gmap sorting.
From S2P Require Import Prelude IntTypes FlatTree.

Open Scope Z_scope.
Open Scope list_scope.

Section IdMap.
Context {P : Type} {build : Build} (KeyType : int_type).

(** A pointer. *)
Abbreviation V := (option P).
Abbreviation entry := (Z * option P)%type.

Context (hash_insert : list entry -> Z -> V -> list entry) (rehashes : list entry -> bool).

(** [tables] counts the insertions that invalidated the iterators. *)
Record IDMap := mkIDMap {
  iteration_depth_ : Z; removed_ids_ : list Z; next_id_ : Z; data_ : list entry; check_on_null_data_ : bool; tables : nat
}.

Definition set_depth (d : Z) (m : IDMap) : IDMap := mkIDMap d (removed_ids_ m) (next_id_ m) (data_ m) (check_on_null_data_ m) (tables m).
Definition set_removed (r : list Z) (m : IDMap) : IDMap := mkIDMap (iteration_depth_ m) r (next_id_ m) (data_ m) (check_on_null_data_ m) (tables m).
Definition set_next (n : Z) (m : IDMap) : IDMap := mkIDMap (iteration_depth_ m) (removed_ids_ m) n (data_ m) (check_on_null_data_ m) (tables m).
Definition set_data (d : list entry) (m : IDMap) : IDMap := mkIDMap (iteration_depth_ m) (removed_ids_ m) (next_id_ m) d (check_on_null_data_ m) (tables m).
Definition set_check_on_null_data (value : bool) (m : IDMap) : IDMap := mkIDMap (iteration_depth_ m) (removed_ids_ m) (next_id_ m) (data_ m) value (tables m).
Definition set_tables (n : nat) (m : IDMap) : IDMap := mkIDMap (iteration_depth_ m) (removed_ids_ m) (next_id_ m) (data_ m) (check_on_null_data_ m) n.

Definition new_IDMap : IDMap := mkIDMap 0 [] 1 [] false 0.

(** [flat_set<KeyType>]. *)
Abbreviation self := (fun id : Z => id).

(** *** The hash table *)

Definition data_find (id : Z) (l : list entry) : option V := snd <$> List.find (fun e => e.1 =? id) l.

Definition data_erase (id : Z) (l : list entry) : list entry := List.filter (fun e => negb (e.1 =? id)) l.

Definition data_assign (id : Z) (v : V) (l : list entry) : list entry := map (fun e => if e.1 =? id then (e.1, v) else e) l.

(** [data_[id] = v]. *)
Definition data_subscript (id : Z) (v : V) (m : IDMap) : IDMap :=
  match data_find id (data_ m) with
  | Some _ => set_data (data_assign id v (data_ m)) m
  | None => set_tables (if rehashes (data_ m) then Datatypes.S (tables m) else tables m) (set_data (hash_insert (data_ m) id v) m)
  end.

(** *** Operations *)

Definition IsRemoved (key : Z) (m : IDMap) : exec bool :=
  it ← FlatTree.find self Z.ltb key (removed_ids_ m); Done (negb (it =? FlatTree.size (removed_ids_ m))%nat).

Definition null_checked {A} (data : V) (m : IDMap) (k : exec A) : exec A :=
  RTC_DCHECK (negb (check_on_null_data_ m) || match data with Some _ => true | None => false end) k.

Definition Add (data : V) (m : IDMap) : exec (Z * IDMap) :=
  null_checked data m (
    let this_id := next_id_ m in
    RTC_DCHECK (match data_find this_id (data_ m) with None => true | Some _ => false end) (
      let m := data_subscript this_id data m in
      next ← defined (c_add KeyType Int32 (next_id_ m) 1);
      Done (this_id, set_next (static_cast KeyType next) m))).

Definition AddWithID (data : V) (id : Z) (m : IDMap) : exec IDMap :=
  null_checked data m (
    removed ← IsRemoved id m;
    if (removed : bool) then r ← erase self Z.ltb id (removed_ids_ m); Done (data_subscript id data (set_removed r.2 m))
    else RTC_DCHECK (match data_find id (data_ m) with None => true | Some _ => false end) (Done (data_subscript id data m))).

(** [NOTREACHED] is a check that fails in a debug build. *)
Definition Remove (id : Z) (m : IDMap) : exec IDMap :=
  removed ← match data_find id (data_ m) with None => Done true | Some _ => IsRemoved id m end;
  if (removed : bool) then RTC_DCHECK false (Done m) else
  if iteration_depth_ m =? 0 then Done (set_data (data_erase id (data_ m)) m)
  else r ← FlatTree.insert self Z.ltb id (removed_ids_ m); Done (set_removed r.2 m).

Definition Replace (id : Z) (new_data : V) (m : IDMap) : exec (V * IDMap) :=
  null_checked new_data m (
  RTC_DCHECK (match data_find id (data_ m) with None => false | Some _ => true end) (
  RTC_DCHECK_eval (r ← IsRemoved id m; Done (negb r)) (
    old ← defined (data_find id (data_ m));
    Done (old, set_data (data_assign id new_data (data_ m)) m)))).

Definition Clear (m : IDMap) : exec IDMap :=
  if iteration_depth_ m =? 0 then Done (set_data [] m)
  else r ← insert_range self Z.ltb true (map fst (data_ m)) (removed_ids_ m); Done (set_removed r m).

Definition Lookup (id : Z) (m : IDMap) : exec (option P) :=
  match data_find id (data_ m) with
  | None | Some None => Done None
  | Some (Some p) => r ← IsRemoved id m; Done (if (r : bool) then None else Some p)
  end.

Definition size (m : IDMap) : Z := static_cast Uint64 (Z.of_nat (length (data_ m)) - Z.of_nat (length (removed_ids_ m))).

Definition IsEmpty (m : IDMap) : bool := size m =? 0.

(** *** Iterators *)

(** The id of the entry, none at the end, and the table it is an iterator of. *)
Record Iterator := mkIterator { iter_ : option Z; table : nat }.

(** The entries from an iterator on. *)
Fixpoint suffix (id : Z) (l : list entry) : list entry :=
  match l with [] => [] | e :: k => if e.1 =? id then l else suffix id k end.

Definition entries_from (it : Iterator) (m : IDMap) : exec (list entry) :=
  if negb (table it =? tables m)%nat then Undef else
  match iter_ it with
  | None => Done []
  | Some id => match suffix id (data_ m) with [] => Undef | l => Done l end
  end.

(** The loop of [SkipRemovedEntries]. *)
Fixpoint first_live (m : IDMap) (l : list entry) : exec (option Z) :=
  match l with
  | [] => Done None
  | e :: l => r ← IsRemoved e.1 m; if (r : bool) then first_live m l else Done (Some e.1)
  end.

Definition SkipRemovedEntries (l : list entry) (m : IDMap) : exec Iterator := id ← first_live m l; Done (mkIterator id (tables m)).

Definition Init (l : list entry) (m : IDMap) : exec (Iterator * IDMap) :=
  depth ← defined (c_add Int32 Int32 (iteration_depth_ m) 1);
  let m := set_depth depth m in
  it ← SkipRemovedEntries l m; Done (it, m).

Definition Iterator_new (m : IDMap) : exec (Iterator * IDMap) := Init (data_ m) m.

Definition Iterator_copy (it : Iterator) (m : IDMap) : exec (Iterator * IDMap) := l ← entries_from it m; Init l m.

(** The entries that wait to be erased are. *)
Definition Compact (m : IDMap) : exec IDMap :=
  RTC_DCHECK (iteration_depth_ m =? 0) (Done (set_removed [] (set_data (fold_left (fun l id => data_erase id l) (removed_ids_ m) (data_ m)) m))).

Definition Iterator_destroy (m : IDMap) : exec IDMap :=
  RTC_DCHECK (0 <? iteration_depth_ m) (
    depth ← defined (c_sub Int32 Int32 (iteration_depth_ m) 1);
    let m := set_depth depth m in
    if depth =? 0 then Compact m else Done m).

Definition IsAtEnd (it : Iterator) (m : IDMap) : exec bool :=
  l ← entries_from it m; Done (match l with [] => true | _ => false end).

Definition GetCurrentKey (it : Iterator) (m : IDMap) : exec Z := l ← entries_from it m; e ← defined (head l); Done e.1.

Definition GetCurrentValue (it : Iterator) (m : IDMap) : exec (option P) :=
  l ← entries_from it m; e ← defined (head l);
  match e.2 with None => Done None | Some p => r ← IsRemoved e.1 m; Done (if (r : bool) then None else Some p) end.

Definition Advance (it : Iterator) (m : IDMap) : exec Iterator :=
  l ← entries_from it m; match l with [] => Undef | _ :: l => SkipRemovedEntries l m end.

End IdMap.

(** ** Ids that are removed *)

#[export] Instance Z_order : StrictWeakOrder Z.ltb.
Proof.
  split; [apply Z.ltb_irrefl|intros a b c H1%Z.ltb_lt H2%Z.ltb_lt; apply Z.ltb_lt; lia|].
  intros a b c H%Z.ltb_lt. destruct (Z.ltb_spec a c); [by left|right; apply Z.ltb_lt; lia].
Qed.

Section Ids.
Context {build : Build}.
Implicit Types (r : list Z) (id k : Z).
Abbreviation self := (fun id : Z => id).
Abbreviation ids := (ordered self Z.ltb).

Lemma equiv_eq k id : equiv self Z.ltb k id = (k =? id).
Proof using. unfold equiv. destruct (Z.ltb_spec k id), (Z.ltb_spec id k), (Z.eqb_spec k id); try done; lia. Qed.

Lemma key_find_in id r : match key_find self Z.ltb id r with Some v => v = id /\ id ∈ r | None => id ∉ r end.
Proof using.
  induction r as [|x r IH]; [by apply not_elem_of_nil|]. rewrite key_find_cons, equiv_eq. destruct (Z.eqb_spec id x) as [->|Hne]; [split; [done|left]|].
  destruct (key_find self Z.ltb id r); [split; [apply IH|right; apply IH]|]. intros [?|?]%elem_of_cons; done.
Qed.

Lemma key_find_bool id r : match key_find self Z.ltb id r with Some _ => true | None => false end = bool_decide (id ∈ r).
Proof using. pose proof (key_find_in id r) as H. destruct (key_find self Z.ltb id r); [by rewrite bool_decide_true by apply H|by rewrite bool_decide_false]. Qed.

Lemma ids_insert id r : ids r -> exists x r', FlatTree.insert self Z.ltb id r = Done (x, r') /\ ids r' /\ (forall k, k ∈ r' <-> k = id \/ k ∈ r).
Proof using.
  intros Hr. pose proof (emplace_key_args_run self Z.ltb id r Hr) as Hrun. cbn beta in Hrun. unfold FlatTree.insert. rewrite Hrun. clear Hrun. pose proof (key_find_in id r) as Hf. destruct (key_find self Z.ltb id r) as [v|] eqn:E; (eexists _, _; split_and!; [reflexivity| |]).
  - done.
  - intros k. destruct Hf as [-> Hin]. split; [by right|intros [->|?]; done].
  - exact (insert_before_ordered self Z.ltb id r Hr E).
  - intros k. rewrite (insert_before_perm self Z.ltb id r). apply elem_of_cons.
Qed.

Lemma ids_erase id r : ids r -> exists n r', erase self Z.ltb id r = Done (n, r') /\ ids r' /\ (forall k, k ∈ r' <-> k <> id /\ k ∈ r).
Proof using.
  intros Hr. rewrite (tree_erase_run self Z.ltb id r Hr). eexists _, _. split_and!; [reflexivity|by apply ordered_filter|]. intros k. rewrite !list_elem_of_In, List.filter_In, equiv_eq, negb_true_iff, Z.eqb_neq. intuition congruence.
Qed.

Lemma ids_insert_range range r : ids r -> exists r', insert_range self Z.ltb true range r = Done r' /\ ids r' /\ (forall k, k ∈ r' <-> k ∈ r \/ k ∈ range).
Proof using.
  intros Hr. destruct (tree_insert_range_run self Z.ltb true range r Hr) as (r' & -> & Hr' & Hf). exists r'. split_and!; [done|done|]. intros k. specialize (Hf k). pose proof (key_find_in k r') as H1. pose proof (key_find_in k r) as H2. pose proof (key_find_in k range) as H3.
  rewrite Hf in H1. destruct (key_find self Z.ltb k r); [intuition|]. destruct (key_find self Z.ltb k range); intuition.
Qed.

Lemma ids_NoDup r : ids r -> NoDup r.
Proof using.
  intros Hr%ordered_distinct. unfold distinct in Hr. induction Hr as [|x r _ IH Hall]; constructor; [|done]. intros Hx%list_elem_of_In. eapply List.Forall_forall in Hall; [|exact Hx]. by rewrite equiv_eq, Z.eqb_refl in Hall.
Qed.

End Ids.

(** ** The entries as a finite map *)

Section Entries.
Context {P : Type}.
Abbreviation V := (option P).
Implicit Types (l : list (Z * option P)) (id k : Z) (v : option P).

Lemma data_find_map k l : (list_to_map l : gmap Z V) !! k = data_find k l.
Proof using.
  unfold data_find. induction l as [|[id v] l IH]; [done|]. cbn [list_to_map foldr List.find fst snd]. destruct (Z.eqb_spec id k) as [->|Hne]; [by rewrite lookup_insert_eq|]. rewrite lookup_insert_ne by done. exact IH.
Qed.

Lemma data_find_key k l : is_Some (data_find k l) <-> k ∈ l.*1.
Proof using.
  unfold data_find. induction l as [|[id v] l IH]; cbn [List.find fst snd fmap list_fmap].
  - split; [by intros [? ?]|by intros ?%elem_of_nil].
  - change (((id, v) :: l).*1) with (id :: l.*1). rewrite elem_of_cons. destruct (Z.eqb_spec id k) as [->|Hne]; [split; [by left|eauto]|]. rewrite IH. split; [by right|intros [?|?]; [done|done]].
Qed.

Lemma data_find_perm k l1 l2 : NoDup (l1.*1) -> l1 ≡ₚ l2 -> data_find k l1 = data_find k l2.
Proof using. intros Hd Hp. rewrite <- !data_find_map. by rewrite (list_to_map_proper l1 l2 Hd Hp). Qed.

Lemma data_find_filter (p : Z -> bool) k l : data_find k (List.filter (fun e => p e.1) l) = if p k then data_find k l else None.
Proof using.
  unfold data_find. induction l as [|[id v] l IH]; cbn; [by destruct (p k)|]. destruct (p id) eqn:E; cbn.
  - destruct (Z.eqb_spec id k) as [->|Hne]; [by rewrite E|exact IH].
  - rewrite IH. destruct (Z.eqb_spec id k) as [->|Hne]; [by rewrite E|done].
Qed.

Lemma data_find_erase k id l : data_find k (data_erase id l) = if decide (k = id) then None else data_find k l.
Proof using.
  unfold data_erase. rewrite (data_find_filter (fun x => negb (x =? id)) k l). destruct (Z.eqb_spec k id) as [->|Hne]; [by rewrite decide_True|by rewrite decide_False].
Qed.

Lemma data_find_assign k id v l : data_find k (data_assign id v l) = if decide (k = id) then (_ ← data_find k l; Some v) else data_find k l.
Proof using.
  unfold data_find, data_assign. induction l as [|[x w] l IH]; cbn; [by destruct (decide (k = id))|]. destruct (Z.eqb_spec x id) as [->|Hne]; cbn.
  - destruct (Z.eqb_spec id k) as [->|Hk]; [by rewrite decide_True|exact IH].
  - destruct (Z.eqb_spec x k) as [->|Hk]; [by rewrite decide_False|exact IH].
Qed.

Lemma data_assign_keys id v l : (data_assign id v l).*1 = l.*1.
Proof using. unfold data_assign. induction l as [|[x w] l IH]; [done|]. cbn. rewrite <- IH. by destruct (x =? id). Qed.

Lemma filter_keys (p : Z -> bool) l : (List.filter (fun e => p e.1) l).*1 = List.filter p (l.*1).
Proof using. induction l as [|[x w] l IH]; [done|]. cbn. destruct (p x); cbn; by rewrite IH. Qed.

Lemma filter_NoDup (p : Z -> bool) (r : list Z) : NoDup r -> NoDup (List.filter p r).
Proof using. induction 1 as [|x r Hx _ IH]; cbn; [constructor|]. destruct (p x); [|done]. constructor; [|done]. intros [H _]%list_elem_of_In%List.filter_In. by apply Hx, list_elem_of_In. Qed.

End Entries.

(** ** What an IDMap holds *)

Section Contents.
Context {P : Type} {build : Build} (KeyType : int_type) (hash_insert : list (Z * option P) -> Z -> option P -> list (Z * option P)) (rehashes : list (Z * option P) -> bool) (check : bool).
Abbreviation V := (option P).
Abbreviation subscript := (data_subscript hash_insert rehashes).

Class HashTable : Prop := { hash_insert_perm l id v : hash_insert l id v ≡ₚ (id, v) :: l }.

Implicit Types (m : IDMap (P := P)) (id k : Z) (v : option P) (c : gmap Z (option P)).

Definition waits m k : bool := bool_decide (k ∈ removed_ids_ m).

(** The entries that were not removed. *)
Definition contents m : gmap Z V := list_to_map (List.filter (fun e => negb (waits m e.1)) (data_ m)).

(** The ids that were given to an entry are among [used]; nothing waits to be erased when there
    are no iterators. *)
Record well_formed (used : gset Z) m : Prop := {
  wf_keys : NoDup ((data_ m).*1);
  wf_used : forall k, k ∈ (data_ m).*1 -> k ∈ used;
  wf_removed : ordered (fun id : Z => id) Z.ltb (removed_ids_ m);
  wf_waits : forall k, k ∈ removed_ids_ m -> k ∈ (data_ m).*1;
  wf_depth : 0 <= iteration_depth_ m <= IntTypes.max Int32;
  wf_erased : iteration_depth_ m = 0 -> removed_ids_ m = [];
  wf_next : InRange KeyType (next_id_ m);
  wf_check : check_on_null_data_ m = check
}.

Context {hash_table : HashTable}.

Lemma contents_lookup m k : contents m !! k = if waits m k then None else data_find k (data_ m).
Proof using. unfold contents. rewrite data_find_map, (data_find_filter (fun x => negb (waits m x))). by destruct (waits m k). Qed.

Lemma IsRemoved_run used m id : well_formed used m -> IsRemoved id m = Done (waits m id).
Proof using.
  intros Hm. unfold IsRemoved. rewrite (find_run _ Z.ltb id _ (wf_removed _ _ Hm)). cbn [mbind exec_bind]. unfold waits. rewrite <- key_find_bool. pose proof (rank_found (fun id : Z => id) Z.ltb id (removed_ids_ m)) as Hr. unfold FlatTree.size.
  destruct (key_find _ _ id (removed_ids_ m)) as [v|]; [|by rewrite Nat.eqb_refl]. by rewrite (proj2 (Nat.eqb_neq _ _)) by (specialize (Hr v (wf_removed _ _ Hm) eq_refl); lia).
Qed.

Lemma Lookup_run used m id : well_formed used m -> Lookup id m = Done (v ← contents m !! id; v).
Proof using.
  intros Hm. unfold Lookup. rewrite contents_lookup. destruct (data_find id (data_ m)) as [[p|]|]; cbn [mbind option_bind].
  - rewrite (IsRemoved_run used) by done. cbn [mbind exec_bind]. by destruct (waits m id).
  - by destruct (waits m id).
  - by destruct (waits m id).
Qed.

(** [size()] is the number of entries that were not removed. *)
Lemma size_run used m : well_formed used m -> size m = static_cast Uint64 (Z.of_nat (base.size (contents m))).
Proof using.
  intros Hm. unfold size. f_equal. unfold contents. pose proof (filter_NoDup (fun x => negb (waits m x)) _ (wf_keys _ _ Hm)) as Hd. rewrite <- filter_keys in Hd. rewrite map_size_list_to_map by done.
  assert ((data_ m).*1 ≡ₚ removed_ids_ m ++ List.filter (fun x => negb (waits m x)) ((data_ m).*1)) as Hp.
  { apply NoDup_Permutation; [apply Hm| |].
    - apply list.NoDup_app. split_and!; [apply ids_NoDup, Hm| |by rewrite <- filter_keys]. intros x Hx [_ Hw]%list_elem_of_In%List.filter_In. unfold waits in Hw. by rewrite bool_decide_true in Hw.
    - intros x. rewrite elem_of_app, (list_elem_of_In (List.filter _ _) x), List.filter_In, <- list_elem_of_In. unfold waits. split.
      + intros Hx. destruct (decide (x ∈ removed_ids_ m)); [by left|right]. by rewrite bool_decide_false.
      + intros [Hx|[Hx _]]; [by apply (wf_waits _ _ Hm)|done]. }
  apply Permutation_length in Hp. rewrite length_app, length_fmap, <- filter_keys, length_fmap in Hp. lia.
Qed.

Lemma null_checked_run {A} used m v (k : exec A) : well_formed used m -> (check = true -> is_Some v) -> null_checked v m k = k.
Proof using.
  intros Hm Hv. unfold null_checked. rewrite (wf_check _ _ Hm). apply RTC_DCHECK_true. destruct check; [|done]. destruct (Hv eq_refl) as [p ->]. done.
Qed.

(** Writing an entry that is not there: it is new, or one that waited to be erased. *)
Lemma idmap_subscript_run used m id v : well_formed used m -> id ∉ removed_ids_ m ->
  well_formed ({[id]} ∪ used) (subscript id v m) /\ contents (subscript id v m) = <[id := v]> (contents m) /\ removed_ids_ (subscript id v m) = removed_ids_ m /\
  next_id_ (subscript id v m) = next_id_ m /\ iteration_depth_ (subscript id v m) = iteration_depth_ m.
Proof using hash_table.
  intros Hm Hnot. pose proof Hm as [Hk Hu Hr Hw Hd He Hn Hc]. unfold data_subscript. destruct (data_find id (data_ m)) as [w|] eqn:E.
  - split_and!; try done.
    + split; cbn; rewrite ?data_assign_keys; try done. intros k Hk'. apply elem_of_union_r. auto.
    + apply map_eq. intros k. rewrite contents_lookup. cbn [data_ set_data]. rewrite data_find_assign. change (waits (set_data (data_assign id v (data_ m)) m) k) with (waits m k). destruct (decide (k = id)) as [->|Hne].
      * rewrite lookup_insert_eq, E. unfold waits. by rewrite bool_decide_false.
      * by rewrite lookup_insert_ne, contents_lookup.
  - assert (id ∉ (data_ m).*1) as Hni by (rewrite <- data_find_key, E; by intros [? ?]). pose proof (hash_insert_perm (data_ m) id v) as Hp.
    assert (NoDup ((hash_insert (data_ m) id v).*1)) as Hnd by (rewrite Hp; constructor; done).
    split_and!; try done.
    + split; cbn; try done.
      * intros k. rewrite Hp. cbn. rewrite elem_of_cons. intros [->|Hk']; [apply elem_of_union_l; by apply elem_of_singleton|apply elem_of_union_r; auto].
      * intros k Hk'. rewrite Hp. cbn. right. auto.
    + apply map_eq. intros k. rewrite contents_lookup. cbn [data_ set_data set_tables]. rewrite (data_find_perm k _ _ Hnd Hp). unfold data_find at 1. cbn [List.find fst]. destruct (Z.eqb_spec id k) as [->|Hne].
      * rewrite lookup_insert_eq. unfold waits. cbn. by rewrite bool_decide_false.
      * rewrite lookup_insert_ne by done. rewrite contents_lookup. done.
Qed.

Lemma Add_run used m v : well_formed used m -> next_id_ m ∉ used -> InRange KeyType (next_id_ m + 1) -> (check = true -> is_Some v) ->
  exists m', Add KeyType hash_insert rehashes v m = Done (next_id_ m, m') /\ well_formed ({[next_id_ m]} ∪ used) m' /\ contents m' = <[next_id_ m := v]> (contents m) /\ next_id_ m' = next_id_ m + 1 /\ iteration_depth_ m' = iteration_depth_ m.
Proof using hash_table.
  intros Hm Hfresh Hnext Hv. unfold Add. rewrite (null_checked_run used) by done. assert (next_id_ m ∉ (data_ m).*1) as Hni by (intros H; by apply Hfresh, (wf_used _ _ Hm)).
  assert (data_find (next_id_ m) (data_ m) = None) as -> by (apply eq_None_not_Some; by rewrite data_find_key). rewrite RTC_DCHECK_true by done.
  destruct (idmap_subscript_run used m (next_id_ m) v Hm) as (Hwf & Hcont & Hrem & Hnx & Hdep); [intros H; by apply Hni, (wf_waits _ _ Hm)|].
  rewrite Hnx. assert (c_add KeyType Int32 (next_id_ m) 1 = Some (next_id_ m + 1)) as ->.
  { pose proof (wf_next _ _ Hm) as Hr. unfold c_add, c_binop. destruct KeyType; unfold arith, promote; (rewrite !static_cast_id by (limits; lia)); apply arith_result_in_range; limits; lia. }
  cbn [defined mbind exec_bind]. rewrite static_cast_id by done. eexists. split_and!; [reflexivity| |done|done|done]. destruct Hwf. split; done.
Qed.

Lemma AddWithID_run used m v id : well_formed used m -> contents m !! id = None -> (check = true -> is_Some v) ->
  exists m', AddWithID hash_insert rehashes v id m = Done m' /\ well_formed ({[id]} ∪ used) m' /\ contents m' = <[id := v]> (contents m) /\ next_id_ m' = next_id_ m /\ iteration_depth_ m' = iteration_depth_ m.
Proof using hash_table.
  intros Hm Hnone Hv. unfold AddWithID. rewrite (null_checked_run used) by done. rewrite (IsRemoved_run used) by done. cbn [mbind exec_bind]. rewrite contents_lookup in Hnone. destruct (waits m id) eqn:Ew.
  - destruct (ids_erase id (removed_ids_ m) (wf_removed _ _ Hm)) as (n & r & -> & Hr & Hin). cbn [mbind exec_bind snd].
    pose proof Hm as [Hk Hu _ Hw Hd He Hn Hc]. set (m1 := set_removed r m). unfold waits in Ew. apply bool_decide_eq_true in Ew.
    assert (well_formed used m1) as Hm1. { split; cbn; try done; [intros k [_ Hk']%Hin; auto|]. intros H0. rewrite (He H0) in Ew. by apply elem_of_nil in Ew. }
    destruct (idmap_subscript_run used m1 id v Hm1) as (Hwf & Hcont & _ & Hnx & Hdep); [intros [? _]%Hin; done|]. eexists. split_and!; [reflexivity|done| |done|done].
    rewrite Hcont. apply map_eq. intros k. destruct (decide (k = id)) as [->|Hne]; [by rewrite !lookup_insert_eq|]. rewrite !lookup_insert_ne, !contents_lookup by done. unfold waits. cbn. by rewrite (bool_decide_ext (k ∈ r) (k ∈ removed_ids_ m)) by (rewrite Hin; intuition).
  - rewrite Hnone, RTC_DCHECK_true by done. unfold waits in Ew. apply bool_decide_eq_false in Ew. destruct (idmap_subscript_run used m id v Hm Ew) as (Hwf & Hcont & _ & Hnx & Hdep). eauto 10.
Qed.

Lemma Remove_run used m id : well_formed used m -> is_Some (contents m !! id) ->
  exists m', Remove id m = Done m' /\ well_formed used m' /\ contents m' = delete id (contents m) /\ next_id_ m' = next_id_ m /\ iteration_depth_ m' = iteration_depth_ m /\ tables m' = tables m /\ (iteration_depth_ m <> 0 -> data_ m' = data_ m).
Proof using.
  intros Hm [v Hv]. unfold Remove. rewrite contents_lookup in Hv. destruct (waits m id) eqn:Ew; [done|]. rewrite Hv, (IsRemoved_run used), Ew by done. cbn [mbind exec_bind]. pose proof Hm as [Hk Hu Hr Hw Hd He Hn Hc].
  destruct (Z.eqb_spec (iteration_depth_ m) 0) as [H0|H0].
  - eexists. split_and!; [reflexivity| | |done|done|done|done].
    + split; cbn; try done.
      * unfold data_erase. rewrite (filter_keys (fun x => negb (x =? id))). by apply filter_NoDup.
      * intros k. unfold data_erase. rewrite (filter_keys (fun x => negb (x =? id))). intros [Hk' _]%list_elem_of_In%List.filter_In. by apply Hu, list_elem_of_In.
      * rewrite (He H0). intros k ?%elem_of_nil. done.
    + apply map_eq. intros k. rewrite contents_lookup. cbn [data_ set_data]. rewrite data_find_erase. change (waits (set_data _ m) k) with (waits m k). destruct (decide (k = id)) as [->|Hne]; [rewrite lookup_delete_eq; by destruct (waits m id)|]. by rewrite lookup_delete_ne, contents_lookup.
  - destruct (ids_insert id (removed_ids_ m) Hr) as (x & r & -> & Hr' & Hin). cbn [mbind exec_bind snd]. eexists. split_and!; [reflexivity| | |done|done|done|done].
    + split; cbn; try done. intros k [->|Hk']%Hin; [|auto]. apply data_find_key. eauto.
    + apply map_eq. intros k. rewrite contents_lookup. unfold waits. cbn. destruct (decide (k = id)) as [->|Hne].
      * rewrite lookup_delete_eq, bool_decide_true; [done|]. apply Hin. by left.
      * rewrite lookup_delete_ne, contents_lookup by done. unfold waits. by rewrite (bool_decide_ext (k ∈ r) (k ∈ removed_ids_ m)) by (rewrite Hin; intuition).
Qed.

Lemma Replace_run used m id v w : well_formed used m -> contents m !! id = Some w -> (check = true -> is_Some v) ->
  exists m', Replace id v m = Done (w, m') /\ well_formed used m' /\ contents m' = <[id := v]> (contents m) /\ next_id_ m' = next_id_ m /\ iteration_depth_ m' = iteration_depth_ m /\ tables m' = tables m /\ (data_ m').*1 = (data_ m).*1.
Proof using.
  intros Hm Hw Hv. unfold Replace. rewrite (null_checked_run used) by done. rewrite contents_lookup in Hw. destruct (waits m id) eqn:Ew; [done|]. rewrite Hw, RTC_DCHECK_true by done. unfold RTC_DCHECK_eval. rewrite (IsRemoved_run used), Ew by done. cbn [mbind exec_bind negb defined].
  pose proof Hm as [Hk Hu Hr Hw' Hd He Hn Hc]. set (m' := set_data _ m). exists m'. split_and!; [by destruct rtc_dcheck_is_on| | |done|done|done|apply data_assign_keys].
  - split; cbn; rewrite ?data_assign_keys; done.
  - apply map_eq. intros k. rewrite contents_lookup. change (waits m' k) with (waits m k). cbn [data_ set_data m']. rewrite data_find_assign. destruct (decide (k = id)) as [->|Hne]; [by rewrite lookup_insert_eq, Ew, Hw|]. by rewrite lookup_insert_ne, contents_lookup.
Qed.

Lemma idmap_Clear_run used m : well_formed used m -> exists m', Clear m = Done m' /\ well_formed used m' /\ contents m' = ∅ /\ next_id_ m' = next_id_ m /\ iteration_depth_ m' = iteration_depth_ m /\ tables m' = tables m /\ (iteration_depth_ m <> 0 -> data_ m' = data_ m).
Proof using.
  intros Hm. unfold Clear. pose proof Hm as [Hk Hu Hr Hw Hd He Hn Hc]. destruct (Z.eqb_spec (iteration_depth_ m) 0) as [H0|H0].
  - eexists. split_and!; [reflexivity| |done|done|done|done|done]. split; cbn; try done; [constructor|intros k ?%elem_of_nil; done|]. rewrite (He H0). intros k ?%elem_of_nil. done.
  - destruct (ids_insert_range (map fst (data_ m)) (removed_ids_ m) Hr) as (r & -> & Hr' & Hin). cbn [mbind exec_bind]. eexists. split_and!; [reflexivity| | |done|done|done|done].
    + split; cbn; try done. intros k [Hk'|Hk']%Hin; [auto|done].
    + apply map_empty. intros k. rewrite contents_lookup. unfold waits. cbn. destruct (data_find k (data_ m)) as [v|] eqn:E; [|by destruct (bool_decide _)]. rewrite bool_decide_true; [done|]. apply Hin. right. apply (data_find_key k (data_ m)). eauto.
Qed.

(** *** Iterators *)

Lemma Compact_run used m : well_formed used (set_depth 1 m) -> iteration_depth_ m = 0 -> exists m', Compact m = Done m' /\ well_formed used m' /\ contents m' = contents m /\ next_id_ m' = next_id_ m /\ iteration_depth_ m' = 0.
Proof using.
  clear hash_table rehashes hash_insert. intros Hm H0. unfold Compact. rewrite H0, RTC_DCHECK_true by done. destruct Hm as [Hk Hu Hr Hw Hd He Hn Hc]. cbn in *.
  assert (forall r (l : list (Z * V)), fold_left (fun l id => data_erase id l) r l = List.filter (fun e => negb (bool_decide (e.1 ∈ r))) l) as Hfold.
  { induction r as [|x r IH]; intros l; cbn [fold_left].
    - rewrite <- (List.filter_ext (fun _ => true)); [|intros e; by rewrite bool_decide_false by apply not_elem_of_nil]. induction l as [|e l IHl]; [done|]. cbn. by rewrite <- IHl.
    - rewrite IH. unfold data_erase. induction l as [|e l IHl]; [done|]. cbn. destruct (Z.eqb_spec e.1 x) as [He'|He'].
      + rewrite (bool_decide_true (e.1 ∈ x :: r)) by (rewrite He'; left). exact IHl.
      + cbn. rewrite (bool_decide_ext (e.1 ∈ x :: r) (e.1 ∈ r)) by (rewrite elem_of_cons; intuition). by rewrite IHl. }
  rewrite Hfold. pose proof (filter_keys (fun x => negb (bool_decide (x ∈ removed_ids_ m))) (data_ m)) as Hkeys. pose proof (fun k => data_find_filter (fun x => negb (bool_decide (x ∈ removed_ids_ m))) k (data_ m)) as Hfind.
  remember (List.filter _ (data_ m)) as d eqn:Ed. clear Ed Hfold. eexists. split_and!; [reflexivity| | |done|done].
  - split; cbn; try done; [..|lia].
    + rewrite Hkeys. by apply filter_NoDup.
    + intros k. rewrite Hkeys. intros [Hk' _]%list_elem_of_In%List.filter_In. by apply Hu, list_elem_of_In.
    + constructor.
    + intros k ?%elem_of_nil. done.
  - apply map_eq. intros k. rewrite !contents_lookup. unfold waits. cbn [data_ removed_ids_ set_removed set_data]. rewrite bool_decide_false by apply not_elem_of_nil. rewrite Hfind. by destruct (bool_decide _).
Qed.

Lemma c_step_Int32 op d : InRange Int32 d -> InRange Int32 (op d 1) -> c_binop op Int32 Int32 d 1 = Some (op d 1).
Proof using. intros H1 H2. unfold c_binop. change (arith Int32 Int32) with Int32. rewrite !static_cast_id by (limits; lia). by apply arith_result_in_range. Qed.

Lemma first_live_run used m l : well_formed used m -> first_live m l = Done (fst <$> List.find (fun e => negb (waits m e.1)) l).
Proof using. intros Hm. induction l as [|e l IH]; [done|]. cbn [first_live List.find]. rewrite (IsRemoved_run used) by done. cbn [mbind exec_bind]. by destruct (waits m e.1). Qed.

Lemma Init_run used m l : well_formed used m -> iteration_depth_ m < IntTypes.max Int32 ->
  exists it, Init l m = Done (it, set_depth (iteration_depth_ m + 1) m) /\ well_formed used (set_depth (iteration_depth_ m + 1) m) /\ it = mkIterator (fst <$> List.find (fun e => negb (waits m e.1)) l) (tables m).
Proof using.
  intros Hm Hd. pose proof (wf_depth _ _ Hm) as Hd0. unfold Init, c_add. rewrite c_step_Int32 by (limits; lia). cbn [defined mbind exec_bind].
  assert (well_formed used (set_depth (iteration_depth_ m + 1) m)) as Hm'. { destruct Hm. split; try (cbn; done); cbn [iteration_depth_ set_depth]; first [limits; lia|intros; exfalso; lia]. }
  unfold SkipRemovedEntries. rewrite (first_live_run used) by done. cbn [mbind exec_bind]. eauto.
Qed.

Lemma Iterator_destroy_run used m : well_formed used m -> 0 < iteration_depth_ m -> exists m', Iterator_destroy m = Done m' /\ well_formed used m' /\ contents m' = contents m /\ next_id_ m' = next_id_ m /\ iteration_depth_ m' = iteration_depth_ m - 1.
Proof using.
  intros Hm Hd. pose proof (wf_depth _ _ Hm) as Hd0. unfold Iterator_destroy. rewrite RTC_DCHECK_true by (by apply Z.ltb_lt). unfold c_sub. rewrite c_step_Int32 by (limits; lia). cbn [defined mbind exec_bind].
  destruct (Z.eqb_spec (iteration_depth_ m - 1) 0) as [H0|H0].
  - destruct (Compact_run used (set_depth (iteration_depth_ m - 1) m)) as (m' & -> & Hwf & Hc & Hn & Hdep); [destruct Hm; split; try (cbn; done); cbn [iteration_depth_ set_depth]; first [limits; lia|intros; exfalso; lia]|done|]. exists m'. rewrite Hc. split_and!; [done|done|done|done|lia].
  - eexists. split_and!; [reflexivity| |done|done|done]. destruct Hm. split; try (cbn; done); cbn [iteration_depth_ set_depth]; first [limits; lia|intros; exfalso; lia].
Qed.

(** ** Calls *)

Inductive call :=
  | CAdd (v : V) | CAddWithID (v : V) (id : Z) | CRemove (id : Z) | CReplace (id : Z) (v : V) | CClear | CLookup (id : Z) | CSize
  | COpen | CClose.

Inductive answer := AnId (id : Z) | AValue (v : V) | ANumber (n : Z) | NoAnswer.

(** [COpen] makes an iterator and [CClose] destroys one. *)
Definition run_call (a : call) m : exec (answer * IDMap (P := P)) :=
  match a with
  | CAdd v => r ← Add KeyType hash_insert rehashes v m; Done (AnId r.1, r.2)
  | CAddWithID v id => m ← AddWithID hash_insert rehashes v id m; Done (NoAnswer, m)
  | CRemove id => m ← Remove id m; Done (NoAnswer, m)
  | CReplace id v => r ← Replace id v m; Done (AValue r.1, r.2)
  | CClear => m ← Clear m; Done (NoAnswer, m)
  | CLookup id => p ← Lookup id m; Done (AValue p, m)
  | CSize => Done (ANumber (size m), m)
  | COpen => r ← Iterator_new m; Done (NoAnswer, r.2)
  | CClose => m ← Iterator_destroy m; Done (NoAnswer, m)
  end.

Fixpoint run_calls (l : list call) m : exec (list answer * IDMap (P := P)) :=
  match l with [] => Done ([], m) | a :: l => r ← run_call a m; s ← run_calls l r.2; Done (r.1 :: s.1, s.2) end.

(** A finite map, the ids that were ever given, the next one and the number of iterators. *)
Record state := mkState { entries : gmap Z V; used : gset Z; next : Z; iterators : Z }.

Definition permitted (a : call) (s : state) : Prop :=
  match a with
  | CAdd v => (next s ∉ used s) /\ InRange KeyType (next s + 1) /\ (check = true -> is_Some v)
  | CAddWithID v id => (entries s !! id) = None /\ (check = true -> is_Some v)
  | CRemove id => is_Some (entries s !! id)
  | CReplace id v => is_Some (entries s !! id) /\ (check = true -> is_Some v)
  | COpen => iterators s < IntTypes.max Int32
  | CClose => 0 < iterators s
  | CClear | CLookup _ | CSize => True
  end.

Definition effect (a : call) (s : state) : answer * state :=
  match a with
  | CAdd v => (AnId (next s), mkState (<[next s := v]> (entries s)) ({[next s]} ∪ used s) (next s + 1) (iterators s))
  | CAddWithID v id => (NoAnswer, mkState (<[id := v]> (entries s)) ({[id]} ∪ used s) (next s) (iterators s))
  | CRemove id => (NoAnswer, mkState (delete id (entries s)) (used s) (next s) (iterators s))
  | CReplace id v => (AValue (default None (entries s !! id)), mkState (<[id := v]> (entries s)) (used s) (next s) (iterators s))
  | CClear => (NoAnswer, mkState ∅ (used s) (next s) (iterators s))
  | CLookup id => (AValue (v ← (entries s !! id); v), s)
  | CSize => (ANumber (static_cast Uint64 (Z.of_nat (base.size (entries s)))), s)
  | COpen => (NoAnswer, mkState (entries s) (used s) (next s) (iterators s + 1))
  | CClose => (NoAnswer, mkState (entries s) (used s) (next s) (iterators s - 1))
  end.

Fixpoint all_permitted (l : list call) (s : state) : Prop :=
  match l with [] => True | a :: l => permitted a s /\ all_permitted l (effect a s).2 end.

Fixpoint effects (l : list call) (s : state) : list answer * state :=
  match l with [] => ([], s) | a :: l => let r := effect a s in let q := effects l r.2 in (r.1 :: q.1, q.2) end.

Definition represents m (s : state) : Prop :=
  well_formed (used s) m /\ contents m = entries s /\ next_id_ m = next s /\ iteration_depth_ m = iterators s.

Lemma idmap_run_call a m s : represents m s -> permitted a s -> exists m', run_call a m = Done ((effect a s).1, m') /\ represents m' (effect a s).2.
Proof using hash_table.
  intros (Hm & Hc & Hn & Hd) Hp. destruct a as [v|v id|id|id v| |id| | |]; cbn [permitted run_call effect fst snd] in *.
  - destruct Hp as (Hf & Hr & Hv). rewrite <- Hn in *. destruct (Add_run _ m v Hm Hf Hr Hv) as (m' & -> & Hwf & Hc' & Hn' & Hd'). cbn [mbind exec_bind fst snd]. eexists. split; [reflexivity|]. split_and!; cbn; [done|by rewrite Hc', Hc|done|congruence].
  - destruct Hp as (Hnone & Hv). rewrite <- Hc in *. destruct (AddWithID_run _ m v id Hm Hnone Hv) as (m' & -> & Hwf & Hc' & Hn' & Hd'). cbn [mbind exec_bind]. eexists. split; [reflexivity|]. split_and!; cbn; [done|by rewrite Hc', Hc|congruence|congruence].
  - rewrite <- Hc in Hp. destruct (Remove_run _ m id Hm Hp) as (m' & -> & Hwf & Hc' & Hn' & Hd' & _). cbn [mbind exec_bind]. eexists. split; [reflexivity|]. split_and!; cbn; [done|by rewrite Hc', Hc|congruence|congruence].
  - destruct Hp as ([w Hw] & Hv). rewrite Hw. rewrite <- Hc in Hw. destruct (Replace_run _ m id v w Hm Hw Hv) as (m' & -> & Hwf & Hc' & Hn' & Hd' & _). cbn [mbind exec_bind fst snd]. eexists. split; [reflexivity|]. split_and!; cbn; [done|by rewrite Hc', Hc|congruence|congruence].
  - destruct (idmap_Clear_run _ m Hm) as (m' & -> & Hwf & Hc' & Hn' & Hd' & _). cbn [mbind exec_bind]. eexists. split; [reflexivity|]. split_and!; cbn; [done|done|congruence|congruence].
  - rewrite (Lookup_run _ m id Hm), Hc. cbn [mbind exec_bind]. eexists. split; [reflexivity|done].
  - rewrite (size_run _ m Hm), Hc. eexists. split; [reflexivity|done].
  - destruct (Init_run _ m (data_ m) Hm) as (it & Hrun & Hwf & _); [lia|]. unfold Iterator_new. rewrite Hrun. cbn [mbind exec_bind fst snd]. eexists. split; [reflexivity|]. split_and!; cbn; [done|done|done|lia].
  - destruct (Iterator_destroy_run _ m Hm) as (m' & -> & Hwf & Hc' & Hn' & Hd'); [lia|]. cbn [mbind exec_bind]. eexists. split; [reflexivity|]. split_and!; cbn; [done|congruence|congruence|lia].
Qed.

Lemma idmap_run_calls l m s : represents m s -> all_permitted l s -> exists m', run_calls l m = Done ((effects l s).1, m') /\ represents m' (effects l s).2.
Proof using hash_table.
  revert m s. induction l as [|a l IH]; intros m s Hm Hp; cbn [run_calls effects fst snd]; [eauto|]. destruct Hp as [Ha Hl]. destruct (idmap_run_call a m s Hm Ha) as (m1 & -> & Hm1). cbn [mbind exec_bind fst snd]. destruct (IH m1 _ Hm1 Hl) as (m2 & -> & Hm2). cbn [mbind exec_bind fst snd]. eauto.
Qed.

(** ** A loop over the entries *)

(** What the body of the loop does to the map: an entry with an object is removed or replaced,
    or all are removed. *)
Inductive action := RemoveIf (id : Z) | ReplaceIf (id : Z) (p : P) | RemoveAll.

Definition run_action (a : action) m : exec (IDMap (P := P)) :=
  match a with
  | RemoveIf id => p ← Lookup id m; match p with Some _ => Remove id m | None => Done m end
  | ReplaceIf id q => p ← Lookup id m; match p with Some _ => r ← Replace id (Some q) m; Done r.2 | None => Done m end
  | RemoveAll => Clear m
  end.

Fixpoint run_actions (l : list action) m : exec (IDMap (P := P)) := match l with [] => Done m | a :: l => m ← run_action a m; run_actions l m end.

(** [for (iterator it(&map); !it.IsAtEnd(); it.Advance())], and what the body is given; [None]
    when it goes on after [fuel] turns. *)
Fixpoint iterate (fuel : nat) (body : Z -> list action) (it : Iterator) m : exec (option (list (Z * V) * IDMap (P := P))) :=
  match fuel with
  | O => Done None
  | Datatypes.S fuel =>
      at_end ← IsAtEnd it m;
      if (at_end : bool) then Done (Some ([], m)) else
      id ← GetCurrentKey it m; v ← GetCurrentValue it m;
      m ← run_actions (body id) m;
      it ← Advance it m;
      r ← iterate fuel body it m;
      Done (s ← r; Some ((id, v) :: s.1, s.2))
  end.

Definition for_each (body : Z -> list action) m : exec (list (Z * V) * IDMap (P := P)) :=
  r ← Iterator_new m;
  o ← iterate (Datatypes.S (length (data_ m))) body r.1 r.2;
  s ← defined o;
  m ← Iterator_destroy s.2;
  Done (s.1, m).

(** The same on a finite map: the ids that are still there when their turn comes. *)
Definition act (a : action) c : gmap Z V :=
  match a with
  | RemoveIf id => match c !! id with Some (Some _) => delete id c | _ => c end
  | ReplaceIf id q => match c !! id with Some (Some _) => <[id := Some q]> c | _ => c end
  | RemoveAll => ∅
  end.

Fixpoint walk (body : Z -> list action) (ids : list Z) c : list (Z * V) * gmap Z V :=
  match ids with
  | [] => ([], c)
  | id :: ids =>
      match c !! id with
      | None => walk body ids c
      | Some v => let r := walk body ids (fold_left (fun c a => act a c) (body id) c) in ((id, v) :: r.1, r.2)
      end
  end.

(** Within a loop nothing moves. *)
Definition kept m m' : Prop := tables m' = tables m /\ iteration_depth_ m' = iteration_depth_ m /\ (data_ m').*1 = (data_ m).*1.

Lemma run_action_run used a m : well_formed used m -> iteration_depth_ m <> 0 -> exists m', run_action a m = Done m' /\ well_formed used m' /\ contents m' = act a (contents m) /\ kept m m'.
Proof using.
  intros Hm Hd. destruct a as [id|id q|]; cbn [run_action act].
  - rewrite (Lookup_run used) by done. cbn [mbind exec_bind]. destruct (contents m !! id) as [[p|]|] eqn:E; cbn [mbind option_bind]; [|exists m; done..]. destruct (Remove_run used m id Hm) as (m' & -> & Hwf & Hc & _ & Hdep & Ht & Hdata); [by rewrite E|]. exists m'. split_and!; try done. split_and!; [done|done|by rewrite Hdata].
  - rewrite (Lookup_run used) by done. cbn [mbind exec_bind]. destruct (contents m !! id) as [[p|]|] eqn:E; cbn [mbind option_bind]; [|exists m; done..]. destruct (Replace_run used m id (Some q) (Some p) Hm E) as (m' & -> & Hwf & Hc & _ & Hdep & Ht & Hdata); [done|]. cbn [mbind exec_bind snd]. exists m'. done.
  - destruct (idmap_Clear_run used m Hm) as (m' & -> & Hwf & Hc & _ & Hdep & Ht & Hdata). exists m'. split_and!; try done. split_and!; [done|done|by rewrite Hdata].
Qed.

Lemma run_actions_run used l m : well_formed used m -> iteration_depth_ m <> 0 -> exists m', run_actions l m = Done m' /\ well_formed used m' /\ contents m' = fold_left (fun c a => act a c) l (contents m) /\ kept m m'.
Proof using.
  revert m. induction l as [|a l IH]; intros m Hm Hd; cbn [run_actions fold_left]; [exists m; done|]. destruct (run_action_run used a m Hm Hd) as (m1 & -> & Hm1 & Hc1 & Ht1 & Hd1 & Hk1). cbn [mbind exec_bind].
  destruct (IH m1 Hm1) as (m2 & -> & Hm2 & Hc2 & Ht2 & Hd2 & Hk2); [congruence|]. exists m2. rewrite <- Hc1. split_and!; [done|done|done|]. split_and!; congruence.
Qed.

Lemma suffix_split id (l : list (Z * V)) pre ids : l.*1 = pre ++ id :: ids -> NoDup (l.*1) -> exists v rest, suffix id l = (id, v) :: rest /\ rest.*1 = ids /\ data_find id l = Some v.
Proof using.
  unfold data_find. revert pre. induction l as [|[x v] l IH]; intros pre Hl Hnd; cbn in *; [by destruct pre|]. apply list.NoDup_cons in Hnd as [Hx Hnd]. destruct pre as [|y pre]; cbn in Hl; injection Hl as -> Hl.
  - rewrite Z.eqb_refl. eauto.
  - destruct (Z.eqb_spec y id) as [->|Hne].
    + exfalso. apply Hx. rewrite Hl. apply elem_of_app. right. left.
    + by apply (IH pre).
Qed.

Lemma find_keys (p : Z -> bool) (l : list (Z * V)) : fst <$> List.find (fun e => p e.1) l = List.find p (l.*1).
Proof using. induction l as [|[x v] l IH]; [done|]. cbn. destruct (p x); [done|exact IH]. Qed.

Lemma iterate_walk used body ids : forall fuel pre m, well_formed used m -> iteration_depth_ m <> 0 -> (data_ m).*1 = pre ++ ids -> (length ids < fuel)%nat ->
  exists m', iterate fuel body (mkIterator (List.find (fun k => negb (waits m k)) ids) (tables m)) m = Done (Some ((walk body ids (contents m)).1, m')) /\
    well_formed used m' /\ contents m' = (walk body ids (contents m)).2 /\ iteration_depth_ m' = iteration_depth_ m.
Proof using.
  induction ids as [|id ids IH]; intros fuel pre m Hm Hd Hk Hfuel; (destruct fuel as [|fuel]; [cbn in Hfuel; lia|]).
  - cbn [iterate List.find walk fst snd]. unfold IsAtEnd, entries_from. cbn [table iter_]. rewrite Nat.eqb_refl. cbn [negb mbind exec_bind]. eauto.
  - cbn [walk List.find]. pose proof (contents_lookup m id) as Hl. destruct (waits m id) eqn:Ew; cbn [negb].
    + rewrite Hl. apply (IH _ (pre ++ [id])); [done|done|by rewrite <- app_assoc|cbn in Hfuel; lia].
    + destruct (suffix_split id (data_ m) pre ids Hk (wf_keys _ _ Hm)) as (v & k & Hsuf & Hk' & Hv). rewrite Hl, Hv.
      assert (entries_from (mkIterator (Some id) (tables m)) m = Done ((id, v) :: k)) as Hfrom by (unfold entries_from; cbn [table iter_]; by rewrite Nat.eqb_refl, Hsuf).
      cbn [iterate]. unfold IsAtEnd, GetCurrentKey, GetCurrentValue. rewrite Hfrom. cbn [mbind exec_bind defined head fst snd].
      assert ((match v with Some p => r ← IsRemoved id m; Done (if (r : bool) then None else Some p) | None => Done None end : exec V) = Done v) as ->.
      { destruct v; [|done]. rewrite (IsRemoved_run used), Ew by done. done. }
      cbn [mbind exec_bind]. destruct (run_actions_run used (body id) m Hm Hd) as (m1 & -> & Hm1 & Hc1 & Ht1 & Hd1 & Hk1). cbn [mbind exec_bind]. rewrite <- Hc1.
      destruct (suffix_split id (data_ m1) pre ids ltac:(congruence) (wf_keys _ _ Hm1)) as (v1 & k1 & Hsuf1 & Hk1' & _). unfold Advance, entries_from. cbn [table iter_]. rewrite Ht1, Nat.eqb_refl, Hsuf1. cbn [negb mbind exec_bind].
      unfold SkipRemovedEntries. rewrite (first_live_run used) by done. cbn [mbind exec_bind]. rewrite (find_keys (fun x => negb (waits m1 x))), Hk1'.
      destruct (IH fuel (pre ++ [id]) m1 Hm1 ltac:(congruence) ltac:(rewrite Hk1, Hk, <- app_assoc; done) ltac:(cbn in Hfuel; lia)) as (m2 & -> & Hm2 & Hc2 & Hd2). cbn [mbind exec_bind option_bind fst snd]. eexists. split_and!; [reflexivity|done|done|congruence].
Qed.

Lemma for_each_walk used body m : well_formed used m -> iteration_depth_ m < IntTypes.max Int32 ->
  exists m', for_each body m = Done ((walk body ((data_ m).*1) (contents m)).1, m') /\ well_formed used m' /\ contents m' = (walk body ((data_ m).*1) (contents m)).2 /\ iteration_depth_ m' = iteration_depth_ m.
Proof using.
  intros Hm Hd. pose proof (wf_depth _ _ Hm). unfold for_each, Iterator_new. destruct (Init_run used m (data_ m) Hm Hd) as (it & -> & Hm1 & ->). cbn [mbind exec_bind fst snd]. rewrite (find_keys (fun x => negb (waits m x))).
  destruct (iterate_walk used body ((data_ m).*1) (Datatypes.S (length (data_ m))) [] _ Hm1) as (m2 & Hrun & Hm2 & Hc2 & Hd2); [cbn; lia|done|rewrite length_fmap; lia|]. cbn [tables set_depth] in Hrun. change (waits (set_depth (iteration_depth_ m + 1) m)) with (waits m) in Hrun. rewrite Hrun.
  cbn [mbind exec_bind defined fst snd]. destruct (Iterator_destroy_run used m2 Hm2) as (m3 & -> & Hm3 & Hc3 & _ & Hd3); [rewrite Hd2; cbn; lia|]. cbn [mbind exec_bind]. eexists. split_and!; [reflexivity|done|by rewrite Hc3, Hc2|rewrite Hd3, Hd2; cbn; lia].
Qed.

Lemma new_IDMap_represents : check = false -> InRange KeyType 1 -> represents new_IDMap (mkState ∅ ∅ 1 0).
Proof using.
  intros Hc H1. split_and!; [|done|done|done]. split; cbn; try done; try constructor; try (intros k ?%elem_of_nil; done).
Qed.

End Contents.

(** ** Properties *)

(** C13: Any sequence of permitted calls on an [IDMap], with any number of iterators made and
    destroyed in between, runs without failing a check and answers as a finite map: what was
    removed while there were iterators is as gone as what was removed without them. *)
Theorem idmap_calls {P} {build : Build} KeyType hash_insert rehashes check l (m : IDMap (P := P)) s : HashTable hash_insert ->
  represents KeyType check m s -> all_permitted KeyType check l s ->
  exists m', run_calls KeyType hash_insert rehashes l m = Done ((effects l s).1, m') /\ represents KeyType check m' (effects l s).2.
Proof. intros Hh. apply idmap_run_calls. exact Hh. Qed.

(** New entries at the end; the table grows at every eighth. *)
Definition insert_last (l : list (Z * option Z)) (id : Z) (v : option Z) : list (Z * option Z) := l ++ [(id, v)].
Definition grows (l : list (Z * option Z)) : bool := (length l mod 8 =? 7)%nat.

#[export] Instance insert_last_table : HashTable insert_last.
Proof. split. intros l id v. symmetry. apply Permutation_cons_append. Qed.

Definition sample_calls : list (call (P := Z)) := [CAdd (Some 10); CAdd (Some 20); COpen; CRemove 1; CLookup 1; CAddWithID (Some 30) 1; CSize; CClear; CClose; CSize].

Lemma idmap_calls_witness : exists m', run_calls (build := debug_x64) Int32 insert_last grows sample_calls new_IDMap = Done ((effects sample_calls (mkState ∅ ∅ 1 0)).1, m') /\ represents Int32 false m' (effects sample_calls (mkState ∅ ∅ 1 0)).2.
Proof.
  apply (idmap_calls (build := debug_x64) Int32 insert_last grows false sample_calls new_IDMap (mkState ∅ ∅ 1 0)); [exact insert_last_table|apply new_IDMap_represents; [done|limits; lia]|].
  assert (InRange Int32 2 /\ InRange Int32 3) as [H2 H3] by (split; limits; lia). cbn. split_and!; try done; try (by eexists); try set_solver; try (intros; lia).
Defined.

Example sample_answers : (effects sample_calls (mkState ∅ ∅ 1 0)).1 = [AnId 1; AnId 2; NoAnswer; NoAnswer; AValue None; NoAnswer; ANumber 2; NoAnswer; NoAnswer; ANumber 0].
Proof. vm_compute. reflexivity. Qed.

(** C14: A loop over an [IDMap] ends, whatever entries its body removes or replaces: it is given
    each id that is still there when its turn comes, once, with its present value, and no
    iterator that it uses is invalid; afterwards the map holds what the body has left. *)
Theorem for_each_visits {P} {build : Build} KeyType check used body (m : IDMap (P := P)) : well_formed KeyType check used m -> iteration_depth_ m < IntTypes.max Int32 ->
  exists m', for_each body m = Done ((walk body ((data_ m).*1) (contents m)).1, m') /\ well_formed KeyType check used m' /\ contents m' = (walk body ((data_ m).*1) (contents m)).2 /\ iteration_depth_ m' = iteration_depth_ m.
Proof. apply for_each_walk. Qed.

Definition sample_map : IDMap (P := Z) := mkIDMap 0 [] 5 [(3, Some 30); (1, Some 10); (4, None); (2, Some 20)] false 0.

(** The first entry removes the last one and changes the second. *)
Definition sample_body (id : Z) : list action := if id =? 3 then [RemoveIf 2; ReplaceIf 1 11] else [].

Lemma for_each_visits_witness : exists m', for_each (build := debug_x64) sample_body sample_map = Done ([(3, Some 30); (1, Some 11); (4, None)], m') /\ well_formed Int32 false {[1; 2; 3; 4]} m' /\
  contents m' = (walk sample_body ((data_ sample_map).*1) (contents sample_map)).2 /\ iteration_depth_ m' = iteration_depth_ sample_map.
Proof.
  apply (for_each_visits (build := debug_x64) Int32 false {[1; 2; 3; 4]} sample_body sample_map); [|vm_compute; reflexivity].
  split; try done; [apply (bool_decide_unpack _); vm_compute; done|cbn; set_solver|apply Sorted.SSorted_nil|by intros k ?%elem_of_nil].
Defined.

(** An insertion within a loop may invalidate its iterator. *)
Example add_in_a_loop (m := mkIDMap 0 [] 8 [(1, Some 10); (2, Some 20); (3, Some 30); (4, Some 40); (5, Some 50); (6, Some 60); (7, Some 70)] false 0) :
  (r ← Iterator_new m; s ← Add (build := debug_x64) Int32 insert_last grows (Some 80) r.2; it ← Advance r.1 s.2; Done it) = Undef.
Proof. vm_compute. reflexivity. Qed.

(** In a release build an id that is given twice replaces the entry that has it. *)
Example ids_collide : (m ← AddWithID (build := release_x64) insert_last grows (Some 10) 1 new_IDMap; r ← Add (build := release_x64) Int32 insert_last grows (Some 20) m; p ← Lookup 1 r.2; Done (r.1, p)) = Done (1, Some 20).
Proof. vm_compute. reflexivity. Qed.
