(* ===== verification/Containers.v ===== *)
(** * Containers: linked_list.h, ring_buffer.h and mru_cache.h of base/containers

    Module [Links] is the list whose nodes are the elements: a store of nodes with pointers.
    Module [Ring] is the buffer of the last values, module [Mru] the cache that forgets
    what was used longest ago. *)

From Stdlib Require Import Permutation.
From stdpp Require Import gmap.
From S2P Require Import Prelude IntTypes.
Open Scope Z_scope.
Open Scope list_scope.

(** ** LinkNode and LinkedList *)

Module Links.
Open Scope nat_scope.

(** A pointer is the address of a node, or null. *)
Record LinkNode := mkNode { previous_ : option nat; next_ : option nat }.

(** The nodes that exist. *)
Abbreviation store := (gmap nat LinkNode).

Implicit Types (h : gmap nat LinkNode) (a b e p q r x y this : nat) (l k m : list nat).

Definition previous a h : exec (option nat) := n ← defined (h !! a); Done (previous_ n).
Definition next a h : exec (option nat) := n ← defined (h !! a); Done (next_ n).

(** [p->next_ = v] and [p->previous_ = v]. *)
Definition set_next (to : option nat) (v : option nat) h : exec store :=
  a ← defined to; n ← defined (h !! a); Done (<[a := mkNode (previous_ n) v]> h).
Definition set_previous (to : option nat) (v : option nat) h : exec store :=
  a ← defined to; n ← defined (h !! a); Done (<[a := mkNode v (next_ n)]> h).

Definition LinkNode_new a h : store := <[a := mkNode None None]> h.

Definition LinkNode_move this rhs h : exec store :=
  let h := LinkNode_new this h in
  n ← next rhs h; h ← set_next (Some this) n h; h ← set_next (Some rhs) None h;
  p ← previous rhs h; h ← set_previous (Some this) p h; h ← set_previous (Some rhs) None h;
  n ← next this h;
  match n with
  | None => Done h
  | Some _ => h ← set_previous n (Some this) h; p ← previous this h; set_next p (Some this) h
  end.

Definition InsertBefore this e h : exec store :=
  h ← set_next (Some this) (Some e) h;
  p ← previous e h; h ← set_previous (Some this) p h;
  p ← previous e h; h ← set_next p (Some this) h;
  set_previous (Some e) (Some this) h.

Definition InsertAfter this e h : exec store :=
  n ← next e h; h ← set_next (Some this) n h;
  h ← set_previous (Some this) (Some e) h;
  n ← next e h; h ← set_previous n (Some this) h;
  set_next (Some e) (Some this) h.

Definition RemoveFromList this h : exec store :=
  n ← next this h; p ← previous this h; h ← set_next p n h;
  p ← previous this h; n ← next this h; h ← set_previous n p h;
  h ← set_next (Some this) None h;
  set_previous (Some this) None h.

(** A list is its root. *)
Definition LinkedList_new root h : store := <[root := mkNode (Some root) (Some root)]> h.
Definition Append root e h : exec store := InsertBefore e root h.
Definition head root h : exec (option nat) := next root h.
Definition tail root h : exec (option nat) := previous root h.
Definition empty root h : exec bool := n ← head root h; Done (bool_decide (n = Some root)).

(** The loops of the comment: from the head by [next], from the tail by [previous]; [None] when
    the end is not reached within [fuel] nodes. *)
Fixpoint forwards (fuel : nat) root (node : option nat) h : exec (option (list nat)) :=
  if bool_decide (node = Some root) then Done (Some []) else
  match fuel with
  | O => Done None
  | Datatypes.S fuel => a ← defined node; n ← next a h; l ← forwards fuel root n h; Done (option_map (cons a) l)
  end.

Fixpoint backwards (fuel : nat) root (node : option nat) h : exec (option (list nat)) :=
  if bool_decide (node = Some root) then Done (Some []) else
  match fuel with
  | O => Done None
  | Datatypes.S fuel => a ← defined node; n ← previous a h; l ← backwards fuel root n h; Done (option_map (cons a) l)
  end.

Definition walk_forwards (fuel : nat) root h : exec (option (list nat)) := n ← head root h; forwards fuel root n h.
Definition walk_backwards (fuel : nat) root h : exec (option (list nat)) := n ← tail root h; backwards fuel root n h.

(** *** Rings *)

Definition nxt h a : option (option nat) := next_ <$> h !! a.
Definition prv h a : option (option nat) := previous_ <$> h !! a.

(** From [a] through [l] to [b], and back. *)
Fixpoint seg h a l b : Prop :=
  match l with
  | [] => nxt h a = Some (Some b) /\ prv h b = Some (Some a)
  | x :: l => nxt h a = Some (Some x) /\ prv h x = Some (Some a) /\ seg h x l b
  end.

(** The list with the root [r] and the nodes [m]. *)
Definition ring h r m : Prop := NoDup (r :: m) /\ seg h r m r.

Lemma seg_app h a l x k b : seg h a (l ++ x :: k) b <-> seg h a l x /\ seg h x k b.
Proof. revert a. induction l as [|y l IH]; intros a; cbn; [tauto|]. rewrite IH. tauto. Qed.

(** The last node before [b]. *)
Definition last_of a l : nat := List.last l a.

Lemma last_of_cons a x l : last_of a (x :: l) = last_of x l.
Proof. unfold last_of. revert a x. induction l as [|y l IH]; intros a x; [done|]. transitivity (List.last l y); [exact (IH a y)|symmetry; exact (IH x y)]. Qed.

Lemma last_of_in a l : last_of a l ∈ a :: l.
Proof. revert a. induction l as [|x l IH]; intros a; [left|]. rewrite last_of_cons. right. apply IH. Qed.

Lemma seg_last h a l b : seg h a l b -> nxt h (last_of a l) = Some (Some b) /\ prv h b = Some (Some (last_of a l)).
Proof. revert a. induction l as [|x l IH]; intros a; [done|]. rewrite last_of_cons. intros (_ & _ & H). by apply IH. Qed.

Definition first_of l b : nat := match l with x :: _ => x | [] => b end.

Lemma seg_first h a l b : seg h a l b -> nxt h a = Some (Some (first_of l b)) /\ prv h (first_of l b) = Some (Some a).
Proof. destruct l; cbn; tauto. Qed.

(** What is not written to stays. *)
Lemma seg_frame h h' a l b : seg h a l b -> (forall y, y ∈ a :: l -> nxt h' y = nxt h y) -> (forall y, y ∈ l ++ [b] -> prv h' y = prv h y) -> seg h' a l b.
Proof.
  revert a. induction l as [|x l IH]; cbn; intros a.
  - intros [H1 H2] Hn Hp. rewrite Hn, Hp by (by left). done.
  - intros (H1 & H2 & H3) Hn Hp. rewrite Hn, Hp by (by left). split_and!; [done|done|]. apply IH; [done| |]; intros y Hy; [apply Hn|apply Hp]; by right.
Qed.

(** The last pointers are changed to another node. *)
Lemma seg_retarget h h' a l b c : seg h a l b -> NoDup (a :: l) ->
  nxt h' (last_of a l) = Some (Some c) -> prv h' c = Some (Some (last_of a l)) ->
  (forall y, y ∈ a :: l -> y <> last_of a l -> nxt h' y = nxt h y) -> (forall y, y ∈ l -> prv h' y = prv h y) -> seg h' a l c.
Proof.
  revert a. induction l as [|x l IH]; intros a Hs Hd H1 H2 Hn Hp; [done|]. rewrite last_of_cons in *. destruct Hs as (Hs1 & Hs2 & Hs3). apply list.NoDup_cons in Hd as [Ha Hd]. cbn. split_and!.
  - rewrite Hn; [done|left|]. intros ->. by apply Ha, last_of_in.
  - rewrite Hp; [done|left].
  - apply IH; try done; [intros y Hy Hne; apply Hn; [by right|done]|intros y Hy; apply Hp; by right].
Qed.

(** The first pointers are changed to come from another node. *)
Lemma seg_resource h h' a c l b : seg h a l b ->
  nxt h' c = Some (Some (first_of l b)) -> prv h' (first_of l b) = Some (Some c) ->
  (forall y, y ∈ l -> nxt h' y = nxt h y) -> (forall y, y ∈ l ++ [b] -> y <> first_of l b -> prv h' y = prv h y) -> NoDup (l ++ [b]) -> seg h' c l b.
Proof.
  destruct l as [|x l]; cbn; [done|]. intros (_ & _ & Hs) H1 H2 Hn Hp [Hx Hd]%list.NoDup_cons. split_and!; [done|done|]. apply (seg_frame h); [done|done|]. intros y Hy. apply Hp; [by right|]. by intros ->.
Qed.

(** *** Writing *)

Lemma nxt_insert h a n y : nxt (<[a := n]> h) y = if decide (y = a) then Some (next_ n) else nxt h y.
Proof. unfold nxt. destruct (decide (y = a)) as [->|]; [by rewrite lookup_insert_eq|by rewrite lookup_insert_ne]. Qed.

Lemma prv_insert h a n y : prv (<[a := n]> h) y = if decide (y = a) then Some (previous_ n) else prv h y.
Proof. unfold prv. destruct (decide (y = a)) as [->|]; [by rewrite lookup_insert_eq|by rewrite lookup_insert_ne]. Qed.

Lemma next_run a h v : nxt h a = Some v -> next a h = Done v.
Proof. unfold nxt, next. destruct (h !! a); cbn; congruence. Qed.

Lemma previous_run a h v : prv h a = Some v -> previous a h = Done v.
Proof. unfold prv, previous. destruct (h !! a); cbn; congruence. Qed.

Lemma set_next_run a v h : is_Some (h !! a) -> exists h', set_next (Some a) v h = Done h' /\ (forall y, nxt h' y = if decide (y = a) then Some v else nxt h y) /\ (forall y, prv h' y = prv h y) /\ (forall y, is_Some (h' !! y) <-> is_Some (h !! y)).
Proof.
  intros [n Hn]. unfold set_next. cbn [defined mbind exec_bind]. rewrite Hn. cbn [defined mbind exec_bind]. eexists. split_and!; [reflexivity|intros y; apply nxt_insert| |].
  - intros y. rewrite prv_insert. destruct (decide (y = a)) as [->|]; [|done]. unfold prv. by rewrite Hn.
  - intros y. destruct (decide (y = a)) as [->|]; [rewrite lookup_insert_eq, Hn; split; eauto|by rewrite lookup_insert_ne].
Qed.

Lemma set_previous_run a v h : is_Some (h !! a) -> exists h', set_previous (Some a) v h = Done h' /\ (forall y, prv h' y = if decide (y = a) then Some v else prv h y) /\ (forall y, nxt h' y = nxt h y) /\ (forall y, is_Some (h' !! y) <-> is_Some (h !! y)).
Proof.
  intros [n Hn]. unfold set_previous. cbn [defined mbind exec_bind]. rewrite Hn. cbn [defined mbind exec_bind]. eexists. split_and!; [reflexivity|intros y; apply prv_insert| |].
  - intros y. rewrite nxt_insert. destruct (decide (y = a)) as [->|]; [|done]. unfold nxt. by rewrite Hn.
  - intros y. destruct (decide (y = a)) as [->|]; [rewrite lookup_insert_eq, Hn; split; eauto|by rewrite lookup_insert_ne].
Qed.

Lemma nxt_alive h a v : nxt h a = Some v -> is_Some (h !! a).
Proof. unfold nxt. destruct (h !! a); [eauto|done]. Qed.

Lemma prv_alive h a v : prv h a = Some v -> is_Some (h !! a).
Proof. unfold prv. destruct (h !! a); [eauto|done]. Qed.

Lemma alive_nxt h a : is_Some (h !! a) -> exists v, nxt h a = Some v.
Proof. unfold nxt. intros [n ->]. cbn. eauto. Qed.

(** Between [p] and [x], which follow each other, a node that is neither. *)
Lemma InsertBefore_run this p x h : prv h x = Some (Some p) -> is_Some (h !! p) -> is_Some (h !! this) -> this <> x -> this <> p ->
  exists h', InsertBefore this x h = Done h' /\
    (forall y, nxt h' y = if decide (y = this) then Some (Some x) else if decide (y = p) then Some (Some this) else nxt h y) /\
    (forall y, prv h' y = if decide (y = this) then Some (Some p) else if decide (y = x) then Some (Some this) else prv h y) /\
    (forall y, is_Some (h' !! y) <-> is_Some (h !! y)).
Proof.
  intros Hpx Hp Ht Hx Hne. unfold InsertBefore. destruct (set_next_run this (Some x) h Ht) as (h1 & -> & N1 & P1 & A1). cbn [mbind exec_bind].
  rewrite (previous_run x h1 (Some p)) by (by rewrite P1). cbn [mbind exec_bind]. destruct (set_previous_run this (Some p) h1) as (h2 & -> & P2 & N2 & A2); [by apply A1|]. cbn [mbind exec_bind].
  rewrite (previous_run x h2 (Some p)) by (rewrite P2, decide_False, P1 by done; done). cbn [mbind exec_bind]. destruct (set_next_run p (Some this) h2) as (h3 & -> & N3 & P3 & A3); [by apply A2, A1|]. cbn [mbind exec_bind].
  destruct (set_previous_run x (Some this) h3) as (h4 & -> & P4 & N4 & A4); [apply A3, A2, A1; by eapply prv_alive|]. exists h4. split_and!; [done| | |].
  - intros y. rewrite N4, N3, N2, N1. repeat case_decide; subst; done.
  - intros y. rewrite P4, P3, P2, P1. repeat case_decide; subst; done.
  - intros y. by rewrite A4, A3, A2, A1.
Qed.

Lemma InsertAfter_run this x q h : nxt h x = Some (Some q) -> is_Some (h !! q) -> is_Some (h !! this) -> this <> x -> this <> q ->
  exists h', InsertAfter this x h = Done h' /\
    (forall y, nxt h' y = if decide (y = this) then Some (Some q) else if decide (y = x) then Some (Some this) else nxt h y) /\
    (forall y, prv h' y = if decide (y = this) then Some (Some x) else if decide (y = q) then Some (Some this) else prv h y) /\
    (forall y, is_Some (h' !! y) <-> is_Some (h !! y)).
Proof.
  intros Hxq Hq Ht Hx Hne. unfold InsertAfter. rewrite (next_run x h (Some q) Hxq). cbn [mbind exec_bind]. destruct (set_next_run this (Some q) h Ht) as (h1 & -> & N1 & P1 & A1). cbn [mbind exec_bind].
  destruct (set_previous_run this (Some x) h1) as (h2 & -> & P2 & N2 & A2); [by apply A1|]. cbn [mbind exec_bind]. rewrite (next_run x h2 (Some q)) by (rewrite N2, N1, decide_False by done; done). cbn [mbind exec_bind].
  destruct (set_previous_run q (Some this) h2) as (h3 & -> & P3 & N3 & A3); [by apply A2, A1|]. cbn [mbind exec_bind].
  destruct (set_next_run x (Some this) h3) as (h4 & -> & N4 & P4 & A4); [apply A3, A2, A1; by eapply nxt_alive|]. exists h4. split_and!; [done| | |].
  - intros y. rewrite N4, N3, N2, N1. repeat case_decide; subst; done.
  - intros y. rewrite P4, P3, P2, P1. repeat case_decide; subst; done.
  - intros y. by rewrite A4, A3, A2, A1.
Qed.

Lemma RemoveFromList_run this p q h : prv h this = Some (Some p) -> nxt h this = Some (Some q) -> is_Some (h !! p) -> is_Some (h !! q) -> this <> p -> this <> q ->
  exists h', RemoveFromList this h = Done h' /\
    (forall y, nxt h' y = if decide (y = this) then Some None else if decide (y = p) then Some (Some q) else nxt h y) /\
    (forall y, prv h' y = if decide (y = this) then Some None else if decide (y = q) then Some (Some p) else prv h y) /\
    (forall y, is_Some (h' !! y) <-> is_Some (h !! y)).
Proof.
  intros Hp Hq Ap Aq Hnp Hnq. unfold RemoveFromList. rewrite (next_run this h _ Hq). cbn [mbind exec_bind]. rewrite (previous_run this h _ Hp). cbn [mbind exec_bind].
  destruct (set_next_run p (Some q) h Ap) as (h1 & -> & N1 & P1 & A1). cbn [mbind exec_bind]. rewrite (previous_run this h1 (Some p)) by (by rewrite P1). cbn [mbind exec_bind].
  rewrite (next_run this h1 (Some q)) by (rewrite N1, decide_False by done; done). cbn [mbind exec_bind]. destruct (set_previous_run q (Some p) h1) as (h2 & -> & P2 & N2 & A2); [by apply A1|]. cbn [mbind exec_bind].
  destruct (set_next_run this None h2) as (h3 & -> & N3 & P3 & A3); [apply A2, A1; by eapply nxt_alive|]. cbn [mbind exec_bind].
  destruct (set_previous_run this None h3) as (h4 & -> & P4 & N4 & A4); [apply A3, A2, A1; by eapply nxt_alive|]. exists h4. split_and!; [done| | |].
  - intros y. rewrite N4, N3, N2, N1. repeat case_decide; subst; done.
  - intros y. rewrite P4, P3, P2, P1. repeat case_decide; subst; done.
  - intros y. by rewrite A4, A3, A2, A1.
Qed.

Lemma LinkNode_move_run this old p q h : prv h old = Some (Some p) -> nxt h old = Some (Some q) -> is_Some (h !! p) -> is_Some (h !! q) -> old <> p -> old <> q -> this <> old -> this <> p -> this <> q ->
  exists h', LinkNode_move this old h = Done h' /\
    (forall y, nxt h' y = if decide (y = this) then Some (Some q) else if decide (y = old) then Some None else if decide (y = p) then Some (Some this) else nxt h y) /\
    (forall y, prv h' y = if decide (y = this) then Some (Some p) else if decide (y = old) then Some None else if decide (y = q) then Some (Some this) else prv h y) /\
    (forall y, is_Some (h' !! y) <-> y = this \/ is_Some (h !! y)).
Proof.
  intros Hp Hq Ap Aq Hop Hoq Hto Htp Htq. unfold LinkNode_move, LinkNode_new. set (h0 := <[this := _]> h).
  assert (forall y, nxt h0 y = if decide (y = this) then Some None else nxt h y) as N0 by (intros y; apply nxt_insert). assert (forall y, prv h0 y = if decide (y = this) then Some None else prv h y) as P0 by (intros y; apply prv_insert).
  assert (forall y, is_Some (h0 !! y) <-> y = this \/ is_Some (h !! y)) as A0. { intros y. unfold h0. destruct (decide (y = this)) as [->|]; [rewrite lookup_insert_eq; split; eauto|rewrite lookup_insert_ne by done; intuition]. }
  rewrite (next_run old h0 (Some q)) by (rewrite N0, decide_False; done). cbn [mbind exec_bind]. destruct (set_next_run this (Some q) h0) as (h1 & -> & N1 & P1 & A1); [apply A0; by left|]. cbn [mbind exec_bind].
  destruct (set_next_run old None h1) as (h2 & -> & N2 & P2 & A2); [apply A1, A0; right; by eapply nxt_alive|]. cbn [mbind exec_bind].
  rewrite (previous_run old h2 (Some p)) by (rewrite P2, P1, P0, decide_False; done). cbn [mbind exec_bind]. destruct (set_previous_run this (Some p) h2) as (h3 & -> & P3 & N3 & A3); [apply A2, A1, A0; by left|]. cbn [mbind exec_bind].
  destruct (set_previous_run old None h3) as (h4 & -> & P4 & N4 & A4); [apply A3, A2, A1, A0; right; by eapply nxt_alive|]. cbn [mbind exec_bind].
  rewrite (next_run this h4 (Some q)) by (rewrite N4, N3, N2, N1, decide_False, decide_True; done). cbn [mbind exec_bind]. destruct (set_previous_run q (Some this) h4) as (h5 & -> & P5 & N5 & A5); [apply A4, A3, A2, A1, A0; by right|]. cbn [mbind exec_bind].
  rewrite (previous_run this h5 (Some p)) by (rewrite P5, decide_False, P4, decide_False, P3, decide_True; done). cbn [mbind exec_bind]. destruct (set_next_run p (Some this) h5) as (h6 & -> & N6 & P6 & A6); [apply A5, A4, A3, A2, A1, A0; by right|].
  exists h6. split_and!; [done| | |].
  - intros y. rewrite N6, N5, N4, N3, N2, N1, N0. repeat case_decide; subst; done.
  - intros y. rewrite P6, P5, P4, P3, P2, P1, P0. repeat case_decide; subst; done.
  - intros y. by rewrite A6, A5, A4, A3, A2, A1, A0.
Qed.

(** *** Rings and the operations *)

Lemma seg_alive h a l b y : seg h a l b -> y ∈ a :: l -> is_Some (h !! y).
Proof.
  revert a. induction l as [|x l IH]; intros a.
  - intros [H _] [->|?%elem_of_nil]%elem_of_cons; [by eapply nxt_alive|done].
  - intros (H & _ & Hs) [->|Hy]%elem_of_cons; [by eapply nxt_alive|by eapply IH].
Qed.

Definition same h h' y : Prop := nxt h' y = nxt h y /\ prv h' y = prv h y.

(** A new node behind [r :: l], before what follows. *)
Lemma insert_ring h h' r l x k this : NoDup (r :: l) -> NoDup (l ++ [x]) -> seg h r l x ->
  this ∉ r :: l -> this <> x ->
  (forall y, nxt h' y = if decide (y = this) then Some (Some x) else if decide (y = last_of r l) then Some (Some this) else nxt h y) ->
  (forall y, prv h' y = if decide (y = this) then Some (Some (last_of r l)) else if decide (y = x) then Some (Some this) else prv h y) ->
  (k = [] \/ exists k', k = x :: k') -> seg h' r l this /\ seg h' this [] x.
Proof.
  intros Hd Hx Hs Ht Htx N P _. pose proof (last_of_in r l) as Hlast. assert (this <> last_of r l) by (intros ->; done). split.
  - apply (seg_retarget h h' r l x); [done|done|rewrite N, decide_False, decide_True by done; done|rewrite P, decide_True by done; done| |].
    + intros y Hy Hne. rewrite N, decide_False, decide_False by (done || intros ->; done). done.
    + intros y Hy. rewrite P, decide_False by (intros ->; apply Ht; by right). rewrite decide_False; [done|]. intros ->. apply list.NoDup_app in Hx as (_ & Hx & _). apply (Hx x Hy). by left.
  - cbn. rewrite N, P, decide_True, decide_False, decide_True by done. done.
Qed.

Lemma NoDup_insert (A : Type) (z : A) (l k : list A) : NoDup (l ++ k) -> z ∉ l ++ k -> NoDup (l ++ z :: k).
Proof. intros Hd Hz. rewrite <- Permutation_middle. by constructor. Qed.

Lemma ring_last h r m : ring h r m -> prv h r = Some (Some (last_of r m)) /\ nxt h (last_of r m) = Some (Some r).
Proof. intros [_ Hs%seg_last]. tauto. Qed.

Lemma ring_alive h r m y : ring h r m -> y ∈ r :: m -> is_Some (h !! y).
Proof. intros [_ Hs]. by eapply seg_alive. Qed.

(** [this] was put between [p] and [q]. *)
Definition linked h h' this p q : Prop :=
  (forall y, nxt h' y = if decide (y = this) then Some (Some q) else if decide (y = p) then Some (Some this) else nxt h y) /\
  (forall y, prv h' y = if decide (y = this) then Some (Some p) else if decide (y = q) then Some (Some this) else prv h y) /\
  (forall y, is_Some (h' !! y) <-> is_Some (h !! y)).

Lemma linked_same h h' this p q y : linked h h' this p q -> y <> this -> y <> p -> y <> q -> same h h' y.
Proof. intros (N & P & _) H1 H2 H3. split; [rewrite N|rewrite P]; by rewrite !decide_False. Qed.

(** At the end, before the root. *)
Lemma ring_linked_end h h' r m this : ring h r m -> this ∉ r :: m -> linked h h' this (last_of r m) r -> ring h' r (m ++ [this]).
Proof.
  intros Hr Ht (N & P & A). pose proof (last_of_in r m) as Hin. assert (this <> last_of r m) by (intros ->; done). assert (this <> r) by (intros ->; apply Ht; left).
  destruct Hr as [Hd Hs]. split; [apply (NoDup_insert _ this (r :: m) []); rewrite app_nil_r; done|]. apply seg_app. apply (insert_ring h h' r m r []); try done; [|by left]. apply list.NoDup_cons in Hd as [Hr Hd]. apply list.NoDup_app. split_and!; [done| |repeat constructor; by intros ?%elem_of_nil].
  intros y Hy [->|?%elem_of_nil]%elem_of_cons; done.
Qed.

(** Before another node. *)
Lemma ring_linked h h' r l x k this : ring h r (l ++ x :: k) -> this ∉ r :: l ++ x :: k -> linked h h' this (last_of r l) x -> ring h' r (l ++ this :: x :: k).
Proof.
  intros Hr Ht (N & P & A). pose proof Hr as [Hd Hs]. apply seg_app in Hs as [Hs1 Hs2]. pose proof (last_of_in r l) as Hin.
  assert (last_of r l ∈ r :: l ++ x :: k) as Hin'. { apply elem_of_cons in Hin as [->|Hin]; [left|right; apply elem_of_app; by left]. }
  assert (this <> last_of r l) by (intros ->; done). assert (this <> x) by (intros ->; apply Ht; right; apply elem_of_app; right; left).
  split; [apply (NoDup_insert _ this (r :: l) (x :: k)); done|]. pose proof Hd as Hd0. change (r :: l ++ x :: k) with ((r :: l) ++ x :: k) in Hd0. apply list.NoDup_app in Hd0 as (Hdl & Hdx & Hdk).
  destruct (insert_ring h h' r l x [] this) as [H1 H2]; try done; [| |by left|].
  { apply list.NoDup_cons in Hdl as [_ Hdl]. apply list.NoDup_app. split_and!; [done| |repeat constructor; by intros ?%elem_of_nil]. intros y Hy [->|?%elem_of_nil]%elem_of_cons; [|done]. apply (Hdx x); [by right|left]. }
  { intros Hy. apply Ht. apply elem_of_cons in Hy as [->|Hy]; [left|right; apply elem_of_app; by left]. }
  apply seg_app. split; [done|]. cbn. destruct H2 as [H2 H3]. split_and!; [done|done|]. apply (seg_frame h); [done| |].
  - intros y Hy. rewrite N, decide_False, decide_False; [done| |].
    + intros ->. by apply (Hdx (last_of r l)).
    + intros ->. apply Ht. right. apply elem_of_app. by right.
  - intros y Hy. rewrite P. assert (y ∈ k \/ y = r) as Hy' by (apply elem_of_app in Hy as [?|[->|?%elem_of_nil]%elem_of_cons]; [by left|by right|done]). rewrite decide_False, decide_False; [done| |].
    + intros ->. apply list.NoDup_cons in Hdk as [Hxk _]. destruct Hy' as [?| ->]; [done|]. apply (Hdx r); left.
    + intros ->. apply Ht. destruct Hy' as [?| ->]; [right; apply elem_of_app; right; by right|left].
Qed.

(** What follows [l] in the list. *)
Lemma ring_split h r l x k : ring h r (l ++ x :: k) -> prv h x = Some (Some (last_of r l)) /\ nxt h x = Some (Some (first_of k r)).
Proof. intros [_ [H1 H2]%seg_app]. split; [apply (seg_last _ _ _ _ H1)|apply (seg_first _ _ _ _ H2)]. Qed.

Lemma last_of_snoc a l x : last_of a (l ++ [x]) = x.
Proof. unfold last_of. apply List.last_last. Qed.

(** Behind [l], whatever comes then. *)
Lemma ring_linked_behind h h' r l k this : ring h r (l ++ k) -> this ∉ r :: l ++ k -> linked h h' this (last_of r l) (first_of k r) -> ring h' r (l ++ this :: k).
Proof. destruct k as [|x k]; cbn [first_of]; [rewrite app_nil_r; apply ring_linked_end|apply ring_linked]. Qed.

(** *** Each operation *)

(** Every node but the new one and those of the list is as before. *)
Definition frame h h' this r m : Prop := (forall y, y <> this -> y ∉ r :: m -> same h h' y) /\ (forall y, is_Some (h' !! y) <-> is_Some (h !! y)).

Lemma linked_frame h h' this p q r m : linked h h' this p q -> p ∈ r :: m -> q ∈ r :: m -> frame h h' this r m.
Proof. intros Hl Hp Hq. split; [|apply Hl]. intros y Hy Hn. apply (linked_same h h' this p q); [done|done|by intros ->|by intros ->]. Qed.

Lemma last_of_member r l k : last_of r l ∈ r :: l ++ k.
Proof. pose proof (last_of_in r l) as H. apply elem_of_cons in H as [->|H]; [left|right; apply elem_of_app; by left]. Qed.

Lemma first_of_member r l k : first_of k r ∈ r :: l ++ k.
Proof. destruct k as [|x k]; cbn; [left|right; apply elem_of_app; right; left]. Qed.

Lemma InsertBefore_ring h r l k this : ring h r (l ++ k) -> this ∉ r :: l ++ k -> is_Some (h !! this) -> exists h', InsertBefore this (first_of k r) h = Done h' /\ ring h' r (l ++ this :: k) /\ frame h h' this r (l ++ k).
Proof.
  intros Hr Ht Ha. assert (prv h (first_of k r) = Some (Some (last_of r l))) as Hp. { destruct k as [|x k]; cbn; [rewrite app_nil_r in Hr; by apply (ring_last h r l)|by apply (ring_split h r l x k)]. }
  pose proof (last_of_member r l k) as H1. pose proof (first_of_member r l k) as H2.
  destruct (InsertBefore_run this (last_of r l) (first_of k r) h Hp) as (h' & Hrun & Hl); [by eapply ring_alive|done|by intros ->|by intros ->|]. exists h'. split_and!; [done|by apply (ring_linked_behind h)|by eapply linked_frame].
Qed.

Lemma InsertAfter_ring h r l k this : ring h r (l ++ k) -> this ∉ r :: l ++ k -> is_Some (h !! this) -> exists h', InsertAfter this (last_of r l) h = Done h' /\ ring h' r (l ++ this :: k) /\ frame h h' this r (l ++ k).
Proof.
  intros Hr Ht Ha. assert (nxt h (last_of r l) = Some (Some (first_of k r))) as Hn.
  { destruct k as [|x k]; cbn; [rewrite app_nil_r in Hr; by apply (ring_last h r l)|]. destruct Hr as [_ [H1 _]%seg_app]. apply (seg_last _ _ _ _ H1). }
  pose proof (last_of_member r l k) as H1. pose proof (first_of_member r l k) as H2.
  destruct (InsertAfter_run this (last_of r l) (first_of k r) h Hn) as (h' & Hrun & Hl); [by eapply ring_alive|done|by intros ->|by intros ->|]. exists h'. split_and!; [done|by apply (ring_linked_behind h)|by eapply linked_frame].
Qed.

(** A node of the list is none of its neighbours. *)
Lemma ring_neighbours h r l x k : ring h r (l ++ x :: k) -> x <> last_of r l /\ x <> first_of k r /\ (x ∉ r :: l) /\ (x ∉ k ++ [r]) /\ NoDup (r :: l) /\ NoDup (k ++ [r]) /\ (forall y, y ∈ l -> y ∉ k ++ [r]) /\ (forall y, y ∈ r :: l -> y ∉ k).
Proof.
  intros [Hd _]. change (r :: l ++ x :: k) with ((r :: l) ++ x :: k) in Hd. pose proof Hd as Hd'. apply list.NoDup_app in Hd as (H1 & H2 & H3). apply list.NoDup_cons in H3 as [H3 H4].
  assert (x ∉ r :: l) as Hx by (intros H; by apply (H2 x H); left). assert (r ∉ k) as Hrk by (intros H; apply (H2 r); [left|by right]).
  assert (x ∉ k ++ [r]) as Hxk. { intros [H|[->|?%elem_of_nil]%elem_of_cons]%elem_of_app; [done| |done]. apply Hx. left. }
  split_and!; try done.
  - intros ->. by apply Hx, last_of_in.
  - intros ->. apply Hxk. destruct k as [|y k]; cbn; left.
  - apply list.NoDup_app. split_and!; [done| |repeat constructor; by intros ?%elem_of_nil]. intros y Hy [->|?%elem_of_nil]%elem_of_cons; done.
  - intros y Hy [H|[->|?%elem_of_nil]%elem_of_cons]%elem_of_app; [|by apply list.NoDup_cons in H1 as [? _]|done]. apply (H2 y); by right.
  - intros y Hy H. apply (H2 y); [done|by right].
Qed.

(** The list closes over a node that is gone, or takes another one for it. *)
Lemma RemoveFromList_ring h r l x k : ring h r (l ++ x :: k) -> exists h', RemoveFromList x h = Done h' /\ ring h' r (l ++ k) /\ nxt h' x = Some None /\ prv h' x = Some None /\ frame h h' x r (l ++ x :: k).
Proof.
  intros Hr. destruct (ring_split h r l x k Hr) as [Hp Hn]. destruct (ring_neighbours h r l x k Hr) as (N1 & N2 & N3 & N4 & N5 & N6 & N7 & N8).
  assert (last_of r l ∈ r :: l ++ x :: k) as M1 by apply last_of_member. assert (first_of k r ∈ r :: l ++ x :: k) as M2 by (destruct k; cbn; [left|right; apply elem_of_app; right; right; left]).
  destruct (RemoveFromList_run x (last_of r l) (first_of k r) h Hp Hn) as (h' & Hrun & N & P & A); [by eapply ring_alive|by eapply ring_alive|done|done|]. exists h'. split_and!; [done| | | |].
  - destruct Hr as [Hd [Hs1 Hs2]%seg_app]. split.
    { change (r :: l ++ x :: k) with ((r :: l) ++ x :: k) in Hd. rewrite <- Permutation_middle in Hd. by apply list.NoDup_cons in Hd as [_ Hd]. }
    assert (seg h' r l (first_of k r)) as Hs.
    { apply (seg_retarget h h' r l x); try done.
      - rewrite N, decide_False, decide_True; done.
      - rewrite P, decide_False, decide_True; done.
      - intros y Hy Hne. rewrite N, decide_False, decide_False; [done|done|by intros ->].
      - intros y Hy. rewrite P, decide_False, decide_False; [done| |intros ->; apply N3; by right]. intros ->. apply (N7 _ Hy). destruct k; cbn; left. }
    destruct k as [|y k]; [rewrite app_nil_r; exact Hs|]. apply seg_app. split; [exact Hs|]. cbn in Hs2. destruct Hs2 as (_ & _ & Hs2). apply (seg_frame h); [done| |].
    + intros z Hz. rewrite N, decide_False, decide_False; [done| |].
      * intros ->. by apply (N8 _ (last_of_in r l)).
      * intros ->. apply N4. apply elem_of_app. by left.
    + intros z Hz. rewrite P, decide_False, decide_False; [done| |].
      * cbn. intros ->. cbn in N6. by apply list.NoDup_cons in N6 as [? _].
      * intros ->. apply N4. by right.
  - by rewrite N, decide_True.
  - by rewrite P, decide_True.
  - split; [|done]. intros y Hy Hm. split; [rewrite N|rewrite P]; rewrite decide_False, decide_False; try done; by intros ->.
Qed.

Lemma LinkNode_move_ring h r l x k this : ring h r (l ++ x :: k) -> this ∉ r :: l ++ x :: k -> exists h', LinkNode_move this x h = Done h' /\ ring h' r (l ++ this :: k) /\ nxt h' x = Some None /\ prv h' x = Some None /\
  (forall y, y <> this -> y ∉ r :: l ++ x :: k -> same h h' y) /\ (forall y, is_Some (h' !! y) <-> y = this \/ is_Some (h !! y)).
Proof.
  intros Hr Ht. destruct (ring_split h r l x k Hr) as [Hp Hn]. destruct (ring_neighbours h r l x k Hr) as (N1 & N2 & N3 & N4 & N5 & N6 & N7 & N8).
  assert (last_of r l ∈ r :: l ++ x :: k) as M1 by apply last_of_member. assert (first_of k r ∈ r :: l ++ x :: k) as M2 by (destruct k; cbn; [left|right; apply elem_of_app; right; right; left]).
  assert (x ∈ r :: l ++ x :: k) as M3 by (right; apply elem_of_app; right; left).
  destruct (LinkNode_move_run this x (last_of r l) (first_of k r) h Hp Hn) as (h' & Hrun & N & P & A); [by eapply ring_alive|by eapply ring_alive|done|done|by intros ->|by intros ->|by intros ->|]. exists h'. split_and!; [done| | | | |done].
  - destruct Hr as [Hd [Hs1 Hs2]%seg_app]. split.
    { change (r :: l ++ x :: k) with ((r :: l) ++ x :: k) in *. rewrite <- Permutation_middle in Hd, Ht. apply list.NoDup_cons in Hd as [_ Hd]. apply not_elem_of_cons in Ht as [_ Ht]. by apply (NoDup_insert _ this (r :: l) k). }
    apply seg_app. split.
    + apply (seg_retarget h h' r l x); try done.
      * rewrite N, decide_False, decide_False, decide_True; try done; by intros <-.
      * rewrite P, decide_True; done.
      * intros y Hy Hne. rewrite N, decide_False, decide_False, decide_False; try done; [by intros ->|]. intros ->. apply Ht. change (r :: l ++ x :: k) with ((r :: l) ++ x :: k). apply elem_of_app. by left.
      * intros y Hy. rewrite P, decide_False, decide_False, decide_False; [done| |intros ->; apply N3; by right|]; [|intros ->; apply Ht; right; apply elem_of_app; by left]. intros ->. apply (N7 _ Hy). destruct k; cbn; left.
    + apply (seg_resource h h' x this k r); try done.
      * by rewrite N, decide_True.
      * rewrite P, decide_False, decide_False, decide_True; try done; by intros <-.
      * intros y Hy. rewrite N, decide_False, decide_False, decide_False; [done| | |].
        -- intros ->. by apply (N8 _ (last_of_in r l)).
        -- intros ->. apply N4. apply elem_of_app. by left.
        -- intros ->. apply Ht. right. apply elem_of_app. right. by right.
      * intros y Hy Hne. rewrite P, decide_False, decide_False, decide_False; [done|done| |].
        -- by intros ->.
        -- intros ->. apply Ht. apply elem_of_app in Hy as [Hy|[->|?%elem_of_nil]%elem_of_cons]; [right; apply elem_of_app; right; by right|left|done].
  - rewrite N, decide_False, decide_True; try done. by intros <-.
  - rewrite P, decide_False, decide_True; try done. by intros <-.
  - intros y Hy Hm. split; [rewrite N|rewrite P]; rewrite decide_False, decide_False, decide_False; try done; by intros ->.
Qed.

(** *** Calls on one list *)

Inductive call := CNew (e : nat) | CAppend (e : nat) | CInsertBefore (e x : nat) | CInsertAfter (e x : nat) | CRemove (e : nat) | CMove (e old : nat).

(** [CMove] constructs [e] from [old]. *)
Definition run_call r (c : call) h : exec store :=
  match c with
  | CNew e => Done (LinkNode_new e h)
  | CAppend e => Append r e h
  | CInsertBefore e x => InsertBefore e x h
  | CInsertAfter e x => InsertAfter e x h
  | CRemove e => RemoveFromList e h
  | CMove e old => LinkNode_move e old h
  end.

Fixpoint run_calls r (cs : list call) h : exec store := match cs with [] => Done h | c :: cs => h ← run_call r c h; run_calls r cs h end.

(** The same on a list of nodes. *)
Fixpoint put_before e x m : list nat := match m with [] => [] | y :: k => if y =? x then e :: m else y :: put_before e x k end.
Fixpoint put_after e x m : list nat := match m with [] => [] | y :: k => if y =? x then y :: e :: k else y :: put_after e x k end.
Definition take_out e m : list nat := List.filter (fun y => negb (y =? e)) m.
Definition put_for e x m : list nat := map (fun y => if y =? x then e else y) m.

Definition effect r (c : call) m : list nat :=
  match c with
  | CNew _ => m
  | CAppend e => m ++ [e]
  | CInsertBefore e x => if x =? r then m ++ [e] else put_before e x m
  | CInsertAfter e x => if x =? r then e :: m else put_after e x m
  | CRemove e => take_out e m
  | CMove e old => put_for e old m
  end.

(** The nodes there are: [exist]. *)
Definition made (c : call) (exist : gset nat) : gset nat := match c with CNew e | CMove e _ => {[e]} ∪ exist | _ => exist end.

Definition permitted r (c : call) (exist : gset nat) m : Prop :=
  match c with
  | CNew e => e ∉ exist
  | CAppend e => (e ∈ exist) /\ (e ∉ r :: m)
  | CInsertBefore e x | CInsertAfter e x => (e ∈ exist) /\ (e ∉ r :: m) /\ (x ∈ r :: m)
  | CRemove e => e ∈ m
  | CMove e old => (e ∉ exist) /\ old ∈ m
  end.

Fixpoint all_permitted r (cs : list call) (exist : gset nat) m : Prop :=
  match cs with [] => True | c :: cs => permitted r c exist m /\ all_permitted r cs (made c exist) (effect r c m) end.

Definition effects r (cs : list call) m : list nat := fold_left (fun m c => effect r c m) cs m.

Lemma member_split x m : x ∈ m -> NoDup m -> exists l k, m = l ++ x :: k /\ (x ∉ l) /\ (x ∉ k).
Proof.
  intros (l & k & ->)%list_elem_of_split Hd. exists l, k. split; [done|]. apply list.NoDup_app in Hd as (_ & H1 & [H2 _]%list.NoDup_cons). split; [|done]. intros H. apply (H1 x H). left.
Qed.

Lemma put_before_split e x l k : x ∉ l -> put_before e x (l ++ x :: k) = l ++ e :: x :: k.
Proof. induction l as [|y l IH]; cbn; [by rewrite Nat.eqb_refl|]. intros [H1 H2]%not_elem_of_cons. rewrite (proj2 (Nat.eqb_neq _ _)) by done. by rewrite IH. Qed.

Lemma put_after_split e x l k : x ∉ l -> put_after e x (l ++ x :: k) = l ++ x :: e :: k.
Proof. induction l as [|y l IH]; cbn; [by rewrite Nat.eqb_refl|]. intros [H1 H2]%not_elem_of_cons. rewrite (proj2 (Nat.eqb_neq _ _)) by done. by rewrite IH. Qed.

Lemma take_out_others e m : e ∉ m -> take_out e m = m.
Proof. unfold take_out. induction m as [|y m IH]; cbn; [done|]. intros [H1 H2]%not_elem_of_cons. rewrite (proj2 (Nat.eqb_neq _ _)) by done. cbn. by rewrite IH. Qed.

Lemma take_out_split e l k : e ∉ l -> e ∉ k -> take_out e (l ++ e :: k) = l ++ k.
Proof. intros H1 H2. unfold take_out. rewrite List.filter_app. cbn. rewrite Nat.eqb_refl. cbn. fold (take_out e l) (take_out e k). by rewrite !take_out_others. Qed.

Lemma put_for_others e x m : x ∉ m -> put_for e x m = m.
Proof. unfold put_for. induction m as [|y m IH]; cbn; [done|]. intros [H1 H2]%not_elem_of_cons. rewrite (proj2 (Nat.eqb_neq _ _)) by done. by rewrite IH. Qed.

Lemma put_for_split e x l k : x ∉ l -> x ∉ k -> put_for e x (l ++ x :: k) = l ++ e :: k.
Proof. intros H1 H2. unfold put_for. rewrite map_app. cbn. rewrite Nat.eqb_refl. fold (put_for e x l) (put_for e x k). by rewrite !put_for_others. Qed.

(** The store holds the list with the root [r] and the nodes [m], among those that exist. *)
Definition holds r h (exist : gset nat) m : Prop := ring h r m /\ (forall y, is_Some (h !! y) <-> y ∈ exist).

Lemma holds_new r h exist m e : holds r h exist m -> e ∉ exist -> holds r (LinkNode_new e h) ({[e]} ∪ exist) m.
Proof.
  intros [Hr Ha] He. assert (e ∉ r :: m) as Hm by (intros H; apply He, Ha; by eapply ring_alive). split.
  - destruct Hr as [Hd Hs]. split; [done|]. apply (seg_frame h); [done| |]; intros y Hy; [unfold LinkNode_new; rewrite nxt_insert|unfold LinkNode_new; rewrite prv_insert]; rewrite decide_False; try done; intros ->; apply Hm; [done|].
    apply elem_of_app in Hy as [Hy|[->|?%elem_of_nil]%elem_of_cons]; [by right|left|done].
  - intros y. unfold LinkNode_new. rewrite elem_of_union, elem_of_singleton, <- Ha. destruct (decide (y = e)) as [->|]; [rewrite lookup_insert_eq; split; eauto|rewrite lookup_insert_ne by done; intuition].
Qed.

Lemma run_call_ring r c h exist m : holds r h exist m -> permitted r c exist m -> exists h', run_call r c h = Done h' /\ holds r h' (made c exist) (effect r c m).
Proof.
  intros Hh Hp. pose proof Hh as [Hr Ha]. pose proof (proj1 Hr) as Hd0. apply list.NoDup_cons in Hd0 as [Hrm Hd]. destruct c as [e|e|e x|e x|e|e old]; cbn [run_call permitted effect made] in *.
  - eexists. split; [done|]. by apply holds_new.
  - destruct Hp as [He Hm]. destruct (InsertBefore_ring h r m [] e) as (h' & Hrun & Hr' & _ & Ha'); [by rewrite app_nil_r|by rewrite app_nil_r|by apply Ha|]. exists h'. split; [done|]. split; [done|]. intros y. by rewrite Ha'.
  - destruct Hp as (He & Hm & Hx). destruct (Nat.eqb_spec x r) as [->|Hne].
    + destruct (InsertBefore_ring h r m [] e) as (h' & Hrun & Hr' & _ & Ha'); [by rewrite app_nil_r|by rewrite app_nil_r|by apply Ha|]. exists h'. split; [done|]. split; [done|]. intros y. by rewrite Ha'.
    + apply elem_of_cons in Hx as [->|Hx]; [done|]. destruct (member_split x m Hx Hd) as (l & k & -> & Hl & Hk). rewrite put_before_split by done. destruct (InsertBefore_ring h r l (x :: k) e) as (h' & Hrun & Hr' & _ & Ha'); [done|done|by apply Ha|]. exists h'. split; [done|]. split; [done|]. intros y. by rewrite Ha'.
  - destruct Hp as (He & Hm & Hx). destruct (Nat.eqb_spec x r) as [->|Hne].
    + destruct (InsertAfter_ring h r [] m e) as (h' & Hrun & Hr' & _ & Ha'); [done|done|by apply Ha|]. exists h'. split; [done|]. split; [done|]. intros y. by rewrite Ha'.
    + apply elem_of_cons in Hx as [->|Hx]; [done|]. destruct (member_split x m Hx Hd) as (l & k & -> & Hl & Hk). rewrite put_after_split by done.
      destruct (InsertAfter_ring h r (l ++ [x]) k e) as (h' & Hrun & Hr' & _ & Ha'); [by rewrite <- app_assoc|by rewrite <- app_assoc|by apply Ha|]. rewrite last_of_snoc in Hrun. rewrite <- app_assoc in Hr'. exists h'. split; [done|]. split; [done|]. intros y. by rewrite Ha'.
  - destruct (member_split e m Hp Hd) as (l & k & -> & Hl & Hk). rewrite take_out_split by done. destruct (RemoveFromList_ring h r l e k Hr) as (h' & Hrun & Hr' & _ & _ & _ & Ha'). exists h'. split; [done|]. split; [done|]. intros y. by rewrite Ha'.
  - destruct Hp as [He Hm]. destruct (member_split old m Hm Hd) as (l & k & -> & Hl & Hk). rewrite put_for_split by done. destruct (LinkNode_move_ring h r l old k e Hr) as (h' & Hrun & Hr' & _ & _ & _ & Ha'); [intros H; by apply He, Ha, (ring_alive h r (l ++ old :: k))|].
    exists h'. split; [done|]. split; [done|]. intros y. rewrite Ha', elem_of_union, elem_of_singleton. by rewrite Ha.
Qed.

Lemma list_run_calls r cs h exist m : holds r h exist m -> all_permitted r cs exist m -> exists h' exist', run_calls r cs h = Done h' /\ holds r h' exist' (effects r cs m).
Proof.
  revert h exist m. induction cs as [|c cs IH]; intros h exist m Hh Hp; cbn; [eauto|]. destruct Hp as [Hc Hcs]. destruct (run_call_ring r c h exist m Hh Hc) as (h1 & -> & Hh1). cbn [mbind exec_bind]. exact (IH h1 _ _ Hh1 Hcs).
Qed.

(** *** Walks *)

Lemma forwards_seg h r m : forall a fuel, seg h a m r -> r ∉ m -> length m <= fuel -> forwards fuel r (Some (first_of m r)) h = Done (Some m).
Proof.
  induction m as [|x m IH]; intros a fuel Hs Hr Hf; cbn [first_of].
  - destruct fuel; cbn [forwards]; by rewrite bool_decide_true.
  - destruct fuel as [|fuel]; [cbn in Hf; lia|]. apply not_elem_of_cons in Hr as [Hx Hr]. cbn [forwards]. rewrite bool_decide_false by congruence. cbn [defined mbind exec_bind]. cbn in Hs. destruct Hs as (_ & _ & Hs).
    rewrite (next_run x h _ (proj1 (seg_first _ _ _ _ Hs))). cbn [mbind exec_bind]. rewrite (IH x fuel Hs Hr) by (cbn in Hf; lia). done.
Qed.

Lemma backwards_seg h r m : forall b fuel, seg h r m b -> r ∉ m -> length m <= fuel -> backwards fuel r (Some (last_of r m)) h = Done (Some (rev m)).
Proof.
  induction m as [|x m IH] using rev_ind; intros b fuel Hs Hr Hf.
  - destruct fuel; cbn [backwards last_of List.last]; unfold last_of; cbn; by rewrite bool_decide_true.
  - rewrite length_app in Hf. cbn in Hf. destruct fuel as [|fuel]; [lia|]. rewrite last_of_snoc, rev_unit. apply not_elem_of_app in Hr as [Hr [Hx _]%not_elem_of_cons]. cbn [backwards]. rewrite bool_decide_false by congruence. cbn [defined mbind exec_bind].
    apply seg_app in Hs as [Hs _]. rewrite (previous_run x h _ (proj2 (seg_last _ _ _ _ Hs))). cbn [mbind exec_bind]. rewrite (IH x fuel Hs Hr) by lia. done.
Qed.

Lemma holds_walks r h exist m : holds r h exist m -> walk_forwards (length m) r h = Done (Some m) /\ walk_backwards (length m) r h = Done (Some (rev m)) /\ empty r h = Done (bool_decide (m = [])).
Proof.
  intros [[Hd Hs] _]. apply list.NoDup_cons in Hd as [Hr Hd]. destruct (seg_first _ _ _ _ Hs) as [Hf _]. destruct (seg_last _ _ _ _ Hs) as [_ Hl]. unfold walk_forwards, walk_backwards, empty, head, tail.
  rewrite (next_run r h _ Hf), (previous_run r h _ Hl). cbn [mbind exec_bind]. split_and!; [by apply (forwards_seg h r m r)|by apply (backwards_seg h r m r)|].
  f_equal. destruct m as [|x m]; cbn [first_of]; apply bool_decide_ext; [done|]. split; [|done]. intros [= ->]. exfalso. apply Hr. left.
Qed.

Lemma LinkedList_new_holds r : holds r (LinkedList_new r ∅) {[r]} [].
Proof.
  split; [split; [repeat constructor; by intros ?%elem_of_nil|]|].
  - unfold LinkedList_new. cbn. by rewrite nxt_insert, prv_insert, !decide_True.
  - intros y. unfold LinkedList_new. rewrite elem_of_singleton. destruct (decide (y = r)) as [->|]; [rewrite lookup_insert_eq; split; eauto|]. rewrite lookup_insert_ne, lookup_empty by done. split; [by intros [? ?]|done].
Qed.

End Links.

(** ** RingBuffer *)

Module Ring.
Open Scope Z_scope.

Section Ring.
Context {T : Type} (size_t : int_type) (kSize : Z).

(** An element without a value was not written. *)
Record RingBuffer := mkBuffer { buffer_ : list (option T); current_index_ : Z }.

Definition new_buffer : RingBuffer := mkBuffer (replicate (Z.to_nat kSize) None) 0.

Definition BufferIndex (n : Z) (b : RingBuffer) : Z := static_cast size_t (current_index_ b + n) mod kSize.
Definition IsFilledIndexByBufferIndex (buffer_index : Z) (b : RingBuffer) : bool := buffer_index <? current_index_ b.
Definition IsFilledIndex (n : Z) (b : RingBuffer) : bool := IsFilledIndexByBufferIndex (BufferIndex n b) b.

Definition ReadBuffer (n : Z) (b : RingBuffer) : exec T :=
  let buffer_index := BufferIndex n b in
  RTC_CHECK (IsFilledIndexByBufferIndex buffer_index b) (v ← defined (buffer_ b !! Z.to_nat buffer_index); defined v).

(** What is written through the pointer of [MutableReadBuffer]. *)
Definition write_MutableReadBuffer (n : Z) (value : T) (b : RingBuffer) : exec RingBuffer :=
  let buffer_index := BufferIndex n b in
  RTC_CHECK (IsFilledIndexByBufferIndex buffer_index b) (Done (mkBuffer (<[Z.to_nat buffer_index := Some value]> (buffer_ b)) (current_index_ b))).

Definition SaveToBuffer (value : T) (b : RingBuffer) : RingBuffer :=
  mkBuffer (<[Z.to_nat (BufferIndex 0 b) := Some value]> (buffer_ b)) (static_cast size_t (current_index_ b + 1)).

Definition Clear (b : RingBuffer) : RingBuffer := mkBuffer (buffer_ b) 0.

Record Iterator := mkIterator { index_ : Z; out_of_range_ : bool }.

Definition Begin (b : RingBuffer) : Iterator :=
  if current_index_ b <? kSize then mkIterator (kSize - current_index_ b) false else mkIterator 0 false.
Definition End_ : Iterator := mkIterator (kSize - 1) false.

Definition increment (it : Iterator) : Iterator :=
  let index := static_cast size_t (index_ it + 1) in mkIterator index (if index =? kSize then true else out_of_range_ it).
Definition decrement (it : Iterator) : Iterator :=
  mkIterator (static_cast size_t (index_ it - 1)) (if index_ it =? 0 then true else out_of_range_ it).
Definition operator_bool (it : Iterator) (b : RingBuffer) : bool := negb (out_of_range_ it) && IsFilledIndex (index_ it) b.

(** The loops of the comments; [None] when they go on after [fuel] turns. *)
Fixpoint visit (fuel : nat) (step : Iterator -> Iterator) (it : Iterator) (b : RingBuffer) : exec (option (list T)) :=
  match fuel with
  | O => Done None
  | Datatypes.S fuel =>
      if operator_bool it b then v ← ReadBuffer (index_ it) b; l ← visit fuel step (step it) b; Done (option_map (cons v) l) else Done (Some [])
  end.

Definition forwards (fuel : nat) (b : RingBuffer) : exec (option (list T)) := visit fuel increment (Begin b) b.
Definition backwards (fuel : nat) (b : RingBuffer) : exec (option (list T)) := visit fuel decrement End_ b.

(** *** The last values *)

(** [xs] was saved since the buffer was made or cleared. *)
Record saved (b : RingBuffer) (xs : list T) : Prop := {
  saved_length : Z.of_nat (length (buffer_ b)) = kSize;
  saved_index : current_index_ b = Z.of_nat (length xs);
  saved_at : forall j x, xs !! j = Some x -> (Z.of_nat (length xs) <= Z.of_nat j + kSize) -> buffer_ b !! Z.to_nat (Z.of_nat j mod kSize) = Some (Some x)
}.

Context (size_t_unsigned : is_signed size_t = false) (kSize_positive : 0 < kSize).

Lemma new_saved : saved new_buffer [].
Proof using kSize_positive. split; cbn; [rewrite length_replicate; lia|done|done]. Qed.

Lemma Clear_saved b xs : saved b xs -> saved (Clear b) [].
Proof using. intros [Hl _ _]. split; cbn; [done|done|done]. Qed.

Lemma cast_id z : 0 <= z <= IntTypes.max size_t -> static_cast size_t z = z.
Proof using size_t_unsigned. intros Hz. apply static_cast_id. destruct size_t; try discriminate; limits; lia. Qed.

Lemma SaveToBuffer_saved b xs x : saved b xs -> Z.of_nat (length xs) + 1 <= IntTypes.max size_t -> saved (SaveToBuffer x b) (xs ++ [x]).
Proof using size_t_unsigned kSize_positive.
  intros [Hl Hi Ha] Hmax. unfold SaveToBuffer, BufferIndex. rewrite Hi, !cast_id by lia. rewrite Z.add_0_r. pose proof (Z.mod_pos_bound (Z.of_nat (length xs)) kSize kSize_positive) as Hb. split; cbn.
  - by rewrite length_insert.
  - rewrite length_app. cbn. lia.
  - intros j y Hj Hw. rewrite length_app in Hw. cbn in Hw. apply lookup_app_Some in Hj as [Hj|[Hge Hj]].
    + pose proof (lookup_lt_Some _ _ _ Hj). rewrite list_lookup_insert_ne; [apply Ha; [done|lia]|].
      intros Heq. pose proof (Z.mod_pos_bound (Z.of_nat j) kSize kSize_positive). assert (Z.of_nat (length xs) mod kSize = Z.of_nat j mod kSize) as Hm by lia.
      pose proof (Z.div_mod (Z.of_nat (length xs)) kSize ltac:(lia)). pose proof (Z.div_mod (Z.of_nat j) kSize ltac:(lia)). set (qa := Z.of_nat (length xs) / kSize) in *. set (qb := Z.of_nat j / kSize) in *. assert (kSize * qa - kSize * qb = Z.of_nat (length xs) - Z.of_nat j) by lia. destruct (Z.lt_trichotomy qa qb) as [?|[?|?]]; nia.
    + assert (j = length xs) as ->. { pose proof (lookup_lt_Some _ _ _ Hj) as Hlt. cbn in Hlt. lia. } rewrite Nat.sub_diag in Hj. cbn in Hj. injection Hj as <-. apply list_lookup_insert_eq. lia.
Qed.

(** The place of an index, and the value that is there. *)
Lemma filled_index b xs n : saved b xs -> 0 <= n <= kSize -> Z.of_nat (length xs) + kSize <= IntTypes.max size_t -> (n = kSize -> xs = []) -> IsFilledIndex n b = (kSize <=? Z.of_nat (length xs) + n) && (n <? kSize).
Proof using size_t_unsigned kSize_positive.
  intros [Hl Hi _] Hn Hmax Hend. unfold IsFilledIndex, IsFilledIndexByBufferIndex, BufferIndex. rewrite Hi, cast_id by lia. set (len := Z.of_nat (length xs)) in *. assert (0 <= len) by lia.
  destruct (Z.eq_dec n kSize) as [->|Hne].
  - assert (len = 0) as -> by (unfold len; rewrite (Hend eq_refl); done). rewrite Z.ltb_irrefl, andb_false_r. pose proof (Z.mod_pos_bound (0 + kSize) kSize kSize_positive). apply Z.ltb_ge. lia.
  - rewrite (proj2 (Z.ltb_lt n kSize)), andb_true_r by lia. destruct (Z.leb_spec kSize (len + n)).
    + apply Z.ltb_lt. pose proof (Z.mod_pos_bound (len + n) kSize kSize_positive). destruct (Z_lt_le_dec len kSize); [|lia]. rewrite <- (Z_mod_plus_full (len + n) (-1) kSize). rewrite Z.mod_small by lia. lia.
    + rewrite Z.mod_small by lia. apply Z.ltb_ge. lia.
Qed.

Lemma ReadBuffer_run b xs n : saved b xs -> 0 <= n < kSize -> Z.of_nat (length xs) + kSize <= IntTypes.max size_t ->
  ReadBuffer n b = match xs !! Z.to_nat (Z.of_nat (length xs) + n - kSize) with Some x => if kSize <=? Z.of_nat (length xs) + n then Done x else Fatal | None => Fatal end.
Proof using size_t_unsigned kSize_positive.
  intros Hs Hn Hmax. unfold ReadBuffer. pose proof (filled_index b xs n Hs ltac:(lia) Hmax ltac:(lia)) as Hf. unfold IsFilledIndex in Hf. rewrite Hf. clear Hf. destruct Hs as [Hl Hi Ha]. rewrite (proj2 (Z.ltb_lt n kSize)), andb_true_r by lia. unfold RTC_CHECK.
  destruct (Z.leb_spec kSize (Z.of_nat (length xs) + n)); [|by destruct (xs !! _)].
  destruct (lookup_lt_is_Some_2 xs (Z.to_nat (Z.of_nat (length xs) + n - kSize))) as [x Hx]; [lia|]. rewrite Hx. unfold BufferIndex. rewrite Hi, cast_id by lia.
  pose proof (Ha _ _ Hx ltac:(lia)) as Hat. rewrite Z2Nat.id in Hat by lia. rewrite <- (Z_mod_plus_full (Z.of_nat (length xs) + n) (-1) kSize). replace (Z.of_nat (length xs) + n + -1 * kSize) with (Z.of_nat (length xs) + n - kSize) by lia. rewrite Hat. done.
Qed.

Definition last_values (xs : list T) : list T := skipn (length xs - Z.to_nat kSize) xs.

Lemma visit_forwards b xs : saved b xs -> Z.of_nat (length xs) + kSize <= IntTypes.max size_t -> forall fuel n o, 0 <= n <= kSize -> kSize <= Z.of_nat (length xs) + n -> (o = true <-> n = kSize /\ xs <> []) -> kSize - n < Z.of_nat fuel ->
  visit fuel increment (mkIterator n o) b = Done (Some (skipn (Z.to_nat (Z.of_nat (length xs) + n - kSize)) xs)).
Proof using size_t_unsigned kSize_positive.
  intros Hs Hmax. induction fuel as [|fuel IH]; intros n o Hn Hlen Ho Hf; [lia|]. cbn [visit]. unfold operator_bool. cbn [out_of_range_ index_].
  destruct (Z.eq_dec n kSize) as [->|Hne].
  - replace (Z.to_nat (Z.of_nat (length xs) + kSize - kSize)) with (length xs) by lia. rewrite skipn_all. destruct o; [done|]. assert (xs = []) as ->. { destruct xs; [done|]. assert (false = true); [|done]. apply Ho. done. }
    rewrite (filled_index b []) by (done || lia). rewrite Z.ltb_irrefl, andb_false_r. done.
  - destruct o; [exfalso; apply Hne; by apply Ho|]. rewrite (filled_index b xs) by (done || lia). rewrite (proj2 (Z.leb_le _ _)), (proj2 (Z.ltb_lt _ _)) by lia. cbn [negb andb]. rewrite (ReadBuffer_run b xs) by (done || lia).
    destruct (lookup_lt_is_Some_2 xs (Z.to_nat (Z.of_nat (length xs) + n - kSize))) as [x Hx]; [lia|]. rewrite Hx, (proj2 (Z.leb_le _ _)) by lia. cbn [mbind exec_bind]. unfold increment. cbn [index_ out_of_range_]. rewrite cast_id by lia.
    assert (xs <> []) as Hxs by (intros ->; done). rewrite IH; [|lia|lia| |lia].
    + cbn [mbind exec_bind option_map]. do 2 f_equal. rewrite (drop_S _ x (Z.to_nat (Z.of_nat (length xs) + n - kSize)) Hx). do 2 f_equal. lia.
    + destruct (Z.eqb_spec (n + 1) kSize); split; try done; lia.
Qed.

Lemma visit_backwards b xs : saved b xs -> Z.of_nat (length xs) + kSize <= IntTypes.max size_t -> forall fuel n, 0 <= n < kSize -> n + 1 < Z.of_nat fuel ->
  visit fuel decrement (mkIterator n false) b = Done (Some (rev (firstn (Z.to_nat (Z.min (Z.of_nat (length xs)) kSize + n + 1 - kSize)) (last_values xs)))).
Proof using size_t_unsigned kSize_positive.
  intros Hs Hmax. induction fuel as [|fuel IH]; intros n Hn Hf; [lia|]. cbn [visit]. unfold operator_bool. cbn [out_of_range_ index_ negb andb]. rewrite (filled_index b xs) by (done || lia). rewrite (proj2 (Z.ltb_lt n kSize)), andb_true_r by lia.
  destruct (Z.leb_spec kSize (Z.of_nat (length xs) + n)).
  - rewrite (ReadBuffer_run b xs) by (done || lia). destruct (lookup_lt_is_Some_2 xs (Z.to_nat (Z.of_nat (length xs) + n - kSize))) as [x Hx]; [lia|]. rewrite Hx, (proj2 (Z.leb_le _ _)) by lia. cbn [mbind exec_bind]. unfold decrement. cbn [index_ out_of_range_].
    assert (last_values xs !! Z.to_nat (Z.min (Z.of_nat (length xs)) kSize + n - kSize) = Some x) as Hlx. { unfold last_values. rewrite lookup_drop. rewrite <- Hx. f_equal. lia. }
    replace (Z.to_nat (Z.min (Z.of_nat (length xs)) kSize + n + 1 - kSize)) with (Datatypes.S (Z.to_nat (Z.min (Z.of_nat (length xs)) kSize + n - kSize))) by lia. rewrite (take_S_r _ _ x Hlx), rev_unit.
    destruct (Z.eqb_spec n 0) as [->|Hnz].
    + destruct fuel as [|fuel]; [lia|]. cbn [visit]. unfold operator_bool. cbn [out_of_range_ negb andb mbind exec_bind option_map]. replace (Z.to_nat (Z.min (Z.of_nat (length xs)) kSize + 0 - kSize)) with 0%nat by lia. done.
    + rewrite cast_id by lia. rewrite IH by lia. cbn [mbind exec_bind option_map]. do 6 f_equal. lia.
  - replace (Z.to_nat (Z.min (Z.of_nat (length xs)) kSize + n + 1 - kSize)) with 0%nat by lia. done.
Qed.

Lemma save_all xs b ys : saved b ys -> Z.of_nat (length ys) + Z.of_nat (length xs) <= IntTypes.max size_t -> saved (fold_left (fun b x => SaveToBuffer x b) xs b) (ys ++ xs).
Proof using size_t_unsigned kSize_positive.
  revert b ys. induction xs as [|x xs IH]; intros b ys Hs Hmax; cbn [fold_left]; [by rewrite app_nil_r|]. cbn in Hmax. replace (ys ++ x :: xs) with ((ys ++ [x]) ++ xs) by (by rewrite <- app_assoc). apply IH; [apply SaveToBuffer_saved; [done|lia]|rewrite length_app; cbn; lia].
Qed.

Lemma walks_saved b xs : saved b xs -> Z.of_nat (length xs) + kSize <= IntTypes.max size_t ->
  forwards (Datatypes.S (Z.to_nat kSize)) b = Done (Some (last_values xs)) /\ backwards (Datatypes.S (Z.to_nat kSize)) b = Done (Some (rev (last_values xs))).
Proof using size_t_unsigned kSize_positive.
  intros Hs Hmax. unfold forwards, backwards, Begin, End_. rewrite (saved_index _ _ Hs). split.
  - assert (last_values xs = skipn (length xs - Z.to_nat kSize) xs) as -> by done. destruct (Z.ltb_spec (Z.of_nat (length xs)) kSize).
    + rewrite (visit_forwards b xs) by first [done|lia|split; [done|intros [H1 H2]; destruct xs; [done|cbn in *; lia]]]. do 3 f_equal. lia.
    + rewrite (visit_forwards b xs) by first [done|lia|split; [done|lia]]. do 3 f_equal. lia.
  - rewrite (visit_backwards b xs) by (done || lia). do 3 f_equal. rewrite take_ge; [done|]. unfold last_values. rewrite length_skipn. lia.
Qed.

End Ring.
End Ring.

(** ** MRUCacheBase *)

Module Mru.
Open Scope Z_scope.

Section Mru.
Context {Key Payload : Type} `{EqDecision Key} {build : Build}.
Implicit Types (k : Key) (v : Payload).

(** An element of the [std::list] has a number, which an iterator is; [made] counts them.  The
    index is in no particular order. *)
Abbreviation element := (nat * (Key * Payload))%type.
Record MRUCacheBase := mkCache { ordering_ : list element; index_ : list (Key * nat); max_size_ : Z; made : nat }.

Definition NO_AUTO_EVICT : Z := 0.

Definition new_cache (max_size : Z) : MRUCacheBase := mkCache [] [] max_size 0.

(** A key is passed by reference: to a key of the caller, or to that of an element. *)
Inductive key_reference := Key_of_caller (k : Key) | Key_of_element (pos : nat).

Definition element_at (pos : nat) (c : MRUCacheBase) : exec (Key * Payload) := defined (snd <$> List.find (fun e => (e.1 =? pos)%nat) (ordering_ c)).

Definition read_key (r : key_reference) (c : MRUCacheBase) : exec Key :=
  match r with Key_of_caller k => Done k | Key_of_element pos => e ← element_at pos c; Done e.1 end.

Definition index_find k (c : MRUCacheBase) : option nat := snd <$> List.find (fun e => bool_decide (e.1 = k)) (index_ c).

(** The end is no number. *)
Definition iterator : Type := option nat.

Definition begin_ (c : MRUCacheBase) : iterator := fst <$> List.head (ordering_ c).

(** The number of the element behind [pos]. *)
Fixpoint behind (pos : nat) (l : list element) : iterator := match l with [] => None | e :: l => if (e.1 =? pos)%nat then fst <$> List.head l else behind pos l end.

Definition Erase (pos : nat) (c : MRUCacheBase) : exec (iterator * MRUCacheBase) :=
  e ← element_at pos c;
  Done (behind pos (ordering_ c),
    mkCache (List.filter (fun x => negb (x.1 =? pos)%nat) (ordering_ c)) (List.filter (fun x => negb (bool_decide (x.1 = e.1))) (index_ c)) (max_size_ c) (made c)).

(** [Erase(rbegin())]. *)
Definition Erase_last (c : MRUCacheBase) : exec MRUCacheBase :=
  e ← defined (List.head (rev (ordering_ c))); r ← Erase e.1 c; Done r.2.

Definition size (c : MRUCacheBase) : exec Z :=
  RTC_DCHECK (length (index_ c) =? length (ordering_ c))%nat (Done (Z.of_nat (length (index_ c)))).

Fixpoint erase_times (n : nat) (c : MRUCacheBase) : exec MRUCacheBase :=
  match n with O => Done c | Datatypes.S n => c ← Erase_last c; erase_times n c end.

Definition ShrinkToSize (new_size : Z) (c : MRUCacheBase) : exec MRUCacheBase := n ← size c; erase_times (Z.to_nat (n - new_size)) c.

Definition Put (key : key_reference) v (c : MRUCacheBase) : exec (iterator * MRUCacheBase) :=
  k ← read_key key c;
  c ← match index_find k c with
      | Some pos => r ← Erase pos c; Done r.2
      | None => if negb (max_size_ c =? NO_AUTO_EVICT) then ShrinkToSize (max_size_ c - 1) c else Done c
      end;
  k ← read_key key c;
  let c := mkCache ((made c, (k, v)) :: ordering_ c) (index_ c) (max_size_ c) (Datatypes.S (made c)) in
  k ← read_key key c;
  let c := mkCache (ordering_ c) (match index_find k c with Some _ => index_ c | None => match begin_ c with Some pos => (k, pos) :: index_ c | None => index_ c end end) (max_size_ c) (made c) in
  Done (begin_ c, c).

Definition Get (key : key_reference) (c : MRUCacheBase) : exec (iterator * MRUCacheBase) :=
  k ← read_key key c;
  match index_find k c with
  | None => Done (None, c)
  | Some pos =>
      e ← element_at pos c;
      let c := mkCache ((pos, e) :: List.filter (fun x => negb (x.1 =? pos)%nat) (ordering_ c)) (index_ c) (max_size_ c) (made c) in
      Done (begin_ c, c)
  end.

Definition Peek (key : key_reference) (c : MRUCacheBase) : exec iterator := k ← read_key key c; Done (index_find k c).

Definition Clear (c : MRUCacheBase) : MRUCacheBase := mkCache [] [] (max_size_ c) (made c).

(** The elements keep their numbers; the second cache is [other]. *)
Definition Swap (c other : MRUCacheBase) : MRUCacheBase * MRUCacheBase :=
  (mkCache (ordering_ other) (index_ other) (max_size_ other) (made other), mkCache (ordering_ c) (index_ c) (max_size_ c) (made c)).

Definition empty (c : MRUCacheBase) : bool := match ordering_ c with [] => true | _ => false end.

(** *** What a cache holds *)

Abbreviation entry := (Key * Payload)%type.

(** The entries, the one that was used last in front. *)
Definition contents (c : MRUCacheBase) : list entry := snd <$> ordering_ c.

Record well_formed (c : MRUCacheBase) : Prop := {
  wf_numbers : NoDup ((ordering_ c).*1);
  wf_made : forall pos, pos ∈ (ordering_ c).*1 -> (pos < made c)%nat;
  wf_keys : NoDup ((contents c).*1);
  wf_index : index_ c ≡ₚ (fun e : element => (e.2.1, e.1)) <$> ordering_ c
}.

Definition find_entry k (l : list entry) : option entry := List.find (fun e => bool_decide (e.1 = k)) l.
Definition drop_key k (l : list entry) : list entry := List.filter (fun e => negb (bool_decide (e.1 = k))) l.

Lemma find_index_of (l : list element) k : List.find (fun e => bool_decide (e.1 = k)) ((fun e : element => (e.2.1, e.1)) <$> l) = (fun e => (e.2.1, e.1)) <$> List.find (fun e : element => bool_decide (e.2.1 = k)) l.
Proof. induction l as [|e l IH]; [done|]. cbn. destruct (bool_decide (e.2.1 = k)); [done|exact IH]. Qed.

Lemma find_key_perm {B} (l1 l2 : list (Key * B)) k : l1 ≡ₚ l2 -> NoDup (l1.*1) -> List.find (fun e => bool_decide (e.1 = k)) l1 = List.find (fun e => bool_decide (e.1 = k)) l2.
Proof.
  induction 1 as [|x l1 l2 Hp IH|x y l|l1 l2 l3 Ha IH1 Hb IH2]; intros Hd; cbn in *; [done| | |].
  - apply list.NoDup_cons in Hd as [_ Hd]. destruct (bool_decide (x.1 = k)); [done|auto].
  - apply list.NoDup_cons in Hd as [Hxy _]. repeat case_bool_decide; try done. apply not_elem_of_cons in Hxy as [Hxy _]. congruence.
  - rewrite IH1 by done. apply IH2. by rewrite <- Ha.
Qed.

Lemma index_keys c : (((fun e : element => (e.2.1, e.1)) <$> ordering_ c).*1) = (contents c).*1.
Proof. unfold contents. rewrite <- !list_fmap_compose. done. Qed.

Lemma index_find_run c k : well_formed c -> index_find k c = fst <$> List.find (fun e : element => bool_decide (e.2.1 = k)) (ordering_ c).
Proof.
  intros [_ _ Hk Hi]. unfold index_find. rewrite (find_key_perm _ _ k Hi) by (by rewrite Hi, index_keys). rewrite find_index_of. by destruct (List.find _ (ordering_ c)).
Qed.

Lemma find_ordering (l : list element) k : snd <$> List.find (fun e : element => bool_decide (e.2.1 = k)) l = find_entry k (snd <$> l).
Proof. unfold find_entry. induction l as [|e l IH]; [done|]. cbn. destruct (bool_decide (e.2.1 = k)); [done|exact IH]. Qed.

(** The element with a number. *)
Lemma find_number (l : list element) e : NoDup (l.*1) -> In e l -> List.find (fun x => (x.1 =? e.1)%nat) l = Some e.
Proof.
  induction l as [|x l IH]; [done|]. intros [Hx Hd]%list.NoDup_cons [->|He]; cbn; [by rewrite Nat.eqb_refl|]. destruct (Nat.eqb_spec x.1 e.1) as [Heq|]; [|by apply IH].
  exfalso. apply Hx. rewrite Heq. apply list_elem_of_fmap. exists e. by rewrite list_elem_of_In.
Qed.

(** Numbers and keys tell the elements apart equally. *)
Lemma number_key (l : list element) e x : NoDup (l.*1) -> NoDup ((snd <$> l).*1) -> In e l -> In x l -> (x.1 =? e.1)%nat = bool_decide (x.2.1 = e.2.1).
Proof.
  intros Hn Hk He Hx. destruct (Nat.eqb_spec x.1 e.1) as [Heq|Hne]; symmetry; [apply bool_decide_true|apply bool_decide_false].
  - pose proof (find_number l x Hn Hx) as H1. rewrite Heq, (find_number l e Hn He) in H1. by injection H1 as ->.
  - intros Heq. apply Hne. clear Hn Hne. induction l as [|y l IH]; [done|]. cbn in Hk. apply list.NoDup_cons in Hk as [Hy Hk].
    assert (forall z, In z l -> y.2.1 <> z.2.1) as Hhead by (intros z Hz Hyz; apply Hy; rewrite Hyz; by apply list_elem_of_fmap_2, list_elem_of_fmap_2, list_elem_of_In).
    destruct Hx as [->|Hx], He as [->|He]; try done; [by destruct (Hhead e He)|by destruct (Hhead x Hx)|by apply IH].
Qed.

(** Taking an element out by its number takes out its key. *)
Lemma filter_number (l : list element) e : NoDup (l.*1) -> NoDup ((snd <$> l).*1) -> In e l -> List.filter (fun x : element => negb (x.1 =? e.1)%nat) l = List.filter (fun x : element => negb (bool_decide (x.2.1 = e.2.1))) l.
Proof. intros Hn Hk He. apply List.filter_ext_in. intros x Hx. by rewrite (number_key l e x). Qed.

Lemma filter_map {A B} (f : A -> B) (p : B -> bool) l : List.filter p (f <$> l) = f <$> List.filter (fun x => p (f x)) l.
Proof. induction l as [|x l IH]; [done|]. cbn. rewrite IH. by destruct (p (f x)). Qed.

Lemma filter_perm {A} (p : A -> bool) l1 l2 : l1 ≡ₚ l2 -> List.filter p l1 ≡ₚ List.filter p l2.
Proof.
  induction 1 as [|x l1 l2 _ IH|x y l|l1 l2 l3 _ IH1 _ IH2]; cbn; [done| | |by etrans].
  - destruct (p x); [by f_equiv|done].
  - repeat case_match; try done. apply perm_swap.
Qed.

Lemma NoDup_filter_map {A B} (f : A -> B) (p : A -> bool) l : NoDup (f <$> l) -> NoDup (f <$> List.filter p l).
Proof.
  induction l as [|x l IH]; [done|]. cbn. intros [Hx Hd]%list.NoDup_cons. destruct (p x); cbn; [|auto]. constructor; [|auto]. intros Hin. apply Hx. apply list_elem_of_fmap in Hin as (y & -> & Hy). apply list_elem_of_fmap. exists y. split; [done|].
  apply list_elem_of_In. apply list_elem_of_In in Hy. by apply List.filter_In in Hy as [? _].
Qed.

Lemma mru_erase_run c e : well_formed c -> In e (ordering_ c) -> exists it c', Erase e.1 c = Done (it, c') /\ well_formed c' /\ contents c' = drop_key e.2.1 (contents c) /\ max_size_ c' = max_size_ c /\ made c' = made c.
Proof.
  intros Hc He. pose proof Hc as [Hn Hm Hk Hi]. unfold Erase, element_at. rewrite (find_number _ e Hn He). cbn [fmap option_fmap option_map defined mbind exec_bind]. eexists _, _. split_and!; [reflexivity| | |done|done].
  - split; cbn [ordering_ index_ made max_size_].
    + by apply NoDup_filter_map.
    + intros pos Hpos. apply Hm. apply list_elem_of_fmap in Hpos as (x & -> & Hx). apply list_elem_of_fmap_2. apply list_elem_of_In. apply list_elem_of_In in Hx. by apply List.filter_In in Hx as [? _].
    + unfold contents. cbn [ordering_]. rewrite <- list_fmap_compose. apply NoDup_filter_map. by rewrite list_fmap_compose.
    + rewrite (filter_perm _ _ _ Hi), filter_map, filter_number by done. done.
  - unfold contents, drop_key. cbn [ordering_]. rewrite filter_number by done. by rewrite (filter_map snd).
Qed.

(** *** Lists of entries by their keys *)

Lemma find_entry_None k (l : list entry) : find_entry k l = None <-> k ∉ l.*1.
Proof.
  unfold find_entry. induction l as [|e l IH]; cbn; [split; [intros _; apply not_elem_of_nil|done]|]. rewrite not_elem_of_cons. case_bool_decide as Hk; [split; [done|intros [H1 _]; congruence]|]. rewrite IH. intuition congruence.
Qed.

Lemma find_entry_Some k (l : list entry) e : find_entry k l = Some e -> e.1 = k /\ (k ∈ l.*1).
Proof.
  unfold find_entry. intros Hf. apply List.find_some in Hf as [He Hk]. apply bool_decide_eq_true in Hk. split; [done|]. rewrite <- Hk. by apply list_elem_of_fmap_2, list_elem_of_In.
Qed.

Lemma drop_absent k (l : list entry) : k ∉ l.*1 -> drop_key k l = l.
Proof.
  unfold drop_key. induction l as [|e l IH]; [done|]. cbn. intros [Hk Hl]%not_elem_of_cons. rewrite bool_decide_false by congruence. cbn. by rewrite IH.
Qed.

Lemma drop_key_keys k (l : list entry) x : (x ∈ (drop_key k l).*1) <-> x <> k /\ (x ∈ l.*1).
Proof.
  unfold drop_key. induction l as [|e l IH]; cbn; [rewrite elem_of_nil; tauto|]. case_bool_decide as Hk; cbn; rewrite ?elem_of_cons, IH; intuition congruence.
Qed.

Lemma drop_key_NoDup k (l : list entry) : NoDup (l.*1) -> NoDup ((drop_key k l).*1).
Proof. unfold drop_key. apply NoDup_filter_map. Qed.

Lemma firstn_keys n (l : list entry) : (firstn n l).*1 = firstn n (l.*1).
Proof. symmetry. apply firstn_map. Qed.

Lemma firstn_NoDup {A} n (l : list A) : NoDup l -> NoDup (firstn n l).
Proof. intros Hd. rewrite <- (firstn_skipn n l) in Hd. by apply list.NoDup_app in Hd as [? _]. Qed.

Lemma find_entry_firstn k n (l : list entry) e : find_entry k (firstn n l) = Some e -> find_entry k l = Some e.
Proof. unfold find_entry. revert n. induction l as [|x l IH]; intros [|n]; cbn; try done. destruct (bool_decide _); [done|apply IH]. Qed.

Lemma drop_firstn k n (l : list entry) : NoDup (l.*1) -> (k ∈ (firstn n l).*1) -> drop_key k (firstn n l) = firstn (n - 1) (drop_key k l).
Proof.
  revert n. induction l as [|x l IH]; intros [|n] Hd Hk; cbn in Hk; try by apply elem_of_nil in Hk. cbn in Hd. apply list.NoDup_cons in Hd as [Hx Hd]. change (firstn (S n) (x :: l)) with (x :: firstn n l). unfold drop_key. cbn [List.filter]. rewrite Nat.sub_succ, Nat.sub_0_r.
  case_bool_decide as He; cbn [negb].
  - fold (drop_key k l) (drop_key k (firstn n l)). subst k. rewrite !drop_absent; [done|done|]. rewrite firstn_keys. intros Hin. apply Hx. rewrite <- (firstn_skipn n (l.*1)), elem_of_app. by left.
  - fold (drop_key k l) (drop_key k (firstn n l)). apply elem_of_cons in Hk as [->|Hk]; [done|]. rewrite IH by done. destruct n as [|n]; [by apply elem_of_nil in Hk|]. cbn [firstn]. by rewrite Nat.sub_succ, Nat.sub_0_r.
Qed.

Lemma firstn_drop k n m (l : list entry) : (m <= n)%nat -> k ∉ (firstn n l).*1 -> firstn m (drop_key k l) = firstn m l.
Proof.
  revert n m. induction l as [|x l IH]; intros n m Hm Hk; [by destruct m|]. destruct m as [|m]; [done|]. destruct n as [|n]; [lia|]. cbn in Hk. apply not_elem_of_cons in Hk as [Hx Hk]. unfold drop_key. cbn [List.filter]. rewrite bool_decide_false by congruence. cbn. fold (drop_key k l). f_equal. apply (IH n); [lia|done].
Qed.

(** Taking the last key out leaves all but the last entry. *)
Lemma drop_last (l : list entry) e : NoDup ((l ++ [e]).*1) -> drop_key e.1 (l ++ [e]) = l.
Proof.
  rewrite fmap_app. intros (_ & Hd & _)%list.NoDup_app. unfold drop_key. rewrite List.filter_app. cbn. rewrite bool_decide_true by done. cbn. rewrite app_nil_r. apply drop_absent. intros Hin. apply (Hd _ Hin). cbn. left.
Qed.

(** *** What the operations do *)

Lemma new_cache_wf n : well_formed (new_cache n).
Proof. split; cbn; [constructor|by intros pos ?%elem_of_nil|constructor|done]. Qed.

Lemma ordering_length c : length (ordering_ c) = length (contents c).
Proof. unfold contents. by rewrite length_fmap. Qed.

Lemma size_done c : well_formed c -> size c = Done (Z.of_nat (length (contents c))).
Proof.
  intros [_ _ _ Hi]. unfold size. apply Permutation_length in Hi. rewrite length_fmap in Hi. rewrite RTC_DCHECK_true by (by rewrite Hi, Nat.eqb_refl). by rewrite Hi, ordering_length.
Qed.

Lemma erase_last_run c : well_formed c -> contents c <> [] -> exists c', Erase_last c = Done c' /\ well_formed c' /\ contents c' = firstn (length (contents c) - 1) (contents c) /\ max_size_ c' = max_size_ c.
Proof.
  intros Hc Hne. pose proof Hc as [_ _ Hk _]. unfold Erase_last. destruct (rev (ordering_ c)) as [|e l] eqn:Hr.
  { exfalso. apply Hne. apply (f_equal (@rev _)) in Hr. rewrite rev_involutive in Hr. unfold contents. by rewrite Hr. }
  apply (f_equal (@rev _)) in Hr. rewrite rev_involutive in Hr. cbn [rev] in Hr. assert (contents c = (snd <$> rev l) ++ [e.2]) as Hcs by (unfold contents; by rewrite Hr, fmap_app).
  destruct (mru_erase_run c e Hc) as (it & c' & He & Hw & Hs & Hm & _); [rewrite Hr, in_app_iff; by right; left|]. exists c'. cbn [List.head head defined mbind exec_bind]. rewrite He. cbn [mbind exec_bind]. split_and!; [done|done| |done].
  rewrite Hs, Hcs, drop_last by (by rewrite <- Hcs). rewrite length_app. cbn [length]. rewrite Nat.add_sub. by rewrite firstn_app, Nat.sub_diag, firstn_all, app_nil_r.
Qed.

Lemma erase_times_run n c : well_formed c -> (n <= length (contents c))%nat -> exists c', erase_times n c = Done c' /\ well_formed c' /\ contents c' = firstn (length (contents c) - n) (contents c) /\ max_size_ c' = max_size_ c.
Proof.
  revert c. induction n as [|n IH]; intros c Hc Hn; [exists c; by rewrite Nat.sub_0_r, firstn_all|]. destruct (erase_last_run c Hc) as (c1 & He & Hw & Hs & Hm); [intros Hz; rewrite Hz in Hn; cbn in Hn; lia|].
  assert (length (contents c1) = length (contents c) - 1)%nat as Hl by (rewrite Hs, length_firstn; lia). destruct (IH c1 Hw) as (c2 & H2 & Hw2 & Hs2 & Hm2); [lia|]. exists c2. cbn [erase_times]. rewrite He. cbn [mbind exec_bind].
  split_and!; [done|done| |congruence]. rewrite Hs2, Hl, Hs, firstn_firstn. f_equal. lia.
Qed.

Lemma shrink_run new_size c : well_formed c -> 0 <= new_size -> exists c', ShrinkToSize new_size c = Done c' /\ well_formed c' /\ contents c' = firstn (Z.to_nat new_size) (contents c) /\ max_size_ c' = max_size_ c.
Proof.
  intros Hc Hn. unfold ShrinkToSize. rewrite (size_done c Hc). cbn [mbind exec_bind]. destruct (erase_times_run (Z.to_nat (Z.of_nat (length (contents c)) - new_size)) c Hc) as (c' & He & Hw & Hs & Hm); [lia|]. exists c'. split_and!; try done. rewrite Hs.
  destruct (decide (Z.to_nat new_size <= length (contents c))%nat); [f_equal; lia|]. rewrite !firstn_all2 by lia. done.
Qed.

Lemma find_number_of c k : well_formed c -> match find_entry k (contents c) with None => index_find k c = None | Some e => exists pos, index_find k c = Some pos /\ In (pos, e) (ordering_ c) /\ e.1 = k end.
Proof.
  intros Hc. rewrite (index_find_run c k Hc). unfold contents. rewrite <- find_ordering. destruct (List.find _ (ordering_ c)) as [[pos e]|] eqn:Hf; cbn; [|done]. exists pos. apply List.find_some in Hf as [Hin Hk]. by apply bool_decide_eq_true in Hk.
Qed.

(** What is left of the others when a key is put. *)
Definition kept k (max_size : Z) (l : list entry) : list entry :=
  match find_entry k l with Some _ => drop_key k l | None => if max_size =? NO_AUTO_EVICT then l else firstn (Z.to_nat (max_size - 1)) l end.

Lemma kept_absent k n l : NoDup (l.*1) -> k ∉ (kept k n l).*1.
Proof.
  intros Hd. unfold kept. destruct (find_entry k l) eqn:Hf; [rewrite drop_key_keys; tauto|]. apply find_entry_None in Hf. destruct (n =? NO_AUTO_EVICT); [done|]. rewrite firstn_keys. intros Hin. apply Hf. rewrite <- (firstn_skipn (Z.to_nat (n - 1)) (l.*1)), elem_of_app. by left.
Qed.

Lemma evict_run c k : well_formed c -> 0 <= max_size_ c -> exists c1,
  match index_find k c with Some pos => r ← Erase pos c; Done r.2 | None => if negb (max_size_ c =? NO_AUTO_EVICT) then ShrinkToSize (max_size_ c - 1) c else Done c end = Done c1 /\
  well_formed c1 /\ contents c1 = kept k (max_size_ c) (contents c) /\ max_size_ c1 = max_size_ c.
Proof.
  intros Hc Hm. unfold kept. pose proof (find_number_of c k Hc) as Hf. destruct (find_entry k (contents c)) as [e|] eqn:He.
  - destruct Hf as (pos & -> & Hin & Hk). destruct (mru_erase_run c (pos, e) Hc Hin) as (it & c' & Hr & Hw & Hs & Hmx & _). exists c'. cbn [fst] in Hr. rewrite Hr. cbn [mbind exec_bind]. cbn [snd] in Hs. rewrite Hk in Hs. done.
  - rewrite Hf. destruct (Z.eqb_spec (max_size_ c) NO_AUTO_EVICT) as [Hz|Hz]; cbn [negb]; [by exists c|]. apply (shrink_run (max_size_ c - 1) c Hc). unfold NO_AUTO_EVICT in Hz. lia.
Qed.

(** A key in front of a cache that does not hold it. *)
Lemma front_wf c k v : well_formed c -> k ∉ (contents c).*1 -> well_formed (mkCache ((made c, (k, v)) :: ordering_ c) ((k, made c) :: index_ c) (max_size_ c) (S (made c))).
Proof.
  intros [Hn Hm Hk Hi] Hnot. split; cbn.
  - constructor; [|done]. intros Hin. apply Hm in Hin. lia.
  - intros pos [->|Hin]%elem_of_cons; [lia|]. apply Hm in Hin. lia.
  - by constructor.
  - by rewrite Hi.
Qed.

(** A result goes on. *)
Lemma bind_done {A B} (x : A) (f : A -> exec B) : (Done x ≫= f) = f x.
Proof. done. Qed.

Lemma put_run c k v : well_formed c -> 0 <= max_size_ c -> exists pos c', Put (Key_of_caller k) v c = Done (Some pos, c') /\ well_formed c' /\ contents c' = (k, v) :: kept k (max_size_ c) (contents c) /\ max_size_ c' = max_size_ c /\ element_at pos c' = Done (k, v).
Proof.
  intros Hc Hm. pose proof Hc as [_ _ Hk _]. destruct (evict_run c k Hc Hm) as (c1 & He & Hw & Hs & Hmx). assert (k ∉ (contents c1).*1) as Hnot by (rewrite Hs; by apply kept_absent).
  unfold Put. cbn [read_key]. rewrite bind_done, He, bind_done, !bind_done. cbv zeta. set (c2 := mkCache ((made c1, (k, v)) :: ordering_ c1) (index_ c1) (max_size_ c1) (Datatypes.S (made c1))). assert (index_find k c2 = None) as ->.
  { pose proof (find_number_of c1 k Hw) as Hf. rewrite (proj2 (find_entry_None k _) Hnot) in Hf. exact Hf. }
  exists (made c1). eexists. unfold begin_, c2. cbn. split_and!; [reflexivity|by apply front_wf| |done|unfold element_at; cbn; by rewrite Nat.eqb_refl]. by rewrite <- Hs.
Qed.

Lemma get_run c k : well_formed c -> exists it c', Get (Key_of_caller k) c = Done (it, c') /\ well_formed c' /\ max_size_ c' = max_size_ c /\
  match find_entry k (contents c) with
  | None => it = None /\ c' = c
  | Some e => contents c' = e :: drop_key k (contents c) /\ exists pos, it = Some pos /\ element_at pos c' = Done e
  end.
Proof.
  intros Hc. pose proof Hc as [Hn Hm Hk Hi]. pose proof (find_number_of c k Hc) as Hf. unfold Get. cbn [read_key]. rewrite bind_done. destruct (find_entry k (contents c)) as [e|] eqn:He; [|rewrite Hf; by exists None, c].
  destruct Hf as (pos & -> & Hin & Hke). unfold element_at at 1. pose proof (find_number _ _ Hn Hin) as Hat. cbn [fst] in Hat. rewrite Hat. cbn [fmap option_fmap option_map defined snd]. rewrite bind_done. eexists _, _. split_and!; [reflexivity| |done| |].
  - assert (ordering_ c ≡ₚ (pos, e) :: List.filter (fun x : element => negb (x.1 =? pos)%nat) (ordering_ c)) as Hp.
    { clear -Hn Hin. induction (ordering_ c) as [|x l IH]; [done|]. cbn in Hn. apply list.NoDup_cons in Hn as [Hx Hn]. destruct Hin as [->|Hin]; cbn.
      - rewrite Nat.eqb_refl. cbn. f_equiv. replace (List.filter _ l) with l; [done|]. clear Hn IH. induction l as [|y l IHl]; [done|]. cbn in *. apply not_elem_of_cons in Hx as [Hy Hx]. rewrite (proj2 (Nat.eqb_neq _ _)) by done. cbn. by rewrite <- IHl.
      - assert (x.1 <> pos) as Hne by (intros <-; apply Hx; change x.1 with (x.1, e).1; by apply list_elem_of_fmap_2, list_elem_of_In). rewrite (proj2 (Nat.eqb_neq _ _)) by done. cbn. rewrite (IH Hn Hin) at 1. apply perm_swap. }
    split; cbn [ordering_ index_ made max_size_]; rewrite <- ?Hp; try done.
    + intros q Hq. apply Hm. by rewrite Hp.
    + unfold contents. cbn [ordering_]. by rewrite <- Hp.
  - unfold contents, drop_key. cbn [ordering_]. pose proof (filter_number _ _ Hn Hk Hin) as Hfl. cbn [fst snd] in Hfl. cbn [fmap list_fmap snd]. f_equal. rewrite Hfl, (filter_map snd). by rewrite Hke.
  - exists pos. unfold begin_, element_at. cbn. by rewrite Nat.eqb_refl.
Qed.

(** *** The entries that are the last to be used *)

(** What a cache of a size holds of a history. *)
Definition limit (max_size : Z) (l : list entry) : list entry := if max_size =? NO_AUTO_EVICT then l else firstn (Z.to_nat max_size) l.

Lemma limit_NoDup n l : NoDup (l.*1) -> NoDup ((limit n l).*1).
Proof. unfold limit. destruct (n =? NO_AUTO_EVICT); [done|]. rewrite firstn_keys. apply firstn_NoDup. Qed.

Lemma limit_front n e l : 0 <= n -> limit n (e :: l) = e :: (if n =? NO_AUTO_EVICT then l else firstn (Z.to_nat (n - 1)) l).
Proof.
  intros Hn. unfold limit. destruct (Z.eqb_spec n NO_AUTO_EVICT) as [|Hz]; [done|]. unfold NO_AUTO_EVICT in Hz. replace (Z.to_nat n) with (S (Z.to_nat (n - 1))) by lia. done.
Qed.

Lemma drop_limit n k l : 0 <= n -> NoDup (l.*1) -> (k ∈ (limit n l).*1) -> drop_key k (limit n l) = if n =? NO_AUTO_EVICT then drop_key k l else firstn (Z.to_nat (n - 1)) (drop_key k l).
Proof.
  unfold limit. intros Hn Hd Hk. destruct (n =? NO_AUTO_EVICT); [done|]. rewrite drop_firstn by done. f_equal. lia.
Qed.

Lemma kept_limit n k l : 0 <= n -> NoDup (l.*1) -> kept k n (limit n l) = if n =? NO_AUTO_EVICT then drop_key k l else firstn (Z.to_nat (n - 1)) (drop_key k l).
Proof.
  intros Hn Hd. unfold kept. destruct (find_entry k (limit n l)) as [e|] eqn:Hf; [apply find_entry_Some in Hf as [_ Hf]; by apply drop_limit|]. apply find_entry_None in Hf. unfold limit in *.
  destruct (n =? NO_AUTO_EVICT); [by rewrite drop_absent|]. rewrite firstn_firstn, (firstn_drop k (Z.to_nat n)) by (done || lia). f_equal. lia.
Qed.

Inductive call := put k v | get k | peek k | erase k | shrink (n : Z) | clear_.

Definition deref (it : iterator) (c : MRUCacheBase) : exec (option entry) := match it with None => Done None | Some pos => e ← element_at pos c; Done (Some e) end.

Definition run_call (a : call) (c : MRUCacheBase) : exec (option entry * MRUCacheBase) :=
  match a with
  | put k v => r ← Put (Key_of_caller k) v c; e ← deref r.1 r.2; Done (e, r.2)
  | get k => r ← Get (Key_of_caller k) c; e ← deref r.1 r.2; Done (e, r.2)
  | peek k => it ← Peek (Key_of_caller k) c; e ← deref it c; Done (e, c)
  | erase k => it ← Peek (Key_of_caller k) c; match it with None => Done (None, c) | Some pos => r ← Erase pos c; Done (None, r.2) end
  | shrink n => c ← ShrinkToSize n c; Done (None, c)
  | clear_ => Done (None, Clear c)
  end.

Fixpoint run_calls (l : list call) (c : MRUCacheBase) : exec (list (option entry) * MRUCacheBase) :=
  match l with [] => Done ([], c) | a :: l => r ← run_call a c; rs ← run_calls l r.2; Done (r.1 :: rs.1, rs.2) end.

(** A history is all that was put, by the time of the last use. *)
Definition used (max_size : Z) (a : call) (l : list entry) : option entry * list entry :=
  match a with
  | put k v => (Some (k, v), (k, v) :: drop_key k l)
  | get k => match find_entry k (limit max_size l) with Some e => (Some e, e :: drop_key k l) | None => (None, l) end
  | peek k => (find_entry k (limit max_size l), l)
  | erase k => (None, drop_key k (limit max_size l))
  | shrink n => (None, firstn (Z.to_nat n) (limit max_size l))
  | clear_ => (None, [])
  end.

Fixpoint history (max_size : Z) (l : list call) (h : list entry) : list (option entry) * list entry :=
  match l with [] => ([], h) | a :: l => let r := used max_size a h in let rs := history max_size l r.2 in (r.1 :: rs.1, rs.2) end.

Definition permitted (a : call) : Prop := match a with shrink n => 0 <= n | _ => True end.

Lemma used_NoDup n a h : NoDup (h.*1) -> NoDup ((used n a h).2.*1).
Proof.
  intros Hd. pose proof (limit_NoDup n h Hd) as Hl. destruct a as [k v|k|k|k|m|]; cbn; try done.
  - constructor; [rewrite drop_key_keys; tauto|by apply drop_key_NoDup].
  - destruct (find_entry k (limit n h)) as [e|] eqn:Hf; cbn; [|done]. apply find_entry_Some in Hf as [<- _]. constructor; [rewrite drop_key_keys; tauto|by apply drop_key_NoDup].
  - by apply drop_key_NoDup.
  - rewrite firstn_keys. by apply firstn_NoDup.
  - constructor.
Qed.

Lemma limit_below n l h : 0 <= n -> limit n h = h -> (length l <= length h)%nat -> limit n l = l.
Proof. unfold limit. intros Hn Hh Hl. destruct (n =? NO_AUTO_EVICT); [done|]. apply firstn_all2. rewrite <- Hh in Hl. rewrite length_firstn in Hl. lia. Qed.

Lemma limit_idem n h : limit n (limit n h) = limit n h.
Proof. unfold limit. destruct (n =? NO_AUTO_EVICT); [done|]. rewrite firstn_firstn. f_equal. lia. Qed.

Lemma drop_key_length k (l : list entry) : (length (drop_key k l) <= length l)%nat.
Proof. unfold drop_key. apply List.filter_length_le. Qed.

Lemma run_call_used n a c h : 0 <= n -> NoDup (h.*1) -> permitted a -> well_formed c -> max_size_ c = n -> contents c = limit n h ->
  exists c', run_call a c = Done ((used n a h).1, c') /\ well_formed c' /\ max_size_ c' = n /\ contents c' = limit n (used n a h).2.
Proof.
  intros Hn Hd Ha Hc Hm Hs. destruct a as [k v|k|k|k|m|]; cbn [run_call used].
  - destruct (put_run c k v Hc) as (pos & c' & -> & Hw & Hs' & Hm' & He); [lia|]. rewrite bind_done. cbn [fst snd deref]. rewrite He, !bind_done. exists c'. split_and!; [done|done|congruence|]. by rewrite Hs', Hm, Hs, kept_limit, limit_front.
  - destruct (get_run c k Hc) as (it & c' & -> & Hw & Hm' & Hr). rewrite bind_done. cbn [fst snd]. rewrite Hs in Hr. destruct (find_entry k (limit n h)) as [e|] eqn:Hf.
    + destruct Hr as [Hs' (pos & -> & He)]. cbn [deref]. rewrite He, !bind_done. exists c'. split_and!; [done|done|congruence|]. apply find_entry_Some in Hf as [_ Hf]. cbn [snd]. by rewrite Hs', drop_limit, limit_front.
    + destruct Hr as [-> ->]. exists c. done.
  - pose proof (find_number_of c k Hc) as Hf. rewrite Hs in Hf. exists c. unfold Peek. cbn [read_key]. rewrite !bind_done. split_and!; try done. destruct (find_entry k (limit n h)) as [e|]; [|by rewrite Hf]. destruct Hf as (pos & -> & Hin & _). cbn [deref]. unfold element_at.
    destruct Hc as [Hnum _ _ _]. pose proof (find_number _ _ Hnum Hin) as Hat. cbn [fst] in Hat. by rewrite Hat.
  - pose proof (find_number_of c k Hc) as Hf. rewrite Hs in Hf. unfold Peek. cbn [read_key fst snd]. rewrite !bind_done. assert (limit n (drop_key k (limit n h)) = drop_key k (limit n h)) as -> by (apply (limit_below n _ (limit n h)); [done|apply limit_idem|apply drop_key_length]).
    destruct (find_entry k (limit n h)) as [e|] eqn:He.
    + destruct Hf as (pos & -> & Hin & Hk). destruct (mru_erase_run c (pos, e) Hc Hin) as (it & c' & Hr & Hw & Hs' & Hm' & _). cbn [fst snd] in *. rewrite Hr, bind_done. exists c'. split_and!; [done|done|congruence|]. by rewrite Hs', Hs, Hk.
    + rewrite Hf. exists c. split_and!; try done. rewrite Hs. symmetry. apply drop_absent. by apply find_entry_None.
  - destruct (shrink_run m c Hc Ha) as (c' & -> & Hw & Hs' & Hm'). rewrite bind_done. exists c'. cbn [fst snd]. split_and!; [done|done|congruence|]. rewrite Hs', Hs. symmetry. apply (limit_below n _ (limit n h)); [done|apply limit_idem|rewrite length_firstn; lia].
  - exists (Clear c). cbn [fst snd]. split_and!; [done| |done|]; [|unfold limit; by destruct (n =? NO_AUTO_EVICT); rewrite ?firstn_nil]. split; cbn; [constructor|by intros pos ?%elem_of_nil|constructor|done].
Qed.

Lemma run_calls_history n l c h : 0 <= n -> NoDup (h.*1) -> Forall permitted l -> well_formed c -> max_size_ c = n -> contents c = limit n h ->
  exists c', run_calls l c = Done ((history n l h).1, c') /\ well_formed c' /\ contents c' = limit n (history n l h).2.
Proof.
  intros Hn Hd Hl. revert c h Hd. induction Hl as [|a l Ha Hl IH]; intros c h Hd Hc Hm Hs; [by exists c|]. destruct (run_call_used n a c h) as (c1 & Hr & Hw & Hm1 & Hs1); try done. destruct (IH c1 (used n a h).2) as (c2 & Hr2 & Hw2 & Hs2); try done; [by apply used_NoDup|].
  exists c2. cbn [run_calls history]. rewrite Hr, bind_done. cbn [fst snd]. rewrite Hr2, bind_done. done.
Qed.

Lemma find_none_iff {A} (p : A -> bool) l : List.find p l = None <-> forall x, In x l -> p x = false.
Proof.
  split; [intros Hf x Hx; by apply (List.find_none p l)|]. intros Hp. destruct (List.find p l) as [x|] eqn:Hf; [|done]. apply List.find_some in Hf as [Hx Ht]. by rewrite Hp in Ht.
Qed.

(** A key that is given by a reference to the one of its element is gone before it is stored. *)
Lemma put_key_of_element c pos k v w : well_formed c -> In (pos, (k, w)) (ordering_ c) -> Put (Key_of_element pos) v c = Undef.
Proof.
  intros Hc Hin. pose proof Hc as [Hn _ Hk _]. pose proof (find_number _ _ Hn Hin) as Hat. cbn [fst] in Hat. assert (element_at pos c = Done (k, w)) as Hel by (unfold element_at; by rewrite Hat). unfold Put. cbn [read_key]. rewrite Hel, !bind_done. cbn [fst].
  pose proof (find_number_of c k Hc) as Hf. destruct (find_entry k (contents c)) as [e|] eqn:He.
  - destruct Hf as (p & -> & Hp & Hke). pose proof (number_key _ _ _ Hn Hk Hin Hp) as Hpp. cbn [fst snd] in Hpp. rewrite bool_decide_true in Hpp by done. apply Nat.eqb_eq in Hpp as ->. unfold Erase. rewrite Hel, !bind_done. cbn [fst snd].
    unfold element_at. cbn [ordering_]. rewrite (proj2 (find_none_iff _ _)); [done|]. intros x [_ Hx]%List.filter_In. by destruct (x.1 =? pos)%nat.
  - exfalso. apply find_entry_None in He. apply He. unfold contents. change k with (k, w).1. apply list_elem_of_fmap_2. change (k, w) with (pos, (k, w)).2. by apply list_elem_of_fmap_2, list_elem_of_In.
Qed.

End Mru.
End Mru.

(** ** Properties *)

(** C17: Any sequence of permitted calls on the nodes of a [LinkedList] runs without following a
    null or dangling pointer, and afterwards the loops of the header over the list end and give
    the nodes in the order that the calls describe, and in the reverse of it. *)
Theorem linked_list_calls root cs : Links.all_permitted root cs {[root]} [] ->
  let m := Links.effects root cs [] in
  exists h, Links.run_calls root cs (Links.LinkedList_new root ∅) = Done h /\
    Links.walk_forwards (length m) root h = Done (Some m) /\ Links.walk_backwards (length m) root h = Done (Some (rev m)) /\ Links.empty root h = Done (bool_decide (m = [])).
Proof.
  intros Hp m. destruct (Links.list_run_calls root cs _ _ _ (Links.LinkedList_new_holds root) Hp) as (h & exist & Hr & Hh). exists h. split; [done|]. exact (Links.holds_walks _ _ _ _ Hh).
Qed.

Definition sample_list_calls : list Links.call :=
  ([Links.CNew 1; Links.CNew 2; Links.CNew 3; Links.CAppend 1; Links.CAppend 3; Links.CInsertBefore 2 3; Links.CMove 4 2; Links.CRemove 1; Links.CInsertAfter 1 4])%nat.

Lemma linked_list_calls_witness : Links.effects 0%nat sample_list_calls [] = [4; 1; 3]%nat /\
  exists h, Links.run_calls 0%nat sample_list_calls (Links.LinkedList_new 0%nat ∅) = Done h /\
    Links.walk_forwards 3%nat 0%nat h = Done (Some [4; 1; 3]%nat) /\ Links.walk_backwards 3%nat 0%nat h = Done (Some [3; 1; 4]%nat) /\ Links.empty 0%nat h = Done false.
Proof.
  split; [reflexivity|]. apply (linked_list_calls 0%nat sample_list_calls). cbn. apply (bool_decide_unpack _). vm_compute. done.
Defined.

(** The example of the header, [n3->InsertBefore(n3)], leaves the list with nodes that point to
    [n3] but a node [n3] that points to itself: the loop over the list does not end. *)
Example insert_before_itself : ((h ← Links.Append 0 1 (Links.LinkNode_new 3 (Links.LinkNode_new 1 (Links.LinkedList_new 0 ∅))); h ← Links.Append 0 3 h; h ← Links.InsertBefore 3 3 h; Links.walk_forwards 1000 0 h) = Done None)%nat.
Proof. vm_compute. reflexivity. Qed.

(** Whatever was saved to a [RingBuffer], the loops of the header over it end: forwards they
    give the last [kSize] values, the oldest one first, and backwards the newest one first;
    [ReadBuffer] never fails its check on the way. *)
Theorem ring_buffer_last {T} size_t kSize (xs : list T) : is_signed size_t = false -> 0 < kSize -> Z.of_nat (length xs) + kSize <= IntTypes.max size_t ->
  let b := fold_left (fun b x => Ring.SaveToBuffer size_t kSize x b) xs (Ring.new_buffer kSize) in
  Ring.forwards size_t kSize (Datatypes.S (Z.to_nat kSize)) b = Done (Some (Ring.last_values kSize xs)) /\
  Ring.backwards size_t kSize (Datatypes.S (Z.to_nat kSize)) b = Done (Some (rev (Ring.last_values kSize xs))).
Proof.
  intros Hu Hk Hmax b. apply Ring.walks_saved; try done. apply (Ring.save_all size_t kSize Hu Hk xs _ []); [by apply Ring.new_saved|]. cbn. lia.
Qed.

Lemma ring_buffer_last_witness :
  let b := fold_left (fun b x => Ring.SaveToBuffer Uint64 3 x b) [10; 20; 30; 40; 50] (Ring.new_buffer 3) in
  Ring.forwards Uint64 3 4%nat b = Done (Some [30; 40; 50]) /\ Ring.backwards Uint64 3 4%nat b = Done (Some [50; 40; 30]).
Proof. apply (ring_buffer_last Uint64 3 [10; 20; 30; 40; 50]); [reflexivity|lia|vm_compute; discriminate]. Defined.

(** C18: An [MRUCacheBase] with any permitted sequence of calls fails no check, uses no iterator that
    became invalid, and holds, in the order of their last use, those entries of the history of its
    calls that its size admits; each call gives the entry of the key if the cache still holds it. *)
Theorem mru_recency {Key Payload} `{EqDecision Key} {build : Build} max_size (l : list (Mru.call (Key := Key) (Payload := Payload))) : 0 <= max_size -> Forall Mru.permitted l ->
  let h := Mru.history max_size l [] in
  exists c, Mru.run_calls l (Mru.new_cache max_size) = Done (h.1, c) /\ Mru.well_formed c /\ Mru.contents c = Mru.limit max_size h.2 /\ Mru.size c = Done (Z.of_nat (length (Mru.limit max_size h.2))).
Proof.
  intros Hn Hl h. destruct (Mru.run_calls_history max_size l (Mru.new_cache max_size) [] Hn) as (c & Hr & Hw & Hs); try done; [constructor|apply Mru.new_cache_wf|unfold Mru.limit; by destruct (_ =? _); rewrite ?firstn_nil|].
  exists c. split_and!; [done|done|done|]. by rewrite Mru.size_done, Hs.
Qed.

Definition sample_mru_calls : list (Mru.call (Key := Z) (Payload := Z)) := [Mru.put 1 10; Mru.put 2 20; Mru.get 1; Mru.put 3 30; Mru.peek 2; Mru.get 2; Mru.put 1 11].

Lemma mru_recency_witness : let h := Mru.history 2 sample_mru_calls [] in
  h = ([Some (1, 10); Some (2, 20); Some (1, 10); Some (3, 30); None; None; Some (1, 11)], [(1, 11); (3, 30); (2, 20)]) /\
  exists c, Mru.run_calls (build := debug_x64) sample_mru_calls (Mru.new_cache 2) = Done (h.1, c) /\ Mru.well_formed c /\ Mru.contents c = Mru.limit 2 h.2 /\
    Mru.size (build := debug_x64) c = Done (Z.of_nat (length (Mru.limit 2 h.2))).
Proof. split; [vm_compute; reflexivity|]. apply (mru_recency (build := debug_x64) 2 sample_mru_calls); [lia|]. repeat constructor. Defined.

(** [Put] with a reference to the key of the entry that it replaces reads the key of a node
    that [Erase] has freed. *)
Example put_own_key : (r ← Mru.Put (build := debug_x64) (Mru.Key_of_caller 1) 10 (Mru.new_cache 2); Mru.Put (build := debug_x64) (Mru.Key_of_element 0%nat) 11 r.2) = Undef.
Proof. vm_compute. reflexivity. Qed.
