(* ===== verification/SeqNum.v ===== *)
(** * SeqNum: wrapping sequence numbers

    - rtc_base/numerics/mod_ops.h: [Add], [Subtract], [ForwardDiff], [ReverseDiff], [MinDiff];
    - rtc_base/numerics/sequence_number_util.h: [AheadOrAt], [AheadOf], the two
      comparators and the stateful [SeqNumUnwrapper];
    - modules/include/module_common_types_public.h: [IsNewer], [Latest...] and the
      stateful [Unwrapper].

    A template parameter [M = 0] stands for wrapping at the type's own modulus.
    [unsigned long] is 32 bits wide on the program's platform. *)

From S2P Require Import Prelude IntTypes RtcNumerics.
Import SafeCompare.

(** The unsigned types. *)
Definition is_unsigned (T : int_type) : Prop := is_signed T = false.

Section ModOps.
Context {build : Build}.

(** [unsigned long]. *)
Definition ulong : int_type := Uint32.

Definition Add (M a b : Z) : exec Z :=
  RTC_DCHECK (SafeLt ulong ulong a M)
  (m ← defined (c_mod ulong ulong b M);
   t ← defined (c_sub ulong ulong M m);
   res ← defined (c_sub ulong ulong a t);
   if c_gt ulong ulong t a then defined (c_add ulong ulong res M) else Done res).

Definition Subtract (M a b : Z) : exec Z :=
  RTC_DCHECK (SafeLt ulong ulong a M)
  (sub ← defined (c_mod ulong ulong b M);
   if c_lt ulong ulong a sub
   then d ← defined (c_sub ulong ulong sub a); defined (c_sub ulong ulong M d)
   else defined (c_sub ulong ulong a sub)).

Definition ForwardDiff (T : int_type) (M a b : Z) : exec Z :=
  if 0 <? M then
    RTC_DCHECK (SafeLt T T a M) (RTC_DCHECK (SafeLt T T b M)
      (if c_le T T a b
       then d ← defined (c_sub T T b a); Done (static_cast T d)
       else d ← defined (c_sub T T a b); r ← defined (c_sub T (arith T T) M d);
            Done (static_cast T r)))
  else d ← defined (c_sub T T b a); Done (static_cast T d).

Definition ReverseDiff (T : int_type) (M a b : Z) : exec Z :=
  if 0 <? M then
    RTC_DCHECK (SafeLt T T a M) (RTC_DCHECK (SafeLt T T b M)
      (if c_le T T b a
       then d ← defined (c_sub T T a b); Done (static_cast T d)
       else d ← defined (c_sub T T b a); r ← defined (c_sub T (arith T T) M d);
            Done (static_cast T r)))
  else d ← defined (c_sub T T a b); Done (static_cast T d).

(** [std::min(f, r)] is [r < f ? r : f]. *)
Definition MinDiff (T : int_type) (M a b : Z) : exec Z :=
  f ← ForwardDiff T M a b; r ← ReverseDiff T M a b;
  Done (if c_lt T T r f then r else f).

Definition AheadOrAt (T : int_type) (M a b : Z) : exec bool :=
  if 0 <? M then
    h ← defined (c_div T Int32 M 2);
    let maxDist := static_cast T h in
    let forward := d ← ForwardDiff T M b a; Done (c_le T T d maxDist) in
    if c_and T Int32 M 1 =? 0
    then m ← MinDiff T M a b;
         if c_eq T T m maxDist then Done (c_lt T T b a) else forward
    else forward
  else
    h ← defined (c_div T Int32 (max T) 2);
    s ← defined (c_add (arith T Int32) T h (static_cast T 1));
    let maxDist := static_cast T s in
    d ← defined (c_sub T T a b);
    if c_eq (arith T T) T d maxDist then Done (c_lt T T b a)
    else f ← ForwardDiff T 0 b a; Done (c_lt T T f maxDist).

Definition AheadOf (T : int_type) (M a b : Z) : exec bool :=
  if negb (c_eq T T a b) then AheadOrAt T M a b else Done false.

Definition AscendingSeqNumComp (T : int_type) (M a b : Z) : exec bool := AheadOf T M a b.
Definition DescendingSeqNumComp (T : int_type) (M a b : Z) : exec bool := AheadOf T M b a.

(** The unwrapper's members, and [Unwrap] as a state transformer. *)
Record SeqNumUnwrapper := mkSeqNumUnwrapper {
  last_unwrapped_ : Z;
  sn_last_value_ : option Z
}.
Definition SeqNumUnwrapper_init : SeqNumUnwrapper := mkSeqNumUnwrapper 0 None.

Definition SeqNumUnwrapper_Unwrap (T : int_type) (M : Z) (s : SeqNumUnwrapper) (value : Z)
  : exec (Z * SeqNumUnwrapper) :=
  u ← match sn_last_value_ s with
      | None => Done value
      | Some last =>
          d ← ForwardDiff T M last value;
          u ← defined (c_add Int64 T (last_unwrapped_ s) d);
          ahead ← AheadOrAt T M value last;
          if (ahead : bool) then Done u
          else let kBackwardAdjustment := if M =? 0 then max T + 1 else M in
               defined (c_sub Int64 Int64 u kBackwardAdjustment)
      end;
  Done (u, mkSeqNumUnwrapper u (Some value)).

(** Unwrapping a stream. *)
Fixpoint SeqNumUnwrapper_run (T : int_type) (M : Z) (s : SeqNumUnwrapper) (vs : list Z)
  : exec (list Z) :=
  match vs with
  | [] => Done []
  | v :: vs => r ← SeqNumUnwrapper_Unwrap T M s v;
               us ← SeqNumUnwrapper_run T M r.2 vs; Done (r.1 :: us)
  end.

(** ** modules/include/module_common_types_public.h *)

Definition kBreakpoint (U : int_type) : option Z :=
  h ← c_shr U (max U) 1; s ← c_add (promote U) Int32 h 1; Some (static_cast U s).

Definition IsNewer (U : int_type) (value prev_value : Z) : option bool :=
  k ← kBreakpoint U;
  d ← c_sub U U value prev_value;
  if c_eq (arith U U) U d k then Some (c_gt U U value prev_value)
  else Some (negb (c_eq U U value prev_value) && c_lt U U (static_cast U d) k).

Record Unwrapper := mkUnwrapper { last_value_ : option Z }.

Definition UnwrapWithoutUpdate (U : int_type) (s : Unwrapper) (value : Z) : option Z :=
  match last_value_ s with
  | None => Some value
  | Some last =>
      let kMaxPlusOne := max U + 1 in
      let cropped_last := static_cast U last in
      d ← c_sub U U value cropped_last;
      let delta := static_cast Int64 d in
      newer ← IsNewer U value cropped_last;
      delta' ← (if (newer : bool)
                then (if delta <? 0 then c_add Int64 Int64 delta kMaxPlusOne else Some delta)
                else if 0 <? delta
                     then s ← c_add Int64 Int64 last delta;
                          s' ← c_sub Int64 Int64 s kMaxPlusOne;
                          if 0 <=? s' then c_sub Int64 Int64 delta kMaxPlusOne else Some delta
                     else Some delta);
      c_add Int64 Int64 last delta'
  end.

Definition UpdateLast (s : Unwrapper) (last_value : Z) : Unwrapper := mkUnwrapper (Some last_value).

Definition Unwrap (U : int_type) (s : Unwrapper) (value : Z) : option (Z * Unwrapper) :=
  unwrapped ← UnwrapWithoutUpdate U s value; Some (unwrapped, UpdateLast s unwrapped).

Fixpoint Unwrapper_run (U : int_type) (s : Unwrapper) (vs : list Z) : option (list Z) :=
  match vs with
  | [] => Some []
  | v :: vs => r ← Unwrap U s v; us ← Unwrapper_run U r.2 vs; Some (r.1 :: us)
  end.

Definition IsNewerSequenceNumber (sequence_number prev_sequence_number : Z) : option bool :=
  IsNewer Uint16 sequence_number prev_sequence_number.
Definition IsNewerTimestamp (timestamp prev_timestamp : Z) : option bool :=
  IsNewer Uint32 timestamp prev_timestamp.
Definition LatestSequenceNumber (sequence_number1 sequence_number2 : Z) : option Z :=
  n ← IsNewerSequenceNumber sequence_number1 sequence_number2;
  Some (if (n : bool) then sequence_number1 else sequence_number2).
Definition LatestTimestamp (timestamp1 timestamp2 : Z) : option Z :=
  n ← IsNewerTimestamp timestamp1 timestamp2;
  Some (if (n : bool) then timestamp1 else timestamp2).

End ModOps.

(** ** Modular arithmetic of the unsigned types *)

(** The modulus that the template parameters select. *)
Definition modulus (T : int_type) (M : Z) : Z := if M =? 0 then 2 ^ width T else M.

(** A template parameter of the type, and a sequence number below the modulus. *)
Definition valid_M (T : int_type) (M : Z) : Prop := 0 <= M <= max T.
Definition valid_seq (T : int_type) (M a : Z) : Prop := 0 <= a < modulus T M.

(** [a] is ahead of or at [b] on a circle of [m] numbers. *)
Definition ahead (m a b : Z) : bool :=
  let d := (a - b) mod m in if 2 * d =? m then b <? a else 2 * d <? m.

Lemma max_unsigned T : is_unsigned T -> max T = 2 ^ width T - 1 /\ lowest T = 0.
Proof. unfold is_unsigned. by destruct T. Qed.

Lemma modulus_pos T M : is_unsigned T -> valid_M T M -> 0 < modulus T M <= 2 ^ width T.
Proof.
  intros HT HM. unfold modulus, valid_M in *. destruct (max_unsigned T HT) as [Hm _].
  assert (0 < 2 ^ width T) by by destruct T.
  destruct (Z.eqb_spec M 0); lia.
Qed.

Lemma valid_seq_InRange T M a : is_unsigned T -> valid_M T M -> valid_seq T M a -> InRange T a.
Proof.
  intros HT HM [Ha1 Ha2]. pose proof (modulus_pos T M HT HM).
  destruct (max_unsigned T HT). unfold InRange. lia.
Qed.

Lemma static_cast_unsigned T z : is_unsigned T -> static_cast T z = z mod 2 ^ width T.
Proof. unfold is_unsigned, static_cast. by intros ->. Qed.

(** Subtraction of unsigned operands: exact in [int] for the narrow types,
    wrapping for the others, and always exact modulo the type's modulus. *)
Lemma c_sub_unsigned T a b :
  is_unsigned T -> InRange T a -> InRange T b ->
  exists d, c_sub T T a b = Some d /\ static_cast T d = (a - b) mod 2 ^ width T /\
    (- 2 ^ width T < d < 2 ^ width T /\ InRange (arith T T) d) /\ (0 <= a - b -> d = a - b).
Proof.
  intros HT Ha Hb. exists (static_cast (arith T T) (a - b)). split; [|split; [|split]].
  - unfold c_sub, c_binop. rewrite !arith_cast_same by done. unfold arith_result.
    destruct (is_signed (arith T T)) eqn:E; [|done].
    assert (InRange (arith T T) (a - b)) by (destruct T; try discriminate; limits; lia).
    by rewrite (proj2 (in_range_spec _ _)), static_cast_id.
  - rewrite static_cast_trans by by destruct T. by apply static_cast_unsigned.
  - split; [|apply static_cast_range].
    destruct T; try discriminate; cbn [arith promote];
      first [rewrite static_cast_id by (limits; lia); limits; lia
            |match goal with |- context [static_cast ?U ?z] => pose proof (static_cast_range U z) end;
             limits; lia].
  - intros H0. apply static_cast_id. destruct T; try discriminate; limits; lia.
Qed.

Lemma c_cmp_unsigned op T M a b :
  is_unsigned T -> valid_M T M -> valid_seq T M a -> valid_seq T M b -> c_cmp op T T a b = op a b.
Proof. intros HT HM Ha Hb. by apply c_cmp_same; eapply valid_seq_InRange. Qed.

(** ** Distances *)

Section Specs.
Context {build : Build}.

Lemma mod_lt_self x m : 0 <= x < m -> x mod m = x.
Proof. apply Z.mod_small. Qed.

Lemma mod_add_once x m : - m <= x < 0 -> x mod m = x + m.
Proof.
  intros. symmetry. apply (Z.mod_unique _ _ (-1)); lia.
Qed.

(** The forward distance computed from the ordered operands. *)
Lemma diff_spec T M a b :
  is_unsigned T -> valid_M T M -> valid_seq T M a -> valid_seq T M b ->
  (if 0 <? M then
    (if c_le T T a b
       then d ← defined (c_sub T T b a); Done (static_cast T d)
       else d ← defined (c_sub T T a b); r ← defined (c_sub T (arith T T) M d);
            Done (static_cast T r))
   else d ← defined (c_sub T T b a); Done (static_cast T d)) =
  Done ((b - a) mod modulus T M).
Proof.
  intros HT HM Ha Hb.
  pose proof (valid_seq_InRange T M a HT HM Ha) as Ra.
  pose proof (valid_seq_InRange T M b HT HM Hb) as Rb.
  destruct (c_sub_unsigned T b a HT Rb Ra) as (d & -> & Hd & _ & Hpos).
  destruct (c_sub_unsigned T a b HT Ra Rb) as (d' & -> & _ & _ & Hpos').
  cbn [defined mbind exec_bind]. rewrite Hd.
  unfold valid_seq, modulus, valid_M in *. destruct (max_unsigned T HT) as [Hmax Hlow].
  destruct (Z.ltb_spec 0 M) as [HM0|HM0].
  - replace (M =? 0) with false in * by lia.
    unfold c_le. rewrite c_cmp_same by done. destruct (Z.leb_spec a b).
    + rewrite !mod_lt_self by lia. done.
    + rewrite Hpos' by lia. unfold c_sub.
      rewrite (c_binop_value _ _ _ _ _ (M - (a - b))).
      * cbn [defined mbind exec_bind]. rewrite mod_add_once by lia. f_equal.
        rewrite static_cast_id; [lia|]. unfold InRange. lia.
      * rewrite !static_cast_id; [done|..];
          (destruct T; try discriminate; clear Hd Hpos Hpos'; limits; lia).
      * destruct T; try discriminate; clear Hd Hpos Hpos'; limits; lia.
  - by replace (M =? 0) with true by lia.
Qed.

Lemma SafeLt_seq T M a :
  is_unsigned T -> valid_M T M -> valid_seq T M a -> 0 < M -> SafeLt T T a M = true.
Proof.
  intros HT HM Ha H0. pose proof (valid_seq_InRange T M a HT HM Ha).
  unfold SafeLt. rewrite Safe_holds; [|done|].
  - unfold valid_seq, modulus in Ha. replace (M =? 0) with false in Ha by lia. cbn. lia.
  - destruct (max_unsigned T HT). unfold InRange, valid_M in *. lia.
Qed.

Lemma ForwardDiff_spec T M a b :
  is_unsigned T -> valid_M T M -> valid_seq T M a -> valid_seq T M b ->
  ForwardDiff T M a b = Done ((b - a) mod modulus T M).
Proof.
  intros HT HM Ha Hb. rewrite <- diff_spec by done. unfold ForwardDiff.
  destruct (Z.ltb_spec 0 M); [|done]. by rewrite !RTC_DCHECK_true by by apply SafeLt_seq.
Qed.

Lemma ReverseDiff_spec T M a b :
  is_unsigned T -> valid_M T M -> valid_seq T M a -> valid_seq T M b ->
  ReverseDiff T M a b = Done ((a - b) mod modulus T M).
Proof.
  intros HT HM Ha Hb. rewrite <- diff_spec by done. unfold ReverseDiff.
  destruct (Z.ltb_spec 0 M); [|done]. by rewrite !RTC_DCHECK_true by by apply SafeLt_seq.
Qed.

Lemma diff_valid T M z : is_unsigned T -> valid_M T M -> valid_seq T M (z mod modulus T M).
Proof. intros HT HM. pose proof (modulus_pos T M HT HM). apply Z.mod_pos_bound. lia. Qed.

(** The two distances are complementary. *)
Lemma diff_complement m a b :
  0 < m -> (b - a) mod m = if (a - b) mod m =? 0 then 0 else m - (a - b) mod m.
Proof.
  intros Hm. replace (b - a) with (- (a - b)) by lia.
  destruct (Z.eqb_spec ((a - b) mod m) 0).
  - by apply Z.mod_opp_l_z; [lia|].
  - by apply Z.mod_opp_l_nz; [lia|].
Qed.

Lemma MinDiff_spec T M a b :
  is_unsigned T -> valid_M T M -> valid_seq T M a -> valid_seq T M b ->
  MinDiff T M a b = Done (Z.min ((b - a) mod modulus T M) ((a - b) mod modulus T M)).
Proof.
  intros HT HM Ha Hb. unfold MinDiff.
  rewrite ForwardDiff_spec, ReverseDiff_spec by done. cbn [mbind exec_bind].
  unfold c_lt. rewrite (c_cmp_unsigned _ T M) by (done || by apply diff_valid).
  f_equal. bool_lia.
Qed.

End Specs.

Section AheadSpecs.
Context {build : Build}.

Lemma unsigned_half T x :
  is_unsigned T -> InRange T x -> c_div T Int32 x 2 = Some (x / 2) /\ InRange T (x / 2).
Proof.
  intros HT Hx. destruct (max_unsigned T HT) as [_ Hlow].
  assert (0 <= x) by (unfold InRange in Hx; lia).
  pose proof (Z.div_mod x 2 ltac:(lia)). pose proof (Z.mod_pos_bound x 2 ltac:(lia)).
  split; [|unfold InRange in *; lia].
  unfold c_div. cbv zeta. rewrite (arith_cast_l T Int32 x) by (done || by left).
  assert (static_cast (arith T Int32) 2 = 2) as ->
    by (apply static_cast_id; destruct T; limits; lia).
  cbn [Z.eqb]. rewrite Z.quot_div_nonneg by lia. apply arith_result_in_range.
  destruct T; try discriminate; limits; lia.
Qed.

Lemma unsigned_parity T x :
  is_unsigned T -> InRange T x -> c_and T Int32 x 1 = x mod 2.
Proof.
  intros HT Hx. destruct (max_unsigned T HT) as [_ Hlow].
  unfold c_and. cbv zeta. rewrite (arith_cast_l T Int32 x) by (done || (left; unfold InRange in Hx; lia)).
  rewrite (static_cast_id _ 1) by (destruct T; limits; lia).
  change 1 with (Z.ones 1) at 1. by rewrite Z.land_ones by lia.
Qed.

Lemma unsigned_half_modulus T :
  is_unsigned T ->
  (h ← c_div T Int32 (max T) 2; c_add (arith T Int32) T h (static_cast T 1)) =
    Some (2 ^ (width T - 1)) /\ InRange T (2 ^ (width T - 1)).
Proof. intros HT. destruct T; try discriminate; (split; [vm_compute; reflexivity|limits; lia]). Qed.

Lemma AheadOrAt_spec T M a b :
  is_unsigned T -> valid_M T M -> valid_seq T M a -> valid_seq T M b ->
  AheadOrAt T M a b = Done (ahead (modulus T M) a b).
Proof.
  intros HT HM Ha Hb. unfold AheadOrAt.
  pose proof (modulus_pos T M HT HM) as Hm0.
  pose proof (diff_valid T M (a - b) HT HM) as Hv. unfold valid_seq in Hv.
  destruct (Z.ltb_spec 0 M) as [HM0|HM0].
  - assert (InRange T M) as RM
      by (destruct (max_unsigned T HT); unfold InRange, valid_M in *; lia).
    destruct (unsigned_half T M HT RM) as [-> Rh]. rewrite unsigned_parity by done.
    cbn [defined mbind exec_bind]. cbv zeta. rewrite (static_cast_id T (M / 2)) by done.
    rewrite ForwardDiff_spec, MinDiff_spec by done. cbn [mbind exec_bind].
    unfold c_le, c_lt, c_eq.
    rewrite !c_cmp_same by (done || (eapply valid_seq_InRange; [done..|]);
      first [done | by apply diff_valid | apply Z.min_case; by apply diff_valid]).
    unfold ahead. rewrite (diff_complement _ a b) by lia.
    assert (modulus T M = M) as Em by (unfold modulus; replace (M =? 0) with false by lia; done).
    rewrite Em in *. pose proof (Z.div_mod M 2 ltac:(lia)). pose proof (Z.mod_pos_bound M 2 ltac:(lia)).
    cbv zeta. destruct (Z.eqb_spec ((a - b) mod M) 0); bool_lia; f_equal; bool_lia.
  - destruct (unsigned_half_modulus T HT) as [Hh Rh]. unfold mbind, option_bind in Hh.
    destruct (c_div T Int32 (max T) 2) as [h|]; [|discriminate].
    cbn [defined mbind exec_bind]. rewrite Hh. cbn [defined mbind exec_bind]. cbv zeta.
    rewrite (static_cast_id T (2 ^ _)) by done.
    pose proof (valid_seq_InRange T M a HT HM Ha) as Ra.
    pose proof (valid_seq_InRange T M b HT HM Hb) as Rb.
    destruct (c_sub_unsigned T a b HT Ra Rb) as (d & -> & Hd & [Hr Rd] & Hpos).
    assert (M = 0) as -> by (unfold valid_M in HM; lia). rewrite ForwardDiff_spec by done.
    cbn [defined mbind exec_bind]. unfold c_eq, c_lt.
    assert (arith (arith T T) T = arith T T) as Ea by by destruct T.
    unfold c_cmp at 1. rewrite Ea, (static_cast_id _ d), (static_cast_id _ (2 ^ _)) by
      (done || by apply InRange_arith_same).
    rewrite !c_cmp_same by (done || by eapply valid_seq_InRange; [..|apply diff_valid]).
    unfold ahead. cbv zeta. cbn [modulus Z.eqb] in *.
    rewrite static_cast_unsigned in Hd by done.
    pose proof (Z.div_mod d (2 ^ width T) ltac:(lia)) as Hdm. rewrite Hd in Hdm.
    pose proof (pow2_split (width T) (width_pos T)) as Hp.
    assert (-1 <= d / 2 ^ width T <= 0) as Hk.
    { split; [apply Z.div_le_lower_bound|apply Z.lt_succ_r, Z.div_lt_upper_bound]; lia. }
    assert (d / 2 ^ width T = -1 \/ d / 2 ^ width T = 0) as [Hq|Hq] by lia; rewrite Hq in Hdm;
      bool_lia; f_equal; bool_lia.
Qed.

Lemma AheadOf_spec T M a b :
  is_unsigned T -> valid_M T M -> valid_seq T M a -> valid_seq T M b ->
  AheadOf T M a b = Done (negb (a =? b) && ahead (modulus T M) a b).
Proof.
  intros HT HM Ha Hb. unfold AheadOf, c_eq. rewrite (c_cmp_unsigned _ T M), AheadOrAt_spec by done.
  by destruct (a =? b).
Qed.

Lemma IsNewer_spec T a b :
  is_unsigned T -> InRange T a -> InRange T b ->
  IsNewer T a b = Some (negb (a =? b) && ahead (2 ^ width T) a b).
Proof.
  intros HT Ha Hb. unfold IsNewer.
  assert (kBreakpoint T = Some (2 ^ (width T - 1)) /\ InRange T (2 ^ (width T - 1))) as [-> Rh]
    by (destruct T; try discriminate; (split; [vm_compute; reflexivity|limits; lia])).
  cbn [mbind option_bind].
  destruct (c_sub_unsigned T a b HT Ha Hb) as (d & -> & Hd & [Hr Rd] & Hpos).
  cbn [mbind option_bind]. unfold c_eq, c_lt, c_gt.
  assert (arith (arith T T) T = arith T T) as Ea by by destruct T.
  unfold c_cmp at 1. rewrite Ea, (static_cast_id _ d), (static_cast_id _ (2 ^ _)) by
    (done || by apply InRange_arith_same).
  rewrite !c_cmp_same by (done || apply static_cast_range).
  rewrite Z.gtb_ltb. unfold ahead. cbv zeta. rewrite Hd.
  rewrite static_cast_unsigned in Hd by done.
  pose proof (Z.div_mod d (2 ^ width T) ltac:(lia)) as Hdm. rewrite Hd in Hdm.
  pose proof (pow2_split (width T) (width_pos T)) as Hp.
  pose proof (Z.mod_pos_bound (a - b) (2 ^ width T) ltac:(lia)).
  assert (-1 <= d / 2 ^ width T <= 0) as Hk.
  { split; [apply Z.div_le_lower_bound|apply Z.lt_succ_r, Z.div_lt_upper_bound]; lia. }
  assert (d / 2 ^ width T = -1 \/ d / 2 ^ width T = 0) as [Hq|Hq] by lia; rewrite Hq in Hdm;
    bool_lia; f_equal; bool_lia.
Qed.

End AheadSpecs.

(** ** Windows of less than half the modulus *)

(** Two integers less than half the modulus apart compare on the circle as they
    do on the line. *)
Lemma ahead_window m x y :
  0 < m -> 2 * Z.abs (x - y) < m -> ahead m (x mod m) (y mod m) = (y <=? x).
Proof.
  intros Hm Hd. unfold ahead. rewrite <- Zminus_mod. cbv zeta.
  destruct (Z.lt_ge_cases (x - y) 0).
  - rewrite (mod_add_once (x - y) m) by lia. bool_lia.
  - rewrite (mod_lt_self (x - y) m) by lia. bool_lia.
Qed.

Lemma mod_eq_window m x y :
  0 < m -> 2 * Z.abs (x - y) < m -> (x mod m =? y mod m) = (x =? y).
Proof.
  intros Hm Hd. apply bool_eq_iff. rewrite !Z.eqb_eq. split; [|by intros ->].
  intros He. pose proof (Z.div_mod x m ltac:(lia)). pose proof (Z.div_mod y m ltac:(lia)).
  assert (x - y = m * (x / m - y / m)) as Hk by lia.
  destruct (Z.lt_trichotomy (x / m - y / m) 0) as [|[E|]]; [nia|rewrite E in Hk; lia|nia].
Qed.

(** A stream of integers starting from [x] whose consecutive members are less
    than half the modulus apart, and which stays far from the limits of [int64_t]. *)
Fixpoint chain (m x : Z) (xs : list Z) : Prop :=
  match xs with
  | [] => True
  | y :: ys => 2 * Z.abs (y - x) < m /\ Z.abs y < 2 ^ 62 /\ chain m y ys
  end.

(** Two adjacent integers reduced modulo [m]: the difference of the residues is
    the difference of the integers, up to one turn. *)
Lemma residue_diff m x y :
  0 < m -> 2 * Z.abs (y - x) < m ->
  (y mod m - x mod m) mod m = if x <=? y then y - x else y - x + m.
Proof.
  intros Hm Hd. rewrite <- Zminus_mod. destruct (Z.leb_spec x y).
  - apply mod_lt_self. lia.
  - apply mod_add_once. lia.
Qed.

Section Unwrapping.
Context {build : Build}.

Lemma small_i64 z : Z.abs z < 2 ^ 63 -> InRange Int64 z.
Proof. intros. limits. lia. Qed.

(** The types the unwrappers accept: at most 32 bits. *)
Definition unwrappable (T : int_type) : Prop := is_unsigned T /\ T <> Uint64.

Lemma unwrappable_width T : unwrappable T -> 2 ^ width T <= 2 ^ 32.
Proof. intros [HT HN]. unfold is_unsigned in HT. by destruct T. Qed.

Lemma SeqNumUnwrapper_step T M x y :
  unwrappable T -> valid_M T M -> Z.abs x < 2 ^ 62 -> Z.abs y < 2 ^ 62 ->
  2 * Z.abs (y - x) < modulus T M ->
  SeqNumUnwrapper_Unwrap T M (mkSeqNumUnwrapper x (Some (x mod modulus T M))) (y mod modulus T M) =
    Done (y, mkSeqNumUnwrapper y (Some (y mod modulus T M))).
Proof.
  intros HU HM Hx Hy Hd. destruct (HU) as [HT HN].
  pose proof (modulus_pos T M HT HM) as Hm. pose proof (unwrappable_width T HU) as Hw.
  pose proof (diff_valid T M x HT HM) as Vx. pose proof (diff_valid T M y HT HM) as Vy.
  unfold SeqNumUnwrapper_Unwrap. cbn [sn_last_value_ last_unwrapped_].
  rewrite ForwardDiff_spec, AheadOrAt_spec by done. cbn [mbind exec_bind].
  rewrite residue_diff, ahead_window by lia.
  assert ((if M =? 0 then max T + 1 else M) = modulus T M) as ->.
  { unfold modulus. destruct (max_unsigned T HT). destruct (M =? 0); lia. }
  set (d := if x <=? y then y - x else y - x + modulus T M).
  assert (0 <= d < 2 ^ 32) as Hd32 by (subst d; destruct (Z.leb_spec x y); lia).
  assert (c_add Int64 T x d = Some (x + d)) as ->.
  { unfold c_add. apply c_binop_value.
    - rewrite !static_cast_id; [done|..]; clear - Hd32 Hx HN; destruct T; try done; limits; lia.
    - clear - Hd32 Hx HN. destruct T; try done; limits; lia. }
  cbn [defined mbind exec_bind]. subst d. destruct (Z.leb_spec x y).
  - cbn [mbind exec_bind]. by replace (x + (y - x)) with y by lia.
  - unfold c_sub. rewrite c_binop_same by (apply small_i64; lia). cbn [defined mbind exec_bind].
    by replace (x + (y - x + modulus T M) - modulus T M) with y by lia.
Qed.

Lemma SeqNumUnwrapper_chain T M x xs :
  unwrappable T -> valid_M T M -> Z.abs x < 2 ^ 62 -> chain (modulus T M) x xs ->
  SeqNumUnwrapper_run T M (mkSeqNumUnwrapper x (Some (x mod modulus T M)))
    (map (fun z => z mod modulus T M) xs) = Done xs.
Proof.
  intros HT HM. revert x. induction xs as [|y ys IH]; intros x Hx Hc; [done|].
  destruct Hc as (Hd & Hy & Hc). cbn [map SeqNumUnwrapper_run].
  rewrite SeqNumUnwrapper_step by done. cbn [mbind exec_bind fst snd].
  by rewrite IH.
Qed.

(** The difference of the residues in the arithmetic of the type: exact or one
    turn off, and then of the other sign. *)
Lemma residue_sub T x y :
  is_unsigned T -> 2 * Z.abs (y - x) < 2 ^ width T ->
  exists d, c_sub T T (y mod 2 ^ width T) (x mod 2 ^ width T) = Some d /\
    InRange (arith T T) d /\
    (d = y - x \/ (x < y /\ d = y - x - 2 ^ width T) \/ (y < x /\ d = y - x + 2 ^ width T)).
Proof.
  intros HT Hd. assert (0 < 2 ^ width T) as Hm by by destruct T.
  assert (forall z, InRange T (z mod 2 ^ width T)) as Hz.
  { intros z. rewrite <- static_cast_unsigned by done. apply static_cast_range. }
  destruct (c_sub_unsigned T _ _ HT (Hz y) (Hz x)) as (d & Hs & Hc & [Hr Rd] & _).
  exists d. split; [done|split; [done|]].
  rewrite residue_diff, static_cast_unsigned in Hc by done.
  pose proof (Z.div_mod d (2 ^ width T) ltac:(lia)) as Hdm. rewrite Hc in Hdm.
  assert (-1 <= d / 2 ^ width T <= 0) as Hk.
  { split; [apply Z.div_le_lower_bound|apply Z.lt_succ_r, Z.div_lt_upper_bound]; lia. }
  assert (d / 2 ^ width T = -1 \/ d / 2 ^ width T = 0) as [Hq|Hq] by lia; rewrite Hq in Hdm;
    destruct (Z.leb_spec x y); lia.
Qed.

Lemma unwrappable_sub T d : unwrappable T -> InRange (arith T T) d -> static_cast Int64 d = d.
Proof.
  intros [HT HN] Hd. apply static_cast_id. unfold is_unsigned in HT.
  destruct T; try done; limits; lia.
Qed.

Lemma c_binop_i64 op x y : InRange Int64 x -> InRange Int64 y -> InRange Int64 (op x y) ->
  c_binop op Int64 Int64 x y = Some (op x y).
Proof. apply c_binop_same. Qed.

Lemma Unwrapper_step T x y :
  unwrappable T -> 0 <= x < 2 ^ 62 -> 0 <= y < 2 ^ 62 -> 2 * Z.abs (y - x) < 2 ^ width T ->
  Unwrap T (mkUnwrapper (Some x)) (y mod 2 ^ width T) = Some (y, mkUnwrapper (Some y)).
Proof.
  intros HU Hx Hy Hd. destruct (HU) as [HT HN]. pose proof (unwrappable_width T HU) as Hw.
  assert (0 < 2 ^ width T) as Hm by by destruct T.
  assert (forall z, InRange T (z mod 2 ^ width T)) as Hz.
  { intros z. rewrite <- static_cast_unsigned by done. apply static_cast_range. }
  unfold Unwrap, UnwrapWithoutUpdate, UpdateLast. cbn [last_value_].
  rewrite static_cast_unsigned by done.
  destruct (residue_sub T x y HT Hd) as (d & -> & Rd & Hcase). cbn [mbind option_bind]. cbv zeta.
  rewrite (unwrappable_sub T d HU Rd), IsNewer_spec by done. cbn [mbind option_bind].
  rewrite ahead_window, mod_eq_window by lia.
  assert (max T + 1 = 2 ^ width T) as -> by (destruct (max_unsigned T HT); lia).
  assert (Z.abs d <= 2 ^ 32) by lia.
  enough (exists e, (if negb (y =? x) && (x <=? y)
      then if d <? 0 then c_add Int64 Int64 d (2 ^ width T) else Some d
      else if 0 <? d
           then s ← c_add Int64 Int64 x d; s' ← c_sub Int64 Int64 s (2 ^ width T);
                if 0 <=? s' then c_sub Int64 Int64 d (2 ^ width T) else Some d
           else Some d) = Some e /\ e = y - x) as (e & -> & ->).
  { cbn [mbind option_bind]. unfold c_add. rewrite c_binop_i64 by (apply small_i64; lia).
    cbn [mbind option_bind]. by replace (x + (y - x)) with y by lia. }
  unfold c_add, c_sub.
  destruct (Z.eqb_spec y x), (Z.leb_spec x y); cbn [negb andb]; try lia.
  - destruct (Z.ltb_spec 0 d); [lia|]. exists d. split; [done|lia].
  - destruct (Z.ltb_spec d 0).
    + rewrite c_binop_i64 by (apply small_i64; lia). eexists. split; [done|lia].
    + exists d. split; [done|lia].
  - destruct (Z.ltb_spec 0 d).
    + rewrite c_binop_i64 by (apply small_i64; lia). cbn [mbind option_bind].
      rewrite c_binop_i64 by (apply small_i64; lia). cbn [mbind option_bind].
      rewrite c_binop_i64 by (apply small_i64; lia). cbn [mbind option_bind].
      destruct (Z.leb_spec 0 (x + d - 2 ^ width T)); [|lia]. eexists. split; [done|lia].
    + exists d. split; [done|lia].
Qed.

Lemma Unwrapper_chain T x xs :
  unwrappable T -> 0 <= x < 2 ^ 62 -> chain (2 ^ width T) x xs -> Forall (Z.le 0) xs ->
  Unwrapper_run T (mkUnwrapper (Some x)) (map (fun z => z mod 2 ^ width T) xs) = Some xs.
Proof.
  intros HT. revert x. induction xs as [|y ys IH]; intros x Hx Hc Hp; [done|].
  destruct Hc as (Hd & Hy & Hc). apply Forall_cons_1 in Hp as [Hy0 Hp].
  cbn [map Unwrapper_run]. rewrite Unwrapper_step by (done || lia).
  cbn [mbind option_bind fst snd]. by rewrite IH by (done || lia).
Qed.

End Unwrapping.

(** The step that [UnwrapWithoutUpdate] takes from the previous value. *)
Lemma Unwrap_delta T last value :
  unwrappable T -> 0 <= last < 2 ^ 62 -> InRange T value ->
  exists e, Unwrap T (mkUnwrapper (Some last)) value = Some (last + e, mkUnwrapper (Some (last + e))) /\
    0 <= last + e /\ (exists k, last + e = 2 ^ width T * k + value) /\
    (2 * Z.abs (last + e - last) <= 2 ^ width T \/ 2 * last < 2 ^ width T).
Proof.
  intros HU Hl Hv. destruct (HU) as [HT HN]. pose proof (unwrappable_width T HU) as Hw.
  assert (0 < 2 ^ width T) as Hm by by destruct T.
  pose proof (max_unsigned T HT) as [Hmax Hlow].
  pose proof (Z.div_mod last (2 ^ width T) ltac:(lia)) as Hlm.
  pose proof (Z.mod_pos_bound last (2 ^ width T) ltac:(lia)) as Hc.
  pose proof (Z.div_pos last (2 ^ width T) ltac:(lia) ltac:(lia)) as Hq.
  set (m := 2 ^ width T) in *. set (c := last mod m) in *. set (q := last / m) in *.
  assert (InRange T c) as Rc by (unfold InRange; lia).
  unfold Unwrap, UnwrapWithoutUpdate, UpdateLast. cbn [last_value_].
  rewrite static_cast_unsigned by done. fold m c.
  destruct (c_sub_unsigned T value c HT Hv Rc) as (d & -> & Hd & [Hr Rd] & Hpos).
  cbn [mbind option_bind]. cbv zeta. rewrite (unwrappable_sub T d HU Rd), IsNewer_spec by done.
  cbn [mbind option_bind]. fold m in Hr, Hd |- *. unfold ahead. cbv zeta.
  pose proof (Z.mod_pos_bound (value - c) m ltac:(lia)) as HD.
  pose proof (Z.div_mod (value - c) m ltac:(lia)) as HDm.
  rewrite static_cast_unsigned in Hd by done. fold m in Hd.
  pose proof (Z.div_mod d m ltac:(lia)) as Hdm. rewrite Hd in Hdm.
  set (D := (value - c) mod m) in *. set (j := (value - c) / m) in *. set (k := d / m) in *.
  unfold InRange in Hv, Rc. fold m in Hmax.
  assert (j = 0 \/ j = -1) as Hj by nia.
  assert (k = 0 \/ k = -1) as Hk by nia.
  assert (max T + 1 = m) as -> by lia.
  unfold c_add, c_sub.
  assert (forall e, 0 <= last + e -> (e = D \/ e = D - m) ->
    2 * Z.abs e <= m \/ 2 * last < m ->
    exists e', Some (last + e, mkUnwrapper (Some (last + e))) =
      Some (last + e', mkUnwrapper (Some (last + e'))) /\ 0 <= last + e' /\
      (exists k, last + e' = m * k + value) /\
      (2 * Z.abs (last + e' - last) <= m \/ 2 * last < m)) as Hend.
  { intros e H0 He Hn. exists e. split; [done|split; [done|split]].
    - destruct He as [-> | ->]; [exists (q - j)|exists (q - j - 1)]; lia.
    - by replace (last + e - last) with e by lia. }
  destruct (Z.eqb_spec value c), (Z.eqb_spec (2 * D) m); cbn [negb andb];
    repeat match goal with
    | |- context [?a <? ?b] => destruct (Z.ltb_spec a b); cbn [mbind option_bind]
    | |- context [?a <=? ?b] => destruct (Z.leb_spec a b); cbn [mbind option_bind]
    | _ => rewrite c_binop_i64 by (apply small_i64; lia); cbn [mbind option_bind]
    end; try (apply Hend; lia); try (exfalso; lia).
Qed.

(** ** Main results *)

(** C4: the unwrapper of rtc_base recovers the stream: fed the residues of an
    integer stream whose first element is in [[0, modulus)], whose elements stay
    within [(-2^62, 2^62)] and whose steps are shorter than half the modulus (in either
    direction), it returns the stream. *)
Theorem SeqNumUnwrapper_recovers {build : Build} T M x xs :
  unwrappable T -> valid_M T M -> 0 <= x < modulus T M -> chain (modulus T M) x xs ->
  SeqNumUnwrapper_run T M SeqNumUnwrapper_init (map (fun z => z mod modulus T M) (x :: xs)) =
    Done (x :: xs).
Proof.
  intros HU HM Hx Hc. destruct (HU) as [HT _].
  pose proof (modulus_pos T M HT HM). pose proof (unwrappable_width T HU).
  cbn [map SeqNumUnwrapper_run]. unfold SeqNumUnwrapper_Unwrap at 1.
  cbn [SeqNumUnwrapper_init sn_last_value_ mbind exec_bind fst snd].
  rewrite (mod_lt_self x) by done. rewrite <- (mod_lt_self x (modulus T M)) at 2 by done.
  by rewrite SeqNumUnwrapper_chain by (done || lia).
Qed.

Lemma SeqNumUnwrapper_recovers_witness :
  valid_M Uint16 0 /\
  @SeqNumUnwrapper_run release_x64 Uint16 0 SeqNumUnwrapper_init [65535; 1; 65534] =
    Done [65535; 65537; 65534].
Proof.
  assert (valid_M Uint16 0) as H by (vm_compute; split; discriminate).
  split; [exact H|].
  exact (@SeqNumUnwrapper_recovers release_x64 Uint16 0 65535 [65537; 65534]
    ltac:(split; [reflexivity|discriminate]) H ltac:(vm_compute; split; [discriminate|reflexivity])
    ltac:(vm_compute; repeat split)).
Defined.

(** The second unwrapper recovers every nonnegative stream with steps shorter
    than half the modulus, and agrees with the first one there. *)
Theorem Unwrapper_recovers {build : Build} T x xs :
  unwrappable T -> 0 <= x < 2 ^ width T -> chain (2 ^ width T) x xs -> Forall (Z.le 0) xs ->
  Unwrapper_run T (mkUnwrapper None) (map (fun z => z mod 2 ^ width T) (x :: xs)) = Some (x :: xs) /\
  SeqNumUnwrapper_run T 0 SeqNumUnwrapper_init (map (fun z => z mod 2 ^ width T) (x :: xs)) =
    Done (x :: xs).
Proof.
  intros HU Hx Hc Hp. pose proof (unwrappable_width T HU). split.
  - cbn [map Unwrapper_run]. unfold Unwrap at 1, UnwrapWithoutUpdate, UpdateLast.
    cbn [last_value_ mbind option_bind fst snd]. rewrite (mod_lt_self x) by done.
    by rewrite Unwrapper_chain by (done || lia).
  - cbn [map SeqNumUnwrapper_run]. unfold SeqNumUnwrapper_Unwrap at 1.
    cbn [SeqNumUnwrapper_init sn_last_value_ mbind exec_bind fst snd].
    rewrite (mod_lt_self x) by done. rewrite <- (mod_lt_self x (2 ^ width T)) at 2 by done.
    destruct HU as [HT HN].
    assert (valid_M T 0) by (unfold valid_M; pose proof (max_pos T); lia).
    by rewrite (SeqNumUnwrapper_chain T 0) by (done || (cbn; lia)).
Qed.

Lemma Unwrapper_recovers_witness :
  unwrappable Uint32 /\
  Unwrapper_run Uint32 (mkUnwrapper None) [4294967290; 4; 4294967295] =
    Some [4294967290; 4294967300; 4294967295].
Proof.
  assert (unwrappable Uint32) as H by (split; [reflexivity|discriminate]).
  split; [exact H|].
  exact (proj1 (@Unwrapper_recovers release_x64 Uint32 4294967290 [4294967300; 4294967295] H
    ltac:(vm_compute; split; [discriminate|reflexivity]) ltac:(vm_compute; repeat split)
    ltac:(repeat constructor; vm_compute; discriminate))).
Defined.

(** Whatever it is fed, [Unwrapper] never produces a negative value, the value
    it produces is congruent to its input, and it is at most half the modulus
    away from the previous value, except where a backward step would pass zero. *)
Theorem Unwrapper_nonnegative T last value :
  unwrappable T -> 0 <= last < 2 ^ 62 -> InRange T value ->
  exists r, Unwrap T (mkUnwrapper (Some last)) value = Some (r, mkUnwrapper (Some r)) /\
    0 <= r /\ r mod 2 ^ width T = value /\
    (2 * Z.abs (r - last) <= 2 ^ width T \/ 2 * last < 2 ^ width T).
Proof.
  intros HU Hl Hv.
  destruct (Unwrap_delta T last value HU Hl Hv) as (e & -> & Hr & Hk & Hcase).
  pose proof (unwrappable_width T HU) as Hw. destruct HU as [HT HN].
  exists (last + e). split; [done|split; [done|split; [|done]]].
  destruct (max_unsigned T HT). destruct Hk as [k Hk]. unfold InRange in Hv.
  symmetry. apply (Z.mod_unique _ _ k); lia.
Qed.

Lemma Unwrapper_nonnegative_witness :
  InRange Uint16 65535 /\
  exists r, Unwrap Uint16 (mkUnwrapper (Some 5)) 65535 = Some (r, mkUnwrapper (Some r)) /\ 0 <= r.
Proof.
  assert (InRange Uint16 65535) as H by (limits; lia).
  split; [exact H|].
  destruct (Unwrapper_nonnegative Uint16 5 65535 ltac:(split; [reflexivity|discriminate])
    ltac:(lia) H) as (r & Hr & H0 & _). exists r. split; [exact Hr|exact H0].
Defined.

(** The forward, reverse and minimum distances are the modular distances, for
    every unsigned type and every modulus, on debug and release builds. *)
Theorem diffs_modular {build : Build} T M a b :
  is_unsigned T -> valid_M T M -> valid_seq T M a -> valid_seq T M b ->
  ForwardDiff T M a b = Done ((b - a) mod modulus T M) /\
  ReverseDiff T M a b = Done ((a - b) mod modulus T M) /\
  MinDiff T M a b = Done (Z.min ((b - a) mod modulus T M) ((a - b) mod modulus T M)).
Proof.
  intros HT HM Ha Hb. by rewrite ForwardDiff_spec, ReverseDiff_spec, MinDiff_spec.
Qed.

Lemma diffs_modular_witness :
  valid_seq Uint8 0 253 /\ @ForwardDiff debug_x64 Uint8 0 253 2 = Done 5.
Proof.
  assert (forall z, 0 <= z < 256 -> valid_seq Uint8 0 z) as H by (intros z Hz; exact Hz).
  split; [apply H; lia|].
  exact (proj1 (@diffs_modular debug_x64 Uint8 0 253 2 eq_refl
    ltac:(vm_compute; split; discriminate) (H 253 ltac:(lia)) (H 2 ltac:(lia)))).
Defined.

(** Of two distinct sequence numbers exactly one is ahead of the other, also at
    the maximum distance; on the full range of the type [AheadOf] is the
    [IsNewer] of the RTP modules; and numbers taken from a window shorter than
    half the modulus compare like the integers they come from. *)
Theorem AheadOf_order {build : Build} T M a b :
  is_unsigned T -> valid_M T M -> valid_seq T M a -> valid_seq T M b ->
  (a <> b -> exists c, AheadOf T M a b = Done c /\ AheadOf T M b a = Done (negb c)) /\
  AheadOf T M a a = Done false /\
  (M = 0 -> exists c, AheadOf T 0 a b = Done c /\ IsNewer T a b = Some c) /\
  (forall x y, 2 * Z.abs (x - y) < modulus T M ->
     AscendingSeqNumComp T M (x mod modulus T M) (y mod modulus T M) = Done (y <? x) /\
     DescendingSeqNumComp T M (x mod modulus T M) (y mod modulus T M) = Done (x <? y)).
Proof.
  intros HT HM Ha Hb. pose proof (modulus_pos T M HT HM) as Hm. split_and!.
  - intros Hne. rewrite !AheadOf_spec by done. eexists. split; [done|]. f_equal.
    unfold ahead. rewrite (diff_complement (modulus T M) a b) by lia.
    pose proof (Z.mod_pos_bound (a - b) (modulus T M) ltac:(lia)).
    assert ((a - b) mod modulus T M <> 0) as Hnz.
    { unfold valid_seq in *. intros Hz.
      pose proof (Z.div_mod (a - b) (modulus T M) ltac:(lia)) as Hdm. rewrite Hz in Hdm.
      destruct (Z.lt_trichotomy ((a - b) / modulus T M) 0) as [|[E|]]; [nia|rewrite E in Hdm; lia|nia]. }
    cbv zeta. replace ((a - b) mod modulus T M =? 0) with false by lia. bool_lia.
  - rewrite AheadOf_spec by done. by rewrite Z.eqb_refl.
  - intros ->. rewrite AheadOf_spec by done.
    rewrite IsNewer_spec by (done || by eapply valid_seq_InRange). eexists. by split.
  - intros x y Hd. unfold AscendingSeqNumComp, DescendingSeqNumComp.
    rewrite !AheadOf_spec by (done || by apply diff_valid).
    rewrite !ahead_window, !mod_eq_window by lia.
    split; f_equal; bool_lia.
Qed.

Lemma AheadOf_order_witness :
  valid_seq Uint16 0 65530 /\
  @AscendingSeqNumComp debug_x64 Uint16 0 (65541 mod 65536) (65530 mod 65536) = Done true.
Proof.
  assert (forall z, 0 <= z < 65536 -> valid_seq Uint16 0 z) as H by (intros z Hz; exact Hz).
  split; [apply H; lia|].
  exact (proj1 (proj2 (proj2 (proj2 (@AheadOf_order debug_x64 Uint16 0 0 0 eq_refl
    ltac:(vm_compute; split; discriminate) (H 0 ltac:(lia)) (H 0 ltac:(lia)))))
    65541 65530 ltac:(reflexivity))).
Defined.

(** [Add<M>] and [Subtract<M>] compute modulo [M] for right operands of any size. *)
Theorem mod_ops_exact {build : Build} M a b :
  0 < M -> InRange ulong M -> 0 <= a < M -> InRange ulong b ->
  Add M a b = Done ((a + b) mod M) /\ Subtract M a b = Done ((a - b) mod M).
Proof.
  intros H0 HM Ha Hb.
  assert (0 <= b) as Hb0 by (unfold ulong in Hb; limits; lia).
  assert (InRange ulong a) as Ra by (unfold ulong in *; limits; lia).
  assert (is_unsigned ulong) as HU by done.
  pose proof (Z.mod_pos_bound b M ltac:(lia)) as Hm.
  assert (InRange ulong (b mod M)) as Rm by (unfold ulong in *; limits; lia).
  assert (c_mod ulong ulong b M = Some (b mod M)) as Emod.
  { unfold c_mod. cbv zeta. rewrite !arith_cast_same by done. replace (M =? 0) with false by lia.
    rewrite arith_result_unsigned by done. cbn [mbind option_bind].
    by rewrite Z.rem_mod_nonneg by lia. }
  assert ((a + b) mod M = (a + b mod M) mod M) as -> by (by rewrite Z.add_mod_idemp_r by lia).
  assert ((a - b) mod M = (a - b mod M) mod M) as -> by (by rewrite Zminus_mod_idemp_r).
  unfold Add, Subtract. unfold SafeLt. rewrite Safe_holds by done. cbn [holds].
  rewrite !RTC_DCHECK_true by lia. rewrite Emod. cbn [defined mbind exec_bind].
  set (m := b mod M) in *. unfold c_gt, c_lt. split.
  - unfold c_sub. rewrite c_binop_same by (done || (unfold ulong in *; limits; lia)).
    cbn [defined mbind exec_bind].
    assert (InRange ulong (M - m)) by (unfold ulong in *; limits; lia).
    unfold c_binop, c_add. rewrite !arith_cast_same by done.
    rewrite arith_result_unsigned by done. cbn [defined mbind exec_bind].
    rewrite c_cmp_same, Z.gtb_ltb by done. change (arith ulong ulong) with ulong.
    destruct (Z.ltb_spec a (M - m)) as [Hlt|Hge].
    + assert (static_cast ulong (a - (M - m)) = a - (M - m) + 2 ^ 32) as ->.
      { apply (static_cast_unique _ _ _ 1); [|done]. unfold ulong in *; limits; lia. }
      unfold c_binop. cbv zeta. change (arith ulong ulong) with ulong.
      rewrite !static_cast_id by (done || (unfold ulong in *; limits; lia)).
      rewrite arith_result_unsigned by done. cbn [defined]. f_equal.
      rewrite (mod_lt_self (a + m)) by lia.
      apply (static_cast_unique _ _ _ (-1)); [unfold ulong in *; limits; lia|].
      change (2 ^ width ulong) with (2 ^ 32). lia.
    + rewrite static_cast_id by (unfold ulong in *; limits; lia). f_equal.
      apply (Z.mod_unique _ _ 1); lia.
  - rewrite c_cmp_same by done. unfold c_sub. destruct (Z.ltb_spec a m).
    + rewrite c_binop_same by (done || (unfold ulong in *; limits; lia)).
      cbn [defined mbind exec_bind].
      rewrite c_binop_same by (done || (unfold ulong in *; limits; lia)). cbn [defined]. f_equal.
      rewrite mod_add_once by lia. lia.
    + rewrite c_binop_same by (done || (unfold ulong in *; limits; lia)). cbn [defined].
      by rewrite mod_lt_self by lia.
Qed.

Lemma mod_ops_exact_witness :
  InRange ulong 7 /\ @Subtract debug_x64 7 3 12 = Done 5.
Proof.
  assert (InRange ulong 7) as H1 by (unfold ulong; limits; lia).
  assert (InRange ulong 12) as H2 by (unfold ulong; limits; lia).
  split; [exact H1|].
  exact (proj2 (@mod_ops_exact debug_x64 7 3 12 ltac:(lia) H1 ltac:(lia) H2)).
Defined.
