(* ===== verification/ByteIO.v ===== *)
(** * ByteIO: modules/rtp_rtcp/source/byte_io.h

    Reading and writing integers of any whole number of bytes in either byte
    order.  [data] is the list of the bytes from the pointer to the end of its
    buffer: an access past it is undefined ([None]), and so is an instantiation
    that a static assertion rejects.  The primary templates are selected by the
    byte count [B] as the specializations are. *)

From S2P Require Import Prelude IntTypes RtcNumerics.

(** [data[i]] and [data[i] = value]. *)
Definition load (data : list Z) (i : nat) : option Z := data !! i.
Definition store (data : list Z) (i : nat) (value : Z) : option (list Z) :=
  if (i <? length data)%nat then Some (<[i := static_cast Uint8 value]> data) else None.

(** [UnsignedOf<T>::Type]. *)
Definition UnsignedOf (T : int_type) : option int_type :=
  match T with
  | Int8 => Some Uint8 | Int16 => Some Uint16 | Int32 => Some Uint32 | Int64 => Some Uint64
  | _ => None
  end.

Definition kSizeErrorMsg {A} (ok : bool) (k : option A) : option A := guard_b ok k.

(** ** ByteReader for unsigned types *)

Definition Get (T : int_type) (data : list Z) (index : nat) : option Z :=
  d ← load data index; Some (static_cast T d).

(** [val |= static_cast<T>(data[i]) << shift(i)] for [n] indices from [i]. *)
Fixpoint InternalRead (T : int_type) (shift : nat -> Z) (data : list Z) (n i : nat) (val : Z)
  : option Z :=
  match n with
  | O => Some val
  | S n =>
      g ← Get T data i;
      s ← c_shl T g (shift i);
      InternalRead T shift data n (S i) (static_cast T (c_or T (promote T) val s))
  end.

Definition InternalReadBigEndian (T : int_type) (B : nat) (data : list Z) : option Z :=
  InternalRead T (fun i => (Z.of_nat B - 1 - Z.of_nat i) * 8) data B 0 0.
Definition InternalReadLittleEndian (T : int_type) (B : nat) (data : list Z) : option Z :=
  InternalRead T (fun i => Z.of_nat i * 8) data B 0 0.

Definition ReadBigEndian2 (T : int_type) (data : list Z) : option Z :=
  kSizeErrorMsg (2 <=? sizeof T)
    (d0 ← load data 0; d1 ← load data 1;
     s ← c_shl Uint8 d0 8; Some (static_cast T (c_or Int32 Uint8 s d1))).
Definition ReadLittleEndian2 (T : int_type) (data : list Z) : option Z :=
  kSizeErrorMsg (2 <=? sizeof T)
    (d0 ← load data 0; d1 ← load data 1;
     s ← c_shl Uint8 d1 8; Some (static_cast T (c_or Uint8 Int32 d0 s))).

(** [Get(data, index) << s]. *)
Definition Get_shl (T : int_type) (data : list Z) (index : nat) (s : Z) : option Z :=
  g ← Get T data index; c_shl T g s.

Definition ReadBigEndian4 (T : int_type) (data : list Z) : option Z :=
  kSizeErrorMsg (4 <=? sizeof T)
    (a ← Get_shl T data 0 24; b ← Get_shl T data 1 16; c ← Get_shl T data 2 8; d ← Get T data 3;
     Some (static_cast T (c_or T T (c_or T T (c_or T T a b) c) d))).
Definition ReadLittleEndian4 (T : int_type) (data : list Z) : option Z :=
  kSizeErrorMsg (4 <=? sizeof T)
    (a ← Get T data 0; b ← Get_shl T data 1 8; c ← Get_shl T data 2 16; d ← Get_shl T data 3 24;
     Some (static_cast T (c_or T T (c_or T T (c_or T T a b) c) d))).

Definition ReadBigEndian8 (T : int_type) (data : list Z) : option Z :=
  kSizeErrorMsg (8 <=? sizeof T)
    (a ← Get_shl T data 0 56; b ← Get_shl T data 1 48; c ← Get_shl T data 2 40;
     d ← Get_shl T data 3 32; e ← Get_shl T data 4 24; f ← Get_shl T data 5 16;
     g ← Get_shl T data 6 8; h ← Get T data 7;
     Some (static_cast T
       (c_or T T (c_or T T (c_or T T (c_or T T (c_or T T (c_or T T (c_or T T a b) c) d) e) f) g) h))).
Definition ReadLittleEndian8 (T : int_type) (data : list Z) : option Z :=
  kSizeErrorMsg (8 <=? sizeof T)
    (a ← Get T data 0; b ← Get_shl T data 1 8; c ← Get_shl T data 2 16;
     d ← Get_shl T data 3 24; e ← Get_shl T data 4 32; f ← Get_shl T data 5 40;
     g ← Get_shl T data 6 48; h ← Get_shl T data 7 56;
     Some (static_cast T
       (c_or T T (c_or T T (c_or T T (c_or T T (c_or T T (c_or T T (c_or T T a b) c) d) e) f) g) h))).

(** [ByteReader<T, B, false>]: the specializations for 1, 2, 4 and 8 bytes, else the loop. *)
Definition ReadBigEndian_unsigned (T : int_type) (B : nat) (data : list Z) : option Z :=
  match B with
  | 1%nat => kSizeErrorMsg (sizeof T =? 1) (d ← load data 0; Some (static_cast T d))
  | 2%nat => ReadBigEndian2 T data
  | 4%nat => ReadBigEndian4 T data
  | 8%nat => ReadBigEndian8 T data
  | _ => kSizeErrorMsg (Z.of_nat B <=? sizeof T) (InternalReadBigEndian T B data)
  end.
Definition ReadLittleEndian_unsigned (T : int_type) (B : nat) (data : list Z) : option Z :=
  match B with
  | 1%nat => kSizeErrorMsg (sizeof T =? 1) (d ← load data 0; Some (static_cast T d))
  | 2%nat => ReadLittleEndian2 T data
  | 4%nat => ReadLittleEndian4 T data
  | 8%nat => ReadLittleEndian8 T data
  | _ => kSizeErrorMsg (Z.of_nat B <=? sizeof T) (InternalReadLittleEndian T B data)
  end.

(** ** ByteReader for signed types *)

Definition ReinterpretAsSigned (T U : int_type) (unsigned_val : Z) : option Z :=
  m ← c_shl U (static_cast U 1) (sizeof U * 8 - 1);
  let kUnsignedHighestBitMask := static_cast U m in
  let kSignedHighestBitMask := lowest T in
  if negb (c_eq (arith U U) Int32 (c_and U U unsigned_val kUnsignedHighestBitMask) 0)
  then let val := static_cast T (c_and U (promote U) unsigned_val (c_not U kUnsignedHighestBitMask)) in
       Some (static_cast T (c_or T T val kSignedHighestBitMask))
  else Some (static_cast T unsigned_val).

Definition SignExtend (T U : int_type) (B : nat) (val : Z) : option Z :=
  s ← c_shr U val ((Z.of_nat B - 1) * 8);
  let kMsb := static_cast Uint8 s in
  if negb (c_eq Int32 Int32 (c_and Uint8 Int32 kMsb 128) 0)
  then one ← c_shl Int32 1 ((Z.of_nat B mod sizeof T) * 8);
       m ← c_sub Int32 Int32 one 1;
       let kUsedBitsMask := static_cast U m in
       Some (static_cast U (c_or (promote U) U (c_not U kUsedBitsMask) val))
  else Some val.

Definition ReadSigned (read : int_type -> nat -> list Z -> option Z)
    (T : int_type) (B : nat) (data : list Z) : option Z :=
  U ← UnsignedOf T;
  r ← read T B data;
  let unsigned_val := static_cast U r in
  unsigned_val ← (if Z.of_nat B <? sizeof T then SignExtend T U B unsigned_val else Some unsigned_val);
  ReinterpretAsSigned T U unsigned_val.

Definition ReadBigEndian (T : int_type) (B : nat) (data : list Z) : option Z :=
  if is_signed T then ReadSigned ReadBigEndian_unsigned T B data else ReadBigEndian_unsigned T B data.
Definition ReadLittleEndian (T : int_type) (B : nat) (data : list Z) : option Z :=
  if is_signed T then ReadSigned ReadLittleEndian_unsigned T B data
  else ReadLittleEndian_unsigned T B data.

(** ** ByteWriter *)

(** [data[i] = val >> s]. *)
Definition store_shr (T : int_type) (val : Z) (data : list Z) (i : nat) (s : Z) : option (list Z) :=
  v ← c_shr T val s; store data i v.

Fixpoint InternalWrite (T : int_type) (shift : nat -> Z) (val : Z) (data : list Z) (n i : nat)
  : option (list Z) :=
  match n with
  | O => Some data
  | S n => data ← store_shr T val data i (shift i); InternalWrite T shift val data n (S i)
  end.

Definition WriteBigEndian_unsigned (T : int_type) (B : nat) (data : list Z) (val : Z)
  : option (list Z) :=
  match B with
  | 1%nat => kSizeErrorMsg (sizeof T =? 1) (store data 0 val)
  | 2%nat => kSizeErrorMsg (2 <=? sizeof T)
      (data ← store_shr T val data 0 8; store data 1 val)
  | 4%nat => kSizeErrorMsg (4 <=? sizeof T)
      (data ← store_shr T val data 0 24; data ← store_shr T val data 1 16;
       data ← store_shr T val data 2 8; store data 3 val)
  | 8%nat => kSizeErrorMsg (8 <=? sizeof T)
      (data ← store_shr T val data 0 56; data ← store_shr T val data 1 48;
       data ← store_shr T val data 2 40; data ← store_shr T val data 3 32;
       data ← store_shr T val data 4 24; data ← store_shr T val data 5 16;
       data ← store_shr T val data 6 8; store data 7 val)
  | _ => kSizeErrorMsg (Z.of_nat B <=? sizeof T)
      (InternalWrite T (fun i => (Z.of_nat B - 1 - Z.of_nat i) * 8) val data B 0)
  end.

Definition WriteLittleEndian_unsigned (T : int_type) (B : nat) (data : list Z) (val : Z)
  : option (list Z) :=
  match B with
  | 1%nat => kSizeErrorMsg (sizeof T =? 1) (store data 0 val)
  | 2%nat => kSizeErrorMsg (2 <=? sizeof T)
      (data ← store data 0 val; store_shr T val data 1 8)
  | 4%nat => kSizeErrorMsg (4 <=? sizeof T)
      (data ← store data 0 val; data ← store_shr T val data 1 8;
       data ← store_shr T val data 2 16; store_shr T val data 3 24)
  | 8%nat => kSizeErrorMsg (8 <=? sizeof T)
      (data ← store data 0 val; data ← store_shr T val data 1 8;
       data ← store_shr T val data 2 16; data ← store_shr T val data 3 24;
       data ← store_shr T val data 4 32; data ← store_shr T val data 5 40;
       data ← store_shr T val data 6 48; store_shr T val data 7 56)
  | _ => kSizeErrorMsg (Z.of_nat B <=? sizeof T)
      (InternalWrite T (fun i => Z.of_nat i * 8) val data B 0)
  end.

Definition ReinterpretAsUnsigned (T U : int_type) (val : Z) : Z := static_cast U val.

Definition WriteBigEndian (T : int_type) (B : nat) (data : list Z) (val : Z) : option (list Z) :=
  if is_signed T
  then U ← UnsignedOf T; WriteBigEndian_unsigned U B data (ReinterpretAsUnsigned T U val)
  else WriteBigEndian_unsigned T B data val.
Definition WriteLittleEndian (T : int_type) (B : nat) (data : list Z) (val : Z) : option (list Z) :=
  if is_signed T
  then U ← UnsignedOf T; WriteLittleEndian_unsigned U B data (ReinterpretAsUnsigned T U val)
  else WriteLittleEndian_unsigned T B data val.

(** ** Values of byte sequences *)

Definition is_byte (d : Z) : Prop := 0 <= d < 256.

(** The number a byte sequence denotes, least and most significant byte first. *)
Fixpoint le_value (l : list Z) : Z :=
  match l with [] => 0 | d :: l => d + 256 * le_value l end.
Definition be_value (l : list Z) : Z := le_value (rev l).

(** Bytes combined by shifts and disjunctions, as the readers do. *)
Fixpoint lor_bytes (shift : nat -> Z) (acc : Z) (l : list Z) (i : nat) : Z :=
  match l with
  | [] => acc
  | d :: l => lor_bytes shift (Z.lor acc (Z.shiftl d (shift i))) l (S i)
  end.

Lemma pow256 n : 2 ^ (8 * Z.of_nat (S n)) = 256 * 2 ^ (8 * Z.of_nat n).
Proof.
  replace (8 * Z.of_nat (S n)) with (8 + 8 * Z.of_nat n) by lia.
  by rewrite Z.pow_add_r by lia.
Qed.

Lemma le_value_bound l : Forall is_byte l -> 0 <= le_value l < 2 ^ (8 * Z.of_nat (length l)).
Proof.
  induction 1 as [|d l Hd Hl IH]; [done|]. cbn [le_value length]. rewrite pow256.
  unfold is_byte in Hd. lia.
Qed.

Lemma le_value_app l l' :
  le_value (l ++ l') = le_value l + 2 ^ (8 * Z.of_nat (length l)) * le_value l'.
Proof.
  induction l as [|d l IH]; cbn [app le_value length]; [cbn; lia|]. rewrite IH, pow256. lia.
Qed.

Lemma be_value_cons d l : be_value (d :: l) = d * 2 ^ (8 * Z.of_nat (length l)) + be_value l.
Proof.
  unfold be_value. cbn [rev]. rewrite le_value_app, length_rev. cbn [le_value]. lia.
Qed.

Lemma be_value_bound l : Forall is_byte l -> 0 <= be_value l < 2 ^ (8 * Z.of_nat (length l)).
Proof.
  intros H. unfold be_value. rewrite <- length_rev. by apply le_value_bound, Forall_rev.
Qed.

(** Disjunction of bits that do not overlap is addition. *)
Lemma lor_shift_add a b k : 0 <= k -> 0 <= a < 2 ^ k -> Z.lor a (b * 2 ^ k) = a + b * 2 ^ k.
Proof.
  intros Hk Ha. rewrite <- Z.add_lor_land.
  enough (Z.land a (b * 2 ^ k) = 0) as -> by lia.
  apply Z.bits_inj'. intros i Hi. rewrite Z.land_spec, Z.bits_0.
  destruct (Z.lt_ge_cases i k).
  - by rewrite Z.mul_pow2_bits_low, andb_false_r.
  - by rewrite (testbit_high k a i).
Qed.

Lemma lor_bytes_le acc l i :
  Forall is_byte l -> 0 <= acc < 2 ^ (8 * Z.of_nat i) ->
  lor_bytes (fun i => Z.of_nat i * 8) acc l i = acc + 2 ^ (8 * Z.of_nat i) * le_value l.
Proof.
  intros Hl. revert acc i. induction Hl as [|d l Hd Hl IH]; intros acc i Ha; cbn [lor_bytes le_value];
    [lia|].
  rewrite (Z.mul_comm (Z.of_nat i)), Z.shiftl_mul_pow2, lor_shift_add by lia.
  unfold is_byte in Hd. rewrite IH by (rewrite pow256; nia). rewrite pow256. lia.
Qed.

Lemma lor_bytes_be B a l i :
  Forall is_byte l -> (i + length l = B)%nat ->
  lor_bytes (fun i => (Z.of_nat B - 1 - Z.of_nat i) * 8) (a * 2 ^ (8 * Z.of_nat (length l))) l i =
    a * 2 ^ (8 * Z.of_nat (length l)) + be_value l.
Proof.
  intros Hl. revert a i. induction Hl as [|d l Hd Hl IH]; intros a i Hi; cbn [lor_bytes].
  { cbn. lia. }
  cbn [length] in Hi |- *.
  replace ((Z.of_nat B - 1 - Z.of_nat i) * 8) with (8 * Z.of_nat (length l)) by lia.
  rewrite Z.shiftl_mul_pow2, Z.lor_comm, pow256 by lia.
  replace (a * (256 * 2 ^ (8 * Z.of_nat (length l))))
    with (a * 2 ^ 8 * 2 ^ (8 * Z.of_nat (length l))) by lia.
  unfold is_byte in Hd.
  rewrite <- !Z.shiftl_mul_pow2, <- Z.shiftl_lor, !Z.shiftl_mul_pow2 by lia.
  rewrite lor_shift_add by lia. rewrite IH by lia. rewrite be_value_cons. lia.
Qed.

(** ** Casts of the readers' expressions *)

Lemma mod_lor x y w : 0 <= w -> Z.lor x y mod 2 ^ w = Z.lor (x mod 2 ^ w) (y mod 2 ^ w).
Proof.
  intros Hw. rewrite <- !Z.land_ones by done. apply Z.bits_inj'. intros i Hi.
  rewrite Z.land_spec, !Z.lor_spec, !Z.land_spec.
  by destruct (Z.testbit x i), (Z.testbit y i), (Z.testbit (Z.ones w) i).
Qed.

Lemma cast_or U t u x y :
  is_signed U = false -> width U <= width (arith t u) ->
  static_cast U (c_or t u x y) = Z.lor (static_cast U x) (static_cast U y).
Proof.
  intros HU Hw. unfold c_or. cbv zeta.
  rewrite <- (static_cast_trans U (arith t u) x), <- (static_cast_trans U (arith t u) y) by done.
  unfold static_cast at 1 4 6. rewrite HU. apply mod_lor. by destruct U.
Qed.

(** A byte shifted within the width of a type of at least 16 bits. *)
Lemma c_shl_byte T x s :
  is_byte x -> 16 <= width T -> 0 <= s -> s + 8 <= width T ->
  exists v, c_shl T (static_cast T x) s = Some v /\
    static_cast (make_unsigned T) v = Z.shiftl x s.
Proof.
  intros Hx HT Hs Hw. unfold is_byte in Hx.
  assert (static_cast T x = x) as -> by (apply static_cast_id; destruct T; cbn in HT; limits; lia).
  assert (0 <= Z.shiftl x s < 2 ^ width T) as Hb.
  { rewrite Z.shiftl_mul_pow2 by done. assert (2 ^ (8 + s) <= 2 ^ width T) by (apply Z.pow_le_mono_r; lia).
    rewrite Z.pow_add_r in * by lia. assert (0 < 2 ^ s) by (apply Z.pow_pos_nonneg; lia). nia. }
  assert (width T <= width (promote T)) as Hwp by by destruct T.
  assert (2 ^ width T <= 2 ^ width (promote T)) by (apply Z.pow_le_mono_r; [lia|done]).
  unfold c_shl. replace ((s <? 0) || (width (promote T) <=? s)) with false by lia.
  exists (static_cast (promote T) (Z.shiftl x s)). split.
  - destruct (is_signed (promote T)); [|done].
    assert (max (make_unsigned (promote T)) = 2 ^ width (promote T) - 1) as -> by by destruct T.
    by replace ((x <? 0) || (2 ^ width (promote T) - 1 <? Z.shiftl x s)) with false by lia.
  - rewrite static_cast_trans by by rewrite width_make_unsigned.
    unfold static_cast. rewrite width_make_unsigned.
    replace (is_signed (make_unsigned T)) with false by by destruct T.
    by apply Z.mod_small.
Qed.

(** ** The readers compute the value of the bytes *)

(** The instantiations that the static assertions accept. *)
Definition ok_size (T : int_type) (B : nat) : Prop :=
  (B = 1%nat /\ sizeof T = 1) \/ (2 <= Z.of_nat B <= sizeof T).

Lemma sizeof_width T : width T = 8 * sizeof T.
Proof. by destruct T. Qed.

Lemma InternalRead_spec T shift data l i val :
  (forall j d, l !! j = Some d -> data !! (i + j)%nat = Some d) -> Forall is_byte l ->
  16 <= width T -> InRange T val ->
  (forall j, (i <= j < i + length l)%nat -> 0 <= shift j /\ shift j + 8 <= width T) ->
  exists v, InternalRead T shift data (length l) i val = Some v /\ InRange T v /\
    static_cast (make_unsigned T) v = lor_bytes shift (static_cast (make_unsigned T) val) l i.
Proof.
  intros Hl Hb HT. revert i val Hl. induction Hb as [|d l Hd Hb IH]; intros i val Hl Hv Hs.
  { by exists val. }
  cbn [length InternalRead lor_bytes]. unfold Get, load.
  pose proof (Hl 0%nat d eq_refl) as H0. rewrite Nat.add_0_r in H0. rewrite H0.
  cbn [mbind option_bind]. cbn [length] in Hs.
  destruct (Hs i ltac:(lia)) as [Hs0 Hs8].
  destruct (c_shl_byte T d (shift i) Hd HT Hs0 Hs8) as (v & -> & Hv'). cbn [mbind option_bind].
  destruct (IH (S i) (static_cast T (c_or T (promote T) val v))) as (r & Hr & Rr & Er).
  - intros j e He. rewrite <- (Hl (S j) e He). f_equal. lia.
  - apply static_cast_range.
  - intros j Hj. apply Hs. lia.
  - exists r. split; [done|split; [done|]]. rewrite Er. f_equal.
    rewrite static_cast_trans by by rewrite width_make_unsigned.
    rewrite cast_or; [by rewrite Hv'|by destruct T|by destruct T].
Qed.

Lemma take_lookup (data : list Z) B j d : take B data !! j = Some d -> data !! (0 + j)%nat = Some d.
Proof. rewrite lookup_take_Some. intuition. Qed.

Lemma load_byte data (i : nat) :
  Forall is_byte data -> (i < length data)%nat -> exists d, load data i = Some d /\ is_byte d.
Proof.
  intros Hf Hi. destruct (lookup_lt_is_Some_2 data i Hi) as [d Hd].
  exists d. split; [done|]. by eapply Forall_lookup_1.
Qed.

(** One shifted byte of the unrolled readers. *)
Lemma Get_shl_spec T data i d s :
  load data i = Some d -> is_byte d -> 16 <= width T -> 0 <= s -> s + 8 <= width T ->
  exists v, Get_shl T data i s = Some v /\ static_cast (make_unsigned T) v = Z.shiftl d s.
Proof.
  intros Hd Hb HT Hs Hw. unfold Get_shl, Get. rewrite Hd. cbn [mbind option_bind].
  by apply c_shl_byte.
Qed.

Lemma Get_spec T data i d :
  load data i = Some d -> is_byte d -> 8 <= width T ->
  exists v, Get T data i = Some v /\ static_cast (make_unsigned T) v = d.
Proof.
  intros Hd Hb HT. unfold Get. rewrite Hd. exists (static_cast T d). split; [done|].
  rewrite static_cast_trans by by rewrite width_make_unsigned.
  apply static_cast_id. unfold is_byte in Hb. destruct T; limits; lia.
Qed.

(** Combining two terms whose casts are known. *)
Lemma or_spec T x y a b :
  32 <= width T -> static_cast (make_unsigned T) x = a -> static_cast (make_unsigned T) y = b ->
  static_cast (make_unsigned T) (c_or T T x y) = Z.lor a b.
Proof.
  intros HT <- <-. apply cast_or; destruct T; done || (cbn in HT; lia).
Qed.

Ltac byte_reads :=
  repeat match goal with
  | |- context [Get_shl ?T ?data ?i ?s] =>
      let v := fresh "v" in let Hv := fresh "Hv" in
      destruct (Get_shl_spec T data i _ s eq_refl ltac:(eassumption) ltac:(lia) ltac:(lia) ltac:(lia))
        as (v & -> & Hv); cbn [mbind option_bind]
  | |- context [Get ?T ?data ?i] =>
      let v := fresh "v" in let Hv := fresh "Hv" in
      destruct (Get_spec T data i _ eq_refl ltac:(eassumption) ltac:(lia)) as (v & -> & Hv);
      cbn [mbind option_bind]
  end;
  eexists; split; [reflexivity|split; [apply static_cast_range|]];
  rewrite static_cast_trans by by rewrite width_make_unsigned.

(** Shifted bytes joined from the left. *)
Fixpoint lor_chain (acc : Z) (l : list Z) : Z :=
  match l with [] => acc | x :: l => lor_chain (Z.lor acc x) l end.

Lemma lor_bytes_le_0 l :
  Forall is_byte l -> lor_bytes (fun i => Z.of_nat i * 8) 0 l 0 = le_value l.
Proof. intros Hl. rewrite lor_bytes_le by (done || (cbn; lia)). cbn. by destruct (le_value l). Qed.

Section Unrolled.
Context (T : int_type) (data : list Z).

Lemma Read4_spec d0 d1 d2 d3 :
  Forall is_byte [d0; d1; d2; d3] -> 32 <= width T ->
  (exists v, ReadBigEndian4 T (d0 :: d1 :: d2 :: d3 :: data) = Some v /\ InRange T v /\
     static_cast (make_unsigned T) v = be_value [d0; d1; d2; d3]) /\
  (exists v, ReadLittleEndian4 T (d0 :: d1 :: d2 :: d3 :: data) = Some v /\ InRange T v /\
     static_cast (make_unsigned T) v = le_value [d0; d1; d2; d3]).
Proof.
  intros Hb HT.
  assert (lor_chain (Z.shiftl d0 24) [Z.shiftl d1 16; Z.shiftl d2 8; d3] = be_value [d0; d1; d2; d3])
    as Hbe by exact (lor_bytes_be 4 0 _ 0 Hb eq_refl).
  assert (lor_chain d0 [Z.shiftl d1 8; Z.shiftl d2 16; Z.shiftl d3 24] = le_value [d0; d1; d2; d3])
    as Hle by exact (lor_bytes_le_0 _ Hb).
  rewrite !Forall_cons_iff in Hb. destruct Hb as (H0 & H1 & H2 & H3 & _).
  unfold ReadBigEndian4, ReadLittleEndian4, kSizeErrorMsg.
  assert ((4 <=? sizeof T) = true) as -> by (destruct T; try done; cbn in HT; lia).
  cbn [guard_b]. split; byte_reads.
  - rewrite <- Hbe. repeat apply or_spec; done.
  - rewrite <- Hle. repeat apply or_spec; done.
Qed.

Lemma Read8_spec d0 d1 d2 d3 d4 d5 d6 d7 :
  Forall is_byte [d0; d1; d2; d3; d4; d5; d6; d7] -> 64 <= width T ->
  (exists v, ReadBigEndian8 T (d0 :: d1 :: d2 :: d3 :: d4 :: d5 :: d6 :: d7 :: data) = Some v /\
     InRange T v /\ static_cast (make_unsigned T) v = be_value [d0; d1; d2; d3; d4; d5; d6; d7]) /\
  (exists v, ReadLittleEndian8 T (d0 :: d1 :: d2 :: d3 :: d4 :: d5 :: d6 :: d7 :: data) = Some v /\
     InRange T v /\ static_cast (make_unsigned T) v = le_value [d0; d1; d2; d3; d4; d5; d6; d7]).
Proof.
  intros Hb HT.
  assert (lor_chain (Z.shiftl d0 56) [Z.shiftl d1 48; Z.shiftl d2 40; Z.shiftl d3 32; Z.shiftl d4 24;
      Z.shiftl d5 16; Z.shiftl d6 8; d7] = be_value [d0; d1; d2; d3; d4; d5; d6; d7])
    as Hbe by exact (lor_bytes_be 8 0 _ 0 Hb eq_refl).
  assert (lor_chain d0 [Z.shiftl d1 8; Z.shiftl d2 16; Z.shiftl d3 24; Z.shiftl d4 32;
      Z.shiftl d5 40; Z.shiftl d6 48; Z.shiftl d7 56] = le_value [d0; d1; d2; d3; d4; d5; d6; d7])
    as Hle by exact (lor_bytes_le_0 _ Hb).
  rewrite !Forall_cons_iff in Hb. destruct Hb as (H0 & H1 & H2 & H3 & H4 & H5 & H6 & H7 & _).
  unfold ReadBigEndian8, ReadLittleEndian8, kSizeErrorMsg.
  assert ((8 <=? sizeof T) = true) as -> by (destruct T; try done; cbn in HT; lia).
  cbn [guard_b]. split; byte_reads.
  - rewrite <- Hbe. repeat apply or_spec; done || lia.
  - rewrite <- Hle. repeat apply or_spec; done || lia.
Qed.

(** The two-byte readers work in [int], whatever the result type. *)
Lemma Read2_spec d0 d1 :
  Forall is_byte [d0; d1] -> 16 <= width T ->
  (exists v, ReadBigEndian2 T (d0 :: d1 :: data) = Some v /\ InRange T v /\
     static_cast (make_unsigned T) v = be_value [d0; d1]) /\
  (exists v, ReadLittleEndian2 T (d0 :: d1 :: data) = Some v /\ InRange T v /\
     static_cast (make_unsigned T) v = le_value [d0; d1]).
Proof.
  intros Hb HT.
  assert (forall d, is_byte d -> c_shl Uint8 d 8 = Some (d * 2 ^ 8)) as Hs.
  { intros d Hd. unfold is_byte in Hd. unfold c_shl. cbn [promote].
    rewrite Z.shiftl_mul_pow2 by lia.
    replace ((8 <? 0) || (width Int32 <=? 8)) with false by done. cbn [is_signed].
    replace ((d <? 0) || (max (make_unsigned Int32) <? d * 2 ^ 8)) with false by (limits; lia).
    f_equal. apply static_cast_id. limits. lia. }
  assert (forall x y, is_byte x -> is_byte y ->
    c_or Int32 Uint8 (x * 2 ^ 8) y = x * 2 ^ 8 + y /\ c_or Uint8 Int32 y (x * 2 ^ 8) = x * 2 ^ 8 + y) as Ho.
  { intros x y Hx Hy. unfold is_byte in *. unfold c_or. cbv zeta. cbn [arith promote].
    rewrite !static_cast_id by (limits; lia). rewrite (Z.lor_comm (x * 2 ^ 8)).
    rewrite lor_shift_add by lia. lia. }
  rewrite !Forall_cons_iff in Hb. destruct Hb as (H0 & H1 & _).
  unfold ReadBigEndian2, ReadLittleEndian2, kSizeErrorMsg.
  assert ((2 <=? sizeof T) = true) as -> by (destruct T; try done; cbn in HT; lia).
  unfold load. cbn [guard_b lookup list_lookup mbind option_bind]. rewrite !Hs by done.
  cbn [mbind option_bind].
  destruct (Ho d0 d1 H0 H1) as [-> _], (Ho d1 d0 H1 H0) as [_ ->].
  split; eexists; (split; [reflexivity|split; [apply static_cast_range|]]);
    rewrite static_cast_trans by (by rewrite width_make_unsigned);
    unfold is_byte in *; unfold be_value; cbn [rev app le_value];
    (rewrite static_cast_id; [lia|destruct T; cbn in HT; try lia; limits; lia]).
Qed.

End Unrolled.

(** What a successful read delivers. *)
Definition reads (T : int_type) (r : option Z) (value : Z) : Prop :=
  exists v, r = Some v /\ InRange T v /\ static_cast (make_unsigned T) v = value.

Lemma generic_read T B data :
  2 <= Z.of_nat B <= sizeof T -> Forall is_byte data -> (B <= length data)%nat ->
  reads T (InternalReadBigEndian T B data) (be_value (take B data)) /\
  reads T (InternalReadLittleEndian T B data) (le_value (take B data)).
Proof.
  intros HB Hd Hl. pose proof (sizeof_width T) as Hw.
  assert (length (take B data) = B) as Hlen by (rewrite length_take; lia).
  assert (Forall is_byte (take B data)) as Ht by by apply Forall_take.
  pose proof (InRange_0 T) as H0.
  assert (static_cast (make_unsigned T) 0 = 0) as E0 by apply static_cast_id, InRange_0.
  split; unfold InternalReadBigEndian, InternalReadLittleEndian, reads.
  - destruct (InternalRead_spec T (fun i => (Z.of_nat B - 1 - Z.of_nat i) * 8) data (take B data) 0 0)
      as (v & Hv & Rv & Ev); [intros j d; apply take_lookup|done|lia|done|lia|].
    rewrite Hlen in Hv. exists v. split; [done|split; [done|]]. rewrite Ev, E0.
    exact (lor_bytes_be B 0 (take B data) 0 Ht Hlen).
  - destruct (InternalRead_spec T (fun i => Z.of_nat i * 8) data (take B data) 0 0)
      as (v & Hv & Rv & Ev); [intros j d; apply take_lookup|done|lia|done|lia|].
    rewrite Hlen in Hv. exists v. split; [done|split; [done|]]. rewrite Ev, E0.
    by apply lor_bytes_le_0.
Qed.

Lemma Read_unsigned_spec T B data :
  ok_size T B -> Forall is_byte data -> (B <= length data)%nat ->
  reads T (ReadBigEndian_unsigned T B data) (be_value (take B data)) /\
  reads T (ReadLittleEndian_unsigned T B data) (le_value (take B data)).
Proof.
  intros [[-> H1]|HB] Hd Hl; pose proof (sizeof_width T) as Hw.
  - destruct data as [|d0 data]; [cbn in Hl; lia|]. rewrite Forall_cons_iff in Hd.
    destruct Hd as [H0 _]. unfold is_byte in H0.
    cbn [ReadBigEndian_unsigned ReadLittleEndian_unsigned]. rewrite H1.
    cbn [kSizeErrorMsg guard_b Z.eqb Pos.eqb load lookup list_lookup mbind option_bind firstn].
    change (take 0 data) with (@nil Z).
    split; exists (static_cast T d0); (split; [done|split; [apply static_cast_range|]]);
      rewrite static_cast_trans by (by rewrite width_make_unsigned);
      (rewrite static_cast_id; [unfold be_value; cbn; lia|destruct T; try discriminate; limits; lia]).
  - assert (sizeof T <= 8) as H8 by (by destruct T).
    pose proof (generic_read T B data HB Hd Hl) as Hg.
    assert ((Z.of_nat B <=? sizeof T) = true) as Hok by lia.
    do 9 (try (destruct B as [|B]; [try lia|])); try lia;
      cbn [ReadBigEndian_unsigned ReadLittleEndian_unsigned]; unfold kSizeErrorMsg;
      rewrite ?Hok; cbn [guard_b]; try exact Hg; clear Hg.
    + destruct data as [|d0 [|d1 data]]; cbn in Hl; try lia. rewrite !Forall_cons_iff in Hd.
      apply (Read2_spec T data d0 d1); [rewrite !Forall_cons_iff; intuition|lia].
    + destruct data as [|d0 [|d1 [|d2 [|d3 data]]]]; cbn in Hl; try lia.
      rewrite !Forall_cons_iff in Hd.
      apply (Read4_spec T data d0 d1 d2 d3); [rewrite !Forall_cons_iff; intuition|lia].
    + destruct data as [|d0 [|d1 [|d2 [|d3 [|d4 [|d5 [|d6 [|d7 data]]]]]]]]; cbn in Hl; try lia.
      rewrite !Forall_cons_iff in Hd.
      apply (Read8_spec T data d0 d1 d2 d3 d4 d5 d6 d7); [rewrite !Forall_cons_iff; intuition|lia].
Qed.

(** Unsigned types read exactly the value. *)
Lemma reads_unsigned T r value :
  is_signed T = false -> reads T r value -> r = Some value.
Proof.
  intros HT (v & -> & Hv & <-). f_equal. symmetry.
  replace (make_unsigned T) with T by by destruct T. by apply static_cast_id.
Qed.

(** ** Signed values *)

(** The value of [B] bytes read as a two's complement number. *)
Definition signed_value (B : nat) (u : Z) : Z :=
  if u <? 2 ^ (8 * Z.of_nat B - 1) then u else u - 2 ^ (8 * Z.of_nat B).

Lemma mod_land x y w : 0 <= w -> Z.land x y mod 2 ^ w = Z.land (x mod 2 ^ w) (y mod 2 ^ w).
Proof.
  intros Hw. rewrite <- !Z.land_ones by done. apply Z.bits_inj'. intros i Hi.
  rewrite !Z.land_spec.
  by destruct (Z.testbit x i), (Z.testbit y i), (Z.testbit (Z.ones w) i).
Qed.

Lemma cast_and U t u x y :
  is_signed U = false -> width U <= width (arith t u) ->
  static_cast U (c_and t u x y) = Z.land (static_cast U x) (static_cast U y).
Proof.
  intros HU Hw. unfold c_and. cbv zeta.
  rewrite <- (static_cast_trans U (arith t u) x), <- (static_cast_trans U (arith t u) y) by done.
  unfold static_cast at 1 4 6. rewrite HU. apply mod_land. by destruct U.
Qed.

(** The complement of a mask, as a bit pattern of the type. *)
Lemma cast_not U m :
  is_signed U = false -> InRange U m -> static_cast U (c_not U m) = 2 ^ width U - 1 - m.
Proof.
  intros HU Hm. unfold c_not. rewrite static_cast_trans by by destruct U.
  apply (static_cast_unique _ _ _ 1); unfold Z.lnot; destruct U; try discriminate; limits; lia.
Qed.

(** A mask of one bit selects it. *)
Lemma land_pow2 u k : 0 <= k -> Z.land u (2 ^ k) = if Z.testbit u k then 2 ^ k else 0.
Proof.
  intros Hk. apply Z.bits_inj'. intros i Hi. rewrite Z.land_spec, Z.pow2_bits_eqb by done.
  destruct (Z.eqb_spec k i) as [<-|Hne].
  - rewrite andb_true_r. destruct (Z.testbit u k) eqn:E; [by rewrite Z.pow2_bits_true|by rewrite Z.bits_0].
  - rewrite andb_false_r. destruct (Z.testbit u k); [by rewrite Z.pow2_bits_false|by rewrite Z.bits_0].
Qed.

(** Clearing the bits of a mask subtracts the selected bits. *)
Lemma land_complement u m w :
  0 <= w -> 0 <= u < 2 ^ w -> 0 <= m < 2 ^ w -> Z.land u (2 ^ w - 1 - m) = u - Z.land u m.
Proof.
  intros Hw Hu Hm. rewrite <- (lxor_ones w m) by done.
  assert (Z.land u (Z.land u m) = Z.land u m) as Hi by (by rewrite Z.land_assoc, Z.land_diag).
  replace (2 ^ w - 1) with (Z.ones w) by (rewrite Z.ones_equiv; lia).
  rewrite (Z.sub_nocarry_ldiff u (Z.land u m)).
  - apply Z.bits_inj'. intros i Hi'. rewrite Z.ldiff_spec, !Z.land_spec, Z.lxor_spec.
    destruct (Z.lt_ge_cases i w).
    + rewrite Z.ones_spec_low by lia. by destruct (Z.testbit u i), (Z.testbit m i).
    + by rewrite (testbit_high w u).
  - apply Z.bits_inj'. intros i Hi'. rewrite Z.ldiff_spec, !Z.land_spec, Z.bits_0.
    by destruct (Z.testbit u i), (Z.testbit m i).
Qed.

Lemma ReinterpretAsSigned_spec T U u :
  UnsignedOf T = Some U -> InRange U u -> ReinterpretAsSigned T U u = Some (static_cast T u).
Proof.
  intros HU Hu. unfold ReinterpretAsSigned.
  assert (U = make_unsigned T /\ is_signed T = true) as [-> HT] by (destruct T; by inversion HU).
  pose proof (width_make_unsigned T) as Hw.
  assert (is_signed (make_unsigned T) = false) as HS by by destruct T.
  pose proof (pow2_split (width T) (width_pos T)) as Hp.
  assert (0 < 2 ^ (width T - 1)) by (destruct T; reflexivity).
  assert (max (make_unsigned T) = 2 ^ width T - 1 /\ lowest (make_unsigned T) = 0) as [Hmax Hlow]
    by by destruct T.
  assert (c_shl (make_unsigned T) (static_cast (make_unsigned T) 1) (sizeof (make_unsigned T) * 8 - 1)
    = Some (2 ^ (width T - 1))) as -> by (destruct T; try discriminate; reflexivity).
  assert (InRange (make_unsigned T) (2 ^ (width T - 1))) as Hm by (unfold InRange; lia).
  cbn [mbind option_bind]. cbv zeta. rewrite (static_cast_id _ (2 ^ (width T - 1))) by done.
  assert (0 <= u < 2 ^ width T) as Hub by (unfold InRange in Hu; lia).
  assert (c_and (make_unsigned T) (make_unsigned T) u (2 ^ (width T - 1)) =
    if 2 ^ (width T - 1) <=? u then 2 ^ (width T - 1) else 0) as ->.
  { unfold c_and. cbv zeta. rewrite !arith_cast_same by done.
    rewrite land_pow2 by (pose proof (width_pos T); lia).
    by rewrite testbit_top by (done || apply width_pos). }
  assert (forall z, static_cast T z = static_cast T (static_cast (make_unsigned T) z)) as Hc
    by (intros z; by rewrite static_cast_trans by lia).
  destruct (Z.leb_spec (2 ^ (width T - 1)) u) as [Hge|Hlt].
  - assert (c_eq (arith (make_unsigned T) (make_unsigned T)) Int32 (2 ^ (width T - 1)) 0 = false) as ->
      by (destruct T; try discriminate; reflexivity).
    cbn [negb]. f_equal. rewrite Hc. symmetry. rewrite Hc at 1. symmetry. f_equal.
    rewrite cast_or by (done || by destruct T).
    rewrite (static_cast_trans (make_unsigned T) T) by lia.
    rewrite cast_and, cast_not by (done || by destruct T). rewrite Hw.
    rewrite (static_cast_id (make_unsigned T) u) by done.
    rewrite land_complement by (lia || (pose proof (width_pos T); lia)).
    rewrite land_pow2, testbit_top by (done || apply width_pos || (pose proof (width_pos T); lia)).
    replace (2 ^ (width T - 1) <=? u) with true by lia.
    replace (static_cast (make_unsigned T) (lowest T)) with (1 * 2 ^ (width T - 1))
      by (destruct T; try discriminate; reflexivity).
    rewrite lor_shift_add by (pose proof (width_pos T); lia). lia.
  - assert (c_eq (arith (make_unsigned T) (make_unsigned T)) Int32 0 0 = true) as ->
      by (destruct T; try discriminate; reflexivity). done.
Qed.

(** The instantiations whose sign extension shifts an [int] by 32 or more. *)
Definition wide_partial (T : int_type) (B : nat) : bool := (4 <=? Z.of_nat B) && (Z.of_nat B <? sizeof T).

Lemma shr_top_byte B u :
  1 <= Z.of_nat B -> 0 <= u < 2 ^ (8 * Z.of_nat B) ->
  Z.shiftr u ((Z.of_nat B - 1) * 8) = u / 2 ^ (8 * Z.of_nat B - 8) /\
  0 <= u / 2 ^ (8 * Z.of_nat B - 8) < 256 /\
  (128 <=? u / 2 ^ (8 * Z.of_nat B - 8)) = (2 ^ (8 * Z.of_nat B - 1) <=? u).
Proof.
  intros HB Hu. set (k := 8 * Z.of_nat B - 8).
  assert (0 < 2 ^ k) as Hk by (apply Z.pow_pos_nonneg; lia).
  assert (2 ^ (8 * Z.of_nat B) = 256 * 2 ^ k) as E1
    by (replace (8 * Z.of_nat B) with (8 + k) by lia; by rewrite Z.pow_add_r by lia).
  assert (2 ^ (8 * Z.of_nat B - 1) = 2 ^ k * 128) as E2
    by (replace (8 * Z.of_nat B - 1) with (k + 7) by lia; by rewrite Z.pow_add_r by lia).
  split_and!.
  - rewrite Z.shiftr_div_pow2 by lia. f_equal. f_equal. lia.
  - apply Z.div_pos; lia.
  - apply Z.div_lt_upper_bound; lia.
  - rewrite le_div_iff by lia. by rewrite E2.
Qed.

Lemma SignExtend_spec T U B u :
  UnsignedOf T = Some U -> 2 <= Z.of_nat B < sizeof T -> 0 <= u < 2 ^ (8 * Z.of_nat B) ->
  SignExtend T U B u =
    if 2 ^ (8 * Z.of_nat B - 1) <=? u
    then if wide_partial T B then None else Some (u + 2 ^ width T - 2 ^ (8 * Z.of_nat B))
    else Some u.
Proof.
  intros HU HB Hu.
  assert (U = make_unsigned T /\ is_signed T = true) as [-> HT] by (destruct T; by inversion HU).
  assert (T = Int32 \/ T = Int64) as HT'
    by (pose proof (sizeof_width T); destruct T; cbn [width] in *; try lia; try discriminate;
        (by left) || (by right)).
  destruct (shr_top_byte B u ltac:(lia) Hu) as (Hs & Hb & Htop).
  unfold SignExtend, c_shr.
  assert (promote (make_unsigned T) = make_unsigned T /\ width (make_unsigned T) = width T) as [-> ->]
    by (by destruct HT' as [-> | ->]).
  pose proof (sizeof_width T) as Hw.
  replace (((Z.of_nat B - 1) * 8 <? 0) || (width T <=? (Z.of_nat B - 1) * 8)) with false by lia.
  cbn [mbind option_bind]. rewrite Hs. cbv zeta.
  rewrite (static_cast_id Uint8) by (limits; lia).
  set (msb := u / 2 ^ (8 * Z.of_nat B - 8)) in *.
  assert (c_eq Int32 Int32 (c_and Uint8 Int32 msb 128) 0 = (msb <? 128)) as ->.
  { unfold c_and. cbv zeta. cbn [arith promote]. rewrite !static_cast_id by (limits; lia).
    change 128 with (2 ^ 7) at 1. rewrite land_pow2 by lia.
    assert (Z.testbit msb 7 = (128 <=? msb)) as ->
      by exact (testbit_top 8 msb ltac:(lia) ltac:(cbn; lia)).
    change (2 ^ 7) with 128. destruct (Z.leb_spec 128 msb); cbv [c_eq c_cmp arith promote]; symmetry;
      [by apply Z.ltb_ge|by apply Z.ltb_lt]. }
  rewrite <- Htop, Z.ltb_antisym, negb_involutive.
  destruct (128 <=? msb) eqn:Emsb; [|done].
  rewrite (Z.mod_small (Z.of_nat B) (sizeof T)) by lia.
  unfold wide_partial. replace (Z.of_nat B <? sizeof T) with true by lia. rewrite andb_true_r.
  destruct (Z.leb_spec 4 (Z.of_nat B)) as [H4|H4].
  { unfold c_shl. cbn [promote]. by replace ((Z.of_nat B * 8 <? 0) || (width Int32 <=? Z.of_nat B * 8))
      with true by (cbn [width]; lia). }
  assert (B = 2%nat \/ B = 3%nat) as HB' by lia.
  assert (0 <= u < 2 ^ width T) as Hu'
    by (destruct HB' as [-> | ->], HT' as [-> | ->]; cbn in Hu; cbn; lia).
  assert ((one ← c_shl Int32 1 (Z.of_nat B * 8); c_sub Int32 Int32 one 1) =
    Some (2 ^ (8 * Z.of_nat B) - 1)) as Hmask by (by destruct HB' as [-> | ->]).
  unfold mbind, option_bind in Hmask |- *.
  destruct (c_shl Int32 1 (Z.of_nat B * 8)) as [one|]; [|discriminate]. rewrite Hmask.
  assert (InRange (make_unsigned T) (2 ^ (8 * Z.of_nat B) - 1)) as Rm
    by (destruct HB' as [-> | ->], HT' as [-> | ->]; cbn; limits; lia).
  rewrite (static_cast_id _ (2 ^ _ - 1)) by done.
  assert (is_signed (make_unsigned T) = false) as HS by by destruct T.
  f_equal. rewrite cast_or by (done || by destruct HT' as [-> | ->]).
  rewrite cast_not by done. rewrite width_make_unsigned.
  rewrite (static_cast_id _ u) by (destruct HT' as [-> | ->]; cbn in Hu'; limits; lia).
  rewrite Z.lor_comm.
  replace (2 ^ width T - 1 - (2 ^ (8 * Z.of_nat B) - 1))
    with ((2 ^ (width T - 8 * Z.of_nat B) - 1) * 2 ^ (8 * Z.of_nat B)).
  - rewrite lor_shift_add by lia. rewrite Z.mul_sub_distr_r, <- Z.pow_add_r by lia.
    replace (width T - 8 * Z.of_nat B + 8 * Z.of_nat B) with (width T) by lia. lia.
  - rewrite Z.mul_sub_distr_r, <- Z.pow_add_r by lia.
    replace (width T - 8 * Z.of_nat B + 8 * Z.of_nat B) with (width T) by lia. lia.
Qed.

(** What a signed read of [B] bytes with value [u] returns. *)
Definition signed_result (T : int_type) (B : nat) (u : Z) : option Z :=
  if wide_partial T B && (2 ^ (8 * Z.of_nat B - 1) <=? u) then None else Some (signed_value B u).

Lemma ReadSigned_spec read T B data u :
  is_signed T = true -> ok_size T B -> 0 <= u < 2 ^ (8 * Z.of_nat B) ->
  reads T (read T B data) u -> ReadSigned read T B data = signed_result T B u.
Proof.
  intros HT HB Hu (v & Hv & Rv & Ev). unfold ReadSigned. rewrite Hv.
  assert (exists U, UnsignedOf T = Some U /\ U = make_unsigned T) as (U & HU & EU)
    by (destruct T; try discriminate; eexists; split; reflexivity).
  rewrite HU. cbn [mbind option_bind]. cbv zeta. rewrite EU, Ev. rewrite <- EU.
  pose proof (sizeof_width T) as Hw.
  assert (1 <= Z.of_nat B <= sizeof T) as HBb by (destruct HB as [[-> ->]|]; lia).
  assert (2 ^ (8 * Z.of_nat B) <= 2 ^ width T) by (apply Z.pow_le_mono_r; lia).
  assert (2 ^ (8 * Z.of_nat B) = 2 * 2 ^ (8 * Z.of_nat B - 1)) as Hp by (apply pow2_split; lia).
  assert (lowest U = 0 /\ max U = 2 ^ width T - 1) as [Hlo Hmx] by (subst U; by destruct T).
  assert (lowest T = - 2 ^ (width T - 1) /\ max T = 2 ^ (width T - 1) - 1) as [Hlo' Hmx']
    by (unfold lowest, max; by rewrite HT).
  assert (2 ^ (8 * Z.of_nat B - 1) <= 2 ^ (width T - 1)) by (apply Z.pow_le_mono_r; lia).
  unfold signed_result, signed_value, wide_partial.
  rewrite (Z.ltb_antisym (2 ^ (8 * Z.of_nat B - 1)) u).
  destruct (Z.ltb_spec (Z.of_nat B) (sizeof T)) as [Hlt|Hge].
  - assert (2 <= Z.of_nat B < sizeof T) by (destruct HB as [[-> HB]|]; lia).
    rewrite (SignExtend_spec T U B u HU) by done. unfold wide_partial.
    replace (Z.of_nat B <? sizeof T) with true by lia. rewrite andb_true_r.
    destruct (Z.leb_spec (2 ^ (8 * Z.of_nat B - 1)) u) as [Hn|Hn]; rewrite ?andb_true_r, ?andb_false_r;
      cbn [negb].
    + destruct (4 <=? Z.of_nat B); [done|].
      cbn [mbind option_bind].
      rewrite (ReinterpretAsSigned_spec T U) by (done || (unfold InRange; lia)). f_equal.
      apply (static_cast_unique _ _ _ (-1)); [unfold InRange; lia|]. lia.
    + cbn [mbind option_bind].
      rewrite (ReinterpretAsSigned_spec T U) by (done || (unfold InRange; lia)). f_equal.
      apply static_cast_id. unfold InRange; lia.
  - rewrite andb_false_r. cbn [andb].
    cbn [mbind option_bind].
      rewrite (ReinterpretAsSigned_spec T U) by (done || (unfold InRange; lia)). f_equal.
    assert (width T = 8 * Z.of_nat B) as E by lia. rewrite E in *.
    destruct (Z.leb_spec (2 ^ (8 * Z.of_nat B - 1)) u); cbn [negb].
    + apply (static_cast_unique _ _ _ (-1)); [unfold InRange; lia|]. rewrite E. lia.
    + apply static_cast_id. unfold InRange; lia.
Qed.

(** ** The writers *)

(** The [n] low bytes of a value, least significant first. *)
Fixpoint le_bytes (n : nat) (v : Z) : list Z :=
  match n with O => [] | S n => v mod 256 :: le_bytes n (v / 256) end.
Definition be_bytes (n : nat) (v : Z) : list Z := rev (le_bytes n v).

Lemma length_le_bytes n v : length (le_bytes n v) = n.
Proof. revert v. induction n as [|n IH]; intros v; cbn; [done|by rewrite IH]. Qed.

Lemma le_bytes_lookup n v j :
  (j < n)%nat -> le_bytes n v !! j = Some ((v / 2 ^ (8 * Z.of_nat j)) mod 256).
Proof.
  revert v j. induction n as [|n IH]; intros v j Hj; [lia|]. destruct j as [|j]; cbn [le_bytes].
  - change (Some (v mod 256) = Some ((v / 1) mod 256)). by rewrite Z.div_1_r.
  - change ((v mod 256 :: le_bytes n (v / 256)) !! S j) with (le_bytes n (v / 256) !! j).
    rewrite IH by lia. rewrite pow256. by rewrite Z.div_div by lia.
Qed.

Lemma le_bytes_are_bytes n v : Forall is_byte (le_bytes n v).
Proof.
  revert v. induction n as [|n IH]; intros v; cbn [le_bytes]; constructor; [|done].
  unfold is_byte. apply Z.mod_pos_bound. lia.
Qed.

Lemma le_value_le_bytes n v : le_value (le_bytes n v) = v mod 2 ^ (8 * Z.of_nat n).
Proof.
  revert v. induction n as [|n IH]; intros v; cbn [le_bytes le_value]; [by rewrite Z.mod_1_r|].
  rewrite IH, pow256. rewrite Z.rem_mul_r by lia. lia.
Qed.

Lemma be_value_be_bytes n v : be_value (be_bytes n v) = v mod 2 ^ (8 * Z.of_nat n).
Proof. unfold be_value, be_bytes. by rewrite rev_involutive, le_value_le_bytes. Qed.

Lemma store_byte T v s data i :
  is_signed T = false -> 0 <= s < width (promote T) -> (i < length data)%nat ->
  store_shr T v data i s = Some (<[i := (v / 2 ^ s) mod 256]> data).
Proof.
  intros HT Hs Hi. unfold store_shr, c_shr, store.
  replace ((s <? 0) || (width (promote T) <=? s)) with false by lia. cbn [mbind option_bind].
  replace (i <? length data)%nat with true by (symmetry; apply Nat.ltb_lt; lia).
  rewrite Z.shiftr_div_pow2 by lia. done.
Qed.

Lemma store_plain T v data i :
  is_signed T = false -> (i < length data)%nat -> store data i v = store_shr T v data i 0.
Proof.
  intros HT Hi. rewrite store_byte by (done || (destruct T; cbn; lia)).
  unfold store. replace (i <? length data)%nat with true by (symmetry; apply Nat.ltb_lt; lia).
  by rewrite Z.div_1_r.
Qed.

Lemma InternalWrite_spec T shift v n i data :
  is_signed T = false -> (i + n <= length data)%nat ->
  (forall j, (i <= j < i + n)%nat -> 0 <= shift j < width (promote T)) ->
  exists r, InternalWrite T shift v data n i = Some r /\ length r = length data /\
    forall j, r !! j = if decide (i <= j < i + n)%nat then Some ((v / 2 ^ shift j) mod 256)
                       else data !! j.
Proof.
  intros HT. revert i data. induction n as [|n IH]; intros i data Hl Hs; cbn [InternalWrite].
  { exists data. split; [done|split; [done|]]. intros j. by rewrite decide_False by lia. }
  rewrite store_byte by (done || (apply Hs; lia) || lia). cbn [mbind option_bind].
  destruct (IH (S i) (<[i := (v / 2 ^ shift i) mod 256]> data)) as (r & -> & Hlen & Hlook).
  - rewrite length_insert. lia.
  - intros j Hj. apply Hs. lia.
  - exists r. split; [done|split; [by rewrite Hlen, length_insert|]]. intros j. rewrite Hlook.
    destruct (decide (i = j)) as [<-|Hne].
    + rewrite decide_False, decide_True by lia. by rewrite list_lookup_insert_eq by lia.
    + rewrite list_lookup_insert_ne by done. by repeat case_decide; lia || done.
Qed.

(** The unrolled writers are the loop. *)
Lemma Write_unsigned_loop T B data v :
  is_signed T = false -> ok_size T B -> (B <= length data)%nat ->
  WriteBigEndian_unsigned T B data v =
    InternalWrite T (fun i => (Z.of_nat B - 1 - Z.of_nat i) * 8) v data B 0 /\
  WriteLittleEndian_unsigned T B data v = InternalWrite T (fun i => Z.of_nat i * 8) v data B 0.
Proof.
  intros HT HB Hl. pose proof (sizeof_width T) as Hw.
  assert (sizeof T <= 8) as H8 by (by destruct T).
  assert (1 <= Z.of_nat B <= sizeof T) as HBb by (destruct HB as [[-> ->]|]; lia).
  assert (forall k, k = Z.of_nat B -> (k <=? sizeof T) = true) as Hok by lia.
  assert (B = 1%nat -> (sizeof T =? 1) = true) as H1 by (destruct HB as [[_ ->]|]; lia).
  assert (forall data s j, 0 <= s < width T -> (j < length data)%nat ->
    exists d, store_shr T v data j s = Some d /\ length d = length data) as Hstore.
  { intros d s j Hs Hj. rewrite store_byte by (done || (destruct T; cbn in *; lia)).
    eexists. split; [done|apply length_insert]. }
  do 9 (try (destruct B as [|B]; [try lia|])); try lia;
    cbn [WriteBigEndian_unsigned WriteLittleEndian_unsigned]; unfold kSizeErrorMsg;
    rewrite ?H1, ?Hok by done; cbn [guard_b]; try done;
    split; cbn [InternalWrite];
    repeat match goal with
    | |- context [(Z.of_nat ?a - 1 - Z.of_nat ?b) * 8] =>
        let x := eval vm_compute in ((Z.of_nat a - 1 - Z.of_nat b) * 8) in
        change ((Z.of_nat a - 1 - Z.of_nat b) * 8) with x
    | |- context [Z.of_nat ?b * 8] =>
        let x := eval vm_compute in (Z.of_nat b * 8) in change (Z.of_nat b * 8) with x
    end;
    repeat match goal with
    | |- context [store ?d ?i v] => rewrite (store_plain T v d i) by (done || lia)
    | |- context [store_shr T v ?d ?i ?s] =>
        let E := fresh "E" in
        destruct (Hstore d s i ltac:(lia) ltac:(lia)) as (? & E & ?);
        rewrite !E; cbn [mbind option_bind]
    end; done.
Qed.

Lemma be_bytes_lookup n v j :
  (j < n)%nat -> be_bytes n v !! j = Some ((v / 2 ^ ((Z.of_nat n - 1 - Z.of_nat j) * 8)) mod 256).
Proof.
  intros Hj. unfold be_bytes. rewrite rev_alt. change (rev_append (le_bytes n v) [])
    with (reverse (le_bytes n v)).
  rewrite reverse_lookup by by rewrite length_le_bytes.
  rewrite length_le_bytes, le_bytes_lookup by lia. do 4 f_equal. lia.
Qed.

Lemma Write_unsigned_spec T B data v :
  is_signed T = false -> ok_size T B -> (B <= length data)%nat ->
  WriteBigEndian_unsigned T B data v = Some (be_bytes B v ++ drop B data) /\
  WriteLittleEndian_unsigned T B data v = Some (le_bytes B v ++ drop B data).
Proof.
  intros HT HB Hl. destruct (Write_unsigned_loop T B data v HT HB Hl) as [-> ->].
  pose proof (sizeof_width T) as Hw.
  assert (1 <= Z.of_nat B <= sizeof T) as HBb by (destruct HB as [[-> ->]|]; lia).
  assert (width T <= width (promote T)) as Hp by by destruct T.
  assert (forall bytes r shift, length bytes = B ->
    (forall j, (j < B)%nat -> bytes !! j = Some ((v / 2 ^ shift j) mod 256)) ->
    (forall j, r !! j = if decide (0 <= j < 0 + B)%nat then Some ((v / 2 ^ shift j) mod 256)
                        else data !! j) -> r = bytes ++ drop B data) as Heq.
  { intros bytes r shift Hlen Hb Hr. apply list_eq. intros j. rewrite Hr.
    destruct (decide (j < B)%nat) as [Hj|Hj].
    - rewrite decide_True by lia. rewrite lookup_app_l by lia. by rewrite Hb.
    - rewrite decide_False by lia. rewrite lookup_app_r by lia. rewrite lookup_drop.
      f_equal. lia. }
  split.
  - destruct (InternalWrite_spec T (fun i => (Z.of_nat B - 1 - Z.of_nat i) * 8) v B 0 data HT)
      as (r & -> & Hlen & Hr); [lia|lia|]. f_equal.
    eapply Heq; [unfold be_bytes; by rewrite length_rev, length_le_bytes| |exact Hr].
    intros j Hj. by apply be_bytes_lookup.
  - destruct (InternalWrite_spec T (fun i => Z.of_nat i * 8) v B 0 data HT)
      as (r & -> & Hlen & Hr); [lia|lia|]. f_equal.
    eapply Heq; [by rewrite length_le_bytes| |exact Hr].
    intros j Hj. rewrite le_bytes_lookup by done. by rewrite Z.mul_comm.
Qed.

(** The bytes written for a value: those of its two's complement pattern. *)
Lemma Write_spec T B data v :
  ok_size T B -> (B <= length data)%nat -> InRange T v ->
  WriteBigEndian T B data v = Some (be_bytes B (static_cast (make_unsigned T) v) ++ drop B data) /\
  WriteLittleEndian T B data v = Some (le_bytes B (static_cast (make_unsigned T) v) ++ drop B data).
Proof.
  intros HB Hl Hv. unfold WriteBigEndian, WriteLittleEndian, ReinterpretAsUnsigned.
  assert (ok_size (make_unsigned T) B) as HB' by (unfold ok_size, sizeof; by rewrite width_make_unsigned).
  destruct (is_signed T) eqn:HT.
  - assert (UnsignedOf T = Some (make_unsigned T)) as -> by by destruct T.
    cbn [mbind option_bind]. apply Write_unsigned_spec; [by destruct T|done..].
  - replace (make_unsigned T) with T in * by by destruct T. rewrite (static_cast_id T v) by done.
    by apply Write_unsigned_spec.
Qed.

Lemma Read_spec T B data :
  ok_size T B -> Forall is_byte data -> (B <= length data)%nat ->
  let result u := if is_signed T then signed_result T B u else Some u in
  ReadBigEndian T B data = result (be_value (take B data)) /\
  ReadLittleEndian T B data = result (le_value (take B data)).
Proof.
  intros HB Hd Hl. destruct (Read_unsigned_spec T B data HB Hd Hl) as [Hbe Hle].
  assert (Forall is_byte (take B data)) as Ht by by apply Forall_take.
  pose proof (be_value_bound _ Ht) as Bb. pose proof (le_value_bound _ Ht) as Bl.
  rewrite length_take, Nat.min_l in Bb, Bl by lia.
  cbv zeta. unfold ReadBigEndian, ReadLittleEndian. destruct (is_signed T) eqn:HT.
  - split; by apply ReadSigned_spec.
  - split; by apply reads_unsigned with (T := T).
Qed.

(** [v] is representable in [B] bytes of the signedness of [T]. *)
Definition fits_bytes (T : int_type) (B : nat) (v : Z) : Prop :=
  if is_signed T then - 2 ^ (8 * Z.of_nat B - 1) <= v < 2 ^ (8 * Z.of_nat B - 1)
  else 0 <= v < 2 ^ (8 * Z.of_nat B).

(** The two's complement pattern of [B] bytes has the value. *)
Lemma pattern_value T B v :
  1 <= Z.of_nat B <= sizeof T -> fits_bytes T B v -> (wide_partial T B = false \/ 0 <= v) ->
  (if is_signed T then signed_result T B (static_cast (make_unsigned T) v mod 2 ^ (8 * Z.of_nat B))
   else Some (static_cast (make_unsigned T) v mod 2 ^ (8 * Z.of_nat B))) = Some v.
Proof.
  intros HB Hv Hwp. pose proof (sizeof_width T) as Hw.
  assert (static_cast (make_unsigned T) v mod 2 ^ (8 * Z.of_nat B) = v mod 2 ^ (8 * Z.of_nat B)) as ->.
  { unfold static_cast. rewrite width_make_unsigned.
    replace (is_signed (make_unsigned T)) with false by by destruct T.
    replace (width T) with (width T - 8 * Z.of_nat B + 8 * Z.of_nat B) by lia.
    rewrite Z.pow_add_r by lia. rewrite (Z.mul_comm (2 ^ (_ - _))).
    assert (0 < 2 ^ (8 * Z.of_nat B)) by (apply Z.pow_pos_nonneg; lia).
    assert (0 < 2 ^ (width T - 8 * Z.of_nat B)) by (apply Z.pow_pos_nonneg; lia).
    rewrite Z.rem_mul_r by lia. rewrite (Z.mul_comm _ (_ mod _)), Z.mod_add by lia.
    apply Z.mod_mod. lia. }
  assert (2 ^ (8 * Z.of_nat B) = 2 * 2 ^ (8 * Z.of_nat B - 1)) as Hp by (apply pow2_split; lia).
  unfold fits_bytes in Hv. destruct (is_signed T).
  - unfold signed_result, signed_value. destruct (Z.lt_ge_cases v 0).
    + assert (v mod 2 ^ (8 * Z.of_nat B) = v + 2 ^ (8 * Z.of_nat B)) as ->
        by (symmetry; apply (Z.mod_unique _ _ (-1)); lia).
      destruct Hwp as [-> | ?]; [|lia]. cbn [andb].
      replace (v + 2 ^ (8 * Z.of_nat B) <? 2 ^ (8 * Z.of_nat B - 1)) with false by lia.
      f_equal. lia.
    + rewrite Z.mod_small by lia.
      replace (2 ^ (8 * Z.of_nat B - 1) <=? v) with false by lia. rewrite andb_false_r.
      by replace (v <? 2 ^ (8 * Z.of_nat B - 1)) with true by lia.
  - by rewrite Z.mod_small.
Qed.

(** ** Main results *)

(** For unsigned types, a read of [B] bytes in either order is defined for
    every instantiation the static assertions accept and returns the number that
    the bytes denote in that order; the unrolled specializations and the general
    loop agree. *)
Theorem ByteReader_unsigned_value T B data :
  is_signed T = false -> ok_size T B -> Forall is_byte data -> (B <= length data)%nat ->
  ReadBigEndian T B data = Some (be_value (take B data)) /\
  ReadLittleEndian T B data = Some (le_value (take B data)).
Proof.
  intros HT HB Hd Hl. destruct (Read_spec T B data HB Hd Hl) as [-> ->]. by rewrite HT.
Qed.

Lemma ByteReader_unsigned_value_witness :
  ok_size Uint32 3 /\ ReadBigEndian Uint32 3 [1; 2; 3; 4] = Some 66051.
Proof.
  assert (ok_size Uint32 3) as H by (right; vm_compute; split; discriminate).
  split; [exact H|].
  exact (proj1 (ByteReader_unsigned_value Uint32 3 [1; 2; 3; 4] eq_refl H
    ltac:(repeat constructor; unfold is_byte; lia) ltac:(cbn; lia))).
Defined.

(** For signed types, a read returns the two's complement value of the bytes,
    sign-extended, except that reading a negative number of 4 to 7 bytes into an
    [int64_t] is undefined behaviour: the mask of the used bits is computed by
    shifting the [int] 1 by 32 or more. *)
Theorem ByteReader_signed_value T B data :
  is_signed T = true -> ok_size T B -> Forall is_byte data -> (B <= length data)%nat ->
  let top u := 2 ^ (8 * Z.of_nat B - 1) <=? u in
  let result u := if (4 <=? Z.of_nat B) && (Z.of_nat B <? sizeof T) && top u then None
                  else Some (if top u then u - 2 ^ (8 * Z.of_nat B) else u) in
  ReadBigEndian T B data = result (be_value (take B data)) /\
  ReadLittleEndian T B data = result (le_value (take B data)).
Proof.
  intros HT HB Hd Hl. destruct (Read_spec T B data HB Hd Hl) as [-> ->]. rewrite HT.
  cbv zeta. unfold signed_result, signed_value, wide_partial.
  rewrite !(Z.ltb_antisym (2 ^ (8 * Z.of_nat B - 1))).
  split; destruct (_ && _); try done; by destruct (_ <=? _).
Qed.

Lemma ByteReader_signed_value_witness :
  ok_size Int64 5 /\ ReadBigEndian Int64 5 [255; 255; 255; 255; 254] = None.
Proof.
  assert (ok_size Int64 5) as H by (right; vm_compute; split; discriminate).
  split; [exact H|].
  exact (proj1 (ByteReader_signed_value Int64 5 [255; 255; 255; 255; 254] eq_refl H
    ltac:(repeat constructor; unfold is_byte; lia) ltac:(cbn; lia))).
Defined.

(** C5: what a writer stores in data of at least [B] bytes, the reader of the same
    type, size and order reads back, for every value that fits the bytes, and the
    writer changes no byte beyond the first [B].  Negative values of a signed 64-bit
    type in four to seven bytes ([wide_partial]) are excluded: the bytes are stored,
    and reading them is undefined ([ByteReader_signed_value]). *)
Theorem ByteIO_roundtrip T B data v :
  ok_size T B -> Forall is_byte data -> (B <= length data)%nat -> InRange T v ->
  fits_bytes T B v -> (wide_partial T B = false \/ 0 <= v) ->
  (exists d, WriteBigEndian T B data v = Some d /\ ReadBigEndian T B d = Some v /\
     drop B d = drop B data /\ length d = length data) /\
  (exists d, WriteLittleEndian T B data v = Some d /\ ReadLittleEndian T B d = Some v /\
     drop B d = drop B data /\ length d = length data).
Proof.
  intros HB Hd Hl Hv Hf Hwp. destruct (Write_spec T B data v HB Hl Hv) as [-> ->].
  assert (1 <= Z.of_nat B <= sizeof T) as HBb by (destruct HB as [[-> ->]|]; lia).
  set (u := static_cast (make_unsigned T) v).
  assert (length (be_bytes B u) = B) as Lb by (unfold be_bytes; by rewrite length_rev, length_le_bytes).
  pose proof (length_le_bytes B u) as Ll.
  assert (Forall is_byte (be_bytes B u ++ drop B data) /\ Forall is_byte (le_bytes B u ++ drop B data))
    as [Fb Fl].
  { pose proof (le_bytes_are_bytes B u). split; apply Forall_app_2; try by apply Forall_drop; try done.
    - by apply Forall_rev.
    - done. }
  split; eexists; (split; [done|]).
  - destruct (Read_spec T B (be_bytes B u ++ drop B data) HB Fb) as [-> _];
      [rewrite length_app, Lb; lia|].
    rewrite take_app_length' by done. rewrite drop_app_length' by done.
    rewrite be_value_be_bytes, length_app, Lb, length_drop.
    split; [by apply pattern_value|split; [done|lia]].
  - destruct (Read_spec T B (le_bytes B u ++ drop B data) HB Fl) as [_ ->];
      [rewrite length_app, Ll; lia|].
    rewrite take_app_length' by done. rewrite drop_app_length' by done.
    rewrite le_value_le_bytes, length_app, Ll, length_drop.
    split; [by apply pattern_value|split; [done|lia]].
Qed.

Lemma ByteIO_roundtrip_witness :
  ok_size Int32 3 /\ InRange Int32 (-2) /\
  exists d, WriteBigEndian Int32 3 [0; 0; 0; 7] (-2) = Some d /\ ReadBigEndian Int32 3 d = Some (-2).
Proof.
  assert (ok_size Int32 3) as H1 by (right; vm_compute; split; discriminate).
  assert (InRange Int32 (-2)) as H2 by (limits; lia).
  split; [exact H1|split; [exact H2|]].
  destruct (ByteIO_roundtrip Int32 3 [0; 0; 0; 7] (-2) H1
    ltac:(repeat constructor; unfold is_byte; lia) ltac:(cbn; lia) H2
    ltac:(vm_compute; split; [discriminate|reflexivity]) ltac:(left; reflexivity))
    as ((d & Hw & Hr & _) & _).
  exists d. split; [exact Hw|exact Hr].
Defined.
