(* ===== verification/HResult.v ===== *)
(** * HResult: result codes of the Media Foundation components

    The [HRESULT]s the H264 encoder and decoder of
    patches_for_WebRTC_org/m84/src/modules/video_coding/codecs/h264/win return and
    compare with, and the macro [ON_SUCCEEDED] of utils/utils.h as it is in a release
    build (a debug build also stops in the debugger when a step fails). *)

From S2P Require Import Prelude.

(** [Other code] is any other value, a failure when it is negative as an [int32_t]. *)
Inductive HRESULT :=
  | S_OK | E_INVALIDARG | E_POINTER | MF_E_SHUTDOWN | MF_E_NOT_INITIALIZED | MF_E_INVALIDREQUEST
  | MF_E_INVALIDTYPE | MF_E_NO_MORE_TYPES | MF_E_STREAMSINK_EXISTS | MF_E_INVALIDINDEX
  | MF_E_INVALIDSTREAMNUMBER | MF_E_NO_CLOCK | MF_E_INVALID_STATE_TRANSITION | MF_E_NOTACCEPTING
  | MF_E_ATTRIBUTENOTFOUND
  | MF_E_TRANSFORM_STREAM_CHANGE | MF_E_TRANSFORM_NEED_MORE_INPUT
  | Other (code : Z).

#[export] Instance HRESULT_eq_dec : EqDecision HRESULT.
Proof. solve_decision. Defined.

Definition SUCCEEDED (hr : HRESULT) : bool :=
  match hr with S_OK => true | Other code => 0 <=? code | _ => false end.
Definition FAILED (hr : HRESULT) : bool := negb (SUCCEEDED hr).

(** [ON_SUCCEEDED(act)]: the action is run, and its result kept, only after success;
    the state is what the action changes. *)
Definition ON_SUCCEEDED {S} (r : HRESULT * S) (act : S -> exec (HRESULT * S)) : exec (HRESULT * S) :=
  if SUCCEEDED r.1 then act r.2 else Done r.

(** [if (SUCCEEDED(hr)) { hr = act; }] for an action that cannot go wrong. *)
Definition if_succeeded {S} (r : HRESULT * S) (act : S -> HRESULT * S) : HRESULT * S :=
  if SUCCEEDED r.1 then act r.2 else r.

Lemma ON_SUCCEEDED_ok {S} (s : S) act : ON_SUCCEEDED (S_OK, s) act = act s.
Proof. reflexivity. Qed.

Lemma ON_SUCCEEDED_failed {S} hr (s : S) act :
  SUCCEEDED hr = false -> ON_SUCCEEDED (hr, s) act = Done (hr, s).
Proof. unfold ON_SUCCEEDED. cbn. by intros ->. Qed.

Lemma if_succeeded_failed {S} hr (s : S) act :
  SUCCEEDED hr = false -> if_succeeded (hr, s) act = (hr, s).
Proof. unfold if_succeeded. cbn. by intros ->. Qed.

(** Results of [exec]. *)
Lemma Done_inj {A} (a b : A) : Done a = Done b -> a = b.
Proof. congruence. Qed.
