(* ===== verification/FloatTypes.v ===== *)
(** * FloatTypes: float and double

    The floating-point types of C++ as the compilers of this program implement them:
    IEEE 754 binary32 and binary64, round to nearest even, on the specification of the
    Standard Library.  Like [IntTypes] this file models the language. *)

From S2P Require Import Prelude IntTypes.
From Stdlib Require Export SpecFloat.
Open Scope Z_scope.

(** Precision and largest exponent. *)
Record float_type := mkFloatType { mantissa : Z; exponent : Z }.
Definition Float : float_type := mkFloatType 24 128.
Definition Double : float_type := mkFloatType 53 1024.

(** An integer operand converted to a floating-point type. *)
Definition of_int (f : float_type) (z : Z) : spec_float := binary_normalize (mantissa f) (exponent f) z 0 false.

Definition f_mul (f : float_type) := SFmul (mantissa f) (exponent f).
Definition f_div (f : float_type) := SFdiv (mantissa f) (exponent f).
Definition f_add (f : float_type) := SFadd (mantissa f) (exponent f).
Definition f_sub (f : float_type) := SFsub (mantissa f) (exponent f).
Definition f_gt (x y : spec_float) : bool := SFltb y x.
Definition f_eq : spec_float -> spec_float -> bool := SFeqb.

(** The integer part, if there is one. *)
Definition truncate (x : spec_float) : option Z :=
  match x with
  | S754_zero _ => Some 0
  | S754_finite s m e =>
      Some (cond_Zopp s (if 0 <=? e then Z.pos m * 2 ^ e else Z.pos m / 2 ^ (- e)))
  | S754_infinity _ | S754_nan => None
  end.

(** Conversion to an integer type: undefined when the integer part does not fit. *)
Definition float_to_int (t : int_type) (x : spec_float) : option Z :=
  z ← truncate x; guard_b (in_range t z) (Some z).

(** ** Signs *)

Definition nonnegative (x : spec_float) : bool :=
  match x with S754_zero s | S754_infinity s | S754_finite s _ _ => negb s | S754_nan => true end.

Lemma binary_round_aux_nonnegative prec emax m e l : nonnegative (binary_round_aux prec emax false m e l) = true.
Proof.
  unfold binary_round_aux. destruct (shr_fexp prec emax m e l) as [r e1].
  destruct (shr_fexp prec emax (round_nearest_even (shr_m r) (loc_of_shr_record r)) e1 loc_Exact) as [r2 e2].
  destruct (shr_m r2); [done| |done]. by destruct (e2 <=? emax - prec).
Qed.

Lemma of_int_nonnegative f z : 0 <= z -> nonnegative (of_int f z) = true.
Proof.
  unfold of_int. destruct z as [|m|m]; [done| |lia]. intros _. cbn. unfold binary_round.
  destruct (shl_align _ _ _). apply binary_round_aux_nonnegative.
Qed.

Lemma f_mul_nonnegative f x y : nonnegative x = true -> nonnegative y = true -> nonnegative (f_mul f x y) = true.
Proof.
  destruct x as [[]|[]| |[] m e], y as [[]|[]| |[] m' e']; try done. intros _ _. apply binary_round_aux_nonnegative.
Qed.

(** Nothing nonnegative is below zero. *)
Lemma zero_not_gt x s : nonnegative x = true -> f_gt (S754_zero s) x = false.
Proof. by destruct x as [[]|[]| |[] m e]. Qed.
