(* ===== verification/FloatRounding.v ===== *)
(** * FloatRounding: what the operations on doubles compute

    Every finite double is an integer multiple of 2^-1074, so the value of a nonnegative
    one is an integer in this unit ([double_val]) and an exact result is a fraction of
    such integers.  [rounds n d x] says that [x] is a rounding of [n / d] as far as
    bounds are concerned: on a grid that is coarse enough for the magnitude of [n / d],
    rounding does not cross a point of the grid, and keeps a point of the grid.  It is
    shown of the conversion of an integer, the sum and the quotient, and is all that
    the clients need: there are no real numbers. *)

From S2P Require Import Prelude IntTypes FloatTypes.
Open Scope Z_scope.

(** The unit is [2 ^ - unit_exp]. *)
Definition unit_exp : Z := 1074.

Definition double_val (x : spec_float) : option Z :=
  match x with
  | S754_zero false => Some 0
  | S754_finite false m e => if - unit_exp <=? e then Some (Z.pos m * 2 ^ (e + unit_exp)) else None
  | _ => None
  end.

Definition rounds (n d : Z) (x : spec_float) : Prop :=
  exists V, double_val x = Some V /\
  forall b k g, 0 <= k -> b <= k + 53 -> n < d * 2 ^ b ->
    (g * 2 ^ k * d <= n -> g * 2 ^ k <= V) /\
    (n < g * 2 ^ k * d -> V <= g * 2 ^ k) /\
    (n = g * 2 ^ k * d -> V = g * 2 ^ k).

(** ** Digits *)

Lemma digits2_pos_bounds p : 2 ^ (Z.pos (digits2_pos p) - 1) <= Z.pos p < 2 ^ Z.pos (digits2_pos p).
Proof.
  induction p as [p IH|p IH|]; cbn [digits2_pos]; [| |by vm_compute].
  all: rewrite Pos2Z.inj_succ, <- Z.add_1_r, Z.add_simpl_r, Z.pow_add_r, Z.pow_1_r by lia.
  all: rewrite (pow2_split (Z.pos (digits2_pos p))) in IH |- * by lia; lia.
Qed.

Lemma Zdigits2_bounds m : 0 < m -> 2 ^ (Zdigits2 m - 1) <= m < 2 ^ Zdigits2 m.
Proof. destruct m; try lia. intros _. apply digits2_pos_bounds. Qed.

Lemma Zdigits2_nonneg m : 0 <= m -> 0 <= Zdigits2 m.
Proof. destruct m; cbn; lia. Qed.

(** ** Right shifts that remember what they lost *)

Lemma iter_pos_nat {A} (f : A -> A) p x : iter_pos f p x = Nat.iter (Pos.to_nat p) f x.
Proof.
  revert x. induction p as [p IH|p IH|]; intros x; cbn [iter_pos]; [| |done].
  - rewrite !IH, <- Nat.iter_succ_r, Pos2Nat.inj_xI, <- Nat.iter_add. f_equal. lia.
  - by rewrite !IH, Pos2Nat.inj_xO, <- Nat.iter_add; f_equal; lia.
Qed.

Lemma shr_1_m r : 0 <= shr_m r -> shr_m (shr_1 r) = shr_m r / 2.
Proof.
  destruct r as [m r s]. cbn [shr_m]. intros Hm. destruct m as [|[p|p|]|]; try done; cbn [shr_1 shr_m].
  - rewrite Pos2Z.inj_xI. apply (Z.div_unique _ _ _ 1); lia.
  - rewrite Pos2Z.inj_xO. apply (Z.div_unique _ _ _ 0); lia.
Qed.

Lemma shr_1_exact m : m mod 2 = 0 -> 0 <= m ->
  shr_1 {| shr_m := m; shr_r := false; shr_s := false |} = {| shr_m := m / 2; shr_r := false; shr_s := false |}.
Proof.
  intros Hm H. pose proof (shr_1_m {| shr_m := m; shr_r := false; shr_s := false |} H) as E. cbn [shr_m] in E.
  destruct m as [|[p|p|]|]; try lia; try done.
  - rewrite Pos2Z.inj_xI, Z.add_comm, Z.mul_comm, Z_mod_plus_full in Hm. by vm_compute in Hm.
  - cbn in E |- *. by rewrite <- E.
Qed.

Lemma iter_shr_1_m n r : 0 <= shr_m r ->
  shr_m (Nat.iter n shr_1 r) = shr_m r / 2 ^ Z.of_nat n.
Proof.
  intros Hr. induction n as [|n IH]; [by rewrite Z.div_1_r|].
  change (Nat.iter (S n) shr_1 r) with (shr_1 (Nat.iter n shr_1 r)).
  rewrite shr_1_m, IH.
  - rewrite Z.div_div by lia. f_equal. rewrite Nat2Z.inj_succ, Z.pow_succ_r by lia. lia.
  - rewrite IH. apply Z.div_pos; lia.
Qed.

Lemma iter_shr_1_exact n q : 0 <= q ->
  Nat.iter n shr_1 {| shr_m := q * 2 ^ Z.of_nat n; shr_r := false; shr_s := false |} =
  {| shr_m := q; shr_r := false; shr_s := false |}.
Proof.
  intros Hq. induction n as [|n IH]; [by rewrite Z.mul_1_r|].
  rewrite Nat.iter_succ_r, Nat2Z.inj_succ, Z.pow_succ_r by lia.
  replace (q * (2 * 2 ^ Z.of_nat n)) with (q * 2 ^ Z.of_nat n * 2) by lia.
  rewrite shr_1_exact, Z.div_mul by (rewrite ?Z.mod_mul; lia). apply IH.
Qed.

(** The shift by [s] bits, none when [s] is negative. *)
Lemma shr_shift r e s : 0 <= shr_m r ->
  exists r', shr r e s = (r', e + Z.max 0 s) /\ shr_m r' = shr_m r / 2 ^ Z.max 0 s /\
  (forall q, 0 <= q -> r = {| shr_m := q * 2 ^ Z.max 0 s; shr_r := false; shr_s := false |} ->
     r' = {| shr_m := q; shr_r := false; shr_s := false |}).
Proof.
  intros Hr. destruct s as [|p|p]; cbn [shr].
  1,3: exists r; rewrite Z.max_l, Z.add_0_r, Z.div_1_r by lia; split_and!; [done..|];
    intros q Hq ->; by rewrite Z.mul_1_r.
  rewrite iter_pos_nat, Z.max_r by lia. eexists. split; [done|].
  rewrite iter_shr_1_m, positive_nat_Z by done. split; [done|].
  intros q Hq ->. rewrite <- (positive_nat_Z p). by apply iter_shr_1_exact.
Qed.

Lemma shr_record_of_loc_m m l : shr_m (shr_record_of_loc m l) = m.
Proof. by destruct l as [|[]]. Qed.

Lemma round_nearest_even_near m l :
  round_nearest_even m l = m \/ round_nearest_even m l = m + 1.
Proof. destruct l as [|[]]; cbn; try destruct (Z.even m); tauto. Qed.

(** ** Rounding a mantissa *)

(** The bits that do not fit. *)
Definition excess (m e : Z) : Z := Z.max 0 (fexp 53 1024 (Zdigits2 m + e) - e).

Lemma fexp_double z : fexp 53 1024 z = Z.max (z - 53) (- unit_exp).
Proof. reflexivity. Qed.

Lemma excess_small m e : 0 <= m -> - unit_exp <= e -> m / 2 ^ excess m e < 2 ^ 53.
Proof.
  intros Hm He. unfold excess. rewrite fexp_double.
  destruct (Z.eq_dec m 0) as [->|]; [rewrite Z.div_0_l; lia|].
  pose proof (Zdigits2_bounds m ltac:(lia)) as [_ Hd].
  apply Z.div_lt_upper_bound; [lia|]. rewrite <- Z.pow_add_r by lia.
  eapply Z.lt_le_trans; [exact Hd|]. apply Z.pow_le_mono_r; lia.
Qed.

(** A mantissa of at most [2 ^ 53] is shifted by one bit at most, without a loss. *)
Lemma second_shift c e : 0 <= c <= 2 ^ 53 -> - unit_exp <= e -> e <= 970 ->
  double_val (let '(r, e') := shr_fexp 53 1024 c e loc_Exact in
     match shr_m r with
     | 0 => S754_zero false
     | Z.pos m => if e' <=? 1024 - 53 then S754_finite false m e' else S754_infinity false
     | Z.neg _ => S754_nan
     end) = Some (c * 2 ^ (e + unit_exp)).
Proof.
  intros Hc He He'. unfold shr_fexp, unit_exp in *. rewrite fexp_double. cbn [shr_record_of_loc].
  destruct (shr_shift {| shr_m := c; shr_r := false; shr_s := false |} e
              (Z.max (Zdigits2 c + e - 53) (- unit_exp) - e)) as (r & -> & Hr & _); [cbn; lia|].
  rewrite Hr. cbn [shr_m]. unfold unit_exp in *. set (s := Z.max 0 _).
  assert (s = 0 \/ (c = 2 ^ 53 /\ s = 1)) as Hs.
  { destruct (Z.eq_dec c (2 ^ 53)) as [->|]; [right; split; [done|]; change (Zdigits2 (2 ^ 53)) with 54 in s; lia|].
    left. enough (Zdigits2 c <= 53) by lia.
    destruct (Z.eq_dec c 0) as [->|]; [by cbn|].
    pose proof (Zdigits2_bounds c ltac:(lia)) as [Hd _].
    apply Z.lt_pred_le. apply (Z.pow_lt_mono_r_iff 2); lia. }
  clearbody s. destruct Hs as [->|[-> ->]].
  - rewrite Z.div_1_r, Z.add_0_r. destruct c as [|p|]; [by rewrite Z.mul_0_l| |lia].
    rewrite (proj2 (Z.leb_le _ _)) by lia. unfold double_val, unit_exp. by rewrite (proj2 (Z.leb_le _ _)) by lia.
  - change (2 ^ 53 / 2 ^ 1) with 4503599627370496. cbn match.
    rewrite (proj2 (Z.leb_le _ _)) by lia. unfold double_val, unit_exp. rewrite (proj2 (Z.leb_le _ _)) by lia.
    f_equal. replace (e + 1 + 1074) with (1 + (e + 1074)) by lia. rewrite Z.pow_add_r by lia.
    rewrite Z.mul_assoc. reflexivity.
Qed.

Lemma binary_round_aux_val m e l : 0 <= m -> - unit_exp <= e -> e + excess m e <= 970 ->
  exists c, double_val (binary_round_aux 53 1024 false m e l) = Some (c * 2 ^ (e + excess m e + unit_exp)) /\
    (c = m / 2 ^ excess m e \/ c = m / 2 ^ excess m e + 1) /\
    (forall q, 0 <= q -> l = loc_Exact -> m = q * 2 ^ excess m e -> c = q).
Proof.
  intros Hm He Hmax. unfold binary_round_aux. unfold shr_fexp at 1.
  destruct (shr_shift (shr_record_of_loc m l) e (fexp 53 1024 (Zdigits2 m + e) - e)) as (r & -> & Hr & Hex);
    [by rewrite shr_record_of_loc_m|].
  rewrite shr_record_of_loc_m in Hr. fold (excess m e) in *.
  pose proof (excess_small m e Hm He) as Hsm.
  assert (0 <= excess m e) by (unfold excess; lia).
  assert (0 <= m / 2 ^ excess m e) by (apply Z.div_pos; lia).
  rewrite <- Hr in *.
  exists (round_nearest_even (shr_m r) (loc_of_shr_record r)).
  destruct (round_nearest_even_near (shr_m r) (loc_of_shr_record r)) as [E|E].
  all: split_and!; [rewrite second_shift by (rewrite ?E; lia); done|by rewrite E; tauto|].
  all: intros q Hq -> Em; cbn [shr_record_of_loc] in Hex; rewrite (Hex q Hq) by (by rewrite <- Em); done.
Qed.

(** Points of a grid that is coarser than another. *)
Lemma pow2_grid g a b : 0 <= a <= b -> g * 2 ^ b = g * 2 ^ (b - a) * 2 ^ a.
Proof. intros H. rewrite <- Z.mul_assoc, <- Z.pow_add_r by lia. do 2 f_equal. lia. Qed.

Lemma excess_grid n d m e b : 0 < d -> 0 <= m -> - unit_exp <= e ->
  m * 2 ^ (e + unit_exp) * d <= n -> n < d * 2 ^ b ->
  e + unit_exp <= Z.max (b - 53) 0 -> e + excess m e + unit_exp <= Z.max (b - 53) 0.
Proof.
  intros Hd Hm He Hn Hb Hg. unfold excess. rewrite fexp_double. unfold unit_exp in *.
  destruct (Z.eq_dec m 0) as [->|]; [cbn [Zdigits2]; lia|].
  enough (Zdigits2 m + e + 1074 <= b) by lia.
  pose proof (Zdigits2_bounds m ltac:(lia)) as [Hl _].
  pose proof (Zdigits2_nonneg m Hm) as H0.
  assert (m * 2 ^ (e + 1074) < 2 ^ b) as Hlt by nia.
  apply Z.lt_pred_le. apply (Z.pow_lt_mono_r_iff 2); [lia| |].
  { apply Z.nlt_ge. intros Hneg. rewrite (Z.pow_neg_r 2 b) in Hlt by done.
    assert (0 < 2 ^ (e + 1074)) by lia. nia. }
  eapply Z.le_lt_trans; [|exact Hlt].
  destruct (Z.eq_dec (Zdigits2 m) 0) as [E|].
  { rewrite E in Hl. pose proof (Zdigits2_bounds m ltac:(lia)) as [_ Hu]. rewrite E in Hu. lia. }
  replace (Z.pred (Zdigits2 m + e + 1074)) with (Zdigits2 m - 1 + (e + 1074)) by lia.
  rewrite Z.pow_add_r by lia. apply Z.mul_le_mono_nonneg_r; lia.
Qed.

(** The mantissa [m] with what is lost below it, [l]. *)
Lemma binary_round_aux_rounds n d m e l : 0 < d -> 0 <= m -> - unit_exp <= e ->
  m * 2 ^ (e + unit_exp) * d <= n < (m + 1) * 2 ^ (e + unit_exp) * d ->
  (n = m * 2 ^ (e + unit_exp) * d -> l = loc_Exact) ->
  (forall b, n < d * 2 ^ b -> e + unit_exp <= Z.max (b - 53) 0) -> n < d * 2 ^ 2097 ->
  rounds n d (binary_round_aux 53 1024 false m e l).
Proof.
  intros Hd Hm He Hn Hl Hg Hmax.
  pose proof (excess_grid n d m e 2097 Hd Hm He ltac:(lia) Hmax (Hg _ Hmax)) as Hx.
  destruct (binary_round_aux_val m e l Hm He) as (c & Hv & Hc & Hex); [unfold unit_exp in *; lia|].
  eexists. split; [exact Hv|]. intros b k g Hk Hb Hnb.
  pose proof (excess_grid n d m e b Hd Hm He ltac:(lia) Hnb (Hg _ Hnb)) as Hkx.
  assert (0 <= excess m e) by (unfold excess; lia).
  set (s := excess m e) in *. set (u := e + unit_exp) in *.
  replace (e + s + unit_exp) with (s + u) in * by lia.
  rewrite !(pow2_grid g (s + u) k), (pow2_grid c u (s + u)) by lia. set (h := g * 2 ^ (k - (s + u))).
  rewrite !(pow2_grid h u (s + u)) by lia. replace (s + u - u) with s by lia.
  pose proof (Z.div_mod m (2 ^ s) ltac:(lia)) as Hdm. pose proof (Z.mod_pos_bound m (2 ^ s) ltac:(lia)) as Hmb.
  assert (0 < 2 ^ s /\ 0 < 2 ^ u) as [Hs Hu] by lia.
  clear Hv Hg Hmax Hx Hkx Hnb. set (U := 2 ^ u) in *. set (P := 2 ^ s) in *. clearbody U P h.
  split_and!; intros H1.
  - assert (h * P < m + 1) as H2 by nia. assert (h <= m / P) by nia. by do 2 (apply Z.mul_le_mono_nonneg_r; [lia|]); lia.
  - assert (m < h * P) as H2 by nia. assert (m / P < h) by nia. by do 2 (apply Z.mul_le_mono_nonneg_r; [lia|]); lia.
  - assert (h * P = m) as H2 by nia. rewrite (Hex h); [done|nia| |done]. apply Hl. by rewrite <- H2.
Qed.

(** ** The operations *)

Lemma iter_xO m p : Z.pos (Pos.iter xO m p) = Z.pos m * 2 ^ Z.pos p.
Proof.
  induction p as [|p IH] using Pos.peano_ind; [cbn; lia|].
  rewrite Pos.iter_succ, Pos2Z.inj_xO, IH, Pos2Z.inj_succ, Z.pow_succ_r by lia. lia.
Qed.

Lemma shl_align_val m e e' : - unit_exp <= e' ->
  exists m', shl_align m e e' = (m', Z.min e e') /\
  Z.pos m' * 2 ^ (Z.min e e' + unit_exp) = Z.pos m * 2 ^ (e + unit_exp).
Proof.
  intros He. unfold shl_align, unit_exp in *. destruct (e' - e) eqn:E.
  1,2: exists m; rewrite Z.min_l by lia; done.
  exists (Pos.iter xO m p). rewrite Z.min_r by lia. split; [done|].
  rewrite iter_xO, <- Z.mul_assoc, <- Z.pow_add_r by lia. do 2 f_equal. lia.
Qed.

Lemma exact_grid m e b : - unit_exp <= e -> Z.pos m * 2 ^ (e + unit_exp) < 2 ^ b ->
  fexp 53 1024 (Z.pos (digits2_pos m) + e) + unit_exp <= Z.max (b - 53) 0.
Proof.
  intros He Hb. rewrite fexp_double. pose proof (digits2_pos_bounds m) as [Hd _]. unfold unit_exp in *.
  enough (Z.pos (digits2_pos m) - 1 + (e + 1074) < b) by lia.
  apply (Z.pow_lt_mono_r_iff 2); [lia| |].
  { apply Z.nlt_ge. intros Hneg. rewrite (Z.pow_neg_r 2 b) in Hb by done.
    assert (0 < 2 ^ (e + 1074)) by lia. nia. }
  eapply Z.le_lt_trans; [|exact Hb]. rewrite Z.pow_add_r by lia. apply Z.mul_le_mono_nonneg_r; lia.
Qed.

Lemma binary_round_rounds m e : - unit_exp <= e -> Z.pos m * 2 ^ (e + unit_exp) < 2 ^ 2097 ->
  rounds (Z.pos m * 2 ^ (e + unit_exp)) 1 (binary_round 53 1024 false m e).
Proof.
  intros He Hmax. unfold binary_round.
  assert (- unit_exp <= fexp 53 1024 (Z.pos (digits2_pos m) + e)) as Hf by (rewrite fexp_double; lia).
  destruct (shl_align_val m e _ Hf) as (m' & -> & E). rewrite <- E.
  assert (0 < 2 ^ (Z.min e (fexp 53 1024 (Z.pos (digits2_pos m) + e)) + unit_exp)) as Hpos
    by (apply Z.pow_pos_nonneg; lia).
  apply binary_round_aux_rounds; try lia; [done|].
  intros b Hb. pose proof (exact_grid m e b He ltac:(lia)). lia.
Qed.

Lemma of_int_rounds z : 0 <= z < 2 ^ 1023 -> rounds (z * 2 ^ unit_exp) 1 (of_int Double z).
Proof.
  intros Hz. destruct z as [|m|]; [|apply (binary_round_rounds m 0)|]; try (unfold unit_exp; lia).
  exists 0. split; [done|]. intros b k g _ _ _. rewrite Z.mul_0_l, Z.mul_1_r. lia.
Qed.

(** An integer that fits the mantissa is exact. *)
Lemma of_int_exact z : 0 <= z < 2 ^ 53 -> double_val (of_int Double z) = Some (z * 2 ^ unit_exp).
Proof.
  intros Hz. destruct (of_int_rounds z) as (V & -> & HV); [lia|].
  destruct (HV (53 + unit_exp) unit_exp z) as (_ & _ & E); unfold unit_exp in *; try lia.
  by rewrite E by lia.
Qed.

Lemma double_val_pos x X : double_val x = Some X -> 0 < X ->
  exists m e, x = S754_finite false m e /\ - unit_exp <= e /\ X = Z.pos m * 2 ^ (e + unit_exp).
Proof.
  destruct x as [[]| [] | |[] m e]; try done; cbn [double_val]; [intros [= <-]; lia|].
  destruct (Z.leb_spec (- unit_exp) e) as [He|]; [|done]. intros [= <-] _. by exists m, e.
Qed.

Lemma f_add_rounds x y X Y : double_val x = Some X -> double_val y = Some Y -> 0 < X -> 0 < Y ->
  X + Y < 2 ^ 2097 -> rounds (X + Y) 1 (f_add Double x y).
Proof.
  intros Hx Hy HX HY Hmax.
  destruct (double_val_pos x X Hx HX) as (m & e & -> & He & EX).
  destruct (double_val_pos y Y Hy HY) as (m' & e' & -> & He' & EY).
  unfold f_add. cbn [Double mantissa exponent SFadd cond_Zopp].
  destruct (shl_align_val m e (Z.min e e')) as (a & Ea & Va); [lia|].
  destruct (shl_align_val m' e' (Z.min e e')) as (a' & Ea' & Va'); [lia|].
  rewrite (Z.min_r e (Z.min e e')) in Ea, Va by lia. rewrite (Z.min_r e' (Z.min e e')) in Ea', Va' by lia.
  rewrite Ea, Ea'. cbn [fst]. rewrite <- Pos2Z.inj_add. cbn [binary_normalize].
  assert (X + Y = Z.pos (a + a') * 2 ^ (Z.min e e' + unit_exp)) as -> by (rewrite Pos2Z.inj_add; lia).
  apply binary_round_rounds; [lia|]. rewrite Pos2Z.inj_add. lia.
Qed.

(** The quotient and the remainder's location. *)
Lemma div_core_val m e m' e' :
  exists q z l, SFdiv_core_binary 53 1024 (Z.pos m) e (Z.pos m') e' = (q, z, l) /\
  z = Z.min (fexp 53 1024 (Z.pos (digits2_pos m) + e - (Z.pos (digits2_pos m') + e'))) (e - e') /\
  q * Z.pos m' <= Z.pos m * 2 ^ (e - e' - z) < (q + 1) * Z.pos m' /\ 0 <= q /\
  (q * Z.pos m' = Z.pos m * 2 ^ (e - e' - z) -> l = loc_Exact).
Proof.
  unfold SFdiv_core_binary. cbn [Zdigits2].
  set (w := Z.min _ _). pose proof (eq_refl w) as Ez. unfold w at 2 in Ez.
  assert (w <= e - e') as Hz by lia. clearbody w.
  replace (match e - e' - w with 0 => Z.pos m | Z.pos _ => Z.shiftl (Z.pos m) (e - e' - w) | Z.neg _ => 0 end)
    with (Z.pos m * 2 ^ (e - e' - w))
    by (destruct (e - e' - w) eqn:E; [lia|by rewrite Z.shiftl_mul_pow2 by lia|lia]).
  remember (Z.pos m * 2 ^ (e - e' - w)) as n eqn:En. assert (0 <= n) as Hn by lia.
  pose proof (Z_div_mod n (Z.pos m') ltac:(lia)) as Hd. destruct (Z.div_eucl n (Z.pos m')) as [q r].
  destruct Hd as [Hd Hr].
  assert (0 <= q) by (apply Z.nlt_ge; intros ?; nia).
  exists q, w, (new_location (Z.pos m') r). rewrite <- En. split_and!; try done; try lia.
  intros E. assert (r = 0) as -> by lia.
  unfold new_location, new_location_even, new_location_odd. by destruct (Z.even _).
Qed.

Lemma quotient_grid m e m' e' b : - unit_exp <= e -> - unit_exp <= e' ->
  Z.pos m * 2 ^ (e + unit_exp) * 2 ^ unit_exp < Z.pos m' * 2 ^ (e' + unit_exp) * 2 ^ b ->
  fexp 53 1024 (Z.pos (digits2_pos m) + e - (Z.pos (digits2_pos m') + e')) + unit_exp <= Z.max (b - 53) 0.
Proof.
  intros He He' Hb. rewrite fexp_double.
  pose proof (digits2_pos_bounds m) as [Hd _]. pose proof (digits2_pos_bounds m') as [_ Hd'].
  unfold unit_exp in *. set (dm := Z.pos (digits2_pos m)) in *. set (dm' := Z.pos (digits2_pos m')) in *.
  destruct (Z.lt_ge_cases b 0) as [Hneg|Hb0].
  { rewrite (Z.pow_neg_r 2 b), Z.mul_0_r in Hb by done. assert (0 < 2 ^ (e + 1074) * 2 ^ 1074) by lia. nia. }
  enough (dm - 1 + (e + 1074) + 1074 < dm' + (e' + 1074) + b) by lia.
  apply (Z.pow_lt_mono_r_iff 2); [lia..|].
  rewrite (Z.pow_add_r 2 (dm - 1 + (e + 1074))), (Z.pow_add_r 2 (dm - 1) (e + 1074)),
    (Z.pow_add_r 2 (dm' + (e' + 1074))), (Z.pow_add_r 2 dm') by lia.
  eapply Z.le_lt_trans; [|eapply Z.lt_le_trans; [exact Hb|]].
  - do 2 (apply Z.mul_le_mono_nonneg_r; [lia|]). lia.
  - do 2 (apply Z.mul_le_mono_nonneg_r; [lia|]). lia.
Qed.

(** The exponent of the divisor is that of an integer. *)
Lemma f_div_rounds x X m' e' : let Y := Z.pos m' * 2 ^ (e' + unit_exp) in
  double_val x = Some X -> 0 < X -> - unit_exp <= e' <= 0 ->
  X * 2 ^ unit_exp < Y * 2 ^ 2097 -> rounds (X * 2 ^ unit_exp) Y (f_div Double x (S754_finite false m' e')).
Proof.
  intros Y Hx HX He' Hmax. destruct (double_val_pos x X Hx HX) as (m & e & -> & He & ->).
  unfold f_div. cbn [Double mantissa exponent SFdiv].
  destruct (div_core_val m e m' e') as (q & z & l & -> & Ez & Hq & Hq0 & Hl). cbn [xorb].
  assert (- unit_exp <= z) as Hz by (rewrite Ez, fexp_double; lia).
  assert (0 < 2 ^ (e' + unit_exp)) by (apply Z.pow_pos_nonneg; lia).
  assert (0 < 2 ^ (z + unit_exp)) by (apply Z.pow_pos_nonneg; lia).
  assert (Z.pos m * 2 ^ (e + unit_exp) * 2 ^ unit_exp =
    Z.pos m * 2 ^ (e - e' - z) * (2 ^ (z + unit_exp) * 2 ^ (e' + unit_exp))) as E.
  { rewrite <- !Z.mul_assoc, <- !Z.pow_add_r by (unfold unit_exp in *; lia). do 2 f_equal. lia. }
  apply binary_round_aux_rounds; try lia; unfold Y in *; try (rewrite E; nia).
  - intros E'. apply Hl. rewrite E in E'. nia.
  - intros b Hb. pose proof (quotient_grid m e m' e' b He ltac:(lia) Hb). lia.
Qed.

(** The integer part. *)
Lemma truncate_val x V : double_val x = Some V -> truncate x = Some (V / 2 ^ unit_exp).
Proof.
  destruct x as [[]| [] | |[] m e]; try done; cbn [double_val truncate]; [by intros [= <-]|].
  destruct (Z.leb_spec (- unit_exp) e) as [He|]; [|done]. intros [= <-]. unfold unit_exp in *. cbn [cond_Zopp].
  f_equal. destruct (Z.leb_spec 0 e).
  - rewrite Z.pow_add_r, Z.mul_assoc, Z.div_mul by lia. done.
  - rewrite <- (Z.div_mul_cancel_r (Z.pos m) (2 ^ (- e)) (2 ^ (e + 1074))) by lia.
    f_equal. rewrite <- Z.pow_add_r by lia. f_equal. lia.
Qed.

Lemma truncate_of_int z : 0 <= z < 2 ^ 53 -> truncate (of_int Double z) = Some z.
Proof. intros Hz. by rewrite (truncate_val _ _ (of_int_exact z Hz)), Z.div_mul by (unfold unit_exp; lia). Qed.

(** Two points of a grid around the exact result are around the rounded one. *)
Lemma rounds_between n d x b k lo hi : rounds n d x -> 0 <= k -> b <= k + 53 -> n < d * 2 ^ b ->
  lo * 2 ^ k * d <= n -> n < hi * 2 ^ k * d ->
  exists V, double_val x = Some V /\ lo * 2 ^ k <= V <= hi * 2 ^ k.
Proof.
  intros (V & HV & H) Hk Hb Hn Hlo Hhi. exists V. split; [done|].
  destruct (H b k lo Hk Hb Hn) as (? & _ & _). destruct (H b k hi Hk Hb Hn) as (_ & ? & _). auto.
Qed.
