(* ===== verification/MovingStatistics.v ===== *)
(** * MovingStatistics: the statistics of rtc_base

    [RunningStatistics] (rtc_base/numerics/running_statistics.h), whose formulas are stated
    for any arithmetic: the one of [double], which is what the program computes with, and
    the one of the rational numbers, in which they are exact; [RollingAccumulator]
    (rtc_base/rolling_accumulator.h), the greatest and least of the last samples;
    [MovingMaxCounter] (rtc_base/numerics/moving_max_counter.h), the greatest of a window of
    time; and [PercentileFilter] (rtc_base/numerics/percentile_filter.h).  Samples are
    integers. *)

From S2P Require Import Prelude IntTypes FloatTypes.
From Stdlib Require Import QArith Permutation Sorted.
From stdpp Require Import sorting.
Open Scope Z_scope.
Open Scope list_scope.

(** ** The arithmetic of the formulas *)

Class Arithmetic := {
  num : Type;
  of_integer : Z -> num;
  plus : num -> num -> num;
  minus : num -> num -> num;
  times : num -> num -> num;
  divide : num -> num -> num
}.

Definition double_arithmetic : Arithmetic :=
  {| num := spec_float; of_integer := of_int Double; plus := f_add Double; minus := f_sub Double; times := f_mul Double; divide := f_div Double |}.

Definition rational_arithmetic : Arithmetic :=
  {| num := Q; of_integer := inject_Z; plus := Qplus; minus := Qminus; times := Qmult; divide := Qdiv |}.

(** ** RunningStatistics *)

Module Running.
Section Running.
Context {build : Build} {arithmetic : Arithmetic} (t : int_type).

Record RunningStatistics := mkStatistics { size_ : Z; min_ : Z; max_ : Z; mean_ : num; cumul_ : num }.

(** [infinity_or_max] and [minus_infinity_or_min] of an integer type. *)
Definition infinity_or_max : Z := IntTypes.max t.
Definition minus_infinity_or_min : Z := IntTypes.lowest t.

Definition new_statistics : RunningStatistics :=
  mkStatistics 0 infinity_or_max minus_infinity_or_min (of_integer 0) (of_integer 0).

Definition AddSample (sample : Z) (s : RunningStatistics) : RunningStatistics :=
  let size := size_ s + 1 in
  let delta := minus (of_integer sample) (mean_ s) in
  let mean := plus (mean_ s) (divide delta (of_integer size)) in
  let delta2 := minus (of_integer sample) mean in
  mkStatistics size (Z.min (min_ s) sample) (Z.max (max_ s) sample) mean (plus (cumul_ s) (times delta delta2)).

Definition Size (s : RunningStatistics) : Z := size_ s.

Definition RemoveSample (sample : Z) (s : RunningStatistics) : exec RunningStatistics :=
  RTC_DCHECK (0 <? Size s) (
    if Size s =? 0 then Done s else
    let size := size_ s - 1 in
    let delta := minus (of_integer sample) (mean_ s) in
    let mean := minus (mean_ s) (divide delta (of_integer size)) in
    let delta2 := minus (of_integer sample) mean in
    Done (mkStatistics size (min_ s) (max_ s) mean (minus (cumul_ s) (times delta delta2)))).

Definition MergeStatistics (other s : RunningStatistics) : RunningStatistics :=
  if size_ other =? 0 then s else
  let new_size := size_ s + size_ other in
  let new_mean := divide (plus (times (mean_ s) (of_integer (size_ s))) (times (mean_ other) (of_integer (size_ other)))) (of_integer new_size) in
  let delta (stats : RunningStatistics) :=
    times (of_integer (size_ stats))
      (plus (times new_mean (minus new_mean (times (of_integer 2) (mean_ stats)))) (times (mean_ stats) (mean_ stats))) in
  mkStatistics new_size (Z.min (min_ s) (min_ other)) (Z.max (max_ s) (max_ other)) new_mean
    (plus (plus (plus (cumul_ s) (delta s)) (cumul_ other)) (delta other)).

Definition GetMin (s : RunningStatistics) : option Z := if size_ s =? 0 then None else Some (min_ s).
Definition GetMax (s : RunningStatistics) : option Z := if size_ s =? 0 then None else Some (max_ s).
Definition GetMean (s : RunningStatistics) : option num := if size_ s =? 0 then None else Some (mean_ s).
Definition GetVariance (s : RunningStatistics) : option num :=
  if size_ s =? 0 then None else Some (divide (cumul_ s) (of_integer (size_ s))).

End Running.

(** *** In exact arithmetic *)

Section Exact.
Context {build : Build} (t : int_type).
#[local] Existing Instance rational_arithmetic.

Definition sum (l : list Z) : Z := fold_right Z.add 0 l.
Definition squares (l : list Z) : Z := fold_right (fun x r => x * x + r) 0 l.

(** The mean of the samples and the sum of the squares of the distances to it, which is
    the sum of the squares less the number times the square of the mean. *)
Definition exact (s : RunningStatistics) (l : list Z) : Prop :=
  size_ s = Z.of_nat (length l) /\
  (mean_ s * inject_Z (Z.of_nat (length l)) == inject_Z (sum l))%Q /\
  (cumul_ s == inject_Z (squares l) - inject_Z (Z.of_nat (length l)) * (mean_ s * mean_ s))%Q.

Lemma inject_nonzero z : z <> 0 -> ~ (inject_Z z == 0)%Q.
Proof. intros Hz H. apply Hz. unfold Qeq in H. cbn in H. lia. Qed.

Lemma sum_app l k : sum (l ++ k) = sum l + sum k /\ squares (l ++ k) = squares l + squares k.
Proof. induction l as [|x l [IH1 IH2]]; cbn; [done|]. unfold sum, squares in *. rewrite IH1, IH2. lia. Qed.

(** A mean and a number of samples that give the sum. *)
Lemma exact_new : exact (new_statistics t) [].
Proof. split_and!; [done|reflexivity|reflexivity]. Qed.

Lemma AddSample_exact s l x : exact s l -> exact (AddSample x s) (x :: l).
Proof.
  intros (Hn & Hm & Hc). unfold exact, AddSample. cbn [size_ mean_ cumul_ length sum squares fold_right plus minus times divide of_integer rational_arithmetic].
  set (n := Z.of_nat (length l)) in *. rewrite Nat2Z.inj_succ, Hn. unfold Z.succ. fold n. fold (sum l) (squares l). rewrite !inject_Z_plus, inject_Z_mult.
  assert (~ (inject_Z n + inject_Z 1 == 0)%Q) as Hnz by (rewrite <- inject_Z_plus; apply inject_nonzero; lia). change (inject_Z 1) with 1%Q in *.
  split_and!; [done| |].
  - rewrite <- Hm. field. done.
  - rewrite Hc. assert (inject_Z (squares l) == inject_Z (squares l))%Q by reflexivity. field. done.
Qed.

Lemma RemoveSample_exact s l x : exact s (x :: l) -> l <> [] -> exists s', RemoveSample x s = Done s' /\ exact s' l.
Proof.
  intros (Hn & Hm & Hc) Hl. unfold RemoveSample, Size. cbn [length] in *. rewrite Hn. rewrite Nat2Z.inj_succ in *. unfold Z.succ in *. set (n := Z.of_nat (length l)) in *.
  assert (0 < n) as Hpos by (unfold n; destruct l; [done|cbn; lia]). rewrite RTC_DCHECK_true by (apply Z.ltb_lt; lia). destruct (Z.eqb_spec (n + 1) 0); [lia|]. eexists. split; [reflexivity|].
  unfold exact. cbn [size_ mean_ cumul_ plus minus times divide of_integer rational_arithmetic]. fold n. replace (n + 1 - 1) with n by lia.
  assert (~ (inject_Z n == 0)%Q) as Hnz by (apply inject_nonzero; lia). cbn [sum squares fold_right] in Hm, Hc. fold (sum l) in Hm. fold (squares l) in Hc.
  rewrite !inject_Z_plus in Hm, Hc. rewrite inject_Z_mult in Hc. change (inject_Z 1) with 1%Q in *.
  assert (inject_Z (sum l) == mean_ s * (inject_Z n + 1) - inject_Z x)%Q as Hsum by (rewrite Hm; ring).
  split_and!; [done| |].
  - rewrite Hsum. field. done.
  - rewrite Hc. field. done.
Qed.

Lemma MergeStatistics_exact s l other k : exact s l -> exact other k -> exact (MergeStatistics other s) (l ++ k).
Proof.
  intros (Hn & Hm & Hc) (Hn' & Hm' & Hc'). unfold MergeStatistics. destruct (Z.eqb_spec (size_ other) 0) as [Hz|Hz].
  - assert (k = []) as -> by (destruct k; [done|cbn in Hn'; lia]). by rewrite app_nil_r.
  - unfold exact. cbn [size_ mean_ cumul_ plus minus times divide of_integer rational_arithmetic]. rewrite length_app, Nat2Z.inj_add, Hn, Hn'.
    destruct (sum_app l k) as [-> ->]. set (n := Z.of_nat (length l)) in *. set (m := Z.of_nat (length k)) in *. rewrite !inject_Z_plus.
    assert (~ (inject_Z n + inject_Z m == 0)%Q) as Hnz by (rewrite <- inject_Z_plus; apply inject_nonzero; lia). split_and!; [done| |].
    + rewrite <- Hm, <- Hm'. field. done.
    + rewrite Hc, Hc'. change (inject_Z 2) with 2%Q. field. done.
Qed.

End Exact.
End Running.

(** ** RollingAccumulator *)

Module Rolling.
Import Running.
Section Rolling.
Context {build : Build} (t : int_type).
#[local] Existing Instance double_arithmetic.

(** The size of the vector [samples_] is [max_count()]. *)
Record RollingAccumulator := mkAccumulator {
  stats_ : RunningStatistics; next_index_ : nat;
  max_ : Z; max_stale_ : bool; min_ : Z; min_stale_ : bool;
  samples_ : list Z
}.

Definition max_count (s : RollingAccumulator) : nat := length (samples_ s).
Definition count (s : RollingAccumulator) : nat := Z.to_nat (Size (stats_ s)).

Definition Reset (s : RollingAccumulator) : RollingAccumulator := mkAccumulator (new_statistics t) 0 0 false 0 false (samples_ s).

Definition new_accumulator (max_count : nat) : exec RollingAccumulator :=
  RTC_DCHECK (0 <? max_count)%nat (Done (Reset (mkAccumulator (new_statistics t) 0 0 false 0 false (replicate max_count 0)))).

Definition set_max (m : Z) (stale : bool) (s : RollingAccumulator) : RollingAccumulator :=
  mkAccumulator (stats_ s) (next_index_ s) m stale (min_ s) (min_stale_ s) (samples_ s).
Definition set_min (m : Z) (stale : bool) (s : RollingAccumulator) : RollingAccumulator :=
  mkAccumulator (stats_ s) (next_index_ s) (max_ s) (max_stale_ s) m stale (samples_ s).
Definition set_stats (r : RunningStatistics) (s : RollingAccumulator) : RollingAccumulator :=
  mkAccumulator r (next_index_ s) (max_ s) (max_stale_ s) (min_ s) (min_stale_ s) (samples_ s).
Definition set_samples (l : list Z) (i : nat) (s : RollingAccumulator) : RollingAccumulator :=
  mkAccumulator (stats_ s) i (max_ s) (max_stale_ s) (min_ s) (min_stale_ s) l.

(** The oldest sample leaves. *)
Definition remove_oldest (s : RollingAccumulator) : exec RollingAccumulator :=
  sample_to_remove ← defined (samples_ s !! next_index_ s);
  r ← RemoveSample sample_to_remove (stats_ s);
  let s := set_stats r s in
  let s := if max_ s <=? sample_to_remove then set_max (max_ s) true s else s in
  Done (if sample_to_remove <=? min_ s then set_min (min_ s) true s else s).

Definition AddSample (sample : Z) (s : RollingAccumulator) : exec RollingAccumulator :=
  s ← (if (count s =? max_count s)%nat then remove_oldest s else Done s);
  _ ← defined (samples_ s !! next_index_ s);
  let s := set_samples (<[next_index_ s := sample]> (samples_ s)) (next_index_ s) s in
  let s := if (count s =? 0)%nat || (max_ s <=? sample) then set_max sample false s else s in
  let s := if (count s =? 0)%nat || (sample <=? min_ s) then set_min sample false s else s in
  let s := set_stats (Running.AddSample sample (stats_ s)) s in
  Done (set_samples (samples_ s) ((next_index_ s + 1) mod max_count s) s).

(** The loops of [ComputeMax] and [ComputeMin]: [n] samples from the one behind the oldest
    by [i]. *)
Fixpoint scan (op : Z -> Z -> Z) (n i : nat) (s : RollingAccumulator) (m : Z) : exec Z :=
  match n with
  | O => Done m
  | Datatypes.S n => x ← defined (samples_ s !! ((next_index_ s + i) mod max_count s)%nat); scan op n (i + 1) s (op m x)
  end.

Definition ComputeMax (s : RollingAccumulator) : exec (Z * RollingAccumulator) :=
  if max_stale_ s then
    RTC_DCHECK (0 <? count s)%nat (
      first ← defined (samples_ s !! next_index_ s);
      m ← scan Z.max (count s - 1) 1 s first;
      Done (m, set_max m false s))
  else Done (max_ s, s).

Definition ComputeMin (s : RollingAccumulator) : exec (Z * RollingAccumulator) :=
  if min_stale_ s then
    RTC_DCHECK (0 <? count s)%nat (
      first ← defined (samples_ s !! next_index_ s);
      m ← scan Z.min (count s - 1) 1 s first;
      Done (m, set_min m false s))
  else Done (min_ s, s).

Definition ComputeMean (s : RollingAccumulator) : spec_float := default (of_int Double 0) (GetMean (stats_ s)).
Definition ComputeVariance (s : RollingAccumulator) : spec_float := default (of_int Double 0) (GetVariance (stats_ s)).

(** The loop of [ComputeWeightedMean]: the weighted mean, the weight and the sum of the
    weights. *)
Fixpoint weigh (learning_rate : spec_float) (n i : nat) (s : RollingAccumulator) (weighted_mean current_weight weight_sum : spec_float) : exec (spec_float * spec_float) :=
  match n with
  | O => Done (weighted_mean, weight_sum)
  | Datatypes.S n =>
      let current_weight := f_mul Double current_weight learning_rate in
      let weight_sum := f_add Double weight_sum current_weight in
      x ← defined (samples_ s !! ((next_index_ s + max_count s - i - 1) mod max_count s)%nat);
      weigh learning_rate n (i + 1) s (f_add Double weighted_mean (f_mul Double current_weight (of_int Double x))) current_weight weight_sum
  end.

Definition ComputeWeightedMean (learning_rate : spec_float) (s : RollingAccumulator) : exec spec_float :=
  if (count s <? 1)%nat || SFleb learning_rate (of_int Double 0) || SFleb (of_int Double 1) learning_rate then Done (ComputeMean s)
  else
    r ← weigh learning_rate (count s) 0 s (of_int Double 0) (of_int Double 1) (of_int Double 0);
    Done (f_div Double r.1 r.2).

(** *** The last samples *)

(** The last [n] of the samples. *)
Definition last_samples (n : nat) (l : list Z) : list Z := skipn (length l - n) l.

Definition greatest (l : list Z) : Z := match l with [] => 0 | x :: l => fold_left Z.max l x end.
Definition least (l : list Z) : Z := match l with [] => 0 | x :: l => fold_left Z.min l x end.

(** The samples in the order in which they came. *)
Definition ordered (s : RollingAccumulator) (w : list Z) : Prop :=
  (length w <= max_count s)%nat /\ (0 < max_count s)%nat /\ count s = length w /\ 0 <= Size (stats_ s) /\
  if (length w <? max_count s)%nat then next_index_ s = length w /\ firstn (length w) (samples_ s) = w
  else (next_index_ s < max_count s)%nat /\ skipn (next_index_ s) (samples_ s) ++ firstn (next_index_ s) (samples_ s) = w.

Record accumulates (s : RollingAccumulator) (w : list Z) : Prop := {
  acc_ordered : ordered s w;
  acc_max : forall x, In x w -> x <= max_ s;
  acc_min : forall x, In x w -> min_ s <= x;
  acc_max_in : max_stale_ s = false -> w <> [] -> In (max_ s) w;
  acc_min_in : min_stale_ s = false -> w <> [] -> In (min_ s) w;
  acc_stale : length w <> max_count s -> max_stale_ s = false /\ min_stale_ s = false;
  acc_empty : w = [] -> max_ s = 0 /\ min_ s = 0
}.

Lemma fold_max l x : In (fold_left Z.max l x) (x :: l) /\ forall y, In y (x :: l) -> y <= fold_left Z.max l x.
Proof.
  revert x. induction l as [|z l IH]; intros x; cbn [fold_left]; [split; [by left|]; intros y [->|[]]; lia|].
  destruct (IH (Z.max x z)) as [Hin Hle]. split.
  - destruct Hin as [Heq|Hin]; [|by do 2 right]. rewrite <- Heq. destruct (Z.max_spec x z) as [[_ ->]|[_ ->]]; [right; by left|by left].
  - intros y [->|[->|Hy]]; [etrans; [|apply Hle; by left]; lia|etrans; [|apply Hle; by left]; lia|apply Hle; by right].
Qed.

Lemma fold_min l x : In (fold_left Z.min l x) (x :: l) /\ forall y, In y (x :: l) -> fold_left Z.min l x <= y.
Proof.
  revert x. induction l as [|z l IH]; intros x; cbn [fold_left]; [split; [by left|]; intros y [->|[]]; lia|].
  destruct (IH (Z.min x z)) as [Hin Hle]. split.
  - destruct Hin as [Heq|Hin]; [|by do 2 right]. rewrite <- Heq. destruct (Z.min_spec x z) as [[_ ->]|[_ ->]]; [by left|right; by left].
  - intros y [->|[->|Hy]]; [etrans; [apply Hle; by left|]; lia|etrans; [apply Hle; by left|]; lia|apply Hle; by right].
Qed.

Lemma greatest_unique w m : w <> [] -> In m w -> (forall x, In x w -> x <= m) -> greatest w = m.
Proof. destruct w as [|x w]; [done|]. intros _ Hin Hle. destruct (fold_max w x) as [H1 H2]. apply Z.le_antisymm; [by apply Hle|by apply H2]. Qed.

Lemma least_unique w m : w <> [] -> In m w -> (forall x, In x w -> m <= x) -> least w = m.
Proof. destruct w as [|x w]; [done|]. intros _ Hin Hle. destruct (fold_min w x) as [H1 H2]. apply Z.le_antisymm; [by apply H2|by apply Hle]. Qed.

(** The window after one more sample. *)
Definition push (n : nat) (x : Z) (w : list Z) : list Z := (if (length w =? n)%nat then tail w else w) ++ [x].

Lemma tail_skipn {A} n (l : list A) : tail (skipn n l) = skipn (Datatypes.S n) l.
Proof. revert l. induction n as [|n IH]; intros [|x l]; try done. apply IH. Qed.

Lemma last_samples_app n l x : (0 < n)%nat -> last_samples n (l ++ [x]) = push n x (last_samples n l).
Proof.
  intros Hn. unfold push, last_samples. rewrite length_app, length_skipn. cbn [length]. destruct (Nat.eqb_spec (length l - (length l - n)) n).
  - replace (length l + 1 - n)%nat with (Datatypes.S (length l - n)) by lia. rewrite skipn_app. replace (Datatypes.S (length l - n) - length l)%nat with 0%nat by lia. cbn [skipn]. f_equal.
    symmetry. apply tail_skipn.
  - rewrite skipn_app. replace (length l + 1 - n - length l)%nat with 0%nat by lia. by replace (length l + 1 - n)%nat with (length l - n)%nat by lia.
Qed.

(** One more sample in the ring. *)
Lemma ring_step (samples w : list Z) next x : (next < length samples)%nat -> skipn next samples ++ firstn next samples = w ->
  let samples' := <[next := x]> samples in let next' := ((next + 1) mod length samples)%nat in
  samples !! next = head w /\ (next' < length samples)%nat /\ skipn next' samples' ++ firstn next' samples' = tail w ++ [x].
Proof.
  intros Hn Hw samples' next'. destruct (lookup_lt_is_Some_2 _ _ Hn) as [o Ho]. pose proof (take_drop_middle _ _ _ Ho) as Hs. set (a := firstn next samples) in *. set (b := skipn (Datatypes.S next) samples) in *.
  assert (length a = next) as Ha by (unfold a; rewrite length_take; lia). assert (w = o :: b ++ a) as ->.
  { rewrite <- Hw. rewrite <- Hs at 1. by rewrite skipn_app, skipn_all2, Ha, Nat.sub_diag by lia. }
  assert (samples' = (a ++ [x]) ++ b) as Hs'. { unfold samples'. rewrite <- Hs, insert_app_r_alt, Ha, Nat.sub_diag by lia. cbn. by rewrite <- app_assoc. }
  assert (length samples = next + 1 + length b)%nat as Hlen by (rewrite <- Hs, length_app; cbn; lia). split; [done|]. unfold next'. destruct (Nat.eq_dec (length b) 0%nat) as [Hb|Hb].
  - assert (b = []) as Hb0 by (by destruct b). replace (length samples) with (next + 1)%nat by lia. rewrite Nat.Div0.mod_same. split; [lia|]. rewrite Hs', Hb0. cbn. by rewrite !app_nil_r.
  - rewrite Nat.mod_small by lia. split; [lia|]. rewrite Hs'. assert (length (a ++ [x]) = next + 1)%nat as Hax by (rewrite length_app; cbn; lia).
    rewrite skipn_app, firstn_app, skipn_all2, firstn_all2, Hax, Nat.sub_diag by lia. cbn. by rewrite app_nil_r, app_assoc.
Qed.

Lemma prefix_step (samples w : list Z) x : (length w < length samples)%nat -> firstn (length w) samples = w ->
  let samples' := <[length w := x]> samples in let next' := ((length w + 1) mod length samples)%nat in
  is_Some (samples !! length w) /\
  if (length w + 1 <? length samples)%nat then next' = (length w + 1)%nat /\ firstn (length w + 1) samples' = w ++ [x]
  else (next' < length samples)%nat /\ skipn next' samples' ++ firstn next' samples' = w ++ [x].
Proof.
  intros Hn Hw samples' next'. split; [by apply lookup_lt_is_Some|]. assert (firstn (length w + 1) samples' = w ++ [x]) as Hf.
  { unfold samples'. destruct (lookup_lt_is_Some_2 _ _ Hn) as [o Ho]. pose proof (take_drop_middle _ _ _ Ho) as Hs. rewrite <- Hs, Hw, insert_app_r_alt, Nat.sub_diag by lia. cbn.
    rewrite firstn_app, firstn_all2 by lia. replace (length w + 1 - length w)%nat with 1%nat by lia. done. }
  destruct (Nat.ltb_spec (length w + 1) (length samples)); [split; [by apply Nat.mod_small|done]|]. unfold next'. replace (length samples) with (length w + 1)%nat by lia. rewrite Nat.Div0.mod_same. split; [lia|].
  rewrite drop_0, take_0, app_nil_r, <- Hf. symmetry. apply firstn_all2. unfold samples'. rewrite length_insert. lia.
Qed.

Lemma RemoveSample_run x (r : RunningStatistics) n : Size r = Z.of_nat (Datatypes.S n) -> exists r', RemoveSample x r = Done r' /\ Size r' = Z.of_nat n.
Proof.
  intros Hr. unfold RemoveSample. rewrite Hr, RTC_DCHECK_true by (apply Z.ltb_lt; lia). destruct (Z.eqb_spec (Z.of_nat (Datatypes.S n)) 0); [lia|]. eexists. split; [reflexivity|]. unfold Size in *. cbn [size_]. lia.
Qed.

Lemma push_length n x w : (length w <= n)%nat -> (0 < n)%nat -> length (push n x w) = Nat.min n (length w + 1).
Proof. intros Hw Hn. unfold push. rewrite length_app. cbn. destruct (Nat.eqb_spec (length w) n); [destruct w; cbn in *; lia|lia]. Qed.

(** What [AddSample] makes of a state in which there is room. *)
Definition added (x : Z) (s : RollingAccumulator) : RollingAccumulator :=
  let newest := (count s =? 0)%nat in
  mkAccumulator (Running.AddSample x (stats_ s)) ((next_index_ s + 1) mod max_count s)%nat
    (if newest || (max_ s <=? x) then x else max_ s) (if newest || (max_ s <=? x) then false else max_stale_ s)
    (if newest || (x <=? min_ s) then x else min_ s) (if newest || (x <=? min_ s) then false else min_stale_ s)
    (<[next_index_ s := x]> (samples_ s)).

Definition removed (o : Z) (r : RunningStatistics) (s : RollingAccumulator) : RollingAccumulator :=
  mkAccumulator r (next_index_ s) (max_ s) (max_stale_ s || (max_ s <=? o)) (min_ s) (min_stale_ s || (o <=? min_ s)) (samples_ s).

Lemma AddSample_run x s : AddSample x s =
  (s1 ← (if (count s =? max_count s)%nat then remove_oldest s else Done s); _ ← defined (samples_ s1 !! next_index_ s1); Done (added x s1)).
Proof.
  unfold AddSample. destruct (if (count s =? max_count s)%nat then remove_oldest s else Done s) as [s1| |]; cbn [mbind exec_bind]; try done.
  destruct (samples_ s1 !! next_index_ s1); cbn [mbind exec_bind defined]; try done. f_equal. unfold added, max_count. change (count (set_samples _ _ s1)) with (count s1).
  destruct (count s1 =? 0)%nat eqn:Ec; cbn [orb]; change (max_ (set_samples _ _ s1)) with (max_ s1); destruct (max_ s1 <=? x); unfold count in *; cbn in *; rewrite ?Ec; cbn; try destruct (x <=? min_ s1); cbn; by rewrite ?length_insert.
Qed.

Lemma remove_oldest_run o r s : samples_ s !! next_index_ s = Some o -> RemoveSample o (stats_ s) = Done r -> remove_oldest s = Done (removed o r s).
Proof.
  intros Ho Hr. unfold remove_oldest. rewrite Ho. cbn [mbind exec_bind defined]. rewrite Hr. cbn [mbind exec_bind]. unfold removed. cbn.
  destruct (max_ s <=? o); cbn; destruct (o <=? min_ s); cbn; by rewrite ?orb_true_r, ?orb_false_r.
Qed.

(** A sample that comes when the ring is full takes the place of the oldest. *)
Lemma AddSample_accumulates s w x : accumulates s w -> exists s', AddSample x s = Done s' /\ accumulates s' (push (max_count s) x w) /\ max_count s' = max_count s.
Proof.
  intros [(Hlen & Hpos & Hcount & Hsize & Hord) Hmax Hmin Hmaxin Hminin Hstale Hempty]. rewrite AddSample_run, Hcount. pose proof (push_length (max_count s) x w Hlen Hpos) as Hpl.
  destruct (Nat.eqb_spec (length w) (max_count s)) as [Hfull|Hnot].
  - rewrite Hfull, Nat.ltb_irrefl in Hord. destruct Hord as [Hn Hw]. destruct (ring_step (samples_ s) w (next_index_ s) x Hn Hw) as (Hhead & Hn' & Hw').
    destruct w as [|o w]; [cbn in Hfull; lia|]. cbn [head tail length] in *. destruct (RemoveSample_run o (stats_ s) (length w)) as (r & Hr & Hrs); [unfold count in Hcount; lia|].
    rewrite (remove_oldest_run o r s Hhead Hr). cbn [mbind exec_bind]. change (samples_ (removed o r s)) with (samples_ s). change (next_index_ (removed o r s)) with (next_index_ s). rewrite Hhead. cbn [mbind exec_bind defined].
    assert (push (max_count s) x (o :: w) = w ++ [x]) as Hpush by (unfold push; cbn [length tail]; by rewrite Hfull, Nat.eqb_refl). rewrite Hpush in *.
    assert (count (removed o r s) = length w) as Hc1 by (unfold count; cbn; rewrite Hrs; lia). eexists. split; [reflexivity|]. split; [|unfold max_count; cbn; by rewrite length_insert].
    assert (forall y, In y (w ++ [x]) <-> y = x \/ In y w) as Hin by (intros y; rewrite in_app_iff; cbn; intuition congruence).
    split; unfold added; cbn [max_ min_ max_stale_ min_stale_]; rewrite ?Hc1; change (max_ (removed o r s)) with (max_ s); change (min_ (removed o r s)) with (min_ s);
      change (max_stale_ (removed o r s)) with (max_stale_ s || (max_ s <=? o)); change (min_stale_ (removed o r s)) with (min_stale_ s || (o <=? min_ s)).
    + unfold ordered, max_count, count, Size in *. cbn [stats_ next_index_ samples_ removed Running.AddSample size_]. rewrite length_insert, length_app, Hrs. cbn [length]. rewrite (proj2 (Nat.ltb_ge _ _)) by lia. split_and!; try lia; done.
    + intros y [->|Hy]%Hin; destruct (Nat.eqb_spec (length w) 0%nat) as [Hz|Hz], (Z.leb_spec (max_ s) x); cbn; try lia; try (destruct w; done); [etrans; [apply Hmax; by right|done]|apply Hmax; by right].
    + intros y [->|Hy]%Hin; destruct (Nat.eqb_spec (length w) 0%nat) as [Hz|Hz], (Z.leb_spec x (min_ s)); cbn; try lia; try (destruct w; done); [etrans; [done|apply Hmin; by right]|apply Hmin; by right].
    + intros Hst _. apply Hin. destruct (Nat.eqb_spec (length w) 0%nat) as [Hz|Hz], (Z.leb_spec (max_ s) x); cbn in *; try (by left). apply orb_false_iff in Hst as [Hst Hle]. right. apply Z.leb_gt in Hle. destruct (Hmaxin Hst ltac:(done)) as [->|]; [lia|done].
    + intros Hst _. apply Hin. destruct (Nat.eqb_spec (length w) 0%nat) as [Hz|Hz], (Z.leb_spec x (min_ s)); cbn in *; try (by left). apply orb_false_iff in Hst as [Hst Hle]. right. apply Z.leb_gt in Hle. destruct (Hminin Hst ltac:(done)) as [->|]; [lia|done].
    + intros Hne. exfalso. apply Hne. unfold max_count. cbn. rewrite length_insert, length_app. cbn. unfold max_count in Hfull. lia.
    + intros Hnil. by destruct w.
  - rewrite (proj2 (Nat.ltb_lt _ _)) in Hord by lia. destruct Hord as [Hn Hw]. destruct (prefix_step (samples_ s) w x ltac:(unfold max_count in *; lia) Hw) as ([o Ho] & Hnext).
    cbn [mbind exec_bind]. rewrite Hn, Ho. cbn [mbind exec_bind defined]. eexists. split; [reflexivity|]. split; [|unfold max_count; cbn; by rewrite length_insert].
    assert (push (max_count s) x w = w ++ [x]) as Hpush by (unfold push; by rewrite (proj2 (Nat.eqb_neq _ _) Hnot)). rewrite Hpush in *. destruct (Hstale Hnot) as [Hs1 Hs2].
    assert (forall y, In y (w ++ [x]) <-> y = x \/ In y w) as Hin by (intros y; rewrite in_app_iff; cbn; intuition congruence).
    split; unfold added; cbn [max_ min_ max_stale_ min_stale_]; rewrite ?Hcount, ?Hs1, ?Hs2.
    + unfold ordered, max_count, count, Size in *. cbn [stats_ next_index_ samples_ Running.AddSample size_]. rewrite length_insert, length_app, Hn. cbn [length]. split_and!; try lia. done.
    + intros y [->|Hy]%Hin; destruct (Nat.eqb_spec (length w) 0%nat) as [Hz|Hz], (Z.leb_spec (max_ s) x); cbn; try lia; try (destruct w; done); [etrans; [by apply Hmax|done]|by apply Hmax].
    + intros y [->|Hy]%Hin; destruct (Nat.eqb_spec (length w) 0%nat) as [Hz|Hz], (Z.leb_spec x (min_ s)); cbn; try lia; try (destruct w; done); [etrans; [done|by apply Hmin]|by apply Hmin].
    + intros _ _. apply Hin. destruct (Nat.eqb_spec (length w) 0%nat) as [Hz|Hz], (Z.leb_spec (max_ s) x); cbn; try (by left). right. apply Hmaxin; [done|by destruct w].
    + intros _ _. apply Hin. destruct (Nat.eqb_spec (length w) 0%nat) as [Hz|Hz], (Z.leb_spec x (min_ s)); cbn; try (by left). right. apply Hminin; [done|by destruct w].
    + intros _. by destruct (_ || _), (_ || _).
    + intros Hnil. by destruct w.
Qed.

(** The loops go over the ring from the oldest sample on. *)
Lemma scan_run op s w n i m : (next_index_ s < max_count s)%nat -> skipn (next_index_ s) (samples_ s) ++ firstn (next_index_ s) (samples_ s) = w -> (i + n <= length w)%nat ->
  scan op n i s m = Done (fold_left op (firstn n (skipn i w)) m).
Proof.
  intros Hn Hw. revert i m. induction n as [|n IH]; intros i m Hin; cbn [scan]; [done|].
  assert (samples_ s !! ((next_index_ s + i) mod max_count s)%nat = w !! i) as ->.
  { assert (length w = max_count s) as Hl by (rewrite <- Hw, length_app, length_skipn, length_firstn; unfold max_count in *; lia). rewrite <- Hw. unfold max_count in *. destruct (Nat.lt_ge_cases (next_index_ s + i) (length (samples_ s))).
    - rewrite Nat.mod_small by done. by rewrite lookup_app_l, lookup_drop by (rewrite length_skipn; lia).
    - replace (next_index_ s + i)%nat with (next_index_ s + i - length (samples_ s) + 1 * length (samples_ s))%nat by lia. rewrite Nat.Div0.mod_add, Nat.mod_small by lia.
      rewrite lookup_app_r, length_skipn, lookup_take_lt by (rewrite ?length_skipn; lia). f_equal. lia. }
  destruct (lookup_lt_is_Some_2 w i ltac:(lia)) as [x Hx]. rewrite Hx. cbn [mbind exec_bind defined]. rewrite IH by lia. rewrite (drop_S w x i Hx). by rewrite Nat.add_1_r.
Qed.

Lemma ComputeMax_run s w : accumulates s w -> exists s', ComputeMax s = Done (greatest w, s') /\ accumulates s' w /\ max_count s' = max_count s.
Proof.
  intros [(Hlen & Hpos & Hcount & Hsize & Hord) Hmax Hmin Hmaxin Hminin Hstale Hempty]. unfold ComputeMax. destruct (max_stale_ s) eqn:Est.
  - destruct (Nat.eq_dec (length w) (max_count s)) as [Hfull|Hnot]; [|by destruct (Hstale Hnot)]. rewrite Hfull, Nat.ltb_irrefl in Hord. destruct Hord as [Hn Hw]. destruct w as [|x w]; [cbn in Hfull; lia|].
    rewrite Hcount, RTC_DCHECK_true by done. destruct (ring_step (samples_ s) (x :: w) (next_index_ s) 0 Hn Hw) as (-> & _). cbn [head mbind exec_bind defined].
    rewrite (scan_run Z.max s (x :: w)) by (try done; cbn; lia). cbn [length skipn mbind exec_bind]. replace (Datatypes.S (length w) - 1)%nat with (length w) by lia. rewrite firstn_all.
    eexists. split; [reflexivity|]. split; [|done]. destruct (fold_max w x) as [Hin Hle]. split; try done.
    unfold ordered. change (count (set_max _ _ s)) with (count s). change (max_count (set_max _ _ s)) with (max_count s). cbn [stats_ set_max next_index_ samples_]. rewrite Hfull, Nat.ltb_irrefl. split_and!; (done || lia).
  - exists s. split; [|split; [|done]].
    + f_equal. f_equal. destruct w as [|x w]; [by destruct (Hempty eq_refl)|]. symmetry. apply greatest_unique; auto.
    + by split; rewrite ?Est.
Qed.

Lemma ComputeMin_run s w : accumulates s w -> exists s', ComputeMin s = Done (least w, s') /\ accumulates s' w /\ max_count s' = max_count s.
Proof.
  intros [(Hlen & Hpos & Hcount & Hsize & Hord) Hmax Hmin Hmaxin Hminin Hstale Hempty]. unfold ComputeMin. destruct (min_stale_ s) eqn:Est.
  - destruct (Nat.eq_dec (length w) (max_count s)) as [Hfull|Hnot]; [|by destruct (Hstale Hnot)]. rewrite Hfull, Nat.ltb_irrefl in Hord. destruct Hord as [Hn Hw]. destruct w as [|x w]; [cbn in Hfull; lia|].
    rewrite Hcount, RTC_DCHECK_true by done. destruct (ring_step (samples_ s) (x :: w) (next_index_ s) 0 Hn Hw) as (-> & _). cbn [head mbind exec_bind defined].
    rewrite (scan_run Z.min s (x :: w)) by (try done; cbn; lia). cbn [length skipn mbind exec_bind]. replace (Datatypes.S (length w) - 1)%nat with (length w) by lia. rewrite firstn_all.
    eexists. split; [reflexivity|]. split; [|done]. destruct (fold_min w x) as [Hin Hle]. split; try done.
    unfold ordered. change (count (set_min _ _ s)) with (count s). change (max_count (set_min _ _ s)) with (max_count s). cbn [stats_ set_min next_index_ samples_]. rewrite Hfull, Nat.ltb_irrefl. split_and!; (done || lia).
  - exists s. split; [|split; [|done]].
    + f_equal. f_equal. destruct w as [|x w]; [by destruct (Hempty eq_refl)|]. symmetry. apply least_unique; auto.
    + by split; rewrite ?Est.
Qed.

Lemma Reset_accumulates s : (0 < max_count s)%nat -> accumulates (Reset s) [] /\ max_count (Reset s) = max_count s.
Proof.
  intros Hs. split; [|done]. split; try done. unfold ordered. change (max_count (Reset s)) with (max_count s). cbn [length]. rewrite (proj2 (Nat.ltb_lt _ _) Hs). split_and!; (done || lia).
Qed.

End Rolling.
End Rolling.

(** ** MovingMaxCounter *)

Module MovingMax.
Section MovingMax.
Context {build : Build} (window_length_ms_ : Z).

(** Pairs of a time and a sample.  [last_call_time_ms_] is there in debug builds only. *)
Record MovingMaxCounter := mkCounter { samples_ : list (Z * Z); last_call_time_ms_ : Z }.

Definition new_counter : MovingMaxCounter := mkCounter [] (IntTypes.lowest Int64).

(** The loop of [RollWindow] and [erase] of what it went over. *)
Fixpoint drop_before (window_begin_ms : Z) (l : list (Z * Z)) : list (Z * Z) :=
  match l with
  | [] => []
  | p :: l' => if p.1 <? window_begin_ms then drop_before window_begin_ms l' else l
  end.

Definition RollWindow (new_time_ms : Z) (c : MovingMaxCounter) : exec MovingMaxCounter :=
  RTC_DCHECK (last_call_time_ms_ c <=? new_time_ms) (
    let last := if rtc_dcheck_is_on then new_time_ms else last_call_time_ms_ c in
    window_begin_ms ← defined (c_sub Int64 Int64 new_time_ms window_length_ms_);
    Done (mkCounter (drop_before window_begin_ms (samples_ c)) last)).

(** The loop of [Add] with [pop_back]: on the samples with the last one first. *)
Fixpoint pop_smaller (sample : Z) (l : list (Z * Z)) : list (Z * Z) :=
  match l with
  | [] => []
  | p :: l' => if p.2 <=? sample then pop_smaller sample l' else l
  end.

(** [samples_.back()], when there is one. *)
Definition back (l : list (Z * Z)) : option (Z * Z) := head (rev l).

Definition Add (sample current_time_ms : Z) (c : MovingMaxCounter) : exec MovingMaxCounter :=
  c ← RollWindow current_time_ms c;
  let l := rev (pop_smaller sample (rev (samples_ c))) in
  let l := match back l with
           | Some p => if p.1 <? current_time_ms then l ++ [(current_time_ms, sample)] else l
           | None => l ++ [(current_time_ms, sample)]
           end in
  Done (mkCounter l (last_call_time_ms_ c)).

Definition Max (current_time_ms : Z) (c : MovingMaxCounter) : exec (option Z * MovingMaxCounter) :=
  c ← RollWindow current_time_ms c; Done (snd <$> head (samples_ c), c).

Definition Reset (c : MovingMaxCounter) : MovingMaxCounter := mkCounter [] (last_call_time_ms_ c).

(** *** The greatest sample of a window *)

Definition window_max (w : Z) (history : list (Z * Z)) : option Z :=
  fold_right (fun p r => if w <=? p.1 then Some (match r with Some m => Z.max m p.2 | None => p.2 end) else r) None history.

Lemma window_max_spec w h : match window_max w h with
  | Some m => (exists p, In p h /\ w <= p.1 /\ p.2 = m) /\ forall p, In p h -> w <= p.1 -> p.2 <= m
  | None => forall p, In p h -> p.1 < w
  end.
Proof.
  induction h as [|p h IH]; cbn [window_max fold_right]; [intros p []|]. fold (window_max w h). destruct (Z.leb_spec w p.1) as [Hw|Hw].
  - destruct (window_max w h) as [m|].
    + destruct IH as [(q & Hq & Hwq & Hm) Hle]. split.
      * destruct (Z.max_spec m p.2) as [[_ ->]|[_ ->]]; [exists p; split_and!; [by left|done|done]|exists q; split_and!; [by right|done|done]].
      * intros r [->|Hr] Hwr; [lia|]. specialize (Hle r Hr Hwr). lia.
    + split; [exists p; split_and!; [by left|done|done]|]. intros r [->|Hr] Hwr; [lia|]. specialize (IH r Hr). lia.
  - destruct (window_max w h) as [m|].
    + destruct IH as [(q & Hq & Hwq & Hm) Hle]. split; [exists q; split_and!; [by right|done|done]|]. intros r [->|Hr] Hwr; [lia|by apply Hle].
    + intros r [->|Hr]; [done|by apply IH].
Qed.

Lemma window_max_unique w h m : (exists p, In p h /\ w <= p.1 /\ p.2 = m) -> (forall p, In p h -> w <= p.1 -> p.2 <= m) -> window_max w h = Some m.
Proof.
  intros (p & Hp & Hw & <-) Hle. pose proof (window_max_spec w h) as Hs. destruct (window_max w h) as [m|].
  - destruct Hs as [(q & Hq & Hwq & <-) Hle']. f_equal. apply Z.le_antisymm; auto.
  - specialize (Hs p Hp). lia.
Qed.

(** *** The samples that are kept *)

(** Later ones are smaller; each is one of the history; and what came since [w] is not
    greater than one that is kept and not older. *)
Record keeps (l history : list (Z * Z)) (w t : Z) : Prop := {
  keeps_sorted : StronglySorted (fun p q => p.1 < q.1 /\ q.2 < p.2) l;
  keeps_from : forall p, In p l -> In p history;
  keeps_all : forall p, In p history -> w <= p.1 -> exists q, In q l /\ p.1 <= q.1 /\ p.2 <= q.2;
  keeps_time : forall p, In p history -> p.1 <= t
}.

Lemma drop_before_app w l : exists k, l = k ++ drop_before w l /\ forall p, In p k -> p.1 < w.
Proof.
  induction l as [|p l (k & Hk & Hlt)]; cbn [drop_before]; [exists []; split; [done|intros p []]|].
  destruct (Z.ltb_spec p.1 w); [|exists []; split; [done|intros q []]]. exists (p :: k). split; [cbn; by f_equal|]. intros q [<-|Hq]; [done|by apply Hlt].
Qed.

Lemma sorted_app_r (R : Z * Z -> Z * Z -> Prop) k l : StronglySorted R (k ++ l) -> StronglySorted R l.
Proof. induction k as [|x k IH]; [done|]. intros H. apply IH. by inversion H. Qed.

Lemma sorted_app_l (R : Z * Z -> Z * Z -> Prop) k l : StronglySorted R (k ++ l) -> StronglySorted R k.
Proof.
  induction k as [|x k IH]; intros H; [constructor|]. inversion_clear H as [|? ? Hs Hf]. constructor; [by apply IH|]. rewrite List.Forall_forall in *. intros y Hy. apply Hf, in_or_app. by left.
Qed.

Lemma drop_before_keeps l h w0 w t : keeps l h w0 t -> w0 <= w -> keeps (drop_before w l) h w t /\ (forall p, In p (drop_before w l) -> w <= p.1).
Proof.
  intros [Hs Hf Ha Ht] Hw. destruct (drop_before_app w l) as (k & Hk & Hlt). split; [split; [by rewrite Hk in Hs; eapply sorted_app_r| |..|done]|].
  - intros p Hp. apply Hf. rewrite Hk. apply in_or_app. by right.
  - intros p Hp Hwp. destruct (Ha p Hp ltac:(lia)) as (q & Hq & Hle & Hle2). exists q. split; [|done]. rewrite Hk in Hq. apply in_app_or in Hq as [Hq|Hq]; [|done]. specialize (Hlt q Hq). lia.
  - clear Hk Hlt k Hf Ha. induction l as [|p l IH]; [intros q []|]. cbn [drop_before]. inversion_clear Hs as [|? ? Hs' Hf]. destruct (Z.ltb_spec p.1 w); [by apply IH|].
    rewrite List.Forall_forall in Hf. intros q [<-|Hq]; [done|]. destruct (Hf q Hq). lia.
Qed.

Lemma pop_smaller_app s l : exists k, rev l = rev (pop_smaller s l) ++ k /\ (forall p, In p k -> p.2 <= s) /\ match head (pop_smaller s l) with Some p => s < p.2 | None => True end.
Proof.
  induction l as [|p l (k & Hk & Hle & Hh)]; cbn [pop_smaller]; [exists []; split_and!; [done|intros p []|done]|].
  destruct (Z.leb_spec p.2 s); [|exists []; split_and!; [by rewrite app_nil_r|intros q []|done]]. exists (k ++ [p]). split_and!; [cbn; by rewrite Hk, app_assoc| |done].
  intros q Hq. apply in_app_or in Hq as [Hq|[<-|[]]]; [by apply Hle|done].
Qed.

Lemma sorted_snoc (R : Z * Z -> Z * Z -> Prop) l x : StronglySorted R l -> (forall y, In y l -> R y x) -> StronglySorted R (l ++ [x]).
Proof.
  induction 1 as [|y l Hs IH Hf]; intros Hx; cbn; [constructor; constructor|]. constructor; [apply IH; intros z Hz; apply Hx; by right|].
  rewrite List.Forall_forall in *. intros z Hz. apply in_app_or in Hz as [Hz|[<-|[]]]; [by apply Hf|apply Hx; by left].
Qed.

Lemma sorted_last l p q : StronglySorted (fun p q => p.1 < q.1 /\ q.2 < p.2) (l ++ [p]) -> In q (l ++ [p]) -> q.1 <= p.1 /\ p.2 <= q.2.
Proof.
  induction l as [|r l IH]; cbn; intros Hs Hq; [destruct Hq as [<-|[]]; lia|]. inversion_clear Hs as [|? ? Hs' Hf]. destruct Hq as [<-|Hq]; [|by apply IH].
  rewrite List.Forall_forall in Hf. destruct (Hf p); [apply in_or_app; right; by left|lia].
Qed.

Lemma back_Some l p : back l = Some p -> exists k, l = k ++ [p].
Proof.
  unfold back. intros H. rewrite <- (rev_involutive l). destruct (rev l) as [|q m]; [done|]. cbn in *. simplify_eq. by exists (rev m).
Qed.

Lemma Add_keeps l h w t t' s : keeps l h w t -> t <= t' ->
  let l1 := rev (pop_smaller s (rev l)) in
  keeps (match back l1 with Some p => if p.1 <? t' then l1 ++ [(t', s)] else l1 | None => l1 ++ [(t', s)] end) (h ++ [(t', s)]) w t'.
Proof.
  intros [Hs Hf Ha Ht] Htt l1. destruct (pop_smaller_app s (rev l)) as (k & Hk & Hle & Hh). rewrite rev_involutive in Hk. fold l1 in Hk.
  assert (forall p, In p l1 -> In p l) as Hsub by (intros p Hp; rewrite Hk; apply in_or_app; by left).
  assert (StronglySorted (fun p q => p.1 < q.1 /\ q.2 < p.2) l1) as Hs1 by (rewrite Hk in Hs; by eapply sorted_app_l).
  assert (forall p, In p h -> w <= p.1 -> (exists q, In q l1 /\ p.1 <= q.1 /\ p.2 <= q.2) \/ p.2 <= s) as Hdom.
  { intros p Hp Hw. destruct (Ha p Hp Hw) as (q & Hq & Hle1 & Hle2). rewrite Hk in Hq. apply in_app_or in Hq as [Hq|Hq]; [left; by exists q|right]. specialize (Hle q Hq). lia. }
  assert (forall p, In p (h ++ [(t', s)]) -> p.1 <= t') as Htime. { intros p Hp. apply in_app_or in Hp as [Hp|[<-|[]]]; [specialize (Ht p Hp); lia|done]. }
  assert (match back l1 with Some p => s < p.2 | None => l1 = [] end) as Hlast.
  { destruct (pop_smaller s (rev l)) as [|p m] eqn:E; unfold l1, back; rewrite rev_involutive; cbn; [done|exact Hh]. }
  assert ((forall q, In q l1 -> q.1 < t' /\ s < q.2) -> keeps (l1 ++ [(t', s)]) (h ++ [(t', s)]) w t') as Happ.
  { intros Hlt. split; [by apply sorted_snoc| | |done].
    - intros p Hp. apply in_app_or in Hp as [Hp|Hp]; apply in_or_app; [left; by apply Hf, Hsub|by right].
    - intros p Hp Hw. apply in_app_or in Hp as [Hp|[<-|[]]].
      + destruct (Hdom p Hp Hw) as [(q & Hq & ?)|Hle1]; [exists q; split; [apply in_or_app; by left|done]|]. exists (t', s). split; [apply in_or_app; right; by left|]. split; [specialize (Ht p Hp); cbn; lia|done].
      + exists (t', s). split; [apply in_or_app; right; by left|done]. }
  destruct (back l1) as [p|] eqn:El; [|apply Happ; rewrite Hlast; intros q []]. apply back_Some in El as [l2 El]. rewrite El in *. destruct (Z.ltb_spec p.1 t') as [Hlt|Hge].
  - apply Happ. intros q Hq. destruct (sorted_last l2 p q Hs1 Hq). lia.
  - split; [done| | |done].
    + intros q Hq. apply in_or_app. left. by apply Hf, Hsub.
    + assert (p.1 = t') as Heq. { specialize (Ht p (Hf p (Hsub p ltac:(apply in_or_app; right; by left)))). lia. }
      assert (In p (l2 ++ [p])) as Hin by (apply in_or_app; right; by left). intros q Hq Hw. pose proof (Htime q Hq) as Hqt. apply in_app_or in Hq as [Hq|[<-|[]]]; [|exists p; split; [done|cbn; lia]].
      destruct (Hdom q Hq Hw) as [(r & Hr & Hle1 & Hle2)|Hle1]; [by exists r|]. exists p. split; [done|lia].
Qed.

Lemma keeps_front l h w t : keeps l h w t -> (forall p, In p l -> w <= p.1) -> snd <$> head l = window_max w h.
Proof.
  intros [Hs Hf Ha Ht] Hw. symmetry. destruct l as [|p l]; cbn.
  - pose proof (window_max_spec w h) as Hm. destruct (window_max w h) as [m|]; [|done]. destruct Hm as [(q & Hq & Hwq & _) _]. by destruct (Ha q Hq Hwq) as (? & [] & _).
  - apply window_max_unique; [exists p; split_and!; [apply Hf; by left|apply Hw; by left|done]|]. intros q Hq Hwq. destruct (Ha q Hq Hwq) as (r & [<-|Hr] & Hle1 & Hle2); [done|].
    inversion_clear Hs as [|? ? _ Hall]. rewrite List.Forall_forall in Hall. destruct (Hall r Hr). lia.
Qed.

(** *** Calls *)

Inductive call := CallAdd (sample time : Z) | CallMax (time : Z) | CallReset.

Fixpoint run_calls (cs : list call) (c : MovingMaxCounter) : exec (list (option Z)) :=
  match cs with
  | [] => Done []
  | CallAdd s t :: cs => c ← Add s t c; run_calls cs c
  | CallMax t :: cs => r ← Max t c; l ← run_calls cs r.2; Done (r.1 :: l)
  | CallReset :: cs => run_calls cs (Reset c)
  end.

(** The answers of the calls: the greatest samples of the history, in the windows. *)
Fixpoint answers (cs : list call) (history : list (Z * Z)) : list (option Z) :=
  match cs with
  | [] => []
  | CallAdd s t :: cs => answers cs (history ++ [(t, s)])
  | CallMax t :: cs => window_max (t - window_length_ms_) history :: answers cs history
  | CallReset :: cs => answers cs []
  end.

(** The time does not go back, and the beginning of the window is a number. *)
Fixpoint clock (cs : list call) (now : Z) : bool :=
  match cs with
  | [] => true
  | CallAdd _ t :: cs | CallMax t :: cs => (now <=? t) && in_range Int64 t && in_range Int64 (t - window_length_ms_) && clock cs t
  | CallReset :: cs => clock cs now
  end.

Definition state_at (c : MovingMaxCounter) (h : list (Z * Z)) (now : Z) : Prop :=
  keeps (samples_ c) h (now - window_length_ms_) now /\ last_call_time_ms_ c <= now.

Lemma RollWindow_run c h now t : in_range Int64 window_length_ms_ = true -> state_at c h now -> now <= t -> in_range Int64 t = true -> in_range Int64 (t - window_length_ms_) = true ->
  exists c', RollWindow t c = Done c' /\ state_at c' h t /\ forall p, In p (samples_ c') -> t - window_length_ms_ <= p.1.
Proof.
  intros Hwin [Hk Hl] Ht Hr1 Hr2. unfold RollWindow. rewrite RTC_DCHECK_true by (apply Z.leb_le; lia). unfold c_sub. rewrite (c_binop_same _ Int64) by (by apply in_range_spec). cbn [mbind exec_bind defined].
  destruct (drop_before_keeps _ _ _ (t - window_length_ms_) _ Hk ltac:(lia)) as [[Hs Hf Ha Htime] Hge]. eexists. split; [reflexivity|]. split; [|exact Hge]. split; [|cbn; destruct rtc_dcheck_is_on; lia].
  split; try done. intros p Hp. specialize (Htime p Hp). lia.
Qed.

Lemma max_run_calls cs c h now : in_range Int64 window_length_ms_ = true -> state_at c h now -> clock cs now = true -> run_calls cs c = Done (answers cs h).
Proof.
  intros Hwin. revert c h now. induction cs as [|[s t|t|] cs IH]; intros c h now Hst Hclock; cbn [run_calls answers clock] in *; [done| | |].
  - rewrite !andb_true_iff, Z.leb_le in Hclock. destruct Hclock as [[[Ht Hr1] Hr2] Hcs]. destruct (RollWindow_run c h now t Hwin Hst Ht Hr1 Hr2) as (c' & Hroll & [Hk' Hl'] & _).
    unfold Add. rewrite Hroll. cbn [mbind exec_bind]. eapply IH; [|done]. split; [|done]. cbn. apply (Add_keeps _ _ _ t t s Hk' ltac:(lia)).
  - rewrite !andb_true_iff, Z.leb_le in Hclock. destruct Hclock as [[[Ht Hr1] Hr2] Hcs]. destruct (RollWindow_run c h now t Hwin Hst Ht Hr1 Hr2) as (c' & Hroll & Hst' & Hge).
    unfold Max. rewrite Hroll. cbn [mbind exec_bind fst snd]. rewrite (IH c' h t Hst' Hcs). cbn [mbind exec_bind]. by rewrite (keeps_front _ _ _ _ (proj1 Hst') Hge).
  - eapply IH; [|done]. destruct Hst as [_ Hl]. split; [|done]. split; cbn; [constructor|intros p []..].
Qed.

End MovingMax.

End MovingMax.

(** ** PercentileFilter *)

Module Percentile.
Section Percentile.
Context (percentile_ : spec_float).

(** The multiset in order.  An iterator is the position of its element, which moves with
    what is inserted or erased before it; at the end it is the size. *)
Record PercentileFilter := mkFilter { set_ : list Z; percentile_it_ : Z; percentile_index_ : Z }.

(** [upper_bound] and [lower_bound]. *)
Fixpoint upper_bound (x : Z) (l : list Z) : nat := match l with [] => 0%nat | y :: l => if x <? y then 0%nat else Datatypes.S (upper_bound x l) end.
Fixpoint lower_bound (x : Z) (l : list Z) : nat := match l with [] => 0%nat | y :: l => if x <=? y then 0%nat else Datatypes.S (lower_bound x l) end.

Definition PercentileFilter_new : exec PercentileFilter :=
  RTC_CHECK (SFleb (of_int Float 0) percentile_) (RTC_CHECK (SFleb percentile_ (of_int Float 1)) (Done (mkFilter [] 0 0))).

Definition size (f : PercentileFilter) : Z := Z.of_nat (length (set_ f)).

(** The element of an iterator. *)
Definition element (it : Z) (l : list Z) : exec Z := if 0 <=? it then defined (l !! Z.to_nat it) else Undef.

(** The index that is computed. *)
Definition target_index (size : Z) : option Z := float_to_int Int64 (f_mul Float percentile_ (of_int Float (size - 1))).

Definition UpdatePercentileIterator (f : PercentileFilter) : exec PercentileFilter :=
  if size f =? 0 then Done f else
  index ← defined (target_index (size f));
  let it := percentile_it_ f + (index - percentile_index_ f) in
  if (0 <=? it) && (it <=? size f) then Done (mkFilter (set_ f) it index) else Undef.

Definition Insert (value : Z) (f : PercentileFilter) : exec PercentileFilter :=
  let pos := upper_bound value (set_ f) in
  let l := firstn pos (set_ f) ++ value :: skipn pos (set_ f) in
  let it := if (Z.of_nat pos <=? percentile_it_ f) then percentile_it_ f + 1 else percentile_it_ f in
  f ← (if Z.of_nat (length l) =? 1 then Done (mkFilter l 0 0)
       else
         x ← element it l;
         Done (mkFilter l it (if value <? x then percentile_index_ f + 1 else percentile_index_ f)));
  UpdatePercentileIterator f.

Definition Erase (value : Z) (f : PercentileFilter) : exec (bool * PercentileFilter) :=
  let it := lower_bound value (set_ f) in
  match set_ f !! it with
  | None => Done (false, f)
  | Some x =>
      if negb (x =? value) then Done (false, f) else
      let l := delete it (set_ f) in
      f ← (if Z.of_nat it =? percentile_it_ f then Done (mkFilter l (percentile_it_ f) (percentile_index_ f))
           else
             let p := if Z.of_nat it <? percentile_it_ f then percentile_it_ f - 1 else percentile_it_ f in
             y ← element p l;
             Done (mkFilter l p (if value <=? y then percentile_index_ f - 1 else percentile_index_ f)));
      f ← UpdatePercentileIterator f;
      Done (true, f)
  end.

Definition GetPercentileValue (f : PercentileFilter) : exec Z := if size f =? 0 then Done 0 else element (percentile_it_ f) (set_ f).

Definition Reset (f : PercentileFilter) : PercentileFilter := mkFilter [] 0 0.

(** *** The element at the index *)

(** The iterator is where the index says, and the elements are in order. *)
Record well_placed (f : PercentileFilter) : Prop := {
  placed_sorted : StronglySorted Z.le (set_ f);
  placed_it : percentile_it_ f = percentile_index_ f;
  placed_at : if size f =? 0 then percentile_it_ f = 0 else target_index (size f) = Some (percentile_it_ f)
}.

(** The index is one of the elements, up to a size. *)
Definition index_within (n : Z) : Prop := forall k, 0 < k <= n -> exists i, target_index k = Some i /\ 0 <= i < k.

Definition sorted_insert (x : Z) (l : list Z) : list Z := firstn (upper_bound x l) l ++ x :: skipn (upper_bound x l) l.

Lemma sorted_insert_cons x y l : sorted_insert x (y :: l) = if x <? y then x :: y :: l else y :: sorted_insert x l.
Proof. unfold sorted_insert. cbn [upper_bound]. by destruct (x <? y). Qed.

Lemma sorted_insert_sorted x l : StronglySorted Z.le l -> StronglySorted Z.le (sorted_insert x l).
Proof.
  induction 1 as [|y l Hs IH Hall]; [repeat constructor|]. rewrite sorted_insert_cons. destruct (Z.ltb_spec x y).
  - constructor; [by constructor|]. constructor; [lia|]. rewrite List.Forall_forall in *. intros z Hz. specialize (Hall z Hz). lia.
  - constructor; [done|]. rewrite List.Forall_forall in *. intros z Hz. unfold sorted_insert in Hz. apply in_app_or in Hz as [Hz|[<-|Hz]]; [|done|].
    + apply Hall. rewrite <- (firstn_skipn (upper_bound x l) l). apply in_or_app. by left.
    + apply Hall. rewrite <- (firstn_skipn (upper_bound x l) l). apply in_or_app. by right.
Qed.

Lemma upper_bound_le x l : (upper_bound x l <= length l)%nat.
Proof. induction l as [|y l IH]; cbn; [done|]. destruct (x <? y); lia. Qed.

(** What is before the upper bound is not greater, and what is not before is greater. *)
Lemma upper_bound_spec x l i y : StronglySorted Z.le l -> l !! i = Some y -> if (i <? upper_bound x l)%nat then y <= x else x < y.
Proof.
  intros Hs. revert i. induction Hs as [|z l Hs IH Hall]; intros i Hi; [done|]. cbn [upper_bound]. destruct (Z.ltb_spec x z).
  - cbn. rewrite List.Forall_forall in Hall. destruct i as [|i]; cbn in Hi; [by simplify_eq|]. specialize (Hall y ltac:(by eapply list_elem_of_In, list_elem_of_lookup_2)). lia.
  - destruct i as [|i]; cbn in Hi; [by simplify_eq|]. exact (IH i Hi).
Qed.

Lemma lower_bound_spec x l i y : StronglySorted Z.le l -> l !! i = Some y -> if (i <? lower_bound x l)%nat then y < x else x <= y.
Proof.
  intros Hs. revert i. induction Hs as [|z l Hs IH Hall]; intros i Hi; [done|]. cbn [lower_bound]. destruct (Z.leb_spec x z).
  - cbn. rewrite List.Forall_forall in Hall. destruct i as [|i]; cbn in Hi; [by simplify_eq|]. specialize (Hall y ltac:(by eapply list_elem_of_In, list_elem_of_lookup_2)). lia.
  - destruct i as [|i]; cbn in Hi; [by simplify_eq|]. exact (IH i Hi).
Qed.

Lemma delete_sorted i l : StronglySorted Z.le l -> StronglySorted Z.le (delete i l).
Proof.
  intros Hs. revert i. induction Hs as [|x l Hs IH Hall]; intros i; [destruct i; constructor|]. destruct i as [|i]; cbn; [done|]. constructor; [apply IH|]. rewrite List.Forall_forall in *. intros y Hy. apply Hall. apply list_elem_of_In. eapply list_elem_of_delete_inv, list_elem_of_In, Hy.
Qed.

Lemma lower_bound_absent x l : StronglySorted Z.le l -> (forall y, l !! lower_bound x l = Some y -> y <> x) -> ~ In x l.
Proof.
  intros Hs Hne [i Hi]%list_elem_of_In%list_elem_of_lookup. pose proof (lower_bound_spec x l i x Hs Hi) as H1. destruct (Nat.ltb_spec i (lower_bound x l)); [lia|].
  assert (is_Some (l !! lower_bound x l)) as [y Hy]. { apply lookup_lt_is_Some. pose proof (lookup_lt_Some _ _ _ Hi). lia. }
  pose proof (lower_bound_spec x l _ y Hs Hy) as H2. rewrite Nat.ltb_irrefl in H2. apply (Hne y Hy). destruct (Nat.eq_dec i (lower_bound x l)) as [->|]; [by simplify_eq|].
  assert (y <= x); [|lia]. clear -Hs Hi Hy n H. revert i Hi n H. generalize (lower_bound x l) as j, Hy. clear Hy. induction Hs as [|z l Hs IH Hall]; intros j Hy i Hi Hn Hle; [done|].
  rewrite List.Forall_forall in Hall. destruct j as [|j]; cbn in Hy.
  - simplify_eq. destruct i as [|i]; [lia|]. cbn in Hi. apply Hall. by eapply list_elem_of_In, list_elem_of_lookup_2.
  - destruct i as [|i]; [lia|]. cbn in Hi. apply (IH j Hy i Hi); lia.
Qed.

Lemma UpdatePercentileIterator_run f n : 0 < size f <= n -> index_within n -> StronglySorted Z.le (set_ f) -> percentile_it_ f = percentile_index_ f ->
  exists f', UpdatePercentileIterator f = Done f' /\ well_placed f' /\ set_ f' = set_ f.
Proof.
  intros Hsize Hidx Hs Hit. unfold UpdatePercentileIterator. destruct (Z.eqb_spec (size f) 0); [lia|]. destruct (Hidx (size f) Hsize) as (i & Hi & Hr). rewrite Hi. cbn [mbind exec_bind defined].
  replace (percentile_it_ f + (i - percentile_index_ f)) with i by lia. rewrite (proj2 (Z.leb_le 0 i)), (proj2 (Z.leb_le i (size f))) by lia. cbn [andb]. eexists. split; [reflexivity|]. split; [|done].
  split; [done|done|]. unfold size in *. cbn. destruct (Z.eqb_spec (Z.of_nat (length (set_ f))) 0); [lia|done].
Qed.

Lemma element_run it l x : 0 <= it -> l !! Z.to_nat it = Some x -> element it l = Done x.
Proof. intros Hit Hx. unfold element. rewrite (proj2 (Z.leb_le 0 it)) by done. by rewrite Hx. Qed.

Lemma well_placed_range f n : well_placed f -> 0 < size f <= n -> index_within n -> 0 <= percentile_it_ f < size f.
Proof.
  intros [_ _ Hat] Hsize Hidx. destruct (Z.eqb_spec (size f) 0); [lia|]. destruct (Hidx (size f) Hsize) as (i & Hi & Hr). rewrite Hi in Hat. by injection Hat as <-.
Qed.

Lemma Insert_run value f n : well_placed f -> size f < n -> index_within n -> exists f', Insert value f = Done f' /\ well_placed f' /\ set_ f' = sorted_insert value (set_ f).
Proof.
  intros Hf Hn Hidx. unfold Insert. fold (sorted_insert value (set_ f)). set (l := sorted_insert value (set_ f)). pose proof Hf as [Hs Hit Hat].
  assert (Z.of_nat (length l) = size f + 1) as Hlen. { unfold l, sorted_insert, size. pose proof (upper_bound_le value (set_ f)). rewrite length_app. cbn [length]. rewrite length_firstn, length_skipn. lia. }
  assert (StronglySorted Z.le l) as Hsl by (by apply sorted_insert_sorted). rewrite Hlen. destruct (Z.eqb_spec (size f + 1) 1) as [Hz|Hz].
  - cbn [mbind exec_bind]. apply (UpdatePercentileIterator_run (mkFilter l 0 0) n); try done. unfold size in *. cbn. lia.
  - pose proof (Zle_0_nat (length (set_ f))). assert (0 < size f) by (unfold size in *; lia). pose proof (well_placed_range f n Hf ltac:(lia) Hidx) as Hr. pose proof (upper_bound_le value (set_ f)) as Hub.
    destruct (lookup_lt_is_Some_2 (set_ f) (Z.to_nat (percentile_it_ f))) as [x Hx]; [unfold size in *; lia|]. pose proof (upper_bound_spec value (set_ f) _ x Hs Hx) as Hspec.
    assert (element (if Z.of_nat (upper_bound value (set_ f)) <=? percentile_it_ f then percentile_it_ f + 1 else percentile_it_ f) l = Done x) as ->.
    { apply element_run; [destruct (Z.leb_spec (Z.of_nat (upper_bound value (set_ f))) (percentile_it_ f)); lia|]. unfold l, sorted_insert. destruct (Z.leb_spec (Z.of_nat (upper_bound value (set_ f))) (percentile_it_ f)).
      - rewrite lookup_app_r, length_firstn by (rewrite length_firstn; lia). replace (Z.to_nat (percentile_it_ f + 1) - upper_bound value (set_ f) `min` length (set_ f))%nat with (Datatypes.S (Z.to_nat (percentile_it_ f) - upper_bound value (set_ f))) by lia.
        etrans; [exact (lookup_drop _ _ _)|]. rewrite <- Hx. f_equal. lia.
      - rewrite lookup_app_l by (rewrite length_firstn; lia). by rewrite lookup_take_lt by lia. }
    cbn [mbind exec_bind]. apply (UpdatePercentileIterator_run (mkFilter l _ _) n); try done; [unfold size; cbn; lia|]. cbn.
    destruct (Nat.ltb_spec (Z.to_nat (percentile_it_ f)) (upper_bound value (set_ f))), (Z.leb_spec (Z.of_nat (upper_bound value (set_ f))) (percentile_it_ f)), (Z.ltb_spec value x); lia.
Qed.

(** The first occurrence taken out. *)
Fixpoint remove_one (x : Z) (l : list Z) : list Z := match l with [] => [] | y :: l => if x =? y then l else y :: remove_one x l end.

Lemma delete_lower_bound x l : l !! lower_bound x l = Some x -> delete (lower_bound x l) l = remove_one x l.
Proof.
  induction l as [|y l IH]; [done|]. cbn [lower_bound remove_one]. destruct (Z.leb_spec x y); cbn; [intros [= ->]; by rewrite Z.eqb_refl|].
  intros Hx. destruct (Z.eqb_spec x y); [lia|]. f_equal. by apply IH.
Qed.

Lemma Erase_run value f n : well_placed f -> size f <= n -> index_within n ->
  exists b f', Erase value f = Done (b, f') /\ well_placed f' /\ if (b : bool) then In value (set_ f) /\ set_ f' = remove_one value (set_ f) else f' = f /\ ~ In value (set_ f).
Proof.
  intros Hf Hn Hidx. unfold Erase. pose proof Hf as [Hs Hit Hat]. destruct (set_ f !! lower_bound value (set_ f)) as [x|] eqn:Ex.
  2: { exists false, f. split_and!; [done|done|done|]. apply lower_bound_absent; [done|]. intros y Hy. by rewrite Hy in Ex. }
  destruct (Z.eqb_spec x value) as [->|Hne]; cbn [negb].
  2: { exists false, f. split_and!; [done|done|done|]. apply lower_bound_absent; [done|]. intros y Hy. rewrite Hy in Ex. by simplify_eq. }
  set (l := delete (lower_bound value (set_ f)) (set_ f)). pose proof (lookup_lt_Some _ _ _ Ex) as Hlb. assert (Z.of_nat (length l) = size f - 1) as Hlen by (unfold l, size; rewrite length_delete; [lia|by eexists]).
  assert (StronglySorted Z.le l) as Hsl by (by apply delete_sorted). assert (In value (set_ f) /\ l = remove_one value (set_ f)) as Hperm by (split; [by eapply list_elem_of_In, list_elem_of_lookup_2|by apply delete_lower_bound]).
  assert (0 < size f) by (unfold size; lia). pose proof (well_placed_range f n Hf ltac:(lia) Hidx) as Hr.
  assert (exists g, (if Z.of_nat (lower_bound value (set_ f)) =? percentile_it_ f then Done (mkFilter l (percentile_it_ f) (percentile_index_ f))
     else y ← element (if Z.of_nat (lower_bound value (set_ f)) <? percentile_it_ f then percentile_it_ f - 1 else percentile_it_ f) l;
       Done (mkFilter l (if Z.of_nat (lower_bound value (set_ f)) <? percentile_it_ f then percentile_it_ f - 1 else percentile_it_ f) (if value <=? y then percentile_index_ f - 1 else percentile_index_ f))) = Done g /\
     set_ g = l /\ percentile_it_ g = percentile_index_ g /\ (size f = 1 -> percentile_it_ g = 0)) as (g & -> & Hg & Hgi & Hg0).
  { destruct (Z.eqb_spec (Z.of_nat (lower_bound value (set_ f))) (percentile_it_ f)) as [Heq|Hneq]; [eexists; split_and!; [reflexivity|done|done|intros ?; cbn; lia]|].
    destruct (lookup_lt_is_Some_2 (set_ f) (Z.to_nat (percentile_it_ f))) as [y Hy]; [unfold size in *; lia|]. pose proof (lower_bound_spec value (set_ f) _ y Hs Hy) as Hspec.
    rewrite (element_run _ l y).
    - cbn [mbind exec_bind]. eexists. split_and!; [reflexivity|done| |intros ?; exfalso; unfold size in *; lia]. cbn. destruct (Nat.ltb_spec (Z.to_nat (percentile_it_ f)) (lower_bound value (set_ f))), (Z.ltb_spec (Z.of_nat (lower_bound value (set_ f))) (percentile_it_ f)), (Z.leb_spec value y); lia.
    - destruct (Z.ltb_spec (Z.of_nat (lower_bound value (set_ f))) (percentile_it_ f)); lia.
    - unfold l. destruct (Z.ltb_spec (Z.of_nat (lower_bound value (set_ f))) (percentile_it_ f)).
      + rewrite list_lookup_delete_ge by lia. rewrite <- Hy. f_equal. lia.
      + by rewrite list_lookup_delete_lt by lia. }
  cbn [mbind exec_bind]. destruct (Z.eq_dec (size f) 1) as [Hone|Hmore].
  - unfold UpdatePercentileIterator, size. rewrite Hg, Hlen, Hone. cbn. exists true, g. split_and!; [done| |apply Hperm|rewrite Hg; apply Hperm]. split; [by rewrite Hg|done|]. unfold size. rewrite Hg, Hlen, Hone. cbn. exact (Hg0 Hone).
  - destruct (UpdatePercentileIterator_run g n) as (g' & -> & Hw & Hset); try done; [unfold size; rewrite Hg; lia|by rewrite Hg|]. cbn [mbind exec_bind]. exists true, g'. rewrite Hset, Hg. split_and!; [done|done|apply Hperm..].
Qed.

(** *** Calls *)

Inductive call := CallInsert (value : Z) | CallErase (value : Z) | CallGet | CallReset.

Inductive answer := Erased (found : bool) | Got (value : Z).

Fixpoint run_calls (cs : list call) (f : PercentileFilter) : exec (list answer) :=
  match cs with
  | [] => Done []
  | CallInsert x :: cs => f ← Insert x f; run_calls cs f
  | CallErase x :: cs => r ← Erase x f; l ← run_calls cs r.2; Done (Erased r.1 :: l)
  | CallGet :: cs => x ← GetPercentileValue f; l ← run_calls cs f; Done (Got x :: l)
  | CallReset :: cs => run_calls cs (Reset f)
  end.

(** The same with the observations in order, from which the one at the index is taken. *)
Fixpoint answers (cs : list call) (l : list Z) : list answer :=
  match cs with
  | [] => []
  | CallInsert x :: cs => answers cs (sorted_insert x l)
  | CallErase x :: cs => if decide (x ∈ l) then Erased true :: answers cs (remove_one x l) else Erased false :: answers cs l
  | CallGet :: cs => Got (default 0 (i ← target_index (Z.of_nat (length l)); l !! Z.to_nat i)) :: answers cs l
  | CallReset :: cs => answers cs []
  end.

(** The greatest number of observations there can be. *)
Definition insertions (cs : list call) : Z := Z.of_nat (length (List.filter (fun c => match c with CallInsert _ => true | _ => false end) cs)).

Lemma remove_one_length x l : (length (remove_one x l) <= length l)%nat.
Proof. induction l as [|y l IH]; cbn; [done|]. destruct (x =? y); cbn; lia. Qed.

Lemma percentile_run_calls cs f n : well_placed f -> size f + insertions cs <= n -> index_within n -> run_calls cs f = Done (answers cs (set_ f)).
Proof.
  intros Hf Hn Hidx. revert f Hf Hn. induction cs as [|[x|x| |] cs IH]; intros f Hf Hn; cbn [run_calls answers]; [done|..].
  - assert (insertions (CallInsert x :: cs) = insertions cs + 1) as Hi by (unfold insertions; cbn [List.filter length]; lia). rewrite Hi in Hn. pose proof (Zle_0_nat (length (List.filter (fun c => match c with CallInsert _ => true | _ => false end) cs))).
    destruct (Insert_run x f n Hf ltac:(unfold insertions in *; lia) Hidx) as (f' & -> & Hf' & Hset). cbn [mbind exec_bind]. rewrite (IH f' Hf'); [by rewrite Hset|].
    unfold size in *. rewrite Hset. unfold sorted_insert. pose proof (upper_bound_le x (set_ f)). rewrite length_app. cbn [length]. rewrite length_firstn, length_skipn. lia.
  - change (insertions (CallErase x :: cs)) with (insertions cs) in Hn. pose proof (Zle_0_nat (length (List.filter (fun c => match c with CallInsert _ => true | _ => false end) cs))).
    destruct (Erase_run x f n Hf ltac:(unfold insertions in *; lia) Hidx) as (b & f' & -> & Hf' & Hb). cbn [mbind exec_bind fst snd].
    destruct b; destruct Hb as [Hb1 Hb2].
    + rewrite (IH f' Hf'); [|unfold size in *; rewrite Hb2; pose proof (remove_one_length x (set_ f)); lia]. cbn [mbind exec_bind]. rewrite Hb2. destruct (decide (x ∈ set_ f)) as [|Hno]; [done|]. by apply list_elem_of_In in Hb1.
    + subst f'. rewrite (IH f Hf Hn). cbn [mbind exec_bind]. destruct (decide (x ∈ set_ f)) as [Hyes|]; [|done]. by apply list_elem_of_In in Hyes.
  - change (insertions (CallGet :: cs)) with (insertions cs) in Hn. pose proof (Zle_0_nat (length (List.filter (fun c => match c with CallInsert _ => true | _ => false end) cs))). pose proof (Zle_0_nat (length (set_ f))).
    rewrite (IH f Hf Hn). unfold GetPercentileValue. destruct (Z.eqb_spec (size f) 0) as [Hz|Hz].
    + assert (set_ f = []) as -> by (unfold size in Hz; by destruct (set_ f)). cbn [mbind exec_bind length]. by destruct (target_index _).
    + pose proof (well_placed_range f n Hf ltac:(unfold size, insertions in *; lia) Hidx) as Hr. destruct Hf as [Hs Hit Hat]. rewrite (proj2 (Z.eqb_neq _ _) Hz) in Hat. fold (size f). rewrite Hat. cbn [mbind option_bind].
      destruct (lookup_lt_is_Some_2 (set_ f) (Z.to_nat (percentile_it_ f))) as [y Hy]; [unfold size in *; lia|]. rewrite (element_run _ _ _ (proj1 Hr) Hy). cbn. by rewrite Hy.
  - change (insertions (CallReset :: cs)) with (insertions cs) in Hn. rewrite (IH (Reset f)); [done| |]; [split; cbn; [constructor|done|done]|]. pose proof (Zle_0_nat (length (set_ f))). unfold size in *. cbn. lia.
Qed.

End Percentile.
End Percentile.

(** ** MovingMedianFilter *)

(** The percentile of the median, [0.5f]. *)
Definition half : spec_float := S754_finite false 8388608 (-24).

Module MovingMedian.
Import Percentile.

Record MovingMedianFilter := mkMedian { percentile_filter_ : PercentileFilter; samples_ : list Z; samples_stored_ : Z; window_size_ : Z }.

Definition new_filter (window_size : Z) : exec MovingMedianFilter :=
  p ← PercentileFilter_new half; RTC_CHECK (0 <? window_size) (Done (mkMedian p [] 0 window_size)).

Definition Insert (value : Z) (m : MovingMedianFilter) : exec MovingMedianFilter :=
  p ← Percentile.Insert half value (percentile_filter_ m);
  let samples := samples_ m ++ [value] in
  let stored := samples_stored_ m + 1 in
  if window_size_ m <? stored then
    front ← defined (head samples);
    r ← Percentile.Erase half front p;
    Done (mkMedian r.2 (tail samples) (stored - 1) (window_size_ m))
  else Done (mkMedian p samples stored (window_size_ m)).

Definition GetFilteredValue (m : MovingMedianFilter) : exec Z := GetPercentileValue (percentile_filter_ m).

Definition Reset (m : MovingMedianFilter) : MovingMedianFilter := mkMedian (Percentile.Reset (percentile_filter_ m)) [] 0 (window_size_ m).

Definition GetNumberOfSamplesStored (m : MovingMedianFilter) : Z := samples_stored_ m.

(** *** The window in order *)

Definition sort (l : list Z) : list Z := fold_right sorted_insert [] l.

Lemma sorted_insert_perm x l : sorted_insert x l ≡ₚ x :: l.
Proof. unfold sorted_insert. rewrite <- Permutation_middle. by rewrite firstn_skipn. Qed.

Lemma sort_perm l : sort l ≡ₚ l.
Proof. induction l as [|x l IH]; cbn; [done|]. rewrite sorted_insert_perm. by f_equiv. Qed.

Lemma sort_sorted l : StronglySorted Z.le (sort l).
Proof. induction l as [|x l IH]; cbn; [constructor|]. by apply sorted_insert_sorted. Qed.

Lemma sort_unique l k : StronglySorted Z.le l -> l ≡ₚ k -> l = sort k.
Proof. intros Hl Hp. apply (StronglySorted_unique Z.le); [done|apply sort_sorted|]. by rewrite sort_perm. Qed.

Lemma remove_one_perm x l : In x l -> l ≡ₚ x :: remove_one x l.
Proof.
  induction l as [|y l IH]; [done|]. cbn [remove_one]. destruct (Z.eqb_spec x y) as [->|Hne]; [done|]. intros [->|Hx]; [done|]. rewrite (IH Hx) at 1. apply perm_swap.
Qed.

(** The median: the element in the middle, the lower one of two. *)
Definition median (l : list Z) : Z := default 0 (i ← target_index half (Z.of_nat (length l)); sort l !! Z.to_nat i).

Record filters (m : MovingMedianFilter) (w : list Z) : Prop := {
  filter_placed : well_placed half (percentile_filter_ m);
  filter_perm : set_ (percentile_filter_ m) ≡ₚ w;
  filter_samples : samples_ m = w;
  filter_stored : samples_stored_ m = Z.of_nat (length w);
  filter_window : Z.of_nat (length w) <= window_size_ m
}.

Lemma filters_size m w : filters m w -> size (percentile_filter_ m) = Z.of_nat (length w).
Proof. intros [_ Hp _ _ _]. unfold size. by rewrite Hp. Qed.

Lemma Insert_filters m w x : filters m w -> index_within half (window_size_ m + 1) -> 0 < window_size_ m ->
  exists m', Insert x m = Done m' /\ filters m' (Rolling.push (Z.to_nat (window_size_ m)) x w) /\ window_size_ m' = window_size_ m.
Proof.
  intros Hm Hidx Hw. pose proof (filters_size m w Hm) as Hsize. destruct Hm as [Hp Hperm Hs Hst Hwin]. unfold Insert, Rolling.push.
  destruct (Percentile.Insert_run half x _ (window_size_ m + 1) Hp ltac:(lia) Hidx) as (p & -> & Hp1 & Hset). cbn [mbind exec_bind]. rewrite Hs, Hst.
  assert (set_ p ≡ₚ w ++ [x]) as Hperm1 by (rewrite Hset, sorted_insert_perm, Hperm; apply Permutation_cons_append).
  destruct (Nat.eqb_spec (length w) (Z.to_nat (window_size_ m))) as [Hfull|Hfull].
  - rewrite (proj2 (Z.ltb_lt _ _)) by lia. destruct w as [|y w]; [cbn in Hfull; lia|]. cbn [app head tail mbind exec_bind defined].
    destruct (Percentile.Erase_run half y p (window_size_ m + 1) Hp1) as (b & p' & -> & Hp2 & Hb); [unfold size; rewrite Hperm1, length_app; cbn in *; lia|done|]. cbn [mbind exec_bind snd].
    assert (In y (set_ p)) as Hin by (apply list_elem_of_In; rewrite Hperm1; left). destruct b; [|by destruct Hb].
    destruct Hb as [_ Hb]. eexists. split_and!; [reflexivity| |done]. split; cbn; [done| |done|rewrite length_app; cbn in *; lia|rewrite length_app; cbn in *; lia].
    rewrite Hb. apply (Permutation_cons_inv (a := y)). rewrite <- remove_one_perm by done. done.
  - rewrite (proj2 (Z.ltb_ge _ _)) by lia. eexists. split_and!; [reflexivity| |done]. split; cbn; [done|done|done|rewrite length_app; cbn; lia|rewrite length_app; cbn; lia].
Qed.

Lemma GetFilteredValue_filters m w : filters m w -> index_within half (window_size_ m + 1) -> GetFilteredValue m = Done (median w).
Proof.
  intros Hm Hidx. pose proof (filters_size m w Hm) as Hsize. destruct Hm as [Hp Hperm Hs Hst Hwin]. unfold GetFilteredValue, GetPercentileValue. pose proof Hp as [Hsort Hit Hat]. unfold median. rewrite Hsize in *.
  destruct (Z.eqb_spec (Z.of_nat (length w)) 0) as [Hz|Hz].
  - assert (w = []) as -> by (by destruct w). cbn. by destruct (target_index half 0).
  - pose proof (well_placed_range half _ (window_size_ m + 1) Hp ltac:(lia) Hidx) as Hr. rewrite Hat. cbn [mbind option_bind]. rewrite <- (sort_unique _ w Hsort Hperm).
    destruct (lookup_lt_is_Some_2 (set_ (percentile_filter_ m)) (Z.to_nat (percentile_it_ (percentile_filter_ m)))) as [y Hy]; [unfold size in *; lia|]. by rewrite (element_run _ _ _ (proj1 Hr) Hy), Hy.
Qed.

(** *** Calls *)

Inductive call := CallInsert (value : Z) | CallGet | CallCount | CallReset.

Fixpoint run_calls (cs : list call) (m : MovingMedianFilter) : exec (list Z) :=
  match cs with
  | [] => Done []
  | CallInsert x :: cs => m ← Insert x m; run_calls cs m
  | CallGet :: cs => x ← GetFilteredValue m; l ← run_calls cs m; Done (x :: l)
  | CallCount :: cs => l ← run_calls cs m; Done (GetNumberOfSamplesStored m :: l)
  | CallReset :: cs => run_calls cs (Reset m)
  end.

(** The same with all the samples since the last [Reset]. *)
Fixpoint answers (n : nat) (cs : list call) (l : list Z) : list Z :=
  match cs with
  | [] => []
  | CallInsert x :: cs => answers n cs (l ++ [x])
  | CallGet :: cs => median (Rolling.last_samples n l) :: answers n cs l
  | CallCount :: cs => Z.of_nat (Nat.min n (length l)) :: answers n cs l
  | CallReset :: cs => answers n cs []
  end.

Lemma median_run_calls cs m l : filters m (Rolling.last_samples (Z.to_nat (window_size_ m)) l) -> index_within half (window_size_ m + 1) -> 0 < window_size_ m ->
  run_calls cs m = Done (answers (Z.to_nat (window_size_ m)) cs l).
Proof.
  intros Hm Hidx Hw. revert m l Hm Hidx Hw. induction cs as [|[x| | |] cs IH]; intros m l Hm Hidx Hw; cbn [run_calls answers]; [done|..].
  - destruct (Insert_filters m _ x Hm Hidx Hw) as (m' & -> & Hm' & Hwin). cbn [mbind exec_bind]. rewrite <- Rolling.last_samples_app in Hm' by lia. rewrite <- Hwin in *. by apply IH.
  - rewrite (GetFilteredValue_filters m _ Hm Hidx), (IH m l Hm Hidx Hw). done.
  - rewrite (IH m l Hm Hidx Hw). unfold GetNumberOfSamplesStored. rewrite (filter_stored _ _ Hm). unfold Rolling.last_samples. rewrite length_skipn. cbn [mbind exec_bind]. do 3 f_equal. lia.
  - rewrite (IH (Reset m) []); [done| |done|done]. replace (Rolling.last_samples _ []) with (@nil Z) by (unfold Rolling.last_samples; by rewrite skipn_nil). split; cbn; [|done|done|done|lia]. split; cbn; [constructor|done|done].
Qed.

End MovingMedian.


(** ** Properties *)

Module RollingCalls.
Import Rolling.
Section Calls.
Context {build : Build} (t : int_type).

Inductive call := CallAdd (sample : Z) | CallMax | CallMin | CallReset.

Fixpoint run_calls (cs : list call) (s : RollingAccumulator) : exec (list Z) :=
  match cs with
  | [] => Done []
  | CallAdd x :: cs => s ← Rolling.AddSample x s; run_calls cs s
  | CallMax :: cs => r ← ComputeMax s; l ← run_calls cs r.2; Done (r.1 :: l)
  | CallMin :: cs => r ← ComputeMin s; l ← run_calls cs r.2; Done (r.1 :: l)
  | CallReset :: cs => run_calls cs (Rolling.Reset t s)
  end.

(** The answers, of the last [n] of the samples since the last [Reset]; none are 0. *)
Fixpoint answers (n : nat) (cs : list call) (l : list Z) : list Z :=
  match cs with
  | [] => []
  | CallAdd x :: cs => answers n cs (l ++ [x])
  | CallMax :: cs => greatest (last_samples n l) :: answers n cs l
  | CallMin :: cs => least (last_samples n l) :: answers n cs l
  | CallReset :: cs => answers n cs []
  end.

Lemma rolling_run_calls cs s l : accumulates s (last_samples (max_count s) l) -> run_calls cs s = Done (answers (max_count s) cs l).
Proof.
  revert s l. induction cs as [|[x| | |] cs IH]; intros s l Hs; cbn [run_calls answers]; [done|..]; pose proof (acc_ordered _ _ Hs) as (_ & Hpos & _).
  - destruct (AddSample_accumulates s _ x Hs) as (s' & -> & Hs' & Hm). cbn [mbind exec_bind]. rewrite <- last_samples_app in Hs' by done. rewrite <- Hm in *. by apply IH.
  - destruct (ComputeMax_run s _ Hs) as (s' & -> & Hs' & Hm). cbn [mbind exec_bind fst snd]. rewrite <- Hm in *. by rewrite (IH s' l Hs').
  - destruct (ComputeMin_run s _ Hs) as (s' & -> & Hs' & Hm). cbn [mbind exec_bind fst snd]. rewrite <- Hm in *. by rewrite (IH s' l Hs').
  - destruct (Reset_accumulates t s Hpos) as [Hs' Hm]. rewrite <- Hm. by apply IH.
Qed.

End Calls.
End RollingCalls.

(** A [RollingAccumulator] of [n] samples answers with the greatest and the least of the
    last [n] samples that were added, whenever it is asked: a maximum that left the window
    is found again, and no other is lost. *)
Theorem rolling_extremes {build : Build} t n cs : (0 < n)%nat ->
  (s ← Rolling.new_accumulator t n; RollingCalls.run_calls t cs s) = Done (RollingCalls.answers n cs []).
Proof.
  intros Hn. unfold Rolling.new_accumulator. rewrite RTC_DCHECK_true by (by apply Nat.ltb_lt). cbn [mbind exec_bind]. set (s := Rolling.mkAccumulator _ _ _ _ _ _ (replicate n 0)).
  assert (Rolling.max_count s = n) as Hm by apply length_replicate. destruct (Rolling.Reset_accumulates t s) as [Hs Hm']; [lia|]. rewrite Hm in Hm'. rewrite <- Hm' at 1.
  rewrite (RollingCalls.rolling_run_calls t cs (Rolling.Reset t s) []); [by rewrite Hm'|done].
Qed.

Lemma rolling_extremes_witness : (s ← Rolling.new_accumulator (build := debug_x64) Int32 2; RollingCalls.run_calls (build := debug_x64) Int32 [RollingCalls.CallAdd 7; RollingCalls.CallAdd 3; RollingCalls.CallAdd 5; RollingCalls.CallMax; RollingCalls.CallMin] s) = Done [5; 3].
Proof. exact (rolling_extremes (build := debug_x64) Int32 2 [RollingCalls.CallAdd 7; RollingCalls.CallAdd 3; RollingCalls.CallAdd 5; RollingCalls.CallMax; RollingCalls.CallMin] ltac:(lia)). Defined.

(** With one sample in the window the mean is not a number from the second sample on:
    [RemoveSample] divides by the number of samples that are left. *)
Example rolling_mean_nan :
  (s ← Rolling.new_accumulator (build := release_x64) Int32 1; s ← Rolling.AddSample (build := release_x64) 5 s; s ← Rolling.AddSample (build := release_x64) 7 s;
   Done (Rolling.ComputeMean s)) = Done S754_nan.
Proof. vm_compute. reflexivity. Qed.

(** C19: A [MovingMaxCounter] answers with the greatest sample of the window of time, although
    it forgets each sample that a later one is not less than. *)
Theorem moving_max {build : Build} window cs : in_range Int64 window = true -> MovingMax.clock window cs (IntTypes.lowest Int64) = true ->
  MovingMax.run_calls window cs MovingMax.new_counter = Done (MovingMax.answers window cs []).
Proof.
  intros Hwin Hcs. apply (MovingMax.max_run_calls window cs _ [] (IntTypes.lowest Int64) Hwin); [|done]. split; [|done]. split; cbn; [constructor|intros p []..].
Qed.

Lemma moving_max_witness : MovingMax.run_calls (build := debug_x64) 10 [MovingMax.CallAdd 5 0; MovingMax.CallAdd 9 1; MovingMax.CallAdd 4 8; MovingMax.CallMax 11; MovingMax.CallMax 12; MovingMax.CallMax 19] MovingMax.new_counter = Done [Some 9; Some 4; None].
Proof. exact (moving_max (build := debug_x64) 10 [MovingMax.CallAdd 5 0; MovingMax.CallAdd 9 1; MovingMax.CallAdd 4 8; MovingMax.CallMax 11; MovingMax.CallMax 12; MovingMax.CallMax 19] eq_refl eq_refl). Defined.

(** A [PercentileFilter] is always at the observation whose place in the order is the
    percentile times the number of the others, rounded as the program rounds, whatever was
    inserted and erased before it, equal observations included; this is so as long as the
    rounded place is one of the observations, for as many as there can be. *)
Theorem percentile_answers p cs n : Percentile.index_within p n -> Percentile.insertions cs <= n ->
  Percentile.run_calls p cs (Percentile.mkFilter [] 0 0) = Done (Percentile.answers p cs []).
Proof.
  intros Hidx Hn. apply (Percentile.percentile_run_calls p cs (Percentile.mkFilter [] 0 0) n); [|unfold Percentile.size; cbn; lia|done]. split; cbn; [constructor|done|done].
Qed.

(** The percentile of the greatest. *)
Definition whole : spec_float := of_int Float 1.

(** The place is an observation, for each number of them up to [n]. *)
Definition index_check (p : spec_float) (n : nat) : bool :=
  forallb (fun k => match Percentile.target_index p (Z.of_nat k) with Some i => (0 <=? i) && (i <? Z.of_nat k) | None => false end) (seq 1 n).

Lemma index_check_within p n : index_check p n = true -> Percentile.index_within p (Z.of_nat n).
Proof.
  unfold index_check. rewrite forallb_forall. intros H k Hk. specialize (H (Z.to_nat k)). rewrite in_seq in H. specialize (H ltac:(lia)). rewrite Z2Nat.id in H by lia.
  destruct (Percentile.target_index p k) as [i|]; [|done]. exists i. split; [done|]. apply andb_true_iff in H. rewrite Z.leb_le, Z.ltb_lt in H. lia.
Qed.

Definition sample_observations : list Percentile.call :=
  [Percentile.CallGet; Percentile.CallInsert 5; Percentile.CallInsert 1; Percentile.CallInsert 5; Percentile.CallGet; Percentile.CallErase 5; Percentile.CallInsert 0; Percentile.CallGet; Percentile.CallErase 7; Percentile.CallErase 0; Percentile.CallGet].

Lemma percentile_answers_witness : Percentile.run_calls half sample_observations (Percentile.mkFilter [] 0 0) = Done (Percentile.answers half sample_observations []).
Proof. apply (percentile_answers half sample_observations 300); [apply (index_check_within half 300); vm_compute; reflexivity|vm_compute; congruence]. Defined.

Example sample_observations_ex : Percentile.answers half sample_observations [] = [Percentile.Got 0; Percentile.Got 5; Percentile.Erased true; Percentile.Got 1; Percentile.Erased false; Percentile.Erased true; Percentile.Got 1].
Proof. vm_compute. reflexivity. Qed.

(** A [MovingMedianFilter] answers with the median of the last [window_size] samples, and
    with their number, whatever was inserted before: the sample that leaves the window is the
    one that is erased from the order. *)
Theorem moving_median w cs : 0 < w -> Percentile.index_within half (w + 1) ->
  (m ← MovingMedian.new_filter w; MovingMedian.run_calls cs m) = Done (MovingMedian.answers (Z.to_nat w) cs []).
Proof.
  intros Hw Hidx. unfold MovingMedian.new_filter, Percentile.PercentileFilter_new, RTC_CHECK. change (SFleb (of_int Float 0) half) with true. change (SFleb half (of_int Float 1)) with true. cbn [mbind exec_bind].
  rewrite (proj2 (Z.ltb_lt 0 w) Hw). cbn [mbind exec_bind]. apply (MovingMedian.median_run_calls cs (MovingMedian.mkMedian (Percentile.mkFilter [] 0 0) [] 0 w) []); [|done|done].
  unfold Rolling.last_samples. rewrite skipn_nil. split; cbn; [|done|done|done|lia]. split; cbn; [constructor|done|done].
Qed.

Lemma moving_median_witness :
  (m ← MovingMedian.new_filter 3; MovingMedian.run_calls [MovingMedian.CallInsert 5; MovingMedian.CallInsert 9; MovingMedian.CallGet; MovingMedian.CallInsert 7; MovingMedian.CallInsert 1; MovingMedian.CallGet; MovingMedian.CallCount] m) = Done [5; 7; 3].
Proof.
  exact (moving_median 3 [MovingMedian.CallInsert 5; MovingMedian.CallInsert 9; MovingMedian.CallGet; MovingMedian.CallInsert 7; MovingMedian.CallInsert 1; MovingMedian.CallGet; MovingMedian.CallCount] ltac:(lia) (index_check_within half 4 ltac:(vm_compute; reflexivity))).
Defined.

(** The percentile 1 of 2^24 + 4 observations is behind the last one: their number less one
    is rounded up to a [float]. *)
Example index_behind_the_last : Percentile.target_index whole (2 ^ 24 + 4) = Some (2 ^ 24 + 4).
Proof. vm_compute. reflexivity. Qed.

Section Exactness.
Context {build : Build} (t : int_type).
#[local] Existing Instance rational_arithmetic.

Definition add_all (l : list Z) (s : Running.RunningStatistics) : Running.RunningStatistics := fold_right Running.AddSample s l.

Fixpoint remove_all (l : list Z) (s : Running.RunningStatistics) : exec Running.RunningStatistics :=
  match l with [] => Done s | x :: l => s ← Running.RemoveSample x s; remove_all l s end.

Lemma add_all_exact l s k : Running.exact s k -> Running.exact (add_all l s) (l ++ k).
Proof. intros Hs. induction l as [|x l IH]; cbn; [done|]. by apply Running.AddSample_exact. Qed.

Lemma remove_all_exact l s k : Running.exact s (l ++ k) -> k <> [] -> exists s', remove_all l s = Done s' /\ Running.exact s' k.
Proof.
  revert s. induction l as [|x l IH]; intros s Hs Hk; cbn [remove_all app] in *; [by exists s|].
  destruct (Running.RemoveSample_exact s (l ++ k) x Hs) as (s1 & -> & H1); [by destruct l, k|]. cbn [mbind exec_bind]. by apply IH.
Qed.

(** In exact arithmetic the formulas of [RunningStatistics] are the definitions: after
    samples were added, some of them removed and others merged in, [GetMean] is the sum of
    those that are left by their number, and [GetVariance] the mean of the squares less the
    square of the mean, although no sample is stored. *)
Theorem running_statistics_exact l k m : k <> [] ->
  exists s, remove_all l (add_all (l ++ k) (Running.new_statistics t)) = Done s /\
    let s := Running.MergeStatistics (add_all m (Running.new_statistics t)) s in
    let n := inject_Z (Z.of_nat (length (k ++ m))) in
    exists mean variance, Running.GetMean s = Some mean /\ Running.GetVariance s = Some variance /\
      (mean == inject_Z (Running.sum (k ++ m)) / n)%Q /\ (variance == inject_Z (Running.squares (k ++ m)) / n - mean * mean)%Q.
Proof.
  intros Hk. destruct (remove_all_exact l (add_all (l ++ k) (Running.new_statistics t)) k) as (s & Hs & He); [rewrite <- (app_nil_r (l ++ k)) at 2; apply add_all_exact, Running.exact_new|done|].
  exists s. split; [done|]. assert (Running.exact (add_all m (Running.new_statistics t)) m) as Hm by (rewrite <- (app_nil_r m) at 2; apply add_all_exact, Running.exact_new).
  destruct (Running.MergeStatistics_exact s k _ m He Hm) as (Hsize & Hmean & Hcumul). cbv zeta. set (r := Running.MergeStatistics _ s) in *. unfold Running.GetMean, Running.GetVariance.
  assert (0 < Z.of_nat (length (k ++ m))) as Hpos by (rewrite length_app; destruct k; [done|cbn; lia]). rewrite Hsize. rewrite (proj2 (Z.eqb_neq _ _)) by lia.
  assert (~ (inject_Z (Z.of_nat (length (k ++ m))) == 0)%Q) as Hnz by (apply Running.inject_nonzero; lia). eexists _, _. split_and!; [reflexivity|reflexivity| |].
  - pose (mean := Running.mean_ r : Q). change (mean == inject_Z (Running.sum (k ++ m)) / inject_Z (Z.of_nat (length (k ++ m))))%Q.
    change (mean * inject_Z (Z.of_nat (length (k ++ m))) == inject_Z (Running.sum (k ++ m)))%Q in Hmean. rewrite <- Hmean. field. done.
  - pose (mean := Running.mean_ r : Q). transitivity (Running.cumul_ r / inject_Z (Z.of_nat (length (k ++ m))))%Q; [reflexivity|]. rewrite Hcumul. change (Running.mean_ r) with mean. field. done.
Qed.

End Exactness.

Lemma running_statistics_exact_witness : exists s, remove_all (build := debug_x64) [4; 8] (add_all ([4; 8] ++ [1; 3]) (Running.new_statistics (arithmetic := rational_arithmetic) Int32)) = Done s /\
  let s := Running.MergeStatistics (arithmetic := rational_arithmetic) (add_all [5] (Running.new_statistics (arithmetic := rational_arithmetic) Int32)) s in
  exists mean variance, Running.GetMean (arithmetic := rational_arithmetic) s = Some mean /\ Running.GetVariance (arithmetic := rational_arithmetic) s = Some variance /\
    (mean == inject_Z 9 / inject_Z 3)%Q /\ (variance == inject_Z 35 / inject_Z 3 - mean * mean)%Q.
Proof. apply (running_statistics_exact (build := debug_x64) Int32 [4; 8] [1; 3] [5]). discriminate. Defined.
