(* ===== verification/H264Sink.v ===== *)
(** * H264Sink: the sinks of the H264 encoder

    patches_for_WebRTC_org/m84/src/modules/video_coding/codecs/h264/win/encoder:
    - module [StreamSink]: h264_stream_sink.{h,cc}, the stream that receives encoded
      samples from Media Foundation, queues asynchronous operations on a serial work
      queue and hands the samples to the encoder;
    - module [MediaSink]: h264_media_sink.{h,cc}, its owner.

    Media Foundation is a parameter: media types and samples are abstract, and each
    operation takes the results of the calls it makes (the record [env]).  The
    operations hold [critSec_] throughout and are atomic, but for
    [OnDispatchWorkItem], which releases it before the encoder is called. *)

From S2P Require Import Prelude HResult.
From Stdlib Require Import List.
Open Scope Z_scope.
Open Scope list_scope.

(** What the code uses of Media Foundation's types. *)
Class MediaFoundation := {
  GUID : Type;
  GUID_eq_dec :: EqDecision GUID;
  MFMediaType_Video : GUID;
  MFMediaType_Audio : GUID;
  IMFMediaType : Type;
  MajorGUID : IMFMediaType -> option GUID;    (* GetGUID(MF_MT_MAJOR_TYPE), if there is one *)
  SubtypeGUID : IMFMediaType -> option GUID;  (* GetGUID(MF_MT_SUBTYPE) *)
  EmptyType : IMFMediaType;                   (* MFCreateMediaType *)
  IMFSample : Type;
  PROPVARIANT : Type;
  VT_EMPTY : PROPVARIANT
}.

(** The results of the calls an operation makes. *)
Record env := mkEnv {
  r_create : HRESULT;       (* MFCreateEventQueue, MFCreateMediaType *)
  r_allocate : HRESULT;     (* MFAllocateSerialWorkQueue *)
  r_copy : HRESULT;         (* CopyAllItems *)
  r_make : HRESULT;         (* MakeAndInitialize of an operation or a stream *)
  r_put : HRESULT;          (* MFPutWorkItem2 *)
  r_event : HRESULT;        (* QueueEventParamVar and the other calls on the event queue *)
  r_state : HRESULT;        (* IMFAsyncResult::GetState *)
  r_clock : HRESULT         (* AddClockStateSink and RemoveClockStateSink *)
}.

(** All calls succeed. *)
Definition all_ok : env := mkEnv S_OK S_OK S_OK S_OK S_OK S_OK S_OK S_OK.

Module StreamSink.
Section Model.
Context {mf : MediaFoundation}.

Inductive State := State_TypeNotSet | State_Ready | State_Started | State_Stopped.

(** [state_ >= State_Ready], [state_ > State_Ready]. *)
Definition State_index (st : State) : Z :=
  match st with State_TypeNotSet => 0 | State_Ready => 1 | State_Started => 2 | State_Stopped => 3 end.

Inductive StreamOperation := OpSetMediaType | OpStart | OpStop | OpProcessSample | OpPlaceMarker.

(** [AsyncStreamSinkOperation]. *)
Record AsyncStreamSinkOperation := mkOperation { m_op : StreamOperation; m_propVariant : PROPVARIANT }.

(** [RuntimeClassInitialize], [GetOp] and [GetPropVariant] of an operation. *)
Definition AsyncStreamSinkOperation_new (op : StreamOperation) (propVariant : option PROPVARIANT)
  : AsyncStreamSinkOperation := mkOperation op (default VT_EMPTY propVariant).
Definition GetOp (nonnull : bool) (o : AsyncStreamSinkOperation) : HRESULT * option StreamOperation :=
  if nonnull then (S_OK, Some (m_op o)) else (E_INVALIDARG, None).
Definition GetPropVariant (nonnull : bool) (o : AsyncStreamSinkOperation) : HRESULT * option PROPVARIANT :=
  if nonnull then (S_OK, Some (m_propVariant o)) else (E_INVALIDARG, None).

Inductive event :=
  | MEStreamSinkStarted | MEStreamSinkStopped | MEStreamSinkRequestSample
  | MEStreamSinkMarker (v : PROPVARIANT) | MEStreamSinkFormatChanged | MEError (hr : HRESULT).

(** The object, with the work items it has put on its serial work queue, the events
    put on its event queue and the samples handed to the callback. *)
Record H264StreamSink := mkStreamSink {
  dwIdentifier_ : Z;
  state_ : State;
  isShutdown_ : bool;
  guidCurrentSubtype_ : option GUID;
  spSink_ : bool;                        (* not null *)
  spEventQueue_ : bool;                  (* not null *)
  spCurrentType_ : option IMFMediaType;
  sampleQueue_ : list IMFSample;
  encodingCallback_ : option bool;       (* not initialized, or whether it is not null *)
  work : list AsyncStreamSinkOperation;
  events : list event;
  delivered : list IMFSample
}.

Definition set_state (st : State) (s : H264StreamSink) : H264StreamSink :=
  mkStreamSink (dwIdentifier_ s) st (isShutdown_ s) (guidCurrentSubtype_ s) (spSink_ s) (spEventQueue_ s)
    (spCurrentType_ s) (sampleQueue_ s) (encodingCallback_ s) (work s) (events s) (delivered s).
Definition set_type (t : option IMFMediaType) (g : option GUID) (s : H264StreamSink) : H264StreamSink :=
  mkStreamSink (dwIdentifier_ s) (state_ s) (isShutdown_ s) g (spSink_ s) (spEventQueue_ s)
    t (sampleQueue_ s) (encodingCallback_ s) (work s) (events s) (delivered s).
Definition set_samples (l : list IMFSample) (s : H264StreamSink) : H264StreamSink :=
  mkStreamSink (dwIdentifier_ s) (state_ s) (isShutdown_ s) (guidCurrentSubtype_ s) (spSink_ s) (spEventQueue_ s)
    (spCurrentType_ s) l (encodingCallback_ s) (work s) (events s) (delivered s).
Definition set_callback (c : option bool) (s : H264StreamSink) : H264StreamSink :=
  mkStreamSink (dwIdentifier_ s) (state_ s) (isShutdown_ s) (guidCurrentSubtype_ s) (spSink_ s) (spEventQueue_ s)
    (spCurrentType_ s) (sampleQueue_ s) c (work s) (events s) (delivered s).
Definition set_work (w : list AsyncStreamSinkOperation) (s : H264StreamSink) : H264StreamSink :=
  mkStreamSink (dwIdentifier_ s) (state_ s) (isShutdown_ s) (guidCurrentSubtype_ s) (spSink_ s) (spEventQueue_ s)
    (spCurrentType_ s) (sampleQueue_ s) (encodingCallback_ s) w (events s) (delivered s).
Definition add_event (e : event) (s : H264StreamSink) : H264StreamSink :=
  mkStreamSink (dwIdentifier_ s) (state_ s) (isShutdown_ s) (guidCurrentSubtype_ s) (spSink_ s) (spEventQueue_ s)
    (spCurrentType_ s) (sampleQueue_ s) (encodingCallback_ s) (work s) (events s ++ [e]) (delivered s).
Definition deliver (x : IMFSample) (s : H264StreamSink) : H264StreamSink :=
  mkStreamSink (dwIdentifier_ s) (state_ s) (isShutdown_ s) (guidCurrentSubtype_ s) (spSink_ s) (spEventQueue_ s)
    (spCurrentType_ s) (sampleQueue_ s) (encodingCallback_ s) (work s) (events s) (delivered s ++ [x]).

(** The constructor and [RuntimeClassInitialize]; a failure destroys the object. *)
Definition RuntimeClassInitialize (e : env) (dwIdentifier : Z) : HRESULT * option H264StreamSink :=
  if SUCCEEDED (r_create e) then
    if SUCCEEDED (r_allocate e) then
      (r_allocate e,
       Some (mkStreamSink dwIdentifier State_TypeNotSet false None true true None [] None [] [] []))
    else (r_allocate e, None)
  else (r_create e, None).

Definition CheckShutdown (s : H264StreamSink) : HRESULT := if isShutdown_ s then MF_E_SHUTDOWN else S_OK.

(** ** Events *)

(** The three calls that are forwarded to the event queue. *)
Definition on_event_queue (e : env) (s : H264StreamSink) : exec HRESULT :=
  if SUCCEEDED (CheckShutdown s) then if spEventQueue_ s then Done (r_event e) else Undef
  else Done (CheckShutdown s).
Definition BeginGetEvent := on_event_queue.
Definition EndGetEvent := on_event_queue.
Definition GetEvent := on_event_queue.

Definition QueueEvent (e : env) (met : event) (s : H264StreamSink) : exec (HRESULT * H264StreamSink) :=
  if SUCCEEDED (CheckShutdown s) then
    if spEventQueue_ s
    then Done (r_event e, if SUCCEEDED (r_event e) then add_event met s else s)
    else Undef
  else Done (CheckShutdown s, s).

(** ** Asynchronous operations *)

Definition QueueAsyncOperation (e : env) (op : StreamOperation) (propVariant : option PROPVARIANT)
    (s : H264StreamSink) : HRESULT * H264StreamSink :=
  if SUCCEEDED (r_make e) then
    (r_put e,
     if SUCCEEDED (r_put e) then set_work (work s ++ [AsyncStreamSinkOperation_new op propVariant]) s else s)
  else (r_make e, s).

Definition DropSamplesFromQueue (s : H264StreamSink) : H264StreamSink := set_samples [] s.

Definition ProcessSamplesFromQueue (s : H264StreamSink) : option IMFSample * H264StreamSink :=
  match sampleQueue_ s with
  | [] => (None, s)
  | x :: l => (Some x, set_samples l s)
  end.

Definition ProcessFormatChange (e : env) (s : H264StreamSink) : H264StreamSink :=
  (QueueAsyncOperation e OpSetMediaType None s).2.

Definition HandleError (e : env) (hr : HRESULT) (s : H264StreamSink) : exec H264StreamSink :=
  if isShutdown_ s then Done s else r ← QueueEvent e (MEError hr) s; Done r.2.

(** [OnDispatchWorkItem], the part under [critSec_]: the result and the sample to be
    handed over. *)
Definition OnDispatchWorkItem_locked (e : env) (pOp : AsyncStreamSinkOperation) (s : H264StreamSink)
  : exec (HRESULT * option IMFSample * H264StreamSink) :=
  if SUCCEEDED (r_state e) then
    match m_op pOp with
    | OpStart =>
        r ← QueueEvent e MEStreamSinkStarted s;
        if SUCCEEDED r.1 then
          match ProcessSamplesFromQueue r.2 with
          | (Some x, s) => Done (r.1, Some x, s)
          | (None, s) => r ← QueueEvent e MEStreamSinkRequestSample s; Done (r.1, None, r.2)
          end
        else Done (r.1, None, r.2)
    | OpStop =>
        r ← QueueEvent e MEStreamSinkStopped (DropSamplesFromQueue s);
        Done (r.1, None, r.2)
    | OpProcessSample =>
        r ← QueueEvent e MEStreamSinkRequestSample s;
        if SUCCEEDED r.1 then
          let '(x, s) := ProcessSamplesFromQueue r.2 in Done (r.1, x, s)
        else Done (r.1, None, r.2)
    | OpPlaceMarker =>
        r ← QueueEvent e (MEStreamSinkMarker (m_propVariant pOp)) s;
        Done (r.1, None, r.2)
    | OpSetMediaType =>
        r ← QueueEvent e MEStreamSinkFormatChanged s;
        Done (r.1, None, r.2)
    end
  else Done (r_state e, None, s).

(** The part under [cbCritSec_]: the test of the callback, and its call. *)
Definition callback_not_null (s : H264StreamSink) : exec bool := defined (encodingCallback_ s).
Definition callback_OnH264Encoded (x : IMFSample) (s : H264StreamSink) : exec H264StreamSink :=
  nonnull ← callback_not_null s;
  if (nonnull : bool) then Done (deliver x s) else Undef.

(** The whole handler, when no other thread intervenes. *)
Definition OnDispatchWorkItem (e : env) (pOp : AsyncStreamSinkOperation) (s : H264StreamSink)
  : exec (HRESULT * H264StreamSink) :=
  r ← OnDispatchWorkItem_locked e pOp s;
  let '(hr, sample, s) := r in
  match sample with
  | Some x =>
      if SUCCEEDED hr then
        nonnull ← callback_not_null s;
        s ← (if (nonnull : bool) then callback_OnH264Encoded x s else Done s);
        Done (hr, s)
      else Done (hr, s)
  | None => Done (hr, s)
  end.

(** ** State machine *)

Definition ValidStateMatrix (st : State) (op : StreamOperation) : bool :=
  match st, op with
  | State_TypeNotSet, OpSetMediaType => true
  | State_TypeNotSet, _ => false
  | State_Started, OpProcessSample => true
  | _, (OpSetMediaType | OpStart | OpStop) => true
  | _, _ => false
  end.

Definition ValidateOperation (op : StreamOperation) (s : H264StreamSink) : HRESULT :=
  if ValidStateMatrix (state_ s) op then S_OK
  else match state_ s with State_TypeNotSet => MF_E_NOT_INITIALIZED | _ => MF_E_INVALIDREQUEST end.

Definition Start (e : env) (s : H264StreamSink) : HRESULT * H264StreamSink :=
  let hr := ValidateOperation OpStart s in
  if SUCCEEDED hr then QueueAsyncOperation e OpStart None (set_state State_Started s) else (hr, s).

Definition Stop (e : env) (s : H264StreamSink) : HRESULT * H264StreamSink :=
  let hr := ValidateOperation OpStop s in
  if SUCCEEDED hr then QueueAsyncOperation e OpStop None (set_state State_Stopped s) else (hr, s).

Definition Shutdown (s : H264StreamSink) : HRESULT * H264StreamSink :=
  if isShutdown_ s then (S_OK, s)
  else (S_OK,
    mkStreamSink (dwIdentifier_ s) (state_ s) true (guidCurrentSubtype_ s) false false
      None [] (Some false) (work s) (events s) (delivered s)).

Definition RegisterEncodingCallback (nonnull : bool) (s : H264StreamSink) : HRESULT * H264StreamSink :=
  (S_OK, set_callback (Some nonnull) s).

(** ** IMFStreamSink *)

Definition GetMediaSink (nonnull : bool) (s : H264StreamSink) : exec HRESULT :=
  if negb nonnull then Done E_INVALIDARG
  else if SUCCEEDED (CheckShutdown s) then if spSink_ s then Done S_OK else Undef
  else Done (CheckShutdown s).

Definition GetIdentifier (nonnull : bool) (s : H264StreamSink) : HRESULT * option Z :=
  if negb nonnull then (E_INVALIDARG, None)
  else if SUCCEEDED (CheckShutdown s) then (S_OK, Some (dwIdentifier_ s)) else (CheckShutdown s, None).

(** The stream is its own type handler, so the query succeeds. *)
Definition GetMediaTypeHandler (nonnull : bool) (s : H264StreamSink) : HRESULT :=
  if negb nonnull then E_INVALIDARG else CheckShutdown s.

Definition ProcessSample (e : env) (pSample : option IMFSample) (s : H264StreamSink) : HRESULT * H264StreamSink :=
  match pSample with
  | None => (E_INVALIDARG, s)
  | Some x =>
      let hr := CheckShutdown s in
      let hr := if SUCCEEDED hr then ValidateOperation OpProcessSample s else hr in
      if SUCCEEDED hr
      then QueueAsyncOperation e OpProcessSample None (set_samples (sampleQueue_ s ++ [x]) s)
      else (hr, s)
  end.

Definition PlaceMarker (e : env) (pvarContextValue : option PROPVARIANT) (s : H264StreamSink)
  : HRESULT * H264StreamSink :=
  let hr := CheckShutdown s in
  if SUCCEEDED hr then QueueAsyncOperation e OpPlaceMarker pvarContextValue s else (hr, s).

Definition Flush (s : H264StreamSink) : HRESULT * H264StreamSink :=
  let hr := CheckShutdown s in
  (hr, if SUCCEEDED hr then DropSamplesFromQueue s else s).

(** ** IMFMediaTypeHandler *)

(** The major type, then the subtype: a subtype that was never read from a media
    type is not initialized. *)
Definition IsMediaTypeSupported (pMediaType : option IMFMediaType) (s : H264StreamSink) : exec HRESULT :=
  match pMediaType with
  | None => Done E_INVALIDARG
  | Some t =>
      let hr := CheckShutdown s in
      let hr := if SUCCEEDED hr then
                  match MajorGUID t with
                  | None => MF_E_ATTRIBUTENOTFOUND
                  | Some g => if decide (g <> MFMediaType_Video /\ g <> MFMediaType_Audio)
                              then MF_E_INVALIDTYPE else S_OK
                  end
                else hr in
      if SUCCEEDED hr then
        match spCurrentType_ s, SubtypeGUID t with
        | None, _ => Done hr
        | Some _, None => Done MF_E_INVALIDTYPE
        | Some _, Some guiNewSubtype =>
            guidCurrentSubtype ← defined (guidCurrentSubtype_ s);
            Done (if decide (guiNewSubtype <> guidCurrentSubtype) then MF_E_INVALIDTYPE else hr)
        end
      else Done hr
  end.

Definition GetMediaTypeCount (nonnull : bool) (s : H264StreamSink) : HRESULT * option Z :=
  if negb nonnull then (E_INVALIDARG, None)
  else if SUCCEEDED (CheckShutdown s) then (S_OK, Some 1) else (CheckShutdown s, None).

Definition GetMediaTypeByIndex (nonnull : bool) (dwIndex : Z) (s : H264StreamSink)
  : HRESULT * option IMFMediaType :=
  if negb nonnull then (E_INVALIDARG, None)
  else if 0 <? dwIndex then (MF_E_NO_MORE_TYPES, None)
  else (CheckShutdown s, spCurrentType_ s).

Definition SetCurrentMediaType (e : env) (pMediaType : option IMFMediaType) (s : H264StreamSink)
  : exec (HRESULT * H264StreamSink) :=
  match pMediaType with
  | None => Done (E_INVALIDARG, s)
  | Some t =>
      let r := (CheckShutdown s, s) in
      let r := if_succeeded r (fun s => (ValidateOperation OpSetMediaType s, s)) in
      r ← (if State_index State_Ready <=? State_index (state_ s)
           then ON_SUCCEEDED r (fun s => hr ← IsMediaTypeSupported (Some t) s; Done (hr, s))
           else Done r);
      let r := if_succeeded r (fun s =>
        (r_create e, set_type (if SUCCEEDED (r_create e) then Some EmptyType else None) (guidCurrentSubtype_ s) s)) in
      let r := if_succeeded r (fun s =>
        (r_copy e, if SUCCEEDED (r_copy e) then set_type (Some t) (guidCurrentSubtype_ s) s else s)) in
      let r := if_succeeded r (fun s =>
        match SubtypeGUID t with
        | None => (MF_E_ATTRIBUTENOTFOUND, s)
        | Some g => (S_OK, set_type (spCurrentType_ s) (Some g) s)
        end) in
      Done (if_succeeded r (fun s =>
        if State_index (state_ s) <? State_index State_Ready then (r.1, set_state State_Ready s)
        else if State_index State_Ready <? State_index (state_ s) then (r.1, ProcessFormatChange e s)
        else (r.1, s)))
  end.

Definition GetCurrentMediaType (nonnull : bool) (s : H264StreamSink) : HRESULT * option IMFMediaType :=
  if negb nonnull then (E_INVALIDARG, None)
  else
    let hr := CheckShutdown s in
    let hr := if SUCCEEDED hr then
                match spCurrentType_ s with None => MF_E_NOT_INITIALIZED | Some _ => hr end
              else hr in
    (hr, if SUCCEEDED hr then spCurrentType_ s else None).

Definition GetMajorType (nonnull : bool) (s : H264StreamSink) : HRESULT * option GUID :=
  if negb nonnull then (E_INVALIDARG, None)
  else match spCurrentType_ s with
       | None => (MF_E_NOT_INITIALIZED, None)
       | Some _ => (S_OK, Some MFMediaType_Video)
       end.

End Model.

(** ** The stream between its threads *)

Section System.
Context {mf : MediaFoundation}.

(** Where the work queue's thread is in [OnDispatchWorkItem]: about to test the
    callback (with no lock), or about to call it (with [cbCritSec_]). *)
Inductive dispatch_phase := D_Idle | D_Picked (x : IMFSample) | D_Checked (x : IMFSample).

Record system := mkSystem {
  sink : H264StreamSink;
  phase : dispatch_phase;
  accepted : list IMFSample    (* the samples put on the sample queue, in order *)
}.

(** Calls that ask the stream something and do not change it. *)
Inductive query :=
  | Query_BeginGetEvent | Query_EndGetEvent | Query_GetEvent
  | Query_GetMediaSink (nonnull : bool) | Query_GetIdentifier (nonnull : bool)
  | Query_GetMediaTypeHandler (nonnull : bool)
  | Query_IsMediaTypeSupported (pMediaType : option IMFMediaType)
  | Query_GetMediaTypeCount (nonnull : bool) | Query_GetMediaTypeByIndex (nonnull : bool) (dwIndex : Z)
  | Query_GetCurrentMediaType (nonnull : bool) | Query_GetMajorType (nonnull : bool).

Definition ask (e : env) (q : query) (s : H264StreamSink) : exec HRESULT :=
  match q with
  | Query_BeginGetEvent => BeginGetEvent e s
  | Query_EndGetEvent => EndGetEvent e s
  | Query_GetEvent => GetEvent e s
  | Query_GetMediaSink b => GetMediaSink b s
  | Query_GetIdentifier b => Done (GetIdentifier b s).1
  | Query_GetMediaTypeHandler b => Done (GetMediaTypeHandler b s)
  | Query_IsMediaTypeSupported t => IsMediaTypeSupported t s
  | Query_GetMediaTypeCount b => Done (GetMediaTypeCount b s).1
  | Query_GetMediaTypeByIndex b i => Done (GetMediaTypeByIndex b i s).1
  | Query_GetCurrentMediaType b => Done (GetCurrentMediaType b s).1
  | Query_GetMajorType b => Done (GetMajorType b s).1
  end.

(** Calls from other threads. *)
Inductive call :=
  | Call_Start | Call_Stop | Call_Shutdown | Call_Flush
  | Call_ProcessSample (pSample : option IMFSample)
  | Call_PlaceMarker (v : option PROPVARIANT)
  | Call_SetCurrentMediaType (t : option IMFMediaType)
  | Call_QueueEvent (met : event)
  | Call_RegisterEncodingCallback (nonnull : bool)
  | Call_Query (q : query).

Definition invoke (e : env) (c : call) (s : H264StreamSink) : exec (HRESULT * H264StreamSink) :=
  match c with
  | Call_Start => Done (Start e s)
  | Call_Stop => Done (Stop e s)
  | Call_Shutdown => Done (Shutdown s)
  | Call_Flush => Done (Flush s)
  | Call_ProcessSample x => Done (ProcessSample e x s)
  | Call_PlaceMarker v => Done (PlaceMarker e v s)
  | Call_SetCurrentMediaType t => SetCurrentMediaType e t s
  | Call_QueueEvent met => QueueEvent e met s
  | Call_RegisterEncodingCallback b => Done (RegisterEncodingCallback b s)
  | Call_Query q => hr ← ask e q s; Done (hr, s)
  end.

(** The sample a call puts on the queue. *)
Definition accepts (c : call) (s : H264StreamSink) : list IMFSample :=
  match c with
  | Call_ProcessSample (Some x) =>
      if SUCCEEDED (CheckShutdown s) && SUCCEEDED (ValidateOperation OpProcessSample s) then [x] else []
  | _ => []
  end.

Inductive action :=
  | Call (e : env) (c : call)
  | Dispatch (e : env)    (* the work queue's thread takes its next item *)
  | Continue.             (* it goes on with the callback *)

(** Registering a callback waits for [cbCritSec_]. *)
Definition waits (c : call) (p : dispatch_phase) : bool :=
  match c, p with Call_RegisterEncodingCallback _, D_Checked _ => true | _, _ => false end.

Definition system_step (a : action) (y : system) : exec system :=
  match a with
  | Call e c =>
      if waits c (phase y) then Done y
      else r ← invoke e c (sink y);
           Done (mkSystem r.2 (phase y) (accepted y ++ accepts c (sink y)))
  | Dispatch e =>
      match phase y, work (sink y) with
      | D_Idle, op :: w =>
          r ← OnDispatchWorkItem_locked e op (set_work w (sink y));
          let '(hr, sample, s) := r in
          let p := match sample with Some x => if SUCCEEDED hr then D_Picked x else D_Idle | None => D_Idle end in
          Done (mkSystem s p (accepted y))
      | _, _ => Done y
      end
  | Continue =>
      match phase y with
      | D_Idle => Done y
      | D_Picked x =>
          nonnull ← callback_not_null (sink y);
          Done (mkSystem (sink y) (if (nonnull : bool) then D_Checked x else D_Idle) (accepted y))
      | D_Checked x => s ← callback_OnH264Encoded x (sink y); Done (mkSystem s D_Idle (accepted y))
      end
  end.

Fixpoint system_run (l : list action) (y : system) : exec system :=
  match l with [] => Done y | a :: l => y' ← system_step a y; system_run l y' end.

(** A stream just created. *)
Definition fresh (id : Z) : system :=
  mkSystem (mkStreamSink id State_TypeNotSet false None true true None [] None [] [] []) D_Idle [].

Inductive reachable (id : Z) : system -> Prop :=
  | reachable_fresh : reachable id (fresh id)
  | reachable_next y a y' : reachable id y -> system_step a y = Done y' -> reachable id y'.

(** *** Invariant *)

Definition in_flight (p : dispatch_phase) : list IMFSample :=
  match p with D_Idle => [] | D_Picked x | D_Checked x => [x] end.

Record Inv (y : system) : Prop := {
  inv_events : spEventQueue_ (sink y) = negb (isShutdown_ (sink y));
  inv_owner : spSink_ (sink y) = negb (isShutdown_ (sink y));
  inv_type : state_ (sink y) <> State_TypeNotSet -> is_Some (guidCurrentSubtype_ (sink y));
  inv_empty : isShutdown_ (sink y) = true -> sampleQueue_ (sink y) = [];
  inv_callback : forall x, phase y = D_Checked x ->
    encodingCallback_ (sink y) = Some true \/ (isShutdown_ (sink y) = true /\ encodingCallback_ (sink y) = Some false);
  inv_order : delivered (sink y) ++ in_flight (phase y) ++ sampleQueue_ (sink y) `sublist_of` accepted y
}.

(** The part about the stream alone. *)
Record sink_ok (s : H264StreamSink) : Prop := {
  ok_events : spEventQueue_ s = negb (isShutdown_ s);
  ok_owner : spSink_ s = negb (isShutdown_ s);
  ok_type : state_ s <> State_TypeNotSet -> is_Some (guidCurrentSubtype_ s);
  ok_empty : isShutdown_ s = true -> sampleQueue_ s = []
}.

Lemma QueueEvent_Done e met s : spEventQueue_ s = negb (isShutdown_ s) ->
  exists hr, QueueEvent e met s = Done (hr, s) \/ QueueEvent e met s = Done (hr, add_event met s).
Proof.
  intros He. unfold QueueEvent, CheckShutdown. rewrite He.
  destruct (isShutdown_ s); cbn; [by eexists; left|].
  exists (r_event e). destruct (SUCCEEDED (r_event e)); [by right|by left].
Qed.

Lemma QueueAsyncOperation_cases e op v s :
  exists hr, QueueAsyncOperation e op v s = (hr, s) \/
    QueueAsyncOperation e op v s = (hr, set_work (work s ++ [AsyncStreamSinkOperation_new op v]) s).
Proof.
  unfold QueueAsyncOperation. destruct (SUCCEEDED (r_make e)); [|by eexists; left].
  exists (r_put e). destruct (SUCCEEDED (r_put e)); [by right|by left].
Qed.

(** What a stream keeps when only its type, its state and its work change. *)
Definition same_flow (s s' : H264StreamSink) : Prop :=
  isShutdown_ s' = isShutdown_ s /\ spSink_ s' = spSink_ s /\ spEventQueue_ s' = spEventQueue_ s /\
  sampleQueue_ s' = sampleQueue_ s /\ encodingCallback_ s' = encodingCallback_ s /\
  delivered s' = delivered s.

Lemma QueueAsyncOperation_flow e op v s :
  same_flow s (QueueAsyncOperation e op v s).2 /\ state_ (QueueAsyncOperation e op v s).2 = state_ s /\
  guidCurrentSubtype_ (QueueAsyncOperation e op v s).2 = guidCurrentSubtype_ s.
Proof. destruct (QueueAsyncOperation_cases e op v s) as (hr & [-> | ->]); done. Qed.

Lemma IsMediaTypeSupported_Done t s : sink_ok s -> state_ s <> State_TypeNotSet ->
  exists hr, IsMediaTypeSupported t s = Done hr.
Proof.
  intros Hok Hst. destruct t as [t|]; [|eexists; reflexivity]. unfold IsMediaTypeSupported.
  destruct (ok_type s Hok Hst) as [g ->].
  destruct (SUCCEEDED _); [|eexists; reflexivity].
  destruct (spCurrentType_ s), (SubtypeGUID t); eexists; reflexivity.
Qed.

(** [IsMediaTypeSupported] compares the subtype of [t] with [guidCurrentSubtype_], which
    no media type was read into: a current type was created, and its items or its subtype
    could not be got. *)
Definition unread_subtype (t : IMFMediaType) (s : H264StreamSink) : bool :=
  negb (isShutdown_ s) &&
  match MajorGUID t with
  | Some g => bool_decide (g = MFMediaType_Video) || bool_decide (g = MFMediaType_Audio)
  | None => false
  end &&
  bool_decide (is_Some (spCurrentType_ s)) && bool_decide (is_Some (SubtypeGUID t)) &&
  bool_decide (guidCurrentSubtype_ s = None).

Definition asks_unread (c : call) (s : H264StreamSink) : bool :=
  match c with Call_Query (Query_IsMediaTypeSupported (Some t)) => unread_subtype t s | _ => false end.

Lemma IsMediaTypeSupported_cases t s :
  if unread_subtype t s then IsMediaTypeSupported (Some t) s = Undef
  else exists hr, IsMediaTypeSupported (Some t) s = Done hr.
Proof.
  unfold unread_subtype, IsMediaTypeSupported, CheckShutdown.
  destruct (isShutdown_ s); [by eexists|]. cbn [negb andb SUCCEEDED].
  destruct (MajorGUID t) as [g|]; [|by eexists].
  destruct (decide (g <> MFMediaType_Video /\ g <> MFMediaType_Audio)) as [[H1 H2]|Hn]; cbn [SUCCEEDED].
  { rewrite !bool_decide_eq_false_2 by done. by eexists. }
  assert (bool_decide (g = MFMediaType_Video) || bool_decide (g = MFMediaType_Audio) = true) as ->.
  { apply orb_true_iff. rewrite !bool_decide_eq_true.
    destruct (decide (g = MFMediaType_Video)); [by left|]. destruct (decide (g = MFMediaType_Audio)); [by right|].
    exfalso. by apply Hn. }
  cbn [andb]. destruct (spCurrentType_ s), (SubtypeGUID t), (guidCurrentSubtype_ s); cbn; done || by eexists.
Qed.

Lemma ask_cases e q s : sink_ok s ->
  if asks_unread (Call_Query q) s then ask e q s = Undef else exists hr, ask e q s = Done hr.
Proof.
  intros [H1 H2 H3 H4]. destruct q as [| | |b|b|b|t|b|b i|b|b]; cbn [asks_unread ask]; try by eexists.
  1-3: unfold BeginGetEvent, EndGetEvent, GetEvent, on_event_queue, CheckShutdown; rewrite H1;
    destruct (isShutdown_ s); by eexists.
  - unfold GetMediaSink, CheckShutdown. rewrite H2. destruct b, (isShutdown_ s); by eexists.
  - destruct t as [t|]; [apply IsMediaTypeSupported_cases|by eexists].
Qed.

Lemma SetCurrentMediaType_Done e t s : sink_ok s ->
  exists hr s', SetCurrentMediaType e t s = Done (hr, s') /\ same_flow s s' /\ sink_ok s' /\
    (state_ s' = state_ s \/ (state_ s = State_TypeNotSet /\ state_ s' = State_Ready)) /\
    exists w, work s' = work s ++ w /\ Forall (fun o => m_op o = OpSetMediaType) w.
Proof.
  intros Hok. destruct t as [t|].
  2: { exists E_INVALIDARG, s. do 3 (split; [done|]). split; [by left|]. exists []. by rewrite app_nil_r. }
  unfold SetCurrentMediaType.
  assert (exists r, (if State_index State_Ready <=? State_index (state_ s)
      then ON_SUCCEEDED (if_succeeded (CheckShutdown s, s) (fun s => (ValidateOperation OpSetMediaType s, s)))
             (fun s => hr ← IsMediaTypeSupported (Some t) s; Done (hr, s))
      else Done (if_succeeded (CheckShutdown s, s) (fun s => (ValidateOperation OpSetMediaType s, s)))) =
      Done (r, s)) as [hr ->].
  { destruct (Z.leb_spec (State_index State_Ready) (State_index (state_ s))) as [Hle|Hle].
    - unfold ON_SUCCEEDED, if_succeeded. cbn [fst snd].
      destruct (SUCCEEDED (CheckShutdown s)) eqn:Hc; cbn [fst snd]; [|by rewrite Hc; eexists].
      destruct (SUCCEEDED (ValidateOperation OpSetMediaType s)); [|by eexists].
      destruct (IsMediaTypeSupported_Done (Some t) s Hok) as [hr' ->]; [by destruct (state_ s)|].
      eexists. reflexivity.
    - unfold if_succeeded. cbn [fst snd]. by destruct (SUCCEEDED (CheckShutdown s)); eexists. }
  cbn [mbind exec_bind]. destruct Hok as [H1 H2 H3 H4].
  assert (forall (hr : HRESULT) (s1 : H264StreamSink), same_flow s s1 ->
    (state_ s1 <> State_TypeNotSet -> is_Some (guidCurrentSubtype_ s1)) ->
    (state_ s1 = state_ s \/ (state_ s = State_TypeNotSet /\ state_ s1 = State_Ready)) ->
    (exists w, work s1 = work s ++ w /\ Forall (fun o => m_op o = OpSetMediaType) w) ->
    exists hr' s', Done (A := HRESULT * H264StreamSink) (hr, s1) = Done (hr', s') /\ same_flow s s' /\ sink_ok s' /\
      (state_ s' = state_ s \/ (state_ s = State_TypeNotSet /\ state_ s' = State_Ready)) /\
      exists w, work s' = work s ++ w /\ Forall (fun o => m_op o = OpSetMediaType) w) as Hfin.
  { intros hr1 s1 Hf Ht Hst Hw. exists hr1, s1. split; [done|]. split; [done|]. split; [|done].
    destruct Hf as (E1 & E2 & E3 & E4 & _). constructor; rewrite ?E1, ?E2, ?E3, ?E4; done. }
  assert (exists w, work s = work s ++ w /\ Forall (fun o : AsyncStreamSinkOperation => m_op o = OpSetMediaType) w) as Hw0
    by (exists []; by rewrite app_nil_r).
  unfold if_succeeded. cbn [fst snd].
  destruct (SUCCEEDED hr) eqn:E1; repeat progress (cbn [fst snd]; rewrite ?E1); [|by apply Hfin; [| |left|]].
  destruct (SUCCEEDED (r_create e)) eqn:E2; repeat progress (cbn [fst snd]; rewrite ?E2); [|by apply Hfin; [| |left|]].
  destruct (SUCCEEDED (r_copy e)) eqn:E3; repeat progress (cbn [fst snd]; rewrite ?E3); [|by apply Hfin; [| |left|]].
  destruct (SubtypeGUID t) as [g|]; cbn [fst snd SUCCEEDED]; [|by apply Hfin; [| |left|]].
  cbn [state_ set_type]. destruct (State_index (state_ s) <? State_index State_Ready) eqn:Hlt; [apply Hfin; [done|intros _; by eexists| |done]; right; cbn in Hlt; by destruct (state_ s)|].
  destruct (State_index State_Ready <? State_index (state_ s)); [|apply Hfin; [done|intros _; by eexists|by left|done]].
  unfold ProcessFormatChange.
  match goal with |- context [QueueAsyncOperation e OpSetMediaType None ?s1] =>
    destruct (QueueAsyncOperation_flow e OpSetMediaType None s1) as (Hf & Hst & Hg);
    destruct (QueueAsyncOperation_cases e OpSetMediaType None s1) as (hr' & Hcase) end.
  apply Hfin; [exact Hf|rewrite Hg; by eexists|left; exact Hst|].
  destruct Hcase as [-> | ->]; [exact Hw0|]. eexists. split; [reflexivity|]. by constructor.
Qed.

(** A call changes the samples by what it accepts, or drops them; only two calls
    touch the callback. *)
Record call_effect (c : call) (s s' : H264StreamSink) : Prop := {
  eff_ok : sink_ok s';
  eff_delivered : delivered s' = delivered s;
  eff_samples : sampleQueue_ s' = sampleQueue_ s ++ accepts c s \/
    (sampleQueue_ s' = [] /\ accepts c s = [] /\ (c = Call_Shutdown \/ c = Call_Flush));
  eff_callback : (encodingCallback_ s' = encodingCallback_ s /\ isShutdown_ s' = isShutdown_ s) \/
    (exists b, c = Call_RegisterEncodingCallback b) \/
    (c = Call_Shutdown /\ encodingCallback_ s' = Some false /\ isShutdown_ s' = true)
}.

Lemma flow_effect c s s' : same_flow s s' -> sink_ok s' -> accepts c s = [] -> call_effect c s s'.
Proof.
  intros (E1 & _ & _ & E4 & E5 & E6) Hs' Ha. constructor; rewrite ?Ha, ?app_nil_r; auto.
Qed.

Lemma flow_ok s s' : same_flow s s' -> sink_ok s ->
  (state_ s' <> State_TypeNotSet -> is_Some (guidCurrentSubtype_ s')) -> sink_ok s'.
Proof.
  intros (E1 & E2 & E3 & E4 & _) [H1 H2 H3 H4] Ht. constructor; rewrite ?E1, ?E2, ?E3, ?E4; done.
Qed.

Lemma QueueAsyncOperation_ok e op v s s1 : same_flow s s1 -> sink_ok s ->
  (state_ s1 <> State_TypeNotSet -> is_Some (guidCurrentSubtype_ s1)) ->
  same_flow s (QueueAsyncOperation e op v s1).2 /\ sink_ok (QueueAsyncOperation e op v s1).2.
Proof.
  intros Hf Hs Ht. destruct (QueueAsyncOperation_flow e op v s1) as (Hf' & Hst & Hg).
  assert (same_flow s (QueueAsyncOperation e op v s1).2) as Hf2.
  { destruct Hf as (A1 & A2 & A3 & A4 & A5 & A6), Hf' as (B1 & B2 & B3 & B4 & B5 & B6).
    repeat split; congruence. }
  split; [done|]. apply (flow_ok s); [done..|]. by rewrite Hst, Hg.
Qed.

Lemma Start_or_Stop_ok e op st s : sink_ok s -> op = OpStart \/ op = OpStop ->
  let r := if SUCCEEDED (ValidateOperation op s) then QueueAsyncOperation e op None (set_state st s)
           else (ValidateOperation op s, s) in
  same_flow s r.2 /\ sink_ok r.2.
Proof.
  intros Hs Hop r. subst r. unfold ValidateOperation.
  destruct (ValidStateMatrix (state_ s) op) eqn:Hv; cbn [SUCCEEDED].
  - apply QueueAsyncOperation_ok; [done|done|]. intros _. cbn. apply Hs.
    intros E. rewrite E in Hv. by destruct Hop; subst.
  - destruct (state_ s); cbn [SUCCEEDED snd]; by split.
Qed.

Lemma ProcessSample_effect e x s : sink_ok s ->
  call_effect (Call_ProcessSample x) s (ProcessSample e x s).2.
Proof.
  intros Hs. unfold ProcessSample. destruct x as [x|]; [|by apply flow_effect].
  destruct (SUCCEEDED (CheckShutdown s)) eqn:Hc.
  2: { rewrite Hc. apply flow_effect; [done|done|]. cbn. by rewrite Hc. }
  destruct (SUCCEEDED (ValidateOperation OpProcessSample s)) eqn:Hv.
  2: { apply flow_effect; [done|done|]. cbn. by rewrite Hv, andb_false_r. }
  unfold CheckShutdown in Hc. destruct (isShutdown_ s) eqn:Hsd; [done|].
  destruct Hs as [H1 H2 H3 H4].
  destruct (QueueAsyncOperation_cases e OpProcessSample None (set_samples (sampleQueue_ s ++ [x]) s)) as (hr & [-> | ->]);
    (constructor; [constructor; cbn; rewrite ?Hsd in *; done|done| |by left]);
    left; cbn; unfold CheckShutdown; by rewrite Hsd, Hv.
Qed.

Lemma invoke_Done e c s : sink_ok s -> asks_unread c s = false ->
  exists hr s', invoke e c s = Done (hr, s') /\ call_effect c s s'.
Proof.
  intros Hs Hu. pose proof Hs as [H1 H2 H3 H4].
  destruct c as [| | | |x|v|t|met|b|q]; cbn [invoke].
  - destruct (Start_or_Stop_ok e OpStart State_Started s Hs) as [Hf Ho]; [by left|].
    eexists _, _. rewrite <- surjective_pairing. split; [reflexivity|]. by apply flow_effect.
  - destruct (Start_or_Stop_ok e OpStop State_Stopped s Hs) as [Hf Ho]; [by right|].
    eexists _, _. rewrite <- surjective_pairing. split; [reflexivity|]. by apply flow_effect.
  - unfold Shutdown. destruct (isShutdown_ s) eqn:Hsd; eexists _, _; (split; [reflexivity|]); [by apply flow_effect|].
    constructor; cbn; [by constructor|done|auto|auto].
  - unfold Flush. eexists _, _. split; [reflexivity|].
    destruct (SUCCEEDED (CheckShutdown s)); [|by apply flow_effect].
    constructor; cbn; [by constructor|done|auto|auto].
  - eexists _, _. rewrite <- surjective_pairing. split; [reflexivity|]. by apply ProcessSample_effect.
  - unfold PlaceMarker. destruct (SUCCEEDED (CheckShutdown s)); eexists _, _; rewrite <- ?surjective_pairing;
      (split; [reflexivity|]); [|by apply flow_effect].
    destruct (QueueAsyncOperation_ok e OpPlaceMarker v s s) as [Hf Ho]; [done..|]. by apply flow_effect.
  - destruct (SetCurrentMediaType_Done e t s Hs) as (hr & s' & -> & Hf & Ho & _ & _).
    eexists _, _. split; [reflexivity|]. by apply flow_effect.
  - destruct (QueueEvent_Done e met s H1) as (hr & [-> | ->]); eexists _, _; (split; [reflexivity|]);
      by apply flow_effect.
  - eexists _, _. split; [reflexivity|]. constructor; cbn; [by constructor|done|left; by rewrite app_nil_r|eauto].
  - pose proof (ask_cases e q s Hs) as Ha. rewrite Hu in Ha. destruct Ha as [hr ->].
    eexists _, _. split; [reflexivity|]. by apply flow_effect.
Qed.

Lemma invoke_unread e c s : sink_ok s -> asks_unread c s = true -> invoke e c s = Undef.
Proof.
  intros Hs Hu. destruct c as [| | | | | | | | |q]; try done. pose proof (ask_cases e q s Hs) as Ha.
  rewrite Hu in Ha. cbn [invoke]. by rewrite Ha.
Qed.

Lemma QueueEvent_flow e met s : sink_ok s ->
  exists hr s', QueueEvent e met s = Done (hr, s') /\ same_flow s s' /\ sink_ok s' /\ work s' = work s.
Proof.
  intros [H1 H2 H3 H4]. destruct (QueueEvent_Done e met s H1) as (hr & [-> | ->]);
    eexists _, _; (split; [reflexivity|]); (split; [done|]); (split; [by constructor|done]).
Qed.

(** Taking the first sample. *)
Lemma ProcessSamplesFromQueue_spec s : sink_ok s ->
  let r := ProcessSamplesFromQueue s in
  sampleQueue_ s = option_list r.1 ++ sampleQueue_ r.2 /\ sink_ok r.2 /\ delivered r.2 = delivered s /\
  encodingCallback_ r.2 = encodingCallback_ s /\ isShutdown_ r.2 = isShutdown_ s /\ work r.2 = work s.
Proof.
  intros Hs. pose proof Hs as [H1 H2 H3 H4]. unfold ProcessSamplesFromQueue.
  destruct (sampleQueue_ s) as [|x l] eqn:Hq; cbn; [by auto 10|].
  repeat split; try done. cbn. intros Hsd. by specialize (H4 Hsd).
Qed.

(** What the work under the lock does to the samples: it hands over the first one, or
    a stop drops them all. *)
Record dispatch_effect (op : AsyncStreamSinkOperation) (hr : HRESULT) (sample : option IMFSample)
    (s s' : H264StreamSink) : Prop := {
  disp_ok : sink_ok s';
  disp_delivered : delivered s' = delivered s;
  disp_callback : encodingCallback_ s' = encodingCallback_ s;
  disp_shutdown : isShutdown_ s' = isShutdown_ s;
  disp_work : work s' = work s;
  disp_samples :
    (sampleQueue_ s = option_list sample ++ sampleQueue_ s' /\ (sample <> None -> SUCCEEDED hr = true)) \/
    (m_op op = OpStop /\ sample = None /\ sampleQueue_ s' = [])
}.

Lemma flow_dispatch op hr s s' : same_flow s s' -> sink_ok s' -> work s' = work s ->
  dispatch_effect op hr None s s'.
Proof.
  intros (E1 & _ & _ & E4 & E5 & E6) Hs' Hw. constructor; try done. left. by rewrite E4.
Qed.

(** ... after an event was queued successfully. *)
Lemma pop_dispatch op hr s s1 : same_flow s s1 -> sink_ok s1 -> work s1 = work s -> SUCCEEDED hr = true ->
  dispatch_effect op hr (ProcessSamplesFromQueue s1).1 s (ProcessSamplesFromQueue s1).2.
Proof.
  intros (E1 & _ & _ & E4 & E5 & E6) Hs1 Hw Hhr.
  destruct (ProcessSamplesFromQueue_spec s1 Hs1) as (P1 & P2 & P3 & P4 & P5 & P6).
  constructor; try congruence. left. by rewrite <- E4.
Qed.

Lemma OnDispatchWorkItem_locked_Done e op s : sink_ok s ->
  exists hr sample s', OnDispatchWorkItem_locked e op s = Done (hr, sample, s') /\
    dispatch_effect op hr sample s s'.
Proof.
  intros Hs. unfold OnDispatchWorkItem_locked.
  destruct (SUCCEEDED (r_state e)); [|exists (r_state e), None, s; split; [done|]; by apply flow_dispatch].
  destruct (m_op op) eqn:Hop.
  - destruct (QueueEvent_flow e MEStreamSinkFormatChanged s Hs) as (hr & s1 & -> & Hf & Ho & Hw).
    exists hr, None, s1. split; [done|]. by apply flow_dispatch.
  - destruct (QueueEvent_flow e MEStreamSinkStarted s Hs) as (hr & s1 & -> & Hf & Ho & Hw).
    cbn [mbind exec_bind fst snd]. destruct (SUCCEEDED hr) eqn:Hhr; [|exists hr, None, s1; split; [done|]; by apply flow_dispatch].
    pose proof (pop_dispatch op hr s s1 Hf Ho Hw Hhr) as Hp.
    destruct (ProcessSamplesFromQueue s1) as [[x|] s2] eqn:Hpop; cbn [fst snd] in Hp; [by exists hr, (Some x), s2|].
    destruct (QueueEvent_flow e MEStreamSinkRequestSample s2 (disp_ok _ _ _ _ _ Hp)) as (hr2 & s3 & -> & Hf3 & Ho3 & Hw3).
    exists hr2, None, s3. split; [done|]. destruct Hf3 as (E1 & _ & _ & E4 & E5 & E6), Hp as [P1 P2 P3 P4 P5 P6].
    constructor; try congruence. left. destruct P6 as [[P6 _]|(P6 & _)]; [|congruence]. by rewrite E4.
  - assert (sink_ok (DropSamplesFromQueue s)) as Hd by (destruct Hs; by constructor).
    destruct (QueueEvent_flow e MEStreamSinkStopped _ Hd) as (hr & s1 & -> & Hf & Ho & Hw).
    exists hr, None, s1. split; [done|]. destruct Hf as (E1 & _ & _ & E4 & E5 & E6).
    constructor; try done. right. by rewrite E4.
  - destruct (QueueEvent_flow e MEStreamSinkRequestSample s Hs) as (hr & s1 & -> & Hf & Ho & Hw).
    cbn [mbind exec_bind fst snd]. destruct (SUCCEEDED hr) eqn:Hhr; [|exists hr, None, s1; split; [done|]; by apply flow_dispatch].
    pose proof (pop_dispatch op hr s s1 Hf Ho Hw Hhr) as Hp.
    destruct (ProcessSamplesFromQueue s1) as [x s2]. by exists hr, x, s2.
  - destruct (QueueEvent_flow e (MEStreamSinkMarker (m_propVariant op)) s Hs) as (hr & s1 & -> & Hf & Ho & Hw).
    exists hr, None, s1. split; [done|]. by apply flow_dispatch.
Qed.

Lemma sink_ok_set_work w s : sink_ok s -> sink_ok (set_work w s).
Proof. intros [H1 H2 H3 H4]. by constructor. Qed.

Lemma fresh_inv id : Inv (fresh id).
Proof. by constructor. Qed.

Lemma Inv_sink y : Inv y -> sink_ok (sink y).
Proof. intros [H1 H2 H3 H4 _ _]. by constructor. Qed.

Lemma Inv_of y s p acc : sink_ok s ->
  (forall x, p = D_Checked x -> encodingCallback_ s = Some true \/ (isShutdown_ s = true /\ encodingCallback_ s = Some false)) ->
  delivered s ++ in_flight p ++ sampleQueue_ s `sublist_of` acc -> y = mkSystem s p acc -> Inv y.
Proof. intros [H1 H2 H3 H4] Hc Ho ->. by constructor. Qed.

(** What makes a step undefined: it calls the callback that is not initialized or has
    just been cleared, or compares with the subtype that was never read. *)
Definition undefined_step (a : action) (y : system) : Prop :=
  (a = Continue /\ exists x, phase y = D_Picked x /\ encodingCallback_ (sink y) = None) \/
  (a = Continue /\ exists x, phase y = D_Checked x /\ encodingCallback_ (sink y) = Some false /\
     isShutdown_ (sink y) = true) \/
  (exists e t, a = Call e (Call_Query (Query_IsMediaTypeSupported (Some t))) /\
     unread_subtype t (sink y) = true).

(** Every other step from a state of the invariant leads to one. *)
Lemma system_step_inv a y : Inv y ->
  (exists y', system_step a y = Done y' /\ Inv y') \/ (system_step a y = Undef /\ undefined_step a y).
Proof.
  intros HI. pose proof (Inv_sink y HI) as Hs. pose proof HI as [_ _ _ _ Hcb Hord]. destruct a as [e c|e|]; cbn [system_step].
  - destruct (waits c (phase y)) eqn:Hw; [left; by exists y|].
    destruct (asks_unread c (sink y)) eqn:Hu.
    { right. rewrite invoke_unread by done. split; [done|]. right. right.
      destruct c as [| | | | | | | | |[| | | | | |[t|]| | | |]]; try done. by exists e, t. }
    left. destruct (invoke_Done e c (sink y) Hs Hu) as (hr & s' & -> & [E1 E2 E3 E4]). cbn [mbind exec_bind snd].
    eexists. split; [reflexivity|]. eapply Inv_of; [exact E1| | |reflexivity].
    + intros x Hx. destruct E4 as [[-> ->]|[[b ->]|(-> & -> & ->)]]; [by eapply Hcb| |by right].
      by rewrite Hx in Hw.
    + rewrite E2. destruct E3 as [->|(-> & -> & _)].
      * rewrite !app_assoc. apply sublist_app; [by rewrite <- app_assoc|done].
      * rewrite !app_nil_r. etrans; [|exact Hord]. apply sublist_app; [done|]. apply sublist_inserts_r. done.
  - left. destruct (phase y) as [|x|x] eqn:Hp.
    2,3: by exists y.
    destruct (work (sink y)) as [|op w] eqn:Hwork.
    { by exists y. }
    destruct (OnDispatchWorkItem_locked_Done e op _ (sink_ok_set_work w _ Hs)) as (hr & x & s' & -> & [D1 D2 D3 D4 D5 D6]).
    cbn [mbind exec_bind]. eexists. split; [reflexivity|]. eapply Inv_of; [exact D1| | |reflexivity].
    + intros z. destruct x; [|done]. by destruct (SUCCEEDED hr).
    + rewrite D2. cbn [delivered set_work in_flight app] in *. destruct D6 as [[D6 Hhr]|(_ & -> & ->)].
      * cbn [sampleQueue_ set_work] in D6. rewrite D6 in Hord. destruct x as [x|]; [|exact Hord].
        by rewrite (Hhr ltac:(done)).
      * etrans; [|exact Hord]. apply sublist_app; [done|]. apply sublist_nil_l.
  - destruct (phase y) as [|x|x] eqn:Hp.
    + left. by exists y.
    + unfold callback_not_null. destruct (encodingCallback_ (sink y)) as [b|] eqn:Hc; cbn [defined mbind exec_bind]; [|by right; split; [|left; eauto]].
      left. eexists. split; [reflexivity|]. eapply Inv_of; [exact Hs| | |reflexivity].
      * intros z. destruct b; [|done]. intros _. by left.
      * destruct b; [exact Hord|]. etrans; [|exact Hord]. apply sublist_app; [done|]. apply sublist_inserts_l. done.
    + unfold callback_OnH264Encoded, callback_not_null.
      destruct (Hcb x eq_refl) as [Hc|[Hsd Hc]]; rewrite Hc; cbn [defined mbind exec_bind].
      * left. eexists. split; [reflexivity|].
        apply (Inv_of _ (deliver x (sink y)) D_Idle (accepted y)); [|done| |reflexivity].
        -- destruct Hs. by constructor.
        -- cbn. rewrite <- app_assoc. exact Hord.
      * right. split; [done|]. right. left. by eauto.
Qed.

Lemma undefined_step_Undef a y : Inv y -> undefined_step a y -> system_step a y = Undef.
Proof.
  intros HI [(-> & x & Hp & Hc)|[(-> & x & Hp & Hc & _)|(e & t & -> & Hu)]]; cbn [system_step].
  - rewrite Hp. unfold callback_not_null. by rewrite Hc.
  - rewrite Hp. unfold callback_OnH264Encoded, callback_not_null. by rewrite Hc.
  - cbn [waits]. by rewrite (invoke_unread e (Call_Query (Query_IsMediaTypeSupported (Some t))) _ (Inv_sink y HI) Hu).
Qed.

(** *** Delivery *)

Definition succeeds (e : env) : bool :=
  SUCCEEDED (r_make e) && SUCCEEDED (r_put e) && SUCCEEDED (r_event e) && SUCCEEDED (r_state e).

(** Nothing that drops samples or changes the callback, no failure, and only types
    that have a subtype. *)
Definition lossless (a : action) : bool :=
  match a with
  | Call _ (Call_Stop | Call_Shutdown | Call_Flush | Call_RegisterEncodingCallback _) => false
  | Call e (Call_SetCurrentMediaType (Some t)) =>
      succeeds e && SUCCEEDED (r_create e) && SUCCEEDED (r_copy e) &&
      match SubtypeGUID t with Some _ => true | None => false end
  | Call e _ | Dispatch e => succeeds e
  | Continue => true
  end.

(** The pending operations that take a sample. *)
Definition sample_ops (w : list AsyncStreamSinkOperation) : nat :=
  length (List.filter (fun o => match m_op o with OpProcessSample => true | _ => false end) w).

Lemma sample_ops_app w w' : sample_ops (w ++ w') = (sample_ops w + sample_ops w')%nat.
Proof. unfold sample_ops. by rewrite List.filter_app, length_app. Qed.

Definition no_stop (w : list AsyncStreamSinkOperation) : Prop := Forall (fun o => m_op o <> OpStop) w.

(** The subtype of the current type was read. *)
Definition typed (s : H264StreamSink) : Prop := is_Some (spCurrentType_ s) -> is_Some (guidCurrentSubtype_ s).

Lemma typed_asks s c : typed s -> asks_unread c s = false.
Proof.
  intros Ht. destruct c as [| | | | | | | | |[| | | | | |[t|]| | | |]]; try done. cbn. unfold unread_subtype.
  destruct (bool_decide (is_Some (spCurrentType_ s))) eqn:Hc; [|by rewrite andb_false_r].
  apply bool_decide_eq_true in Hc. destruct (Ht Hc) as [g ->]. by rewrite !andb_false_r.
Qed.

Definition same_type (s s' : H264StreamSink) : Prop :=
  spCurrentType_ s' = spCurrentType_ s /\ guidCurrentSubtype_ s' = guidCurrentSubtype_ s.

Lemma same_type_typed s s' : same_type s s' -> typed s -> typed s'.
Proof. unfold typed. by intros [-> ->]. Qed.

Lemma QueueAsyncOperation_type e op v s : same_type s (QueueAsyncOperation e op v s).2.
Proof. destruct (QueueAsyncOperation_cases e op v s) as (hr & [-> | ->]); done. Qed.

Lemma QueueEvent_type e met s hr s' : sink_ok s -> QueueEvent e met s = Done (hr, s') ->
  same_type s s' /\ sink_ok s' /\ sampleQueue_ s' = sampleQueue_ s.
Proof.
  intros Hs. destruct (QueueEvent_Done e met s (ok_events s Hs)) as (hr' & [-> | ->]); intros [= _ <-];
    [done|]. destruct Hs. split; [done|]. by split.
Qed.

Lemma pop_type s : same_type s (ProcessSamplesFromQueue s).2.
Proof. unfold ProcessSamplesFromQueue. by destruct (sampleQueue_ s). Qed.

Lemma dispatch_type e op s hr x s' : sink_ok s ->
  OnDispatchWorkItem_locked e op s = Done (hr, x, s') -> same_type s s'.
Proof.
  intros Hs. unfold OnDispatchWorkItem_locked. destruct (SUCCEEDED (r_state e)); [|by intros [= _ _ <-]].
  assert (sink_ok (DropSamplesFromQueue s)) as Hd by (destruct Hs; by split).
  destruct (m_op op);
    match goal with |- context [QueueEvent e ?m ?s0] => destruct (QueueEvent e m s0) as [[h1 s1]| |] eqn:E1 end;
    cbn [mbind exec_bind fst snd]; try done;
    apply QueueEvent_type in E1 as (Ht1 & Ho1 & _); try done; try (by intros [= _ _ <-]).
  all: (destruct (SUCCEEDED h1); [|by intros [= _ _ <-]]); pose proof (pop_type s1) as Hp;
    destruct (ProcessSamplesFromQueue s1) as [[z|] s2] eqn:E2; cbn [snd] in Hp.
  all: try (intros [= _ _ <-]; destruct Ht1, Hp; split; congruence).
  assert (s2 = s1) as -> by (unfold ProcessSamplesFromQueue in E2; destruct (sampleQueue_ s1); by injection E2).
  destruct (QueueEvent e _ s1) as [[h3 s3]| |] eqn:E3; cbn [mbind exec_bind fst snd]; try done.
  apply QueueEvent_type in E3 as (Ht3 & _); [|done]. intros [= _ _ <-]. destruct Ht1, Ht3. split; congruence.
Qed.

(** Where nothing fails, setting a type leaves it with its subtype. *)
Lemma SetCurrentMediaType_typed e t s hr s' : typed s ->
  SUCCEEDED (r_create e) = true -> SUCCEEDED (r_copy e) = true -> is_Some (SubtypeGUID t) ->
  SetCurrentMediaType e (Some t) s = Done (hr, s') -> typed s'.
Proof.
  intros Hs H1 H2 [g Hg]. unfold SetCurrentMediaType.
  destruct (if State_index State_Ready <=? State_index (state_ s) then _ else _) as [[h s1]| |] eqn:E;
    cbn [mbind exec_bind]; try done.
  assert (s1 = s) as ->.
  { unfold ON_SUCCEEDED, if_succeeded in E. cbn [fst snd] in E.
    destruct (_ <=? _); destruct (SUCCEEDED (CheckShutdown s)) eqn:Hc; cbn [fst snd] in E; try congruence;
      [|rewrite Hc in E; congruence].
    destruct (SUCCEEDED (ValidateOperation OpSetMediaType s)); [|congruence].
    destruct (IsMediaTypeSupported (Some t) s); cbn [mbind exec_bind] in E; congruence. }
  unfold if_succeeded. cbn [fst snd]. destruct (SUCCEEDED h) eqn:Hh; cbn [fst snd]; [|repeat (rewrite Hh; cbn [fst snd]); by intros [= _ <-]].
  rewrite H1. cbn [fst snd]. rewrite H2. cbn [fst snd]. rewrite Hg. cbn [fst snd].
  change (SUCCEEDED S_OK) with true. cbn [fst snd]. set (s2 := set_type _ (Some g) _).
  assert (typed s2) as Ht by (intros _; by exists g).
  destruct (_ <? _); [by intros [= _ <-]|]. destruct (_ <? _); intros [= _ <-]; [|exact Ht].
  eapply same_type_typed; [apply QueueAsyncOperation_type|exact Ht].
Qed.

Lemma Done_snd {A B} (r : A * B) a b : Done r = Done (a, b) -> b = r.2.
Proof. by intros [= ->]. Qed.

Lemma put_typed e op v s : typed s -> typed (QueueAsyncOperation e op v s).2.
Proof. apply same_type_typed, QueueAsyncOperation_type. Qed.

Lemma invoke_typed e c s hr s' : lossless (Call e c) = true -> sink_ok s -> typed s ->
  invoke e c s = Done (hr, s') -> typed s'.
Proof.
  intros Hl Hs Ht. destruct c as [| | | |x|v|t|met|b|q]; cbn [lossless] in Hl; try done; cbn [invoke].
  - intros ->%Done_snd. unfold Start. destruct (SUCCEEDED (ValidateOperation OpStart s)); [by apply put_typed|done].
  - intros ->%Done_snd. unfold ProcessSample. destruct x as [x|]; [|done].
    destruct (SUCCEEDED (if SUCCEEDED _ then _ else _)); [by apply put_typed|done].
  - intros ->%Done_snd. unfold PlaceMarker. destruct (SUCCEEDED (CheckShutdown s)); [by apply put_typed|done].
  - destruct t as [t|]; [|by intros [= _ <-]].
    apply andb_prop in Hl as [[[_ H1]%andb_prop H2]%andb_prop H3].
    apply SetCurrentMediaType_typed; [done..|]. by destruct (SubtypeGUID t).
  - intros (Hty & _)%QueueEvent_type; [|done]. by eapply same_type_typed.
  - destruct (ask e q s); cbn [mbind exec_bind]; try done. by intros [= _ <-].
Qed.

Record lossless_inv (y : system) : Prop := {
  ll_inv : sink_ok (sink y);
  ll_open : isShutdown_ (sink y) = false;
  ll_callback : encodingCallback_ (sink y) = Some true;
  ll_subtype : typed (sink y);
  ll_samples : delivered (sink y) ++ in_flight (phase y) ++ sampleQueue_ (sink y) = accepted y;
  ll_ops : (length (sampleQueue_ (sink y)) <= sample_ops (work (sink y)))%nat;
  ll_work : no_stop (work (sink y))
}.

Lemma QueueAsyncOperation_put e op v s : succeeds e = true ->
  QueueAsyncOperation e op v s = (r_put e, set_work (work s ++ [AsyncStreamSinkOperation_new op v]) s).
Proof.
  unfold succeeds, QueueAsyncOperation. intros [[[-> ->]%andb_prop _]%andb_prop _]%andb_prop. done.
Qed.

(** What a call adds to the work: a sample comes with its operation. *)
Lemma invoke_work e c s hr s' : sink_ok s -> lossless (Call e c) = true -> invoke e c s = Done (hr, s') ->
  exists w, work s' = work s ++ w /\ no_stop w /\ (length (accepts c s) <= sample_ops w)%nat.
Proof.
  intros Hs Hl. assert (succeeds e = true) as He.
  { destruct c as [| | | | | |[t|]| | |]; try done. cbn in Hl. by do 3 apply andb_prop in Hl as [Hl _]. }
  assert (exists w, work s = work s ++ w /\ no_stop w /\ (0 <= sample_ops w)%nat) as H0
    by (exists []; rewrite app_nil_r; split; [done|]; split; [apply Forall_nil_2|lia]).
  destruct c as [| | | |x|v|t|met|b|q]; try done; cbn [invoke accepts length].
  - unfold Start. destruct (SUCCEEDED _); [|by intros [= _ <-]].
    rewrite QueueAsyncOperation_put by done. intros [= _ <-]. eexists. split; [reflexivity|].
    split; [by repeat constructor|cbn; lia].
  - unfold ProcessSample. destruct x as [x|]; [|by intros [= _ <-]].
    destruct (SUCCEEDED (CheckShutdown s)) eqn:Hc; cbn [andb]; [|rewrite Hc; by intros [= _ <-]].
    destruct (SUCCEEDED (ValidateOperation OpProcessSample s)); [|by intros [= _ <-]].
    rewrite QueueAsyncOperation_put by done. intros [= _ <-]. eexists. split; [reflexivity|].
    split; [by repeat constructor|done].
  - unfold PlaceMarker. destruct (SUCCEEDED _); [|by intros [= _ <-]].
    rewrite QueueAsyncOperation_put by done. intros [= _ <-]. eexists. split; [reflexivity|].
    split; [by repeat constructor|cbn; lia].
  - destruct (SetCurrentMediaType_Done e t s Hs) as (hr' & s2 & -> & _ & _ & _ & w & Hw & Hf).
    intros [= _ <-]. exists w. split; [done|]. split; [|cbn; lia].
    revert Hf. apply Forall_impl. cbn. congruence.
  - destruct (QueueEvent_flow e met s Hs) as (hr' & s2 & -> & _ & _ & Hw).
    intros [= _ <-]. by rewrite Hw.
  - destruct (ask e q s); cbn [mbind exec_bind]; try done. by intros [= _ <-].
Qed.

(** A dispatched operation that takes a sample does take it. *)
Lemma dispatch_takes e op s hr x s' : sink_ok s -> isShutdown_ s = false -> succeeds e = true ->
  m_op op = OpProcessSample -> OnDispatchWorkItem_locked e op s = Done (hr, x, s') ->
  (length (sampleQueue_ s') <= length (sampleQueue_ s) - 1)%nat.
Proof.
  intros [H1 H2 H3 H4] Hsd He Hop. unfold OnDispatchWorkItem_locked, QueueEvent, CheckShutdown.
  unfold succeeds in He. apply andb_prop in He as [He ->]. apply andb_prop in He as [_ He].
  rewrite Hop, Hsd, H1, Hsd. cbn [negb SUCCEEDED mbind exec_bind fst snd]. rewrite He.
  unfold ProcessSamplesFromQueue. cbn [add_event sampleQueue_].
  destruct (sampleQueue_ s) as [|z l] eqn:Hq; intros [= _ _ <-]; cbn; rewrite ?Hq; cbn; lia.
Qed.

Lemma lossless_step a y : lossless a = true -> lossless_inv y ->
  exists y', system_step a y = Done y' /\ lossless_inv y'.
Proof.
  intros Hl HI. pose proof HI as [Hs Hsd Hcb Hty Hord Hops Hst]. destruct a as [e c|e|]; cbn [system_step].
  - destruct (waits c (phase y)); [by exists y|].
    destruct (invoke_Done e c (sink y) Hs (typed_asks _ c Hty)) as (hr & s' & Hi & [E1 E2 E3 E4]).
    pose proof (invoke_typed e c (sink y) hr s' Hl Hs Hty Hi) as Hty'.
    destruct (invoke_work e c (sink y) hr s' Hs Hl Hi) as (w & Hw & Hns & Hlen).
    rewrite Hi. cbn [mbind exec_bind snd]. eexists. split; [reflexivity|].
    destruct E4 as [[Hcb' Hsd']|[[b ->]|(-> & _ & _)]]; [|done..].
    destruct E3 as [E3|(_ & _ & [-> | ->])]; [|done..].
    constructor; cbn; [done|congruence|congruence|done| | |].
    + rewrite E2, E3, <- Hord. by rewrite <- !app_assoc.
    + rewrite E3, Hw, length_app, sample_ops_app. lia.
    + rewrite Hw. by apply Forall_app_2.
  - destruct (phase y) as [|x|x] eqn:Hp; [|by exists y..].
    destruct (work (sink y)) as [|op w] eqn:Hwork; [by exists y|].
    apply Forall_cons_1 in Hst as [Hop Hst].
    destruct (OnDispatchWorkItem_locked_Done e op _ (sink_ok_set_work w _ Hs)) as (hr & x & s' & Hd & [D1 D2 D3 D4 D5 D6]).
    rewrite Hd. cbn [mbind exec_bind]. eexists. split; [reflexivity|].
    destruct D6 as [[D6 Hhr]|(D6 & _)]; [|done]. cbn in *.
    constructor; cbn; [done|congruence|congruence| | | |].
    + eapply same_type_typed; [exact (dispatch_type _ _ _ _ _ _ (sink_ok_set_work w _ Hs) Hd)|exact Hty].
    + rewrite D2, <- Hord, D6. destruct x as [x|]; [|done]. by rewrite (Hhr ltac:(done)).
    + rewrite D5. cbn [work set_work]. unfold sample_ops in *. cbn [List.filter] in Hops.
      destruct (m_op op) eqn:Eop; try (destruct x; rewrite D6 in Hops; cbn in *; lia).
      pose proof (dispatch_takes e op _ hr x s' (sink_ok_set_work w _ Hs) Hsd Hl Eop Hd) as Ht.
      cbn in *. lia.
    + by rewrite D5.
  - destruct (phase y) as [|x|x] eqn:Hp; [by exists y| |].
    + unfold callback_not_null. rewrite Hcb. cbn. eexists. split; [reflexivity|]. by constructor.
    + unfold callback_OnH264Encoded, callback_not_null. rewrite Hcb. cbn. eexists. split; [reflexivity|].
      constructor; cbn; try done; [by destruct Hs|]. by rewrite <- app_assoc.
Qed.

Lemma lossless_run l y : forallb lossless l = true -> lossless_inv y ->
  exists y', system_run l y = Done y' /\ lossless_inv y'.
Proof.
  revert y. induction l as [|a l IH]; intros y Hl HI; [by exists y|]. cbn [forallb system_run] in *.
  apply andb_prop in Hl as [Ha Hl]. destruct (lossless_step a y Ha HI) as (y1 & -> & HI1). by apply IH.
Qed.

(** The work queue's thread alone, for one item and for all. *)
Definition finish : list action := [Continue; Continue].
Definition drain (n : nat) : list action := finish ++ concat (repeat (Dispatch all_ok :: finish) n).

Lemma finish_idle y y' : system_run finish y = Done y' ->
  phase y' = D_Idle /\ work (sink y') = work (sink y) /\ accepted y' = accepted y.
Proof.
  unfold finish. cbn [system_run system_step]. destruct (phase y) as [|x|x] eqn:Hp; cbn [mbind exec_bind].
  - rewrite Hp. cbn. by intros [= <-].
  - unfold callback_not_null. destruct (encodingCallback_ (sink y)) as [[]|] eqn:Hc; cbn; [| |done].
    + unfold callback_OnH264Encoded, callback_not_null. rewrite Hc. cbn. by intros [= <-].
    + by intros [= <-].
  - unfold callback_OnH264Encoded, callback_not_null.
    destruct (encodingCallback_ (sink y)) as [[]|] eqn:Hc; cbn; [|done..]. by intros [= <-].
Qed.

Lemma system_run_app l l' y : system_run (l ++ l') y = (y' ← system_run l y; system_run l' y').
Proof.
  revert y. induction l as [|a l IH]; intros y; cbn [app system_run]; [done|].
  destruct (system_step a y); cbn [mbind exec_bind]; done || apply IH.
Qed.

Lemma drain_work n y : lossless_inv y -> phase y = D_Idle -> (length (work (sink y)) <= n)%nat ->
  exists y', system_run (concat (repeat (Dispatch all_ok :: finish) n)) y = Done y' /\
    lossless_inv y' /\ phase y' = D_Idle /\ work (sink y') = [] /\ accepted y' = accepted y.
Proof.
  revert y. induction n as [|n IH]; intros y HI Hp Hn.
  - exists y. destruct (work (sink y)) eqn:Hw; [by auto 10|cbn in Hn; lia].
  - cbn [repeat concat]. rewrite system_run_app.
    destruct (lossless_run (Dispatch all_ok :: finish) y) as (y1 & Hr & HI1); [done|done|].
    rewrite Hr. cbn [mbind exec_bind]. cbn [system_run] in Hr.
    apply exec_bind_Done in Hr as (y0 & Hd & Hr). pose proof (finish_idle y0 y1 Hr) as (Hp1 & Hw1 & Ha1).
    assert (accepted y0 = accepted y /\ length (work (sink y0)) = (length (work (sink y)) - 1)%nat) as [Ha0 Hw0].
    { cbn [system_step] in Hd. rewrite Hp in Hd. destruct (work (sink y)) as [|op w] eqn:Hw.
      - injection Hd as <-. by rewrite Hw.
      - apply exec_bind_Done in Hd as ([[hr x] s'] & Hd & [= <-]).
        destruct (OnDispatchWorkItem_locked_Done all_ok op _ (sink_ok_set_work w _ (ll_inv _ HI)))
          as (hr2 & x2 & s2 & Hd2 & [_ _ _ _ D5 _]).
        rewrite Hd in Hd2. injection Hd2 as <- <- <-. cbn. rewrite D5. cbn. by rewrite Nat.sub_0_r. }
    destruct (IH y1 HI1 Hp1) as (y2 & Hr2 & HI2 & Hp2 & Hw2 & Ha2); [rewrite Hw1; lia|].
    exists y2. rewrite Hr2. do 4 (split; [done|]). congruence.
Qed.

Lemma system_inv id y : reachable id y -> Inv y.
Proof.
  induction 1 as [|y a y' _ IH Hs]; [apply fresh_inv|].
  destruct (system_step_inv a y IH) as [(y1 & Hs1 & HI)|[Hs1 _]]; rewrite Hs in Hs1; [by injection Hs1 as ->|done].
Qed.

(** *** Main results *)

(** C21: Whatever the threads call in whatever order, a step of the stream is undefined
    exactly when the work queue's thread reads its callback before one was ever registered;
    or calls it after [Shutdown], which does not take [cbCritSec_], cleared it between the
    test and the call; or when a client asks whether a type is supported while the stream
    has a current type of which no subtype was read. *)
Theorem StreamSink_undefined_iff id y a :
  reachable id y ->
  system_step a y <> Fatal /\
  (system_step a y = Undef <->
   (a = Continue /\ exists x, phase y = D_Picked x /\ encodingCallback_ (sink y) = None) \/
   (a = Continue /\ exists x, phase y = D_Checked x /\ encodingCallback_ (sink y) = Some false /\
      isShutdown_ (sink y) = true) \/
   (exists e t, a = Call e (Call_Query (Query_IsMediaTypeSupported (Some t))) /\
      unread_subtype t (sink y) = true)).
Proof.
  intros Hr%system_inv. fold (undefined_step a y). split.
  - destruct (system_step_inv a y Hr) as [(y1 & -> & _)|[-> _]]; done.
  - split; [|by apply undefined_step_Undef].
    destruct (system_step_inv a y Hr) as [(y1 & -> & _)|[_ ?]]; done.
Qed.

(** C20: The encoder gets a subsequence of the accepted samples, in their
    order and each at most once, however calls and dispatches interleave. *)
Theorem StreamSink_fifo id y :
  reachable id y ->
  delivered (sink y) ++ in_flight (phase y) ++ sampleQueue_ (sink y) `sublist_of` accepted y.
Proof. intros Hr%system_inv. apply Hr. Qed.

(** C22: A stream whose callback is registered first and never again, that is not
    stopped, flushed or shut down, that is only given types with a subtype, and in which no
    call to Media Foundation fails, loses no accepted sample and gets none stuck: from every
    state the threads can reach, the work queue alone delivers them all, in order. *)
Theorem StreamSink_delivers id l :
  forallb lossless l = true ->
  exists y, system_run (Call all_ok (Call_RegisterEncodingCallback true) :: l) (fresh id) = Done y /\
    exists y', system_run (drain (length (work (sink y)))) y = Done y' /\
      accepted y' = accepted y /\ delivered (sink y') = accepted y.
Proof.
  intros Hl. set (y0 := mkSystem (set_callback (Some true) (sink (fresh id))) D_Idle []).
  change (system_run (_ :: l) (fresh id)) with (system_run l y0).
  destruct (lossless_run l y0 Hl) as (y & -> & HI); [split; cbn; try done; first [by intros [? [=]] | by constructor]|].
  exists y. split; [done|]. unfold drain. rewrite system_run_app.
  destruct (lossless_run finish y eq_refl HI) as (y1 & Hr1 & HI1). rewrite Hr1. cbn [mbind exec_bind].
  destruct (finish_idle y y1 Hr1) as (Hp1 & Hw1 & Ha1).
  destruct (drain_work (length (work (sink y))) y1 HI1 Hp1) as (y2 & Hr2 & HI2 & Hp2 & Hw2 & Ha2); [by rewrite Hw1|].
  exists y2. split; [exact Hr2|]. split; [congruence|].
  destruct HI2 as [_ _ _ _ Hord Hops _]. rewrite Hp2, Hw2 in *.
  destruct (sampleQueue_ (sink y2)); [|cbn in Hops; lia]. cbn in Hord. rewrite app_nil_r in Hord. congruence.
Qed.

(** Which calls a stream in each state accepts: without a type nothing
    but a type, a sample only once started, starting and stopping at any time after the
    first type; and no call ever makes a stream forget that it has a type. *)
Theorem StreamSink_operations e s x c hr s' :
  sink_ok s -> isShutdown_ s = false -> succeeds e = true ->
  (invoke e (Call_ProcessSample (Some x)) s =
     Done match state_ s with
          | State_Started => (r_put e, set_work (work s ++ [AsyncStreamSinkOperation_new OpProcessSample None])
                                         (set_samples (sampleQueue_ s ++ [x]) s))
          | State_TypeNotSet => (MF_E_NOT_INITIALIZED, s)
          | _ => (MF_E_INVALIDREQUEST, s)
          end) /\
  (invoke e Call_Start s =
     Done match state_ s with
          | State_TypeNotSet => (MF_E_NOT_INITIALIZED, s)
          | _ => (r_put e, set_work (work s ++ [AsyncStreamSinkOperation_new OpStart None]) (set_state State_Started s))
          end) /\
  (invoke e Call_Stop s =
     Done match state_ s with
          | State_TypeNotSet => (MF_E_NOT_INITIALIZED, s)
          | _ => (r_put e, set_work (work s ++ [AsyncStreamSinkOperation_new OpStop None]) (set_state State_Stopped s))
          end) /\
  (invoke e c s = Done (hr, s') ->
     state_ s' = state_ s \/ (state_ s = State_TypeNotSet /\ state_ s' = State_Ready) \/
     (state_ s <> State_TypeNotSet /\ (state_ s' = State_Started \/ state_ s' = State_Stopped))).
Proof.
  intros Hs Hsd He. cbn [invoke]. unfold ProcessSample, Start, Stop, CheckShutdown, ValidateOperation. rewrite Hsd.
  split; [|split; [|split]].
  - destruct (state_ s) eqn:Hst; cbn; rewrite ?Hst; try done. by rewrite QueueAsyncOperation_put.
  - destruct (state_ s) eqn:Hst; cbn; rewrite ?Hst; try done; by rewrite QueueAsyncOperation_put.
  - destruct (state_ s) eqn:Hst; cbn; rewrite ?Hst; try done; by rewrite QueueAsyncOperation_put.
  - destruct c as [| | | |z|v|t|met|b|q]; cbn [invoke].
    + unfold Start, ValidateOperation. rewrite QueueAsyncOperation_put by done.
      destruct (state_ s) eqn:Hst; cbn; intros [= _ <-]; cbn; auto.
    + unfold Stop, ValidateOperation. rewrite QueueAsyncOperation_put by done.
      destruct (state_ s) eqn:Hst; cbn; intros [= _ <-]; cbn; auto.
    + unfold Shutdown. rewrite Hsd. intros [= _ <-]. by left.
    + unfold Flush. intros [= _ <-]. left. by destruct (SUCCEEDED _).
    + unfold ProcessSample. destruct z; [|intros [= _ <-]; by left]. rewrite QueueAsyncOperation_put by done.
      destruct (SUCCEEDED _); intros [= _ <-]; by left.
    + unfold PlaceMarker. rewrite QueueAsyncOperation_put by done.
      destruct (SUCCEEDED _); intros [= _ <-]; by left.
    + destruct (SetCurrentMediaType_Done e t s Hs) as (hr' & s2 & -> & _ & _ & Hst & _). intros [= _ <-].
      destruct Hst; auto.
    + destruct (QueueEvent_Done e met s (ok_events s Hs)) as (hr' & [-> | ->]); intros [= _ <-]; by left.
    + intros [= _ <-]. by left.
    + destruct (ask e q s); cbn [mbind exec_bind]; try done. intros [= _ <-]. by left.
Qed.

(** A sample accepted after a restart is lost when the stop before it
    had not been dispatched yet: the stop drops it, although [ProcessSample] had
    succeeded. *)
Theorem StreamSink_restart_drops y x :
  sink_ok (sink y) -> isShutdown_ (sink y) = false -> encodingCallback_ (sink y) = Some true ->
  state_ (sink y) = State_Started -> phase y = D_Idle -> work (sink y) = [] -> sampleQueue_ (sink y) = [] ->
  exists y', system_run [Call all_ok Call_Stop; Call all_ok Call_Start; Call all_ok (Call_ProcessSample (Some x));
                         Dispatch all_ok; Dispatch all_ok; Dispatch all_ok] y = Done y' /\
    accepted y' = accepted y ++ [x] /\ delivered (sink y') = delivered (sink y) /\
    phase y' = D_Idle /\ work (sink y') = [] /\ sampleQueue_ (sink y') = [].
Proof.
  destruct y as [[id st sd g ow eq t q cb w ev d] p acc]. cbn. intros [H1 _ _ _] -> -> -> -> -> ->. cbn in H1. subst eq.
  eexists. split; [vm_compute; reflexivity|]. split; [|done].
  change (((acc ++ []) ++ []) ++ [x] = acc ++ [x]). by rewrite !app_nil_r.
Qed.

(** Once shut down a stream queues no event. *)
Lemma invoke_shutdown_events e c s hr s' : isShutdown_ s = true -> invoke e c s = Done (hr, s') -> events s' = events s.
Proof.
  intros Hsd. destruct c as [| | | |z|v|t|met|b|q]; cbn [invoke].
  - unfold Start. destruct (SUCCEEDED _); [|by intros [= _ <-]].
    destruct (QueueAsyncOperation_cases e OpStart None (set_state State_Started s)) as (? & [-> | ->]);
      by intros [= _ <-].
  - unfold Stop. destruct (SUCCEEDED _); [|by intros [= _ <-]].
    destruct (QueueAsyncOperation_cases e OpStop None (set_state State_Stopped s)) as (? & [-> | ->]);
      by intros [= _ <-].
  - unfold Shutdown. rewrite Hsd. by intros [= _ <-].
  - unfold Flush, CheckShutdown. rewrite Hsd. by intros [= _ <-].
  - unfold ProcessSample, CheckShutdown. rewrite Hsd. destruct z; by intros [= _ <-].
  - unfold PlaceMarker, CheckShutdown. rewrite Hsd. by intros [= _ <-].
  - unfold SetCurrentMediaType, CheckShutdown. rewrite Hsd. destruct t; [|by intros [= _ <-]].
    cbn. destruct (_ <=? _); cbn; by intros [= _ <-].
  - unfold QueueEvent, CheckShutdown. rewrite Hsd. by intros [= _ <-].
  - by intros [= _ <-].
  - destruct (ask e q s); cbn [mbind exec_bind]; try done. by intros [= _ <-].
Qed.

(** After [Shutdown] no event is queued, no sample is accepted, and at
    most the sample already taken is delivered; but [Start] and [Stop], which do not
    check for it, still succeed and change the state. *)
Theorem StreamSink_after_shutdown id y a y' :
  reachable id y -> isShutdown_ (sink y) = true ->
  (system_step a y = Done y' ->
     isShutdown_ (sink y') = true /\ events (sink y') = events (sink y) /\ accepted y' = accepted y /\
     delivered (sink y') ++ in_flight (phase y') `sublist_of` delivered (sink y) ++ in_flight (phase y)) /\
  (state_ (sink y) <> State_TypeNotSet ->
     exists s, invoke all_ok Call_Start (sink y) = Done (S_OK, s) /\ state_ s = State_Started).
Proof.
  intros Hr%system_inv Hsd. split.
  2: { intros Hst. cbn [invoke]. unfold Start, ValidateOperation.
       destruct (state_ (sink y)); [done|..]; by eexists. }
  pose proof (Inv_sink y Hr) as Hs. pose proof (ok_empty _ Hs Hsd) as Hq. destruct a as [e c|e|]; cbn [system_step].
  - destruct (waits c (phase y)); [by intros [= <-]|].
    destruct (asks_unread c (sink y)) eqn:Hu; [by rewrite invoke_unread by done|].
    destruct (invoke_Done e c (sink y) Hs Hu) as (hr & s' & Hi & [E1 E2 E3 E4]). rewrite Hi.
    intros [= <-]. cbn. rewrite E2. split; [|split; [|split; [|done]]].
    + destruct E4 as [[_ ->]|[[b ->]|(_ & _ & ->)]]; [done| |done]. by injection Hi as _ <-.
    + by eapply invoke_shutdown_events.
    + destruct c as [| | | |z| | | | | ]; try (cbn; by rewrite app_nil_r).
      destruct z; unfold accepts, CheckShutdown; rewrite ?Hsd; cbn; by rewrite ?app_nil_r.
  - destruct (phase y) as [|x|x] eqn:Hp; [|by intros [= <-]; rewrite Hp..].
    destruct (work (sink y)) as [|op w]; [by intros [= <-]; rewrite Hp|].
    intros ([[hr z] s'] & Hd & [= <-])%exec_bind_Done. cbn.
    destruct (OnDispatchWorkItem_locked_Done e op _ (sink_ok_set_work w _ Hs)) as (hr2 & z2 & s2 & Hd2 & [D1 D2 D3 D4 D5 D6]).
    rewrite Hd in Hd2. injection Hd2 as <- <- <-. rewrite D2, D4. cbn. split; [done|].
    split; [|split; [done|]].
    + revert Hd. unfold OnDispatchWorkItem_locked, QueueEvent, CheckShutdown. cbn. rewrite Hsd.
      destruct (SUCCEEDED (r_state e)); [destruct (m_op op)|]; cbn; by intros [= _ _ <-].
    + cbn in D6. rewrite Hq in D6. destruct D6 as [[D6 _]|(_ & -> & _)]; [|done]. by destruct z.
  - destruct (phase y) as [|x|x] eqn:Hp; [by intros [= <-]; rewrite Hp|..].
    + intros ([] & _ & [= <-])%exec_bind_Done; cbn; [done|]. split; [done|]. do 2 (split; [done|]).
      rewrite app_nil_r. by apply sublist_inserts_r.
    + unfold callback_OnH264Encoded. intros (s & Hd & [= <-])%exec_bind_Done.
      apply exec_bind_Done in Hd as ([] & _ & [= <-]); cbn. by rewrite app_nil_r.
Qed.

End System.
End StreamSink.

(** ** The media sink *)

Module MediaSink.
Import StreamSink.
Section Model.
Context {mf : MediaFoundation}.

(** The sink, and all the streams there ever were: other owners may hold a stream
    that the sink has dropped.  A clock is a number. *)
Record H264MediaSink := mkMediaSink {
  isShutdown_ : bool;
  spClock_ : option Z;
  outputStream_ : option nat;     (* its place among the streams *)
  streams : list H264StreamSink
}.

Definition H264MediaSink_new : H264MediaSink := mkMediaSink false None None [].

Definition CheckShutdown (m : H264MediaSink) : HRESULT := if isShutdown_ m then MF_E_SHUTDOWN else S_OK.

Definition set_stream (i : nat) (s : H264StreamSink) (m : H264MediaSink) : H264MediaSink :=
  mkMediaSink (isShutdown_ m) (spClock_ m) (outputStream_ m) (<[i := s]> (streams m)).
Definition reset_stream (m : H264MediaSink) : H264MediaSink :=
  mkMediaSink (isShutdown_ m) (spClock_ m) None (streams m).

(** [outputStream_->f(...)]. *)
Definition on_stream (f : H264StreamSink -> exec (HRESULT * H264StreamSink)) (m : H264MediaSink)
  : exec (HRESULT * H264MediaSink) :=
  i ← defined (outputStream_ m);
  s ← defined (streams m !! i);
  r ← f s;
  Done (r.1, set_stream i r.2 m).

Definition GetCharacteristics (nonnull : bool) (m : H264MediaSink) : HRESULT :=
  if negb nonnull then E_INVALIDARG else CheckShutdown m.

(** [MakeAndInitialize<H264StreamSink>(&outputStream_, ...)]. *)
Definition make_stream (e : env) (dwStreamSinkIdentifier : Z) (m : H264MediaSink) : HRESULT * H264MediaSink :=
  if SUCCEEDED (r_make e) then
    match RuntimeClassInitialize e dwStreamSinkIdentifier with
    | (hr, Some s) =>
        (hr, mkMediaSink (isShutdown_ m) (spClock_ m) (Some (length (streams m))) (streams m ++ [s]))
    | (hr, None) => (hr, m)
    end
  else (r_make e, m).

(** [*ppStreamSink] is not assigned. *)
Definition AddStreamSink (e : env) (dwStreamSinkIdentifier : Z) (pMediaType : option IMFMediaType)
    (m : H264MediaSink) : exec (HRESULT * H264MediaSink) :=
  let hr := CheckShutdown m in
  let hr := match outputStream_ m with Some _ => MF_E_STREAMSINK_EXISTS | None => hr end in
  let r := if_succeeded (hr, m) (make_stream e dwStreamSinkIdentifier) in
  match pMediaType with
  | None => Done r
  | Some t => ON_SUCCEEDED r (on_stream (SetCurrentMediaType e (Some t)))
  end.

(** The identifier of the current stream, as both lookups by identifier ask for it. *)
Definition same_identifier (dwStreamSinkIdentifier : Z) (m : H264MediaSink) : exec bool :=
  i ← defined (outputStream_ m);
  s ← defined (streams m !! i);
  Done match GetIdentifier true s with
       | (hr, Some currentSinkId) => SUCCEEDED hr && (currentSinkId =? dwStreamSinkIdentifier)
       | (_, None) => false
       end.

Definition RemoveStreamSink (dwStreamSinkIdentifier : Z) (m : H264MediaSink) : exec (HRESULT * H264MediaSink) :=
  let hr := CheckShutdown m in
  let hr := if SUCCEEDED hr then match outputStream_ m with None => E_INVALIDARG | Some _ => hr end else hr in
  hr ← (if SUCCEEDED hr then
          same ← same_identifier dwStreamSinkIdentifier m;
          Done (if (same : bool) then S_OK else E_INVALIDARG)
        else Done hr);
  r ← (if SUCCEEDED hr then on_stream (fun s => Done (Shutdown s)) m else Done (hr, m));
  Done (r.1, reset_stream r.2).

Definition GetStreamSinkCount (nonnull : bool) (m : H264MediaSink) : HRESULT * option Z :=
  if negb nonnull then (E_INVALIDARG, None)
  else if SUCCEEDED (CheckShutdown m)
       then (S_OK, Some match outputStream_ m with None => 0 | Some _ => 1 end)
       else (CheckShutdown m, None).

Definition GetStreamSinkByIndex (nonnull : bool) (dwIndex : Z) (m : H264MediaSink) : exec (HRESULT * option nat) :=
  if negb nonnull then Done (E_INVALIDARG, None)
  else if 1 <=? dwIndex then Done (MF_E_INVALIDINDEX, None)
  else if SUCCEEDED (CheckShutdown m) then i ← defined (outputStream_ m); Done (S_OK, Some i)
  else Done (CheckShutdown m, None).

Definition GetStreamSinkById (nonnull : bool) (dwStreamSinkIdentifier : Z) (m : H264MediaSink)
  : exec (HRESULT * option nat) :=
  if negb nonnull then Done (E_INVALIDARG, None)
  else
    let hr := CheckShutdown m in
    let hr := if SUCCEEDED hr
              then match outputStream_ m with None => MF_E_INVALIDSTREAMNUMBER | Some _ => hr end else hr in
    hr ← (if SUCCEEDED hr then
            same ← same_identifier dwStreamSinkIdentifier m;
            Done (if (same : bool) then S_OK else MF_E_INVALIDSTREAMNUMBER)
          else Done hr);
    Done (hr, if SUCCEEDED hr then outputStream_ m else None).

Definition SetPresentationClock (e : env) (pPresentationClock : option Z) (m : H264MediaSink)
  : HRESULT * H264MediaSink :=
  let hr := CheckShutdown m in
  let hr := if SUCCEEDED hr then match spClock_ m with Some _ => r_clock e | None => hr end else hr in
  let hr := if SUCCEEDED hr then match pPresentationClock with Some _ => r_clock e | None => hr end else hr in
  (hr, if SUCCEEDED hr then mkMediaSink (isShutdown_ m) pPresentationClock (outputStream_ m) (streams m) else m).

Definition GetPresentationClock (nonnull : bool) (m : H264MediaSink) : HRESULT * option Z :=
  if negb nonnull then (E_INVALIDARG, None)
  else if SUCCEEDED (CheckShutdown m) then
    match spClock_ m with None => (MF_E_NO_CLOCK, None) | Some c => (S_OK, Some c) end
  else (CheckShutdown m, None).

Definition Shutdown (m : H264MediaSink) : exec (HRESULT * H264MediaSink) :=
  match outputStream_ m with
  | Some _ =>
      if SUCCEEDED (CheckShutdown m) then
        r ← on_stream (fun s => Done (StreamSink.Shutdown s)) m;
        Done (S_OK, mkMediaSink true None None (streams r.2))
      else Done (S_OK, m)
  | None => Done (S_OK, m)
  end.

(** The clock's callbacks. *)
Definition OnClockStart (e : env) (m : H264MediaSink) : exec (HRESULT * H264MediaSink) :=
  ON_SUCCEEDED (CheckShutdown m, m) (on_stream (fun s => Done (Start e s))).
Definition OnClockStop (e : env) (m : H264MediaSink) : exec (HRESULT * H264MediaSink) :=
  ON_SUCCEEDED (CheckShutdown m, m) (on_stream (fun s => Done (Stop e s))).
Definition OnClockPause (m : H264MediaSink) : HRESULT := MF_E_INVALID_STATE_TRANSITION.
Definition OnClockRestart (m : H264MediaSink) : HRESULT := MF_E_INVALID_STATE_TRANSITION.
Definition OnClockSetRate (m : H264MediaSink) : HRESULT := S_OK.

Definition RegisterEncodingCallback (nonnull : bool) (m : H264MediaSink) : exec (HRESULT * H264MediaSink) :=
  on_stream (fun s => Done (StreamSink.RegisterEncodingCallback nonnull s)) m.

(** *** Runs *)

Inductive call :=
  | Call_AddStreamSink (id : Z) (t : option IMFMediaType)
  | Call_RemoveStreamSink (id : Z)
  | Call_SetPresentationClock (c : option Z)
  | Call_Shutdown
  | Call_OnClockStart | Call_OnClockStop
  | Call_RegisterEncodingCallback (nonnull : bool).

Definition invoke (e : env) (c : call) (m : H264MediaSink) : exec (HRESULT * H264MediaSink) :=
  match c with
  | Call_AddStreamSink id t => AddStreamSink e id t m
  | Call_RemoveStreamSink id => RemoveStreamSink id m
  | Call_SetPresentationClock c => Done (SetPresentationClock e c m)
  | Call_Shutdown => Shutdown m
  | Call_OnClockStart => OnClockStart e m
  | Call_OnClockStop => OnClockStop e m
  | Call_RegisterEncodingCallback b => RegisterEncodingCallback b m
  end.

Inductive reachable : H264MediaSink -> Prop :=
  | reachable_new : reachable H264MediaSink_new
  | reachable_next m e c hr m' : reachable m -> invoke e c m = Done (hr, m') -> reachable m'.

(** The calls that go through to the stream. *)
Definition needs_stream (c : call) (m : H264MediaSink) : bool :=
  match c with
  | Call_OnClockStart | Call_OnClockStop => negb (isShutdown_ m)
  | Call_RegisterEncodingCallback _ => true
  | _ => false
  end.

(** Every stream is in order, the current one is open, and a shut down sink has none. *)
Record Inv (m : H264MediaSink) : Prop := {
  inv_streams : Forall sink_ok (streams m);
  inv_current i : outputStream_ m = Some i ->
    exists s, streams m !! i = Some s /\ StreamSink.isShutdown_ s = false;
  inv_shutdown : isShutdown_ m = true -> outputStream_ m = None
}.

Lemma on_stream_Done f m i s hr s' : Inv m -> outputStream_ m = Some i -> streams m !! i = Some s ->
  f s = Done (hr, s') -> sink_ok s' ->
  on_stream f m = Done (hr, set_stream i s' m) /\ Forall sink_ok (streams (set_stream i s' m)) /\
  (StreamSink.isShutdown_ s' = false -> Inv (set_stream i s' m)).
Proof.
  intros HI Hi Hs Hf Ho. unfold on_stream. rewrite Hi. cbn [defined mbind exec_bind]. rewrite Hs.
  cbn [defined mbind exec_bind]. rewrite Hf. split; [done|].
  assert (Forall sink_ok (streams (set_stream i s' m))) as Ha by (apply Forall_insert; [apply HI|done]).
  split; [done|]. intros Hsd. constructor; [done| |exact (inv_shutdown m HI)].
  cbn. rewrite Hi. intros j [= <-]. exists s'. split; [|done].
  apply list_lookup_insert_eq. by apply lookup_lt_Some in Hs.
Qed.

(** A call of the stream that leaves it open. *)
Lemma on_stream_open f m i : Inv m -> outputStream_ m = Some i ->
  (forall s, sink_ok s -> exists hr s', f s = Done (hr, s') /\ sink_ok s' /\
     StreamSink.isShutdown_ s' = StreamSink.isShutdown_ s) ->
  exists hr m', on_stream f m = Done (hr, m') /\ Inv m'.
Proof.
  intros HI Hi Hf. destruct (inv_current m HI i Hi) as (s & Hs & Hsd).
  assert (sink_ok s) as Ho by (eapply Forall_lookup_1; [apply HI|done]).
  destruct (Hf s Ho) as (hr & s' & Hfs & Ho' & Hsd'). exists hr, (set_stream i s' m).
  destruct (on_stream_Done f m i s hr s' HI Hi Hs Hfs Ho') as (H1 & _ & H2).
  split; [done|]. apply H2. congruence.
Qed.

(** A call of the stream, as one of its own. *)
Lemma stream_call e c s : sink_ok s -> c <> StreamSink.Call_Shutdown -> asks_unread c s = false ->
  exists hr s', StreamSink.invoke e c s = Done (hr, s') /\ sink_ok s' /\
    StreamSink.isShutdown_ s' = StreamSink.isShutdown_ s.
Proof.
  intros Ho Hc Hu. destruct (invoke_Done e c s Ho Hu) as (hr & s' & Hi & [E1 _ _ E4]).
  exists hr, s'. split; [done|]. split; [done|].
  destruct E4 as [[_ ->]|[[b ->]|(-> & _)]]; [done| |done]. by injection Hi as _ <-.
Qed.

Lemma make_stream_inv e id m : Inv m -> isShutdown_ m = false -> outputStream_ m = None ->
  Inv (make_stream e id m).2 /\
  (SUCCEEDED (make_stream e id m).1 = true -> exists i, outputStream_ (make_stream e id m).2 = Some i).
Proof.
  intros HI Hsd Hn. unfold make_stream, RuntimeClassInitialize.
  destruct (SUCCEEDED (r_make e)) eqn:E1; [|split; [done|cbn; congruence]].
  destruct (SUCCEEDED (r_create e)) eqn:E2; [|split; [done|cbn; congruence]].
  destruct (SUCCEEDED (r_allocate e)) eqn:E3; [|split; [done|cbn; congruence]].
  split; [|by eexists]. constructor; cbn.
  - apply Forall_app_2; [apply HI|]. repeat constructor; done.
  - intros i [= <-]. eexists. split; [by apply list_lookup_middle|done].
  - congruence.
Qed.

Lemma reset_inv m : Forall sink_ok (streams m) -> Inv (reset_stream m).
Proof. intros H. by constructor. Qed.

Lemma shutdown_stream m i : Inv m -> outputStream_ m = Some i ->
  exists m', on_stream (fun s => Done (StreamSink.Shutdown s)) m = Done (S_OK, m') /\
    Forall sink_ok (streams m') /\ length (streams m') = length (streams m) /\
    exists s', streams m' !! i = Some s' /\ StreamSink.isShutdown_ s' = true.
Proof.
  intros HI Hi. destruct (inv_current m HI i Hi) as (s & Hs & Hsd).
  assert (sink_ok s) as Ho by (eapply Forall_lookup_1; [apply HI|done]).
  destruct (invoke_Done all_ok StreamSink.Call_Shutdown s Ho eq_refl) as (hr & s' & Hfs & [E1 _ _ _]).
  cbn [StreamSink.invoke] in Hfs.
  destruct (on_stream_Done (fun s => Done (StreamSink.Shutdown s)) m i s hr s' HI Hi Hs Hfs E1) as (H1 & H2 & _).
  unfold StreamSink.Shutdown in Hfs. rewrite Hsd in Hfs. injection Hfs as <- <-.
  eexists. split; [exact H1|]. split; [done|]. split; [cbn; apply length_insert|].
  eexists. split; [cbn; apply list_lookup_insert_eq; by apply lookup_lt_Some in Hs|reflexivity].
Qed.

Lemma same_identifier_Done id m i : Inv m -> outputStream_ m = Some i ->
  exists s, streams m !! i = Some s /\ same_identifier id m = Done (dwIdentifier_ s =? id).
Proof.
  intros HI Hi. destruct (inv_current m HI i Hi) as (s & Hs & Hsd). exists s. split; [done|].
  unfold same_identifier. rewrite Hi. cbn [defined mbind exec_bind]. rewrite Hs. cbn [defined mbind exec_bind].
  unfold GetIdentifier, StreamSink.CheckShutdown. by rewrite Hsd.
Qed.

(** The operations on a sink of the invariant: undefined exactly without the stream
    they need. *)
Lemma invoke_inv e c m : Inv m ->
  if needs_stream c m && match outputStream_ m with None => true | Some _ => false end
  then invoke e c m = Undef
  else exists hr m', invoke e c m = Done (hr, m') /\ Inv m'.
Proof.
  intros HI. destruct c as [id t|id|c| | | |b]; cbn [needs_stream andb invoke].
  - unfold AddStreamSink, CheckShutdown.
    destruct (outputStream_ m) as [i|] eqn:Hi; cbn [if_succeeded SUCCEEDED fst snd].
    { unfold if_succeeded. cbn. destruct t; by eexists _, m. }
    destruct (isShutdown_ m) eqn:Hsd; unfold if_succeeded; cbn [SUCCEEDED fst snd].
    { destruct t; by eexists _, m. }
    destruct (make_stream_inv e id m HI Hsd Hi) as [Hm Hs]. rewrite (surjective_pairing (make_stream e id m)).
    destruct t as [t|]; [|by eexists _, _]. unfold ON_SUCCEEDED. cbn [fst snd].
    destruct (SUCCEEDED (make_stream e id m).1) eqn:E1; [|by eexists _, _].
    destruct (Hs eq_refl) as [i Hi2].
    eapply on_stream_open; [exact Hm|exact Hi2|]. intros s Ho.
    by apply (stream_call e (Call_SetCurrentMediaType (Some t))).
  - unfold RemoveStreamSink, CheckShutdown. destruct (outputStream_ m) as [i|] eqn:Hi.
    2: { destruct (isShutdown_ m); cbn; eexists _, _; (split; [reflexivity|]); apply reset_inv, HI. }
    destruct (isShutdown_ m) eqn:Hsd; [by rewrite (inv_shutdown m HI Hsd) in Hi|].
    destruct (same_identifier_Done id m i HI Hi) as (s & Hs & ->). cbn [SUCCEEDED mbind exec_bind].
    destruct (dwIdentifier_ s =? id); cbn.
    + destruct (shutdown_stream m i HI Hi) as (m' & -> & Ha & _). cbn.
      eexists _, _. split; [reflexivity|]. by apply reset_inv.
    + eexists _, _. split; [reflexivity|]. apply reset_inv, HI.
  - eexists _, _. split; [unfold SetPresentationClock; reflexivity|].
    destruct (SUCCEEDED _); [|done]. destruct HI. by constructor.
  - unfold Shutdown, CheckShutdown. destruct (outputStream_ m) as [i|] eqn:Hi; [|by eexists _, _].
    destruct (isShutdown_ m) eqn:Hsd; [by rewrite (inv_shutdown m HI Hsd) in Hi|]. cbn [SUCCEEDED].
    destruct (shutdown_stream m i HI Hi) as (m' & -> & Ha & _). cbn.
    eexists _, _. split; [reflexivity|]. by constructor.
  - unfold OnClockStart, CheckShutdown, ON_SUCCEEDED. cbn [fst snd].
    destruct (isShutdown_ m) eqn:Hsd; cbn [negb andb SUCCEEDED]; [by eexists _, _|].
    destruct (outputStream_ m) as [i|] eqn:Hi; [|unfold on_stream; by rewrite Hi].
    eapply on_stream_open; [exact HI|exact Hi|]. intros s Ho. by apply (stream_call e StreamSink.Call_Start).
  - unfold OnClockStop, CheckShutdown, ON_SUCCEEDED. cbn [fst snd].
    destruct (isShutdown_ m) eqn:Hsd; cbn [negb andb SUCCEEDED]; [by eexists _, _|].
    destruct (outputStream_ m) as [i|] eqn:Hi; [|unfold on_stream; by rewrite Hi].
    eapply on_stream_open; [exact HI|exact Hi|]. intros s Ho. by apply (stream_call e StreamSink.Call_Stop).
  - unfold RegisterEncodingCallback.
    destruct (outputStream_ m) as [i|] eqn:Hi; [|unfold on_stream; by rewrite Hi].
    eapply on_stream_open; [exact HI|exact Hi|]. intros s Ho.
    by apply (stream_call e (StreamSink.Call_RegisterEncodingCallback b)).
Qed.

Lemma media_inv m : reachable m -> Inv m.
Proof.
  induction 1 as [|m e c hr m' _ IH Hi]; [by constructor|].
  pose proof (invoke_inv e c m IH) as H. destruct (_ && _); [congruence|].
  destruct H as (hr' & m2 & H & HI). rewrite H in Hi. by injection Hi as _ ->.
Qed.

(** *** Main results *)

(** The media sink dereferences a null stream exactly when its clock
    runs, or a callback is registered, while it has none: before one is added, or after
    one was removed. *)
Theorem MediaSink_undefined_iff e c m :
  reachable m ->
  invoke e c m <> Fatal /\
  (invoke e c m = Undef <-> needs_stream c m = true /\ outputStream_ m = None).
Proof.
  intros HI%media_inv. pose proof (invoke_inv e c m HI) as H.
  destruct (needs_stream c m), (outputStream_ m) as [i|]; cbn in H; try (rewrite H; by split);
    destruct H as (hr & m' & -> & _); split; try done; split; by intros; destruct_and?.
Qed.

(** Removing the stream under its identifier shuts it down.  Under
    another one the removal fails, but the sink drops its stream all the same, without
    shutting it down: from then on [Shutdown] does not reach it and does nothing at
    all. *)
Theorem MediaSink_remove id m i s :
  reachable m -> outputStream_ m = Some i -> streams m !! i = Some s ->
  exists m', RemoveStreamSink id m = Done (if dwIdentifier_ s =? id then S_OK else E_INVALIDARG, m') /\
    outputStream_ m' = None /\
    (dwIdentifier_ s = id -> exists s', streams m' !! i = Some s' /\ StreamSink.isShutdown_ s' = true) /\
    (dwIdentifier_ s <> id -> streams m' !! i = Some s /\ StreamSink.isShutdown_ s = false /\
       Shutdown m' = Done (S_OK, m') /\ isShutdown_ m' = false).
Proof.
  intros HI%media_inv Hi Hs. unfold RemoveStreamSink, CheckShutdown. rewrite Hi.
  destruct (isShutdown_ m) eqn:Hsd; [by rewrite (inv_shutdown m HI Hsd) in Hi|].
  destruct (same_identifier_Done id m i HI Hi) as (s2 & Hs2 & ->). rewrite Hs in Hs2. injection Hs2 as <-.
  cbn [SUCCEEDED mbind exec_bind]. destruct (Z.eqb_spec (dwIdentifier_ s) id) as [Heq|Hne]; cbn.
  - destruct (shutdown_stream m i HI Hi) as (m' & -> & Ha & _ & s' & Hs' & Hsd'). cbn.
    eexists. split; [reflexivity|]. split; [done|]. split; [intros _; by exists s'|done].
  - eexists. split; [reflexivity|]. split; [done|]. split; [done|]. intros _.
    destruct (inv_current m HI i Hi) as (s2 & Hs2 & Hsd2). rewrite Hs in Hs2. injection Hs2 as <-.
    split; [done|]. split; [done|]. by split.
Qed.

(** A sink takes one stream at a time, and [Shutdown] always claims
    success: with a stream it shuts both down for good, without one it has no effect
    and the sink stays open. *)
Theorem MediaSink_lifecycle m :
  reachable m ->
  (forall e id t i, outputStream_ m = Some i -> AddStreamSink e id t m = Done (MF_E_STREAMSINK_EXISTS, m)) /\
  exists m', Shutdown m = Done (S_OK, m') /\
    (outputStream_ m = None -> m' = m) /\
    (forall i, outputStream_ m = Some i -> isShutdown_ m' = true /\ outputStream_ m' = None /\
       (exists s', streams m' !! i = Some s' /\ StreamSink.isShutdown_ s' = true) /\
       (forall e id, AddStreamSink e id None m' = Done (MF_E_SHUTDOWN, m')) /\
       (forall e, OnClockStart e m' = Done (MF_E_SHUTDOWN, m'))).
Proof.
  intros HI%media_inv. split.
  - intros e id t i Hi. unfold AddStreamSink. rewrite Hi. by destruct t.
  - unfold Shutdown, CheckShutdown. destruct (outputStream_ m) as [i|] eqn:Hi; [|by exists m].
    destruct (isShutdown_ m) eqn:Hsd; [by rewrite (inv_shutdown m HI Hsd) in Hi|]. cbn [SUCCEEDED].
    destruct (shutdown_stream m i HI Hi) as (m' & -> & Ha & _ & Hs'). cbn.
    eexists. split; [reflexivity|]. split; [done|]. intros j [= <-].
    split; [done|]. split; [done|]. split; [exact Hs'|]. done.
Qed.
End Model.
End MediaSink.

(** ** Examples *)

Module Example.
Import StreamSink.

(** Types are numbers with themselves as subtype. *)
Definition foundation : MediaFoundation := {|
  GUID := nat; MFMediaType_Video := 0%nat; MFMediaType_Audio := 1%nat;
  IMFMediaType := nat; MajorGUID := fun _ => Some 0%nat; SubtypeGUID := Some; EmptyType := 0%nat;
  IMFSample := nat; PROPVARIANT := nat; VT_EMPTY := 0%nat
|}.
#[local] Existing Instance foundation.

(** A stream that was given a type and started and got a sample, dispatched up to the
    test of the callback; then it is shut down. *)
Definition to_test : list action :=
  [Call all_ok (Call_RegisterEncodingCallback true); Call all_ok (Call_SetCurrentMediaType (Some 7%nat));
   Call all_ok Call_Start; Dispatch all_ok; Call all_ok (Call_ProcessSample (Some 42%nat)); Dispatch all_ok; Continue].

Lemma reachable_run id l y y' : reachable id y -> system_run l y = Done y' -> reachable id y'.
Proof.
  revert y. induction l as [|a l IH]; intros y Hy; cbn [system_run]; [by intros [= <-]|].
  intros (y1 & Hs & Hr)%exec_bind_Done. eapply IH; [|exact Hr]. by eapply reachable_next.
Qed.

Definition tested : system :=
  Eval vm_compute in match system_run to_test (fresh 1) with Done y => y | _ => fresh 1 end.
Definition tested_shutdown : system :=
  Eval vm_compute in match system_run [Call all_ok Call_Shutdown] tested with Done y => y | _ => fresh 1 end.

Lemma tested_reachable : reachable 1 tested.
Proof. apply (reachable_run 1 to_test (fresh 1) tested (reachable_fresh 1)). vm_compute. reflexivity. Qed.
Lemma tested_shutdown_reachable : reachable 1 tested_shutdown.
Proof.
  apply (reachable_run 1 [Call all_ok Call_Shutdown] tested _ tested_reachable). vm_compute. reflexivity.
Qed.

Lemma StreamSink_undefined_iff_witness :
  reachable 1 tested_shutdown /\ system_step Continue tested_shutdown = Undef.
Proof.
  split; [exact tested_shutdown_reachable|].
  apply (proj2 (StreamSink_undefined_iff 1 tested_shutdown Continue tested_shutdown_reachable)).
  right. left. split; [reflexivity|]. exists 42%nat. repeat split.
Defined.

(** The first type could not be copied; the stream is then asked about another. *)
Definition copy_fails : env := mkEnv S_OK S_OK E_INVALIDARG S_OK S_OK S_OK S_OK S_OK.

Example subtype_never_read :
  system_run [Call copy_fails (Call_SetCurrentMediaType (Some 7%nat));
              Call all_ok (Call_Query (Query_IsMediaTypeSupported (Some 8%nat)))] (fresh 1) = Undef.
Proof. reflexivity. Qed.

Lemma StreamSink_fifo_witness :
  accepted tested = [42%nat] /\ in_flight (phase tested) = [42%nat] /\
  delivered (sink tested) ++ in_flight (phase tested) ++ sampleQueue_ (sink tested) `sublist_of` accepted tested.
Proof.
  split; [reflexivity|]. split; [reflexivity|].
  exact (StreamSink_fifo 1 tested tested_reachable).
Defined.

Definition accept_two : list action :=
  [Call all_ok (Call_SetCurrentMediaType (Some 7%nat)); Call all_ok Call_Start;
   Call all_ok (Call_ProcessSample (Some 42%nat)); Call all_ok (Call_ProcessSample (Some 43%nat))].

Lemma StreamSink_delivers_witness :
  exists y, system_run (Call all_ok (Call_RegisterEncodingCallback true) :: accept_two) (fresh 1) = Done y /\
    accepted y = [42%nat; 43%nat] /\
    exists y', system_run (drain (length (work (sink y)))) y = Done y' /\ delivered (sink y') = accepted y.
Proof.
  destruct (StreamSink_delivers 1 accept_two eq_refl) as (y & Hr & y' & Hd & _ & Hdel).
  exists y. split; [exact Hr|]. split; [|exists y'; split; [exact Hd|exact Hdel]].
  vm_compute in Hr. injection Hr as <-. reflexivity.
Defined.

Lemma StreamSink_operations_witness :
  invoke all_ok (@Call_ProcessSample foundation (Some 44%nat)) (sink (fresh 1)) = Done (MF_E_NOT_INITIALIZED, sink (fresh 1)).
Proof.
  assert (sink_ok (sink (fresh 1))) as Ho by (constructor; done).
  exact (proj1 (StreamSink_operations all_ok (sink (fresh 1)) 44%nat Call_Flush S_OK (sink (fresh 1)) Ho eq_refl eq_refl)).
Defined.

Definition started : system :=
  Eval vm_compute in match system_run [Call all_ok (Call_RegisterEncodingCallback true); Call all_ok (Call_SetCurrentMediaType (Some 7%nat));
                    Call all_ok Call_Start; Dispatch all_ok] (fresh 1) with Done y => y | _ => fresh 1 end.

Lemma StreamSink_restart_drops_witness :
  state_ (sink started) = State_Started /\
  exists y', system_run [Call all_ok Call_Stop; Call all_ok Call_Start; Call all_ok (Call_ProcessSample (Some 42%nat));
                         Dispatch all_ok; Dispatch all_ok; Dispatch all_ok] started = Done y' /\
    accepted y' = accepted started ++ [42%nat] /\ delivered (sink y') = delivered (sink started) /\
    phase y' = D_Idle /\ work (sink y') = [] /\ sampleQueue_ (sink y') = [].
Proof.
  assert (sink_ok (sink started)) as Ho by (constructor; try done; by exists 7%nat).
  split; [reflexivity|].
  exact (StreamSink_restart_drops started 42%nat Ho eq_refl eq_refl eq_refl eq_refl eq_refl eq_refl).
Defined.

Lemma StreamSink_after_shutdown_witness :
  isShutdown_ (sink tested_shutdown) = true /\
  exists s, invoke all_ok Call_Start (sink tested_shutdown) = Done (S_OK, s) /\ state_ s = State_Started.
Proof.
  split; [reflexivity|].
  exact (proj2 (StreamSink_after_shutdown 1 tested_shutdown Continue tested_shutdown tested_shutdown_reachable eq_refl)
    ltac:(discriminate)).
Defined.

(** *** A media sink with a stream *)

Definition with_stream : MediaSink.H264MediaSink :=
  Eval vm_compute in match MediaSink.AddStreamSink all_ok 1 (Some 7%nat) MediaSink.H264MediaSink_new with
  | Done (_, m) => m | _ => MediaSink.H264MediaSink_new
  end.

Lemma with_stream_reachable : MediaSink.reachable with_stream.
Proof.
  apply (MediaSink.reachable_next MediaSink.H264MediaSink_new all_ok (@MediaSink.Call_AddStreamSink foundation 1 (Some 7%nat)) S_OK);
    [constructor|reflexivity].
Qed.

Lemma MediaSink_undefined_iff_witness :
  MediaSink.invoke all_ok MediaSink.Call_OnClockStart MediaSink.H264MediaSink_new = Undef.
Proof.
  apply (proj2 (MediaSink.MediaSink_undefined_iff all_ok MediaSink.Call_OnClockStart MediaSink.H264MediaSink_new
    MediaSink.reachable_new)). split; reflexivity.
Defined.

Lemma MediaSink_remove_witness :
  exists m', MediaSink.RemoveStreamSink 2 with_stream = Done (E_INVALIDARG, m') /\ MediaSink.outputStream_ m' = None.
Proof.
  destruct (MediaSink.MediaSink_remove 2 with_stream 0%nat
    (match MediaSink.streams with_stream with s :: _ => s | [] => sink (fresh 1) end)
    with_stream_reachable eq_refl eq_refl) as (m' & Hr & Hn & _).
  exists m'. split; [exact Hr|exact Hn].
Defined.

Lemma MediaSink_lifecycle_witness :
  exists m', MediaSink.Shutdown with_stream = Done (S_OK, m') /\ MediaSink.isShutdown_ m' = true.
Proof.
  destruct (MediaSink.MediaSink_lifecycle with_stream with_stream_reachable) as (_ & m' & Hs & _ & Hi).
  exists m'. split; [exact Hs|]. exact (proj1 (Hi 0%nat eq_refl)).
Defined.
End Example.
