(* ===== verification/AttributeQueue.v ===== *)
(** * AttributeQueue: attributes of the frames in the encoder

    SampleAttributeQueue of patches_for_WebRTC_org/m84/src/modules/video_coding/codecs/
    h264/win/utils/sample_attribute_queue.h: the encoder pushes the attributes of a
    frame under its timestamp and pops them when the encoded sample arrives.  The lock
    makes each operation atomic.  The reference is a finite map from ids. *)

From S2P Require Import Prelude IntTypes.
From stdpp Require Import sorting gmap.
Open Scope Z_scope.

Section Queue.
Context {T : Type}.

(** [_attributes], front first; the ids are [uint64_t]. *)
Definition SampleAttributeQueue : Type := list (Z * T).

Definition push (id : Z) (t : T) (q : SampleAttributeQueue) : SampleAttributeQueue := q ++ [(id, t)].

(** [pop]: its result with what it stores in [outT], and the queue. *)
Fixpoint pop (id : Z) (q : SampleAttributeQueue) : option T * SampleAttributeQueue :=
  match q with
  | [] => (None, [])
  | entry :: rest =>
      if id <? entry.1 then (Some entry.2, q)
      else if entry.1 =? id then (Some entry.2, rest)
      else pop id rest
  end.

Definition clear (q : SampleAttributeQueue) : SampleAttributeQueue := [].
Definition size (q : SampleAttributeQueue) : Z := static_cast Uint32 (Z.of_nat (length q)).

(** ** The map it implements

    The ids have to be pushed in increasing order. *)

Definition increasing (q : SampleAttributeQueue) : Prop := StronglySorted (fun a b : Z * T => a.1 < b.1) q.
Definition contents (q : SampleAttributeQueue) : gmap Z T := list_to_map q.

(** The entry with the least id from [id] on. *)
Definition least_from (id : Z) (m : gmap Z T) (t : T) : Prop :=
  exists k, m !! k = Some t /\ id <= k /\ forall j, id <= j < k -> m !! j = None.

Lemma increasing_snoc id t q : increasing q -> Forall (fun e => e.1 < id) q -> increasing (push id t q).
Proof.
  unfold increasing, push. induction 1 as [|a q Hq IH Ha]; intros Hid; cbn; [by repeat constructor|].
  inversion_clear Hid. constructor; [by apply IH|]. apply Forall_app. by repeat constructor.
Qed.

Lemma increasing_NoDup q : increasing q -> NoDup q.*1.
Proof.
  induction 1 as [|a q Hq IH Ha]; cbn; constructor; [|done].
  rewrite list_elem_of_fmap. intros (b & Heq & Hb). rewrite Forall_forall in Ha. specialize (Ha b Hb). lia.
Qed.

Lemma contents_above id q : Forall (fun e => id < e.1) q -> forall k, k <= id -> contents q !! k = None.
Proof.
  intros Hq k Hk. apply not_elem_of_list_to_map_1. rewrite list_elem_of_fmap. intros (e & -> & He).
  rewrite Forall_forall in Hq. specialize (Hq e He). lia.
Qed.

Lemma contents_push id t q : Forall (fun e => e.1 < id) q -> contents (push id t q) = <[id := t]> (contents q).
Proof.
  intros Hq. unfold contents, push. rewrite list_to_map_app. cbn. rewrite <- insert_union_r; [by rewrite (right_id ∅ _)|].
  apply not_elem_of_list_to_map_1. rewrite list_elem_of_fmap. intros (e & -> & He).
  rewrite Forall_forall in Hq. specialize (Hq e He). lia.
Qed.

(** [pop] on an increasing queue: the entries after [id] remain, and if there are
    entries from [id] on it returns the first of them. *)
Lemma pop_spec id q : increasing q ->
  increasing (pop id q).2 /\
  contents (pop id q).2 = filter (fun kv => id < kv.1) (contents q) /\
  match (pop id q).1 with
  | Some t => least_from id (contents q) t
  | None => forall k, id <= k -> contents q !! k = None
  end.
Proof.
  induction 1 as [|[k t] q Hq IH Hk]; cbn [pop fst snd].
  - split; [constructor|]. split; [|done]. symmetry. apply map_filter_empty.
  - assert (Forall (fun e => k < e.1) q) as Hk' by done. pose proof (contents_above k q Hk') as Hnone.
    assert (filter (fun kv : Z * T => id < kv.1) (contents q) = contents q \/ k < id) as Hfilter.
    { destruct (Z.le_gt_cases id k) as [Hle|]; [left|by right]. apply map_filter_id. intros j u Hj. cbn.
      destruct (Z.le_gt_cases j k) as [Hjk|]; [|lia]. by rewrite (Hnone j Hjk) in Hj. }
    change (contents ((k, t) :: q)) with (<[k := t]> (contents q)).
    destruct (Z.ltb_spec id k) as [Hlt|Hge]; [|destruct (Z.eqb_spec k id) as [-> |Hne]].
    + cbn [fst snd]. split; [by constructor|]. split.
      * change (contents ((k, t) :: q)) with (<[k := t]> (contents q)).
        rewrite map_filter_insert_True by done. destruct Hfilter as [-> |]; [done|lia].
      * exists k. rewrite lookup_insert_eq. split; [done|]. split; [lia|]. intros j Hj.
        rewrite lookup_insert_ne by lia. apply Hnone. lia.
    + cbn [fst snd]. split; [done|]. split.
      * rewrite map_filter_insert_False by (cbn; lia). rewrite delete_id by (apply Hnone; lia).
        destruct Hfilter as [-> |]; [done|lia].
      * exists id. rewrite lookup_insert_eq. split; [done|]. split; [lia|]. intros j Hj. lia.
    + destruct IH as (Hi & Hc & Hr). split; [done|]. split.
      * rewrite map_filter_insert_False by (cbn; lia). rewrite delete_id by (apply Hnone; lia). done.
      * destruct (pop id q).1 as [u|].
        -- destruct Hr as (j & Hj & Hidj & Hmin). exists j. rewrite lookup_insert_ne by lia.
           split; [done|]. split; [done|]. intros i Hi'. rewrite lookup_insert_ne by lia. by apply Hmin.
        -- intros j Hj. rewrite lookup_insert_ne by lia. by apply Hr.
Qed.

(** ** Main results *)

(** C31: An increasing queue is a finite map from ids: [push] of a greater id inserts, [pop]
    removes the ids up to its own and returns the entry with the least id from its own
    on, [clear] empties it and [size] counts it. *)
Theorem AttributeQueue_refines id t q : increasing q ->
  (Forall (fun e => e.1 < id) q -> increasing (push id t q) /\ contents (push id t q) = <[id := t]> (contents q)) /\
  (increasing (pop id q).2 /\
   contents (pop id q).2 = filter (fun kv => id < kv.1) (contents q) /\
   match (pop id q).1 with
   | Some t => least_from id (contents q) t
   | None => forall k, id <= k -> contents q !! k = None
   end) /\
  contents (clear q) = empty /\
  (Z.of_nat (length q) < 2 ^ 32 -> size q = Z.of_nat (base.size (contents q))).
Proof.
  intros Hq. split; [intros Hid; split; [by apply increasing_snoc|by apply contents_push]|].
  split; [by apply pop_spec|]. split; [done|]. intros Hl. unfold size, contents.
  rewrite static_cast_id by (limits; lia). by rewrite map_size_list_to_map by by apply increasing_NoDup.
Qed.

(** *** A run of pushes and pops *)

Inductive event := Push (id : Z) (t : T) | Pop (id : Z).

(** What the pops return. *)
Fixpoint answers (q : SampleAttributeQueue) (es : list event) : list (option T) :=
  match es with
  | [] => []
  | Push id t :: es => answers (push id t q) es
  | Pop id :: es => (pop id q).1 :: answers (pop id q).2 es
  end.

(** Pushes and pops both increase, and only ids that were pushed are popped; [hist] are
    the pushes and [lo] the pops so far. *)
Fixpoint disciplined (hist : list (Z * T)) (lo : option Z) (es : list event) : Prop :=
  match es with
  | [] => True
  | Push id t :: es => Forall (fun e => e.1 < id) hist /\ disciplined (hist ++ [(id, t)]) lo es
  | Pop id :: es =>
      (match lo with None => True | Some lo => lo < id end) /\ id ∈ hist.*1 /\ disciplined hist (Some id) es
  end.

(** The attributes that were pushed with the popped ids. *)
Fixpoint expected (hist : list (Z * T)) (es : list event) : list (option T) :=
  match es with
  | [] => []
  | Push id t :: es => expected (hist ++ [(id, t)]) es
  | Pop id :: es => contents hist !! id :: expected hist es
  end.

(** The queue is what was pushed after the last id popped. *)
Definition after (lo : option Z) (hist : list (Z * T)) : list (Z * T) :=
  match lo with None => hist | Some lo => filter (fun e => lo < e.1) hist end.

Lemma filter_above lo k hist : lo <= k -> Forall (fun e => k < e.1) hist ->
  filter (fun e : Z * T => lo < e.1) hist = hist.
Proof.
  intros Hlo. induction 1 as [|e hist He Hhist IH]; [done|]. rewrite list.filter_cons_True by (cbn; lia). by rewrite IH.
Qed.

Lemma after_push lo id t hist :
  (match lo with None => True | Some lo => lo < id end) -> after lo (hist ++ [(id, t)]) = push id t (after lo hist).
Proof.
  destruct lo as [lo|]; [|done]. intros Hlt. unfold push. cbn. rewrite list.filter_app.
  by rewrite (list.filter_cons_True _ (id, t)).
Qed.

Lemma pop_after lo id hist : increasing hist ->
  (match lo with None => True | Some lo => lo < id end) -> id ∈ hist.*1 ->
  (pop id (after lo hist)).1 = contents hist !! id /\ (pop id (after lo hist)).2 = after (Some id) hist.
Proof.
  intros Hh Hlo Hid. induction Hh as [|[k t] hist Hh IH Hk]; [by apply not_elem_of_nil in Hid|].
  assert (Forall (fun e => k < e.1) hist) as Hk' by done.
  change (contents ((k, t) :: hist)) with (<[k := t]> (contents hist)).
  cbn [fmap list_fmap fst] in Hid. rewrite elem_of_cons in Hid.
  destruct (Z.eq_dec k id) as [-> |Hne].
  - rewrite lookup_insert_eq.
    assert (after lo ((id, t) :: hist) = (id, t) :: after lo hist) as ->.
    { destruct lo as [lo|]; [|done]. cbn [after]. by rewrite (list.filter_cons_True _ (id, t)). }
    cbn [pop fst snd]. rewrite Z.ltb_irrefl, Z.eqb_refl. cbn [fst snd]. split; [done|]. cbn [after].
    rewrite (list.filter_cons_False _ (id, t)) by (cbn; lia).
    rewrite (filter_above id id) by done. destruct lo as [lo|]; [|done]. by apply (filter_above lo id); [lia|].
  - destruct Hid as [Hid|Hid]; [done|]. rewrite lookup_insert_ne by done.
    assert (k < id) as Hlt.
    { apply list_elem_of_fmap in Hid as (e & -> & He). rewrite Forall_forall in Hk'. by apply Hk'. }
    destruct (IH Hid) as [IH1 IH2].
    assert (after (Some id) ((k, t) :: hist) = after (Some id) hist) as ->
      by (cbn [after]; by rewrite (list.filter_cons_False _ (k, t)) by (cbn; lia)).
    destruct lo as [lo|].
    + cbn [after] in *. destruct (decide (lo < k)).
      * rewrite (list.filter_cons_True _ (k, t)) by done. cbn [pop fst snd].
        destruct (Z.ltb_spec id k); [lia|]. by destruct (Z.eqb_spec k id); [|split].
      * rewrite (list.filter_cons_False _ (k, t)) by done. by split.
    + cbn [after pop fst snd] in *. destruct (Z.ltb_spec id k); [lia|]. by destruct (Z.eqb_spec k id); [|split].
Qed.

(** When the encoder keeps the order of the frames, every sample gets the attributes of
    its own frame, also when it drops frames. *)
Theorem AttributeQueue_own_attributes es :
  disciplined [] None es -> answers [] es = expected [] es.
Proof.
  assert (forall hist lo, increasing hist -> (match lo with None => True | Some lo => lo ∈ hist.*1 end) ->
    disciplined hist lo es -> answers (after lo hist) es = expected hist es) as H;
    [|intros Hd; exact (H [] None ltac:(constructor) I Hd)].
  induction es as [|[id t|id] es IH]; intros hist lo Hh Hlo Hd; cbn [disciplined answers expected] in *; [done|..].
  - destruct Hd as [Hid Hd]. rewrite <- after_push.
    + apply IH; [by apply increasing_snoc| |done]. destruct lo as [lo|]; [|done].
      rewrite fmap_app, elem_of_app. by left.
    + destruct lo as [lo|]; [|done]. apply list_elem_of_fmap in Hlo as (e & -> & He).
      rewrite Forall_forall in Hid. by apply Hid.
  - destruct Hd as (Hid & Hin & Hd). destruct (pop_after lo id hist Hh Hid Hin) as [-> ->].
    f_equal. by apply IH.
Qed.
End Queue.

Arguments event T : clear implicits.

(** ** Examples *)

Lemma AttributeQueue_refines_witness :
  (pop 5 [(3, 30); (7, 70)]).1 = Some 70 /\ contents (pop 5 [(3, 30); (7, 70)]).2 !! 3 = None.
Proof.
  assert (increasing [(3, 30); (7, 70)]) as Hq by (repeat constructor; cbn; lia).
  destruct (AttributeQueue_refines 5 0 [(3, 30); (7, 70)] Hq) as (_ & (_ & Hc & _) & _).
  split; [reflexivity|]. rewrite Hc. apply map_lookup_filter_None_2. right. cbn. intros ? _. lia.
Defined.

(** The frame with id 2 is dropped by the encoder. *)
Lemma AttributeQueue_own_attributes_witness :
  answers [] [Push 1 10; Push 2 20; Pop 1; Push 3 30; Pop 3] = [Some 10; Some 30].
Proof.
  apply (AttributeQueue_own_attributes [Push 1 10; Push 2 20; Pop 1; Push 3 30; Pop 3]).
  repeat split; cbn [app fmap list_fmap fst]; repeat constructor; cbn; lia || set_solver.
Defined.

(** A sample that was never pushed gets the attributes of a later one, which stay. *)
Lemma unknown_id : pop 2 [(1, 10); (3, 30)] = (Some 30, [(3, 30)]).
Proof. reflexivity. Qed.
