(* ===== verification/H264Fragments.v ===== *)
(** * H264Fragments: the NAL units of an encoded sample

    The scan of H264EncoderMFImpl::OnH264Encoded
    (patches_for_WebRTC_org/m84/src/modules/video_coding/codecs/h264/win/encoder/
    h264_encoder_mf_impl.cc) for start codes in the bytes of a sample, which makes the
    fragmentation header of the encoded image and marks it as a key frame.

    A pointer into the sample is the list of the bytes from it on; reading past the end
    is undefined.  The reference is the byte stream format of H.264, Annex B. *)

From S2P Require Import Prelude IntTypes HResult.
Open Scope Z_scope.
Open Scope list_scope.

(** ** The scan *)

(** [ptr[k]]. *)
Definition byte_at (ptr : list Z) (k : nat) : exec Z := defined (ptr !! k).

(** [ptr[k] == b], and [&&] that reads its right operand only when it has to. *)
Definition is_byte (b : Z) (ptr : list Z) (k : nat) : exec bool := x ← byte_at ptr k; Done (x =? b).
Definition and_then (a b : exec bool) : exec bool := x ← a; if (x : bool) then b else Done false.
Infix "&&?" := and_then (at level 40, left associativity) : weirtc_scope.

(** [ptr[k] & 0x1f], the type of the NAL unit that starts with this byte. *)
Definition nal_unit_type (b : Z) : Z := Z.land b 31.

(** [(ptr[k] & 0x1f) != 0x09], not an access unit delimiter. *)
Definition not_delimiter (ptr : list Z) (k : nat) : exec bool :=
  x ← byte_at ptr k; Done (negb (nal_unit_type x =? 9)).

Definition prefixLength (ptr : list Z) : exec Z :=
  four ← is_byte 0 ptr 0 &&? is_byte 0 ptr 1 &&? is_byte 0 ptr 2 &&? is_byte 1 ptr 3 &&? not_delimiter ptr 4;
  if (four : bool) then Done 4 else
  three ← is_byte 0 ptr 0 &&? is_byte 0 ptr 1 &&? is_byte 1 ptr 2 &&? not_delimiter ptr 3;
  Done (if (three : bool) then 3 else 0).

(** The fragmentation header, offsets with lengths, and whether the image was marked
    as a key frame. *)
Record scan_state := mkScan { fragments : list (Z * Z); key_frame : bool }.

Section Scan.
Context (size_t : int_type).

(** [VerifyAndAllocateFragmentationHeader(fragIdx + 1)] and the assignments to the new
    fragment and to the length of the previous one; [fragIdx] is their number. *)
Definition set_last_length (len : Z) (l : list (Z * Z)) : list (Z * Z) :=
  alter (fun f => (f.1, static_cast size_t (len - f.1))) (pred (length l)) l.
Definition add_fragment (i prefix : Z) (l : list (Z * Z)) : list (Z * Z) :=
  set_last_length i l ++ [(static_cast Uint32 (i + prefix), 0)].

(** The body of the loop: the next [i], before it is incremented, and the state. *)
Definition scan_body (sendBuffer : list Z) (i : Z) (s : scan_state) : exec (Z * scan_state) :=
  let ptr := drop (Z.to_nat i) sendBuffer in
  prefixLengthFound ← prefixLength ptr;
  if 0 <? prefixLengthFound then
    x ← byte_at ptr (Z.to_nat prefixLengthFound);
    let key := if nal_unit_type x =? 5 then true else key_frame s in
    Done (static_cast Uint32 (i + 5), mkScan (add_fragment i prefixLengthFound (fragments s)) key)
  else Done (i, s).

(** [for (uint32_t i = 0; i < sendBuffer.size() - 5; ++i)]; the fuel bounds the
    iterations, and a loop that runs out of it is no result. *)
Fixpoint scan (fuel : nat) (sendBuffer : list Z) (i : Z) (s : scan_state) : exec (option scan_state) :=
  match fuel with
  | O => Done None
  | S fuel =>
      if i <? static_cast size_t (Z.of_nat (length sendBuffer) - 5) then
        r ← scan_body sendBuffer i s;
        let '(i, s) := r in
        scan fuel sendBuffer (static_cast Uint32 (i + 1)) s
      else Done (Some s)
  end.

(** The whole scan of a sample whose clean point attribute is [clean_point]; the last
    fragment ends with the sample. *)
Definition scan_fragments (sendBuffer : list Z) (clean_point : bool) : exec (option scan_state) :=
  r ← scan (S (length sendBuffer)) sendBuffer 0 (mkScan [] clean_point);
  Done (s ← r; Some (mkScan (set_last_length (Z.of_nat (length sendBuffer)) (fragments s)) (key_frame s))).
End Scan.

(** ** The byte stream format *)

(** A NAL unit with its start code, of four bytes or of three. *)
Record nal := mkNal { long : bool; unit_bytes : list Z }.

Definition start_code (b : bool) : list Z := if b then [0; 0; 0; 1] else [0; 0; 1].
Definition byte_stream (l : list nal) : list Z := concat (map (fun n => start_code (long n) ++ unit_bytes n) l).

(** No three bytes that could begin a start code, and no zero at the end. *)
Fixpoint no_start_code (l : list Z) : Prop :=
  match l with
  | [] => True
  | x :: t => no_start_code t /\
      match t with
      | [] => x <> 0
      | [y] => True
      | y :: z :: _ => ~ (x = 0 /\ y = 0 /\ (z = 0 \/ z = 1))
      end
  end.

(** A unit the scan is made for: no access unit delimiter, and not shorter than the
    bytes skipped after its start code. *)
Definition scannable (n : nal) : Prop :=
  no_start_code (unit_bytes n) /\
  (if long n then 2 else 3) <= Z.of_nat (length (unit_bytes n)) /\
  (forall b, unit_bytes n !! 0%nat = Some b -> nal_unit_type b <> 9).

(** The bytes of a fragment. *)
Definition slice (buf : list Z) (f : Z * Z) : list Z := take (Z.to_nat f.2) (drop (Z.to_nat f.1) buf).

Definition is_idr (n : nal) : bool :=
  match unit_bytes n with b :: _ => nal_unit_type b =? 5 | [] => false end.

(** ** The scan at one position *)

Lemma no_start_code_drop k l : no_start_code l -> no_start_code (drop k l).
Proof.
  revert l. induction k as [|k IH]; intros [|x l] H; [done..|]. cbn [drop]. apply IH. by destruct H.
Qed.

Lemma is_byte_0 b x t : is_byte b (x :: t) 0 = Done (x =? b).
Proof. reflexivity. Qed.

(** Inside a unit there is no start code, whatever follows the unit. *)
Lemma prefixLength_unit x t tail :
  no_start_code (x :: t) -> (5 <= length (x :: t ++ tail))%nat -> prefixLength (x :: t ++ tail) = Done 0.
Proof.
  intros [Ht Hx] Hl. remember (t ++ tail) as r eqn:Hr.
  destruct r as [|y [|z [|u [|v r]]]]; cbn in Hl; try lia.
  unfold prefixLength, and_then, is_byte, not_delimiter, byte_at. cbn [defined mbind exec_bind lookup list_lookup].
  destruct (Z.eqb_spec x 0) as [-> |]; [|done]. destruct (Z.eqb_spec y 0) as [-> |]; [|done].
  destruct t as [|y t]; [done|]. cbn in Hr. injection Hr as <- Hr.
  destruct t as [|z' t]; [by destruct Ht|].
  cbn in Hr. injection Hr as <- Hr.
  destruct (Z.eqb_spec z 0), (Z.eqb_spec z 1); try done; exfalso; tauto.
Qed.

(** At the start code of a unit that is no delimiter. *)
Lemma prefixLength_start b x t :
  nal_unit_type x <> 9 -> prefixLength (start_code b ++ x :: t) = Done (if b then 4 else 3).
Proof.
  intros Hx%Z.eqb_neq. unfold prefixLength, and_then, is_byte, not_delimiter, byte_at.
  destruct b; cbn [app start_code defined mbind exec_bind lookup list_lookup]; cbn; by rewrite Hx.
Qed.

(** Everything the scan reads at one position is there when six bytes are left, and a
    start code that is found leaves a byte behind it. *)
Lemma prefixLength_Done ptr :
  (5 <= length ptr)%nat -> exists p, prefixLength ptr = Done p /\ (p = 0 \/ p = 3 \/ p = 4).
Proof.
  intros Hl. destruct ptr as [|a [|b [|c [|d [|e ptr]]]]]; cbn in Hl; try lia.
  unfold prefixLength, and_then, is_byte, not_delimiter, byte_at. cbn [defined mbind exec_bind lookup list_lookup].
  destruct (a =? 0), (b =? 0), (c =? 0), (c =? 1), (d =? 1), (negb (nal_unit_type e =? 9)),
    (negb (nal_unit_type d =? 9)); eexists; (split; [reflexivity|]); tauto.
Qed.

(** *** Fragments under construction *)

Section Fragments.
Context (size_t : int_type) (Hsize : size_t = Uint32 \/ size_t = Uint64).

Lemma size_t_cast z : 0 <= z < 2 ^ 32 -> static_cast size_t z = z.
Proof. intros Hz. apply static_cast_id. destruct Hsize as [-> | ->]; limits; lia. Qed.

Lemma set_last_length_snoc len l f :
  set_last_length size_t len (l ++ [f]) = l ++ [(f.1, static_cast size_t (len - f.1))].
Proof.
  unfold set_last_length. rewrite length_app, Nat.add_1_r. cbn [pred].
  by rewrite <- (Nat.add_0_r (length l)), alter_app_r.
Qed.

Lemma set_last_length_nil len : set_last_length size_t len [] = [].
Proof. reflexivity. Qed.

(** The fragments of the units that begin at [off]. *)
Fixpoint unit_fragments (off : Z) (l : list nal) : list (Z * Z) :=
  match l with
  | [] => []
  | n :: l =>
      let o := off + Z.of_nat (length (start_code (long n))) in
      let len := Z.of_nat (length (unit_bytes n)) in
      (o, len) :: unit_fragments (o + len) l
  end.

(** What the scan of these units does to the fragments. *)
Fixpoint add_units (off : Z) (l : list nal) (fs : list (Z * Z)) : list (Z * Z) :=
  match l with
  | [] => fs
  | n :: l =>
      add_units (off + Z.of_nat (length (start_code (long n))) + Z.of_nat (length (unit_bytes n))) l
        (add_fragment size_t off (if long n then 4 else 3) fs)
  end.

Lemma length_start_code b : Z.of_nat (length (start_code b)) = if b then 4 else 3.
Proof. by destruct b. Qed.

Lemma length_byte_stream_cons n l :
  length (byte_stream (n :: l)) = (length (start_code (long n)) + length (unit_bytes n) + length (byte_stream l))%nat.
Proof. unfold byte_stream. cbn. by rewrite !length_app. Qed.

Lemma add_units_spec l : forall off fs,
  0 <= off -> off + Z.of_nat (length (byte_stream l)) < 2 ^ 32 ->
  set_last_length size_t (off + Z.of_nat (length (byte_stream l))) (add_units off l fs) =
  set_last_length size_t off fs ++ unit_fragments off l.
Proof.
  induction l as [|n l IH]; intros off fs Ho Hl; cbn [add_units unit_fragments].
  - cbn. by rewrite Z.add_0_r, app_nil_r.
  - rewrite length_byte_stream_cons in *. rewrite length_start_code in *.
    rewrite !Nat2Z.inj_add, length_start_code in *.
    replace (off + ((if long n then 4 else 3) + Z.of_nat (length (unit_bytes n)) + Z.of_nat (length (byte_stream l))))
      with (off + (if long n then 4 else 3) + Z.of_nat (length (unit_bytes n)) + Z.of_nat (length (byte_stream l))) by lia.
    rewrite IH by (destruct (long n); lia). unfold add_fragment.
    rewrite set_last_length_snoc, <- app_assoc. cbn [fst snd app].
    rewrite (static_cast_id Uint32) by (limits; destruct (long n); lia).
    rewrite size_t_cast by (destruct (long n); lia). repeat f_equal. lia.
Qed.

Lemma unit_fragments_slices l : forall pre,
  map (slice (pre ++ byte_stream l)) (unit_fragments (Z.of_nat (length pre)) l) = map unit_bytes l.
Proof.
  induction l as [|n l IH]; intros pre; [done|]. cbn [unit_fragments map]. f_equal.
  - unfold slice, byte_stream. cbn [fst snd map concat].
    rewrite app_assoc, app_assoc, <- (app_assoc pre), <- Nat2Z.inj_add, !Nat2Z.id, <- length_app.
    rewrite <- !app_assoc, app_assoc, drop_app_length. by rewrite take_app_length.
  - rewrite <- (IH (pre ++ start_code (long n) ++ unit_bytes n)). unfold byte_stream. cbn [map concat].
    rewrite !length_app, !Nat2Z.inj_add, <- !app_assoc. do 2 f_equal. lia.
Qed.

(** ** The loop *)

Lemma scan_in_loop buf fuel i s :
  (5 <= length buf)%nat -> Z.of_nat (length buf) < 2 ^ 32 -> i + 5 < Z.of_nat (length buf) ->
  scan size_t (S fuel) buf i s =
  (r ← scan_body size_t buf i s; let '(i, s) := r in scan size_t fuel buf (static_cast Uint32 (i + 1)) s).
Proof.
  intros Hl Hb Hi. cbn [scan]. rewrite size_t_cast by lia. by destruct (Z.ltb_spec i (Z.of_nat (length buf) - 5)); [|lia].
Qed.

Lemma scan_at_end buf fuel i s :
  (5 <= length buf)%nat -> Z.of_nat (length buf) < 2 ^ 32 -> Z.of_nat (length buf) <= i + 5 ->
  scan size_t (S fuel) buf i s = Done (Some s).
Proof.
  intros Hl Hb Hi. cbn [scan]. rewrite size_t_cast by lia. by destruct (Z.ltb_spec i (Z.of_nat (length buf) - 5)); [lia|].
Qed.

(** From inside a unit, of which [t] is left, to the end of the stream. *)
Lemma scan_units l : Forall scannable l -> forall fuel pre t s,
  no_start_code t -> let buf := pre ++ t ++ byte_stream l in
  (5 <= length buf)%nat -> Z.of_nat (length buf) < 2 ^ 32 -> (length (t ++ byte_stream l) < fuel)%nat ->
  scan size_t fuel buf (Z.of_nat (length pre)) s =
  Done (Some (mkScan (add_units (Z.of_nat (length pre + length t)) l (fragments s))
                     (key_frame s || existsb is_idr l))).
Proof.
  intros Hl fuel. revert l Hl. induction fuel as [|fuel IH]; intros l Hl pre t s Ht buf H5 Hb Hf; [lia|].
  assert (length buf = length pre + length (t ++ byte_stream l))%nat as Hlen by apply length_app.
  destruct (Z.le_gt_cases (Z.of_nat (length buf)) (Z.of_nat (length pre) + 5)) as [He|He].
  { rewrite scan_at_end by done. destruct l as [|n l]; [cbn; rewrite orb_false_r; by destruct s|].
    inversion_clear Hl as [|? ? (_ & Hn & _) _]. exfalso.
    rewrite length_app, length_byte_stream_cons in Hlen. pose proof (length_start_code (long n)).
    destruct (long n); lia. }
  rewrite scan_in_loop by done. unfold scan_body. rewrite Nat2Z.id.
  rewrite (drop_app_length pre (t ++ byte_stream l) : drop (length pre) buf = _).
  destruct t as [|x t].
  - destruct l as [|n l]; [cbn in Hlen; lia|]. inversion_clear Hl as [|? ? Hn Hl']. destruct Hn as (Hu & Hn & Haud).
    destruct (unit_bytes n) as [|b u] eqn:Hub; [destruct (long n); cbn in Hn; lia|].
    pose proof (prefixLength_start (long n) b (u ++ byte_stream l) (Haud b eq_refl)) as Hp.
    assert (byte_stream (n :: l) = start_code (long n) ++ b :: u ++ byte_stream l) as Hbs
      by (unfold byte_stream; cbn [map concat]; by rewrite Hub, <- app_assoc).
    cbn [app]. rewrite Hbs, Hp. cbn [mbind exec_bind].
    set (u' := drop (if long n then 2 else 3) (b :: u)).
    set (pre' := pre ++ start_code (long n) ++ take (if long n then 2 else 3) (b :: u)).
    assert (buf = pre' ++ u' ++ byte_stream l) as Hbuf.
    { unfold buf, pre', u'. cbn [app]. rewrite Hbs. rewrite <- !app_assoc. do 2 f_equal.
      by rewrite app_assoc, take_drop. }
    assert (length pre' = length pre + 6)%nat as Hpre'.
    { unfold pre'. rewrite !length_app, length_take. destruct (long n); cbn [start_code length] in *; lia. }
    assert (length u' + 6 = length (start_code (long n)) + length (b :: u))%nat as Hu'.
    { unfold u'. rewrite length_drop. destruct (long n); cbn [start_code length] in *; lia. }
    assert (length buf = length pre + (length (start_code (long n)) + length (b :: u) + length (byte_stream l)))%nat
      as Hlen2 by (rewrite Hlen; cbn [app]; by rewrite length_byte_stream_cons, Hub).
    replace (0 <? (if long n then 4 else 3)) with true by by destruct (long n).
    replace (byte_at (start_code (long n) ++ b :: u ++ byte_stream l) (Z.to_nat (if long n then 4 else 3)))
      with (Done b) by by destruct (long n).
    cbn [mbind exec_bind]. rewrite (static_cast_id Uint32 (_ + 5)), static_cast_id by (limits; lia).
    replace (Z.of_nat (length pre) + 5 + 1) with (Z.of_nat (length pre')) by lia.
    rewrite Hbuf, (IH l Hl').
    + do 3 f_equal; cbn [fragments key_frame length existsb add_units]; rewrite ?Hub.
      * rewrite length_start_code, Hpre', Nat.add_0_r. f_equal. destruct (long n); cbn [start_code length] in *; lia.
      * replace (is_idr n) with (nal_unit_type b =? 5) by (unfold is_idr; by rewrite Hub).
        destruct (nal_unit_type b =? 5), (key_frame s); done.
    + by apply no_start_code_drop.
    + rewrite <- Hbuf. done.
    + rewrite <- Hbuf. done.
    + rewrite length_app. cbn [app] in Hf. rewrite length_byte_stream_cons, Hub in Hf. lia.
  - cbn [app]. rewrite prefixLength_unit; [|done|].
    2: { cbn [app] in Hlen. lia. }
    cbn [mbind exec_bind Z.ltb Z.compare]. rewrite static_cast_id by (limits; lia).
    replace (Z.of_nat (length pre) + 1) with (Z.of_nat (length (pre ++ [x]))) by (rewrite length_app; cbn; lia).
    replace buf with ((pre ++ [x]) ++ t ++ byte_stream l) by (unfold buf; by rewrite <- app_assoc).
    assert (length ((pre ++ [x]) ++ t ++ byte_stream l) = length buf) as Hsame
      by (unfold buf; by rewrite <- app_assoc).
    rewrite (IH l Hl); [|by destruct Ht|lia|lia|cbn [app length] in Hf; lia].
    do 4 f_equal. rewrite !length_app. cbn. lia.
Qed.

(** *** Any sample *)

(** Fragments in order, each behind a start code of at least three bytes, up to [e]. *)
Fixpoint consecutive (lo : Z) (l : list (Z * Z)) (e : Z) : Prop :=
  match l with
  | [] => lo <= e
  | (o, n) :: l => lo + 3 <= o /\ 0 <= n /\ consecutive (o + n) l e
  end.

Lemma consecutive_app l l' : forall lo e e',
  consecutive lo l e -> consecutive e l' e' -> consecutive lo (l ++ l') e'.
Proof.
  induction l as [|[o n] l IH]; intros lo e e' H H'; cbn in *.
  - destruct l' as [|[o n] l']; cbn in *; [lia|]. destruct H' as (? & ? & ?). split; [lia|done].
  - destruct H as (? & ? & ?). split; [done|]. split; [done|]. by eapply IH.
Qed.

(** The fragments when the last one is closed at [i]. *)
Definition closed_at (i : Z) (fs : list (Z * Z)) : Prop :=
  consecutive 0 (set_last_length size_t i fs) i /\ forall f, list.last fs = Some f -> 0 <= f.1 <= i.

Lemma closed_at_snoc i l o m :
  closed_at i (l ++ [(o, m)]) <->
  0 <= o <= i /\ consecutive 0 (l ++ [(o, static_cast size_t (i - o))]) i.
Proof.
  unfold closed_at. rewrite set_last_length_snoc, last_snoc. cbn. split.
  - intros [H Hf]. split; [by apply (Hf (o, m))|done].
  - intros [Ho H]. split; [done|]. by intros f [= <-].
Qed.

Lemma consecutive_last l o n n' : forall lo,
  consecutive lo (l ++ [(o, n)]) (o + n) -> 0 <= n' -> consecutive lo (l ++ [(o, n')]) (o + n').
Proof.
  induction l as [|[o' m] l IH]; intros lo H Hn; cbn in *.
  - destruct H as (? & ? & ?). repeat split; lia.
  - destruct H as (? & ? & ?). split; [done|]. split; [done|]. by apply IH.
Qed.

(** The last fragment may be closed later. *)
Lemma closed_at_le i j fs : closed_at i fs -> i <= j -> j < 2 ^ 32 -> closed_at j fs.
Proof.
  intros H Hij Hj. destruct (decide (fs = [])) as [-> |Hne].
  { unfold closed_at in *. rewrite set_last_length_nil in *. cbn in *. destruct H. split; [lia|done]. }
  destruct (exists_last Hne) as (l & [o m] & ->). rewrite closed_at_snoc in *. destruct H as [Ho H].
  split; [lia|]. rewrite size_t_cast in * by lia. pose proof (consecutive_last l o (i - o) (j - o) 0) as Hc.
  replace (o + (i - o)) with i in Hc by lia. replace (o + (j - o)) with j in Hc by lia. apply Hc; [done|lia].
Qed.

Lemma closed_at_add i p fs :
  closed_at i fs -> p = 3 \/ p = 4 -> 0 <= i -> i + 6 < 2 ^ 32 ->
  closed_at (i + 6) (add_fragment size_t i p fs).
Proof.
  intros [H _] Hp Hi Hb. unfold add_fragment. rewrite closed_at_snoc, static_cast_id by (limits; lia).
  split; [lia|]. rewrite size_t_cast by lia. eapply consecutive_app; [exact H|]. cbn. lia.
Qed.

Lemma scan_total buf fuel : forall i s,
  (5 <= length buf)%nat -> Z.of_nat (length buf) < 2 ^ 32 - 1 -> 0 <= i <= Z.of_nat (length buf) ->
  (length buf < fuel + Z.to_nat i)%nat -> closed_at i (fragments s) ->
  exists s', scan size_t fuel buf i s = Done (Some s') /\ closed_at (Z.of_nat (length buf)) (fragments s').
Proof.
  induction fuel as [|fuel IH]; intros i s H5 Hb Hi Hf Hc; [lia|].
  destruct (Z.le_gt_cases (Z.of_nat (length buf)) (i + 5)) as [He|He].
  { rewrite scan_at_end by lia. exists s. split; [done|]. by eapply closed_at_le; [done|lia..]. }
  rewrite scan_in_loop by lia. unfold scan_body.
  destruct (prefixLength_Done (drop (Z.to_nat i) buf)) as (p & -> & Hp); [rewrite length_drop; lia|].
  cbn [mbind exec_bind]. destruct (Z.ltb_spec 0 p) as [Hp0|Hp0].
  - destruct (lookup_lt_is_Some_2 (drop (Z.to_nat i) buf) (Z.to_nat p)) as [b Hb2]; [rewrite length_drop; lia|].
    unfold byte_at. rewrite Hb2. cbn [defined mbind exec_bind].
    rewrite (static_cast_id Uint32 (i + 5)), static_cast_id by (limits; lia).
    apply IH; cbn [fragments]; try lia. replace (i + 5 + 1) with (i + 6) by lia.
    apply closed_at_add; [done|lia..].
  - cbn [mbind exec_bind]. rewrite static_cast_id by (limits; lia). apply IH; try lia.
    by eapply closed_at_le; [done|lia..].
Qed.
End Fragments.

(** ** Samples of fewer than five bytes *)

Lemma prefixLength_cases ptr :
  prefixLength ptr = Undef \/
  exists p, prefixLength ptr = Done p /\ (p = 0 \/ (3 <= p /\ p < Z.of_nat (length ptr))).
Proof.
  unfold prefixLength, and_then, is_byte, not_delimiter, byte_at.
  destruct ptr as [|a [|b [|c [|d [|e ptr]]]]]; cbn [defined mbind exec_bind lookup list_lookup];
    repeat (match goal with |- context [if ?x then _ else _] => destruct x end;
            cbn [defined mbind exec_bind lookup list_lookup]);
    first [by left | right; eexists; split; [reflexivity|cbn [length]; lia]].
Qed.

Lemma scan_body_short size_t buf i s :
  (length buf < 5)%nat -> 0 <= i ->
  scan_body size_t buf i s = Undef \/
  exists i' s', scan_body size_t buf i s = Done (i', s') /\ i < Z.of_nat (length buf) /\
    (i' = i \/ (i' = i + 5 /\ i + 3 < Z.of_nat (length buf))).
Proof.
  intros Hl Hi. unfold scan_body. remember (drop (Z.to_nat i) buf) as ptr eqn:Hptr.
  apply (f_equal length) in Hptr. rewrite length_drop in Hptr.
  destruct (decide (ptr = [])) as [-> |Hne]; [by left|].
  assert (0 < length ptr)%nat as Hpos by (destruct ptr; [done|cbn; lia]).
  destruct (prefixLength_cases ptr) as [-> |(p & -> & Hp)]; [by left|]. cbn [mbind exec_bind].
  destruct Hp as [-> |[Hp0 Hp]]; [right; exists i, s; split; [done|lia]|].
  destruct (Z.ltb_spec 0 p); [|lia]. unfold byte_at. destruct (ptr !! Z.to_nat p); [|by left].
  right. eexists _, _. cbn [defined mbind exec_bind]. split; [reflexivity|].
  rewrite static_cast_id by (limits; lia). lia.
Qed.

Lemma scan_short size_t buf fuel : size_t = Uint32 \/ size_t = Uint64 -> (0 < length buf < 5)%nat ->
  forall i s, 0 <= i <= 10 -> (0 < fuel)%nat -> (length buf < fuel + Z.to_nat i)%nat ->
  scan size_t fuel buf i s = Undef.
Proof.
  intros Hs Hl. induction fuel as [|fuel IH]; intros i s Hi Hf Hfuel; [lia|]. cbn [scan].
  assert (i < static_cast size_t (Z.of_nat (length buf) - 5)) as Hlt%Z.ltb_lt.
  { destruct (length buf) as [|[|[|[|[|n]]]]]; try lia; destruct Hs as [-> | ->];
      apply Z.le_lt_trans with (1 := proj2 Hi); reflexivity. }
  rewrite Hlt. destruct (scan_body_short size_t buf i s) as [-> |(i' & s' & -> & Hib & Hi')]; [lia..|done|].
  cbn [mbind exec_bind]. rewrite static_cast_id by (limits; lia). apply IH; lia.
Qed.

(** ** Main results *)

(** The fragments of a sample in the byte stream format are its units, byte for byte,
    and the image is a key frame when the sample is marked as one or has an IDR slice;
    for all units that are no delimiters and at least two bytes long, three after a
    start code of three bytes. *)
Theorem scan_fragments_roundtrip size_t l clean_point :
  size_t = Uint32 \/ size_t = Uint64 -> Forall scannable l -> l <> [] ->
  Z.of_nat (length (byte_stream l)) < 2 ^ 32 ->
  exists s, scan_fragments size_t (byte_stream l) clean_point = Done (Some s) /\
    map (slice (byte_stream l)) (fragments s) = map unit_bytes l /\
    key_frame s = clean_point || existsb is_idr l.
Proof.
  intros Hs Hl Hne Hb. unfold scan_fragments.
  assert (5 <= length (byte_stream l))%nat as H5.
  { destruct l as [|n l]; [done|]. inversion_clear Hl as [|? ? (_ & Hn & _) _].
    rewrite length_byte_stream_cons. pose proof (length_start_code (long n)). destruct (long n); lia. }
  pose proof (scan_units size_t Hs l Hl (S (length (byte_stream l))) [] [] (mkScan [] clean_point) I) as Hscan.
  cbn [app length Nat.add] in Hscan. change (Z.of_nat 0) with 0 in Hscan. rewrite Hscan by (done || lia).
  cbn [mbind exec_bind option_bind]. eexists. split; [reflexivity|]. split; [|done]. cbn [fragments].
  pose proof (add_units_spec size_t Hs l 0 [] ltac:(lia) ltac:(lia)) as Ha. rewrite Z.add_0_l in Ha.
  rewrite Ha, set_last_length_nil. exact (unit_fragments_slices l []).
Qed.

(** Of a sample of at least five bytes the scan reads nothing beyond the end, and finds
    fragments in order, behind start codes, of which the last one ends with the sample;
    of a shorter one it reads past the end. *)
Theorem scan_fragments_bounds size_t buf clean_point :
  size_t = Uint32 \/ size_t = Uint64 -> 0 < Z.of_nat (length buf) < 2 ^ 32 - 1 ->
  if Z.of_nat (length buf) <? 5 then scan_fragments size_t buf clean_point = Undef
  else exists s, scan_fragments size_t buf clean_point = Done (Some s) /\
    consecutive 0 (fragments s) (Z.of_nat (length buf)) /\
    forall f, list.last (fragments s) = Some f -> f.1 + f.2 = Z.of_nat (length buf).
Proof.
  intros Hs Hb. unfold scan_fragments. destruct (Z.ltb_spec (Z.of_nat (length buf)) 5) as [H|H].
  - by rewrite scan_short by (done || lia).
  - destruct (scan_total size_t Hs buf (S (length buf)) 0 (mkScan [] clean_point)) as (s & -> & Hc & Hlast); try lia.
    { split; [cbn; lia|done]. }
    cbn [mbind exec_bind option_bind]. eexists. split; [reflexivity|]. split; [exact Hc|]. cbn [fragments].
    destruct (decide (fragments s = [])) as [E|Hne]; [by rewrite E|].
    destruct (exists_last Hne) as (l & [o m] & E). rewrite E in *. rewrite last_snoc in Hlast.
    pose proof (Hlast (o, m) eq_refl) as Ho. cbn in Ho.
    rewrite set_last_length_snoc, last_snoc by done. intros f [= <-]. cbn [fst snd].
    rewrite size_t_cast by (done || lia). lia.
Qed.

(** ** Examples *)

(** Parameter sets and an IDR slice, with start codes of both lengths. *)
Definition key_sample : list nal :=
  [mkNal true [103; 66; 0; 31]; mkNal true [104; 206; 60; 128]; mkNal false [101; 136; 0; 0; 3; 1; 7]].

Lemma scan_fragments_roundtrip_witness :
  exists s, scan_fragments Uint64 (byte_stream key_sample) false = Done (Some s) /\
    map (slice (byte_stream key_sample)) (fragments s) = map unit_bytes key_sample /\ key_frame s = true.
Proof.
  apply (scan_fragments_roundtrip Uint64 key_sample false); [by right| |done|reflexivity].
  repeat constructor; cbn; try lia; intros b [= <-]; discriminate.
Defined.

Lemma scan_fragments_bounds_witness :
  scan_fragments Uint64 [0; 0; 1; 101] false = Undef.
Proof. exact (scan_fragments_bounds Uint64 [0; 0; 1; 101] false (or_intror eq_refl) ltac:(cbn; lia)). Defined.

(** A unit of one byte behind a start code at the end is left in the fragment before
    it. *)
Lemma end_of_sequence_missed :
  scan_fragments Uint64 (byte_stream [mkNal true [101; 136; 7]; mkNal true [10]]) false =
  Done (Some (mkScan [(4, 8)] true)).
Proof. vm_compute. reflexivity. Qed.
