(* ===== verification/H264Geometry.v ===== *)
(** * H264Geometry: the frame in the sample the H264 encoder is given

    H264EncoderMFImpl::FromVideoFrame of patches_for_WebRTC_org/m84/src/modules/
    video_coding/codecs/h264/win/encoder/h264_encoder_mf_impl.cc as far as it lays out
    and fills the buffer: sizes, padding or cropping to a multiple of 16 rows, and the
    planes handed to libyuv, whose functions are parameters. *)

From S2P Require Import Prelude IntTypes.
Open Scope Z_scope.

(** The frame that is encoded: an I420 buffer with the strides of its planes. *)
Record VideoFrame := mkFrame {
  fr_width : Z; fr_height : Z;
  StrideY : Z; StrideU : Z; StrideV : Z;
  fr_timestamp : Z;        (* uint32_t, 90 kHz *)
  fr_ntp_time_ms : Z; fr_render_time_ms : Z
}.

Definition kFrameHeightNoChange : Z := 0.
Definition kFrameHeightCrop : Z := 1.
Definition kFrameHeightPad : Z := 2.

(** The calls into libyuv; the pointers are offsets into the planes of the frame and
    into the buffer of the sample. *)
Inductive yuv_call :=
  | I420ToNV12 (src_y src_stride_y src_u src_stride_u src_v src_stride_v
                dst_y dst_stride_y dst_uv dst_stride_uv width height : Z)
  | CopyPlane (src_y src_stride_y dst_y dst_stride_y width height : Z).

Module Geometry.
Section Model.
(** [webrtc__H264EncoderMFImpl__frame_height_round_mode]. *)
Context (frame_height_round_mode : Z).

(** Another mode leaves the function without a return value. *)
Definition HeightToEncode (height : Z) : option Z :=
  if frame_height_round_mode =? kFrameHeightNoChange then Some height
  else if frame_height_round_mode =? kFrameHeightCrop then Some (c_and Uint32 Int32 height (c_not Int32 15))
  else if frame_height_round_mode =? kFrameHeightPad then
    h ← c_add Uint32 Int32 height 15; Some (c_and Uint32 Int32 h (c_not Int32 15))
  else None.

(** The local variables of [FromVideoFrame]. *)
Record geometry := mkGeometry {
  encoded_height : Z; dst_height_uv : Z; dst_stride_y : Z; dst_stride_uv : Z; totalSize : Z;
  padding_top_y : Z; padding_bottom_y : Z; padding_top_uv : Z; padding_bottom_uv : Z
}.

Definition frame_geometry (height_ : Z) (f : VideoFrame) : option geometry :=
  h ← HeightToEncode height_;
  let encoded_height := static_cast Int32 h in
  h1 ← c_add Uint32 Int32 height_ 1;
  h2 ← c_div Uint32 Int32 h1 2;
  let dst_height_uv := static_cast Int32 h2 in
  let dst_stride_y := StrideY f in
  let dst_stride_uv := dst_stride_y in
  luma ← c_mul Int32 Int32 dst_stride_y encoded_height;
  chroma2 ← c_mul Int32 Int32 dst_stride_uv encoded_height;
  chroma ← c_div Int32 Int32 chroma2 2;
  totalSize ← c_add Int32 Int32 luma chroma;
  added ← c_sub Int32 Int32 encoded_height (static_cast Int32 height_);
  padding_top_y ← c_div Int32 Int32 added 2;
  padding_bottom_y ← c_sub Int32 Int32 added padding_top_y;
  padding_top_uv ← c_div Int32 Int32 padding_top_y 2;
  encoded_uv ← c_div Int32 Int32 encoded_height 2;
  below_uv ← c_sub Int32 Int32 encoded_uv dst_height_uv;
  padding_bottom_uv ← c_sub Int32 Int32 below_uv padding_top_uv;
  Some (mkGeometry encoded_height dst_height_uv dst_stride_y dst_stride_uv totalSize
          padding_top_y padding_bottom_y padding_top_uv padding_bottom_uv).

(** The copy of the frame into the buffer, when the buffer is there. *)
Definition copy_frame (width_ height_ : Z) (f : VideoFrame) (g : geometry) : option (list yuv_call) :=
  let w := static_cast Int32 width_ in
  luma ← c_mul Int32 Int32 (dst_stride_y g) (encoded_height g);
  let dst_y := 0 in
  let dst_uv := dst_y + luma in
  '(dst_y, dst_uv, src_y, src_u, src_v, src_height) ←
    (if static_cast Int32 height_ <? encoded_height g then
       dy ← c_mul Int32 Int32 (dst_stride_y g) (padding_top_y g);
       duv ← c_mul Int32 Int32 (dst_stride_uv g) (padding_top_uv g);
       Some (dst_y + dy, dst_uv + duv, 0, 0, 0, static_cast Int32 height_)
     else
       top_y ← c_neg Int32 (padding_top_y g);
       top_uv ← c_neg Int32 (padding_top_uv g);
       sy ← c_mul Int32 Int32 (StrideY f) top_y;
       su ← c_mul Int32 Int32 (StrideU f) top_uv;
       sv ← c_mul Int32 Int32 (StrideV f) top_uv;
       Some (dst_y, dst_uv, sy, su, sv, encoded_height g));
  let convert := I420ToNV12 src_y (StrideY f) src_u (StrideU f) src_v (StrideV f)
                   dst_y (dst_stride_y g) dst_uv (dst_stride_uv g) w src_height in
  top ← (if 0 <? padding_top_y g then
           ny ← c_neg Int32 (padding_top_y g);
           nuv ← c_neg Int32 (padding_top_uv g);
           duv ← c_mul Int32 Int32 (dst_stride_uv g) (padding_top_uv g);
           Some [CopyPlane dst_y (dst_stride_y g) 0 (dst_stride_y g) w ny;
                 CopyPlane dst_uv (dst_stride_uv g) (dst_uv - duv) (dst_stride_uv g) w nuv]
         else Some []);
  bottom ← (if 0 <? padding_bottom_y g then
              ey ← c_mul Int32 Uint32 (dst_stride_y g) height_;
              euv ← c_mul Int32 Int32 (dst_stride_uv g) (dst_height_uv g);
              let dst_end_y := dst_y + ey in
              let dst_end_uv := dst_uv + euv in
              by_ ← c_mul Int32 Int32 (dst_stride_y g) (padding_bottom_y g);
              buv ← c_mul Int32 Int32 (dst_stride_uv g) (padding_bottom_uv g);
              ny ← c_neg Int32 (padding_bottom_y g);
              nuv ← c_neg Int32 (padding_bottom_uv g);
              Some [CopyPlane (dst_end_y - by_) (dst_stride_y g) dst_end_y (dst_stride_y g) w ny;
                    CopyPlane (dst_end_uv - buv) (dst_stride_uv g) dst_end_uv (dst_stride_uv g) w nuv]
            else Some []);
  Some (convert :: top ++ bottom).
End Model.

(** ** Bounds of the planes

    A plane of [height] rows (negative: in reverse order) of [width] bytes, [stride]
    apart, that begins at [off], lies within [size] bytes.  The chroma planes of an I420
    image have half the width and height, rounded up; the chroma plane of an NV12 image
    has two bytes per pixel of these. *)

Definition plane_within (size off stride width height : Z) : bool :=
  (height =? 0) || ((0 <=? off) && (off + stride * (Z.abs height - 1) + width <=? size)).

Definition half_up (z : Z) : Z := (z + 1) / 2.

Definition call_within (f : VideoFrame) (size : Z) (c : yuv_call) : bool :=
  match c with
  | I420ToNV12 sy ssy su ssu sv ssv dy dsy duv dsuv w h =>
      plane_within (StrideY f * fr_height f) sy ssy w h &&
      plane_within (StrideU f * half_up (fr_height f)) su ssu (half_up w) (half_up h) &&
      plane_within (StrideV f * half_up (fr_height f)) sv ssv (half_up w) (half_up h) &&
      plane_within size dy dsy w h &&
      plane_within size duv dsuv (2 * half_up w) (half_up h)
  | CopyPlane s ss d ds w h => plane_within size s ss w h && plane_within size d ds w h
  end.

(** ** Arithmetic on int *)

Definition is_int (z : Z) : Prop := - 2147483648 <= z <= 2147483647.

Lemma is_int_range z : is_int z -> InRange Int32 z.
Proof. unfold is_int. limits. lia. Qed.

Lemma int_id z : is_int z -> static_cast Int32 z = z.
Proof. intros H. by apply static_cast_id, is_int_range. Qed.
Lemma int_add x y : is_int x -> is_int y -> is_int (x + y) -> c_add Int32 Int32 x y = Some (x + y).
Proof. intros. by apply (c_binop_same Z.add); apply is_int_range. Qed.
Lemma int_sub x y : is_int x -> is_int y -> is_int (x - y) -> c_sub Int32 Int32 x y = Some (x - y).
Proof. intros. by apply (c_binop_same Z.sub); apply is_int_range. Qed.
Lemma int_mul x y : is_int x -> is_int y -> is_int (x * y) -> c_mul Int32 Int32 x y = Some (x * y).
Proof. intros. by apply (c_binop_same Z.mul); apply is_int_range. Qed.
Lemma int_half x : is_int x -> c_div Int32 Int32 x 2 = Some (Z.quot x 2).
Proof.
  intros H. unfold c_div. change (arith Int32 Int32) with Int32. cbv zeta. rewrite (int_id x H).
  change (static_cast Int32 2) with 2. change (2 =? 0) with false. cbv iota.
  apply arith_result_in_range, is_int_range. unfold is_int in *.
  pose proof (quot_abs_le x 2 ltac:(lia)). lia.
Qed.
Lemma int_neg x : is_int x -> is_int (- x) -> c_neg Int32 x = Some (- x).
Proof. intros. by apply arith_result_in_range, is_int_range. Qed.

(** With an unsigned left operand. *)
Lemma uint_add x y : 0 <= x -> 0 <= y -> x + y < 2 ^ 32 -> c_add Uint32 Int32 x y = Some (x + y).
Proof.
  intros. apply c_binop_value; change (arith Uint32 Int32) with Uint32; rewrite ?static_cast_id by (limits; lia);
    limits; lia.
Qed.
Lemma uint_mul x y : 0 <= x < 2 ^ 32 -> 0 <= y < 2 ^ 32 -> 0 <= x * y < 2 ^ 32 -> c_mul Int32 Uint32 x y = Some (x * y).
Proof.
  intros. apply c_binop_value; change (arith Int32 Uint32) with Uint32; rewrite ?static_cast_id by (limits; lia);
    limits; lia.
Qed.
Lemma uint_half x : 0 <= x < 2 ^ 32 -> c_div Uint32 Int32 x 2 = Some (x / 2).
Proof.
  intros H. unfold c_div. change (arith Uint32 Int32) with Uint32. cbv zeta.
  rewrite (static_cast_id Uint32 x) by (limits; lia). change (static_cast Uint32 2) with 2.
  change (2 =? 0) with false. cbv iota. rewrite Z.quot_div_nonneg by lia.
  apply arith_result_in_range. limits. pose proof (Z.div_mod x 2). pose proof (Z.mod_pos_bound x 2). lia.
Qed.

(** [h & ~15]. *)
Lemma round_down_16 h : 0 <= h < 2 ^ 32 -> c_and Uint32 Int32 h (c_not Int32 15) = 16 * (h / 16).
Proof.
  intros Hh. unfold c_and, c_not. cbn [arith promote].
  change (static_cast Uint32 (static_cast Int32 (Z.lnot 15))) with (Z.shiftl (Z.ones 28) 4).
  rewrite static_cast_id by (limits; lia).
  replace (16 * (h / 16)) with (Z.shiftl (Z.shiftr h 4) 4)
    by (rewrite Z.shiftl_mul_pow2, Z.shiftr_div_pow2 by lia; change (2 ^ 4) with 16; lia).
  apply Z.bits_inj'. intros i Hi. rewrite Z.land_spec.
  destruct (Z.lt_ge_cases i 4).
  - rewrite !Z.shiftl_spec_low by done. by rewrite andb_false_r.
  - rewrite !Z.shiftl_spec, Z.shiftr_spec by lia. replace (i - 4 + 4) with i by lia.
    destruct (Z.lt_ge_cases i 32).
    + rewrite Z.ones_spec_low by lia. by rewrite andb_true_r.
    + by rewrite (testbit_high 32) by lia.
Qed.

(** The height of the sample in the three modes. *)
Definition encoded (mode height : Z) : Z :=
  if mode =? kFrameHeightNoChange then height
  else if mode =? kFrameHeightCrop then 16 * (height / 16) else 16 * ((height + 15) / 16).

Lemma HeightToEncode_spec mode h :
  0 <= mode <= 2 -> 0 <= h < 2 ^ 32 - 15 -> HeightToEncode mode h = Some (encoded mode h).
Proof.
  intros Hm Hh. unfold HeightToEncode, encoded, kFrameHeightNoChange, kFrameHeightCrop, kFrameHeightPad.
  destruct (Z.eqb_spec mode 0); [done|]. destruct (Z.eqb_spec mode 1).
  - by rewrite round_down_16 by lia.
  - destruct (Z.eqb_spec mode 2); [|lia].
    rewrite uint_add by lia.
    cbn [mbind option_bind]. by rewrite round_down_16 by lia.
Qed.

(** ** The layout *)

Section Layout.
Context (mode : Z) (f : VideoFrame).

(** A frame as I420 buffers are, small enough for the arithmetic of [int]. *)
Record frame_ok : Prop := {
  ok_mode : 0 <= mode <= 2;
  ok_width : 1 <= fr_width f <= StrideY f;
  ok_height : 1 <= fr_height f;
  ok_u : half_up (fr_width f) <= StrideU f <= StrideY f;
  ok_v : half_up (fr_width f) <= StrideV f <= StrideY f;
  ok_size : StrideY f * (fr_height f + 16) < 2 ^ 29
}.

Context (Hok : frame_ok).

Notation S := (StrideY f).
Notation h := (fr_height f).
Notation e := (encoded mode h).

(** What the padding, or the negative cropping, is. *)
Definition top : Z := Z.quot (e - h) 2.
Definition top_uv : Z := Z.quot top 2.

Lemma encoded_range : 0 <= e <= h + 15 /\ h - 15 <= e.
Proof.
  destruct Hok. unfold encoded. destruct (_ =? _); [lia|].
  pose proof (Z.div_mod h 16). pose proof (Z.mod_pos_bound h 16).
  pose proof (Z.div_mod (h + 15) 16). pose proof (Z.mod_pos_bound (h + 15) 16). destruct (_ =? _); lia.
Qed.

Lemma top_bounds : -7 <= top <= 7 /\ -3 <= top_uv <= 3.
Proof.
  pose proof encoded_range. unfold top_uv, top.
  pose proof (quot_abs_le (e - h) 2 ltac:(lia)). pose proof (quot_abs_le (Z.quot (e - h) 2) 2 ltac:(lia)). lia.
Qed.

Lemma frame_geometry_spec :
  frame_geometry mode h f =
  Some (mkGeometry e (half_up h) S S (S * e + S * e / 2) top (e - h - top) top_uv (e / 2 - half_up h - top_uv)).
Proof.
  destruct Hok as [Hm Hw Hh Hu Hv Hs]. pose proof encoded_range as He. pose proof top_bounds as Ht.
  assert (0 <= S * e <= S * (h + 16)) as HSe by nia.
  assert (h + 16 <= 2 ^ 29) by nia. assert (S <= 2 ^ 29) by nia.
  unfold frame_geometry. rewrite HeightToEncode_spec by lia. cbn [mbind option_bind].
  rewrite (int_id e) by (unfold is_int; lia).
  rewrite uint_add by lia. cbn [mbind option_bind]. rewrite uint_half by lia. fold (half_up h).
  cbn [mbind option_bind]. assert (0 <= half_up h <= h) as Hhu.
  { unfold half_up. pose proof (Z.div_mod (h + 1) 2). pose proof (Z.mod_pos_bound (h + 1) 2). lia. }
  assert (0 <= e / 2 <= e) as He2 by (pose proof (Z.div_mod e 2); pose proof (Z.mod_pos_bound e 2); lia).
  assert (0 <= S * e / 2 <= S * e) as HSe2
    by (pose proof (Z.div_mod (S * e) 2); pose proof (Z.mod_pos_bound (S * e) 2); lia).
  rewrite (int_id (half_up h)), (int_id h) by (unfold is_int; lia).
  rewrite (int_mul S e) by (unfold is_int; lia). cbn [mbind option_bind].
  rewrite (int_half (S * e)), (Z.quot_div_nonneg (S * e)) by (unfold is_int; lia). cbn [mbind option_bind].
  rewrite int_add by (unfold is_int; lia). cbn [mbind option_bind].
  rewrite (int_half e), (Z.quot_div_nonneg e) by (unfold is_int; lia).
  rewrite (int_sub e h) by (unfold is_int; lia). cbn [mbind option_bind].
  rewrite int_half by (unfold is_int; lia). cbn [mbind option_bind]. fold top.
  rewrite (int_sub (e - h)) by (unfold is_int; lia). cbn [mbind option_bind].
  rewrite int_half by (unfold is_int; lia). cbn [mbind option_bind]. fold top_uv.
  rewrite (int_sub (e / 2)) by (unfold is_int; lia). cbn [mbind option_bind].
  rewrite int_sub by (unfold is_int; lia). reflexivity.
Qed.

Notation w := (fr_width f).
Notation layout := (mkGeometry e (half_up h) S S (S * e + S * e / 2) top (e - h - top) top_uv (e / 2 - half_up h - top_uv)).

(** The conversion alone, from inside the source. *)
Lemma copy_frame_crop : e <= h ->
  copy_frame w h f layout =
  Some [I420ToNV12 (S * - top) S (StrideU f * - top_uv) (StrideU f) (StrideV f * - top_uv) (StrideV f)
          0 S (S * e) S w e] /\
  top <= 0 /\ 2 * - top <= h - e /\ top_uv <= 0 /\ 2 * - top_uv <= - top.
Proof.
  destruct Hok as [Hm Hw Hh Hu Hv Hs]. pose proof encoded_range as He. pose proof top_bounds as Ht. intros Hle.
  assert (top <= 0 /\ - top <= h - e /\ top_uv <= 0 /\ 2 * - top_uv <= - top /\ 2 * - top <= h - e) as Hneg.
  { unfold top_uv, top. pose proof (Z.div_pos (h - e) 2 ltac:(lia) ltac:(lia)).
    assert (e - h = - (h - e)) as -> by lia.
    rewrite (Z.quot_opp_l (h - e)), (Z.quot_div_nonneg (h - e)), Z.quot_opp_l, Z.quot_div_nonneg by lia.
    pose proof (Z.div_mod (h - e) 2). pose proof (Z.mod_pos_bound (h - e) 2).
    pose proof (Z.div_mod ((h - e) / 2) 2). pose proof (Z.mod_pos_bound ((h - e) / 2) 2). lia. }
  split; [|lia]. assert (0 <= S * e <= S * (h + 16)) by nia. assert (h + 16 <= 2 ^ 29) by nia.
  assert (S <= 2 ^ 29) by nia. assert (0 <= half_up w) by (unfold half_up; apply Z.div_pos; lia).
  assert (0 <= S * - top <= S * (h + 16)) by nia. assert (0 <= StrideU f * - top_uv <= S * (h + 16)) by nia.
  assert (0 <= StrideV f * - top_uv <= S * (h + 16)) by nia.
  unfold copy_frame. cbn [dst_stride_y dst_stride_uv encoded_height padding_top_y padding_top_uv padding_bottom_y].
  rewrite !int_id by (unfold is_int; lia). rewrite (int_mul S e) by (unfold is_int; lia). cbn [mbind option_bind].
  destruct (Z.ltb_spec h e); [lia|]. destruct (Z.ltb_spec 0 top); [lia|].
  destruct (Z.ltb_spec 0 (e - h - top)); [lia|].
  rewrite !int_neg by (unfold is_int; lia). cbn [mbind option_bind].
  rewrite !int_mul by (unfold is_int; lia). reflexivity.
Qed.

(** The conversion into the middle, and the rows next to its borders mirrored into the
    padding above and below. *)
Lemma copy_frame_pad : h < e ->
  copy_frame w h f layout =
  Some (I420ToNV12 0 S 0 (StrideU f) 0 (StrideV f) (S * top) S (S * e + S * top_uv) S w h ::
        (if 0 <? top then
           [CopyPlane (S * top) S 0 S w (- top);
            CopyPlane (S * e + S * top_uv) S (S * e) S w (- top_uv)] else []) ++
        [CopyPlane (S * top + S * h - S * (e - h - top)) S (S * top + S * h) S w (- (e - h - top));
         CopyPlane (S * e + S * top_uv + S * half_up h - S * (e / 2 - half_up h - top_uv)) S
           (S * e + S * top_uv + S * half_up h) S w (- (e / 2 - half_up h - top_uv))]) /\
  0 <= top /\ 2 * top <= e - h <= 2 * top + 1 /\ 0 <= top_uv /\ 2 * top_uv <= top.
Proof.
  destruct Hok as [Hm Hw Hh Hu Hv Hs]. pose proof encoded_range as He. pose proof top_bounds as Ht. intros Hlt.
  assert (0 <= top /\ 2 * top <= e - h <= 2 * top + 1 /\ 0 <= top_uv /\ 2 * top_uv <= top) as Hpos.
  { unfold top_uv, top. pose proof (Z.div_pos (e - h) 2 ltac:(lia) ltac:(lia)).
    rewrite (Z.quot_div_nonneg (e - h)), Z.quot_div_nonneg by lia.
    pose proof (Z.div_mod (e - h) 2). pose proof (Z.mod_pos_bound (e - h) 2).
    pose proof (Z.div_mod ((e - h) / 2) 2). pose proof (Z.mod_pos_bound ((e - h) / 2) 2). lia. }
  split; [|lia]. assert (h + 16 <= 2 ^ 29) by nia. assert (S <= 2 ^ 29) by nia.
  assert (0 <= half_up h <= h) as Hhu.
  { unfold half_up. pose proof (Z.div_mod (h + 1) 2). pose proof (Z.mod_pos_bound (h + 1) 2). lia. }
  assert (0 <= e / 2 <= e) as He2 by (pose proof (Z.div_mod e 2); pose proof (Z.mod_pos_bound e 2); lia).
  set (k := S * (h + 16)) in *. set (b := e / 2 - half_up h - top_uv).
  assert (- 16 - h <= b <= h + 16) as Hb by (unfold b; lia).
  assert (0 <= S * e <= k /\ 0 <= S * top <= k /\ 0 <= S * top_uv <= k /\ 0 <= S * h <= k /\
          0 <= S * half_up h <= k /\ 0 <= S * (e - h - top) <= k) as HS by (unfold k; nia).
  assert (- k <= S * b <= k) by (unfold k; nia).
  unfold copy_frame. cbn [dst_stride_y dst_stride_uv encoded_height padding_top_y padding_top_uv padding_bottom_y
    padding_bottom_uv dst_height_uv].
  rewrite !int_id by (unfold is_int; lia). rewrite (int_mul S e) by (unfold is_int; lia). cbn [mbind option_bind].
  destruct (Z.ltb_spec h e); [|lia]. rewrite (int_mul S top), (int_mul S top_uv) by (unfold is_int; lia).
  cbn [mbind option_bind]. rewrite !int_neg by (unfold is_int; lia).
  destruct (Z.ltb_spec 0 (e - h - top)); [|lia]. cbn [mbind option_bind].
  rewrite (uint_mul S h) by lia.
  rewrite !(int_mul S) by (unfold is_int; lia). cbn [mbind option_bind].
  rewrite !Z.add_0_l, Z.add_simpl_r. by destruct (0 <? top).
Qed.

(** [n] rows; the last one may be shorter than the stride. *)
Lemma plane_within_rows n size off stride width height :
  Z.abs height = n -> 0 <= off -> off + stride * n - stride + width <= size ->
  plane_within size off stride width height = true.
Proof.
  intros <- Ho Hs. unfold plane_within. destruct (Z.leb_spec 0 off); [|lia].
  destruct (Z.leb_spec (off + stride * (Z.abs height - 1) + width) size); [|lia]. by rewrite orb_true_r.
Qed.

Lemma half_up_bounds z : 0 <= z -> 0 <= half_up z <= z /\ z <= 2 * half_up z <= z + 1.
Proof. intros. unfold half_up. pose proof (Z.div_mod (z + 1) 2). pose proof (Z.mod_pos_bound (z + 1) 2). lia. Qed.

(** An even height: half of it is both the number of chroma rows and what the size
    of the buffer counts. *)
Lemma even_sizes : Z.even e = true -> half_up e = e / 2 /\ S * e + S * e / 2 = S * e + S * (e / 2).
Proof.
  intros He. apply Z.even_spec in He as [k Hk]. unfold half_up. rewrite Hk.
  replace (2 * k + 1) with (1 + k * 2) by lia. replace (2 * k) with (k * 2) by lia.
  rewrite Z.div_add, Z.div_mul, Z.mul_assoc, Z.div_mul by lia. split; [reflexivity|lia].
Qed.

(** Rows [a] up to [b] of a plane with stride [st]. *)
Tactic Notation "rows" constr(st) constr(b) constr(a) := pose proof (Z.mul_nonneg_nonneg st (b - a) ltac:(lia) ltac:(lia)); lia.

Lemma crop_within : e <= h -> Z.even e = true -> 2 * half_up w <= S ->
  exists calls, copy_frame w h f layout = Some calls /\
    forallb (call_within f (S * e + S * e / 2)) calls = true.
Proof.
  intros Hle Heven Hc. destruct (copy_frame_crop Hle) as (-> & Ht & Hth & Htuv & Htt).
  destruct Hok as [Hm Hw Hh Hu Hv Hs]. pose proof encoded_range as He.
  destruct (even_sizes Heven) as [Hhe Htotal]. rewrite Htotal.
  pose proof (half_up_bounds h ltac:(lia)). pose proof (half_up_bounds e ltac:(lia)). pose proof (half_up_bounds w ltac:(lia)).
  eexists. split; [reflexivity|]. cbn [forallb call_within]. rewrite !andb_true_r, Hhe.
  destruct (Z.eq_dec e 0) as [E0|Hne]; [by rewrite E0|].
  rewrite !andb_true_iff. repeat split; eapply plane_within_rows; try (apply Z.abs_eq; lia).
  - apply Z.mul_nonneg_nonneg; lia.
  - rows (S) (h) (e - top).
  - apply Z.mul_nonneg_nonneg; lia.
  - rows (StrideU f) (half_up h) (e / 2 - top_uv).
  - apply Z.mul_nonneg_nonneg; lia.
  - rows (StrideV f) (half_up h) (e / 2 - top_uv).
  - done.
  - rows (S) (e + e / 2) (e).
  - apply Z.mul_nonneg_nonneg; lia.
  - lia.
Qed.

Lemma pad_within : h < e -> Z.even e = true -> 16 <= e -> 2 * half_up w <= S ->
  exists calls, copy_frame w h f layout = Some calls /\
    forallb (call_within f (S * e + S * e / 2)) calls = true.
Proof.
  intros Hlt Heven H16 Hc. destruct (copy_frame_pad Hlt) as (-> & Ht & Hth & Htuv & Htt).
  destruct Hok as [Hm Hw Hh Hu Hv Hs]. pose proof encoded_range as He. pose proof top_bounds as Hb.
  destruct (even_sizes Heven) as [Hhe Htotal]. rewrite Htotal.
  pose proof (half_up_bounds h ltac:(lia)). pose proof (half_up_bounds e ltac:(lia)). pose proof (half_up_bounds w ltac:(lia)).
  eexists. split; [reflexivity|]. cbn [forallb]. rewrite forallb_app, !andb_true_iff. rewrite Hhe in *.
  set (b := e / 2 - half_up h - top_uv). assert (0 <= b <= 8) as Hbb by lia.
  assert (0 <= S * top /\ 0 <= S * top_uv /\ 0 <= S * e /\ 0 <= S * h) as (HSt & HSu & HSe & HSh)
    by (repeat split; apply Z.mul_nonneg_nonneg; lia).
  split; [|split].
  - cbn [call_within]. rewrite !andb_true_iff. repeat split.
    + apply (plane_within_rows h); [apply Z.abs_eq; lia|lia|lia].
    + apply (plane_within_rows (half_up h)); [apply Z.abs_eq; lia|lia|lia].
    + apply (plane_within_rows (half_up h)); [apply Z.abs_eq; lia|lia|lia].
    + apply (plane_within_rows h); [apply Z.abs_eq; lia|lia|]. rows (S) (e + e / 2) (top + h).
    + apply (plane_within_rows (half_up h)); [apply Z.abs_eq; lia|lia|]. rows (S) (e / 2) (top_uv + half_up h).
  - destruct (Z.ltb_spec 0 top); [|done]. cbn [forallb call_within]. rewrite !andb_true_iff. repeat split.
    + apply (plane_within_rows top); [lia|lia|]. rows (S) (e + e / 2) (2 * top).
    + apply (plane_within_rows top); [lia|lia|]. rows (S) (e + e / 2) (top).
    + apply (plane_within_rows top_uv); [lia|lia|]. rows (S) (e / 2) (2 * top_uv).
    + apply (plane_within_rows top_uv); [lia|lia|]. rows (S) (e / 2) (top_uv).
  - cbn [forallb call_within]. rewrite !andb_true_iff. repeat split.
    + apply (plane_within_rows (e - h - top)); [lia| |].
      * rows (S) (top + h) (e - h - top).
      * rows (S) (e + e / 2) (top + h).
    + apply (plane_within_rows (e - h - top)); [lia|lia|]. rows (S) (e + e / 2) e.
    + apply (plane_within_rows b); [lia| |].
      * rows (S) (e + top_uv + half_up h) b.
      * rows (S) (e / 2) (top_uv + half_up h).
    + apply (plane_within_rows b); [lia| |].
      * pose proof (Z.mul_nonneg_nonneg (S) (half_up h) ltac:(lia) ltac:(lia)). lia.
      * rows (S) (e / 2) (top_uv + half_up h + b).
Qed.

(** C32: Every plane that is handed to libyuv lies within the frame or within the buffer of
    the sample, in all three modes, for frames with [frame_ok] whose luma stride holds an
    interleaved chroma row, unless the height is odd and kept.  (An odd width with a stride
    of that width overflows, see [odd_width_overflows].) *)
Theorem FromVideoFrame_within :
  mode <> kFrameHeightNoChange \/ Z.even h = true -> 2 * half_up w <= S ->
  exists g calls, frame_geometry mode h f = Some g /\ totalSize g = S * e + S * e / 2 /\
    copy_frame w h f g = Some calls /\ forallb (call_within f (totalSize g)) calls = true.
Proof.
  intros Hmode Hc. rewrite frame_geometry_spec. eexists.
  assert (Z.even e = true) as He.
  { unfold encoded in *. destruct (Z.eqb_spec mode kFrameHeightNoChange); [by destruct Hmode|].
    destruct (mode =? kFrameHeightCrop); by rewrite Z.even_mul. }
  destruct (Z.le_gt_cases e h) as [Hle|Hlt].
  - destruct (crop_within Hle He Hc) as (calls & Hcopy & Hall). by exists calls.
  - assert (16 <= e) as H16.
    { destruct Hok. unfold encoded in *. destruct (_ =? _); [lia|]. destruct (_ =? _).
      - pose proof (Z.mul_div_le h 16). lia.
      - pose proof (Z.div_le_lower_bound (h + 15) 16 1). lia. }
    destruct (pad_within Hlt He H16 Hc) as (calls & Hcopy & Hall). by exists calls.
Qed.

(** A frame of odd height that is kept: the chroma plane has a row more than the buffer
    has room for, unless the stride is twice its row. *)
Theorem FromVideoFrame_odd_height :
  mode = kFrameHeightNoChange -> Z.odd h = true ->
  exists g calls, frame_geometry mode h f = Some g /\ copy_frame w h f g = Some calls /\
    (forallb (call_within f (totalSize g)) calls = true <-> 2 * half_up w <= S / 2).
Proof.
  intros Hmode Hodd. rewrite frame_geometry_spec. eexists. eexists. split; [reflexivity|].
  assert (e = h) as He by (unfold encoded; by rewrite Hmode).
  destruct (copy_frame_crop ltac:(lia)) as (-> & Ht & Hth & Htuv & Htt). split; [reflexivity|].
  destruct Hok as [Hm Hw Hh Hu Hv Hs]. apply Z.odd_spec in Hodd as [k Hk].
  pose proof (half_up_bounds w ltac:(lia)). cbn [totalSize forallb call_within]. rewrite He.
  assert (half_up h = k + 1) as Hhu.
  { unfold half_up. rewrite Hk. replace (2 * k + 1 + 1) with ((k + 1) * 2) by lia. by rewrite Z.div_mul. }
  assert (S * h / 2 = S * k + S / 2) as Hhalf.
  { rewrite Hk. replace (S * (2 * k + 1)) with (S + S * k * 2) by lia. rewrite Z.div_add by lia. lia. }
  assert (top = 0) as Ht0 by lia. assert (top_uv = 0) as Htu0 by lia.
  rewrite Ht0, Htu0, Hhu, Hhalf. pose proof (Z.div_pos (S) 2 ltac:(lia) ltac:(lia)).
  pose proof (Z.mul_nonneg_nonneg (S) k ltac:(lia) ltac:(lia)).
  pose proof (Z.mul_nonneg_nonneg (S) (h) ltac:(lia) ltac:(lia)).
  rewrite !andb_true_iff. split.
  - intros [[_ Huv] _]. unfold plane_within in Huv. apply orb_true_iff in Huv as [?%Z.eqb_eq|Huv]; [lia|].
    boolprop. rewrite Z.abs_eq in * by lia. lia.
  - intros Hfit. split; [|done]. repeat split.
    + apply (plane_within_rows h); [lia|lia|lia].
    + apply (plane_within_rows (k + 1)); [lia|lia|lia].
    + apply (plane_within_rows (k + 1)); [lia|lia|lia].
    + apply (plane_within_rows h); [lia|lia|lia].
    + apply (plane_within_rows (k + 1)); [lia|lia|lia].
Qed.
End Layout.

(** A frame as [I420Buffer] allocates them. *)
Definition plain_frame (w h ts : Z) : VideoFrame := mkFrame w h w (half_up w) (half_up w) ts 0 0.

Lemma plain_frame_ok mode w h : 0 <= mode <= 2 -> 1 <= w <= 4096 -> 1 <= h <= 4096 -> frame_ok mode (plain_frame w h 0).
Proof.
  intros. pose proof (half_up_bounds w ltac:(lia)).
  constructor; cbn [plain_frame fr_width fr_height StrideY StrideU StrideV]; lia || nia.
Qed.

Lemma FromVideoFrame_within_witness :
  exists g calls, frame_geometry kFrameHeightPad 361 (plain_frame 640 361 0) = Some g /\ totalSize g = 353280 /\
    copy_frame 640 361 (plain_frame 640 361 0) g = Some calls /\
    forallb (call_within (plain_frame 640 361 0) (totalSize g)) calls = true.
Proof.
  apply (FromVideoFrame_within kFrameHeightPad (plain_frame 640 361 0));
    [apply plain_frame_ok; unfold kFrameHeightPad; lia|by left|vm_compute; discriminate].
Defined.

Lemma FromVideoFrame_odd_height_witness :
  exists g calls, frame_geometry kFrameHeightNoChange 361 (plain_frame 640 361 0) = Some g /\
    copy_frame 640 361 (plain_frame 640 361 0) g = Some calls /\
    forallb (call_within (plain_frame 640 361 0) (totalSize g)) calls <> true.
Proof.
  destruct (FromVideoFrame_odd_height kFrameHeightNoChange (plain_frame 640 361 0)
    (plain_frame_ok 0 640 361 ltac:(lia) ltac:(lia) ltac:(lia)) eq_refl eq_refl)
    as (g & calls & Hg & Hc & Hfit).
  exists g, calls. split; [exact Hg|]. split; [exact Hc|]. rewrite Hfit. vm_compute. congruence.
Defined.

(** The plain buffer of an odd width: its stride is the width, a byte less than a row of
    the interleaved chroma plane. *)
Example odd_width_overflows :
  match frame_geometry kFrameHeightPad 368 (plain_frame 641 368 0) with
  | Some g => option_map (forallb (call_within (plain_frame 641 368 0) (totalSize g))) (copy_frame 641 368 (plain_frame 641 368 0) g)
  | None => None
  end = Some false.
Proof. vm_compute. reflexivity. Qed.
End Geometry.
