(* ===== verification/H264Encoder.v ===== *)
(** * H264Encoder: the H264 encoder of Media Foundation

    H264EncoderMFImpl of patches_for_WebRTC_org/m84/src/modules/video_coding/codecs/h264/
    win/encoder/h264_encoder_mf_impl.{h,cc}: the sink writer and its configuration, rate
    control, timestamps and the attributes of the frames in flight.  The layout of a
    sample is in [H264Geometry], the fragments of an encoded one in [H264Fragments].
    Media Foundation is a parameter: every call is recorded, and its result and the
    time are given. *)

From S2P Require Import Prelude IntTypes HResult FloatTypes AttributeQueue H264Fragments H264Geometry.
Open Scope Z_scope.
Import Geometry.

(** [WEBRTC_VIDEO_CODEC_OK] is the value of [S_OK]. *)
Definition WEBRTC_VIDEO_CODEC_OK : HRESULT := S_OK.
Definition WEBRTC_VIDEO_CODEC_ERR_PARAMETER : HRESULT := Other (-4).
Definition WEBRTC_VIDEO_CODEC_UNINITIALIZED : HRESULT := Other (-7).

Definition kMaxH264Qp : Z := 51.
Definition kMinIntervalBetweenRateChangesMs : Z := 5000.
(** [0.1f]. *)
Definition kMinRateVariation : spec_float := S754_finite false 13421773 (-27).

(** The calls into Media Foundation, with the arguments the encoder chooses. *)
Inductive direction := mediaTypeOut | mediaTypeIn.
Inductive guid := MFMediaType_Video | MFVideoFormat_H264 | MFVideoFormat_NV12.
Inductive attribute :=
  | MF_MT_MAJOR_TYPE | MF_MT_SUBTYPE | MF_MT_AVG_BITRATE | MF_MT_FRAME_SIZE | MF_MT_FRAME_RATE
  | MF_MT_ALL_SAMPLES_INDEPENDENT.

Inductive mf_call :=
  | MFStartup | MFShutdown
  | MFCreateMediaType (d : direction)
  | SetGUID (d : direction) (key : attribute) (value : guid)
  | SetUINT32 (d : direction) (key : attribute) (value : Z)
  | SetINTERLACE_MODE_Progressive (d : direction)
  | MFSetAttributeSize (d : direction) (key : attribute) (width height : Z)
  | MFSetAttributeRatio (d : direction) (key : attribute) (numerator denominator : Z)
  | MakeAndInitialize_MediaSink
  | MFCreateAttributes_writer | Set_ENABLE_HARDWARE_TRANSFORMS | Set_DISABLE_THROTTLING | Set_LOW_LATENCY
  | MFCreateSinkWriterFromMediaSink
  | AddStream | MFCreateAttributes_encoding | SetMaxQP (qp : Z) | SetInputMediaType
  | RegisterEncodingCallback | BeginWriting
  | MediaSink_Shutdown
  | MFCreateSample | As_Attributes | MFCreateMemoryBuffer (size : Z) | Lock | Yuv (c : yuv_call)
  | SetSampleTime (hns : Z) | SetSampleDuration (hns : Z) | SetCurrentLength (size : Z) | Unlock | AddBuffer
  | SetDiscontinuity
  | As_EncoderConfig | MFCreateAttributes_key | PlaceEncodingParameters
  | SendStreamTick (hns : Z) | WriteSample | NotifyEndOfSegment.

(** The results of the calls, and the clock where it is read. *)
Record env := mkEnv {
  result : mf_call -> HRESULT;
  TimeMillis : Z;               (* in Encode and SetRates *)
  TimeMillis_InitWriter : Z;
  TimeMillis_Reconfigure : Z
}.

Inductive VideoCodecType :=
  kVideoCodecGeneric | kVideoCodecVP8 | kVideoCodecVP9 | kVideoCodecAV1 | kVideoCodecH264 | kVideoCodecMultiplex.
Inductive VideoCodecMode := kRealtimeVideo | kScreensharing.

Record VideoCodec := mkCodec {
  codecType : VideoCodecType;
  vc_width : Z; vc_height : Z;                     (* uint16_t *)
  startBitrate : Z; maxBitrate : Z; minBitrate : Z;  (* kilobits per second *)
  maxFramerate : Z; qpMax : Z;
  vc_mode : VideoCodecMode; frameDroppingOn : bool; keyFrameInterval : Z
}.

(** [RateControlParameters]: [get_sum_kbps()] of the bitrate, and a frame rate that is
    a [double]. *)
Record RateControlParameters := mkRates { sum_kbps : Z; framerate_fps : spec_float }.

Record CachedFrameAttributes := mkAttributes {
  timestamp : Z; ntpTime : Z; captureRenderTime : Z; frameWidth : Z; frameHeight : Z
}.

(** What an existing sink writer was configured with. *)
Record writer_config := mkConfig { cfg_width : Z; cfg_height : Z; cfg_bps : Z; cfg_fps : Z }.

(** An image that was handed to the callback. *)
Record EncodedImage := mkImage {
  image_bytes : list Z; image_key : bool; image_fragments : list (Z * Z); image_attributes : CachedFrameAttributes
}.

(** The members, in groups: the settings ... *)
Record settings := mkSettings {
  width_ : Z; height_ : Z; frame_rate_ : Z; target_bps_ : Z; max_qp_ : Z; max_bitrate_ : Z;
  mode_ : VideoCodecMode; frame_dropping_on_ : bool; key_frame_interval_ : Z
}.
(** ... rate control, where two members are not initialized ... *)
Record rate_control := mkRateControl {
  last_rate_change_time_rtc_ms : Z; rate_change_requested_ : bool;
  next_frame_rate_ : option Z; next_target_bps_ : option Z
}.
(** ... the frames ... *)
Record frame_state := mkFrameState {
  startTime_ : Z; lastTimestampHns_ : Z; firstFrame_ : bool; framePendingCount_ : Z; frameCount_ : Z;
  lastFrameDropped_ : bool; _sampleAttributeQueue : SampleAttributeQueue (T := CachedFrameAttributes)
}.
(** ... and the rest; the pointers are null or not.  [calls] and [images] record what
    the encoder did. *)
Record H264EncoderMFImpl := mkEncoder {
  inited_ : bool;
  sinkWriter_ : option writer_config;
  mediaSink_ : bool;
  encodedCompleteCallback_ : bool;
  config : settings;
  rates : rate_control;
  frames : frame_state;
  calls : list mf_call;
  images : list EncodedImage
}.

Section Encoder.
Context {build : Build}.
(** [webrtc__H264EncoderMFImpl__frame_height_round_mode]. *)
Context (frame_height_round_mode : Z).

Notation encoder := H264EncoderMFImpl.

(** ** Assignments *)

Definition set_inited (b : bool) (s : encoder) : encoder :=
  mkEncoder b (sinkWriter_ s) (mediaSink_ s) (encodedCompleteCallback_ s) (config s) (rates s) (frames s) (calls s) (images s).
Definition set_sinkWriter (w : option writer_config) (s : encoder) : encoder :=
  mkEncoder (inited_ s) w (mediaSink_ s) (encodedCompleteCallback_ s) (config s) (rates s) (frames s) (calls s) (images s).
Definition set_mediaSink (b : bool) (s : encoder) : encoder :=
  mkEncoder (inited_ s) (sinkWriter_ s) b (encodedCompleteCallback_ s) (config s) (rates s) (frames s) (calls s) (images s).
Definition set_callback (b : bool) (s : encoder) : encoder :=
  mkEncoder (inited_ s) (sinkWriter_ s) (mediaSink_ s) b (config s) (rates s) (frames s) (calls s) (images s).
Definition set_config (c : settings) (s : encoder) : encoder :=
  mkEncoder (inited_ s) (sinkWriter_ s) (mediaSink_ s) (encodedCompleteCallback_ s) c (rates s) (frames s) (calls s) (images s).
Definition set_rates (r : rate_control) (s : encoder) : encoder :=
  mkEncoder (inited_ s) (sinkWriter_ s) (mediaSink_ s) (encodedCompleteCallback_ s) (config s) r (frames s) (calls s) (images s).
Definition set_frames (f : frame_state) (s : encoder) : encoder :=
  mkEncoder (inited_ s) (sinkWriter_ s) (mediaSink_ s) (encodedCompleteCallback_ s) (config s) (rates s) f (calls s) (images s).
Definition log (l : list mf_call) (s : encoder) : encoder :=
  mkEncoder (inited_ s) (sinkWriter_ s) (mediaSink_ s) (encodedCompleteCallback_ s) (config s) (rates s) (frames s)
    (calls s ++ l) (images s).
Definition add_image (i : EncodedImage) (s : encoder) : encoder :=
  mkEncoder (inited_ s) (sinkWriter_ s) (mediaSink_ s) (encodedCompleteCallback_ s) (config s) (rates s) (frames s)
    (calls s) (images s ++ [i]).

Definition set_last_rate_change (t : Z) (s : encoder) : encoder :=
  set_rates (mkRateControl t (rate_change_requested_ (rates s)) (next_frame_rate_ (rates s)) (next_target_bps_ (rates s))) s.
Definition set_queue (q : SampleAttributeQueue) (s : encoder) : encoder :=
  let f := frames s in
  set_frames (mkFrameState (startTime_ f) (lastTimestampHns_ f) (firstFrame_ f) (framePendingCount_ f) (frameCount_ f)
    (lastFrameDropped_ f) q) s.
Definition set_lastTimestamp (t : Z) (s : encoder) : encoder :=
  let f := frames s in
  set_frames (mkFrameState (startTime_ f) t (firstFrame_ f) (framePendingCount_ f) (frameCount_ f)
    (lastFrameDropped_ f) (_sampleAttributeQueue f)) s.
Definition set_dropped (b : bool) (s : encoder) : encoder :=
  let f := frames s in
  set_frames (mkFrameState (startTime_ f) (lastTimestampHns_ f) (firstFrame_ f) (framePendingCount_ f) (frameCount_ f)
    b (_sampleAttributeQueue f)) s.
Definition set_pending (n : Z) (s : encoder) : encoder :=
  let f := frames s in
  set_frames (mkFrameState (startTime_ f) (lastTimestampHns_ f) (firstFrame_ f) n (frameCount_ f)
    (lastFrameDropped_ f) (_sampleAttributeQueue f)) s.
Definition set_frameCount (n : Z) (s : encoder) : encoder :=
  let f := frames s in
  set_frames (mkFrameState (startTime_ f) (lastTimestampHns_ f) (firstFrame_ f) (framePendingCount_ f) n
    (lastFrameDropped_ f) (_sampleAttributeQueue f)) s.

(** ** Life cycle *)

(** A sequence of [ON_SUCCEEDED] calls, each with what it changes: the pointer it
    writes, null when it fails. *)
Definition just : bool -> encoder -> encoder := fun _ s => s.
Definition act (e : env) (c : mf_call) (effect : bool -> encoder -> encoder) (s : encoder) : HRESULT * encoder :=
  (result e c, effect (SUCCEEDED (result e c)) (log [c] s)).
Definition run_calls (e : env) (l : list (mf_call * (bool -> encoder -> encoder))) (r : HRESULT * encoder)
  : HRESULT * encoder :=
  fold_left (fun r c => if_succeeded r (act e c.1 c.2)) l r.

(** The members without an initializer begin with any values. *)
Definition H264EncoderMFImpl_new (uninitialized : settings) : encoder :=
  mkEncoder false None false false uninitialized (mkRateControl 0 false None None)
    (mkFrameState 0 0 true 0 0 false []) [MFStartup] [].

Definition InitWriter (e : env) (s : encoder) : exec (HRESULT * encoder) :=
  let c := config s in
  encoded_height ← defined (HeightToEncode frame_height_round_mode (height_ c));
  let r := run_calls e
    ([(MFCreateMediaType mediaTypeOut, just);
      (SetGUID mediaTypeOut MF_MT_MAJOR_TYPE MFMediaType_Video, just);
      (SetGUID mediaTypeOut MF_MT_SUBTYPE MFVideoFormat_H264, just);
      (SetUINT32 mediaTypeOut MF_MT_AVG_BITRATE (target_bps_ c), just);
      (SetINTERLACE_MODE_Progressive mediaTypeOut, just);
      (MFSetAttributeSize mediaTypeOut MF_MT_FRAME_SIZE (width_ c) encoded_height, just);
      (MFSetAttributeRatio mediaTypeOut MF_MT_FRAME_RATE (frame_rate_ c) 1, just);
      (MFCreateMediaType mediaTypeIn, just);
      (SetGUID mediaTypeIn MF_MT_MAJOR_TYPE MFMediaType_Video, just);
      (SetGUID mediaTypeIn MF_MT_SUBTYPE MFVideoFormat_NV12, just);
      (SetINTERLACE_MODE_Progressive mediaTypeIn, just);
      (SetUINT32 mediaTypeIn MF_MT_ALL_SAMPLES_INDEPENDENT 1, just);
      (MFSetAttributeSize mediaTypeIn MF_MT_FRAME_SIZE (width_ c) encoded_height, just);
      (MFSetAttributeRatio mediaTypeIn MF_MT_FRAME_RATE (frame_rate_ c) 1, just);
      (MakeAndInitialize_MediaSink, set_mediaSink);
      (MFCreateAttributes_writer, just);
      (Set_ENABLE_HARDWARE_TRANSFORMS, just); (Set_DISABLE_THROTTLING, just); (Set_LOW_LATENCY, just);
      (MFCreateSinkWriterFromMediaSink, fun ok => set_sinkWriter
         (if (ok : bool) then Some (mkConfig (width_ c) encoded_height (target_bps_ c) (frame_rate_ c)) else None));
      (AddStream, just);
      (MFCreateAttributes_encoding, just)] ++
     (if max_qp_ c <? kMaxH264Qp then [(SetMaxQP (max_qp_ c), just)] else []) ++
     [(SetInputMediaType, just); (RegisterEncodingCallback, just); (BeginWriting, just)]) (S_OK, s) in
  Done (if SUCCEEDED r.1
        then (WEBRTC_VIDEO_CODEC_OK, set_last_rate_change (TimeMillis_InitWriter e) (set_inited true r.2))
        else r).

Definition ReleaseWriter (s : encoder) : encoder :=
  let tmpMediaSink := mediaSink_ s in
  let f := frames s in
  let s := set_callback false
             (set_frames (mkFrameState 0 0 true 0 (frameCount_ f) (lastFrameDropped_ f)
                            (clear (_sampleAttributeQueue f)))
               (set_inited false (set_mediaSink false (set_sinkWriter None s)))) in
  if tmpMediaSink then log [MediaSink_Shutdown] s else s.

Definition Release (s : encoder) : HRESULT * encoder :=
  (WEBRTC_VIDEO_CODEC_OK, log [MFShutdown] (ReleaseWriter s)).

Definition H264EncoderMFImpl_delete (s : encoder) : encoder := log [MFShutdown] (Release s).2.

Definition RegisterEncodeCompleteCallback (callback : bool) (s : encoder) : HRESULT * encoder :=
  (WEBRTC_VIDEO_CODEC_OK, set_callback callback s).

(** The products wrap, as [uint32_t]. *)
Definition InitEncode (e : env) (codec_settings : option VideoCodec) (s : encoder) : exec (HRESULT * encoder) :=
  match codec_settings with
  | Some v =>
      match codecType v with
      | kVideoCodecH264 =>
          if maxFramerate v =? 0 then Done (WEBRTC_VIDEO_CODEC_ERR_PARAMETER, s)
          else if (vc_width v <? 1) || (vc_height v <? 1) then Done (WEBRTC_VIDEO_CODEC_ERR_PARAMETER, s)
          else
            let target_bps :=
              if 0 <? startBitrate v then static_cast Uint32 (startBitrate v * 1000)
              else if 0 <? minBitrate v then static_cast Uint32 (minBitrate v * 1000)
              else static_cast Uint32 (static_cast Uint32 (vc_width v * vc_height v) * 2) in
            InitWriter e (set_config
              (mkSettings (vc_width v) (vc_height v) (maxFramerate v) target_bps (Z.min (qpMax v) kMaxH264Qp)
                 (static_cast Uint32 (maxBitrate v * 1000)) (vc_mode v) (frameDroppingOn v) (keyFrameInterval v)) s)
      | _ => Done (WEBRTC_VIDEO_CODEC_ERR_PARAMETER, s)
      end
  | None => Done (WEBRTC_VIDEO_CODEC_ERR_PARAMETER, s)
  end.

(** ** Rate control *)

(** [std::abs((int)old - (int)new) > old * kMinRateVariation]. *)
Definition varies (old new : Z) : exec bool :=
  d ← defined (c_sub Int32 Int32 (static_cast Int32 old) (static_cast Int32 new));
  a ← defined (if d <? 0 then c_neg Int32 d else Some d);
  Done (f_gt (of_int Float a) (f_mul Float (of_int Float old) kMinRateVariation)).

Definition ReconfigureSinkWriter (e : env) (new_width new_height new_target_bps new_frame_rate : Z) (s : encoder)
  : exec (HRESULT * encoder) :=
  let c := config s in
  let resUpdated := negb (width_ c =? new_width) || negb (height_ c =? new_height) in
  let width := if resUpdated then new_width else width_ c in
  let height := if resUpdated then new_height else height_ c in
  bitrateUpdated ← varies (target_bps_ c) new_target_bps;
  let target_bps := if (bitrateUpdated : bool) then new_target_bps else target_bps_ c in
  fpsUpdated ← varies (frame_rate_ c) new_frame_rate;
  let frame_rate := if (fpsUpdated : bool) then new_frame_rate else frame_rate_ c in
  let s := set_config (mkSettings width height frame_rate target_bps (max_qp_ c) (max_bitrate_ c) (mode_ c)
                         (frame_dropping_on_ c) (key_frame_interval_ c)) s in
  if resUpdated || bitrateUpdated || fpsUpdated then
    let tempCallback := encodedCompleteCallback_ s in
    r ← InitWriter e (set_callback tempCallback (ReleaseWriter s));
    Done (WEBRTC_VIDEO_CODEC_OK, set_last_rate_change (TimeMillis_Reconfigure e) r.2)
  else Done (WEBRTC_VIDEO_CODEC_OK, s).

Definition SetRates (e : env) (parameters : RateControlParameters) (s : encoder) : exec encoder :=
  match sinkWriter_ s with
  | None => Done s
  | Some _ =>
      if f_eq (framerate_fps parameters) (of_int Double 0) then Done s
      else
        elapsed ← defined (c_sub Int64 Int64 (TimeMillis e) (last_rate_change_time_rtc_ms (rates s)));
        time_to_wait_before_rate_change ← defined (c_sub Int32 Int64 kMinIntervalBetweenRateChangesMs elapsed);
        let bps := static_cast Uint32 (sum_kbps parameters * 1000) in
        fps ← defined (float_to_int Uint32 (framerate_fps parameters));
        if 0 <? time_to_wait_before_rate_change
        then Done (set_rates (mkRateControl (last_rate_change_time_rtc_ms (rates s)) true (Some fps) (Some bps)) s)
        else r ← ReconfigureSinkWriter e (width_ (config s)) (height_ (config s)) bps fps s; Done r.2
  end.

(** ** Frames *)

(** 90 kHz ticks since the first frame in units of 100 nanoseconds. *)
Definition GetFrameTimestampHns (f : VideoFrame) (s : encoder) : option Z :=
  d ← c_sub Uint32 Int64 (fr_timestamp f) (startTime_ (frames s));
  m ← c_mul Int64 Int32 d 10000;
  c_div Int64 Int32 m 90.

Definition frame_attributes (f : VideoFrame) (encoded_height : Z) : CachedFrameAttributes :=
  mkAttributes (fr_timestamp f) (static_cast Uint64 (fr_ntp_time_ms f)) (static_cast Uint64 (fr_render_time_ms f))
    (static_cast Uint32 (fr_width f)) (static_cast Uint32 encoded_height).

(** [firstFrame_] and [startTime_]. *)
Definition first_frame (f : VideoFrame) (s : encoder) : encoder :=
  let x := frames s in
  if firstFrame_ x
  then set_frames (mkFrameState (fr_timestamp f) (lastTimestampHns_ x) false (framePendingCount_ x) (frameCount_ x)
         (lastFrameDropped_ x) (_sampleAttributeQueue x)) s
  else s.

(** Libyuv reads and writes the planes it is given, wherever they are: a plane that
    leaves the frame or the buffer of the sample is undefined. *)
Definition convert (f : VideoFrame) (size : Z) (copies : list yuv_call) (s : encoder) : exec encoder :=
  if forallb (call_within f size) copies then Done (log (map Yuv copies) s) else Undef.

(** The sample, null or not.  Without a buffer there is no copy. *)
Definition FromVideoFrame (e : env) (f : VideoFrame) (s : encoder) : exec (bool * encoder) :=
  let r := run_calls e [(MFCreateSample, just); (As_Attributes, just)] (S_OK, s) in
  let created := SUCCEEDED (result e MFCreateSample) in
  let c := config s in
  c_assert (c_eq Int32 Uint32 (fr_width f) (width_ c)) (
  c_assert (c_eq Int32 Uint32 (fr_height f) (height_ c)) (
  g ← defined (frame_geometry frame_height_round_mode (height_ c) f);
  if SUCCEEDED r.1 then
    let r := run_calls e [(MFCreateMemoryBuffer (static_cast Uint32 (totalSize g)), just); (Lock, just)] r in
    let locked := SUCCEEDED r.1 in
    copies ← defined (copy_frame (width_ c) (height_ c) f g);
    s ← (if locked then convert f (totalSize g) copies r.2 else Done r.2);
    let s := first_frame f s in
    timestampHns ← defined (GetFrameTimestampHns f s);
    let r := run_calls e [(SetSampleTime timestampHns, just)] (r.1, s) in
    r ← ON_SUCCEEDED r (fun s =>
      durationHns ← defined (c_sub Int64 Int64 timestampHns (lastTimestampHns_ (frames s)));
      Done (act e (SetSampleDuration durationHns) just s));
    let s := if SUCCEEDED r.1
             then set_queue (push (static_cast Uint64 timestampHns) (frame_attributes f (encoded_height g))
                               (_sampleAttributeQueue (frames r.2))) (set_lastTimestamp timestampHns r.2)
             else r.2 in
    let r := run_calls e [(SetCurrentLength (static_cast Uint32 (totalSize g)), just)] (r.1, s) in
    let r := (r.1, if locked then log [Unlock] r.2 else r.2) in
    let r := run_calls e [(AddBuffer, just)] r in
    let s := if lastFrameDropped_ (frames r.2) then log [SetDiscontinuity] (set_dropped false r.2) else r.2 in
    Done (created, s)
  else Done (created, r.2))).

(** The request of a key frame: the interface pointers are used without a look at the
    results. *)
Definition request_key_frame (e : env) (s : encoder) : exec encoder :=
  _ ← defined (sinkWriter_ s);
  if SUCCEEDED (result e As_EncoderConfig) && SUCCEEDED (result e MFCreateAttributes_key)
  then Done (log [As_EncoderConfig; MFCreateAttributes_key; PlaceEncodingParameters] s)
  else Undef.

(** The reconfiguration at the start of [Encode]. *)
Definition Encode_reconfigure (e : env) (f : VideoFrame) (s : encoder) : exec encoder :=
  let c := config s in
  let r := rates s in
  let res_changed := negb (fr_width f =? static_cast Int32 (width_ c)) || negb (fr_height f =? static_cast Int32 (height_ c)) in
  elapsed ← defined (if rate_change_requested_ r
                     then c_sub Int64 Int64 (TimeMillis e) (last_rate_change_time_rtc_ms r) else Some 0);
  let should_change_rate_now := rate_change_requested_ r && (kMinIntervalBetweenRateChangesMs <? elapsed) in
  if res_changed || should_change_rate_now then
    next_target_bps ← defined (next_target_bps_ r);
    next_frame_rate ← defined (next_frame_rate_ r);
    res ← ReconfigureSinkWriter e (static_cast Uint32 (fr_width f)) (static_cast Uint32 (fr_height f))
            next_target_bps next_frame_rate s;
    let r := rates res.2 in
    Done (set_rates (mkRateControl (last_rate_change_time_rtc_ms r) false (next_frame_rate_ r) (next_target_bps_ r)) res.2)
  else Done s.

(** The frame goes into the pipeline, or a tick in its place. *)
Definition Encode_tick (e : env) (f : VideoFrame) (s : encoder) : exec encoder :=
  let s := set_dropped true s in
  timestampHns ← defined (GetFrameTimestampHns f s);
  _ ← defined (sinkWriter_ s);
  Done (set_lastTimestamp timestampHns (log [SendStreamTick timestampHns] s)).

Definition Encode_write (e : env) (s : encoder) : exec encoder :=
  _ ← defined (sinkWriter_ s);
  let r := act e WriteSample just s in
  let n := static_cast Uint32 (frameCount_ (frames s) + 1) in
  let s := set_frameCount n r.2 in
  let s := if (n mod 30 =? 0) && SUCCEEDED r.1 then log [NotifyEndOfSegment] s else s in
  pending ← defined (c_add Int32 Int32 (framePendingCount_ (frames s)) 1);
  Done (set_pending pending s).

(** After the reconfiguration; [key]: whether a key frame is among [frame_types]. *)
Definition Encode_frame (e : env) (f : VideoFrame) (key : bool) (s : encoder) : exec encoder :=
  s ← (if key then request_key_frame e s else Done s);
  r ← (if AttributeQueue.size (_sampleAttributeQueue (frames s)) <=? 2
       then FromVideoFrame e f s else Done (false, s));
  if (r.1 : bool) then Encode_write e r.2 else Encode_tick e f r.2.

Definition Encode (e : env) (f : VideoFrame) (key : bool) (s : encoder) : exec (HRESULT * encoder) :=
  if negb (inited_ s) then Done (WEBRTC_VIDEO_CODEC_UNINITIALIZED, s)
  else
    s ← Encode_reconfigure e f s;
    s ← Encode_frame e f key s;
    Done (WEBRTC_VIDEO_CODEC_OK, s).

(** ** Encoded samples *)

(** The results of the calls on the sample that arrives. *)
Record encoded_sample := mkSample {
  GetTotalLength : HRESULT;
  GetSampleTime : HRESULT * Z;
  GetBufferByIndex : HRESULT;
  sample_Lock : HRESULT;
  sample_bytes : list Z;           (* what the buffer holds, curLength bytes *)
  sample_Unlock : HRESULT;
  sample_As : HRESULT;
  GetCleanPoint : HRESULT * Z
}.

Context (size_t : int_type).

Definition OnH264Encoded (x : encoded_sample) (s : encoder) : exec encoder :=
  let sampleTimestamp :=
    if SUCCEEDED (GetTotalLength x) && SUCCEEDED (GetSampleTime x).1 then (GetSampleTime x).2 else 0 in
  let p := pop (static_cast Uint64 sampleTimestamp) (_sampleAttributeQueue (frames s)) in
  let s := set_queue p.2 s in
  match p.1 with
  | None => Done s
  | Some frameAttributes =>
      if negb (SUCCEEDED (GetBufferByIndex x)) then Done s
      else if FAILED (sample_Lock x) then Done s
      else if (Z.of_nat (length (sample_bytes x)) =? 0) then Done s
      else if FAILED (sample_Unlock x) then Done s
      else
        let clean_point := SUCCEEDED (sample_As x) && SUCCEEDED (GetCleanPoint x).1 && negb ((GetCleanPoint x).2 =? 0) in
        scanned ← scan_fragments size_t (sample_bytes x) clean_point;
        scanned ← defined scanned;
        pending ← defined (c_sub Int32 Int32 (framePendingCount_ (frames s)) 1);
        let s := set_pending pending s in
        Done (if encodedCompleteCallback_ s
              then add_image (mkImage (sample_bytes x) (key_frame scanned) (fragments scanned) frameAttributes) s
              else s)
  end.

(** ** Sequences of calls *)

(** What every call and its effect keep, the sequence keeps. *)
Lemma run_calls_inv_result (P : encoder -> Prop) e l : forall r,
  Forall (fun c => forall s, P s -> P (c.2 (SUCCEEDED (result e c.1)) (log [c.1] s))) l -> P r.2 -> P (run_calls e l r).2.
Proof.
  induction l as [|c l IH]; intros r Hl Hr; [done|]. inversion_clear Hl as [|? ? Hc Hl'].
  cbn. apply IH; [done|]. unfold if_succeeded. destruct (SUCCEEDED r.1); [|done]. by apply Hc.
Qed.

Lemma run_calls_inv (P : encoder -> Prop) e l r :
  Forall (fun c => forall ok s, P s -> P (c.2 ok (log [c.1] s))) l -> P r.2 -> P (run_calls e l r).2.
Proof. intros Hl. apply run_calls_inv_result. revert Hl. apply Forall_impl. intros c Hc x. apply Hc. Qed.

Lemma run_calls_ok e l : forall hr s,
  SUCCEEDED hr = true -> Forall (fun c => SUCCEEDED (result e c.1) = true) l ->
  SUCCEEDED (run_calls e l (hr, s)).1 = true /\
  (run_calls e l (hr, s)).2 = fold_left (fun s c => c.2 true (log [c.1] s)) l s.
Proof.
  induction l as [|c l IH]; intros hr s Hhr Hl; [done|]. inversion_clear Hl as [|? ? Hc Hl'].
  cbn. unfold if_succeeded. cbn [fst snd]. rewrite Hhr. unfold act. rewrite Hc. by apply IH.
Qed.

Lemma run_calls_failed e l hr s : SUCCEEDED hr = false -> run_calls e l (hr, s) = (hr, s).
Proof.
  intros Hhr. induction l as [|c l IH]; [done|]. cbn. unfold if_succeeded. cbn [fst]. by rewrite Hhr.
Qed.

Lemma run_calls_app e l l' r : run_calls e (l ++ l') r = run_calls e l' (run_calls e l r).
Proof. apply fold_left_app. Qed.

Lemma run_calls_cons e c l s :
  run_calls e (c :: l) (S_OK, s) = run_calls e l (result e c.1, c.2 (SUCCEEDED (result e c.1)) (log [c.1] s)).
Proof. reflexivity. Qed.

Lemma run_calls_just e c l s : run_calls e ((c, just) :: l) (S_OK, s) = run_calls e l (result e c, log [c] s).
Proof. reflexivity. Qed.

(** A success only if every call succeeded. *)
Lemma run_calls_success e l : forall r,
  SUCCEEDED (run_calls e l r).1 = true -> SUCCEEDED r.1 = true /\ Forall (fun c => SUCCEEDED (result e c.1) = true) l.
Proof.
  induction l as [|c l IH]; intros [hr s] H; [by split|]. cbn in H.
  destruct (IH _ H) as [Hc Hl]. unfold if_succeeded in Hc. cbn [fst snd] in Hc.
  destruct (SUCCEEDED hr) eqn:Hhr; cbn in Hc; [|congruence]. split; [done|]. by constructor.
Qed.

(** ** The writer *)

(** The writer that the settings ask for. *)
Definition configured (c : settings) (w : writer_config) : Prop :=
  cfg_width w = width_ c /\ HeightToEncode frame_height_round_mode (height_ c) = Some (cfg_height w) /\
  cfg_bps w = target_bps_ c /\ cfg_fps w = frame_rate_ c.

(** Nothing but the writer, the sink and the record of calls changes. *)
Record same_rest (s s' : encoder) : Prop := {
  same_inited : inited_ s' = inited_ s;
  same_callback : encodedCompleteCallback_ s' = encodedCompleteCallback_ s;
  same_config : config s' = config s;
  same_rates : rates s' = rates s;
  same_frames : frames s' = frames s;
  same_images : images s' = images s
}.

(** What [InitWriter] does to an encoder without a writer. *)
Lemma InitWriter_spec e s r : InitWriter e s = Done r -> sinkWriter_ s = None ->
  (forall w, sinkWriter_ r.2 = Some w -> configured (config s) w) /\
  config r.2 = config s /\ frames r.2 = frames s /\ images r.2 = images s /\
  encodedCompleteCallback_ r.2 = encodedCompleteCallback_ s /\
  rate_change_requested_ (rates r.2) = rate_change_requested_ (rates s) /\
  next_frame_rate_ (rates r.2) = next_frame_rate_ (rates s) /\
  next_target_bps_ (rates r.2) = next_target_bps_ (rates s) /\
  (if SUCCEEDED r.1 then inited_ r.2 = true /\ mediaSink_ r.2 = true /\ is_Some (sinkWriter_ r.2)
   else inited_ r.2 = inited_ s).
Proof.
  unfold InitWriter. destruct (HeightToEncode _ _) as [eh|] eqn:Heh; [|done]. cbn [defined mbind exec_bind].
  match goal with |- context [run_calls e ?l (S_OK, s)] => set (cs := l) end. intros Hr Hs.
  pose (P := fun x => same_rest s x /\ (forall w, sinkWriter_ x = Some w -> configured (config s) w)).
  assert (P (run_calls e cs (S_OK, s)).2) as [Hsame Hw].
  { apply run_calls_inv; [|split; cbn [snd]; [by constructor|rewrite Hs; done]]. unfold cs. rewrite !Forall_app. split; [|split].
    - repeat (apply Forall_cons_2; [intros ok x [[] Hw]|]); try apply Forall_nil_2;
        (split; cbn [fst snd]; [by constructor|try done]).
      destruct ok; [intros w [= <-]; done|done].
    - destruct (max_qp_ (config s) <? kMaxH264Qp); [|apply Forall_nil_2].
      apply Forall_cons_2; [intros ok x [[] Hw]|apply Forall_nil_2]. split; [by constructor|done].
    - repeat (apply Forall_cons_2; [intros ok x [[] Hw]|]); try apply Forall_nil_2;
        (split; cbn [fst snd]; [by constructor|done]). }
  destruct (SUCCEEDED (run_calls e cs (S_OK, s)).1) eqn:Hok.
  - destruct (run_calls_success e cs (S_OK, s) Hok) as [_ Hall].
    destruct (run_calls_ok e cs S_OK s eq_refl Hall) as [_ Hst].
    assert (mediaSink_ (run_calls e cs (S_OK, s)).2 = true /\ is_Some (sinkWriter_ (run_calls e cs (S_OK, s)).2))
      as [Hm Hsome].
    { rewrite Hst. unfold cs. rewrite !fold_left_app. cbn. destruct (max_qp_ (config s) <? kMaxH264Qp); by split. }
    clear Hst Hall Hok P. generalize dependent (run_calls e cs (S_OK, s)). intros [hr x] Hr Hsame Hw Hm Hsome.
    destruct Hsame as [Hi Hcb Hc Hra Hf Him]. apply Done_inj in Hr. subst r. cbn [fst snd] in *.
    split; [exact Hw|]. cbn. rewrite Hcb, Hc, Hra, Hf, Him. done.
  - apply Done_inj in Hr. subst r. destruct Hsame as [Hi Hcb Hc Hra Hf Him]. rewrite Hok.
    split; [exact Hw|]. rewrite Hi, Hcb, Hc, Hra, Hf, Him. done.
Qed.
(** ** Invariant *)

Inductive operation :=
  | Op_InitEncode (codec_settings : option VideoCodec)
  | Op_Encode (f : VideoFrame) (key : bool)
  | Op_SetRates (parameters : RateControlParameters)
  | Op_RegisterEncodeCompleteCallback (callback : bool)
  | Op_Release
  | Op_OnH264Encoded (x : encoded_sample).

Definition invoke (e : env) (o : operation) (s : encoder) : exec encoder :=
  match o with
  | Op_InitEncode v => r ← InitEncode e v s; Done r.2
  | Op_Encode f key => r ← Encode e f key s; Done r.2
  | Op_SetRates p => SetRates e p s
  | Op_RegisterEncodeCompleteCallback b => Done (RegisterEncodeCompleteCallback b s).2
  | Op_Release => Done (Release s).2
  | Op_OnH264Encoded x => OnH264Encoded x s
  end.

(** An encoder that is in use is not initialized again, unless that succeeds. *)
Definition allowed (e : env) (o : operation) (s : encoder) : Prop :=
  match o with
  | Op_InitEncode v =>
      (inited_ s = false /\ sinkWriter_ s = None) \/
      exists s', InitEncode e v s = Done (WEBRTC_VIDEO_CODEC_OK, s')
  | _ => True
  end.

Inductive reachable : encoder -> Prop :=
  | reachable_new u : reachable (H264EncoderMFImpl_new u)
  | reachable_next s e o s' : reachable s -> allowed e o s -> invoke e o s = Done s' -> reachable s'.

Notation queue s := (_sampleAttributeQueue (frames s)).

Record Inv (s : encoder) : Prop := {
  inv_writer : forall w, sinkWriter_ s = Some w -> configured (config s) w;
  inv_inited : inited_ s = true -> mediaSink_ s = true /\ is_Some (sinkWriter_ s);
  inv_queue : (length (queue s) <= 3)%nat;
  inv_rates : rate_change_requested_ (rates s) = true -> is_Some (next_target_bps_ (rates s));
  inv_next : is_Some (next_target_bps_ (rates s)) <-> is_Some (next_frame_rate_ (rates s))
}.

(** What a frame or a sample leaves alone. *)
Record same_setup (s s' : encoder) : Prop := {
  setup_inited : inited_ s' = inited_ s;
  setup_writer : sinkWriter_ s' = sinkWriter_ s;
  setup_sink : mediaSink_ s' = mediaSink_ s;
  setup_callback : encodedCompleteCallback_ s' = encodedCompleteCallback_ s;
  setup_config : config s' = config s;
  setup_rates : rates s' = rates s
}.

Lemma same_setup_refl s : same_setup s s.
Proof. by constructor. Qed.
Lemma same_setup_trans s s' s'' : same_setup s s' -> same_setup s' s'' -> same_setup s s''.
Proof. intros [] []. constructor; congruence. Qed.

Lemma same_setup_inv s s' : same_setup s s' -> Inv s -> (length (queue s') <= 3)%nat -> Inv s'.
Proof. intros [Hi Hw Hm Hc Hcf Hr] [] Hq. constructor; rewrite ?Hi, ?Hw, ?Hm, ?Hcf, ?Hr; done. Qed.

(** A sequence of calls without effects is a record of them. *)
Lemma run_calls_log e l : forall r,
  Forall (fun c => c.2 = just) l -> exists l', (run_calls e l r).2 = log l' r.2.
Proof.
  induction l as [|[c f] l IH]; intros [hr s] Hl.
  - exists []. cbn. unfold log. rewrite app_nil_r. by destruct s.
  - inversion_clear Hl as [|? ? Hc Hl']. cbn in Hc. subst f.
    change (run_calls e ((c, just) :: l) (hr, s)) with (run_calls e l (if_succeeded (hr, s) (act e c just))).
    unfold if_succeeded. cbn [fst snd]. destruct (SUCCEEDED hr); [|by apply IH].
    destruct (IH (act e c just s) Hl') as [l' ->]. exists (c :: l'). unfold act, log, just. cbn. by rewrite <- app_assoc.
Qed.

Lemma run_calls_setup e l r : Forall (fun c => c.2 = just) l ->
  same_setup r.2 (run_calls e l r).2 /\ frames (run_calls e l r).2 = frames r.2.
Proof. intros Hl. destruct (run_calls_log e l r Hl) as [l' ->]. by split; [constructor|]. Qed.

(** A frame changes the calls and the frame state, and pushes at most its attributes. *)
Lemma FromVideoFrame_setup e f s b s' :
  FromVideoFrame e f s = Done (b, s') ->
  same_setup s s' /\ b = SUCCEEDED (result e MFCreateSample) /\
  (queue s' = queue s \/ exists id a, queue s' = push id a (queue s)).
Proof.
  unfold FromVideoFrame, c_assert. set (r1 := run_calls e _ (S_OK, s)).
  destruct (run_calls_setup e [(MFCreateSample, just); (As_Attributes, just)] (S_OK, s)) as [H1 Hf1];
    [by repeat constructor|]. fold r1 in H1, Hf1.
  destruct (assert_is_on && _); [done|]. destruct (assert_is_on && _); [done|].
  intros (g & _ & H)%exec_bind_Done. destruct (SUCCEEDED r1.1); [|injection H as <- <-; rewrite Hf1; auto].
  set (r2 := run_calls e _ r1) in H.
  destruct (run_calls_setup e [(MFCreateMemoryBuffer (static_cast Uint32 (totalSize g)), just); (Lock, just)] r1)
    as [H2 Hf2]; [by repeat constructor|]. fold r2 in H2, Hf2.
  apply exec_bind_Done in H as (copies & _ & H). apply exec_bind_Done in H as (s1 & Hs1 & H).
  set (s2 := first_frame f _) in H.
  assert (same_setup r2.2 s2 /\ queue s2 = queue r2.2) as [H3 Hq3].
  { assert (exists l, s1 = log l r2.2) as [l ->].
    { destruct (SUCCEEDED r2.1).
      - unfold convert in Hs1. destruct (forallb _ _); [|done]. apply Done_inj in Hs1 as <-. by eexists.
      - apply Done_inj in Hs1 as <-. exists []. unfold log. rewrite app_nil_r. by destruct r2.2. }
    unfold s2, first_frame. cbn. destruct (firstFrame_ _); cbn; by split; [constructor|]. }
  clearbody s2. apply exec_bind_Done in H as (ts & _ & H).
  set (r3 := run_calls e _ (r2.1, s2)) in H.
  destruct (run_calls_setup e [(SetSampleTime ts, just)] (r2.1, s2)) as [H4 Hf4]; [by repeat constructor|].
  fold r3 in H4, Hf4. apply exec_bind_Done in H as (r4 & Hr4 & H).
  assert (same_setup r3.2 r4.2 /\ frames r4.2 = frames r3.2) as [H5 Hf5].
  { unfold ON_SUCCEEDED in Hr4. destruct (SUCCEEDED r3.1); [|injection Hr4 as <-; by split; [apply same_setup_refl|]].
    apply exec_bind_Done in Hr4 as (d & _ & Hr4). injection Hr4 as <-. by split; [constructor|]. }
  set (s5 := if SUCCEEDED r4.1 then _ else _) in H.
  assert (same_setup r4.2 s5 /\ (queue s5 = queue r4.2 \/ exists id a, queue s5 = push id a (queue r4.2))) as [H6 Hq6].
  { unfold s5. destruct (SUCCEEDED r4.1); (split; [by constructor|]); [right; eexists _, _; reflexivity|by left]. }
  clearbody s5. set (r6 := run_calls e _ (r4.1, s5)) in H.
  destruct (run_calls_setup e [(SetCurrentLength (static_cast Uint32 (totalSize g)), just)] (r4.1, s5)) as [H7 Hf7];
    [by repeat constructor|]. fold r6 in H7, Hf7.
  set (r7 := (r6.1, if SUCCEEDED r2.1 then log [Unlock] r6.2 else r6.2)) in H.
  assert (same_setup r6.2 r7.2 /\ frames r7.2 = frames r6.2) as [H8 Hf8].
  { unfold r7. cbn [fst snd]. clearbody r6. destruct (SUCCEEDED r2.1); (split; [by constructor|done]). }
  clearbody r7. set (r8 := run_calls e _ r7) in H.
  destruct (run_calls_setup e [(AddBuffer, just)] r7) as [H9 Hf9]; [by repeat constructor|]. fold r8 in H9, Hf9.
  injection H as <- Hs'.
  assert (same_setup r8.2 s' /\ queue s' = queue r8.2) as [H10 Hq10].
  { subst s'. destruct (lastFrameDropped_ _); by split; [constructor|]. }
  split; [|split; [done|]].
  - repeat (eapply same_setup_trans; [eassumption|]). apply same_setup_refl.
  - rewrite Hq10, Hf9, Hf8, Hf7. cbn [snd] in *. rewrite Hf5, Hf4 in Hq6. cbn [snd] in Hq6. rewrite Hq3, Hf2, Hf1 in Hq6. exact Hq6.
Qed.

Lemma ReleaseWriter_spec s :
  sinkWriter_ (ReleaseWriter s) = None /\ inited_ (ReleaseWriter s) = false /\
  encodedCompleteCallback_ (ReleaseWriter s) = false /\ queue (ReleaseWriter s) = [] /\
  config (ReleaseWriter s) = config s /\ rates (ReleaseWriter s) = rates s /\
  images (ReleaseWriter s) = images s /\ firstFrame_ (frames (ReleaseWriter s)) = true /\
  frameCount_ (frames (ReleaseWriter s)) = frameCount_ (frames s).
Proof. unfold ReleaseWriter. by destruct (mediaSink_ s). Qed.

Lemma ReleaseWriter_frames s :
  frames (ReleaseWriter s) = mkFrameState 0 0 true 0 (frameCount_ (frames s)) (lastFrameDropped_ (frames s)) [].
Proof. unfold ReleaseWriter. by destruct (mediaSink_ s). Qed.

Lemma config_eta c : mkSettings (width_ c) (height_ c) (frame_rate_ c) (target_bps_ c) (max_qp_ c) (max_bitrate_ c)
  (mode_ c) (frame_dropping_on_ c) (key_frame_interval_ c) = c.
Proof. by destruct c. Qed.

Lemma InitWriter_inv e s r : InitWriter e s = Done r -> sinkWriter_ s = None -> inited_ s = false ->
  (length (queue s) <= 3)%nat ->
  (rate_change_requested_ (rates s) = true -> is_Some (next_target_bps_ (rates s))) ->
  (is_Some (next_target_bps_ (rates s)) <-> is_Some (next_frame_rate_ (rates s))) ->
  Inv r.2.
Proof.
  intros Hr Hs Hi Hq Hn Hb. destruct (InitWriter_spec e s r Hr Hs) as (Hw & Hc & Hf & _ & _ & Hq1 & Hq2 & Hq3 & Hok).
  constructor; [by rewrite Hc| |by rewrite Hf|by rewrite Hq1, Hq3|by rewrite Hq2, Hq3].
  destruct (SUCCEEDED r.1); [by intros _; destruct Hok as (_ & ? & ?)|by rewrite Hok, Hi].
Qed.

(** A reconfiguration restarts the writer when something changes enough, keeps the
    callback, and ends in the invariant. *)
Lemma ReconfigureSinkWriter_spec e w h bps fps s r :
  ReconfigureSinkWriter e w h bps fps s = Done r -> Inv s ->
  Inv r.2 /\ width_ (config r.2) = w /\ height_ (config r.2) = h /\
  encodedCompleteCallback_ r.2 = encodedCompleteCallback_ s /\
  next_target_bps_ (rates r.2) = next_target_bps_ (rates s) /\
  next_frame_rate_ (rates r.2) = next_frame_rate_ (rates s) /\
  rate_change_requested_ (rates r.2) = rate_change_requested_ (rates s).
Proof.
  unfold ReconfigureSinkWriter. set (c := config s). set (res := _ || _). intros Hr HI.
  apply exec_bind_Done in Hr as (bu & _ & Hr). apply exec_bind_Done in Hr as (fu & _ & Hr).
  assert ((if res then w else width_ c) = w /\ (if res then h else height_ c) = h) as [Hw Hh].
  { unfold res. destruct (Z.eqb_spec (width_ c) w), (Z.eqb_spec (height_ c) h); done. }
  rewrite Hw, Hh in Hr. destruct (res || bu || fu) eqn:Hany.
  - apply exec_bind_Done in Hr as (r1 & Hinit & Hr). injection Hr as <-. cbn [snd].
    match type of Hinit with InitWriter _ ?x = _ => set (s1 := x) in Hinit end.
    destruct (ReleaseWriter_spec (set_config (mkSettings w h (if fu then fps else frame_rate_ c)
      (if bu then bps else target_bps_ c) (max_qp_ c) (max_bitrate_ c) (mode_ c) (frame_dropping_on_ c)
      (key_frame_interval_ c)) s)) as (R1 & R2 & R3 & R4 & R5 & R6 & _).
    destruct HI as [_ _ _ HIr HIn].
    assert (sinkWriter_ s1 = None) as Hs1 by exact R1. assert (inited_ s1 = false) as Hi1 by exact R2.
    assert (queue s1 = []) as Hq1 by exact R4. assert (rates s1 = rates s) as Hr1 by exact R6.
    destruct (InitWriter_spec e s1 r1 Hinit Hs1) as (_ & Hc & _ & _ & Hcb & Hr2 & Hr3 & Hr4 & _).
    assert (Inv r1.2) as HI1.
    { eapply InitWriter_inv; [exact Hinit|done|done|rewrite Hq1; cbn; lia|rewrite Hr1; exact HIr|rewrite Hr1; exact HIn]. }
    split; [by destruct HI1|]. cbn. rewrite Hc, Hcb, Hr2, Hr3, Hr4, Hr1.
    repeat (split; [first [done | exact (f_equal width_ R5) | exact (f_equal height_ R5)]|]). done.
  - injection Hr as <-. cbn [snd]. apply orb_false_iff in Hany as [Hany ->]. apply orb_false_iff in Hany as [Hres ->].
    assert (set_config (mkSettings w h (frame_rate_ c) (target_bps_ c) (max_qp_ c) (max_bitrate_ c) (mode_ c)
      (frame_dropping_on_ c) (key_frame_interval_ c)) s = s) as ->.
    { rewrite <- Hw, <- Hh. rewrite Hres, config_eta. by destruct s. }
    split; [done|]. rewrite Hres in Hw, Hh. done.
Qed.

Lemma set_requested_inv s : Inv s ->
  Inv (set_rates (mkRateControl (last_rate_change_time_rtc_ms (rates s)) false (next_frame_rate_ (rates s))
         (next_target_bps_ (rates s))) s).
Proof. intros []. by constructor. Qed.

Lemma Encode_reconfigure_inv e f s s' : Encode_reconfigure e f s = Done s' -> Inv s -> Inv s'.
Proof.
  unfold Encode_reconfigure. intros H HI. apply exec_bind_Done in H as (t & _ & H).
  destruct (_ || _); [|by apply Done_inj in H as <-].
  apply exec_bind_Done in H as (bps & _ & H). apply exec_bind_Done in H as (fps & _ & H).
  apply exec_bind_Done in H as (r & Hr & H). apply Done_inj in H as <-.
  destruct (ReconfigureSinkWriter_spec _ _ _ _ _ _ _ Hr HI) as (HI' & _). by apply set_requested_inv.
Qed.

Lemma Encode_rest_setup e f (sent : bool) s s' :
  (if sent then Encode_write e s else Encode_tick e f s) = Done s' -> same_setup s s' /\ queue s' = queue s.
Proof.
  destruct sent.
  - unfold Encode_write. intros H. apply exec_bind_Done in H as (w & _ & H). apply exec_bind_Done in H as (n & _ & H).
    apply Done_inj in H as <-. destruct (_ && _); by split; [constructor|].
  - unfold Encode_tick. intros H. apply exec_bind_Done in H as (w & _ & H). apply exec_bind_Done in H as (n & _ & H).
    apply Done_inj in H as <-. by split; [constructor|].
Qed.

Lemma queue_size_small s : (length (queue s) <= 3)%nat -> AttributeQueue.size (queue s) = Z.of_nat (length (queue s)).
Proof. intros H. unfold AttributeQueue.size. rewrite static_cast_id by (limits; lia). done. Qed.

Lemma Encode_inv e f key s r : Encode e f key s = Done r -> Inv s -> Inv r.2.
Proof.
  unfold Encode. destruct (negb (inited_ s)); [by intros <-%Done_inj|]. intros H HI.
  apply exec_bind_Done in H as (s1 & H1 & H). apply (Encode_reconfigure_inv _ _ _ _ H1) in HI.
  apply exec_bind_Done in H as (s4 & H & <-%Done_inj). unfold Encode_frame in H. cbn [snd].
  apply exec_bind_Done in H as (s2 & H2 & H).
  assert (same_setup s1 s2 /\ queue s2 = queue s1) as [Hs2 Hq2].
  { destruct key; [|apply Done_inj in H2 as <-; by split; [apply same_setup_refl|]].
    unfold request_key_frame in H2. apply exec_bind_Done in H2 as (w & _ & H2).
    destruct (_ && _); [|done]. apply Done_inj in H2 as <-. by split; [constructor|]. }
  apply exec_bind_Done in H as ([sent s3] & H3 & H4). cbn [fst snd] in *. destruct (Encode_rest_setup _ _ _ _ _ H4) as [Hs4 Hq4].
  assert (same_setup s2 s3 /\ (length (queue s3) <= 3)%nat) as [Hs3 Hq3].
  { destruct HI as [_ _ HIq _ _]. rewrite <- Hq2 in HIq. rewrite queue_size_small in H3 by done.
    destruct (Z.leb_spec (Z.of_nat (length (queue s2))) 2).
    - destruct (FromVideoFrame_setup _ _ _ _ _ H3) as (Hs3 & _ & [-> |(id & a & ->)]); (split; [done|]); [done|].
      unfold push. rewrite length_app. cbn. lia.
    - apply Done_inj in H3. injection H3 as _ <-. by split; [apply same_setup_refl|]. }
  eapply same_setup_inv; [|exact HI|by rewrite Hq4].
  eapply same_setup_trans; [exact Hs2|]. by eapply same_setup_trans; [exact Hs3|].
Qed.

Lemma pop_length {T} id (q : list (Z * T)) : (length (pop id q).2 <= length q)%nat.
Proof.
  induction q as [|[k t] q IH]; cbn; [lia|]. destruct (id <? k); [done|]. destruct (k =? id); cbn; lia.
Qed.

Lemma OnH264Encoded_setup x s s' : OnH264Encoded x s = Done s' ->
  same_setup s s' /\ exists id, queue s' = (pop id (queue s)).2.
Proof.
  unfold OnH264Encoded. set (id := static_cast Uint64 _). set (p := pop id (queue s)).
  assert (same_setup s (set_queue p.2 s) /\ exists id, queue (set_queue p.2 s) = (pop id (queue s)).2) as Hp
    by (split; [by constructor|by exists id]).
  destruct p.1; [|by intros <-%Done_inj]. destruct (negb _); [by intros <-%Done_inj|].
  destruct (FAILED _); [by intros <-%Done_inj|]. destruct (_ =? _); [by intros <-%Done_inj|].
  destruct (FAILED _); [by intros <-%Done_inj|]. intros H.
  apply exec_bind_Done in H as (o & _ & H). apply exec_bind_Done in H as (sc & _ & H).
  apply exec_bind_Done in H as (n & _ & H). apply Done_inj in H as <-. destruct Hp as [Hs [j Hq]].
  destruct (encodedCompleteCallback_ _); (split; [eapply same_setup_trans; [exact Hs|by constructor]|by exists j]).
Qed.

Lemma SetRates_inv e p s s' : SetRates e p s = Done s' -> Inv s -> Inv s'.
Proof.
  unfold SetRates. destruct (sinkWriter_ s); [|by intros <-%Done_inj]. destruct (f_eq _ _); [by intros <-%Done_inj|].
  intros H HI. apply exec_bind_Done in H as (t & _ & H). apply exec_bind_Done in H as (u & _ & H).
  apply exec_bind_Done in H as (fps & _ & H). destruct (0 <? u).
  - apply Done_inj in H as <-. destruct HI. constructor; cbn; try done.
  - apply exec_bind_Done in H as (r & Hr & H). apply Done_inj in H as <-.
    by destruct (ReconfigureSinkWriter_spec _ _ _ _ _ _ _ Hr HI) as (HI' & _).
Qed.

Lemma InitEncode_inv e v s r : InitEncode e v s = Done r -> inited_ s = false -> sinkWriter_ s = None -> Inv s -> Inv r.2.
Proof.
  intros H Hi Hs HI. unfold InitEncode in H. destruct v as [v|]; [|by apply Done_inj in H as <-].
  destruct (codecType v); try by apply Done_inj in H as <-.
  destruct (_ =? _); [by apply Done_inj in H as <-|]. destruct (_ || _); [by apply Done_inj in H as <-|].
  destruct HI as [_ _ HIq HIr HIn]. by eapply InitWriter_inv.
Qed.

(** A writer that was made has replaced the one before. *)
Lemma InitWriter_made e s r : InitWriter e s = Done r -> SUCCEEDED r.1 = true ->
  inited_ r.2 = true /\ mediaSink_ r.2 = true /\
  (exists w, sinkWriter_ r.2 = Some w /\ configured (config r.2) w) /\ frames r.2 = frames s /\
  rate_change_requested_ (rates r.2) = rate_change_requested_ (rates s) /\
  next_frame_rate_ (rates r.2) = next_frame_rate_ (rates s) /\
  next_target_bps_ (rates r.2) = next_target_bps_ (rates s).
Proof.
  unfold InitWriter. destruct (HeightToEncode _ _) as [eh|] eqn:Heh; [|done]. cbn [defined mbind exec_bind].
  match goal with |- context [run_calls e ?l (S_OK, s)] => set (cs := l) end.
  destruct (SUCCEEDED (run_calls e cs (S_OK, s)).1) eqn:Hok; [|intros <-%Done_inj; congruence].
  destruct (run_calls_success e cs (S_OK, s) Hok) as [_ Hall].
  destruct (run_calls_ok e cs S_OK s eq_refl Hall) as [_ ->]. intros <-%Done_inj _. unfold cs.
  rewrite !fold_left_app. cbn [snd]. unfold configured.
  destruct (max_qp_ (config s) <? kMaxH264Qp); cbn; (split_and!; [done|done|by eexists|done..]).
Qed.

Lemma InitEncode_again e v s s' : InitEncode e v s = Done (WEBRTC_VIDEO_CODEC_OK, s') -> Inv s -> Inv s'.
Proof.
  intros H [_ _ Hq Hr Hn]. unfold InitEncode in H. destruct v as [v|]; [|done].
  destruct (codecType v); try done. destruct (_ =? _); [done|]. destruct (_ || _); [done|].
  destruct (InitWriter_made e _ _ H eq_refl) as (Hi & Hm & (w & Hw & Hc) & Hf & H1 & H2 & H3).
  cbn [snd] in *. constructor; rewrite ?Hf, ?H1, ?H2, ?H3, ?Hw; try done.
  by intros ? [= <-].
Qed.

Lemma encoder_reachable_inv s : reachable s -> Inv s.
Proof.
  induction 1 as [u|s e o s' _ IH Ha Hi]; [by constructor; cbn; (lia || done)|].
  destruct o as [v|f key|p|b| |x]; cbn in Hi, Ha.
  - apply exec_bind_Done in Hi as (r & Hr & <-%Done_inj). destruct Ha as [[? ?]|[s2 Ha]].
    + by apply (InitEncode_inv e v s r Hr).
    + rewrite Ha in Hr. apply Done_inj in Hr as <-. by apply (InitEncode_again e v s).
  - apply exec_bind_Done in Hi as (r & Hr & <-%Done_inj). by apply (Encode_inv e f key s r Hr).
  - by eapply SetRates_inv.
  - apply Done_inj in Hi as <-. destruct IH. by constructor.
  - apply Done_inj in Hi as <-. destruct (ReleaseWriter_spec s) as (R1 & R2 & R3 & R4 & R5 & R6 & _).
    cbn. destruct IH as [_ _ _ IHr IHn].
    constructor; cbn; [by rewrite R1|by rewrite R2|rewrite R4; cbn; lia|by rewrite R6|by rewrite R6].
  - destruct (OnH264Encoded_setup x s s' Hi) as [Hs [id Hq]]. eapply same_setup_inv; [exact Hs|done|].
    rewrite Hq. pose proof (pop_length id (queue s)). destruct IH. lia.
Qed.

(** ** Frames without a change *)

(** Everything succeeds, but perhaps for [WriteSample]. *)
Definition others_ok (e : env) : Prop := forall c, c <> WriteSample -> SUCCEEDED (result e c) = true.

(** A frame of the current size that the arithmetic can handle, with a timestamp of 32
    bits. *)
Record steady (f : VideoFrame) (s : encoder) : Prop := {
  steady_writer : is_Some (sinkWriter_ s);
  steady_width : width_ (config s) = fr_width f;
  steady_height : height_ (config s) = fr_height f;
  steady_frame : frame_ok frame_height_round_mode f;
  steady_timestamp : 0 <= fr_timestamp f < 2 ^ 32;
  steady_start : 0 <= startTime_ (frames s) < 2 ^ 32;
  steady_last : Z.abs (lastTimestampHns_ (frames s)) < 2 ^ 60;
  steady_pending : 0 <= framePendingCount_ (frames s) < 2 ^ 31 - 1
}.

(** The time of a frame in units of 100 nanoseconds. *)
Definition hns (start ts : Z) : Z := Z.quot ((ts - start) * 10000) 90.

Lemma GetFrameTimestampHns_spec f s : 0 <= fr_timestamp f < 2 ^ 32 -> 0 <= startTime_ (frames s) < 2 ^ 32 ->
  GetFrameTimestampHns f s = Some (hns (startTime_ (frames s)) (fr_timestamp f)).
Proof.
  intros Ht Hs. unfold GetFrameTimestampHns, c_sub, c_mul, c_div.
  change (arith Int64 Int32) with Int64.
  rewrite (c_binop_value Z.sub Uint32 Int64 _ _ (fr_timestamp f - startTime_ (frames s)))
    by (change (arith Uint32 Int64) with Int64; rewrite ?static_cast_id by (limits; lia); limits; lia).
  cbn [mbind option_bind].
  rewrite (c_binop_value Z.mul Int64 Int32 _ 10000 ((fr_timestamp f - startTime_ (frames s)) * 10000))
    by (change (arith Int64 Int32) with Int64; rewrite ?static_cast_id by (limits; lia); limits; lia).
  cbn [mbind option_bind]. cbv zeta. change (static_cast Int64 90) with 90. change (90 =? 0) with false. cbv iota.
  rewrite static_cast_id by (limits; lia). apply arith_result_in_range.
  destruct (quot_abs_le ((fr_timestamp f - startTime_ (frames s)) * 10000) 90) as [Hq _]; [done|].
  unfold hns. limits. lia.
Qed.

Lemma hns_abs start ts : 0 <= ts < 2 ^ 32 -> 0 <= start < 2 ^ 32 -> Z.abs (hns start ts) < 2 ^ 46.
Proof. intros. unfold hns. destruct (quot_abs_le ((ts - start) * 10000) 90) as [Hq _]; [done|lia]. Qed.

(** Later ticks have later times. *)
Lemma hns_increasing start ts ts' : ts < ts' -> hns start ts < hns start ts'.
Proof.
  intros H. unfold hns. pose proof (Z.quot_rem' ((ts - start) * 10000) 90). pose proof (Z.quot_rem' ((ts' - start) * 10000) 90).
  pose proof (Z.rem_bound_abs ((ts - start) * 10000) 90 ltac:(lia)).
  pose proof (Z.rem_bound_abs ((ts' - start) * 10000) 90 ltac:(lia)). lia.
Qed.

(** The state of the frames after [f] went into the pipeline. *)
Definition frame_start (f : VideoFrame) (s : encoder) : Z :=
  if firstFrame_ (frames s) then fr_timestamp f else startTime_ (frames s).

Lemma int_of_uint32 z : 0 <= z < 2 ^ 31 -> static_cast Int32 z = z.
Proof. intros. apply static_cast_id. limits. lia. Qed.

Lemma frame_ok_small f : frame_ok frame_height_round_mode f ->
  1 <= fr_width f < 2 ^ 29 /\ 1 <= fr_height f < 2 ^ 29 /\ fr_width f <= StrideY f < 2 ^ 29.
Proof. intros [? ? ? ? ? ?]. nia. Qed.

Lemma all_just l : Forall (fun c : mf_call * (bool -> encoder -> encoder) => c.2 = just) (map (fun c => (c, just)) l).
Proof. induction l; by constructor. Qed.

Lemma run_just_ok e l s : (forall c, In c l -> SUCCEEDED (result e c) = true) -> forall hr, SUCCEEDED hr = true ->
  exists hr', run_calls e (map (fun c => (c, just)) l) (hr, s) = (hr', log l s) /\ SUCCEEDED hr' = true.
Proof.
  revert s. induction l as [|c l IH]; intros s Hl hr Hhr.
  - exists hr. split; [|done]. cbn. unfold log. rewrite app_nil_r. by destruct s.
  - cbn [map]. change (run_calls e ((c, just) :: map (fun c => (c, just)) l) (hr, s))
      with (run_calls e (map (fun c => (c, just)) l) (if_succeeded (hr, s) (act e c just))).
    unfold if_succeeded. cbn [fst snd]. rewrite Hhr. change (act e c just s) with (result e c, log [c] s).
    destruct (IH (log [c] s) (fun c' H => Hl c' (or_intror H)) (result e c) (Hl c (or_introl eq_refl))) as (hr' & -> & Hr').
    exists hr'. split; [|done]. unfold log. cbn. by rewrite <- app_assoc.
Qed.

(** A sequence of calls without [WriteSample]. *)
Definition no_write (l : list mf_call) : bool := forallb (fun c => match c with WriteSample => false | _ => true end) l.

Lemma run_others_ok e l s hr : no_write l = true -> others_ok e -> SUCCEEDED hr = true ->
  exists hr', run_calls e (map (fun c => (c, just)) l) (hr, s) = (hr', log l s) /\ SUCCEEDED hr' = true.
Proof.
  intros Hl Hok Hhr. apply run_just_ok; [|done]. intros c Hc. apply Hok. intros ->.
  unfold no_write in Hl. rewrite forallb_forall in Hl. by specialize (Hl _ Hc).
Qed.

(** The copy of a frame is defined whatever its size. *)
Lemma copy_frame_Some f : frame_ok frame_height_round_mode f ->
  exists g copies, frame_geometry frame_height_round_mode (fr_height f) f = Some g /\
    encoded_height g = encoded frame_height_round_mode (fr_height f) /\
    copy_frame (fr_width f) (fr_height f) f g = Some copies.
Proof.
  intros Hok. eexists.
  destruct (Z.le_gt_cases (encoded frame_height_round_mode (fr_height f)) (fr_height f)) as [Hle|Hlt].
  - destruct (copy_frame_crop _ f Hok Hle) as [Hc _]. eexists.
    split; [exact (frame_geometry_spec _ f Hok)|]. split; [done|exact Hc].
  - destruct (copy_frame_pad _ f Hok Hlt) as [Hc _]. eexists.
    split; [exact (frame_geometry_spec _ f Hok)|]. split; [done|exact Hc].
Qed.

(** Whether the copy of a frame of the current size stays within the frame and the
    buffer ([Geometry.FromVideoFrame_within] and [FromVideoFrame_odd_height] say when). *)
Definition copies_within (f : VideoFrame) : bool :=
  match frame_geometry frame_height_round_mode (fr_height f) f with
  | Some g =>
      match copy_frame (fr_width f) (fr_height f) f g with
      | Some copies => forallb (call_within f (totalSize g)) copies
      | None => false
      end
  | None => false
  end.

(** The calls that put a frame into a sample. *)
Definition frame_calls (g : geometry) (copies : list yuv_call) (time duration : Z) (discontinuity : bool) : list mf_call :=
  [MFCreateSample; As_Attributes; MFCreateMemoryBuffer (static_cast Uint32 (totalSize g)); Lock] ++
  map Yuv copies ++
  [SetSampleTime time; SetSampleDuration duration; SetCurrentLength (static_cast Uint32 (totalSize g)); Unlock; AddBuffer] ++
  (if discontinuity then [SetDiscontinuity] else []).

Lemma act_just e c s : act e c just s = (result e c, log [c] s).
Proof. reflexivity. Qed.

Lemma log_app l l' s : log l' (log l s) = log (l ++ l') s.
Proof. unfold log. cbn. by rewrite app_assoc. Qed.

Lemma frame_stored l l1 a b p n d q q0 t s :
  log l (set_queue q (set_lastTimestamp t (log l1 (set_frames (mkFrameState a b false p n d q0) s)))) =
  log (l1 ++ l) (set_frames (mkFrameState a t false p n d q) s).
Proof. unfold log. cbn. by rewrite app_assoc. Qed.

Lemma frame_resumed l a t b p n d q s :
  set_dropped false (log l (set_frames (mkFrameState a t b p n d q) s)) =
  log l (set_frames (mkFrameState a t b p n false q) s).
Proof. reflexivity. Qed.

Lemma FromVideoFrame_spec e f s : others_ok e -> steady f s -> copies_within f = true ->
  exists g copies, encoded_height g = encoded frame_height_round_mode (fr_height f) /\
  let time := hns (frame_start f s) (fr_timestamp f) in
  let x := frames s in
  FromVideoFrame e f s = Done (true,
    log (frame_calls g copies time (time - lastTimestampHns_ x) (lastFrameDropped_ x))
      (set_frames (mkFrameState (frame_start f s) time false (framePendingCount_ x) (frameCount_ x) false
         (push (static_cast Uint64 time) (frame_attributes f (encoded_height g)) (_sampleAttributeQueue x))) s)).
Proof.
  intros Hok [Hw Hwd Hht Hf Ht Hs Hl Hp] Hfit.
  destruct (copy_frame_Some f Hf) as (g & copies & Hg & He & Hc). exists g, copies. split; [done|]. cbv zeta.
  unfold copies_within in Hfit. rewrite Hg, Hc in Hfit.
  destruct (frame_ok_small f Hf) as (Hsw & Hsh & _).
  unfold FromVideoFrame, c_assert. rewrite Hwd, Hht, Hg.
  assert (forall z, 1 <= z < 2 ^ 29 -> c_eq Int32 Uint32 z z = true) as Heq by (intros; apply Z.eqb_refl).
  rewrite !Heq, !andb_false_r by done. cbn [defined mbind exec_bind].
  destruct (run_others_ok e [MFCreateSample; As_Attributes] s S_OK eq_refl Hok eq_refl) as (hr1 & E1 & Hr1). cbn [map] in E1. rewrite E1. cbn [fst snd]. rewrite Hr1.
  destruct (run_others_ok e [MFCreateMemoryBuffer (static_cast Uint32 (totalSize g)); Lock]
    (log [MFCreateSample; As_Attributes] s) hr1 eq_refl Hok Hr1) as (hr2 & E2 & Hr2).
  cbn [map] in E2. rewrite E2. cbn [fst snd]. rewrite Hr2, Hc. cbn [defined mbind exec_bind].
  unfold convert. rewrite Hfit. cbn [mbind exec_bind]. rewrite !log_app.
  rewrite (Hok MFCreateSample) by done.
  match goal with |- context [first_frame f (log ?l s)] => set (l1 := l) end.
  assert (first_frame f (log l1 s) = log l1 (set_frames (mkFrameState (frame_start f s) (lastTimestampHns_ (frames s)) false
    (framePendingCount_ (frames s)) (frameCount_ (frames s)) (lastFrameDropped_ (frames s)) (queue s)) s)) as ->.
  { unfold first_frame, frame_start, log, set_frames. cbn. destruct (firstFrame_ (frames s)) eqn:E; [done|].
    f_equal. rewrite <- E. by destruct (frames s). }
  set (s1 := set_frames _ s). assert (0 <= frame_start f s < 2 ^ 32) as Hst
    by (unfold frame_start; by destruct (firstFrame_ (frames s))).
  rewrite GetFrameTimestampHns_spec by done. cbn [defined mbind exec_bind].
  change (startTime_ (frames (log l1 s1))) with (frame_start f s).
  set (time := hns (frame_start f s) (fr_timestamp f)).
  pose proof (hns_abs (frame_start f s) (fr_timestamp f) Ht Hst) as Habs. fold time in Habs.
  destruct (run_others_ok e [SetSampleTime time] (log l1 s1) hr2 eq_refl Hok Hr2) as (hr3 & E3 & Hr3). cbn [map] in E3. rewrite E3. unfold ON_SUCCEEDED. cbn [fst snd]. rewrite Hr3.
  change (lastTimestampHns_ (frames (log [SetSampleTime time] (log l1 s1)))) with (lastTimestampHns_ (frames s)).
  unfold c_sub. rewrite (c_binop_same Z.sub Int64) by (limits; lia). cbn [defined mbind exec_bind].
  set (d := time - lastTimestampHns_ (frames s)). rewrite act_just. cbn [fst snd].
  rewrite (Hok (SetSampleDuration d)) by done. rewrite !log_app.
  set (s2 := set_queue _ _).
  destruct (run_others_ok e [SetCurrentLength (static_cast Uint32 (totalSize g))] s2
    (result e (SetSampleDuration d)) eq_refl Hok (Hok (SetSampleDuration d) ltac:(done))) as (hr4 & E4 & Hr4). cbn [map] in E4. rewrite E4. cbn [fst snd].
  destruct (run_others_ok e [AddBuffer] (log [Unlock] (log [SetCurrentLength (static_cast Uint32 (totalSize g))] s2))
    hr4 eq_refl Hok Hr4) as (hr5 & E5 & Hr5). cbn [map] in E5. rewrite E5. cbn [fst snd].
  f_equal. f_equal. rewrite !log_app. unfold s2, frame_calls.
  change (lastFrameDropped_ (frames (log _ _))) with (lastFrameDropped_ (frames s)).
  change (queue (log _ s1)) with (queue s). unfold s1. rewrite frame_stored.
  destruct (lastFrameDropped_ (frames s)).
  - rewrite frame_resumed, log_app. f_equal. unfold l1. by rewrite <- !app_assoc.
  - rewrite app_nil_r. f_equal. unfold l1. by rewrite <- !app_assoc.
Qed.

(** A copy that does not fit is undefined. *)
Lemma FromVideoFrame_overflow e f s : others_ok e -> steady f s -> copies_within f = false ->
  FromVideoFrame e f s = Undef.
Proof.
  intros Hok [Hw Hwd Hht Hf Ht Hs Hl Hp] Hfit.
  destruct (copy_frame_Some f Hf) as (g & copies & Hg & He & Hc).
  unfold copies_within in Hfit. rewrite Hg, Hc in Hfit. destruct (frame_ok_small f Hf) as (Hsw & Hsh & _).
  unfold FromVideoFrame, c_assert. rewrite Hwd, Hht, Hg.
  assert (forall z, 1 <= z < 2 ^ 29 -> c_eq Int32 Uint32 z z = true) as Heq by (intros; apply Z.eqb_refl).
  rewrite !Heq, !andb_false_r by done. cbn [defined mbind exec_bind].
  destruct (run_others_ok e [MFCreateSample; As_Attributes] s S_OK eq_refl Hok eq_refl) as (hr1 & E1 & Hr1).
  cbn [map] in E1. rewrite E1. cbn [fst snd]. rewrite Hr1.
  destruct (run_others_ok e [MFCreateMemoryBuffer (static_cast Uint32 (totalSize g)); Lock]
    (log [MFCreateSample; As_Attributes] s) hr1 eq_refl Hok Hr1) as (hr2 & E2 & Hr2).
  cbn [map] in E2. rewrite E2. cbn [fst snd]. rewrite Hr2, Hc. cbn [defined mbind exec_bind].
  unfold convert. by rewrite Hfit.
Qed.

(** What [Encode] does to the calls and the frame state for such a frame. *)
Definition encoded_frame (e : env) (f : VideoFrame) (s s' : encoder) : Prop :=
  let x := frames s in
  let time := hns (frame_start f s) (fr_timestamp f) in
  let n := static_cast Uint32 (frameCount_ x + 1) in
  exists g copies, encoded_height g = encoded frame_height_round_mode (fr_height f) /\
    calls s' = calls s ++ frame_calls g copies time (time - lastTimestampHns_ x) (lastFrameDropped_ x) ++ WriteSample ::
      (if (n mod 30 =? 0) && SUCCEEDED (result e WriteSample) then [NotifyEndOfSegment] else []) /\
    frames s' = mkFrameState (frame_start f s) time false (framePendingCount_ x + 1) n false
      (push (static_cast Uint64 time) (frame_attributes f (encoded_height g)) (queue s)).

Definition dropped_frame (f : VideoFrame) (s s' : encoder) : Prop :=
  let x := frames s in
  let time := hns (startTime_ x) (fr_timestamp f) in
  calls s' = calls s ++ [SendStreamTick time] /\
  frames s' = mkFrameState (startTime_ x) time (firstFrame_ x) (framePendingCount_ x) (frameCount_ x) true (queue s).

(** Without postponed rates it needs no reconfiguration. *)
Lemma Encode_reconfigure_steady e f s : steady f s -> rate_change_requested_ (rates s) = false ->
  Encode_reconfigure e f s = Done s.
Proof.
  intros [Hw Hwd Hht Hf _ _ _ _] Hr. destruct (frame_ok_small f Hf) as (Hsw & Hsh & _).
  unfold Encode_reconfigure. rewrite Hwd, Hht, Hr, !int_of_uint32, !Z.eqb_refl by lia. reflexivity.
Qed.

Lemma Encode_write_spec e s : is_Some (sinkWriter_ s) -> 0 <= framePendingCount_ (frames s) < 2 ^ 31 - 1 ->
  let x := frames s in
  let n := static_cast Uint32 (frameCount_ x + 1) in
  Encode_write e s = Done (log (WriteSample :: (if (n mod 30 =? 0) && SUCCEEDED (result e WriteSample)
                                                then [NotifyEndOfSegment] else []))
    (set_frames (mkFrameState (startTime_ x) (lastTimestampHns_ x) (firstFrame_ x) (framePendingCount_ x + 1) n
       (lastFrameDropped_ x) (queue s)) s)).
Proof.
  intros [w Hw] Hp x n. unfold Encode_write. rewrite Hw, act_just. cbn [defined mbind exec_bind fst snd].
  change (frameCount_ (frames s)) with (frameCount_ x). fold n.
  set (s1 := if _ && _ then _ else _).
  assert (framePendingCount_ (frames s1) = framePendingCount_ x) as ->
    by (unfold s1; destruct (_ && _); reflexivity).
  unfold c_add. rewrite (c_binop_same Z.add Int32) by (unfold x; limits; lia). cbn [defined mbind exec_bind].
  f_equal. unfold s1, log. destruct (_ && _); cbn; by rewrite <- ?app_assoc.
Qed.

Lemma Encode_tick_spec e f s : is_Some (sinkWriter_ s) ->
  0 <= fr_timestamp f < 2 ^ 32 -> 0 <= startTime_ (frames s) < 2 ^ 32 ->
  exists s', Encode_tick e f s = Done s' /\ same_setup s s' /\ dropped_frame f s s'.
Proof.
  intros [w Hw] Ht Hs. unfold Encode_tick. rewrite (GetFrameTimestampHns_spec f (set_dropped true s)) by done.
  cbn [defined mbind exec_bind]. cbn [sinkWriter_ set_dropped set_frames]. rewrite Hw. cbn [defined mbind exec_bind].
  eexists. split; [reflexivity|]. split; [by constructor|]. by split.
Qed.

Lemma Encode_frame_steady e f s : others_ok e -> steady f s -> (length (queue s) <= 3)%nat ->
  copies_within f = true \/ length (queue s) = 3%nat ->
  exists s', Encode_frame e f false s = Done s' /\ same_setup s s' /\
    if Z.of_nat (length (queue s)) <? 3 then encoded_frame e f s s' else dropped_frame f s s'.
Proof.
  intros He Hs Hq Hfit. unfold Encode_frame. cbn [mbind exec_bind]. rewrite queue_size_small by done.
  destruct (Z.ltb_spec (Z.of_nat (length (queue s))) 3); destruct (Z.leb_spec (Z.of_nat (length (queue s))) 2); try lia.
  - destruct (FromVideoFrame_spec e f s He Hs ltac:(destruct Hfit; [done|lia])) as (g & copies & Hg & ->). cbn [mbind exec_bind fst snd].
    rewrite Encode_write_spec by apply Hs. eexists. split; [reflexivity|].
    split; [by constructor|]. exists g, copies. split; [done|]. split; [|reflexivity].
    cbn. by rewrite <- app_assoc.
  - cbn [mbind exec_bind fst snd].
    destruct (Encode_tick_spec e f s (steady_writer _ _ Hs) (steady_timestamp _ _ Hs) (steady_start _ _ Hs))
      as (s' & -> & Hss & Hd). by exists s'.
Qed.

(** Where nothing fails, the request of a key frame only adds its calls. *)
Lemma Encode_frame_key e f key s : others_ok e -> is_Some (sinkWriter_ s) ->
  Encode_frame e f key s =
    Encode_frame e f false (if key then log [As_EncoderConfig; MFCreateAttributes_key; PlaceEncodingParameters] s else s).
Proof.
  intros He [w Hw]. unfold Encode_frame. destruct key; [|done]. unfold request_key_frame.
  rewrite Hw, !He by done. done.
Qed.

(** When the rest of [Encode] is defined. *)
Lemma Encode_frame_cases e f key s : others_ok e -> steady f s -> (length (queue s) <= 3)%nat ->
  if negb (copies_within f) && (length (queue s) <? 3)%nat then Encode_frame e f key s = Undef
  else exists s', Encode_frame e f key s = Done s'.
Proof.
  intros He Hs Hq. rewrite Encode_frame_key by (done || apply Hs).
  set (s1 := if key then _ else s). assert (steady f s1) as Hs1 by (destruct Hs; by destruct key).
  assert (queue s1 = queue s) as Hq1 by (by destruct key). clearbody s1. rewrite <- Hq1 in *.
  destruct (Nat.ltb_spec (length (queue s1)) 3) as [Hlt|Hge], (copies_within f) eqn:Hc; cbn [negb andb].
  2: { unfold Encode_frame. cbn [mbind exec_bind]. rewrite queue_size_small by done.
       destruct (Z.leb_spec (Z.of_nat (length (queue s1))) 2); [|lia]. by rewrite FromVideoFrame_overflow. }
  all: destruct (Encode_frame_steady e f s1 He Hs1 Hq) as (s' & -> & _); [auto with lia|by eexists].
Qed.

(** ** Frames that need a reconfiguration *)

Lemma InitWriter_ok e s : others_ok e -> is_Some (HeightToEncode frame_height_round_mode (height_ (config s))) ->
  exists r, InitWriter e s = Done r /\ SUCCEEDED r.1 = true.
Proof.
  intros He [eh Heh]. unfold InitWriter. rewrite Heh. cbn [defined mbind exec_bind].
  match goal with |- context [run_calls e ?l (S_OK, s)] => set (cs := l) end.
  assert (Forall (fun c => SUCCEEDED (result e c.1) = true) cs) as Hcs.
  { unfold cs. rewrite !Forall_app.
    split; [|split]; [|destruct (max_qp_ (config s) <? kMaxH264Qp)|];
      repeat (apply Forall_cons_2; [by apply He|]); apply Forall_nil_2. }
  destruct (run_calls_ok e cs S_OK s eq_refl Hcs) as [Hok _]. rewrite Hok. eexists. by split.
Qed.

Lemma varies_Done old new : 0 <= old < 2 ^ 31 -> 0 <= new < 2 ^ 31 -> exists b, varies old new = Done b.
Proof.
  intros Ho Hn. unfold varies. rewrite !int_of_uint32 by done. unfold c_sub.
  rewrite (c_binop_same Z.sub Int32) by (limits; lia). cbn [defined mbind exec_bind].
  destruct (Z.ltb_spec (old - new) 0); cbn [defined mbind exec_bind]; [|by eexists].
  unfold c_neg. rewrite arith_result_in_range by (limits; lia). by eexists.
Qed.

(** An unchanged rate never restarts the writer. *)
Lemma varies_same z : 0 <= z < 2 ^ 31 -> varies z z = Done false.
Proof.
  intros Hz. unfold varies. rewrite !int_of_uint32 by done. unfold c_sub.
  rewrite (c_binop_same Z.sub Int32) by (limits; lia). rewrite Z.sub_diag. cbn [defined mbind exec_bind Z.ltb Z.compare].
  f_equal. apply (zero_not_gt _ false). apply f_mul_nonnegative; [|done]. apply of_int_nonnegative. lia.
Qed.

(** Settings, rates and clock within the ranges of their types. *)
Record ready (e : env) (f : VideoFrame) (s : encoder) : Prop := {
  ready_inited : inited_ s = true;
  ready_frame : frame_ok frame_height_round_mode f;
  ready_timestamp : 0 <= fr_timestamp f < 2 ^ 32;
  ready_start : 0 <= startTime_ (frames s) < 2 ^ 32;
  ready_last : Z.abs (lastTimestampHns_ (frames s)) < 2 ^ 60;
  ready_pending : 0 <= framePendingCount_ (frames s) < 2 ^ 31 - 1;
  ready_size : 0 <= width_ (config s) < 2 ^ 31 /\ 0 <= height_ (config s) < 2 ^ 31;
  ready_config : 0 <= target_bps_ (config s) < 2 ^ 31 /\ 0 <= frame_rate_ (config s) < 2 ^ 31;
  ready_bps : forall z, next_target_bps_ (rates s) = Some z -> 0 <= z < 2 ^ 31;
  ready_fps : forall z, next_frame_rate_ (rates s) = Some z -> 0 <= z < 2 ^ 31;
  ready_clock : 0 <= TimeMillis e < 2 ^ 62 /\ 0 <= last_rate_change_time_rtc_ms (rates s) < 2 ^ 62
}.

(** A reconfiguration for a frame ends in a state for it: with the old writer, or with
    a new one and everything about frames reset. *)
Lemma ReconfigureSinkWriter_ok e f bps fps s : others_ok e -> Inv s -> ready e f s ->
  0 <= bps < 2 ^ 31 -> 0 <= fps < 2 ^ 31 ->
  exists r, ReconfigureSinkWriter e (fr_width f) (fr_height f) bps fps s = Done r /\
    inited_ r.2 = true /\
    (frames r.2 = frames s \/ frames r.2 = mkFrameState 0 0 true 0 (frameCount_ (frames s)) (lastFrameDropped_ (frames s)) []).
Proof.
  intros He HI Hready Hbps Hfps. destruct Hready as [Hi Hf Ht Hs Hl Hp Hsz [Hcb Hcf] _ _ _].
  unfold ReconfigureSinkWriter. destruct (varies_Done (target_bps_ (config s)) bps Hcb Hbps) as [bu ->].
  destruct (varies_Done (frame_rate_ (config s)) fps Hcf Hfps) as [fu ->]. cbn [mbind exec_bind].
  set (res := negb (width_ (config s) =? fr_width f) || negb (height_ (config s) =? fr_height f)).
  set (w := if res then fr_width f else width_ (config s)). set (h := if res then fr_height f else height_ (config s)).
  assert (h = fr_height f) as Hh.
  { unfold h, res. destruct (Z.eqb_spec (width_ (config s)) (fr_width f)), (Z.eqb_spec (height_ (config s)) (fr_height f)); done. }
  destruct (res || bu || fu); [|eexists; split; [reflexivity|]; by split; [|left]].
  match goal with |- context [InitWriter e ?x] => set (s1 := x) end.
  destruct (ReleaseWriter_spec (set_config (mkSettings w h (if fu then fps else frame_rate_ (config s))
    (if bu then bps else target_bps_ (config s)) (max_qp_ (config s)) (max_bitrate_ (config s)) (mode_ (config s))
    (frame_dropping_on_ (config s)) (key_frame_interval_ (config s))) s)) as (R1 & R2 & R3 & R4 & R5 & R6 & _).
  assert (sinkWriter_ s1 = None) as Hs1 by exact R1.
  assert (height_ (config s1) = fr_height f) as Hh1 by (rewrite <- Hh; exact (f_equal height_ R5)).
  destruct (InitWriter_ok e s1 He) as (r & Hr & Hok).
  { rewrite Hh1. destruct (frame_ok_small f Hf) as (_ & Hsh & _). destruct Hf.
    rewrite HeightToEncode_spec by lia. by eexists. }
  rewrite Hr. cbn [mbind exec_bind]. eexists. split; [reflexivity|].
  destruct (InitWriter_spec e s1 r Hr Hs1) as (_ & _ & Hfr & _ & _ & _ & _ & _ & Hin). rewrite Hok in Hin.
  split; [by cbn; destruct Hin|]. right. cbn. rewrite Hfr. unfold s1. exact (ReleaseWriter_frames _).
Qed.

(** ** Runs of frames *)

Fixpoint encode_run (l : list (env * VideoFrame)) (s : encoder) : exec encoder :=
  match l with
  | [] => Done s
  | (e, f) :: l => r ← Encode e f false s; encode_run l r.2
  end.

(** An initialized encoder with room for [n] more frames in its counters. *)
Record running (n : nat) (s : encoder) : Prop := {
  run_inited : inited_ s = true;
  run_writer : is_Some (sinkWriter_ s);
  run_requested : rate_change_requested_ (rates s) = false;
  run_start : 0 <= startTime_ (frames s) < 2 ^ 32;
  run_last : Z.abs (lastTimestampHns_ (frames s)) < 2 ^ 60;
  run_pending : 0 <= framePendingCount_ (frames s) < 2 ^ 31 - 1 - Z.of_nat n;
  run_queue : (length (queue s) <= 3)%nat
}.

(** A frame of the current size. *)
Record fits (f : VideoFrame) (s : encoder) : Prop := {
  fits_width : width_ (config s) = fr_width f;
  fits_height : height_ (config s) = fr_height f;
  fits_frame : frame_ok frame_height_round_mode f;
  fits_copies : copies_within f = true;
  fits_timestamp : 0 <= fr_timestamp f < 2 ^ 32
}.

Lemma running_step n e f s : running (S n) s -> fits f s -> others_ok e ->
  exists s', Encode e f false s = Done (WEBRTC_VIDEO_CODEC_OK, s') /\ running n s' /\ same_setup s s' /\
    length (queue s') = Nat.min 3 (S (length (queue s))) /\
    (length (queue s) = 3%nat -> exists t, calls s' = calls s ++ [SendStreamTick t]).
Proof.
  intros [Hi Hw Hr Hs Hl Hp Hq] [Hfw Hfh Hf Hfit Ht] He.
  assert (steady f s) as Hst by (constructor; try done; lia).
  destruct (Encode_frame_steady e f s He Hst Hq (or_introl Hfit)) as (s' & Hs' & Hsame & Hspec). exists s'.
  unfold Encode. rewrite Hi, (Encode_reconfigure_steady e f s Hst Hr). cbn [negb mbind exec_bind]. rewrite Hs'.
  split; [done|]. destruct Hsame as [S1 S2 S3 S4 S5 S6].
  destruct (Z.ltb_spec (Z.of_nat (length (queue s))) 3).
  - destruct Hspec as (g & copies & _ & _ & Hfr).
    assert (length (queue s') = S (length (queue s))) as Hlen by (rewrite Hfr; cbn [_sampleAttributeQueue]; unfold push; rewrite length_app; cbn [length]; lia).
    assert (0 <= frame_start f s < 2 ^ 32) as Hfs by (unfold frame_start; by destruct (firstFrame_ (frames s))).
    split; [|split; [by constructor|split; [lia|lia]]].
    constructor; rewrite ?S1, ?S2, ?S6, ?Hlen, ?Hfr; try done; cbn; try lia.
    pose proof (hns_abs (frame_start f s) (fr_timestamp f) Ht Hfs). lia.
  - destruct Hspec as [Hcalls Hfr].
    assert (length (queue s') = length (queue s)) as Hlen by by rewrite Hfr.
    split; [|split; [by constructor|split; [lia|intros _; by eexists]]].
    constructor; rewrite ?S1, ?S2, ?S6, ?Hlen, ?Hfr; try done; cbn; try lia.
    pose proof (hns_abs (startTime_ (frames s)) (fr_timestamp f) Ht Hs). lia.
Qed.

Lemma fits_setup f s s' : same_setup s s' -> fits f s -> fits f s'.
Proof. intros [_ _ _ _ Hc _] []. constructor; by rewrite ?Hc. Qed.

Definition frames_fit (l : list (env * VideoFrame)) (s : encoder) : Prop :=
  Forall (fun p => others_ok p.1 /\ fits p.2 s) l.

Lemma frames_fit_setup l s s' : same_setup s s' -> frames_fit l s -> frames_fit l s'.
Proof. intros Hs. apply Forall_impl. intros p [He Hf]. split; [done|by eapply fits_setup]. Qed.

(** Without a sample coming back the queue fills up to three ... *)
Lemma run_fills l n : forall s, running (length l + n) s -> frames_fit l s ->
  exists s', encode_run l s = Done s' /\ running n s' /\ same_setup s s' /\
    length (queue s') = Nat.min 3 (length l + length (queue s)).
Proof.
  induction l as [|[e f] l IH]; intros s Hrun Hl; cbn [encode_run].
  - exists s. split; [done|]. split; [done|]. split; [apply same_setup_refl|]. pose proof (run_queue _ _ Hrun). cbn [length]. lia.
  - inversion_clear Hl as [|? ? [He Hf] Hl']. cbn [fst snd] in *.
    destruct (running_step _ e f s Hrun Hf He) as (s1 & -> & Hrun1 & Hs1 & Hq1 & _). cbn [mbind exec_bind snd].
    destruct (IH s1 Hrun1 (frames_fit_setup l s s1 Hs1 Hl')) as (s' & Hrun' & H1 & H2 & H3).
    exists s'. split; [done|]. split; [done|]. split; [by eapply same_setup_trans|]. cbn [length]. lia.
Qed.

(** ... and then there are only ticks. *)
Lemma run_ticks l n : forall s, running (length l + n) s -> frames_fit l s -> length (queue s) = 3%nat ->
  exists s' ts, encode_run l s = Done s' /\ running n s' /\ length (queue s') = 3%nat /\
    calls s' = calls s ++ map SendStreamTick ts /\ length ts = length l.
Proof.
  induction l as [|[e f] l IH]; intros s Hrun Hl Hq; cbn [encode_run].
  - exists s, []. split; [done|]. split; [done|]. split; [done|]. by rewrite app_nil_r.
  - inversion_clear Hl as [|? ? [He Hf] Hl']. cbn [fst snd] in *.
    destruct (running_step _ e f s Hrun Hf He) as (s1 & -> & Hrun1 & Hs1 & Hq1 & Ht). cbn [mbind exec_bind snd].
    destruct (Ht Hq) as [t Hc1]. rewrite Hq in Hq1.
    destruct (IH s1 Hrun1 (frames_fit_setup l s s1 Hs1 Hl') Hq1) as (s' & ts & Hrun' & H1 & H2 & H3 & H4).
    exists s', (t :: ts). split; [done|]. split; [done|]. split; [done|]. split; [|cbn; lia].
    rewrite H3, Hc1, <- app_assoc. done.
Qed.

(** The rates after a reconfiguration. *)
Lemma ReconfigureSinkWriter_rates e w h bps fps s r : ReconfigureSinkWriter e w h bps fps s = Done r ->
  exists bu fu, varies (target_bps_ (config s)) bps = Done bu /\ varies (frame_rate_ (config s)) fps = Done fu /\
    target_bps_ (config r.2) = (if bu then bps else target_bps_ (config s)) /\
    frame_rate_ (config r.2) = (if fu then fps else frame_rate_ (config s)).
Proof.
  unfold ReconfigureSinkWriter. intros Hr. apply exec_bind_Done in Hr as (bu & Hbu & Hr).
  apply exec_bind_Done in Hr as (fu & Hfu & Hr). exists bu, fu. split; [done|]. split; [done|].
  destruct (_ || fu).
  - apply exec_bind_Done in Hr as (r1 & Hinit & Hr). apply Done_inj in Hr as <-. cbn [snd].
    match type of Hinit with InitWriter _ (set_callback _ (ReleaseWriter ?x)) = _ =>
      destruct (ReleaseWriter_spec x) as (R1 & _ & _ & _ & R5 & _) end.
    destruct (InitWriter_spec e _ r1 Hinit) as (_ & Hc & _); [exact R1|].
    cbn. rewrite Hc. split; [exact (f_equal target_bps_ R5)|exact (f_equal frame_rate_ R5)].
  - apply Done_inj in Hr as <-. done.
Qed.

(** Differences of clock readings. *)
Lemma clock_sub x y : 0 <= x < 2 ^ 62 -> 0 <= y < 2 ^ 62 -> c_sub Int64 Int64 x y = Some (x - y).
Proof. intros. apply (c_binop_same Z.sub Int64); limits; lia. Qed.

Lemma clock_wait x : - 2 ^ 62 < x < 2 ^ 62 -> c_sub Int32 Int64 kMinIntervalBetweenRateChangesMs x = Some (5000 - x).
Proof.
  intros. apply c_binop_value; change (arith Int32 Int64) with Int64; [|limits; lia].
  rewrite (static_cast_id Int64 x) by (limits; lia). reflexivity.
Qed.

(** *** A writer that cannot be made *)

Lemma InitWriter_no_writer e s r : InitWriter e s = Done r -> sinkWriter_ s = None ->
  SUCCEEDED (result e MFCreateSinkWriterFromMediaSink) = false -> sinkWriter_ r.2 = None.
Proof.
  unfold InitWriter. destruct (HeightToEncode _ _) as [eh|]; [|done]. cbn [defined mbind exec_bind].
  match goal with |- context [run_calls e ?l (S_OK, s)] => set (cs := l) end. intros Hr Hs Hf.
  assert (sinkWriter_ (run_calls e cs (S_OK, s)).2 = None) as Hnone.
  { apply (run_calls_inv_result (fun x => sinkWriter_ x = None)); [|done]. unfold cs. rewrite !Forall_app.
    split; [|split]; [|destruct (max_qp_ (config s) <? kMaxH264Qp)|];
      repeat (apply Forall_cons_2; [intros x Hx; cbn [fst snd]; try rewrite Hf; exact Hx || reflexivity|]); apply Forall_nil_2. }
  destruct (SUCCEEDED _); apply Done_inj in Hr; subst r; exact Hnone.
Qed.

Lemma FromVideoFrame_not_fatal e f s : 1 <= fr_width f < 2 ^ 29 -> 1 <= fr_height f < 2 ^ 29 ->
  width_ (config s) = fr_width f -> height_ (config s) = fr_height f -> FromVideoFrame e f s <> Fatal.
Proof.
  intros Hw Hh Hwd Hht. unfold FromVideoFrame, c_assert. rewrite Hwd, Hht.
  assert (forall z, 1 <= z < 2 ^ 29 -> c_eq Int32 Uint32 z z = true) as Heq by (intros; apply Z.eqb_refl).
  rewrite !Heq, !andb_false_r by done. destruct (frame_geometry _ _ _); [|done]. cbn [defined mbind exec_bind].
  destruct (SUCCEEDED _); [|done]. destruct (copy_frame _ _ _ _); [|done]. cbn [defined mbind exec_bind].
  match goal with |- context [if ?b then convert ?f ?n ?l ?x else Done ?y] =>
    destruct (if b then convert f n l x else Done y) eqn:Hconv;
    [|unfold convert in Hconv; destruct b; [by destruct (forallb _ _)|done]|done] end. cbn [mbind exec_bind].
  destruct (GetFrameTimestampHns _ _); [|done]. cbn [defined mbind exec_bind].
  match goal with |- context [ON_SUCCEEDED ?r ?a] => assert (ON_SUCCEEDED r a <> Fatal);
    [unfold ON_SUCCEEDED; destruct (SUCCEEDED r.1); [by destruct (c_sub _ _ _ _)|done]|by destruct (ON_SUCCEEDED r a)] end.
Qed.

Lemma Encode_frame_no_writer e f s : 1 <= fr_width f < 2 ^ 29 -> 1 <= fr_height f < 2 ^ 29 ->
  width_ (config s) = fr_width f -> height_ (config s) = fr_height f -> sinkWriter_ s = None ->
  Encode_frame e f false s = Undef.
Proof.
  intros Hw Hh Hwd Hht Hs. unfold Encode_frame. cbn [mbind exec_bind].
  assert (forall s, sinkWriter_ s = None -> Encode_tick e f s = Undef) as Htick.
  { intros x Hx. unfold Encode_tick. destruct (GetFrameTimestampHns _ _); [|done]. cbn. by rewrite Hx. }
  assert (forall s, sinkWriter_ s = None -> Encode_write e s = Undef) as Hwrite.
  { intros x Hx. unfold Encode_write. by rewrite Hx. }
  destruct (_ <=? 2); [|by apply Htick]. pose proof (FromVideoFrame_not_fatal e f s Hw Hh Hwd Hht) as Hnf.
  destruct (FromVideoFrame e f s) as [[b s1]| |] eqn:Hf; [|done|done].
  destruct (FromVideoFrame_setup e f s b s1 Hf) as (Hss & _). cbn [mbind exec_bind fst snd].
  rewrite <- (setup_writer _ _ Hss) in Hs. destruct b; [by apply Hwrite|by apply Htick].
Qed.

(** The reconfiguration reads rates that are not there, or ends in a state for the frame. *)
Lemma Encode_reconfigure_cases e f s : Inv s -> others_ok e -> ready e f s ->
  let resized := width_ (config s) <> fr_width f \/ height_ (config s) <> fr_height f in
  (Encode_reconfigure e f s = Undef /\ resized /\ next_target_bps_ (rates s) = None) \/
  (exists s1, Encode_reconfigure e f s = Done s1 /\ steady f s1 /\ (length (queue s1) <= 3)%nat /\
     ~ (resized /\ next_target_bps_ (rates s) = None)).
Proof.
  intros HI He Hready resized. pose proof Hready as [Hi Hf Ht Hs Hl Hp [Hsw Hsh] _ Hb Hfp [Hc Hlc]].
  destruct (frame_ok_small f Hf) as (Hfw & Hfh & _).
  unfold Encode_reconfigure. rewrite !int_of_uint32 by lia.
  set (res := negb (fr_width f =? width_ (config s)) || negb (fr_height f =? height_ (config s))).
  assert (exists t, (if rate_change_requested_ (rates s)
    then c_sub Int64 Int64 (TimeMillis e) (last_rate_change_time_rtc_ms (rates s)) else Some 0) = Some t) as [t ->].
  { destruct (rate_change_requested_ (rates s)); [|by eexists]. rewrite clock_sub by done. by eexists. }
  cbn [defined mbind exec_bind].
  assert (res = true <-> resized) as Hres.
  { unfold res, resized. destruct (Z.eqb_spec (fr_width f) (width_ (config s))), (Z.eqb_spec (fr_height f) (height_ (config s)));
      cbn; intuition congruence. }
  clearbody resized. destruct (res || _) eqn:Hchange.
  - destruct (next_target_bps_ (rates s)) as [bps|] eqn:Hbps.
    2: { left. split; [done|]. split; [|done]. apply Hres. destruct res; [done|]. cbn in Hchange.
         apply andb_true_iff in Hchange as [Hreq _]. pose proof (inv_rates s HI Hreq) as Hn. rewrite Hbps in Hn. by destruct Hn. }
    right. assert (is_Some (next_frame_rate_ (rates s))) as [fps Hfps] by (apply (inv_next s HI); by rewrite Hbps).
    rewrite Hfps. cbn [defined mbind exec_bind].
    destruct (ReconfigureSinkWriter_ok e f bps fps s He HI Hready (Hb _ eq_refl) (Hfp _ Hfps)) as (r & Hr & Hri & Hrf).
    rewrite !(static_cast_id Uint32) by (limits; lia). rewrite Hr. cbn [defined mbind exec_bind].
    destruct (ReconfigureSinkWriter_spec _ _ _ _ _ _ _ Hr HI) as (HIr & Hw & Hh & _).
    eexists. split; [reflexivity|]. split; [|split; [cbn; by destruct HIr|by intros [_ ?]]].
    constructor; cbn; try done; [by apply (inv_inited r.2 HIr)|..]; destruct Hrf as [-> | ->]; cbn; try done; lia.
  - right. apply orb_false_iff in Hchange as [Hres' _]. exists s. split; [done|].
    split; [|split; [by destruct HI|rewrite <- Hres, Hres'; by intros [? _]]].
    unfold res in Hres'. apply orb_false_iff in Hres' as [Hw%negb_false_iff Hh%negb_false_iff].
    apply Z.eqb_eq in Hw, Hh. constructor; try done. by apply (inv_inited s HI).
Qed.

(** ** Main results *)

(** C23: As long as an encoder that is in use is not initialized again without success
    ([allowed]): an initialized encoder has a media sink and a sink writer that was
    configured with the current size, rounded, and the current rates; at most three frames
    wait for their samples; rates are postponed only together. *)
Theorem Encoder_invariant s : reachable s ->
  (forall w, sinkWriter_ s = Some w -> configured (config s) w) /\
  (inited_ s = true -> mediaSink_ s = true /\ is_Some (sinkWriter_ s)) /\
  (length (queue s) <= 3)%nat /\
  (rate_change_requested_ (rates s) = true ->
     is_Some (next_target_bps_ (rates s)) /\ is_Some (next_frame_rate_ (rates s))).
Proof.
  intros [Hw Hi Hq Hr Hn]%encoder_reachable_inv. repeat (split; [done|]). intros H. split; [|apply Hn]; by apply Hr.
Qed.

(** C26: When [Encode] of an initialized encoder is undefined, with or without a key frame
    requested, in a state and for a frame whose numbers are in range and when no call of
    Media Foundation but [WriteSample] fails: exactly when the frame has another size and
    no rates were ever postponed, which are then read uninitialized; or when, after the
    reconfiguration, fewer than three frames wait and the copy of the frame leaves the
    frame or the buffer.  The assertions on the size of the frame always hold. *)
Theorem Encode_undefined_iff e f key s : reachable s -> others_ok e -> ready e f s ->
  Encode e f key s <> Fatal /\
  (Encode e f key s = Undef <->
   ((width_ (config s) <> fr_width f \/ height_ (config s) <> fr_height f) /\ next_target_bps_ (rates s) = None) \/
   (exists s1, Encode_reconfigure e f s = Done s1 /\ (length (queue s1) < 3)%nat /\ copies_within f = false)).
Proof.
  intros HI%encoder_reachable_inv He Hready. pose proof (ready_inited _ _ _ Hready) as Hi.
  unfold Encode. rewrite Hi. cbn [negb].
  destruct (Encode_reconfigure_cases e f s HI He Hready) as [(E & Hsize & Hnone)|(s1 & E & Hst & Hq & Hno)]; rewrite E.
  - split; [done|]. split; [by left|done].
  - cbn [mbind exec_bind]. pose proof (Encode_frame_cases e f key s1 He Hst Hq) as Hc.
    destruct (negb (copies_within f) && (length (queue s1) <? 3)%nat) eqn:Hb.
    + rewrite Hc. split; [done|]. split; [intros _|done]. right. exists s1.
      apply andb_true_iff in Hb as [Hb%negb_true_iff Hl%Nat.ltb_lt]. done.
    + destruct Hc as [s' ->]. split; [done|]. split; [done|]. intros [H|(s2 & [= <-] & Hl & Hcopy)]; [done|].
      rewrite Hcopy in Hb. cbn [negb andb] in Hb. apply Nat.ltb_ge in Hb. lia.
Qed.

(** [Encode] of a frame of the current size, without postponed rates: with fewer than
    three frames in the pipeline the frame is copied into a sample whose time counts
    from the first frame, its attributes are queued and the sample is written; with
    three of them only a tick is sent.  The result is OK either way, also when writing
    the sample fails. *)
Theorem Encode_functional e f s : reachable s -> others_ok e -> inited_ s = true ->
  rate_change_requested_ (rates s) = false -> steady f s -> copies_within f = true ->
  exists s', Encode e f false s = Done (WEBRTC_VIDEO_CODEC_OK, s') /\ same_setup s s' /\
    if Z.of_nat (length (queue s)) <? 3 then encoded_frame e f s s' else dropped_frame f s s'.
Proof.
  intros HI%encoder_reachable_inv He Hi Hr Hst Hfit.
  destruct (Encode_frame_steady e f s He Hst (inv_queue s HI) (or_introl Hfit)) as (s' & Hs' & Hspec). exists s'.
  unfold Encode. rewrite Hi, (Encode_reconfigure_steady e f s Hst Hr). cbn [negb mbind exec_bind]. by rewrite Hs'.
Qed.

(** Three frames whose samples never come back, as when writing them fails, which is
    ignored, stop the encoder for good: every later frame is replaced by a tick, and
    [Encode] still returns OK. *)
Theorem Encode_stall l rest s : length l = 3%nat -> queue s = [] -> running (length l + length rest) s ->
  frames_fit l s -> frames_fit rest s ->
  exists s3 s' ts, encode_run l s = Done s3 /\ encode_run rest s3 = Done s' /\
    calls s' = calls s3 ++ map SendStreamTick ts /\ length ts = length rest.
Proof.
  intros Hl Hq Hrun Hfl Hfr. destruct (run_fills l (length rest) s Hrun Hfl) as (s3 & H3 & Hrun3 & Hs3 & Hq3).
  rewrite Hl, Hq in Hq3. cbn [length] in Hq3. change (Nat.min 3 (3 + 0)) with 3%nat in Hq3. rewrite <- (Nat.add_0_r (length rest)) in Hrun3.
  destruct (run_ticks rest 0 s3 Hrun3 (frames_fit_setup rest s s3 Hs3 Hfr) Hq3) as (s' & ts & Hr' & _ & _ & Hc & Ht).
  by exists s3, s', ts.
Qed.

(** Rates that were postponed are applied later also when newer ones were set in
    between: a [SetRates] that takes effect at once does not cancel them, and the next
    frame after another five seconds brings them back. *)
Theorem SetRates_stale e e' f p s s' s'' b0 f0 : reachable s ->
  rate_change_requested_ (rates s) = true -> next_target_bps_ (rates s) = Some b0 -> next_frame_rate_ (rates s) = Some f0 ->
  0 <= TimeMillis e < 2 ^ 62 -> 0 <= last_rate_change_time_rtc_ms (rates s) < 2 ^ 62 ->
  last_rate_change_time_rtc_ms (rates s) + 5000 <= TimeMillis e ->
  SetRates e p s = Done s' ->
  0 <= TimeMillis e' < 2 ^ 62 -> 0 <= last_rate_change_time_rtc_ms (rates s') < 2 ^ 62 ->
  last_rate_change_time_rtc_ms (rates s') + 5000 < TimeMillis e' ->
  Encode_reconfigure e' f s' = Done s'' ->
  exists bu fu, varies (target_bps_ (config s')) b0 = Done bu /\ varies (frame_rate_ (config s')) f0 = Done fu /\
    target_bps_ (config s'') = (if bu then b0 else target_bps_ (config s')) /\
    frame_rate_ (config s'') = (if fu then f0 else frame_rate_ (config s')).
Proof.
  intros HI%encoder_reachable_inv Hreq Hb Hf Ht1 Ht2 Hwait Hset Ht3 Ht4 Hlater Henc.
  assert (rate_change_requested_ (rates s') = true /\ next_target_bps_ (rates s') = Some b0 /\
          next_frame_rate_ (rates s') = Some f0) as (Hreq' & Hb' & Hf').
  { unfold SetRates in Hset. destruct (sinkWriter_ s); [|by apply Done_inj in Hset as <-].
    destruct (f_eq _ _); [by apply Done_inj in Hset as <-|].
    rewrite clock_sub in Hset by done. cbn [defined mbind exec_bind] in Hset.
    rewrite clock_wait in Hset by lia. cbn [defined mbind exec_bind] in Hset.
    apply exec_bind_Done in Hset as (fps & _ & Hset). destruct (Z.ltb_spec 0 (5000 - (TimeMillis e - last_rate_change_time_rtc_ms (rates s)))); [lia|].
    apply exec_bind_Done in Hset as (r & Hr & Hset). apply Done_inj in Hset as <-.
    destruct (ReconfigureSinkWriter_spec _ _ _ _ _ _ _ Hr HI) as (_ & _ & _ & _ & -> & -> & ->). done. }
  unfold Encode_reconfigure in Henc. rewrite Hreq', Hb', Hf', clock_sub in Henc by done.
  cbn [defined mbind exec_bind] in Henc. unfold kMinIntervalBetweenRateChangesMs in Henc.
  destruct (Z.ltb_spec 5000 (TimeMillis e' - last_rate_change_time_rtc_ms (rates s'))); [|lia].
  rewrite orb_true_r in Henc. apply exec_bind_Done in Henc as (r & Hr & Henc). apply Done_inj in Henc as <-.
  exact (ReconfigureSinkWriter_rates _ _ _ _ _ _ _ Hr).
Qed.

(** When the sink writer cannot be made for a frame of another size, the failure is
    ignored and the frame goes to a null pointer. *)
Theorem Encode_writer_lost e f s bps : reachable s -> ready e f s ->
  width_ (config s) <> fr_width f \/ height_ (config s) <> fr_height f -> next_target_bps_ (rates s) = Some bps ->
  SUCCEEDED (result e MFCreateSinkWriterFromMediaSink) = false ->
  Encode e f false s = Undef.
Proof.
  intros HI%encoder_reachable_inv Hready Hsize Hbps Hfail.
  pose proof Hready as [Hi Hf Ht Hs Hl Hp [Hsw Hsh] [Hcb Hcf] Hb Hfp [Hc Hlc]].
  destruct (frame_ok_small f Hf) as (Hfw & Hfh & _). unfold Encode. rewrite Hi. cbn [negb].
  assert (is_Some (next_frame_rate_ (rates s))) as [fps Hfps] by (apply (inv_next s HI); by rewrite Hbps).
  unfold Encode_reconfigure. rewrite !int_of_uint32, Hbps, Hfps by lia.
  assert (negb (fr_width f =? width_ (config s)) || negb (fr_height f =? height_ (config s)) = true) as ->.
  { destruct (Z.eqb_spec (fr_width f) (width_ (config s))), (Z.eqb_spec (fr_height f) (height_ (config s)));
      cbn; intuition congruence. }
  assert (exists t, (if rate_change_requested_ (rates s)
    then c_sub Int64 Int64 (TimeMillis e) (last_rate_change_time_rtc_ms (rates s)) else Some 0) = Some t) as [t ->].
  { destruct (rate_change_requested_ (rates s)); [|by eexists]. rewrite clock_sub by done. by eexists. }
  cbn [defined mbind exec_bind orb]. rewrite !(static_cast_id Uint32) by (limits; lia).
  assert (ReconfigureSinkWriter e (fr_width f) (fr_height f) bps fps s <> Fatal /\
    forall r, ReconfigureSinkWriter e (fr_width f) (fr_height f) bps fps s = Done r -> sinkWriter_ r.2 = None) as [Hnf Hnone].
  { unfold ReconfigureSinkWriter.
    destruct (varies_Done (target_bps_ (config s)) bps Hcb (Hb _ Hbps)) as [bu ->].
    destruct (varies_Done (frame_rate_ (config s)) fps Hcf (Hfp _ Hfps)) as [fu ->]. cbn [mbind exec_bind].
    assert (negb (width_ (config s) =? fr_width f) || negb (height_ (config s) =? fr_height f) = true) as ->.
    { destruct (Z.eqb_spec (width_ (config s)) (fr_width f)), (Z.eqb_spec (height_ (config s)) (fr_height f));
        cbn; intuition congruence. }
    cbn [orb]. match goal with |- context [InitWriter e (set_callback ?b (ReleaseWriter ?x))] =>
      set (s1 := set_callback b (ReleaseWriter x)); assert (sinkWriter_ s1 = None) as Hs1 by exact (proj1 (ReleaseWriter_spec x)) end.
    split.
    - unfold InitWriter. by destruct (HeightToEncode _ _).
    - intros r H. apply exec_bind_Done in H as (r1 & Hr1 & <-%Done_inj).
      exact (InitWriter_no_writer e s1 r1 Hr1 Hs1 Hfail). }
  destruct (ReconfigureSinkWriter _ _ _ _ _ s) as [r| |] eqn:Hr; [|done|done]. cbn [mbind exec_bind].
  destruct (ReconfigureSinkWriter_spec _ _ _ _ _ _ _ Hr HI) as (_ & Hw & Hh & _).
  rewrite Encode_frame_no_writer; [done|done|done|exact Hw|exact Hh|exact (Hnone r eq_refl)].
Qed.

(** Media Foundation is started once, in the constructor, but the destructor shuts it
    down twice. *)
Theorem Encoder_shutdown_twice u : 
  let s := H264EncoderMFImpl_delete (H264EncoderMFImpl_new u) in calls s = [MFStartup; MFShutdown; MFShutdown].
Proof. reflexivity. Qed.

(** *** Encoded samples *)

Lemma pop_own {T} id (a : T) older newer : Forall (fun x => x.1 < id) older ->
  pop id (older ++ (id, a) :: newer) = (Some a, newer).
Proof.
  induction 1 as [|[k t] older Hk Holder IH]; cbn [app pop fst snd].
  - by rewrite Z.ltb_irrefl, Z.eqb_refl.
  - cbn in Hk. destruct (Z.ltb_spec id k); [lia|]. destruct (Z.eqb_spec k id); [lia|]. exact IH.
Qed.

(** C27: An encoded sample is handed over with the attributes of the frame it was made
    from, also when earlier frames were dropped, its fragments are its NAL units, and it
    is a key frame when it is marked as one or has an IDR slice: for a sample, not empty
    and below 4 GB, of units that are [scannable] (no access unit delimiter, and at least
    two bytes, or three behind a short start code), when a callback is registered and the
    calls on the sample succeed. *)
Theorem OnH264Encoded_image x s t a older newer l :
  size_t = Uint32 \/ size_t = Uint64 ->
  SUCCEEDED (GetTotalLength x) = true -> GetSampleTime x = (S_OK, t) -> SUCCEEDED (GetBufferByIndex x) = true ->
  SUCCEEDED (sample_Lock x) = true -> SUCCEEDED (sample_Unlock x) = true ->
  queue s = older ++ (static_cast Uint64 t, a) :: newer -> Forall (fun y => y.1 < static_cast Uint64 t) older ->
  sample_bytes x = byte_stream l -> Forall scannable l -> l <> [] -> Z.of_nat (length (byte_stream l)) < 2 ^ 32 ->
  - 2 ^ 31 < framePendingCount_ (frames s) < 2 ^ 31 -> encodedCompleteCallback_ s = true ->
  exists s' image, OnH264Encoded x s = Done s' /\ queue s' = newer /\ images s' = images s ++ [image] /\
    image_attributes image = a /\ image_bytes image = byte_stream l /\
    map (slice (byte_stream l)) (image_fragments image) = map unit_bytes l /\
    image_key image = (SUCCEEDED (sample_As x) && SUCCEEDED (GetCleanPoint x).1 && negb ((GetCleanPoint x).2 =? 0))
                      || existsb is_idr l.
Proof.
  intros Hsize Htl Htime Hbuf Hlock Hunlock Hq Hold Hbytes Hl Hne Hlen Hp Hcb.
  unfold OnH264Encoded. rewrite Htl, Htime. cbn [fst snd andb SUCCEEDED]. rewrite Hq, pop_own by done. cbn [fst snd].
  rewrite Hbuf. unfold FAILED. rewrite Hlock, Hunlock, Hbytes. cbn [negb].
  destruct (Z.eqb_spec (Z.of_nat (length (byte_stream l))) 0) as [E|E].
  { destruct l as [|n l]; [done|]. rewrite length_byte_stream_cons in E. pose proof (length_start_code (long n)).
    destruct (long n); lia. }
  destruct (scan_fragments_roundtrip size_t l (SUCCEEDED (sample_As x) && SUCCEEDED (GetCleanPoint x).1 &&
    negb ((GetCleanPoint x).2 =? 0)) Hsize Hl Hne Hlen) as (sc & -> & Hfr & Hkey). cbn [defined mbind exec_bind].
  cbn [frames set_queue set_frames framePendingCount_]. unfold c_sub.
  rewrite (c_binop_same Z.sub Int32) by (limits; lia). cbn [defined mbind exec_bind].
  cbn [encodedCompleteCallback_ set_pending set_queue set_frames]. rewrite Hcb.
  eexists _, _. split; [reflexivity|]. split; [reflexivity|]. split; [reflexivity|]. cbn.
  split; [done|]. split; [done|]. split; [exact Hfr|exact Hkey].
Qed.
End Encoder.

(** ** Examples *)

Module Example.

Definition all_ok (now : Z) : env := mkEnv (fun _ => S_OK) now now now.
(** [WriteSample] fails. *)
Definition write_fails (now : Z) : env :=
  mkEnv (fun c => match c with WriteSample => Other (-1) | _ => S_OK end) now now now.

Definition codec : VideoCodec :=
  mkCodec kVideoCodecH264 640 360 1000 2000 100 30 51 kRealtimeVideo true 3000.

Definition unset : settings := mkSettings 0 0 0 0 0 0 kRealtimeVideo false 0.
Definition new : H264EncoderMFImpl := H264EncoderMFImpl_new unset.

(** 640x360 at 30 frames and 1 megabit per second. *)
Definition initialized : H264EncoderMFImpl :=
  Eval vm_compute in match InitEncode kFrameHeightNoChange (all_ok 0) (Some codec) new with
                     | Done (_, s) => s | _ => new end.

Lemma initialized_reachable : reachable (build := release_x64) kFrameHeightNoChange Uint64 initialized.
Proof.
  apply (reachable_next _ _ new (all_ok 0) (Op_InitEncode (Some codec))); [constructor|by left; split|].
  vm_compute. reflexivity.
Qed.

(** A second [InitEncode] whose media sink cannot be made: the encoder stays initialized,
    without a sink and with the writer of the first; and when it is the writer that cannot
    be made, the next frame goes through a null pointer. *)
Definition failing (c : mf_call) : env :=
  mkEnv (fun d => match c, d with
                  | MakeAndInitialize_MediaSink, MakeAndInitialize_MediaSink
                  | MFCreateSinkWriterFromMediaSink, MFCreateSinkWriterFromMediaSink => Other (-1)
                  | _, _ => S_OK
                  end) 0 0 0.
Definition hd_codec : VideoCodec :=
  mkCodec kVideoCodecH264 1280 720 1000 2000 100 30 51 kRealtimeVideo true 3000.

Definition after_init (c : mf_call) : H264EncoderMFImpl :=
  match InitEncode kFrameHeightNoChange (failing c) (Some hd_codec) initialized with Done (_, s) => s | _ => new end.

Example InitEncode_twice :
  InitEncode kFrameHeightNoChange (failing MakeAndInitialize_MediaSink) (Some hd_codec) initialized =
    Done (Other (-1), after_init MakeAndInitialize_MediaSink) /\
  inited_ (after_init MakeAndInitialize_MediaSink) = true /\
  mediaSink_ (after_init MakeAndInitialize_MediaSink) = false /\
  sinkWriter_ (after_init MakeAndInitialize_MediaSink) = sinkWriter_ initialized /\
  width_ (config (after_init MakeAndInitialize_MediaSink)) = 1280 /\
  Encode (build := release_x64) kFrameHeightNoChange (all_ok 0) (plain_frame 1280 720 0) false
    (after_init MFCreateSinkWriterFromMediaSink) = Undef.
Proof. split_and!; vm_compute; reflexivity. Qed.

Lemma Encoder_invariant_witness :
  inited_ initialized = true /\
  exists w, sinkWriter_ initialized = Some w /\ configured kFrameHeightNoChange (config initialized) w.
Proof.
  split; [reflexivity|]. eexists. split; [reflexivity|].
  apply (proj1 (Encoder_invariant kFrameHeightNoChange Uint64 initialized initialized_reachable)). reflexivity.
Defined.

Definition frame (w h ts : Z) : VideoFrame := plain_frame w h ts.

Lemma frame_is_ok w h ts : 1 <= w <= 4096 -> 1 <= h <= 4096 -> frame_ok kFrameHeightNoChange (frame w h ts).
Proof. intros Hw Hh. destruct (plain_frame_ok 0 w h ltac:(lia) Hw Hh). by constructor. Qed.

Lemma all_others_ok now : others_ok (all_ok now).
Proof. done. Qed.
Lemma failing_others_ok now : others_ok (write_fails now).
Proof. by intros []. Qed.

Lemma ready_for_frame w h ts : 1 <= w <= 4096 -> 1 <= h <= 4096 -> 0 <= ts < 2 ^ 32 ->
  ready kFrameHeightNoChange (all_ok 0) (frame w h ts) initialized.
Proof. intros Hw Hh Hts. constructor; cbn; try done; try lia. by apply frame_is_ok. Qed.

Lemma Encode_undefined_iff_witness :
  Encode (build := release_x64) kFrameHeightNoChange (all_ok 0) (frame 320 180 0) false initialized = Undef.
Proof.
  apply (proj2 (Encode_undefined_iff kFrameHeightNoChange Uint64 (all_ok 0) (frame 320 180 0) false initialized
    initialized_reachable (all_others_ok 0) (ready_for_frame 320 180 0 ltac:(lia) ltac:(lia) ltac:(lia)))).
  left. split; [by left|reflexivity].
Defined.

(** A frame of odd height: the encoder is configured for it, and the chroma rows that
    libyuv writes do not fit the buffer. *)
Definition odd_codec : VideoCodec :=
  mkCodec kVideoCodecH264 640 361 1000 2000 100 30 51 kRealtimeVideo true 3000.

Definition odd_height : H264EncoderMFImpl :=
  match InitEncode kFrameHeightNoChange (all_ok 0) (Some odd_codec) new with Done (_, s) => s | _ => new end.

Example Encode_odd_height :
  InitEncode kFrameHeightNoChange (all_ok 0) (Some odd_codec) new = Done (S_OK, odd_height) /\
  Encode (build := release_x64) kFrameHeightNoChange (all_ok 0) (frame 640 361 0) false odd_height = Undef.
Proof. split; vm_compute; reflexivity. Qed.

Lemma steady_frame ts : 0 <= ts < 2 ^ 32 -> steady kFrameHeightNoChange (frame 640 360 ts) initialized.
Proof. intros Hts. constructor; cbn; done. Qed.

Lemma Encode_functional_witness :
  exists s', Encode (build := release_x64) kFrameHeightNoChange (write_fails 0) (frame 640 360 90000) false initialized =
    Done (WEBRTC_VIDEO_CODEC_OK, s') /\ length (_sampleAttributeQueue (frames s')) = 1%nat.
Proof.
  destruct (Encode_functional kFrameHeightNoChange Uint64 (write_fails 0) (frame 640 360 90000) initialized
    initialized_reachable (failing_others_ok 0) eq_refl eq_refl (steady_frame 90000 ltac:(lia)) eq_refl) as (s' & H & _ & Hs).
  exists s'. split; [exact H|]. destruct Hs as (g & copies & _ & _ & ->). reflexivity.
Defined.

Definition three : list (env * VideoFrame) :=
  [(write_fails 0, frame 640 360 0); (write_fails 33, frame 640 360 3000); (write_fails 66, frame 640 360 6000)].
Definition later : list (env * VideoFrame) := [(all_ok 100, frame 640 360 9000); (all_ok 133, frame 640 360 12000)].

Lemma fit_frame ts : 0 <= ts < 2 ^ 32 -> fits kFrameHeightNoChange (frame 640 360 ts) initialized.
Proof. intros Hts. constructor; cbn; done. Qed.

Lemma Encode_stall_witness :
  exists s3 s' ts, encode_run (build := release_x64) kFrameHeightNoChange three initialized = Done s3 /\
    encode_run (build := release_x64) kFrameHeightNoChange later s3 = Done s' /\
    calls s' = calls s3 ++ map SendStreamTick ts /\ length ts = 2%nat.
Proof.
  apply (Encode_stall kFrameHeightNoChange three later initialized eq_refl eq_refl).
  - constructor; cbn; done || lia.
  - repeat (apply Forall_cons_2; [split; [apply failing_others_ok|apply fit_frame; lia]|]). apply Forall_nil_2.
  - repeat (apply Forall_cons_2; [split; [apply all_others_ok|apply fit_frame; lia]|]). apply Forall_nil_2.
Defined.

(** 500 kilobits and 15 frames per second, too early; 2 megabits and 30 frames five
    seconds later; a frame after another five. *)
Definition postponed : H264EncoderMFImpl :=
  Eval vm_compute in match SetRates kFrameHeightNoChange (all_ok 1000) (mkRates 500 (of_int Double 15)) initialized with
                     | Done s => s | _ => new end.
Definition applied : H264EncoderMFImpl :=
  Eval vm_compute in match SetRates kFrameHeightNoChange (all_ok 6000) (mkRates 2000 (of_int Double 30)) postponed with
                     | Done s => s | _ => new end.
Definition reverted : H264EncoderMFImpl :=
  Eval vm_compute in match Encode_reconfigure kFrameHeightNoChange (all_ok 12000) (frame 640 360 0) applied with
                     | Done s => s | _ => new end.

Lemma postponed_reachable : reachable (build := release_x64) kFrameHeightNoChange Uint64 postponed.
Proof.
  apply (reachable_next _ _ initialized (all_ok 1000) (Op_SetRates (mkRates 500 (of_int Double 15))));
    [exact initialized_reachable|done|]. vm_compute. reflexivity.
Qed.

Lemma SetRates_stale_witness :
  target_bps_ (config applied) = 2000000 /\ target_bps_ (config reverted) = 500000.
Proof.
  split; [reflexivity|].
  assert (SetRates kFrameHeightNoChange (all_ok 6000) (mkRates 2000 (of_int Double 30)) postponed = Done applied) as H1
    by (vm_compute; reflexivity).
  assert (Encode_reconfigure kFrameHeightNoChange (all_ok 12000) (frame 640 360 0) applied = Done reverted) as H2
    by (vm_compute; reflexivity).
  destruct (SetRates_stale kFrameHeightNoChange Uint64 (all_ok 6000) (all_ok 12000) (frame 640 360 0) (mkRates 2000 (of_int Double 30))
    postponed applied reverted 500000 15 postponed_reachable eq_refl eq_refl eq_refl ltac:(cbn; lia) ltac:(cbn; lia)
    ltac:(cbn; lia) H1 ltac:(cbn; lia) ltac:(cbn; lia) ltac:(cbn; lia) H2) as (bu & fu & Hbu & _ & Ht & _).
  rewrite Ht. vm_compute in Hbu. injection Hbu as <-. reflexivity.
Defined.

(** A sample of a sequence and a picture parameter set and an IDR slice, for the second
    of two frames. *)
Definition attributes (ts : Z) : CachedFrameAttributes := mkAttributes ts 0 0 640 360.
Definition waiting : H264EncoderMFImpl :=
  Eval vm_compute in set_callback true
    (set_queue [(0, attributes 0); (333333, attributes 3000)] initialized).
Definition key_frame_sample : encoded_sample :=
  mkSample S_OK (S_OK, 333333) S_OK S_OK (byte_stream key_sample) S_OK S_OK (S_OK, 0).

Lemma OnH264Encoded_image_witness :
  exists s' image, OnH264Encoded Uint64 key_frame_sample waiting = Done s' /\ images s' = [image] /\
    image_attributes image = attributes 3000 /\ image_key image = true /\
    map (slice (byte_stream key_sample)) (image_fragments image) = map unit_bytes key_sample.
Proof.
  assert (Forall scannable key_sample) as Hl by (repeat constructor; cbn; try lia; intros b [= <-]; discriminate).
  destruct (OnH264Encoded_image Uint64 key_frame_sample waiting 333333 (attributes 3000) [(0, attributes 0)] [] key_sample)
    as (s' & image & Hs' & _ & Himages & Ha & _ & Hfr & Hkey); try reflexivity;
    [by right|repeat constructor|exact Hl|discriminate|cbn; lia|].
  exists s', image. repeat (split; [first [exact Hs' | exact Himages | exact Ha | exact Hkey]|]). exact Hfr.
Defined.
End Example.
