(* ===== verification/H264Decoder.v ===== *)
(** * H264Decoder: the H264 decoder of Media Foundation

    H264DecoderMFImpl of patches_for_WebRTC_org/m84/src/modules/video_coding/codecs/h264/
    win/decoder/h264_decoder_mf_impl.{h,cc}: set-up of the transform, the queue of
    encoded images into it, the loop that takes decoded frames out of it, and the life
    cycle.  Media Foundation is a parameter that answers a call by the calls made so
    far, so a reply may change from one call to the next; the buffer pool of WebRTC and
    libyuv answer in the same way.  The two loops of the code run as long as Media
    Foundation lets them: they take fuel, and [None] is a loop that still runs. *)

From S2P Require Import Prelude IntTypes HResult FloatTypes FloatRounding.
Open Scope Z_scope.

Definition WEBRTC_VIDEO_CODEC_OK : Z := 0.
Definition WEBRTC_VIDEO_CODEC_NO_OUTPUT : Z := 1.
Definition WEBRTC_VIDEO_CODEC_ERROR : Z := -1.
Definition WEBRTC_VIDEO_CODEC_ERR_PARAMETER : Z := -4.
Definition WEBRTC_VIDEO_CODEC_UNINITIALIZED : Z := -7.

Definition MFT_INPUT_STATUS_ACCEPT_DATA : Z := 1.

Inductive mf_message :=
  | MFT_MESSAGE_COMMAND_FLUSH | MFT_MESSAGE_COMMAND_DRAIN | MFT_MESSAGE_NOTIFY_BEGIN_STREAMING
  | MFT_MESSAGE_NOTIFY_START_OF_STREAM | MFT_MESSAGE_NOTIFY_END_OF_STREAM.

(** The conversion of a decoded frame: the luma plane is at the start of the source
    buffer, the chroma plane at [src_uv]; both have the stride [src_stride]. *)
Record nv12_copy := mkCopy { src_stride : Z; src_uv : Z; copy_width : Z; copy_height : Z }.

Inductive mf_call :=
  | MFStartup | MFShutdown
  | CoCreateInstance | GetAttributes | SetAVLowLatencyMode | SetAVDecVideoAcceleration
  | MFCreateMediaType | SetMajorType_Video | SetSubtype_H264 | SetPixelAspectRatio_1_1
  | SetInterlaceMode_MixedInterlaceOrProgressive | SetFrameRate (fps : Z) | SetFrameSize (width height : Z)
  | SetInputType
  | GetOutputAvailableType (type : Z) | GetGUID_Subtype | SetOutputType
  | GetInputStatus | ProcessMessage (m : mf_message)
  | GetOutputStatus | GetOutputStreamInfo | MFCreateMemoryBuffer (size : Z) | MFCreateSample | AddBuffer
  | ProcessOutput | ConvertToContiguousBuffer
  | GetOutputCurrentType | MFGetAttributeSize_FrameSize | GetBlob_MinimumDisplayAperture
  | Pool_CreateBuffer (width height : Z) | Pool_Release
  | GetCurrentLength | Lock | NV12ToI420 (c : nv12_copy) | CopyInto (bytes : list Z) | Unlock
  | SetCurrentLength (size : Z) | SetSampleTime (hns : Z) | As_Attributes
  | SetCleanPoint | SetDiscontinuity
  | ProcessInput (key : bool).                (* whether the image is a key frame *)

Inductive GUID := MFVideoFormat_NV12 | OtherFormat (id : Z).

#[export] Instance GUID_eq_dec : EqDecision GUID.
Proof. solve_decision. Defined.

(** The replies, by the calls made before. *)
Record media_foundation := mkMF {
  result : list mf_call -> mf_call -> HRESULT;
  dword : list mf_call -> mf_call -> Z;       (* the number a call writes *)
  subtype : list mf_call -> GUID;
  frame_size : list mf_call -> Z * Z;         (* UINT32 *)
  aperture : list mf_call -> Z * Z;           (* LONG *)
  pool_has_buffer : list mf_call -> bool
}.

(** The settings the decoder looks at. *)
Record VideoCodec := mkCodec { vc_width : Z; vc_height : Z; vc_maxFramerate : Z }.

Record EncodedImage := mkImage {
  data_is_null : bool; data : list Z;         (* [size()] is the length *)
  Timestamp : Z;                              (* uint32_t *)
  ntp_time_ms_ : Z;                           (* int64_t *)
  is_key : bool; _completeFrame : bool
}.

(** A frame given to the callback; without a copy its buffer holds what it held. *)
Record DecodedFrame := mkDecoded {
  df_timestamp : Z; df_ntp_time_ms : Z; df_width : Z; df_height : Z; df_copy : option nv12_copy
}.

(** The members; a pointer is null or not.  [calls] and [decoded] record what was done. *)
Record H264DecoderMFImpl := mkDecoder {
  decoder_ : bool;
  inited_ : bool;
  require_keyframe_ : bool;
  first_frame_rtp_ : Z;
  width_ : option Z;
  height_ : option Z;
  decode_complete_callback_ : bool;
  calls : list mf_call;
  decoded : list DecodedFrame
}.

Abbreviation decoder := H264DecoderMFImpl.

(** ** Assignments *)

Definition set_decoder (b : bool) (s : decoder) : decoder :=
  mkDecoder b (inited_ s) (require_keyframe_ s) (first_frame_rtp_ s) (width_ s) (height_ s)
    (decode_complete_callback_ s) (calls s) (decoded s).
Definition set_inited (b : bool) (s : decoder) : decoder :=
  mkDecoder (decoder_ s) b (require_keyframe_ s) (first_frame_rtp_ s) (width_ s) (height_ s)
    (decode_complete_callback_ s) (calls s) (decoded s).
Definition set_require_keyframe (b : bool) (s : decoder) : decoder :=
  mkDecoder (decoder_ s) (inited_ s) b (first_frame_rtp_ s) (width_ s) (height_ s)
    (decode_complete_callback_ s) (calls s) (decoded s).
Definition set_first_frame_rtp (t : Z) (s : decoder) : decoder :=
  mkDecoder (decoder_ s) (inited_ s) (require_keyframe_ s) t (width_ s) (height_ s)
    (decode_complete_callback_ s) (calls s) (decoded s).
Definition set_size (w h : option Z) (s : decoder) : decoder :=
  mkDecoder (decoder_ s) (inited_ s) (require_keyframe_ s) (first_frame_rtp_ s) w h
    (decode_complete_callback_ s) (calls s) (decoded s).
Definition set_callback (b : bool) (s : decoder) : decoder :=
  mkDecoder (decoder_ s) (inited_ s) (require_keyframe_ s) (first_frame_rtp_ s) (width_ s) (height_ s)
    b (calls s) (decoded s).
Definition log (c : mf_call) (s : decoder) : decoder :=
  mkDecoder (decoder_ s) (inited_ s) (require_keyframe_ s) (first_frame_rtp_ s) (width_ s) (height_ s)
    (decode_complete_callback_ s) (calls s ++ [c]) (decoded s).
Definition add_decoded (f : DecodedFrame) (s : decoder) : decoder :=
  mkDecoder (decoder_ s) (inited_ s) (require_keyframe_ s) (first_frame_rtp_ s) (width_ s) (height_ s)
    (decode_complete_callback_ s) (calls s) (decoded s ++ [f]).

(** ** The sample time of an image

    In units of 100 nanoseconds, from the 90 kHz timestamps of the image and of the
    first one; the literals [90.0] and [0.5f]. *)

Definition literal_90 : spec_float := of_int Double 90.
Definition literal_half : spec_float := S754_finite false 4503599627370496 (-53).

Definition sample_time_ms (timestamp first_frame_rtp : Z) : option Z :=
  d ← c_sub Uint64 Uint32 (static_cast Uint64 timestamp) first_frame_rtp;
  float_to_int Int64 (f_add Double (f_div Double (of_int Double d) literal_90) literal_half).

Definition sample_time_hns (timestamp first_frame_rtp : Z) : option Z :=
  ms ← sample_time_ms timestamp first_frame_rtp;
  c_mul Int64 Int32 ms 10000.

Section Decoder.
Context (w : media_foundation).

Definition call (c : mf_call) (s : decoder) : HRESULT * decoder := (result w (calls s) c, log c s).

(** A sequence of [ON_SUCCEEDED] calls. *)
Definition run_calls (l : list mf_call) (r : HRESULT * decoder) : HRESULT * decoder :=
  fold_left (fun r c => if_succeeded r (call c)) l r.

(** ** Life cycle *)

Definition H264DecoderMFImpl_new : decoder :=
  (call MFStartup (mkDecoder false false true 0 None None false [] [])).2.

Definition Release (s : decoder) : Z * decoder :=
  let s := log Pool_Release (set_inited false s) in
  (WEBRTC_VIDEO_CODEC_OK,
   if decoder_ s
   then set_decoder false
          (run_calls [ProcessMessage MFT_MESSAGE_NOTIFY_END_OF_STREAM; ProcessMessage MFT_MESSAGE_COMMAND_DRAIN;
                      ProcessMessage MFT_MESSAGE_COMMAND_FLUSH] (S_OK, s)).2
   else s).

Definition H264DecoderMFImpl_delete (s : decoder) : decoder := (call MFShutdown (Release s).2).2.

Definition RegisterDecodeCompleteCallback (callback : bool) (s : decoder) : Z * decoder :=
  (WEBRTC_VIDEO_CODEC_OK, set_callback callback s).

(** ** Media types *)

(** From the index [type] on: the result and [*type_found]. *)
Fixpoint ConfigureOutputMediaType (fuel : nat) (type : Z) (media_type : GUID) (s : decoder)
  : exec (option (HRESULT * bool) * decoder) :=
  match fuel with
  | O => Done (None, s)
  | S fuel =>
      if decoder_ s then
        let r := call (GetOutputAvailableType type) s in
        if decide (r.1 = MF_E_NO_MORE_TYPES) then Done (Some (S_OK, false), r.2)
        else
          let r' := if_succeeded r (call GetGUID_Subtype) in
          if FAILED r'.1 then Done (Some (r'.1, false), r'.2)
          else if decide (subtype w (calls r.2) = media_type) then
            let r := call SetOutputType r'.2 in Done (Some (r.1, SUCCEEDED r.1), r.2)
          else
            next ← defined (c_add Int32 Int32 type 1);
            ConfigureOutputMediaType fuel next media_type r'.2
      else Undef
  end.

(** The calls of CreateInputMediaType. *)
Definition CreateInputMediaType (img_width img_height frame_rate : option Z) : list mf_call :=
  [MFCreateMediaType; SetMajorType_Video; SetSubtype_H264; SetPixelAspectRatio_1_1;
   SetInterlaceMode_MixedInterlaceOrProgressive] ++
  match frame_rate with Some fps => [SetFrameRate fps] | None => [] end ++
  match img_width, img_height with Some x, Some y => [SetFrameSize x y] | _, _ => [] end.

Definition positive_or_none (z : Z) : option Z := if 0 <? z then Some z else None.

(** [GetInputStatus] and what follows it. *)
Definition InitDecode_start (s : decoder) : Z * decoder :=
  let r := call GetInputStatus s in
  if SUCCEEDED r.1 && negb (dword w (calls s) GetInputStatus =? MFT_INPUT_STATUS_ACCEPT_DATA)
  then (WEBRTC_VIDEO_CODEC_ERROR, r.2)
  else
    let r := run_calls [ProcessMessage MFT_MESSAGE_COMMAND_FLUSH; ProcessMessage MFT_MESSAGE_NOTIFY_BEGIN_STREAMING;
                        ProcessMessage MFT_MESSAGE_NOTIFY_START_OF_STREAM] r in
    (if SUCCEEDED r.1 then WEBRTC_VIDEO_CODEC_OK else WEBRTC_VIDEO_CODEC_ERROR, set_inited true r.2).

(** The attributes are tried and their results dropped. *)
Definition try_attributes (s : decoder) : decoder :=
  let r := call GetAttributes s in
  if SUCCEEDED r.1 then (call SetAVDecVideoAcceleration (call SetAVLowLatencyMode r.2).2).2 else r.2.

(** A decoder of an earlier call is released first. *)
Definition InitDecode (fuel : nat) (codec_settings : VideoCodec) (s : decoder) : exec (option Z * decoder) :=
  let width := positive_or_none (vc_width codec_settings) in
  let height := positive_or_none (vc_height codec_settings) in
  let r := call CoCreateInstance (set_size width height s) in
  let s := set_decoder (SUCCEEDED r.1) r.2 in
  if FAILED r.1 then Done (Some WEBRTC_VIDEO_CODEC_ERROR, s)
  else
    let r := run_calls (CreateInputMediaType width height (positive_or_none (vc_maxFramerate codec_settings)) ++
                        [SetInputType]) (S_OK, try_attributes s) in
    if FAILED r.1 then Done (Some WEBRTC_VIDEO_CODEC_ERROR, r.2)
    else
      c ← ConfigureOutputMediaType fuel 0 MFVideoFormat_NV12 r.2;
      Done (match c.1 with
            | None => (None, c.2)
            | Some (hr, suitable_type_found) =>
                if FAILED hr || negb suitable_type_found then (Some WEBRTC_VIDEO_CODEC_ERROR, c.2)
                else let i := InitDecode_start c.2 in (Some i.1, i.2)
            end).

(** ** Decoded frames *)

(** The copy of the decoded frame, from a locked buffer; [buffer_size] is the frame
    size of the output type. *)
Definition convert (buffer_size : Z * Z) (width height : Z) : option nv12_copy :=
  let stride := static_cast Int32 buffer_size.1 in
  offset ← c_mul Int32 Uint32 stride buffer_size.2;
  Some (mkCopy stride offset (static_cast Int32 width) (static_cast Int32 height)).

(** From the output type to the size of the frame: the size of the buffer, when Media
    Foundation gives it, and that of the visible area.  The pointer to the type is used
    without a look at the result. *)
Definition query_size (r : HRESULT * decoder) : exec (HRESULT * option (Z * Z) * decoder) :=
  let t := call GetOutputCurrentType r.2 in
  let q := if_succeeded t (call MFGetAttributeSize_FrameSize) in
  if SUCCEEDED t.1 then
    let buffer_size := if SUCCEEDED q.1 then Some (frame_size w (calls t.2)) else None in
    let a := call GetBlob_MinimumDisplayAperture q.2 in
    size ← defined (if SUCCEEDED a.1
                    then let area := aperture w (calls q.2) in
                         Some (static_cast Uint32 area.1, static_cast Uint32 area.2)
                    else buffer_size);
    Done (q.1, buffer_size, set_size (Some size.1) (Some size.2) a.2)
  else Undef.

(** The data of the frame go into the buffer of the pool. *)
Definition copy_data (buffer_size : option (Z * Z)) (width height : Z) (r : HRESULT * decoder)
  : exec (HRESULT * option nv12_copy * decoder) :=
  let length := dword w (calls r.2) GetCurrentLength in
  let r := if_succeeded r (call GetCurrentLength) in
  if FAILED r.1 then Done (r.1, None, r.2)
  else if 0 <? length then
    let r := call Lock r.2 in
    if FAILED r.1 then Done (r.1, None, r.2)
    else
      b ← defined buffer_size;
      c ← defined (convert b width height);
      let r := call Unlock (log (NV12ToI420 c) r.2) in
      Done (r.1, Some c, r.2)
  else Done (r.1, None, r.2).

(** One round of the loop: its [return], if it leaves the function. *)
Definition FlushFrames_round (rtp_timestamp ntp_time_ms : Z) (s : decoder) : exec (option HRESULT * decoder) :=
  if decoder_ s then
    let r := call GetOutputStatus s in
    if FAILED r.1 then Done (Some r.1, r.2)
    else
      let cbSize := dword w (calls r.2) GetOutputStreamInfo in
      let r := run_calls [GetOutputStreamInfo; MFCreateMemoryBuffer cbSize; MFCreateSample; AddBuffer;
                          ProcessOutput; ConvertToContiguousBuffer] r in
      if FAILED r.1 then Done (Some r.1, r.2)
      else
        '(hr, buffer_size, s) ← query_size r;
        width ← defined (width_ s);
        height ← defined (height_ s);
        let has_buffer := pool_has_buffer w (calls s) in
        let s := log (Pool_CreateBuffer (static_cast Int32 width) (static_cast Int32 height)) s in
        if has_buffer then
          '(hr, copy, s) ← copy_data buffer_size width height (hr, s);
          if FAILED hr then Done (Some hr, s)
          else
            Done (None,
                  if decode_complete_callback_ s
                  then add_decoded (mkDecoded rtp_timestamp (static_cast Int64 ntp_time_ms)
                                      (static_cast Int32 width) (static_cast Int32 height) copy) s
                  else s)
        else Done (Some (Other WEBRTC_VIDEO_CODEC_NO_OUTPUT), s)
  else Undef.

Fixpoint FlushFrames (fuel : nat) (rtp_timestamp ntp_time_ms : Z) (s : decoder) : exec (option HRESULT * decoder) :=
  match fuel with
  | O => Done (None, s)
  | S fuel =>
      r ← FlushFrames_round rtp_timestamp ntp_time_ms s;
      match r.1 with
      | Some hr => Done (Some hr, r.2)
      | None => FlushFrames fuel rtp_timestamp ntp_time_ms r.2
      end
  end.

(** ** Encoded images *)

(** The time of the sample; the first image with a timestamp other than zero is the
    first frame. *)
Definition next_sample_time (input_image : EncodedImage) (s : decoder) : option (Z * decoder) :=
  if first_frame_rtp_ s =? 0 then Some (0, set_first_frame_rtp (Timestamp input_image) s)
  else hns ← sample_time_hns (Timestamp input_image) (first_frame_rtp_ s); Some (hns, s).

(** The attributes are set on success and their results dropped. *)
Definition set_attributes (input_image : EncodedImage) (missing_frames : bool) (s : decoder) : decoder :=
  let r := call As_Attributes s in
  if FAILED r.1 then r.2
  else
    let s := if is_key input_image && _completeFrame input_image then (call SetCleanPoint r.2).2 else r.2 in
    if missing_frames then (call SetDiscontinuity s).2 else s.

(** The sample of an image, up to its attributes. *)
Definition make_sample (input_image : EncodedImage) (missing_frames : bool) (s : decoder)
  : exec (HRESULT * decoder) :=
  let size := Z.of_nat (length (data input_image)) in
  let buffer_size := static_cast Uint32 size in
  let r := run_calls [MFCreateMemoryBuffer buffer_size; Lock] (S_OK, s) in
  if FAILED r.1 then Done r
  else if buffer_size <? size then Undef
  else
    let r := run_calls [Unlock; SetCurrentLength buffer_size; MFCreateSample; AddBuffer]
               (r.1, log (CopyInto (data input_image)) r.2) in
    if FAILED r.1 then Done r
    else
      '(hns, s) ← defined (next_sample_time input_image r.2);
      let r := call (SetSampleTime hns) s in
      if FAILED r.1 then Done r
      else Done (S_OK, set_attributes input_image missing_frames r.2).

Definition EnqueueFrame (input_image : EncodedImage) (missing_frames : bool) (s : decoder)
  : exec (HRESULT * decoder) :=
  r ← make_sample input_image missing_frames s;
  ON_SUCCEEDED r (fun s => if decoder_ s then Done (call (ProcessInput (is_key input_image)) s) else Undef).

(** The first part of [Decode]: the image is in the transform, or the result. *)
Definition Decode_enqueue (input_image : EncodedImage) (missing_frames : bool) (s : decoder)
  : exec (HRESULT * decoder) :=
  r ← EnqueueFrame input_image missing_frames s;
  match r.1 with
  | MF_E_NOTACCEPTING =>
      if decoder_ r.2 then
        let r := call (ProcessMessage MFT_MESSAGE_COMMAND_FLUSH) r.2 in
        if is_key input_image then ON_SUCCEEDED r (EnqueueFrame input_image missing_frames)
        else Done (MF_E_NOTACCEPTING, set_require_keyframe true r.2)
      else Undef
  | _ => Done r
  end.

(** The second part: the frames that are ready. *)
Definition flush_result (hr : HRESULT) : Z :=
  if SUCCEEDED hr || bool_decide (hr = MF_E_TRANSFORM_NEED_MORE_INPUT)
  then WEBRTC_VIDEO_CODEC_OK else WEBRTC_VIDEO_CODEC_ERROR.

Definition Decode_flush (fuel : nat) (input_image : EncodedImage) (s : decoder) : exec (option Z * decoder) :=
  let rtp := Timestamp input_image in
  let ntp := static_cast Uint64 (ntp_time_ms_ input_image) in
  r ← FlushFrames fuel rtp ntp s;
  if decide (r.1 = Some MF_E_TRANSFORM_STREAM_CHANGE) then
    c ← ConfigureOutputMediaType fuel 0 MFVideoFormat_NV12 r.2;
    match c.1 with
    | None => Done (None, c.2)
    | Some (hr, suitable_type_found) =>
        if FAILED hr || negb suitable_type_found then Done (Some WEBRTC_VIDEO_CODEC_ERROR, c.2)
        else r ← FlushFrames fuel rtp ntp (set_size None None c.2); Done (option_map flush_result r.1, r.2)
    end
  else Done (option_map flush_result r.1, r.2).

Definition Decode (fuel : nat) (input_image : EncodedImage) (missing_frames : bool) (s : decoder)
  : exec (option Z * decoder) :=
  if negb (inited_ s) then Done (Some WEBRTC_VIDEO_CODEC_UNINITIALIZED, s)
  else if negb (decode_complete_callback_ s) then Done (Some WEBRTC_VIDEO_CODEC_UNINITIALIZED, s)
  else if data_is_null input_image && (0 <? Z.of_nat (length (data input_image)))
  then Done (Some WEBRTC_VIDEO_CODEC_ERR_PARAMETER, s)
  else if require_keyframe_ s && negb (is_key input_image && _completeFrame input_image)
  then Done (Some WEBRTC_VIDEO_CODEC_ERROR, s)
  else
    r ← Decode_enqueue input_image missing_frames (set_require_keyframe false s);
    if FAILED r.1 then Done (Some WEBRTC_VIDEO_CODEC_ERROR, r.2)
    else Decode_flush fuel input_image r.2.
End Decoder.

(** ** Sample times *)

Lemma literal_90_val : literal_90 = S754_finite false 6333186975989760 (-46).
Proof. reflexivity. Qed.

(** The unit of the value of doubles as a multiple of [2 ^ -11]. *)
Lemma unit_split : 2 ^ unit_exp = 2048 * 2 ^ 1063.
Proof. reflexivity. Qed.

Lemma half_val : double_val literal_half = Some (1024 * 2 ^ 1063).
Proof. by vm_compute. Qed.

Lemma scale_le a b P : 0 < P -> a <= b -> a * (P * P) <= b * (P * P).
Proof. intros. apply Z.mul_le_mono_nonneg_r; nia. Qed.
Lemma scale_lt a b P : 0 < P -> a < b -> a * (P * P) < b * (P * P).
Proof. intros. apply Z.mul_lt_mono_pos_r; nia. Qed.

(** The quotient of the timestamp difference, in the unit [P / 2 ^ 1063] of doubles. *)
Lemma ticks_between (P d lo hi : Z) : 2 ^ 1063 = P -> 0 < d < 2 ^ 32 ->
  lo * 90 <= d * 2048 -> d * 2048 < hi * 90 ->
  exists V, double_val (f_div Double (of_int Double d) literal_90) = Some V /\ lo * P <= V <= hi * P.
Proof.
  intros HP Hd Hlo Hhi. rewrite literal_90_val.
  pose proof (f_div_rounds _ _ 6333186975989760 (-46) (of_int_exact d ltac:(lia))) as HR. cbv zeta in HR.
  replace (Z.pos 6333186975989760 * 2 ^ (-46 + unit_exp)) with (90 * (2048 * P)) in HR by (rewrite <- HP; reflexivity).
  rewrite unit_split, HP in HR.
  assert (0 < P) as HP0 by (rewrite <- HP; lia).
  assert (2 ^ 1116 = 2 ^ 53 * P /\ 2 ^ 2097 = 2 ^ 1034 * P) as [E1 E2] by (rewrite <- HP; split; reflexivity).
  assert (d * (2048 * P) * (2048 * P) = d * 4194304 * (P * P)) as E by ring.
  replace (90 * (2048 * P) * 2 ^ 2097) with (90 * 2048 * 2 ^ 1034 * (P * P)) in HR by (rewrite E2; ring).
  rewrite E in HR. rewrite <- HP.
  apply (rounds_between (d * 4194304 * (P * P)) (90 * (2048 * P)) _ 1116 1063); try lia.
  apply HR; [lia|unfold unit_exp; lia|]. apply scale_lt; lia.
Qed.

(** The sum with a half. *)
Lemma half_between P x X b lo hi : 2 ^ 1063 = P -> double_val x = Some X -> 0 < X ->
  0 <= b <= 1116 -> X + 1024 * P < 2 ^ b -> lo * P <= X + 1024 * P -> X + 1024 * P < hi * P ->
  exists V, double_val (f_add Double x literal_half) = Some V /\ lo * P <= V <= hi * P.
Proof.
  intros HP Hx HX Hb Hmax Hlo Hhi. rewrite <- HP in *.
  apply (rounds_between (X + 1024 * 2 ^ 1063) 1 _ b 1063); try lia.
  apply (f_add_rounds x literal_half X _ Hx half_val); try lia.
  apply (Z.lt_le_trans _ (2 ^ b)); [done|]. apply Z.pow_le_mono_r; lia.
Qed.

(** Rounding to the nearest integer by adding a half survives the two roundings. *)
Lemma milliseconds_nearest d : 0 < d < 2 ^ 32 ->
  truncate (f_add Double (f_div Double (of_int Double d) literal_90) literal_half) = Some ((d + 45) / 90).
Proof.
  intros Hd. set (q := (d + 45) / 90).
  assert (90 * q <= d + 45 < 90 * q + 90) as Hq
    by (pose proof (Z.div_mod (d + 45) 90); pose proof (Z.mod_pos_bound (d + 45) 90); lia).
  clearbody q. remember (2 ^ 1063) as P eqn:HP. symmetry in HP.
  assert (0 < P) as HP0 by (rewrite <- HP; lia).
  destruct (ticks_between P d (Z.max 16 ((2 * q - 1) * 1024)) ((2 * q + 1) * 1024 - 2) HP Hd) as (V1 & HV1 & HB1);
    [lia..|].
  assert (2 ^ 1116 = 2 ^ 53 * P) as E1 by (rewrite <- HP; reflexivity).
  destruct (half_between P _ V1 1116 (q * 2048) ((q + 1) * 2048 - 1) HP HV1) as (V2 & HV2 & HB2);
    rewrite ?E1; try nia.
  rewrite (truncate_val _ _ HV2), unit_split, HP. f_equal. symmetry. apply (Z.div_unique_pos _ _ _ (V2 - q * 2048 * P)); nia.
Qed.

(** A difference that wrapped. *)
Lemma milliseconds_huge d : 2 ^ 63 <= d < 2 ^ 64 -> exists t,
  truncate (f_add Double (f_div Double (of_int Double d) literal_90) literal_half) = Some t /\ 2 ^ 56 <= t <= 2 ^ 59.
Proof.
  intros Hd. assert (2 ^ 1137 = 2 ^ 63 * 2 ^ unit_exp) as E0 by reflexivity.
  destruct (rounds_between (d * 2 ^ unit_exp) 1 _ 1138 1137 1 2 (of_int_rounds d ltac:(lia))) as (X & HX & HBX); try lia.
  rewrite literal_90_val.
  pose proof (f_div_rounds _ X 6333186975989760 (-46) HX) as HR. cbv zeta in HR.
  replace (Z.pos 6333186975989760 * 2 ^ (-46 + unit_exp)) with (90 * 2 ^ unit_exp) in HR by reflexivity.
  assert (0 < 2 ^ unit_exp) as HU by (unfold unit_exp; lia).
  assert (2 ^ 1130 = 2 ^ 56 * 2 ^ unit_exp /\ 2 ^ 1132 = 2 ^ 58 * 2 ^ unit_exp) as [E1 E2] by (split; reflexivity).
  assert (2 ^ 1133 = 2 ^ 59 * 2 ^ unit_exp /\ 2 ^ 2097 = 2 ^ 1023 * 2 ^ unit_exp) as [E3 E4] by (split; reflexivity).
  assert (1024 * 2 ^ 1063 * 2 = 2 ^ unit_exp) as E5 by reflexivity.
  destruct (rounds_between (X * 2 ^ unit_exp) (90 * 2 ^ unit_exp)
    (f_div Double (of_int Double d) (S754_finite false 6333186975989760 (-46))) 1132 1130 1 4) as (V1 & HV1 & HB1);
    [apply HR; [lia|unfold unit_exp; lia|rewrite E4; nia]|lia|lia|rewrite E2; nia|rewrite E1; nia|rewrite E1; nia|].
  pose proof (f_add_rounds _ _ V1 _ HV1 half_val ltac:(lia) ltac:(lia) ltac:(lia)) as HR2.
  destruct (rounds_between _ _ _ 1133 1130 1 8 HR2) as (V2 & HV2 & HB2); try lia.
  rewrite (truncate_val _ _ HV2). eexists. split; [done|]. rewrite E1 in HB2. split.
  - apply Z.div_le_lower_bound; lia.
  - apply Z.div_le_upper_bound; lia.
Qed.

Lemma int64_from_double x z : truncate x = Some z -> in_range Int64 z = true -> float_to_int Int64 x = Some z.
Proof. intros E Hz. unfold float_to_int. by rewrite E; cbn; rewrite Hz. Qed.

Lemma uint64_difference t f : InRange Uint32 t -> InRange Uint32 f ->
  c_sub Uint64 Uint32 (static_cast Uint64 t) f = Some (if f <=? t then t - f else t - f + 2 ^ 64).
Proof.
  intros Ht Hf. unfold c_sub, c_binop. cbn [arith promote]. limits.
  rewrite !(static_cast_id Uint64) by (rewrite ?static_cast_id; limits; lia).
  rewrite arith_result_unsigned by done. f_equal. destruct (Z.leb_spec f t).
  - apply static_cast_id. limits. lia.
  - apply (static_cast_unique _ _ _ 1); limits; lia.
Qed.

(** The difference of the timestamps in milliseconds, rounded to the nearest, in units
    of 100 nanoseconds.  A timestamp below that of the first frame overflows. *)
Lemma sample_time_value t f : InRange Uint32 t -> InRange Uint32 f ->
  sample_time_hns t f = if f <=? t then Some ((t - f + 45) / 90 * 10000) else None.
Proof.
  intros Ht Hf. unfold sample_time_hns, sample_time_ms. rewrite (uint64_difference t f Ht Hf). cbn [mbind option_bind].
  limits. destruct (Z.leb_spec f t).
  - assert (0 <= (t - f + 45) / 90 < 2 ^ 26) as Hq by (split; [apply Z.div_pos|apply Z.div_lt_upper_bound]; lia).
    rewrite (int64_from_double _ ((t - f + 45) / 90)).
    + apply (c_binop_same Z.mul Int64); limits; lia.
    + destruct (Z.eq_dec (t - f) 0) as [->|]; [by vm_compute|]. apply milliseconds_nearest. lia.
    + apply in_range_spec. limits. lia.
  - destruct (milliseconds_huge (t - f + 18446744073709551616)) as (m & E & Hm); [lia|].
    rewrite (int64_from_double _ m E) by (apply in_range_spec; limits; lia).
    cbn [mbind option_bind]. unfold c_mul, c_binop. cbn [arith promote].
    rewrite !static_cast_id by (limits; lia). unfold arith_result. cbn [is_signed].
    destruct (in_range Int64 (m * 10000)) eqn:E'; [|done].
    apply in_range_spec in E'. limits. lia.
Qed.

(** The sample time of an image, computed in doubles, is the time since the first frame
    in milliseconds, rounded to the nearest, in units of 100 nanoseconds.  An image with
    a timestamp below that of the first frame, as after the timestamps wrapped around,
    overflows a signed integer. *)
Theorem next_sample_time_spec img s : InRange Uint32 (Timestamp img) -> InRange Uint32 (first_frame_rtp_ s) ->
  next_sample_time img s =
  if first_frame_rtp_ s =? 0 then Some (0, set_first_frame_rtp (Timestamp img) s)
  else if first_frame_rtp_ s <=? Timestamp img
  then Some ((Timestamp img - first_frame_rtp_ s + 45) / 90 * 10000, s)
  else None.
Proof.
  intros Ht Hf. unfold next_sample_time. rewrite sample_time_value by done.
  destruct (first_frame_rtp_ s =? 0); [done|]. by destruct (first_frame_rtp_ s <=? Timestamp img).
Qed.

Lemma next_sample_time_spec_witness :
  let s := mkDecoder true true false 90000 None None true [] [] in
  next_sample_time (mkImage false [] 93000 0 false true) s = Some (330000, s).
Proof.
  apply (next_sample_time_spec (mkImage false [] 93000 0 false true) (mkDecoder true true false 90000 None None true [] [])).
  all: split; discriminate.
Defined.
