(* ===== verification/H264DecoderRuns.v ===== *)
(** * H264DecoderRuns: what the H264 decoder does with images

    The theorems on [H264Decoder]: what a call appends to the calls into Media
    Foundation and to the decoded frames, that [Decode] returns, that a key frame comes
    first, and that the copy of a frame stays within its buffer. *)

From S2P Require Import Prelude IntTypes HResult FloatTypes H264Geometry H264Decoder.
Open Scope Z_scope.

(** ** Lists that grow *)

Definition extends {A} (P : A -> Prop) (l l' : list A) : Prop := exists k, l' = l ++ k /\ Forall P k.

#[export] Instance extends_PreOrder {A} (P : A -> Prop) : PreOrder (extends P).
Proof.
  split.
  - intros l. exists []. by rewrite app_nil_r.
  - intros l1 l2 l3 (k & -> & H) (k' & -> & H'). exists (k ++ k'). by rewrite app_assoc, Forall_app.
Qed.

Lemma extends_snoc {A} (P : A -> Prop) l x : P x -> extends P l (l ++ [x]).
Proof. intros H. exists [x]. split; [done|]. by constructor. Qed.

(** ** Steps of the decoder

    [steps P Q s s']: calls with [P] and frames with [Q] were added, and the members
    that control the decoder are the same. *)

Definition control (s : decoder) : bool * bool * bool * bool :=
  (decoder_ s, inited_ s, require_keyframe_ s, decode_complete_callback_ s).

Definition steps (P : mf_call -> Prop) (Q : DecodedFrame -> Prop) (s s' : decoder) : Prop :=
  extends P (calls s) (calls s') /\ extends Q (decoded s) (decoded s') /\ control s' = control s.

#[export] Instance steps_PreOrder P Q : PreOrder (steps P Q).
Proof.
  split.
  - intros s. by split_and!.
  - intros s1 s2 s3 (C1 & D1 & E1) (C2 & D2 & E2). split_and!; [by etrans|by etrans|by rewrite E2].
Qed.

Section Steps.
Context (w : media_foundation) (P : mf_call -> Prop) (Q : DecodedFrame -> Prop).

Lemma log_steps c s : P c -> steps P Q s (log c s).
Proof. intros H. split_and!; [by apply extends_snoc|done|done]. Qed.

Lemma call_steps c s : P c -> steps P Q s (call w c s).2.
Proof. apply log_steps. Qed.

Lemma if_succeeded_steps c r : P c -> steps P Q r.2 (if_succeeded r (call w c)).2.
Proof. intros H. unfold if_succeeded. destruct (SUCCEEDED _); [by apply call_steps|done]. Qed.

Lemma run_calls_steps l r : Forall P l -> steps P Q r.2 (run_calls w l r).2.
Proof.
  intros H. revert r. induction H as [|c l Hc _ IH]; intros r; [done|].
  etrans; [by apply (if_succeeded_steps c)|apply IH].
Qed.

Lemma set_size_steps x y s : steps P Q s (set_size x y s).
Proof. by split_and!. Qed.

Lemma add_decoded_steps f s : Q f -> steps P Q s (add_decoded f s).
Proof. intros H. split_and!; [done|by apply extends_snoc|done]. Qed.
End Steps.

(** A call that gives the decoder no image and takes none away. *)
Definition quiet (c : mf_call) : Prop :=
  match c with ProcessInput _ | ProcessMessage MFT_MESSAGE_COMMAND_FLUSH => False | _ => True end.

Create HintDb decoder discriminated.
#[export] Hint Resolve log_steps call_steps if_succeeded_steps run_calls_steps set_size_steps add_decoded_steps
  : decoder.
#[export] Hint Constructors Forall : decoder.
#[export] Hint Extern 1 (quiet _) => exact I : decoder.

Section Flush.
Context (w : media_foundation).

(** The stamp of the image on a decoded frame. *)
Definition stamped (rtp ntp : Z) (f : DecodedFrame) : Prop :=
  df_timestamp f = rtp /\ df_ntp_time_ms f = static_cast Int64 ntp.

Lemma query_size_steps Q r hr b s' : query_size w r = Done (hr, b, s') -> steps quiet Q r.2 s'.
Proof.
  unfold query_size. set (t := call w GetOutputCurrentType r.2). set (q := if_succeeded t _).
  destruct (SUCCEEDED t.1); [|done]. intros H.
  apply exec_bind_Done in H as (size & _ & H). apply Done_inj in H. injection H as _ _ <-.
  assert (steps quiet Q r.2 t.2) as H1 by by apply call_steps.
  assert (steps quiet Q t.2 q.2) as H2 by by apply if_succeeded_steps.
  rewrite H1, H2. etrans; [|apply set_size_steps]. auto with decoder.
Qed.

Lemma copy_data_steps Q b x y r hr c s' : copy_data w b x y r = Done (hr, c, s') -> steps quiet Q r.2 s'.
Proof.
  unfold copy_data. set (q := if_succeeded r (call w GetCurrentLength)).
  assert (steps quiet Q r.2 q.2) as H1 by by apply if_succeeded_steps.
  destruct (FAILED q.1); [intros [= _ _ <-]; done|]. destruct (0 <? _); [|intros [= _ _ <-]; done].
  destruct (FAILED _); [intros [= _ _ <-]; etrans; eauto with decoder|]. intros H.
  apply exec_bind_Done in H as (z & _ & H). apply exec_bind_Done in H as (z' & _ & H).
  apply Done_inj in H. injection H as _ _ <-.
  rewrite H1. etrans; [apply (call_steps w quiet Q Lock q.2 I)|].
  etrans; [apply (log_steps quiet Q (NV12ToI420 z')); done|]. auto with decoder.
Qed.

Lemma decoder_calls_cons c l r : run_calls w (c :: l) r = run_calls w l (if_succeeded r (call w c)).
Proof. reflexivity. Qed.

(** A sequence of calls that succeeds was made to the end, and every call succeeded. *)
Lemma run_calls_succeeded l r : SUCCEEDED (run_calls w l r).1 = true ->
  calls (run_calls w l r).2 = calls r.2 ++ l /\ SUCCEEDED r.1 = true /\
  forall a c b, l = a ++ c :: b -> SUCCEEDED (result w (calls r.2 ++ a) c) = true.
Proof.
  revert r. induction l as [|c l IH]; intros r.
  - intros H. cbn. rewrite app_nil_r. split_and!; [done|done|]. by intros [|? ?] c b.
  - rewrite decoder_calls_cons. intros H. apply IH in H as (-> & H1 & H2). unfold if_succeeded in *.
    destruct (SUCCEEDED r.1) eqn:Er; [|congruence]. cbn [call fst snd log calls] in *.
    split_and!; [by rewrite <- app_assoc|done|].
    intros [|a0 a] c' b [= -> ->]; [by rewrite app_nil_r|].
    pose proof (H2 a c' b eq_refl) as H3. by rewrite <- app_assoc in H3.
Qed.

Definition is_output (c : mf_call) : bool := match c with ProcessOutput => true | _ => false end.
Definition outputs (l : list mf_call) : nat := length (List.filter is_output l).

Lemma outputs_app l l' : outputs (l ++ l') = (outputs l + outputs l')%nat.
Proof. unfold outputs. by rewrite List.filter_app, length_app. Qed.

(** After the calls [h] and without another image, no more than [n] frames come out. *)
Definition drains (n : nat) (h : list mf_call) : Prop :=
  forall l, Forall quiet l -> (n <= outputs l)%nat -> SUCCEEDED (result w (h ++ l) ProcessOutput) = false.

Lemma drains_step n h l : Forall quiet l -> (1 <= outputs l)%nat -> drains (S n) h -> drains n (h ++ l).
Proof.
  intros Hl Ho H k Hk Hn. rewrite <- app_assoc. apply H; [by apply Forall_app|]. rewrite outputs_app. lia.
Qed.

(** A round of the loop: its steps, and an output when the loop goes on. *)
Definition gave_output (s s' : decoder) : Prop :=
  exists l k, calls s' = calls s ++ l ++ ProcessOutput :: k /\ Forall quiet (l ++ k) /\
    SUCCEEDED (result w (calls s ++ l) ProcessOutput) = true.

Lemma gave_output_steps Q s1 s2 s3 : gave_output s1 s2 -> steps quiet Q s2 s3 -> gave_output s1 s3.
Proof.
  intros (l & k & E & H & Hs) ((k' & E' & Hk') & _). exists l, (k ++ k'). split_and!; [|by rewrite app_assoc, Forall_app|done].
  rewrite E', E. by rewrite <- !app_assoc.
Qed.

Lemma gave_output_drains n s s' : gave_output s s' -> drains n (calls s) ->
  exists m, n = S m /\ drains m (calls s').
Proof.
  intros (l & k & E & H & Hs) Hd. rewrite Forall_app in H. destruct H as [Hl Hk]. destruct n as [|m].
  - rewrite (Hd l Hl) in Hs by lia. done.
  - exists m. split; [done|]. rewrite E. apply drains_step; [|rewrite outputs_app; cbn; lia|done].
    apply Forall_app. split; [done|]. by constructor.
Qed.

Lemma FlushFrames_round_steps rtp ntp s o s' : FlushFrames_round w rtp ntp s = Done (o, s') ->
  steps quiet (stamped rtp ntp) s s' /\ (o = None -> gave_output s s').
Proof.
  unfold FlushFrames_round. destruct (decoder_ s); [|done].
  set (r := call w GetOutputStatus s). assert (steps quiet (stamped rtp ntp) s r.2) as H1 by by apply call_steps.
  destruct (FAILED r.1); [intros [= <- <-]; split; [done|congruence]|].
  set (size := dword w (calls r.2) GetOutputStreamInfo). set (l := [_; _; _; _; _; _]).
  assert (steps quiet (stamped rtp ntp) r.2 (run_calls w l r).2) as H2 by (apply run_calls_steps; repeat constructor).
  pose proof (run_calls_succeeded l r) as Hr.
  destruct (FAILED (run_calls w l r).1) eqn:Ef; [intros [= <- <-]; split; [by etrans|congruence]|].
  apply negb_false_iff in Ef. apply Hr in Ef as (Ec & _ & Es). clear Hr. intros H.
  assert (gave_output s (run_calls w l r).2) as Hg.
  { exists (GetOutputStatus :: take 4 l), [ConvertToContiguousBuffer]. split_and!; [|repeat constructor|].
    - rewrite Ec. unfold r. cbn. by rewrite <- app_assoc.
    - pose proof (Es (take 4 l) ProcessOutput [ConvertToContiguousBuffer] eq_refl) as E.
      unfold r in E. cbn [call log calls snd] in E. by rewrite <- app_assoc in E. }
  apply exec_bind_Done in H as ([[hr b] s1] & Hq & H). apply query_size_steps with (Q := stamped rtp ntp) in Hq.
  apply exec_bind_Done in H as (x & _ & H). apply exec_bind_Done in H as (y & _ & H).
  set (s2 := log (Pool_CreateBuffer _ _) s1) in H.
  assert (steps quiet (stamped rtp ntp) s1 s2) as H3 by by apply log_steps.
  assert (steps quiet (stamped rtp ntp) (run_calls w l r).2 s2) as H4 by by etrans.
  assert (forall s3, steps quiet (stamped rtp ntp) s2 s3 -> steps quiet (stamped rtp ntp) s s3 /\ gave_output s s3) as Hend.
  { intros s3 H5. split; [by rewrite H1, H2, H4|]. eapply gave_output_steps; [exact Hg|]. by rewrite H4. }
  destruct (pool_has_buffer _ _); [|apply Done_inj in H; injection H as <- <-; by split; [apply Hend|]].
  apply exec_bind_Done in H as ([[hr' c] s3] & Hc & H). apply copy_data_steps with (Q := stamped rtp ntp) in Hc.
  destruct (FAILED hr'); apply Done_inj in H; injection H as <- <-; [by split; [apply Hend|]|].
  split; intros; apply Hend; (etrans; [exact Hc|]); (destruct (decode_complete_callback_ _); [|done]).
  all: apply add_decoded_steps; done.
Qed.

Lemma FlushFrames_steps fuel rtp ntp s o s' : FlushFrames w fuel rtp ntp s = Done (o, s') ->
  steps quiet (stamped rtp ntp) s s'.
Proof.
  revert s. induction fuel as [|fuel IH]; intros s; cbn [FlushFrames]; [by intros [= _ <-]|]. intros H.
  apply exec_bind_Done in H as ([o1 s1] & Hr & H). apply FlushFrames_round_steps in Hr as [H1 _]. cbn [fst snd] in H.
  destruct o1; [injection H as _ <-; done|]. etrans; [exact H1|]. by apply IH.
Qed.

Lemma ConfigureOutputMediaType_steps fuel t g s o s' Q :
  ConfigureOutputMediaType w fuel t g s = Done (o, s') -> steps quiet Q s s'.
Proof.
  revert t s. induction fuel as [|fuel IH]; intros t s; cbn [ConfigureOutputMediaType]; [by intros [= _ <-]|].
  destruct (decoder_ s); [|done]. set (r := call w (GetOutputAvailableType t) s).
  assert (steps quiet Q s r.2) as H1 by by apply call_steps.
  set (r' := if_succeeded r (call w GetGUID_Subtype)).
  assert (steps quiet Q s r'.2) as H2 by (rewrite H1; by apply if_succeeded_steps).
  intros H. assert (s' = r.2 \/ s' = r'.2 \/ s' = (call w SetOutputType r'.2).2 \/
    exists next, ConfigureOutputMediaType w fuel next g r'.2 = Done (o, s')) as [-> | [-> | [-> | [next Hn] ] ] ].
  { repeat match type of H with
      | (if ?b then _ else _) = _ => destruct b
      | Done _ = _ => injection H as _ <-; tauto
      end.
    apply exec_bind_Done in H as (next & _ & H). eauto 10. }
  - done.
  - done.
  - etrans; [exact H2|]. by apply call_steps.
  - etrans; [exact H2|]. by eapply IH.
Qed.

(** ** Images *)

Lemma Done_pair {A B} (r : A * B) a b : Done r = Done (a, b) -> a = r.1 /\ b = r.2.
Proof. by intros [= ->]. Qed.

(** Calls that make the sample of an image. *)
Definition prepares (c : mf_call) : bool :=
  match c with
  | MFCreateMemoryBuffer _ | Lock | Unlock | SetCurrentLength _ | MFCreateSample | AddBuffer | SetSampleTime _ => true
  | _ => false
  end.
Definition samples_available : Prop := forall h c, prepares c = true -> SUCCEEDED (result w h c) = true.

Lemma run_calls_prepare l r : samples_available -> Forall (fun c => prepares c = true) l -> SUCCEEDED r.1 = true ->
  SUCCEEDED (run_calls w l r).1 = true.
Proof.
  intros Hw H. revert r. induction H as [|c l Hc _ IH]; intros r Hr; [done|].
  rewrite decoder_calls_cons. apply IH. unfold if_succeeded. rewrite Hr. by apply Hw.
Qed.

Lemma set_attributes_steps Q img m s : steps quiet Q s (set_attributes w img m s).
Proof.
  unfold set_attributes. set (r := call w As_Attributes s).
  assert (steps quiet Q s r.2) as H by by apply call_steps.
  destruct (FAILED r.1); [done|]. etrans; [exact H|].
  destruct (is_key img && _completeFrame img), m; try done; try by apply call_steps.
  etrans; by apply call_steps.
Qed.

(** The first frame is the same or the image. *)
Definition first_of (img : EncodedImage) (s s' : decoder) : Prop :=
  first_frame_rtp_ s' = first_frame_rtp_ s \/
  (first_frame_rtp_ s = 0 /\ first_frame_rtp_ s' = Timestamp img).

Lemma run_calls_first l r : first_frame_rtp_ (run_calls w l r).2 = first_frame_rtp_ r.2.
Proof.
  revert r. induction l as [|c l IH]; intros r; [done|]. rewrite decoder_calls_cons, IH.
  unfold if_succeeded. by destruct (SUCCEEDED r.1).
Qed.

Lemma set_attributes_first img m s : first_frame_rtp_ (set_attributes w img m s) = first_frame_rtp_ s.
Proof. unfold set_attributes. by destruct (FAILED _), (is_key img && _completeFrame img), m. Qed.

Lemma next_sample_time_steps P Q img s t s' : next_sample_time img s = Some (t, s') ->
  steps P Q s s' /\ first_of img s s'.
Proof.
  unfold next_sample_time, first_of. destruct (Z.eqb_spec (first_frame_rtp_ s) 0) as [E|].
  - intros [= <- <-]. split; [by split_and!|]. right. by cbn.
  - destruct (sample_time_hns _ _); [|done]. intros [= <- <-]. split; [done|by left].
Qed.

Lemma make_sample_steps Q img m s hr s' : make_sample w img m s = Done (hr, s') ->
  steps quiet Q s s' /\ first_of img s s' /\ (samples_available -> SUCCEEDED hr = true).
Proof.
  unfold make_sample. set (size := Z.of_nat _). set (n := static_cast Uint32 size).
  set (l1 := [MFCreateMemoryBuffer n; Lock]). set (l2 := [_; _; _; _]). set (r1 := run_calls w l1 (S_OK, s)).
  assert (steps quiet Q s r1.2 /\ first_frame_rtp_ r1.2 = first_frame_rtp_ s) as [H1 F1]
    by (split; [apply (run_calls_steps w quiet Q l1 (S_OK, s)); repeat constructor|apply run_calls_first]).
  assert (samples_available -> FAILED r1.1 = false) as A1.
  { intros H. apply negb_false_iff, run_calls_prepare; [done|repeat constructor|done]. }
  destruct (FAILED r1.1) eqn:F; [intros [-> ->]%Done_pair; split_and!; [done|by left|]; intros H; by apply A1 in H|].
  destruct (n <? size); [done|]. set (s2 := log _ r1.2).
  assert (steps quiet Q s s2) as H2 by (rewrite H1; by apply log_steps). change (first_frame_rtp_ r1.2) with (first_frame_rtp_ s2) in F1.
  set (r2 := run_calls w l2 (r1.1, s2)).
  assert (steps quiet Q s r2.2 /\ first_frame_rtp_ r2.2 = first_frame_rtp_ s) as [H3 F3].
  { split; [|by unfold r2; rewrite run_calls_first]. rewrite H2. apply (run_calls_steps w quiet Q l2 (r1.1, s2)). repeat constructor. }
  assert (samples_available -> FAILED r2.1 = false) as A2.
  { intros H. apply negb_false_iff, run_calls_prepare; [done|repeat constructor|]. by apply negb_false_iff. }
  destruct (FAILED r2.1) eqn:F2; [intros [-> ->]%Done_pair; split_and!; [done|by left|]; intros H; by apply A2 in H|].
  intros H. apply exec_bind_Done in H as ([t s3] & Ht & H).
  assert (next_sample_time img r2.2 = Some (t, s3)) as Ht' by (destruct (next_sample_time _ _) as [p|]; [by injection Ht as ->|done]).
  apply (next_sample_time_steps quiet Q) in Ht' as [H4 F4]. unfold first_of in F4. rewrite F3 in F4.
  set (r3 := call w (SetSampleTime t) s3) in H.
  assert (steps quiet Q s r3.2) as H5 by (rewrite H3, H4; by apply call_steps).
  destruct (FAILED r3.1) eqn:E3; apply Done_inj in H; injection H as <- <-.
  - split_and!; [done|exact F4|]. intros H. by apply (H (calls s3) (SetSampleTime t)).
  - split_and!; [by rewrite H5; apply set_attributes_steps|by unfold first_of; rewrite set_attributes_first|done].
Qed.

(** The image was offered to the decoder, or only part of its sample was made. *)
Lemma EnqueueFrame_steps Q img m s hr s' : EnqueueFrame w img m s = Done (hr, s') -> exists s1 hr1,
  steps quiet Q s s1 /\ first_of img s s1 /\ (samples_available -> SUCCEEDED hr1 = true) /\
  (hr, s') = if SUCCEEDED hr1 then call w (ProcessInput (is_key img)) s1 else (hr1, s1).
Proof.
  unfold EnqueueFrame. intros H. apply exec_bind_Done in H as ([hr1 s1] & H1 & H).
  apply (make_sample_steps Q) in H1 as (Hs & Hf & Hw). exists s1, hr1. split_and!; try done.
  unfold ON_SUCCEEDED in H. cbn [fst snd] in H. destruct (SUCCEEDED hr1); [|by apply Done_inj in H].
  destruct (decoder_ s1); [by apply Done_inj in H|done].
Qed.

Lemma Decode_enqueue_cases img m s hr s' : Decode_enqueue w img m s = Done (hr, s') ->
  EnqueueFrame w img m s = Done (hr, s') \/
  exists s1, EnqueueFrame w img m s = Done (MF_E_NOTACCEPTING, s1) /\
  let f := call w (ProcessMessage MFT_MESSAGE_COMMAND_FLUSH) s1 in
  if is_key img
  then (SUCCEEDED f.1 = true /\ EnqueueFrame w img m f.2 = Done (hr, s')) \/ (SUCCEEDED f.1 = false /\ (hr, s') = f)
  else hr = MF_E_NOTACCEPTING /\ s' = set_require_keyframe true f.2.
Proof.
  unfold Decode_enqueue. intros H. apply exec_bind_Done in H as ([hr1 s1] & H1 & H). cbn [fst snd] in H.
  destruct (decide (hr1 = MF_E_NOTACCEPTING)) as [->|Hn].
  - right. exists s1. split; [done|]. destruct (decoder_ s1); [|done]. cbv zeta. destruct (is_key img).
    + unfold ON_SUCCEEDED in H. destruct (SUCCEEDED _); [by left|]. right. split; [done|]. by apply Done_inj in H.
    + by apply Done_pair in H as [-> ->].
  - left. destruct hr1; try (by apply Done_pair in H as [-> ->]). done.
Qed.
End Flush.

(** ** Decoded frames *)

Section Frames.
Context (w : media_foundation).

Lemma EnqueueFrame_decoded img m s hr s' : EnqueueFrame w img m s = Done (hr, s') -> decoded s' = decoded s.
Proof.
  intros H. apply (EnqueueFrame_steps w (fun _ => False)) in H as (s1 & hr1 & (_ & (d & Ed & Hd) & _) & _ & _ & E).
  assert (d = []) as -> by (destruct d; [done|by inversion Hd]). rewrite app_nil_r in Ed.
  destruct (SUCCEEDED hr1); injection E as _ ->; [|done]. exact Ed.
Qed.

Lemma Decode_enqueue_decoded img m s hr s' : Decode_enqueue w img m s = Done (hr, s') -> decoded s' = decoded s.
Proof.
  intros [H|(s1 & H1 & H)]%Decode_enqueue_cases; [by eapply EnqueueFrame_decoded|].
  apply EnqueueFrame_decoded in H1. cbv zeta in H. destruct (is_key img).
  - destruct H as [[_ H]|[_ E]]; [|injection E as _ ->; exact H1].
    apply EnqueueFrame_decoded in H. by rewrite H.
  - destruct H as [_ ->]. exact H1.
Qed.

Lemma Decode_flush_steps fuel img s o s' : Decode_flush w fuel img s = Done (o, s') ->
  steps quiet (stamped (Timestamp img) (static_cast Uint64 (ntp_time_ms_ img))) s s'.
Proof.
  unfold Decode_flush. intros H. apply exec_bind_Done in H as ([o1 s1] & H1 & H). apply FlushFrames_steps in H1.
  cbn [fst snd] in H.
  destruct (decide (o1 = Some MF_E_TRANSFORM_STREAM_CHANGE)); [|by apply Done_pair in H as [_ ->] ].
  apply exec_bind_Done in H as ([o2 s2] & H2 & H). cbn [fst snd] in H.
  eapply ConfigureOutputMediaType_steps in H2. rewrite H1, H2.
  destruct o2 as [ [hr found]|]; [|by apply Done_pair in H as [_ ->] ].
  destruct (FAILED hr || negb found); [by apply Done_pair in H as [_ ->]|].
  apply exec_bind_Done in H as ([o3 s3] & H3 & H). apply FlushFrames_steps in H3.
  transitivity (set_size None None s2); [apply set_size_steps|]. rewrite H3. by apply Done_pair in H as [_ ->].
Qed.

(** A frame with the stamps of an image. *)
Definition of_image (img : EncodedImage) (f : DecodedFrame) : Prop :=
  df_timestamp f = Timestamp img /\ df_ntp_time_ms f = ntp_time_ms_ img.

Lemma ntp_round_trip t : InRange Int64 t -> static_cast Int64 (static_cast Uint64 t) = t.
Proof. intros H. rewrite static_cast_trans by done. by apply static_cast_id. Qed.

(** Every frame that comes out of a call of [Decode] has the timestamp and the NTP time
    of the image of that call, whichever image it was encoded in. *)
Theorem Decode_frames fuel img m s o s' : InRange Int64 (ntp_time_ms_ img) ->
  Decode w fuel img m s = Done (o, s') ->
  exists l, decoded s' = decoded s ++ l /\
    Forall (of_image img) l.
Proof.
  intros Hn. unfold Decode.
  assert (exists l, decoded s = decoded s ++ l /\
    Forall (of_image img) l) as H0
    by (exists []; by rewrite app_nil_r).
  destruct (negb (inited_ s)); [by intros [_ ->]%Done_pair|].
  destruct (negb (decode_complete_callback_ s)); [by intros [_ ->]%Done_pair|].
  destruct (data_is_null img && _); [by intros [_ ->]%Done_pair|].
  destruct (require_keyframe_ s && _); [by intros [_ ->]%Done_pair|].
  intros H. apply exec_bind_Done in H as ([hr s1] & H1 & H). apply Decode_enqueue_decoded in H1.
  change (decoded (set_require_keyframe false s)) with (decoded s) in H1. cbn [fst snd] in H.
  destruct (FAILED hr); [apply Done_pair in H as [_ ->]; cbn [snd]; by rewrite H1|].
  apply Decode_flush_steps in H as (_ & (l & E & Hl) & _). exists l. rewrite E, H1. split; [done|].
  revert Hl. apply Forall_impl. intros f [E1 E2]. split; [done|]. rewrite E2. by apply ntp_round_trip.
Qed.
End Frames.

(** ** Key frames first

    What the decoder needs: after it was flushed, and at the beginning, the first image
    it is offered is a key frame.  [gate need l] follows the calls [l]; it ends with
    whether a key frame is needed then, [None] when another image was offered instead. *)

Fixpoint gate (need : bool) (l : list mf_call) : option bool :=
  match l with
  | [] => Some need
  | ProcessInput key :: l => if need && negb key then None else gate false l
  | ProcessMessage MFT_MESSAGE_COMMAND_FLUSH :: l => gate true l
  | _ :: l => gate need l
  end.

Definition keyframe_first (l : list mf_call) : bool := match gate true l with Some _ => true | None => false end.

Lemma gate_app n l l' : gate n (l ++ l') = n' ← gate n l; gate n' l'.
Proof.
  revert n. induction l as [|c l IH]; intros n; [done|].
  destruct c; cbn [app gate]; try apply IH; [destruct m; apply IH|]. by destruct (n && negb key).
Qed.

Lemma gate_quiet n l : Forall quiet l -> gate n l = Some n.
Proof.
  induction 1 as [|c l Hc _ IH]; [done|].
  destruct c; try done. by destruct m.
Qed.

Lemma gate_steps Q n s s' : steps quiet Q s s' -> gate n (calls s') = gate n (calls s).
Proof. intros ((l & -> & Hl) & _). rewrite gate_app. destruct (gate n (calls s)); [by apply gate_quiet|done]. Qed.

(** Setting up and tearing down: flushes, but no image. *)
Definition no_input (c : mf_call) : Prop := match c with ProcessInput _ => False | _ => True end.

Definition sets_up (s s' : decoder) : Prop :=
  extends no_input (calls s) (calls s') /\ require_keyframe_ s' = require_keyframe_ s.

#[export] Instance sets_up_PreOrder : PreOrder sets_up.
Proof.
  split; [by intros s; split|]. intros s1 s2 s3 [C1 E1] [C2 E2]. split; [by etrans|by rewrite E2].
Qed.

Lemma gate_sets_up n s s' : sets_up s s' -> gate n (calls s) <> None -> gate n (calls s') <> None.
Proof.
  intros [(l & -> & Hl) _] H. rewrite gate_app. destruct (gate n (calls s)) as [n'|]; [|done].
  cbn [mbind option_bind]. clear H n. revert n'. induction Hl as [|c l Hc _ IH]; intros n'; [done|].
  destruct c; cbn [gate]; try apply IH; [destruct m; apply IH|done].
Qed.

Section Gate.
Context (w : media_foundation).

Lemma steps_sets_up P Q s s' : (forall c, P c -> no_input c) -> steps P Q s s' -> sets_up s s'.
Proof.
  intros HP ((l & E & Hl) & _ & Hc). split; [|by injection Hc]. exists l. split; [done|].
  revert Hl. by apply Forall_impl.
Qed.

Lemma quiet_no_input c : quiet c -> no_input c.
Proof. by destruct c. Qed.

Lemma run_calls_sets_up l r : Forall no_input l -> sets_up r.2 (run_calls w l r).2.
Proof. intros H. apply (steps_sets_up no_input (fun _ => True)); [done|]. by apply run_calls_steps. Qed.

Lemma call_sets_up c s : no_input c -> sets_up s (call w c s).2.
Proof. intros H. apply (steps_sets_up no_input (fun _ => True)); [done|]. by apply call_steps. Qed.

Lemma InitDecode_start_sets_up s : sets_up s (InitDecode_start w s).2.
Proof.
  unfold InitDecode_start. set (r := call w GetInputStatus s).
  assert (sets_up s r.2) as H by by apply call_sets_up.
  destruct (SUCCEEDED r.1 && _); [done|]. cbn [snd]. rewrite H.
  etrans; [|by split]. apply run_calls_sets_up. repeat constructor.
Qed.

Lemma try_attributes_sets_up s : sets_up s (try_attributes w s).
Proof.
  unfold try_attributes. set (r := call w GetAttributes s). assert (sets_up s r.2) as H by by apply call_sets_up.
  destruct (SUCCEEDED r.1); [|done]. etrans; [exact H|]. etrans; by apply call_sets_up.
Qed.

Lemma CreateInputMediaType_no_input x y z : Forall no_input (CreateInputMediaType x y z ++ [SetInputType]).
Proof. destruct x, y, z; repeat constructor. Qed.

Lemma InitDecode_sets_up fuel c s o s' : InitDecode w fuel c s = Done (o, s') -> sets_up s s'.
Proof.
  unfold InitDecode. set (s1 := set_size _ _ s). set (r := call w CoCreateInstance s1).
  set (s2 := set_decoder (SUCCEEDED r.1) r.2).
  assert (sets_up s s2) as H by (transitivity s1; [by split|]; transitivity r.2; [by apply call_sets_up|by split]).
  destruct (FAILED r.1); [by intros [_ ->]%Done_pair|].
  set (r2 := run_calls w _ _).
  assert (sets_up s r2.2) as H2.
  { rewrite H, (try_attributes_sets_up s2). apply run_calls_sets_up, CreateInputMediaType_no_input. }
  destruct (FAILED r2.1); [by intros [_ ->]%Done_pair|]. intros E.
  apply exec_bind_Done in E as ([o3 s3] & E3 & E).
  apply (ConfigureOutputMediaType_steps w _ _ _ _ _ _ (fun _ => True)), (steps_sets_up _ _ _ _ quiet_no_input) in E3.
  cbn [fst snd] in E. rewrite H2, E3.
  destruct o3 as [[hr found]|]; [|by apply Done_pair in E as [_ ->]].
  destruct (FAILED hr || negb found); apply Done_pair in E as [_ ->]; [done|]. apply InitDecode_start_sets_up.
Qed.

Lemma Release_sets_up s : sets_up s (Release w s).2.
Proof.
  unfold Release. cbn [snd]. set (s1 := log _ _).
  assert (sets_up s s1) as H.
  { split; [by apply extends_snoc|done]. }
  destruct (decoder_ s1); [|done]. etrans; [exact H|].
  match goal with |- sets_up _ (set_decoder false ?x) => transitivity x; [|by split] end.
  eapply (run_calls_sets_up _ (S_OK, s1)). repeat constructor.
Qed.

Lemma Release_inited s : inited_ (Release w s).2 = false.
Proof.
  unfold Release. cbn [snd]. set (s1 := log _ _). destruct (decoder_ s1); [|done].
  set (l := [_; _; _]). assert (control (run_calls w l (S_OK, s1)).2 = control s1) as Hc.
  { apply (run_calls_steps w no_input (fun _ => True) l (S_OK, s1)). repeat constructor. }
  exact (f_equal (fun c => snd (fst (fst c))) Hc).
Qed.

(** Runs of a decoder that is not initialized again once it has taken a key frame; its
    loops end. *)
Inductive reachable : decoder -> Prop :=
  | reachable_new : reachable (H264DecoderMFImpl_new w)
  | reachable_register s callback : reachable s -> reachable (RegisterDecodeCompleteCallback callback s).2
  | reachable_init s fuel c z s' : reachable s -> require_keyframe_ s = true ->
      InitDecode w fuel c s = Done (Some z, s') -> reachable s'
  | reachable_decode s fuel img m z s' : reachable s ->
      Decode w fuel img m s = Done (Some z, s') -> reachable s'
  | reachable_release s : reachable s -> reachable (Release w s).2.

(** The memory for samples does not run out, and a flush works. *)
Hypothesis samples : samples_available w.
Hypothesis flush_works : forall h, SUCCEEDED (result w h (ProcessMessage MFT_MESSAGE_COMMAND_FLUSH)) = true.

Lemma EnqueueFrame_gate img m s hr s' n : gate true (calls s) = Some n -> is_key img = true \/ n = false ->
  EnqueueFrame w img m s = Done (hr, s') -> gate true (calls s') = Some false.
Proof.
  intros Hn Hk H. apply (EnqueueFrame_steps w (fun _ => True)) in H as (s1 & hr1 & Hs & _ & Hw & E).
  rewrite (Hw samples) in E. apply (gate_steps _ true) in Hs. injection E as _ ->.
  cbn [call snd log calls]. rewrite gate_app, Hs, Hn. cbn. destruct Hk as [-> | ->]; [by destruct n|done].
Qed.

Lemma Decode_enqueue_gate img m s hr s' n : gate true (calls s) = Some n -> is_key img = true \/ n = false ->
  Decode_enqueue w img m s = Done (hr, s') -> gate true (calls s') = Some false \/
    (gate true (calls s') = Some true /\ require_keyframe_ s' = true /\ FAILED hr = true).
Proof.
  intros Hn Hk [H|(s1 & H1 & H)]%Decode_enqueue_cases; [left; by eapply EnqueueFrame_gate|].
  eapply EnqueueFrame_gate in H1; [|done..]. cbv zeta in H. cbn [call fst snd] in H. rewrite flush_works in H.
  assert (gate true (calls (log (ProcessMessage MFT_MESSAGE_COMMAND_FLUSH) s1)) = Some true) as Hf
    by (cbn [log calls]; by rewrite gate_app, H1).
  destruct (is_key img) eqn:Ek.
  - destruct H as [[_ H]|[H _]]; [|done]. left. eapply EnqueueFrame_gate; [exact Hf|by left|exact H].
  - destruct H as [-> ->]. right. done.
Qed.

Definition gate_inv (s : decoder) : Prop :=
  exists n, gate true (calls s) = Some n /\ (n = true -> inited_ s = true -> require_keyframe_ s = true).

Lemma gate_inv_need s : gate true (calls s) <> None -> (inited_ s = true -> require_keyframe_ s = true) -> gate_inv s.
Proof. intros H Hr. destruct (gate true (calls s)) as [n|] eqn:E; [|done]. by exists n. Qed.

Lemma gate_inv_defined s : gate_inv s -> gate true (calls s) <> None.
Proof. intros (n & -> & _). done. Qed.

Lemma Decode_gate fuel img m s z s' : gate_inv s -> Decode w fuel img m s = Done (z, s') -> gate_inv s'.
Proof.
  intros Hi. unfold Decode.
  destruct (inited_ s) eqn:Ei; cbn [negb]; [|by intros [_ ->]%Done_pair].
  destruct (negb (decode_complete_callback_ s)); [by intros [_ ->]%Done_pair|].
  destruct (data_is_null img && _); [by intros [_ ->]%Done_pair|].
  destruct (require_keyframe_ s && _) eqn:Er; [by intros [_ ->]%Done_pair|].
  intros H. apply exec_bind_Done in H as ([hr s1] & H1 & H). cbn [fst snd] in H.
  destruct Hi as (n & Hn & Hr).
  apply (Decode_enqueue_gate _ _ _ _ _ n) in H1; [|exact Hn|].
  2: { destruct n; [|by right]. left. rewrite Hr in Er by done. by destruct (is_key img). }
  destruct (FAILED hr) eqn:Ef.
  - apply Done_pair in H as [_ ->]. destruct H1 as [H1|(H1 & H2 & _)]; [exists false|exists true]; done.
  - destruct H1 as [H1|(_ & _ & H1)]; [|congruence]. apply Decode_flush_steps in H.
    exists false. by rewrite (gate_steps _ true _ _ H).
Qed.

(** C28: The decoder of Media Foundation is never offered a delta frame before a key frame,
    at the beginning and after each flush. *)
Theorem keyframe_comes_first s : reachable s -> keyframe_first (calls s) = true.
Proof.
  intros H. enough (gate_inv s) as (n & E & _) by (unfold keyframe_first; by rewrite E).
  induction H as [|s b _ IH|s fuel c z s' _ IH Hr H|s fuel img m z s' _ IH H|s _ IH].
  - by apply gate_inv_need.
  - exact IH.
  - apply InitDecode_sets_up in H. apply gate_inv_need; [|by destruct H as [_ ->]].
    by eapply gate_sets_up, gate_inv_defined.
  - by eapply Decode_gate.
  - apply gate_inv_need; [by eapply gate_sets_up, gate_inv_defined; [apply Release_sets_up|]|].
    by rewrite Release_inited.
Qed.
End Gate.

(** ** Decode returns *)

Section Returns.
Context (w : media_foundation).

(** The calls up to the copy of a frame that came out after the calls [h]. *)
Definition after_output (h : list mf_call) : list mf_call := h ++ [ProcessOutput; ConvertToContiguousBuffer].

(** What is documented of Media Foundation: a frame only comes out of a decoder whose
    output type is set, and then the type and its frame size are known; it has finitely many
    types, and finitely many frames without more images. *)
Hypothesis output_type_known : forall h, SUCCEEDED (result w h ProcessOutput) = true ->
  SUCCEEDED (result w (after_output h) GetOutputCurrentType) = true.
Hypothesis frame_size_known : forall h, SUCCEEDED (result w h ProcessOutput) = true ->
  SUCCEEDED (result w (after_output h ++ [GetOutputCurrentType]) MFGetAttributeSize_FrameSize) = true.
Hypothesis frames_end : forall h, exists n, drains w n h.
Context (types : Z) (types_range : 0 <= types <= 2147483647).
Hypothesis types_end : forall h i, types <= i -> SUCCEEDED (result w h (GetOutputAvailableType i)) = false.

Lemma convert_defined b x y : exists c, convert b x y = Some c.
Proof. unfold convert, c_mul, c_binop. rewrite arith_result_unsigned by done. by eexists. Qed.

Lemma query_size_defined h r : calls r.2 = after_output h -> SUCCEEDED (result w h ProcessOutput) = true ->
  exists hr b s', query_size w r = Done (hr, Some b, s') /\
  (exists x y, width_ s' = Some x /\ height_ s' = Some y) /\ SUCCEEDED hr = true.
Proof.
  intros Hc Ho. pose proof (output_type_known h Ho) as Ht. pose proof (frame_size_known h Ho) as Hf.
  rewrite <- Hc in Ht, Hf. unfold query_size, call, if_succeeded. cbn [fst snd]. rewrite Ht. cbn [fst snd].
  cbn [log calls]. rewrite Hf. cbn [fst snd].
  destruct (SUCCEEDED (result w _ GetBlob_MinimumDisplayAperture)); cbn [defined mbind exec_bind].
  all: (eexists _, _, _; split_and!; [done|by do 2 eexists|exact Hf]).
Qed.

Lemma copy_data_defined b x y r : exists hr c s', copy_data w (Some b) x y r = Done (hr, c, s').
Proof.
  unfold copy_data. destruct (FAILED _); [by do 3 eexists|]. destruct (0 <? _); [|by do 3 eexists].
  destruct (FAILED _); [by do 3 eexists|]. destruct (convert_defined b x y) as [c Hc].
  cbn [defined mbind exec_bind]. rewrite Hc. cbn [defined mbind exec_bind]. by do 3 eexists.
Qed.

Lemma FlushFrames_round_defined rtp ntp s : decoder_ s = true -> exists o s', FlushFrames_round w rtp ntp s = Done (o, s').
Proof.
  intros Hd. unfold FlushFrames_round. rewrite Hd. destruct (FAILED _); [by do 2 eexists|].
  set (l := [_; _; _; _; _; _]). pose proof (run_calls_succeeded w l (call w GetOutputStatus s)) as Hr.
  destruct (FAILED (run_calls w l _).1) eqn:F; [by do 2 eexists|]. apply negb_false_iff, Hr in F as (Ec & _ & Es).
  destruct (query_size_defined (calls (call w GetOutputStatus s).2 ++ take 4 l) (run_calls w l (call w GetOutputStatus s)))
    as (hr & b & s1 & -> & (x & y & Ex & Ey) & _);
    [rewrite Ec; unfold after_output; by rewrite <- app_assoc|by apply (Es (take 4 l) _ [ConvertToContiguousBuffer])|].
  cbn [mbind exec_bind]. rewrite Ex, Ey.
  cbn [defined mbind exec_bind]. destruct (pool_has_buffer _ _); [|by do 2 eexists].
  match goal with |- context [copy_data w (Some b) x y ?r] => destruct (copy_data_defined b x y r) as (hr2 & c & s2 & ->) end.
  cbn [mbind exec_bind]. destruct (FAILED hr2); by do 2 eexists.
Qed.

Lemma steps_decoder P Q s s' : steps P Q s s' -> decoder_ s' = decoder_ s.
Proof. intros (_ & _ & H). exact (f_equal (fun c => c.1.1.1) H). Qed.

(** With enough fuel the loop has ended, and more fuel changes nothing. *)
Lemma FlushFrames_returns rtp ntp n s : decoder_ s = true -> drains w n (calls s) ->
  exists hr s', forall fuel, (n < fuel)%nat -> FlushFrames w fuel rtp ntp s = Done (Some hr, s').
Proof.
  revert s. induction n as [|n IH]; intros s Hd Hn.
  all: destruct (FlushFrames_round_defined rtp ntp s Hd) as (o & s1 & H1).
  all: pose proof (FlushFrames_round_steps w _ _ _ _ _ H1) as [Hs Ho].
  all: destruct o as [hr|].
  1,3: exists hr, s1; intros [|fuel] Hf; [lia|]; cbn [FlushFrames]; by rewrite H1.
  all: destruct (gave_output_drains w _ _ _ (Ho eq_refl) Hn) as (m & Em & Hm).
  - discriminate.
  - injection Em as <-. destruct (IH s1) as (hr & s2 & H2); [by rewrite (steps_decoder _ _ _ _ Hs)|done|].
    exists hr, s2. intros [|fuel] Hf; [lia|]. cbn [FlushFrames]. rewrite H1. cbn [mbind exec_bind fst snd]. apply H2. lia.
Qed.

Lemma ConfigureOutputMediaType_returns n t s : decoder_ s = true -> 0 <= t -> types - t <= Z.of_nat n ->
  exists hr found s', forall fuel, (n < fuel)%nat ->
    ConfigureOutputMediaType w fuel t MFVideoFormat_NV12 s = Done (Some (hr, found), s').
Proof.
  revert t s. induction n as [|n IH]; intros t s Hd Ht Hn.
  all: set (r := call w (GetOutputAvailableType t) s); set (r' := if_succeeded r (call w GetGUID_Subtype)).
  all: assert (forall fuel, ConfigureOutputMediaType w (S fuel) t MFVideoFormat_NV12 s =
    if decide (r.1 = MF_E_NO_MORE_TYPES) then Done (Some (S_OK, false), r.2)
    else if FAILED r'.1 then Done (Some (r'.1, false), r'.2)
    else if decide (subtype w (calls r.2) = MFVideoFormat_NV12)
    then let q := call w SetOutputType r'.2 in Done (Some (q.1, SUCCEEDED q.1), q.2)
    else next ← defined (c_add Int32 Int32 t 1); ConfigureOutputMediaType w fuel next MFVideoFormat_NV12 r'.2) as E
    by (intros fuel; cbn [ConfigureOutputMediaType]; by rewrite Hd).
  all: destruct (decide (r.1 = MF_E_NO_MORE_TYPES));
    [do 3 eexists; intros [|fuel] Hf; [lia|]; by rewrite E|].
  all: destruct (FAILED r'.1) eqn:Ef; [do 3 eexists; intros [|fuel] Hf; [lia|]; by rewrite E|].
  all: destruct (decide (subtype w (calls r.2) = MFVideoFormat_NV12));
    [do 3 eexists; intros [|fuel] Hf; [lia|]; by rewrite E|].
  all: assert (t < types) as Hlt.
  1,3: apply Z.nle_gt; intros Hle; apply negb_false_iff in Ef; unfold r', if_succeeded in Ef;
    cbn [r call fst snd] in Ef; rewrite types_end in Ef by done; change (SUCCEEDED (result w (calls s) (GetOutputAvailableType t)) = true) in Ef; by rewrite types_end in Ef.
  - lia.
  - destruct (IH (t + 1) r'.2) as (hr & found & s1 & H1); [|lia|lia|].
    { rewrite <- Hd. apply (steps_decoder quiet (fun _ => True)). transitivity r.2; [by apply call_steps|by apply if_succeeded_steps]. }
    exists hr, found, s1. intros [|fuel] Hf; [lia|]. rewrite E.
    rewrite (c_binop_same Z.add Int32) by (limits; lia). cbn [defined mbind exec_bind]. apply H1. lia.
Qed.

(** The image fits the size of a buffer, and its timestamp is not before the first. *)
Definition image_in_order (img : EncodedImage) (s : decoder) : Prop :=
  Z.of_nat (length (data img)) < 2 ^ 32 /\ InRange Uint32 (Timestamp img) /\
  0 <= first_frame_rtp_ s <= Timestamp img.

Lemma next_sample_time_defined img s : image_in_order img s -> exists hns s', next_sample_time img s = Some (hns, s').
Proof.
  intros (_ & Ht & Hf). unfold next_sample_time. destruct (_ =? 0); [by do 2 eexists|].
  rewrite sample_time_value by (done || (limits; lia)). rewrite (proj2 (Z.leb_le _ _)) by lia. by do 2 eexists.
Qed.

Lemma make_sample_defined img m s : image_in_order img s -> exists hr s', make_sample w img m s = Done (hr, s').
Proof.
  intros Hi. unfold make_sample. rewrite (static_cast_id Uint32) by (destruct Hi; limits; lia).
  set (r1 := run_calls w _ (S_OK, s)). destruct (FAILED r1.1); [exists r1.1, r1.2; by destruct r1|].
  rewrite Z.ltb_irrefl. set (r2 := run_calls w _ _).
  destruct (FAILED r2.1); [exists r2.1, r2.2; by destruct r2|].
  destruct (next_sample_time_defined img r2.2) as (t & s3 & ->).
  { unfold image_in_order, r2. rewrite run_calls_first. cbn [snd log first_frame_rtp_]. unfold r1. by rewrite run_calls_first. }
  cbn [defined mbind exec_bind]. destruct (FAILED _); by do 2 eexists.
Qed.

Lemma EnqueueFrame_defined img m s : decoder_ s = true -> image_in_order img s -> exists hr s',
  EnqueueFrame w img m s = Done (hr, s') /\ decoder_ s' = true /\ image_in_order img s'.
Proof.
  intros Hd Hi. destruct (make_sample_defined img m s Hi) as (hr & s1 & H1).
  pose proof (make_sample_steps w (fun _ => True) _ _ _ _ _ H1) as (Hs & Hf & _). apply steps_decoder in Hs.
  assert (image_in_order img s1) as Hi1.
  { destruct Hi as (? & ? & ?). split_and!; [done|done|..]; destruct Hf as [-> | [? ->]]; lia. }
  unfold EnqueueFrame. rewrite H1. cbn [mbind exec_bind]. unfold ON_SUCCEEDED. cbn [fst snd].
  rewrite Hs, Hd. rewrite Hd in Hs. destruct (SUCCEEDED hr); by do 2 eexists.
Qed.

Lemma Decode_enqueue_defined img m s : decoder_ s = true -> image_in_order img s -> exists hr s',
  Decode_enqueue w img m s = Done (hr, s') /\ decoder_ s' = true.
Proof.
  intros Hd Hi. destruct (EnqueueFrame_defined img m s Hd Hi) as (hr & s1 & H1 & Hd1 & Hi1).
  unfold Decode_enqueue. rewrite H1. cbn [mbind exec_bind fst snd].
  destruct (decide (hr = MF_E_NOTACCEPTING)) as [->|Hn]; [|exists hr, s1; by destruct hr].
  rewrite Hd1. destruct (is_key img); [|by do 2 eexists].
  unfold ON_SUCCEEDED. destruct (SUCCEEDED _); [|by do 2 eexists].
  destruct (EnqueueFrame_defined img m (call w (ProcessMessage MFT_MESSAGE_COMMAND_FLUSH) s1).2) as (hr & s2 & H2 & Hd2 & _);
    [done|done|by do 2 eexists].
Qed.

Lemma flush_result_codes hr : flush_result hr = WEBRTC_VIDEO_CODEC_OK \/ flush_result hr = WEBRTC_VIDEO_CODEC_ERROR.
Proof. unfold flush_result. destruct (_ || _); tauto. Qed.

Lemma Decode_flush_returns img s : decoder_ s = true -> exists z s' N,
  (z = WEBRTC_VIDEO_CODEC_OK \/ z = WEBRTC_VIDEO_CODEC_ERROR) /\
  forall fuel, (N < fuel)%nat -> Decode_flush w fuel img s = Done (Some z, s').
Proof.
  intros Hd. destruct (frames_end (calls s)) as [n Hn].
  destruct (FlushFrames_returns (Timestamp img) (static_cast Uint64 (ntp_time_ms_ img)) n s Hd Hn) as (hr & s1 & H1).
  pose proof (FlushFrames_steps w _ _ _ _ _ _ (H1 (S n) ltac:(lia))) as Hs1. apply steps_decoder in Hs1.
  destruct (decide (Some hr = Some MF_E_TRANSFORM_STREAM_CHANGE)) as [Ehr|Hhr].
  2: { exists (flush_result hr), s1, n. split; [apply flush_result_codes|]. intros fuel Hf. unfold Decode_flush.
       rewrite H1 by done. cbn [mbind exec_bind fst snd]. by rewrite decide_False. }
  destruct (ConfigureOutputMediaType_returns (Z.to_nat types) 0 s1) as (hr2 & found & s2 & H2); [congruence|lia|lia|].
  pose proof (ConfigureOutputMediaType_steps w _ _ _ _ _ _ (fun _ => True) (H2 (S (Z.to_nat types)) ltac:(lia))) as Hs2.
  apply steps_decoder in Hs2.
  destruct (FAILED hr2 || negb found) eqn:Ef.
  { exists WEBRTC_VIDEO_CODEC_ERROR, s2, (n + Z.to_nat types)%nat. split; [by right|]. intros fuel Hf. unfold Decode_flush.
    rewrite H1 by lia. cbn [mbind exec_bind fst snd]. rewrite decide_True, H2 by (done || lia). cbn [mbind exec_bind fst snd].
    by rewrite Ef. }
  destruct (frames_end (calls s2)) as [n2 Hn2].
  destruct (FlushFrames_returns (Timestamp img) (static_cast Uint64 (ntp_time_ms_ img)) n2 (set_size None None s2))
    as (hr3 & s3 & H3); [cbn; congruence|done|].
  exists (flush_result hr3), s3, (n + Z.to_nat types + n2)%nat. split; [apply flush_result_codes|]. intros fuel Hf.
  unfold Decode_flush. rewrite H1 by lia. cbn [mbind exec_bind fst snd].
  rewrite decide_True, H2 by (done || lia). cbn [mbind exec_bind fst snd]. rewrite Ef, H3 by lia. done.
Qed.

(** C29: [Decode] returns one of four results, for all amounts of fuel that are large enough,
    when the decoder has a transform if it is initialized (a second [InitDecode] that fails
    leaves one that has not, see [Example.InitDecode_twice]), the image has less than 2^32
    bytes and a timestamp not before that of the first frame, and Media Foundation does what
    the hypotheses of this section say. *)
Theorem Decode_returns img m s : (inited_ s = true -> decoder_ s = true) -> image_in_order img s ->
  exists z s' N, (forall fuel, (N < fuel)%nat -> Decode w fuel img m s = Done (Some z, s')) /\
    In z [WEBRTC_VIDEO_CODEC_OK; WEBRTC_VIDEO_CODEC_ERROR; WEBRTC_VIDEO_CODEC_ERR_PARAMETER;
          WEBRTC_VIDEO_CODEC_UNINITIALIZED].
Proof.
  intros Hd Hi. unfold Decode.
  destruct (inited_ s); cbn [negb]; [|eexists _, s, O; split; [done|cbn; tauto]].
  destruct (decode_complete_callback_ s); cbn [negb]; [|eexists _, s, O; split; [done|cbn; tauto]].
  destruct (data_is_null img && _); [eexists _, s, O; split; [done|cbn; tauto]|].
  destruct (require_keyframe_ s && _); [eexists _, s, O; split; [done|cbn; tauto]|].
  destruct (Decode_enqueue_defined img m (set_require_keyframe false s)) as (hr & s1 & -> & Hd1); [by apply Hd|done|].
  cbn [mbind exec_bind fst snd]. destruct (FAILED hr); [eexists _, s1, O; split; [done|cbn; tauto]|].
  destruct (Decode_flush_returns img s1 Hd1) as (z & s2 & N & Hz & H). exists z, s2, N. split; [done|].
  cbn. destruct Hz as [-> | ->]; tauto.
Qed.
End Returns.

(** ** Initialization *)

Section Init.
Context (w : media_foundation).

Lemma try_attributes_steps Q s : steps no_input Q s (try_attributes w s).
Proof.
  unfold try_attributes. set (r := call w GetAttributes s). assert (steps no_input Q s r.2) as H by by apply call_steps.
  destruct (SUCCEEDED r.1); [|done]. etrans; [exact H|]. etrans; by apply call_steps.
Qed.

Lemma steps_inited P Q s s' : steps P Q s s' -> inited_ s' = inited_ s.
Proof. intros (_ & _ & H). exact (f_equal (fun c => c.1.1.2) H). Qed.

Lemma InitDecode_start_decoder s : decoder_ (InitDecode_start w s).2 = decoder_ s.
Proof.
  unfold InitDecode_start. set (r := call w GetInputStatus s).
  destruct (SUCCEEDED r.1 && _); [done|]. set (l := [_; _; _]). cbn [snd set_inited decoder_].
  transitivity (decoder_ r.2); [|done]. apply (steps_decoder no_input (fun _ => True)), run_calls_steps. repeat constructor.
Qed.

(** A decoder that was not initialized has a transform if it is initialized after
    [InitDecode], whatever that returned. *)
Lemma InitDecode_decoder fuel c s o s' : inited_ s = false ->
  InitDecode w fuel c s = Done (o, s') -> inited_ s' = true -> decoder_ s' = true.
Proof.
  intros Hi. unfold InitDecode. set (s1 := set_size _ _ s). set (r := call w CoCreateInstance s1).
  set (s2 := set_decoder (SUCCEEDED r.1) r.2). assert (inited_ s2 = false) as Hi2 by done.
  destruct (FAILED r.1) eqn:Er; [by intros [_ ->]%Done_pair; cbn [snd]; rewrite Hi2|].
  assert (decoder_ s2 = true) as Hd2 by by apply negb_false_iff in Er.
  set (r2 := run_calls w _ _). assert (steps no_input (fun _ => True) s2 r2.2) as Hs.
  { etrans; [apply try_attributes_steps|]. eapply (run_calls_steps _ _ _ _ (S_OK, _)), CreateInputMediaType_no_input. }
  destruct (FAILED r2.1); [intros [_ ->]%Done_pair; cbn [snd]; by rewrite (steps_inited _ _ _ _ Hs), Hi2|].
  intros E. apply exec_bind_Done in E as ([o3 s3] & E3 & E).
  apply (ConfigureOutputMediaType_steps w _ _ _ _ _ _ (fun _ => True)) in E3. cbn [fst snd] in E.
  assert (inited_ s3 = false) as Hi3 by by rewrite (steps_inited _ _ _ _ E3), (steps_inited _ _ _ _ Hs).
  destruct o3 as [[hr found]|]; [|apply Done_pair in E as [_ ->]; cbn [snd]; by rewrite Hi3].
  destruct (FAILED hr || negb found); apply Done_pair in E as [_ ->]; cbn [snd]; [by rewrite Hi3|].
  intros _. rewrite InitDecode_start_decoder. by rewrite (steps_decoder _ _ _ _ E3), (steps_decoder _ _ _ _ Hs).
Qed.
End Init.

(** ** The copy of a frame *)

(** The size of an NV12 image. *)
Definition nv12_size (width height : Z) : Z := width * height + width * Geometry.half_up height.

(** What libyuv reads of the source for a copy. *)
Definition copy_within (size : Z) (c : nv12_copy) : bool :=
  Geometry.plane_within size 0 (src_stride c) (copy_width c) (copy_height c) &&
  Geometry.plane_within size (src_uv c) (src_stride c) (2 * Geometry.half_up (copy_width c)) (Geometry.half_up (copy_height c)).

Lemma convert_value bw bh width height : 0 <= bw <= 2147483647 -> 0 <= bh -> bw * bh < 2 ^ 32 -> bh < 2 ^ 32 ->
  0 <= width <= 2147483647 -> 0 <= height <= 2147483647 ->
  convert (bw, bh) width height = Some (mkCopy bw (bw * bh) width height).
Proof.
  intros. unfold convert. cbn [fst snd]. rewrite !(static_cast_id Int32) by (limits; lia).
  unfold c_mul, c_binop. cbn [arith promote]. rewrite !(static_cast_id Uint32) by (limits; nia).
  rewrite arith_result_in_range by (limits; nia). done.
Qed.

(** C30: If the visible area is within a frame size that is even and fits 32 bits, a frame
    that is copied is read within an NV12 image of that size. *)
Theorem copy_data_within w bw bh width height r hr c s' :
  0 < bw -> 0 < bh -> bw mod 2 = 0 -> bw * bh < 2 ^ 31 ->
  0 <= width <= bw -> 0 <= height <= bh ->
  copy_data w (Some (bw, bh)) width height r = Done (hr, Some c, s') ->
  copy_within (nv12_size bw bh) c = true.
Proof.
  intros Hbw Hbh Hev Hs Hw Hh. unfold copy_data. destruct (FAILED _); [done|]. destruct (0 <? _); [|done].
  destruct (FAILED _); [done|]. cbn [defined mbind exec_bind].
  rewrite convert_value by nia. cbn [defined mbind exec_bind]. intros [= _ <- _].
  unfold copy_within, Geometry.plane_within, nv12_size, Geometry.half_up. cbn.
  assert (bw = 2 * (bw / 2)) as Eb by (pose proof (Z.div_mod bw 2); lia).
  assert ((width + 1) / 2 <= bw / 2) as H1 by (apply Z.lt_succ_r, Z.div_lt_upper_bound; lia).
  assert ((height + 1) / 2 <= (bh + 1) / 2) as H2 by (apply Z.div_le_mono; lia).
  rewrite !Z.abs_eq by (try apply Z.div_pos; lia).
  apply andb_true_iff. rewrite !orb_true_iff, !andb_true_iff, !Z.eqb_eq, !Z.leb_le.
  assert (0 <= (bh + 1) / 2) as H3 by (apply Z.div_pos; lia).
  generalize dependent ((height + 1) / 2). generalize dependent ((width + 1) / 2). generalize dependent ((bh + 1) / 2).
  intros hb Hhb ww Hww hh Hhh. split; right; [|split; [nia|]].
  - assert (bw * (height - 1) <= bw * (bh - 1)) by nia. nia.
  - assert (bw * hh <= bw * hb) by nia. lia.
Qed.

(** ** Examples *)

Module Example.

Definition is_input (c : mf_call) : bool := match c with ProcessInput _ => true | _ => false end.
Definition inputs (l : list mf_call) : nat := length (List.filter is_input l).

(** A decoder with one type, NV12, that gives a frame for each image. *)
Definition ideal_result (h : list mf_call) (c : mf_call) : HRESULT :=
  match c with
  | GetOutputAvailableType i => if i <? 1 then S_OK else MF_E_NO_MORE_TYPES
  | ProcessOutput => if (outputs h <? inputs h)%nat then S_OK else MF_E_TRANSFORM_NEED_MORE_INPUT
  | _ => S_OK
  end.

Definition with_result (r : list mf_call -> mf_call -> HRESULT) : media_foundation :=
  mkMF r
    (fun _ c => match c with GetInputStatus => MFT_INPUT_STATUS_ACCEPT_DATA | _ => nv12_size 1280 720 end)
    (fun _ => MFVideoFormat_NV12) (fun _ => (1280, 720)) (fun _ => (1280, 718)) (fun _ => true).

Definition ideal : media_foundation := with_result ideal_result.

Lemma quiet_inputs l : Forall quiet l -> inputs l = O.
Proof. induction 1 as [|c l Hc _ IH]; [done|]. by destruct c. Qed.

Lemma ideal_drains h : drains ideal (inputs h) h.
Proof.
  intros l Hl Hn. pose proof (quiet_inputs l Hl) as E.
  change (SUCCEEDED (if (outputs (h ++ l) <? inputs (h ++ l))%nat then S_OK else MF_E_TRANSFORM_NEED_MORE_INPUT) = false).
  rewrite outputs_app. unfold inputs in *. rewrite List.filter_app, length_app.
  by rewrite (proj2 (Nat.ltb_ge _ _)) by lia.
Qed.

Definition image (timestamp : Z) (key : bool) : EncodedImage := mkImage false [0; 0; 0; 1; 101] timestamp 77 key true.

Definition codec : VideoCodec := mkCodec 1280 720 30.

(** The state after a call that ends. *)
Definition state_of {A} (r : exec (option A * decoder)) : decoder :=
  match r with Done (Some _, s) => s | _ => H264DecoderMFImpl_new ideal end.
Definition result_of {A} (r : exec (option A * decoder)) : option A :=
  match r with Done (o, _) => o | _ => None end.

Definition registered : decoder := Eval vm_compute in
  (RegisterDecodeCompleteCallback true (H264DecoderMFImpl_new ideal)).2.
Definition started : decoder := Eval vm_compute in state_of (InitDecode ideal 3 codec registered).
Definition first_decoded : decoder := Eval vm_compute in state_of (Decode ideal 3 (image 90000 true) false started).

Lemma started_ok : InitDecode ideal 3 codec registered = Done (Some WEBRTC_VIDEO_CODEC_OK, started).
Proof. by vm_compute. Qed.

Lemma first_decoded_ok : Decode ideal 3 (image 90000 true) false started = Done (Some WEBRTC_VIDEO_CODEC_OK, first_decoded).
Proof. by vm_compute. Qed.

(** One frame comes out, with the stamp of the image and the size of the visible area. *)
Lemma first_frame_decoded :
  decoded first_decoded = [mkDecoded 90000 77 1280 718 (Some (mkCopy 1280 921600 1280 718))].
Proof. by vm_compute. Qed.

Lemma Decode_frames_witness : exists l, decoded first_decoded = decoded started ++ l /\
  Forall (of_image (image 90000 true)) l.
Proof.
  apply (Decode_frames ideal 3 (image 90000 true) false started (Some WEBRTC_VIDEO_CODEC_OK) first_decoded).
  - split; discriminate.
  - apply first_decoded_ok.
Defined.

Lemma Decode_returns_witness : exists z s' N,
  (forall fuel, (N < fuel)%nat -> Decode ideal fuel (image 180000 false) false first_decoded = Done (Some z, s')) /\
  In z [WEBRTC_VIDEO_CODEC_OK; WEBRTC_VIDEO_CODEC_ERROR; WEBRTC_VIDEO_CODEC_ERR_PARAMETER;
        WEBRTC_VIDEO_CODEC_UNINITIALIZED].
Proof.
  apply (Decode_returns ideal) with (types := 1).
  - done.
  - done.
  - intros h. exists (inputs h). apply ideal_drains.
  - lia.
  - intros h i Hi. cbn. by rewrite (proj2 (Z.ltb_ge _ _)) by lia.
  - done.
  - split_and!; [by vm_compute|limits; cbn; lia|vm_compute; discriminate|vm_compute; discriminate].
Defined.

Lemma keyframe_comes_first_witness : keyframe_first (calls first_decoded) = true.
Proof.
  apply (keyframe_comes_first ideal).
  - intros h c Hc. by destruct c.
  - done.
  - eapply reachable_decode; [|apply first_decoded_ok].
    eapply (reachable_init ideal registered); [|done|apply started_ok]. apply (reachable_register ideal (H264DecoderMFImpl_new ideal) true), reachable_new.
Defined.

Definition copied : decoder := Eval vm_compute in
  match copy_data ideal (Some (1280, 720)) 1280 718 (S_OK, started) with Done (_, _, s) => s | _ => started end.

Lemma copy_data_within_witness : copy_within (nv12_size 1280 720) (mkCopy 1280 921600 1280 718) = true.
Proof.
  apply (copy_data_within ideal 1280 720 1280 718 (S_OK, started) S_OK (mkCopy 1280 921600 1280 718) copied);
    [lia|lia|done|lia|lia|lia|]. by vm_compute.
Defined.

(** *** What goes wrong *)

(** A timestamp that wraps around: the sample time overflows. *)
Lemma Decode_wrapped_timestamp :
  let s := state_of (Decode ideal 3 (image 4294967000 true) false started) in
  Decode ideal 3 (image 2704 false) false s = Undef.
Proof. by vm_compute. Qed.

(** The timestamp of the first frame survives [Release]: the stream of the next
    initialization may begin before it. *)
Lemma Decode_after_restart :
  let s := state_of (InitDecode ideal 3 codec (Release ideal first_decoded).2) in
  Decode ideal 3 (image 3000 true) false s = Undef.
Proof. by vm_compute. Qed.

(** So does the end of the wait for a key frame: the new transform is offered a delta
    frame first. *)
Lemma restart_delta_frame :
  let s := state_of (InitDecode ideal 3 codec (Release ideal first_decoded).2) in
  let r := Decode ideal 3 (image 180000 false) false s in
  result_of r = Some WEBRTC_VIDEO_CODEC_OK /\ keyframe_first (calls (state_of r)) = false.
Proof. by vm_compute. Qed.

(** A key frame that cannot be locked is lost, and the wait is over all the same. *)
Definition lock_fails_once : media_foundation := with_result (fun h c =>
  match c with
  | Lock => if existsb (fun c => match c with Lock => true | _ => false end) h then S_OK else Other (-1)
  | _ => ideal_result h c
  end).

Lemma lost_key_frame :
  let r := Decode lock_fails_once 3 (image 90000 true) false started in
  let r' := Decode lock_fails_once 3 (image 93000 false) false (state_of r) in
  result_of r = Some WEBRTC_VIDEO_CODEC_ERROR /\ result_of r' = Some WEBRTC_VIDEO_CODEC_OK /\
  keyframe_first (calls (state_of r')) = false.
Proof. by vm_compute. Qed.

(** A second initialization that fails leaves a decoder that is initialized and has no
    transform. *)
Definition creation_fails : media_foundation := with_result (fun h c =>
  match c with CoCreateInstance => Other (-1) | _ => ideal_result h c end).

Lemma InitDecode_twice :
  let r := InitDecode creation_fails 3 codec started in
  result_of r = Some WEBRTC_VIDEO_CODEC_ERROR /\ Decode creation_fails 3 (image 90000 true) false (state_of r) = Undef.
Proof. by vm_compute. Qed.

(** An initialization that returns an error may leave an initialized decoder. *)
Definition streaming_fails : media_foundation := with_result (fun h c =>
  match c with ProcessMessage MFT_MESSAGE_NOTIFY_BEGIN_STREAMING => Other (-1) | _ => ideal_result h c end).

Lemma InitDecode_error_inited :
  let r := InitDecode streaming_fails 3 codec registered in
  result_of r = Some WEBRTC_VIDEO_CODEC_ERROR /\ inited_ (state_of r) = true.
Proof. by vm_compute. Qed.

(** The length of the data is only compared with zero: a buffer of one byte is read as a
    whole frame. *)
Definition short_data : media_foundation := mkMF ideal_result (fun _ _ => 1) (fun _ => MFVideoFormat_NV12)
  (fun _ => (1280, 720)) (fun _ => (1280, 718)) (fun _ => true).

Lemma short_frame_copied :
  let c := mkCopy 1280 921600 1280 718 in
  map df_copy (decoded (state_of (Decode short_data 3 (image 90000 true) false started))) = [Some c] /\
  copy_within 1 c = false.
Proof. by vm_compute. Qed.
End Example.
