(* ===== verification/TcpServer.v ===== *)
(** * TcpServer: WeiRtcSampleApp/DirectTcpServer.{h,cpp}

    The blocking TCP server that carries the signaling messages.  A [network]
    supplies the results of the WinSock calls; [Start] and [Send] produce the
    trace of the calls they make, the messages they deliver to the registered
    [TcpChannelEventsHandler], and the way they end.  A monitor interprets a
    trace as acquisitions and releases of WinSock, the address list and the two
    sockets. *)

From S2P Require Import Prelude.
From Stdlib Require Import Ascii String.
From Stdlib Require Import List.
Open Scope Z_scope.
Open Scope list_scope.

(** [#define DEFAULT_BUFLEN 55120]. *)
Definition DEFAULT_BUFLEN : nat := Z.to_nat 55120.

Definition NUL : ascii := Ascii.zero.

Inductive SOCKET := ListenSocket | ClientSocket.

(** The observable calls, with whether an acquisition succeeded. *)
Inductive call :=
  | Call_WSAStartup (ok : bool)
  | Call_getaddrinfo (ok : bool)
  | Call_socket (ok : bool)
  | Call_bind
  | Call_listen
  | Call_accept (ok : bool)
  | Call_freeaddrinfo
  | Call_closesocket (s : SOCKET)
  | Call_recv
  | Call_send (message : string)
  | Call_shutdown
  | Call_WSACleanup
  | Call_OnTcpMessage (message : string).

(** What [recv] returns: a count and that many bytes in the buffer, or [SOCKET_ERROR]. *)
Inductive recv_result := RecvBytes (chunk : list ascii) | RecvError.

(** The events of a connection: the results of [recv] in order, and the calls of
    [Send] that other threads make between them. *)
Inductive event :=
  | Recv (r : recv_result)
  | SendRequest (message : string) (ok : bool).

Record network := mkNetwork {
  net_WSAStartup : Z;
  net_getaddrinfo : Z;
  net_socket : bool;
  net_bind : bool;
  net_listen : bool;
  net_accept : bool;
  net_events : list event;
  net_shutdown : bool
}.

(** How a call ends: a returned value; the end of the body without a [return];
    still blocked in [recv]; or an undefined read. *)
Inductive ending := Returned (r : Z) | FellOffEnd | Blocked | OutOfBounds.

(** ** The receive buffer *)

(** [recv] overwrites the first bytes of the buffer. *)
Definition recv_into (chunk recvbuf : list ascii) : list ascii :=
  chunk ++ drop (length chunk) recvbuf.

(** [std::string((char* )recvbuf)]: the bytes before the first NUL; reading past
    the buffer when there is none. *)
Fixpoint c_str (buf : list ascii) : option string :=
  match buf with
  | [] => None
  | c :: buf => if Ascii.eqb c NUL then Some EmptyString else String c <$> c_str buf
  end.

Definition zeroed : list ascii := repeat NUL DEFAULT_BUFLEN.

(** ** Send *)

Definition Send (message : string) (ok : bool) : list call :=
  Call_send message ::
  (if ok then [Call_send (String (ascii_of_nat 10) EmptyString)]
   else [Call_closesocket ClientSocket; Call_WSACleanup]).

(** ** Start *)

(** The part after the receive loop. *)
Definition Start_shutdown (net : network) : list call * ending :=
  if net_shutdown net
  then ([Call_shutdown; Call_closesocket ClientSocket; Call_WSACleanup], FellOffEnd)
  else ([Call_shutdown; Call_closesocket ClientSocket; Call_WSACleanup], Returned 1).

(** The receive loop, on the events of the connection. *)
Fixpoint recv_loop (net : network) (events : list event) (recvbuf : list ascii)
  : list call * ending :=
  match events with
  | [] => ([], Blocked)
  | SendRequest message ok :: events =>
      let '(t, e) := recv_loop net events recvbuf in (Send message ok ++ t, e)
  | Recv RecvError :: _ =>
      ([Call_recv; Call_closesocket ClientSocket; Call_WSACleanup], Returned 1)
  | Recv (RecvBytes chunk) :: events =>
      if (0 <? Z.of_nat (length chunk)) then
        let recvbuf := recv_into chunk recvbuf in
        match c_str recvbuf with
        | None => ([Call_recv], OutOfBounds)
        | Some message =>
            let '(t, e) := recv_loop net events zeroed in
            (Call_recv :: Call_OnTcpMessage message :: t, e)
        end
      else let '(t, e) := Start_shutdown net in (Call_recv :: t, e)
  end.

Definition Start_accepted (net : network) : list call * ending :=
  let '(t, e) := recv_loop net (net_events net) zeroed in
  (Call_closesocket ListenSocket :: t, e).

Definition Start (net : network) : list call * ending :=
  if negb (net_WSAStartup net =? 0) then ([Call_WSAStartup false], Returned 1)
  else if negb (net_getaddrinfo net =? 0) then
    ([Call_WSAStartup true; Call_getaddrinfo false; Call_WSACleanup], Returned 1)
  else if negb (net_socket net) then
    ([Call_WSAStartup true; Call_getaddrinfo true; Call_socket false;
      Call_freeaddrinfo; Call_WSACleanup], Returned 1)
  else if negb (net_bind net) then
    ([Call_WSAStartup true; Call_getaddrinfo true; Call_socket true; Call_bind;
      Call_freeaddrinfo; Call_closesocket ListenSocket; Call_WSACleanup], Returned 1)
  else if negb (net_listen net) then
    ([Call_WSAStartup true; Call_getaddrinfo true; Call_socket true; Call_bind;
      Call_freeaddrinfo; Call_listen; Call_closesocket ListenSocket; Call_WSACleanup], Returned 1)
  else if negb (net_accept net) then
    ([Call_WSAStartup true; Call_getaddrinfo true; Call_socket true; Call_bind;
      Call_freeaddrinfo; Call_listen; Call_accept false; Call_closesocket ListenSocket;
      Call_WSACleanup], Returned 1)
  else
    let '(t, e) := Start_accepted net in
    ([Call_WSAStartup true; Call_getaddrinfo true; Call_socket true; Call_bind;
      Call_freeaddrinfo; Call_listen; Call_accept true] ++ t, e).

(** ** Resources *)

Record resources := mkResources {
  wsa : Z;             (* successful WSAStartup calls not yet cleaned up *)
  addrinfo : bool;     (* the address list is allocated *)
  listen_open : bool;
  client_open : bool
}.

Definition no_resources : resources := mkResources 0 false false false.

(** One call; [None] when it releases what is not held. *)
Definition monitor_step (r : resources) (c : call) : option resources :=
  match c with
  | Call_WSAStartup true => Some (mkResources (wsa r + 1) (addrinfo r) (listen_open r) (client_open r))
  | Call_getaddrinfo true => Some (mkResources (wsa r) true (listen_open r) (client_open r))
  | Call_socket true => Some (mkResources (wsa r) (addrinfo r) true (client_open r))
  | Call_accept true => Some (mkResources (wsa r) (addrinfo r) (listen_open r) true)
  | Call_freeaddrinfo =>
      guard_b (addrinfo r) (Some (mkResources (wsa r) false (listen_open r) (client_open r)))
  | Call_closesocket ListenSocket =>
      guard_b (listen_open r) (Some (mkResources (wsa r) (addrinfo r) false (client_open r)))
  | Call_closesocket ClientSocket =>
      guard_b (client_open r) (Some (mkResources (wsa r) (addrinfo r) (listen_open r) false))
  | Call_WSACleanup =>
      guard_b (0 <? wsa r) (Some (mkResources (wsa r - 1) (addrinfo r) (listen_open r) (client_open r)))
  | _ => Some r
  end.

Fixpoint monitor (r : resources) (t : list call) : option resources :=
  match t with [] => Some r | c :: t => r' ← monitor_step r c; monitor r' t end.

(** The messages a trace delivers, in order. *)
Fixpoint delivered (t : list call) : list string :=
  match t with
  | [] => []
  | Call_OnTcpMessage m :: t => m :: delivered t
  | _ :: t => delivered t
  end.

(** ** The handler interface *)

(** [TcpChannelEventsHandler]: what the server promises to its client is to call
    [OnTcpMessage] once per message, in order, on the client's state. *)
Class TcpChannelEventsHandler (W : Type) := OnTcpMessage_handler : string -> W -> exec W.

(** The client's state after the calls of a trace. *)
Fixpoint serve `{TcpChannelEventsHandler W} (t : list call) (w : W) : exec W :=
  match t with
  | [] => Done w
  | Call_OnTcpMessage m :: t => w' ← OnTcpMessage_handler m w; serve t w'
  | _ :: t => serve t w
  end.

(** ** Lemmas *)

Lemma monitor_app r t t' : monitor r (t ++ t') = (r' ← monitor r t; monitor r' t').
Proof.
  revert r. induction t as [|c t IH]; intros r; cbn [app monitor]; [done|].
  destruct (monitor_step r c) as [r'|]; cbn [mbind option_bind]; [apply IH|done].
Qed.

Lemma delivered_app t t' : delivered (t ++ t') = delivered t ++ delivered t'.
Proof. induction t as [|[] t IH]; cbn; by rewrite ?IH. Qed.

(** Only the delivered messages matter to the client. *)
Lemma serve_delivered `{TcpChannelEventsHandler W} t (w : W) :
  serve t w = serve (map Call_OnTcpMessage (delivered t)) w.
Proof.
  revert w. induction t as [|c t IH]; intros w; [done|].
  destruct c; cbn [serve delivered map]; try apply IH.
  destruct (OnTcpMessage_handler message w); cbn [mbind exec_bind]; done || apply IH.
Qed.

(** While connected: WinSock started once and the client socket open. *)
Definition connected : resources := mkResources 1 false false true.

(** An event is not a failing [Send]. *)
Definition send_ok (e : event) : bool :=
  match e with SendRequest _ ok => ok | _ => true end.

(** The loop was left. *)
Definition ended (e : ending) : bool :=
  match e with Returned _ | FellOffEnd => true | _ => false end.

Lemma Send_ok_monitor r m : monitor r (Send m true) = Some r.
Proof. done. Qed.

Lemma recv_loop_monitor net events buf :
  forallb send_ok events = true ->
  monitor connected (recv_loop net events buf).1 =
    Some (if ended (recv_loop net events buf).2 then no_resources else connected).
Proof.
  revert buf. induction events as [|[[chunk|]|m ok] events IH]; intros buf Hok;
    cbn [recv_loop forallb send_ok andb] in *; [done| |done|].
  - destruct (Z.ltb_spec 0 (Z.of_nat (length chunk))).
    + destruct (c_str (recv_into chunk buf)) as [m|]; [|done].
      specialize (IH zeroed Hok). destruct (recv_loop net events zeroed) as [t e]. exact IH.
    + unfold Start_shutdown. by destruct (net_shutdown net).
  - apply andb_prop in Hok as [-> Hok]. specialize (IH buf Hok).
    destruct (recv_loop net events buf) as [t e]. cbn [fst snd] in *.
    by rewrite monitor_app, Send_ok_monitor.
Qed.

Lemma recv_loop_ending net events buf :
  match (recv_loop net events buf).2 with Returned r => r = 1 | _ => True end.
Proof.
  revert buf. induction events as [|[[chunk|]|m ok] events IH]; intros buf; cbn [recv_loop];
    [done| |done|].
  - destruct (0 <? _).
    + destruct (c_str _) as [m|]; [|done].
      specialize (IH zeroed). by destruct (recv_loop net events zeroed).
    + unfold Start_shutdown. by destruct (net_shutdown net).
  - specialize (IH buf). by destruct (recv_loop net events buf).
Qed.

(** After the client socket has been closed by a failed [Send], every way out of
    the loop closes it again. *)
Lemma recv_loop_double_close net events buf :
  ended (recv_loop net events buf).2 = true ->
  monitor no_resources (recv_loop net events buf).1 = None.
Proof.
  revert buf. induction events as [|[[chunk|]|m ok] events IH]; intros buf; cbn [recv_loop];
    [done| |done|].
  - destruct (0 <? _).
    + destruct (c_str _) as [m|]; [|done].
      specialize (IH zeroed). destruct (recv_loop net events zeroed) as [t e]. exact IH.
    + unfold Start_shutdown. by destruct (net_shutdown net).
  - specialize (IH buf). destruct (recv_loop net events buf) as [t e]. cbn [fst snd] in *.
    intros He. rewrite monitor_app. destruct ok; [|done].
    rewrite Send_ok_monitor. by apply IH.
Qed.

(** *** Messages *)

(** The part of a chunk before its first NUL. *)
Fixpoint before_nul (chunk : list ascii) : string :=
  match chunk with
  | [] => EmptyString
  | c :: chunk => if Ascii.eqb c NUL then EmptyString else String c (before_nul chunk)
  end.

(** A chunk that leaves or contains a terminator. *)
Definition terminated (chunk : list ascii) : Prop :=
  (length chunk < DEFAULT_BUFLEN)%nat \/ In NUL chunk.

Lemma c_str_chunk chunk rest :
  In NUL chunk \/ hd_error rest = Some NUL -> c_str (chunk ++ rest) = Some (before_nul chunk).
Proof.
  intros H. induction chunk as [|c chunk IH]; cbn [app c_str before_nul].
  - destruct H as [[]|H]. destruct rest as [|c rest]; [done|]. injection H as ->. done.
  - destruct (Ascii.eqb c NUL) eqn:E; [done|]. rewrite IH; [done|].
    destruct H as [[->|H]|H]; [discriminate|by left|by right].
Qed.

Lemma drop_repeat {A} (x : A) n k : drop k (repeat x n) = repeat x (n - k).
Proof.
  revert k. induction n as [|n IH]; intros [|k]; cbn; done || apply IH.
Qed.

Lemma c_str_received chunk :
  terminated chunk -> c_str (recv_into chunk zeroed) = Some (before_nul chunk).
Proof.
  intros H. unfold recv_into, zeroed. rewrite drop_repeat. apply c_str_chunk.
  destruct H as [H|H]; [right|by left].
  destruct (DEFAULT_BUFLEN - length chunk)%nat eqn:E; [lia|done].
Qed.

(** The received data events and successful sends of an ongoing connection. *)
Definition delivering (e : event) : Prop :=
  match e with
  | Recv (RecvBytes chunk) => chunk <> [] /\ terminated chunk
  | Recv RecvError => False
  | SendRequest _ ok => ok = true
  end.

Fixpoint messages (events : list event) : list string :=
  match events with
  | [] => []
  | Recv (RecvBytes chunk) :: events => before_nul chunk :: messages events
  | _ :: events => messages events
  end.

Lemma recv_loop_delivers net pre post :
  Forall delivering pre ->
  exists t, recv_loop net (pre ++ post) zeroed =
      (t ++ (recv_loop net post zeroed).1, (recv_loop net post zeroed).2) /\
    delivered t = messages pre /\ monitor connected t = Some connected.
Proof.
  induction 1 as [|[[chunk|]|m ok] pre He Hpre (t & Ht & Hd & Hm)]; cbn [app recv_loop messages].
  - exists []. by destruct (recv_loop net post zeroed).
  - destruct He as [Hne Hterm]. destruct chunk as [|c chunk]; [done|].
    replace (0 <? Z.of_nat (length (c :: chunk))) with true by done.
    rewrite c_str_received by done. rewrite Ht.
    exists (Call_recv :: Call_OnTcpMessage (before_nul (c :: chunk)) :: t).
    split; [done|split; [|done]]. cbn [delivered]. by rewrite Hd.
  - done.
  - cbn in He. subst ok. rewrite Ht. exists (Send m true ++ t). split; [by rewrite app_assoc|split].
    + rewrite delivered_app. exact Hd.
    + by rewrite monitor_app.
Qed.

(** All the calls before the receive loop succeed. *)
Definition accepts (net : network) : bool :=
  (net_WSAStartup net =? 0) && (net_getaddrinfo net =? 0) && net_socket net && net_bind net &&
  net_listen net && net_accept net.

Definition setup_calls : list call :=
  [Call_WSAStartup true; Call_getaddrinfo true; Call_socket true; Call_bind;
   Call_freeaddrinfo; Call_listen; Call_accept true; Call_closesocket ListenSocket].

Lemma setup_monitor : monitor no_resources setup_calls = Some connected.
Proof. done. Qed.

Lemma Start_accepts net :
  accepts net = true ->
  Start net = (setup_calls ++ (recv_loop net (net_events net) zeroed).1, (recv_loop net (net_events net) zeroed).2).
Proof.
  unfold accepts, Start, Start_accepted. intros H.
  destruct (net_WSAStartup net =? 0), (net_getaddrinfo net =? 0), (net_socket net), (net_bind net),
    (net_listen net), (net_accept net); try discriminate. cbn [negb].
  by destruct (recv_loop net (net_events net) zeroed).
Qed.

(** ** Main results *)

(** C33: on every path on which no [Send] fails, [Start] releases what it acquires
    exactly once: WinSock, the address list and both sockets are released when
    it ends, and while it is blocked in [recv] (or reads past its buffer) it
    holds exactly WinSock and the client socket. *)
Theorem Start_releases net :
  forallb send_ok (net_events net) = true ->
  monitor no_resources (Start net).1 =
    Some (if ended (Start net).2 then no_resources else connected).
Proof.
  intros Hok. destruct (accepts net) eqn:Ha.
  - rewrite Start_accepts by done. cbn [fst snd]. rewrite monitor_app.
    rewrite setup_monitor. exact (recv_loop_monitor net (net_events net) zeroed Hok).
  - unfold accepts, Start, Start_accepted in *.
    destruct (net_WSAStartup net =? 0), (net_getaddrinfo net =? 0), (net_socket net), (net_bind net),
      (net_listen net), (net_accept net); done.
Qed.

Lemma Start_releases_witness :
  let net := mkNetwork 0 0 true true true true
    [Recv (RecvBytes ["a"%char; "b"%char]); SendRequest "x" true; Recv (RecvBytes [])] true in
  forallb send_ok (net_events net) = true /\ monitor no_resources (Start net).1 = Some no_resources.
Proof.
  split; [reflexivity|].
  exact (Start_releases (mkNetwork 0 0 true true true true
    [Recv (RecvBytes ["a"%char; "b"%char]); SendRequest "x" true; Recv (RecvBytes [])] true) eq_refl).
Defined.

(** A [Send] that fails while the connection is served releases the client
    socket and WinSock under the receive loop: whenever the loop ends
    afterwards, [Start] releases them a second time. *)
Theorem Send_failure_double_release net pre m post :
  accepts net = true -> net_events net = pre ++ SendRequest m false :: post ->
  Forall delivering pre -> ended (Start net).2 = true ->
  monitor no_resources (Start net).1 = None.
Proof.
  intros Ha He Hpre. rewrite Start_accepts by done. rewrite He. cbn [fst snd].
  destruct (recv_loop_delivers net pre (SendRequest m false :: post) Hpre) as (t & -> & _ & Hm).
  cbn [recv_loop]. pose proof (recv_loop_double_close net post zeroed) as Hd.
  destruct (recv_loop net post zeroed) as [t' e]. cbn [fst snd] in *.
  intros Hend. rewrite monitor_app, setup_monitor. cbn [mbind option_bind].
  rewrite monitor_app, Hm. exact (Hd Hend).
Qed.

Lemma Send_failure_double_release_witness :
  let net := mkNetwork 0 0 true true true true [SendRequest "answer" false; Recv RecvError] true in
  accepts net = true /\ monitor no_resources (Start net).1 = None.
Proof.
  split; [reflexivity|].
  exact (Send_failure_double_release
    (mkNetwork 0 0 true true true true [SendRequest "answer" false; Recv RecvError] true)
    [] "answer" [Recv RecvError] eq_refl eq_refl (Forall_nil _) eq_refl).
Defined.

(** Each chunk that [recv] delivers is one message: its bytes up to the first
    NUL, whatever was received before, for every chunk shorter than the buffer or
    containing a NUL; a chunk that fills the buffer without a NUL is read past
    the end of the buffer. *)
Theorem Start_messages net pre post :
  accepts net = true -> net_events net = pre ++ post -> Forall delivering pre ->
  (post = [] -> (Start net).2 = Blocked /\ delivered (Start net).1 = messages pre) /\
  (forall chunk post', post = Recv (RecvBytes chunk) :: post' ->
     length chunk = DEFAULT_BUFLEN -> ~ In NUL chunk ->
     (Start net).2 = OutOfBounds /\ delivered (Start net).1 = messages pre).
Proof.
  intros Ha He Hpre. rewrite Start_accepts by done. rewrite He.
  destruct (recv_loop_delivers net pre post Hpre) as (t & -> & Hd & _). cbn [fst snd]. split.
  - intros ->. cbn [recv_loop fst snd]. split; [done|].
    rewrite !delivered_app, Hd. apply app_nil_r.
  - intros chunk post' -> Hlen Hn.
    assert (c_str (recv_into chunk zeroed) = None) as E.
    { unfold recv_into. rewrite (drop_ge zeroed) by (unfold zeroed; rewrite repeat_length; lia).
      rewrite app_nil_r. clear -Hn. induction chunk as [|c chunk IH]; cbn; [done|].
      destruct (Ascii.eqb_spec c NUL) as [->|_]; [exfalso; apply Hn; by left|].
      rewrite IH; [done|]. intros Hin. apply Hn. by right. }
    cbn [recv_loop]. rewrite Hlen. change (0 <? Z.of_nat DEFAULT_BUFLEN) with true. rewrite E.
    cbn [fst snd]. split; [done|]. rewrite !delivered_app, Hd. apply app_nil_r.
Qed.

Lemma Start_messages_witness :
  let net := mkNetwork 0 0 true true true true
    [Recv (RecvBytes ["a"%char; NUL]); Recv (RecvBytes ["c"%char; NUL; "d"%char])] true in
  accepts net = true /\ delivered (Start net).1 = ["a"%string; "c"%string].
Proof.
  assert (forall chunk, chunk <> [] -> In NUL chunk -> delivering (Recv (RecvBytes chunk))) as H
    by (intros chunk Hne Hin; split; [exact Hne|right; exact Hin]).
  split; [reflexivity|].
  exact (proj2 (proj1 (Start_messages (mkNetwork 0 0 true true true true
    [Recv (RecvBytes ["a"%char; NUL]); Recv (RecvBytes ["c"%char; NUL; "d"%char])] true)
    [Recv (RecvBytes ["a"%char; NUL]); Recv (RecvBytes ["c"%char; NUL; "d"%char])] []
    eq_refl eq_refl
    (Forall_cons _ _ _ (H ["a"%char; NUL] ltac:(discriminate) ltac:(cbn; tauto))
      (Forall_cons _ _ _ (H ["c"%char; NUL; "d"%char] ltac:(discriminate) ltac:(cbn; tauto))
        (Forall_nil _)))) eq_refl)).
Defined.

(** The only value [Start] ever returns is 1, the error code: when the peer
    closes the connection in an orderly way the body of this [int] function ends
    without a [return]. *)
Theorem Start_result net :
  (forall r, (Start net).2 = Returned r -> r = 1) /\
  (accepts net = true -> forall pre post, net_events net = pre ++ Recv (RecvBytes []) :: post ->
   Forall delivering pre -> net_shutdown net = true -> (Start net).2 = FellOffEnd).
Proof.
  split.
  - intros r Hr. destruct (accepts net) eqn:Ha.
    + rewrite Start_accepts in Hr by done. pose proof (recv_loop_ending net (net_events net) zeroed) as H.
      cbn [snd] in Hr. by rewrite Hr in H.
    + unfold accepts, Start, Start_accepted in *.
      destruct (net_WSAStartup net =? 0), (net_getaddrinfo net =? 0), (net_socket net), (net_bind net),
        (net_listen net), (net_accept net); cbn in *; congruence.
  - intros Ha pre post He Hpre Hs. rewrite Start_accepts by done. rewrite He.
    destruct (recv_loop_delivers net pre (Recv (RecvBytes []) :: post) Hpre) as (t & -> & _).
    cbn [recv_loop length Z.of_nat]. unfold Start_shutdown. by rewrite Hs.
Qed.

Lemma Start_result_witness :
  let net := mkNetwork 0 0 true true true true [Recv (RecvBytes [])] true in
  accepts net = true /\ (Start net).2 = FellOffEnd.
Proof.
  split; [reflexivity|].
  exact (proj2 (Start_result (mkNetwork 0 0 true true true true [Recv (RecvBytes [])] true))
    eq_refl [] [] eq_refl (Forall_nil _) eq_refl).
Defined.
