(* ===== verification/Session.v ===== *)
(** * Session: the peer connection, its observers, the JSON signaling and the
    lifetime of the sample application

    - WeiStreaming.WeiRtc.Native/SessionDescription, IceCandidate, PeerConnection,
      CreateSessionDescriptionObserver, SetSessionDescriptionObserer,
      PeerConnectionStates, PeerConnectionEventHandler;
    - WeiRtcSampleApp/SimpleTcpSignaling and WeiRtcApp ([PeerConnectionEventHandlerImpl],
      [WebRtcSample]).

    libwebrtc and the Windows JSON classes are parameters (the classes [WebRtc] and
    [Json]).  The state of a sample is a record; every operation returns the new
    state, with the calls into libwebrtc and the signaling channel appended to
    [effects] in the order they are made.

    libwebrtc executes the calls on its signaling thread (libwebrtc/api/proxy.h) and
    fires its callbacks there, some of them during a call (libwebrtc/api/
    peer_connection_interface.h: [OnTrack] during [SetRemoteDescription]).  A call
    that sets a description therefore takes [fired], what happens to the sample from
    the call to the next statement of the caller; a tree of [happening]s says what
    that is, and the runs quantify over all trees. *)

From stdpp Require Import strings countable.
From S2P Require Import Prelude IntTypes TcpServer.
From Stdlib Require Import Ascii String.
From Stdlib Require Import List.
Open Scope Z_scope.
Open Scope list_scope.

(** ** Enumerations *)

(** [webrtc::SdpType] and [SessionDescription::SdpType]. *)
Inductive rtc_SdpType := rtc_kOffer | rtc_kPrAnswer | rtc_kAnswer | rtc_kRollback.
Inductive SdpType := kOffer | kPrAnswer | kAnswer | kRollback.

(** [webrtc::PeerConnectionInterface::IceConnectionState] is cast to
    [PeerConnectionStates::IceConnectionState] by its underlying value. *)
Inductive IceConnectionState :=
  kIceConnectionNew | kIceConnectionChecking | kIceConnectionConnected | kIceConnectionCompleted |
  kIceConnectionFailed | kIceConnectionDisconnected | kIceConnectionClosed | kIceConnectionMax.

Inductive AudioSourceType := Mic | System.
Inductive VideoSourceType := Camera | Desktop.

#[export] Instance SdpType_eq_dec : EqDecision SdpType.
Proof. solve_decision. Defined.
#[export] Instance IceConnectionState_eq_dec : EqDecision IceConnectionState.
Proof. solve_decision. Defined.

(** ** The libraries *)

(** What the code uses of libwebrtc: descriptions and candidates, created from and
    converted to strings; creation fails (a null pointer) on malformed input. *)
Class WebRtc := {
  rtc_description : Type;
  rtc_candidate : Type;
  CreateSessionDescription : rtc_SdpType -> string -> option rtc_description;
  GetType : rtc_description -> rtc_SdpType;
  description_ToString : rtc_description -> string;
  CreateIceCandidate : string -> Z -> string -> option rtc_candidate;
  candidate_ToString : rtc_candidate -> string
}.

(** A member of a JSON object under construction. *)
Inductive JsonValue (hstring double : Type) :=
  CreateStringValue (h : hstring) | CreateNumberValue (d : double).
Arguments CreateStringValue {hstring double} h.
Arguments CreateNumberValue {hstring double} d.

(** What the code uses of winrt::Windows::Data::Json and of the string
    conversions; [None] stands for a failed parse, a thrown exception (a member
    that is missing or has another type) and a double outside [int]. *)
Class Json := {
  hstring : Type;
  hstring_eq_dec :: EqDecision hstring;
  to_hstring : string -> hstring;
  to_string : hstring -> string;
  double : Type;
  double_of_Z : Z -> double;
  double_to_int : double -> option Z;
  JsonObject : Type;
  TryParse : hstring -> option JsonObject;
  GetNamedString : JsonObject -> hstring -> option hstring;
  GetNamedNumber : JsonObject -> hstring -> option double;
  ToString : list (hstring * JsonValue hstring double) -> hstring
}.

(** ** SessionDescription and IceCandidate *)

Section Model.
Context `{WebRtc} `{Json} {build : Build}.

Record SessionDescription := mkSessionDescription {
  _instance : option rtc_description;
  _sdpString : string
}.

Definition rtc_type (type : SdpType) : rtc_SdpType :=
  match type with
  | kOffer => rtc_kOffer | kPrAnswer => rtc_kPrAnswer
  | kAnswer => rtc_kAnswer | kRollback => rtc_kRollback
  end.

Definition SessionDescription_new (type : SdpType) (sdpString : string) : SessionDescription :=
  mkSessionDescription (CreateSessionDescription (rtc_type type) sdpString) sdpString.
Definition GetIntance (s : SessionDescription) : option rtc_description := _instance s.
Definition GetSdpAsString (s : SessionDescription) : string := _sdpString s.

Record IceCandidate := mkIceCandidate { _mid : string; _midIndex : Z; _candidate : string }.

(** The two constructors. *)
Definition IceCandidate_new (sdp_mid : string) (sdp_mline_index : Z) (candidate : string)
  : IceCandidate := mkIceCandidate sdp_mid sdp_mline_index candidate.
Definition IceCandidate_of (candidate : string) : IceCandidate := mkIceCandidate "" 0 candidate.
Definition GetID (c : IceCandidate) : string := _mid c.
Definition GetIndex (c : IceCandidate) : Z := _midIndex c.
Definition GetCandidate (c : IceCandidate) : string := _candidate c.

(** ** The state of a sample *)

(** Calls into libwebrtc ([_instance->...]) and messages sent, in order. *)
Inductive effect :=
  | Instance_SetRemoteDescription (desc : option rtc_description)
  | Instance_SetLocalDescription (desc : option rtc_description)
  | Instance_CreateAnswer
  | Instance_CreateOffer
  | Instance_AddIceCandidate (c : option rtc_candidate)
  | Instance_AddTrack (label : string) (streams : list string)
  | Track_AddOrUpdateSink
  | Server_Send (message : string).

(** The [PeerConnectionFactory] the sample owns by a raw pointer. *)
Inductive factory_state := Alive | Deleted.

Record Sample := mkSample {
  pc_created : bool;                      (* _pc holds a PeerConnection *)
  peerConnection : bool;                  (* _signaling._peerConnection is not null *)
  audioTracks : list string;              (* PeerConnection::_audioTracks, by label *)
  videoTracks : list VideoSourceType;     (* PeerConnection::_videoTracks *)
  peerConnectionFactory : factory_state;
  effects : list effect
}.

(** [WebRtcSample(room)]. *)
Definition WebRtcSample_new : Sample := mkSample false false [] [] Alive [].

Definition emit (e : effect) (s : Sample) : Sample :=
  mkSample (pc_created s) (peerConnection s) (audioTracks s) (videoTracks s)
    (peerConnectionFactory s) (effects s ++ [e]).

(** Dereferencing [_pc] or [_peerConnectionFactory]. *)
Definition with_pc {A} (s : Sample) (k : exec A) : exec A := if pc_created s then k else Undef.
Definition with_factory {A} (s : Sample) (k : exec A) : exec A :=
  match peerConnectionFactory s with Alive => k | Deleted => Undef end.

(** ** PeerConnection *)

(** [fired] are the callbacks, and the calls of other threads, that run during the
    call or after it before the caller goes on. *)
Definition SetRemoteDescription (fired : Sample -> exec Sample) (sdp : SessionDescription)
    (s : Sample) : exec Sample :=
  fired (emit (Instance_SetRemoteDescription (GetIntance sdp)) s).
Definition SetLocalDescription (fired : Sample -> exec Sample) (sdp : SessionDescription)
    (s : Sample) : exec Sample :=
  fired (emit (Instance_SetRemoteDescription (GetIntance sdp)) s).
Definition CreateAnswer (s : Sample) : Sample := emit Instance_CreateAnswer s.
Definition CreateOffer (s : Sample) : Sample := emit Instance_CreateOffer s.

(** [added] is what [_instance->AddIceCandidate] returns, which depends on the
    candidate and on what was called before. *)
Definition AddIceCandidate (value : IceCandidate) (added : Sample -> option rtc_candidate -> bool)
    (s : Sample) : exec (bool * Sample) :=
  let ice_candidate := CreateIceCandidate (GetID value) (GetIndex value) (GetCandidate value) in
  c_assert (match ice_candidate with Some _ => true | None => false end)
    (Done (added s ice_candidate, emit (Instance_AddIceCandidate ice_candidate) s)).

Definition _streamId : string := "wei_stream_id".
Definition _audioLabel : string := "wei_audio_label".
Definition _videoLabel : string := "wei_video_label".

(** [ok] is whether [_instance->AddTrack] succeeds. *)
Definition AddAudioTrack (type : AudioSourceType) (ok : bool) (s : Sample) : exec Sample :=
  with_factory s
    (let s := emit (Instance_AddTrack _audioLabel [_streamId]) s in
     c_assert ok
       (Done (mkSample (pc_created s) (peerConnection s) (audioTracks s ++ [_audioLabel])
                (videoTracks s) (peerConnectionFactory s) (effects s)))).
Definition AddVideoTrack (type : VideoSourceType) (ok : bool) (s : Sample) : exec Sample :=
  with_factory s
    (let s := emit (Instance_AddTrack _videoLabel [_streamId]) s in
     c_assert ok
       (Done (mkSample (pc_created s) (peerConnection s) (audioTracks s)
                (videoTracks s ++ [type]) (peerConnectionFactory s) (effects s)))).

(** The body of [Close] is commented out. *)
Definition Close (s : Sample) : Sample := s.

(** [OnTrack]: only video tracks are connected to the renderer. *)
Inductive track_kind := kAudioKind | kVideoKind.
Definition OnTrack (kind : track_kind) (s : Sample) : Sample :=
  match kind with kVideoKind => emit Track_AddOrUpdateSink s | kAudioKind => s end.

(** ** SimpleTcpSignaling, sending *)

Definition SendMessage (message : string) (s : Sample) : Sample := emit (Server_Send message) s.

Definition SendCandidate (candidate : string) (s : Sample) : Sample :=
  SendMessage (to_string (ToString
    [(to_hstring "type", CreateStringValue (to_hstring "candidate"));
     (to_hstring "label", CreateNumberValue (double_of_Z 0));
     (to_hstring "id", CreateStringValue (to_hstring "0"));
     (to_hstring "candidate", CreateStringValue (to_hstring candidate))])) s.

(** ** PeerConnectionEventHandlerImpl and WebRtcSample *)

Definition OnSdpCreated (sdp : SessionDescription) (s : Sample) : Sample :=
  SendMessage (to_string (ToString
    [(to_hstring "sdp", CreateStringValue (to_hstring (GetSdpAsString sdp)));
     (to_hstring "type", CreateStringValue (to_hstring "answer"))])) s.

Definition OnIceCandidateGenerated (cnd : IceCandidate) (s : Sample) : Sample :=
  SendCandidate (GetCandidate cnd) s.

(** [_pc.get()->Close(); delete _peerConnectionFactory;] *)
Definition OnPeerConnectionDropped (s : Sample) : exec Sample :=
  with_pc s
    (let s := Close s in
     with_factory s
       (Done (mkSample (pc_created s) (peerConnection s) (audioTracks s) (videoTracks s)
                Deleted (effects s)))).

Definition OnStandardizedIceConnectionChange (state : IceConnectionState) (s : Sample) : exec Sample :=
  if decide (state = kIceConnectionFailed) then OnPeerConnectionDropped s else Done s.

(** The other notifications have empty bodies. *)
Definition OnSdpSetSuccess (s : Sample) : Sample := s.
Definition OnSdpSetFailure (msg : string) (s : Sample) : Sample := s.
Definition OnSdpCreationFailed (msg : string) (s : Sample) : Sample := s.

Definition CreatePeerConnection (s : Sample) : exec Sample :=
  with_factory s
    (Done (mkSample true true (audioTracks s) (videoTracks s) (peerConnectionFactory s) (effects s))).

(** ** PeerConnection callbacks and the two observers *)

Definition OnIceCandidate (candidate : rtc_candidate) (s : Sample) : Sample :=
  OnIceCandidateGenerated (IceCandidate_of (candidate_ToString candidate)) s.

Definition wei_type (rtcType : rtc_SdpType) : SdpType :=
  match rtcType with
  | rtc_kOffer => kOffer | rtc_kAnswer => kAnswer
  | rtc_kPrAnswer => kPrAnswer | rtc_kRollback => kRollback
  end.

(** [SetLocalDescription] takes the ownership of the description; [kept] says
    whether libwebrtc has not deleted it when the call returns and [desc] is read. *)
Definition CreateSessionDescriptionObserver_OnSuccess (fired : Sample -> exec Sample) (kept : bool)
    (desc : rtc_description) (s : Sample) : exec Sample :=
  s ← fired (emit (Instance_SetLocalDescription (Some desc)) s);
  if kept then
    let sdp := description_ToString desc in
    Done (OnSdpCreated (SessionDescription_new (wei_type (GetType desc)) sdp) s)
  else Undef.
Definition CreateSessionDescriptionObserver_OnFailure (error : string) (s : Sample) : Sample := s.

Definition SetSessionDescriptionObserver_OnSuccess (s : Sample) : Sample := OnSdpSetSuccess s.
Definition SetSessionDescriptionObserver_OnFailure (error : string) (s : Sample) : Sample :=
  OnSdpSetFailure error s.

(** ** SimpleTcpSignaling, receiving *)

(** Dereferencing [_peerConnection]. *)
Definition with_peer {A} (s : Sample) (k : exec A) : exec A := if peerConnection s then k else Undef.

(** [OnTcpMessage]: an exception inside the [try] block is swallowed by the
    handler, which has no effect; nothing has been called when it is thrown. *)
Definition OnTcpMessage (added : Sample -> option rtc_candidate -> bool)
    (fired : Sample -> exec Sample) (message : string) (s : Sample) : exec Sample :=
  match TryParse (to_hstring message) with
  | None => Done s
  | Some json_object =>
      match GetNamedString json_object (to_hstring "type") with
      | None => Done s
      | Some type =>
          if decide (type = to_hstring "offer") then
            match GetNamedString json_object (to_hstring "sdp") with
            | None => Done s
            | Some sdpString =>
                let sdp := SessionDescription_new kOffer (to_string sdpString) in
                with_peer s
                  (s ← SetRemoteDescription fired sdp s; Done (CreateAnswer s))
            end
          else if decide (type = to_hstring "candidate") then
            match GetNamedString json_object (to_hstring "id"),
                  GetNamedNumber json_object (to_hstring "label"),
                  GetNamedString json_object (to_hstring "candidate") with
            | Some id, Some label, Some candidate =>
                index ← defined (double_to_int label);
                let ice_candidate := IceCandidate_new (to_string id) index (to_string candidate) in
                with_peer s
                  (r ← AddIceCandidate ice_candidate added s; c_assert r.1 (Done r.2))
            | _, _, _ => Done s
            end
          else Done s
      end
  end.

(** ** WeiRtcApp *)

(** The sample's message handler, and the blocking [StartSignalling]. *)
Definition Sample_handler (added : Sample -> option rtc_candidate -> bool)
    (fired : Sample -> exec Sample) : TcpChannelEventsHandler Sample := OnTcpMessage added fired.

Definition StartSignalling (added : Sample -> option rtc_candidate -> bool)
    (fired : Sample -> exec Sample) (net : network) (s : Sample) : exec Sample :=
  @serve Sample (Sample_handler added fired) (Start net).1 s.

(** The coroutine frame of [Init], which holds the canvas that [_screenPipCanvas]
    points to: not created, alive while [Init] runs, destroyed when it returns. *)
Inductive frame_state := NoFrame | Running | Finished.

Record WeiRtcApp := mkWeiRtcApp {
  _sample : option Sample;
  _room : string;
  init_frame : frame_state
}.

Definition WeiRtcApp_new : WeiRtcApp := mkWeiRtcApp None "" NoFrame.

(** [Init] up to its last step; [None] when it throws [hresult_invalid_argument]. *)
Definition Init (room : string) (audio_ok video_ok : bool) (app : WeiRtcApp)
  : exec (option WeiRtcApp) :=
  if String.eqb room "" then Done None
  else
    s ← CreatePeerConnection WebRtcSample_new;
    s ← with_pc s (AddAudioTrack Mic audio_ok s);
    s ← with_pc s (AddVideoTrack Desktop video_ok s);
    Done (Some (mkWeiRtcApp (Some s) room Running)).

(** The last step of [Init]; when it returns the frame is destroyed. *)
Definition Init_StartSignalling (added : Sample -> option rtc_candidate -> bool)
    (fired : Sample -> exec Sample) (net : network) (app : WeiRtcApp) : exec WeiRtcApp :=
  match _sample app with
  | None => Undef
  | Some s =>
      s ← StartSignalling added fired net s;
      Done (mkWeiRtcApp (Some s) (_room app)
              (if ended (Start net).2 then Finished else init_frame app))
  end.

(** [_sample->AddDesktopTrack( *_screenPipCanvas)]. *)
Definition StartDesktopCaptuer (video_ok : bool) (app : WeiRtcApp) : exec WeiRtcApp :=
  match _sample app, init_frame app with
  | Some s, Running =>
      s ← with_pc s (AddVideoTrack Desktop video_ok s);
      Done (mkWeiRtcApp (Some s) (_room app) (init_frame app))
  | _, _ => Undef
  end.

End Model.

(** ** What is assumed of the JSON library *)

(** ASCII strings: what the messages of the signaling protocol consist of. *)
Fixpoint is_ascii (s : string) : bool :=
  match s with
  | EmptyString => true
  | String c s => (Ascii.nat_of_ascii c <? 128)%nat && is_ascii s
  end.

(** The value of the first member with a key. *)
Fixpoint find_member {H D : Type} `{EqDecision H} (k : H) (members : list (H * JsonValue H D))
  : option (JsonValue H D) :=
  match members with
  | [] => None
  | (k', v) :: members => if decide (k = k') then Some v else find_member k members
  end.

(** ASCII text survives the conversions, small integers survive as doubles, and an
    object that is stringified, sent as UTF-8 and parsed has the same members. *)
Class JsonLaws `{Json} : Prop := {
  to_string_to_hstring s : is_ascii s = true -> to_string (to_hstring s) = s;
  double_to_int_of_Z z : InRange Int32 z -> double_to_int (double_of_Z z) = Some z;
  parse_stringified members : NoDup (map fst members) ->
    exists o, TryParse (to_hstring (to_string (ToString members))) = Some o /\
      forall k,
        GetNamedString o k =
          match find_member k members with Some (CreateStringValue h) => Some h | _ => None end /\
        GetNamedNumber o k =
          match find_member k members with Some (CreateNumberValue d) => Some d | _ => None end
}.

Section Laws.
Context `{WebRtc} `{JsonLaws} {build : Build}.

Lemma to_hstring_inj s s' :
  is_ascii s = true -> is_ascii s' = true -> to_hstring s = to_hstring s' -> s = s'.
Proof.
  intros Hs Hs' He. rewrite <- (to_string_to_hstring s), <- (to_string_to_hstring s') by done.
  by rewrite He.
Qed.

Lemma decide_hstring (s s' : string) :
  is_ascii s = true -> is_ascii s' = true -> String.eqb s s' = false ->
  forall (A : Type) (a b : A), (if decide (to_hstring s = to_hstring s') then a else b) = b.
Proof.
  intros Hs Hs' He A a b. destruct (decide _) as [Heq|]; [|done].
  apply to_hstring_inj in Heq; [|done..]. subst. by rewrite String.eqb_refl in He.
Qed.

Lemma decide_same (A : Type) (h : hstring) (a b : A) : (if decide (h = h) then a else b) = a.
Proof. by rewrite decide_True. Qed.

End Laws.

(** Looks a literal key up in a literal list of members. *)
Ltac find_key := cbn [find_member];
  repeat first [rewrite decide_same | rewrite decide_hstring by reflexivity].

Section Messages.
Context `{WebRtc} `{JsonLaws} {build : Build}.

(** The two messages the sample sends. *)
Definition candidate_members (candidate : string) : list (hstring * JsonValue hstring double) :=
  [(to_hstring "type", CreateStringValue (to_hstring "candidate"));
   (to_hstring "label", CreateNumberValue (double_of_Z 0));
   (to_hstring "id", CreateStringValue (to_hstring "0"));
   (to_hstring "candidate", CreateStringValue (to_hstring candidate))].
Definition answer_members (sdp : string) : list (hstring * JsonValue hstring double) :=
  [(to_hstring "sdp", CreateStringValue (to_hstring sdp));
   (to_hstring "type", CreateStringValue (to_hstring "answer"))].

Lemma NoDup_keys (ks : list string) :
  forallb is_ascii ks = true -> NoDup ks -> NoDup (map to_hstring ks).
Proof.
  intros Ha Hn. induction Hn as [|k ks Hk Hn IH]; cbn [map]; [constructor|].
  cbn in Ha. apply andb_prop in Ha as [Hk' Ha]. constructor; [|by apply IH].
  intros Hin. apply in_map_iff in Hin as (k' & He & Hin).
  rewrite forallb_forall in Ha. apply to_hstring_inj in He; [|by apply Ha|done].
  by subst.
Qed.

Lemma candidate_NoDup c : NoDup (map fst (candidate_members c)).
Proof.
  apply (NoDup_keys ["type"; "label"; "id"; "candidate"]%string); [done|].
  repeat constructor; cbn; intuition discriminate.
Qed.

Lemma answer_NoDup sdp : NoDup (map fst (answer_members sdp)).
Proof.
  apply (NoDup_keys ["sdp"; "type"]%string); [done|].
  repeat constructor; cbn; intuition discriminate.
Qed.

(** A peer that receives a candidate message adds the candidate with mid "0" and
    m-line index 0. *)
Lemma OnTcpMessage_candidate added fired c r :
  is_ascii c = true -> peerConnection r = true ->
  OnTcpMessage added fired (to_string (ToString (candidate_members c))) r =
    (x ← AddIceCandidate (IceCandidate_new "0" 0 c) added r; c_assert x.1 (Done x.2)).
Proof.
  intros Hc Hp. unfold OnTcpMessage.
  destruct (parse_stringified (candidate_members c) (candidate_NoDup c)) as (o & -> & Ho).
  destruct (Ho (to_hstring "type")) as [-> _]. unfold candidate_members; find_key.
  destruct (Ho (to_hstring "id")) as [-> _], (Ho (to_hstring "label")) as [_ ->],
    (Ho (to_hstring "candidate")) as [-> _]. unfold candidate_members; find_key.
  rewrite double_to_int_of_Z by (limits; lia). cbn [defined mbind exec_bind].
  unfold with_peer. rewrite Hp. by rewrite !to_string_to_hstring.
Qed.

(** A peer ignores an answer. *)
Lemma OnTcpMessage_answer added fired sdp r :
  OnTcpMessage added fired (to_string (ToString (answer_members sdp))) r = Done r.
Proof.
  unfold OnTcpMessage.
  destruct (parse_stringified (answer_members sdp) (answer_NoDup sdp)) as (o & -> & Ho).
  destruct (Ho (to_hstring "type")) as [-> _]. unfold answer_members; find_key. done.
Qed.

End Messages.

(** ** Events and runs *)

Section Runs.
Context `{WebRtc} `{Json} {build : Build}.

(** What happens to a sample once its peer connection exists and no message is being
    handled: a callback of libwebrtc fires, or the application adds the desktop track.
    Setting a created description as the local one fires callbacks in turn. *)
Inductive happening :=
  | Ev_CreateSuccess (desc : rtc_description) (kept : bool) (during : list happening)
  | Ev_CreateFailure (error : string)
  | Ev_SetSuccess
  | Ev_SetFailure (error : string)
  | Ev_IceCandidate (c : rtc_candidate)
  | Ev_IceConnection (state : IceConnectionState)
  | Ev_Track (kind : track_kind)
  | Ev_AddDesktopTrack (ok : bool).

Definition in_order {E} (f : E -> Sample -> exec Sample) : list E -> Sample -> exec Sample :=
  fix go es s := match es with [] => Done s | e :: es => s' ← f e s; go es s' end.

Fixpoint happen (h : happening) (s : Sample) : exec Sample :=
  match h with
  | Ev_CreateSuccess d kept during =>
      CreateSessionDescriptionObserver_OnSuccess (in_order happen during) kept d s
  | Ev_CreateFailure m => Done (CreateSessionDescriptionObserver_OnFailure m s)
  | Ev_SetSuccess => Done (SetSessionDescriptionObserver_OnSuccess s)
  | Ev_SetFailure m => Done (SetSessionDescriptionObserver_OnFailure m s)
  | Ev_IceCandidate c => Done (OnIceCandidate c s)
  | Ev_IceConnection st => OnStandardizedIceConnectionChange st s
  | Ev_Track k => Done (OnTrack k s)
  | Ev_AddDesktopTrack ok => with_pc s (AddVideoTrack Desktop ok s)
  end.

(** The events of a sample: a message arrives, and while its offer is applied
    [during] happens; or something happens between two messages. *)
Inductive session_event :=
  | Ev_Message (message : string) (during : list happening)
  | Ev_Happening (h : happening).

Definition step (added : Sample -> option rtc_candidate -> bool) (e : session_event) (s : Sample)
  : exec Sample :=
  match e with
  | Ev_Message m during => OnTcpMessage added (in_order happen during) m s
  | Ev_Happening h => happen h s
  end.

Definition run (added : Sample -> option rtc_candidate -> bool)
  : list session_event -> Sample -> exec Sample := in_order (step added).

(** The samples that a sequence of events leads to, from a fresh peer connection. *)
Inductive reachable (added : Sample -> option rtc_candidate -> bool) : Sample -> Prop :=
  | reachable_init s : CreatePeerConnection WebRtcSample_new = Done s -> reachable added s
  | reachable_step s e s' : reachable added s -> step added e s = Done s' -> reachable added s'.

(** Induction on happenings, with the hypothesis for what happens during them. *)
Lemma happening_ind' (P : happening -> Prop) :
  (forall d kept during, Forall P during -> P (Ev_CreateSuccess d kept during)) ->
  (forall h, match h with Ev_CreateSuccess _ _ _ => False | _ => True end -> P h) ->
  forall h, P h.
Proof.
  intros Hc Ho. fix IH 1. intros [d kept during| | | | | | |]; try by apply Ho.
  apply Hc. induction during as [|h during IHd]; constructor; [apply IH|apply IHd].
Qed.

(** *** What a message is *)

Inductive received :=
  | Offer (sdp : hstring)
  | Candidate (id : hstring) (label : double) (candidate : hstring)
  | Other.

(** The classification of [OnTcpMessage]. *)
Definition classify (message : string) : received :=
  match TryParse (to_hstring message) with
  | None => Other
  | Some o =>
      match GetNamedString o (to_hstring "type") with
      | None => Other
      | Some type =>
          if decide (type = to_hstring "offer") then
            match GetNamedString o (to_hstring "sdp") with Some sdp => Offer sdp | None => Other end
          else if decide (type = to_hstring "candidate") then
            match GetNamedString o (to_hstring "id"), GetNamedNumber o (to_hstring "label"),
                  GetNamedString o (to_hstring "candidate") with
            | Some id, Some label, Some candidate => Candidate id label candidate
            | _, _, _ => Other
            end
          else Other
      end
  end.

Lemma OnTcpMessage_classify added fired m s :
  OnTcpMessage added fired m s =
  match classify m with
  | Offer sdp =>
      with_peer s (s ← SetRemoteDescription fired (SessionDescription_new kOffer (to_string sdp)) s;
                   Done (CreateAnswer s))
  | Candidate id label candidate =>
      index ← defined (double_to_int label);
      with_peer s
        (r ← AddIceCandidate (IceCandidate_new (to_string id) index (to_string candidate)) added s;
         c_assert r.1 (Done r.2))
  | Other => Done s
  end.
Proof.
  unfold OnTcpMessage, classify. destruct TryParse as [o|]; [|done].
  destruct (GetNamedString o (to_hstring "type")); [|done].
  destruct (decide _); [by destruct GetNamedString|]. destruct (decide _); [|done].
  by destruct (GetNamedString o (to_hstring "id")), (GetNamedNumber o (to_hstring "label")),
    (GetNamedString o (to_hstring "candidate")).
Qed.

(** *** The trace of a sample *)

Definition answer_message (sdp : string) : string := to_string (ToString (answer_members sdp)).
Definition candidate_message (c : string) : string := to_string (ToString (candidate_members c)).

(** The effects of callbacks and of the application, between messages and while an
    offer is applied: a created description is set as the local one and, after what
    that fires, sent; a gathered candidate is sent; tracks and sinks are added. *)
Inductive happenings : list effect -> Prop :=
  | happenings_nil : happenings []
  | happenings_created d during rest : happenings during -> happenings rest ->
      happenings (Instance_SetLocalDescription (Some d) :: during ++
                  Server_Send (answer_message (description_ToString d)) :: rest)
  | happenings_candidate c rest : happenings rest ->
      happenings (Server_Send (candidate_message (candidate_ToString c)) :: rest)
  | happenings_track rest : happenings rest ->
      happenings (Instance_AddTrack _videoLabel [_streamId] :: rest)
  | happenings_sink rest : happenings rest -> happenings (Track_AddOrUpdateSink :: rest).

(** The exchanges a sample has with libwebrtc and with the remote peer: an offer is
    applied and, after what that fires, answered; a candidate is added; or something
    happens in between. *)
Inductive exchange : list effect -> Prop :=
  | exchange_offer sdp during : happenings during ->
      exchange (Instance_SetRemoteDescription (CreateSessionDescription rtc_kOffer sdp) ::
                during ++ [Instance_CreateAnswer])
  | exchange_remote_candidate c : (assert_is_on = true -> is_Some c) ->
      exchange [Instance_AddIceCandidate c]
  | exchange_happenings w : happenings w -> exchange w.

(** The invariant: the connection exists, nothing adds audio after the start, and
    the effects are a sequence of complete exchanges. *)
Record Session_inv (s : Sample) : Prop := {
  inv_pc : pc_created s = true;
  inv_peer : peerConnection s = true;
  inv_audio : audioTracks s = [];
  inv_effects : exists xs, Forall exchange xs /\ effects s = concat xs
}.

(** A step keeps the connection and extends the effects by a trace in [P]. *)
Definition extends (P : list effect -> Prop) (s s' : Sample) : Prop :=
  pc_created s' = pc_created s /\ peerConnection s' = peerConnection s /\
  audioTracks s' = audioTracks s /\ exists x, P x /\ effects s' = effects s ++ x.

#[local] Hint Constructors happenings : core.

Lemma happenings_app w w' : happenings w -> happenings w' -> happenings (w ++ w').
Proof.
  induction 1 as [|d during rest Hd _ _ IH| | |]; intros Hw'; cbn [app]; auto.
  rewrite <- app_assoc. cbn [app]. by apply happenings_created; auto.
Qed.

Lemma extends_refl s : extends happenings s s.
Proof. repeat split. exists []. by rewrite app_nil_r. Qed.

Lemma extends_trans s1 s2 s3 :
  extends happenings s1 s2 -> extends happenings s2 s3 -> extends happenings s1 s3.
Proof.
  intros (E1 & E2 & E3 & x & Hx & E) (E1' & E2' & E3' & x' & Hx' & E').
  repeat split; [congruence..|].
  exists (x ++ x'). split; [by apply happenings_app|]. by rewrite E', E, app_assoc.
Qed.

Lemma emit_extends (P : list effect -> Prop) e s : P [e] -> extends P s (emit e s).
Proof. intros He. repeat split. by exists [e]. Qed.

(** [SetRemote ...; CreateAnswer] and [SetLocal ...; Send] around what is fired. *)
Lemma around_extends (P : list effect -> Prop) e e' s s' :
  (forall x, happenings x -> P (e :: x ++ [e'])) ->
  extends happenings (emit e s) s' -> extends P s (emit e' s').
Proof.
  intros HP (E1 & E2 & E3 & x & Hx & E4). repeat split; [done..|].
  exists (e :: x ++ [e']). split; [by apply HP|]. cbn [emit effects]. rewrite E4. cbn.
  by rewrite <- !app_assoc.
Qed.

Lemma in_order_extends {E} (f : E -> Sample -> exec Sample) es :
  Forall (fun e => forall s s', f e s = Done s' -> extends happenings s s') es ->
  forall s s', in_order f es s = Done s' -> extends happenings s s'.
Proof.
  induction 1 as [|e es He _ IH]; intros s s'; cbn [in_order]; [intros [= <-]; apply extends_refl|].
  destruct (f e s) as [s1| |] eqn:E1; [|done..]. cbn [mbind exec_bind]. intros E2.
  eapply extends_trans; [by apply He|by apply IH].
Qed.

Lemma c_assert_Done {A} b (k : exec A) x : c_assert b k = Done x ->
  (assert_is_on = true -> b = true) /\ k = Done x.
Proof. unfold c_assert. destruct assert_is_on, b; cbn; intros E; split; done || congruence. Qed.

Lemma happen_extends h : forall s s', happen h s = Done s' -> extends happenings s s'.
Proof.
  induction h as [d kept during IH|h Hh] using happening_ind'; intros s s'.
  { cbn [happen]. unfold CreateSessionDescriptionObserver_OnSuccess.
    destruct (in_order happen during _) as [s1| |] eqn:E; [|done..]. cbn [mbind exec_bind].
    destruct kept; [|done]. intros [= <-].
    unfold OnSdpCreated, SendMessage. eapply around_extends; [|exact (in_order_extends _ _ IH _ _ E)].
    intros x Hx. by apply happenings_created. }
  destruct h as [|m| |m|c|st|k|ok]; cbn [happen]; try done;
    try (intros [= <-]; apply extends_refl).
  - intros [= <-]. apply emit_extends. by apply happenings_candidate.
  - unfold OnStandardizedIceConnectionChange, OnPeerConnectionDropped, with_pc, with_factory.
    destruct (decide _); [|intros [= <-]; apply extends_refl].
    destruct (pc_created s) eqn:Hp, (peerConnectionFactory (Close s)); try done.
    intros [= <-]. unfold extends. cbn. rewrite Hp. do 3 (split; [done|]). exists [].
    by rewrite app_nil_r.
  - intros [= <-]. destruct k; [apply extends_refl|]. apply emit_extends. by apply happenings_sink.
  - unfold with_pc, AddVideoTrack, with_factory.
    destruct (pc_created s) eqn:Hp, (peerConnectionFactory s); try done.
    intros [_ [= <-]]%c_assert_Done. unfold extends. cbn. rewrite Hp. do 3 (split; [done|]).
    eexists. split; [by apply happenings_track|done].
Qed.

Lemma happens_extends hs s s' : in_order happen hs s = Done s' -> extends happenings s s'.
Proof.
  apply in_order_extends, List.Forall_forall. intros h _. apply happen_extends.
Qed.

Lemma AddIceCandidate_Done v added s b s' : AddIceCandidate v added s = Done (b, s') ->
  s' = emit (Instance_AddIceCandidate (CreateIceCandidate (GetID v) (GetIndex v) (GetCandidate v))) s /\
  (assert_is_on = true -> is_Some (CreateIceCandidate (GetID v) (GetIndex v) (GetCandidate v))).
Proof.
  unfold AddIceCandidate. intros [Ha E]%c_assert_Done. injection E as _ <-. split; [done|].
  intros Hon. specialize (Ha Hon). by destruct CreateIceCandidate.
Qed.

Lemma extends_exchange s s' : extends happenings s s' -> extends exchange s s'.
Proof.
  intros (? & ? & ? & x & Hx & E). repeat split; [done..|]. exists x.
  split; [by apply exchange_happenings|done].
Qed.

Lemma step_extends added e s s' : step added e s = Done s' -> extends exchange s s'.
Proof.
  destruct e as [m during|h]; cbn [step]; [|by intros ?%happen_extends%extends_exchange].
  rewrite OnTcpMessage_classify. unfold with_peer.
  destruct (classify m) as [sdp|id label c|]; [| |intros [= <-]; apply extends_exchange, extends_refl].
  - destruct (peerConnection s); [|done]. unfold SetRemoteDescription.
    destruct (in_order happen during _) as [s1| |] eqn:E; [|done..]. cbn [mbind exec_bind].
    intros [= <-]. eapply around_extends; [|by eapply happens_extends].
    intros x Hx. by apply exchange_offer.
  - destruct (double_to_int _) as [i|]; [|done]. cbn [defined mbind exec_bind].
    destruct (peerConnection s); [|done].
    destruct (AddIceCandidate _ added s) as [[b s'']| |] eqn:Ha; [|done..].
    cbn [mbind exec_bind]. intros [_ [= <-]]%c_assert_Done.
    apply AddIceCandidate_Done in Ha as [-> Hs].
    by apply emit_extends, exchange_remote_candidate.
Qed.

(** *** Undefined behaviour *)

(** The moments of a run at which its definedness is decided: the connection is
    reported as failed, a track is added, a candidate message has a label that does
    not fit [int], a created description is read that libwebrtc has deleted. *)
Inductive moment := ConnectionFailed | TrackAdded | BadLabel | DescriptionDeleted.

#[export] Instance moment_eq_dec : EqDecision moment.
Proof. solve_decision. Defined.

Fixpoint moments (h : happening) : list moment :=
  match h with
  | Ev_CreateSuccess _ kept during =>
      concat (map moments during) ++ if kept then [] else [DescriptionDeleted]
  | Ev_IceConnection kIceConnectionFailed => [ConnectionFailed]
  | Ev_AddDesktopTrack _ => [TrackAdded]
  | _ => []
  end.

(** What happens during a message counts when the message is an offer. *)
Definition event_moments (e : session_event) : list moment :=
  match e with
  | Ev_Happening h => moments h
  | Ev_Message m during =>
      match classify m with
      | Offer _ => concat (map moments during)
      | Candidate _ label _ => match double_to_int label with Some _ => [] | None => [BadLabel] end
      | Other => []
      end
  end.

(** A moment that uses the factory, and one that is undefined by itself. *)
Definition uses_factory (m : moment) : bool :=
  match m with ConnectionFailed | TrackAdded => true | _ => false end.
Definition invalid (m : moment) : bool :=
  match m with BadLabel | DescriptionDeleted => true | _ => false end.

(** A failed connection deletes the factory: it is used again. *)
Fixpoint used_after_delete (ms : list moment) : bool :=
  match ms with
  | [] => false
  | ConnectionFailed :: ms => existsb uses_factory ms
  | _ :: ms => used_after_delete ms
  end.

(** The factory after the moments; [None] when they are undefined. *)
Definition fate_step (f : factory_state) (m : moment) : option factory_state :=
  match m, f with
  | ConnectionFailed, Alive => Some Deleted
  | TrackAdded, Alive => Some Alive
  | _, _ => None
  end.
Fixpoint fate (f : factory_state) (ms : list moment) : option factory_state :=
  match ms with [] => Some f | m :: ms => f ← fate_step f m; fate f ms end.

Definition is_Undef {A} (x : exec A) : bool := match x with Undef => true | _ => false end.

Lemma fate_deleted ms : fate Deleted ms = None <-> existsb uses_factory ms || existsb invalid ms = true.
Proof. destruct ms as [|[] ms]; cbn; rewrite ?orb_true_r; by split. Qed.

Lemma fate_alive ms : fate Alive ms = None <-> used_after_delete ms || existsb invalid ms = true.
Proof.
  induction ms as [|[] ms IH]; cbn [fate fate_step mbind option_bind used_after_delete existsb invalid];
    try done; [apply fate_deleted|by rewrite orb_true_r..].
Qed.

Lemma fate_app f ms ms' : fate f (ms ++ ms') = (f' ← fate f ms; fate f' ms').
Proof.
  revert f. induction ms as [|m ms IH]; intros f; cbn [app fate]; [done|].
  destruct (fate_step f m) as [f'|]; cbn [mbind option_bind]; [apply IH|done].
Qed.

(** An execution from a sample in use ends as its moments say. *)
Definition conforms (x : exec Sample) (o : option factory_state) : Prop :=
  match o with
  | None => x = Undef
  | Some f => exists s', x = Done s' /\ peerConnectionFactory s' = f /\
      pc_created s' = true /\ peerConnection s' = true
  end.

Definition in_use (s : Sample) : Prop := pc_created s = true /\ peerConnection s = true.

Lemma conforms_refl s f : in_use s -> peerConnectionFactory s = f -> conforms (Done s) (Some f).
Proof. intros [? ?] ?. by exists s. Qed.

Lemma conforms_bind x (k : Sample -> exec Sample) o (l : factory_state -> option factory_state) :
  conforms x o -> (forall s, in_use s -> conforms (k s) (l (peerConnectionFactory s))) ->
  conforms (s ← x; k s) (f ← o; l f).
Proof.
  intros Hx Hk. destruct o as [f|]; cbn in Hx |- *; [|by rewrite Hx].
  destruct Hx as (s & -> & <- & ? & ?). cbn [mbind exec_bind]. by apply Hk.
Qed.

Lemma in_order_conforms {E} (f : E -> Sample -> exec Sample) (ms : E -> list moment) es :
  Forall (fun e => forall s, in_use s -> conforms (f e s) (fate (peerConnectionFactory s) (ms e))) es ->
  forall s, in_use s -> conforms (in_order f es s) (fate (peerConnectionFactory s) (concat (map ms es))).
Proof.
  induction 1 as [|e es He _ IH]; intros s Hs; cbn [in_order map concat]; [by apply conforms_refl|].
  rewrite fate_app. apply conforms_bind; [by apply He|done].
Qed.

Section Release.
Context (assertions_off : assert_is_on = false).

Lemma happen_conforms h : forall s, in_use s ->
  conforms (happen h s) (fate (peerConnectionFactory s) (moments h)).
Proof.
  induction h as [d kept during IH|h Hh] using happening_ind'; intros s Hs.
  - cbn [happen moments]. unfold CreateSessionDescriptionObserver_OnSuccess. rewrite fate_app.
    apply (conforms_bind _ _ (fate (peerConnectionFactory s) (concat (map moments during)))).
    + by apply (in_order_conforms happen moments during IH (emit _ s)).
    + intros s' Hs'. destruct kept; [by apply conforms_refl|done].
  - destruct Hs as [Hpc Hp]. destruct h as [|m| |m|c|st|k|ok]; cbn [happen moments]; try done;
      try by apply conforms_refl.
    + unfold OnStandardizedIceConnectionChange, OnPeerConnectionDropped, with_pc, with_factory, Close.
      destruct st; cbn; rewrite ?Hpc; try by apply conforms_refl.
      destruct (peerConnectionFactory s); cbn; [by apply conforms_refl|done].
    + destruct k; by apply conforms_refl.
    + unfold with_pc, AddVideoTrack, with_factory, c_assert. rewrite Hpc, assertions_off. cbn.
      destruct (peerConnectionFactory s) eqn:Hf; cbn; [|done]. by apply conforms_refl.
Qed.

Lemma happens_conforms hs s : in_use s ->
  conforms (in_order happen hs s) (fate (peerConnectionFactory s) (concat (map moments hs))).
Proof. apply in_order_conforms, List.Forall_forall. intros h _. apply happen_conforms. Qed.

Lemma step_conforms added e s : in_use s ->
  conforms (step added e s) (fate (peerConnectionFactory s) (event_moments e)).
Proof.
  destruct e as [m during|h]; [|apply happen_conforms]. intros Hs. pose proof Hs as [Hpc Hp].
  cbn [step event_moments]. rewrite OnTcpMessage_classify. unfold with_peer. rewrite Hp.
  destruct (classify m) as [sdp|id label c|]; [| |by apply conforms_refl].
  - unfold SetRemoteDescription.
    rewrite <- (app_nil_r (concat (map moments during))), fate_app.
    apply (conforms_bind _ _ (fate (peerConnectionFactory s) (concat (map moments during)))).
    + by apply (happens_conforms during (emit _ s)).
    + intros s' Hs'. by apply conforms_refl.
  - destruct (double_to_int label); cbn [defined mbind exec_bind]; [|done].
    unfold AddIceCandidate, c_assert. rewrite assertions_off. cbn. by apply conforms_refl.
Qed.

Lemma run_conforms added es s : in_use s ->
  conforms (run added es s) (fate (peerConnectionFactory s) (concat (map event_moments es))).
Proof. apply in_order_conforms, List.Forall_forall. intros e _. apply step_conforms. Qed.

End Release.

End Runs.

(** ** A concrete JSON library and a concrete libwebrtc, for examples *)

Module Concrete.

Fixpoint bits_of_pos (p : positive) : string :=
  match p with
  | xH => EmptyString
  | xO p => String "0"%char (bits_of_pos p)
  | xI p => String "1"%char (bits_of_pos p)
  end.
Fixpoint pos_of_bits (s : string) : option positive :=
  match s with
  | EmptyString => Some xH
  | String "0"%char s => xO <$> pos_of_bits s
  | String "1"%char s => xI <$> pos_of_bits s
  | _ => None
  end.
Lemma pos_of_bits_of_pos p : pos_of_bits (bits_of_pos p) = Some p.
Proof. induction p as [p IH|p IH|]; cbn; by rewrite ?IH. Qed.

Definition to_sum (v : JsonValue string Z) : string + Z :=
  match v with CreateStringValue h => inl h | CreateNumberValue d => inr d end.
Definition of_sum (v : string + Z) : JsonValue string Z :=
  match v with inl h => CreateStringValue h | inr d => CreateNumberValue d end.

Definition json : Json := {|
  hstring := string;
  hstring_eq_dec := string_dec;
  to_hstring s := s;
  to_string s := s;
  double := Z;
  double_of_Z z := z;
  double_to_int z := if decide (InRange Int32 z) then Some z else None;
  JsonObject := list (string * JsonValue string Z);
  TryParse s :=
    p ← pos_of_bits s;
    ms ← (decode p : option (list (string * (string + Z))));
    Some (map (fun m => (m.1, of_sum m.2)) ms);
  GetNamedString o k := match find_member k o with Some (CreateStringValue h) => Some h | _ => None end;
  GetNamedNumber o k := match find_member k o with Some (CreateNumberValue d) => Some d | _ => None end;
  ToString members := bits_of_pos (encode (map (fun m => (m.1, to_sum m.2)) members))
|}.

#[export] Instance json_laws : @JsonLaws json.
Proof.
  split.
  - done.
  - intros z Hz. cbn. by rewrite decide_True.
  - intros members _. exists members. cbn. rewrite pos_of_bits_of_pos. cbn.
    rewrite decode_encode. cbn. split; [|done].
    rewrite map_map. f_equal. rewrite <- (map_id members) at 2. apply map_ext.
    by intros [k [h|d]].
Qed.

(** Descriptions and candidates are the data they were created from. *)
Definition webrtc : WebRtc := {|
  rtc_description := rtc_SdpType * string;
  rtc_candidate := string * Z * string;
  CreateSessionDescription t s := if String.eqb s "" then None else Some (t, s);
  GetType := fst;
  description_ToString := snd;
  CreateIceCandidate m i s := if String.eqb s "" then None else Some (m, i, s);
  candidate_ToString := snd
|}.

(** A sample right after [CreatePeerConnection]. *)
Definition sample : @Sample webrtc := @mkSample webrtc true true [] [] Alive [].

End Concrete.

(** ** Theorems *)

Section Theorems.
Context `{WebRtc} `{JsonLaws} {build : Build}.

(** Dispatch of a received message, on the JSON object that was sent: an offer
    with its [sdp] is applied as the remote description and, after what that fires,
    answered; anything that is neither a complete offer nor a candidate leaves the
    sample as it was, and so does text that is not a JSON object. *)
Theorem OnTcpMessage_dispatch added fired s members :
  NoDup (map fst members) -> peerConnection s = true ->
  let m := to_string (ToString members) in
  (find_member (to_hstring "type") members = Some (CreateStringValue (to_hstring "offer")) ->
   (forall h, find_member (to_hstring "sdp") members = Some (CreateStringValue h) ->
    OnTcpMessage added fired m s =
      (s' ← fired (emit (Instance_SetRemoteDescription
                           (CreateSessionDescription rtc_kOffer (to_string h))) s);
       Done (emit Instance_CreateAnswer s'))) /\
   (match find_member (to_hstring "sdp") members with Some (CreateStringValue _) => False | _ => True end ->
    OnTcpMessage added fired m s = Done s)) /\
  (match find_member (to_hstring "type") members with
   | Some (CreateStringValue h) => h <> to_hstring "offer" /\ h <> to_hstring "candidate"
   | _ => True
   end -> OnTcpMessage added fired m s = Done s) /\
  (forall text, TryParse (to_hstring text) = None -> OnTcpMessage added fired text s = Done s).
Proof.
  intros Hn Hp m. destruct (parse_stringified members Hn) as (o & Ho & Hm).
  assert (forall k, GetNamedString o k =
    match find_member k members with Some (CreateStringValue h) => Some h | _ => None end) as Hs
    by (intros k; apply Hm).
  unfold OnTcpMessage, with_peer, m. rewrite Ho, Hp, !Hs. split; [|split].
  - intros Ht. rewrite Ht, decide_same. split.
    + by intros h ->.
    + by destruct (find_member (to_hstring "sdp") members) as [[]|].
  - destruct (find_member (to_hstring "type") members) as [[h|d]|]; [|done..].
    intros [Ho' Hc]. by rewrite !decide_False.
  - by intros text ->.
Qed.

(** A candidate that one sample gathers reaches another one as a candidate
    with mid "0" and m-line index 0, whatever it was: the receiver hands libwebrtc
    [CreateIceCandidate "0" 0 c], and nothing but the text of [c] was sent. *)
Theorem candidate_wire added fired (s r : Sample) (c : rtc_candidate) :
  is_ascii (candidate_ToString c) = true -> peerConnection r = true ->
  let received := CreateIceCandidate "0" 0 (candidate_ToString c) in
  exists m, effects (OnIceCandidate c s) = effects s ++ [Server_Send m] /\
    OnTcpMessage added fired m r =
      c_assert (match received with Some _ => true | None => false end)
        (c_assert (added r received) (Done (emit (Instance_AddIceCandidate received) r))).
Proof.
  intros Ha Hp received. exists (candidate_message (candidate_ToString c)). split; [done|].
  unfold candidate_message. rewrite OnTcpMessage_candidate by done.
  unfold AddIceCandidate, GetID, GetIndex, GetCandidate, IceCandidate_new. cbn [_mid _midIndex _candidate].
  fold received. unfold c_assert.
  by destruct (assert_is_on && negb match received with Some _ => true | None => false end).
Qed.

(** When libwebrtc has created a description, the sample sets it as the local
    description and then, unless libwebrtc deleted it, sends its text in a message
    whose type is "answer", also when the description is an offer; a sample that
    receives the message ignores it, so an offer created by [CreateOffer] is never
    answered. *)
Theorem created_description_ignored added fired meanwhile (d : rtc_description) (s r : Sample) :
  exists m,
    CreateSessionDescriptionObserver_OnSuccess meanwhile true d s =
      (s' ← meanwhile (emit (Instance_SetLocalDescription (Some d)) s); Done (emit (Server_Send m) s')) /\
    (exists o, TryParse (to_hstring m) = Some o /\
      GetNamedString o (to_hstring "type") = Some (to_hstring "answer") /\
      GetNamedString o (to_hstring "sdp") = Some (to_hstring (description_ToString d))) /\
    OnTcpMessage added fired m r = Done r.
Proof.
  exists (answer_message (description_ToString d)). split; [done|].
  split; [|apply OnTcpMessage_answer].
  destruct (parse_stringified (answer_members (description_ToString d)) (answer_NoDup _)) as (o & Ho & Hm).
  exists o. split; [done|]. split.
  - destruct (Hm (to_hstring "type")) as [-> _]. unfold answer_members; find_key. done.
  - destruct (Hm (to_hstring "sdp")) as [-> _]. unfold answer_members; find_key. done.
Qed.

End Theorems.

Section RunTheorems.
Context `{WebRtc} `{Json} {build : Build}.


(** C2: when a run is undefined, with assertions compiled out, from a sample whose
    connection and factory exist: exactly when, in the order of its moments, the
    factory that a failed ICE connection deleted is deleted again or used for a track,
    or at some moment a candidate's label does not fit [int], or a created description
    is read although libwebrtc, which owns it once it is set, has deleted it. *)
Theorem run_undefined_iff added es s :
  assert_is_on = false ->
  pc_created s = true -> peerConnection s = true -> peerConnectionFactory s = Alive ->
  let ms := concat (map event_moments es) in
  run added es s = Undef <-> used_after_delete ms = true \/ existsb invalid ms = true.
Proof.
  intros Hoff Hpc Hp Hf ms. rewrite <- orb_true_iff, <- fate_alive, <- Hf.
  pose proof (run_conforms Hoff added es s (conj Hpc Hp)) as Hc. fold ms in Hc.
  destruct (fate _ ms); cbn in Hc; [|by rewrite Hc]. by destruct Hc as (s' & -> & _).
Qed.

(** The blocking server is a run of the messages it delivers, each with what happens
    while it is handled. *)
Lemma StartSignalling_run added meanwhile net s s' :
  StartSignalling added (fun s => in_order happen (meanwhile s) s) net s = Done s' ->
  exists durings, length durings = length (delivered (Start net).1) /\
    run added (zip_with Ev_Message (delivered (Start net).1) durings) s = Done s'.
Proof.
  unfold StartSignalling. rewrite serve_delivered. generalize (delivered (Start net).1) as ms.
  intros ms. revert s. induction ms as [|m ms IH]; intros s; cbn [map serve].
  { intros [= <-]. by exists []. }
  change (OnTcpMessage_handler m s)
    with (OnTcpMessage added (fun s => in_order happen (meanwhile s) s) m s).
  destruct (OnTcpMessage added (fun s => in_order happen (meanwhile s) s) m s) as [s1| |] eqn:E;
    cbn [mbind exec_bind]; [|done..].
  intros (durings & Hl & Hr)%IH. rewrite OnTcpMessage_classify in E.
  exists (match classify m with
    | Offer sdp => meanwhile (emit (Instance_SetRemoteDescription
        (GetIntance (SessionDescription_new kOffer (to_string sdp)))) s)
    | _ => [] end :: durings).
  split; [cbn; lia|]. cbn [zip_with]. unfold run. cbn [in_order step].
  rewrite OnTcpMessage_classify.
  destruct (classify m); unfold SetRemoteDescription in *; by rewrite E.
Qed.

(** Messages keep the connection in use; the factory can only be deleted. *)
Lemma run_in_use added es s s' :
  run added es s = Done s' -> pc_created s = true -> pc_created s' = true.
Proof.
  revert s. unfold run. induction es as [|e es IH]; intros s; cbn [in_order]; [by intros [= <-]|].
  destruct (step added e s) as [s1| |] eqn:E; cbn [mbind exec_bind]; [|done..].
  intros Hr Hpc. apply step_extends in E as (E & _). apply (IH s1 Hr). by rewrite E.
Qed.

(** The life of the application.  An empty room throws before anything is
    changed.  Otherwise [Init] adds the microphone and the desktop track and then
    serves messages until the server ends: the sample it leaves is a run of the
    delivered messages.  [StartDesktopCaptuer] is undefined before [Init] (null
    sample); while [Init] runs it is undefined only when the factory was deleted; and
    after [Init] has returned, for example because the server could not start, it is
    undefined: the canvas it dereferences was a parameter of the finished coroutine. *)
Theorem Init_lifecycle added meanwhile net room video_ok :
  Init "" true true WeiRtcApp_new = Done None /\
  StartDesktopCaptuer video_ok WeiRtcApp_new = Undef /\
  (room <> ""%string -> exists app s,
     Init room true true WeiRtcApp_new = Done (Some app) /\ _sample app = Some s /\
     audioTracks s = [_audioLabel] /\ videoTracks s = [Desktop] /\
     effects s = [Instance_AddTrack _audioLabel [_streamId]; Instance_AddTrack _videoLabel [_streamId]] /\
     is_Undef (StartDesktopCaptuer video_ok app) = false /\
     forall app',
       Init_StartSignalling added (fun s => in_order happen (meanwhile s) s) net app = Done app' ->
       exists s' durings, _sample app' = Some s' /\
         length durings = length (delivered (Start net).1) /\
         run added (zip_with Ev_Message (delivered (Start net).1) durings) s = Done s' /\
         is_Undef (StartDesktopCaptuer video_ok app') =
           ended (Start net).2 || match peerConnectionFactory s' with Alive => false | Deleted => true end).
Proof.
  split; [done|]. split; [done|]. intros Hroom. unfold Init.
  destruct (String.eqb_spec room "") as [|_]; [done|].
  unfold CreatePeerConnection, with_pc, with_factory, AddAudioTrack, AddVideoTrack, c_assert.
  cbn [WebRtcSample_new mbind exec_bind with_factory peerConnectionFactory emit pc_created negb].
  rewrite !andb_false_r. cbn -[Start].
  do 2 eexists. do 5 (split; [done|]). split.
  { unfold StartDesktopCaptuer. cbn.
    unfold with_pc, AddVideoTrack, with_factory, c_assert. cbn. by destruct (assert_is_on && negb video_ok). }
  intros app'. unfold Init_StartSignalling. cbn [_sample init_frame _room].
  destruct (StartSignalling _ _ net _) as [s'| |] eqn:E; cbn [mbind exec_bind]; [|done..].
  apply StartSignalling_run in E as (durings & Hl & Hr).
  intros [= <-]. exists s', durings. do 3 (split; [done|]). apply run_in_use in Hr; [|done].
  unfold StartDesktopCaptuer, with_pc, AddVideoTrack, with_factory, c_assert. cbn [_sample init_frame].
  destruct (ended (Start net).2); [done|]. rewrite Hr. cbn.
  destruct (peerConnectionFactory s'); [|done]. by destruct (assert_is_on && negb video_ok).
Qed.

(** [PeerConnection::SetLocalDescription] sets the remote description. *)
Lemma SetLocalDescription_remote fired sdp s :
  SetLocalDescription fired sdp s = SetRemoteDescription fired sdp s.
Proof. reflexivity. Qed.

End RunTheorems.

(** ** Witnesses *)

Module Witnesses.
Import Concrete.
#[local] Existing Instance json.
#[local] Existing Instance webrtc.
#[local] Existing Instance json_laws.
#[local] Existing Instance release_x64.

Definition never : Sample -> option rtc_candidate -> bool := fun _ _ => false.
Definition nothing : Sample -> exec Sample := in_order happen [].

Definition offer : string :=
  ToString [("sdp"%string, CreateStringValue "v=0"%string); ("type"%string, CreateStringValue "offer"%string)].

Lemma OnTcpMessage_dispatch_witness :
  exists s', OnTcpMessage never nothing offer sample = Done s' /\
    effects s' = [Instance_SetRemoteDescription (Some (rtc_kOffer, "v=0"%string)); Instance_CreateAnswer].
Proof.
  eexists. split; [exact (proj1 (proj1 (OnTcpMessage_dispatch never nothing sample
    [("sdp"%string, CreateStringValue "v=0"%string); ("type"%string, CreateStringValue "offer"%string)]
    ltac:(repeat constructor; cbn; intuition discriminate) eq_refl) eq_refl) "v=0"%string eq_refl)|reflexivity].
Defined.

Lemma candidate_wire_witness :
  exists m, effects (OnIceCandidate ("audio"%string, 3, "c"%string) sample) = [Server_Send m] /\
    OnTcpMessage never nothing m sample =
      Done (emit (Instance_AddIceCandidate (Some ("0"%string, 0, "c"%string))) sample).
Proof.
  exact (candidate_wire never nothing sample sample ("audio"%string, 3, "c"%string) eq_refl eq_refl).
Defined.

Lemma created_description_ignored_witness :
  exists m, CreateSessionDescriptionObserver_OnSuccess nothing true (rtc_kOffer, "v=0"%string) sample =
      Done (emit (Server_Send m) (emit (Instance_SetLocalDescription (Some (rtc_kOffer, "v=0"%string))) sample)) /\
    OnTcpMessage never nothing m sample = Done sample.
Proof.
  destruct (created_description_ignored never nothing nothing (rtc_kOffer, "v=0"%string) sample sample)
    as (m & He & _ & Hm).
  exists m. split; [exact He|exact Hm].
Defined.


(** The connection fails while an offer is applied, and again later. *)
Lemma run_undefined_iff_witness :
  run never [Ev_Message offer [Ev_IceConnection kIceConnectionFailed]; Ev_Happening Ev_SetSuccess;
             Ev_Happening (Ev_IceConnection kIceConnectionFailed)] sample = Undef.
Proof.
  exact (proj2 (run_undefined_iff never
    [Ev_Message offer [Ev_IceConnection kIceConnectionFailed]; Ev_Happening Ev_SetSuccess;
     Ev_Happening (Ev_IceConnection kIceConnectionFailed)] sample
    eq_refl eq_refl eq_refl eq_refl) (or_introl eq_refl)).
Defined.

(** Libwebrtc deletes the description it was given and could not set. *)
Example created_description_deleted :
  run never [Ev_Happening (Ev_CreateSuccess (rtc_kAnswer, "v=1"%string) false [Ev_SetFailure "m"])] sample
    = Undef.
Proof. reflexivity. Qed.

(** The port is taken: [bind] fails, [Init] returns, and the button is a use after free. *)
Lemma Init_lifecycle_witness :
  exists app app', Init "room" true true WeiRtcApp_new = Done (Some app) /\
    Init_StartSignalling never nothing (mkNetwork 0 0 true false true true [] true) app = Done app' /\
    is_Undef (StartDesktopCaptuer true app') = true.
Proof.
  destruct (proj2 (proj2 (Init_lifecycle never (fun _ => [])
      (mkNetwork 0 0 true false true true [] true) "room" true))
    ltac:(discriminate)) as (app & s & Hi & Hs & _ & _ & _ & _ & Hl).
  injection Hi as <-.
  destruct (Hl _ eq_refl) as (s' & durings & _ & _ & _ & Hu).
  eexists _, _. split; [reflexivity|]. split; [reflexivity|]. exact Hu.
Defined.

End Witnesses.
