(* ===== verification/Capture.v ===== *)
(** * Capture: the capturers and the capture thread

    - WeiStreaming.WeiRtc.Native/DesktopCapturer.{h,cpp}: [StartCapture],
      [StopCapture], [Dispose] and the worker loop [CaptureFrames], as the
      interleaving of the calling thread and the worker (module [Thread]);
    - CameraCapturer.{h,cpp}: the choice of the capability of the camera (module
      [Camera]).

    The capture thread reads the plain [bool] [_isRunning]; the model interleaves the
    two threads one access at a time. *)

From S2P Require Import Prelude IntTypes.
From Stdlib Require Import List.
Open Scope Z_scope.
Open Scope list_scope.

(** ** The capture thread *)

Module Thread.

(** The statements of the calling thread that touch shared state; the sleeps and the
    returned values are not among them. *)
Inductive op :=
  | ScreenCapturer_Start   (* _screenCapturer->Start(this) *)
  | Thread_Spawn           (* _thread = std::thread(...) *)
  | SetRunning (b : bool)  (* _isRunning = b *)
  | Thread_Join            (* if (_thread.joinable()) _thread.join() *)
  | ScreenCapturer_Delete. (* delete _screenCapturer *)

Definition StartCapture : list op := [ScreenCapturer_Start; Thread_Spawn; SetRunning true].
Definition StopCapture : list op := [SetRunning false; Thread_Join].
Definition Dispose : list op := StopCapture ++ [ScreenCapturer_Delete].

(** The destructor calls [Dispose]. *)
Definition DesktopCapturer_delete : list op := Dispose.

(** The worker in [CaptureFrames]: at the loop test, capturing, sleeping, returned. *)
Inductive worker := AtTest | Capturing | Sleeping | Returned.

Record state := mkState {
  program : list op;             (* what the calling thread has left to do *)
  _isRunning : bool;
  _thread : option worker;       (* a joinable thread *)
  _screenCapturer : bool;        (* not yet deleted *)
  captured : nat                 (* calls of CaptureFrame *)
}.

(** A capturer just constructed, with the calls its owner makes. *)
Definition DesktopCapturer_new (p : list op) : state := mkState p false None true 0.

(** One statement of the calling thread; a join waits for the worker. *)
Definition main_step (s : state) : exec state :=
  match program s with
  | [] => Done s
  | ScreenCapturer_Start :: p =>
      if _screenCapturer s
      then Done (mkState p (_isRunning s) (_thread s) (_screenCapturer s) (captured s))
      else Undef
  | Thread_Spawn :: p =>
      match _thread s with
      | Some _ => Fatal
      | None => Done (mkState p (_isRunning s) (Some AtTest) (_screenCapturer s) (captured s))
      end
  | SetRunning b :: p => Done (mkState p b (_thread s) (_screenCapturer s) (captured s))
  | Thread_Join :: p =>
      match _thread s with
      | None | Some Returned => Done (mkState p (_isRunning s) None (_screenCapturer s) (captured s))
      | Some _ => Done s
      end
  | ScreenCapturer_Delete :: p =>
      if _screenCapturer s
      then Done (mkState p (_isRunning s) (_thread s) false (captured s))
      else Undef
  end.

(** One step of [CaptureFrames]. *)
Definition worker_step (s : state) : exec state :=
  match _thread s with
  | Some AtTest =>
      Done (mkState (program s) (_isRunning s)
              (Some (if _isRunning s then Capturing else Returned)) (_screenCapturer s) (captured s))
  | Some Capturing =>
      if _screenCapturer s
      then Done (mkState (program s) (_isRunning s) (Some Sleeping) (_screenCapturer s) (S (captured s)))
      else Undef
  | Some Sleeping =>
      Done (mkState (program s) (_isRunning s) (Some AtTest) (_screenCapturer s) (captured s))
  | Some Returned | None => Done s
  end.

(** A schedule says who moves: [true] for the worker. *)
Fixpoint run (schedule : list bool) (s : state) : exec state :=
  match schedule with
  | [] => Done s
  | b :: schedule => s' ← (if (b : bool) then worker_step s else main_step s); run schedule s'
  end.

(** The calls an owner makes on the public interface, before the destructor. *)
Inductive call := Call_StartCapture | Call_StopCapture | Call_Dispose.

Definition ops (c : call) : list op :=
  match c with
  | Call_StartCapture => StartCapture
  | Call_StopCapture => StopCapture
  | Call_Dispose => Dispose
  end.

(** No capture is started while another one runs, and [Dispose] is left to the
    destructor. *)
Fixpoint disciplined (capturing : bool) (cs : list call) : bool :=
  match cs with
  | [] => true
  | Call_StartCapture :: cs => negb capturing && disciplined true cs
  | Call_StopCapture :: cs => disciplined false cs
  | Call_Dispose :: _ => false
  end.

Definition owner (cs : list call) : list op := concat (map ops cs) ++ DesktopCapturer_delete.

(** *** Safety *)

(** What remains to be done is compatible with a thread that exists or not: the
    capturer is used before its one deletion, a thread is spawned only when there is
    none, and the deletion comes after a join. *)
Inductive pending : bool -> list op -> Prop :=
  | pending_start p : pending false p -> pending false (ScreenCapturer_Start :: p)
  | pending_spawn p : pending true p -> pending false (Thread_Spawn :: p)
  | pending_set t b p : pending t p -> pending t (SetRunning b :: p)
  | pending_join t p : pending false p -> pending t (Thread_Join :: p)
  | pending_delete : pending false [ScreenCapturer_Delete].

Definition has_thread (s : state) : bool := match _thread s with Some _ => true | None => false end.

(** The invariant of a run. *)
Definition Inv (s : state) : Prop :=
  (_screenCapturer s = true /\ pending (has_thread s) (program s)) \/
  (program s = [] /\ _thread s = None /\ _screenCapturer s = false).

Lemma pending_owner t cs : disciplined t cs = true -> pending t (owner cs).
Proof.
  unfold owner. revert t. induction cs as [|[] cs IH]; intros t Ha; cbn in *.
  - apply pending_set, pending_join, pending_delete.
  - apply andb_prop in Ha as [Ht Ha]. destruct t; [done|]. apply pending_start, pending_spawn, pending_set. by apply IH.
  - apply pending_set, pending_join. by apply IH.
  - done.
Qed.

Lemma main_step_inv s : Inv s -> exists s', main_step s = Done s' /\ Inv s'.
Proof.
  destruct s as [p r t c n]. intros [[Hc Hp]|(Hp & Ht & Hc)]; cbn in *; subst;
    [|eexists; split; [done|]; by right].
  inversion Hp as [p' Hp' E1 E2|p' Hp' E1 E2|t' b p' Hp' E1 E2|t' p' Hp' E1 E2|E1 E2]; subst; cbn.
  - eexists. split; [done|]. left. destruct t; [done|]. by split.
  - destruct t; [done|]. eexists. split; [done|]. left. by split.
  - eexists. split; [done|]. left. by split.
  - destruct t as [[]|]; eexists; (split; [done|]); left; by split.
  - destruct t; [done|]. eexists. split; [done|]. by right.
Qed.

Lemma worker_step_inv s : Inv s -> exists s', worker_step s = Done s' /\ Inv s'.
Proof.
  destruct s as [p r t c n]. intros [[Hc Hp]|(Hp & Ht & Hc)]; cbn in *; subst;
    [|eexists; split; [done|]; by right].
  destruct t as [[]|]; eexists; (split; [reflexivity|]); left; by split.
Qed.

Lemma run_inv schedule s : Inv s -> exists s', run schedule s = Done s' /\ Inv s'.
Proof.
  revert s. induction schedule as [|b schedule IH]; intros s Hs; [by exists s|]. cbn [run].
  assert (exists s', (if b then worker_step s else main_step s) = Done s' /\ Inv s') as (s' & -> & Hs')
    by (destruct b; [by apply worker_step_inv|by apply main_step_inv]).
  by apply IH.
Qed.

(** C3: for every owner that starts no capture while one runs and leaves
    [Dispose] to the destructor, and every
    interleaving of the two threads, nothing goes wrong: no thread is overwritten while
    joinable, and [CaptureFrame] never runs on the deleted screen capturer; when the
    owner is through, the worker has been joined and the capturer deleted once. *)
Theorem capture_safe cs schedule :
  disciplined false cs = true ->
  exists s, run schedule (DesktopCapturer_new (owner cs)) = Done s /\
    (program s = [] -> _thread s = None /\ _screenCapturer s = false).
Proof.
  intros Ha. destruct (run_inv schedule (DesktopCapturer_new (owner cs))) as (s & Hs & Hi).
  { left. split; [done|]. by apply pending_owner. }
  exists s. split; [done|]. intros Hp. destruct Hi as [[_ Hi]|(_ & Ht & Hc)]; [|done].
  rewrite Hp in Hi. by inversion Hi.
Qed.

Lemma capture_safe_witness :
  exists s, run [false; false; false; true; true; true; false; true; true; false; false]
    (DesktopCapturer_new (owner [Call_StartCapture])) = Done s /\
    _thread s = None /\ _screenCapturer s = false /\ captured s = 1%nat.
Proof.
  destruct (capture_safe [Call_StartCapture]
    [false; false; false; true; true; true; false; true; true; false; false] eq_refl) as (s & Hs & Hp).
  exists s. split; [exact Hs|]. vm_compute in Hs. injection Hs as <-.
  destruct (Hp eq_refl) as [Ht Hc]. split; [exact Ht|]. split; [exact Hc|reflexivity].
Defined.

(** *** Termination of a stop *)

(** The number of steps the worker still takes once [_isRunning] is false. *)
Definition to_return (w : option worker) : nat :=
  match w with
  | Some Capturing => 3 | Some Sleeping => 2 | Some AtTest => 1 | Some Returned | None => 0
  end.

Lemma worker_returns n s : _isRunning s = false -> _screenCapturer s = true ->
  (to_return (_thread s) <= n)%nat ->
  exists s', run (repeat true n) s = Done s' /\ to_return (_thread s') = 0%nat /\
    program s' = program s /\ _screenCapturer s' = true /\ (captured s' <= S (captured s))%nat /\
    _isRunning s' = false.
Proof.
  destruct s as [p r t c k]. cbn. intros -> -> Hn.
  destruct t as [[]|]; cbn in Hn; repeat (destruct n as [|n]; [lia|]); cbn;
    match goal with
    | |- context [run (repeat true ?m) ?s0] =>
        assert (run (repeat true m) s0 = Done s0) as -> by (clear; by induction m)
    end; eexists; (split; [reflexivity|]); cbn; repeat split; lia.
Qed.

(** A stop terminates: once [_isRunning] is cleared the worker captures at most
    one more frame and returns after at most three of its steps, whereupon the join
    succeeds; without [_isRunning] cleared, the join waits. *)
Theorem StopCapture_terminates s p :
  program s = StopCapture ++ p -> _screenCapturer s = true ->
  exists s', run ([false] ++ repeat true 3 ++ [false]) s = Done s' /\
    program s' = p /\ _thread s' = None /\ _isRunning s' = false /\
    (captured s' <= S (captured s))%nat.
Proof.
  destruct s as [q r t c k]. cbn [program _screenCapturer]. intros -> ->.
  cbn [app run main_step StopCapture program]. cbn [mbind exec_bind].
  destruct (worker_returns 3 (mkState (Thread_Join :: p) false t true k)) as
    (s' & Hr & Hz & Hp & Hc & Hk & Hf); [done|done|by destruct t as [[]|]; cbn; lia|].
  cbn [repeat app] in Hr |- *. cbn [run] in Hr |- *.
  destruct t as [[]|]; cbn in Hr |- *; injection Hr as <-; cbn in *;
    eexists; (split; [reflexivity|]); repeat split; cbn; lia.
Qed.

Lemma StopCapture_terminates_witness :
  exists s', run ([false] ++ repeat true 3 ++ [false])
    (mkState StopCapture true (Some Capturing) true 7) = Done s' /\
    program s' = [] /\ _thread s' = None /\ _isRunning s' = false /\ (captured s' <= 8)%nat.
Proof.
  exact (StopCapture_terminates (mkState StopCapture true (Some Capturing) true 7) [] eq_refl eq_refl).
Defined.

(** *** The race of a start *)

Lemma run_returned schedule s : _thread s = Some Returned -> program s = [] -> run schedule s = Done s.
Proof.
  intros Ht Hp. induction schedule as [|[] schedule IH]; [done|..]; cbn [run].
  - unfold worker_step. rewrite Ht. apply IH.
  - unfold main_step. rewrite Hp. apply IH.
Qed.

(** The flag is set after the thread has been spawned, so a start can be lost:
    when the worker reaches its loop test first, [StartCapture] returns [true] with
    [_isRunning] set, and no frame is ever captured; when the flag is set first, the
    worker captures. *)
Theorem StartCapture_race :
  (exists s, run [false; false; true; false] (DesktopCapturer_new StartCapture) = Done s /\
     program s = [] /\ _isRunning s = true /\
     forall schedule s', run schedule s = Done s' -> captured s' = 0%nat) /\
  (exists s, run [false; false; false; true; true] (DesktopCapturer_new StartCapture) = Done s /\
     program s = [] /\ captured s = 1%nat).
Proof.
  split.
  - eexists. split; [reflexivity|]. split; [done|]. split; [done|].
    intros schedule s'. rewrite run_returned by done. by intros [= <-].
  - by eexists.
Qed.

(** *** Owners that break the rules *)

(** A program that cannot be completed: [alive] and [thread] say whether the screen
    capturer exists and whether a thread is joinable. *)
Fixpoint doomed (alive thread : bool) (p : list op) : bool :=
  match p with
  | [] => false
  | ScreenCapturer_Start :: p => negb alive || doomed alive thread p
  | Thread_Spawn :: p => thread || doomed alive true p
  | SetRunning _ :: p => doomed alive thread p
  | Thread_Join :: p => doomed alive false p
  | ScreenCapturer_Delete :: p => negb alive || doomed false thread p
  end.

Definition doomed_state (s : state) : bool := doomed (_screenCapturer s) (has_thread s) (program s).

Lemma main_step_doomed s s' : main_step s = Done s' -> doomed_state s = true -> doomed_state s' = true.
Proof.
  destruct s as [p r t c n]. unfold doomed_state. cbn.
  destruct p as [|[] p]; cbn; intros E Hd.
  - by injection E as <-.
  - destruct c; [|done]. injection E as <-. exact Hd.
  - destruct t; [done|]. injection E as <-. exact Hd.
  - injection E as <-. exact Hd.
  - destruct t as [[]|]; injection E as <-; exact Hd.
  - destruct c; [|done]. injection E as <-. exact Hd.
Qed.

Lemma worker_step_doomed s s' : worker_step s = Done s' -> doomed_state s = true -> doomed_state s' = true.
Proof.
  destruct s as [p r t c n]. unfold doomed_state. cbn.
  destruct t as [[]|]; cbn; intros E Hd; try (by injection E as <-).
  destruct c; [|done]. by injection E as <-.
Qed.

Lemma doomed_owner alive cs t :
  disciplined t cs = false \/ alive = false -> doomed alive t (owner cs) = true.
Proof.
  unfold owner, DesktopCapturer_delete. revert alive t.
  induction cs as [|[] cs IH]; intros alive t Hd; cbn in *.
  - by destruct Hd as [Hd| ->].
  - destruct alive, t; try done; cbn in *. apply IH. tauto.
  - apply IH. tauto.
  - destruct alive; [|done]. cbn. apply IH. by right.
Qed.

(** An owner that starts a capture while one runs (a joinable thread is
    overwritten) or calls the public [Dispose] (the destructor deletes the screen
    capturer again) never gets through, whatever the interleaving. *)
Theorem undisciplined_owner cs schedule s :
  disciplined false cs = false ->
  run schedule (DesktopCapturer_new (owner cs)) = Done s -> program s <> [].
Proof.
  intros Hd Hr. enough (doomed_state s = true) as H by (intros Hp; unfold doomed_state in H; by rewrite Hp in H).
  assert (doomed_state (DesktopCapturer_new (owner cs)) = true) as H0
    by (apply doomed_owner; by left).
  revert Hr H0. generalize (DesktopCapturer_new (owner cs)) as s0.
  induction schedule as [|b schedule IH]; intros s0; cbn [run]; [by intros [= <-]|].
  destruct (if b then worker_step s0 else main_step s0) as [s1| |] eqn:E; cbn [mbind exec_bind]; [|done..].
  intros Hr H0. apply (IH s1 Hr). destruct b; [by eapply worker_step_doomed|by eapply main_step_doomed].
Qed.

Lemma undisciplined_owner_witness :
  exists s, run (repeat false 5) (DesktopCapturer_new (owner [Call_Dispose])) = Done s /\ program s <> [].
Proof.
  eexists. split; [reflexivity|].
  exact (undisciplined_owner [Call_Dispose] (repeat false 5) _ eq_refl eq_refl).
Defined.

End Thread.

(** ** The camera's capability *)

Module Camera.

Inductive VideoType :=
  kUnknown | kI420 | kIYUV | kRGB24 | kABGR | kARGB | kARGB4444 | kRGB565 | kARGB1555 |
  kYUY2 | kYV12 | kUYVY | kMJPEG | kNV21 | kNV12 | kBGRA.

#[export] Instance VideoType_eq_dec : EqDecision VideoType.
Proof. solve_decision. Defined.

Record VideoCaptureCapability := mkCapability {
  width : Z; height : Z; maxFPS : Z; videoType : VideoType; interlaced : bool
}.

Definition VideoCaptureCapability_new : VideoCaptureCapability := mkCapability 0 0 0 kUnknown false.

(** [operator!=]. *)
Definition capability_ne (c other : VideoCaptureCapability) : bool :=
  if negb (width c =? width other) then true
  else if negb (height c =? height other) then true
  else if negb (maxFPS c =? maxFPS other) then true
  else if negb (bool_decide (videoType c = videoType other)) then true
  else negb (Bool.eqb (interlaced c) (interlaced other)).

(** The test that ends the loop. *)
Definition usable (c : VideoCaptureCapability) : bool :=
  negb (bool_decide (videoType c = kYUY2)) && negb (bool_decide (videoType c = kUnknown)).

Section Select.
(** [device_info->GetCapability(id, n, capability)] overwrites its last argument, or
    leaves it when it fails. *)
Context (GetCapability : nat -> VideoCaptureCapability -> VideoCaptureCapability).

(** The loop from index [n], with [k] capabilities left. *)
Fixpoint select_from (k n : nat) (capability : VideoCaptureCapability) : VideoCaptureCapability :=
  match k with
  | O => capability
  | S k =>
      let capability := GetCapability n capability in
      if usable capability then capability else select_from k (S n) capability
  end.

(** [caps] is [device_info->NumberOfCapabilities(id)], negative on an error. *)
Definition CameraCapturer_capability (caps : Z) : VideoCaptureCapability :=
  select_from (Z.to_nat caps) 0 VideoCaptureCapability_new.

End Select.

Definition GetVideoWidth (_capability : VideoCaptureCapability) : Z := width _capability.
Definition GetVideoHeight (_capability : VideoCaptureCapability) : Z := height _capability.

(** A device that lists its capabilities. *)
Definition listed (cs : list VideoCaptureCapability) (n : nat) (old : VideoCaptureCapability)
  : VideoCaptureCapability := default old (cs !! n).

Lemma last_cons_default {A} (c : A) cs d : List.last (c :: cs) d = List.last cs c.
Proof. revert c d. induction cs as [|c' cs IH]; intros c d; [done|]. cbn in *. by rewrite !IH. Qed.

Lemma select_from_listed pre cs old :
  select_from (listed (pre ++ cs)) (length cs) (length pre) old =
    match find usable cs with Some c => c | None => List.last cs old end.
Proof.
  revert pre old. induction cs as [|c cs IH]; intros pre old; [done|].
  cbn [length select_from find].
  assert (listed (pre ++ c :: cs) (length pre) old = c) as ->
    by (unfold listed; by rewrite list_lookup_middle).
  destruct (usable c) eqn:Hu; [done|].
  specialize (IH (pre ++ [c]) c). rewrite <- app_assoc in IH. cbn [app] in IH.
  rewrite length_app, Nat.add_comm in IH. cbn [length Nat.add] in IH. rewrite IH.
  by rewrite last_cons_default.
Qed.

(** The camera gets the first listed capability that is neither YUY2 nor unknown;
    when there is none it gets the last one, usable or not, and the empty capability
    when the device lists none or fails. *)
Theorem CameraCapturer_selects cs caps :
  (caps = Z.of_nat (length cs) ->
   CameraCapturer_capability (listed cs) caps =
     match find usable cs with Some c => c | None => List.last cs VideoCaptureCapability_new end) /\
  (caps <= 0 -> CameraCapturer_capability (listed cs) caps = VideoCaptureCapability_new) /\
  (caps = Z.of_nat (length cs) -> existsb usable cs = true ->
   usable (CameraCapturer_capability (listed cs) caps) = true).
Proof.
  assert (caps = Z.of_nat (length cs) -> CameraCapturer_capability (listed cs) caps =
    match find usable cs with Some c => c | None => List.last cs VideoCaptureCapability_new end) as H.
  { intros ->. unfold CameraCapturer_capability. rewrite Nat2Z.id.
    apply (select_from_listed [] cs). }
  split; [exact H|]. split.
  - intros Hc. unfold CameraCapturer_capability. by replace (Z.to_nat caps) with 0%nat by lia.
  - intros Hc Hu. rewrite H by done. apply existsb_exists in Hu as (c & Hin & Hu).
    destruct (find usable cs) as [c'|] eqn:Hf; [apply (find_some _ _ Hf)|].
    by rewrite (find_none _ _ Hf c Hin) in Hu.
Qed.

Lemma CameraCapturer_selects_witness :
  let yuy2 := mkCapability 1280 720 30 kYUY2 false in
  let nv12 := mkCapability 640 480 30 kNV12 false in
  CameraCapturer_capability (listed [yuy2; nv12]) 2 = nv12 /\
  CameraCapturer_capability (listed [yuy2]) 1 = yuy2.
Proof.
  split.
  - exact (proj1 (CameraCapturer_selects [mkCapability 1280 720 30 kYUY2 false;
      mkCapability 640 480 30 kNV12 false] 2) eq_refl).
  - exact (proj1 (CameraCapturer_selects [mkCapability 1280 720 30 kYUY2 false] 1) eq_refl).
Defined.

End Camera.
