(* ===== verification/Frames.v ===== *)
(** * Frames: the path of a video frame

    - WeiStreaming.WeiRtc.Native/DesktopCapturer: [OnCaptureResult], which converts
      a captured screen into the reused I420 buffer;
    - VideoSource: [OnFrame], [AddOrUpdateSink], [RemoveSink], [UpdateVideoAdapter];
    - VideoRender: [OnFrame], which scales a frame for the canvas.

    Buffers are reference counted and shared, so they live in a store: a list of
    buffers, a frame holding the index of its buffer.  The pixels, libyuv, the video
    adapter and the broadcaster are parameters (the class [VideoLibrary]). *)

From S2P Require Import Prelude IntTypes.
From Stdlib Require Import List.
Open Scope Z_scope.
Open Scope list_scope.

(** ** Frames and buffers *)

Inductive VideoRotation := kVideoRotation_0 | kVideoRotation_90 | kVideoRotation_180 | kVideoRotation_270.

#[export] Instance VideoRotation_eq_dec : EqDecision VideoRotation.
Proof. solve_decision. Defined.

(** What the code uses of libyuv, I420Buffer, VideoAdapter and VideoBroadcaster. *)
Class VideoLibrary := {
  image : Type;
  screen : Type;
  uninitialized : image;
  StrideY : Z -> Z;                                    (* of a buffer created with a width *)
  StrideU : Z -> Z;
  StrideV : Z -> Z;
  ConvertToI420 : screen -> Z -> Z -> image -> image;  (* writes width x height pixels *)
  Scale : image -> Z -> Z -> image;                    (* of a whole image to a size *)
  Rotate : image -> VideoRotation -> image;
  adapter : Type;
  wants : Type;
  broadcaster : Type;
  sink : Type;
  AdaptFrameResolution : adapter -> Z -> Z -> Z -> adapter * option (Z * Z);
  OnSinkWants : wants -> adapter -> adapter;
  broadcaster_wants : broadcaster -> wants;
  broadcaster_AddOrUpdateSink : sink -> wants -> broadcaster -> broadcaster;
  broadcaster_RemoveSink : sink -> broadcaster -> broadcaster
}.

Section Model.
Context {lib : VideoLibrary}.

Record I420Buffer := mkI420Buffer { buffer_width : Z; buffer_height : Z; pixels : image }.

Record VideoFrame := mkVideoFrame {
  video_frame_buffer : nat;
  rotation : VideoRotation;
  timestamp_us : Z;
  frame_id : Z
}.

(** The buffers allocated so far. *)
Local Notation store := (list I420Buffer).

Definition I420Buffer_Create (width height : Z) (h : store) : nat * store :=
  (length h, h ++ [mkI420Buffer width height uninitialized]).

Definition set_pixels (i : nat) (f : image -> image) (h : store) : store :=
  match h !! i with
  | Some b => <[i := mkI420Buffer (buffer_width b) (buffer_height b) (f (pixels b))]> h
  | None => h
  end.

(** [int] products of the sizes of a buffer. *)
Definition int_area (w h : Z) : exec Z := defined (c_mul Int32 Int32 w h).

(** [!buffer.get() || buffer->width() * buffer->height() < width * height]. *)
Definition too_small (buffer : option I420Buffer) (width height : Z) : exec bool :=
  match buffer with
  | None => Done true
  | Some b =>
      a ← int_area (buffer_width b) (buffer_height b);
      area ← int_area width height;
      Done (a <? area)
  end.

(** ** DesktopCapturer::OnCaptureResult *)

Record DesktopCapturer := mkDesktopCapturer {
  _i420_buffer : option nat;
  _width : option Z;            (* not initialized by the constructor *)
  _height : option Z;
  _frameCount : Z
}.

Definition DesktopCapturer_new : DesktopCapturer := mkDesktopCapturer None None None 0.

Definition _startTime : Z := 690638571000.
Definition _nanoSecondPerMillSecond : Z := 1000000.
Definition _interval_ms : Z := 100.

(** [_offset = _interval_ms * _nanoSecondPerMillSecond / 2], in [u_int64]. *)
Definition _offset : option Z :=
  p ← c_mul Int32 Uint64 _interval_ms _nanoSecondPerMillSecond;
  c_div Uint64 Int32 p 2.

(** [_startTime + (_frameCount++ * _offset)], and its conversion by
    [set_timestamp_us(int64_t)]. *)
Definition frame_timestamp (frameCount : Z) : option Z :=
  offset ← _offset;
  p ← c_mul Uint64 Uint64 frameCount offset;
  t ← c_add Uint64 Uint64 _startTime p;
  Some (static_cast Int64 t).

(** The frame goes to [VideoSource::OnFrame]. *)
Definition OnCaptureResult (success : bool) (width height : Z) (data : screen)
    (c : DesktopCapturer) (h : store) : exec (DesktopCapturer * store * option VideoFrame) :=
  if negb success then Done (c, h, None)
  else
    small ← too_small (i ← _i420_buffer c; h !! i) width height;
    let '(i, h) := if (small : bool) then I420Buffer_Create width height h
                   else (default 0%nat (_i420_buffer c), h) in
    let h := set_pixels i (ConvertToI420 data width height) h in
    timestamp ← defined (frame_timestamp (_frameCount c));
    let frameCount := static_cast Uint64 (_frameCount c + 1) in
    Done (mkDesktopCapturer (Some i) (Some width) (Some height) frameCount, h,
          Some (mkVideoFrame i kVideoRotation_0 timestamp 0)).

(** The accessors read the members. *)
Definition GetVideoWidth (c : DesktopCapturer) : exec Z := defined (_width c).
Definition GetVideoHeight (c : DesktopCapturer) : exec Z := defined (_height c).

(** ** VideoSource *)

Record VideoSource := mkVideoSource {
  preprocessor_ : option (VideoFrame -> VideoFrame);
  _broadcaster : broadcaster;
  _video_adapter : adapter
}.

Definition MaybePreprocess (s : VideoSource) (frame : VideoFrame) : VideoFrame :=
  match preprocessor_ s with Some preprocess => preprocess frame | None => frame end.

Definition UpdateVideoAdapter (s : VideoSource) : VideoSource :=
  mkVideoSource (preprocessor_ s) (_broadcaster s)
    (OnSinkWants (broadcaster_wants (_broadcaster s)) (_video_adapter s)).

Definition GetSinkWants (s : VideoSource) : wants := broadcaster_wants (_broadcaster s).

Definition AddOrUpdateSink (k : sink) (w : wants) (s : VideoSource) : VideoSource :=
  UpdateVideoAdapter (mkVideoSource (preprocessor_ s)
    (broadcaster_AddOrUpdateSink k w (_broadcaster s)) (_video_adapter s)).

Definition RemoveSink (k : sink) (s : VideoSource) : VideoSource :=
  UpdateVideoAdapter (mkVideoSource (preprocessor_ s)
    (broadcaster_RemoveSink k (_broadcaster s)) (_video_adapter s)).

Definition SetFramePreprocessor (p : option (VideoFrame -> VideoFrame)) (s : VideoSource) : VideoSource :=
  mkVideoSource p (_broadcaster s) (_video_adapter s).

(** [OnFrame]; the last component is the frame given to the broadcaster. *)
Definition VideoSource_OnFrame (original_frame : VideoFrame) (s : VideoSource) (h : store)
  : exec (VideoSource * store * option VideoFrame) :=
  let frame := MaybePreprocess s original_frame in
  b ← defined (h !! video_frame_buffer frame);
  ns ← defined (c_mul Int64 Int32 (timestamp_us frame) 1000);
  let '(a, out) := AdaptFrameResolution (_video_adapter s) (buffer_width b) (buffer_height b) ns in
  let s := mkVideoSource (preprocessor_ s) (_broadcaster s) a in
  match out with
  | None => Done (s, h, None)
  | Some (out_width, out_height) =>
      if negb (out_height =? buffer_height b) || negb (out_width =? buffer_width b) then
        let '(i, h) := I420Buffer_Create out_width out_height h in
        let h := set_pixels i (fun _ => Scale (pixels b) out_width out_height) h in
        Done (s, h, Some (mkVideoFrame i kVideoRotation_0 (timestamp_us frame) (frame_id frame)))
      else Done (s, h, Some frame)
  end.

(** ** VideoRender *)

Record VideoRender := mkVideoRender {
  _canvasSize : Z;
  _canvasRate : Z;                                     (* a [float], stored and never read *)
  _desiredWidth : Z;
  _desiiredHeight : Z;
  _i420_buffer_out : option I420Buffer
}.

(** The constructor, with the size of the canvas. *)
Definition VideoRender_new (_canvasWidth _canvasHeight : Z) : exec VideoRender :=
  canvasSize ← int_area _canvasWidth _canvasHeight;
  canvasRate ← defined (c_div Int32 Int32 _canvasWidth _canvasHeight);
  Done (mkVideoRender canvasSize canvasRate _canvasWidth _canvasHeight None).

(** A picture of [rows] rows of [columns] bytes, at the distance [stride], ends within
    a plane of [height] such rows. *)
Definition plane_holds (stride height columns rows : Z) : bool :=
  (rows - 1) * stride + columns <=? stride * height.

(** A width x height picture, read with the strides of a buffer, lies within its three
    planes. *)
Definition holds (b : I420Buffer) (width height : Z) : bool :=
  let half n := (n + 1) / 2 in
  plane_holds (StrideY (buffer_width b)) (buffer_height b) width height &&
  plane_holds (StrideU (buffer_width b)) (half (buffer_height b)) (half width) (half height) &&
  plane_holds (StrideV (buffer_width b)) (half (buffer_height b)) (half width) (half height).

(** [libyuv::I420ToARGB] reads [paint_width] x [paint_height] pixels from the buffer. *)
Record paint := mkPaint { source : I420Buffer; paint_width : Z; paint_height : Z }.

(** The sizes after [I420Buffer::Rotate]. *)
Definition rotated_size (r : VideoRotation) (b : I420Buffer) : Z * Z :=
  match r with
  | kVideoRotation_0 | kVideoRotation_180 => (buffer_width b, buffer_height b)
  | kVideoRotation_90 | kVideoRotation_270 => (buffer_height b, buffer_width b)
  end.

Definition I420Buffer_Rotate (b : I420Buffer) (r : VideoRotation) : I420Buffer :=
  mkI420Buffer (rotated_size r b).1 (rotated_size r b).2 (Rotate (pixels b) r).

(** [OnFrame], up to the call of [PaintFrameAsync]; [I420ToARGB] is given the planes and
    strides of the scaling buffer, and reading outside them is undefined. *)
Definition VideoRender_OnFrame (frame_buffer : I420Buffer) (r : VideoRotation) (s : VideoRender)
  : exec (VideoRender * paint) :=
  let buffer := if decide (r = kVideoRotation_0) then frame_buffer
                else I420Buffer_Rotate frame_buffer r in
  let width := buffer_width buffer in
  let height := buffer_height buffer in
  area ← int_area width height;
  let '(desiredWidth, desiredHeight) :=
    if _canvasSize s <? area then (width, height) else (_desiredWidth s, _desiiredHeight s) in
  small ← too_small (_i420_buffer_out s) desiredWidth desiredHeight;
  let out := match _i420_buffer_out s with
             | Some b => if (small : bool)
                         then mkI420Buffer desiredWidth desiredHeight uninitialized else b
             | None => mkI420Buffer desiredWidth desiredHeight uninitialized
             end in
  let out := mkI420Buffer (buffer_width out) (buffer_height out)
               (Scale (pixels frame_buffer) (buffer_width out) (buffer_height out)) in
  size ← int_area desiredWidth desiredHeight;    (* of the pixel array *)
  if holds out desiredWidth desiredHeight
  then Done (mkVideoRender (_canvasSize s) (_canvasRate s) desiredWidth desiredHeight (Some out),
             mkPaint out desiredWidth desiredHeight)
  else Undef.

(** A stream of frames; the paints in order. *)
Fixpoint VideoRender_run (frames : list (I420Buffer * VideoRotation)) (s : VideoRender)
  : exec (VideoRender * list paint) :=
  match frames with
  | [] => Done (s, [])
  | (b, r) :: frames =>
      '(s, p) ← VideoRender_OnFrame b r s;
      '(s, ps) ← VideoRender_run frames s;
      Done (s, p :: ps)
  end.

End Model.

(** ** Lemmas *)

Section Lemmas.
Context {lib : VideoLibrary}.
Local Notation store := (list I420Buffer).

(** A size whose area is an [int]. *)
Definition valid_size (w h : Z) : Prop := 0 < w /\ 0 < h /\ w * h <= max Int32.

Lemma int_area_valid w h : valid_size w h -> int_area w h = Done (w * h).
Proof.
  intros (Hw & Hh & Ha). unfold int_area, c_mul, c_binop.
  assert (InRange Int32 w) as Hiw by (limits; nia).
  assert (InRange Int32 h) as Hih by (limits; nia).
  change (arith Int32 Int32) with Int32.
  rewrite (static_cast_id Int32 w), (static_cast_id Int32 h) by done.
  unfold arith_result. change (is_signed Int32) with true. cbn [negb].
  rewrite (proj2 (in_range_spec Int32 (w * h))) by (limits; nia). done.
Qed.

Lemma too_small_None w h : too_small None w h = Done true.
Proof. reflexivity. Qed.

Lemma too_small_Some b w h : valid_size (buffer_width b) (buffer_height b) -> valid_size w h ->
  too_small (Some b) w h = Done (buffer_width b * buffer_height b <? w * h).
Proof. intros Hb Hs. cbn [too_small]. by rewrite !int_area_valid. Qed.

Lemma lookup_created h w ht : (I420Buffer_Create w ht h).2 !! length h = Some (mkI420Buffer w ht uninitialized).
Proof. cbn. by rewrite list_lookup_middle. Qed.

Lemma set_pixels_last h b f :
  set_pixels (length h) f (h ++ [b]) = h ++ [mkI420Buffer (buffer_width b) (buffer_height b) (f (pixels b))].
Proof.
  unfold set_pixels. rewrite list_lookup_middle by done.
  rewrite insert_app_r_alt by lia. by rewrite Nat.sub_diag.
Qed.

(** A successful capture, by whether the buffer is reused. *)
Lemma OnCaptureResult_first w ht d c h : _i420_buffer c = None ->
  OnCaptureResult true w ht d c h =
    (t ← defined (frame_timestamp (_frameCount c));
     Done (mkDesktopCapturer (Some (length h)) (Some w) (Some ht) (static_cast Uint64 (_frameCount c + 1)),
           h ++ [mkI420Buffer w ht (ConvertToI420 d w ht uninitialized)],
           Some (mkVideoFrame (length h) kVideoRotation_0 t 0))).
Proof.
  intros Hb. unfold OnCaptureResult. rewrite Hb. cbn [negb mbind option_bind too_small exec_bind I420Buffer_Create].
  by rewrite set_pixels_last.
Qed.

Lemma OnCaptureResult_reuse w ht d c h b : _i420_buffer c = Some (length h) ->
  valid_size (buffer_width b) (buffer_height b) -> valid_size w ht ->
  w * ht <= buffer_width b * buffer_height b ->
  OnCaptureResult true w ht d c (h ++ [b]) =
    (t ← defined (frame_timestamp (_frameCount c));
     Done (mkDesktopCapturer (Some (length h)) (Some w) (Some ht) (static_cast Uint64 (_frameCount c + 1)),
           h ++ [mkI420Buffer (buffer_width b) (buffer_height b) (ConvertToI420 d w ht (pixels b))],
           Some (mkVideoFrame (length h) kVideoRotation_0 t 0))).
Proof.
  intros Hb Hv Hs Ha. unfold OnCaptureResult. rewrite Hb. cbn [negb mbind option_bind].
  rewrite list_lookup_middle by done. rewrite too_small_Some by done.
  rewrite (proj2 (Z.ltb_ge _ _)) by lia. cbn [mbind exec_bind from_option id].
  by rewrite set_pixels_last.
Qed.

(** [_startTime] plus fifty million per frame. *)
Lemma frame_timestamp_value n : 0 <= n <= 100000000000 ->
  frame_timestamp n = Some (690638571000 + n * 50000000).
Proof.
  intros Hn. unfold frame_timestamp. change _offset with (Some 50000000). cbn [mbind option_bind].
  unfold c_mul, c_add, c_binop. change (arith Uint64 Uint64) with Uint64.
  unfold arith_result. change (is_signed Uint64) with false. cbn [negb].
  rewrite (static_cast_id Uint64 n), (static_cast_id Uint64 50000000) by (limits; lia).
  rewrite (static_cast_id Uint64 (n * 50000000)) by (limits; lia). cbn [mbind option_bind].
  unfold _startTime. rewrite (static_cast_id Uint64 690638571000) by (limits; lia).
  rewrite (static_cast_id Uint64 (n * 50000000)) by (limits; lia).
  rewrite (static_cast_id Uint64) by (limits; lia). cbn [mbind option_bind].
  by rewrite (static_cast_id Int64) by (limits; lia).
Qed.

(** Consecutive captures, with the frames in order. *)
Fixpoint capture_run (captures : list (Z * Z * screen)) (c : DesktopCapturer) (h : store)
  : exec (DesktopCapturer * store * list VideoFrame) :=
  match captures with
  | [] => Done (c, h, [])
  | (w, ht, d) :: captures =>
      '(c, h, f) ← OnCaptureResult true w ht d c h;
      '(c, h, fs) ← capture_run captures c h;
      Done (c, h, match f with Some f => f :: fs | None => fs end)
  end.

(** The frames of captures that share buffer [i], from frame count [n]. *)
Fixpoint frames_from (i : nat) (n : Z) (k : nat) : list VideoFrame :=
  match k with
  | O => []
  | S k => mkVideoFrame i kVideoRotation_0 (690638571000 + n * 50000000) 0 :: frames_from i (n + 1) k
  end.

Lemma capture_run_reuse_size w ht ds : forall c h b,
  _i420_buffer c = Some (length h) -> _width c = Some w -> _height c = Some ht -> valid_size w ht ->
  buffer_width b = w -> buffer_height b = ht ->
  0 <= _frameCount c -> _frameCount c + Z.of_nat (length ds) <= 100000000000 ->
  exists c', capture_run (map (fun d => (w, ht, d)) ds) c (h ++ [b]) =
      Done (c', h ++ [mkI420Buffer w ht (fold_left (fun p d => ConvertToI420 d w ht p) ds (pixels b))],
            frames_from (length h) (_frameCount c) (length ds)) /\
    GetVideoWidth c' = Done w /\ GetVideoHeight c' = Done ht.
Proof.
  induction ds as [|d ds IH]; intros c h b Hb Hcw Hch Hv Hw Hh Hn Hk; cbn [map capture_run].
  - exists c. unfold GetVideoWidth, GetVideoHeight. rewrite Hcw, Hch. destruct b; cbn in *; by subst.
  - rewrite OnCaptureResult_reuse by (rewrite ?Hw, ?Hh; done || lia).
    cbn [length] in Hk. rewrite frame_timestamp_value by lia. cbn [defined mbind exec_bind].
    rewrite (static_cast_id Uint64) by (limits; lia).
    edestruct (IH (mkDesktopCapturer (Some (length h)) (Some w) (Some ht) (_frameCount c + 1)) h
      (mkI420Buffer (buffer_width b) (buffer_height b) (ConvertToI420 d w ht (pixels b)))) as (c' & E & Hc);
      [done..|cbn; lia|cbn; lia|].
    rewrite E. cbn [mbind exec_bind]. exists c'. split; [|exact Hc]. by destruct b; cbn in *; subst.
Qed.

End Lemmas.

(** ** Capturing *)

Section CaptureTheorems.
Context {lib : VideoLibrary}.
Local Notation store := (list I420Buffer).

(** A run of captures of one size allocates one buffer.  The frames carry the
    timestamps 690638571000 + 50000000 n, fifty seconds apart in the unit that
    [set_timestamp_us] expects, and every frame, also those delivered long ago, holds
    the same buffer: once the last capture is made they all show it. *)
Theorem capture_same_size w ht d ds (h : store) :
  valid_size w ht -> Z.of_nat (length ds) < 100000000000 ->
  exists c' h', capture_run (map (fun d => (w, ht, d)) (d :: ds)) DesktopCapturer_new h =
      Done (c', h', frames_from (length h) 0 (S (length ds))) /\
    length h' = S (length h) /\
    (exists b, h' !! length h = Some b /\ buffer_width b = w /\ buffer_height b = ht /\
       pixels b = fold_left (fun p d => ConvertToI420 d w ht p) (d :: ds) uninitialized) /\
    (forall k, (k < length h)%nat -> h' !! k = h !! k) /\
    GetVideoWidth c' = Done w /\ GetVideoHeight c' = Done ht.
Proof.
  intros Hv Hk. cbn [map capture_run]. rewrite OnCaptureResult_first by done.
  rewrite frame_timestamp_value by (cbn; lia). cbn [defined mbind exec_bind].
  change (_frameCount DesktopCapturer_new + 1) with 1.
  rewrite (static_cast_id Uint64) by (limits; lia).
  destruct (capture_run_reuse_size w ht ds
    (mkDesktopCapturer (Some (length h)) (Some w) (Some ht) 1) h
    (mkI420Buffer w ht (ConvertToI420 d w ht uninitialized)))
    as (c' & E & Hc); [done..|cbn; lia|cbn; lia|].
  rewrite E. cbn [mbind exec_bind]. eexists c', _. split; [reflexivity|].
  split; [rewrite length_app; cbn; lia|]. split.
  { eexists. split; [by rewrite list_lookup_middle|]. done. }
  split; [|exact Hc]. intros k Hlt. by rewrite lookup_app_l.
Qed.

(** The buffer is reused whenever its area suffices, whatever its shape.  After a
    capture of w1 x h1, one of w2 x h2 with no more pixels is delivered as a frame of
    w1 x h1, while the capturer reports w2 x h2; and if the new capture is taller,
    its last row is written past the end of the luma plane. *)
Theorem capture_reuses_shape w1 h1 w2 h2 d1 d2 (h : store) :
  valid_size w1 h1 -> valid_size w2 h2 -> w2 * h2 <= w1 * h1 ->
  exists c' h' f1 f2 b, capture_run [(w1, h1, d1); (w2, h2, d2)] DesktopCapturer_new h =
      Done (c', h', [f1; f2]) /\
    video_frame_buffer f1 = video_frame_buffer f2 /\
    h' !! video_frame_buffer f2 = Some b /\ buffer_width b = w1 /\ buffer_height b = h1 /\
    GetVideoWidth c' = Done w2 /\ GetVideoHeight c' = Done h2 /\
    (w1 <= StrideY w1 -> h1 < h2 ->
     StrideY (buffer_width b) * buffer_height b <= (h2 - 1) * StrideY (buffer_width b) + w2 - 1).
Proof.
  intros Hv1 Hv2 Ha. cbn [capture_run]. rewrite OnCaptureResult_first by done.
  rewrite frame_timestamp_value by (cbn; lia). cbn [defined mbind exec_bind].
  change (_frameCount DesktopCapturer_new + 1) with 1.
  rewrite (static_cast_id Uint64) by (limits; lia).
  rewrite OnCaptureResult_reuse by done.
  rewrite frame_timestamp_value by (cbn; lia). cbn [defined mbind exec_bind _frameCount].
  do 5 eexists. split; [reflexivity|]. split; [done|].
  split; [by rewrite list_lookup_middle|]. cbn [buffer_width buffer_height].
  do 4 (split; [done|]). intros Hs Hlt. destruct Hv2 as (Hw2 & _). destruct Hv1 as (Hw1 & _). nia.
Qed.

(** [VideoSource::OnFrame] multiplies the timestamp by 1000 in [int64_t]: for the
    desktop capturer's frames this is defined for the first 184453628 frames and
    overflows from then on. *)
Theorem timestamp_overflow n (s : VideoSource) (h : store) i b :
  0 <= n <= 100000000000 -> h !! i = Some b -> preprocessor_ s = None ->
  exists t, frame_timestamp n = Some t /\
    (VideoSource_OnFrame (mkVideoFrame i kVideoRotation_0 t 0) s h = Undef <-> 184453628 <= n).
Proof.
  intros Hn Hi Hp. eexists. split; [by apply frame_timestamp_value|].
  unfold VideoSource_OnFrame, MaybePreprocess. rewrite Hp. cbn [video_frame_buffer timestamp_us].
  rewrite Hi. cbn [defined mbind exec_bind]. unfold c_mul, c_binop.
  change (arith Int64 Int32) with Int64. rewrite (static_cast_id Int64 1000) by (limits; lia).
  rewrite (static_cast_id Int64) by (limits; lia). unfold arith_result.
  change (is_signed Int64) with true. cbn [negb].
  destruct (in_range Int64 ((690638571000 + n * 50000000) * 1000)) eqn:E.
  - apply in_range_spec in E. cbn [defined mbind exec_bind].
    destruct (AdaptFrameResolution _ _ _ _) as [a [[ow oh]|]];
      [destruct (negb _ || negb _)|]; (split; [done|]); limits; lia.
  - apply in_range_false in E. cbn. split; [|done]. intros _. limits. lia.
Qed.

(** What the broadcaster gets: nothing when the adapter drops the frame; the
    frame itself when the adapter keeps its size; otherwise a frame on a new buffer
    of the requested size with the scaled picture and the same timestamp and id, but
    with rotation 0, although the picture was not rotated. *)
Theorem VideoSource_OnFrame_spec (f : VideoFrame) (s : VideoSource) (h : store) b :
  h !! video_frame_buffer f = Some b -> preprocessor_ s = None ->
  InRange Int64 (timestamp_us f * 1000) ->
  exists s', VideoSource_OnFrame f s h =
    match (AdaptFrameResolution (_video_adapter s) (buffer_width b) (buffer_height b)
             (timestamp_us f * 1000)).2 with
    | None => Done (s', h, None)
    | Some (ow, oh) =>
        if decide (ow = buffer_width b /\ oh = buffer_height b) then Done (s', h, Some f)
        else Done (s', h ++ [mkI420Buffer ow oh (Scale (pixels b) ow oh)],
                   Some (mkVideoFrame (length h) kVideoRotation_0 (timestamp_us f) (frame_id f)))
    end /\ _broadcaster s' = _broadcaster s.
Proof.
  intros Hb Hp Ht. unfold VideoSource_OnFrame, MaybePreprocess. rewrite Hp, Hb. cbn [defined mbind exec_bind].
  unfold c_mul, c_binop. change (arith Int64 Int32) with Int64.
  rewrite (static_cast_id Int64 1000) by (limits; lia).
  rewrite (static_cast_id Int64) by (limits; lia). unfold arith_result.
  change (is_signed Int64) with true. cbn [negb]. rewrite (proj2 (in_range_spec _ _)) by done.
  cbn [defined mbind exec_bind].
  destruct (AdaptFrameResolution _ _ _ _) as [a [[ow oh]|]]; cbn [snd]; [|by eexists].
  eexists (mkVideoSource _ _ _).
  destruct (Z.eqb_spec oh (buffer_height b)) as [->|], (Z.eqb_spec ow (buffer_width b)) as [->|];
    cbn [negb orb I420Buffer_Create]; rewrite ?set_pixels_last;
    [rewrite decide_True by done|rewrite decide_False by tauto..]; by split.
Qed.

End CaptureTheorems.

(** ** Sinks and the adapter *)

(** What [VideoAdapter] promises: the wants it was told last decide, and adapting a
    frame does not change them. *)
Class AdapterLaws (lib : VideoLibrary) := {
  last_wants : adapter -> wants;
  OnSinkWants_last w a : last_wants (OnSinkWants w a) = w;
  AdaptFrameResolution_keeps a w h ns : last_wants (AdaptFrameResolution a w h ns).1 = last_wants a
}.

Section SinkTheorems.
Context {lib : VideoLibrary} {laws : AdapterLaws lib}.
Local Notation store := (list I420Buffer).

Inductive source_op :=
  | Op_AddOrUpdateSink (k : sink) (w : wants)
  | Op_RemoveSink (k : sink)
  | Op_SetFramePreprocessor (p : option (VideoFrame -> VideoFrame))
  | Op_OnFrame (f : VideoFrame).

Definition source_step (o : source_op) (s : VideoSource) (h : store) : exec (VideoSource * store) :=
  match o with
  | Op_AddOrUpdateSink k w => Done (AddOrUpdateSink k w s, h)
  | Op_RemoveSink k => Done (RemoveSink k s, h)
  | Op_SetFramePreprocessor p => Done (SetFramePreprocessor p s, h)
  | Op_OnFrame f => '(s, h, _) ← VideoSource_OnFrame f s h; Done (s, h)
  end.

Fixpoint source_run (os : list source_op) (s : VideoSource) (h : store) : exec (VideoSource * store) :=
  match os with
  | [] => Done (s, h)
  | o :: os => '(s, h) ← source_step o s h; source_run os s h
  end.

Lemma source_step_wants o s h s' h' : source_step o s h = Done (s', h') ->
  last_wants (_video_adapter s) = GetSinkWants s \/
  match o with Op_AddOrUpdateSink _ _ | Op_RemoveSink _ => True | _ => False end ->
  last_wants (_video_adapter s') = GetSinkWants s'.
Proof.
  destruct o as [k w|k|p|f]; cbn [source_step]; intros E Hw.
  - injection E as <- <-. apply OnSinkWants_last.
  - injection E as <- <-. apply OnSinkWants_last.
  - injection E as <- <-. by destruct Hw.
  - destruct Hw as [Hw|[]]. revert E. unfold VideoSource_OnFrame.
    destruct (h !! _) as [b|]; [|done]. cbn [defined mbind exec_bind].
    destruct (c_mul _ _ _ _) as [ns|]; [|done]. cbn [defined mbind exec_bind].
    pose proof (AdaptFrameResolution_keeps (_video_adapter s) (buffer_width b) (buffer_height b) ns) as Hk.
    destruct (AdaptFrameResolution _ _ _ _) as [a [[ow oh]|]]; cbn [fst] in Hk;
      [destruct (negb _ || negb _)|]; intros [= <- <-]; by cbn; rewrite Hk.
Qed.

(** From the first time a sink is added, updated or removed, the adapter works
    with the wants that the broadcaster computes from its current sinks, whatever
    frames and preprocessors come in between. *)
Theorem adapter_follows_sinks (k : sink) (w : option wants) os s h s' h' :
  source_run ((match w with Some w => Op_AddOrUpdateSink k w | None => Op_RemoveSink k end) :: os) s h
    = Done (s', h') ->
  last_wants (_video_adapter s') = GetSinkWants s'.
Proof.
  cbn [source_run]. intros E.
  assert (exists s1, source_run os s1 h = Done (s', h') /\ last_wants (_video_adapter s1) = GetSinkWants s1)
    as (s1 & E1 & H1) by (destruct w; eexists; (split; [exact E|]); apply OnSinkWants_last).
  clear E. revert s1 h E1 H1. induction os as [|o os IH]; intros s1 h; cbn [source_run].
  - by intros [= <- <-].
  - destruct (source_step o s1 h) as [[s2 h2]| |] eqn:Es; cbn [mbind exec_bind]; [|done..].
    intros E1 H1. apply (IH s2 h2 E1). eapply source_step_wants; [exact Es|by left].
Qed.

End SinkTheorems.

(** ** Rendering *)

(** The rows of the planes of a created buffer hold its width. *)
Class StrideLaws (lib : VideoLibrary) := {
  StrideY_row w : 0 < w -> w <= StrideY w;
  StrideU_row w : 0 < w -> (w + 1) / 2 <= StrideU w;
  StrideV_row w : 0 < w -> (w + 1) / 2 <= StrideV w
}.

Section RenderLemmas.
Context {lib : VideoLibrary}.

(** The size [OnFrame] computes with. *)
Definition shown_size (f : I420Buffer * VideoRotation) : Z * Z := rotated_size f.2 f.1.

Lemma VideoRender_OnFrame_rotated b r s :
  VideoRender_OnFrame b r s =
  VideoRender_OnFrame (mkI420Buffer (rotated_size r b).1 (rotated_size r b).2 (pixels b)) kVideoRotation_0 s.
Proof. destruct r, b; reflexivity. Qed.

(** The size painted for a frame. *)
Definition desired_size (s : VideoRender) (size : Z * Z) : Z * Z :=
  if _canvasSize s <? size.1 * size.2 then size else (_desiredWidth s, _desiiredHeight s).

(** The size of the scaling buffer for a painted size: the buffer is kept when its
    area suffices. *)
Definition scaled_size (s : VideoRender) (desired : Z * Z) : Z * Z :=
  match _i420_buffer_out s with
  | Some o => if buffer_width o * buffer_height o <? desired.1 * desired.2 then desired
              else (buffer_width o, buffer_height o)
  | None => desired
  end.

(** A frame whose picture is read beyond the planes of the buffer kept for it. *)
Definition misfit (s : VideoRender) (size : Z * Z) : bool :=
  match _i420_buffer_out s with
  | Some o =>
      let desired := desired_size s size in
      (desired.1 * desired.2 <=? buffer_width o * buffer_height o) && negb (holds o desired.1 desired.2)
  | None => false
  end.

(** Sizes of buffers and pictures whose areas are [int]s. *)
Definition valid (size : Z * Z) : Prop := valid_size size.1 size.2.

Definition valid_state (s : VideoRender) : Prop :=
  valid (_desiredWidth s, _desiiredHeight s) /\
  match _i420_buffer_out s with Some o => valid (buffer_width o, buffer_height o) | None => True end.

Lemma valid_desired s size : valid_state s -> valid size -> valid (desired_size s size).
Proof. intros [Hd _] Hv. unfold desired_size. by destruct (_ <? _). Qed.

Lemma valid_scaled s desired : valid_state s -> valid desired -> valid (scaled_size s desired).
Proof.
  intros [_ Ho] Hv. unfold scaled_size. destruct (_i420_buffer_out s); [|done]. by destruct (_ <? _).
Qed.

(** The constructor for a canvas whose area is an [int]. *)
Lemma VideoRender_new_valid cw ch : valid_size cw ch ->
  exists rate, VideoRender_new cw ch = Done (mkVideoRender (cw * ch) rate cw ch None).
Proof.
  intros Hv. unfold VideoRender_new. rewrite int_area_valid by done. destruct Hv as (Hw & Hh & Ha).
  assert (InRange Int32 cw /\ InRange Int32 ch) as [Hiw Hih] by (limits; nia).
  unfold c_div. change (arith Int32 Int32) with Int32. cbv zeta. rewrite !static_cast_id by done.
  rewrite (proj2 (Z.eqb_neq ch 0)) by lia. unfold arith_result.
  change (is_signed Int32) with true. cbn [negb].
  rewrite (proj2 (in_range_spec Int32 (Z.quot cw ch))); [by eexists|].
  rewrite Z.quot_div_nonneg by lia. pose proof (Z.div_pos cw ch). pose proof (Z.div_le_upper_bound cw ch cw).
  limits. nia.
Qed.

(** One frame of a valid size in a valid state. *)
Lemma VideoRender_OnFrame_valid b r s :
  valid (shown_size (b, r)) -> valid_state s ->
  let desired := desired_size s (shown_size (b, r)) in
  let scaled := scaled_size s desired in
  let out := mkI420Buffer scaled.1 scaled.2 (Scale (pixels b) scaled.1 scaled.2) in
  VideoRender_OnFrame b r s =
    if holds out desired.1 desired.2
    then Done (mkVideoRender (_canvasSize s) (_canvasRate s) desired.1 desired.2 (Some out),
               mkPaint out desired.1 desired.2)
    else Undef.
Proof.
  intros Hv Hs. cbv zeta. pose proof (valid_desired s _ Hs Hv) as Hd. destruct Hs as [_ Ho].
  rewrite VideoRender_OnFrame_rotated. unfold shown_size in *. cbn [fst snd] in *.
  unfold VideoRender_OnFrame. rewrite decide_True by done. cbn [buffer_width buffer_height pixels].
  rewrite int_area_valid by done. cbn [mbind exec_bind]. unfold scaled_size. fold (rotated_size r b) in *.
  unfold desired_size in *. set (d := if _canvasSize s <? _ then rotated_size r b else _) in *.
  replace (if _canvasSize s <? _ then _ else _) with d
    by (unfold d; destruct (_ <? _); [by destruct (rotated_size r b)|done]).
  destruct d as [dw dh]. unfold valid in *. cbn [fst snd] in *.
  destruct (_i420_buffer_out s) as [o|].
  - rewrite too_small_Some, int_area_valid by done. cbn [mbind exec_bind].
    destruct (_ <? dw * dh); cbn [fst snd buffer_width buffer_height]; by destruct (holds _ dw dh).
  - rewrite too_small_None, int_area_valid by done. cbn [mbind exec_bind buffer_width buffer_height].
    by destruct (holds _ dw dh).
Qed.

Lemma holds_pixels b p w h : holds (mkI420Buffer (buffer_width b) (buffer_height b) p) w h = holds b w h.
Proof. reflexivity. Qed.

(** A state that a frame leaves is valid again. *)
Lemma VideoRender_OnFrame_state b r s s' p :
  valid (shown_size (b, r)) -> valid_state s -> VideoRender_OnFrame b r s = Done (s', p) -> valid_state s'.
Proof.
  intros Hv Hs. rewrite VideoRender_OnFrame_valid by done. cbv zeta.
  pose proof (valid_desired s _ Hs Hv) as Hd. pose proof (valid_scaled s _ Hs Hd) as Hb.
  destruct (holds _ _ _); [|done]. intros [= <- _]. split; [exact Hd|exact Hb].
Qed.

End RenderLemmas.

Section RenderTheorems.
Context {lib : VideoLibrary} {laws : StrideLaws lib}.

Lemma plane_holds_row stride height columns : 0 < height -> columns <= stride ->
  plane_holds stride height columns height = true.
Proof. intros Hh Hc. apply Z.leb_le. nia. Qed.

(** A buffer holds a picture of its own size. *)
Lemma holds_own b : 0 < buffer_width b -> 0 < buffer_height b ->
  holds b (buffer_width b) (buffer_height b) = true.
Proof.
  intros Hw Hh. unfold holds. assert (0 < (buffer_height b + 1) / 2) by (apply Z.div_str_pos; lia).
  rewrite !plane_holds_row; auto using StrideY_row, StrideU_row, StrideV_row.
Qed.

(** Which frames are undefined. *)
Lemma VideoRender_OnFrame_misfit b r s :
  valid (shown_size (b, r)) -> valid_state s ->
  VideoRender_OnFrame b r s = Undef <-> misfit s (shown_size (b, r)) = true.
Proof.
  intros Hv Hs. rewrite VideoRender_OnFrame_valid by done. cbv zeta.
  pose proof (valid_desired s _ Hs Hv) as Hd. set (d := desired_size s _) in *. unfold misfit. fold d.
  assert (forall p, holds (mkI420Buffer d.1 d.2 p) d.1 d.2 = true) as Hfresh
    by (intros p; apply (holds_own (mkI420Buffer d.1 d.2 p)); apply Hd).
  unfold scaled_size. destruct (_i420_buffer_out s) as [o|]; [|by rewrite Hfresh].
  destruct (Z.ltb_spec (buffer_width o * buffer_height o) (d.1 * d.2)) as [Hlt|Hle]; cbn [fst snd].
  - rewrite Hfresh, (proj2 (Z.leb_gt _ _)) by lia. done.
  - rewrite (proj2 (Z.leb_le _ _)) by lia. rewrite holds_pixels. by destruct (holds o d.1 d.2).
Qed.

(** The state of a renderer between frames: what is painted next has the size of the
    canvas or of a frame larger than the canvas; all sizes are valid. *)
Definition render_inv (canvas : Z * Z) (sizes : list (Z * Z)) (s : VideoRender) : Prop :=
  _canvasSize s = canvas.1 * canvas.2 /\ valid_state s /\
  let desired := (_desiredWidth s, _desiiredHeight s) in
  desired = canvas \/ (In desired sizes /\ canvas.1 * canvas.2 < desired.1 * desired.2).

Lemma render_inv_new canvas sizes s : VideoRender_new canvas.1 canvas.2 = Done s -> valid canvas ->
  render_inv canvas sizes s.
Proof.
  intros Hn Hv. destruct (VideoRender_new_valid canvas.1 canvas.2 Hv) as [rate E].
  rewrite E in Hn. injection Hn as <-. destruct canvas as [cw ch]. split; [done|]. split; [|by left]. by split.
Qed.

(** What is known of the picture painted for a frame. *)
Definition good_paint (canvas : Z * Z) (sizes : list (Z * Z)) (p : paint) : Prop :=
  let size := (paint_width p, paint_height p) in
  holds (source p) size.1 size.2 = true /\
  (size = canvas \/ (In size sizes /\ canvas.1 * canvas.2 < size.1 * size.2)).

(** One frame from a state of the invariant. *)
Lemma render_inv_step canvas sizes s f :
  valid (shown_size f) -> In (shown_size f) sizes -> render_inv canvas sizes s ->
  match VideoRender_OnFrame f.1 f.2 s with
  | Done (s', p) => misfit s (shown_size f) = false /\ render_inv canvas sizes s' /\ good_paint canvas sizes p
  | Undef => misfit s (shown_size f) = true
  | Fatal => False
  end.
Proof.
  destruct f as [b r]. cbn [fst snd]. intros Hv Hin (Hc & Hs & Hd).
  pose proof (VideoRender_OnFrame_misfit b r s Hv Hs) as Hm.
  destruct (VideoRender_OnFrame b r s) as [[s' p]| |] eqn:E; [| |by apply Hm].
  - split; [destruct (misfit _ _); [discriminate (proj2 Hm eq_refl)|done]|].
    pose proof (VideoRender_OnFrame_state b r s s' p Hv Hs E) as Hs'.
    rewrite VideoRender_OnFrame_valid in E by done. cbv zeta in E.
    destruct (holds _ _ _) eqn:Eh; [|done]. injection E as <- <-.
    assert (desired_size s (shown_size (b, r)) = canvas \/
      (In (desired_size s (shown_size (b, r))) sizes /\ canvas.1 * canvas.2 <
         (desired_size s (shown_size (b, r))).1 * (desired_size s (shown_size (b, r))).2)) as Hd'.
    { unfold desired_size. rewrite <- Hc.
      destruct (Z.ltb_spec (_canvasSize s) ((shown_size (b, r)).1 * (shown_size (b, r)).2)); [by right|].
      by rewrite Hc. }
    unfold render_inv, good_paint. cbn [_canvasSize _desiredWidth _desiiredHeight paint_width paint_height source].
    rewrite <- surjective_pairing. done.
  - rewrite VideoRender_OnFrame_valid in E by done. cbv zeta in E. by destruct (holds _ _ _).
Qed.

(** The outcome of a whole stream from a state of the invariant. *)
Lemma render_inv_run canvas sizes frames : forall s,
  Forall (fun f => valid (shown_size f) /\ In (shown_size f) sizes) frames -> render_inv canvas sizes s ->
  match VideoRender_run frames s with
  | Done (s', ps) => length ps = length frames /\ Forall (good_paint canvas sizes) ps /\ render_inv canvas sizes s'
  | Undef => exists before f after s1 ps, frames = before ++ f :: after /\
      VideoRender_run before s = Done (s1, ps) /\ misfit s1 (shown_size f) = true
  | Fatal => False
  end.
Proof.
  induction frames as [|f frames IH]; intros s Hf Hi; [done|]. apply Forall_cons_iff in Hf as [[Hv Hin] Hf].
  pose proof (render_inv_step canvas sizes s f Hv Hin Hi) as Hstep. destruct f as [b r].
  cbn [VideoRender_run]. cbn [fst snd] in Hstep.
  destruct (VideoRender_OnFrame b r s) as [[s1 p]| |] eqn:E; [|done|].
  - destruct Hstep as (Hm & Hi1 & Hp). specialize (IH s1 Hf Hi1). cbn [mbind exec_bind].
    destruct (VideoRender_run frames s1) as [[s' ps]| |]; cbn [mbind exec_bind]; [|done|].
    + destruct IH as (Hl & Hps & Hi'). split; [cbn; by rewrite Hl|]. split; [by constructor|done].
    + destruct IH as (before & f & after & s2 & ps & -> & Hr & Hm2).
      exists ((b, r) :: before), f, after, s2, (p :: ps). split; [done|]. split; [|done].
      cbn [VideoRender_run]. rewrite E. cbn [mbind exec_bind]. by rewrite Hr.
  - by exists [], (b, r), frames, s, [].
Qed.

(** A run up to a frame that misfits is undefined. *)
Lemma VideoRender_run_misfit before f after s s1 ps :
  valid (shown_size f) -> valid_state s1 -> VideoRender_run before s = Done (s1, ps) ->
  misfit s1 (shown_size f) = true -> VideoRender_run (before ++ f :: after) s = Undef.
Proof.
  intros Hv. revert s ps. induction before as [|[b r] before IH]; intros s ps Hs.
  - intros [= -> _] Hm. destruct f as [b r]. cbn [app VideoRender_run].
    by rewrite (proj2 (VideoRender_OnFrame_misfit b r s1 Hv Hs) Hm).
  - cbn [app VideoRender_run]. destruct (VideoRender_OnFrame b r s) as [[s2 p]| |]; cbn [mbind exec_bind]; [|done..].
    destruct (VideoRender_run before s2) as [[s3 ps3]| |] eqn:E; cbn [mbind exec_bind]; [|done..].
    intros [= -> _] Hm. by rewrite (IH s2 ps3 Hs E Hm).
Qed.

(** The scaling buffer has exactly the painted size. *)
Definition exact_paint (p : paint) : Prop :=
  buffer_width (source p) = paint_width p /\ buffer_height (source p) = paint_height p.

(** Of the frames larger than the canvas, none is narrower or lower than an earlier one. *)
Definition growing (canvas : Z * Z) (sizes : list (Z * Z)) : Prop :=
  forall before p after, sizes = before ++ p :: after -> canvas.1 * canvas.2 < p.1 * p.2 ->
  Forall (fun q => canvas.1 * canvas.2 < q.1 * q.2 -> p.1 <= q.1 /\ p.2 <= q.2) after.

Lemma growing_tail canvas p sizes : growing canvas (p :: sizes) -> growing canvas sizes.
Proof. intros Hg before q after -> Hq. by apply (Hg (p :: before)). Qed.

(** The state between the frames of a growing stream. *)
Definition settled (canvas : Z * Z) (sizes : list (Z * Z)) (s : VideoRender) : Prop :=
  match _i420_buffer_out s with
  | None => True
  | Some o => buffer_width o = _desiredWidth s /\ buffer_height o = _desiiredHeight s
  end /\
  ((_desiredWidth s, _desiiredHeight s) = canvas \/
   Forall (fun q => canvas.1 * canvas.2 < q.1 * q.2 -> _desiredWidth s <= q.1 /\ _desiiredHeight s <= q.2) sizes).

(** The scaling buffer of a settled state gets the painted size. *)
Lemma settled_scaled canvas f sizes s :
  _canvasSize s = canvas.1 * canvas.2 -> valid_state s -> valid f -> settled canvas (f :: sizes) s ->
  scaled_size s (desired_size s f) = desired_size s f.
Proof.
  intros Hc [Hd _] Hv [Ho Hs]. unfold scaled_size, desired_size. destruct (_i420_buffer_out s) as [o|]; [|done].
  destruct Ho as [-> ->]. rewrite Hc. destruct (Z.ltb_spec (canvas.1 * canvas.2) (f.1 * f.2)) as [Hl|Hl].
  - destruct (Z.ltb_spec (_desiredWidth s * _desiiredHeight s) (f.1 * f.2)) as [|Hle]; [done|].
    destruct f as [w h], Hd as (Hw & Hh & _), Hv as (Hfw & Hfh & _). cbn [fst snd] in *.
    destruct Hs as [<-|Hs]; [cbn [fst snd] in Hl; lia|]. apply Forall_cons_iff in Hs as [Hs _].
    destruct (Hs Hl) as [H1 H2]. cbn [fst snd] in *.
    assert (_desiredWidth s = w) by nia. assert (_desiiredHeight s = h) by nia. by f_equal.
  - cbn [fst snd]. by rewrite Z.ltb_irrefl.
Qed.

Lemma settled_run canvas frames : forall s,
  Forall (fun f => valid (shown_size f)) frames -> growing canvas (map shown_size frames) ->
  _canvasSize s = canvas.1 * canvas.2 -> valid_state s -> settled canvas (map shown_size frames) s ->
  exists s' ps, VideoRender_run frames s = Done (s', ps) /\ Forall exact_paint ps.
Proof.
  induction frames as [|[b r] frames IH]; intros s Hf Hg Hc Hs Hi; [by exists s, []|].
  apply Forall_cons_iff in Hf as [Hv Hf]. cbn [map] in Hg, Hi.
  pose proof (settled_scaled canvas _ _ s Hc Hs Hv Hi) as Hsc.
  pose proof (VideoRender_OnFrame_valid b r s Hv Hs) as E. cbv zeta in E. rewrite Hsc in E.
  pose proof (valid_desired s _ Hs Hv) as Hd. set (size := shown_size (b, r)) in *.
  set (d := desired_size s size) in *. set (o := mkI420Buffer d.1 d.2 _) in E.
  assert (holds o d.1 d.2 = true) as Ho by (apply (holds_own o); apply Hd). rewrite Ho in E.
  set (s1 := mkVideoRender _ _ _ _ _) in E.
  destruct (IH s1) as (s' & ps & Er & Hps); [done|by eapply growing_tail|done|done| |].
  - split; [done|]. cbn. rewrite <- surjective_pairing. unfold d, desired_size. rewrite Hc.
    destruct (Z.ltb_spec (canvas.1 * canvas.2) (size.1 * size.2)) as [Hl|Hl].
    + right. by apply (Hg [] size).
    + destruct Hi as [_ [Hi|Hi]]; [by left|right]. by apply Forall_cons_iff in Hi as [_ Hi].
  - cbn [VideoRender_run]. rewrite E. cbn [mbind exec_bind]. rewrite Er. cbn [mbind exec_bind].
    exists s', (mkPaint o d.1 d.2 :: ps). split; [done|]. by constructor.
Qed.

(** C34: a renderer whose canvas has a positive size and an area that is an [int], on
    any stream of frames of such sizes after rotation.  Nothing aborts and no size
    overflows.  The run is undefined exactly when at some frame the buffer kept from
    earlier frames has enough pixels but not the shape: the picture read from it with
    its strides ends beyond a plane.  Otherwise every frame is painted, at the
    canvas's size or that of a frame larger than the canvas, from planes that hold
    the picture.  When the frames larger than the canvas never shrink in width or
    height, the run is defined and every picture comes from a buffer of exactly its
    size. *)
Theorem VideoRender_paints canvas frames s :
  VideoRender_new canvas.1 canvas.2 = Done s -> valid canvas ->
  Forall (fun f => valid (shown_size f)) frames ->
  let run := VideoRender_run frames s in
  run <> Fatal /\
  (run = Undef <-> exists before f after s1 ps, frames = before ++ f :: after /\
     VideoRender_run before s = Done (s1, ps) /\ misfit s1 (shown_size f) = true) /\
  (forall s' ps, run = Done (s', ps) -> length ps = length frames /\
     Forall (fun p => let size := (paint_width p, paint_height p) in
       holds (source p) size.1 size.2 = true /\
       (size = canvas \/ In size (map shown_size frames) /\ canvas.1 * canvas.2 < size.1 * size.2)) ps) /\
  (growing canvas (map shown_size frames) ->
   exists s' ps, run = Done (s', ps) /\ Forall exact_paint ps).
Proof.
  intros Hn Hcv Hf run. pose proof (render_inv_new canvas (map shown_size frames) s Hn Hcv) as Hi.
  assert (forall fs, (forall f, In f fs -> In f frames) ->
    Forall (fun f => valid (shown_size f) /\ In (shown_size f) (map shown_size frames)) fs) as Hfs.
  { intros fs Hsub. rewrite Forall_forall in Hf. apply Forall_forall. intros f Hin%Hsub.
    split; [by apply Hf|by apply in_map]. }
  pose proof (render_inv_run canvas _ frames s (Hfs frames (fun f H => H)) Hi) as Hrun.
  split; [|split; [|split]].
  - unfold run. by destruct (VideoRender_run frames s) as [[? ?]| |].
  - split; [unfold run; intros E; by rewrite E in Hrun|].
    intros (before & f & after & s1 & ps & -> & Hb & Hm).
    pose proof (render_inv_run canvas _ before s
      (Hfs before (fun f H => in_or_app _ _ _ (or_introl H))) Hi) as Hrb.
    rewrite Hb in Hrb. destruct Hrb as (_ & _ & _ & Hs1 & _).
    apply (VideoRender_run_misfit before f after s s1 ps); [|done..]. by apply Forall_app in Hf as [_ [Hf _]%Forall_cons_iff].
  - intros s' ps E. unfold run in E. rewrite E in Hrun. by destruct Hrun as (Hl & Hps & _).
  - intros Hg. destruct Hi as (Hc & Hs & _). apply (settled_run canvas frames s Hf Hg Hc Hs).
    destruct (VideoRender_new_valid canvas.1 canvas.2 Hcv) as [rate E]. rewrite E in Hn. injection Hn as <-.
    split; [done|]. left. by destruct canvas.
Qed.

End RenderTheorems.

Section RenderShapes.
Context {lib : VideoLibrary} {laws : StrideLaws lib}.

(** One frame for which the scaling buffer has or gets the painted size. *)
Lemma VideoRender_OnFrame_exact b r s dw dh :
  valid (shown_size (b, r)) -> valid_state s -> desired_size s (shown_size (b, r)) = (dw, dh) ->
  scaled_size s (dw, dh) = (dw, dh) ->
  let out := mkI420Buffer dw dh (Scale (pixels b) dw dh) in
  VideoRender_OnFrame b r s =
    Done (mkVideoRender (_canvasSize s) (_canvasRate s) dw dh (Some out), mkPaint out dw dh).
Proof.
  intros Hv Hs Hd Hsc. cbv zeta. pose proof (valid_desired s _ Hs Hv) as Hvd.
  rewrite VideoRender_OnFrame_valid by done. cbv zeta. rewrite Hd, Hsc in *. cbn [fst snd].
  by rewrite (holds_own (mkI420Buffer dw dh _)) by apply Hvd.
Qed.

(** When all frames have one size after rotation, each is scaled to exactly the
    size that is painted: that of the frames when they are larger than the canvas, the
    canvas's otherwise. *)
Theorem VideoRender_same_size cw ch size frames s :
  VideoRender_new cw ch = Done s -> valid_size cw ch -> valid size ->
  Forall (fun f => shown_size f = size) frames ->
  let '(dw, dh) := if cw * ch <? size.1 * size.2 then size else (cw, ch) in
  exists s', VideoRender_run frames s =
    Done (s', map (fun f => mkPaint (mkI420Buffer dw dh (Scale (pixels f.1) dw dh)) dw dh) frames).
Proof.
  intros Hn Hcv Hv Hf. destruct (VideoRender_new_valid cw ch Hcv) as [rate E]. rewrite E in Hn. injection Hn as <-.
  destruct (if cw * ch <? size.1 * size.2 then size else (cw, ch)) as [dw dh] eqn:Ed.
  enough (forall s, valid_state s -> desired_size s size = (dw, dh) -> scaled_size s (dw, dh) = (dw, dh) ->
    exists s', VideoRender_run frames s =
      Done (s', map (fun f => mkPaint (mkI420Buffer dw dh (Scale (pixels f.1) dw dh)) dw dh) frames)) as H
    by (by apply H).
  clear E. induction Hf as [|[b r] frames Hb Hf IH]; intros s Hs Hd Hsc; [by exists s|].
  cbn [VideoRender_run map fst]. rewrite <- Hb in Hv, Hd, Ed.
  pose proof (VideoRender_OnFrame_exact b r s dw dh Hv Hs Hd Hsc) as E.
  pose proof (VideoRender_OnFrame_state b r s _ _ Hv Hs E) as Hs'. rewrite E. cbn [mbind exec_bind].
  destruct (IH _ Hs') as (s' & ->); [| |by eexists].
  - rewrite <- Hb. revert Hd. unfold desired_size. cbn. by destruct (_canvasSize s <? _).
  - unfold scaled_size. cbn. by rewrite Z.ltb_irrefl.
Qed.

(** The scaling buffer is kept whenever its area suffices.  When the stream turns
    from w1 x h1 to a taller w2 x h2 with no more pixels, both larger than the canvas,
    the second picture is read with the old row length and its last row lies past the
    end of the luma plane. *)
Theorem VideoRender_orientation cw ch (b1 b2 : I420Buffer) s :
  VideoRender_new cw ch = Done s -> valid_size cw ch ->
  valid_size (buffer_width b1) (buffer_height b1) -> valid_size (buffer_width b2) (buffer_height b2) ->
  cw * ch < buffer_width b2 * buffer_height b2 ->
  buffer_width b2 * buffer_height b2 <= buffer_width b1 * buffer_height b1 ->
  buffer_height b1 < buffer_height b2 ->
  VideoRender_run [(b1, kVideoRotation_0); (b2, kVideoRotation_0)] s = Undef.
Proof.
  intros Hn Hcv Hv1 Hv2 Hc Ha Hh. destruct (VideoRender_new_valid cw ch Hcv) as [rate E].
  rewrite E in Hn. injection Hn as <-. cbn [VideoRender_run].
  rewrite (VideoRender_OnFrame_exact b1 _ _ (buffer_width b1) (buffer_height b1)); [|done|done| |done].
  - cbn [mbind exec_bind]. set (s1 := mkVideoRender _ _ _ _ _).
    rewrite (proj2 (VideoRender_OnFrame_misfit b2 kVideoRotation_0 s1 Hv2 (conj Hv1 Hv1))); [done|].
    unfold misfit, desired_size. cbn [s1 shown_size rotated_size fst snd _canvasSize _i420_buffer_out].
    rewrite (proj2 (Z.ltb_lt _ _)) by lia. cbn [fst snd buffer_width buffer_height].
    rewrite (proj2 (Z.leb_le _ _)) by lia. unfold holds, plane_holds. cbn [buffer_width buffer_height].
    pose proof (StrideY_row (buffer_width b1) (proj1 Hv1)). destruct Hv1 as (Hw1 & _), Hv2 as (Hw2 & _).
    rewrite (proj2 (Z.leb_gt _ (StrideY _ * _))) by nia. done.
  - unfold desired_size. cbn. by rewrite (proj2 (Z.ltb_lt _ _)) by lia.
Qed.

(** The rotated copy of a frame only lends its size.  A rotated frame is painted
    as the unrotated picture squeezed into the rotated size: whatever the rotation,
    the painted pixels are a scaling of the frame's own buffer, and a frame turned by
    180 degrees is painted exactly like an upright one. *)
Theorem VideoRender_ignores_rotation b r s s' p :
  VideoRender_OnFrame b r s = Done (s', p) ->
  pixels (source p) = Scale (pixels b) (buffer_width (source p)) (buffer_height (source p)) /\
  VideoRender_OnFrame b kVideoRotation_180 s = VideoRender_OnFrame b kVideoRotation_0 s.
Proof.
  intros E. split.
  - revert E. rewrite VideoRender_OnFrame_rotated. unfold VideoRender_OnFrame. rewrite decide_True by done.
    destruct (int_area _ _); [|done..]. cbn [mbind exec_bind].
    destruct (if _ <? _ then _ else _) as [dw dh].
    destruct (too_small _ _ _); [|done..]. cbn [mbind exec_bind].
    destruct (int_area dw dh); [|done..]. cbn [mbind exec_bind].
    destruct (holds _ dw dh); [|done]. by intros [= _ <-].
  - rewrite VideoRender_OnFrame_rotated. by destruct b.
Qed.

End RenderShapes.

(** ** Witnesses *)

Module Example.

(** Pictures are the list of what was drawn on them. *)
Definition library : VideoLibrary := {|
  image := list Z; screen := Z; uninitialized := [];
  StrideY w := w; StrideU w := (w + 1) / 2; StrideV w := (w + 1) / 2;
  ConvertToI420 d w h p := d :: p; Scale p w h := w :: h :: p; Rotate p r := p;
  adapter := Z; wants := Z; broadcaster := list Z; sink := Z;
  AdaptFrameResolution a w h ns := (a, if a <? w * h then Some (w / 2, h / 2) else Some (w, h));
  OnSinkWants w a := w;
  broadcaster_wants b := default 1000000 (head b);
  broadcaster_AddOrUpdateSink k w b := w :: b;
  broadcaster_RemoveSink k b := tail b
|}.

#[export] Instance library_laws : AdapterLaws library := {|
  last_wants := id : @adapter library -> @wants library;
  OnSinkWants_last w a := eq_refl;
  AdaptFrameResolution_keeps a w h ns := eq_refl
|}.

#[local] Existing Instance library.

#[export] Instance library_strides : StrideLaws library := {|
  StrideY_row w H := Z.le_refl w;
  StrideU_row w H := Z.le_refl ((w + 1) / 2);
  StrideV_row w H := Z.le_refl ((w + 1) / 2)
|}.

(** Screens and pictures of this library. *)
Definition scr (n : Z) : @screen library := n.
Definition img (l : list Z) : @image library := l.

Lemma valid_1920_1080 : valid_size 1920 1080.
Proof. unfold valid_size. limits. lia. Qed.
Lemma valid_1080_1920 : valid_size 1080 1920.
Proof. unfold valid_size. limits. lia. Qed.
Lemma valid_640_360 : valid_size 640 360.
Proof. unfold valid_size. limits. lia. Qed.

Definition source0 : VideoSource := mkVideoSource None ([] : @broadcaster library) (1000000 : @adapter library).

Lemma capture_same_size_witness :
  exists c' h', capture_run [(1920, 1080, scr 7); (1920, 1080, scr 8)] DesktopCapturer_new [] =
      Done (c', h', frames_from 0 0 2) /\ length h' = 1%nat.
Proof.
  destruct (capture_same_size 1920 1080 (scr 7) [scr 8] [] valid_1920_1080 eq_refl) as (c' & h' & E & Hl & _).
  exists c', h'. split; [exact E|exact Hl].
Defined.

Lemma capture_reuses_shape_witness :
  exists c' h' f1 f2, capture_run [(1920, 1080, scr 7); (1080, 1920, scr 8)] DesktopCapturer_new [] =
      Done (c', h', [f1; f2]) /\ video_frame_buffer f1 = video_frame_buffer f2.
Proof.
  destruct (capture_reuses_shape 1920 1080 1080 1920 (scr 7) (scr 8) [] valid_1920_1080 valid_1080_1920
    ltac:(discriminate)) as (c' & h' & f1 & f2 & b & E & Hb & _).
  exists c', h', f1, f2. split; [exact E|exact Hb].
Defined.

Lemma timestamp_overflow_witness :
  exists t, frame_timestamp 184453628 = Some t /\
    VideoSource_OnFrame (mkVideoFrame 0 kVideoRotation_0 t 0) source0 [mkI420Buffer 1920 1080 (img [])] = Undef.
Proof.
  destruct (timestamp_overflow 184453628 source0 [mkI420Buffer 1920 1080 (img [])] 0 (mkI420Buffer 1920 1080 (img []))
    ltac:(lia) eq_refl eq_refl) as (t & E & H).
  exists t. split; [exact E|]. apply H. lia.
Defined.

Lemma VideoSource_OnFrame_spec_witness :
  exists s', VideoSource_OnFrame (mkVideoFrame 0 kVideoRotation_90 5 1) source0 [mkI420Buffer 1920 1080 (img [9])] =
    Done (s', [mkI420Buffer 1920 1080 (img [9]); mkI420Buffer 960 540 (img [960; 540; 9])],
          Some (mkVideoFrame 1 kVideoRotation_0 5 1)).
Proof.
  destruct (VideoSource_OnFrame_spec (mkVideoFrame 0 kVideoRotation_90 5 1) source0
    [mkI420Buffer 1920 1080 (img [9])] (mkI420Buffer 1920 1080 (img [9])) eq_refl eq_refl
    ltac:(split; discriminate)) as (s' & E & _).
  exists s'. exact E.
Defined.

Lemma adapter_follows_sinks_witness :
  exists s' h', source_run [Op_AddOrUpdateSink (1 : @sink library) (500 : @wants library); Op_OnFrame (mkVideoFrame 0 kVideoRotation_0 5 1);
      Op_RemoveSink (1 : @sink library)] source0 [mkI420Buffer 1920 1080 (img [9])] = Done (s', h') /\
    last_wants (_video_adapter s') = GetSinkWants s'.
Proof.
  do 2 eexists. split; [vm_compute; reflexivity|].
  exact (adapter_follows_sinks (1 : @sink library) (Some (500 : @wants library))
    [Op_OnFrame (mkVideoFrame 0 kVideoRotation_0 5 1); Op_RemoveSink (1 : @sink library)]
    source0 [mkI420Buffer 1920 1080 (img [9])] _ _ eq_refl).
Defined.

(** The renderer of a 640 x 360 canvas. *)
Definition canvas_640_360 : VideoRender := mkVideoRender (640 * 360) 1 640 360 None.

Definition landscape : I420Buffer := mkI420Buffer 1920 1080 (img []).
Definition portrait : I420Buffer := mkI420Buffer 1080 1920 (img []).

(** A canvas without height: the rate divides by zero. *)
Example VideoRender_new_flat : VideoRender_new 640 0 = (Undef : exec VideoRender).
Proof. reflexivity. Qed.

Lemma VideoRender_paints_witness :
  VideoRender_run [(landscape, kVideoRotation_0); (landscape, kVideoRotation_90)] canvas_640_360 = Undef /\
  exists s' ps, VideoRender_run [(landscape, kVideoRotation_90)] canvas_640_360 = Done (s', ps) /\ length ps = 1%nat.
Proof.
  split.
  - refine (proj2 (proj1 (proj2 (VideoRender_paints (640, 360)
      [(landscape, kVideoRotation_0); (landscape, kVideoRotation_90)] canvas_640_360 eq_refl valid_640_360
      ltac:(repeat apply Forall_cons; [exact valid_1920_1080|exact valid_1080_1920|apply Forall_nil])))) _).
    eexists [_], _, [], _, _. split; [reflexivity|]. split; reflexivity.
  - destruct (VideoRender_paints (640, 360) [(landscape, kVideoRotation_90)] canvas_640_360 eq_refl valid_640_360
      ltac:(apply Forall_cons; [exact valid_1080_1920|apply Forall_nil])) as (_ & _ & Hd & Hg).
    destruct Hg as (s' & ps & E & _).
    + intros before p after Hb _. destruct before as [|? [|]]; [|discriminate..].
      injection Hb as _ <-. apply Forall_nil.
    + exists s', ps. split; [exact E|]. exact (proj1 (Hd s' ps E)).
Defined.

Lemma VideoRender_same_size_witness :
  exists s', VideoRender_run [(landscape, kVideoRotation_0)] canvas_640_360 =
    Done (s', [mkPaint (mkI420Buffer 1920 1080 (img [1920; 1080])) 1920 1080]).
Proof.
  exact (VideoRender_same_size 640 360 (1920, 1080) [(landscape, kVideoRotation_0)] canvas_640_360 eq_refl
    valid_640_360 valid_1920_1080 ltac:(apply Forall_cons; [reflexivity|apply Forall_nil])).
Defined.

Lemma VideoRender_orientation_witness :
  VideoRender_run [(landscape, kVideoRotation_0); (portrait, kVideoRotation_0)] canvas_640_360 = Undef.
Proof.
  exact (VideoRender_orientation 640 360 landscape portrait canvas_640_360 eq_refl valid_640_360
    valid_1920_1080 valid_1080_1920 eq_refl ltac:(discriminate) eq_refl).
Defined.

Lemma VideoRender_ignores_rotation_witness :
  exists s' p, VideoRender_OnFrame (mkI420Buffer 1920 1080 (img [3])) kVideoRotation_90 canvas_640_360 =
      Done (s', p) /\ pixels (source p) = img [1080; 1920; 3].
Proof.
  do 2 eexists. split; [reflexivity|].
  exact (proj1 (VideoRender_ignores_rotation (mkI420Buffer 1920 1080 (img [3])) kVideoRotation_90
    canvas_640_360 _ _ eq_refl)).
Defined.

End Example.
