(* ===== verification/MainPage.v ===== *)
(** * MainPage: the address the sample listens for

    WeiRtcSampleApp/MainPage.cpp walks the network adapters and keeps the text of an
    IPv4 address of a WiFi adapter, which becomes the room name.  The adapter list of
    the Windows API is a parameter: a list of adapters, each with its unicast
    addresses in order. *)

From S2P Require Import Prelude.
From Stdlib Require Import Ascii String.
From Stdlib Require Import List.
Open Scope Z_scope.
Open Scope list_scope.

(** An address of some family; only AF_INET ones have four bytes. *)
Inductive sockaddr := AF_INET (a b c d : Z) | Other_family.

Record adapter := mkAdapter { is_IEEE80211 : bool; FirstUnicastAddress : list sockaddr }.

Definition digit (n : Z) : ascii := ascii_of_nat (Z.to_nat (48 + n)).

Definition decimal_byte (n : Z) : string :=
  if n <? 10 then String (digit n) EmptyString
  else if n <? 100 then String (digit (n / 10)) (String (digit (n mod 10)) EmptyString)
  else String (digit (n / 100)) (String (digit (n / 10 mod 10)) (String (digit (n mod 10)) EmptyString)).

Definition inet_ntoa (a b c d : Z) : string :=
  (decimal_byte a ++ "." ++ decimal_byte b ++ "." ++ decimal_byte c ++ "." ++ decimal_byte d)%string.

(** [strncmp(ipAddress, "192.168", 7) == 0]. *)
Definition is_192_168 (ipAddress : string) : bool := prefix "192.168" ipAddress.

(** The inner loop; [None] is the uninitialized array. *)
Fixpoint walk_unicast (addresses : list sockaddr) (ipAddress : option string) : option string :=
  match addresses with
  | [] => ipAddress
  | Other_family :: addresses => walk_unicast addresses ipAddress
  | AF_INET a b c d :: addresses =>
      let ip := inet_ntoa a b c d in
      if is_192_168 ip then Some ip else walk_unicast addresses (Some ip)
  end.

(** The outer loop: the [break] above only leaves the inner one. *)
Fixpoint walk_adapters (pAdapter : list adapter) (ipAddress : option string) : option string :=
  match pAdapter with
  | [] => ipAddress
  | a :: pAdapter =>
      let ipAddress := if is_IEEE80211 a then walk_unicast (FirstUnicastAddress a) ipAddress
                       else ipAddress in
      walk_adapters pAdapter ipAddress
  end.

(** The constructor: the room that [Control().Start] is called with; an
    uninitialized array is read when no address was found. *)
Definition MainPage_room (pAddresses : list adapter) : exec string :=
  defined (walk_adapters pAddresses None).

(** ** Specification *)

Definition ipv4 (s : sockaddr) : bool := match s with AF_INET _ _ _ _ => true | Other_family => false end.

Definition text (s : sockaddr) : string :=
  match s with AF_INET a b c d => inet_ntoa a b c d | Other_family => EmptyString end.

Definition preferred (s : sockaddr) : bool := ipv4 s && is_192_168 (text s).

Definition byte (n : Z) : Prop := 0 <= n < 256.

(** A WiFi adapter with an IPv4 address. *)
Definition relevant (a : adapter) : bool := is_IEEE80211 a && existsb ipv4 (FirstUnicastAddress a).

(** The address an adapter contributes: the first 192.168 one, else its last IPv4 one. *)
Definition adapter_choice (a : adapter) : string :=
  match find preferred (FirstUnicastAddress a) with
  | Some s => text s
  | None => text (List.last (List.filter ipv4 (FirstUnicastAddress a)) Other_family)
  end.

(** The comparison of the text decides the first two bytes. *)
Lemma is_192_168_bytes a b c d : byte a -> byte b ->
  is_192_168 (inet_ntoa a b c d) = (a =? 192) && (b =? 168).
Proof.
  intros Ha Hb. unfold is_192_168, inet_ntoa.
  generalize (decimal_byte c ++ "." ++ decimal_byte d)%string as rest. intros rest.
  assert (forallb (fun x => forallb (fun y =>
    Bool.eqb (prefix "192.168" (decimal_byte (Z.of_nat x) ++ "." ++ decimal_byte (Z.of_nat y) ++ "." ++ rest))
             ((Z.of_nat x =? 192) && (Z.of_nat y =? 168))) (seq 0 256)) (seq 0 256) = true) as H
    by (vm_compute; reflexivity).
  rewrite forallb_forall in H. specialize (H (Z.to_nat a)). unfold byte in Ha, Hb.
  rewrite forallb_forall in H. specialize (H ltac:(apply in_seq; lia) (Z.to_nat b) ltac:(apply in_seq; lia)).
  rewrite !Z2Nat.id in H by lia. by apply Bool.eqb_prop in H.
Qed.

Lemma walk_unicast_choice addresses ip :
  walk_unicast addresses ip =
    match find preferred addresses with
    | Some s => Some (text s)
    | None => match List.filter ipv4 addresses with
              | [] => ip
              | s :: l => Some (text (List.last (s :: l) Other_family))
              end
    end.
Proof.
  revert ip. induction addresses as [|[a b c d|] addresses IH]; intros ip; [done| |].
  - cbn [walk_unicast find List.filter ipv4]. unfold preferred at 1. cbn [ipv4 text andb].
    destruct (is_192_168 _); [done|]. rewrite IH. destruct (find preferred addresses); [done|].
    by destruct (List.filter ipv4 addresses).
  - cbn [walk_unicast find List.filter ipv4]. unfold preferred at 1. cbn [ipv4 andb]. apply IH.
Qed.

Lemma find_preferred_ipv4 addresses : List.filter ipv4 addresses = [] -> find preferred addresses = None.
Proof.
  induction addresses as [|s addresses IH]; [done|]. cbn. unfold preferred at 1.
  destruct (ipv4 s); [done|]. exact IH.
Qed.

Lemma existsb_filter {A} (f : A -> bool) l : existsb f l = match List.filter f l with [] => false | _ => true end.
Proof. induction l as [|x l IH]; [done|]. cbn. by destruct (f x). Qed.

Lemma walk_adapters_choice adapters ip :
  walk_adapters adapters ip =
    match List.filter relevant adapters with
    | [] => ip
    | a :: l => Some (adapter_choice (List.last (a :: l) (mkAdapter false [])))
    end.
Proof.
  revert ip. induction adapters as [|a adapters IH]; intros ip; [done|].
  cbn [walk_adapters List.filter]. rewrite IH. unfold relevant at 2.
  destruct (is_IEEE80211 a); cbn [andb]; [|done].
  rewrite existsb_filter, walk_unicast_choice.
  destruct (List.filter ipv4 (FirstUnicastAddress a)) as [|s l] eqn:E.
  - by rewrite find_preferred_ipv4.
  - destruct (List.filter relevant adapters); [|done].
    cbn [List.last]. unfold adapter_choice. rewrite E. by destruct (find preferred _).
Qed.

(** The room is the address of the last WiFi adapter that has an IPv4 address:
    of that adapter, the first one that starts with 192.168, or else its last one.  An
    address 192.168.x.y found on an earlier adapter is overwritten, and when no
    adapter qualifies the uninitialized array is read. *)
Theorem MainPage_room_spec adapters :
  MainPage_room adapters =
    match List.filter relevant adapters with
    | [] => Undef
    | a :: l => Done (adapter_choice (List.last (a :: l) (mkAdapter false [])))
    end /\
  (forall a b c d rest, byte a -> byte b ->
   preferred (AF_INET a b c d) = (a =? 192) && (b =? 168) /\
   (a = 192 -> b = 168 ->
    adapter_choice (mkAdapter true (AF_INET a b c d :: rest)) = inet_ntoa a b c d)).
Proof.
  split.
  - unfold MainPage_room. rewrite walk_adapters_choice. by destruct (List.filter relevant adapters).
  - intros a b c d rest Ha Hb. split; [by apply is_192_168_bytes|]. intros -> ->.
    unfold adapter_choice. cbn [FirstUnicastAddress find]. unfold preferred at 1. cbn [ipv4 andb text].
    rewrite is_192_168_bytes by done. done.
Qed.

(** A second WiFi adapter hides the 192.168 address of the first. *)
Lemma MainPage_room_overwritten :
  MainPage_room [mkAdapter true [AF_INET 192 168 1 2]; mkAdapter true [AF_INET 10 0 0 7]]
    = Done "10.0.0.7"%string.
Proof. reflexivity. Qed.

Lemma MainPage_room_spec_witness :
  MainPage_room [mkAdapter false [AF_INET 10 0 0 1]; mkAdapter true [AF_INET 10 0 0 2; AF_INET 192 168 1 2]]
    = Done "192.168.1.2"%string /\
  preferred (AF_INET 192 168 1 2) = true.
Proof.
  split.
  - exact (proj1 (MainPage_room_spec [mkAdapter false [AF_INET 10 0 0 1];
      mkAdapter true [AF_INET 10 0 0 2; AF_INET 192 168 1 2]])).
  - exact (proj1 (proj2 (MainPage_room_spec []) 192 168 1 2 [] ltac:(split; reflexivity || discriminate)
      ltac:(split; reflexivity || discriminate))).
Defined.
