(* ===== verification/WinRT.v ===== *)
(** * WinRT: calls into the Windows Runtime

    What video_capture/windows/help_functions_winrt.{h,cc} of the patches for libwebrtc
    is made of: sequences of calls that are skipped after the first failure, waiting for
    asynchronous operations, and the conversion of subtypes and ratios.

    The Windows Runtime is a parameter, the class [WinRT]: what a call returns may depend
    on all the calls before it.  Asynchronous operations live in time, which passes only
    in waits. *)

From S2P Require Import Prelude IntTypes HResult.
From stdpp Require Export strings.
Open Scope Z_scope.

(** Codes the camera code returns or compares with. *)
Definition hresult (u : Z) : HRESULT := Other (u - 2 ^ 32).
Definition E_FAIL := hresult 0x80004005.
Definition E_BOUNDS := hresult 0x8000000B.
Definition E_OUTOFMEMORY := hresult 0x8007000E.
Definition RPC_E_TIMEOUT := hresult 0x8001011F.
Definition RPC_E_WRONG_THREAD := hresult 0x8001010E.
Definition RPC_E_INVALID_PARAMETER := hresult 0x80010010.

#[global] Open Scope Z_scope.

(** Strings of [wchar_t], without the final null. *)
Definition wstring : Type := list Z.
Fixpoint wide (s : string) : wstring :=
  match s with EmptyString => [] | String c s => Z.of_N (Ascii.N_of_ascii c) :: wide s end.

(** [VideoType] of webrtc_libyuv.h. *)
Inductive VideoType :=
  | kUnknown | kI420 | kIYUV | kRGB24 | kABGR | kARGB | kARGB4444 | kRGB565 | kARGB1555
  | kYUY2 | kYV12 | kUYVY | kMJPEG | kNV21 | kNV12 | kBGRA.
#[export] Instance VideoType_eq_dec : EqDecision VideoType.
Proof. solve_decision. Defined.

(** [IDeviceInformation]. *)
Record device_information := mkDevice { device_name : wstring; device_id : wstring }.

(** ** Calls

    [Method] is a call on an object whose only other effect is the value it returns; the
    rest are the calls that matter later on, [Call] those of the audio devices with their
    arguments.  Objects are numbered by their creation. *)
Inductive call :=
  | Method (name : string)
  | Call (name : string) (args : list Z)
  | put_VideoDeviceId (id : wstring)
  | put_VideoProfile (profile : Z)
  | put_RecordMediaDescription (description : Z)
  | InitializeWithSettingsAsync (capture : Z)
  | RunAsync
  | SetFormatAsync (source format : Z)
  | CreateFrameReaderAsync (source : Z)
  | add_FrameArrived (reader : Z)
  | remove_FrameArrived (reader : Z)
  | StartAsync (reader : Z)
  | StopAsync (reader : Z)
  | FindAllAsyncDeviceClass
  | Close (object : string) (id : Z)
  | IncomingFrame (plane_y stride_y plane_uv stride_uv length width height fps : Z) (type : VideoType).

#[export] Instance call_eq_dec : EqDecision call.
Proof. solve_decision. Defined.

Definition event : Type := call * HRESULT.

(** ** Asynchronous operations *)

Inductive AsyncStatus := Started | Completed | Canceled | Error.
#[export] Instance AsyncStatus_eq_dec : EqDecision AsyncStatus.
Proof. solve_decision. Defined.

(** What [get_Status] stores at each time, when the completion handler sets the event, if
    ever, and what [get_ErrorCode] stores in the end. *)
Record async := mkAsync { status_at : Z -> AsyncStatus; signaled_at : option Z; error_code : HRESULT }.

(** The time in milliseconds and the calls so far. *)
Record world := mkWorld { now : Z; trace : list event }.

(** The runtime: the result of a call after the calls of the history, the operation an
    asynchronous call starts, whether a wait on an event fails, the last error, the thread
    of the caller, and whether the program is built for the desktop. *)
Class WinRT := {
  result : list event -> call -> HRESULT;
  operation : world -> call -> async;
  wait_fails : list event -> bool;
  last_error_exists : list event -> bool;
  has_thread_access : list event -> bool;
  desktop : bool
}.

(** ** Computations

    [S] holds the members of the object the code belongs to.  A function of the source
    keeps its result in [hr] and runs a step only if [SUCCEEDED(hr)], so a computation
    either succeeds with a value, and the last [hr], or ends with the [hr] that failed.
    [Undefined] is a call on a null pointer, [Running] a loop or a wait that has not
    ended. *)

Inductive outcome (A : Type) := Good (hr : HRESULT) (a : A) | Failed (hr : HRESULT) | Undefined | Running.
Arguments Good {A} hr a.
Arguments Failed {A} hr.
Arguments Undefined {A}.
Arguments Running {A}.

Definition com (S A : Type) : Type := S -> world -> S * world * outcome A.

#[export] Instance com_ret S : MRet (com S) := fun _ a s w => (s, w, Good S_OK a).
#[export] Instance com_bind S : MBind (com S) := fun A B f m s w =>
  match m s w with
  | (s, w, Good _ a) => f a s w
  | (s, w, Failed hr) => (s, w, Failed hr)
  | (s, w, Undefined) => (s, w, Undefined)
  | (s, w, Running) => (s, w, Running)
  end.

(** [hr = code;], for a condition that was tested by hand. *)
Definition set_hr {S} (hr : HRESULT) : com S unit := fun s w =>
  (s, w, if SUCCEEDED hr then Good hr tt else Failed hr).
Definition undefined {S A} : com S A := fun s w => (s, w, Undefined).
Definition running {S A} : com S A := fun s w => (s, w, Running).

(** Assignments after the last call: they keep its [hr]. *)
Definition then_keep {S A B} (m : com S A) (f : A -> S -> S * B) : com S B := fun s w =>
  match m s w with
  | (s, w, Good hr a) => let '(s, b) := f a s in (s, w, Good hr b)
  | (s, w, Failed hr) => (s, w, Failed hr)
  | (s, w, Undefined) => (s, w, Undefined)
  | (s, w, Running) => (s, w, Running)
  end.
Definition then_value {S A B} (m : com S A) (b : B) : com S B := then_keep m (fun _ s => (s, b)).

Definition get {S} : com S S := fun s w => (s, w, Good S_OK s).
Definition modify {S} (f : S -> S) : com S unit := fun s w => (f s, w, Good S_OK tt).
Definition history {S} : com S (list event) := fun s w => (s, w, Good S_OK (trace w)).
Definition time {S} : com S Z := fun s w => (s, w, Good S_OK (now w)).

(** A function with an [hr] of its own, whose failure the caller does not look at. *)
Definition attempt {S A} (m : com S A) : com S (option A) := fun s w =>
  match m s w with
  | (s, w, Good _ a) => (s, w, Good S_OK (Some a))
  | (s, w, Failed _) => (s, w, Good S_OK None)
  | (s, w, Undefined) => (s, w, Undefined)
  | (s, w, Running) => (s, w, Running)
  end.

(** The [hr] a function returns, whatever it is. *)
Definition returned {S A} (m : com S A) : com S HRESULT := fun s w =>
  match m s w with
  | (s, w, Good hr _) | (s, w, Failed hr) => (s, w, Good S_OK hr)
  | (s, w, Undefined) => (s, w, Undefined)
  | (s, w, Running) => (s, w, Running)
  end.

Definition when {S} (b : bool) (m : com S unit) : com S unit := if b then m else mret tt.

(** [for (i = 0; SUCCEEDED(hr) && i < size; ++i)] over the elements. *)
Fixpoint for_each {S A} (l : list A) (f : A -> com S unit) : com S unit :=
  match l with [] => mret tt | a :: l => f a ≫= fun _ => for_each l f end.


Section Calls.
Context `{WinRT} {S : Type}.

Definition record (c : call) (r : HRESULT) (w : world) : world := mkWorld (now w) (trace w ++ [(c, r)]).

Definition invoke (c : call) : com S unit := fun s w =>
  let r := result (trace w) c in
  (s, record c r w, if SUCCEEDED r then Good r tt else Failed r).

(** A call on a property or an interface of an object. *)
Definition method (name : string) : com S unit := invoke (Method name).

(** A call that stores a value. *)
Definition getter {A} (name : string) (a : A) : com S A := then_value (method name) a.

(** A call that starts an asynchronous operation. *)
Definition invoke_async (c : call) : com S async := fun s w => then_value (invoke c) (operation w c) s w.

(** A call that is given to code outside and has no result the code looks at. *)
Definition call_out (c : call) : com S unit := fun s w =>
  (s, record c (result (trace w) c) w, Good S_OK tt).

(** ** Waiting *)

Inductive wait_result := WAIT_OBJECT_0 | WAIT_TIMEOUT | WAIT_FAILED.

(** [WaitForSingleObjectEx] on the event of an operation; no timeout is [INFINITE]. *)
Definition WaitForSingleObjectEx (signaled : option Z) (timeout : option Z) : com S wait_result := fun s w =>
  if wait_fails (trace w) then (s, w, Good S_OK WAIT_FAILED) else
  let in_time t := match timeout with Some ms => t <=? now w + ms | None => true end in
  match signaled, timeout with
  | Some t, _ => if in_time t then (s, mkWorld (Z.max (now w) t) (trace w), Good S_OK WAIT_OBJECT_0)
                 else match timeout with
                      | Some ms => (s, mkWorld (now w + ms) (trace w), Good S_OK WAIT_TIMEOUT)
                      | None => (s, w, Running)
                      end
  | None, Some ms => (s, mkWorld (now w + ms) (trace w), Good S_OK WAIT_TIMEOUT)
  | None, None => (s, w, Running)
  end.

Definition get_Status (a : async) : com S AsyncStatus := fun s w =>
  getter "IAsyncInfo::get_Status" (status_at a (now w)) s w.

Definition WaitForASyncWithEvent (async_info : option async) (timeout_ms : Z) : com S unit :=
  match async_info with
  | None => set_hr RPC_E_INVALID_PARAMETER
  | Some a =>
      async_status ← get_Status a;
      if decide (async_status = Started) then
        trigger_event ← WaitForSingleObjectEx (signaled_at a) (Some timeout_ms);
        match trigger_event with
        | WAIT_OBJECT_0 => set_hr S_OK
        | WAIT_TIMEOUT =>
            hr2 ← attempt (get_Status a);
            if decide (hr2 = Some Completed) then set_hr S_OK else set_hr RPC_E_TIMEOUT
        | WAIT_FAILED => set_hr E_FAIL
        end
      else if decide (async_status = Completed) then set_hr S_OK
      else set_hr E_FAIL
  end.

Definition ERROR_ALREADY_EXISTS : HRESULT := hresult 0x800700B7.

(** [WaitForAsyncAction] and [WaitForAsyncOperation], whose bodies are the same. *)
Definition WaitForAsync (a : async) (timeout_ms : Z) : com S unit :=
  method "CoGetApartmentType" ;;
  method "As<IAsyncInfo>" ;;
  method "CreateEventEx" ;;
  h ← history;
  set_hr (if last_error_exists h then ERROR_ALREADY_EXISTS else S_OK) ;;
  method "put_Completed" ;;
  WaitForASyncWithEvent (Some a) timeout_ms ;;
  hr_async_error ← getter "IAsyncInfo::get_ErrorCode" (error_code a);
  set_hr hr_async_error.

Definition WaitForAsyncAction (a : async) (timeout_ms : Z) : com S unit := WaitForAsync a timeout_ms.
Definition WaitForAsyncOperation (a : async) : com S unit := WaitForAsync a 180000.

(** ** Opening a camera *)

Definition GetMainViewDispatcher : com S unit :=
  method "GetActivationFactory(CoreApplication)" ;;
  method "As<ICoreApplication>" ;;
  method "As<ICoreImmersiveApplication>" ;;
  method "get_MainView" ;;
  method "get_CoreWindow" ;;
  method "get_Dispatcher".

(** [IMediaCaptureInitializationSettings], as far as they choose the device. *)
Record settings := mkSettings {
  VideoDeviceId : option wstring;
  VideoProfile : option Z;
  RecordMediaDescription : option Z
}.

Definition CreateMediaCaptureInitializationSettings (device_id : wstring) (video_profile profile_description : option Z)
    : com S settings :=
  method "ActivateInstance(MediaCaptureInitializationSettings)" ;;
  let by_id := match video_profile, profile_description with
               | None, None => 0 <? Z.of_nat (length device_id)
               | _, _ => false
               end in
  when by_id (invoke (put_VideoDeviceId device_id)) ;;
  method "put_StreamingCaptureMode" ;;
  method "As<IMediaCaptureInitializationSettings4>" ;;
  match video_profile with Some p => invoke (put_VideoProfile p) | None => mret tt end ;;
  match profile_description with Some d => invoke (put_RecordMediaDescription d) | None => mret tt end ;;
  method "As<IMediaCaptureInitializationSettings5>" ;;
  getter "put_MemoryPreference" (mkSettings (if by_id then Some device_id else None) video_profile profile_description).

(** A new object; it is known by the length of the history. *)
Definition activate (name : string) : com S Z := fun s w =>
  getter name (Z.of_nat (length (trace w))) s w.

Definition GetMediaCaptureWithInitSettingsWin32 (initialization_settings : settings) : com S Z :=
  media_capture ← activate "ActivateInstance(MediaCapture)";
  media_capture_async ← invoke_async (InitializeWithSettingsAsync media_capture);
  then_value (WaitForAsyncAction media_capture_async 5000) media_capture.

(** The lambda that runs on the thread of the user interface; whatever happens it sets
    the event, and its result goes to the dispatcher. *)
Definition initialize_on_ui_thread (media_capture : Z) (initialization_settings : settings) : com S (option async) :=
  attempt (
    method "AgileRef::As<IMediaCapture>" ;;
    media_capture_async ← invoke_async (InitializeWithSettingsAsync media_capture);
    getter "AsAgile" media_capture_async).

Definition wait_infinite (signaled : option Z) : com S unit :=
  r ← WaitForSingleObjectEx signaled None;
  set_hr (match r with WAIT_OBJECT_0 => S_OK | _ => E_FAIL end).

Definition GetMediaCaptureWithInitSettingsUWP (initialization_settings : settings) : com S Z :=
  GetMainViewDispatcher ;;
  h ← history;
  access ← getter "get_HasThreadAccess" (has_thread_access h);
  set_hr (if (access : bool) then RPC_E_WRONG_THREAD else S_OK) ;;
  method "CreateEventEx" ;;
  media_capture ← activate "ActivateInstance(MediaCapture)";
  method "AsAgile" ;;
  async_action_ui_dispatcher ← invoke_async RunAsync;
  wait_infinite (signaled_at async_action_ui_dispatcher) ;;
  async_action_media_capture_agile ← initialize_on_ui_thread media_capture initialization_settings;
  method "CreateEventEx" ;;
  method "AgileRef::As<IAsyncAction>" ;;
  match async_action_media_capture_agile with
  | None => undefined
  | Some async_action_media_capture =>
      method "put_Completed" ;;
      then_value (wait_infinite (signaled_at async_action_media_capture)) media_capture
  end.

Definition GetMediaCaptureWithInitSettings (initialization_settings : settings) : com S Z :=
  if desktop then GetMediaCaptureWithInitSettingsWin32 initialization_settings
  else GetMediaCaptureWithInitSettingsUWP initialization_settings.

(** ** Ratios *)

(** [IMediaRatio]: a numerator and a denominator, [uint32_t]. *)
Record media_ratio := mkRatio { Numerator : Z; Denominator : Z }.

Definition ratio_value (r : media_ratio) : Z := if Denominator r =? 0 then 0 else Numerator r / Denominator r.

Definition SafelyComputeMediaRatio (ratio : media_ratio) : com S Z :=
  r ← attempt (
    numerator ← getter "IMediaRatio::get_Numerator" (Numerator ratio);
    denominator ← getter "IMediaRatio::get_Denominator" (Denominator ratio);
    mret (if denominator =? 0 then 0 else numerator / denominator));
  mret (default 0 r).

End Calls.

(** ** Subtypes *)

(** [wcsncmp(s1, s2, n) == 0] for null-terminated strings. *)
Fixpoint wcsncmp_equal (s1 s2 : wstring) (n : nat) : bool :=
  match n with
  | O => true
  | S n =>
      let c1 := hd 0 s1 in let c2 := hd 0 s2 in
      (c1 =? c2) && ((c1 =? 0) || wcsncmp_equal (tl s1) (tl s2) n)
  end.

Definition format_to_type : list (wstring * VideoType) := [
  (wide "I420", kI420); (wide "I420", kI420);
  (wide "IYUV", kIYUV); (wide "RGB24", kRGB24);
  (wide "ABGR", kABGR); (wide "ARGB", kARGB);
  (wide "ARGB4444", kARGB4444); (wide "RGB565", kRGB565);
  (wide "RGB565", kRGB565); (wide "ARGB1555", kARGB1555);
  (wide "YUY2", kYUY2); (wide "YV12", kYV12);
  (wide "UYVY", kUYVY); (wide "MJPEG", kMJPEG);
  (wide "NV21", kNV21); (wide "NV12", kNV12);
  (wide "BGRA", kBGRA)].

Definition ToVideoType (sub_type : wstring) : VideoType :=
  let cchCount := length sub_type in
  if (Nat.ltb cchCount 4 || Nat.ltb 8 cchCount)%bool then kUnknown
  else match find (fun entry => wcsncmp_equal entry.1 sub_type cchCount) format_to_type with
       | Some entry => entry.2
       | None => kUnknown
       end.

(** ** Conversion from UTF-8

    The conversion is a parameter, and so is what it makes of invalid bytes. *)

Abbreviation bytes := (list Z).

Class Unicode := { utf8_to_utf16 : bytes -> option wstring; utf16_to_utf8 : wstring -> option bytes }.

(** No character takes more units in UTF-16 than in UTF-8, and an ASCII character takes
    one. *)
Class UnicodeLaws `{Unicode} := {
  utf16_length s w : utf8_to_utf16 s = Some w -> Z.of_nat (length w) <= Z.of_nat (length s);
  utf16_ascii s : Forall (fun c => 0 < c < 128) s -> utf8_to_utf16 s = Some s
}.

Definition sizeof_wchar_t : Z := 2.
Definition kVideoCaptureUniqueNameLength : Z := 1024.

(** [MultiByteToWideChar] of a null-terminated string into an array of [room] elements of
    which the caller says that it has [cchWideChar]: the number of elements of the result
    with its null, 0 if it fails; undefined when it writes beyond the array. *)
Definition MultiByteToWideChar `{Unicode} (s : bytes) (room cchWideChar : Z) : option (wstring * Z) :=
  match utf8_to_utf16 s with
  | None => Some ([], 0)
  | Some w =>
      let n := Z.of_nat (length w) + 1 in
      if cchWideChar <? n then Some ([], 0) else guard_b (n <=? room) (Some (w, n))
  end.

(** [WideCharToMultiByte] into a buffer of the given size; none when it returns 0. *)
Definition WideCharToMultiByte `{Unicode} (s : wstring) (size : Z) : option bytes :=
  match utf16_to_utf8 s with
  | None => None
  | Some b => if size <? Z.of_nat (length b) + 1 then None else Some b
  end.

(** ** What a computation may change

    [preserves R m]: [m] relates the states before and after it by the preorder [R],
    however it ends.  The rules below reduce this to the primitives. *)

Section Preserves.
Context {S : Type} (R : S * world -> S * world -> Prop).

Definition preserves {A} (m : com S A) : Prop := forall s w, R (s, w) (m s w).1.

Context `{!PreOrder R}.

Lemma preserves_ret {A} (a : A) : preserves (mret a).
Proof. intros s w. by cbn. Qed.

Lemma preserves_bind {A B} (m : com S A) (f : A -> com S B) :
  preserves m -> (forall a, preserves (f a)) -> preserves (m ≫= f).
Proof.
  intros Hm Hf s w. specialize (Hm s w). unfold mbind, com_bind. destruct (m s w) as [[s1 w1] [hr a|hr| |]]; try done.
  etrans; [exact Hm|apply Hf].
Qed.

Lemma preserves_set_hr hr : preserves (set_hr hr).
Proof. intros s w. by cbn. Qed.

Lemma preserves_get : preserves get.
Proof. intros s w. by cbn. Qed.

Lemma preserves_history : preserves history.
Proof. intros s w. by cbn. Qed.

Lemma preserves_running {A} : preserves (@running S A).
Proof. intros s w. by cbn. Qed.

Lemma preserves_undefined {A} : preserves (@undefined S A).
Proof. intros s w. by cbn. Qed.

Lemma preserves_modify f : (forall s w, R (s, w) (f s, w)) -> preserves (modify f).
Proof. intros Hf s w. apply Hf. Qed.

Lemma preserves_attempt {A} (m : com S A) : preserves m -> preserves (attempt m).
Proof. intros Hm s w. specialize (Hm s w). unfold attempt. by destruct (m s w) as [[s1 w1] [hr a|hr| |]]. Qed.

Lemma preserves_returned {A} (m : com S A) : preserves m -> preserves (returned m).
Proof. intros Hm s w. specialize (Hm s w). unfold returned. by destruct (m s w) as [[s1 w1] [hr a|hr| |]]. Qed.

Lemma preserves_then_keep {A B} (m : com S A) (f : A -> S -> S * B) :
  preserves m -> (forall a s w, R (s, w) ((f a s).1, w)) -> preserves (then_keep m f).
Proof.
  intros Hm Hf s w. specialize (Hm s w). unfold then_keep. destruct (m s w) as [[s1 w1] [hr a|hr| |]]; try done.
  specialize (Hf a s1 w1). destruct (f a s1) as [s2 b]. by etrans.
Qed.

Lemma preserves_then_value {A B} (m : com S A) (b : B) : preserves m -> preserves (then_value m b).
Proof. intros Hm. apply preserves_then_keep; [done|]. by intros _ s w. Qed.

Lemma preserves_when b m : preserves m -> preserves (when b m).
Proof. intros Hm. destruct b; [done|apply preserves_ret]. Qed.

Lemma preserves_for_each {A} (l : list A) f : (forall a, preserves (f a)) -> preserves (for_each l f).
Proof. intros Hf. induction l as [|a l IH]; [apply preserves_ret|]. by apply preserves_bind. Qed.

Context `{WinRT}.

Definition allows (c : call) : Prop := forall s w, R (s, w) (s, record c (result (trace w) c) w).

Lemma preserves_invoke c : allows c -> preserves (invoke c).
Proof. intros Hc s w. apply Hc. Qed.

Lemma preserves_call_out c : allows c -> preserves (call_out c).
Proof. intros Hc s w. apply Hc. Qed.

Lemma preserves_invoke_async c : allows c -> preserves (invoke_async c).
Proof. intros Hc s w. unfold invoke_async. apply (preserves_then_value (invoke c)). by apply preserves_invoke. Qed.

(** Methods and waits are harmless to most relations. *)
Class Neutral := {
  neutral_method name : allows (Method name);
  neutral_wait s w t : now w <= t -> R (s, w) (s, mkWorld t (trace w))
}.
Context `{!Neutral}.

Lemma preserves_method name : preserves (method name).
Proof. apply preserves_invoke, neutral_method. Qed.

Lemma preserves_getter {A} name (a : A) : preserves (getter name a).
Proof. apply preserves_then_value, preserves_method. Qed.

Lemma preserves_activate name : preserves (activate name).
Proof. intros s w. apply preserves_getter. Qed.

Lemma preserves_get_Status a : preserves (get_Status a).
Proof. intros s w. apply preserves_getter. Qed.

Lemma preserves_wait signaled timeout :
  match timeout with Some ms => 0 <= ms | None => True end -> preserves (WaitForSingleObjectEx signaled timeout).
Proof.
  intros Hms s w. unfold WaitForSingleObjectEx. destruct (wait_fails (trace w)); [by cbn|].
  destruct signaled as [t|], timeout as [ms|]; cbn; try done.
  - destruct (t <=? now w + ms); cbn; apply neutral_wait; lia.
  - apply neutral_wait. lia.
  - apply neutral_wait. lia.
Qed.

End Preserves.

Create HintDb winrt discriminated.
#[export] Hint Resolve preserves_ret preserves_set_hr preserves_get preserves_history preserves_running
  preserves_undefined preserves_invoke preserves_invoke_async preserves_method preserves_getter preserves_activate preserves_get_Status
  preserves_attempt preserves_returned preserves_then_value preserves_when : winrt.
#[export] Hint Extern 1 (preserves _ (_ ≫= _)) => apply preserves_bind; [| |intros ?] : winrt.
#[export] Hint Extern 0 (PreOrder _) => typeclasses eauto : winrt.
#[export] Hint Extern 0 (Neutral _) => typeclasses eauto : winrt.
#[export] Hint Extern 1 (0 <= _) => lia : winrt.
#[export] Hint Extern 1 (preserves _ (WaitForSingleObjectEx _ (Some _))) => apply preserves_wait : winrt.

Section Waits.
Context `{WinRT} {S : Type} (R : S * world -> S * world -> Prop) `{!PreOrder R} `{!Neutral R}.

Lemma preserves_WaitForASyncWithEvent a ms : 0 <= ms -> preserves R (WaitForASyncWithEvent a ms).
Proof.
  intros Hms. destruct a as [a|]; cbn [WaitForASyncWithEvent]; [|eauto with winrt].
  apply preserves_bind; [done|eauto with winrt|]. intros st. destruct (decide _); [|destruct (decide _); eauto with winrt].
  apply preserves_bind; [done|by apply preserves_wait|]. intros []; [eauto with winrt| |eauto with winrt].
  apply preserves_bind; [done|eauto with winrt|]. intros hr2. destruct (decide _); eauto with winrt.
Qed.

Lemma preserves_WaitForAsync a ms : 0 <= ms -> preserves R (WaitForAsync a ms).
Proof. intros Hms. unfold WaitForAsync. eauto 20 using preserves_WaitForASyncWithEvent with winrt. Qed.
End Waits.

(** *** Opening a camera *)

Section Opening.
Context `{WinRT} {S : Type} (R : S * world -> S * world -> Prop) `{!PreOrder R} `{!Neutral R}.
Lemma preserves_CreateSettings id profile description :
  (id <> [] -> allows R (put_VideoDeviceId id)) -> (forall p, profile = Some p -> allows R (put_VideoProfile p)) ->
  (forall d, description = Some d -> allows R (put_RecordMediaDescription d)) ->
  preserves R (CreateMediaCaptureInitializationSettings id profile description).
Proof.
  intros Hi Hp Hd. unfold CreateMediaCaptureInitializationSettings.
  repeat (apply preserves_bind; [done| |intros _]); eauto with winrt.
  - destruct profile, description, id; cbn; eauto with winrt.
  - destruct profile; eauto with winrt.
  - destruct description; eauto with winrt.
Qed.

Lemma preserves_wait_infinite signaled : preserves R (wait_infinite signaled).
Proof. apply preserves_bind; [done|by apply preserves_wait|]. intros r. eauto with winrt. Qed.

Lemma preserves_GetMediaCapture st :
  (forall c, allows R (InitializeWithSettingsAsync c)) -> allows R RunAsync ->
  preserves R (GetMediaCaptureWithInitSettings st).
Proof.
  intros Hi Hr. unfold GetMediaCaptureWithInitSettings. destruct desktop.
  - apply preserves_bind; [done|eauto with winrt|intros c].
    apply preserves_bind; [done|eauto with winrt|intros a]. apply preserves_then_value; [done|]. by apply preserves_WaitForAsync.
  - unfold GetMediaCaptureWithInitSettingsUWP. apply preserves_bind; [done|unfold GetMainViewDispatcher; eauto 20 with winrt|intros _].
    do 7 (apply preserves_bind; [done|eauto with winrt|intros ?]).
    apply preserves_bind; [done|by apply preserves_wait_infinite|intros _].
    apply preserves_bind; [done|unfold initialize_on_ui_thread; eauto 20 with winrt|intros action].
    do 2 (apply preserves_bind; [done|eauto with winrt|intros _]). destruct action; [|eauto with winrt].
    apply preserves_bind; [done|eauto with winrt|intros _]. apply preserves_then_value; [done|]. by apply preserves_wait_infinite.
Qed.

Lemma preserves_SafelyComputeMediaRatio ratio : preserves R (SafelyComputeMediaRatio ratio).
Proof. unfold SafelyComputeMediaRatio. eauto 20 with winrt. Qed.

End Opening.

(** *** The two relations that are used

    The members are not touched; and the history grows by calls with a given property,
    while time does not go back. *)

Definition members_kept {S} (x y : S * world) : Prop := y.1 = x.1.

Definition only (P : call -> Prop) {S} (x y : S * world) : Prop :=
  (exists l, trace y.2 = trace x.2 ++ l /\ Forall (fun e => P e.1) l) /\ now x.2 <= now y.2.

#[export] Instance members_kept_preorder {S} : PreOrder (@members_kept S).
Proof. split; [done|]. unfold members_kept. intros x y z -> ->. done. Qed.

#[export] Instance only_preorder P {S} : PreOrder (@only P S).
Proof.
  split; [intros x; split; [exists []|lia]; by rewrite app_nil_r|].
  intros x y z [(l & Hl & HP) Ht] [(l' & Hl' & HP') Ht']. split; [|lia]. exists (l ++ l').
  split; [by rewrite Hl', Hl, app_assoc|]. apply Forall_app. done.
Qed.

Section Relations.
Context `{WinRT} {S : Type}.

#[export] Instance members_kept_neutral : Neutral (@members_kept S).
Proof. split; by intros. Qed.

Lemma members_kept_allows c : allows (@members_kept S) c.
Proof. by intros s w. Qed.

Lemma only_allows (P : call -> Prop) c : P c -> allows (@only P S) c.
Proof. intros HP s w. split; [|cbn; lia]. eexists. split; [done|]. by repeat constructor. Qed.

Lemma only_neutral (P : call -> Prop) : (forall name, P (Method name)) -> Neutral (@only P S).
Proof.
  intros HP. split; [intros name s w; by apply only_allows|]. intros s w t Ht. split; [exists []; by rewrite app_nil_r|done].
Qed.

End Relations.

(** ** [hr] *)

(** A computation succeeds with a code of success and fails with a code of failure. *)
Definition honest_outcome {A} (o : outcome A) : Prop :=
  match o with Good hr _ => SUCCEEDED hr = true | Failed hr => SUCCEEDED hr = false | _ => True end.
Definition honest {S A} (m : com S A) : Prop := forall s w, honest_outcome (m s w).2.

Lemma honest_ret {S A} (a : A) : honest (S := S) (mret a).
Proof. done. Qed.

Lemma honest_bind {S A B} (m : com S A) (f : A -> com S B) : honest m -> (forall a, honest (f a)) -> honest (m ≫= f).
Proof.
  intros Hm Hf s w. specialize (Hm s w). unfold mbind, com_bind. destruct (m s w) as [[s1 w1] [hr a|hr| |]]; [|done..].
  apply Hf.
Qed.

Lemma honest_set_hr {S} hr : honest (S := S) (set_hr hr).
Proof. intros s w. unfold set_hr. cbn. by destruct (SUCCEEDED hr) eqn:Hhr. Qed.

Lemma honest_then_keep {S A B} (m : com S A) (f : A -> S -> S * B) : honest m -> honest (then_keep m f).
Proof.
  intros Hm s w. specialize (Hm s w). unfold then_keep. destruct (m s w) as [[s1 w1] [hr a|hr| |]]; [|done..].
  by destruct (f a s1).
Qed.

Lemma honest_attempt {S A} (m : com S A) : honest (attempt m).
Proof. intros s w. unfold attempt. by destruct (m s w) as [[s1 w1] [hr a|hr| |]]. Qed.

Lemma honest_when {S} b (m : com S unit) : honest m -> honest (when b m).
Proof. intros Hm. by destruct b. Qed.

Lemma honest_invoke `{WinRT} {S} c : honest (S := S) (invoke c).
Proof. intros s w. unfold invoke. cbn. by destruct (SUCCEEDED _) eqn:Hhr. Qed.

Lemma honest_invoke_async `{WinRT} {S} c : honest (S := S) (invoke_async c).
Proof. intros s w. apply honest_then_keep, honest_invoke. Qed.

Lemma honest_WaitForAsync `{WinRT} {S} a ms : honest (S := S) (WaitForAsync a ms).
Proof.
  unfold WaitForAsync. do 3 (apply honest_bind; [apply honest_invoke|intros _]). apply honest_bind; [done|intros h].
  apply honest_bind; [apply honest_set_hr|intros _]. apply honest_bind; [apply honest_invoke|intros _].
  apply honest_bind; [|intros _; apply honest_bind; [apply honest_then_keep, honest_invoke|intros hr; apply honest_set_hr]].
  cbn [WaitForASyncWithEvent]. apply honest_bind; [intros s w; apply honest_then_keep, honest_invoke|intros st].
  destruct (decide (st = Started)); [|destruct (decide _); apply honest_set_hr]. apply honest_bind; [|intros []].
  - intros s w. unfold WaitForSingleObjectEx. destruct (wait_fails (trace w)); [done|]. destruct (signaled_at a); [|done].
    by destruct (_ <=? _).
  - apply honest_set_hr.
  - apply honest_bind; [apply honest_attempt|intros hr]. destruct (decide _); apply honest_set_hr.
  - apply honest_set_hr.
Qed.

(** ** When no call fails *)

Class Quiet `{WinRT} := {
  quiet_result h c : result h c = S_OK;
  quiet_wait h : wait_fails h = false;
  quiet_error h : last_error_exists h = false
}.

(** [m] succeeds with [a], and leads from one state to the other. *)
Definition gives {S A} (m : com S A) (s : S) (w : world) (s' : S) (w' : world) (a : A) : Prop :=
  exists hr, m s w = (s', w', Good hr a).

Lemma gives_bind {S A B} (m : com S A) (f : A -> com S B) s w s' w' a :
  gives m s w s' w' a -> (m ≫= f) s w = f a s' w'.
Proof. intros [hr Hm]. unfold mbind, com_bind. by rewrite Hm. Qed.

Section QuietRules.
Context `{Quiet} {S : Type}.

Lemma gives_invoke c (s : S) w : gives (invoke c) s w s (record c S_OK w) tt.
Proof. exists S_OK. unfold invoke. by rewrite quiet_result. Qed.

Lemma gives_method name (s : S) w : gives (method name) s w s (record (Method name) S_OK w) tt.
Proof. apply gives_invoke. Qed.

Lemma gives_then_value {A B} (m : com S A) s w s' w' a (b : B) :
  gives m s w s' w' a -> gives (then_value m b) s w s' w' b.
Proof. intros [hr Hm]. exists hr. unfold then_value, then_keep. by rewrite Hm. Qed.

Lemma gives_getter {A} name (a : A) (s : S) w : gives (getter name a) s w s (record (Method name) S_OK w) a.
Proof. eapply gives_then_value, gives_method. Qed.

Lemma gives_invoke_async c (s : S) w : gives (invoke_async c) s w s (record c S_OK w) (operation w c).
Proof. eapply gives_then_value, gives_invoke. Qed.

Lemma gives_set_hr hr (s : S) w : SUCCEEDED hr = true -> gives (set_hr hr) s w s w tt.
Proof. intros Hhr. exists hr. unfold set_hr. by rewrite Hhr. Qed.

Lemma gives_history (s : S) w : gives history s w s w (trace w).
Proof. by eexists. Qed.

Lemma gives_get (s : S) w : gives get s w s w s.
Proof. by eexists. Qed.

Lemma gives_modify f (s : S) w : gives (modify f) s w (f s) w tt.
Proof. by eexists. Qed.

Lemma gives_ret {A} (a : A) (s : S) w : gives (mret a) s w s w a.
Proof. by eexists. Qed.

Lemma gives_attempt {A} (m : com S A) s w s' w' a : gives m s w s' w' a -> gives (attempt m) s w s' w' (Some a).
Proof. intros [hr Hm]. exists S_OK. unfold attempt. by rewrite Hm. Qed.

(** A computation followed by another. *)
Lemma gives_seq {A B} (m : com S A) (f : A -> com S B) s w s1 w1 a s2 w2 b :
  gives m s w s1 w1 a -> gives (f a) s1 w1 s2 w2 b -> gives (m ≫= f) s w s2 w2 b.
Proof. intros Hm [hr Hf]. exists hr. by rewrite (gives_bind m f s w s1 w1 a). Qed.

Lemma gives_ratio r (s : S) w :
  exists w', gives (SafelyComputeMediaRatio r) s w s w' (if Denominator r =? 0 then 0 else Numerator r / Denominator r) /\
  now w' = now w /\ trace w' = trace w ++ [(Method "IMediaRatio::get_Numerator", S_OK); (Method "IMediaRatio::get_Denominator", S_OK)].
Proof.
  eexists. split.
  { eapply gives_seq; [apply gives_attempt|apply gives_ret]. eapply gives_seq; [apply gives_getter|].
    eapply gives_seq; [apply gives_getter|apply gives_ret]. }
  split; [done|]. cbn. by rewrite <- app_assoc.
Qed.

(** *** Waiting *)

(** The operation ends at [f], if ever, with the status [st]; its handler runs after that. *)
Record ends (a : async) (f : option Z) (st : AsyncStatus) : Prop := {
  ends_status t : status_at a t = match f with Some f => if f <=? t then st else Started | None => Started end;
  ends_final : st <> Started;
  ends_signaled t : signaled_at a = Some t -> exists f', f = Some f' /\ f' <= t
}.

Definition ended_by (f : option Z) (t : Z) : Prop := exists f', f = Some f' /\ f' <= t.

End QuietRules.

(** ** Time

    Whatever the runtime does, [m] comes back within [d] milliseconds. *)

Definition comes_back {A} (o : outcome A) : Prop :=
  match o with Good _ _ | Failed _ => True | Undefined | Running => False end.
Definition timely {S A} (d : Z) (m : com S A) : Prop :=
  forall s w, now w <= now (m s w).1.2 <= now w + d /\ comes_back (m s w).2.

Local Ltac in_time := cbn in *; intuition (try lia).

Section Timely.
Context `{WinRT} {S : Type}.

Lemma timely_bind {A B} d1 d2 (m : com S A) (f : A -> com S B) :
  0 <= d2 -> timely d1 m -> (forall a, timely d2 (f a)) -> timely (d1 + d2) (m ≫= f).
Proof.
  intros Hd Hm Hf s w. specialize (Hm s w). unfold mbind, com_bind.
  destruct (m s w) as [[s1 w1] [hr a|hr| |]]; [specialize (Hf a s1 w1)|..]; in_time.
Qed.

Lemma timely_0_bind {A B} d (m : com S A) (f : A -> com S B) :
  0 <= d -> timely 0 m -> (forall a, timely d (f a)) -> timely d (m ≫= f).
Proof. intros Hd Hm Hf. replace d with (0 + d) by lia. by apply timely_bind. Qed.

Lemma timely_bind_0 {A B} d (m : com S A) (f : A -> com S B) :
  timely d m -> (forall a, timely 0 (f a)) -> timely d (m ≫= f).
Proof. intros Hm Hf. replace d with (d + 0) by lia. by apply timely_bind. Qed.

Lemma timely_weaken {A} d1 d2 (m : com S A) : timely d1 m -> d1 <= d2 -> timely d2 m.
Proof. intros Hm Hd s w. specialize (Hm s w). in_time. Qed.

Lemma timely_ret {A} (a : A) : timely (S := S) 0 (mret a).
Proof. intros s w. in_time. Qed.

Lemma timely_set_hr hr : timely (S := S) 0 (set_hr hr).
Proof. intros s w. unfold set_hr. cbn. destruct (SUCCEEDED hr); in_time. Qed.

Lemma timely_history : timely (S := S) 0 history.
Proof. intros s w. in_time. Qed.

Lemma timely_get : timely (S := S) 0 get.
Proof. intros s w. in_time. Qed.

Lemma timely_modify f : timely (S := S) 0 (modify f).
Proof. intros s w. in_time. Qed.

Lemma timely_invoke c : timely (S := S) 0 (invoke c).
Proof. intros s w. unfold invoke. cbn. destruct (SUCCEEDED _); in_time. Qed.

Lemma timely_then_keep {A B} d (m : com S A) (f : A -> S -> S * B) : timely d m -> timely d (then_keep m f).
Proof.
  intros Hm s w. specialize (Hm s w). unfold then_keep. destruct (m s w) as [[s1 w1] [hr a|hr| |]]; try done.
  by destruct (f a s1).
Qed.

Lemma timely_then_value {A B} d (m : com S A) (b : B) : timely d m -> timely d (then_value m b).
Proof. apply timely_then_keep. Qed.

Lemma timely_getter {A} name (a : A) : timely (S := S) 0 (getter name a).
Proof. apply timely_then_value, timely_invoke. Qed.

Lemma timely_attempt {A} d (m : com S A) : timely d m -> timely d (attempt m).
Proof. intros Hm s w. specialize (Hm s w). unfold attempt. by destruct (m s w) as [[s1 w1] [hr a|hr| |]]. Qed.

Lemma timely_returned {A} d (m : com S A) : timely d m -> timely d (returned m).
Proof. intros Hm s w. specialize (Hm s w). unfold returned. by destruct (m s w) as [[s1 w1] [hr a|hr| |]]. Qed.

Lemma timely_when b d m : 0 <= d -> timely (S := S) d m -> timely d (when b m).
Proof. intros Hd Hm. destruct b; [done|]. eapply timely_weaken; [apply timely_ret|done]. Qed.

Lemma timely_wait signaled ms : 0 <= ms -> timely (S := S) ms (WaitForSingleObjectEx signaled (Some ms)).
Proof.
  intros Hms s w. unfold WaitForSingleObjectEx. destruct (wait_fails (trace w)); [in_time|].
  destruct signaled as [t|]; [|in_time]. cbn. destruct (Z.leb_spec t (now w + ms)); in_time.
Qed.

Lemma timely_WaitForASyncWithEvent a ms : 0 <= ms -> timely (S := S) ms (WaitForASyncWithEvent (Some a) ms).
Proof.
  intros Hms. cbn [WaitForASyncWithEvent]. apply timely_0_bind; [done|intros s w; apply timely_getter|]. intros st.
  destruct (decide (st = Started)); [|destruct (decide _); (eapply timely_weaken; [apply timely_set_hr|done])].
  apply timely_bind_0; [by apply timely_wait|].
  intros []; [apply timely_set_hr| |apply timely_set_hr]. apply timely_0_bind; [done|apply timely_attempt; intros ??; apply timely_getter|].
  intros hr2. destruct (decide _); apply timely_set_hr.
Qed.

Lemma timely_WaitForAsync a ms : 0 <= ms -> timely (S := S) ms (WaitForAsync a ms).
Proof.
  intros Hms. unfold WaitForAsync.
  do 3 (apply timely_0_bind; [done|apply timely_invoke|intros _]). apply timely_0_bind; [done|apply timely_history|intros h].
  apply timely_0_bind; [done|apply timely_set_hr|intros _]. apply timely_0_bind; [done|apply timely_invoke|intros _].
  apply timely_bind_0; [by apply timely_WaitForASyncWithEvent|intros _].
  apply timely_0_bind; [done|apply timely_getter|intros hr]. apply timely_set_hr.
Qed.

(** *** What a wait finds out *)

Lemma gives_get_Status `{!Quiet} a (s : S) w :
  gives (get_Status a) s w s (record (Method "IAsyncInfo::get_Status") S_OK w) (status_at a (now w)).
Proof. apply gives_getter. Qed.

(** The wait for the event, in a system where no call fails. *)
Definition found (o : outcome unit) (b : Prop) : Prop :=
  (b /\ exists hr, o = Good hr tt) \/ (~ b /\ exists hr, o = Failed hr /\ SUCCEEDED hr = false).

Lemma found_set_hr hr b (s : S) w : (SUCCEEDED hr = true <-> b) -> found (set_hr hr s w).2 b.
Proof.
  intros Hb. unfold set_hr, found. cbn. destruct (SUCCEEDED hr) eqn:Hhr; [left|right]; (split; [tauto || intuition congruence|by eauto]).
Qed.

Lemma ended_by_dec f t : {ended_by f t} + {~ ended_by f t}.
Proof.
  destruct f as [f|]; [|right; by intros (? & ? & _)].
  destruct (Z_le_gt_dec f t) as [Hf|Hf]; [left; by exists f|right; intros (? & [= <-] & ?); lia].
Qed.

Lemma ends_status_now a f st t : ends a f st -> status_at a t = if ended_by_dec f t then st else Started.
Proof.
  intros Ha. rewrite (ends_status a f st Ha). destruct (ended_by_dec f t) as [(f' & -> & Hf)|Hf].
  - by apply Z.leb_le in Hf as ->.
  - destruct f as [f|]; [|done]. destruct (Z.leb_spec f t); [|done]. destruct Hf. by exists f.
Qed.

Lemma WaitForASyncWithEvent_finds `{!Quiet} a f st ms (s : S) w : 0 <= ms -> ends a f st ->
  found (WaitForASyncWithEvent (Some a) ms s w).2
    ((st = Completed /\ ended_by f (now w + ms)) \/
     (~ ended_by f (now w) /\ exists t, signaled_at a = Some t /\ t <= now w + ms)).
Proof.
  intros Hms Ha. cbn [WaitForASyncWithEvent]. rewrite (gives_bind _ _ _ _ _ _ _ (gives_get_Status a s w)).
  rewrite (ends_status_now a f st (now w) Ha). pose proof (ends_final a f st Ha) as Hst.
  destruct (ended_by_dec f (now w)) as [Hf|Hf].
  - assert (ended_by f (now w + ms)) as Hf' by (destruct Hf as (f' & ? & ?); exists f'; split; [done|lia]).
    rewrite decide_False by done. destruct (decide (st = Completed)); apply found_set_hr.
    + split; [intros _; by left|done].
    + split; [done|by intros [[]|[]]].
  - rewrite decide_True by done. unfold mbind at 1, com_bind at 1, WaitForSingleObjectEx. rewrite quiet_wait. cbn [now trace record].
    destruct (signaled_at a) as [t|] eqn:Ht; [destruct (Z.leb_spec t (now w + ms)) as [Hle|Hgt]|].
    { apply found_set_hr. split; [intros _; right; split; [done|by exists t]|done]. }
    all: unfold mbind, com_bind; destruct (gives_attempt _ _ _ _ _ _ (gives_get_Status a s (mkWorld (now w + ms) (trace w ++ [(Method "IAsyncInfo::get_Status", S_OK)])))) as [hr Hg].
    all: cbn [record now trace] in Hg |- *; rewrite Hg, (ends_status_now a f st _ Ha); destruct (ended_by_dec f (now w + ms)) as [Hf'|Hf'].
    all: destruct (decide _) as [Heq|Hne]; apply found_set_hr; split; try done.
    all: try (intros _; left; split; [congruence|done]).
    all: intros [[-> Hby]|[_ (t' & [= <-] & Hle)]]; done || lia.
Qed.

Lemma WaitForAsync_found `{!Quiet} a f st ms (s : S) w : 0 <= ms -> ends a f st ->
  found (WaitForAsync a ms s w).2
    (SUCCEEDED (error_code a) = true /\
     ((st = Completed /\ ended_by f (now w + ms)) \/
      (~ ended_by f (now w) /\ exists t, signaled_at a = Some t /\ t <= now w + ms))).
Proof.
  intros Hms Ha. unfold WaitForAsync.
  do 3 rewrite (gives_bind _ _ _ _ _ _ _ (gives_method _ _ _)). rewrite (gives_bind _ _ _ _ _ _ _ (gives_history _ _)).
  rewrite quiet_error. rewrite (gives_bind _ _ _ _ _ _ _ (gives_set_hr S_OK _ _ eq_refl)).
  rewrite (gives_bind _ _ _ _ _ _ _ (gives_method _ _ _)).
  remember (record _ _ (record _ _ (record _ _ (record _ _ w)))) as w1.
  assert (now w1 = now w) as Hw1 by by subst. clear Heqw1. unfold mbind at 1, com_bind at 1.
  pose proof (WaitForASyncWithEvent_finds a f st ms s w1 Hms Ha) as Hfound. rewrite Hw1 in Hfound.
  destruct (WaitForASyncWithEvent (Some a) ms s w1) as [[s2 w2] o]. cbn [snd] in Hfound.
  destruct Hfound as [(Hb & hr & ->)|(Hb & hr & -> & Hhr)].
  - rewrite (gives_bind _ _ _ _ _ _ _ (gives_getter _ _ _ _)). apply found_set_hr. tauto.
  - right. split; [tauto|]. by exists hr.
Qed.

End Timely.

(** *** Calls other than methods *)

Definition is_method (c : call) : bool := match c with Method _ => true | _ => false end.
Definition effects (l : list event) : list call := List.filter (fun c => negb (is_method c)) (map fst l).

Lemma effects_app l1 l2 : effects (l1 ++ l2) = effects l1 ++ effects l2.
Proof. unfold effects. by rewrite map_app, List.filter_app. Qed.

Lemma effects_methods l : Forall (fun e => is_method e.1 = true) l -> effects l = [].
Proof.
  unfold effects. induction 1 as [|[c hr] l Hc Hl IH]; [done|]. cbn in *. by rewrite Hc.
Qed.

(** [m] succeeds, and [Q] holds of its value, the members, the world and the calls it has
    made besides methods. *)
Definition succeeds {S A} (m : com S A) (s : S) (w : world) (Q : A -> S -> world -> list call -> Prop) : Prop :=
  exists a s' w' l, gives m s w s' w' a /\ now w <= now w' /\ effects (trace w') = effects (trace w) ++ l /\ Q a s' w' l.

(** Every operation completes within 250 milliseconds, and its handler runs. *)
Class Smooth `{Quiet} := {
  smooth w c : exists f t, ends (operation w c) (Some f) Completed /\ error_code (operation w c) = S_OK /\
    signaled_at (operation w c) = Some t /\ f <= now w + 250;
  smooth_thread h : has_thread_access h = false
}.

Section Succeeds.
Context `{Smooth} {S : Type}.

Lemma succeeds_bind {A B} (m : com S A) (f : A -> com S B) s w Q :
  succeeds m s w (fun a s1 w1 l1 => succeeds (f a) s1 w1 (fun b s2 w2 l2 => Q b s2 w2 (l1 ++ l2))) ->
  succeeds (m ≫= f) s w Q.
Proof.
  intros (a & s1 & w1 & l1 & Hm & Ht & Hl & b & s2 & w2 & l2 & Hf & Ht' & Hl' & HQ).
  exists b, s2, w2, (l1 ++ l2). split; [by eapply gives_seq|]. split; [lia|]. split; [by rewrite Hl', Hl, app_assoc|done].
Qed.

Lemma succeeds_same {A} (m : com S A) s w s' a (Q : A -> S -> world -> list call -> Prop) :
  gives m s w s' w a -> Q a s' w [] -> succeeds m s w Q.
Proof. intros Hm HQ. exists a, s', w, []. split; [done|]. split; [lia|]. split; [by rewrite app_nil_r|done]. Qed.

Lemma succeeds_ret {A} (a : A) (s : S) w Q : Q a s w [] -> succeeds (mret a) s w Q.
Proof. apply succeeds_same, gives_ret. Qed.

Lemma succeeds_modify f (s : S) w Q : Q tt (f s) w [] -> succeeds (modify f) s w Q.
Proof. apply succeeds_same, gives_modify. Qed.

Lemma succeeds_history (s : S) w Q : Q (trace w) s w [] -> succeeds history s w Q.
Proof. apply succeeds_same, gives_history. Qed.

Lemma succeeds_get (s : S) w Q : Q s s w [] -> succeeds get s w Q.
Proof. apply succeeds_same, gives_get. Qed.

Lemma succeeds_set_hr hr (s : S) w Q : SUCCEEDED hr = true -> Q tt s w [] -> succeeds (set_hr hr) s w Q.
Proof. intros Hhr. by apply succeeds_same, gives_set_hr. Qed.

Lemma succeeds_recorded {A} (m : com S A) s w c a (Q : A -> S -> world -> list call -> Prop) :
  gives m s w s (record c S_OK w) a ->
  Q a s (record c S_OK w) (effects [(c, S_OK)]) -> succeeds m s w Q.
Proof.
  intros Hm HQ. exists a, s, (record c S_OK w), (effects [(c, S_OK)]). split; [done|]. split; [cbn; lia|].
  split; [apply effects_app|done].
Qed.

(** Only the number of calls and the time of the world matter afterwards. *)
Lemma succeeds_method name (s : S) w Q :
  (forall w', now w' = now w -> Q tt s w' []) -> succeeds (method name) s w Q.
Proof. intros HQ. eapply succeeds_recorded; [apply gives_method|]. by apply HQ. Qed.

Lemma succeeds_getter {A} name (a : A) (s : S) w Q :
  (forall w', now w' = now w -> Q a s w' []) -> succeeds (getter name a) s w Q.
Proof. intros HQ. eapply succeeds_recorded; [apply gives_getter|]. by apply HQ. Qed.

Lemma succeeds_activate name (s : S) w Q :
  (forall id w', now w' = now w -> Q id s w' []) -> succeeds (activate name) s w Q.
Proof. intros HQ. eapply succeeds_recorded; [apply gives_getter|]. by apply HQ. Qed.

Lemma succeeds_invoke c (s : S) w Q :
  is_method c = false -> (forall w', now w' = now w -> Q tt s w' [c]) -> succeeds (invoke c) s w Q.
Proof. intros Hc HQ. eapply succeeds_recorded; [apply gives_invoke|]. specialize (HQ (record c S_OK w)). destruct c; try done; by apply HQ. Qed.

Lemma succeeds_invoke_async c (s : S) w Q :
  is_method c = false -> (forall w', now w' = now w -> Q (operation w c) s w' [c]) -> succeeds (invoke_async c) s w Q.
Proof. intros Hc HQ. eapply succeeds_recorded; [apply gives_invoke_async|]. specialize (HQ (record c S_OK w)). destruct c; try done; by apply HQ. Qed.

Lemma succeeds_then_keep {A B} (m : com S A) (f : A -> S -> S * B) s w Q :
  succeeds m s w (fun a s1 w1 l1 => Q (f a s1).2 (f a s1).1 w1 l1) -> succeeds (then_keep m f) s w Q.
Proof.
  intros (a & s1 & w1 & l & [hr Hm] & Ht & Hl & HQ). exists (f a s1).2, (f a s1).1, w1, l. split; [|done].
  exists hr. unfold then_keep. rewrite Hm. by destruct (f a s1).
Qed.

Lemma succeeds_then_value {A B} (m : com S A) (b : B) s w Q :
  succeeds m s w (fun _ s1 w1 l1 => Q b s1 w1 l1) -> succeeds (then_value m b) s w Q.
Proof. intros Hm. by apply (succeeds_then_keep m (fun _ s => (s, b))). Qed.

Lemma succeeds_attempt {A} (m : com S A) s w Q :
  succeeds m s w (fun a s1 w1 l1 => Q (Some a) s1 w1 l1) -> succeeds (attempt m) s w Q.
Proof.
  intros (a & s1 & w1 & l & Hm & Hrest). exists (Some a), s1, w1, l. split; [|done]. by apply gives_attempt.
Qed.

Lemma succeeds_mono {A} (m : com S A) s w (P Q : A -> S -> world -> list call -> Prop) :
  succeeds m s w P -> (forall a s' w' l, now w <= now w' -> P a s' w' l -> Q a s' w' l) -> succeeds m s w Q.
Proof. intros (a & s1 & w1 & l & Hm & Ht & Hl & HP) HPQ. exists a, s1, w1, l. auto. Qed.

Lemma succeeds_ratio r (s : S) w Q :
  (forall w', now w' = now w -> Q (if Denominator r =? 0 then 0 else Numerator r / Denominator r) s w' []) ->
  succeeds (SafelyComputeMediaRatio r) s w Q.
Proof.
  intros HQ. apply succeeds_bind, succeeds_attempt, succeeds_bind, succeeds_getter. intros w1 Ht1.
  apply succeeds_bind, succeeds_getter. intros w2 Ht2. apply succeeds_ret, succeeds_ret. apply HQ. congruence.
Qed.

Lemma succeeds_wait w0 c ms (s : S) w Q : 250 <= ms -> now w0 <= now w ->
  (forall w', now w <= now w' -> Q tt s w' []) -> succeeds (WaitForAsync (operation w0 c) ms) s w Q.
Proof.
  intros Hms Hw HQ. destruct (smooth w0 c) as (f & t & Hends & Herr & Ht & Hf).
  pose proof (WaitForAsync_found _ _ _ ms s w ltac:(lia) Hends) as Hfound.
  pose proof (preserves_WaitForAsync members_kept (operation w0 c) ms ltac:(lia) s w) as Hs.
  assert (Neutral (only (fun c => is_method c = true) (S := S))) as Hn by by apply only_neutral.
  pose proof (preserves_WaitForAsync (only _) (operation w0 c) ms ltac:(lia) s w) as [(l & Hl & HP) Ht'].
  unfold members_kept in Hs. destruct (WaitForAsync _ ms s w) as [[s' w'] o] eqn:Heq. cbn in *. subst s'.
  destruct Hfound as [(_ & hr & ->)|(Hb & _)].
  - exists tt, s, w', []. split; [by exists hr|]. split; [done|]. split; [|by apply HQ].
    by rewrite Hl, effects_app, (effects_methods l).
  - destruct Hb. rewrite Herr. split; [done|]. left. split; [done|]. exists f. split; [done|lia].
Qed.

Lemma succeeds_wait_infinite w0 c (s : S) w Q :
  (forall w', now w <= now w' -> Q tt s w' []) -> succeeds (wait_infinite (signaled_at (operation w0 c))) s w Q.
Proof.
  intros HQ. destruct (smooth w0 c) as (f & t & _ & _ & -> & _). apply succeeds_bind.
  exists WAIT_OBJECT_0, s, (mkWorld (Z.max (now w) t) (trace w)), [].
  split; [exists S_OK; unfold WaitForSingleObjectEx; by rewrite quiet_wait|].
  split; [cbn; lia|]. split; [by rewrite app_nil_r|]. apply succeeds_set_hr; [done|]. apply HQ. cbn. lia.
Qed.

(** *** Opening a camera *)

Definition setting_calls (id : wstring) (profile description : option Z) : list call :=
  match profile, description with None, None => if 0 <? Z.of_nat (length id) then [put_VideoDeviceId id] else [] | _, _ => [] end
  ++ match profile with Some p => [put_VideoProfile p] | None => [] end
  ++ match description with Some d => [put_RecordMediaDescription d] | None => [] end.

Lemma succeeds_CreateSettings id profile description (s : S) w Q :
  (forall st w', now w' = now w -> Q st s w' (setting_calls id profile description)) ->
  succeeds (CreateMediaCaptureInitializationSettings id profile description) s w Q.
Proof.
  intros HQ. unfold CreateMediaCaptureInitializationSettings. apply succeeds_bind, succeeds_method. intros w1 Ht1. apply succeeds_bind.
  assert (forall w1 c (P : unit -> S -> world -> list call -> Prop), (forall c', c = Some c' -> is_method c' = false) ->
    (forall w', now w' = now w1 -> P tt s w' (match c with Some c => [c] | None => [] end)) ->
    succeeds (match c with Some c => invoke c | None => mret tt end) s w1 P) as Hopt.
  { intros w1' [c|] P Hc HP; [apply succeeds_invoke; [by apply Hc|done]|by apply succeeds_ret, HP]. }
  set (by_id := match profile, description with None, None => 0 <? Z.of_nat (length id) | _, _ => false end).
  replace (when by_id (invoke (put_VideoDeviceId id)))
    with (match (if by_id then Some (put_VideoDeviceId id) else None) with Some c => invoke (S := S) c | None => mret tt end) by by destruct by_id.
  apply Hopt; [intros c'; destruct by_id; by intros [= <-]|]. intros w2 Ht2.
  do 2 (apply succeeds_bind, succeeds_method; intros ? ?). apply succeeds_bind.
  replace (match profile with Some p => invoke (put_VideoProfile p) | None => mret tt end)
    with (match put_VideoProfile <$> profile with Some c => invoke (S := S) c | None => mret tt end) by by destruct profile.
  apply Hopt; [intros c'; destruct profile; by intros [= <-]|]. intros ? ?. apply succeeds_bind.
  replace (match description with Some d => invoke (put_RecordMediaDescription d) | None => mret tt end)
    with (match put_RecordMediaDescription <$> description with Some c => invoke (S := S) c | None => mret tt end) by by destruct description.
  apply Hopt; [intros c'; destruct description; by intros [= <-]|]. intros ? ?.
  apply succeeds_bind, succeeds_method. intros ? ?. apply succeeds_getter. intros w5 Ht5.
  match goal with |- Q ?st _ _ ?l => replace l with (setting_calls id profile description); [apply HQ; congruence|] end.
  unfold setting_calls, by_id. destruct profile, description; cbn; rewrite ?app_nil_r; try done. by destruct (0 <? _).
Qed.

Definition opening_calls (capture : Z) : list call :=
  (if desktop then [] else [RunAsync]) ++ [InitializeWithSettingsAsync capture].

Lemma succeeds_GetMediaCapture st (s : S) w Q :
  (forall capture w', now w <= now w' -> Q capture s w' (opening_calls capture)) ->
  succeeds (GetMediaCaptureWithInitSettings st) s w Q.
Proof.
  intros HQ. unfold GetMediaCaptureWithInitSettings, opening_calls in *. destruct desktop.
  - apply succeeds_bind, succeeds_activate. intros c w1 Ht1. apply succeeds_bind, succeeds_invoke_async; [done|]. intros w2 Ht2.
    apply succeeds_then_value, succeeds_wait; [lia|lia|]. intros w3 Ht3. apply HQ. lia.
  - apply succeeds_bind. unfold GetMainViewDispatcher. do 5 (apply succeeds_bind, succeeds_method; intros ? ?).
    apply succeeds_method. intros ? ?. apply succeeds_bind, succeeds_history, succeeds_bind, succeeds_getter. intros ? ?.
    rewrite smooth_thread. apply succeeds_bind, succeeds_set_hr; [done|]. apply succeeds_bind, succeeds_method. intros ? ?.
    apply succeeds_bind, succeeds_activate. intros c ? ?. apply succeeds_bind, succeeds_method. intros ? ?.
    apply succeeds_bind, succeeds_invoke_async; [done|]. intros ? ?. apply succeeds_bind, succeeds_wait_infinite. intros ? ?.
    apply succeeds_bind, succeeds_attempt, succeeds_bind, succeeds_method. intros ? ?.
    apply succeeds_bind, succeeds_invoke_async; [done|]. intros ? ?. apply succeeds_getter. intros ? ?.
    do 2 (apply succeeds_bind, succeeds_method; intros ? ?). apply succeeds_bind, succeeds_method. intros ? ?.
    apply succeeds_then_value, succeeds_wait_infinite. intros ? ?. apply HQ. lia.
Qed.

End Succeeds.

(** [m] fails with [hr], and [Q] holds of the members, the world and the calls it has made. *)
Definition fails {S A} (m : com S A) (s : S) (w : world) (hr : HRESULT) (Q : S -> world -> list call -> Prop) : Prop :=
  exists s' w' l, m s w = (s', w', Failed hr) /\ now w <= now w' /\ effects (trace w') = effects (trace w) ++ l /\ Q s' w' l.

Lemma fails_bind {S A B} (m : com S A) (f : A -> com S B) s w hr Q :
  succeeds m s w (fun a s1 w1 l1 => fails (f a) s1 w1 hr (fun s2 w2 l2 => Q s2 w2 (l1 ++ l2))) -> fails (m ≫= f) s w hr Q.
Proof.
  intros (a & s1 & w1 & l1 & Hm & Ht & Hl & s2 & w2 & l2 & Hf & Ht' & Hl' & HQ). exists s2, w2, (l1 ++ l2).
  split; [by rewrite (gives_bind m f s w s1 w1 a)|]. split; [lia|]. split; [by rewrite Hl', Hl, app_assoc|done].
Qed.

Lemma fails_set_hr {S A} hr (f : unit -> com S A) (s : S) w (Q : S -> world -> list call -> Prop) :
  SUCCEEDED hr = false -> Q s w [] -> fails (set_hr hr ≫= f) s w hr Q.
Proof.
  intros Hhr HQ. exists s, w, []. split; [unfold set_hr, mbind, com_bind; by rewrite Hhr|]. split; [lia|]. split; [by rewrite app_nil_r|done].
Qed.

Lemma succeeds_returned {S A} (m : com S A) s w (Q : HRESULT -> S -> world -> list call -> Prop) :
  (exists hr, SUCCEEDED hr = false /\ fails m s w hr (fun s' w' l => Q hr s' w' l)) \/
  (honest m /\ succeeds m s w (fun _ s' w' l => forall hr, SUCCEEDED hr = true -> Q hr s' w' l)) ->
  succeeds (returned m) s w Q.
Proof.
  intros [(hr & Hhr & s' & w' & l & Hm & Hrest)|(Hhonest & a & s' & w' & l & [hr Hm] & Ht & Hl & HQ)].
  - exists hr, s', w', l. split; [|done]. exists S_OK. unfold returned. by rewrite Hm.
  - exists hr, s', w', l. split; [exists S_OK; unfold returned; by rewrite Hm|]. split; [done|]. split; [done|].
    apply HQ. specialize (Hhonest s w). by rewrite Hm in Hhonest.
Qed.

Lemma bind_outcome {S A B} (m : com S A) (f : A -> com S B) s w o :
  succeeds m s w (fun a s' w' l => (f a s' w').2 = o) -> ((m ≫= f) s w).2 = o.
Proof. intros (a & s' & w' & l & Hm & _ & _ & Hf). by rewrite (gives_bind m f s w s' w' a). Qed.

Lemma bind_good {S A B} (m : com S A) (f : A -> com S B) s w s' w' hr b :
  (m ≫= f) s w = (s', w', Good hr b) -> exists a s1 w1 hr1, m s w = (s1, w1, Good hr1 a) /\ f a s1 w1 = (s', w', Good hr b).
Proof. unfold mbind, com_bind. destruct (m s w) as [[s1 w1] [hr1 a| | |]]; [|done..]. intros Hf. by exists a, s1, w1, hr1. Qed.

Lemma honest_returned {S A} (m : com S A) : honest (returned m).
Proof. intros s w. unfold returned. by destruct (m s w) as [[s1 w1] [hr a|hr| |]]. Qed.

(** ** On success

    If [m] succeeds, [Q] holds afterwards. *)
Section Ensures.
Context `{WinRT}.

Definition ensures {S A} (m : com S A) (s : S) (w : world) (Q : A -> S -> world -> Prop) : Prop :=
  match m s w with (s', w', Good _ a) => Q a s' w' | _ => True end.

Lemma ensures_bind {S A B} (m : com S A) (f : A -> com S B) s w Q :
  ensures m s w (fun a s' w' => ensures (f a) s' w' Q) -> ensures (m ≫= f) s w Q.
Proof. unfold ensures, mbind, com_bind. by destruct (m s w) as [[s' w'] [| | |]]. Qed.

Lemma ensures_preserves {S A} R (m : com S A) s w (Q : A -> S -> world -> Prop) :
  preserves R m -> (forall a s' w', R (s, w) (s', w') -> Q a s' w') -> ensures m s w Q.
Proof. intros Hm HQ. specialize (Hm s w). unfold ensures. destruct (m s w) as [[s' w'] [| | |]]; [by apply HQ|done..]. Qed.

Lemma ensures_invoke {S} c (s : S) w (Q : unit -> S -> world -> Prop) :
  (SUCCEEDED (result (trace w) c) = true -> Q tt s (record c (result (trace w) c) w)) -> ensures (invoke c) s w Q.
Proof. intros HQ. unfold ensures, invoke. destruct (SUCCEEDED _); [by apply HQ|done]. Qed.

Lemma ensures_then_keep {S A B} (m : com S A) (f : A -> S -> S * B) s w Q :
  ensures m s w (fun a s' w' => Q (f a s').2 (f a s').1 w') -> ensures (then_keep m f) s w Q.
Proof. unfold ensures, then_keep. destruct (m s w) as [[s' w'] [hr a| | |]]; [|done..]. by destruct (f a s'). Qed.

Definition only_methods {S} : S * world -> S * world -> Prop := only (fun c => is_method c = true).

Instance only_methods_preorder {S} : PreOrder (@only_methods S).
Proof. apply only_preorder. Qed.

Instance only_methods_neutral {S} : Neutral (@only_methods S).
Proof. by apply only_neutral. Qed.

(** Both at once. *)
Lemma ensures_wait {S} a ms (s : S) w (Q : unit -> S -> world -> Prop) : 0 <= ms ->
  (forall w' l, trace w' = trace w ++ l -> Forall (fun e => is_method e.1 = true) l -> Q tt s w') ->
  ensures (WaitForAsync a ms) s w Q.
Proof.
  intros Hms HQ. pose proof (preserves_WaitForAsync members_kept a ms Hms s w) as Hs.
  pose proof (preserves_WaitForAsync only_methods a ms Hms s w) as [(l & Hl & HP) _].
  unfold ensures, members_kept in *. destruct (WaitForAsync a ms s w) as [[s' w'] [hr []| | |]]; [|done..].
  cbn in *. subst s'. by eapply HQ.
Qed.

Lemma ensures_getter {S A} name (a : A) (s : S) w (Q : A -> S -> world -> Prop) :
  (forall hr, Q a s (record (Method name) hr w)) -> ensures (getter name a) s w Q.
Proof. intros HQ. by apply ensures_then_keep, ensures_invoke. Qed.

End Ensures.

Lemma succeeds_call_out `{Quiet} {S} c (s : S) w (Q : unit -> S -> world -> list call -> Prop) :
  is_method c = false -> (forall w', now w' = now w -> Q tt s w' [c]) -> succeeds (call_out c) s w Q.
Proof.
  intros Hc HQ. eapply (succeeds_recorded _ _ _ c); [exists S_OK; unfold call_out; by rewrite quiet_result|].
  specialize (HQ (record c S_OK w)). destruct c; try done; by apply HQ.
Qed.

(** ** Systems for examples

    In [good_system] every operation takes 100 milliseconds, and its handler runs 20
    milliseconds later; in [bad_system] the given call fails. *)

Definition one_async (start : Z) : async :=
  mkAsync (fun t => if start + 100 <=? t then Completed else Started) (Some (start + 120)) S_OK.

Definition bad_system (fault : call) : WinRT := {|
  result _ c := if decide (c = fault) then E_FAIL else S_OK;
  operation w _ := one_async (now w);
  wait_fails _ := false;
  last_error_exists _ := false;
  has_thread_access _ := false;
  desktop := true
|}.

Definition good_system : WinRT := {|
  result _ _ := S_OK;
  operation w _ := one_async (now w);
  wait_fails _ := false;
  last_error_exists _ := false;
  has_thread_access _ := false;
  desktop := true
|}.

Lemma one_async_ends start : ends (one_async start) (Some (start + 100)) Completed.
Proof. split; [done|done|]. intros t [= <-]. exists (start + 100). split; [done|lia]. Qed.

#[export] Instance good_quiet : @Quiet good_system.
Proof. by split. Qed.

#[export] Instance good_smooth : @Smooth good_system good_quiet.
Proof.
  split; [|done]. intros w c. exists (now w + 100), (now w + 120). split; [apply one_async_ends|]. cbn. repeat split; lia.
Qed.

(** ** Main results *)

(** C38: A wait comes back within its timeout; in a system where no call fails, it succeeds
    exactly when the operation has no error and either completed by then, even if its
    handler did not run, or ended in any way during the wait and its handler ran. *)
Theorem WaitForAsync_outcome `{Quiet} {S} a f st ms (s : S) w : 0 <= ms -> ends a f st ->
  now w <= now (WaitForAsync a ms s w).1.2 <= now w + ms /\
  found (WaitForAsync a ms s w).2
    (SUCCEEDED (error_code a) = true /\
     ((st = Completed /\ ended_by f (now w + ms)) \/
      (~ ended_by f (now w) /\ exists t, signaled_at a = Some t /\ t <= now w + ms))).
Proof.
  intros Hms Ha. split; [exact (proj1 (timely_WaitForAsync a ms Hms s w))|by apply WaitForAsync_found].
Qed.

(** [ToVideoType] accepts each prefix of at least four characters of a name of its table,
    and gives it the type of the first such name. *)
Lemma wcsncmp_prefix s1 s2 : Forall (fun c => c <> 0) s1 -> Forall (fun c => c <> 0) s2 ->
  wcsncmp_equal s1 s2 (length s2) = true <-> s2 `prefix_of` s1.
Proof.
  intros H1 H2. revert s1 H1. induction H2 as [|c s2 Hc H2 IH]; intros s1 H1; cbn [length wcsncmp_equal].
  { split; [intros _; by exists s1|done]. }
  destruct H1 as [|c1 s1 Hc1 H1]; cbn [hd tl].
  - destruct (Z.eqb_spec 0 c); [congruence|]. split; [done|]. intros Hp. by apply prefix_nil_inv in Hp.
  - destruct (Z.eqb_spec c1 c) as [-> |Hne]; cbn [andb].
    + destruct (Z.eqb_spec c 0); [done|]. cbn [orb]. rewrite (IH s1 H1). split; [apply prefix_cons|apply prefix_cons_inv_2].
    + split; [done|]. intros Hp. by apply prefix_cons_inv_1 in Hp.
Qed.

(** ** Examples *)

Module Example.

Lemma WaitForAsync_outcome_witness :
  now (@WaitForAsync good_system unit (one_async 0) 250 tt (mkWorld 0 [])).1.2 = 120 /\
  found (@WaitForAsync good_system unit (one_async 0) 250 tt (mkWorld 0 [])).2
    (SUCCEEDED S_OK = true /\ ((Completed = Completed /\ ended_by (Some 100) 250) \/
      (~ ended_by (Some 100) 0 /\ exists t, Some 120 = Some t /\ t <= 250))).
Proof.
  split; [vm_compute; reflexivity|].
  exact (proj2 (@WaitForAsync_outcome good_system good_quiet unit (one_async 0) (Some 100) Completed 250 tt (mkWorld 0 [])
    ltac:(lia) (one_async_ends 0))).
Defined.

(** The subtypes that are recognized are the names and their prefixes. *)
Lemma ToVideoType_examples :
  map (fun s => ToVideoType (wide s)) ["NV12"; "YUY2"; "RGB5"; "ARGB4"; "MJPE"; "MJPG"; "BGRA8"; "nv12"; "NV1"]%string =
  [kNV12; kYUY2; kRGB565; kARGB4444; kMJPEG; kUnknown; kUnknown; kUnknown; kUnknown].
Proof. by vm_compute. Qed.

(** A system for which the program is built as an app, and whose user refuses access to
    the camera after 100 milliseconds. *)
Definition refused : async := mkAsync (fun t => if 100 <=? t then Error else Started) (Some 100) (hresult 0x80070005).
Definition refusing_app : WinRT := {|
  result _ _ := S_OK;
  operation w c := match c with InitializeWithSettingsAsync _ => refused | _ => one_async (now w) end;
  wait_fails _ := false;
  last_error_exists _ := false;
  has_thread_access _ := false;
  desktop := false
|}.

(** What the completion handler returns is seen by nobody: the camera is "open". *)
Lemma refused_camera_opens :
  exists w, @GetMediaCaptureWithInitSettings refusing_app unit (mkSettings None None None) tt (mkWorld 0 []) = (tt, w, Good S_OK 8) /\
  (@WaitForAsync refusing_app unit refused 5000 tt (mkWorld 0 [])).2 = Failed (hresult 0x80070005).
Proof. eexists. split; vm_compute; reflexivity. Qed.

End Example.

