(* ===== verification/WinrtCapture.v ===== *)
(** * WinrtCapture: the camera of the Windows Runtime

    video_capture/windows/video_capture_winrt.cc of the patches for libwebrtc:
    [VideoCaptureWinRTInternal] opens a camera, chooses one of its sources and a format,
    starts a frame reader and passes the frames on; [VideoCaptureWinRT] remembers the
    capability it was started with. *)

From S2P Require Import Prelude IntTypes HResult WinRT.
Open Scope Z_scope.

(** ** Data *)

Record VideoCaptureCapability := mkCapability {
  width : Z;
  height : Z;
  maxFPS : Z;
  videoType : VideoType;
  interlaced : bool;
  profile_id : wstring;
  media_capture_video_profile : option Z;
  record_media_description : option Z
}.
#[export] Instance VideoCaptureCapability_eq_dec : EqDecision VideoCaptureCapability.
Proof. solve_decision. Defined.

Definition no_capability : VideoCaptureCapability := mkCapability 0 0 0 kUnknown false [] None None.

(** [operator==] through [operator!=]. *)
Definition capability_differs (c other : VideoCaptureCapability) : bool :=
  if negb (width c =? width other) then true
  else if negb (height c =? height other) then true
  else if negb (maxFPS c =? maxFPS other) then true
  else if negb (bool_decide (videoType c = videoType other)) then true
  else if negb (Bool.eqb (interlaced c) (interlaced other)) then true
  else if negb (bool_decide (profile_id c = profile_id other)) then true
  else if negb (bool_decide (media_capture_video_profile c = media_capture_video_profile other)) then true
  else if negb (bool_decide (record_media_description c = record_media_description other)) then true
  else false.
Definition capability_equal (c other : VideoCaptureCapability) : bool := negb (capability_differs c other).

Inductive MediaStreamType := VideoPreview | VideoRecord | AudioStream | PhotoStream | MetadataStream.
Inductive MediaFrameSourceKind := Custom | Color | Infrared | Depth | AudioSource | ImageSource.
#[export] Instance MediaStreamType_eq_dec : EqDecision MediaStreamType.
Proof. solve_decision. Defined.
#[export] Instance MediaFrameSourceKind_eq_dec : EqDecision MediaFrameSourceKind.
Proof. solve_decision. Defined.

(** [IMediaFrameFormat] and [IMediaFrameSource]; sizes are [UINT32]. *)
Record frame_format := mkFormat { format_id : Z; Subtype : wstring; Width : Z; Height : Z; FrameRate : media_ratio }.
Record frame_source := mkSource {
  source_id : Z;
  stream_type : MediaStreamType;
  source_kind : MediaFrameSourceKind;
  SupportedFormats : list frame_format
}.

(** What the calls of the camera store. *)
Class Cameras := {
  FrameSources : list event -> list frame_source;
  start_status_success : list event -> bool
}.

(** The members of [VideoCaptureWinRTInternal]; the callback is [IncomingFrame]. *)
Record VideoCaptureWinRTInternal := mkInternal {
  media_capture_ : option Z;
  media_frame_reader_ : option Z;
  is_capturing : bool
}.
Definition new_internal : VideoCaptureWinRTInternal := mkInternal None None false.

Definition set_capture (c : option Z) (i : VideoCaptureWinRTInternal) :=
  mkInternal c (media_frame_reader_ i) (is_capturing i).
Definition set_reader (r : option Z) (i : VideoCaptureWinRTInternal) :=
  mkInternal (media_capture_ i) r (is_capturing i).
Definition set_capturing (b : bool) (i : VideoCaptureWinRTInternal) :=
  mkInternal (media_capture_ i) (media_frame_reader_ i) b.

Section Capture.
Context `{WinRT} `{Cameras}.
Abbreviation capture_com := (com VideoCaptureWinRTInternal).

(** ** Choosing a source *)

Definition type_wanted (cap : VideoCaptureCapability) (t : VideoType) : bool :=
  negb (negb (bool_decide (t = videoType cap)) && negb (bool_decide (t = kI420)) && negb (bool_decide (t = kYUY2))
        && negb (bool_decide (t = kYV12)) && negb (bool_decide (t = kNV12))).

(** The loop over the formats of one source: whether it selected the source. *)
Fixpoint find_format (cap : VideoCaptureCapability) (value : frame_source) (formats : list frame_format) : capture_com bool :=
  match formats with
  | [] => mret false
  | media_frame_format :: rest =>
      method "IVectorView::GetAt" ;;
      sub_type ← getter "get_Subtype" (Subtype media_frame_format);
      if negb (type_wanted cap (ToVideoType sub_type)) then find_format cap value rest else
      method "get_VideoFormat" ;;
      frame_width ← getter "get_Width" (Width media_frame_format);
      frame_height ← getter "get_Height" (Height media_frame_format);
      if negb (frame_width =? static_cast Uint32 (width cap)) || negb (frame_height =? static_cast Uint32 (height cap))
      then find_format cap value rest else
      media_ratio ← getter "get_FrameRate" (FrameRate media_frame_format);
      rate ← SafelyComputeMediaRatio media_ratio;
      if static_cast Uint32 (maxFPS cap) <? rate then find_format cap value rest else
      async_action ← invoke_async (SetFormatAsync (source_id value) (format_id media_frame_format));
      then_value (WaitForAsyncAction async_action 5000) true
  end.

(** The loop over the sources, [sources] being what the iterator has left; out of fuel it
    is still running. *)
Fixpoint find_source (fuel : nat) (cap : VideoCaptureCapability) (sources : list frame_source) : capture_com (option frame_source) :=
  match fuel with
  | O => running
  | S fuel =>
      match sources with
      | [] => mret None
      | value :: rest =>
          method "get_Current" ;;
          method "get_Value" ;;
          method "get_Info" ;;
          media_stream_type ← getter "get_MediaStreamType" (stream_type value);
          media_frame_source_kind ← getter "get_SourceKind" (source_kind value);
          if negb (bool_decide (media_stream_type = VideoRecord)) || negb (bool_decide (media_frame_source_kind = Color))
          then method "MoveNext" ;; find_source fuel cap rest else
          method "get_SupportedFormats" ;;
          method "get_Size" ;;
          selected ← find_format cap value (SupportedFormats value);
          if (selected : bool) then mret (Some value) else find_source fuel cap sources
      end
  end.

(** ** [StartCapture] *)

Definition open_camera (cap : VideoCaptureCapability) : capture_com Z :=
  when (bool_decide (is_Some (media_capture_video_profile cap))) (method "QueryInterface") ;;
  when (bool_decide (is_Some (record_media_description cap))) (method "QueryInterface") ;;
  initialization_settings ← CreateMediaCaptureInitializationSettings (profile_id cap)
    (media_capture_video_profile cap) (record_media_description cap);
  modify (set_capture None) ;;
  media_capture ← GetMediaCaptureWithInitSettings initialization_settings;
  modify (set_capture (Some media_capture)) ;;
  mret media_capture.

Definition list_sources : capture_com (list frame_source) :=
  method "As<IMediaCapture5>" ;;
  h ← history;
  frame_sources ← getter "get_FrameSources" (FrameSources h);
  method "As<IIterable>" ;;
  method "First" ;;
  getter "get_HasCurrent" frame_sources.

Definition start_reader (media_frame_source : frame_source) : capture_com unit :=
  async_operation ← invoke_async (CreateFrameReaderAsync (source_id media_frame_source));
  WaitForAsyncOperation async_operation ;;
  modify (set_reader None) ;;
  reader ← activate "IAsyncOperation<MediaFrameReader>::GetResults";
  modify (set_reader (Some reader)) ;;
  invoke (add_FrameArrived reader) ;;
  async_start_status ← invoke_async (StartAsync reader);
  WaitForAsyncOperation async_start_status ;;
  h ← history;
  status ← getter "IAsyncOperation<MediaFrameReaderStartStatus>::GetResults" (start_status_success h);
  then_keep (set_hr (if (status : bool) then S_OK else E_FAIL)) (fun _ this => (set_capturing true this, tt)).

Definition StartCapture (fuel : nat) (capability : VideoCaptureCapability) : capture_com unit :=
  open_camera capability ;;
  sources ← list_sources;
  media_frame_source ← find_source fuel capability sources;
  match media_frame_source with
  | None => set_hr E_FAIL
  | Some media_frame_source => start_reader media_frame_source
  end.

(** ** [StopCapture] *)

Definition stop_calls (this : VideoCaptureWinRTInternal) : capture_com unit :=
  match media_frame_reader_ this with
  | None => mret tt
  | Some reader =>
      invoke (remove_FrameArrived reader) ;;
      async_action ← invoke_async (StopAsync reader);
      WaitForAsyncAction async_action 250
  end ;;
  match media_capture_ this with
  | None => mret tt
  | Some media_capture =>
      method "As<IClosable>" ;;
      invoke (Close "IMediaCapture" media_capture)
  end.

Definition StopCapture : capture_com HRESULT :=
  this ← get;
  hr ← returned (stop_calls this);
  when (SUCCEEDED hr) (modify (set_capturing false)) ;;
  modify (set_reader None) ;;
  modify (set_capture None) ;;
  mret hr.

Definition CaptureStarted (this : VideoCaptureWinRTInternal) : bool := is_capturing this.

(** [~VideoCaptureWinRTInternal]: in a debug build it aborts when the capture cannot be
    stopped. *)
Definition delete_internal `{Build} : com VideoCaptureWinRTInternal (exec unit) :=
  hr ← StopCapture;
  mret (c_assert (SUCCEEDED hr) (Done tt)).

End Capture.

(** ** [FrameArrived] *)

(** [BitmapPlaneDescription]: [INT32]s. *)
Record plane_description := mkPlane { StartIndex : Z; Stride : Z }.

(** [ISoftwareBitmap]: its planes and the bytes of its buffer. *)
Record bitmap := mkBitmap { planes : list plane_description; content : Z; capacity : Z }.

(** [IVideoMediaFrame]; it has no software bitmap when it is on the graphics card. *)
Record media_frame := mkFrame {
  frame_width : Z; frame_height : Z; frame_subtype : wstring; frame_rate : media_ratio; software : option bitmap
}.

(** What [TryAcquireLatestFrame] stores: no frame, or a reference to one. *)
Class FrameReader := { latest_frame : list event -> option media_frame }.

(** The local variables that are closed at the end; each holds its object. *)
Record references := mkReferences {
  media_frame_reference : option Z;
  software_bitmap : option Z;
  bitmap_buffer : option Z;
  memory_buffer_reference : option Z
}.
Definition no_references : references := mkReferences None None None None.
Definition hold_frame (id : Z) (r : references) :=
  mkReferences (Some id) (software_bitmap r) (bitmap_buffer r) (memory_buffer_reference r).
Definition hold_bitmap (id : Z) (r : references) :=
  mkReferences (media_frame_reference r) (Some id) (bitmap_buffer r) (memory_buffer_reference r).
Definition hold_buffer (id : Z) (r : references) :=
  mkReferences (media_frame_reference r) (software_bitmap r) (Some id) (memory_buffer_reference r).
Definition hold_memory (id : Z) (r : references) :=
  mkReferences (media_frame_reference r) (software_bitmap r) (bitmap_buffer r) (Some id).

Section Frames.
Context `{WinRT} `{FrameReader}.

(** A call that stores a new reference in a local variable. *)
Definition acquire (name : string) (hold : Z -> references -> references) : com references unit :=
  id ← activate name; modify (hold id).

(** The frame is read and passed on. *)
Definition read_frame : com references unit :=
  h ← history;
  match latest_frame h with
  | None => method "TryAcquireLatestFrame"
  | Some frame =>
      acquire "TryAcquireLatestFrame" hold_frame ;;
      method "get_VideoMediaFrame" ;;
      method "get_VideoFormat" ;;
      method "get_MediaFrameFormat" ;;
      media_ratio ← getter "get_FrameRate" (frame_rate frame);
      width ← getter "get_Width" (static_cast Int32 (frame_width frame));
      height ← getter "get_Height" (static_cast Int32 (frame_height frame));
      video_subtype ← getter "get_Subtype" (frame_subtype frame);
      maxFPS ← SafelyComputeMediaRatio media_ratio;
      match software frame with
      | None => method "get_SoftwareBitmap" ;; undefined
      | Some bitmap =>
          acquire "get_SoftwareBitmap" hold_bitmap ;;
          acquire "LockBuffer" hold_buffer ;;
          plane_count ← getter "GetPlaneCount" (Z.of_nat (length (planes bitmap)));
          set_hr (if plane_count =? 2 then S_OK else E_FAIL) ;;
          bitmap_plane_description_y ← getter "GetPlaneDescription(0)" (nth 0 (planes bitmap) (mkPlane 0 0));
          bitmap_plane_description_uv ← getter "GetPlaneDescription(1)" (nth 1 (planes bitmap) (mkPlane 0 0));
          method "As<IMemoryBuffer>" ;;
          acquire "CreateReference" hold_memory ;;
          method "As<IMemoryBufferByteAccess>" ;;
          hr ← returned (method "IMemoryBufferByteAccess::GetBuffer");
          when (SUCCEEDED hr) (call_out (IncomingFrame (content bitmap) (Stride bitmap_plane_description_y)
            (content bitmap + StartIndex bitmap_plane_description_uv) (Stride bitmap_plane_description_uv)
            (capacity bitmap) width height (static_cast Int32 maxFPS) (ToVideoType video_subtype))) ;;
          set_hr hr
      end
  end.

(** [As(&closable); closable->Close();], whose results are not looked at: after a failed
    [As] the pointer is null. *)
Definition close_reference (name : string) (id : option Z) : com references unit :=
  match id with
  | None => mret tt
  | Some id =>
      closable ← attempt (method "As<IClosable>");
      match closable with None => undefined | Some _ => call_out (Close name id) end
  end.

Definition FrameArrived : com references HRESULT :=
  hr ← returned read_frame;
  r ← get;
  close_reference "IMemoryBufferReference" (memory_buffer_reference r) ;;
  close_reference "IBitmapBuffer" (bitmap_buffer r) ;;
  close_reference "ISoftwareBitmap" (software_bitmap r) ;;
  close_reference "IMediaFrameReference" (media_frame_reference r) ;;
  mret hr.

End Frames.

(** ** [VideoCaptureWinRT] *)

Record VideoCaptureWinRT := mkVideoCapture {
  video_capture_internal_ : VideoCaptureWinRTInternal;
  _requestedCapability : VideoCaptureCapability;
  _deviceUniqueId : option bytes
}.
Definition new_video_capture : VideoCaptureWinRT := mkVideoCapture new_internal no_capability None.

Definition set_internal (i : VideoCaptureWinRTInternal) (c : VideoCaptureWinRT) :=
  mkVideoCapture i (_requestedCapability c) (_deviceUniqueId c).
Definition set_requested (cap : VideoCaptureCapability) (c : VideoCaptureWinRT) :=
  mkVideoCapture (video_capture_internal_ c) cap (_deviceUniqueId c).
Definition set_unique_id (id : option bytes) (c : VideoCaptureWinRT) :=
  mkVideoCapture (video_capture_internal_ c) (_requestedCapability c) id.

(** A call of [Impl(video_capture_internal_)]. *)
Definition impl {A} (m : com VideoCaptureWinRTInternal A) : com VideoCaptureWinRT A := fun c w =>
  let '(i, w, o) := m (video_capture_internal_ c) w in (set_internal i c, w, o).

Definition SetDeviceUniqueId (device_unique_id_UTF8 : bytes) (c : VideoCaptureWinRT) : VideoCaptureWinRT * Z :=
  let device_id_length := Z.min (Z.of_nat (length device_unique_id_UTF8)) kVideoCaptureUniqueNameLength in
  if device_id_length =? kVideoCaptureUniqueNameLength then (c, -1)
  else (set_unique_id (Some device_unique_id_UTF8) c, 0).

Section Wrapper.

(** The array has 1024 elements, and its [sizeof] is passed. *)
Definition Init `{Unicode} (device_unique_id_UTF8 : bytes) (c : VideoCaptureWinRT) : option (VideoCaptureWinRT * Z) :=
  '(_, device_id_w_length) ← MultiByteToWideChar device_unique_id_UTF8 kVideoCaptureUniqueNameLength
    (kVideoCaptureUniqueNameLength * sizeof_wchar_t);
  if device_id_w_length =? 0 then Some (c, -1) else
  let '(c, r) := SetDeviceUniqueId device_unique_id_UTF8 c in
  if negb (r =? 0) then Some (c, -1) else Some (c, 0).

Context `{WinRT} `{Cameras}.

Definition VideoCapture_StopCapture : com VideoCaptureWinRT HRESULT := impl StopCapture.

Definition VideoCapture_StartCapture (fuel : nat) (capability : VideoCaptureCapability) : com VideoCaptureWinRT HRESULT :=
  c ← get;
  if CaptureStarted (video_capture_internal_ c) && capability_equal capability (_requestedCapability c) then mret S_OK else
  (if CaptureStarted (video_capture_internal_ c) then VideoCapture_StopCapture ;; mret tt else mret tt) ;;
  ret ← returned (impl (StartCapture fuel capability));
  when (SUCCEEDED ret) (modify (set_requested capability)) ;;
  mret ret.

Definition CaptureSettings (c : VideoCaptureWinRT) : VideoCaptureCapability := _requestedCapability c.

End Wrapper.
