(* ===== verification/WinrtCaptureRuns.v ===== *)
(** * WinrtCaptureRuns: what the camera does

    Theorems on [WinrtCapture].  The first part runs it in a system where nothing fails:
    which source and format is chosen, and when the search does not end.  The second
    part holds in every system: stopping, the state of the object along its life, and
    the references of [FrameArrived]. *)

From S2P Require Import Prelude IntTypes HResult WinRT WinrtCapture.
Open Scope Z_scope.

(** ** The choice of a source

    The reference: the first source that is a color camera, and its first format that
    fits. *)

Definition is_color (s : frame_source) : bool :=
  bool_decide (stream_type s = VideoRecord) && bool_decide (source_kind s = Color).
Definition first_color (sources : list frame_source) : option frame_source := find is_color sources.

Definition fits (cap : VideoCaptureCapability) (f : frame_format) : bool :=
  type_wanted cap (ToVideoType (Subtype f))
  && (Width f =? static_cast Uint32 (width cap)) && (Height f =? static_cast Uint32 (height cap))
  && (ratio_value (FrameRate f) <=? static_cast Uint32 (maxFPS cap)).

Section Smoothly.
Context `{Smooth} `{Cameras}.

Lemma find_format_succeeds cap value formats this w Q :
  (forall w', now w <= now w' ->
    match find (fits cap) formats with
    | Some f => Q true this w' [SetFormatAsync (source_id value) (format_id f)]
    | None => Q false this w' []
    end) ->
  succeeds (find_format cap value formats) this w Q.
Proof.
  revert w Q. induction formats as [|f rest IH]; intros w Q HQ; cbn [find_format]; [apply succeeds_ret, HQ; lia|].
  apply succeeds_bind, succeeds_method. intros w1 Ht1. apply succeeds_bind, succeeds_getter. intros w2 Ht2.
  cbn [find] in HQ. unfold fits in HQ at 1.
  destruct (type_wanted cap (ToVideoType (Subtype f))); cbn [negb andb] in *; [|apply IH; intros w' Ht'; apply HQ; lia].
  apply succeeds_bind, succeeds_method. intros w3 Ht3. apply succeeds_bind, succeeds_getter. intros w4 Ht4.
  apply succeeds_bind, succeeds_getter. intros w5 Ht5.
  destruct (Width f =? _); cbn [negb andb orb] in *; [|apply IH; intros w' Ht'; apply HQ; lia].
  destruct (Height f =? _); cbn [negb andb orb] in *; [|apply IH; intros w' Ht'; apply HQ; lia].
  apply succeeds_bind, succeeds_getter. intros w6 Ht6. apply succeeds_bind, succeeds_ratio. intros w7 Ht7.
  fold (ratio_value (FrameRate f)). rewrite Z.leb_antisym in HQ.
  destruct (static_cast Uint32 (maxFPS cap) <? ratio_value (FrameRate f)); cbn [negb] in *; [apply IH; intros w' Ht'; apply HQ; lia|].
  apply succeeds_bind, succeeds_invoke_async; [done|]. intros w8 Ht8. apply succeeds_then_value, succeeds_wait; [lia|lia|].
  intros w9 Ht9. apply HQ. lia.
Qed.

(** The source before which the iterator stops for good. *)
Lemma find_source_succeeds fuel cap sources this w Q :
  (length sources < fuel)%nat ->
  match first_color sources with
  | None => forall w', now w <= now w' -> Q None this w' []
  | Some src => exists f, find (fits cap) (SupportedFormats src) = Some f /\
      forall w', now w <= now w' -> Q (Some src) this w' [SetFormatAsync (source_id src) (format_id f)]
  end ->
  succeeds (find_source fuel cap sources) this w Q.
Proof.
  revert fuel w Q. induction sources as [|value rest IH]; intros [|fuel] w Q Hfuel HQ; cbn [length] in Hfuel; try lia; cbn [find_source].
  - apply succeeds_ret, HQ. lia.
  - do 3 (apply succeeds_bind, succeeds_method; intros ? ?). do 2 (apply succeeds_bind, succeeds_getter; intros ? ?).
    cbn [first_color find] in HQ. unfold is_color in HQ at 1.
    destruct (bool_decide (stream_type value = VideoRecord)), (bool_decide (source_kind value = Color)); cbn [negb andb orb] in *.
    2-4: apply succeeds_bind, succeeds_method; intros ? ?; apply IH; [lia|]; fold (first_color rest) in HQ;
      (destruct (first_color rest) as [src|]; [destruct HQ as (f & Hf & HQ); exists f; split; [done|]|]); intros; apply HQ; lia.
    destruct HQ as (f & Hf & HQ). do 2 (apply succeeds_bind, succeeds_method; intros ? ?).
    apply succeeds_bind, find_format_succeeds. rewrite Hf. intros ? ?. apply succeeds_ret, HQ. lia.
Qed.

(** A color camera without a format that fits is looked at again and again. *)
Lemma find_source_runs fuel cap sources this w src :
  first_color sources = Some src -> find (fits cap) (SupportedFormats src) = None ->
  (find_source fuel cap sources this w).2 = Running.
Proof.
  revert sources w. induction fuel as [|fuel IH]; intros sources w Hsrc Hnone; [done|].
  destruct sources as [|value rest]; [done|]. cbn [find_source].
  do 3 (apply bind_outcome, succeeds_method; intros ? ?). do 2 (apply bind_outcome, succeeds_getter; intros ? ?).
  pose proof Hsrc as Hcolor. cbn [first_color find] in Hcolor. unfold is_color in Hcolor at 1.
  destruct (bool_decide (stream_type value = VideoRecord)), (bool_decide (source_kind value = Color)); cbn [negb andb orb] in *.
  2-4: apply bind_outcome, succeeds_method; intros ? ?; by apply IH.
  injection Hcolor as ->. do 2 (apply bind_outcome, succeeds_method; intros ? ?).
  apply bind_outcome, find_format_succeeds. rewrite Hnone. intros ? ?. by apply IH.
Qed.

Lemma succeeds_when_method b name (s : VideoCaptureWinRTInternal) w Q :
  (forall w', now w' = now w -> Q tt s w' []) -> succeeds (when b (method name)) s w Q.
Proof. intros HQ. destruct b; [by apply succeeds_method|by apply succeeds_ret, HQ]. Qed.

Lemma open_camera_succeeds cap this w Q :
  (forall c w', now w <= now w' -> Q c (set_capture (Some c) (set_capture None this)) w'
    (setting_calls (profile_id cap) (media_capture_video_profile cap) (record_media_description cap) ++ opening_calls c)) ->
  succeeds (open_camera cap) this w Q.
Proof.
  intros HQ. unfold open_camera. do 2 (apply succeeds_bind, succeeds_when_method; intros ? ?).
  apply succeeds_bind, succeeds_CreateSettings. intros st w1 Ht1. apply succeeds_bind, succeeds_modify.
  apply succeeds_bind, succeeds_GetMediaCapture. intros c w2 Ht2. apply succeeds_bind, succeeds_modify, succeeds_ret.
  cbn [app]. rewrite app_nil_r. apply HQ. lia.
Qed.

Context (sources : list frame_source).
Context (Hsources : forall h, FrameSources h = sources) (Hstatus : forall h, start_status_success h = true).

Lemma list_sources_succeeds this w Q :
  (forall w', now w <= now w' -> Q sources this w' []) -> succeeds list_sources this w Q.
Proof.
  intros HQ. unfold list_sources. apply succeeds_bind, succeeds_method. intros ? ?. apply succeeds_bind, succeeds_history.
  rewrite Hsources. apply succeeds_bind, succeeds_getter. intros ? ?. do 2 (apply succeeds_bind, succeeds_method; intros ? ?).
  apply succeeds_getter. intros ? ?. apply HQ. lia.
Qed.

Lemma start_reader_succeeds src this w Q :
  (forall r w', now w <= now w' -> Q tt (mkInternal (media_capture_ this) (Some r) true) w'
    [CreateFrameReaderAsync (source_id src); add_FrameArrived r; StartAsync r]) ->
  succeeds (start_reader src) this w Q.
Proof.
  intros HQ. unfold start_reader, WaitForAsyncOperation.
  apply succeeds_bind, succeeds_invoke_async; [done|]. intros w1 Ht1. apply succeeds_bind, succeeds_wait; [lia|lia|]. intros w2 Ht2.
  apply succeeds_bind, succeeds_modify, succeeds_bind, succeeds_activate. intros r w3 Ht3.
  apply succeeds_bind, succeeds_modify, succeeds_bind, succeeds_invoke; [done|]. intros w4 Ht4.
  apply succeeds_bind, succeeds_invoke_async; [done|]. intros w5 Ht5. apply succeeds_bind, succeeds_wait; [lia|lia|]. intros w6 Ht6.
  apply succeeds_bind, succeeds_history. rewrite Hstatus. apply succeeds_bind, succeeds_getter. intros w7 Ht7.
  apply succeeds_then_keep, succeeds_set_hr; [done|]. apply (HQ r). lia.
Qed.

Definition selecting_calls (cap : VideoCaptureCapability) : list call :=
  setting_calls (profile_id cap) (media_capture_video_profile cap) (record_media_description cap).

(** C35: In a system where nothing fails, [StartCapture] takes the first color camera: if it
    has a format that fits, the first of them is set, the reader is started and the
    object is capturing; if it has none, [StartCapture] runs forever, although there may
    be another camera; without a color camera it fails. *)
Theorem StartCapture_outcome cap this w :
  match first_color sources with
  | None => forall fuel, (length sources < fuel)%nat -> (StartCapture fuel cap this w).2 = Failed E_FAIL
  | Some src =>
      match find (fits cap) (SupportedFormats src) with
      | None => forall fuel, (StartCapture fuel cap this w).2 = Running
      | Some f => forall fuel, (length sources < fuel)%nat ->
          succeeds (StartCapture fuel cap) this w (fun _ this' _ calls =>
            exists c r, this' = mkInternal (Some c) (Some r) true /\
              calls = selecting_calls cap ++ opening_calls c ++
                [SetFormatAsync (source_id src) (format_id f); CreateFrameReaderAsync (source_id src);
                 add_FrameArrived r; StartAsync r])
      end
  end.
Proof.
  destruct (first_color sources) as [src|] eqn:Hsrc; [destruct (find (fits cap) (SupportedFormats src)) as [f|] eqn:Hf|].
  - intros fuel Hfuel. apply succeeds_bind, open_camera_succeeds. intros c w1 Ht1.
    apply succeeds_bind, list_sources_succeeds. intros w2 Ht2. apply succeeds_bind, find_source_succeeds; [done|].
    rewrite Hsrc. exists f. split; [done|]. intros w3 Ht3. apply start_reader_succeeds. intros r w4 Ht4.
    exists c, r. split; [done|]. unfold selecting_calls. by rewrite <- !app_assoc.
  - intros fuel. apply bind_outcome, open_camera_succeeds. intros c w1 Ht1.
    apply bind_outcome, list_sources_succeeds. intros w2 Ht2.
    pose proof (find_source_runs fuel cap sources (set_capture (Some c) (set_capture None this)) w2 src Hsrc Hf) as Hrun.
    unfold mbind, com_bind. by destruct (find_source _ _ _ _ _) as [[s' w'] [| | |]].
  - intros fuel Hfuel. apply bind_outcome, open_camera_succeeds. intros c w1 Ht1.
    apply bind_outcome, list_sources_succeeds. intros w2 Ht2. apply bind_outcome, find_source_succeeds; [done|]. by rewrite Hsrc.
Qed.

End Smoothly.

(** ** In every system *)

(** What the parts of [StartCapture] may change. *)
Section Parts.
Context `{WinRT} `{Cameras} (R : VideoCaptureWinRTInternal * world -> VideoCaptureWinRTInternal * world -> Prop)
  `{!PreOrder R} `{!Neutral R}.

Lemma preserves_find_format cap value formats :
  (forall f, allows R (SetFormatAsync (source_id value) f)) -> preserves R (find_format cap value formats).
Proof.
  intros Hset. induction formats as [|f rest IH]; cbn [find_format]; [eauto with winrt|].
  do 2 (apply preserves_bind; [done|eauto with winrt|intros ?]). destruct (negb _); [done|].
  do 3 (apply preserves_bind; [done|eauto with winrt|intros ?]). destruct (_ || _); [done|].
  apply preserves_bind; [done|eauto with winrt|intros ?].
  apply preserves_bind; [done|by apply preserves_SafelyComputeMediaRatio|intros ?]. destruct (_ <? _); [done|].
  apply preserves_bind; [done|eauto with winrt|intros ?]. apply preserves_then_value; [done|]. by apply preserves_WaitForAsync.
Qed.

Lemma preserves_find_source fuel cap sources :
  (forall src f, allows R (SetFormatAsync src f)) -> preserves R (find_source fuel cap sources).
Proof.
  intros Hset. revert sources. induction fuel as [|fuel IH]; intros sources; cbn [find_source]; [eauto with winrt|].
  destruct sources as [|value rest]; [eauto with winrt|]. do 5 (apply preserves_bind; [done|eauto with winrt|intros ?]).
  destruct (_ || _); [apply preserves_bind; [done|eauto with winrt|intros ?]; apply IH|].
  do 2 (apply preserves_bind; [done|eauto with winrt|intros ?]).
  apply preserves_bind; [done|by apply preserves_find_format|intros []]; [eauto with winrt|apply IH].
Qed.

Lemma preserves_list_sources : preserves R list_sources.
Proof. unfold list_sources. eauto 20 with winrt. Qed.

Lemma preserves_open_camera cap :
  (profile_id cap <> [] -> allows R (put_VideoDeviceId (profile_id cap))) -> (forall p, media_capture_video_profile cap = Some p -> allows R (put_VideoProfile p)) ->
  (forall d, record_media_description cap = Some d -> allows R (put_RecordMediaDescription d)) ->
  (forall c, allows R (InitializeWithSettingsAsync c)) -> allows R RunAsync ->
  (forall c s w, R (s, w) (set_capture c s, w)) -> preserves R (open_camera cap).
Proof.
  intros Hi Hp Hd Hc Hr Hset. unfold open_camera. do 2 (apply preserves_bind; [done|eauto with winrt|intros ?]).
  apply preserves_bind; [done|by apply preserves_CreateSettings|intros st].
  apply preserves_bind; [done|by apply preserves_modify|intros _].
  apply preserves_bind; [done|by apply preserves_GetMediaCapture|intros c].
  apply preserves_bind; [done|by apply preserves_modify|intros _]. eauto with winrt.
Qed.
End Parts.

Section Always.
Context `{WinRT}.

Lemma timely_stop_calls this : timely 250 (stop_calls this).
Proof.
  unfold stop_calls. destruct (media_frame_reader_ this) as [r|].
  - apply timely_bind_0.
    + apply timely_0_bind; [lia|apply timely_invoke|intros _].
      apply timely_0_bind; [lia|intros s w; apply timely_then_value, timely_invoke|intros a]. by apply timely_WaitForAsync.
    + intros _. destruct (media_capture_ this); [|apply timely_ret]. apply timely_0_bind; [lia|apply timely_invoke|intros _]. apply timely_invoke.
  - apply (timely_weaken 0); [|lia]. apply timely_0_bind; [lia|apply timely_ret|intros _].
    destruct (media_capture_ this); [|apply timely_ret]. apply timely_0_bind; [lia|apply timely_invoke|intros _]. apply timely_invoke.
Qed.

(** [StopCapture] comes back within its 250 milliseconds, always lets go of the reader
    and the camera, and is done capturing only if every call succeeded. *)
Lemma StopCapture_result this w :
  exists w' hr, StopCapture this w = (mkInternal None None (is_capturing this && FAILED hr), w', Good S_OK hr) /\
    now w <= now w' <= now w + 250.
Proof.
  pose proof (timely_returned 250 _ (timely_stop_calls this) this w) as Ht.
  assert (preserves members_kept (stop_calls this)) as Hkept.
  { unfold stop_calls. apply preserves_bind; [apply _| |intros _].
    - destruct (media_frame_reader_ this); [|eauto with winrt].
      apply preserves_bind; [apply _|apply preserves_invoke, members_kept_allows|intros _].
      apply preserves_bind; [apply _|apply preserves_invoke_async; [apply _|apply members_kept_allows]|intros a].
      apply preserves_WaitForAsync; [apply _..|lia].
    - destruct (media_capture_ this); [|eauto with winrt].
      apply preserves_bind; [apply _|eauto with winrt|intros _]. apply preserves_invoke, members_kept_allows. }
  apply preserves_returned in Hkept. specialize (Hkept this w). unfold StopCapture, members_kept in *.
  rewrite (gives_bind _ _ _ _ _ _ _ (gives_get this w)). unfold mbind at 1, com_bind at 1.
  assert (forall hr', (returned (stop_calls this) this w).2 <> Failed hr') as Hgood.
  { intros hr'. unfold returned. by destruct (stop_calls this this w) as [[s1 w1] [| | |]]. }
  destruct (returned (stop_calls this) this w) as [[s' w'] [hr0 hr|hr0| |]]; cbn in Ht, Hkept, Hgood |- *; [|by destruct (Hgood hr0)|tauto..].
  subst s'. exists w', hr. unfold FAILED. destruct (SUCCEEDED hr), this as [c r b]; cbn; (split; [by rewrite ?andb_false_r, ?andb_true_r|tauto]).
Qed.

(** *** Starting *)

Context `{Cameras}.

(** The handler of the reader is registered, the reader was started, and nothing has been
    undone since. *)
Definition live (r : Z) (l : list event) : Prop :=
  exists l1 hr l2, l = l1 ++ (StartAsync r, hr) :: l2 /\ SUCCEEDED hr = true /\
    (exists hr', In (add_FrameArrived r, hr') l1 /\ SUCCEEDED hr' = true) /\
    Forall (fun e => e.1 <> remove_FrameArrived r /\ e.1 <> StopAsync r) l2.

Lemma live_app r l l' :
  live r l -> Forall (fun e => e.1 <> remove_FrameArrived r /\ e.1 <> StopAsync r) l' -> live r (l ++ l').
Proof.
  intros (l1 & hr & l2 & -> & Hhr & Hadd & Hl2) Hl'. exists l1, hr, (l2 ++ l').
  split; [by rewrite <- app_assoc|]. split; [done|]. split; [done|]. by apply Forall_app.
Qed.

Lemma start_reader_ensures src this w :
  ensures (start_reader src) this w (fun _ this' w' =>
    exists r, this' = mkInternal (media_capture_ this) (Some r) true /\ live r (trace w')).
Proof.
  unfold start_reader. apply ensures_bind, ensures_then_keep, ensures_invoke. intros _.
  apply ensures_bind, ensures_wait; [done|]. intros w1 l1 _ _. apply ensures_bind. red. cbn.
  apply ensures_bind, ensures_getter. intros hr2. set (w2 := record _ hr2 w1). set (r := Z.of_nat (length (trace w1))).
  apply ensures_bind. red. cbn. apply ensures_bind, ensures_invoke. intros Hadd. set (w3 := record _ _ w2).
  apply ensures_bind, ensures_then_keep, ensures_invoke. intros Hstart. set (w4 := record _ _ w3).
  apply ensures_bind, ensures_wait; [done|]. intros w5 l5 Hw5 Hl5. apply ensures_bind. red. cbn.
  apply ensures_bind, ensures_getter. intros hr6. apply ensures_then_keep. unfold ensures, set_hr.
  destruct (start_status_success (trace w5)); [|done]. cbn. exists r. split; [done|].
  exists (trace w3), (result (trace w3) (StartAsync r)), (l5 ++ [(Method "IAsyncOperation<MediaFrameReaderStartStatus>::GetResults", hr6)]).
  split; [cbn [record trace]; rewrite Hw5; unfold w4; cbn [record trace]; by rewrite <- !app_assoc|]. split; [exact Hstart|].
  split; [eexists; split; [apply in_app_iff; right; by left|exact Hadd]|]. apply Forall_app. split; [|by repeat constructor].
  eapply Forall_impl; [exact Hl5|]. intros [c hr] Hc. cbn in *. by destruct c.
Qed.

Lemma StartCapture_ensures fuel cap this w :
  ensures (StartCapture fuel cap) this w (fun _ this' w' =>
    exists c r, this' = mkInternal (Some c) (Some r) true /\ live r (trace w')).
Proof.
  unfold StartCapture. apply ensures_bind. unfold open_camera.
  apply ensures_bind. apply ensures_preserves with (R := fun _ _ => True); [done|]. intros [] s1 w1 _.
  apply ensures_bind. apply ensures_preserves with (R := fun _ _ => True); [done|]. intros [] s2 w2 _.
  apply ensures_bind. apply ensures_preserves with (R := fun _ _ => True); [done|]. intros st s3 w3 _.
  apply ensures_bind. red. cbn. apply ensures_bind. apply ensures_preserves with (R := fun _ _ => True); [done|]. intros c s4 w4 _.
  apply ensures_bind. red. cbn. apply ensures_bind.
  apply (ensures_preserves members_kept); [apply preserves_list_sources; apply _|]. intros sources s5 w5 Hs5.
  apply ensures_bind, (ensures_preserves members_kept); [apply preserves_find_source; [apply _..|intros; apply members_kept_allows]|].
  intros found s6 w6 Hs6. destruct found as [src|].
  - pose proof (start_reader_ensures src s6 w6) as Hr. unfold ensures in *. destruct (start_reader src s6 w6) as [[s7 w7] [| | |]]; try done.
    destruct Hr as (r & -> & Hlive). exists c, r. unfold members_kept in Hs5, Hs6. cbn in *. by subst.
  - by unfold ensures.
Qed.

(** A start that does not succeed leaves [is_capturing] alone. *)
Definition capturing_kept (x y : VideoCaptureWinRTInternal * world) : Prop := is_capturing y.1 = is_capturing x.1.

Instance capturing_kept_preorder : PreOrder capturing_kept.
Proof. split; [done|]. intros x y z. unfold capturing_kept. congruence. Qed.

Instance capturing_kept_neutral : Neutral capturing_kept.
Proof. by split. Qed.

Definition failure_keeps {A} (m : com VideoCaptureWinRTInternal A) : Prop := forall s w,
  match m s w with (s', _, Good _ _) => True | (s', _, _) => is_capturing s' = is_capturing s end.

Lemma failure_keeps_bind {A B} (m : com VideoCaptureWinRTInternal A) (f : A -> com VideoCaptureWinRTInternal B) :
  preserves capturing_kept m -> (forall a, failure_keeps (f a)) -> failure_keeps (m ≫= f).
Proof.
  intros Hm Hf s w. specialize (Hm s w). unfold mbind, com_bind, capturing_kept in *.
  destruct (m s w) as [[s1 w1] [hr a|hr| |]]; [|done..]. specialize (Hf a s1 w1). cbn in *.
  destruct (f a s1 w1) as [[s2 w2] [| | |]]; congruence.
Qed.

Lemma failure_keeps_preserves {A} (m : com VideoCaptureWinRTInternal A) : preserves capturing_kept m -> failure_keeps m.
Proof. intros Hm s w. specialize (Hm s w). unfold capturing_kept in Hm. by destruct (m s w) as [[s1 w1] [| | |]]. Qed.

Lemma StartCapture_failure_keeps fuel cap : failure_keeps (StartCapture fuel cap).
Proof.
  assert (forall c, allows capturing_kept c) as Hall by by intros c s w.
  unfold StartCapture. apply failure_keeps_bind; [by apply preserves_open_camera; [apply _..| | | | | |]|intros _].
  apply failure_keeps_bind; [apply preserves_list_sources; apply _|intros sources].
  apply failure_keeps_bind; [by apply preserves_find_source; [apply _..|]|intros [src|]].
  - unfold start_reader, WaitForAsyncOperation.
    apply failure_keeps_bind; [by apply preserves_invoke_async; [apply _|]|intros a].
    apply failure_keeps_bind; [apply preserves_WaitForAsync; [apply _..|lia]|intros _].
    apply failure_keeps_bind; [by apply preserves_modify|intros _].
    apply failure_keeps_bind; [eauto with winrt|intros r]. apply failure_keeps_bind; [by apply preserves_modify|intros _].
    apply failure_keeps_bind; [by apply preserves_invoke|intros _].
    apply failure_keeps_bind; [by apply preserves_invoke_async; [apply _|]|intros b].
    apply failure_keeps_bind; [apply preserves_WaitForAsync; [apply _..|lia]|intros _].
    apply failure_keeps_bind; [eauto with winrt|intros h]. apply failure_keeps_bind; [eauto with winrt|intros status].
    intros s w. unfold then_keep, set_hr. by destruct (SUCCEEDED _).
  - apply failure_keeps_preserves. eauto with winrt.
Qed.

(** *** The life of the object

    Starts and stops of the owner in any order, with calls of others in between: they do
    not stop the reader. *)
Definition others (l : list event) : Prop :=
  Forall (fun e => match e.1 with remove_FrameArrived _ | StopAsync _ => False | _ => True end) l.

Inductive reached : VideoCaptureWinRT -> world -> Prop :=
  | reached_new w : reached new_video_capture w
  | reached_start fuel cap c w c' w' h hr :
      reached c w -> VideoCapture_StartCapture fuel cap c w = (c', w', Good h hr) -> reached c' w'
  | reached_stop c w c' w' h hr :
      reached c w -> VideoCapture_StopCapture c w = (c', w', Good h hr) -> reached c' w'
  | reached_others c w w' l :
      reached c w -> trace w' = trace w ++ l -> others l -> reached c w'.

Definition capturing_inv (c : VideoCaptureWinRT) (w : world) : Prop :=
  CaptureStarted (video_capture_internal_ c) = true ->
  exists m r, video_capture_internal_ c = mkInternal (Some m) (Some r) true /\ live r (trace w).

Lemma VideoCapture_StopCapture_result c w :
  exists w' hr, VideoCapture_StopCapture c w =
    (set_internal (mkInternal None None (is_capturing (video_capture_internal_ c) && FAILED hr)) c, w', Good S_OK hr).
Proof.
  destruct (StopCapture_result (video_capture_internal_ c) w) as (w' & hr & Heq & _). exists w', hr.
  unfold VideoCapture_StopCapture, impl. by rewrite Heq.
Qed.

(** The start itself, on an object that is not capturing. *)
Definition fresh_start (fuel : nat) (cap : VideoCaptureCapability) : com VideoCaptureWinRT HRESULT :=
  ret ← returned (impl (StartCapture fuel cap));
  when (SUCCEEDED ret) (modify (set_requested cap)) ;;
  mret ret.

Lemma fresh_start_inv fuel cap c w c' w' h hr :
  is_capturing (video_capture_internal_ c) = false -> fresh_start fuel cap c w = (c', w', Good h hr) -> capturing_inv c' w'.
Proof.
  intros Hidle. pose proof (StartCapture_ensures fuel cap (video_capture_internal_ c) w) as Hens.
  pose proof (StartCapture_failure_keeps fuel cap (video_capture_internal_ c) w) as Hfail.
  unfold fresh_start, mbind, com_bind, returned, impl, ensures in *.
  destruct (StartCapture fuel cap (video_capture_internal_ c) w) as [[i w1] [hr1 a|hr1| |]]; [| |done..].
  - destruct Hens as (m & r & -> & Hlive). unfold when. destruct (SUCCEEDED hr1); cbn; intros [= <- <- <- <-] _; by exists m, r.
  - unfold when. destruct (SUCCEEDED hr1); cbn; intros [= <- <- <- <-]; unfold capturing_inv; cbn; unfold CaptureStarted; congruence.
Qed.

(** C36: As long as every stop succeeds, an object that says it is capturing has an open
    camera and a reader that was started with its handler and has not been stopped. *)
Theorem capture_invariant
    (stops : forall this w this' w' h hr, StopCapture this w = (this', w', Good h hr) -> SUCCEEDED hr = true) c w :
  reached c w -> capturing_inv c w.
Proof.
  assert (forall c w c' w' h hr, VideoCapture_StopCapture c w = (c', w', Good h hr) ->
    is_capturing (video_capture_internal_ c') = false) as Hstop.
  { intros c0 w0 c' w' h hr. destruct (VideoCapture_StopCapture_result c0 w0) as (w1 & hr1 & Heq). rewrite Heq. intros [= <- <- <- <-].
    destruct (StopCapture_result (video_capture_internal_ c0) w0) as (w2 & hr2 & Heq2 & _).
    pose proof (stops _ _ _ _ _ _ Heq2) as Hok. unfold VideoCapture_StopCapture, impl in Heq. rewrite Heq2 in Heq.
    injection Heq as Hi Hw Hhr. subst. cbn. unfold FAILED. by rewrite Hok, andb_false_r. }
  induction 1 as [w|fuel cap c w c' w' h hr Hc IH Hstart|c w c' w' h hr Hc IH Hs|c w w' l Hc IH Hl Ho].
  - done.
  - revert Hstart. unfold VideoCapture_StartCapture. rewrite (gives_bind _ _ _ _ _ _ _ (gives_get c w)).
    destruct (CaptureStarted (video_capture_internal_ c)) eqn:Hcap; cbn [andb].
    + destruct (capability_equal cap (_requestedCapability c)); [by intros [= <- <- <- <-]|].
      destruct (VideoCapture_StopCapture_result c w) as (w1 & hr1 & Heq). pose proof (Hstop _ _ _ _ _ _ Heq) as Hidle.
      assert (gives (VideoCapture_StopCapture ;; mret ()) c w (set_internal (mkInternal None None (is_capturing (video_capture_internal_ c) && FAILED hr1)) c) w1 ()) as Hg
        by (exists S_OK; unfold mbind, com_bind; by rewrite Heq).
      rewrite (gives_bind _ _ _ _ _ _ _ Hg). by apply fresh_start_inv.
    + rewrite (gives_bind _ _ _ _ _ _ _ (gives_ret () c w)). by apply fresh_start_inv.
  - unfold capturing_inv, CaptureStarted. by rewrite (Hstop _ _ _ _ _ _ Hs).
  - intros Hcap. destruct (IH Hcap) as (m & r & Hi & Hlive). exists m, r. split; [done|]. rewrite Hl. apply live_app; [done|].
    eapply Forall_impl; [exact Ho|]. intros [e hr]. cbn. by destruct e.
Qed.

(** *** Which camera is opened

    The calls that choose a camera. *)
Definition chooses (c : call) : bool :=
  match c with put_VideoDeviceId _ | put_VideoProfile _ | put_RecordMediaDescription _ => true | _ => false end.

Instance not_choosing_neutral {S} : Neutral (@only (fun c => chooses c = false) S).
Proof. by apply only_neutral. Qed.

(** For a capability without a profile [StartCapture] makes no call that chooses a camera,
    so it opens the default one, in every system; what [Init] was told is not used. *)
Lemma StartCapture_ignores_device fuel cap this w :
  profile_id cap = [] -> media_capture_video_profile cap = None -> record_media_description cap = None ->
  exists l, trace (StartCapture fuel cap this w).1.2 = trace w ++ l /\ Forall (fun e => chooses e.1 = false) l.
Proof.
  intros Hid Hp Hd.
  assert (forall c, chooses c = false -> allows (only (fun c => chooses c = false) (S := VideoCaptureWinRTInternal)) c) as Hall
    by (intros c Hc; by apply only_allows).
  assert (forall f, preserves (only (fun c => chooses c = false)) (modify (S := VideoCaptureWinRTInternal) f)) as Hmod.
  { intros f s w1. split; [|cbn; lia]. exists []. by rewrite app_nil_r. }
  assert (preserves (only (fun c => chooses c = false)) (StartCapture fuel cap)) as Hpres; [|exact (proj1 (Hpres this w))].
  unfold StartCapture. apply preserves_bind; [apply _| |intros _].
  { apply preserves_open_camera; [apply _..|rewrite Hid; done|rewrite Hp; done|rewrite Hd; done|by auto|by auto|].
    intros c s w1. apply (Hmod (set_capture c) s w1). }
  apply preserves_bind; [apply _|apply preserves_list_sources; apply _|intros sources].
  apply preserves_bind; [apply _|apply preserves_find_source; [apply _..|by auto]|intros [src|]]; [|eauto with winrt].
  unfold start_reader, WaitForAsyncOperation.
  apply preserves_bind; [apply _|apply preserves_invoke_async; [apply _|by auto]|intros a].
  apply preserves_bind; [apply _|apply preserves_WaitForAsync; [apply _..|lia]|intros _].
  apply preserves_bind; [apply _|apply Hmod|intros _]. apply preserves_bind; [apply _|eauto with winrt|intros r].
  apply preserves_bind; [apply _|apply Hmod|intros _]. apply preserves_bind; [apply _|by apply preserves_invoke; auto|intros _].
  apply preserves_bind; [apply _|apply preserves_invoke_async; [apply _|by auto]|intros b].
  apply preserves_bind; [apply _|apply preserves_WaitForAsync; [apply _..|lia]|intros _].
  do 2 (apply preserves_bind; [apply _|eauto with winrt|intros ?]).
  apply preserves_then_keep; [apply _|eauto with winrt|]. intros _ s w1. apply (Hmod (set_capturing true) s w1).
Qed.

(** After a stop that failed the object says it is capturing although it has neither
    reader nor camera; a start with the same capability returns success at once. *)
Theorem failed_stop_then_start c w c' w' h hr fuel w2 :
  CaptureStarted (video_capture_internal_ c) = true -> VideoCapture_StopCapture c w = (c', w', Good h hr) -> FAILED hr = true ->
  VideoCapture_StartCapture fuel (_requestedCapability c') c' w2 = (c', w2, Good S_OK S_OK) /\
  media_frame_reader_ (video_capture_internal_ c') = None /\ media_capture_ (video_capture_internal_ c') = None.
Proof.
  intros Hcap Hstop Hhr. destruct (VideoCapture_StopCapture_result c w) as (w1 & hr1 & Heq). rewrite Heq in Hstop.
  injection Hstop as <- <- <- <-. split; [|done]. unfold VideoCapture_StartCapture. rewrite (gives_bind _ _ _ _ _ _ _ (gives_get _ w2)).
  unfold CaptureStarted in *. cbn. rewrite Hcap, Hhr. cbn. unfold capability_equal, capability_differs.
  by rewrite !Z.eqb_refl, eqb_reflx, !bool_decide_true.
Qed.

End Always.

(** In a system where nothing fails, stopping removes the handler, stops the reader and
    closes the camera. *)
Definition stopping_calls (this : VideoCaptureWinRTInternal) : list call :=
  match media_frame_reader_ this with Some r => [remove_FrameArrived r; StopAsync r] | None => [] end
  ++ match media_capture_ this with Some m => [Close "IMediaCapture" m] | None => [] end.

Lemma StopCapture_succeeds `{Smooth} this w Q :
  (forall hr w', SUCCEEDED hr = true -> Q hr new_internal w' (stopping_calls this)) -> succeeds StopCapture this w Q.
Proof.
  intros HQ. unfold StopCapture. apply succeeds_bind, succeeds_get, succeeds_bind, succeeds_returned. right. split.
  { unfold stop_calls. apply honest_bind.
    - destruct (media_frame_reader_ this); [|done]. apply honest_bind; [apply honest_invoke|intros _].
      apply honest_bind; [apply honest_invoke_async|intros a]. apply honest_WaitForAsync.
    - intros _. destruct (media_capture_ this); [|done]. apply honest_bind; [apply honest_invoke|intros _]. apply honest_invoke. }
  assert (forall hr w1, SUCCEEDED hr = true -> succeeds (when (SUCCEEDED hr) (modify (set_capturing false)) ;;
    modify (set_reader None) ;; modify (set_capture None) ;; mret hr) this w1
    (fun hr' s' w' l => Q hr' s' w' (stopping_calls this ++ l))) as Hend.
  { intros hr w1 Hhr. unfold when. rewrite Hhr. do 3 (apply succeeds_bind, succeeds_modify). apply succeeds_ret. cbn. rewrite app_nil_r. by apply HQ. }
  unfold stop_calls, stopping_calls in *. apply succeeds_bind.
  destruct (media_frame_reader_ this) as [r|]; [apply succeeds_bind, succeeds_invoke; [done|]; intros w1 Ht1;
    apply succeeds_bind, succeeds_invoke_async; [done|]; intros w2 Ht2; apply succeeds_wait; [lia|lia|]; intros w3 Ht3|apply succeeds_ret].
  all: destruct (media_capture_ this) as [m|]; [apply succeeds_bind, succeeds_method; intros ? ?; apply succeeds_invoke; [done|]; intros ? ?|apply succeeds_ret].
  all: intros hr Hhr; eapply succeeds_mono; [by apply Hend|done].
Qed.

(** ** The references of a frame *)

(** The calls that store a reference, and what is closed. *)
Definition object_of (name : string) : option string :=
  if decide (name = "TryAcquireLatestFrame"%string) then Some "IMediaFrameReference"%string
  else if decide (name = "get_SoftwareBitmap"%string) then Some "ISoftwareBitmap"%string
  else if decide (name = "LockBuffer"%string) then Some "IBitmapBuffer"%string
  else if decide (name = "CreateReference"%string) then Some "IMemoryBufferReference"%string
  else None.

Definition acquisition (n : nat) (e : event) : list (string * Z) :=
  match e.1 with
  | Method name => match object_of name with
                   | Some o => if SUCCEEDED e.2 then [(o, Z.of_nat n)] else []
                   | None => []
                   end
  | _ => []
  end.
Fixpoint acquisitions (n : nat) (l : list event) : list (string * Z) :=
  match l with [] => [] | e :: l => acquisition n e ++ acquisitions (S n) l end.

Definition closing (e : event) : list (string * Z) := match e.1 with Close o id => [(o, id)] | _ => [] end.
Definition closes (l : list event) : list (string * Z) := concat (map closing l).

Lemma acquisitions_app n l1 l2 : acquisitions n (l1 ++ l2) = acquisitions n l1 ++ acquisitions (n + length l1) l2.
Proof.
  revert n. induction l1 as [|e l1 IH]; intros n; cbn; [by rewrite Nat.add_0_r|].
  rewrite IH, <- app_assoc. do 3 f_equal. lia.
Qed.

Lemma closes_app l1 l2 : closes (l1 ++ l2) = closes l1 ++ closes l2.
Proof. unfold closes. by rewrite map_app, concat_app. Qed.

Definition held_one (name : string) (id : option Z) : list (string * Z) := match id with Some id => [(name, id)] | None => [] end.
Definition held (r : references) : list (string * Z) :=
  held_one "IMediaFrameReference" (media_frame_reference r) ++ held_one "ISoftwareBitmap" (software_bitmap r)
  ++ held_one "IBitmapBuffer" (bitmap_buffer r) ++ held_one "IMemoryBufferReference" (memory_buffer_reference r).

Section References.
Context `{WinRT} `{FrameReader} (start : list event).

(** What is held is what was acquired since the start, and nothing was closed. *)
Definition holds (r : references) (w : world) : Prop :=
  exists l, trace w = start ++ l /\ held r = acquisitions (length start) l /\ closes l = [].

(** The references that come after the first [k] are not held yet. *)
Definition stage (k : nat) (r : references) : Prop :=
  ((k < 1)%nat -> media_frame_reference r = None) /\ ((k < 2)%nat -> software_bitmap r = None) /\
  ((k < 3)%nat -> bitmap_buffer r = None) /\ ((k < 4)%nat -> memory_buffer_reference r = None).

Definition sustains {A} (k : nat) (m : com references A) (k' : nat) : Prop := forall r w, holds r w -> stage k r ->
  (m r w).2 <> Undefined -> holds (m r w).1.1 (m r w).1.2 /\ stage k' (m r w).1.1.

Lemma stage_mono k k' r : (k <= k')%nat -> stage k r -> stage k' r.
Proof. unfold stage. intros Hk (H1 & H2 & H3 & H4). repeat split; intros; [apply H1|apply H2|apply H3|apply H4]; lia. Qed.

Lemma sustains_bind {A B} k1 k2 k3 (m : com references A) (f : A -> com references B) :
  (k2 <= k3)%nat -> sustains k1 m k2 -> (forall a, sustains k2 (f a) k3) -> sustains k1 (m ≫= f) k3.
Proof.
  intros Hle Hm Hf r w Hr Hk. specialize (Hm r w Hr Hk). unfold mbind, com_bind.
  destruct (m r w) as [[r1 w1] [hr a|hr| |]]; cbn [fst snd] in *; [| |done|].
  - destruct Hm as [Hr1 Hk1]; [done|]. intros Hu. by apply Hf.
  - destruct Hm as [Hr1 Hk1]; [done|]. intros _. split; [done|by eapply stage_mono].
  - destruct Hm as [Hr1 Hk1]; [done|]. intros _. split; [done|by eapply stage_mono].
Qed.

Lemma sustains_same {A} k k' (m : com references A) : (k <= k')%nat -> (forall r w, (m r w).1 = (r, w)) -> sustains k m k'.
Proof.
  intros Hle Hm r w Hr Hk. specialize (Hm r w). destruct (m r w) as [[r1 w1] o]. cbn in Hm. injection Hm as -> ->.
  intros _. split; [done|by eapply stage_mono].
Qed.

Lemma holds_record c hr r w : acquisition (length (trace w)) (c, hr) = [] -> closing (c, hr) = [] ->
  holds r w -> holds r (record c hr w).
Proof.
  intros Ha Hc (l & Hl & Hheld & Hcl). exists (l ++ [(c, hr)]). cbn [record trace]. split; [by rewrite Hl, app_assoc|].
  rewrite acquisitions_app, closes_app, Hheld, Hcl. cbn. rewrite Hc. rewrite Hl, length_app in Ha. by rewrite Ha, !app_nil_r.
Qed.

Lemma sustains_method k name : object_of name = None -> sustains k (method name) k.
Proof.
  intros Hn r w Hr Hk _. split; [|done]. apply holds_record; [|done|done]. unfold acquisition. cbn. by rewrite Hn.
Qed.

Lemma sustains_then_value {A B} k k' (m : com references A) (b : B) : sustains k m k' -> sustains k (then_value m b) k'.
Proof.
  intros Hm r w Hr Hk. specialize (Hm r w Hr Hk). unfold then_value, then_keep.
  destruct (m r w) as [[r1 w1] [hr a|hr| |]]; cbn in *; intros Hu; by apply Hm.
Qed.

Lemma sustains_getter {A} k name (a : A) : object_of name = None -> sustains k (getter name a) k.
Proof. intros Hn. by apply sustains_then_value, sustains_method. Qed.

Lemma sustains_attempt {A} k k' (m : com references A) : sustains k m k' -> sustains k (attempt m) k'.
Proof. intros Hm r w Hr Hk. specialize (Hm r w Hr Hk). unfold attempt. destruct (m r w) as [[r1 w1] [hr a|hr| |]]; cbn in *; intros Hu; by apply Hm. Qed.

Lemma sustains_returned {A} k k' (m : com references A) : sustains k m k' -> sustains k (returned m) k'.
Proof. intros Hm r w Hr Hk. specialize (Hm r w Hr Hk). unfold returned. destruct (m r w) as [[r1 w1] [hr a|hr| |]]; cbn in *; intros Hu; by apply Hm. Qed.

Lemma sustains_ratio k ratio : sustains k (SafelyComputeMediaRatio ratio) k.
Proof.
  apply (sustains_bind k k); [lia| |intros r; by apply sustains_same]. apply sustains_attempt.
  do 2 (apply (sustains_bind k k); [lia|by apply sustains_getter|intros ?]). by apply sustains_same.
Qed.

(** The next reference is stored. *)
Lemma sustains_acquire k name o hold :
  object_of name = Some o ->
  (forall id r, stage k r -> held (hold id r) = held r ++ [(o, id)] /\ stage (S k) (hold id r)) ->
  sustains k (acquire name hold) (S k).
Proof.
  intros Ho Hhold r w (l & Hl & Hheld & Hcl) Hk _.
  unfold acquire, activate, getter, then_value, then_keep, method, invoke, modify, mbind, com_bind.
  set (id := Z.of_nat (length (trace w))). destruct (SUCCEEDED _) eqn:Hhr; cbn [fst snd].
  - destruct (Hhold id r Hk) as [Hh Hs]. split; [|done]. exists (l ++ [(Method name, result (trace w) (Method name))]).
    split; [by rewrite app_assoc, <- Hl|]. rewrite acquisitions_app, closes_app, Hcl, Hh, Hheld. cbn. unfold acquisition. cbn. rewrite Ho. cbn in Hhr. rewrite Hhr.
    split; [|done]. rewrite app_nil_r. unfold id. by rewrite Hl, length_app.
  - split; [|by eapply stage_mono; [|exact Hk]; lia]. apply holds_record; [|done|by exists l].
    unfold acquisition. cbn [fst snd]. by rewrite Ho, Hhr.
Qed.

Ltac next_stage := intros ? ? (?H1 & ?H2 & ?H3 & ?H4); unfold held, stage; cbn;
  rewrite ?H1, ?H2, ?H3, ?H4 by lia; rewrite <- ?app_assoc; repeat split; intros; cbn; auto; try lia.

Lemma read_frame_sustains r w : latest_frame (trace w) <> None -> holds r w -> stage 0 r -> (read_frame r w).2 <> Undefined ->
  holds (read_frame r w).1.1 (read_frame r w).1.2.
Proof.
  intros Hframe Hr Hk. unfold read_frame. rewrite (gives_bind _ _ _ _ _ _ _ (gives_history r w)).
  destruct (latest_frame (trace w)) as [frame|]; [|done]. clear Hframe.
  match goal with |- (?m r w).2 <> _ -> _ => assert (sustains 0 m 4) as Hm; [|intros Hu; by apply Hm] end. clear r w Hr Hk.
  apply (sustains_bind 0 1); [lia|apply (sustains_acquire 0 _ "IMediaFrameReference"); [done|next_stage]|intros _].
  do 3 (apply (sustains_bind 1 1); [lia|by apply sustains_method|intros _]).
  do 4 (apply (sustains_bind 1 1); [lia|by apply sustains_getter|intros ?]).
  apply (sustains_bind 1 1); [lia|apply sustains_ratio|intros fps]. destruct (software frame) as [bitmap|].
  2: { intros r w Hr Hk. unfold method, invoke, mbind, com_bind. cbn [fst snd]. destruct (SUCCEEDED _) eqn:Hhr; [done|]. intros _. cbn.
    split; [|by eapply stage_mono; [|exact Hk]; lia]. apply holds_record; [|done|done]. unfold acquisition. cbn. by rewrite Hhr. }
  apply (sustains_bind 1 2); [lia|apply (sustains_acquire 1 _ "ISoftwareBitmap"); [done|next_stage]|intros _].
  apply (sustains_bind 2 3); [lia|apply (sustains_acquire 2 _ "IBitmapBuffer"); [done|next_stage]|intros _].
  apply (sustains_bind 3 3); [lia|by apply sustains_getter|intros n].
  apply (sustains_bind 3 3); [lia|by apply sustains_same|intros _].
  do 2 (apply (sustains_bind 3 3); [lia|by apply sustains_getter|intros ?]).
  apply (sustains_bind 3 3); [lia|by apply sustains_method|intros _].
  apply (sustains_bind 3 4); [lia|apply (sustains_acquire 3 _ "IMemoryBufferReference"); [done|next_stage]|intros _].
  apply (sustains_bind 4 4); [lia|by apply sustains_method|intros _].
  apply (sustains_bind 4 4); [lia|by apply sustains_returned, sustains_method|intros hr].
  apply (sustains_bind 4 4); [lia| |intros _; by apply sustains_same].
  destruct (SUCCEEDED hr); [|by apply sustains_same]. intros r w Hr Hk _. split; [|done]. by apply holds_record.
Qed.

End References.

Section Closing.
Context `{WinRT} `{FrameReader}.

Lemma close_reference_closes name id r w r' w' h :
  close_reference name id r w = (r', w', Good h tt) ->
  r' = r /\ exists l, trace w' = trace w ++ l /\ closes l = held_one name id /\ forall n, acquisitions n l = [].
Proof.
  destruct id as [id|]; cbn [close_reference].
  - unfold attempt, method, invoke, call_out, mbind, com_bind. destruct (SUCCEEDED _); [|done].
    intros [= <- <- _]. split; [done|]. cbn [record trace]. rewrite <- app_assoc. by eexists.
  - intros [= <- <- _]. split; [done|]. exists []. by rewrite app_nil_r.
Qed.

(** C37: Every reference that [FrameArrived] takes is closed exactly once, the last first, on
    every path and in every system, if it comes back. *)
Theorem FrameArrived_closes w r' w' h hr :
  latest_frame (trace w) <> None -> FrameArrived no_references w = (r', w', Good h hr) ->
  exists l, trace w' = trace w ++ l /\ closes l = rev (acquisitions (length (trace w)) l).
Proof.
  intros Hframe Harrived. unfold FrameArrived in Harrived.
  apply bind_good in Harrived as (hr1 & r1 & w1 & h1 & Hread & Harrived).
  assert (exists l0, trace w1 = trace w ++ l0 /\ held r1 = acquisitions (length (trace w)) l0 /\ closes l0 = []) as (l0 & Hl0 & Hheld & Hcl).
  { pose proof (read_frame_sustains (trace w) no_references w Hframe) as Hs. unfold returned in Hread.
    destruct (read_frame no_references w) as [[r0 w0] o]. cbn in Hs. destruct o; simplify_eq.
    all: apply Hs; [exists []; by rewrite app_nil_r|by repeat split|done]. }
  apply bind_good in Harrived as (r2 & r3 & w2 & h2 & [= <- <- _ <-] & Harrived).
  apply bind_good in Harrived as ([] & ? & w3 & ? & [-> (l1 & Hl1 & Hc1 & Ha1)]%close_reference_closes & Harrived).
  apply bind_good in Harrived as ([] & ? & w4 & ? & [-> (l2 & Hl2 & Hc2 & Ha2)]%close_reference_closes & Harrived).
  apply bind_good in Harrived as ([] & ? & w5 & ? & [-> (l3 & Hl3 & Hc3 & Ha3)]%close_reference_closes & Harrived).
  apply bind_good in Harrived as ([] & ? & w6 & ? & [-> (l4 & Hl4 & Hc4 & Ha4)]%close_reference_closes & Harrived).
  injection Harrived as <- <- <- <-. exists (l0 ++ l1 ++ l2 ++ l3 ++ l4). split; [by rewrite Hl4, Hl3, Hl2, Hl1, Hl0, <- !app_assoc|].
  rewrite !closes_app, !acquisitions_app, <- Hheld, Hcl, Hc1, Hc2, Hc3, Hc4, Ha1, Ha2, Ha3, Ha4.
  unfold held. rewrite !app_nil_r, !rev_app_distr, <- !app_assoc. cbn [app].
  by destruct (media_frame_reference r1), (software_bitmap r1), (bitmap_buffer r1), (memory_buffer_reference r1).
Qed.

End Closing.

(** *** What is passed on *)

Section Delivery.
Context `{Smooth} `{FrameReader}.

Lemma honest_read_frame : honest read_frame.
Proof.
  unfold read_frame, acquire. apply honest_bind; [done|intros h].
  assert (forall name, honest (S := references) (method name)) as Hm by (intros; apply honest_invoke).
  assert (forall A name (a : A), honest (S := references) (getter name a)) as Hg by (intros; apply honest_then_keep, honest_invoke).
  assert (forall name hold, honest (acquire name hold)) as Ha.
  { intros name hold. apply honest_bind; [intros s w; apply Hg|done]. }
  destruct (latest_frame h) as [frame|]; [|done]. apply honest_bind; [apply Ha|intros _].
  do 3 (apply honest_bind; [done|intros _]). do 4 (apply honest_bind; [done|intros ?]).
  apply honest_bind; [intros s w; apply honest_bind; [apply honest_attempt|done]|intros fps].
  destruct (software frame); [|by apply honest_bind].
  do 2 (apply honest_bind; [apply Ha|intros _]). apply honest_bind; [done|intros n]. apply honest_bind; [apply honest_set_hr|intros _].
  do 2 (apply honest_bind; [done|intros ?]). apply honest_bind; [done|intros _]. apply honest_bind; [apply Ha|intros _].
  apply honest_bind; [done|intros _]. apply honest_bind; [apply honest_returned|intros hr].
  apply honest_bind; [by apply honest_when|intros _]. apply honest_set_hr.
Qed.

Lemma succeeds_acquire name hold (r : references) w Q :
  (forall id w', now w' = now w -> Q tt (hold id r) w' []) -> succeeds (acquire name hold) r w Q.
Proof. intros HQ. apply succeeds_bind, succeeds_activate. intros id w' Ht. by apply succeeds_modify, HQ. Qed.

Lemma succeeds_close name id (r : references) w Q :
  (forall w', now w' = now w -> Q tt r w' (match id with Some i => [Close name i] | None => [] end)) ->
  succeeds (close_reference name id) r w Q.
Proof.
  intros HQ. destruct id as [id|]; cbn [close_reference]; [|by apply succeeds_ret, HQ].
  apply succeeds_bind, succeeds_attempt, succeeds_method. intros w1 Ht1. apply succeeds_call_out; [done|]. intros w2 Ht2. apply HQ. congruence.
Qed.

Lemma closing_succeeds (hr : HRESULT) (r : references) w Q :
  (forall w', Q hr r w' (match memory_buffer_reference r with Some i => [Close "IMemoryBufferReference" i] | None => [] end
    ++ match bitmap_buffer r with Some i => [Close "IBitmapBuffer" i] | None => [] end
    ++ match software_bitmap r with Some i => [Close "ISoftwareBitmap" i] | None => [] end
    ++ match media_frame_reference r with Some i => [Close "IMediaFrameReference" i] | None => [] end)) ->
  succeeds (r ← get;
    close_reference "IMemoryBufferReference" (memory_buffer_reference r) ;;
    close_reference "IBitmapBuffer" (bitmap_buffer r) ;;
    close_reference "ISoftwareBitmap" (software_bitmap r) ;;
    close_reference "IMediaFrameReference" (media_frame_reference r) ;;
    mret hr) r w Q.
Proof.
  intros HQ. apply succeeds_bind, succeeds_get. do 4 (apply succeeds_bind, succeeds_close; intros ? ?). apply succeeds_ret.
  rewrite app_nil_r. apply HQ.
Qed.

(** The frame that is passed on for a bitmap with two planes. *)
Definition delivered (frame : media_frame) (b : bitmap) (y uv : plane_description) : call :=
  IncomingFrame (content b) (Stride y) (content b + StartIndex uv) (Stride uv) (capacity b)
    (static_cast Int32 (frame_width frame)) (static_cast Int32 (frame_height frame))
    (static_cast Int32 (ratio_value (frame_rate frame))) (ToVideoType (frame_subtype frame)).

Lemma returned_undefined w : (read_frame no_references w).2 = Undefined -> (FrameArrived no_references w).2 = Undefined.
Proof.
  intros Hu. unfold FrameArrived, returned, mbind, com_bind. destruct (read_frame no_references w) as [[r w1] o]. cbn in Hu. by subst.
Qed.

(** Up to the bitmap. *)
Tactic Notation "frame_steps" uconstr(bind) :=
  apply bind, succeeds_acquire; intros ? ? ?; do 3 (apply bind, succeeds_method; intros ? ?);
  do 4 (apply bind, succeeds_getter; intros ? ?); apply bind, succeeds_ratio; intros ? ?.

(** In a system where nothing fails, a frame whose bitmap has two planes is passed on
    before anything is closed; a bitmap with another number of planes (a format other
    than NV12) is an error, although [StartCapture] may have chosen its format; a frame
    without a bitmap is undefined; without a frame nothing happens. *)
Theorem FrameArrived_delivers w :
  match latest_frame (trace w) with
  | None => succeeds FrameArrived no_references w (fun hr _ _ l => SUCCEEDED hr = true /\ l = [])
  | Some frame =>
      match software frame with
      | None => (FrameArrived no_references w).2 = Undefined
      | Some b =>
          match planes b with
          | [y; uv] => succeeds FrameArrived no_references w (fun hr _ _ l => SUCCEEDED hr = true /\
              exists f s m r, l = [delivered frame b y uv; Close "IMemoryBufferReference" r; Close "IBitmapBuffer" m;
                                   Close "ISoftwareBitmap" s; Close "IMediaFrameReference" f])
          | _ => succeeds FrameArrived no_references w (fun hr _ _ l => hr = E_FAIL /\
              exists f s m, l = [Close "IBitmapBuffer" m; Close "ISoftwareBitmap" s; Close "IMediaFrameReference" f])
          end
      end
  end.
Proof.
  destruct (latest_frame (trace w)) as [frame|] eqn:Hframe.
  2: { apply succeeds_bind, succeeds_returned. right. split; [apply honest_read_frame|]. unfold read_frame.
    apply succeeds_bind, succeeds_history. rewrite Hframe. apply succeeds_method. intros w1 Ht1 hr Hhr.
    apply closing_succeeds. intros w2. by split. }
  destruct (software frame) as [b|] eqn:Hsoft.
  2: { apply returned_undefined. unfold read_frame. apply bind_outcome, succeeds_history. rewrite Hframe.
    frame_steps bind_outcome. rewrite Hsoft. apply bind_outcome, succeeds_method. by intros. }
  destruct (Nat.eq_dec (length (planes b)) 2%nat) as [Hlen|Hlen].
  - destruct (planes b) as [|y [|uv [|p planes]]] eqn:Hplanes; try done. apply succeeds_bind, succeeds_returned. right.
    split; [apply honest_read_frame|]. unfold read_frame. apply succeeds_bind, succeeds_history. rewrite Hframe.
    frame_steps succeeds_bind. rewrite Hsoft. do 2 (apply succeeds_bind, succeeds_acquire; intros ? ? ?).
    apply succeeds_bind, succeeds_getter. intros ? ?. rewrite Hplanes. cbn [length nth Z.of_nat].
    apply succeeds_bind, succeeds_set_hr; [done|]. do 2 (apply succeeds_bind, succeeds_getter; intros ? ?).
    apply succeeds_bind, succeeds_method. intros ? ?. apply succeeds_bind, succeeds_acquire. intros ? ? ?.
    apply succeeds_bind, succeeds_method. intros ? ?.
    apply succeeds_bind, succeeds_returned. right. split; [apply honest_invoke|]. apply succeeds_method. intros ? ? hr Hhr.
    apply succeeds_bind. unfold when. rewrite Hhr. apply succeeds_call_out; [done|]. intros ? ?. apply succeeds_set_hr; [done|].
    intros hr' Hhr'. apply closing_succeeds. intros ?. split; [done|]. by eexists _, _, _, _.
  - assert (succeeds FrameArrived no_references w (fun hr _ _ l => hr = E_FAIL /\
      exists f s m, l = [Close "IBitmapBuffer" m; Close "ISoftwareBitmap" s; Close "IMediaFrameReference" f])) as Hfail.
    2: { destruct (planes b) as [|y [|uv [|p planes]]]; done. }
    apply succeeds_bind, succeeds_returned. left. exists E_FAIL. split; [done|]. unfold read_frame.
    apply fails_bind, succeeds_history. rewrite Hframe. frame_steps fails_bind. rewrite Hsoft.
    do 2 (apply fails_bind, succeeds_acquire; intros ? ? ?). apply fails_bind, succeeds_getter. intros ? ?.
    destruct (Z.eqb_spec (Z.of_nat (length (planes b))) 2); [lia|]. apply fails_set_hr; [done|].
    apply closing_succeeds. intros ?. split; [done|]. by eexists _, _, _.
Qed.

End Delivery.

(** ** [Init] *)

Lemma Init_result `{UnicodeLaws} s c :
  Init s c = match utf8_to_utf16 s with
             | None => Some (c, -1)
             | Some u =>
                 if decide (1024 < Z.of_nat (length u) + 1 <= 2048) then None
                 else if decide (Z.of_nat (length u) + 1 <= 1024 /\ Z.of_nat (length s) < 1024)
                 then Some (set_unique_id (Some s) c, 0) else Some (c, -1)
             end.
Proof.
  unfold Init, MultiByteToWideChar, kVideoCaptureUniqueNameLength, sizeof_wchar_t. change (1024 * 2) with 2048.
  destruct (utf8_to_utf16 s) as [u|] eqn:Hu; [|done].
  destruct (Z.ltb_spec 2048 (Z.of_nat (length u) + 1)).
  { cbn. rewrite decide_False, decide_False by lia. done. }
  unfold guard_b. destruct (Z.leb_spec (Z.of_nat (length u) + 1) 1024); [|by rewrite decide_True by lia].
  rewrite decide_False by lia. cbn [mbind option_bind].
  destruct (Z.eqb_spec (Z.of_nat (length u) + 1) 0); [lia|]. unfold SetDeviceUniqueId, kVideoCaptureUniqueNameLength.
  destruct (Z.eqb_spec (Z.min (Z.of_nat (length s)) 1024) 1024); cbn; [rewrite decide_False by lia|rewrite decide_True by lia]; done.
Qed.

(** [Init] writes beyond its array exactly when the identifier takes 1025 to 2048
    [wchar_t] with its null; for ASCII: when it has from 1024 to 2047 characters. *)
Theorem Init_undefined_iff `{UnicodeLaws} s c :
  (Init s c = None <-> exists u, utf8_to_utf16 s = Some u /\ 1024 < Z.of_nat (length u) + 1 <= 2048) /\
  (Forall (fun b => 0 < b < 128) s -> (Init s c = None <-> 1024 <= Z.of_nat (length s) < 2048)).
Proof.
  assert (Init s c = None <-> exists u, utf8_to_utf16 s = Some u /\ 1024 < Z.of_nat (length u) + 1 <= 2048) as Hiff.
  { rewrite Init_result. destruct (utf8_to_utf16 s) as [u|]; [|split; [done|by intros (? & ? & _)]].
    destruct (decide _) as [Hd|Hd]; [split; [intros _; by exists u|done]|].
    destruct (decide _); (split; [done|]; by intros (? & [= <-] & ?)). }
  split; [done|]. intros Hascii. rewrite Hiff, (utf16_ascii s Hascii). split; [intros (u & [= <-] & Hu); lia|]. intros Hs. exists s. split; [done|lia].
Qed.

(** ** Examples *)

Module Example.

Definition yuy2_720p : frame_format := mkFormat 7 (wide "YUY2") 1280 720 (mkRatio 30 1).
Definition nv12_1080p : frame_format := mkFormat 8 (wide "NV12") 1920 1080 (mkRatio 30000 1001).
Definition depth_source : frame_source := mkSource 1 VideoRecord Depth [].
Definition webcam : frame_source := mkSource 2 VideoRecord Color [nv12_1080p; yuy2_720p].
Definition document_camera : frame_source := mkSource 3 VideoRecord Color [nv12_1080p].

Definition cameras (l : list frame_source) : Cameras := {|
  FrameSources _ := l;
  start_status_success _ := true
|}.

Definition hd_720 : VideoCaptureCapability := mkCapability 1280 720 30 kYUY2 false [] None None.
Definition world0 : world := mkWorld 0 [].

(** The webcam starts with its second format. *)
Definition started := @StartCapture good_system (cameras [depth_source; webcam]) 3 hd_720 new_internal world0.

Lemma started_calls : effects (trace started.1.2) =
  [InitializeWithSettingsAsync 5; SetFormatAsync 2 7; CreateFrameReaderAsync 2; add_FrameArrived 58; StartAsync 58].
Proof. by vm_compute. Qed.

(** A camera without the format stands before one that has it. *)
Lemma StartCapture_stuck fuel :
  first_color [document_camera; webcam] = Some document_camera /\
  (@StartCapture good_system (cameras [document_camera; webcam]) fuel hd_720 new_internal world0).2 = Running.
Proof.
  split; [done|].
  exact (@StartCapture_outcome good_system good_quiet good_smooth (cameras [document_camera; webcam])
    [document_camera; webcam] (fun _ => eq_refl) (fun _ => eq_refl) hd_720 new_internal world0 fuel).
Defined.

(** A start that fails leaves its reader with the handler and its camera open, and the
    next start replaces them without a call that ends them. *)
Definition half_started := @StartCapture (bad_system (StartAsync 58)) (cameras [depth_source; webcam]) 3 hd_720 new_internal world0.
Definition started_again :=
  @StartCapture (bad_system (StartAsync 58)) (cameras [depth_source; webcam]) 3 hd_720 half_started.1.1 half_started.1.2.

Lemma failed_start_leaves_reader :
  half_started.2 = Failed E_FAIL /\ half_started.1.1 = mkInternal (Some 5) (Some 58) false /\
  (exists m r, started_again.1.1 = mkInternal (Some m) (Some r) true /\ r <> 58 /\ m <> 5) /\
  ~ In (remove_FrameArrived 58) (effects (trace started_again.1.2)) /\
  ~ In (Close "IMediaCapture" 5) (effects (trace started_again.1.2)).
Proof.
  split; [by vm_compute|]. split; [by vm_compute|].
  split; [do 2 eexists; split; [by vm_compute|done]|]. split; vm_compute; intuition discriminate.
Qed.

(** The camera cannot be closed: the object stays "capturing", and the next start with
    the same capability is a success without a camera. *)
Definition faulty := bad_system (Close "IMediaCapture" 5).
Definition capture1 := @VideoCapture_StartCapture faulty (cameras [webcam]) 3 hd_720 new_video_capture world0.
Definition capture2 := @VideoCapture_StopCapture faulty capture1.1.1 capture1.1.2.
Definition capture3 := @VideoCapture_StartCapture faulty (cameras [webcam]) 3 hd_720 capture2.1.1 capture2.1.2.

Lemma failed_stop_example :
  capture1.2 = Good S_OK S_OK /\ capture2.2 = Good S_OK E_FAIL /\
  capture3.2 = Good S_OK S_OK /\ media_frame_reader_ (video_capture_internal_ capture3.1.1) = None.
Proof. repeat split; by vm_compute. Qed.

(** *** The theorems at work *)

Lemma StartCapture_outcome_witness :
  succeeds (@StartCapture good_system (cameras [depth_source; webcam]) 3 hd_720) new_internal world0
    (fun _ this' _ calls => exists c r, this' = mkInternal (Some c) (Some r) true /\
      calls = [InitializeWithSettingsAsync c; SetFormatAsync 2 7; CreateFrameReaderAsync 2; add_FrameArrived r; StartAsync r]).
Proof.
  exact (@StartCapture_outcome good_system good_quiet good_smooth (cameras [depth_source; webcam])
    [depth_source; webcam] (fun _ => eq_refl) (fun _ => eq_refl) hd_720 new_internal world0 3%nat ltac:(cbn; lia)).
Defined.

Lemma good_stops (this : VideoCaptureWinRTInternal) w this' w' h hr :
  @StopCapture good_system this w = (this', w', Good h hr) -> SUCCEEDED hr = true.
Proof.
  intros Hstop. pose proof (@StopCapture_succeeds good_system good_quiet good_smooth this w (fun hr _ _ _ => SUCCEEDED hr = true) ltac:(auto)) as (hr' & s1 & w1 & l & [h' Hg] & _ & _ & Hhr).
  rewrite Hstop in Hg. by injection Hg as _ _ _ ->.
Qed.

Definition owner1 := @VideoCapture_StartCapture good_system (cameras [webcam]) 3 hd_720 new_video_capture world0.

Lemma capture_invariant_witness :
  CaptureStarted (video_capture_internal_ owner1.1.1) = true /\ @capturing_inv owner1.1.1 owner1.1.2.
Proof.
  split; [by vm_compute|].
  apply (@capture_invariant good_system (cameras [webcam]) good_stops).
  apply (reached_start 3 hd_720 new_video_capture world0 _ _ S_OK S_OK); [apply reached_new|by vm_compute].
Defined.

Definition nv12_frame : media_frame :=
  mkFrame 1280 720 (wide "NV12") (mkRatio 30 1) (Some (mkBitmap [mkPlane 0 1280; mkPlane 921600 1280] 4096 1382400)).
Definition frames (f : option media_frame) : FrameReader := {| latest_frame _ := f |}.
Definition arrived := @FrameArrived good_system (frames (Some nv12_frame)) no_references world0.

Lemma FrameArrived_closes_witness :
  exists l, trace arrived.1.2 = [] ++ l /\ closes l = rev (acquisitions 0 l).
Proof.
  exact (@FrameArrived_closes good_system (frames (Some nv12_frame)) world0 arrived.1.1 arrived.1.2 S_OK S_OK
    ltac:(discriminate) ltac:(vm_compute; reflexivity)).
Defined.

Lemma FrameArrived_delivers_witness :
  succeeds (@FrameArrived good_system (frames (Some nv12_frame))) no_references world0
    (fun hr _ _ l => SUCCEEDED hr = true /\ exists f s m r,
       l = [IncomingFrame 4096 1280 925696 1280 1382400 1280 720 30 kNV12; Close "IMemoryBufferReference" r; Close "IBitmapBuffer" m;
            Close "ISoftwareBitmap" s; Close "IMediaFrameReference" f]).
Proof. exact (@FrameArrived_delivers good_system good_quiet (frames (Some nv12_frame)) world0). Defined.

(** A frame of one plane, as those of YUY2, is not passed on. *)
Definition yuy2_frame : media_frame := mkFrame 1280 720 (wide "YUY2") (mkRatio 30 1) (Some (mkBitmap [mkPlane 0 2560] 4096 1843200)).

Lemma yuy2_frame_lost :
  (@FrameArrived good_system (frames (Some yuy2_frame)) no_references world0).2 = Good S_OK E_FAIL /\
  fits hd_720 yuy2_720p = true.
Proof. by vm_compute. Qed.

End Example.
