(* ===== verification/WinrtDeviceInfo.v ===== *)
(** * WinrtDeviceInfo: the cameras and their capabilities

    video_capture/windows/device_info_winrt.cc of the patches for libwebrtc:
    [DeviceInfoWinRTInternal] enumerates devices, profiles and streams, and
    [DeviceInfoWinRT] keeps the capabilities of the device that was asked for last. *)

From S2P Require Import Prelude IntTypes HResult FloatTypes WinRT WinrtCapture.
Open Scope Z_scope.

(** ** Objects of the runtime *)

(** [IMediaCaptureVideoProfileMediaDescription]; its frame rate is a [double]. *)
Record media_description := mkDescription {
  description_ref : Z; description_width : Z; description_height : Z;
  description_rate : spec_float; description_subtype : wstring
}.

(** [IMediaCaptureVideoProfile]. *)
Record video_profile := mkProfile { profile_ref : Z; Id : wstring; SupportedRecordMediaDescription : list media_description }.

(** [IVideoEncodingProperties] of a stream. *)
Record stream_properties := mkStream {
  stream_width : Z; stream_height : Z; stream_rate : media_ratio; stream_subtype : wstring
}.

Class Devices := {
  VideoCaptureDevices : list event -> list device_information;
  AllVideoProfiles : list event -> wstring -> list video_profile;
  AvailableMediaStreamProperties : list event -> list stream_properties
}.

(** ** [DeviceInfoWinRTInternal]

    [device_caps] is the vector that the functions fill. *)

Record DeviceInfoWinRTInternal := mkInfo { media_capture_statics_ : bool; device_caps : list VideoCaptureCapability }.

Definition push_back (c : VideoCaptureCapability) (i : DeviceInfoWinRTInternal) : DeviceInfoWinRTInternal :=
  mkInfo (media_capture_statics_ i) (device_caps i ++ [c]).
Definition set_statics (b : bool) (i : DeviceInfoWinRTInternal) : DeviceInfoWinRTInternal := mkInfo b (device_caps i).

Section Info.
Context `{WinRT} `{Devices}.
Abbreviation info_com := (com DeviceInfoWinRTInternal).

Definition AssureMediaCaptureStatics : info_com unit :=
  this ← get;
  when (negb (media_capture_statics_ this))
    (then_keep (method "GetActivationFactory(MediaCapture)") (fun _ i => (set_statics true i, tt))).

(** [IsVideoProfileSupported], which nothing calls; [supported] is what the runtime
    stores. *)
Definition IsVideoProfileSupported (supported : list event -> wstring -> bool) (id : wstring) : info_com bool :=
  AssureMediaCaptureStatics ;;
  h ← history;
  getter "IsVideoProfileSupported" (supported h id).

Definition GetMediaCaptureVideoProfilesForDevice (id : wstring) : info_com (list video_profile) :=
  AssureMediaCaptureStatics ;;
  h ← history;
  getter "FindAllVideoProfiles" (AllVideoProfiles h id).

(** One description of a profile. *)
Definition push_description (profile : video_profile) (profile_id : wstring) (d : media_description) : info_com unit :=
  method "IVectorView::GetAt" ;;
  width ← getter "get_Width" (static_cast Int32 (description_width d));
  height ← getter "get_Height" (static_cast Int32 (description_height d));
  frame_rate ← getter "get_FrameRate" (description_rate d);
  method "As<IMediaCaptureVideoProfileMediaDescription2>" ;;
  subtype ← getter "get_Subtype" (description_subtype d);
  method "As<IUnknown>" ;;
  method "As<IUnknown>" ;;
  match float_to_int Int32 frame_rate with
  | None => undefined
  | Some maxFPS =>
      modify (push_back (mkCapability width height maxFPS (ToVideoType subtype) false profile_id
        (Some (profile_ref profile)) (Some (description_ref d))))
  end.

Definition FillVideoCaptureCapabilityFromProfile (profile : video_profile) : info_com unit :=
  profile_description_list ← getter "get_SupportedRecordMediaDescription" (SupportedRecordMediaDescription profile);
  profile_id ← getter "get_Id" (Id profile);
  method "IVectorView::get_Size" ;;
  for_each profile_description_list (push_description profile profile_id).

Definition FillVideoCaptureCapabilityFromProfiles (video_profiles : list video_profile) : info_com unit :=
  method "IVectorView::get_Size" ;;
  for_each video_profiles (fun profile => method "IVectorView::GetAt" ;; FillVideoCaptureCapabilityFromProfile profile).

Definition FillVideoCaptureCapabilityFromDeviceProfiles (id : wstring) : info_com unit :=
  video_profiles ← GetMediaCaptureVideoProfilesForDevice id;
  FillVideoCaptureCapabilityFromProfiles video_profiles.

(** One stream of a device. *)
Definition push_stream (p : stream_properties) : info_com unit :=
  method "IVectorView::GetAt" ;;
  method "As<IVideoEncodingProperties>" ;;
  width ← getter "get_Width" (static_cast Int32 (stream_width p));
  height ← getter "get_Height" (static_cast Int32 (stream_height p));
  media_ratio ← getter "get_FrameRate" (stream_rate p);
  maxFPS ← SafelyComputeMediaRatio media_ratio;
  subtype ← getter "get_Subtype" (stream_subtype p);
  modify (push_back (mkCapability width height (static_cast Int32 maxFPS) (ToVideoType subtype) false [] None None)).

Definition FillVideoCaptureCapabilityFromMediaController : info_com unit :=
  h ← history;
  stream_capabilities ← getter "GetAvailableMediaStreamProperties" (AvailableMediaStreamProperties h);
  method "IVectorView::get_Size" ;;
  for_each stream_capabilities push_stream.

Definition FillVideoCaptureCapabilityFromDeviceWithoutProfiles (id : wstring) : info_com unit :=
  initialization_settings ← CreateMediaCaptureInitializationSettings id None None;
  media_capture ← GetMediaCaptureWithInitSettings initialization_settings;
  method "get_VideoDeviceController" ;;
  method "As<IMediaDeviceController>" ;;
  FillVideoCaptureCapabilityFromMediaController ;;
  method "As<IClosable>" ;;
  invoke (Close "IMediaCapture" media_capture).

Definition GetDeviceInformationCollection {S} : com S (list device_information) :=
  method "GetActivationFactory(DeviceInformation)" ;;
  method "As<IDeviceInformationStatics>" ;;
  async_op ← invoke_async FindAllAsyncDeviceClass;
  WaitForAsyncOperation async_op ;;
  h ← history;
  getter "GetResults" (VideoCaptureDevices h).

Definition GetNumberOfDevices {S} : com S Z :=
  device_info_collection ← GetDeviceInformationCollection;
  getter "get_Size" (Z.of_nat (length device_info_collection)).

(** The local vector of [CreateCapabilityMap] starts empty; [swap] hands it out. *)
Definition CreateCapabilityMap_internal (id : wstring) : info_com (list VideoCaptureCapability) :=
  modify (fun i => mkInfo (media_capture_statics_ i) []) ;;
  FillVideoCaptureCapabilityFromDeviceProfiles id ;;
  FillVideoCaptureCapabilityFromDeviceWithoutProfiles id ;;
  this ← get;
  mret (device_caps this).

End Info.

(** ** [GetDeviceName] *)

(** [wcstok_s]: the next token and what is left after its delimiter. *)
Fixpoint take_token (delimiter : Z) (s : wstring) : wstring * wstring :=
  match s with
  | [] => ([], [])
  | c :: s => if c =? delimiter then ([], s) else let '(t, rest) := take_token delimiter s in (c :: t, rest)
  end.

Fixpoint wcstok_s (delimiter : Z) (s : wstring) : option (wstring * wstring) :=
  match s with
  | [] => None
  | c :: s' => if c =? delimiter then wcstok_s delimiter s' else Some (take_token delimiter s)
  end.

(** What the three buffers hold; none before they are written. *)
Record device_names := mkNames {
  device_name_UTF8 : option bytes; device_unique_id_UTF8 : option bytes; product_unique_id_UTF8 : option bytes
}.
Definition no_names : device_names := mkNames None None None.

Section Names.
Context `{WinRT} `{Devices} `{Unicode}.

(** Conversion into a buffer of the caller. *)
Definition store_utf8 (s : wstring) (size : Z) (store : bytes -> device_names -> device_names) : com device_names unit :=
  match WideCharToMultiByte s size with
  | None => set_hr E_FAIL
  | Some b => modify (store b)
  end.

Definition product_id (id : wstring) : com device_names wstring :=
  let hs_lenght := Z.of_nat (length id) + 1 in
  set_hr (if Z.of_nat (length id) <? hs_lenght then S_OK else E_FAIL) ;;
  match wcstok_s 38 id with
  | None => set_hr E_FAIL ;; mret []
  | Some (_, next_token) =>
      match wcstok_s 38 next_token with
      | None => set_hr E_FAIL ;; mret []
      | Some (token, _) => mret token
      end
  end.

Definition GetDeviceName (device_number device_name_length device_unique_id_length product_unique_id_length : Z)
    : com device_names unit :=
  device_info_collection ← GetDeviceInformationCollection;
  device_count ← getter "get_Size" (Z.of_nat (length device_info_collection));
  set_hr (if device_count <=? device_number then E_BOUNDS else S_OK) ;;
  device_info ← getter "GetAt" (nth (Z.to_nat device_number) device_info_collection (mkDevice [] []));
  when (0 <? device_name_length)
    (name ← getter "get_Name" (device_name device_info);
     store_utf8 name device_name_length (fun b n => mkNames (Some b) (device_unique_id_UTF8 n) (product_unique_id_UTF8 n))) ;;
  when (0 <? device_unique_id_length)
    (id ← getter "get_Id" (device_id device_info);
     store_utf8 id device_unique_id_length (fun b n => mkNames (device_name_UTF8 n) (Some b) (product_unique_id_UTF8 n))) ;;
  when (0 <? product_unique_id_length)
    (id ← getter "get_Id" (device_id device_info);
     token ← product_id id;
     store_utf8 token product_unique_id_length (fun b n => mkNames (device_name_UTF8 n) (device_unique_id_UTF8 n) (Some b))).

End Names.

(** ** [DeviceInfoWinRT] *)

Record DeviceInfoWinRT := mkDeviceInfo {
  device_info_internal_ : DeviceInfoWinRTInternal;
  _captureCapabilities : list VideoCaptureCapability;
  _lastUsedDeviceName : bytes
}.
Definition new_device_info : DeviceInfoWinRT := mkDeviceInfo (mkInfo false []) [] [].

Definition set_info (i : DeviceInfoWinRTInternal) (d : DeviceInfoWinRT) : DeviceInfoWinRT :=
  mkDeviceInfo i (_captureCapabilities d) (_lastUsedDeviceName d).

Section Wrapper.
Context `{WinRT} `{Devices} `{Unicode}.

(** The count is unsigned, and so is -1. *)
Definition NumberOfDevices : com DeviceInfoWinRT Z :=
  device_count ← attempt GetNumberOfDevices;
  mret (static_cast Uint32 (default (-1) device_count)).

(** The names, and 0 or -1. *)
Definition DeviceInfo_GetDeviceName (device_number device_name_length device_unique_id_length product_unique_id_length : Z)
    : com device_names Z :=
  hr ← returned (GetDeviceName device_number device_name_length device_unique_id_length product_unique_id_length);
  mret (if SUCCEEDED hr then 0 else -1).

Definition DeviceInfo_Init : Z := 0.

Definition DisplayCaptureSettingsDialogBox : Z := -1.

(** A call of [Impl(device_info_internal_)]. *)
Definition impl_info {A} (m : com DeviceInfoWinRTInternal A) : com DeviceInfoWinRT A := fun d w =>
  let '(i, w, o) := m (device_info_internal_ d) w in (set_info i d, w, o).

Definition CreateCapabilityMap (device_unique_id_utf8 : bytes) : com DeviceInfoWinRT Z :=
  let device_unique_id_UTF8_length := Z.min (Z.of_nat (length device_unique_id_utf8)) kVideoCaptureUniqueNameLength in
  if device_unique_id_UTF8_length =? kVideoCaptureUniqueNameLength then mret (-1) else
  match MultiByteToWideChar device_unique_id_utf8 kVideoCaptureUniqueNameLength
          (kVideoCaptureUniqueNameLength * sizeof_wchar_t) with
  | None => undefined
  | Some (deviceIdW, device_id_w_length) =>
      if device_id_w_length =? 0 then mret (-1) else
      caps ← attempt (impl_info (CreateCapabilityMap_internal deviceIdW));
      match caps with
      | None => mret (-1)
      | Some caps =>
          modify (fun d => mkDeviceInfo (device_info_internal_ d) caps device_unique_id_utf8) ;;
          mret (static_cast Int32 (Z.of_nat (length caps)))
      end
  end.

End Wrapper.
