(* ===== verification/WinrtDeviceInfoRuns.v ===== *)
(** * WinrtDeviceInfoRuns: what the capabilities are, and what they open

    Theorems on [WinrtDeviceInfo], and on its capabilities when [WinrtCapture] is started
    with them. *)

From S2P Require Import Prelude IntTypes HResult FloatTypes WinRT WinrtCapture WinrtCaptureRuns WinrtDeviceInfo.
Open Scope Z_scope.

(** ** In every system *)

(** A capability names a profile and a description of it, or it says nothing about the
    device it belongs to. *)
Definition from_profile (c : VideoCaptureCapability) : Prop :=
  exists p d, media_capture_video_profile c = Some p /\ record_media_description c = Some d.
Definition anonymous (c : VideoCaptureCapability) : Prop :=
  profile_id c = [] /\ media_capture_video_profile c = None /\ record_media_description c = None.
Definition listed (c : VideoCaptureCapability) : Prop := from_profile c \/ anonymous c.

Definition keeps_listed (x y : DeviceInfoWinRTInternal * world) : Prop :=
  Forall listed (device_caps x.1) -> Forall listed (device_caps y.1).

#[local] Instance keeps_listed_preorder : PreOrder keeps_listed.
Proof. split; [by intros x Hx|]. intros x y z Hxy Hyz Hx. by apply Hyz, Hxy. Qed.

Section Always.
Context `{WinRT} `{Devices} `{Unicode}.

#[local] Instance keeps_listed_neutral : Neutral keeps_listed.
Proof. split; [by intros name s w Hs|]. by intros s w t _ Hs. Qed.

Lemma keeps_listed_allows c : allows keeps_listed c.
Proof. by intros s w Hs. Qed.

Lemma preserves_push_back cap : listed cap -> preserves keeps_listed (modify (push_back cap)).
Proof. intros Hcap s w Hs. cbn. apply Forall_app. split; [done|]. by constructor. Qed.

Lemma preserves_push_description profile id d : preserves keeps_listed (push_description profile id d).
Proof.
  unfold push_description. do 8 (apply preserves_bind; [apply _|eauto with winrt|intros ?]).
  destruct (float_to_int _ _) as [fps|]; [|eauto with winrt]. apply preserves_push_back. left. by do 2 eexists.
Qed.

Lemma preserves_push_stream p : preserves keeps_listed (push_stream p).
Proof.
  unfold push_stream. do 5 (apply preserves_bind; [apply _|eauto with winrt|intros ?]).
  apply preserves_bind; [apply _|apply preserves_SafelyComputeMediaRatio; apply _|intros fps].
  apply preserves_bind; [apply _|eauto with winrt|intros subtype]. apply preserves_push_back. by right.
Qed.

Lemma preserves_profiles id : preserves keeps_listed (FillVideoCaptureCapabilityFromDeviceProfiles id).
Proof.
  unfold FillVideoCaptureCapabilityFromDeviceProfiles. apply preserves_bind; [apply _| |intros profiles].
  - unfold GetMediaCaptureVideoProfilesForDevice. apply preserves_bind; [apply _| |intros _].
    + unfold AssureMediaCaptureStatics. apply preserves_bind; [apply _|eauto with winrt|intros this].
      apply preserves_when; [apply _|]. apply preserves_then_keep; [apply _|eauto with winrt|]. by intros _ s w Hs.
    + apply preserves_bind; [apply _|eauto with winrt|intros h]. eauto with winrt.
  - unfold FillVideoCaptureCapabilityFromProfiles. apply preserves_bind; [apply _|eauto with winrt|intros _].
    apply preserves_for_each; [apply _|]. intros profile. apply preserves_bind; [apply _|eauto with winrt|intros _].
    unfold FillVideoCaptureCapabilityFromProfile. do 3 (apply preserves_bind; [apply _|eauto with winrt|intros ?]).
    apply preserves_for_each; [apply _|]. intros d. apply preserves_push_description.
Qed.

Lemma preserves_streams id : preserves keeps_listed (FillVideoCaptureCapabilityFromDeviceWithoutProfiles id).
Proof.
  unfold FillVideoCaptureCapabilityFromDeviceWithoutProfiles.
  apply preserves_bind; [apply _|apply preserves_CreateSettings; try apply _; intros; apply keeps_listed_allows|intros st].
  apply preserves_bind; [apply _|apply preserves_GetMediaCapture; try apply _; intros; apply keeps_listed_allows|intros c].
  do 2 (apply preserves_bind; [apply _|eauto with winrt|intros _]). apply preserves_bind; [apply _| |intros _].
  - unfold FillVideoCaptureCapabilityFromMediaController. do 3 (apply preserves_bind; [apply _|eauto with winrt|intros ?]).
    apply preserves_for_each; [apply _|]. apply preserves_push_stream.
  - apply preserves_bind; [apply _|eauto with winrt|intros _]. apply preserves_invoke, keeps_listed_allows.
Qed.

(** [CreateCapabilityMap] is all or nothing: when it returns -1 the capabilities and the
    name of the last device are as before; otherwise it returns the number of the new
    capabilities, each of which names a profile or says nothing about the device. *)
Lemma CreateCapabilityMap_atomic s d w d' w' h n :
  CreateCapabilityMap s d w = (d', w', Good h n) ->
  (n = -1 /\ _captureCapabilities d' = _captureCapabilities d /\ _lastUsedDeviceName d' = _lastUsedDeviceName d) \/
  (n = static_cast Int32 (Z.of_nat (length (_captureCapabilities d'))) /\ Forall listed (_captureCapabilities d') /\
   _lastUsedDeviceName d' = s /\ Z.of_nat (length s) < kVideoCaptureUniqueNameLength).
Proof.
  unfold CreateCapabilityMap. destruct (Z.eqb_spec (Z.min (Z.of_nat (length s)) kVideoCaptureUniqueNameLength) kVideoCaptureUniqueNameLength).
  { intros [= <- <- <- <-]. by left. }
  destruct (MultiByteToWideChar _ _ _) as [[u k]|]; [|done]. destruct (k =? 0); [intros [= <- <- <- <-]; by left|].
  intros Hmap. apply bind_good in Hmap as (caps & d1 & w1 & h1 & Hcaps & Hmap). unfold attempt, impl_info in Hcaps.
  destruct (CreateCapabilityMap_internal u (device_info_internal_ d) w) as [[i w2] o] eqn:Hinternal. destruct o as [h2 caps2| | |]; simplify_eq/=; [|injection Hmap as <- <- <- <-; by left].
  injection Hmap as <- <- <- <-. right. split; [done|]. split; [|split; [done|unfold kVideoCaptureUniqueNameLength in *; lia]].
  unfold CreateCapabilityMap_internal in Hinternal. apply bind_good in Hinternal as (? & i1 & w3 & ? & [= <- <- _] & Hinternal).
  apply bind_good in Hinternal as (? & i2 & w4 & ? & Hp & Hinternal). apply bind_good in Hinternal as (? & i3 & w5 & ? & Hs & Hinternal).
  apply bind_good in Hinternal as (? & i4 & w6 & ? & [= <- <- _ <-] & [= <- <- _ <-]).
  pose proof (preserves_profiles u (mkInfo (media_capture_statics_ (device_info_internal_ d)) []) w) as Hkeep. rewrite Hp in Hkeep.
  pose proof (preserves_streams u i2 w4) as Hkeep'. rewrite Hs in Hkeep'. apply Hkeep', Hkeep. constructor.
Qed.

End Always.

(** A device is opened by the capability it was listed with only through a profile: if
    [CreateCapabilityMap] succeeds, for each of its capabilities that names no profile,
    [StartCapture] makes no call that chooses a camera, in any system, and opens the
    default one. *)
Theorem mapped_capability_chooses `{WinRT} `{Devices} `{Unicode} s d w d' w' h n :
  CreateCapabilityMap s d w = (d', w', Good h n) -> n <> -1 ->
  forall cap, In cap (_captureCapabilities d') ->
  from_profile cap \/
  (anonymous cap /\ forall (system : WinRT) (cameras : Cameras) fuel this w1,
    exists l, trace (StartCapture fuel cap this w1).1.2 = trace w1 ++ l /\ Forall (fun e => chooses e.1 = false) l).
Proof.
  intros Hmap Hn cap Hcap. destruct (CreateCapabilityMap_atomic _ _ _ _ _ _ _ Hmap) as [[? _]|(_ & Hlisted & _)]; [done|].
  rewrite List.Forall_forall in Hlisted. destruct (Hlisted cap Hcap) as [Hp|Ha]; [by left|right]. split; [done|].
  intros system cameras fuel this w1. destruct Ha as (Hid & Hp & Hd). by apply StartCapture_ignores_device.
Qed.

(** ** In a system where nothing fails

    The reference: the descriptions of all profiles, then the streams; undefined when a
    frame rate does not fit an [int32_t]. *)

Definition description_capability (profile : video_profile) (d : media_description) : option VideoCaptureCapability :=
  maxFPS ← float_to_int Int32 (description_rate d);
  Some (mkCapability (static_cast Int32 (description_width d)) (static_cast Int32 (description_height d)) maxFPS
    (ToVideoType (description_subtype d)) false (Id profile) (Some (profile_ref profile)) (Some (description_ref d))).

Definition profile_capabilities (profile : video_profile) : option (list VideoCaptureCapability) :=
  mapM (description_capability profile) (SupportedRecordMediaDescription profile).

Definition stream_capability (p : stream_properties) : VideoCaptureCapability :=
  mkCapability (static_cast Int32 (stream_width p)) (static_cast Int32 (stream_height p))
    (static_cast Int32 (ratio_value (stream_rate p))) (ToVideoType (stream_subtype p)) false [] None None.

Definition device_capabilities (profiles : list video_profile) (streams : list stream_properties) : option (list VideoCaptureCapability) :=
  caps ← mapM profile_capabilities profiles;
  Some (concat caps ++ map stream_capability streams).

Definition append (cs : list VideoCaptureCapability) (i : DeviceInfoWinRTInternal) : DeviceInfoWinRTInternal :=
  mkInfo (media_capture_statics_ i) (device_caps i ++ cs).

Section Smoothly.
Context `{Smooth}.

(** [m] appends these capabilities. *)
Definition appends (m : com DeviceInfoWinRTInternal unit) (cs : list VideoCaptureCapability) : Prop :=
  forall i w Q, (forall w', now w <= now w' -> Q tt (append cs i) w' []) -> succeeds m i w Q.

Lemma append_nil i : append [] i = i.
Proof. destruct i. unfold append. cbn. by rewrite app_nil_r. Qed.

Lemma append_append cs1 cs2 i : append cs2 (append cs1 i) = append (cs1 ++ cs2) i.
Proof. unfold append. cbn. by rewrite app_assoc. Qed.

Lemma for_each_appends {A} (f : A -> com DeviceInfoWinRTInternal unit) (g : A -> option (list VideoCaptureCapability)) l css :
  (forall a cs, g a = Some cs -> appends (f a) cs) -> mapM g l = Some css -> appends (for_each l f) (concat css).
Proof.
  intros Hf Hl. apply mapM_Some in Hl. induction Hl as [|a cs l css Ha Hl IH]; intros i w Q HQ; cbn [for_each concat].
  - apply succeeds_ret. rewrite <- (append_nil i). apply HQ. lia.
  - apply succeeds_bind, (Hf a cs Ha). intros w1 Ht1. apply IH. intros w2 Ht2. rewrite append_append. apply HQ. lia.
Qed.

Lemma for_each_undefined {A} (f : A -> com DeviceInfoWinRTInternal unit) (g : A -> option (list VideoCaptureCapability)) l :
  (forall a cs, g a = Some cs -> appends (f a) cs) -> (forall a i w, g a = None -> (f a i w).2 = Undefined) ->
  mapM g l = None -> forall i w, (for_each l f i w).2 = Undefined.
Proof.
  intros Hf Hnone. induction l as [|a l IH]; [done|]. intros Hl i w. cbn in Hl. cbn [for_each]. destruct (g a) as [cs|] eqn:Ha.
  - apply bind_outcome, (Hf a cs Ha). intros w1 _. apply IH. cbn in Hl. by destruct (mapM g l).
  - specialize (Hnone a i w Ha). unfold mbind, com_bind. by destruct (f a i w) as [[? ?] [| | |]].
Qed.

Lemma push_description_appends profile d cap :
  description_capability profile d = Some cap -> appends (push_description profile (Id profile) d) [cap].
Proof.
  intros Hcap i w Q HQ. unfold push_description, description_capability in *. apply succeeds_bind, succeeds_method. intros ? ?.
  do 3 (apply succeeds_bind, succeeds_getter; intros ? ?). apply succeeds_bind, succeeds_method. intros ? ?.
  apply succeeds_bind, succeeds_getter. intros ? ?. do 2 (apply succeeds_bind, succeeds_method; intros ? ?).
  destruct (float_to_int _ _) as [fps|]; [|done]. injection Hcap as <-. apply succeeds_modify. apply (HQ _). lia.
Qed.

Lemma push_description_undefined profile id d i w :
  description_capability profile d = None -> (push_description profile id d i w).2 = Undefined.
Proof.
  intros Hcap. unfold push_description, description_capability in *. apply bind_outcome, succeeds_method. intros ? ?.
  do 3 (apply bind_outcome, succeeds_getter; intros ? ?). apply bind_outcome, succeeds_method. intros ? ?.
  apply bind_outcome, succeeds_getter. intros ? ?. do 2 (apply bind_outcome, succeeds_method; intros ? ?).
  by destruct (float_to_int _ _).
Qed.

Lemma push_stream_appends p : appends (push_stream p) [stream_capability p].
Proof.
  intros i w Q HQ. unfold push_stream. do 2 (apply succeeds_bind, succeeds_method; intros ? ?).
  do 3 (apply succeeds_bind, succeeds_getter; intros ? ?). apply succeeds_bind, succeeds_ratio. intros ? ?.
  apply succeeds_bind, succeeds_getter. intros ? ?. apply succeeds_modify. apply (HQ _). lia.
Qed.

Lemma mapM_singletons {A} (g : A -> option VideoCaptureCapability) l :
  mapM (fun a => cap ← g a; Some [cap]) l = (fun cs => map (fun c => [c]) cs) <$> mapM g l.
Proof. induction l as [|a l IH]; [done|]. cbn. destruct (g a); [|done]. cbn. rewrite IH. by destruct (mapM g l). Qed.

Lemma concat_singletons {A} (l : list A) : concat (map (fun c => [c]) l) = l.
Proof. induction l as [|a l IH]; [done|]. cbn. by rewrite IH. Qed.

(** One profile: its descriptions, or undefined. *)
Lemma descriptions_appends profile cs : profile_capabilities profile = Some cs ->
  appends (for_each (SupportedRecordMediaDescription profile) (push_description profile (Id profile))) cs.
Proof.
  intros Hcs. rewrite <- (concat_singletons cs).
  apply (for_each_appends _ (fun d => cap ← description_capability profile d; Some [cap])).
  - intros d c. destruct (description_capability profile d) as [cap|] eqn:Hd; [|done]. intros [= <-]. by apply push_description_appends.
  - unfold profile_capabilities in Hcs. by rewrite mapM_singletons, Hcs.
Qed.

Lemma profile_appends profile cs : profile_capabilities profile = Some cs ->
  appends (method "IVectorView::GetAt" ;; FillVideoCaptureCapabilityFromProfile profile) cs.
Proof.
  intros Hcs i w Q HQ. apply succeeds_bind, succeeds_method. intros ? ?. unfold FillVideoCaptureCapabilityFromProfile.
  do 2 (apply succeeds_bind, succeeds_getter; intros ? ?). apply succeeds_bind, succeeds_method. intros ? ?.
  apply (descriptions_appends profile cs Hcs). intros ? ?. apply (HQ _). lia.
Qed.

Lemma profile_undefined profile i w : profile_capabilities profile = None ->
  ((method "IVectorView::GetAt" ;; FillVideoCaptureCapabilityFromProfile profile) i w).2 = Undefined.
Proof.
  intros Hcs. apply bind_outcome, succeeds_method. intros ? ?. unfold FillVideoCaptureCapabilityFromProfile.
  do 2 (apply bind_outcome, succeeds_getter; intros ? ?). apply bind_outcome, succeeds_method. intros ? ?.
  apply (for_each_undefined _ (fun d => cap ← description_capability profile d; Some [cap])).
  - intros d c. destruct (description_capability profile d) as [cap|] eqn:Hd; [|done]. intros [= <-]. by apply push_description_appends.
  - intros d i2 w2 Hd. apply push_description_undefined. by destruct (description_capability profile d).
  - unfold profile_capabilities in Hcs. by rewrite mapM_singletons, Hcs.
Qed.

Context `{Devices} `{UnicodeLaws} (profiles : wstring -> list video_profile) (streams : list stream_properties).
Context (Hprofiles : forall h id, AllVideoProfiles h id = profiles id)
  (Hstreams : forall h, AvailableMediaStreamProperties h = streams).

Lemma AssureMediaCaptureStatics_succeeds i w Q :
  (forall w', now w <= now w' -> Q tt (set_statics true i) w' []) -> succeeds AssureMediaCaptureStatics i w Q.
Proof.
  intros HQ. apply succeeds_bind, succeeds_get. destruct i as [[] caps]; cbn [media_capture_statics_ negb when].
  - apply succeeds_ret, (HQ _). lia.
  - apply succeeds_then_keep, succeeds_method. intros ? ?. apply (HQ _). lia.
Qed.

Lemma all_profiles_appends id css i w Q : mapM profile_capabilities (profiles id) = Some css ->
  (forall w', now w <= now w' -> Q tt (append (concat css) (set_statics true i)) w' []) ->
  succeeds (FillVideoCaptureCapabilityFromDeviceProfiles id) i w Q.
Proof.
  intros Hcss HQ. unfold FillVideoCaptureCapabilityFromDeviceProfiles, GetMediaCaptureVideoProfilesForDevice.
  apply succeeds_bind, succeeds_bind, AssureMediaCaptureStatics_succeeds. intros ? ?. apply succeeds_bind, succeeds_history.
  rewrite Hprofiles. apply succeeds_getter. intros ? ?. apply succeeds_bind, succeeds_method. intros ? ?.
  apply (for_each_appends _ profile_capabilities _ css profile_appends Hcss). intros ? ?. apply (HQ _). lia.
Qed.

Lemma all_profiles_undefined id i w : mapM profile_capabilities (profiles id) = None ->
  (FillVideoCaptureCapabilityFromDeviceProfiles id i w).2 = Undefined.
Proof.
  intros Hcss. unfold FillVideoCaptureCapabilityFromDeviceProfiles, GetMediaCaptureVideoProfilesForDevice.
  apply bind_outcome, succeeds_bind, AssureMediaCaptureStatics_succeeds. intros ? ?. apply succeeds_bind, succeeds_history.
  rewrite Hprofiles. apply succeeds_getter. intros ? ?. apply bind_outcome, succeeds_method. intros ? ?.
  by apply (for_each_undefined _ profile_capabilities _ profile_appends profile_undefined).
Qed.

Lemma all_streams_append : appends (for_each streams push_stream) (map stream_capability streams).
Proof.
  rewrite <- (concat_singletons (map stream_capability streams)), map_map.
  apply (for_each_appends _ (fun p => Some [stream_capability p])).
  - intros p cs [= <-]. apply push_stream_appends.
  - clear. induction streams as [|p l IH]; [done|]. cbn. by rewrite IH.
Qed.

Lemma streams_append id i w Q :
  (forall c w', now w <= now w' -> Q tt (append (map stream_capability streams) i) w'
    (setting_calls id None None ++ opening_calls c ++ [Close "IMediaCapture" c])) ->
  succeeds (FillVideoCaptureCapabilityFromDeviceWithoutProfiles id) i w Q.
Proof.
  intros HQ. unfold FillVideoCaptureCapabilityFromDeviceWithoutProfiles, FillVideoCaptureCapabilityFromMediaController.
  apply succeeds_bind, succeeds_CreateSettings. intros st ? ?. apply succeeds_bind, succeeds_GetMediaCapture. intros c ? ?.
  do 2 (apply succeeds_bind, succeeds_method; intros ? ?). apply succeeds_bind, succeeds_bind, succeeds_history. rewrite Hstreams.
  apply succeeds_bind, succeeds_getter. intros ? ?. apply succeeds_bind, succeeds_method. intros ? ?.
  apply all_streams_append. intros ? ?. apply succeeds_bind, succeeds_method. intros ? ?. apply succeeds_invoke; [done|]. intros ? ?.
  apply (HQ c). lia.
Qed.

Lemma succeeds_impl_info {A} (m : com DeviceInfoWinRTInternal A) d w Q :
  succeeds m (device_info_internal_ d) w (fun a i' w' l => Q a (set_info i' d) w' l) -> succeeds (impl_info m) d w Q.
Proof.
  intros (a & i' & w' & l & [hr Hm] & Hrest). exists a, (set_info i' d), w', l. split; [|done].
  exists hr. unfold impl_info. by rewrite Hm.
Qed.

(** In a system where nothing fails, [CreateCapabilityMap] lists the descriptions of all
    profiles of the device, in order, then its streams, closes the camera it opened and
    remembers the device; a frame rate that does not fit is undefined, an identifier that
    is too long or cannot be converted is refused, and no conversion leaves its buffer. *)
Theorem CreateCapabilityMap_contents s d w :
  if decide (Z.of_nat (length s) < 1024) then
    match utf8_to_utf16 s with
    | None => (CreateCapabilityMap s d w).2 = Good S_OK (-1)
    | Some id =>
        match device_capabilities (profiles id) streams with
        | None => (CreateCapabilityMap s d w).2 = Undefined
        | Some caps => succeeds (CreateCapabilityMap s) d w (fun n d' _ calls =>
            n = static_cast Int32 (Z.of_nat (length caps)) /\ _captureCapabilities d' = caps /\ _lastUsedDeviceName d' = s /\
            exists c, calls = setting_calls id None None ++ opening_calls c ++ [Close "IMediaCapture" c])
        end
    end
  else (CreateCapabilityMap s d w).2 = Good S_OK (-1).
Proof.
  unfold CreateCapabilityMap. destruct (decide _) as [Hs|Hs].
  2: { replace (Z.min _ _ =? _) with true; [done|]. symmetry. apply Z.eqb_eq. unfold kVideoCaptureUniqueNameLength. lia. }
  replace (Z.min _ _ =? _) with false by (symmetry; apply Z.eqb_neq; unfold kVideoCaptureUniqueNameLength; lia).
  unfold MultiByteToWideChar. destruct (utf8_to_utf16 s) as [id|] eqn:Hid; [|done]. apply utf16_length in Hid.
  unfold kVideoCaptureUniqueNameLength, sizeof_wchar_t, guard_b. destruct (Z.ltb_spec (1024 * 2) (Z.of_nat (length id) + 1)); [lia|].
  destruct (Z.leb_spec (Z.of_nat (length id) + 1) 1024); [|lia]. destruct (Z.eqb_spec (Z.of_nat (length id) + 1) 0); [lia|].
  unfold device_capabilities. destruct (mapM profile_capabilities (profiles id)) as [css|] eqn:Hcss; cbn [mbind option_bind].
  - apply succeeds_bind, succeeds_attempt, succeeds_impl_info. unfold CreateCapabilityMap_internal.
    apply succeeds_bind, succeeds_modify, succeeds_bind, (all_profiles_appends id css); [done|]. intros ? ?.
    apply succeeds_bind, streams_append. intros c ? ?. apply succeeds_bind, succeeds_get, succeeds_ret.
    apply succeeds_bind, succeeds_modify, succeeds_ret. cbn. rewrite !app_nil_r. repeat split. by exists c.
  - pose proof (all_profiles_undefined id (mkInfo (media_capture_statics_ (device_info_internal_ d)) []) w Hcss) as Hu.
    unfold attempt, impl_info, CreateCapabilityMap_internal, mbind at 1, com_bind at 1. rewrite (gives_bind _ _ _ _ _ _ _ (gives_modify _ _ _)).
    unfold mbind at 1, com_bind at 1. by destruct (FillVideoCaptureCapabilityFromDeviceProfiles _ _ _) as [[? ?] [| | |]].
Qed.

End Smoothly.

(** ** The product identifier

    The reference: the parts of a string between delimiters that are not empty. *)

Fixpoint split (delimiter : Z) (s : wstring) : list wstring :=
  match s with
  | [] => [[]]
  | c :: s =>
      if c =? delimiter then [] :: split delimiter s
      else match split delimiter s with f :: fs => (c :: f) :: fs | [] => [[c]] end
  end.
Definition nonempty (s : wstring) : bool := match s with [] => false | _ => true end.
Definition fields (delimiter : Z) (s : wstring) : list wstring := List.filter nonempty (split delimiter s).

Lemma take_token_split delimiter s :
  exists fs, split delimiter s = (take_token delimiter s).1 :: fs /\
  List.filter nonempty fs = fields delimiter (take_token delimiter s).2.
Proof.
  induction s as [|c s (fs & Hs & Hfs)]; cbn; [by exists []|]. destruct (c =? delimiter); [by exists (split delimiter s)|].
  rewrite Hs. destruct (take_token delimiter s) as [t rest]. cbn in *. by exists fs.
Qed.

Lemma wcstok_fields delimiter s :
  match wcstok_s delimiter s with
  | None => fields delimiter s = []
  | Some (token, rest) => fields delimiter s = token :: fields delimiter rest
  end.
Proof.
  induction s as [|c s IH]; [done|]. cbn [wcstok_s]. destruct (Z.eqb_spec c delimiter) as [-> |Hc].
  - assert (fields delimiter (delimiter :: s) = fields delimiter s) as -> by (unfold fields; cbn [split]; by rewrite Z.eqb_refl). exact IH.
  - destruct (take_token_split delimiter (c :: s)) as (fs & Hs & Hfs). cbn [take_token] in *.
    destruct (Z.eqb_spec c delimiter); [done|]. destruct (take_token delimiter s) as [t rest]. cbn [fst snd] in *.
    rewrite <- Hfs. unfold fields. by rewrite Hs.
Qed.

(** The product is the second field of the identifier between ampersands, without which
    [GetDeviceName] fails although it has stored the name and the identifier. *)
Lemma product_id_field id n w :
  product_id id n w = match fields 38 id with
                      | _ :: product :: _ => (n, w, Good S_OK product)
                      | _ => (n, w, Failed E_FAIL)
                      end.
Proof.
  unfold product_id. destruct (Z.ltb_spec (Z.of_nat (length id)) (Z.of_nat (length id) + 1)); [|lia].
  rewrite (gives_bind _ _ _ _ _ _ _ (gives_set_hr S_OK n w eq_refl)). pose proof (wcstok_fields 38 id) as H1.
  destruct (wcstok_s 38 id) as [[t rest]|]; [|by rewrite H1]. pose proof (wcstok_fields 38 rest) as H2.
  destruct (wcstok_s 38 rest) as [[t2 rest2]|]; by rewrite H1, H2.
Qed.

(** ** Examples *)

Module Example.

Definition ascii : Unicode := {| utf8_to_utf16 s := Some s; utf16_to_utf8 s := Some s |}.
#[local] Instance ascii_laws : @UnicodeLaws ascii.
Proof. split; [by intros s w [= <-]|done]. Qed.

Definition camera_id : wstring := wide "USB#VID_045E&PID_0779&MI_00".

(** A camera with one profile of one description, and one stream. *)
Definition profile : video_profile :=
  mkProfile 70 (wide "profile") [mkDescription 71 1920 1080 (of_int Double 30) (wide "NV12")].
Definition stream : stream_properties := mkStream 1280 720 (mkRatio 30 1) (wide "YUY2").
Definition one_camera : Devices := {|
  VideoCaptureDevices _ := [mkDevice (wide "Camera") camera_id];
  AllVideoProfiles _ _ := [profile];
  AvailableMediaStreamProperties _ := [stream]
|}.

Definition mapped := @CreateCapabilityMap good_system one_camera ascii camera_id new_device_info (mkWorld 0 []).

Lemma camera_product : @product_id camera_id no_names (mkWorld 0 []) = (no_names, mkWorld 0 [], Good S_OK (wide "PID_0779")).
Proof. by vm_compute. Qed.

Lemma CreateCapabilityMap_contents_witness :
  device_capabilities [profile] [stream] =
    Some [mkCapability 1920 1080 30 kNV12 false (wide "profile") (Some 70) (Some 71);
          mkCapability 1280 720 30 kYUY2 false [] None None] /\
  succeeds (@CreateCapabilityMap good_system one_camera ascii camera_id) new_device_info (mkWorld 0 []) (fun n d' _ calls =>
    n = 2 /\ _captureCapabilities d' = [mkCapability 1920 1080 30 kNV12 false (wide "profile") (Some 70) (Some 71);
          mkCapability 1280 720 30 kYUY2 false [] None None] /\ _lastUsedDeviceName d' = camera_id /\
    exists c, calls = [put_VideoDeviceId camera_id; InitializeWithSettingsAsync c; Close "IMediaCapture" c]).
Proof.
  split; [vm_compute; reflexivity|].
  exact (@CreateCapabilityMap_contents good_system good_quiet good_smooth one_camera ascii ascii_laws (fun _ => [profile]) [stream]
    (fun _ _ => eq_refl) (fun _ => eq_refl) camera_id new_device_info (mkWorld 0 [])).
Defined.

(** When the streams cannot be listed, the camera that was opened is not closed. *)
Lemma failed_map_leaves_camera_open :
  let r := @CreateCapabilityMap (bad_system (Method "GetAvailableMediaStreamProperties")) one_camera ascii camera_id new_device_info (mkWorld 0 []) in
  r.2 = Good S_OK (-1) /\ exists c, effects (trace r.1.2) = [put_VideoDeviceId camera_id; InitializeWithSettingsAsync c].
Proof. split; [by vm_compute|]. eexists. vm_compute. reflexivity. Qed.

Definition stream_cap : VideoCaptureCapability := mkCapability 1280 720 30 kYUY2 false [] None None.

Lemma mapped_capability_chooses_witness :
  from_profile stream_cap \/
  (anonymous stream_cap /\ forall (system : WinRT) (cameras : Cameras) fuel this w1,
    exists l, trace (StartCapture fuel stream_cap this w1).1.2 = trace w1 ++ l /\ Forall (fun e => chooses e.1 = false) l).
Proof.
  apply (@mapped_capability_chooses good_system one_camera ascii camera_id new_device_info (mkWorld 0 []) mapped.1.1 mapped.1.2 S_OK 2).
  - vm_compute. reflexivity.
  - discriminate.
  - vm_compute. right. left. reflexivity.
Defined.

End Example.
