(* ===== verification/AudioDevice.v ===== *)
(** * AudioDevice: the audio devices of Windows

    audio_device/win/audio_device_core_win.{h,cc} of the patches for libwebrtc:
    [DeviceHelper] enumerates and selects devices, [AudioDeviceHelper] opens one and starts
    and stops its thread, [CaptureDeviceInternal] and [RenderDeviceInternal] choose the
    format of the stream, and [AudioDeviceWindowsCore] hands the calls of libwebrtc to the
    two of them.  What the threads do is in [AudioTransport], how they and their starter
    interleave in [AudioThreads].

    [assert] is not compiled in, as in a release build. *)

From S2P Require Import Prelude IntTypes HResult FloatTypes WinRT.
Open Scope Z_scope.

(** ** Parameters *)

Inductive DeviceClass := DeviceClass_AudioCapture | DeviceClass_AudioRender.
Inductive AudioDeviceRole := AudioDeviceRole_Default | AudioDeviceRole_Communications.

(** Arguments of calls. *)
Definition class_number (c : DeviceClass) : Z := match c with DeviceClass_AudioCapture => 1 | DeviceClass_AudioRender => 2 end.
Definition role_number (r : AudioDeviceRole) : Z := match r with AudioDeviceRole_Default => 0 | AudioDeviceRole_Communications => 1 end.
Definition float_arguments (x : spec_float) : list Z :=
  match x with
  | S754_zero s => [0; b2z s] | S754_infinity s => [1; b2z s] | S754_nan => [2] | S754_finite s m e => [3; b2z s; Zpos m; e]
  end.

(** What [IAudioCaptureClient::GetBuffer] stores: the bytes, if any, the number of frames,
    whether they are silence and the time of the first. *)
Record packet := mkPacket { pData : option bytes; framesAvailable : Z; silent : bool; recTime : Z }.

(** What calls store or return after the calls of a history, besides their results. *)
Class AudioSystem := {
  FindAll : list event -> DeviceClass -> list device_information;
  DefaultId : list event -> DeviceClass -> AudioDeviceRole -> wstring;
  CreateFromId : list event -> wstring -> device_information;
  GetLastError : list event -> Z;
  QueryPerformanceFrequency : list event -> Z;
  QueryPerformanceCounter : list event -> Z;
  BufferSize : list event -> Z;
  StreamLatency : list event -> Z;
  DevicePeriod : list event -> Z;
  CurrentPadding : list event -> Z;
  Packet : list event -> packet;
  ClockPosition : list event -> Z;
  ClockFrequency : list event -> Z;
  MasterVolume : list event -> spec_float;
  SessionMute : list event -> bool;
  RequestPlayoutData : list event -> Z;
  CreateThread : list event -> bool;
  (* whether the thread sets the event of its start, and terminates, in time *)
  thread_started : list event -> bool;
  thread_ended : list event -> bool;
  (* the bytes of memory just allocated *)
  new_bytes : list event -> Z -> Z;
  (* what the recording thread finds in [_sndCardDelay] of the other device *)
  sndCardDelay : list event -> option Z
}.

Definition HRESULT_FROM_WIN32 (x : Z) : HRESULT :=
  if x =? 0 then S_OK else if x <? 0 then Other x else hresult (Z.lor (Z.land x 0xFFFF) 0x80070000).
Definition ERROR_TIMEOUT : Z := 1460.

(** ** Forms of the code *)

(** [Cleanup: return SUCCEEDED(hr) ? 0 : -1;] after a sequence of [THR], and a sequence of
    [if (FAILED(hr)) return -1;]. *)
Definition cleanup {S} (m : com S Z) : com S Z := r ← attempt m; mret (default (-1) r).

(** A computation on memory of the caller. *)
Definition local {S T A} (t : T) (m : com T A) : com S (T * A) := fun s w =>
  let '(t', w', o) := m t w in
  (s, w', match o with Good hr a => Good hr (t', a) | Failed hr => Failed hr | Undefined => Undefined | Running => Running end).

(** Undefined unless [b]: a call through a pointer that may be null. *)
Definition non_null {S} (b : bool) : com S unit := if b then mret tt else undefined.

(** [rtc::ToUtf8] of string_utils.h: invalid text becomes the empty string. *)
Definition ToUtf8 `{Unicode} (wide : wstring) : bytes :=
  match wide with [] => [] | _ => default [] (utf16_to_utf8 wide) end.

(** ** State *)

Record DeviceHelper := mkDeviceHelper {
  ro_initialize_wrapper_ : HRESULT;
  device_info_statics_ : bool;
  _deviceInformation : option device_information;
  _usingDeviceIndex : bool;
  _deviceIndex : Z;
  _deviceType : Z
}.

Record stream_format := mkFormat { _audioFrameSize : Z; _sampleRate : Z; _blockSize : Z; _channels : Z }.

(** [derived] holds the members of the derived class. *)
Record AudioDeviceHelper (D : Type) := mkHelper {
  device : DeviceHelper;
  _pAudioBuffer : bool;
  _mixerInitialized : bool;
  _transportInitialized : bool;
  _transporting : bool;
  format : stream_format;
  _samples : Z;
  _hStartedEvent : bool;
  _hShutdownEvent : bool;
  _hThread : option nat;
  _audioClient : bool;
  _simpleAudioVolume : bool;
  derived : D
}.
Arguments mkHelper {D}.
Arguments device {D}.
Arguments _pAudioBuffer {D}.
Arguments _mixerInitialized {D}.
Arguments _transportInitialized {D}.
Arguments _transporting {D}.
Arguments format {D}.
Arguments _samples {D}.
Arguments _hStartedEvent {D}.
Arguments _hShutdownEvent {D}.
Arguments _hThread {D}.
Arguments _audioClient {D}.
Arguments _simpleAudioVolume {D}.
Arguments derived {D}.

Record CaptureDeviceInternal := mkCapture {
  _audioCaptureClient : bool;
  _perfCounterFreq : Z;
  _perfCounterFactor : spec_float;
  capture_channelsPrioList : list Z
}.

(** Three members are not initialized by the constructor. *)
Record RenderDeviceInternal := mkRender {
  _audioRenderClient : bool;
  _deviceSampleRate : option Z;
  _deviceBlockSize : option Z;
  render_channelsPrioList : list Z;
  _sndCardDelay : option Z
}.

(** *** Assignments *)

Definition set_deviceInformation (i : option device_information) (d : DeviceHelper) : DeviceHelper :=
  mkDeviceHelper (ro_initialize_wrapper_ d) (device_info_statics_ d) i (_usingDeviceIndex d) (_deviceIndex d) (_deviceType d).
Definition use_index (i : Z) (d : DeviceHelper) : DeviceHelper :=
  mkDeviceHelper (ro_initialize_wrapper_ d) (device_info_statics_ d) (_deviceInformation d) true i (_deviceType d).
Definition use_type (t : Z) (d : DeviceHelper) : DeviceHelper :=
  mkDeviceHelper (ro_initialize_wrapper_ d) (device_info_statics_ d) (_deviceInformation d) false (_deviceIndex d) t.

Section Assignments.
Context {D : Type}.
Implicit Type h : AudioDeviceHelper D.

Definition set_device (f : DeviceHelper -> DeviceHelper) h :=
  mkHelper (f (device h)) (_pAudioBuffer h) (_mixerInitialized h) (_transportInitialized h) (_transporting h) (format h)
    (_samples h) (_hStartedEvent h) (_hShutdownEvent h) (_hThread h) (_audioClient h) (_simpleAudioVolume h) (derived h).
Definition set_audio_buffer (b : bool) h :=
  mkHelper (device h) b (_mixerInitialized h) (_transportInitialized h) (_transporting h) (format h)
    (_samples h) (_hStartedEvent h) (_hShutdownEvent h) (_hThread h) (_audioClient h) (_simpleAudioVolume h) (derived h).
Definition set_mixerInitialized (b : bool) h :=
  mkHelper (device h) (_pAudioBuffer h) b (_transportInitialized h) (_transporting h) (format h)
    (_samples h) (_hStartedEvent h) (_hShutdownEvent h) (_hThread h) (_audioClient h) (_simpleAudioVolume h) (derived h).
Definition set_transportInitialized (b : bool) h :=
  mkHelper (device h) (_pAudioBuffer h) (_mixerInitialized h) b (_transporting h) (format h)
    (_samples h) (_hStartedEvent h) (_hShutdownEvent h) (_hThread h) (_audioClient h) (_simpleAudioVolume h) (derived h).
Definition set_transporting (b : bool) h :=
  mkHelper (device h) (_pAudioBuffer h) (_mixerInitialized h) (_transportInitialized h) b (format h)
    (_samples h) (_hStartedEvent h) (_hShutdownEvent h) (_hThread h) (_audioClient h) (_simpleAudioVolume h) (derived h).
Definition set_format (f : stream_format) h :=
  mkHelper (device h) (_pAudioBuffer h) (_mixerInitialized h) (_transportInitialized h) (_transporting h) f
    (_samples h) (_hStartedEvent h) (_hShutdownEvent h) (_hThread h) (_audioClient h) (_simpleAudioVolume h) (derived h).
Definition set_channels (c : Z) h :=
  set_format (mkFormat (_audioFrameSize (format h)) (_sampleRate (format h)) (_blockSize (format h)) c) h.
Definition set_samples (n : Z) h :=
  mkHelper (device h) (_pAudioBuffer h) (_mixerInitialized h) (_transportInitialized h) (_transporting h) (format h)
    n (_hStartedEvent h) (_hShutdownEvent h) (_hThread h) (_audioClient h) (_simpleAudioVolume h) (derived h).
Definition set_startedEvent (b : bool) h :=
  mkHelper (device h) (_pAudioBuffer h) (_mixerInitialized h) (_transportInitialized h) (_transporting h) (format h)
    (_samples h) b (_hShutdownEvent h) (_hThread h) (_audioClient h) (_simpleAudioVolume h) (derived h).
Definition set_shutdownEvent (b : bool) h :=
  mkHelper (device h) (_pAudioBuffer h) (_mixerInitialized h) (_transportInitialized h) (_transporting h) (format h)
    (_samples h) (_hStartedEvent h) b (_hThread h) (_audioClient h) (_simpleAudioVolume h) (derived h).
Definition set_thread (t : option nat) h :=
  mkHelper (device h) (_pAudioBuffer h) (_mixerInitialized h) (_transportInitialized h) (_transporting h) (format h)
    (_samples h) (_hStartedEvent h) (_hShutdownEvent h) t (_audioClient h) (_simpleAudioVolume h) (derived h).
Definition set_audioClient (b : bool) h :=
  mkHelper (device h) (_pAudioBuffer h) (_mixerInitialized h) (_transportInitialized h) (_transporting h) (format h)
    (_samples h) (_hStartedEvent h) (_hShutdownEvent h) (_hThread h) b (_simpleAudioVolume h) (derived h).
Definition set_simpleAudioVolume (b : bool) h :=
  mkHelper (device h) (_pAudioBuffer h) (_mixerInitialized h) (_transportInitialized h) (_transporting h) (format h)
    (_samples h) (_hStartedEvent h) (_hShutdownEvent h) (_hThread h) (_audioClient h) b (derived h).
Definition set_derived (d : D) h :=
  mkHelper (device h) (_pAudioBuffer h) (_mixerInitialized h) (_transportInitialized h) (_transporting h) (format h)
    (_samples h) (_hStartedEvent h) (_hShutdownEvent h) (_hThread h) (_audioClient h) (_simpleAudioVolume h) d.

End Assignments.

(** ** [DeviceHelper] *)

Module Devices.
Section Devices.
Context `{WinRT} `{Unicode} `{AudioSystem} {D : Type} (DEVICE_CLASS : DeviceClass).
Abbreviation helper := (AudioDeviceHelper D).

(** [WaitForAsyncOperation] of audio_device_core_win.h has the body of its namesake in
    help_functions_winrt.h, and so has [WaitForASyncWithEvent]. *)
Definition WaitForAsyncOperation {S} (a : async) : com S unit := WaitForAsync a 180000.

(** The collection of the devices of the class. *)
Definition find_all {S} (statics : bool) : com S (list device_information) :=
  non_null statics ;;
  async_op ← invoke_async (Call "FindAllAsyncDeviceClass" [class_number DEVICE_CLASS]);
  WaitForAsyncOperation async_op ;;
  h ← history;
  getter "GetResults" (FindAll h DEVICE_CLASS).

Definition get_Size {S} (device_collection : list device_information) : com S Z :=
  getter "get_Size" (Z.of_nat (length device_collection)).

Definition Devices : com helper Z :=
  this ← get;
  device_count ← attempt (
    set_hr (ro_initialize_wrapper_ (device this)) ;;
    device_collection ← find_all (device_info_statics_ (device this));
    get_Size device_collection);
  mret (static_cast Int16 (default 0 device_count)).

(** The arrays of the caller of [DeviceName]; none is a null pointer. *)
Record name_arrays := mkNames { name : option bytes; guid : option bytes }.
Definition kAdmMaxDeviceNameSize : Z := 128.
Definition kAdmMaxGuidSize : Z := 128.

(** [std::copy_n] to the beginning of an array. *)
Definition copy_n (s : bytes) (length : Z) (array : option bytes) : option (option bytes) :=
  if length <=? 0 then Some array
  else a ← array; guard_b (length <=? Z.of_nat (List.length a)) (Some (Some (take (Z.to_nat length) s ++ drop (Z.to_nat length) a))).

(** [a[i] = '\0']. *)
Definition terminate_at (i : Z) (array : option bytes) : option (option bytes) :=
  a ← array; guard_b (i <? Z.of_nat (List.length a)) (Some (Some (<[Z.to_nat i := 0]> a))).

Definition modify_defined {S} (f : S -> option S) : com S unit := fun s w =>
  match f s with Some s' => (s', w, Good S_OK tt) | None => (s, w, Undefined) end.

Definition store_name (device_name : wstring) : com name_arrays unit :=
  let nameUFT8 := ToUtf8 device_name in
  let length := Z.min (Z.of_nat (length nameUFT8)) (kAdmMaxDeviceNameSize - 1) in
  modify_defined (fun m => g ← copy_n nameUFT8 length (guid m); n ← terminate_at length (name m); Some (mkNames n g)).

Definition store_guid (id : wstring) : com name_arrays unit :=
  let idUFT8 := ToUtf8 id in
  let length := Z.min (Z.of_nat (length idUFT8)) (kAdmMaxGuidSize - 1) in
  modify_defined (fun m => g ← copy_n idUFT8 length (guid m); g ← terminate_at length g; Some (mkNames (name m) g)).

Definition default_index (index : Z) : Z := if index =? 65535 then 0 else index.

Definition DeviceName_arrays (statics : bool) (index : Z) : com name_arrays Z := cleanup (
  device_collection ← find_all statics;
  device_count ← get_Size device_collection;
  let index := default_index index in
  if device_count <=? index then mret (-1) else
  match device_collection !! Z.to_nat index with
  | None => undefined
  | Some info =>
      method "IVectorView::GetAt" ;;
      arrays ← get;
      (if bool_decide (name arrays = None) then mret tt
       else n ← getter "get_Name" (device_name info); store_name n) ;;
      (if bool_decide (guid arrays = None) then mret tt
       else id ← getter "get_Id" (device_id info); store_guid id) ;;
      mret 0
  end).

Definition DeviceName (index : Z) (arrays : name_arrays) : com helper (name_arrays * Z) :=
  this ← get;
  local arrays (DeviceName_arrays (device_info_statics_ (device this)) index).

(** *** Selection *)

(** A call that stores a device through [&_deviceInformation], which is released first. *)
Definition get_device (name : string) (info : device_information) : com helper unit :=
  modify (set_device (set_deviceInformation None)) ;;
  method name ;;
  modify (set_device (set_deviceInformation (Some info))).

Definition SetDevice_index (index : Z) : com helper Z := cleanup (
  this ← get;
  device_collection ← find_all (device_info_statics_ (device this));
  let index := default_index index in
  device_count ← get_Size device_collection;
  if device_count <=? index then mret (-1) else
  match device_collection !! Z.to_nat index with
  | None => undefined
  | Some info =>
      get_device "IVectorView::GetAt" info ;;
      modify (set_device (use_index index)) ;;
      mret 0
  end).

Definition kDefaultCommunicationDevice : Z := -1.
Definition kDefaultDevice : Z := -2.

Definition role_of (windowsDeviceType : Z) : option AudioDeviceRole :=
  if windowsDeviceType =? kDefaultCommunicationDevice then Some AudioDeviceRole_Communications
  else if windowsDeviceType =? kDefaultDevice then Some AudioDeviceRole_Default else None.

Definition SetDevice_type (windowsDeviceType : Z) : com helper Z :=
  match role_of windowsDeviceType with
  | None => mret (-1)
  | Some audioDeviceRole => cleanup (
      method "GetActivationFactory(MediaDevice)" ;;
      h ← history;
      invoke (Call "GetDefaultAudioId" [class_number DEVICE_CLASS; role_number audioDeviceRole]) ;;
      let audio_device_id := DefaultId h DEVICE_CLASS audioDeviceRole in
      if (length audio_device_id =? 0)%nat then mret (-1) else
      this ← get;
      non_null (device_info_statics_ (device this)) ;;
      async_operation ← invoke_async (Call "CreateFromIdAsync" audio_device_id);
      WaitForAsyncOperation async_operation ;;
      h ← history;
      get_device "GetResults" (CreateFromId h audio_device_id) ;;
      modify (set_device (use_type windowsDeviceType)) ;;
      mret 0)
  end.

(** The device of the object: [GetDevice]. *)
Definition GetDevice (h : helper) : option device_information := _deviceInformation (device h).

End Devices.
End Devices.

(** ** [AudioDeviceHelper] *)

Module Helper.
Section Helper.
Context `{WinRT} `{AudioSystem} {D : Type} (DEVICE_CLASS : DeviceClass).
Abbreviation helper := (AudioDeviceHelper D).

(** The constructors of [DeviceHelper] and [AudioDeviceHelper]. *)
Definition new_helper {S} (d : D) : com S (AudioDeviceHelper D) :=
  ro ← returned (method "RoInitialize");
  factory ← attempt (method "GetActivationFactory(DeviceInformation)");
  mret (mkHelper (mkDeviceHelper ro (bool_decide (is_Some factory)) None false 65535 0)
    false false false false (mkFormat 0 0 0 2) 0 false false None false false d).

(** *** Initialization of the mixer *)

(** [CCompletionDelegate::Wait]. *)
Definition CCompletionDelegate_Wait {S} (activation : async) (timeout : option Z) : com S unit :=
  r ← WaitForSingleObjectEx (signaled_at activation) timeout;
  h ← history;
  set_hr (match r with
          | WAIT_OBJECT_0 => S_OK
          | WAIT_TIMEOUT => HRESULT_FROM_WIN32 ERROR_TIMEOUT
          | WAIT_FAILED => HRESULT_FROM_WIN32 (GetLastError h)
          end).

(** [CCompletionDelegate::GetActivateResult] returns what the activation stored. *)
Definition CCompletionDelegate_GetActivateResult {S} (activation : async) : com S unit := set_hr (error_code activation).

Definition activate_client : com helper Z := cleanup (
  this ← get;
  match Devices.GetDevice this with
  | None => undefined
  | Some info =>
      device_id ← attempt (getter "get_Id" (device_id info));
      asyncOp ← invoke_async (Call "ActivateAudioInterfaceAsync" (default [] device_id));
      CCompletionDelegate_Wait asyncOp None ;;
      CCompletionDelegate_GetActivateResult asyncOp ;;
      modify (set_audioClient false) ;;
      method "QueryInterface(IAudioClient2)" ;;
      modify (set_audioClient true) ;;
      method "IAudioClient2::SetClientProperties" ;;
      modify (set_mixerInitialized true) ;;
      mret 0
  end).

Definition InitMixer : com helper Z :=
  this ← get;
  if _mixerInitialized this then mret 0
  else if (_transporting this || bool_decide (Devices.GetDevice this = None))%bool then mret (-1)
  else
    let by_index := _usingDeviceIndex (device this) in
    nDevices ← (if by_index then Devices.Devices DEVICE_CLASS else mret 0);
    if (by_index && (nDevices - 1 <? _deviceIndex (device this)))%bool then mret (-1) else
    this ← get;
    ret ← (if by_index then Devices.SetDevice_index DEVICE_CLASS (_deviceIndex (device this))
           else Devices.SetDevice_type DEVICE_CLASS (_deviceType (device this)));
    if negb (ret =? 0) then mret (-1) else activate_client.

(** *** Starting and stopping the thread

    Each is cut where it waits: for the event of the start, for the end of the thread. *)

(** Up to the wait; a value is returned without waiting.  The new thread is [id]. *)
Definition StartTransport_begin (id : nat) : com helper (option Z) :=
  this ← get;
  if negb (_transportInitialized this) then mret (Some (-1))
  else if bool_decide (_hThread this ≠ None) then mret (Some 0)
  else if _transporting this then mret (Some 0)
  else
    h ← history;
    if CreateThread h then
      modify (set_thread (Some id)) ;;
      call_out (Call "SetThreadPriority" []) ;;
      mret None
    else mret (Some (-1)).

Definition StopTransport_begin : com helper (option Z) :=
  this ← get;
  if negb (_transporting this) then mret (Some 0)
  else if bool_decide (_hThread this = None) then
    modify (set_transporting false) ;; mret (Some 0)
  else modify (set_shutdownEvent true) ;; mret None.

(** After the wait for the thread: whether it has terminated. *)
Definition StopTransport_end (terminated : bool) : com helper Z :=
  if terminated then
    modify (set_shutdownEvent false) ;;
    modify (set_transporting false) ;;
    modify (set_thread None) ;;
    mret 0
  else
    modify (set_thread None) ;;
    modify (set_transporting false) ;;
    mret (-1).

(** After the wait for the start: with a value, the start returns; otherwise it waits in
    [StopTransport] and then returns -1. *)
Definition StartTransport_end (started : bool) : com helper (option Z) :=
  if started then modify (set_transporting true) ;; mret (Some 0)
  else
    modify (set_transporting true) ;;
    r ← StopTransport_begin;
    mret (match r with Some _ => Some (-1) | None => None end).

(** The functions as a whole, for a caller that sees only the results of the waits. *)
Definition StopTransport : com helper Z :=
  r ← StopTransport_begin;
  match r with
  | Some r => mret r
  | None => h ← history; StopTransport_end (thread_ended h)
  end.

Definition StartTransport (id : nat) : com helper Z :=
  r ← StartTransport_begin id;
  match r with
  | Some r => mret r
  | None =>
      h ← history;
      r ← StartTransport_end (thread_started h);
      match r with
      | Some r => mret r
      | None => h ← history; StopTransport_end (thread_ended h) ;; mret (-1)
      end
  end.

(** *** Volume, mute, stereo

    A value stored through a reference is [Some]. *)

Definition MIN_CORE_SPEAKER_VOLUME : Z := 0.
Definition MAX_CORE_SPEAKER_VOLUME : Z := 100.

(** Returns -1 unless the transport is initialized. *)
Definition if_initialized {A} (m : helper -> com helper (option A * Z)) : com helper (option A * Z) :=
  this ← get; if _transportInitialized this then m this else mret (None, -1).

(** A call on [_simpleAudioVolume]. *)
Definition volume_call (this : helper) (c : call) : com helper HRESULT :=
  non_null (_simpleAudioVolume this) ;; returned (invoke c).

(** TransportIsAvailable returns [true] and stores nothing. *)
Definition TransportIsAvailable : com helper (option bool * Z) := mret (None, b2z true).

Definition VolumeIsAvailable : com helper (option bool * Z) := if_initialized (fun this =>
  hr ← volume_call this (Call "GetMasterVolume" []); mret (Some (SUCCEEDED hr), 0)).

(** [volume / static_cast<float>(MAX_CORE_SPEAKER_VOLUME)]. *)
Definition level_of_volume (volume : Z) : spec_float := f_div Float (of_int Float volume) (of_int Float MAX_CORE_SPEAKER_VOLUME).

(** [volume = fLevel * MAX_CORE_SPEAKER_VOLUME]. *)
Definition volume_of_level (fLevel : spec_float) : option Z :=
  float_to_int Uint32 (f_mul Float fLevel (of_int Float MAX_CORE_SPEAKER_VOLUME)).

Definition SetVolume (volume : Z) : com helper (option unit * Z) := if_initialized (fun this =>
  if ((volume <? MIN_CORE_SPEAKER_VOLUME) || (MAX_CORE_SPEAKER_VOLUME <? volume))%bool then mret (None, -1) else
  hr ← volume_call this (Call "SetMasterVolume" (float_arguments (level_of_volume volume)));
  mret (None, if FAILED hr then -1 else 0)).

Definition Volume : com helper (option Z * Z) := if_initialized (fun this =>
  h ← history;
  hr ← volume_call this (Call "GetMasterVolume" []);
  if FAILED hr then mret (None, -1) else
  match volume_of_level (MasterVolume h) with
  | None => undefined
  | Some volume => mret (Some volume, 0)
  end).

Definition MaxVolume : com helper (option Z * Z) := if_initialized (fun _ => mret (Some MAX_CORE_SPEAKER_VOLUME, 0)).
Definition MinVolume : com helper (option Z * Z) := if_initialized (fun _ => mret (Some MIN_CORE_SPEAKER_VOLUME, 0)).

Definition MuteIsAvailable : com helper (option bool * Z) := if_initialized (fun this =>
  hr ← volume_call this (Call "GetMute" []); mret (Some (SUCCEEDED hr), 0)).

Definition SetMute (enable : bool) : com helper (option unit * Z) := if_initialized (fun this =>
  hr ← volume_call this (Call "SetMute" [b2z enable]); mret (None, if FAILED hr then -1 else 0)).

Definition Mute : com helper (option bool * Z) := if_initialized (fun this =>
  h ← history;
  hr ← volume_call this (Call "GetMute" []);
  if FAILED hr then mret (None, -1) else mret (Some (SessionMute h), 0)).

Definition StereoIsAvailable : com helper (option bool * Z) :=
  this ← get; if _mixerInitialized this then mret (Some true, 0) else mret (None, -1).

Definition Stereo : com helper (option bool * Z) :=
  this ← get; mret (Some (_channels (format this) =? 2), 0).

(** *** Formats *)

Record WAVEFORMATEX := mkWfx { nChannels : Z; nSamplesPerSec : Z; nBlockAlign : Z; nAvgBytesPerSec : Z }.
Definition no_format : WAVEFORMATEX := mkWfx 0 0 0 0.

(** 16 bits per sample. *)
Definition wave_format (channels rate : Z) : WAVEFORMATEX :=
  let align := static_cast Uint16 (channels * 16 / 8) in
  mkWfx channels rate align (static_cast Uint32 (rate * align)).

Definition format_arguments (f : WAVEFORMATEX) : list Z := [nChannels f; nSamplesPerSec f; nBlockAlign f; nAvgBytesPerSec f].

Definition freqs : list Z := [48000; 44100; 16000; 96000; 32000; 24000; 8000].

(** The loop over the channels, and the loop over the rates around it: the last format
    that was tried, and whether it is supported. *)
Fixpoint try_channels {S} (rate : Z) (channels : list Z) (tried : WAVEFORMATEX * bool) : com S (WAVEFORMATEX * bool) :=
  match channels with
  | [] => mret tried
  | c :: channels =>
      let Wfx := wave_format c rate in
      hr ← returned (invoke (Call "IsFormatSupported" (format_arguments Wfx)));
      if decide (hr = S_OK) then mret (Wfx, true) else try_channels rate channels (Wfx, false)
  end.

Fixpoint try_rates {S} (rates channels : list Z) (tried : WAVEFORMATEX * bool) : com S (WAVEFORMATEX * bool) :=
  match rates with
  | [] => mret tried
  | r :: rates =>
      tried ← try_channels r channels tried;
      if (tried.2 : bool) then mret tried else try_rates rates channels tried
  end.

Definition AUDCLNT_STREAMFLAGS_EVENTCALLBACK : Z := 0x00040000.
Definition AUDCLNT_STREAMFLAGS_NOPERSIST : Z := 0x00080000.

(** [IAudioClient::Initialize]. *)
Definition Initialize {S} (flags duration : Z) (Wfx : WAVEFORMATEX) : com S unit :=
  invoke (Call "IAudioClient::Initialize" ([flags; duration] ++ format_arguments Wfx)).

End Helper.
End Helper.

Definition update_derived {D} (f : D -> D) : com (AudioDeviceHelper D) unit := modify (fun h => set_derived (f (derived h)) h).
Definition u32 (z : Z) : Z := static_cast Uint32 z.

(** The channels to try, in order, after [SetStereo]. *)
Definition stereo_first (enable : bool) (l : list Z) : list Z := if enable then <[0%nat := 2]> (<[1%nat := 1]> l) else <[0%nat := 1]> (<[1%nat := 2]> l).

(** ** [CaptureDeviceInternal] *)

Module CaptureDevice.
Section CaptureDevice.
Context `{WinRT} `{AudioSystem}.
Abbreviation helper := (AudioDeviceHelper CaptureDeviceInternal).

(** The constructor. *)
Definition capture_members : CaptureDeviceInternal := mkCapture false 1 (S754_zero false) [2; 1; 4].

Definition AttachAudioBuffer (audioBuffer : bool) : com helper unit :=
  modify (set_audio_buffer audioBuffer) ;;
  non_null audioBuffer ;;
  call_out (Call "SetRecordingSampleRate" [0]) ;;
  call_out (Call "SetRecordingChannels" [0]).

Definition set_perf (freq : Z) (factor : spec_float) (d : CaptureDeviceInternal) : CaptureDeviceInternal :=
  mkCapture (_audioCaptureClient d) freq factor (capture_channelsPrioList d).
Definition set_captureClient (b : bool) (d : CaptureDeviceInternal) : CaptureDeviceInternal :=
  mkCapture b (_perfCounterFreq d) (_perfCounterFactor d) (capture_channelsPrioList d).
Definition set_priorities (l : list Z) (d : CaptureDeviceInternal) : CaptureDeviceInternal :=
  mkCapture (_audioCaptureClient d) (_perfCounterFreq d) (_perfCounterFactor d) l.

(** From [GetMixFormat] on. *)
Definition open_stream : com helper Z := cleanup (
  this ← get;
  non_null (_audioClient this) ;;
  returned (method "IAudioClient::GetMixFormat") ;;
  found ← Helper.try_rates Helper.freqs (capture_channelsPrioList (derived this)) (Helper.no_format, false);
  let Wfx : Helper.WAVEFORMATEX := found.1 in
  when found.2 (modify (set_format (mkFormat (Helper.nBlockAlign Wfx) (Helper.nSamplesPerSec Wfx)
    (Helper.nSamplesPerSec Wfx / 100) (Helper.nChannels Wfx)))) ;;
  Helper.Initialize (Z.lor Helper.AUDCLNT_STREAMFLAGS_EVENTCALLBACK Helper.AUDCLNT_STREAMFLAGS_NOPERSIST) 0 Wfx ;;
  this ← get;
  when (_pAudioBuffer this) (
    call_out (Call "SetRecordingSampleRate" [_sampleRate (format this)]) ;;
    call_out (Call "SetRecordingChannels" [static_cast Uint8 (_channels (format this))])) ;;
  returned (method "IAudioClient::GetBufferSize") ;;
  method "IAudioClient::SetEventHandle" ;;
  update_derived (set_captureClient false) ;;
  method "GetService(IAudioCaptureClient)" ;;
  update_derived (set_captureClient true) ;;
  modify (set_transportInitialized true) ;;
  mret 0).

Definition InitTransport : com helper Z :=
  this ← get;
  if _transporting this then mret (-1)
  else if _transportInitialized this then mret 0
  else
    h ← history;
    if QueryPerformanceFrequency h =? 0 then
      update_derived (fun d => set_perf 0 (_perfCounterFactor d) d) ;; mret (-1)
    else
      update_derived (set_perf (QueryPerformanceFrequency h)
        (f_div Double (of_int Double 10000000) (of_int Double (QueryPerformanceFrequency h)))) ;;
      if bool_decide (Devices.GetDevice this = None) then mret (-1) else
      Helper.InitMixer DeviceClass_AudioCapture ;;
      this ← get;
      if bool_decide (Devices.GetDevice this = None) then mret (-1) else open_stream.

Definition SetStereo (enable : bool) : com helper Z :=
  this ← get;
  if negb (_mixerInitialized this) then mret (-1)
  else
    update_derived (fun d => set_priorities (stereo_first enable (capture_channelsPrioList d)) d) ;;
    modify (set_channels (if enable then 2 else 1)) ;;
    mret 0.

End CaptureDevice.
End CaptureDevice.

(** ** [RenderDeviceInternal] *)

Module RenderDevice.
Section RenderDevice.
Context `{WinRT} `{AudioSystem}.
Abbreviation helper := (AudioDeviceHelper RenderDeviceInternal).

Definition render_members : RenderDeviceInternal := mkRender false None None [2; 1] None.

Definition AttachAudioBuffer (audioBuffer : bool) : com helper unit :=
  modify (set_audio_buffer audioBuffer) ;;
  non_null audioBuffer ;;
  call_out (Call "SetPlayoutSampleRate" [0]) ;;
  call_out (Call "SetPlayoutChannels" [0]).

Definition set_renderClient (b : bool) (d : RenderDeviceInternal) : RenderDeviceInternal :=
  mkRender b (_deviceSampleRate d) (_deviceBlockSize d) (render_channelsPrioList d) (_sndCardDelay d).
Definition set_device_format (rate block : Z) (d : RenderDeviceInternal) : RenderDeviceInternal :=
  mkRender (_audioRenderClient d) (Some rate) (Some block) (render_channelsPrioList d) (_sndCardDelay d).
Definition set_priorities (l : list Z) (d : RenderDeviceInternal) : RenderDeviceInternal :=
  mkRender (_audioRenderClient d) (_deviceSampleRate d) (_deviceBlockSize d) l (_sndCardDelay d).
Definition set_delay (delay : Z) (d : RenderDeviceInternal) : RenderDeviceInternal :=
  mkRender (_audioRenderClient d) (_deviceSampleRate d) (_deviceBlockSize d) (render_channelsPrioList d) (Some delay).

Definition open_stream : com helper Z := cleanup (
  this ← get;
  non_null (_audioClient this) ;;
  returned (method "IAudioClient::GetMixFormat") ;;
  found ← Helper.try_rates Helper.freqs (render_channelsPrioList (derived this)) (Helper.no_format, false);
  let Wfx : Helper.WAVEFORMATEX := found.1 in
  when found.2 (
    modify (set_format (mkFormat (Helper.nBlockAlign Wfx) (Helper.nSamplesPerSec Wfx)
      (Helper.nSamplesPerSec Wfx / 100) (Helper.nChannels Wfx))) ;;
    update_derived (set_device_format (Helper.nSamplesPerSec Wfx) (Helper.nSamplesPerSec Wfx / 100))) ;;
  this ← get;
  match _deviceSampleRate (derived this) with
  | None => undefined
  | Some rate =>
      let hnsBufferDuration := if rate =? 44100 then 30 * 10000 else 0 in
      Helper.Initialize Helper.AUDCLNT_STREAMFLAGS_EVENTCALLBACK hnsBufferDuration Wfx
  end ;;
  when (_pAudioBuffer this) (
    call_out (Call "SetPlayoutSampleRate" [_sampleRate (format this)]) ;;
    call_out (Call "SetPlayoutChannels" [static_cast Uint8 (_channels (format this))])) ;;
  returned (method "IAudioClient::GetBufferSize") ;;
  method "IAudioClient::SetEventHandle" ;;
  update_derived (set_renderClient false) ;;
  method "GetService(IAudioRenderClient)" ;;
  update_derived (set_renderClient true) ;;
  modify (set_simpleAudioVolume false) ;;
  method "GetService(ISimpleAudioVolume)" ;;
  modify (set_simpleAudioVolume true) ;;
  modify (set_transportInitialized true) ;;
  mret 0).

Definition InitTransport : com helper Z :=
  this ← get;
  if _transporting this then mret (-1)
  else if _transportInitialized this then mret 0
  else if bool_decide (Devices.GetDevice this = None) then mret (-1)
  else
    Helper.InitMixer DeviceClass_AudioRender ;;
    this ← get;
    if bool_decide (Devices.GetDevice this = None) then mret (-1) else open_stream.

Definition SetStereo (enable : bool) : com helper Z :=
  this ← get;
  if negb (_mixerInitialized this) then mret (-1)
  else
    update_derived (fun d => set_priorities (stereo_first enable (render_channelsPrioList d)) d) ;;
    modify (set_channels (if enable then 2 else 1)) ;;
    mret 0.

End RenderDevice.
End RenderDevice.

(** ** Steps of computations *)

Lemma bind_value {S A B} (m : com S A) a (f : A -> com S B) s w hr : m s w = (s, w, Good hr a) -> (m ≫= f) s w = f a s w.
Proof. intros Hm. unfold mbind, com_bind. by rewrite Hm. Qed.

Section Steps.
Context `{WinRT}.

Lemma bind_returned {S B} c (f : HRESULT -> com S B) s w :
  (returned (invoke c) ≫= f) s w = f (result (trace w) c) s (record c (result (trace w) c) w).
Proof. unfold mbind, com_bind, returned, invoke. by destruct (SUCCEEDED _). Qed.

Lemma getter_good {S A} n (x : A) (s : S) w s' w' hr a : getter n x s w = (s', w', Good hr a) -> s' = s /\ a = x.
Proof. unfold getter, then_value, then_keep, method, invoke. destruct (SUCCEEDED _); [|done]. by intros [= <- <- <- <-]. Qed.

Lemma returned_good {S} c (s : S) w s' w' hr a : returned (invoke c) s w = (s', w', Good hr a) -> s' = s.
Proof. unfold returned, invoke. destruct (SUCCEEDED _); by intros [= <- <- <- <-]. Qed.

End Steps.

(** ** What calls keep

    [kept f]: the value of [f] on the members of the object is the same before and after. *)

Definition kept {S T} (f : S -> T) (x y : S * world) : Prop := f y.1 = f x.1.

#[export] Instance kept_preorder {S T} (f : S -> T) : PreOrder (kept f).
Proof. split; [done|]. unfold kept. intros x y z -> ->. done. Qed.

#[export] Instance kept_neutral `{WinRT} {S T} (f : S -> T) : Neutral (kept f).
Proof. split; by intros. Qed.

Lemma kept_allows `{WinRT} {S T} (f : S -> T) c : allows (kept f) c.
Proof. by intros s w. Qed.

Lemma kept_result {S T A} (f : S -> T) (m : com S A) s w s' w' o : preserves (kept f) m -> m s w = (s', w', o) -> f s' = f s.
Proof. intros Hm Heq. specialize (Hm s w). by rewrite Heq in Hm. Qed.

Section Rules.
Context {S : Type} (R : S * world -> S * world -> Prop) `{!PreOrder R}.

Lemma preserves_cleanup m : preserves R m -> preserves R (cleanup m).
Proof. unfold cleanup. eauto with winrt. Qed.

Lemma preserves_if {A} (b : bool) (m1 m2 : com S A) : preserves R m1 -> preserves R m2 -> preserves R (if b then m1 else m2).
Proof. by destruct b. Qed.

Lemma preserves_non_null b : preserves R (non_null b).
Proof. destruct b; eauto with winrt. Qed.

End Rules.

Lemma preserves_local {S T A U} (f : S -> U) (t : T) (m : com T A) : 
  preserves (kept f) (local t m).
Proof. intros s w. unfold local. destruct (m t w) as [[t' w'] []]; done. Qed.

#[export] Hint Extern 2 (preserves _ (WaitForSingleObjectEx _ None)) => (apply preserves_wait; [typeclasses eauto|typeclasses eauto|exact I]) : winrt.
#[export] Hint Extern 2 (preserves _ (WaitForAsync _ _)) => (apply preserves_WaitForAsync; [typeclasses eauto|typeclasses eauto|lia]) : winrt.
#[export] Hint Resolve preserves_cleanup preserves_non_null preserves_local kept_allows preserves_call_out : winrt.
#[export] Hint Extern 2 (preserves (kept _) (modify _)) => (apply preserves_modify; intros ? ?; reflexivity) : winrt.
#[export] Hint Extern 2 (preserves (kept _) (update_derived _)) => (apply preserves_modify; intros ? ?; reflexivity) : winrt.
#[export] Hint Extern 3 (preserves _ (if ?b then _ else _)) => destruct b : winrt.
#[export] Hint Extern 3 (preserves _ (match ?o with Some _ => _ | None => _ end)) => destruct o : winrt.
#[export] Hint Extern 3 (preserves _ (match ?l with [] => _ | _ :: _ => _ end)) => destruct l : winrt.

(** Proofs of [preserves], step by step. *)
Ltac keep := repeat (cbv zeta; first
  [ solve [eauto 4 with winrt]
  | apply preserves_bind; [typeclasses eauto| |intros ?]
  | apply preserves_cleanup; [typeclasses eauto|]
  | apply preserves_attempt
  | apply preserves_returned
  | apply preserves_when; [typeclasses eauto|]
  | match goal with
    | |- preserves _ (if ?b then _ else _) => destruct b
    | |- preserves _ (match ?o with _ => _ end) => destruct o
    end ]).

(** The members that start and stop the thread. *)
Definition control {D} (h : AudioDeviceHelper D) := (_transporting h, _hThread h, _hShutdownEvent h, _hStartedEvent h).

(** The members that have nothing to do with the choice of the device and its client. *)
Definition unmixed {D} (h : AudioDeviceHelper D) :=
  (control h, format h, derived h, _pAudioBuffer h, _transportInitialized h, _simpleAudioVolume h).

Lemma unmixed_control {D A} (m : com (AudioDeviceHelper D) A) : preserves (kept unmixed) m -> preserves (kept control) m.
Proof. intros Hm s w. specialize (Hm s w). unfold kept, unmixed in *. congruence. Qed.

Section Kept.
Context `{WinRT} `{Unicode} `{AudioSystem} {D : Type} (DEVICE_CLASS : DeviceClass).

Lemma find_all_kept {S T} (f : S -> T) b : preserves (kept f) (Devices.find_all DEVICE_CLASS b).
Proof.
  unfold Devices.find_all. apply preserves_bind; [apply _|eauto with winrt|intros _].
  apply preserves_bind; [apply _|eauto with winrt|intros a].
  apply preserves_bind; [apply _|by apply preserves_WaitForAsync; [apply _|apply _|]|eauto with winrt].
Qed.

#[local] Hint Resolve find_all_kept : winrt.

Lemma get_device_unmixed n i : preserves (kept unmixed) (Devices.get_device (D := D) n i).
Proof. unfold Devices.get_device. eauto 10 with winrt. Qed.
#[local] Hint Resolve get_device_unmixed : winrt.

Lemma Devices_unmixed : preserves (kept unmixed) (Devices.Devices (D := D) DEVICE_CLASS).
Proof. unfold Devices.Devices, Devices.get_Size. keep. Qed.

Lemma SetDevice_index_unmixed i : preserves (kept unmixed) (Devices.SetDevice_index (D := D) DEVICE_CLASS i).
Proof. unfold Devices.SetDevice_index, Devices.get_Size. keep. Qed.

Lemma SetDevice_type_unmixed t : preserves (kept unmixed) (Devices.SetDevice_type (D := D) DEVICE_CLASS t).
Proof. unfold Devices.SetDevice_type, Devices.WaitForAsyncOperation. keep. Qed.


Lemma InitMixer_unmixed : preserves (kept unmixed) (Helper.InitMixer (D := D) DEVICE_CLASS).
Proof.
  unfold Helper.InitMixer. apply preserves_bind; [apply _|eauto with winrt|intros this].
  do 2 (apply preserves_if; [eauto with winrt|]). apply preserves_bind; [apply _| |intros n].
  { apply preserves_if; [apply Devices_unmixed|eauto with winrt]. }
  apply preserves_if; [eauto with winrt|]. apply preserves_bind; [apply _|eauto with winrt|intros this'].
  apply preserves_bind; [apply _|apply preserves_if; [apply SetDevice_index_unmixed|apply SetDevice_type_unmixed]|intros ret].
  apply preserves_if; [eauto with winrt|]. unfold Helper.activate_client, Helper.CCompletionDelegate_Wait, Helper.CCompletionDelegate_GetActivateResult.
  keep.
Qed.

Lemma Devices_kept : preserves (kept control) (Devices.Devices (D := D) DEVICE_CLASS).
Proof. apply unmixed_control, Devices_unmixed. Qed.

Lemma SetDevice_index_kept i : preserves (kept control) (Devices.SetDevice_index (D := D) DEVICE_CLASS i).
Proof. apply unmixed_control, SetDevice_index_unmixed. Qed.

Lemma SetDevice_type_kept t : preserves (kept control) (Devices.SetDevice_type (D := D) DEVICE_CLASS t).
Proof. apply unmixed_control, SetDevice_type_unmixed. Qed.

Lemma InitMixer_kept : preserves (kept control) (Helper.InitMixer (D := D) DEVICE_CLASS).
Proof. apply unmixed_control, InitMixer_unmixed. Qed.

Lemma SetVolume_kept v : preserves (kept control) (Helper.SetVolume (D := D) v).
Proof. unfold Helper.SetVolume, Helper.if_initialized, Helper.volume_call. keep. Qed.


Ltac kept_volume := unfold Helper.if_initialized, Helper.volume_call; keep.

Lemma Volume_kept : preserves (kept control) (Helper.Volume (D := D)).
Proof. unfold Helper.Volume. kept_volume. Qed.

Lemma VolumeIsAvailable_kept : preserves (kept control) (Helper.VolumeIsAvailable (D := D)).
Proof. unfold Helper.VolumeIsAvailable. kept_volume. Qed.

Lemma SetMute_kept b : preserves (kept control) (Helper.SetMute (D := D) b).
Proof. unfold Helper.SetMute. kept_volume. Qed.

Lemma Mute_kept : preserves (kept control) (Helper.Mute (D := D)).
Proof. unfold Helper.Mute. kept_volume. Qed.

Lemma MuteIsAvailable_kept : preserves (kept control) (Helper.MuteIsAvailable (D := D)).
Proof. unfold Helper.MuteIsAvailable. kept_volume. Qed.

Lemma DeviceName_kept i a : preserves (kept control) (Devices.DeviceName (D := D) DEVICE_CLASS i a).
Proof. unfold Devices.DeviceName. keep. Qed.

End Kept.

Section DevicesKept.
Context `{WinRT} `{AudioSystem}.

Lemma try_channels_kept {S T} (f : S -> T) rate channels tried : preserves (kept f) (Helper.try_channels rate channels tried).
Proof. revert tried. induction channels as [|c l IH]; intros tried; cbn [Helper.try_channels]; keep. Qed.

Lemma try_rates_kept {S T} (f : S -> T) rates channels tried : preserves (kept f) (Helper.try_rates rates channels tried).
Proof.
  revert tried. induction rates as [|r l IH]; intros tried; cbn [Helper.try_rates]; [keep|].
  apply preserves_bind; [apply _|apply try_channels_kept|intros t]. apply preserves_if; [keep|apply IH].
Qed.
#[local] Hint Resolve try_rates_kept InitMixer_kept : winrt.

Lemma capture_InitTransport_kept : preserves (kept control) CaptureDevice.InitTransport.
Proof. unfold CaptureDevice.InitTransport, CaptureDevice.open_stream, Helper.Initialize. keep. Qed.

Lemma render_InitTransport_kept : preserves (kept control) RenderDevice.InitTransport.
Proof. unfold RenderDevice.InitTransport, RenderDevice.open_stream, Helper.Initialize. keep. Qed.

Lemma capture_SetStereo_kept b : preserves (kept control) (CaptureDevice.SetStereo b).
Proof. unfold CaptureDevice.SetStereo. keep. Qed.

Lemma render_SetStereo_kept b : preserves (kept control) (RenderDevice.SetStereo b).
Proof. unfold RenderDevice.SetStereo. keep. Qed.

Lemma capture_AttachAudioBuffer_kept b : preserves (kept control) (CaptureDevice.AttachAudioBuffer b).
Proof. unfold CaptureDevice.AttachAudioBuffer. keep. Qed.

Lemma render_AttachAudioBuffer_kept b : preserves (kept control) (RenderDevice.AttachAudioBuffer b).
Proof. unfold RenderDevice.AttachAudioBuffer. keep. Qed.

End DevicesKept.

(** ** A sample environment

    One device of each kind; packets of 480 frames, one for each event; the client fails to
    start the first time if [start_fails]. *)

Module Example.

Definition calls_of (c : call) (h : list event) : nat := length (List.filter (fun e => bool_decide (e.1 = c)) h).

Definition audio_runtime (start_fails : bool) : WinRT := {|
  result h c :=
    if decide (c = Method "IAudioClient::Start") then (if (start_fails && (calls_of c h =? 0)%nat)%bool then E_FAIL else S_OK)
    else if decide (c = Call "IAudioCaptureClient::GetBuffer" []) then (if Nat.even (calls_of c h) then S_OK else hresult (0x08890001 + 2 ^ 32))
    else S_OK;
  operation w _ := one_async (now w);
  wait_fails _ := false;
  last_error_exists _ := false;
  has_thread_access _ := false;
  desktop := true
|}.

Definition sample_bytes (b : Z) : bytes := replicate 1920 b.

Definition audio_system : AudioSystem := {|
  FindAll _ _ := [mkDevice (wide "Microphone") (wide "{0.0.1}")];
  DefaultId _ _ _ := wide "{0.0.1}";
  CreateFromId _ id := mkDevice (wide "Microphone") id;
  GetLastError _ := 0;
  QueryPerformanceFrequency _ := 10000000;
  QueryPerformanceCounter h := 1000000 + 100000 * Z.of_nat (calls_of (Call "IAudioCaptureClient::GetBuffer" []) h);
  BufferSize _ := 480;
  StreamLatency _ := 50000;
  DevicePeriod _ := 100000;
  CurrentPadding h := if Nat.even (calls_of (Call "IAudioClient::GetCurrentPadding" []) h) then 0 else 480;
  Packet h := mkPacket (Some (sample_bytes (Z.of_nat (calls_of (Call "IAudioCaptureClient::GetBuffer" []) h)))) 480 false 900000;
  ClockPosition _ := 0;
  ClockFrequency _ := 48000;
  MasterVolume _ := Helper.level_of_volume 50;
  SessionMute _ := false;
  RequestPlayoutData _ := 480;
  CreateThread _ := true;
  thread_started _ := true;
  thread_ended _ := true;
  new_bytes _ _ := 0;
  sndCardDelay _ := Some 20
|}.

(** Text that is all ASCII. *)
Definition ascii_only : Unicode := {| utf8_to_utf16 s := Some s; utf16_to_utf8 w := Some w |}.

#[local] Existing Instance audio_system.

(** A device, selected and initialized; no device if that fails. *)
Definition no_helper {D} (d : D) : AudioDeviceHelper D :=
  mkHelper (mkDeviceHelper S_OK false None false 0 0) false false false false (mkFormat 0 0 0 0) 0 false false None false false d.

Section Devices.
Variable start_fails : bool.
#[local] Instance runtime : WinRT := audio_runtime start_fails.

Definition opened {D} (d : D) (m : com (AudioDeviceHelper D) Z) : AudioDeviceHelper D * world :=
  match Helper.new_helper d tt (mkWorld 0 []) with
  | (_, w, Good _ h) => (m h w).1
  | (_, w, _) => (no_helper d, w)
  end.

Definition microphone : AudioDeviceHelper CaptureDeviceInternal * world :=
  opened CaptureDevice.capture_members (
    CaptureDevice.AttachAudioBuffer true ;;
    Devices.SetDevice_index DeviceClass_AudioCapture 0 ;;
    CaptureDevice.InitTransport).

Definition speaker : AudioDeviceHelper RenderDeviceInternal * world :=
  opened RenderDevice.render_members (
    RenderDevice.AttachAudioBuffer true ;;
    Devices.SetDevice_index DeviceClass_AudioRender 65535 ;;
    RenderDevice.InitTransport).

End Devices.

End Example.
