(* ===== verification/AudioCore.v ===== *)
(** * AudioCore: AudioDeviceWindowsCore

    The object that libwebrtc calls, of audio_device/win/audio_device_core_win.{h,cc} of the
    patches: it owns a device for recording and a device for playing, which exist between
    [Init] and [Terminate], and passes every call on to one of them.

    Every call but a few that only read takes the critical section of the object; calls are
    in sequence here, and [AudioThreads] interleaves them with the threads. *)

From S2P Require Import Prelude IntTypes HResult FloatTypes WinRT AudioDevice.
Open Scope Z_scope.

(** ** State *)

(** A pointer to an object that was never made, to an object, to a deleted object. *)
Inductive pointer (A : Type) := Null | Live (a : A) | Dangling.
Arguments Null {A}.
Arguments Live {A} a.
Arguments Dangling {A}.

Record AudioDeviceWindowsCoreInternal := mkCore {
  core_pAudioBuffer : bool;
  _initialized : bool;
  _pCaptureDeviceHelper : pointer (AudioDeviceHelper CaptureDeviceInternal);
  _pRenderDeviceHelper : pointer (AudioDeviceHelper RenderDeviceInternal);
  _roInitializeWrapper : HRESULT
}.

Definition set_core_buffer (b : bool) (c : AudioDeviceWindowsCoreInternal) : AudioDeviceWindowsCoreInternal :=
  mkCore b (_initialized c) (_pCaptureDeviceHelper c) (_pRenderDeviceHelper c) (_roInitializeWrapper c).
Definition set_initialized (b : bool) (c : AudioDeviceWindowsCoreInternal) : AudioDeviceWindowsCoreInternal :=
  mkCore (core_pAudioBuffer c) b (_pCaptureDeviceHelper c) (_pRenderDeviceHelper c) (_roInitializeWrapper c).
Definition set_capture (p : pointer (AudioDeviceHelper CaptureDeviceInternal)) (c : AudioDeviceWindowsCoreInternal)
    : AudioDeviceWindowsCoreInternal :=
  mkCore (core_pAudioBuffer c) (_initialized c) p (_pRenderDeviceHelper c) (_roInitializeWrapper c).
Definition set_render (p : pointer (AudioDeviceHelper RenderDeviceInternal)) (c : AudioDeviceWindowsCoreInternal)
    : AudioDeviceWindowsCoreInternal :=
  mkCore (core_pAudioBuffer c) (_initialized c) (_pCaptureDeviceHelper c) p (_roInitializeWrapper c).

(** A new object, with the result of [RoInitialize]. *)
Definition AudioDeviceWindowsCore_new (ro : HRESULT) : AudioDeviceWindowsCoreInternal := mkCore false false Null Null ro.

Abbreviation core_com := (com AudioDeviceWindowsCoreInternal).

(** A member function of the object behind a pointer. *)
Definition through {D A} (get_pointer : AudioDeviceWindowsCoreInternal -> pointer (AudioDeviceHelper D))
    (set_pointer : pointer (AudioDeviceHelper D) -> AudioDeviceWindowsCoreInternal -> AudioDeviceWindowsCoreInternal)
    (m : com (AudioDeviceHelper D) A) : core_com A := fun c w =>
  match get_pointer c with
  | Live h => let '(h', w', o) := m h w in (set_pointer (Live h') c, w', o)
  | Null | Dangling => (c, w, Undefined)
  end.

Definition on_capture {A} : com (AudioDeviceHelper CaptureDeviceInternal) A -> core_com A := through _pCaptureDeviceHelper set_capture.
Definition on_render {A} : com (AudioDeviceHelper RenderDeviceInternal) A -> core_com A := through _pRenderDeviceHelper set_render.

Section Core.
Context `{WinRT} `{Unicode} `{AudioSystem}.

(** ** Lifetime *)

Definition AttachAudioBuffer (audioBuffer : bool) : core_com unit :=
  modify (set_core_buffer audioBuffer) ;;
  c ← get;
  match _pRenderDeviceHelper c with
  | Null => mret tt
  | _ => on_render (RenderDevice.AttachAudioBuffer audioBuffer)
  end ;;
  match _pCaptureDeviceHelper c with
  | Null => mret tt
  | _ => on_capture (CaptureDevice.AttachAudioBuffer audioBuffer)
  end.

Inductive InitStatus := InitStatus_OK | PLAYOUT_ERROR | RECORDING_ERROR | OTHER_ERROR | NUM_STATUSES.

Definition Init : core_com InitStatus :=
  c ← get;
  if _initialized c then mret InitStatus_OK
  else if FAILED (_roInitializeWrapper c) then mret OTHER_ERROR
  else
    render ← Helper.new_helper RenderDevice.render_members;
    modify (set_render (Live render)) ;;
    capture ← Helper.new_helper CaptureDevice.capture_members;
    modify (set_capture (Live capture)) ;;
    when (core_pAudioBuffer c) (
      on_render (RenderDevice.AttachAudioBuffer true) ;;
      on_capture (CaptureDevice.AttachAudioBuffer true)) ;;
    modify (set_initialized true) ;;
    mret InitStatus_OK.

Definition Terminate : core_com Z :=
  c ← get;
  if negb (_initialized c) then mret 0
  else
    modify (set_capture Dangling) ;;
    modify (set_render Dangling) ;;
    modify (set_initialized false) ;;
    mret 0.

Definition Initialized : core_com bool := c ← get; mret (_initialized c).

(** The destructor, before the members are deleted. *)
Definition AudioDeviceWindowsCore_delete : core_com unit := Terminate ;; mret tt.

Definition kWindowsCoreAudio : Z := 1.
Definition CoreAudioIsSupported : core_com bool := mret true.
Definition ActiveAudioLayer : core_com (Z * Z) := mret (kWindowsCoreAudio, 0).
Definition BuiltInAECIsAvailable : core_com bool := mret false.
Definition EnableBuiltInAEC (enable : bool) : core_com Z := mret (-1).

(** ** Playing *)

Definition InitSpeaker : core_com Z := on_render (Helper.InitMixer DeviceClass_AudioRender).
Definition SpeakerIsInitialized : core_com bool := on_render (this ← get; mret (_mixerInitialized this)).
Definition SpeakerVolumeIsAvailable : core_com (option bool * Z) := on_render Helper.VolumeIsAvailable.
Definition SetSpeakerVolume (volume : Z) : core_com (option unit * Z) := on_render (Helper.SetVolume volume).
Definition SpeakerVolume : core_com (option Z * Z) := on_render Helper.Volume.
Definition MaxSpeakerVolume : core_com (option Z * Z) := on_render Helper.MaxVolume.
Definition MinSpeakerVolume : core_com (option Z * Z) := on_render Helper.MinVolume.
Definition SpeakerMuteIsAvailable : core_com (option bool * Z) := on_render Helper.MuteIsAvailable.
Definition SetSpeakerMute (enable : bool) : core_com (option unit * Z) := on_render (Helper.SetMute enable).
Definition SpeakerMute : core_com (option bool * Z) := on_render Helper.Mute.
Definition StereoPlayoutIsAvailable : core_com (option bool * Z) := on_render Helper.StereoIsAvailable.
Definition SetStereoPlayout (enable : bool) : core_com Z := on_render (RenderDevice.SetStereo enable).
Definition StereoPlayout : core_com (option bool * Z) := on_render Helper.Stereo.
Definition PlayoutDevices : core_com Z := on_render (Devices.Devices DeviceClass_AudioRender).
Definition SetPlayoutDevice_index (index : Z) : core_com Z := on_render (Devices.SetDevice_index DeviceClass_AudioRender index).
Definition SetPlayoutDevice_type (device : Z) : core_com Z := on_render (Devices.SetDevice_type DeviceClass_AudioRender device).
Definition PlayoutDeviceName (index : Z) (arrays : Devices.name_arrays) : core_com (Devices.name_arrays * Z) :=
  on_render (Devices.DeviceName DeviceClass_AudioRender index arrays).
Definition PlayoutIsAvailable : core_com (option bool * Z) := on_render Helper.TransportIsAvailable.
Definition InitPlayout : core_com Z := on_render RenderDevice.InitTransport.
Definition StartPlayout (id : nat) : core_com Z := on_render (Helper.StartTransport id).
Definition StopPlayout : core_com Z := on_render Helper.StopTransport.
Definition PlayoutIsInitialized : core_com bool := on_render (this ← get; mret (_transportInitialized this)).
Definition Playing : core_com bool := on_render (this ← get; mret (_transporting this)).

(** [delayMS = static_cast<uint16_t>(...->_sndCardDelay)], a member that only a thread
    stores into. *)
Definition PlayoutDelay : core_com (Z * Z) := on_render (
  this ← get;
  match _sndCardDelay (derived this) with
  | None => undefined
  | Some delay => mret (static_cast Uint16 delay, 0)
  end).

(** ** Recording *)

Definition InitMicrophone : core_com Z := on_capture (Helper.InitMixer DeviceClass_AudioCapture).
Definition MicrophoneIsInitialized : core_com bool := on_capture (this ← get; mret (_mixerInitialized this)).
Definition MicrophoneMuteIsAvailable : core_com (option bool * Z) := on_capture Helper.MuteIsAvailable.
Definition SetMicrophoneMute (enable : bool) : core_com (option unit * Z) := on_capture (Helper.SetMute enable).
Definition MicrophoneMute : core_com (option bool * Z) := on_capture Helper.Mute.
Definition StereoRecordingIsAvailable : core_com (option bool * Z) := on_capture Helper.StereoIsAvailable.
Definition SetStereoRecording (enable : bool) : core_com Z := on_capture (CaptureDevice.SetStereo enable).
Definition StereoRecording : core_com (option bool * Z) := on_capture Helper.Stereo.
Definition MicrophoneVolumeIsAvailable : core_com (option bool * Z) := on_capture Helper.VolumeIsAvailable.
Definition SetMicrophoneVolume (volume : Z) : core_com (option unit * Z) := on_capture (Helper.SetVolume volume).
Definition MicrophoneVolume : core_com (option Z * Z) := on_capture Helper.Volume.
Definition MaxMicrophoneVolume : core_com (option Z * Z) := on_capture Helper.MaxVolume.
Definition MinMicrophoneVolume : core_com (option Z * Z) := on_capture Helper.MinVolume.
Definition RecordingDeviceName (index : Z) (arrays : Devices.name_arrays) : core_com (Devices.name_arrays * Z) :=
  on_capture (Devices.DeviceName DeviceClass_AudioCapture index arrays).
Definition RecordingDevices : core_com Z := on_capture (Devices.Devices DeviceClass_AudioCapture).
Definition SetRecordingDevice_index (index : Z) : core_com Z := on_capture (Devices.SetDevice_index DeviceClass_AudioCapture index).
Definition SetRecordingDevice_type (device : Z) : core_com Z := on_capture (Devices.SetDevice_type DeviceClass_AudioCapture device).
Definition RecordingIsAvailable : core_com (option bool * Z) := on_capture Helper.TransportIsAvailable.
Definition InitRecording : core_com Z := on_capture CaptureDevice.InitTransport.
Definition StartRecording (id : nat) : core_com Z := on_capture (Helper.StartTransport id).
Definition StopRecording : core_com Z := on_capture Helper.StopTransport.
Definition RecordingIsInitialized : core_com bool := on_capture (this ← get; mret (_transportInitialized this)).
Definition Recording : core_com bool := on_capture (this ← get; mret (_transporting this)).

End Core.
