(* ===== verification/AudioDeviceRuns.v ===== *)
(** * AudioDeviceRuns: what the calls of an audio device do

    Theorems on [AudioDevice] and [AudioCore]: the format that is chosen, the names that are
    stored, the volume that is read back, and the life of the two devices. *)

From S2P Require Import Prelude IntTypes HResult FloatTypes WinRT AudioDevice AudioCore.
Open Scope Z_scope.

(** ** Formats *)

Section Formats.
Context `{WinRT}.

(** The client supports the same formats at all times. *)
Context (supported : Z -> Z -> bool).
Hypothesis support : forall h channels rate,
  result h (Call "IsFormatSupported" (Helper.format_arguments (Helper.wave_format channels rate))) = S_OK <-> supported channels rate = true.

(** The formats in the order of the loops. *)
Definition candidates (rates channels : list Z) : list (Z * Z) := r ← rates; c ← channels; [(c, r)].

Definition is_supported (f : Z * Z) : bool := supported f.1 f.2.
Definition format_of (f : Z * Z) : Helper.WAVEFORMATEX := Helper.wave_format f.1 f.2.

(** What the loops end with: the first format that is supported, or the last one. *)
Definition chosen (rates channels : list Z) (tried : Helper.WAVEFORMATEX) : Helper.WAVEFORMATEX * bool :=
  match find is_supported (candidates rates channels) with
  | Some f => (format_of f, true)
  | None => (match last (candidates rates channels) with Some f => format_of f | None => tried end, false)
  end.

Lemma candidates_cons r rates channels : candidates (r :: rates) channels = map (fun c => (c, r)) channels ++ candidates rates channels.
Proof. unfold candidates. cbn. f_equal. Qed.

Lemma try_channels_spec {S} rate channels f (s : S) w :
  exists w', Helper.try_channels rate channels (f, false) s w = (s, w', Good S_OK
    match find is_supported (map (fun c => (c, rate)) channels) with
    | Some f => (format_of f, true)
    | None => (match last (map (fun c => (c, rate)) channels) with Some f => format_of f | None => f end, false)
    end) /\ now w' = now w.
Proof.
  revert f w. induction channels as [|c l IH]; intros f w; cbn [Helper.try_channels map find]; [by exists w|].
  rewrite bind_returned. destruct (support (trace w) c rate) as [Hs1 Hs2]. set (r := result _ _) in *.
  unfold is_supported at 1. cbn [fst snd]. destruct (decide (r = S_OK)) as [Hr|Hr].
  - rewrite (Hs1 Hr). by eexists.
  - destruct (supported c rate) eqn:Hc; [by destruct Hr; apply Hs2|].
    destruct (IH (Helper.wave_format c rate) (record (Call "IsFormatSupported" (Helper.format_arguments (Helper.wave_format c rate))) r w)) as (w' & -> & Ht).
    exists w'. split; [|done]. destruct (find _ _); [done|]. rewrite last_cons. by destruct (last _).
Qed.

Lemma find_app {A} (f : A -> bool) l1 l2 : find f (l1 ++ l2) = match find f l1 with Some a => Some a | None => find f l2 end.
Proof. induction l1 as [|a l IH]; cbn; [done|]. by destruct (f a). Qed.

Lemma try_rates_spec {S} rates channels f (s : S) w :
  exists w', Helper.try_rates rates channels (f, false) s w = (s, w', Good S_OK (chosen rates channels f)) /\ now w' = now w.
Proof.
  revert f w. induction rates as [|r l IH]; intros f w; cbn [Helper.try_rates]; [by exists w|].
  destruct (try_channels_spec r channels f s w) as (w1 & Hrun & Ht). unfold mbind, com_bind. rewrite Hrun. clear Hrun.
  unfold chosen. rewrite candidates_cons, find_app, last_app. destruct (find _ (map _ _)) as [g|]; cbn [snd fst]; [by exists w1|].
  destruct (IH (match last (map (fun c => (c, r)) channels) with Some f => format_of f | None => f end) w1) as (w' & -> & Ht').
  exists w'. split; [|congruence]. unfold chosen. destruct (find _ _); [done|]. by destruct (last (candidates l channels)).
Qed.

(** *** The format of the stream *)

Definition format_for (f : Helper.WAVEFORMATEX) : stream_format :=
  mkFormat (Helper.nBlockAlign f) (Helper.nSamplesPerSec f) (Helper.nSamplesPerSec f / 100) (Helper.nChannels f).

Lemma cleanup_zero {S} (m : com S Z) (s : S) w s' w' hr :
  cleanup m s w = (s', w', Good hr 0) -> exists hr', m s w = (s', w', Good hr' 0).
Proof.
  unfold cleanup, mbind, com_bind, attempt. destruct (m s w) as [[s1 w1] [hr1 a|hr1| |]]; cbn; [|done..]. intros [= <- <- _ ->]. by eexists.
Qed.

Context `{AudioSystem}.

Lemma capture_open_stream_opened h w h' w' hr : CaptureDevice.open_stream h w = (h', w', Good hr 0) ->
  exists w1 w2 hr1 c, Helper.try_rates Helper.freqs (capture_channelsPrioList (derived h)) (Helper.no_format, false) h w1 = (h, w2, Good hr1 c) /\
  _transportInitialized h' = true /\ _audioClient h = true /\ _audioClient h' = true /\ _audioCaptureClient (derived h') = true /\
  control h' = control h /\ format h' = (if c.2 then format_for c.1 else format h) /\ _simpleAudioVolume h' = _simpleAudioVolume h.
Proof.
  intros Hm%cleanup_zero. destruct Hm as [hr0 Hm].
  apply bind_good in Hm as (this & s1 & w1 & hr1 & [= <- <- _ <-] & Hm).
  apply bind_good in Hm as (? & s2 & w2 & hr2 & Hnull & Hm).
  assert (_audioClient h = true /\ s2 = h /\ w2 = w) as (Hac & -> & ->) by (revert Hnull; unfold non_null; destruct (_audioClient h); [intros [= <- <- _]; done|done]).
  apply bind_good in Hm as (? & s3 & w3 & hr3 & Hs%returned_good & Hm). subst s3.
  apply bind_good in Hm as (found & s4 & w4 & hr4 & Hfound & Hm).
  apply (kept_result (fun s => s)) in Hfound as Hs; [|apply try_rates_kept]. subst s4.
  apply bind_good in Hm as (? & s5 & w5 & hr5 & Hset & Hm).
  set (h5 := if found.2 then set_format (format_for found.1) h else h).
  assert (s5 = h5) as -> by (revert Hset; unfold h5, when, modify; destruct (found.2); by intros [= <- _ _]). clear Hset.
  apply bind_good in Hm as (? & s6 & w6 & hr6 & Hs & Hm). apply (kept_result (fun s => s)) in Hs as ->; [|unfold Helper.Initialize; keep].
  apply bind_good in Hm as (this & s7 & w7 & hr7 & [= <- <- _ <-] & Hm).
  apply bind_good in Hm as (? & s8 & w8 & hr8 & Hs & Hm). apply (kept_result (fun s => s)) in Hs as ->; [|keep].
  apply bind_good in Hm as (? & s9 & w9 & hr9 & Hs & Hm). apply (kept_result (fun s => s)) in Hs as ->; [|keep].
  apply bind_good in Hm as (? & s10 & w10 & hr10 & Hs & Hm). apply (kept_result (fun s => s)) in Hs as ->; [|keep].
  apply bind_good in Hm as (? & s11 & w11 & hr11 & [= <- <- _ _] & Hm).
  apply bind_good in Hm as (? & s12 & w12 & hr12 & Hs & Hm). apply (kept_result (fun s => s)) in Hs as ->; [|keep].
  apply bind_good in Hm as (? & s13 & w13 & hr13 & [= <- <- _ _] & Hm).
  apply bind_good in Hm as (? & s14 & w14 & hr14 & [= <- <- _ _] & [= <- _ _]).
  exists w3, w4, hr4, found. split; [exact Hfound|]. unfold h5, control. destruct (found.2); cbn; done.
Qed.

Lemma capture_open_stream h w h' w' hr : CaptureDevice.open_stream h w = (h', w', Good hr 0) ->
  let c := chosen Helper.freqs (capture_channelsPrioList (derived h)) Helper.no_format in
  _transportInitialized h' = true /\ _audioClient h' = true /\ _audioCaptureClient (derived h') = true /\
  control h' = control h /\ format h' = (if c.2 then format_for c.1 else format h).
Proof.
  intros Hm c. destruct (capture_open_stream_opened _ _ _ _ _ Hm) as (w1 & w2 & hr1 & c' & Htry & Hrest).
  destruct (try_rates_spec Helper.freqs (capture_channelsPrioList (derived h)) Helper.no_format h w1) as (w3 & Hrun & _).
  fold c in Hrun. rewrite Hrun in Htry. injection Htry as _ _ <-. by destruct Hrest as (? & _ & ? & ? & ? & ? & _).
Qed.

Lemma chosen_supported channels f : Forall (fun c => 0 < c < 2 ^ 14) channels -> (chosen Helper.freqs channels f).2 = true ->
  let d := format_for (chosen Helper.freqs channels f).1 in
  supported (_channels d) (_sampleRate d) = true /\ _channels d ∈ channels /\ _sampleRate d ∈ Helper.freqs /\
  _blockSize d * 100 = _sampleRate d /\ _audioFrameSize d = 2 * _channels d.
Proof.
  intros Hch. unfold chosen. destruct (find _ _) as [[c r]|] eqn:Hf; [|done]. intros _. cbn.
  apply find_some in Hf as [Hin Hsup]. apply list_elem_of_In, list_elem_of_bind in Hin as (r' & Hin & Hr).
  apply list_elem_of_bind in Hin as (c' & Hin & Hc). apply list_elem_of_singleton in Hin as [= -> ->].
  assert (0 < c' < 2 ^ 14) as Hc' by (by eapply Forall_forall in Hch).
  split; [done|]. split; [done|]. split; [done|]. split.
  - apply list_elem_of_In in Hr. cbn in Hr. by repeat destruct Hr as [<-|Hr].
  - replace (c' * 16) with (c' * 2 * 8) by lia. rewrite Z.div_mul by lia. rewrite Z.mod_small by lia. lia.
Qed.

(** A recording that is initialized has opened a stream. *)
Lemma InitRecording_opens h w h' w' hr :
  CaptureDevice.InitTransport h w = (h', w', Good hr 0) -> _transportInitialized h = false ->
  exists h1 w1, CaptureDevice.open_stream h1 w1 = (h', w', Good hr 0) /\ control h1 = control h /\ format h1 = format h /\
    capture_channelsPrioList (derived h1) = capture_channelsPrioList (derived h) /\ _simpleAudioVolume h1 = _simpleAudioVolume h.
Proof.
  intros Hm Hti. unfold CaptureDevice.InitTransport in Hm. rewrite (bind_value get h _ _ _ S_OK) in Hm by done.
  destruct (_transporting h); [done|]. rewrite Hti in Hm. rewrite (bind_value history (trace w) _ _ _ S_OK) in Hm by done.
  destruct (QueryPerformanceFrequency (trace w) =? 0); [done|].
  apply bind_good in Hm as (? & s1 & w1 & hr1 & [= <- <- _ _] & Hm). case_bool_decide; [done|].
  apply bind_good in Hm as (? & s2 & w2 & hr2 & Hmix & Hm).
  apply (kept_result unmixed) in Hmix as Hk; [|apply InitMixer_unmixed]. clear Hmix.
  apply bind_good in Hm as (? & s3 & w3 & hr3 & [= <- <- _ <-] & Hm). case_bool_decide; [done|].
  exists s2, w2. split; [exact Hm|]. injection Hk as Hc1 Hc2 Hc3 Hc4 Hf Hd _ _ Hv.
  unfold control. rewrite Hc1, Hc2, Hc3, Hc4, Hf, Hd, Hv. done.
Qed.

(** Initializing the recording of a device that was not initialized, if it returns 0, has
    opened a stream in the first format, by the order of the rates and the priorities of
    the channels, that the client supports; a block is then 10 milliseconds of frames of 16
    bits for each channel.  If the client supports none, the format is the one from before. *)
Theorem InitRecording_format h w h' w' hr :
  CaptureDevice.InitTransport h w = (h', w', Good hr 0) -> _transportInitialized h = false ->
  let channels := capture_channelsPrioList (derived h) in
  let c := chosen Helper.freqs channels Helper.no_format in
  _transportInitialized h' = true /\ _audioClient h' = true /\ _audioCaptureClient (derived h') = true /\ control h' = control h /\
  format h' = (if c.2 then format_for c.1 else format h) /\
  (Forall (fun c => 0 < c < 2 ^ 14) channels -> c.2 = true ->
    let f := format h' in
    supported (_channels f) (_sampleRate f) = true /\ _channels f ∈ channels /\ _sampleRate f ∈ Helper.freqs /\
    _blockSize f * 100 = _sampleRate f /\ _audioFrameSize f = 2 * _channels f).
Proof.
  intros Hm Hti channels c.
  destruct (InitRecording_opens _ _ _ _ _ Hm Hti) as (h1 & w1 & Hopen & Hc1 & Hf1 & Hp1 & _).
  pose proof (capture_open_stream _ _ _ _ _ Hopen) as Ho. rewrite Hp1 in Ho. fold channels in Ho. fold c in Ho. rewrite Hf1, Hc1 in Ho.
  destruct Ho as (Ht & Hac & Hcc & Hctl & Hfmt). split; [done|]. split; [done|]. split; [done|]. split; [done|]. split; [done|].
  intros Hch Hc2. rewrite Hfmt, Hc2. by apply (chosen_supported channels Helper.no_format).
Qed.

(** The client of a microphone has no volume interface: once its recording is initialized,
    every call on the volume or on muting is a call through a null pointer. *)
Theorem microphone_has_no_volume h w h' w' hr :
  CaptureDevice.InitTransport h w = (h', w', Good hr 0) -> _transportInitialized h = false -> _simpleAudioVolume h = false ->
  forall w, (Helper.VolumeIsAvailable h' w).2 = Undefined /\ (Helper.Volume h' w).2 = Undefined /\
    (Helper.MuteIsAvailable h' w).2 = Undefined /\ (Helper.Mute h' w).2 = Undefined /\
    (forall b, (Helper.SetMute b h' w).2 = Undefined) /\
    (forall v, 0 <= v <= 100 -> (Helper.SetVolume v h' w).2 = Undefined).
Proof.
  intros Hm Hti Hv w0. destruct (InitRecording_opens _ _ _ _ _ Hm Hti) as (h1 & w1 & Hopen & _ & _ & _ & Hv1).
  destruct (capture_open_stream_opened _ _ _ _ _ Hopen) as (? & ? & ? & ? & _ & Ht & _ & _ & _ & _ & _ & Hv'). rewrite Hv1, Hv in Hv'.
  assert (forall A (m : AudioDeviceHelper CaptureDeviceInternal -> com _ (option A * Z)),
    (m h' h' w0).2 = Undefined -> (Helper.if_initialized m h' w0).2 = Undefined) as Hif
    by (intros A m Hu; unfold Helper.if_initialized; by rewrite (bind_value get h' _ _ _ S_OK), Ht).
  assert (forall A c (f : HRESULT -> com _ A), ((Helper.volume_call h' c ≫= f) h' w0).2 = Undefined) as Hcall
    by (intros A c f; unfold mbind, com_bind, Helper.volume_call, non_null; by rewrite Hv').
  split; [by apply Hif, Hcall|]. split; [by apply Hif, Hcall|]. split; [by apply Hif, Hcall|]. split; [by apply Hif, Hcall|].
  split; [intros b; by apply Hif, Hcall|]. intros v Hr. apply Hif.
  replace ((v <? Helper.MIN_CORE_SPEAKER_VOLUME) || (Helper.MAX_CORE_SPEAKER_VOLUME <? v))%bool with false; [apply Hcall|].
  unfold Helper.MIN_CORE_SPEAKER_VOLUME, Helper.MAX_CORE_SPEAKER_VOLUME. lia.
Qed.

End Formats.

(** ** Names *)

Section Names.
Context `{WinRT} `{Unicode} `{AudioSystem}.
Import Devices.

Lemma copy_n_Some s n array : (n <= length s)%nat -> (n <= length array)%nat ->
  copy_n s (Z.of_nat n) (Some array) = Some (Some (take n s ++ drop n array)).
Proof.
  intros Hs Ha. unfold copy_n, guard_b. destruct (Z.leb_spec (Z.of_nat n) 0).
  - assert (n = 0%nat) as -> by lia. done.
  - cbn. rewrite Nat2Z.id. destruct (Z.leb_spec (Z.of_nat n) (Z.of_nat (length array))); [done|lia].
Qed.

Lemma terminate_at_Some n (array : bytes) : (n < length array)%nat -> terminate_at (Z.of_nat n) (Some array) = Some (Some (<[n := 0]> array)).
Proof.
  intros Hn. unfold terminate_at, guard_b. cbn. rewrite Nat2Z.id. destruct (Z.ltb_spec (Z.of_nat n) (Z.of_nat (length array))); [done|lia].
Qed.

(** The number of characters that are stored. *)
Definition stored_length (s : bytes) : nat := Nat.min (length s) 127.

Lemma store_name_spec w name_ n g m' w' hr u : store_name name_ (mkNames (Some n) (Some g)) w = (m', w', Good hr u) ->
  length n = 128%nat -> length g = 128%nat -> let s := ToUtf8 name_ in
  m' = mkNames (Some (<[stored_length s := 0]> n)) (Some (take (stored_length s) s ++ drop (stored_length s) g)).
Proof.
  intros Hm Hn Hg s. unfold store_name, modify_defined in Hm. fold s in Hm. cbn [guid name] in Hm.
  replace (Z.min (Z.of_nat (length s)) (kAdmMaxDeviceNameSize - 1)) with (Z.of_nat (stored_length s)) in Hm by (unfold stored_length, kAdmMaxDeviceNameSize; lia).
  rewrite copy_n_Some in Hm by (unfold stored_length; lia). cbn [mbind option_bind] in Hm.
  rewrite terminate_at_Some in Hm by (unfold stored_length; lia).
  cbn in Hm. congruence.
Qed.

Lemma store_guid_spec w id n g m' w' hr u : store_guid id (mkNames n (Some g)) w = (m', w', Good hr u) ->
  length g = 128%nat -> let s := ToUtf8 id in
  m' = mkNames n (Some (<[stored_length s := 0]> (take (stored_length s) s ++ drop (stored_length s) g))).
Proof.
  intros Hm Hg s. unfold store_guid, modify_defined in Hm. fold s in Hm. cbn [guid name] in Hm.
  replace (Z.min (Z.of_nat (length s)) (kAdmMaxGuidSize - 1)) with (Z.of_nat (stored_length s)) in Hm by (unfold stored_length, kAdmMaxGuidSize; lia).
  rewrite copy_n_Some in Hm by (unfold stored_length; lia). cbn [mbind option_bind] in Hm. rewrite terminate_at_Some in Hm; [cbn in Hm; congruence|].
  rewrite length_app, length_take, length_drop. unfold stored_length. lia.
Qed.

(** When [DeviceName] returns 0, the array of the name has only been terminated: the text
    of the name went to the array of the identifier, where the identifier has then been
    stored over it. *)
Theorem DeviceName_stores cls statics index n g w m' w' hr :
  DeviceName_arrays cls statics index (mkNames (Some n) (Some g)) w = (m', w', Good hr 0) -> length n = 128%nat -> length g = 128%nat ->
  exists h info, FindAll h cls !! Z.to_nat (default_index index) = Some info /\
    let text := ToUtf8 (device_name info) in let id := ToUtf8 (device_id info) in
    name m' = Some (<[stored_length text := 0]> n) /\
    guid m' = Some (<[stored_length id := 0]> (take (stored_length id) id ++
      drop (stored_length id) (take (stored_length text) text ++ drop (stored_length text) g))).
Proof.
  intros Hm%cleanup_zero Hn Hg. destruct Hm as [hr0 Hm].
  apply bind_good in Hm as (l & s1 & w1 & hr1 & Hfind & Hm).
  apply (kept_result (fun s => s)) in Hfind as Hs1; [|apply find_all_kept]. subst s1.
  assert (exists h, l = FindAll h cls) as [h ->].
  { unfold find_all in Hfind. apply bind_good in Hfind as (? & ? & ? & ? & _ & Hfind). apply bind_good in Hfind as (? & ? & ? & ? & _ & Hfind).
    apply bind_good in Hfind as (? & ? & ? & ? & _ & Hfind). apply bind_good in Hfind as (h & ? & ? & ? & _ & Hfind).
    apply getter_good in Hfind as [_ ->]. by exists h. }
  apply bind_good in Hm as (count & s2 & w2 & hr2 & [-> ->]%getter_good & Hm). cbv zeta in Hm.
  destruct (_ <=? _); [done|]. destruct (FindAll h cls !! Z.to_nat (default_index index)) as [info|] eqn:Hinfo; [|done].
  apply bind_good in Hm as (? & s3 & w3 & hr3 & Hs & Hm). apply (kept_result (fun s => s)) in Hs as ->; [|keep].
  apply bind_good in Hm as (arrays & s4 & w4 & hr4 & [= <- <- _ <-] & Hm). cbn [name guid] in Hm. rewrite !bool_decide_false in Hm by done.
  apply bind_good in Hm as (? & s5 & w5 & hr5 & Hname & Hm).
  apply bind_good in Hname as (t & s6 & w6 & hr6 & [-> ->]%getter_good & Hname). apply store_name_spec in Hname; [|done..]. subst s5.
  apply bind_good in Hm as (? & s7 & w7 & hr7 & Hguid & [= <- _ _]).
  apply bind_good in Hguid as (t & s8 & w8 & hr8 & [-> ->]%getter_good & Hguid). apply store_guid_spec in Hguid.
  - exists h, info. split; [done|]. by rewrite Hguid.
  - rewrite length_app, length_take, length_drop. unfold stored_length. lia.
Qed.

End Names.

(** ** Volume *)

(** Reading the volume back loses one at two values of the scale of 0 to 100. *)
Theorem volume_read_back v : 0 <= v <= 100 ->
  Helper.volume_of_level (Helper.level_of_volume v) = Some (if (v =? 53) || (v =? 59) then v - 1 else v).
Proof.
  intros Hv. assert (forallb (fun n => bool_decide (Helper.volume_of_level (Helper.level_of_volume (Z.of_nat n)) =
    Some (if (Z.of_nat n =? 53) || (Z.of_nat n =? 59) then Z.of_nat n - 1 else Z.of_nat n)))%bool (seq 0 101) = true) as Hall by (vm_compute; reflexivity).
  rewrite forallb_forall in Hall. specialize (Hall (Z.to_nat v)). rewrite Z2Nat.id in Hall by lia.
  apply bool_decide_eq_true in Hall; [exact Hall|]. apply in_seq. lia.
Qed.

(** ** The life of the devices *)

Section Life.
Context `{WinRT} `{Unicode} `{AudioSystem}.

(** The calls of the object: those that make and delete the devices, and any call that goes
    through to one of them. *)
Inductive core_call :=
  | Call_Init
  | Call_Terminate
  | Call_AttachAudioBuffer (audioBuffer : bool)
  | Call_playing (m : com (AudioDeviceHelper RenderDeviceInternal) unit)
  | Call_recording (m : com (AudioDeviceHelper CaptureDeviceInternal) unit).

Definition perform_core (a : core_call) : core_com unit :=
  match a with
  | Call_Init => Init ;; mret tt
  | Call_Terminate => Terminate ;; mret tt
  | Call_AttachAudioBuffer b => AttachAudioBuffer b
  | Call_playing m => on_render m
  | Call_recording m => on_capture m
  end.

(** Calls that return, one after the other. *)
Fixpoint run_calls (l : list core_call) (c : AudioDeviceWindowsCoreInternal) (w : world) : option (AudioDeviceWindowsCoreInternal * world) :=
  match l with
  | [] => Some (c, w)
  | a :: l =>
      match perform_core a c w with
      | (c, w, Good _ _) | (c, w, Failed _) => run_calls l c w
      | _ => None
      end
  end.

(** Whether the devices exist after the calls, and whether they ever have. *)
Definition alive (ro : HRESULT) (l : list core_call) : bool :=
  fold_left (fun a c => match c with Call_Init => SUCCEEDED ro | Call_Terminate => false | _ => a end) l false.
Definition made (ro : HRESULT) (l : list core_call) : bool :=
  fold_left (fun a c => match c with Call_Init => SUCCEEDED ro | _ => a end) l false.

Definition pointer_state {A} (p : pointer A) (alive made : bool) : Prop :=
  match p with Live _ => alive = true | Dangling => alive = false /\ made = true | Null => alive = false /\ made = false end.

Record life (ro : HRESULT) (alive made : bool) (c : AudioDeviceWindowsCoreInternal) : Prop := {
  life_wrapper : _roInitializeWrapper c = ro;
  life_initialized : _initialized c = alive;
  life_made : alive = true -> made = true;
  life_possible : made = true -> SUCCEEDED ro = true;
  life_capture : pointer_state (_pCaptureDeviceHelper c) alive made;
  life_render : pointer_state (_pRenderDeviceHelper c) alive made
}.

Lemma through_life {D A} get_pointer set_pointer (m : com (AudioDeviceHelper D) A) ro a k c w c' w' o :
  (forall h, life ro a k c -> (exists h0, get_pointer c = Live h0) -> life ro a k (set_pointer (Live h) c)) ->
  life ro a k c -> through get_pointer set_pointer m c w = (c', w', o) -> life ro a k c'.
Proof.
  intros Hset Hl. unfold through. destruct (get_pointer c) as [|h0|] eqn:Hp; [by intros [= <- _ _]| |by intros [= <- _ _]].
  destruct (m h0 w) as [[h1 w1] o1]. intros [= <- _ _]. apply Hset; eauto.
Qed.

Lemma on_render_life {A} (m : com _ A) ro a k c w c' w' o : life ro a k c -> on_render m c w = (c', w', o) -> life ro a k c'.
Proof.
  apply through_life. intros h [Hw Hi Hk Hm Hc Hr] [h0 Hp]. split; [done..|]. cbn. by rewrite Hp in Hr.
Qed.

Lemma on_capture_life {A} (m : com _ A) ro a k c w c' w' o : life ro a k c -> on_capture m c w = (c', w', o) -> life ro a k c'.
Proof.
  apply through_life. intros h [Hw Hi Hk Hm Hc Hr] [h0 Hp]. split; [done..| |done]. cbn. by rewrite Hp in Hc.
Qed.

(** [life] as a relation that computations preserve. *)
Definition stays_alive ro a k (x y : AudioDeviceWindowsCoreInternal * world) : Prop := life ro a k x.1 -> life ro a k y.1.

#[local] Instance stays_alive_preorder ro a k : PreOrder (stays_alive ro a k).
Proof. split; [intros x Hx; exact Hx|]. intros x y z Hxy Hyz Hx. by apply Hyz, Hxy. Qed.

Lemma AttachAudioBuffer_life b ro a k : preserves (stays_alive ro a k) (AttachAudioBuffer b).
Proof.
  assert (forall A (m : com _ A), preserves (stays_alive ro a k) (on_render m)) as Hr
    by (intros A m c w Hl; destruct (on_render m c w) as [[c' w'] o] eqn:Heq; by eapply on_render_life).
  assert (forall A (m : com _ A), preserves (stays_alive ro a k) (on_capture m)) as Hc
    by (intros A m c w Hl; destruct (on_capture m c w) as [[c' w'] o] eqn:Heq; by eapply on_capture_life).
  unfold AttachAudioBuffer. apply preserves_bind; [apply _| |intros _].
  { apply preserves_modify. intros c w [? ? ? ? ? ?]. by split. }
  apply preserves_bind; [apply _|apply preserves_get; apply _|intros c].
  apply preserves_bind; [apply _| |intros _].
  - destruct (_pRenderDeviceHelper c); [apply preserves_ret; apply _|apply Hr..].
  - destruct (_pCaptureDeviceHelper c); [apply preserves_ret; apply _|apply Hc..].
Qed.

Lemma render_AttachAudioBuffer_outcome b h w :
  exists h' w', RenderDevice.AttachAudioBuffer b h w = (h', w', if b then Good S_OK tt else Undefined).
Proof. destruct b; by eexists _, _. Qed.

Lemma capture_AttachAudioBuffer_outcome b h w :
  exists h' w', CaptureDevice.AttachAudioBuffer b h w = (h', w', if b then Good S_OK tt else Undefined).
Proof. destruct b; by eexists _, _. Qed.

Lemma new_helper_good {S D} (d : D) (s : S) w : exists h w', Helper.new_helper d s w = (s, w', Good S_OK h).
Proof.
  unfold Helper.new_helper, mbind, com_bind, attempt, returned, method, invoke.
  repeat (destruct (SUCCEEDED _)); by eexists _, _.
Qed.

Lemma Init_life ro a k c w : life ro a k c -> exists c' w' r, Init c w = (c', w', Good S_OK r) /\ life ro (SUCCEEDED ro) (SUCCEEDED ro) c'.
Proof.
  intros Hl. pose proof Hl as [Hw Hi Hm Hp Hc Hr]. unfold Init. rewrite (bind_value get c _ _ _ S_OK) by done. rewrite Hi, Hw.
  destruct a. { specialize (Hm eq_refl). subst k. rewrite (Hp eq_refl). by eexists _, _, _. }
  unfold FAILED. destruct (SUCCEEDED ro) eqn:Hs; cbn [negb].
  2: { destruct k; [by specialize (Hp eq_refl)|]. by eexists _, _, _. }
  destruct (new_helper_good RenderDevice.render_members c w) as (render & w1 & Hrun). unfold mbind at 1, com_bind at 1. rewrite Hrun. clear Hrun.
  unfold mbind at 1, com_bind at 1, modify at 1.
  destruct (new_helper_good CaptureDevice.capture_members (set_render (Live render) c) w1) as (capture & w2 & Hrun).
  unfold mbind at 1, com_bind at 1. rewrite Hrun. clear Hrun. unfold mbind at 1, com_bind at 1, modify at 1.
  destruct (core_pAudioBuffer c); cbn; (eexists _, _, _; split; [reflexivity|]); by split.
Qed.

Lemma Terminate_life ro a k c w : life ro a k c -> exists c' w' r, Terminate c w = (c', w', Good S_OK r) /\ life ro false k c'.
Proof.
  intros Hl. pose proof Hl as [Hw Hi Hm Hp Hc Hr]. unfold Terminate. rewrite (bind_value get c _ _ _ S_OK) by done. rewrite Hi.
  destruct a; cbn [negb]; [|by eexists _, _, _]. eexists _, _, _. split; [reflexivity|]. specialize (Hm eq_refl). by split.
Qed.

Lemma run_calls_life ro l a k c w c' w' : life ro a k c -> run_calls l c w = Some (c', w') ->
  life ro (fold_left (fun a c => match c with Call_Init => SUCCEEDED ro | Call_Terminate => false | _ => a end) l a)
    (fold_left (fun a c => match c with Call_Init => SUCCEEDED ro | _ => a end) l k) c'.
Proof.
  revert a k c w. induction l as [|x l IH]; intros a k c w Hl; cbn [run_calls fold_left]; [by intros [= <- <-]|].
  destruct (perform_core x c w) as [[c1 w1] o] eqn:Hx. intros Hrun.
  assert (run_calls l c1 w1 = Some (c', w')) as Hrun' by (by destruct o). revert Hrun'. apply IH. clear IH Hrun.
  destruct x as [| |b|m|m]; cbn [perform_core] in Hx.
  - destruct (Init_life ro a k c w Hl) as (c2 & w2 & r & Heq & Hl'). unfold mbind, com_bind in Hx. rewrite Heq in Hx. by injection Hx as <- _ _.
  - destruct (Terminate_life ro a k c w Hl) as (c2 & w2 & r & Heq & Hl'). unfold mbind, com_bind in Hx. rewrite Heq in Hx. by injection Hx as <- _ _.
  - pose proof (AttachAudioBuffer_life b ro a k c w Hl) as Hl'. by rewrite Hx in Hl'.
  - by eapply on_render_life.
  - by eapply on_capture_life.
Qed.

(** C25: After any calls, a call that goes to a device is undefined exactly if the devices do not
    exist, before [Init] or after [Terminate], or if it is undefined on the device itself;
    attaching a buffer is harmless before the first [Init], and undefined between
    [Terminate] and the next [Init]; attaching none is undefined from the first [Init] on. *)
Theorem core_lifecycle ro l w c w' :
  run_calls l (AudioDeviceWindowsCore_new ro) w = Some (c, w') ->
  _initialized c = alive ro l /\
  (forall A (m : com (AudioDeviceHelper RenderDeviceInternal) A), (on_render m c w').2 = Undefined <->
    alive ro l = false \/ exists h, _pRenderDeviceHelper c = Live h /\ (m h w').2 = Undefined) /\
  (forall A (m : com (AudioDeviceHelper CaptureDeviceInternal) A), (on_capture m c w').2 = Undefined <->
    alive ro l = false \/ exists h, _pCaptureDeviceHelper c = Live h /\ (m h w').2 = Undefined) /\
  (forall b, (AttachAudioBuffer b c w').2 = Undefined <-> made ro l = true /\ (alive ro l = false \/ b = false)).
Proof.
  intros Hrun. assert (life ro false false (AudioDeviceWindowsCore_new ro)) as Hnew by by split.
  pose proof (run_calls_life _ _ _ _ _ _ _ _ Hnew Hrun) as [Hw Hi Hm Hp Hc Hr]. fold (alive ro l) (made ro l) in *.
  split; [done|]. split; [|split].
  - intros A m. unfold on_render, through. destruct (_pRenderDeviceHelper c) as [|h|]; cbn in Hr.
    + destruct Hr as [-> _]. split; [by left|done].
    + rewrite Hr. destruct (m h w') as [[h' w''] o] eqn:Heq. cbn. split; [intros ->; right; exists h; by rewrite Heq|].
      intros [|(h0 & [= <-] & Hu)]; [done|]. by rewrite Heq in Hu.
    + destruct Hr as [-> _]. split; [by left|done].
  - intros A m. unfold on_capture, through. destruct (_pCaptureDeviceHelper c) as [|h|]; cbn in Hc.
    + destruct Hc as [-> _]. split; [by left|done].
    + rewrite Hc. destruct (m h w') as [[h' w''] o] eqn:Heq. cbn. split; [intros ->; right; exists h; by rewrite Heq|].
      intros [|(h0 & [= <-] & Hu)]; [done|]. by rewrite Heq in Hu.
    + destruct Hc as [-> _]. split; [by left|done].
  - intros b. unfold AttachAudioBuffer, on_render, on_capture, through, mbind, com_bind, modify, get. cbn.
    destruct (_pRenderDeviceHelper c) as [|h|] eqn:Hpr; cbn in Hr.
    + destruct Hr as [Ha Hk]. rewrite Ha, Hk in *. cbn. destruct (_pCaptureDeviceHelper c); cbn in *; [|done|by destruct Hc].
      split; [done|by intros [? _]].
    + rewrite Hr in *. rewrite (Hm eq_refl). cbn. rewrite Hpr.
      destruct (_pCaptureDeviceHelper c) as [|a|] eqn:Hpc; cbn in Hc; [by destruct Hc| |by destruct Hc].
      destruct (render_AttachAudioBuffer_outcome b h w') as (h1 & w1 & ->). destruct b; cbn; [|intuition].
      rewrite Hpc. destruct (capture_AttachAudioBuffer_outcome true a w1) as (h2 & w2 & Hrun2). rewrite Hrun2. cbn. intuition congruence.
    + destruct Hr as [Ha Hk]. rewrite Ha, Hk in *. cbn. rewrite Hpr. cbn. intuition.
Qed.

End Life.

(** ** Examples *)

Module Example.
Import AudioDevice.Example.

(** A client that takes only one channel at 16000 frames a second. *)
Definition mono_only (channels rate : Z) : bool := (channels =? 1) && (rate =? 16000).

Definition mono_runtime : WinRT := {|
  result h c :=
    if decide (c = Call "IsFormatSupported" (Helper.format_arguments (Helper.wave_format 1 16000))) then S_OK
    else match c with Call "IsFormatSupported" _ => Other 1 | _ => S_OK end;
  operation w _ := one_async (now w);
  wait_fails _ := false;
  last_error_exists _ := false;
  has_thread_access _ := false;
  desktop := true
|}.

Lemma mono_support h channels rate :
  @result mono_runtime h (Call "IsFormatSupported" (Helper.format_arguments (Helper.wave_format channels rate))) = S_OK <->
  mono_only channels rate = true.
Proof.
  unfold mono_only. cbn -[Helper.wave_format Helper.format_arguments]. case_decide as Heq.
  - unfold Helper.format_arguments in Heq. injection Heq as Hc Hr _ _. cbn in Hc, Hr. subst. done.
  - split; [done|]. intros Hm. destruct Heq. f_equal. assert (channels = 1) as -> by lia. by assert (rate = 16000) as -> by lia.
Qed.

#[local] Existing Instance mono_runtime.
#[local] Existing Instance audio_system.

(** A microphone before its recording is initialized. *)
Definition new_microphone : AudioDeviceHelper CaptureDeviceInternal :=
  mkHelper (mkDeviceHelper S_OK true (Some (mkDevice (wide "Microphone") (wide "{0.0.1}"))) true 0 0)
    true false false false (mkFormat 0 0 0 2) 0 false false None false false CaptureDevice.capture_members.

Definition initialized : AudioDeviceHelper CaptureDeviceInternal * world :=
  (CaptureDevice.InitTransport new_microphone (mkWorld 0 [])).1.

Lemma initialized_result : exists hr, (CaptureDevice.InitTransport new_microphone (mkWorld 0 [])).2 = Good hr 0.
Proof. eexists. vm_compute. reflexivity. Qed.

Lemma initialized_format : format initialized.1 = mkFormat 2 16000 160 1.
Proof. vm_compute. reflexivity. Qed.

Lemma InitRecording_format_witness : exists hr,
  CaptureDevice.InitTransport new_microphone (mkWorld 0 []) = (initialized.1, initialized.2, Good hr 0) /\
  _transportInitialized new_microphone = false /\ _transportInitialized initialized.1 = true.
Proof.
  destruct initialized_result as [hr Hr]. exists hr.
  assert (CaptureDevice.InitTransport new_microphone (mkWorld 0 []) = (initialized.1, initialized.2, Good hr 0)) as Hrun
    by (rewrite <- Hr; unfold initialized; by destruct (CaptureDevice.InitTransport _ _) as [[? ?] ?]).
  split; [exact Hrun|]. split; [reflexivity|].
  exact (proj1 (InitRecording_format mono_only mono_support new_microphone (mkWorld 0 []) initialized.1 initialized.2 hr Hrun eq_refl)).
Defined.

Lemma microphone_has_no_volume_witness : exists hr,
  CaptureDevice.InitTransport new_microphone (mkWorld 0 []) = (initialized.1, initialized.2, Good hr 0) /\
  (Helper.Volume initialized.1 initialized.2).2 = Undefined.
Proof.
  destruct initialized_result as [hr Hr]. exists hr.
  assert (CaptureDevice.InitTransport new_microphone (mkWorld 0 []) = (initialized.1, initialized.2, Good hr 0)) as Hrun
    by (rewrite <- Hr; unfold initialized; by destruct (CaptureDevice.InitTransport _ _) as [[? ?] ?]).
  split; [exact Hrun|].
  destruct (microphone_has_no_volume new_microphone (mkWorld 0 []) initialized.1 initialized.2 hr Hrun eq_refl eq_refl initialized.2) as (_ & Hv & _).
  exact Hv.
Defined.

(** The arrays of a caller, and the one device of the system. *)
Definition arrays : Devices.name_arrays := Devices.mkNames (Some (replicate 128 7)) (Some (replicate 128 7)).
#[local] Existing Instance ascii_only.

Definition name_run := Devices.DeviceName_arrays DeviceClass_AudioCapture true 0 arrays (mkWorld 0 []).
Definition first_bytes (n : nat) (o : option bytes) : option bytes := take n <$> o.

(** The array of the name starts as it was, up to the terminating zero. *)
Lemma name_run_stored : first_bytes 11 (Devices.name name_run.1.1) = Some (replicate 10 7 ++ [0]).
Proof. vm_compute. reflexivity. Qed.

Lemma name_run_result : exists hr, name_run.2 = Good hr 0.
Proof. eexists. vm_compute. reflexivity. Qed.

Lemma DeviceName_stores_witness : exists hr,
  Devices.DeviceName_arrays DeviceClass_AudioCapture true 0 arrays (mkWorld 0 []) = (name_run.1.1, name_run.1.2, Good hr 0) /\
  exists h info, FindAll h DeviceClass_AudioCapture !! 0%nat = Some info /\
    Devices.name name_run.1.1 = Some (<[stored_length (ToUtf8 (device_name info)) := 0]> (replicate 128 7)).
Proof.
  destruct name_run_result as [hr Hr]. exists hr.
  assert (Devices.DeviceName_arrays DeviceClass_AudioCapture true 0 arrays (mkWorld 0 []) = (name_run.1.1, name_run.1.2, Good hr 0)) as Hrun
    by (rewrite <- Hr; unfold name_run; by destruct (Devices.DeviceName_arrays _ _ _ _ _) as [[? ?] ?]).
  split; [exact Hrun|].
  destruct (DeviceName_stores _ _ _ _ _ _ _ _ _ Hrun (length_replicate 128 7) (length_replicate 128 7)) as (h & info & Hi & Hn & _).
  exists h, info. split; [exact Hi|exact Hn].
Defined.

Lemma volume_read_back_witness : 0 <= 53 <= 100 /\ Helper.volume_of_level (Helper.level_of_volume 53) = Some 52.
Proof. split; [lia|]. exact (volume_read_back 53 ltac:(lia)). Defined.

(** Made, given a buffer, used, terminated. *)
Definition some_calls : list core_call :=
  [Call_AttachAudioBuffer true; Call_Init; Call_recording (Devices.SetDevice_index DeviceClass_AudioCapture 0 ;; mret tt); Call_Terminate].

Definition some_run := run_calls some_calls (AudioDeviceWindowsCore_new S_OK) (mkWorld 0 []).

Lemma some_run_returns : match some_run with Some _ => true | None => false end = true.
Proof. vm_compute. reflexivity. Qed.

Lemma core_lifecycle_witness : exists c w,
  run_calls some_calls (AudioDeviceWindowsCore_new S_OK) (mkWorld 0 []) = Some (c, w) /\ (AttachAudioBuffer true c w).2 = Undefined.
Proof.
  pose proof some_run_returns as Hsome. destruct some_run as [[c w]|] eqn:Hrun; [|discriminate Hsome]. exists c, w. split; [exact Hrun|].
  destruct (core_lifecycle S_OK some_calls (mkWorld 0 []) c w Hrun) as (_ & _ & _ & Hattach).
  apply Hattach. split; [reflexivity|]. left. reflexivity.
Defined.

(** The client could not be made, which is only logged: initializing the recording uses it. *)
Definition no_client_runtime : WinRT := {|
  result h c := match c with Call "ActivateAudioInterfaceAsync" _ => E_FAIL | _ => S_OK end;
  operation w _ := one_async (now w);
  wait_fails _ := false;
  last_error_exists _ := false;
  has_thread_access _ := false;
  desktop := true
|}.

Lemma InitMixer_failure_ignored :
  (@CaptureDevice.InitTransport no_client_runtime audio_system new_microphone (mkWorld 0 [])).2 = Undefined.
Proof. vm_compute. reflexivity. Qed.

End Example.
