(* ===== verification/AudioTransport.v ===== *)
(** * AudioTransport: the threads of the audio devices

    The functions [Transport] of [CaptureDeviceInternal] and [RenderDeviceInternal],
    audio_device/win/audio_device_core_win.cc of the patches for libwebrtc, cut where they
    wait and where they take the critical section: the part before the loop, one turn of
    the inner loop, the part after the loops, and the two parts after the label [Exit].
    [AudioThreads] puts the parts together, [AudioData] says what becomes of the data.

    The two devices are instances of one class, whose laws say what the parts keep. *)

From S2P Require Import Prelude IntTypes HResult FloatTypes WinRT AudioDevice.
Open Scope Z_scope.

(** ** Results of the parts *)

(** Before the loop: the function returns, or goes to [Exit], or waits for the first time. *)
Inductive started (L : Type) := ReturnEarly | StartExits (hr : HRESULT) (l : L) | Loops (l : L).
Arguments ReturnEarly {L}.
Arguments StartExits {L} hr l.
Arguments Loops {L} l.

(** A turn of the inner loop: another turn, a wait, or [goto Exit]. *)
Inductive passed (L : Type) := Again (l : L) | Waits (l : L) | Exits (hr : HRESULT) (l : L).
Arguments Again {L} l.
Arguments Waits {L} l.
Arguments Exits {L} hr l.

(** [EXIT_ON_ERROR]: a failure goes to [Exit]. *)
Definition or_exit {S A} (m : com S A) (exits : HRESULT -> A) : com S A := fun s w =>
  match m s w with
  | (s, w, Failed hr) => (s, w, Good S_OK (exits hr))
  | r => r
  end.

(** The value of an expression that may be undefined. *)
Definition value {S A} (o : option A) : com S A := match o with Some a => mret a | None => undefined end.

(** What a method stores into a variable that was not initialized. *)
Definition stored {S} `{WinRT} (name : string) (x : Z) : com S Z := r ← attempt (getter name x); value r.

Definition AUDCLNT_S_BUFFER_EMPTY : HRESULT := hresult (0x08890001 + 2 ^ 32).
Definition AUDCLNT_BUFFERFLAGS_SILENT : Z := 2.

(** ** Memory *)

(** [CopyMemory] of [data] to the offset [off] of an array. *)
Definition write_at (array : bytes) (off : Z) (data : bytes) : option bytes :=
  guard_b (off + Z.of_nat (length data) <=? Z.of_nat (length array))
    (Some (take (Z.to_nat off) array ++ data ++ drop (Z.to_nat off + length data) array)).

(** The [len] bytes at the offset [off]. *)
Definition read_at (array : bytes) (off len : Z) : option bytes :=
  guard_b (off + len <=? Z.of_nat (length array)) (Some (take (Z.to_nat len) (drop (Z.to_nat off) array))).

(** [new BYTE[size]]. *)
Definition allocate `{AudioSystem} (h : list event) (size : Z) : bytes := map (new_bytes h) (seqZ 0 size).

(** Both threads stop the client, if there is one, when they leave early. *)
Definition stop_and_reset {D} `{WinRT} : com (AudioDeviceHelper D) unit :=
  this ← get;
  when (_audioClient this) (
    returned (method "IAudioClient::Stop") ;;
    returned (method "IAudioClient::Reset") ;; mret tt).

(** ** Recording *)

Module CaptureThread.
Section CaptureThread.
Context `{WinRT} `{AudioSystem}.
Abbreviation helper := (AudioDeviceHelper CaptureDeviceInternal).

(** The local variables of the thread, and the last [hr]. *)
Record locals := mkLocals { syncBuffer : bytes; syncBufIndex : Z; last_hr : HRESULT }.
Definition no_locals : locals := mkLocals [] 0 S_OK.

(** Up to the loop. *)
Definition Transport_start : com helper (started locals) :=
  modify (set_samples 0) ;;
  roInitializeWrapper ← returned (method "RoInitialize");
  this ← get;
  if (FAILED roInitializeWrapper || negb (_audioClient this))%bool then mret ReturnEarly else
  or_exit (
    h ← history;
    bufferLength ← getter "IAudioClient::GetBufferSize" (BufferSize h);
    let syncBufferSize := u32 (2 * u32 (bufferLength * _audioFrameSize (format this))) in
    h ← history;
    let syncBuffer := allocate h syncBufferSize in
    latency ← stored "IAudioClient::GetStreamLatency" (StreamLatency h);
    h ← history;
    devPeriod ← attempt (getter "IAudioClient::GetDevicePeriod" (DevicePeriod h));
    value (c_add Int64 Int64 latency (default 0 devPeriod)) ;;
    hr ← returned (method "IAudioClient::Start");
    set_hr hr ;;
    modify (set_startedEvent true) ;;
    mret (Loops (mkLocals syncBuffer 0 hr))) (fun hr => StartExits hr no_locals).

(** [((((UINT64)t1.QuadPart * _perfCounterFactor) - recTime) / 10000) + (10 * syncBufIndex)
    / _blockSize - 10], converted to [uint32_t]. *)
Definition delay_of (t1 : Z) (factor : spec_float) (recTime syncBufIndex blockSize : Z) : option Z :=
  quotient ← c_div Uint32 Uint32 (u32 (10 * syncBufIndex)) blockSize;
  let elapsed := f_div Double (f_sub Double (f_mul Double (of_int Double t1) factor) (of_int Double recTime)) (of_int Double 10000) in
  float_to_int Uint32 (f_sub Double (f_add Double elapsed (of_int Double quotient)) (of_int Double 10)).

(** A block for the buffer of the program. *)
Definition hand_over (block : Z) (data : bytes) (playDelay recDelay : Z) : com helper unit :=
  call_out (Call "SetRecordedBuffer" (block :: data)) ;;
  call_out (Call "SetVQEData" [static_cast Int32 playDelay; static_cast Int32 recDelay]) ;;
  call_out (Call "SetTypingStatus" [0]) ;;
  call_out (Call "DeliverRecordedData" []).

(** [while (syncBufIndex >= _blockSize)]: every turn removes a block.  None when the
    clients have gone. *)
Fixpoint deliver (fuel : nat) (buffer : bytes) (index playDelay recDelay : Z) : com helper (option (bytes * Z)) :=
  this ← get;
  let block := _blockSize (format this) in
  let frame := _audioFrameSize (format this) in
  if index <? block then mret (Some (buffer, index)) else
  match fuel with
  | O => running
  | Datatypes.S fuel =>
      data ← value (read_at buffer 0 (block * frame));
      when (_pAudioBuffer this) (hand_over block data playDelay recDelay) ;;
      this ← get;
      if (_pAudioBuffer this && (negb (_audioCaptureClient (derived this)) || negb (_audioClient this)))%bool then mret None else
      rest ← value (read_at buffer (u32 (block * frame)) (u32 (u32 (index - block) * frame)));
      buffer ← value (write_at buffer 0 rest);
      deliver fuel buffer (u32 (index - block)) playDelay (u32 (recDelay - 10))
  end.

(** A turn of the inner loop, in the critical section. *)
Definition Transport_pass (l : locals) : com helper (passed locals) :=
  this ← get;
  let exit hr := Exits hr l in
  if (negb (_audioCaptureClient (derived this)) || negb (_audioClient this))%bool then mret (exit (last_hr l)) else
  h ← history;
  hr ← returned (invoke (Call "IAudioCaptureClient::GetBuffer" []));
  if FAILED hr then mret (exit hr) else
  if decide (hr = AUDCLNT_S_BUFFER_EMPTY) then mret (Waits (mkLocals (syncBuffer l) (syncBufIndex l) hr)) else
  let p := Packet h in
  let frame := _audioFrameSize (format this) in
  let size := u32 (framesAvailable p * frame) in
  data ← value (if silent p then Some (replicate (Z.to_nat size) 0)
                else match pData p with None => Some (replicate (Z.to_nat size) 0) | Some d => read_at d 0 size end);
  buffer ← value (write_at (syncBuffer l) (u32 (syncBufIndex l * frame)) data);
  hr ← returned (invoke (Call "IAudioCaptureClient::ReleaseBuffer" [framesAvailable p]));
  if FAILED hr then mret (Exits hr (mkLocals buffer (syncBufIndex l) hr)) else
  modify (set_samples (static_cast Uint64 (_samples this + framesAvailable p))) ;;
  let index := u32 (syncBufIndex l + framesAvailable p) in
  h ← history;
  recDelay ← value (delay_of (QueryPerformanceCounter h) (_perfCounterFactor (derived this)) (recTime p) index (_blockSize (format this)));
  playDelay ← value (sndCardDelay h);
  delivered ← deliver (Z.to_nat index) buffer index playDelay recDelay;
  mret (match delivered with
        | Some (buffer, index) => Again (mkLocals buffer index hr)
        | None => Exits hr (mkLocals buffer index hr)
        end).

(** After the loop, when it was shut down; the last [hr]. *)
Definition Transport_leave (l : locals) : com helper HRESULT :=
  this ← get;
  if _audioClient this then returned (method "IAudioClient::Stop") else mret (last_hr l).

(** After [Exit], before the critical section. *)
Definition Transport_exit (hr : HRESULT) (l : locals) : com helper unit :=
  this ← get;
  when (FAILED hr) (non_null (_audioClient this) ;; returned (method "IAudioClient::Stop") ;; mret tt).

End CaptureThread.
End CaptureThread.

(** ** Playing *)

Module RenderThread.
Section RenderThread.
Context `{WinRT} `{AudioSystem}.
Abbreviation helper := (AudioDeviceHelper RenderDeviceInternal).

Record locals := mkLocals { bufferLength : Z; endpointBufferSizeMS : spec_float; clock : bool; last_hr : HRESULT }.
Definition no_locals : locals := mkLocals 0 (S754_zero false) false S_OK.

(** [10 * (bufferLength / _blockSize) + (int)((latency + devPeriod) / 10000)], stored as an
    [int]. *)
Definition playout_delay_of (bufferLength blockSize latency devPeriod : Z) : option Z :=
  quotient ← c_div Uint32 Uint32 bufferLength blockSize;
  sum ← c_add Int64 Int64 latency devPeriod;
  Some (static_cast Int32 (u32 (u32 (10 * quotient) + u32 (static_cast Int32 (Z.quot sum 10000))))).

Definition Transport_start : com helper (started locals) :=
  roInitializeWrapper ← returned (method "RoInitialize");
  if FAILED roInitializeWrapper then mret ReturnEarly else
  this ← get;
  non_null (_audioClient this) ;;
  or_exit (
    h ← history;
    bufferLength ← getter "IAudioClient::GetBufferSize" (BufferSize h);
    h ← history;
    padding ← getter "IAudioClient::GetCurrentPadding" (CurrentPadding h);
    h ← history;
    latency ← stored "IAudioClient::GetStreamLatency" (StreamLatency h);
    h ← history;
    devPeriod ← attempt (getter "IAudioClient::GetDevicePeriod" (DevicePeriod h));
    playout_delay ← value (playout_delay_of bufferLength (_blockSize (format this)) latency (default 0 devPeriod));
    update_derived (RenderDevice.set_delay (u32 playout_delay)) ;;
    modify (set_samples 0) ;;
    deviceBlockSize ← value (_deviceBlockSize (derived this));
    let endpointBufferSizeMS := f_mul Double (of_int Double 10) (f_div Double (of_int Double bufferLength) (of_int Double deviceBlockSize)) in
    let framesAvailable := u32 (bufferLength - padding) in
    non_null (_audioRenderClient (derived this)) ;;
    invoke (Call "IAudioRenderClient::GetBuffer" [framesAvailable]) ;;
    invoke (Call "IAudioRenderClient::ReleaseBuffer" [framesAvailable; AUDCLNT_BUFFERFLAGS_SILENT]) ;;
    modify (set_samples (static_cast Uint64 bufferLength)) ;;
    clock ← attempt (method "GetService(IAudioClock)");
    hr ← returned (method "IAudioClient::Start");
    let l := mkLocals bufferLength endpointBufferSizeMS (bool_decide (is_Some clock)) hr in
    if FAILED hr then mret (StartExits hr l)
    else
      modify (set_startedEvent true) ;;
      mret (Loops l)) (fun hr => StartExits hr no_locals).

(** The loop over the buffers of 10 milliseconds, after [hr]: the last [hr], and whether it
    left by [goto Exit]. *)
Fixpoint write_blocks (n : nat) (hr : HRESULT) : com helper (HRESULT * bool) :=
  match n with
  | O => mret (hr, false)
  | Datatypes.S n =>
      this ← get;
      let block := _blockSize (format this) in
      hr ← returned (invoke (Call "IAudioRenderClient::GetBuffer" [block]));
      if FAILED hr then mret (hr, true) else
      h ← history;
      when (_pAudioBuffer this) (call_out (Call "RequestPlayoutData" [block])) ;;
      if (_pAudioBuffer this && (RequestPlayoutData h =? -1))%bool then mret (hr, true) else
      this ← get;
      if (_pAudioBuffer this && (negb (_audioRenderClient (derived this)) || negb (_audioClient this)))%bool then mret (hr, true) else
      when (_pAudioBuffer this) (call_out (Call "GetPlayoutData" [])) ;;
      hr ← returned (invoke (Call "IAudioRenderClient::ReleaseBuffer" [block; 0]));
      if FAILED hr then mret (hr, true) else
      modify (fun s => set_samples (static_cast Uint64 (_samples s + block)) s) ;;
      write_blocks n hr
  end.

(** [round]: to the nearest integer, halves away from zero. *)
Definition round (x : spec_float) : option Z :=
  match x with
  | S754_zero _ => Some 0
  | S754_finite s m e => Some (cond_Zopp s (if 0 <=? e then Zpos m * 2 ^ e else (Zpos m + 2 ^ (- e - 1)) / 2 ^ (- e)))
  | S754_infinity _ | S754_nan => None
  end.

(** [round((double(_samples) / _deviceSampleRate - double(pos) / freq) * 1000.0)], an [int]. *)
Definition played_delay (samples rate pos freq : Z) : option Z :=
  let written := f_div Double (of_int Double samples) (of_int Double rate) in
  let played := f_div Double (of_int Double pos) (of_int Double freq) in
  z ← round (f_mul Double (f_sub Double written played) (of_int Double 1000));
  guard_b (in_range Int32 z) (Some z).

Definition update_delay : com helper unit :=
  h ← history;
  pos ← attempt (getter "IAudioClock::GetPosition" (ClockPosition h));
  h ← history;
  freq ← attempt (getter "IAudioClock::GetFrequency" (ClockFrequency h));
  this ← get;
  rate ← value (_deviceSampleRate (derived this));
  playout_delay ← value (played_delay (_samples this) rate (default 0 pos) (default 1 freq));
  update_derived (RenderDevice.set_delay (u32 playout_delay)).

(** A turn of the inner loop, in the critical section. *)
Definition Transport_pass (l : locals) : com helper (passed locals) :=
  this ← get;
  let with_hr hr := mkLocals (bufferLength l) (endpointBufferSizeMS l) (clock l) hr in
  let exit hr := Exits hr (with_hr hr) in
  if (negb (_audioRenderClient (derived this)) || negb (_audioClient this))%bool then mret (exit (last_hr l)) else
  h ← history;
  hr ← returned (invoke (Call "IAudioClient::GetCurrentPadding" []));
  if FAILED hr then mret (exit hr) else
  let framesAvailable := u32 (bufferLength l - CurrentPadding h) in
  if framesAvailable <? _blockSize (format this) then mret (Waits (with_hr hr)) else
  n10msBuffers ← value (c_div Uint32 Uint32 framesAvailable (_blockSize (format this)));
  left ← write_blocks (Z.to_nat n10msBuffers) hr;
  if (left.2 : bool) then mret (exit left.1)
  else when (clock l) update_delay ;; mret (Again (with_hr left.1)).

(** The [double] 0.5. *)
Definition one_half : spec_float := S754_finite false (2 ^ 52) (-53).

Definition Transport_leave (l : locals) : com helper HRESULT :=
  ms ← value (float_to_int Uint32 (f_add Double (endpointBufferSizeMS l) one_half));
  call_out (Call "SleepMs" [ms]) ;;
  this ← get;
  non_null (_audioClient this) ;;
  returned (method "IAudioClient::Stop").

Definition Transport_exit (hr : HRESULT) (l : locals) : com helper unit :=
  when (clock l) (call_out (Call "IAudioClock::Release" [])) ;;
  this ← get;
  when (FAILED hr) (non_null (_audioClient this) ;; returned (method "IAudioClient::Stop") ;; mret tt).

End RenderThread.
End RenderThread.

(** ** The virtual functions *)

(** What the derived classes override, and what is particular to their threads. *)
Class VirtualDevice `{WinRT} `{AudioSystem} (D : Type) := {
  device_class : DeviceClass;
  AttachAudioBuffer : bool -> com (AudioDeviceHelper D) unit;
  InitTransport : com (AudioDeviceHelper D) Z;
  SetStereo : bool -> com (AudioDeviceHelper D) Z;
  thread_locals : Type;
  Transport_start : com (AudioDeviceHelper D) (started thread_locals);
  Transport_pass : thread_locals -> com (AudioDeviceHelper D) (passed thread_locals);
  Transport_leave : thread_locals -> com (AudioDeviceHelper D) HRESULT;
  Transport_exit : HRESULT -> thread_locals -> com (AudioDeviceHelper D) unit;
  thread_hr : thread_locals -> HRESULT
}.

#[export] Instance capture_device `{WinRT} `{AudioSystem} : VirtualDevice CaptureDeviceInternal := {
  device_class := DeviceClass_AudioCapture;
  AttachAudioBuffer := CaptureDevice.AttachAudioBuffer;
  InitTransport := CaptureDevice.InitTransport;
  SetStereo := CaptureDevice.SetStereo;
  Transport_start := CaptureThread.Transport_start;
  Transport_pass := CaptureThread.Transport_pass;
  Transport_leave := CaptureThread.Transport_leave;
  Transport_exit := CaptureThread.Transport_exit;
  thread_hr := CaptureThread.last_hr
}.

#[export] Instance render_device `{WinRT} `{AudioSystem} : VirtualDevice RenderDeviceInternal := {
  device_class := DeviceClass_AudioRender;
  AttachAudioBuffer := RenderDevice.AttachAudioBuffer;
  InitTransport := RenderDevice.InitTransport;
  SetStereo := RenderDevice.SetStereo;
  Transport_start := RenderThread.Transport_start;
  Transport_pass := RenderThread.Transport_pass;
  Transport_leave := RenderThread.Transport_leave;
  Transport_exit := RenderThread.Transport_exit;
  thread_hr := RenderThread.last_hr
}.

(** ** What the threads keep

    They store into members that start and stop threads only to set the event of the
    start. *)

Definition control_without_start {D} (h : AudioDeviceHelper D) := (_transporting h, _hThread h, _hShutdownEvent h).

Lemma preserves_or_exit {S A} (R : S * world -> S * world -> Prop) `{!PreOrder R} (m : com S A) f :
  preserves R m -> preserves R (or_exit m f).
Proof. intros Hm s w. specialize (Hm s w). unfold or_exit. by destruct (m s w) as [[s1 w1] [hr a|hr| |]]. Qed.

Lemma preserves_value {S A} (R : S * world -> S * world -> Prop) `{!PreOrder R} (o : option A) : preserves R (value o).
Proof. destruct o; cbn; eauto with winrt. Qed.

Lemma preserves_stored `{WinRT} {S} (R : S * world -> S * world -> Prop) `{!PreOrder R} `{!Neutral R} n x : preserves R (stored n x).
Proof. unfold stored. keep. by apply preserves_value. Qed.

#[export] Hint Resolve preserves_or_exit preserves_value preserves_stored : winrt.

Class VirtualDeviceLaws `{WinRT} `{AudioSystem} {D} (V : VirtualDevice D) := {
  Attach_kept b : preserves (kept control) (AttachAudioBuffer b);
  InitTransport_kept : preserves (kept control) InitTransport;
  SetStereo_kept b : preserves (kept control) (SetStereo b);
  start_kept : preserves (kept control_without_start) Transport_start;
  pass_kept l : preserves (kept control) (Transport_pass l);
  leave_kept l : preserves (kept control) (Transport_leave l);
  exit_kept hr l : preserves (kept control) (Transport_exit hr l)
}.

Section Kept.
Context `{WinRT} `{AudioSystem}.

Lemma stop_and_reset_kept {D T} (f : AudioDeviceHelper D -> T) : preserves (kept f) stop_and_reset.
Proof. unfold stop_and_reset. keep. Qed.

Lemma hand_over_kept block data playDelay recDelay : preserves (kept control) (CaptureThread.hand_over block data playDelay recDelay).
Proof. unfold CaptureThread.hand_over. keep. Qed.
#[local] Hint Resolve hand_over_kept : winrt.

Lemma deliver_kept fuel buffer index playDelay recDelay : preserves (kept control) (CaptureThread.deliver fuel buffer index playDelay recDelay).
Proof.
  revert buffer index recDelay. induction fuel as [|fuel IH]; intros buffer index recDelay; cbn [CaptureThread.deliver]; keep.
Qed.

Lemma write_blocks_kept n hr : preserves (kept control) (RenderThread.write_blocks n hr).
Proof. revert hr. induction n as [|n IH]; intros hr; cbn [RenderThread.write_blocks]; keep. Qed.
#[local] Hint Resolve deliver_kept write_blocks_kept : winrt.

#[export] Instance capture_laws : VirtualDeviceLaws capture_device.
Proof.
  constructor.
  - apply capture_AttachAudioBuffer_kept.
  - apply capture_InitTransport_kept.
  - apply capture_SetStereo_kept.
  - cbn. unfold CaptureThread.Transport_start. keep. apply preserves_or_exit; [apply _|]. keep.
  - intros l. cbn. unfold CaptureThread.Transport_pass. keep.
  - intros l. cbn. unfold CaptureThread.Transport_leave. keep.
  - intros hr l. cbn. unfold CaptureThread.Transport_exit. keep.
Qed.

#[export] Instance render_laws : VirtualDeviceLaws render_device.
Proof.
  constructor.
  - apply render_AttachAudioBuffer_kept.
  - apply render_InitTransport_kept.
  - apply render_SetStereo_kept.
  - cbn. unfold RenderThread.Transport_start. keep. apply preserves_or_exit; [apply _|]. keep.
  - intros l. cbn. unfold RenderThread.Transport_pass, RenderThread.update_delay. keep.
  - intros l. cbn. unfold RenderThread.Transport_leave. keep.
  - intros hr l. cbn. unfold RenderThread.Transport_exit. keep.
Qed.

End Kept.
