(* ===== verification/AudioData.v ===== *)
(** * AudioData: what the audio threads do to the data

    Theorems on [Transport] of audio_device/win/audio_device_core_win.cc, in
    [AudioTransport]: recording hands over in blocks of 10 milliseconds what the packets
    hold, unchanged and in order, and stays within its buffer; playing fills the free part
    of the buffer of the device and requests no more than that. *)

From S2P Require Import Prelude IntTypes HResult FloatTypes WinRT AudioDevice AudioTransport.
Open Scope Z_scope.

(** ** Recording: what goes in comes out *)

Section CaptureData.
Context `{WinRT} `{AudioSystem}.
Abbreviation helper := (AudioDeviceHelper CaptureDeviceInternal).
Import CaptureThread.

Lemma u32_small z : 0 <= z < 2 ^ 32 -> u32 z = z.
Proof. intros Hz. unfold u32. apply static_cast_id. unfold InRange. cbn. lia. Qed.

Lemma bind_some {S A B} (a : A) (f : A -> com S B) s w : (value (Some a) ≫= f) s w = f a s w.
Proof. done. Qed.

(** *** Memory *)

Lemma read_at_Some array off len : 0 <= off -> 0 <= len -> off + len <= Z.of_nat (length array) ->
  exists data, read_at array off len = Some data /\ Z.of_nat (length data) = len /\
  data = take (Z.to_nat len) (drop (Z.to_nat off) array).
Proof.
  intros Ho Hl Hr. unfold read_at, guard_b. destruct (Z.leb_spec (off + len) (Z.of_nat (length array))); [|lia].
  eexists. split; [done|]. split; [|done]. rewrite length_take, length_drop. lia.
Qed.

Lemma write_at_Some array off data : 0 <= off -> off + Z.of_nat (length data) <= Z.of_nat (length array) ->
  exists array', write_at array off data = Some array' /\ length array' = length array /\
  take (Z.to_nat off + length data) array' = take (Z.to_nat off) array ++ data.
Proof.
  intros Ho Hl. unfold write_at, guard_b. destruct (Z.leb_spec (off + Z.of_nat (length data)) (Z.of_nat (length array))); [|lia].
  eexists. split; [done|]. split.
  - rewrite !length_app, length_take, length_drop. lia.
  - rewrite app_assoc. rewrite take_app_length'; [done|]. rewrite length_app, length_take. lia.
Qed.

Lemma mod_sub_self a b : 0 < b -> (a - b) mod b = a mod b.
Proof. intros Hb. rewrite <- (Z_mod_plus_full (a - b) 1 b). f_equal. lia. Qed.

(** *** The calls of a history *)

Definition GetBuffer_name : string := "IAudioCaptureClient::GetBuffer".

(** The bytes an event hands to the buffer of the program. *)
Definition delivered_by (e : event) : bytes :=
  match e.1 with Call n (_ :: data) => if String.eqb n "SetRecordedBuffer" then data else [] | _ => [] end.
Definition delivered (tr : list event) : bytes := concat (map delivered_by tr).

(** The bytes of a packet of frames of the given size. *)
Definition packet_bytes (frame : Z) (p : packet) : bytes :=
  let size := Z.to_nat (framesAvailable p * frame) in
  if silent p then replicate size 0 else match pData p with None => replicate size 0 | Some d => take size d end.

(** [GetBuffer] has returned a packet. *)
Definition is_packet (e : event) : bool :=
  match e.1 with Call n _ => String.eqb n GetBuffer_name && SUCCEEDED e.2 && negb (bool_decide (e.2 = AUDCLNT_S_BUFFER_EMPTY)) | _ => false end.

(** The bytes of the packets that the events [tr] after the history [h] have returned. *)
Fixpoint taken (frame : Z) (h tr : list event) : bytes :=
  match tr with
  | [] => []
  | e :: tr => (if is_packet e then packet_bytes frame (Packet h) else []) ++ taken frame (h ++ [e]) tr
  end.

(** A block handed over has the bytes of its frames. *)
Definition whole_block (block frame : Z) (e : event) : Prop :=
  match e.1 with
  | Call n (k :: data) => n = "SetRecordedBuffer"%string -> k = block /\ Z.of_nat (length data) = block * frame
  | _ => True
  end.

Lemma delivered_bytes_app a b : delivered (a ++ b) = delivered a ++ delivered b.
Proof. unfold delivered. by rewrite map_app, concat_app. Qed.

Lemma taken_app frame h a b : taken frame h (a ++ b) = taken frame h a ++ taken frame (h ++ a) b.
Proof.
  revert h. induction a as [|e a IH]; intros h; cbn; [by rewrite app_nil_r|]. by rewrite IH, <- !app_assoc.
Qed.

Lemma taken_none frame h tr : Forall (fun e => is_packet e = false) tr -> taken frame h tr = [].
Proof. intros Htr. revert h. induction Htr as [|e tr He Htr IH]; intros h; cbn; [done|]. by rewrite He, IH. Qed.

(** *** The loop that delivers *)

(** The stream is open and the program has attached its buffer. *)
Definition capturing (h : helper) : Prop :=
  _audioCaptureClient (derived h) = true /\ _audioClient h = true /\ _pAudioBuffer h = true /\
  0 < _blockSize (format h) /\ 0 < _audioFrameSize (format h).

Lemma hand_over_spec block frame data pd rd (h : helper) w : Z.of_nat (length data) = block * frame ->
  exists tr, hand_over block data pd rd h w = (h, mkWorld (now w) (trace w ++ tr), Good S_OK tt) /\
  delivered tr = data /\ Forall (fun e => is_packet e = false) tr /\ Forall (whole_block block frame) tr.
Proof.
  intros Hlen. unfold hand_over, call_out, mbind, com_bind, record. cbn [trace now]. rewrite <- !app_assoc.
  eexists. split; [reflexivity|]. split; [unfold delivered; cbn; by rewrite app_nil_r|]. split; by repeat constructor.
Qed.

Lemma deliver_spec fuel buffer index pd rd h w :
  capturing h -> 0 <= index -> index * _audioFrameSize (format h) <= Z.of_nat (length buffer) < 2 ^ 32 -> (Z.to_nat index <= fuel)%nat ->
  exists buffer' tr,
    deliver fuel buffer index pd rd h w =
      (h, mkWorld (now w) (trace w ++ tr), Good S_OK (Some (buffer', index mod _blockSize (format h)))) /\
    length buffer' = length buffer /\ Forall (fun e => is_packet e = false) tr /\
    Forall (whole_block (_blockSize (format h)) (_audioFrameSize (format h))) tr /\
    delivered tr ++ take (Z.to_nat (index mod _blockSize (format h) * _audioFrameSize (format h))) buffer' =
      take (Z.to_nat (index * _audioFrameSize (format h))) buffer.
Proof.
  intros Hcap Hi Hbuf Hfuel. pose proof Hcap as (Hcc & Hac & Hab & Hb & Hf).
  set (b := _blockSize (format h)) in *. set (f := _audioFrameSize (format h)) in *.
  revert buffer index rd w Hi Hbuf Hfuel. induction fuel as [|fuel IH]; intros buffer index rd w Hi Hbuf Hfuel; cbn [deliver];
    unfold mbind, com_bind; cbn [get]; fold b f.
  - assert (index = 0) as -> by lia. destruct (Z.ltb_spec 0 b); [|lia]. exists buffer, []. rewrite Z.mod_small by lia.
    cbn. rewrite app_nil_r. by destruct w.
  - destruct (Z.ltb_spec index b) as [Hlt|Hge].
    { exists buffer, []. rewrite Z.mod_small by lia. cbn. rewrite app_nil_r. by destruct w. }
    destruct (read_at_Some buffer 0 (b * f)) as (data & -> & Hdl & Hd); [lia|nia|nia|].
    cbn [value mret com_ret]. rewrite Hab. cbn [when]. destruct (hand_over_spec b f data pd rd h w Hdl) as (tr1 & -> & Hd1 & Hn1 & Hw1).
    rewrite Hab, Hcc, Hac. cbn [negb andb orb].
    rewrite (u32_small (b * f)), (u32_small (index - b)), (u32_small ((index - b) * f)) by nia.
    destruct (read_at_Some buffer (b * f) ((index - b) * f)) as (rest & -> & Hrl & Hr); [nia|nia|nia|]. cbn [value mret com_ret].
    destruct (write_at_Some buffer 0 rest) as (buffer1 & -> & Hbl & Hbt); [lia|nia|]. cbn [value mret com_ret].
    edestruct (IH buffer1 (index - b) (u32 (rd - 10))) as (buffer2 & tr & -> & Hlen & Hno & Hwh & Hdel); [lia|rewrite Hbl; nia|lia|].
    exists buffer2, (tr1 ++ tr). cbn [now trace]. rewrite (mod_sub_self index b) in * by lia. rewrite app_assoc.
    split; [done|]. split; [lia|]. split; [by apply Forall_app|]. split; [by apply Forall_app|].
    rewrite delivered_bytes_app, <- app_assoc, Hd1, Hdel. rewrite Z2Nat.inj_0 in *. cbn [Nat.add app take drop] in *.
    replace (Z.to_nat ((index - b) * f)) with (length rest) by lia. rewrite Hbt, Hd, Hr.
    replace (Z.to_nat (index * f)) with (Z.to_nat (b * f) + Z.to_nat ((index - b) * f))%nat by nia. by rewrite <- take_take_drop.
Qed.

(** *** A turn *)

(** The bytes that wait in the buffer. *)
Definition pending (h : helper) (l : locals) : bytes := take (Z.to_nat (syncBufIndex l * _audioFrameSize (format h))) (syncBuffer l).

(** The buffer of the thread has room for twice the [N] frames of the buffer of the
    device, which has room for a block but one frame. *)
Definition buffer_ok (N : Z) (h : helper) (l : locals) : Prop :=
  Z.of_nat (length (syncBuffer l)) = 2 * (N * _audioFrameSize (format h)) /\ 2 * (N * _audioFrameSize (format h)) < 2 ^ 32 /\
  _blockSize (format h) <= N + 1 /\ 0 <= syncBufIndex l < _blockSize (format h).

(** Packets are not larger than the buffer of the device, and have the bytes of their
    frames. *)
Definition packets_fit (N frame : Z) : Prop := forall h, let p := Packet h in
  0 <= framesAvailable p <= N /\ (forall d, pData p = Some d -> framesAvailable p * frame <= Z.of_nat (length d)).

(** The delay of the recording or of the playing has no value. *)
Definition no_delay (h : helper) (l : locals) (at_packet at_delay : list event) : Prop :=
  delay_of (QueryPerformanceCounter at_delay) (_perfCounterFactor (derived h)) (recTime (Packet at_packet))
    (syncBufIndex l + framesAvailable (Packet at_packet)) (_blockSize (format h)) = None \/ sndCardDelay at_delay = None.

Definition GetBuffer_call : call := Call GetBuffer_name [].
Definition ReleaseBuffer_call (frames : Z) : call := Call "IAudioCaptureClient::ReleaseBuffer" [frames].

Lemma packet_value N (h : helper) p : packets_fit N (_audioFrameSize (format h)) -> (exists tr, p = Packet tr) -> 
  0 < _audioFrameSize (format h) -> N * _audioFrameSize (format h) < 2 ^ 31 ->
  exists data, (if silent p then Some (replicate (Z.to_nat (u32 (framesAvailable p * _audioFrameSize (format h)))) 0)
    else match pData p with None => Some (replicate (Z.to_nat (u32 (framesAvailable p * _audioFrameSize (format h)))) 0)
         | Some d => read_at d 0 (u32 (framesAvailable p * _audioFrameSize (format h))) end) = Some data /\
  Z.of_nat (length data) = framesAvailable p * _audioFrameSize (format h) /\ data = packet_bytes (_audioFrameSize (format h)) p.
Proof.
  intros Hfit [tr ->] Hf HN. destruct (Hfit tr) as [Hfr Hd]. set (f := _audioFrameSize (format h)) in *. set (p := Packet tr) in *.
  rewrite u32_small by nia. unfold packet_bytes. destruct (silent p); [eexists; split; [done|]; split; [rewrite length_replicate; nia|done]|].
  destruct (pData p) as [d|]; [|eexists; split; [done|]; split; [rewrite length_replicate; nia|done]].
  specialize (Hd d eq_refl). destruct (read_at_Some d 0 (framesAvailable p * f)) as (data & -> & Hl & Hdd); [lia|nia|lia|].
  by exists data.
Qed.

Lemma pass_spec N l (h : helper) w : capturing h -> buffer_ok N h l -> packets_fit N (_audioFrameSize (format h)) ->
  match Transport_pass l h w with
  | (h', w', o) => exists tr, trace w' = trace w ++ tr /\ (exists n, h' = set_samples n h) /\
    match o with
    | Good _ (Again l') | Good _ (Waits l') =>
        buffer_ok N h l' /\ Forall (whole_block (_blockSize (format h)) (_audioFrameSize (format h))) tr /\
        delivered tr ++ pending h l' = pending h l ++ taken (_audioFrameSize (format h)) (trace w) tr
    | Good _ (Exits _ _) => True
    | Undefined => exists h2, no_delay h l (trace w) h2
    | Failed _ | Running => False
    end
  end.
Proof.
  intros Hcap Hbuf Hfit. pose proof Hcap as (Hcc & Hac & Hab & Hb & Hf). pose proof Hbuf as (Hlen & Hmax & HbN & Hidx).
  assert (exists n, h = set_samples n h) as Hsame by (exists (_samples h); by destruct h).
  unfold Transport_pass. cbv zeta. rewrite (bind_value get h _ _ _ S_OK) by done. rewrite Hcc, Hac. cbn [negb orb].
  rewrite (bind_value history (trace w) _ _ _ S_OK) by done. rewrite bind_returned. fold GetBuffer_name. fold GetBuffer_call.
  set (r := result (trace w) GetBuffer_call). unfold FAILED. destruct (SUCCEEDED r) eqn:Hr; cbn [negb].
  2: { exists [(GetBuffer_call, r)]. done. }
  destruct (decide (r = AUDCLNT_S_BUFFER_EMPTY)) as [He|Hne].
  { exists [(GetBuffer_call, r)]. split; [done|]. split; [done|]. split; [done|]. cbn. rewrite bool_decide_true by done. rewrite andb_false_r.
    split; [by repeat constructor|]. by rewrite !app_nil_r. }
  destruct (packet_value N h (Packet (trace w))) as (data & Hdata & Hdl & Hdp); [done|by eexists|done|nia|].
  rewrite Hdata. clear Hdata. rewrite bind_some.
  set (f := _audioFrameSize (format h)) in *. set (b := _blockSize (format h)) in *. set (p := Packet (trace w)) in *.
  destruct (Hfit (trace w)) as [Hfr _]. fold p in Hfr.
  rewrite (u32_small (syncBufIndex l * f)) by nia.
  destruct (write_at_Some (syncBuffer l) (syncBufIndex l * f) data) as (buffer & -> & Hbl & Hbt); [nia|nia|].
  rewrite bind_some. rewrite bind_returned.
  fold (ReleaseBuffer_call (framesAvailable p)). set (w1 := record GetBuffer_call r w).
  set (r2 := result (trace w1) (ReleaseBuffer_call (framesAvailable p))). destruct (SUCCEEDED r2) eqn:Hr2; cbn [negb].
  2: { exists [(GetBuffer_call, r); (ReleaseBuffer_call (framesAvailable p), r2)]. cbn [trace record w1]. rewrite <- app_assoc. done. }
  unfold mbind at 1, com_bind at 1, modify. set (h1 := set_samples _ h).
  rewrite (bind_value history (trace (record (ReleaseBuffer_call (framesAvailable p)) r2 w1)) _ _ _ S_OK) by done.
  set (w2 := record (ReleaseBuffer_call (framesAvailable p)) r2 w1).
  assert (trace w2 = trace w ++ [(GetBuffer_call, r); (ReleaseBuffer_call (framesAvailable p), r2)]) as Hw2 by (cbn; by rewrite <- app_assoc).
  rewrite (u32_small (syncBufIndex l + framesAvailable p)) by nia.
  destruct (delay_of _ _ _ _ _) as [recDelay|] eqn:Hdelay.
  2: { eexists. split; [exact Hw2|]. split; [by eexists|]. exists (trace w2). by left. }
  rewrite bind_some.
  destruct (sndCardDelay (trace w2)) as [playDelay|] eqn:Hplay.
  2: { eexists. split; [exact Hw2|]. split; [by eexists|]. exists (trace w2). by right. }
  rewrite bind_some.
  set (index := syncBufIndex l + framesAvailable p) in *.
  destruct (deliver_spec (Z.to_nat index) buffer index playDelay recDelay h1 w2) as (buffer' & tr & Hrun & Hl' & Hno & Hwh & Hdel); [done|lia|cbn; nia|lia|].
  unfold mbind, com_bind. rewrite Hrun. cbn [trace]. exists ([(GetBuffer_call, r); (ReleaseBuffer_call (framesAvailable p), r2)] ++ tr).
  rewrite Hw2. split; [by rewrite app_assoc|]. split; [by eexists|]. cbn [mret com_ret]. change (_audioFrameSize (format h1)) with f in Hdel. change (_blockSize (format h1)) with b in *.
  split.
  - unfold buffer_ok. cbn. fold f b. rewrite Hl', Hbl. pose proof (Z.mod_pos_bound index b Hb). done.
  - split; [apply Forall_app; split; [by apply Forall_cons; split; [|apply Forall_cons; split]|done]|]. unfold pending. cbn [syncBufIndex syncBuffer]. fold f. rewrite delivered_bytes_app.
    rewrite taken_app, (taken_none _ _ tr Hno), app_nil_r. cbn [delivered map concat delivered_by fst taken].
    assert (is_packet (GetBuffer_call, r) = true) as ->.
    { unfold is_packet. cbn [fst snd GetBuffer_call]. rewrite Hr, bool_decide_false by done. by rewrite String.eqb_refl. }
    fold p. rewrite <- Hdp. cbn. rewrite app_nil_r. rewrite Hdel. unfold index. rewrite <- Hbt. f_equal. nia.
Qed.

(** *** The whole thread *)

(** At most [n] turns of the loops. *)
Fixpoint turns (n : nat) (l : locals) : com helper (passed locals) :=
  match n with
  | O => mret (Again l)
  | Datatypes.S n =>
      r ← Transport_pass l;
      match r with Again l | Waits l => turns n l | Exits _ _ => mret r end
  end.

(** What [n] turns have done. *)
Definition fifo (N : Z) (h : helper) (l : locals) (w : world) (r : helper * world * outcome (passed locals)) : Prop :=
  match r with
  | (_, w', Good _ (Again l')) | (_, w', Good _ (Waits l')) => exists tr, trace w' = trace w ++ tr /\ buffer_ok N h l' /\
      Forall (whole_block (_blockSize (format h)) (_audioFrameSize (format h))) tr /\
      delivered tr ++ pending h l' = pending h l ++ taken (_audioFrameSize (format h)) (trace w) tr
  | (_, _, Good _ (Exits _ _)) => True
  | (_, _, Undefined) => exists l' h1 h2, no_delay h l' h1 h2
  | (_, _, Failed _) | (_, _, Running) => False
  end.

Lemma turns_fifo N n l h w : capturing h -> buffer_ok N h l -> packets_fit N (_audioFrameSize (format h)) -> fifo N h l w (turns n l h w).
Proof.
  intros Hcap Hbuf Hfit. revert l h w Hcap Hbuf Hfit. induction n as [|n IH]; intros l h w Hcap Hbuf Hfit; cbn [turns].
  { exists []. rewrite app_nil_r. split; [done|]. split; [done|]. split; [done|]. by rewrite app_nil_r. }
  pose proof (pass_spec N l h w Hcap Hbuf Hfit) as Hp. unfold mbind, com_bind.
  destruct (Transport_pass l h w) as [[h1 w1] [hr o|hr| |]]; destruct Hp as (tr & Htr & (k & ->) & Hp); [|done| |done].
  2: { cbn. destruct Hp as (h2 & Hp). by exists l, (trace w), h2. }
  assert (forall l', buffer_ok N h l' -> Forall (whole_block (_blockSize (format h)) (_audioFrameSize (format h))) tr ->
    delivered tr ++ pending h l' = pending h l ++ taken (_audioFrameSize (format h)) (trace w) tr ->
    fifo N h l w (turns n l' (set_samples k h) w1)) as Hnext.
  { intros l' Hb' Hwh Hd. specialize (IH l' (set_samples k h) w1 Hcap Hb' Hfit).
    destruct (turns n l' (set_samples k h) w1) as [[h2 w2] [hr2 [l2|l2|hr3 l2]|hr2| |]]; try done;
    destruct IH as (tr2 & Htr2 & Hb2 & Hwh2 & Hd2); exists (tr ++ tr2); rewrite Htr2, Htr, app_assoc;
    (split; [done|]; split; [done|]; split; [by apply Forall_app|]);
    change (pending (set_samples k h)) with (pending h) in Hd2; change (format (set_samples k h)) with (format h) in Hd2;
    rewrite delivered_bytes_app, <- app_assoc, Hd2, app_assoc, Hd, taken_app, Htr, app_assoc; done. }
  destruct o as [l'|l'|hr' l']; [destruct Hp as (? & ? & ?); by apply Hnext..|done].
Qed.

Lemma or_exit_good {S A} (m : com S A) f s w s' w' hr a :
  or_exit m f s w = (s', w', Good hr a) -> (forall hr, f hr <> a) -> m s w = (s', w', Good hr a).
Proof. unfold or_exit. destruct (m s w) as [[s1 w1] [| | |]]; try done. intros [= <- <- <- <-] Hf. by destruct (Hf hr0). Qed.

Lemma stored_good {S} n x (s : S) w s' w' hr a : stored n x s w = (s', w', Good hr a) -> s' = s.
Proof.
  unfold stored, mbind, com_bind, attempt, getter, then_value, then_keep, method, invoke. destruct (SUCCEEDED _); [|done]. by intros [= <- <- <- <-].
Qed.

(** The thread has a buffer, with nothing in it, when it comes to its loop. *)
Lemma start_buffer N h0 w0 h w hr l : (forall tr, BufferSize tr = N) -> 0 <= N -> 0 < _blockSize (format h) <= N + 1 -> 0 < _audioFrameSize (format h) ->
  N * _audioFrameSize (format h) < 2 ^ 31 -> Transport_start h0 w0 = (h, w, Good hr (Loops l)) -> buffer_ok N h l /\ pending h l = [].
Proof.
  intros HN HN0 Hb Hf Hsize. unfold Transport_start, mbind at 1, com_bind at 1, modify. unfold method. rewrite bind_returned.
  rewrite (bind_value get (set_samples 0 h0) _ _ _ S_OK) by done. destruct (_ || _)%bool; [done|].
  intros Hm%or_exit_good; [|done].
  apply bind_good in Hm as (h1 & s1 & w1 & hr1 & [= <- <- _ <-] & Hm).
  apply bind_good in Hm as (n & s2 & w2 & hr2 & [-> ->]%getter_good & Hm).
  apply bind_good in Hm as (h3 & s3 & w3 & hr3 & [= <- <- _ <-] & Hm).
  apply bind_good in Hm as (x & s4 & w4 & hr4 & Hst & Hm). apply stored_good in Hst as ->.
  apply bind_good in Hm as (h5 & s5 & w5 & hr5 & [= <- <- _ <-] & Hm).
  apply bind_good in Hm as (period & s9 & w9 & hr9 & Hs & Hm). apply (kept_result (fun s => s)) in Hs as ->; [|keep].
  apply bind_good in Hm as (sum & s10 & w10 & hr10 & Hs & Hm). apply (kept_result (fun s => s)) in Hs as ->; [|apply preserves_value; apply _].
  apply bind_good in Hm as (x6 & s6 & w6 & hr6 & Hret & Hm). apply returned_good in Hret as ->.
  apply bind_good in Hm as (x7 & s7 & w7 & hr7 & Hset & Hm).
  assert (s7 = set_samples 0 h0) as -> by (revert Hset; unfold set_hr; destruct (SUCCEEDED _); congruence).
  apply bind_good in Hm as (x8 & s8 & w8 & hr8 & [= <- <- _ <-] & [= <- <- _ <-]).
  rewrite HN in *. cbn [format set_startedEvent set_samples] in *. rewrite (u32_small (N * _)), (u32_small (2 * _)) by nia.
  split; [|done]. unfold buffer_ok, allocate. cbn [syncBuffer syncBufIndex]. rewrite length_map, length_seqZ.
  cbn [format set_startedEvent set_samples]. split; [lia|]. split; [lia|]. lia.
Qed.

(** C24: Recording loses, repeats and reorders nothing, and stays within its buffer: if the
    buffer of the device has a size that does not change, no packet is larger than it, and it
    has room for a block of 10 milliseconds but a frame, then after any number of turns the bytes of the blocks that were handed over, and the bytes that wait
    for the rest of their block, are the bytes of all packets in order; every block is
    whole; and a turn is undefined only when one of the two delays has no value.  (A smaller
    buffer overflows, see [Example.small_buffer_overflows]; the assertions of the loop are
    those of a build without them, where a packet may be empty.) *)
Theorem capture_fifo N n h0 w0 h w hr l :
  (forall tr, BufferSize tr = N) -> packets_fit N (_audioFrameSize (format h)) -> capturing h ->
  _blockSize (format h) <= N + 1 -> N * _audioFrameSize (format h) < 2 ^ 31 ->
  Transport_start h0 w0 = (h, w, Good hr (Loops l)) ->
  match turns n l h w with
  | (_, w', Good _ (Again l')) | (_, w', Good _ (Waits l')) => exists tr, trace w' = trace w ++ tr /\
      delivered tr ++ pending h l' = taken (_audioFrameSize (format h)) (trace w) tr /\
      Forall (whole_block (_blockSize (format h)) (_audioFrameSize (format h))) tr /\
      0 <= syncBufIndex l' < _blockSize (format h)
  | (_, _, Good _ (Exits _ _)) => True
  | (_, _, Undefined) => exists l' h1 h2, no_delay h l' h1 h2
  | (_, _, Failed _) | (_, _, Running) => False
  end.
Proof.
  intros HN Hfit Hcap Hb Hsize Hs. pose proof Hcap as (_ & _ & _ & Hb0 & Hf).
  assert (0 <= N) as HN0 by (destruct (Hfit []) as [? _]; lia).
  destruct (start_buffer N h0 w0 h w hr l) as [Hok Hp]; [done..|].
  pose proof (turns_fifo N n l h w Hcap Hok Hfit) as Ht. destruct (turns n l h w) as [[h2 w2] [hr2 [l2|l2|hr3 l2]|hr2| |]]; try done;
    destruct Ht as (tr & Htr & Hok2 & Hwh & Hd); exists tr; rewrite Hp in Hd; by destruct Hok2 as (_ & _ & _ & Hi).
Qed.

End CaptureData.

(** ** Playing: the free part of the buffer is filled *)

Section RenderData.
Context `{WinRT} `{AudioSystem}.
Abbreviation helper := (AudioDeviceHelper RenderDeviceInternal).
Import RenderThread.

(** The first arguments of the calls of a function, added. *)
Definition frames_of (name : string) (e : event) : Z :=
  match e.1 with Call n (k :: _) => if String.eqb n name then k else 0 | _ => 0 end.
Fixpoint total (name : string) (tr : list event) : Z :=
  match tr with [] => 0 | e :: tr => frames_of name e + total name tr end.

Lemma total_app name a b : total name (a ++ b) = total name a + total name b.
Proof. induction a as [|e a IH]; cbn; lia. Qed.

Definition requested : list event -> Z := total "IAudioRenderClient::GetBuffer".
Definition written : list event -> Z := total "IAudioRenderClient::ReleaseBuffer".
Definition asked_for : list event -> Z := total "RequestPlayoutData".

Lemma call_out_when b c (h : helper) w : exists tr, when b (call_out c) h w = (h, mkWorld (now w) (trace w ++ tr), Good S_OK tt) /\
  (forall name, total name tr = if b then frames_of name (c, S_OK) else 0).
Proof.
  destruct b; cbn.
  - eexists. split; [reflexivity|]. intros name. cbn. unfold frames_of. cbn. lia.
  - exists []. rewrite app_nil_r. by destruct w.
Qed.

Lemma static_cast_add t a b : static_cast t (static_cast t a + b) = static_cast t (a + b).
Proof.
  destruct (static_cast_cong t a) as [k Hk]. rewrite Hk. replace (a + k * 2 ^ width t + b) with (a + b + k * 2 ^ width t) by lia.
  apply static_cast_shift.
Qed.

(** The blocks written after [hr]; the requests never exceed them by more than one. *)
Lemma write_blocks_spec n hr (h : helper) w : 0 <= _blockSize (format h) -> InRange Uint64 (_samples h) ->
  exists tr k hr' left, write_blocks n hr h w = (set_samples k h, mkWorld (now w) (trace w ++ tr), Good S_OK (hr', left)) /\
  0 <= written tr <= requested tr /\ requested tr <= Z.of_nat n * _blockSize (format h) /\
  (left = false -> written tr = Z.of_nat n * _blockSize (format h) /\
    asked_for tr = (if _pAudioBuffer h then written tr else 0) /\ k = static_cast Uint64 (_samples h + written tr)).
Proof.
  intros Hb. revert hr h w Hb. induction n as [|n IH]; intros hr h w Hb Hs; cbn [write_blocks].
  { exists [], (_samples h), hr, false. rewrite app_nil_r. split; [by destruct h, w|]. cbn. split; [lia|]. split; [lia|]. intros _.
    split; [done|]. split; [by destruct (_pAudioBuffer h)|]. rewrite Z.add_0_r. symmetry. by apply (static_cast_id Uint64). }
  rewrite (bind_value get h _ _ _ S_OK) by done. cbv zeta. rewrite bind_returned. set (b := _blockSize (format h)) in *.
  set (c1 := Call "IAudioRenderClient::GetBuffer" [b]). set (r1 := result (trace w) c1). unfold FAILED. destruct (SUCCEEDED r1); cbn [negb].
  2: { exists [(c1, r1)], (_samples h), r1, true. split; [by destruct h, w|]. cbn. split; [lia|]. split; [lia|done]. }
  rewrite (bind_value history (trace (record c1 r1 w)) _ _ _ S_OK) by done.
  destruct (call_out_when (_pAudioBuffer h) (Call "RequestPlayoutData" [b]) h (record c1 r1 w)) as (tr2 & Hrun2 & Ht2).
  unfold mbind at 1, com_bind at 1. rewrite Hrun2. clear Hrun2.
  destruct (_ && (RequestPlayoutData _ =? -1))%bool.
  { exists ([(c1, r1)] ++ tr2), (_samples h), r1, true. split; [cbn; rewrite <- app_assoc; by destruct h|].
    unfold requested, written, asked_for. rewrite !total_app, !Ht2. cbn. split; [destruct (_pAudioBuffer h); lia|]. split; [destruct (_pAudioBuffer h); lia|done]. }
  rewrite (bind_value get h _ _ _ S_OK) by done. destruct (_ && (_ || _))%bool.
  { exists ([(c1, r1)] ++ tr2), (_samples h), r1, true. split; [cbn; rewrite <- app_assoc; by destruct h|].
    unfold requested, written, asked_for. rewrite !total_app, !Ht2. cbn. split; [destruct (_pAudioBuffer h); lia|]. split; [destruct (_pAudioBuffer h); lia|done]. }
  match goal with |- context [when (_pAudioBuffer h) (call_out (Call "GetPlayoutData" [])) ≫= _] => idtac end.
  unfold mbind at 1, com_bind at 1.
  destruct (call_out_when (_pAudioBuffer h) (Call "GetPlayoutData" []) h {| now := now (record c1 r1 w); trace := trace (record c1 r1 w) ++ tr2 |}) as (tr3 & Hrun3 & Ht3).
  rewrite Hrun3. clear Hrun3. rewrite bind_returned. set (c4 := Call "IAudioRenderClient::ReleaseBuffer" [b; 0]). cbn [now trace record].
  set (h3 := (trace w ++ [(c1, r1)]) ++ tr2) in *. set (r4 := result (h3 ++ tr3) c4). destruct (SUCCEEDED r4); cbn [negb].
  2: { exists ([(c1, r1)] ++ tr2 ++ tr3 ++ [(c4, r4)]), (_samples h), r4, true. split; [unfold record; cbn; unfold h3; rewrite <- !app_assoc; by destruct h|].
    unfold requested, written, asked_for. rewrite !total_app, !Ht2, !Ht3. cbn. split; [destruct (_pAudioBuffer h); lia|]. split; [destruct (_pAudioBuffer h); lia|done]. }
  unfold mbind, com_bind, modify. set (h' := set_samples (static_cast Uint64 (_samples h + b)) h).
  destruct (IH r4 h' (record c4 r4 {| now := now w; trace := h3 ++ tr3 |})) as (tr & k & hr' & left & -> & Hw & Hr & Hleft); [done|apply static_cast_range|].
  exists ([(c1, r1)] ++ tr2 ++ tr3 ++ [(c4, r4)] ++ tr), k, hr', left. split; [unfold record, h3; cbn; rewrite <- !app_assoc; by destruct h|].
  change (_blockSize (format h')) with b in *. change (_pAudioBuffer h') with (_pAudioBuffer h) in *. change (_samples h') with (static_cast Uint64 (_samples h + b)) in *.
  unfold requested, written, asked_for in *. rewrite !total_app, !Ht2, !Ht3. cbn [total frames_of fst String.eqb Ascii.eqb Bool.eqb c1 c4].
  split; [destruct (_pAudioBuffer h); lia|]. split; [destruct (_pAudioBuffer h); lia|].
  intros Hl. destruct (Hleft Hl) as (Hw' & Ha & Hk). rewrite Hk, static_cast_add, Ha. split; [destruct (_pAudioBuffer h); lia|].
  split; [destruct (_pAudioBuffer h); lia|]. f_equal. destruct (_pAudioBuffer h); lia.
Qed.

(** The two calls on the clock; none of them is about frames. *)
Lemma update_delay_spec (h : helper) w :
  match update_delay h w with
  | (h', w', o) => exists tr, trace w' = trace w ++ tr /\ (forall name, total name tr = 0) /\ _samples h' = _samples h /\
    match o with
    | Good _ _ => True
    | Undefined => _deviceSampleRate (derived h) = None \/ exists pos freq rate, played_delay (_samples h) rate pos freq = None
    | Failed _ | Running => False
    end
  end.
Proof.
  unfold update_delay. rewrite (bind_value history (trace w) _ _ _ S_OK) by done.
  assert (forall n (x : Z) B (f : option Z -> com helper B) w, exists o r, (attempt (getter n x) ≫= f) h w = f o h (record (Method n) r w)) as Hget.
  { intros n x B f w1. unfold attempt, getter, then_value, then_keep, method, invoke, mbind, com_bind. destruct (SUCCEEDED _); eauto. }
  edestruct (Hget "IAudioClock::GetPosition" (ClockPosition (trace w))) as (pos & r1 & ->).
  set (w1 := record _ r1 w). rewrite (bind_value history (trace w1) _ _ _ S_OK) by done.
  edestruct (Hget "IAudioClock::GetFrequency" (ClockFrequency (trace w1))) as (freq & r2 & ->).
  set (w2 := record _ r2 w1). rewrite (bind_value get h _ _ _ S_OK) by done.
  assert (exists tr, trace w2 = trace w ++ tr /\ forall name, total name tr = 0) as (tr & Htr & Ht).
  { exists [(Method "IAudioClock::GetPosition", r1); (Method "IAudioClock::GetFrequency", r2)]. split; [cbn; by rewrite <- app_assoc|done]. }
  destruct (_deviceSampleRate (derived h)) as [rate|]; [rewrite bind_some|exists tr; by auto].
  destruct (played_delay _ _ _ _) as [d|] eqn:Hd; [rewrite bind_some|exists tr; eauto 10].
  exists tr. done.
Qed.

Lemma c_div_u32 a b : 0 <= a < 2 ^ 32 -> 0 < b < 2 ^ 32 -> c_div Uint32 Uint32 a b = Some (a / b).
Proof.
  intros Ha Hb. unfold c_div, arith_result. cbn [arith promote is_signed].
  rewrite (static_cast_id Uint32 b), (static_cast_id Uint32 a) by (unfold InRange; cbn; lia).
  destruct (Z.eqb_spec b 0); [lia|]. rewrite Z.quot_div_nonneg by lia. f_equal. apply static_cast_id. unfold InRange. cbn.
  assert (0 <= a / b <= a) by (split; [apply Z.div_pos; lia|apply Z.div_le_upper_bound; nia]). lia.
Qed.

(** A turn of the thread that plays fills the free part of the buffer of the device with
    blocks of 10 milliseconds, asked from the program one for one, as far as they fit, and
    never requests more than is free; it waits exactly when no block fits. *)
Theorem render_fills l (h : helper) w :
  0 < _blockSize (format h) < 2 ^ 32 -> InRange Uint64 (_samples h) ->
  let block := _blockSize (format h) in
  let free := u32 (bufferLength l - CurrentPadding (trace w)) in
  match Transport_pass l h w with
  | (h', w', o) => exists tr, trace w' = trace w ++ tr /\ 0 <= written tr <= requested tr /\ requested tr <= free /\
    match o with
    | Good _ (Again _) => block <= free /\ written tr = free / block * block /\
        asked_for tr = (if _pAudioBuffer h then written tr else 0) /\ _samples h' = static_cast Uint64 (_samples h + written tr)
    | Good _ (Waits _) => free < block /\ requested tr = 0
    | Good _ (Exits _ _) => True
    | Undefined => clock l = true /\ (_deviceSampleRate (derived h) = None \/ exists samples pos freq rate, played_delay samples rate pos freq = None)
    | Failed _ | Running => False
    end
  end.
Proof.
  intros Hb Hs block free. assert (0 < block < 2 ^ 32) as Hblock by exact Hb. unfold Transport_pass. cbv zeta. rewrite (bind_value get h _ _ _ S_OK) by done.
  assert (0 <= free < 2 ^ 32) as Hfree by (pose proof (static_cast_range Uint32 (bufferLength l - CurrentPadding (trace w))); unfold InRange in *; cbn in *; lia).
  destruct (_ || _)%bool; [exists []; rewrite app_nil_r; split; [done|]; unfold written, requested; cbn [total]; lia|].
  rewrite (bind_value history (trace w) _ _ _ S_OK) by done. rewrite bind_returned. set (c := Call "IAudioClient::GetCurrentPadding" []).
  set (r := result (trace w) c). unfold FAILED. destruct (SUCCEEDED r); cbn [negb]; [|exists [(c, r)]; split; [done|]; unfold written, requested; cbn [total frames_of fst c]; lia].
  fold block free. destruct (Z.ltb_spec free block) as [Hlt|Hge]; [exists [(c, r)]; split; [done|]; unfold written, requested; cbn [total frames_of fst c]; lia|].
  rewrite c_div_u32 by done.
  rewrite bind_some. pose proof (Z.mul_div_le free block ltac:(lia)) as Hdiv. assert (0 <= free / block) as Hq by (apply Z.div_pos; lia).
  destruct (write_blocks_spec (Z.to_nat (free / block)) r h (record c r w)) as (tr & k & hr' & left & Hrun & Hw & Hr & Hleft); [lia|done|].
  fold block in Hr, Hleft. rewrite Z2Nat.id in Hr, Hleft by lia. unfold mbind at 1, com_bind at 1. rewrite Hrun. cbn [fst snd].
  assert (forall tr', (forall name, total name tr' = 0) -> 0 <= written ([(c, r)] ++ tr ++ tr') <= requested ([(c, r)] ++ tr ++ tr') /\
    requested ([(c, r)] ++ tr ++ tr') <= free /\ written ([(c, r)] ++ tr ++ tr') = written tr /\ asked_for ([(c, r)] ++ tr ++ tr') = asked_for tr) as Hsum.
  { intros tr' Ht'. unfold written, requested, asked_for in *. rewrite !total_app, !Ht'. cbn [total frames_of fst c]. lia. }
  destruct left.
  { exists ([(c, r)] ++ tr ++ []). split; [cbn; by rewrite app_nil_r, <- app_assoc|]. destruct (Hsum [] ltac:(done)) as (H1' & H2' & _). done. }
  destruct (Hleft eq_refl) as (Hwr & Hask & Hk). unfold mbind, com_bind. destruct (clock l); cbn [when].
  - pose proof (update_delay_spec (set_samples k h) {| now := now (record c r w); trace := trace (record c r w) ++ tr |}) as Hu.
    revert Hu. destruct (update_delay _ _) as [[h2 w2] o]. intros (tr2 & Htr2 & Ht2 & Hs2 & Ho).
    destruct (Hsum tr2 Ht2) as (H1' & H2' & H3' & H4').
    cbn [trace record] in Htr2. rewrite <- app_assoc, <- app_assoc in Htr2.
    destruct o; try done; cbn [mret com_ret]; exists ([(c, r)] ++ tr ++ tr2); (split; [done|]); (split; [done|]); (split; [done|]);
      [|split; [done|]; destruct Ho as [|(? & ? & ? & ?)]; [by left|right; by eauto]].
    rewrite Hs2, H3', H4'. split; [done|]. split; [lia|]. split; [done|]. cbn [_samples set_samples]. by rewrite Hk.
  - exists ([(c, r)] ++ tr ++ []). destruct (Hsum [] ltac:(done)) as (H1' & H2' & H3' & H4').
    split; [cbn; by rewrite app_nil_r, <- app_assoc|]. split; [done|]. split; [done|]. rewrite H3', H4'. cbn [_samples set_samples]. split; [done|]. split; [lia|]. split; [done|]. by rewrite Hk.
Qed.

End RenderData.

(** ** Examples *)

Module Example.
Import AudioDevice.Example.
#[local] Existing Instance audio_system.
#[local] Instance runtime : WinRT := audio_runtime false.

(** The microphone at the start of its thread. *)
Abbreviation recording := (CaptureThread.Transport_start (microphone false).1 (microphone false).2).

Definition loops_ok : bool :=
  match recording with
  | (h, w, Good _ (Loops _)) =>
      _audioCaptureClient (derived h) && _audioClient h && _pAudioBuffer h && (_blockSize (format h) =? 480) && (_audioFrameSize (format h) =? 4)
  | _ => false
  end.

Lemma recording_ok : loops_ok = true.
Proof. vm_compute. reflexivity. Qed.

Lemma recording_parts : exists h w hr l, recording = (h, w, Good hr (Loops l)) /\
  capturing h /\ _blockSize (format h) = 480 /\ _audioFrameSize (format h) = 4.
Proof.
  pose proof recording_ok as Hok. unfold loops_ok in Hok.
  destruct recording as [[h w] [hr [|hr' l|l]|hr| |]] eqn:Hr; [discriminate Hok|discriminate Hok| |discriminate Hok|discriminate Hok|discriminate Hok].
  exists h, w, hr, l. split; [done|]. boolprop. unfold capturing. repeat split; [done..|lia|lia|done|done].
Qed.

Lemma sample_packets_fit : packets_fit 480 4.
Proof.
  intros h. split; [cbn; lia|]. intros d [= <-]. unfold sample_bytes. rewrite length_replicate. cbn. lia.
Qed.

(** The bytes delivered in [n] turns, and the frames that wait. *)
Definition sample_turns (n : nat) : option (nat * Z) :=
  match recording with
  | (h, w, Good _ (Loops l)) =>
      match turns n l h w with
      | (_, w', Good _ (Again l')) | (_, w', Good _ (Waits l')) => Some (length (delivered (trace w')), CaptureThread.syncBufIndex l')
      | _ => None
      end
  | _ => None
  end.

Lemma capture_fifo_witness :
  (exists h w hr l, recording = (h, w, Good hr (Loops l)) /\
    match turns 3 l h w with
    | (_, w', Good _ (Again l')) | (_, w', Good _ (Waits l')) => exists tr, trace w' = trace w ++ tr /\
        delivered tr ++ pending h l' = taken (_audioFrameSize (format h)) (trace w) tr /\
        Forall (whole_block (_blockSize (format h)) (_audioFrameSize (format h))) tr /\
        0 <= CaptureThread.syncBufIndex l' < _blockSize (format h)
    | (_, _, Good _ (Exits _ _)) => True
    | (_, _, Undefined) => exists l' h1 h2, no_delay h l' h1 h2
    | (_, _, Failed _) | (_, _, Running) => False
    end) /\ sample_turns 3 = Some (3840%nat, 0).
Proof.
  split; [|vm_compute; reflexivity]. destruct recording_parts as (h & w & hr & l & Hr & Hcap & Hb & Hf).
  exists h, w, hr, l. split; [exact Hr|]. apply (capture_fifo 480 3 (microphone false).1 (microphone false).2 h w hr l).
  - exact (fun _ => eq_refl).
  - rewrite Hf. exact sample_packets_fit.
  - exact Hcap.
  - rewrite Hb. lia.
  - rewrite Hf. lia.
  - exact Hr.
Defined.

(** A device whose buffer and packets have 100 frames, where a block has 480: the buffer of
    the thread is full after two packets, and the third, in the fifth turn, is written
    beyond it, although both delays have values. *)
Definition small_system : AudioSystem := {|
  FindAll := FindAll; DefaultId := DefaultId; CreateFromId := CreateFromId; GetLastError := GetLastError;
  QueryPerformanceFrequency := QueryPerformanceFrequency; QueryPerformanceCounter := QueryPerformanceCounter;
  BufferSize _ := 100; StreamLatency := StreamLatency; DevicePeriod := DevicePeriod;
  CurrentPadding := CurrentPadding;
  Packet h := mkPacket (Some (replicate 400 7)) 100 false 900000;
  ClockPosition := ClockPosition; ClockFrequency := ClockFrequency; MasterVolume := MasterVolume;
  SessionMute := SessionMute; RequestPlayoutData := RequestPlayoutData; CreateThread := CreateThread;
  thread_started := thread_started; thread_ended := thread_ended; new_bytes := new_bytes;
  sndCardDelay := sndCardDelay
|}.

Definition small_turns (n : nat) : option (option Z) :=
  match @CaptureThread.Transport_start _ small_system (microphone false).1 (microphone false).2 with
  | (h, w, Good _ (Loops l)) =>
      match @turns _ small_system n l h w with
      | (_, _, Good _ (Again l')) | (_, _, Good _ (Waits l')) => Some (Some (CaptureThread.syncBufIndex l'))
      | (_, _, Undefined) => Some None
      | _ => None
      end
  | _ => None
  end.

Example small_buffer_overflows :
  small_turns 4 = Some (Some 200) /\ small_turns 5 = Some None /\
  CaptureThread.delay_of 1300000 (of_int Double 1) 900000 300 480 = Some 36.
Proof. vm_compute. repeat split. Qed.

(** A packet of less than a block that arrives at once has no delay. *)
Lemma early_packet_has_no_delay :
  CaptureThread.delay_of 1000000 (of_int Double 1) 990000 240 480 = None /\
  CaptureThread.delay_of 1000000 (of_int Double 1) 990000 480 480 = Some 1.
Proof. vm_compute. split; reflexivity. Qed.

(** The speaker at its first turn. *)
Abbreviation playing := (RenderThread.Transport_start (speaker false).1 (speaker false).2).
Definition playing_ok : bool :=
  match playing with
  | (h, w, Good _ (Loops l)) => (_blockSize (format h) =? 480) && (_samples h =? 480) && (RenderThread.bufferLength l =? 480)
  | _ => false
  end.

Definition sample_fill : option (Z * Z) :=
  match playing with
  | (h, w, Good _ (Loops l)) =>
      match RenderThread.Transport_pass l h w with (_, w', Good _ (Again _)) => Some (written (trace w), written (trace w')) | _ => None end
  | _ => None
  end.

Lemma render_fills_witness :
  (exists h w hr l, playing = (h, w, Good hr (Loops l)) /\
    let block := _blockSize (format h) in
    let free := u32 (RenderThread.bufferLength l - CurrentPadding (trace w)) in
    match RenderThread.Transport_pass l h w with
    | (h', w', o) => exists tr, trace w' = trace w ++ tr /\ 0 <= written tr <= requested tr /\ requested tr <= free /\
      match o with
      | Good _ (Again _) => block <= free /\ written tr = free / block * block /\
          asked_for tr = (if _pAudioBuffer h then written tr else 0) /\ _samples h' = static_cast Uint64 (_samples h + written tr)
      | Good _ (Waits _) => free < block /\ requested tr = 0
      | Good _ (Exits _ _) => True
      | Undefined => RenderThread.clock l = true /\
          (_deviceSampleRate (derived h) = None \/ exists samples pos freq rate, RenderThread.played_delay samples rate pos freq = None)
      | Failed _ | Running => False
      end
    end) /\ sample_fill = Some (480, 960).
Proof.
  split; [|vm_compute; reflexivity]. assert (playing_ok = true) as Hok by (vm_compute; reflexivity). unfold playing_ok in Hok.
  destruct playing as [[h w] [hr [|hr' l|l]|hr| |]] eqn:Hr; [discriminate Hok|discriminate Hok| |discriminate Hok|discriminate Hok|discriminate Hok].
  exists h, w, hr, l. split; [exact eq_refl|]. boolprop.
  apply (render_fills l h w); [lia|]. match goal with H : _samples _ = 480 |- _ => rewrite H end. unfold InRange. cbn. lia.
Defined.

End Example.
