(* ===== verification/AudioThreads.v ===== *)
(** * AudioThreads: the thread of an audio device and its caller

    [StartTransport] and [StopTransport] of audio_device/win/audio_device_core_win.cc,
    called under the critical section of [AudioDeviceWindowsCore], interleaved with the
    threads they start.  Both hold the critical section while they wait for the thread, and
    the thread takes it for every turn of its loop and before it ends early.

    What runs between two waits, or in the critical section, is one step.  The thread of
    the other device shows only in that it may be in the critical section.  Time is not
    measured: a wait with a timeout may end when what it waits for has not happened. *)

From S2P Require Import Prelude IntTypes HResult FloatTypes WinRT AudioDevice AudioTransport.
Open Scope Z_scope.

(** ** The system *)

Section System.
Context `{V : VirtualDevice D} `{Unicode}.
Abbreviation helper := (AudioDeviceHelper D).

(** Where a thread is in [Transport]: before the loop, in [WaitForMultipleObjects], before
    the critical section of a turn, after the loop, at [Exit] (early or not), before the
    critical section at the end. *)
Inductive place :=
  | Starting
  | Waiting (l : thread_locals)
  | Entering (l : thread_locals)
  | Leaving (l : thread_locals)
  | Exiting (hr : HRESULT) (l : thread_locals) (early : bool)
  | Finishing
  | Terminated.

(** The thread that calls the device: outside, in [StartTransport] or [StopTransport] at a
    wait (the latter perhaps called by the former), or in a call that does not return. *)
Inductive caller_place := Idle | InStart | InStop (from_start : bool) | Hung.

Record system := mkSystem {
  object : helper;
  outside : world;
  caller : caller_place;
  result : option Z;        (* of the last start or stop *)
  other : bool;             (* the other thread is in the critical section *)
  threads : list place;     (* in the order of their creation *)
  deleted : bool
}.

Definition in_section (s : system) : bool := other s || negb (match caller s with Idle => true | _ => false end).

(** ** Steps *)

(** The calls of the device under the critical section, besides starts and stops. *)
Inductive device_call :=
  | Call_Devices | Call_DeviceName (index : Z) (arrays : Devices.name_arrays)
  | Call_SetDevice_index (index : Z) | Call_SetDevice_type (type : Z)
  | Call_InitMixer | Call_InitTransport | Call_SetStereo (enable : bool) | Call_AttachAudioBuffer (audioBuffer : bool)
  | Call_SetVolume (volume : Z) | Call_Volume | Call_VolumeIsAvailable
  | Call_SetMute (enable : bool) | Call_Mute | Call_MuteIsAvailable.

Definition ignore {A} (m : com helper A) : com helper unit := attempt m ;; mret tt.

Definition perform (c : device_call) : com helper unit :=
  match c with
  | Call_Devices => ignore (Devices.Devices device_class)
  | Call_DeviceName index arrays => ignore (Devices.DeviceName device_class index arrays)
  | Call_SetDevice_index index => ignore (Devices.SetDevice_index device_class index)
  | Call_SetDevice_type type => ignore (Devices.SetDevice_type device_class type)
  | Call_InitMixer => ignore (Helper.InitMixer device_class)
  | Call_InitTransport => ignore InitTransport
  | Call_SetStereo enable => ignore (SetStereo enable)
  | Call_AttachAudioBuffer audioBuffer => ignore (AttachAudioBuffer audioBuffer)
  | Call_SetVolume volume => ignore (Helper.SetVolume volume)
  | Call_Volume => ignore Helper.Volume
  | Call_VolumeIsAvailable => ignore Helper.VolumeIsAvailable
  | Call_SetMute enable => ignore (Helper.SetMute enable)
  | Call_Mute => ignore Helper.Mute
  | Call_MuteIsAvailable => ignore Helper.MuteIsAvailable
  end.

(** The results of [WaitForMultipleObjects]: the first event that is set, or none. *)
Inductive multiple_wait := ShutdownEvent | SamplesReadyEvent | TimedOut | WaitFailed.

Inductive label :=
  | StartTransport_called
  | StartTransport_waited (signaled : bool)
  | StopTransport_called
  | StopTransport_waited (terminated : bool)
  | Called (c : device_call)
  | Terminate_called
  | OtherEnters | OtherLeaves
  | Thread (t : nat) (r : multiple_wait).

(** A label may lead to a state, be impossible, or be undefined behaviour. *)
Inductive moved := Moves (s : system) | Blocked | Crashes.

Definition set_object (h : helper) (w : world) (s : system) : system :=
  mkSystem h w (caller s) (result s) (other s) (threads s) (deleted s).
Definition set_caller (c : caller_place) (s : system) : system :=
  mkSystem (object s) (outside s) c (result s) (other s) (threads s) (deleted s).
Definition return_ (r : Z) (s : system) : system :=
  mkSystem (object s) (outside s) Idle (Some r) (other s) (threads s) (deleted s).
Definition set_other (b : bool) (s : system) : system :=
  mkSystem (object s) (outside s) (caller s) (result s) b (threads s) (deleted s).
Definition set_threads (l : list place) (s : system) : system :=
  mkSystem (object s) (outside s) (caller s) (result s) (other s) l (deleted s).
Definition set_deleted (s : system) : system :=
  mkSystem (object s) (outside s) (caller s) (result s) (other s) (threads s) true.

(** Code that runs in one step. *)
Definition block {A} (m : com helper A) (s : system) (k : A -> system -> moved) : moved :=
  match m (object s) (outside s) with
  | (h, w, Good _ a) => k a (set_object h w s)
  | (_, _, Failed _) | (_, _, Running) => Blocked
  | (_, _, Undefined) => Crashes
  end.

(** A call from outside the critical section. *)
Definition enter (s : system) (k : moved) : moved :=
  if in_section s then Blocked else if deleted s then Crashes else k.

Definition at_place (p : place) (t : nat) (s : system) : moved := Moves (set_threads (<[t := p]> (threads s)) s).

Definition thread_step (t : nat) (r : multiple_wait) (p : place) (s : system) : moved :=
  match p with
  | Starting => block Transport_start s (fun o => at_place
      match o with ReturnEarly => Terminated | StartExits hr l => Exiting hr l true | Loops l => Waiting l end t)
  | Waiting l =>
      let shutdown := _hShutdownEvent (object s) in
      match r with
      | ShutdownEvent =>
          if shutdown then at_place (Leaving l) t (set_object (set_shutdownEvent false (object s)) (outside s) s) else Blocked
      | SamplesReadyEvent => if shutdown then Blocked else at_place (Entering l) t s
      | TimedOut => if shutdown then Blocked else at_place (Exiting (thread_hr l) l true) t s
      | WaitFailed => at_place (Exiting (thread_hr l) l true) t s
      end
  | Entering l =>
      if in_section s then Blocked else block (Transport_pass l) s (fun o => at_place
        match o with Again l => Entering l | Waits l => Waiting l | Exits hr l => Exiting hr l true end t)
  | Leaving l => block (Transport_leave l) s (fun hr => at_place (Exiting hr l false) t)
  | Exiting hr l early => block (Transport_exit hr l) s (fun _ => at_place (if early then Finishing else Terminated) t)
  | Finishing => if in_section s then Blocked else block stop_and_reset s (fun _ => at_place Terminated t)
  | Terminated => Blocked
  end.

Definition step (a : label) (s : system) : moved :=
  match a with
  | StartTransport_called => enter s (block (Helper.StartTransport_begin (length (threads s))) s (fun r s =>
      match r with
      | Some r => Moves (return_ r s)
      | None => Moves (set_caller InStart (set_threads (threads s ++ [Starting]) s))
      end))
  | StartTransport_waited signaled =>
      match caller s with
      | InStart =>
          if Bool.eqb signaled (_hStartedEvent (object s)) then
            block (modify (set_startedEvent false) ;; Helper.StartTransport_end signaled) s (fun r s =>
              match r with Some r => Moves (return_ r s) | None => Moves (set_caller (InStop true) s) end)
          else Blocked
      | _ => Blocked
      end
  | StopTransport_called => enter s (block Helper.StopTransport_begin s (fun r s =>
      match r with Some r => Moves (return_ r s) | None => Moves (set_caller (InStop false) s) end))
  | StopTransport_waited terminated =>
      match caller s with
      | InStop from_start =>
          if Bool.eqb terminated (match _hThread (object s) ≫= (threads s !!.) with Some Terminated => true | _ => false end) then
            block (Helper.StopTransport_end terminated) s (fun r s => Moves (return_ (if from_start then -1 else r) s))
          else Blocked
      | _ => Blocked
      end
  | Called c => enter s
      match perform c (object s) (outside s) with
      | (h, w, Running) => Moves (set_caller Hung (set_object h w s))
      | _ => block (perform c) s (fun _ s => Moves s)
      end
  | Terminate_called => enter s (Moves (set_deleted s))
  | OtherEnters => if in_section s then Blocked else Moves (set_other true s)
  | OtherLeaves => if other s then Moves (set_other false s) else Blocked
  | Thread t r =>
      match threads s !! t with
      | None | Some Terminated => Blocked
      | Some p => if deleted s then Crashes else thread_step t r p s
      end
  end.

(** A run of the system. *)
Fixpoint run (l : list label) (s : system) : moved :=
  match l with
  | [] => Moves s
  | a :: l => match step a s with Moves s => run l s | r => r end
  end.

(** A device that has not been started. *)
Definition initial (h : helper) (w : world) : system := mkSystem h w Idle None false [] false.
Definition unstarted (h : helper) : Prop :=
  _hThread h = None /\ _transporting h = false /\ _hStartedEvent h = false /\ _hShutdownEvent h = false.

(** ** The steps in terms of the events and places *)

Abbreviation transporting s := (_transporting (object s)).
Abbreviation thread_handle s := (_hThread (object s)).
Abbreviation shutdown s := (_hShutdownEvent (object s)).
Abbreviation started_event s := (_hStartedEvent (object s)).

(** What a step of a thread does to its place and to the event of the shutdown. *)
Inductive turn (locked down : bool) : place -> place -> bool -> Prop :=
  | turn_start p : p = Terminated \/ (exists hr l, p = Exiting hr l true) \/ (exists l, p = Waiting l) -> turn locked down Starting p down
  | turn_shutdown l : down = true -> turn locked down (Waiting l) (Leaving l) false
  | turn_samples l : down = false -> turn locked down (Waiting l) (Entering l) down
  | turn_early l hr : turn locked down (Waiting l) (Exiting hr l true) down
  | turn_pass l p : locked = false ->
      (exists l', p = Entering l') \/ (exists l', p = Waiting l') \/ (exists hr l', p = Exiting hr l' true) ->
      turn locked down (Entering l) p down
  | turn_leave l hr : turn locked down (Leaving l) (Exiting hr l false) down
  | turn_exit hr l (early : bool) : turn locked down (Exiting hr l early) (if early then Finishing else Terminated) down
  | turn_finish : locked = false -> turn locked down Finishing Terminated down.

Context `{!VirtualDeviceLaws V}.

Lemma block_moves {A} (m : com helper A) s k s' : block m s k = Moves s' ->
  exists h w hr a, m (object s) (outside s) = (h, w, Good hr a) /\ k a (set_object h w s) = Moves s'.
Proof. unfold block. destruct (m (object s) (outside s)) as [[h w] [hr a| | |]]; [|done..]. intros Hk. by exists h, w, hr, a. Qed.

(** The parts of the state that a step of a thread, or a call that neither starts nor
    stops, leaves alone. *)
Record same_control (s s' : system) : Prop := {
  same_transporting : transporting s' = transporting s;
  same_thread : thread_handle s' = thread_handle s;
  same_deleted : deleted s' = deleted s
}.

Lemma thread_moves t r s s' : step (Thread t r) s = Moves s' ->
  exists p p', threads s !! t = Some p /\ threads s' = <[t := p']> (threads s) /\
  turn (in_section s) (shutdown s) p p' (shutdown s') /\ same_control s s' /\
  caller s' = caller s /\ result s' = result s /\ other s' = other s /\
  (p <> Starting -> started_event s' = started_event s).
Proof.
  cbn [step]. destruct (threads s !! t) as [p|] eqn:Hp; [|done]. intros Hs.
  assert (exists p', threads s' = <[t := p']> (threads s) /\
    turn (in_section s) (shutdown s) p p' (shutdown s') /\ same_control s s' /\
    caller s' = caller s /\ result s' = result s /\ other s' = other s /\
    (p <> Starting -> started_event s' = started_event s)) as (p' & Hrest); [|by exists p, p'].
  assert (deleted s = false /\ thread_step t r p s = Moves s') as [Hd Hm]
    by (destruct p; [..|done]; by destruct (deleted s)).
  clear Hs. destruct p as [|l|l|l|hr l early| |]; cbn [thread_step] in Hm; [| | | | | |done].
  - apply block_moves in Hm as (h & w & hr & o & Heq & [= <-]).
    pose proof (kept_result _ _ _ _ _ _ _ start_kept Heq) as [= Ht Hh Hsd]. eexists. split; [reflexivity|]. cbn.
    split; [rewrite Hsd; apply turn_start; destruct o; eauto|]. repeat split; cbn; done.
  - destruct r.
    + destruct (shutdown s) eqn:Hsd; [|done]. injection Hm as <-. eexists. split; [reflexivity|]. repeat split. by apply turn_shutdown.
    + destruct (shutdown s) eqn:Hsd; [done|]. injection Hm as <-. eexists. split; [reflexivity|]. repeat split. cbn. rewrite Hsd. by apply turn_samples.
    + destruct (shutdown s) eqn:Hsd; [done|]. injection Hm as <-. eexists. split; [reflexivity|]. repeat split. cbn. rewrite Hsd. by apply turn_early.
    + injection Hm as <-. eexists. split; [reflexivity|]. repeat split. by apply turn_early.
  - destruct (in_section s) eqn:Hin; [done|]. apply block_moves in Hm as (h & w & hr & o & Heq & [= <-]).
    pose proof (kept_result _ _ _ _ _ _ _ (pass_kept l) Heq) as [= Ht Hh Hsd Hse]. eexists. split; [reflexivity|]. cbn.
    split; [rewrite Hsd; apply turn_pass; [done|]; destruct o; eauto|]. repeat split; cbn; done.
  - apply block_moves in Hm as (h & w & hr & o & Heq & [= <-]).
    pose proof (kept_result _ _ _ _ _ _ _ (leave_kept l) Heq) as [= Ht Hh Hsd Hse]. eexists. split; [reflexivity|]. cbn.
    split; [rewrite Hsd; apply turn_leave|]. repeat split; cbn; done.
  - apply block_moves in Hm as (h & w & hr' & o & Heq & [= <-]).
    pose proof (kept_result _ _ _ _ _ _ _ (exit_kept hr l) Heq) as [= Ht Hh Hsd Hse]. eexists. split; [reflexivity|]. cbn.
    split; [rewrite Hsd; apply turn_exit|]. repeat split; cbn; done.
  - destruct (in_section s) eqn:Hin; [done|]. apply block_moves in Hm as (h & w & hr & o & Heq & [= <-]).
    pose proof (kept_result _ _ _ _ _ _ _ (stop_and_reset_kept control) Heq) as [= Ht Hh Hsd Hse]. eexists. split; [reflexivity|]. cbn.
    split; [rewrite Hsd; by apply turn_finish|]. repeat split; cbn; done.
Qed.

Lemma perform_kept c : preserves (kept control) (perform c).
Proof.
  unfold perform, ignore. destruct c; (apply preserves_bind; [apply _|apply preserves_attempt|intros ?; eauto with winrt]).
  - apply Devices_kept.
  - apply DeviceName_kept.
  - apply SetDevice_index_kept.
  - apply SetDevice_type_kept.
  - apply InitMixer_kept.
  - apply InitTransport_kept.
  - apply SetStereo_kept.
  - apply Attach_kept.
  - apply SetVolume_kept.
  - apply Volume_kept.
  - apply VolumeIsAvailable_kept.
  - apply SetMute_kept.
  - apply Mute_kept.
  - apply MuteIsAvailable_kept.
Qed.

Lemma enter_moves s k s' : enter s k = Moves s' -> in_section s = false /\ deleted s = false /\ k = Moves s'.
Proof. unfold enter. destruct (in_section s); [done|]. by destruct (deleted s). Qed.

Lemma idle s : in_section s = false -> caller s = Idle /\ other s = false.
Proof. unfold in_section. by destruct (caller s), (other s). Qed.

Lemma called_moves c s s' : step (Called c) s = Moves s' ->
  in_section s = false /\ same_control s s' /\ shutdown s' = shutdown s /\ started_event s' = started_event s /\
  threads s' = threads s /\ result s' = result s /\ (caller s' = Idle \/ caller s' = Hung).
Proof.
  cbn [step]. intros (Hin & Hd & Hm)%enter_moves. split; [done|].
  assert (exists h w c', s' = set_caller c' (set_object h w s) /\ control h = control (object s) /\ (c' = Idle \/ c' = Hung))
    as (h & w & c' & -> & [= Ht Hh Hs He] & Hc').
  { unfold block in Hm. pose proof (perform_kept c (object s) (outside s)) as Hk.
    destruct (perform c (object s) (outside s)) as [[h w] [hr a| | |]]; [|done..|].
    - injection Hm as <-. exists h, w, Idle. split; [|by eauto]. destruct (idle s Hin) as [Hi _]. unfold set_caller, set_object. cbn. by rewrite Hi.
    - injection Hm as <-. exists h, w, Hung. eauto. }
  repeat split; done.
Qed.

(** A start: it returns at once, or a thread is made and its start awaited. *)
Lemma start_moves s s' : step StartTransport_called s = Moves s' ->
  in_section s = false /\ shutdown s' = shutdown s /\ started_event s' = started_event s /\ deleted s' = deleted s /\
  transporting s' = transporting s /\
  ((caller s' = Idle /\ threads s' = threads s /\ thread_handle s' = thread_handle s /\
    (result s' = Some (-1) \/ (result s' = Some 0 /\ (thread_handle s <> None \/ transporting s = true)))) \/
   (caller s' = InStart /\ threads s' = threads s ++ [Starting] /\ thread_handle s' = Some (length (threads s)) /\
    thread_handle s = None /\ transporting s = false /\ _transportInitialized (object s) = true)).
Proof.
  cbn [step]. intros (Hin & Hd & Hm)%enter_moves. split; [done|]. destruct (idle s Hin) as [Hi Ho].
  apply block_moves in Hm as (h & w & hr & r & Heq & Hk). revert Heq Hk. unfold Helper.StartTransport_begin, mbind, com_bind. cbn.
  destruct (_transportInitialized (object s)) eqn:Hti; cbn; [|by intros [= <- <- <- <-] [= <-]; cbn; eauto 10].
  case_bool_decide as Hh; cbn; [intros [= <- <- <- <-] [= <-]; cbn; by eauto 12|].
  destruct (transporting s) eqn:Ht; cbn; [intros [= <- <- <- <-] [= <-]; cbn; by eauto 12|].
  destruct (CreateThread (trace (outside s))); cbn.
  - intros [= <- <- <- <-] [= <-]. cbn. by eauto 12.
  - intros [= <- <- <- <-] [= <-]. cbn. by eauto 10.
Qed.

Lemma start_waited_moves b s s' : step (StartTransport_waited b) s = Moves s' ->
  caller s = InStart /\ b = started_event s /\ started_event s' = false /\ threads s' = threads s /\ deleted s' = deleted s /\
  if b then caller s' = Idle /\ result s' = Some 0 /\ transporting s' = true /\ thread_handle s' = thread_handle s /\ shutdown s' = shutdown s
  else match thread_handle s with
       | None => caller s' = Idle /\ result s' = Some (-1) /\ transporting s' = false /\ thread_handle s' = None /\ shutdown s' = shutdown s
       | Some t => caller s' = InStop true /\ transporting s' = true /\ thread_handle s' = Some t /\ shutdown s' = true
       end.
Proof.
  cbn [step]. destruct (caller s) eqn:Hc; [done| |done..]. destruct (Bool.eqb b _) eqn:Hb; [|done]. apply eqb_prop in Hb as ->.
  intros Hm. split; [done|]. split; [done|]. apply block_moves in Hm as (h & w & hr & r & Heq & Hk). revert Heq Hk.
  unfold Helper.StartTransport_end, Helper.StopTransport_begin, mbind, com_bind. cbn. destruct (started_event s); cbn.
  - by intros [= <- <- <- <-] [= <-].
  - destruct (thread_handle s) eqn:Hh; cbn; by intros [= <- <- <- <-] [= <-].
Qed.

Lemma stop_moves s s' : step StopTransport_called s = Moves s' ->
  in_section s = false /\ started_event s' = started_event s /\ threads s' = threads s /\ deleted s' = deleted s /\
  thread_handle s' = thread_handle s /\
  ((caller s' = Idle /\ result s' = Some 0 /\ shutdown s' = shutdown s /\ transporting s' = false /\
    (transporting s = false \/ thread_handle s = None)) \/
   (caller s' = InStop false /\ shutdown s' = true /\ transporting s' = true /\ transporting s = true /\ thread_handle s <> None)).
Proof.
  cbn [step]. intros (Hin & Hd & Hm)%enter_moves. split; [done|].
  apply block_moves in Hm as (h & w & hr & r & Heq & Hk). revert Heq Hk. unfold Helper.StopTransport_begin, mbind, com_bind. cbn.
  destruct (transporting s) eqn:Ht; cbn; [|intros [= <- <- <- <-] [= <-]; cbn; by eauto 12].
  case_bool_decide as Hh; cbn; intros [= <- <- <- <-] [= <-]; cbn; rewrite ?Ht; by eauto 12.
Qed.

Lemma stop_waited_moves b s s' : step (StopTransport_waited b) s = Moves s' ->
  exists from_start, caller s = InStop from_start /\
  b = match thread_handle s ≫= (threads s !!.) with Some Terminated => true | _ => false end /\
  caller s' = Idle /\ result s' = Some (if from_start then -1 else if b then 0 else -1) /\
  transporting s' = false /\ thread_handle s' = None /\ shutdown s' = (if b then false else shutdown s) /\
  started_event s' = started_event s /\ threads s' = threads s /\ deleted s' = deleted s.
Proof.
  cbn [step]. destruct (caller s) as [| |fs|] eqn:Hc; [done..| |done]. destruct (Bool.eqb b _) eqn:Hb; [|done]. apply eqb_prop in Hb.
  intros Hm. exists fs. split; [done|]. split; [exact Hb|]. clear Hb. apply block_moves in Hm as (h & w & hr & r & Heq & Hk). revert Heq Hk.
  unfold Helper.StopTransport_end, mbind, com_bind. destruct b; cbn; intros [= <- <- <- <-] [= <-]; cbn; by destruct fs.
Qed.

(** The remaining labels. *)
Lemma other_moves a s s' : a = Terminate_called \/ a = OtherEnters \/ a = OtherLeaves -> step a s = Moves s' ->
  object s' = object s /\ threads s' = threads s /\ result s' = result s /\ caller s' = caller s.
Proof.
  intros [-> |[-> | ->]]; cbn [step].
  - intros (_ & _ & [= <-])%enter_moves. done.
  - destruct (in_section s); [done|]. by intros [= <-].
  - destruct (other s); [|done]. by intros [= <-].
Qed.

(** ** Reachable states *)

(** Reached by labels that satisfy [P]. *)
Inductive reachable (P : label -> Prop) : system -> Prop :=
  | reachable_initial h w : unstarted h -> reachable P (initial h w)
  | reachable_step a s s' : reachable P s -> P a -> step a s = Moves s' -> reachable P s'.

Definition handle_names_last (s : system) : Prop := forall t, thread_handle s = Some t -> Datatypes.S t = length (threads s).

Definition control_consistent (s : system) : Prop :=
  handle_names_last s /\
  match caller s with
  | Idle | Hung => transporting s = true <-> thread_handle s <> None
  | InStart => transporting s = false /\ thread_handle s <> None
  | InStop _ => transporting s = true /\ thread_handle s <> None
  end.

Lemma initial_consistent h w : _hThread h = None -> _transporting h = false -> control_consistent (initial h w).
Proof. intros Hh Ht. unfold control_consistent, handle_names_last. cbn. rewrite Hh, Ht. split; [done|]. split; [done|tauto]. Qed.

Lemma control_step a s s' : control_consistent s -> step a s = Moves s' -> control_consistent s'.
Proof.
  intros [Hl Hc] Hs. unfold control_consistent, handle_names_last in *. destruct a as [|b| |b|c| | | |t r].
  - apply start_moves in Hs as (Hin & _ & _ & _ & Ht & [(-> & Hth & Hh & _)|(-> & Hth & Hh & Hn & Htr & _)]); destruct (idle s Hin) as [Hi _].
    + rewrite Hi in Hc. rewrite Ht, Hh, Hth. done.
    + rewrite Ht, Hh, Hth, Htr. split; [|done]. intros t [= <-]. rewrite length_app. cbn. lia.
  - apply start_waited_moves in Hs as (Hi & -> & _ & Hth & _ & Hrest). rewrite Hi in Hc. destruct Hc as [Hc Hh]. rewrite Hth. destruct (started_event s).
    + destruct Hrest as (-> & _ & -> & -> & _). done.
    + destruct (thread_handle s) as [t|]; [|done]. destruct Hrest as (-> & -> & -> & _). done.
  - apply stop_moves in Hs as (Hin & _ & Hth & _ & Hh & [(-> & _ & _ & -> & Hd)|(-> & _ & -> & Htr & Hn)]); destruct (idle s Hin) as [Hi _];
      rewrite Hi in Hc; rewrite Hth, Hh; (split; [done|]); [|done].
    split; [done|]. intros Hn. apply Hc in Hn. destruct Hd; [congruence|]. tauto.
  - apply stop_waited_moves in Hs as (fs & Hi & _ & -> & _ & -> & -> & _ & _ & -> & _). split; [done|]. split; [done|]. tauto.
  - apply called_moves in Hs as (Hin & Hk & _ & _ & Hth & _ & Hcall). destruct (idle s Hin) as [Hi _]. rewrite Hi in Hc.
    rewrite Hth, (same_transporting _ _ Hk), (same_thread _ _ Hk). by destruct Hcall as [-> | ->].
  - apply other_moves in Hs as (-> & -> & _ & ->); [done|eauto].
  - apply other_moves in Hs as (-> & -> & _ & ->); [done|eauto].
  - apply other_moves in Hs as (-> & -> & _ & ->); [done|eauto].
  - apply thread_moves in Hs as (p & p' & _ & -> & _ & Hk & -> & _).
    rewrite length_insert, (same_transporting _ _ Hk), (same_thread _ _ Hk). done.
Qed.

(** Outside [StartTransport] and [StopTransport] the device transports exactly if it has
    the handle of a thread, which is that of the last thread it made; while a start waits
    it does not transport yet, while a stop waits it still does. *)
Theorem control_invariant s : reachable (fun _ => True) s -> control_consistent s.
Proof.
  induction 1 as [h w (Hh & Ht & _)|a s s' _ IH _ Hs]; [|by eapply control_step].
  by apply initial_consistent.
Qed.

(** *** When no stop times out *)

(** Every thread that runs is the one of the handle, and the event of the shutdown is set
    only while a stop waits. *)
Definition one_thread (s : system) : Prop :=
  (forall t p, threads s !! t = Some p -> p = Terminated \/ thread_handle s = Some t) /\
  (shutdown s = true -> exists from_start, caller s = InStop from_start).

Lemma one_thread_step a s s' : a <> StopTransport_waited false -> control_consistent s -> one_thread s -> step a s = Moves s' -> one_thread s'.
Proof.
  intros Ha [Hl Hc] [Ho Hsd] Hs. unfold one_thread in *. destruct a as [|b| |b|c| | | |t r].
  - apply start_moves in Hs as (Hin & -> & _ & _ & Ht & [(-> & Hth & Hh & _)|(-> & Hth & Hh & Hn & Htr & _)]); destruct (idle s Hin) as [Hi _]; rewrite Hi in *.
    + rewrite Hh, Hth. done.
    + rewrite Hth, Hh. split; [|intros Hd; by destruct (Hsd Hd)]. intros t p Hp.
      apply lookup_app_Some in Hp as [Hp|[Hge Hp]]; [destruct (Ho t p Hp) as [|Hx]; [by left|congruence]|].
      right. destruct (t - length (threads s))%nat eqn:Hsub; [|done]. f_equal. lia.
  - apply start_waited_moves in Hs as (Hi & -> & _ & -> & _ & Hrest). destruct (started_event s).
    + destruct Hrest as (-> & _ & _ & -> & ->). split; [done|]. intros Hd. by destruct (Hsd Hd); congruence.
    + destruct (thread_handle s) as [t|] eqn:Hh; [|by rewrite Hi in Hc; destruct Hc]. destruct Hrest as (-> & _ & -> & _). split; [done|eauto].
  - apply stop_moves in Hs as (Hin & _ & -> & _ & -> & [(-> & _ & -> & _)|(-> & _)]); destruct (idle s Hin) as [Hi _]; rewrite ?Hi in *; (split; [done|]); eauto.
  - apply stop_waited_moves in Hs as (fs & Hi & Hb & -> & _ & _ & -> & -> & _ & -> & _). destruct b; [|done]. split; [|done].
    intros t p Hp. destruct (Ho t p Hp) as [|Hh]; [by left|]. left. rewrite Hh in Hb. cbn in Hb. rewrite Hp in Hb. by destruct p.
  - apply called_moves in Hs as (Hin & Hk & -> & _ & -> & _ & Hcall). destruct (idle s Hin) as [Hi _]. rewrite (same_thread _ _ Hk). split; [done|].
    intros Hd. destruct (Hsd Hd) as [fs Hfs]. congruence.
  - apply other_moves in Hs as (-> & -> & _ & ->); [done|eauto].
  - apply other_moves in Hs as (-> & -> & _ & ->); [done|eauto].
  - apply other_moves in Hs as (-> & -> & _ & ->); [done|eauto].
  - apply thread_moves in Hs as (p & p' & Hp & -> & Hturn & Hk & -> & _). rewrite (same_thread _ _ Hk). split.
    + intros t' q Hq. destruct (decide (t' = t)) as [-> |Hne]; [|rewrite list_lookup_insert_ne in Hq by done; eauto].
      destruct (Ho t p Hp) as [-> |Hh]; [inversion Hturn|by right].
    + intros Hd. apply Hsd. by inversion Hturn; subst; congruence.
Qed.

(** C39: As long as no stop times out: at most one thread runs, and when the device does not
    transport and no start or stop is under way, none does and no shutdown is pending, so
    that the next start finds things as the first one did. *)
Theorem joined_invariant s : reachable (fun a => a <> StopTransport_waited false) s ->
  one_thread s /\ (caller s = Idle -> transporting s = false -> shutdown s = false /\ Forall (fun p => p = Terminated) (threads s)).
Proof.
  intros Hr. assert (control_consistent s /\ one_thread s) as [Hc Ho].
  { induction Hr as [h w (Hh & Ht & _ & Hd)|a s s' _ [IHc IHo] Ha Hs].
    - split; [by apply initial_consistent|]. split; cbn; [done|congruence].
    - split; [by eapply control_step|by eapply one_thread_step]. }
  split; [done|]. intros Hi Ht. destruct Hc as [_ Hc]. rewrite Hi, Ht in Hc. destruct Ho as [Ho Hd].
  assert (thread_handle s = None) as Hh by (destruct (thread_handle s); [|done]; by discriminate (proj2 Hc)).
  split.
  - destruct (shutdown s); [|done]. destruct (Hd eq_refl). congruence.
  - apply Forall_lookup. intros t p Hp. destruct (Ho t p Hp); [done|congruence].
Qed.

(** *** A thread that ends early *)

(** Labels that neither start nor stop the device. *)
Definition quiet (a : label) : Prop := a <> StartTransport_called /\ a <> StopTransport_called.

Lemma run_invariant (I : system -> Prop) (P : label -> Prop) l s s' :
  (forall a s s', P a -> I s -> step a s = Moves s' -> I s') -> Forall P l -> I s -> run l s = Moves s' -> I s'.
Proof.
  intros Hstep Hl. revert s. induction Hl as [|a l Ha Hl IH]; intros s Hs; cbn [run]; [by intros [= <-]|].
  destruct (step a s) as [s1| |] eqn:Hs1; [|done..]. apply IH. by eapply Hstep.
Qed.

(** On the way to the end, before the critical section that [Exit] leads to. *)
Definition ending_early (p : place) : Prop := p = Finishing \/ exists hr l, p = Exiting hr l true.

(** The threads but [t] have ended. *)
Definition only_thread (t : nat) (s : system) : Prop := forall t' p, threads s !! t' = Some p -> t' <> t -> p = Terminated.

(** A start waits for a thread that will not set its event. *)
Definition failing_start (t : nat) (s : system) : Prop :=
  caller s = InStart /\ started_event s = false /\ thread_handle s = Some t /\ only_thread t s /\
  exists p, threads s !! t = Some p /\ ending_early p.

(** The device does not transport and has no thread, but a shutdown is pending. *)
Definition shutdown_pending (t : nat) (s : system) : Prop :=
  (caller s = Idle \/ caller s = Hung) /\ result s = Some (-1) /\ transporting s = false /\ thread_handle s = None /\ shutdown s = true /\
  only_thread t s /\ exists p, threads s !! t = Some p /\ (ending_early p \/ p = Terminated).

(** A stop waits for a thread that needs the critical section first. *)
Definition stop_blocked (ending : place -> Prop) (t : nat) (s : system) : Prop :=
  (exists from_start, caller s = InStop from_start) /\ transporting s = true /\ thread_handle s = Some t /\ shutdown s = true /\ only_thread t s /\
  exists p, threads s !! t = Some p /\ ending p.

Lemma only_thread_insert t s p : only_thread t s -> forall t' q, <[t := p]> (threads s) !! t' = Some q -> t' <> t -> q = Terminated.
Proof. intros Ho t' q Hq Hne. rewrite list_lookup_insert_ne in Hq by done. by eapply Ho. Qed.

(** The thread that takes a step is the only one that runs. *)
Lemma only_thread_turn t s t' p p' down down' : only_thread t s -> threads s !! t' = Some p -> turn (in_section s) down p p' down' -> t' = t.
Proof. intros Ho Hp Hturn. destruct (decide (t' = t)) as [|Hne]; [done|]. rewrite (Ho t' p Hp Hne) in Hturn. inversion Hturn. Qed.

Lemma in_section_caller s : caller s <> Idle -> in_section s = true.
Proof. unfold in_section. destruct (caller s), (other s); done. Qed.

(** Such a stop times out. *)
Lemma stop_blocked_step (ending : place -> Prop) t a s s' :
  (forall p, ending p -> p <> Terminated) ->
  (forall p p' down', ending p -> turn true true p p' down' -> ending p' /\ down' = true) ->
  stop_blocked ending t s -> step a s = Moves s' ->
  stop_blocked ending t s' \/
  (caller s' = Idle /\ result s' = Some (-1) /\ transporting s' = false /\ thread_handle s' = None /\ shutdown s' = true /\ only_thread t s' /\
   threads s' = threads s).
Proof.
  intros Hend Hturns ((fs & Hc) & Ht & Hh & Hd & Ho & p & Hp & Hpe) Hs. assert (in_section s = true) as Hin by (apply in_section_caller; congruence).
  assert (forall s'', same_control s s'' -> shutdown s'' = true -> threads s'' = threads s -> caller s'' = caller s -> stop_blocked ending t s'') as Hkeep.
  { intros s'' Hk Hd' Hth Hc'. unfold stop_blocked, only_thread. rewrite Hth, Hc', (same_transporting _ _ Hk), (same_thread _ _ Hk). eauto 10. }
  destruct a as [|b| |b|c| | | |t' r].
  - apply start_moves in Hs as (Hx & _). congruence.
  - apply start_waited_moves in Hs as (Hx & _). congruence.
  - apply stop_moves in Hs as (Hx & _). congruence.
  - apply stop_waited_moves in Hs as (fs' & Hc' & -> & -> & -> & -> & -> & -> & _ & Hth & _). right. rewrite Hh. cbn. rewrite Hp.
    unfold only_thread. rewrite Hth. specialize (Hend p Hpe). destruct p; [..|done]; (repeat split; [by destruct fs'| |]; done).
  - apply called_moves in Hs as (Hx & _). congruence.
  - apply enter_moves in Hs as (Hx & _). congruence.
  - cbn [step] in Hs. by rewrite Hin in Hs.
  - left. assert (same_control s s') as Hk by (cbn [step] in Hs; destruct (other s); [|done]; by injection Hs as <-).
    apply other_moves in Hs as (Hob & Hth & _ & Hca); [|eauto]. apply Hkeep; [done|by rewrite Hob|done..].
  - left. apply thread_moves in Hs as (q & q' & Hq & Hth & Hturn & Hk & Hca & _).
    pose proof (only_thread_turn _ _ _ _ _ _ _ Ho Hq Hturn) as ->. assert (q = p) as -> by congruence. rewrite Hin, Hd in Hturn.
    destruct (Hturns _ _ _ Hpe Hturn) as [Hq' Hd']. unfold stop_blocked, only_thread.
    rewrite Hth, Hca, (same_transporting _ _ Hk), (same_thread _ _ Hk), Hd'. split; [eauto|]. repeat (split; [done|]).
    split; [by apply only_thread_insert|]. exists q'. split; [|done]. apply list_lookup_insert_eq. by eapply lookup_lt_Some.
Qed.

Lemma ending_early_not_ended p : ending_early p -> p <> Terminated.
Proof. by intros [-> |(hr & l & ->)]. Qed.

Lemma ending_early_turn p p' down' : ending_early p -> turn true true p p' down' -> ending_early p' /\ down' = true.
Proof. intros [-> |(hr & l & ->)] Hturn; inversion Hturn; subst; [done|]. split; [by left|done]. Qed.

Definition failing_phases (t : nat) (s : system) : Prop :=
  failing_start t s \/ stop_blocked ending_early t s \/ shutdown_pending t s.

Lemma failing_step t a s s' : quiet a -> (forall fs, caller s = InStop fs -> fs = true) -> failing_phases t s -> step a s = Moves s' ->
  failing_phases t s' /\ (forall fs, caller s' = InStop fs -> fs = true).
Proof.
  intros [Hq1 Hq2] Hfs Hphase Hs.
  assert (forall fs, caller s' = InStop fs -> fs = true) as Hfs'.
  { intros fs Hc'. destruct a as [|b| |b|c| | | |t' r]; try done.
    - apply start_waited_moves in Hs as (_ & _ & _ & _ & _ & Hrest). destruct b; [destruct Hrest; congruence|].
      destruct (thread_handle s); destruct Hrest; congruence.
    - apply stop_waited_moves in Hs as (fs' & _ & _ & Hx & _). congruence.
    - apply called_moves in Hs as (_ & _ & _ & _ & _ & _ & [Hx|Hx]); congruence.
    - apply other_moves in Hs as (_ & _ & _ & Hx); [|by eauto]. apply Hfs. congruence.
    - apply other_moves in Hs as (_ & _ & _ & Hx); [|by eauto]. apply Hfs. congruence.
    - apply other_moves in Hs as (_ & _ & _ & Hx); [|by eauto]. apply Hfs. congruence.
    - apply thread_moves in Hs as (q & q' & _ & _ & _ & _ & Hx & _). apply Hfs. congruence. }
  split; [|exact Hfs']. destruct Hphase as [Hf|[Hb|Hp]].
  - destruct Hf as (Hc & He & Hh & Ho & p & Hp & Hpe). assert (in_section s = true) as Hin by (apply in_section_caller; congruence).
    destruct a as [|b| |b|c| | | |t' r]; try done.
    + apply start_waited_moves in Hs as (_ & -> & _ & Hth & _ & Hrest). rewrite He, Hh in Hrest. destruct Hrest as (Hc' & Ht' & Hh' & Hd').
      right. left. unfold stop_blocked, only_thread. rewrite Hth. eauto 10.
    + apply stop_waited_moves in Hs as (fs & Hx & _). congruence.
    + apply called_moves in Hs as (Hx & _). congruence.
    + apply enter_moves in Hs as (Hx & _). congruence.
    + cbn [step] in Hs. by rewrite Hin in Hs.
    + apply other_moves in Hs as (Hob & Hth & _ & Hca); [|eauto]. left. unfold failing_start, only_thread. rewrite Hob, Hth, Hca. eauto 10.
    + apply thread_moves in Hs as (q & q' & Hq & Hth & Hturn & Hk & Hca & _ & _ & Hse).
      pose proof (only_thread_turn _ _ _ _ _ _ _ Ho Hq Hturn) as ->. assert (q = p) as -> by congruence. rewrite Hin in Hturn.
      left. unfold failing_start, only_thread. rewrite Hca, (same_thread _ _ Hk), Hse, Hth by by destruct Hpe as [-> |(hr & l & ->)].
      repeat (split; [done|]). split; [by apply only_thread_insert|]. exists q'. split; [apply list_lookup_insert_eq; by eapply lookup_lt_Some|].
      destruct Hpe as [-> |(hr & l & ->)]; inversion Hturn; subst; [done|by left].
  - destruct (stop_blocked_step _ _ _ _ _ ending_early_not_ended ending_early_turn Hb Hs) as [Hb'|(Hc & Hr & Ht & Hh & Hd & Ho & Hth)]; [by right; left|].
    right. right. destruct Hb as (_ & _ & _ & _ & _ & p & Hp & Hpe). unfold shutdown_pending. rewrite Hth. eauto 12.
  - right. right. destruct Hp as (Hc & Hr & Ht & Hh & Hd & Ho & p & Hp & Hpe). destruct a as [|b| |b|c| | | |t' r]; try done.
    + apply start_waited_moves in Hs as (Hx & _). destruct Hc; congruence.
    + apply stop_waited_moves in Hs as (fs & Hx & _). destruct Hc; congruence.
    + apply called_moves in Hs as (_ & Hk & Hd' & _ & Hth & Hr' & Hc'). unfold shutdown_pending, only_thread.
      rewrite (same_transporting _ _ Hk), (same_thread _ _ Hk), Hd', Hth, Hr'. eauto 12.
    + apply other_moves in Hs as (Hob & Hth & Hr' & Hca); [|eauto]. unfold shutdown_pending, only_thread. rewrite Hob, Hth, Hca, Hr'. eauto 12.
    + apply other_moves in Hs as (Hob & Hth & Hr' & Hca); [|eauto]. unfold shutdown_pending, only_thread. rewrite Hob, Hth, Hca, Hr'. eauto 12.
    + apply other_moves in Hs as (Hob & Hth & Hr' & Hca); [|eauto]. unfold shutdown_pending, only_thread. rewrite Hob, Hth, Hca, Hr'. eauto 12.
    + apply thread_moves in Hs as (q & q' & Hq & Hth & Hturn & Hk & Hca & Hr' & _).
      pose proof (only_thread_turn _ _ _ _ _ _ _ Ho Hq Hturn) as ->. assert (q = p) as -> by congruence.
      unfold shutdown_pending, only_thread. rewrite Hca, (same_transporting _ _ Hk), (same_thread _ _ Hk), Hth, Hr'.
      split; [done|]. split; [done|]. split; [done|]. split; [done|].
      split; [destruct Hpe as [[-> |(hr & l & ->)]| ->]; inversion Hturn; by subst|]. split; [by apply only_thread_insert|].
      exists q'. split; [apply list_lookup_insert_eq; by eapply lookup_lt_Some|].
      destruct Hpe as [[-> |(hr & l & ->)]| ->]; inversion Hturn; subst; [by right|by left; left].
Qed.

(** *** The start after that *)

Definition calm (p : place) : Prop := p <> Starting /\ (forall l, p <> Waiting l) /\ (forall l, p <> Entering l).

(** Only thread [n] may still come to a wait, which the event of the shutdown will end. *)
Definition shut_down_first (n : nat) (s : system) : Prop :=
  (forall t p, threads s !! t = Some p -> calm p \/ (t = n /\ shutdown s = true /\ (p = Starting \/ exists l, p = Waiting l))) /\
  (caller s = InStart \/ (exists fs, caller s = InStop fs) -> thread_handle s = Some n).

Lemma calm_turn locked down p p' down' : calm p -> turn locked down p p' down' -> calm p' /\ down' = down.
Proof.
  intros (H1' & H2' & H3') Hturn. inversion Hturn as [|l|l|l|l|l hr|hr l early|]; subst; try done; try by destruct (H2' l); try by destruct (H3' l).
  by destruct early.
Qed.

Lemma shut_down_first_step n a s s' : quiet a -> shut_down_first n s -> step a s = Moves s' -> shut_down_first n s'.
Proof.
  intros [Hq1 Hq2] [Hp Hn] Hs. unfold shut_down_first. destruct a as [|b| |b|c| | | |t r]; try done.
  - apply start_waited_moves in Hs as (Hc & _ & _ & -> & _ & Hrest). specialize (Hn (or_introl Hc)). rewrite Hn in Hrest. destruct b.
    + destruct Hrest as (-> & _ & _ & -> & ->). done.
    + destruct Hrest as (-> & _ & -> & ->). split; [|done]. intros t p Hl. destruct (Hp t p Hl) as [|(-> & _ & Hr)]; [by left|right; done].
  - apply stop_waited_moves in Hs as (fs & Hc & Hb & -> & _ & _ & -> & -> & _ & -> & _). rewrite Hn in Hb by eauto. cbn in Hb.
    split; [|intros [|[? ?]]; done]. intros t p Hl. destruct (Hp t p Hl) as [|(-> & Hd & Hr)]; [by left|]. rewrite Hl in Hb.
    right. destruct Hr as [-> |[l ->]]; subst b; eauto.
  - apply called_moves in Hs as (_ & Hk & -> & _ & -> & _ & Hc). split; [done|]. intros [Hx|[fs Hx]]; destruct Hc; congruence.
  - apply other_moves in Hs as (-> & -> & _ & ->); [done|eauto].
  - apply other_moves in Hs as (-> & -> & _ & ->); [done|eauto].
  - apply other_moves in Hs as (-> & -> & _ & ->); [done|eauto].
  - apply thread_moves in Hs as (p & p' & Hl & Hth & Hturn & Hk & Hc & _). rewrite Hc, Hth, (same_thread _ _ Hk). split; [|done].
    destruct (Hp t p Hl) as [Hcalm|(-> & Hd & Hr)].
    + destruct (calm_turn _ _ _ _ _ Hcalm Hturn) as [Hcalm' ->]. intros t' q Hl'.
      destruct (decide (t' = t)) as [-> |Hne]; [|rewrite list_lookup_insert_ne in Hl' by done; eauto].
      rewrite list_lookup_insert_eq in Hl' by (by eapply lookup_lt_Some). injection Hl' as <-. by left.
    + intros t' q Hl'. destruct (decide (t' = n)) as [-> |Hne].
      * rewrite list_lookup_insert_eq in Hl' by (by eapply lookup_lt_Some). injection Hl' as <-.
        destruct Hr as [-> |[l ->]]; inversion Hturn as [p1 Hcases| | |l0 hr| | | |]; subst; try congruence; try (by left).
        destruct Hcases as [-> |[(hr & l & ->)|(l & ->)]]; [by left..|]. right. rewrite Hd in *. eauto.
      * rewrite list_lookup_insert_ne in Hl' by done. destruct (Hp t' q Hl') as [|(-> & _)]; [by left|done].
Qed.

(** A start whose thread ends before it has set the event of its start always fails, and
    leaves the event of the shutdown set, because the thread waits for the critical section
    that the start holds while it waits for the thread.  If the next start returns, its
    thread ends at its first wait without a turn of its loop. *)
Theorem failed_start_spoils_next t s l1 s1 l2 s2 :
  failing_start t s -> Forall quiet l1 -> run l1 s = Moves s1 -> caller s1 = Idle ->
  Forall quiet l2 -> run (StartTransport_called :: l2) s1 = Moves s2 ->
  result s1 = Some (-1) /\ transporting s1 = false /\ shutdown s1 = true /\
  forall t' p l, threads s2 !! t' = Some p -> p <> Entering l.
Proof.
  intros Hf Hl1 Hr1 Hc1 Hl2 Hr2.
  assert (failing_phases t s1 /\ (forall fs, caller s1 = InStop fs -> fs = true)) as [[Hx|[Hx|Hx]] _].
  { apply (run_invariant (fun s => failing_phases t s /\ (forall fs, caller s = InStop fs -> fs = true)) quiet l1 s s1); [|done| |done].
    - intros a sa sb Ha [Hpa Hfa] Hab. by eapply failing_step.
    - destruct Hf as (Hc & Hrest). split; [by left; split|]. intros fs. congruence. }
  - destruct Hx as (Hc & _). congruence.
  - destruct Hx as ((fs & Hc) & _). congruence.
  - destruct Hx as (_ & Hres & Ht & Hh & Hd & Ho & p & Hp & Hpe). split; [done|]. split; [done|]. split; [done|].
    cbn [run] in Hr2. destruct (step StartTransport_called s1) as [s1'| |] eqn:Hs; [|done..].
    assert (shut_down_first (length (threads s1)) s1') as Hfirst.
    { assert (forall t' q, threads s1 !! t' = Some q -> calm q) as Hcalm.
      { intros t' q Hq. destruct (decide (t' = t)) as [-> |Hne]; [|by rewrite (Ho t' q Hq Hne)].
        assert (q = p) as -> by congruence. by destruct Hpe as [[-> |(hr & l & ->)]| ->]. }
      apply start_moves in Hs as (_ & Hd' & _ & _ & _ & [(Hc & Hth & _)|(Hc & Hth & Hh' & _)]); (split; [|rewrite Hc; intros [|[? ?]]; done]); rewrite Hth.
      - intros t' q Hq. left. by eapply Hcalm.
      - intros t' q [Hq|[Hge Hq]]%lookup_app_Some; [left; by eapply Hcalm|]. right.
        destruct (t' - length (threads s1))%nat eqn:Hsub; [|done]. injection Hq as <-. split; [lia|]. split; [congruence|by left]. }
    assert (shut_down_first (length (threads s1)) s2) as [Hp2 _].
    { eapply (run_invariant (shut_down_first _)); [|exact Hl2|exact Hfirst|exact Hr2]. intros a sa sb. by apply shut_down_first_step. }
    intros t' q l Hq ->. destruct (Hp2 t' _ Hq) as [(_ & _ & Hcalm)|(_ & _ & [|[? ?]])]; [by apply (Hcalm l)|done..].
Qed.

(** *** A stop during a turn *)

(** A stop that takes the critical section before a turn of the loop always times out: the
    thread keeps waiting for the critical section until the stop gives up and returns -1,
    with the event of the shutdown set. *)
Theorem stop_before_turn_times_out t s l s' :
  stop_blocked (fun p => exists l, p = Entering l) t s -> Forall quiet l -> run l s = Moves s' -> caller s' = Idle ->
  result s' = Some (-1) /\ transporting s' = false /\ thread_handle s' = None.
Proof.
  intros Hb Hl Hr Hc.
  set (I s := stop_blocked (fun p => exists l, p = Entering l) t s \/
    ((caller s = Idle \/ caller s = Hung) /\ result s = Some (-1) /\ transporting s = false /\ thread_handle s = None)).
  assert (I s') as [Hx|Hx]; [| |tauto].
  - eapply (run_invariant I quiet); [|exact Hl|by left|exact Hr]. intros a sa sb [Hq1 Hq2] [Hx|(Hca & Hre & Ht & Hh)] Hs.
    + destruct (stop_blocked_step (fun p => exists l, p = Entering l) t a sa sb) as [|(? & ? & ? & ? & _)]; [by intros p [? ->]| |done|done|by left|right; by eauto].
      intros p p' down' [l0 ->] Hturn. inversion Hturn. done.
    + right. destruct a as [|b| |b|c| | | |t' r]; try done.
      * apply start_waited_moves in Hs as (? & _). destruct Hca; congruence.
      * apply stop_waited_moves in Hs as (fs & ? & _). destruct Hca; congruence.
      * apply called_moves in Hs as (_ & Hk & _ & _ & _ & -> & Hc'). by rewrite (same_transporting _ _ Hk), (same_thread _ _ Hk).
      * apply other_moves in Hs as (-> & _ & -> & ->); eauto.
      * apply other_moves in Hs as (-> & _ & -> & ->); eauto.
      * apply other_moves in Hs as (-> & _ & -> & ->); eauto.
      * apply thread_moves in Hs as (q & q' & _ & _ & _ & Hk & -> & -> & _). by rewrite (same_transporting _ _ Hk), (same_thread _ _ Hk).
  - destruct Hx as ((fs & Hx) & _). congruence.
Qed.

(** *** The caller always gets away *)

Lemma stop_returns s fs : caller s = InStop fs ->
  exists b s', step (StopTransport_waited b) s = Moves s' /\ caller s' = Idle /\ transporting s' = false /\ thread_handle s' = None.
Proof.
  intros Hc. set (b := match thread_handle s ≫= (threads s !!.) with Some Terminated => true | _ => false end).
  exists b. assert (exists s', step (StopTransport_waited b) s = Moves s') as [s' Hs].
  { cbn [step]. rewrite Hc. fold b. rewrite Bool.eqb_reflx. destruct b; eexists; reflexivity. }
  exists s'. split; [done|]. by apply stop_waited_moves in Hs as (? & _ & _ & -> & _ & -> & -> & _).
Qed.

(** Whatever the threads have done, a start or a stop that waits comes back after at most
    two waits, and keeps the handle of the thread only if the device then transports. *)
Theorem caller_returns s : reachable (fun _ => True) s -> caller s = InStart \/ (exists fs, caller s = InStop fs) ->
  exists l s', Forall (fun a => exists b, a = StartTransport_waited b \/ a = StopTransport_waited b) l /\ (length l <= 2)%nat /\
    run l s = Moves s' /\ caller s' = Idle /\ thread_handle s' = (if transporting s' then thread_handle s else None).
Proof.
  intros Hr. apply control_invariant in Hr as [_ Hcc]. intros [Hc|[fs Hc]]; rewrite Hc in Hcc; destruct Hcc as [Ht Hh].
  - assert (exists s1, step (StartTransport_waited (started_event s)) s = Moves s1) as [s1 Hs1].
    { cbn [step]. rewrite Hc, Bool.eqb_reflx. unfold block, mbind, com_bind. cbn. destruct (started_event s); cbn; [by eexists|].
      unfold Helper.StopTransport_begin, mbind, com_bind. cbn. destruct (thread_handle s); cbn; by eexists. }
    pose proof (start_waited_moves _ _ _ Hs1) as (_ & _ & _ & _ & _ & Hrest). destruct (started_event s) eqn:He.
    + destruct Hrest as (Hc1 & _ & Ht1 & Hh1 & _). exists [StartTransport_waited true], s1.
      split; [repeat constructor; eauto|]. split; [cbn; lia|]. cbn [run]. rewrite Hs1, Ht1. done.
    + destruct (thread_handle s) as [t|]; [|done]. destruct Hrest as (Hc1 & _). destruct (stop_returns s1 true Hc1) as (b & s2 & Hs2 & Hc2 & Ht2 & Hh2).
      exists [StartTransport_waited false; StopTransport_waited b], s2. split; [repeat constructor; eauto|]. split; [cbn; lia|].
      cbn [run]. rewrite Hs1, Hs2, Ht2. done.
  - destruct (stop_returns s fs Hc) as (b & s2 & Hs2 & Hc2 & Ht2 & Hh2). exists [StopTransport_waited b], s2.
    split; [repeat constructor; eauto|]. split; [cbn; lia|]. cbn [run]. rewrite Hs2, Ht2. done.
Qed.

End System.

(** ** Examples

    A recording device whose client fails to start the first time. *)

Module Example.
Import AudioDevice.Example.
#[local] Existing Instance audio_system.
#[local] Existing Instance ascii_only.
#[local] Existing Instance capture_device.

Section Example.
Variable start_fails : bool.
#[local] Instance runtime : WinRT := audio_runtime start_fails.

Definition ready : system := initial (microphone start_fails).1 (microphone start_fails).2.

Lemma microphone_unstarted : unstarted (microphone start_fails).1.
Proof. destruct start_fails; vm_compute; by repeat split. Qed.

Lemma run_reachable (P : label -> Prop) l (s s' : system) : reachable P s -> Forall P l -> run l s = Moves s' -> reachable P s'.
Proof.
  intros Hs Hl. revert s Hs. induction Hl as [|a l Ha Hl IH]; intros s Hs; cbn [run]; [by intros [= <-]|].
  destruct (step a s) as [s1| |] eqn:Hs1; [|done..]. apply IH. by eapply reachable_step.
Qed.

(** The state a run leads to. *)
Definition after (l : list label) (s : system) : system := match run l s with Moves s' => s' | _ => s end.
Definition goes (l : list label) (s : system) : bool := match run l s with Moves _ => true | _ => false end.

Lemma after_run l s : goes l s = true -> run l s = Moves (after l s).
Proof. unfold goes, after. by destruct (run l s). Qed.

End Example.

Definition is_idle (c : caller_place) : bool := match c with Idle => true | _ => false end.

(** A start, and a stop that the thread follows. *)
Definition started_labels : list label := [StartTransport_called; Thread 0 TimedOut; StartTransport_waited true].
Definition stopped_labels : list label :=
  [StopTransport_called; Thread 0 ShutdownEvent; Thread 0 TimedOut; Thread 0 TimedOut; StopTransport_waited true].

Lemma control_invariant_witness :
  let s := after false started_labels (ready false) in
  control_consistent s /\ _transporting (object s) = true /\ _hThread (object s) = Some 0%nat.
Proof.
  cbv zeta. split; [|split; vm_compute; reflexivity].
  apply (@control_invariant (audio_runtime false) _ _ _ _ _).
  apply (run_reachable false _ started_labels (ready false)).
  - apply reachable_initial, microphone_unstarted.
  - repeat constructor.
  - apply after_run. vm_compute. reflexivity.
Defined.

Lemma joined_invariant_witness :
  let s := after false (started_labels ++ stopped_labels) (ready false) in
  one_thread s /\ (caller s = Idle -> _transporting (object s) = false ->
    _hShutdownEvent (object s) = false /\ Forall (fun p => p = Terminated) (threads s)).
Proof.
  cbv zeta. apply (@joined_invariant (audio_runtime false) _ _ _ _ _).
  apply (run_reachable false _ (started_labels ++ stopped_labels) (ready false)).
  - apply reachable_initial, microphone_unstarted.
  - repeat constructor; discriminate.
  - apply after_run. vm_compute. reflexivity.
Defined.

(** The client fails to start: the thread is on its way out while the start waits; the
    start gives up; the device is started again, with success. *)
Definition spoiling_labels : list label := [StartTransport_called; Thread 0 TimedOut].
Definition giving_up_labels : list label :=
  [Thread 0 TimedOut; StartTransport_waited false; StopTransport_waited false; Thread 0 TimedOut].
Definition next_labels : list label :=
  [Thread 1 TimedOut; StartTransport_waited true; Thread 1 ShutdownEvent; Thread 1 TimedOut; Thread 1 TimedOut].

(** There is one thread, at such a place. *)
Definition one_at `{WinRT} (f : place -> bool) (s : system) : bool := match threads s with [p] => f p | _ => false end.

Lemma one_at_thread `{WinRT} (f : place -> bool) s : one_at f s = true ->
  only_thread 0 s /\ exists p, threads s !! 0%nat = Some p /\ f p = true.
Proof.
  unfold one_at, only_thread. destruct (threads s) as [|p [|q l]]; [done| |done]. intros Hf.
  split; [intros [|[|t]] q; done|]. by exists p.
Qed.

Definition is_ending `{WinRT} (p : place) : bool := match p with Finishing | Exiting _ _ true => true | _ => false end.
Definition is_terminated `{WinRT} (p : place) : bool := match p with Terminated => true | _ => false end.
Definition is_starting `{WinRT} (p : place) : bool := match p with Starting => true | _ => false end.
Definition is_entering `{WinRT} (p : place) : bool := match p with Entering _ => true | _ => false end.

Lemma failing_microphone : failing_start 0 (after true spoiling_labels (ready true)).
Proof.
  unfold failing_start. split; [vm_compute; reflexivity|]. split; [vm_compute; reflexivity|]. split; [vm_compute; reflexivity|].
  destruct (one_at_thread is_ending (after true spoiling_labels (ready true))) as (Ho & p & Hp & Hf); [vm_compute; reflexivity|].
  split; [exact Ho|]. exists p. split; [exact Hp|]. destruct p as [| | | |hr l []| |]; try discriminate Hf; [right; by exists hr, l|by left].
Qed.

Lemma failed_start_spoils_next_witness :
  let s1 := after true giving_up_labels (after true spoiling_labels (ready true)) in
  let s2 := after true (StartTransport_called :: next_labels) s1 in
  (result s1 = Some (-1) /\ _transporting (object s1) = false /\ _hShutdownEvent (object s1) = true /\
   forall t p l, threads s2 !! t = Some p -> p <> Entering l) /\
  result s2 = Some 0 /\ _transporting (object s2) = true /\ forallb is_terminated (threads s2) = true.
Proof.
  cbv zeta. split.
  - apply (@failed_start_spoils_next (audio_runtime true) _ _ _ _ _ 0 (after true spoiling_labels (ready true)) giving_up_labels _ next_labels).
    + apply failing_microphone.
    + repeat constructor; discriminate.
    + apply after_run. vm_compute. reflexivity.
    + vm_compute. reflexivity.
    + repeat constructor; discriminate.
    + apply after_run. vm_compute. reflexivity.
  - split; [vm_compute; reflexivity|]. split; vm_compute; reflexivity.
Defined.

(** A stop before a turn of the loop. *)
Definition turn_labels : list label := started_labels ++ [Thread 0 SamplesReadyEvent; StopTransport_called].

Lemma stop_before_turn_times_out_witness :
  let s := after false turn_labels (ready false) in
  let s' := after false [StopTransport_waited false] s in
  result s' = Some (-1) /\ _transporting (object s') = false /\ _hThread (object s') = None.
Proof.
  cbv zeta. apply (@stop_before_turn_times_out (audio_runtime false) _ _ _ _ _ 0 (after false turn_labels (ready false)) [StopTransport_waited false]).
  - unfold stop_blocked. split; [exists false; vm_compute; reflexivity|]. do 3 (split; [vm_compute; reflexivity|]).
    destruct (one_at_thread is_entering (after false turn_labels (ready false))) as (Ho & p & Hp & Hf); [vm_compute; reflexivity|].
    split; [exact Ho|]. exists p. split; [exact Hp|]. destruct p as [| |l| | | |]; try discriminate Hf. by exists l.
  - repeat constructor; discriminate.
  - apply after_run. vm_compute. reflexivity.
  - vm_compute. reflexivity.
Defined.

Lemma caller_returns_witness :
  let s := after false [StartTransport_called] (ready false) in
  exists l s', Forall (fun a => exists b, a = StartTransport_waited b \/ a = StopTransport_waited b) l /\ (length l <= 2)%nat /\
    run l s = Moves s' /\ caller s' = Idle /\ _hThread (object s') = (if _transporting (object s') then _hThread (object s) else None).
Proof.
  cbv zeta. apply (@caller_returns (audio_runtime false) _ _ _ _ _).
  - apply (run_reachable false _ [StartTransport_called] (ready false)).
    + apply reachable_initial, microphone_unstarted.
    + repeat constructor.
    + apply after_run. vm_compute. reflexivity.
  - left. vm_compute. reflexivity.
Defined.

(** After a start that was slow, the event of the start stays set; the next start returns
    before its thread has done anything. *)
Lemma slow_start_leaves_event :
  let s := after false ([StartTransport_called; StartTransport_waited false; Thread 0 TimedOut; Thread 0 ShutdownEvent;
    Thread 0 TimedOut; Thread 0 TimedOut; StopTransport_waited true]) (ready false) in
  let s' := after false [StartTransport_called; StartTransport_waited true] s in
  result s = Some (-1) /\ _hStartedEvent (object s) = true /\
  result s' = Some 0 /\ _transporting (object s') = true /\ map is_starting (threads s') = [false; true].
Proof. cbv zeta. repeat split; vm_compute; reflexivity. Qed.

(** Terminating the device does not stop its thread. *)
Lemma terminate_leaves_thread :
  (match run (started_labels ++ [Terminate_called; Thread 0 SamplesReadyEvent]) (ready false) with Crashes => true | _ => false end) = true.
Proof. vm_compute. reflexivity. Qed.

End Example.
